(* ===== verification/_CoqProject ===== *)
-Q . S2P
Prelude.v
Pos.v
Ack.v
DirtyTree.v
Rewrite.v
WalPage.v
Walker.v
WalkerChunks.v
WalkerLow.v
Text.v
WalRecord.v
XactPayload.v
Fpi.v
PgClass.v
CatalogTracker.v
CatalogSlots.v
XidCeiling.v
ShadowRelations.v
Filter.v
FilterProofs.v
ResumePrefix.v
WalStream.v
WalStreamProofs.v
WalWire.v
AsciiBuf.v
Numeric.v
Decimal.v
TextArray.v
Jsonb.v
HeapDecode.v
HeapDecodeProofs.v
Wire.v
DescCodec.v
Spill.v
SpillProofs.v
ToastRef.v
ToastRefProofs.v
XactBuffer.v
XactBufferProofs.v
DescLog.v
DescLogProofs.v
DescLogFile.v
Pending.v
XactDrain.v
XactMerge.v
XactReplay.v
XactHistory.v
ChunkStore.v
ChunkStoreProofs.v
Detoast.v
DetoastProofs.v
Compat.v
Visibility.v
VisibilityProofs.v
Outbox.v
Plan.v
PlanProofs.v
Planner.v
Rules.v
TablePlan.v
SchemaFold.v
SchemaFoldProofs.v
Encoder.v
EncoderProofs.v
EncoderBlocks.v
Batcher.v
BatcherProofs.v
OutboxProofs.v
SinkProofs.v
SinkLive.v
