(* ===== verification/Prelude.v ===== *)
(** * walshadow: a verification development

    walshadow reads the write-ahead log of a PostgreSQL source, keeps a shadow
    PostgreSQL server that replays only the catalog, decodes the heap records of
    committed transactions against the shapes that catalog had at each position,
    and inserts the rows into ClickHouse.  This library models the path of a
    change from the source's bytes to the acknowledged insert, as functions on
    explicit states translated from the Rust sources under [src/], and proves
    what each part promises to the next.

    ** The program's parts and where they are modelled

    Bytes to records.  [WalPage] (source/wal_page.rs) parses page headers;
    [Walker] (source/streaming_walker.rs) is the page state machine that stitches
    records and rewrites them in place, [WalkerChunks] and [WalkerLow] its
    independence of chunking and its low-water mark; [Rewrite] (filter/rewrite.rs)
    the no-op a suppressed record becomes; [WalStream] with [WalStreamProofs] and
    [WalWire] (source/wal_stream.rs) the pump that feeds the walker, asks the
    filter, ships the shadow's bytes, dispatches records and archives segments;
    [ResumePrefix] (source/resume_prefix.rs) the continuation spliced in at a
    restart; [Pos] (pos.rs) the monotone position cells.

    Which records the shadow sees.  [WalRecord] (filter/classify.rs,
    filter/main_data.rs), [XactPayload] (decode/wal_xact.rs) and [Fpi]
    (decode/fpi.rs) parse what the filter reads; [PgClass]
    (filter/pg_class_decoder.rs), [CatalogTracker] and [CatalogSlots]
    (filter/catalog_tracker.rs) keep the set of catalog relfilenodes; [DirtyTree]
    (filter/dirty_tree.rs) the transactions with catalog writes in flight;
    [ShadowRelations] (filter/shadow_relations.rs) relations replayed as well;
    [XidCeiling] (toast/xid_ceiling.rs) the highest xid by position; [Filter] and
    [FilterProofs] (filter/engine.rs) the routing of every record.

    Shapes.  [DescCodec], [DescLog], [DescLogProofs], [DescLogFile]
    (catalog/desc_log.rs) are the log of relation descriptors, its lookups,
    compaction and files; [Pending] (catalog/pending.rs) the shapes of a
    transaction's own commands; [Compat] (catalog/compat.rs) whether a later
    shape may read earlier rows.

    Rows.  [HeapDecode] and [HeapDecodeProofs] (decode/heap_decoder.rs, schema.rs)
    decode heap records; [AsciiBuf], [Numeric], [TextArray], [Jsonb]
    (ascii_buf.rs, decode/codecs) the datums; [Visibility] and [VisibilityProofs]
    (decode/visibility.rs) the tuples of a base backup.

    Transactions.  [XactBuffer], [XactBufferProofs] (xact/xact_buffer.rs) hold
    open transactions under a memory budget; [Wire], [Spill], [SpillProofs]
    (xact/spill.rs) their spill files; [XactDrain], [XactMerge], [XactReplay],
    [XactHistory] what a commit drains; [ToastRef], [ToastRefProofs],
    [ChunkStore], [ChunkStoreProofs], [Detoast], [DetoastProofs]
    (toast/resolver.rs and the drain) out-of-line values.

    Destination.  [Rules] (table_rules.rs, column_rules.rs, mapping.rs) is the
    layered configuration of tables, columns and system columns; [TablePlan]
    (emit/route.rs, emit/ch_emitter.rs) routes and column plans; [SchemaFold] and
    [SchemaFoldProofs] (schema.rs, mapping.rs, catalog/type_bridge.rs,
    emit/ch_ddl.rs) schema changes; [Plan], [PlanProofs], [Planner]
    (emit/pipeline/plan_spool.rs, planner.rs) the plan of a commit; [Decimal],
    [Encoder], [EncoderProofs], [EncoderBlocks] (emit/ch_emitter.rs,
    ops/oracle.rs, emit/pipeline/resolver.rs) the blocks and the requests for
    columns the shadow renders; [Batcher], [BatcherProofs]
    (emit/pipeline/batcher.rs) the insert batches; [Ack], [Outbox],
    [OutboxProofs], [SinkProofs], [SinkLive] (emit/pipeline/ack.rs, decode.rs,
    reorder.rs) the execution of plans and the durable watermark.

    ** How they meet

    The pump calls the filter on every record; the filter's decision is the
    record's fate on the shadow wire and its route to the decoder.  Decoded
    heaps enter the transaction buffer; a commit drains it, the planner turns the
    drain into a plan under frozen routes, the sink executes the plan, the
    batcher encodes its rows and the collector turns acknowledgements into the
    position the source may forget.  Theorems are stated across these seams where
    the code has them: [commit_plans_history] joins buffer, spill files, merge,
    detoasting, planner and plan file; [sink_keeps_plan_order] and [sink_drains]
    run the sink, the collector and the inserters together in any interleaving;
    [flush_seals_all] gives the counts [collector_matches_model] waits for.

    ** Conventions

    A [uN] is a [Z] within [fits N], with [wrap], [uadd] and [usub] where the
    source wraps or the release build would; bytes and strings are lists of [Z];
    hash maps are [gmap]s, and where the source iterates one the order is an
    argument; errors are [result]s with the source's variants, a panic an error
    or [None] that the theorems exclude.  Files are their contents, channels the
    lists of what was sent, awaits the points where other parties may step.  Code
    of other crates (CRC32C, pglz and lz4, the record parser, glob and regex, the
    ClickHouse type parser and its ALTER TABLE) and services is a class or section
    parameter with its documented laws, and every theorem that uses such laws is
    applied to an instance in its witness.

    ** What the theorems show

    - the wire: what reached the shadow is the archive followed by what is still
      in flight, records dispatch behind their bytes and in order, however the
      socket cuts the stream, and every push returns ([WalWire],
      [WalStreamProofs], [WalkerChunks], [Walker]);
    - routing: no suppressed record names catalog storage, user records wait
      exactly for the dirt of their own transaction tree ([FilterProofs]);
    - shapes: the log's answers survive compaction and restart, a reader the
      compatibility check lets pass reads old rows as before ([DescLogProofs],
      [DescLogFile], [Compat]);
    - decoding: PostgreSQL's tuple layout and jsonb containers read back what was
      stored ([HeapDecodeProofs], [Jsonb]), visibility verdicts are final
      ([VisibilityProofs]);
    - transactions: the buffer refines a specification without budgets or files,
      a commit drains its history whatever was spilled and however it is sliced,
      the resume position is exact ([XactHistory], [SpillProofs]);
    - out-of-line values reassemble, the store answers by version, and batching
      and caching change no row ([ToastRefProofs], [ChunkStoreProofs],
      [DetoastProofs]);
    - plans replay what was pushed, a damaged file is refused, and the plan of a
      commit is its history ([PlanProofs], [Planner]);
    - schema changes: the mapping follows any chain of descriptors and, when names
      do not collide, the statements give the destination the mapped columns
      ([SchemaFoldProofs]); configuration entries resolve by rank ([Rules]);
    - blocks are well typed and hold the rows appended, decimals are exact, a
      request fits its frame, batches conserve rows, a flush leaves none behind,
      buffers stay within their budgets ([EncoderProofs], [EncoderBlocks],
      [Decimal], [BatcherProofs]);
    - acknowledgement: the incremental collector is the full-history model, the
      watermark stays below what is not durable, and a run can always be completed
      ([Ack], [SinkLive]).

    Four theorems and lemmas beside them record behaviour the code does not
    intend: [final_slice_drops_rows] ([XactHistory]), [gc_crash_window_refused]
    ([DescLogFile]), [readded_column_lost] and its neighbours ([SchemaFoldProofs]),
    [long_literal_refused] ([TablePlan]).

    ** Bounds and fuel

    Loops that are not structural take fuel computed from their input, and the
    fuel is proved enough: the walker's turns by [try_next_sound] ([turns]:
    one per buffered byte and a page more), the pump's loops by
    [push_total] from [record_fuel] and [segment_fuel], the collector's scan by
    the number of registered seqs ([scan_stops]), eviction by the resident bytes
    ([maybe_evict_spec]), the merge and the slices by [merge_fuel] and
    [slice_fuel] ([next_go_spec], [fill_slice_spec]), spill and plan readers by
    the bytes left ([reader_fuel_stream], [plan_read_spec]).  Pulling a commit has
    no bound in its input alone: the theorems say that from some number of turns on
    the result is the stated one.  Jsonb nesting and descriptor ancestors are
    bounded as in the source.

    ** Not modelled

    - processes, sockets and protocols: the replication client, the walsender for
      the shadow, ClickHouse and Snowflake clients, object stores, the control
      socket, metrics, command lines (source/source_feed.rs,
      source/shadow_stream.rs, ch.rs, ops/, bin/): they have no result a theorem
      of this kind could be about beyond the bytes and rows, which are the inputs
      and outputs of the models;
    - scheduling: tasks, bounded queues, memory permits and time limits
      (source/queueing_record_sink.rs, budget.rs, tenants.rs,
      source/boundary_hold.rs); where interleaving matters for order or durability
      (sink, collector, inserters) it is a step relation;
    - SQL against servers: catalog queries, COPY backfill, runtime configuration
      tables, CREATE, DROP and DETACH of destination tables (catalog/shadow_catalog.rs,
      backfill/copy_backfill.rs, runtime_config.rs, the rest of emit/ch_ddl.rs,
      toast/shadow_store.rs);
    - the bootstrap and base backup readers around the modelled visibility
      (backfill/, emit/pipeline/bootstrap.rs), the Snowflake destination
      (destination/), configuration parsing through serde (config.rs);
    - the C extension of the shadow (pgext/). *)
From Stdlib Require Export ZArith Lia List Bool Sorted.
From stdpp Require Export base tactics list gmap fin_maps fin_sets sets option numbers.
#[export] Set Default Goal Selector "!".

Open Scope Z_scope.

(** ** Fallible computations *)

(** Rust's [Result<A, E>]: every fallible routine returns one of these. *)
Inductive result (E A : Type) : Type :=
| Ok (a : A)
| Err (e : E).
Arguments Ok {E A} _.
Arguments Err {E A} _.

Declare Scope rust_scope.
Delimit Scope rust_scope with rust.

(** [let? x := e in k] is Rust's [let x = e?; k] on [result]. *)
Notation "'let?' x := e 'in' k" :=
  (match e with Ok x => k | Err err => Err err end)
  (at level 10, x pattern, e at level 100, k at level 200) : rust_scope.

(** [let* x := e in k] is Rust's [let x = e?; k] on [option]. *)
Notation "'let*' x := e 'in' k" :=
  (match e with Some x => k | None => None end)
  (at level 10, x pattern, e at level 100, k at level 200) : rust_scope.

Open Scope rust_scope.

Definition is_ok {E A} (r : result E A) : bool :=
  match r with Ok _ => true | Err _ => false end.

(** [Option::ok_or_else]. *)
Definition ok_or {E A} (o : option A) (e : E) : result E A :=
  match o with Some a => Ok a | None => Err e end.

(** [Option::or]. *)
Definition opt_or {A} (a b : option A) : option A :=
  match a with Some x => Some x | None => b end.

Definition is_some {A} (o : option A) : bool :=
  match o with Some _ => true | None => false end.

(** ** Machine integers

    A [w]-bit unsigned integer is a [Z] in [[0, 2^w)].  Release builds wrap
    on overflow, which is what [uadd] and [usub] spell out. *)

Definition fits (w z : Z) : Prop := 0 <= z < 2 ^ w.
Definition wrap (w z : Z) : Z := z mod 2 ^ w.
Definition uadd (w a b : Z) : Z := wrap w (a + b).
Definition usub (w a b : Z) : Z := wrap w (a - b).

(** Reinterpret a [w]-bit unsigned integer as two's-complement signed. *)
Definition signed (w z : Z) : Z := if z <? 2 ^ (w - 1) then z else z - 2 ^ w.

(** [saturating_sub] and [saturating_add] on unsigned [w]-bit integers. *)
Definition sat_sub (a b : Z) : Z := Z.max 0 (a - b).
Definition sat_add (w a b : Z) : Z := Z.min (2 ^ w - 1) (a + b).

Definition U64_MAX : Z := 2 ^ 64 - 1.

Lemma wrap_small w z : fits w z -> wrap w z = z.
Proof. intros H. apply Z.mod_small, H. Qed.

Lemma wrap_fits w z : 0 <= w -> fits w (wrap w z).
Proof. intros H. apply Z.mod_pos_bound. lia. Qed.

Lemma uadd_small w a b : fits w (a + b) -> uadd w a b = a + b.
Proof. apply wrap_small. Qed.

Lemma wrap_le w z : 0 <= w -> 0 <= z -> wrap w z <= z.
Proof. intros Hw Hz. apply Z.mod_le; lia. Qed.

Lemma uadd_le w a b : 0 <= w -> 0 <= a -> 0 <= b -> 0 <= uadd w a b <= a + b.
Proof.
  intros Hw Ha Hb. unfold uadd. split.
  - apply wrap_fits, Hw.
  - apply wrap_le; lia.
Qed.

(** ** Byte buffers

    Bytes are [Z]s in [[0, 256)]; buffers are lists of them, and offsets are
    [Z]s as the source's [usize]. *)

Definition byte_ok (b : Z) : Prop := 0 <= b < 256.
Definition bytes_ok (l : list Z) : Prop := Forall byte_ok l.

Definition zlen {A} (l : list A) : Z := Z.of_nat (length l).
Definition ztake {A} (n : Z) (l : list A) : list A := take (Z.to_nat n) l.
Definition zdrop {A} (n : Z) (l : list A) : list A := drop (Z.to_nat n) l.
Definition zrep {A} (n : Z) (x : A) : list A := replicate (Z.to_nat n) x.

(** [&l[a..b]], total: the part of the range inside the buffer. *)
Definition sub {A} (l : list A) (a b : Z) : list A := ztake (b - a) (zdrop a l).

(** [l.get(i)] and [l.get(a..b)]. *)
Definition zget {A} (l : list A) (i : Z) : option A :=
  if (0 <=? i) then l !! Z.to_nat i else None.
Definition get_range {A} (l : list A) (a b : Z) : option (list A) :=
  if (0 <=? a) && (a <=? b) && (b <=? zlen l) then Some (sub l a b) else None.

(** [l[i]] below a length check; reads past the end as 0. *)
Definition byte_at (l : list Z) (i : Z) : Z := default 0 (zget l i).

(** [l[off..off + new.len()].copy_from_slice(new)]. *)
Definition put {A} (l : list A) (off : Z) (new : list A) : list A :=
  ztake off l ++ new ++ zdrop (off + zlen new) l.

(** Little-endian decoding ([uN::from_le_bytes]) and encoding
    ([to_le_bytes]). *)
Fixpoint le_dec (l : list Z) : Z :=
  match l with [] => 0 | b :: r => b + 256 * le_dec r end.

Fixpoint le_enc (n : nat) (z : Z) : list Z :=
  match n with O => [] | S n => (z mod 256) :: le_enc n (z / 256) end.

Definition u16_at (l : list Z) (off : Z) : Z := le_dec (sub l off (off + 2)).
Definition u32_at (l : list Z) (off : Z) : Z := le_dec (sub l off (off + 4)).
Definition u64_at (l : list Z) (off : Z) : Z := le_dec (sub l off (off + 8)).
Definition i16_at (l : list Z) (off : Z) : Z := signed 16 (u16_at l off).
Definition i32_at (l : list Z) (off : Z) : Z := signed 32 (u32_at l off).
Definition i64_at (l : list Z) (off : Z) : Z := signed 64 (u64_at l off).

(** [align_up(n, align)] of [wal_page.rs] and [heap_decoder.rs] is
    [(n + align - 1) & !(align - 1)]: written with the mask, as there. *)
Definition align_up (n align : Z) : Z :=
  Z.land (n + align - 1) (Z.lnot (align - 1)).

(** ** Automation *)

Create HintDb walshadow discriminated.
#[export] Hint Constants Opaque : walshadow.

(** Length arithmetic of byte buffers. *)
Lemma zlen_nil {A} : zlen (@nil A) = 0.
Proof. reflexivity. Qed.
Lemma zlen_cons {A} (x : A) l : zlen (x :: l) = 1 + zlen l.
Proof. unfold zlen. simpl. lia. Qed.
Lemma zlen_app {A} (l k : list A) : zlen (l ++ k) = zlen l + zlen k.
Proof. unfold zlen. rewrite length_app. lia. Qed.
Lemma zlen_nonneg {A} (l : list A) : 0 <= zlen l.
Proof. unfold zlen. lia. Qed.
Lemma zlen_ztake {A} n (l : list A) : zlen (ztake n l) = Z.min (Z.max 0 n) (zlen l).
Proof. unfold zlen, ztake. rewrite length_take. lia. Qed.
Lemma zlen_zdrop {A} n (l : list A) : zlen (zdrop n l) = Z.max 0 (zlen l - Z.max 0 n).
Proof. unfold zlen, zdrop. rewrite length_drop. lia. Qed.
Lemma zlen_zrep {A} n (x : A) : zlen (zrep n x) = Z.max 0 n.
Proof. unfold zlen, zrep. rewrite length_replicate. lia. Qed.
Lemma zlen_le_enc n z : zlen (le_enc n z) = Z.of_nat n.
Proof. revert z. induction n; intros; simpl; rewrite ?zlen_cons, ?IHn; auto; lia. Qed.

Create Rewrite HintDb zlen.
#[export] Hint Rewrite @zlen_cons @zlen_app @zlen_ztake @zlen_zdrop
  @zlen_zrep zlen_le_enc : zlen.

(** [zlen]: normalise buffer lengths and finish with [lia]. *)
Ltac zlen :=
  autorewrite with zlen in *;
  repeat match goal with
         | |- context [@zlen ?A (@nil ?A)] => rewrite (@zlen_nil A)
         | H : context [@zlen ?A (@nil ?A)] |- _ => rewrite (@zlen_nil A) in H
         | |- context [zlen ?l] =>
             lazymatch goal with
             | _ : 0 <= zlen l |- _ => fail
             | _ => pose proof (zlen_nonneg l)
             end
         | _ : context [zlen ?l] |- _ =>
             lazymatch goal with
             | _ : 0 <= zlen l |- _ => fail
             | _ => pose proof (zlen_nonneg l)
             end
         end; try lia.

(** Split every boolean comparison in the goal and the context. *)
Ltac bsplit :=
  repeat match goal with
         | |- context [?a <? ?b] => destruct (Z.ltb_spec a b)
         | |- context [?a <=? ?b] => destruct (Z.leb_spec a b)
         | |- context [?a =? ?b] => destruct (Z.eqb_spec a b)
         end.

Ltac bsplit_in H :=
  repeat match type of H with
         | context [?a <? ?b] => destruct (Z.ltb_spec a b)
         | context [?a <=? ?b] => destruct (Z.leb_spec a b)
         | context [?a =? ?b] => destruct (Z.eqb_spec a b)
         end.

(** ** Bit fields: [n] low bits below a high part *)

Lemma land_low n hi lo : 0 <= n -> 0 <= lo < 2 ^ n -> Z.land (hi * 2 ^ n + lo) (Z.ones n) = lo.
Proof.
  intros Hn H. rewrite Z.land_ones by lia. rewrite Z.add_comm, Z.mod_add by lia. by apply Z.mod_small.
Qed.

Lemma land_high n hi lo m : 0 <= n -> 0 <= lo < 2 ^ n -> Z.land (hi * 2 ^ n + lo) (m * 2 ^ n) = Z.land hi m * 2 ^ n.
Proof.
  intros Hn H. rewrite <- !Z.shiftl_mul_pow2 by lia. apply Z.bits_inj'. intros k Hk.
  rewrite Z.land_spec, !Z.shiftl_spec by lia. rewrite Z.shiftl_mul_pow2 by lia.
  destruct (Z_lt_le_dec k n) as [Hl|Hl].
  - rewrite !(Z.testbit_neg_r _ (k - n)) by lia. by rewrite andb_false_r.
  - rewrite Z.land_spec. f_equal.
    replace k with (k - n + n) at 1 by lia. rewrite <- Z.shiftr_spec by lia. rewrite Z.shiftr_div_pow2 by lia.
    rewrite Z.div_add_l by lia. rewrite (Z.div_small lo) by lia. by rewrite Z.add_0_r.
Qed.

Lemma shiftr_high n hi lo : 0 <= n -> 0 <= lo < 2 ^ n -> Z.shiftr (hi * 2 ^ n + lo) n = hi.
Proof.
  intros Hn H. rewrite Z.shiftr_div_pow2 by lia. rewrite Z.div_add_l by lia. rewrite (Z.div_small lo) by lia. lia.
Qed.

(** ** Lemmas on byte buffers *)

Lemma le_dec_enc n z : le_dec (le_enc n z) = z mod 256 ^ Z.of_nat n.
Proof.
  revert z. induction n as [|n IH]; intros z.
  - simpl. rewrite Z.mod_1_r. reflexivity.
  - cbn [le_enc le_dec]. rewrite IH.
    rewrite Nat2Z.inj_succ, Z.pow_succ_r by lia.
    rewrite Z.rem_mul_r by lia. lia.
Qed.

Lemma le_dec_app l k : le_dec (l ++ k) = le_dec l + 256 ^ zlen l * le_dec k.
Proof.
  induction l as [|b l IH]; [simpl; unfold zlen; simpl; lia|]. cbn [app le_dec].
  rewrite IH, zlen_cons, Z.pow_add_r by (pose proof (zlen_nonneg l); lia). lia.
Qed.

Lemma le_dec_bound l : bytes_ok l -> 0 <= le_dec l < 256 ^ zlen l.
Proof.
  induction 1 as [|b l Hb _ IH].
  - vm_compute. split; congruence.
  - cbn [le_dec]. rewrite zlen_cons, (Z.add_comm 1), Z.add_1_r, Z.pow_succ_r by zlen.
    unfold byte_ok in Hb. lia.
Qed.

Lemma le_enc_ok n z : bytes_ok (le_enc n z).
Proof.
  revert z. induction n; intros z; constructor.
  - apply Z.mod_pos_bound. lia.
  - apply IHn.
Qed.

Lemma le_enc_dec l : bytes_ok l -> le_enc (length l) (le_dec l) = l.
Proof.
  induction 1 as [|b l Hb _ IH]; [done|].
  unfold byte_ok in Hb. cbn [length le_enc le_dec]. f_equal.
  - rewrite Z.mul_comm, Z.mod_add by lia. apply Z.mod_small, Hb.
  - rewrite Z.mul_comm, Z.div_add by lia. rewrite Z.div_small by lia. exact IH.
Qed.

(** Encoding then decoding a fitting integer gives it back. *)
Lemma le_dec_enc_small n z : 0 <= z < 256 ^ Z.of_nat n -> le_dec (le_enc n z) = z.
Proof. intros H. rewrite le_dec_enc. apply Z.mod_small, H. Qed.

Lemma ztake_app_exact {A} n (l k : list A) : n = zlen l -> ztake n (l ++ k) = l.
Proof.
  intros ->. unfold ztake, zlen. rewrite Nat2Z.id. apply take_app_length.
Qed.

Lemma zdrop_app_exact {A} n (l k : list A) : n = zlen l -> zdrop n (l ++ k) = k.
Proof.
  intros ->. unfold zdrop, zlen. rewrite Nat2Z.id. apply drop_app_length.
Qed.

Lemma ztake_app_le {A} n (l k : list A) : n <= zlen l -> ztake n (l ++ k) = ztake n l.
Proof. unfold ztake, zlen. intros H. apply take_app_le. lia. Qed.

Lemma zdrop_app_ge {A} n (l k : list A) :
  zlen l <= n -> zdrop n (l ++ k) = zdrop (n - zlen l) k.
Proof.
  unfold zdrop, zlen. intros H. rewrite drop_app_ge by lia. f_equal. lia.
Qed.

Lemma ztake_all {A} n (l : list A) : zlen l <= n -> ztake n l = l.
Proof. unfold ztake, zlen. intros H. apply take_ge. lia. Qed.

Lemma ztake_ztake {A} n m (l : list A) : ztake n (ztake m l) = ztake (Z.min n m) l.
Proof. unfold ztake. rewrite take_take. f_equal. lia. Qed.

Lemma zdrop_zdrop {A} n m (l : list A) :
  0 <= n -> 0 <= m -> zdrop n (zdrop m l) = zdrop (n + m) l.
Proof. unfold zdrop. intros. rewrite drop_drop. f_equal. lia. Qed.

Lemma ztake_zdrop_id {A} n (l : list A) : ztake n l ++ zdrop n l = l.
Proof. apply take_drop. Qed.

Lemma zlen_sub {A} (l : list A) a b :
  0 <= a <= b -> b <= zlen l -> zlen (sub l a b) = b - a.
Proof. intros. unfold sub. zlen. Qed.

Lemma zlen_put {A} (l : list A) off new :
  0 <= off -> off + zlen new <= zlen l -> zlen (put l off new) = zlen l.
Proof. intros. unfold put. zlen. Qed.

(** [put] on a buffer already split around the written range. *)
Lemma put_split {A} (a old new c : list A) off :
  off = zlen a -> zlen new = zlen old -> put (a ++ old ++ c) off new = a ++ new ++ c.
Proof.
  intros -> H. unfold put. rewrite ztake_app_exact by done. do 2 f_equal.
  rewrite zdrop_app_ge by zlen. rewrite zdrop_app_exact by lia. done.
Qed.

Lemma put_skip {A} (a l new : list A) off :
  zlen a <= off -> put (a ++ l) off new = a ++ put l (off - zlen a) new.
Proof.
  intros H. pose proof (zlen_nonneg a). pose proof (zlen_nonneg new). unfold put.
  rewrite zdrop_app_ge by lia. unfold ztake at 1.
  rewrite take_app_ge by (unfold zlen in *; lia). rewrite <- app_assoc. do 2 f_equal.
  - unfold ztake. f_equal. unfold zlen. lia.
  - do 2 f_equal. lia.
Qed.

Lemma put_here {A} (old new c : list A) off :
  off = 0 -> zlen new = zlen old -> put (old ++ c) off new = new ++ c.
Proof. intros -> H. exact (put_split [] old new c 0 eq_refl H). Qed.

Lemma put_all {A} (old new : list A) off :
  off = 0 -> zlen new = zlen old -> put old off new = new.
Proof. intros E H. rewrite <- (app_nil_r old), put_here by done. apply app_nil_r. Qed.

(** Push writes through a buffer laid out as a concatenation of fields. *)
Ltac puts := repeat first [rewrite put_here by zlen | rewrite put_skip by zlen | rewrite put_all by zlen].

Lemma zdrop_sub {A} (l : list A) a b :
  0 <= a <= b -> zdrop a l = sub l a b ++ zdrop b l.
Proof.
  intros H. unfold sub. rewrite <- (ztake_zdrop_id (b - a) (zdrop a l)) at 1.
  rewrite zdrop_zdrop by lia. do 2 f_equal. lia.
Qed.

Lemma zdrop_0 {A} (l : list A) : zdrop 0 l = l.
Proof. reflexivity. Qed.

Lemma sub_split {A} (a m c : list A) i j :
  i = zlen a -> j = i + zlen m -> sub (a ++ m ++ c) i j = m.
Proof.
  intros -> ->. unfold sub. rewrite zdrop_app_exact by done. apply ztake_app_exact. lia.
Qed.

Lemma sub_skip {A} (a l : list A) i j :
  zlen a <= i -> sub (a ++ l) i j = sub l (i - zlen a) (j - zlen a).
Proof. intros H. unfold sub. rewrite zdrop_app_ge by done. f_equal. lia. Qed.

Lemma sub_here {A} (m c : list A) i j :
  i = 0 -> j = zlen m -> sub (m ++ c) i j = m.
Proof. intros -> ->. exact (sub_split [] m c 0 (zlen m) eq_refl ltac:(lia)). Qed.

Lemma sub_all {A} (m : list A) i j : i = 0 -> j = zlen m -> sub m i j = m.
Proof. intros -> ->. rewrite <- (app_nil_r m) at 1. by apply sub_here. Qed.

Lemma byte_at_skip a l i : zlen a <= i -> byte_at (a ++ l) i = byte_at l (i - zlen a).
Proof.
  intros H. pose proof (zlen_nonneg a). unfold byte_at, zget.
  rewrite !(proj2 (Z.leb_le _ _)) by lia. f_equal.
  rewrite lookup_app_r by (unfold zlen in *; lia). f_equal. unfold zlen. lia.
Qed.

Lemma byte_at_here b l i : i = 0 -> byte_at (b :: l) i = b.
Proof. intros ->. reflexivity. Qed.

Lemma byte_at_cons b l i : 1 <= i -> byte_at (b :: l) i = byte_at l (i - 1).
Proof. intros H. exact (byte_at_skip [b] l i H). Qed.

(** Read fields of a buffer laid out as a concatenation. *)
Ltac gets :=
  repeat first [ rewrite byte_at_here by zlen | rewrite byte_at_cons by zlen
               | rewrite byte_at_skip by zlen
               | rewrite sub_here by zlen | rewrite sub_all by zlen | rewrite sub_skip by zlen ].

(** Reading a range that is already there is not affected by later bytes. *)
Lemma sub_app_l {A} (l k : list A) a b : 0 <= a -> b <= zlen l -> sub (l ++ k) a b = sub l a b.
Proof.
  intros Ha Hb. destruct (Z.le_gt_cases b a) as [Hle|Hgt].
  { unfold sub, ztake. rewrite !Z2Nat.nonpos by lia. done. }
  unfold sub, zdrop. rewrite drop_app_le by (unfold zlen in *; lia).
  apply ztake_app_le. fold (zdrop a l). zlen.
Qed.

Lemma zdrop_app_l {A} (l k : list A) n : n <= zlen l -> zdrop n (l ++ k) = zdrop n l ++ k.
Proof. intros H. unfold zdrop. apply drop_app_le. unfold zlen in *. lia. Qed.

(** Cut a buffer at an offset. *)
Lemma zsplit {A} (l : list A) n :
  0 <= n <= zlen l -> l = ztake n l ++ zdrop n l /\ zlen (ztake n l) = n /\ zlen (zdrop n l) = zlen l - n.
Proof. intros H. split; [by rewrite ztake_zdrop_id|]. zlen. Qed.

(** Reading back the range a [put] wrote. *)
Lemma sub_put_same {A} (l : list A) off new :
  0 <= off -> off + zlen new <= zlen l -> sub (put l off new) off (off + zlen new) = new.
Proof.
  intros H0 H1. unfold sub, put. rewrite zdrop_app_exact by zlen.
  apply ztake_app_exact. lia.
Qed.

(** A range below the written one is untouched. *)
Lemma sub_put_below {A} (l : list A) off new a b :
  0 <= a -> b <= off -> off + zlen new <= zlen l -> sub (put l off new) a b = sub l a b.
Proof.
  intros Ha Hb H. destruct (Z.le_gt_cases b a) as [Hle|Hgt].
  { unfold sub, ztake. rewrite !Z2Nat.nonpos by lia. done. }
  pose proof (zlen_nonneg new).
  unfold sub, put. unfold zdrop at 1.
  rewrite drop_app_le by (unfold ztake; rewrite length_take; unfold zlen in *; lia).
  rewrite ztake_app_le.
  2:{ fold (zdrop a (ztake off l)). zlen. }
  unfold ztake, zdrop. rewrite skipn_firstn_comm, take_take. f_equal. lia.
Qed.

(** A range above the written one is untouched. *)
Lemma sub_put_above {A} (l : list A) off new a b :
  0 <= off -> off + zlen new <= a -> off + zlen new <= zlen l ->
  sub (put l off new) a b = sub l a b.
Proof.
  intros Ho Ha H. pose proof (zlen_nonneg new).
  unfold sub, put. f_equal.
  rewrite zdrop_app_ge by zlen. rewrite zdrop_app_ge by zlen.
  rewrite zdrop_zdrop by zlen. f_equal. zlen.
Qed.

(** Bytes outside the written range are untouched. *)
Lemma zget_put_out {A} (l new : list A) off i :
  0 <= off -> off + zlen new <= zlen l -> i < off \/ off + zlen new <= i ->
  zget (put l off new) i = zget l i.
Proof.
  intros H0 H1 Hi. unfold zget. destruct (Z.leb_spec 0 i); [|done].
  unfold put, ztake, zdrop, zlen in *. destruct Hi as [Hi|Hi].
  - rewrite lookup_app_l by (rewrite length_take; lia). rewrite lookup_take_lt by lia. done.
  - rewrite lookup_app_r by (rewrite length_take; lia). rewrite length_take.
    rewrite lookup_app_r by lia. rewrite lookup_drop. f_equal. lia.
Qed.

Lemma bytes_ok_app l k : bytes_ok l -> bytes_ok k -> bytes_ok (l ++ k).
Proof. apply Forall_app_2. Qed.

Lemma bytes_ok_sub l a b : bytes_ok l -> bytes_ok (sub l a b).
Proof. intros H. apply Forall_take, Forall_drop, H. Qed.

Lemma bytes_ok_put l off new : bytes_ok l -> bytes_ok new -> bytes_ok (put l off new).
Proof.
  intros Hl Hn. unfold put. repeat apply bytes_ok_app; auto.
  - apply Forall_take, Hl.
  - apply Forall_drop, Hl.
Qed.

Lemma bytes_ok_zrep n b : byte_ok b -> bytes_ok (zrep n b).
Proof. intros H. apply Forall_replicate, H. Qed.

#[export] Hint Resolve bytes_ok_app bytes_ok_sub bytes_ok_put bytes_ok_zrep le_enc_ok
  : walshadow.

(** [align_up] with a power-of-two alignment rounds up to the next multiple. *)
Lemma align_up_pow2 n k :
  0 <= k -> align_up n (2 ^ k) = (n + 2 ^ k - 1) / 2 ^ k * 2 ^ k.
Proof.
  intros Hk. unfold align_up.
  replace (Z.lnot (2 ^ k - 1)) with (- 2 ^ k) by (unfold Z.lnot; lia).
  rewrite <- Z.shiftr_div_pow2, <- Z.shiftl_mul_pow2 by lia.
  apply Z.bits_inj_iff'. intros i Hi.
  rewrite Z.land_spec.
  replace (- 2 ^ k) with (Z.lnot (Z.ones k)) by (rewrite Z.ones_equiv; unfold Z.lnot; lia).
  rewrite Z.lnot_spec by lia.
  destruct (Z.lt_ge_cases i k).
  - rewrite Z.ones_spec_low, Z.shiftl_spec_low by lia. apply andb_false_r.
  - rewrite Z.ones_spec_high, Z.shiftl_spec by lia.
    rewrite Z.shiftr_spec by lia. rewrite andb_true_r. f_equal. lia.
Qed.

Lemma align_up_8 n : align_up n 8 = (n + 7) / 8 * 8.
Proof.
  change 8 with (2 ^ 3). rewrite align_up_pow2 by lia. change (2 ^ 3) with 8.
  do 2 f_equal. lia.
Qed.

Lemma align_up_8_bounds n : n <= align_up n 8 < n + 8.
Proof. rewrite align_up_8. pose proof (Z.mul_div_le (n + 7) 8). pose proof (Z.mod_pos_bound (n+7) 8). pose proof (Z.div_mod (n+7) 8). lia. Qed.

Lemma align_up_8_mod n : align_up n 8 mod 8 = 0.
Proof. rewrite align_up_8. apply Z_mod_mult. Qed.

Lemma align_up_8_id n : n mod 8 = 0 -> align_up n 8 = n.
Proof. intros H. rewrite align_up_8. pose proof (Z.div_mod (n+7) 8). pose proof (Z.div_mod n 8). pose proof (Z.mod_pos_bound (n+7) 8). lia. Qed.

Lemma Forall_elem {A} (P : A -> Prop) l : Forall P l <-> forall x, x ∈ l -> P x.
Proof. rewrite List.Forall_forall. split; intros H x Hx; apply H; by apply list_elem_of_In. Qed.

(** ** Ordered maps

    A [BTreeMap] keyed by integers: its entries in key order. *)

(** [BTreeMap::insert]. *)
Fixpoint btree_insert {A} (k : Z) (v : A) (l : list (Z * A)) : list (Z * A) :=
  match l with
  | [] => [(k, v)]
  | (k', v') :: rest =>
      if k <? k' then (k, v) :: l else if k =? k' then (k, v) :: rest else (k', v') :: btree_insert k v rest
  end.

Fixpoint btree_get {A} (k : Z) (l : list (Z * A)) : option A :=
  match l with
  | [] => None
  | (k', v') :: rest => if k =? k' then Some v' else btree_get k rest
  end.

Lemma btree_insert_elem {A} k (v : A) l x : btree_get k l = None -> x ∈ btree_insert k v l <-> x = (k, v) \/ x ∈ l.
Proof.
  induction l as [|[k' v'] l IH]; cbn [btree_insert btree_get]; [intros _; set_solver|].
  destruct (Z.eqb_spec k k') as [->|Hne]; [done|]. intros Hg. destruct (Z.ltb_spec k k'); [set_solver|].
  rewrite !elem_of_cons, (IH Hg). tauto.
Qed.

Lemma btree_insert_keys {A} k (v : A) l : StronglySorted Z.lt (map fst l) -> StronglySorted Z.lt (map fst (btree_insert k v l)).
Proof.
  induction l as [|[k' v'] l IH]; cbn [btree_insert map fst]; intros Hs; [repeat constructor|].
  pose proof (StronglySorted_inv Hs) as [Hs' HF]. destruct (Z.ltb_spec k k').
  - constructor; [done|]. constructor; [done|]. eapply Forall_impl; [|exact HF]. cbn. lia.
  - destruct (Z.eqb_spec k k') as [->|]; [done|]. cbn [map fst]. constructor; [by apply IH|].
    clear -HF H n. induction l as [|[k2 v2] l IH]; cbn [btree_insert map fst] in *; [constructor; [lia|constructor]|].
    apply Forall_cons_1 in HF as [H2 HF]. destruct (Z.ltb_spec k k2); [|destruct (Z.eqb_spec k k2)]; cbn [map fst]; repeat (constructor; [lia|]).
    + done.
    + done.
    + by apply IH.
Qed.

Lemma btree_get_elem {A} k (l : list (Z * A)) : StronglySorted Z.lt (map fst l) -> forall v, btree_get k l = Some v <-> (k, v) ∈ l.
Proof.
  induction l as [|[k' v'] l IH]; cbn [btree_get map fst]; intros Hs v; [split; [done|set_solver]|].
  apply StronglySorted_inv in Hs as [Hs HF]. rewrite elem_of_cons. destruct (Z.eqb_spec k k') as [->|Hne].
  - split; [intros [= ->]; by left|]. intros [[= ->]|Hin]; [done|]. rewrite List.Forall_forall in HF.
    assert (k' < k'); [|lia]. apply HF, (in_map fst _ (k', v)), list_elem_of_In, Hin.
  - rewrite (IH Hs). naive_solver.
Qed.

Lemma btree_get_insert {A} k k' (v : A) l : btree_get k' (btree_insert k v l) = if k' =? k then Some v else btree_get k' l.
Proof.
  induction l as [|[k2 v2] l IH]; cbn [btree_insert btree_get]; [done|].
  destruct (Z.ltb_spec k k2); [done|]. destruct (Z.eqb_spec k k2) as [->|]; cbn [btree_get]; [by destruct (k' =? k2)|].
  rewrite IH. destruct (Z.eqb_spec k' k2), (Z.eqb_spec k' k); try done. lia.
Qed.

(** ** Stable sorting ([slice::sort_by_key]) *)
Section SortBy.
Context {A : Type} (key : A -> Z).

Fixpoint insert_by (x : A) (l : list A) : list A :=
  match l with [] => [x] | y :: l' => if key x <=? key y then x :: l else y :: insert_by x l' end.

Definition sort_by (l : list A) : list A := fold_right insert_by [] l.

Lemma insert_by_perm x l : insert_by x l ≡ₚ x :: l.
Proof.
  induction l as [|y l IH]; cbn [insert_by]; [done|]. destruct (key x <=? key y); [done|]. rewrite IH. by apply perm_swap.
Qed.

Lemma sort_by_perm l : sort_by l ≡ₚ l.
Proof. induction l as [|x l IH]; [done|]. cbn [sort_by fold_right]. rewrite insert_by_perm. by f_equiv. Qed.

Lemma insert_by_first x l : Forall (fun y => key x <= key y) l -> insert_by x l = x :: l.
Proof. destruct l as [|y l]; [done|]. intros [H _]%Forall_cons_1. cbn [insert_by]. by rewrite (proj2 (Z.leb_le _ _) H). Qed.

(** The first of the least elements comes first. *)
Lemma sort_by_first l1 x l2 : Forall (fun y => key x < key y) l1 -> Forall (fun y => key x <= key y) l2 ->
  sort_by (l1 ++ x :: l2) = x :: sort_by (l1 ++ l2).
Proof.
  intros H1 H2. induction l1 as [|y l1 IH].
  - cbn [app sort_by fold_right]. fold (sort_by l2). apply insert_by_first. apply Forall_elem. intros y Hy. rewrite (sort_by_perm l2) in Hy.
    by apply (proj1 (Forall_elem _ _) H2).
  - apply Forall_cons_1 in H1 as [Hy H1]. cbn [app sort_by fold_right]. fold (sort_by (l1 ++ x :: l2)). fold (sort_by (l1 ++ l2)).
    rewrite (IH H1). cbn [insert_by]. by rewrite (proj2 (Z.leb_gt _ _) Hy).
Qed.

Lemma sort_by_sorted_id l : StronglySorted (fun a b => key a <= key b) l -> sort_by l = l.
Proof.
  induction 1 as [|x l Hs IH HF]; [done|]. cbn [sort_by fold_right]. fold (sort_by l). rewrite IH. by apply insert_by_first.
Qed.

Lemma insert_by_sorted x l : StronglySorted (fun a b => key a <= key b) l -> StronglySorted (fun a b => key a <= key b) (insert_by x l).
Proof.
  induction 1 as [|y l Hs IH HF]; cbn [insert_by]; [repeat constructor|]. destruct (Z.leb_spec (key x) (key y)).
  - constructor; [by constructor|]. constructor; [done|]. eapply Forall_impl; [|exact HF]. cbn. lia.
  - constructor; [done|]. apply Forall_elem. intros z Hz. rewrite insert_by_perm in Hz. apply elem_of_cons in Hz as [->|Hz]; [lia|].
    by apply (proj1 (Forall_elem _ _) HF).
Qed.

Lemma sort_by_sorted l : StronglySorted (fun a b => key a <= key b) (sort_by l).
Proof. induction l as [|x l IH]; [constructor|]. by apply insert_by_sorted. Qed.

End SortBy.

(** ** Sums *)
Definition zsum (l : list Z) : Z := fold_right Z.add 0 l.

Lemma zsum_app l k : zsum (l ++ k) = zsum l + zsum k.
Proof. induction l as [|x l IH]; [done|]. cbn. fold (zsum (l ++ k)) (zsum l). lia. Qed.
