(* ===== verification/Pos.v ===== *)
(** * Stream positions ([src/pos.rs])

    [Monotone] cells hold a position that only moves forward; [Gate] is a
    level-triggered view of one.  Position kinds are phantom types in the
    source: a position is its raw [u64] here. *)
From S2P Require Import Prelude.

Module Pos.

(** [Monotone<K>]: the watched [u64]. *)
Record Monotone := MkMonotone { cell : Z }.

Definition new (init : Z) : Monotone := MkMonotone init.
Definition get (m : Monotone) : Z := cell m.

(** [advance_to]: replace by the maximum, return the position now covered. *)
Definition advance_to (m : Monotone) (v : Z) : Monotone * Z :=
  let prev := cell m in
  (MkMonotone (Z.max prev v), Z.max prev v).

(** Whether [advance_to] wakes waiters ([send_if_modified]'s closure). *)
Definition advance_wakes (m : Monotone) (v : Z) : bool := cell m <? v.

Definition publish (m : Monotone) (v : Z) : Monotone * Z := advance_to m v.
Definition join (m : Monotone) (v : Z) : Monotone * Z := advance_to m v.

(** [rebase] re-anchors after the position space changed, the one operation
    that may move a cell backwards. *)
Definition rebase (m : Monotone) (v : Z) : Monotone * Z := (MkMonotone v, v).

(** [bump], for event tallies only. *)
Definition bump (m : Monotone) : Monotone := MkMonotone (uadd 64 (cell m) 1).

Inductive GateClosed := gate_closed.

(** [Gate::wait]: [seen] lists the values successive [borrow_and_update]
    calls read; the list ends where the cell was dropped. *)
Fixpoint wait (target : Z) (seen : list Z) : result GateClosed Z :=
  match seen with
  | [] => Err gate_closed
  | cur :: rest => if target <=? cur then Ok cur else wait target rest
  end.

Definition advance (from : Z) (seen : list Z) : result GateClosed Z :=
  wait (sat_add 64 from 1) seen.

(** Operations a shared cell sees, in order. *)
Inductive op := Join (v : Z) | Publish (v : Z) | Bump.

Definition exec (m : Monotone) (o : op) : Monotone :=
  match o with
  | Join v => fst (join m v)
  | Publish v => fst (publish m v)
  | Bump => bump m
  end.

Lemma exec_join_ge m v : cell m <= cell (fst (join m v)) /\ v <= cell (fst (join m v)).
Proof. simpl. lia. Qed.

Lemma wait_covers target seen v : wait target seen = Ok v -> target <= v /\ v ∈ seen.
Proof.
  induction seen as [|c seen IH]; simpl; [done|].
  destruct (Z.leb_spec target c).
  - intros [= <-]. split; [done|]. left.
  - intros [??]%IH. split; [done|]. by right.
Qed.

Lemma wait_closed target seen : wait target seen = Err gate_closed <-> Forall (fun c => c < target) seen.
Proof.
  induction seen as [|c seen IH]; simpl.
  { split; intros; [constructor|done]. }
  destruct (Z.leb_spec target c).
  - split; [done|]. inversion 1; subst. lia.
  - rewrite IH. split; [by constructor|]. by inversion 1.
Qed.

End Pos.
