(* ===== verification/Ack.v ===== *)
(** * Cumulative-ack durability watermark ([src/emit/pipeline/ack.rs])

    The collector turns out-of-order insert acknowledgements into a
    contiguous watermark.  [Ack] is the collector state machine, [Model] the
    full-history model the repository's own interleaving tests compare it
    with.  The producer side that registers and places seqs is [SeqAlloc] of
    [Outbox]. *)
From S2P Require Import Prelude Pos.

Module Ack.

(** [AckEvent]. *)
Inductive AckEvent : Type :=
| Register (seq commit_lsn : Z) (publish : bool)
| Placed (seq rows : Z)
| Acked (counts : list (Z * Z))
| Trailing (lsn : Z)
| Batch (evs : list AckEvent).

Inductive SeqFault := DoublePlaced | OverAcked.

(** [Progress]: placement and acks arrive in either order. *)
Record Progress := MkProgress { rows : option Z; acked : Z }.

Definition progress_default : Progress := MkProgress None 0.

(** [Progress::place]. *)
Definition place (p : Progress) (r : Z) : result SeqFault Progress :=
  if is_some (rows p) then Err DoublePlaced
  else if r <? acked p then Err OverAcked
  else Ok (MkProgress (Some r) (acked p)).

(** [Progress::ack]. *)
Definition ack (p : Progress) (n : Z) : result SeqFault Progress :=
  let a := uadd 64 (acked p) n in
  if (match rows p with Some r => r <? a | None => false end) then Err OverAcked
  else Ok (MkProgress (rows p) a).

(** [Progress::is_done]. *)
Definition is_done (p : Progress) : bool :=
  match rows p with Some r => r =? acked p | None => false end.

Record Seq := MkSeq { commit_lsn : Z; publishes : bool; progress : Progress }.

(** [IncompleteSeq] and [AckSnapshot], the stall diagnostics. *)
Record IncompleteSeq := MkIncomplete
  { inc_seq : Z; inc_commit_lsn : Z; inc_rows : option Z; inc_acked : Z }.

Record AckSnapshot := MkSnapshot
  { snap_registered : Z; snap_frontier : Z; oldest : option IncompleteSeq;
    trailing_held : Z; snap_wedged : Z; snap_late : Z }.

Definition snapshot_default : AckSnapshot := MkSnapshot 0 0 None 0 0 0.

(** What a protocol fault reports ([wedge]'s format string). *)
Inductive What := RegisteredTwice | PlacedTwice | AckedPastRows | Unregistered.
Inductive FatalMsg :=
| AckFault (what : What) (seq frontier registered : Z)
| OtherFault.

(** [Fatal::set] keeps the first message. *)
Definition fatal_set (f : option FatalMsg) (m : FatalMsg) : option FatalMsg :=
  match f with Some _ => f | None => Some m end.

(** [AckState]; the [Arc]/[watch] outputs are the values they hold. *)
Record AckState := MkState
  { seqs : gmap Z Seq;
    frontier : Z;
    registered : Z;
    watermark : Z;
    trailing : Z;
    emitter_ack : Pos.Monotone;
    frontier_cell : Pos.Monotone;
    wedged : Z;
    late : Z;
    probe : AckSnapshot;
    fatal : option FatalMsg }.

(** [AckState::new]; the shared ack cell starts at its resume seed, and the
    shared fatal slot at whatever another stage left there. *)
Definition new (ack0 : Z) (f0 : option FatalMsg) : AckState :=
  MkState ∅ 0 0 0 0 (Pos.new ack0) (Pos.new 0) 0 0 snapshot_default f0.

Definition set_seqs (s : AckState) (m : gmap Z Seq) : AckState :=
  MkState m (frontier s) (registered s) (watermark s) (trailing s) (emitter_ack s)
    (frontier_cell s) (wedged s) (late s) (probe s) (fatal s).

(** [wedge]: only the first fault reaches the fatal slot. *)
Definition wedge (s : AckState) (seq : Z) (what : What) : AckState :=
  let w := uadd 64 (wedged s) 1 in
  MkState (seqs s) (frontier s) (registered s) (watermark s) (trailing s) (emitter_ack s)
    (frontier_cell s) w (late s) (probe s)
    (if w =? 1 then fatal_set (fatal s) (AckFault what seq (frontier s) (registered s))
     else fatal s).

(** [absent]: benign below the frontier, a fault otherwise. *)
Definition absent (s : AckState) (seq : Z) : AckState :=
  if seq <? frontier s then
    MkState (seqs s) (frontier s) (registered s) (watermark s) (trailing s) (emitter_ack s)
      (frontier_cell s) (wedged s) (uadd 64 (late s) 1) (probe s) (fatal s)
  else wedge s seq Unregistered.

(** [open_seq]. *)
Definition open_seq (s : AckState) (seq lsn : Z) (pub : bool) : AckState :=
  if (seq <? frontier s) || is_some (seqs s !! seq) then wedge s seq RegisteredTwice
  else
    MkState (<[seq := MkSeq lsn pub progress_default]> (seqs s)) (frontier s)
      (Z.max (registered s) (uadd 64 seq 1)) (watermark s) (trailing s) (emitter_ack s)
      (frontier_cell s) (wedged s) (late s) (probe s) (fatal s).

(** [step]: run a [Progress] transition on a live seq. *)
Definition step (s : AckState) (seq : Z) (f : Progress -> result SeqFault Progress)
    : AckState :=
  match seqs s !! seq with
  | None => absent s seq
  | Some q =>
      match f (progress q) with
      | Ok p => set_seqs s (<[seq := MkSeq (commit_lsn q) (publishes q) p]> (seqs s))
      | Err DoublePlaced => wedge s seq PlacedTwice
      | Err OverAcked => wedge s seq AckedPastRows
      end
  end.

Definition step_acked (s : AckState) (c : Z * Z) : AckState :=
  step s (fst c) (fun p => ack p (snd c)).

Definition set_trailing (s : AckState) (lsn : Z) : AckState :=
  MkState (seqs s) (frontier s) (registered s) (watermark s) (Z.max (trailing s) lsn)
    (emitter_ack s) (frontier_cell s) (wedged s) (late s) (probe s) (fatal s).

(** [step_event]. *)
Fixpoint step_event (s : AckState) (ev : AckEvent) : AckState :=
  match ev with
  | Register seq lsn pub => open_seq s seq lsn pub
  | Placed seq r => step s seq (fun p => place p r)
  | Acked counts => fold_left step_acked counts s
  | Trailing lsn => set_trailing s lsn
  | Batch evs =>
      (fix go (s : AckState) (l : list AckEvent) : AckState :=
         match l with [] => s | e :: r => go (step_event s e) r end) s evs
  end.

Definition all_done (s : AckState) : bool := frontier s =? registered s.

Definition oldest_incomplete (s : AckState) : option IncompleteSeq :=
  if all_done s then None
  else
    let* q := seqs s !! frontier s in
    Some (MkIncomplete (frontier s) (commit_lsn q) (rows (progress q)) (acked (progress q))).

Definition snapshot (s : AckState) : AckSnapshot :=
  MkSnapshot (registered s) (frontier s) (oldest_incomplete s) (trailing s) (wedged s) (late s).

(** [AckSnapshot::all_done] and [stall_reason]. *)
Definition snapshot_all_done (s : AckSnapshot) : bool := negb (is_some (oldest s)).

Inductive StallReason := RowsNotPlaced | ClickhouseNotAcked.
Definition stall_reason (s : AckSnapshot) : option StallReason :=
  let* inc := oldest s in
  Some (match inc_rows inc with None => RowsNotPlaced | Some _ => ClickhouseNotAcked end).

(** One turn of [publish]'s [while let]: retire the frontier seq. *)
Definition retire (s : AckState) (q : Seq) : AckState :=
  MkState (delete (frontier s) (seqs s)) (uadd 64 (frontier s) 1) (registered s)
    (if publishes q then Z.max (watermark s) (commit_lsn q) else watermark s)
    (trailing s) (emitter_ack s) (frontier_cell s) (wedged s) (late s) (probe s) (fatal s).

(** [publish]'s scan.  Every turn removes a map entry, so the map's size is
    enough fuel ([scan_stops]). *)
Fixpoint scan (fuel : nat) (s : AckState) : AckState :=
  match fuel with
  | O => s
  | S fuel =>
      match seqs s !! frontier s with
      | None => s
      | Some q => if is_done (progress q) then scan fuel (retire s q) else s
      end
  end.

(** [publish]: the scan, then the outputs. *)
Definition publish (s0 : AckState) : AckState :=
  let s := scan (size (seqs s0)) s0 in
  let a := if all_done s then Z.max (watermark s) (trailing s) else watermark s in
  MkState (seqs s) (frontier s) (registered s) (watermark s) (trailing s)
    (fst (Pos.join (emitter_ack s) a)) (fst (Pos.join (frontier_cell s) (frontier s)))
    (wedged s) (late s) (snapshot s) (fatal s).

(** [AckState::apply], and the actor loop over received events. *)
Definition apply (s : AckState) (ev : AckEvent) : AckState := publish (step_event s ev).

Definition collect (s : AckState) (evs : list AckEvent) : AckState := fold_left apply evs s.

(** The events a batch, or an acked run of counts, applies one at a time. *)
Inductive Ev :=
| Reg (seq lsn : Z) (publish : bool)
| Place (seq rows : Z)
| AckN (seq n : Z)
| Trail (lsn : Z).

Fixpoint atoms (ev : AckEvent) : list Ev :=
  match ev with
  | Register seq lsn pub => [Reg seq lsn pub]
  | Placed seq r => [Place seq r]
  | Acked counts => map (fun c => AckN (fst c) (snd c)) counts
  | Trailing lsn => [Trail lsn]
  | Batch evs =>
      (fix go (l : list AckEvent) : list Ev :=
         match l with [] => [] | e :: r => atoms e ++ go r end) evs
  end.

Definition atom_step (s : AckState) (e : Ev) : AckState :=
  match e with
  | Reg seq lsn pub => open_seq s seq lsn pub
  | Place seq r => step s seq (fun p => place p r)
  | AckN seq n => step s seq (fun p => ack p n)
  | Trail lsn => set_trailing s lsn
  end.

Lemma step_event_atoms ev s : step_event s ev = fold_left atom_step (atoms ev) s.
Proof.
  revert ev s. fix IH 1. intros [seq lsn pub|seq r|counts|lsn|evs] s; try reflexivity.
  - simpl. revert s. induction counts as [|c counts IHc]; intros s; simpl; auto.
  - simpl. revert s. induction evs as [|e evs IHe]; intros s; simpl; [done|].
    rewrite fold_left_app, <- IH. apply IHe.
Qed.

(** The scan stops only at an absent or unfinished head. *)
Definition head_stuck (s : AckState) : Prop :=
  match seqs s !! frontier s with
  | Some q => is_done (progress q) = false
  | None => True
  end.

Lemma scan_stops fuel : forall s, (size (seqs s) <= fuel)%nat -> head_stuck (scan fuel s).
Proof.
  unfold head_stuck. induction fuel as [|fuel IH]; intros s Hsz; simpl.
  - assert (seqs s = ∅) as -> by (apply map_size_empty_inv; lia). done.
  - destruct (seqs s !! frontier s) as [q|] eqn:Eq; [|by rewrite Eq].
    destruct (is_done (progress q)) eqn:Ed; [|by rewrite Eq].
    apply IH. simpl. rewrite map_size_delete_Some by eauto. lia.
Qed.

(** *** What the frontier has seen

    Events in any order, legal or not: nothing retires without its
    registration, its placement and acknowledgements of all its rows. *)
Fixpoint acksum (k : Z) (h : list Ev) : Z :=
  match h with
  | [] => 0
  | AckN seq n :: r => (if seq =? k then n else 0) + acksum k r
  | _ :: r => acksum k r
  end.

Definition ack_nonneg (e : Ev) : Prop := match e with AckN _ n => 0 <= n | _ => True end.

Definition delivered (h : list Ev) (k : Z) : Prop :=
  exists lsn pub r, Reg k lsn pub ∈ h /\ Place k r ∈ h /\ r <= acksum k h.

Record Seen (h : list Ev) (s : AckState) : Prop := mkSeen
  { seen_live : forall k q, seqs s !! k = Some q ->
      Reg k (commit_lsn q) (publishes q) ∈ h /\
      (forall r, rows (progress q) = Some r -> Place k r ∈ h) /\
      0 <= acked (progress q) <= acksum k h;
    seen_retired : forall k, 0 <= k < frontier s -> delivered h k;
    seen_sum : forall k, 0 <= acksum k h;
    seen_front : 0 <= frontier s }.

Lemma acksum_app k h e : acksum k (h ++ [e]) = acksum k h + acksum k [e].
Proof.
  induction h as [|[] h IH]; simpl; rewrite ?IH; simpl; lia.
Qed.

Lemma acksum_grows k h e : ack_nonneg e -> acksum k h <= acksum k (h ++ [e]).
Proof. intros He. rewrite acksum_app. destruct e; simpl in *; bsplit; lia. Qed.

Lemma seen_weaken h s e : ack_nonneg e -> Seen h s -> Seen (h ++ [e]) s.
Proof.
  intros He [HL HR HN HF]. pose proof (fun k => acksum_grows k h e He) as G. split.
  - intros k q Hq. destruct (HL k q Hq) as (H1 & H2 & H3). specialize (G k).
    split; [set_solver|]. split; [set_solver|lia].
  - intros k Hk. destruct (HR k Hk) as (lsn & pub & r & H1 & H2 & H3). specialize (G k).
    exists lsn, pub, r. split; [set_solver|]. split; [set_solver|lia].
  - intros k. specialize (G k). specialize (HN k). lia.
  - done.
Qed.

(** The fault counters and outputs play no part in [Seen]. *)
Lemma seen_wedge h s seq what : Seen h s -> Seen h (wedge s seq what).
Proof. by intros []; split. Qed.

Lemma seen_absent h s seq : Seen h s -> Seen h (absent s seq).
Proof.
  intros HS. unfold absent. destruct (seq <? frontier s); [|by apply seen_wedge].
  by destruct HS; split.
Qed.

Lemma seen_step h s seq f :
  Seen h s ->
  (forall q p, seqs s !! seq = Some q -> f (progress q) = Ok p ->
    (forall r, rows p = Some r -> Place seq r ∈ h) /\ 0 <= acked p <= acksum seq h) ->
  Seen h (step s seq f).
Proof.
  intros HS Hf. unfold step. destruct (seqs s !! seq) as [q|] eqn:Eq; [|by apply seen_absent].
  destruct (f (progress q)) as [p|[]] eqn:Ef; try by apply seen_wedge.
  destruct (Hf q p eq_refl Ef) as [Hr Ha]. destruct HS as [HL HR HN HF]. split; [|done..].
  intros k q'. simpl. rewrite lookup_insert. case_decide as E; [|apply HL].
  intros [= <-]. subst k. simpl. destruct (HL _ _ Eq). auto.
Qed.

Lemma seen_atom h s e : ack_nonneg e -> Seen h s -> Seen (h ++ [e]) (atom_step s e).
Proof.
  intros He HS. pose proof (seen_weaken h s e He HS) as HW.
  destruct e as [seq lsn pub|seq r|seq n|lsn]; simpl.
  - unfold open_seq. destruct (_ || _); [by apply seen_wedge|].
    destruct HW as [HL HR HN HF]. split; [|done..]. simpl. intros k q. rewrite lookup_insert.
    case_decide as E; [|apply HL]. intros [= <-]. subst k. simpl.
    split; [set_solver|]. split; [done|]. specialize (HN seq). lia.
  - apply seen_step; [done|]. intros q p Hq. unfold place.
    destruct (is_some _); [done|]. destruct (Z.ltb_spec r (acked (progress q))); [done|].
    intros [= <-]. destruct (seen_live _ _ HW _ _ Hq) as (_ & _ & Ha). simpl.
    split; [|done]. intros r' [= <-]. set_solver.
  - apply seen_step; [done|]. intros q p Hq Hp.
    assert (p = MkProgress (rows (progress q)) (uadd 64 (acked (progress q)) n)) as ->
      by (unfold ack in Hp; repeat case_match; congruence). destruct (seen_live _ _ HW _ _ Hq) as (_ & Hr & _).
    destruct (seen_live _ _ HS _ _ Hq) as (_ & _ & Ha). simpl. split; [done|].
    rewrite acksum_app. simpl. rewrite Z.eqb_refl. simpl in He.
    pose proof (uadd_le 64 (acked (progress q)) n). lia.
  - by destruct HW; split.
Qed.

Lemma seen_retire h s q :
  Seen h s -> seqs s !! frontier s = Some q -> is_done (progress q) = true ->
  Seen h (retire s q).
Proof.
  intros [HL HR HN HF] Hq Hd. split; simpl; [|intros k Hk|done|apply wrap_fits; lia].
  - intros k q'. rewrite lookup_delete. case_decide; [done|apply HL].
  - destruct (decide (k < frontier s)); [apply HR; lia|].
    assert (k = frontier s) as -> by (pose proof (uadd_le 64 (frontier s) 1); lia).
    destruct (HL _ _ Hq) as (H1 & H2 & H3). unfold is_done in Hd.
    destruct (rows (progress q)) as [r|]; [|done]. apply Z.eqb_eq in Hd. subst r.
    eexists _, _, _. split; [exact H1|]. split; [by apply H2|lia].
Qed.

Lemma seen_scan h fuel : forall s, Seen h s -> Seen h (scan fuel s).
Proof.
  induction fuel as [|fuel IH]; intros s HS; simpl; [done|].
  destruct (seqs s !! frontier s) as [q|] eqn:Eq; [|done].
  destruct (is_done (progress q)) eqn:Ed; [|done]. apply IH. by apply seen_retire.
Qed.

Lemma seen_apply h s ev :
  Forall ack_nonneg (atoms ev) -> Seen h s -> Seen (h ++ atoms ev) (apply s ev).
Proof.
  intros HF HS. unfold apply. rewrite step_event_atoms.
  assert (Seen (h ++ atoms ev) (fold_left atom_step (atoms ev) s)) as HE.
  { revert h s HS. induction HF as [|e l He _ IH]; intros h s HS.
    - by rewrite app_nil_r.
    - replace (h ++ e :: l) with ((h ++ [e]) ++ l) by (by rewrite <- app_assoc).
      apply IH. by apply seen_atom. }
  apply seen_scan with (fuel := size (seqs (fold_left atom_step (atoms ev) s))) in HE.
  by destruct HE; split.
Qed.

Lemma seen_collect evs : forall h s,
  Forall ack_nonneg (concat (map atoms evs)) -> Seen h s ->
  Seen (h ++ concat (map atoms evs)) (collect s evs).
Proof.
  induction evs as [|ev evs IH]; intros h s HF HS; simpl.
  - by rewrite app_nil_r.
  - apply Forall_app in HF as [HF1 HF2]. rewrite app_assoc. apply IH; [done|].
    by apply seen_apply.
Qed.

(** Whatever events arrive, in whatever order and however faulty, a seq
    below the published frontier was registered, was placed with some row
    count, and had at least that many rows acknowledged. *)
Theorem frontier_sound ack0 f0 evs k :
  Forall ack_nonneg (concat (map atoms evs)) ->
  0 <= k < frontier (collect (new ack0 f0) evs) ->
  delivered (concat (map atoms evs)) k.
Proof.
  intros HF Hk. assert (Seen [] (new ack0 f0)) as H0.
  { split; try done; simpl; lia. }
  exact (seen_retired _ _ (seen_collect evs [] _ HF H0) k Hk).
Qed.

Lemma frontier_sound_witness :
  delivered [Place 0 1; Reg 0 10 true; Place 0 2; AckN 0 2; AckN 7 1] 0.
Proof.
  apply (frontier_sound 0 None
    [Placed 0 1; Register 0 10 true; Placed 0 2; Acked [(0, 2); (7, 1)]] 0).
  - repeat constructor; simpl; lia.
  - vm_compute. split; congruence.
Defined.

End Ack.

(** ** The full-history model of the interleaving tests

    [mod interleavings] of [ack.rs] checks the collector against a model that
    keeps every seq and recomputes the watermark from scratch. *)
Module Model.
Import Ack.

Record ModelSeq := MkModelSeq
  { m_lsn : Z; m_publish : bool; m_rows : option Z; m_acked : Z }.

Record Model := MkModel { m_seqs : list ModelSeq; m_trailing : Z; m_high : Z }.

Definition empty : Model := MkModel [] 0 0.

Definition m_done (q : ModelSeq) : bool :=
  match m_rows q with Some r => r =? m_acked q | None => false end.

(** [Model::expected]: the loop with its [break]. *)
Fixpoint scan_done (l : list ModelSeq) (w : Z) (done : nat) : Z * nat :=
  match l with
  | [] => (w, done)
  | q :: r =>
      if m_done q then scan_done r (if m_publish q then Z.max w (m_lsn q) else w) (S done)
      else (w, done)
  end.

Definition expected (m : Model) : Z :=
  let '(w, done) := scan_done (m_seqs m) 0 0 in
  if Nat.eqb done (length (m_seqs m)) then Z.max w (m_trailing m) else w.

Definition model_step (m : Model) (e : Ev) : Model :=
  match e with
  | Reg _ lsn pub => MkModel (m_seqs m ++ [MkModelSeq lsn pub None 0]) (m_trailing m) (m_high m)
  | Place seq r =>
      MkModel (alter (fun q => MkModelSeq (m_lsn q) (m_publish q) (Some r) (m_acked q))
                 (Z.to_nat seq) (m_seqs m)) (m_trailing m) (m_high m)
  | AckN seq n =>
      MkModel (alter (fun q => MkModelSeq (m_lsn q) (m_publish q) (m_rows q) (m_acked q + n))
                 (Z.to_nat seq) (m_seqs m)) (m_trailing m) (m_high m)
  | Trail lsn => MkModel (m_seqs m) (Z.max (m_trailing m) lsn) (m_high m)
  end.

(** [Model::apply]; an event that carries several atoms publishes once. *)
Definition model_apply (m : Model) (ev : AckEvent) : Model :=
  let m' := fold_left model_step (atoms ev) m in
  MkModel (m_seqs m') (m_trailing m') (Z.max (m_high m') (expected m')).

Definition model_run (evs : list AckEvent) : Model := fold_left model_apply evs empty.

(** Legal schedules: dense registration, seqs registered before they are
    placed or acked, one placement, acks within the row count. *)
Definition legal (m : Model) (e : Ev) : Prop :=
  match e with
  | Reg seq _ _ => seq = zlen (m_seqs m) /\ zlen (m_seqs m) < U64_MAX
  | Place seq r =>
      0 <= seq /\ exists q, m_seqs m !! Z.to_nat seq = Some q /\ m_rows q = None /\ m_acked q <= r
  | AckN seq n =>
      0 <= seq /\ 0 <= n /\
      exists q, m_seqs m !! Z.to_nat seq = Some q /\
      m_acked q + n <= match m_rows q with Some r => r | None => U64_MAX end /\
      m_acked q + n <= U64_MAX
  | Trail _ => True
  end.

Fixpoint legal_atoms (m : Model) (l : list Ev) : Prop :=
  match l with [] => True | e :: r => legal m e /\ legal_atoms (model_step m e) r end.

Fixpoint legal_schedule (m : Model) (evs : list AckEvent) : Prop :=
  match evs with
  | [] => True
  | ev :: r => legal_atoms m (atoms ev) /\ legal_schedule (model_apply m ev) r
  end.

(** *** Simulation

    [Sim f m s]: the collector retired exactly the first [f] seqs of the
    model, which are done, and holds the others. *)
Definition as_seq (q : ModelSeq) : Seq :=
  MkSeq (m_lsn q) (m_publish q) (MkProgress (m_rows q) (m_acked q)).

Definition bump_wm (w : Z) (q : ModelSeq) : Z :=
  if m_publish q then Z.max w (m_lsn q) else w.

Definition wm (l : list ModelSeq) : Z := fold_left bump_wm l 0.

Record Sim (f : nat) (m : Model) (s : AckState) : Prop := mkSim
  { sim_frontier : frontier s = Z.of_nat f;
    sim_le : (f <= length (m_seqs m))%nat;
    sim_done : forall i q, (i < f)%nat -> m_seqs m !! i = Some q -> m_done q = true;
    sim_map : forall k, seqs s !! k =
      if (Z.of_nat f <=? k) then as_seq <$> m_seqs m !! Z.to_nat k else None;
    sim_reg : registered s = zlen (m_seqs m);
    sim_wm : watermark s = wm (take f (m_seqs m));
    sim_trailing : trailing s = m_trailing m;
    sim_wedged : wedged s = 0;
    sim_len : zlen (m_seqs m) <= U64_MAX;
    sim_acked : forall i q, m_seqs m !! i = Some q -> 0 <= m_acked q <= U64_MAX }.

(** What a publish leaves alone while atoms are applied. *)
Definition same_outputs (s s' : AckState) : Prop :=
  emitter_ack s' = emitter_ack s /\ frontier_cell s' = frontier_cell s /\ fatal s' = fatal s.

Lemma sim_reg_step f m s seq lsn pub :
  Sim f m s -> legal m (Reg seq lsn pub) ->
  Sim f (model_step m (Reg seq lsn pub)) (open_seq s seq lsn pub) /\
  same_outputs s (open_seq s seq lsn pub).
Proof.
  intros [Hf Hle Hd Hm Hr Hw Ht Hwg Hl Ha] [-> Hlt].
  pose proof (zlen_nonneg (m_seqs m)).
  assert (E : seqs s !! zlen (m_seqs m) = None).
  { rewrite Hm. destruct (Z.leb_spec (Z.of_nat f) (zlen (m_seqs m))); [|done].
    rewrite lookup_ge_None_2; [done|]. unfold zlen. lia. }
  assert (G : zlen (m_seqs m) <? frontier s = false).
  { rewrite Hf. apply Z.ltb_ge. unfold zlen. lia. }
  unfold open_seq. rewrite G, E. simpl. split; [|done].
  split; simpl; auto.
  - rewrite length_app. simpl. lia.
  - intros i q Hi. rewrite lookup_app_l by lia. eauto.
  - intros k. rewrite lookup_insert. case_decide as Hk.
    + subst k. destruct (Z.leb_spec (Z.of_nat f) (zlen (m_seqs m))); [|unfold zlen in *; lia].
      unfold zlen. rewrite Nat2Z.id. rewrite list_lookup_middle by done. done.
    + rewrite Hm. destruct (Z.leb_spec (Z.of_nat f) k); [|done].
      destruct (decide (k < zlen (m_seqs m))).
      * rewrite lookup_app_l; [done|]. unfold zlen in *. lia.
      * rewrite !lookup_ge_None_2; try done; rewrite ?length_app; simpl; unfold zlen in *; lia.
  - rewrite Hr, zlen_app. rewrite uadd_small by (unfold fits, U64_MAX in *; lia).
    zlen.
  - rewrite Hw, take_app_le by lia. done.
  - rewrite zlen_app. zlen.
  - intros i q [|(? & ?)]%lookup_app_Some; [eauto|].
    destruct (i - length (m_seqs m))%nat; simplify_eq/=. unfold U64_MAX. lia.
Qed.

(** Replacing one live seq's progress on both sides. *)
Lemma sim_update f m s i (q : ModelSeq) g :
  Sim f m s -> (f <= i)%nat -> m_seqs m !! i = Some q -> 0 <= m_acked (g q) <= U64_MAX ->
  Sim f (MkModel (alter g i (m_seqs m)) (m_trailing m) (m_high m))
    (set_seqs s (<[Z.of_nat i := as_seq (g q)]> (seqs s))).
Proof.
  intros [Hf Hle Hd Hm Hr Hw Ht Hwg Hl Ha] Hi Hq Hg.
  split; simpl; auto.
  - by rewrite length_alter.
  - intros j q' Hj. rewrite list_lookup_alter_ne by lia. eauto.
  - intros k. rewrite lookup_insert. case_decide as Hk.
    + subst k. rewrite Nat2Z.id. destruct (Z.leb_spec (Z.of_nat f) (Z.of_nat i)); [|lia].
      by rewrite list_lookup_alter_eq, Hq.
    + rewrite Hm. destruct (Z.leb_spec (Z.of_nat f) k); [|done].
      rewrite list_lookup_alter_ne by lia. done.
  - unfold zlen. rewrite length_alter. apply Hr.
  - rewrite Hw. rewrite take_alter_ge by lia. done.
  - unfold zlen. rewrite length_alter. apply Hl.
  - intros j q'. destruct (decide (j = i)) as [->|].
    + rewrite list_lookup_alter_eq, Hq. by intros [= <-].
    + rewrite list_lookup_alter_ne by done. eauto.
Qed.

Lemma alter_same (g : ModelSeq -> ModelSeq) (i : nat) (l : list ModelSeq) q :
  l !! i = Some q -> g q = q -> alter g i l = l.
Proof.
  intros Hq Hg. apply list_eq. intros j. destruct (decide (j = i)) as [->|].
  - rewrite list_lookup_alter_eq, Hq. simpl. by rewrite Hg.
  - by rewrite list_lookup_alter_ne.
Qed.

Lemma sim_lookup f m s seq q :
  Sim f m s -> 0 <= seq -> m_seqs m !! Z.to_nat seq = Some q -> Z.of_nat f <= seq ->
  seqs s !! seq = Some (as_seq q).
Proof.
  intros HS H0 Hq Hle. rewrite (sim_map _ _ _ HS).
  destruct (Z.leb_spec (Z.of_nat f) seq); [|lia]. by rewrite Hq.
Qed.

Lemma sim_place_step f m s seq r :
  Sim f m s -> legal m (Place seq r) ->
  Sim f (model_step m (Place seq r)) (atom_step s (Place seq r)) /\
  same_outputs s (atom_step s (Place seq r)).
Proof.
  intros HS (H0 & q & Hq & Hn & Hle).
  assert (Hf : Z.of_nat f <= seq).
  { destruct (Z.le_gt_cases (Z.of_nat f) seq); [done|].
    pose proof (sim_done _ _ _ HS (Z.to_nat seq) q ltac:(lia) Hq) as D.
    unfold m_done in D. by rewrite Hn in D. }
  simpl. unfold step. rewrite (sim_lookup _ _ _ _ _ HS H0 Hq Hf). simpl.
  unfold place. simpl. rewrite Hn. simpl. rewrite (proj2 (Z.ltb_ge _ _) Hle). simpl.
  split; [|done].
  pose proof (sim_update f m s (Z.to_nat seq) q
    (fun q => MkModelSeq (m_lsn q) (m_publish q) (Some r) (m_acked q)) HS ltac:(lia) Hq
    (sim_acked _ _ _ HS _ _ Hq)) as U.
  rewrite Z2Nat.id in U by lia. exact U.
Qed.

Lemma sim_ack_step f m s seq n :
  Sim f m s -> legal m (AckN seq n) ->
  Sim f (model_step m (AckN seq n)) (atom_step s (AckN seq n)) /\
  same_outputs s (atom_step s (AckN seq n)).
Proof.
  intros HS (H0 & Hn & q & Hq & Hle & Hmax).
  pose proof (sim_acked _ _ _ HS _ _ Hq) as Ha.
  destruct (Z.le_gt_cases (Z.of_nat f) seq) as [Hf|Hf].
  - simpl. unfold step. rewrite (sim_lookup _ _ _ _ _ HS H0 Hq Hf). simpl.
    unfold ack. simpl. rewrite uadd_small by (unfold fits, U64_MAX in *; lia).
    assert (E : (match m_rows q with Some r => r <? m_acked q + n | None => false end) = false).
    { destruct (m_rows q); [|done]. apply Z.ltb_ge. lia. }
    rewrite E. split; [|done].
    pose proof (sim_update f m s (Z.to_nat seq) q
      (fun q => MkModelSeq (m_lsn q) (m_publish q) (m_rows q) (m_acked q + n)) HS
      ltac:(lia) Hq ltac:(simpl; lia)) as U.
    rewrite Z2Nat.id in U by lia. exact U.
  - pose proof (sim_done _ _ _ HS (Z.to_nat seq) q ltac:(lia) Hq) as D.
    unfold m_done in D. destruct (m_rows q) as [r|] eqn:Er; [|done].
    apply Z.eqb_eq in D. assert (n = 0) as -> by lia.
    assert (E : seqs s !! seq = None).
    { rewrite (sim_map _ _ _ HS). destruct (Z.leb_spec (Z.of_nat f) seq); [lia|done]. }
    simpl. unfold step. rewrite E. unfold absent.
    rewrite (sim_frontier _ _ _ HS), (proj2 (Z.ltb_lt _ _) Hf). split; [|done].
    rewrite (alter_same _ _ _ q Hq); [by destruct HS, m|].
    destruct q; simpl in *. by rewrite Z.add_0_r.
Qed.

Lemma sim_atom f m s e :
  Sim f m s -> legal m e ->
  Sim f (model_step m e) (atom_step s e) /\ same_outputs s (atom_step s e).
Proof.
  destruct e.
  - apply sim_reg_step.
  - apply sim_place_step.
  - apply sim_ack_step.
  - intros [] _. split; [|done]. split; simpl; auto. congruence.
Qed.

Lemma same_outputs_trans s1 s2 s3 :
  same_outputs s1 s2 -> same_outputs s2 s3 -> same_outputs s1 s3.
Proof. unfold same_outputs. intuition congruence. Qed.

Lemma sim_atoms f l : forall m s,
  Sim f m s -> legal_atoms m l ->
  Sim f (fold_left model_step l m) (fold_left atom_step l s) /\
  same_outputs s (fold_left atom_step l s).
Proof.
  induction l as [|e l IH]; intros m s HS HL; [done|].
  destruct HL as [He HL]. destruct (sim_atom _ _ _ _ HS He) as [HS' HO].
  destruct (IH _ _ HS' HL) as [HS'' HO']. eauto using same_outputs_trans.
Qed.

(** Retiring a done head keeps the simulation, one seq further. *)
Lemma sim_retire f m s q :
  Sim f m s -> seqs s !! frontier s = Some q -> is_done (progress q) = true ->
  Sim (S f) m (retire s q).
Proof.
  intros [Hf Hle Hd Hm Hr Hw Ht Hwg Hl Ha] Hq Hdn.
  rewrite Hm, Hf, Z.leb_refl, Nat2Z.id in Hq.
  destruct (m_seqs m !! f) as [mq|] eqn:Emq; [|done]. simpl in Hq. injection Hq as <-.
  pose proof (lookup_lt_Some _ _ _ Emq) as Hlt.
  split; simpl; auto.
  - rewrite Hf. rewrite uadd_small; [lia|]. unfold zlen, fits, U64_MAX in *. lia.
  - intros i q Hi Hq. destruct (decide (i = f)) as [->|]; [|apply (Hd i); auto; lia].
    simplify_eq. exact Hdn.
  - intros k. rewrite lookup_delete, Hf. case_decide as Hk.
    + subst k. destruct (Z.leb_spec (Z.of_nat (S f)) (Z.of_nat f)); [lia|done].
    + rewrite Hm. bsplit; try done; lia.
  - rewrite (take_S_r _ _ _ Emq). unfold wm. rewrite fold_left_app. simpl.
    unfold bump_wm at 1. rewrite Hw. done.
Qed.

Lemma sim_scan m fuel : forall f s,
  Sim f m s -> exists f', Sim f' m (scan fuel s) /\ same_outputs s (scan fuel s).
Proof.
  induction fuel as [|fuel IH]; intros f s HS; [by exists f|].
  simpl. destruct (seqs s !! frontier s) as [q|] eqn:Eq; [|by exists f].
  destruct (is_done (progress q)) eqn:Ed; [|by exists f].
  destruct (IH _ _ (sim_retire _ _ _ _ HS Eq Ed)) as (f' & HS' & HO).
  exists f'. split; [done|]. by apply (same_outputs_trans _ (retire s q)).
Qed.

(** [Model::expected]'s loop stops exactly at the first seq not done. *)
Lemma scan_done_prefix l : forall w d f,
  (f <= length l)%nat ->
  (forall i q, (i < f)%nat -> l !! i = Some q -> m_done q = true) ->
  (forall q, l !! f = Some q -> m_done q = false) ->
  scan_done l w d = (fold_left bump_wm (take f l) w, (d + f)%nat).
Proof.
  induction l as [|q l IH]; intros w d f Hle Hd Hn.
  - simpl in *. destruct f; [|lia]. simpl. f_equal. lia.
  - simpl. destruct f as [|f].
    + rewrite (Hn q eq_refl). simpl. f_equal. lia.
    + rewrite (Hd 0%nat q ltac:(lia) eq_refl).
      rewrite (IH _ _ f); simpl in *; [f_equal; lia|lia| |done].
      intros i q' Hi Hq'. apply (Hd (S i) q'); [lia|done].
Qed.

Lemma sim_publish f m s :
  Sim f m s ->
  exists f', Sim f' m (publish s) /\
    Pos.get (emitter_ack (publish s)) = Z.max (Pos.get (emitter_ack s)) (expected m) /\
    fatal (publish s) = fatal s /\
    (forall q, m_seqs m !! f' = Some q -> m_done q = false).
Proof.
  intros HS. destruct (sim_scan m (size (seqs s)) f s HS) as (f' & HS' & HE & _ & HF).
  assert (Hstuck : forall q, m_seqs m !! f' = Some q -> m_done q = false).
  { intros q Hq. pose proof (scan_stops (size (seqs s)) s ltac:(lia)) as St.
    unfold head_stuck in St. rewrite (sim_frontier _ _ _ HS'), (sim_map _ _ _ HS') in St.
    rewrite Z.leb_refl, Nat2Z.id, Hq in St. exact St. }
  exists f'. split; [by destruct HS'; split|]. split; [|done].
  unfold publish, expected. simpl.
  rewrite (scan_done_prefix _ _ _ f' (sim_le _ _ _ HS') (sim_done _ _ _ HS') Hstuck). simpl.
  unfold Pos.join, Pos.get. simpl. rewrite HE. f_equal.
  unfold all_done. rewrite (sim_frontier _ _ _ HS'), (sim_reg _ _ _ HS').
  rewrite (sim_wm _ _ _ HS'), (sim_trailing _ _ _ HS'). unfold wm, zlen.
  destruct (Nat.eqb_spec f' (length (m_seqs m))), (Z.eqb_spec (Z.of_nat f') (Z.of_nat (length (m_seqs m))));
    done || lia.
Qed.

(** What one processed event leaves. *)
Record Agree (ack0 : Z) (f0 : option FatalMsg) (m : Model) (s : AckState) : Prop := mkAgree
  { ag_sim : exists f, Sim f m s /\ (forall q, m_seqs m !! f = Some q -> m_done q = false);
    ag_ack : Pos.get (emitter_ack s) = Z.max ack0 (m_high m);
    ag_fatal : fatal s = f0 }.

Lemma m_high_step e m : m_high (model_step m e) = m_high m.
Proof. by destruct e. Qed.

Lemma m_high_steps l : forall m, m_high (fold_left model_step l m) = m_high m.
Proof. induction l as [|e l IH]; intros m; simpl; [done|]. by rewrite IH, m_high_step. Qed.

Lemma agree_apply ack0 f0 m s ev :
  Agree ack0 f0 m s -> legal_atoms m (atoms ev) -> Agree ack0 f0 (model_apply m ev) (apply s ev).
Proof.
  intros [(f & HS & _) HA HF] HL. unfold apply. rewrite step_event_atoms.
  destruct (sim_atoms f (atoms ev) m s HS HL) as [HS' (HE & _ & HF')].
  destruct (sim_publish _ _ _ HS') as (f' & HP & HE' & HF'' & Hn).
  split.
  - exists f'. split; [by destruct HP; split|done].
  - unfold model_apply. cbn [m_high]. rewrite HE', HE, HA, m_high_steps. lia.
  - congruence.
Qed.

Lemma agree_collect ack0 f0 evs : forall m s,
  Agree ack0 f0 m s -> legal_schedule m evs ->
  Agree ack0 f0 (fold_left model_apply evs m) (collect s evs).
Proof.
  induction evs as [|ev evs IH]; intros m s HA HL; [done|].
  destruct HL as [H1 H2]. exact (IH _ _ (agree_apply _ _ _ _ _ HA H1) H2).
Qed.

Lemma agree_new ack0 f0 : 0 <= ack0 -> Agree ack0 f0 empty (new ack0 f0).
Proof.
  intros H0. split; [|simpl; unfold Pos.get, Pos.new; simpl; lia|done].
  exists 0%nat. split; [|done]. split; simpl; try done.
  intros k. rewrite lookup_empty. destruct (Z.to_nat k); by destruct k.
Qed.

Lemma agree_all_done ack0 f0 m s :
  Agree ack0 f0 m s -> all_done s = forallb m_done (m_seqs m).
Proof.
  intros [(f & HS & Hn) _ _]. unfold all_done.
  rewrite (sim_frontier _ _ _ HS), (sim_reg _ _ _ HS). unfold zlen.
  pose proof (sim_le _ _ _ HS) as Hle.
  destruct (Z.eqb_spec (Z.of_nat f) (Z.of_nat (length (m_seqs m)))) as [E|E]; symmetry.
  - apply forallb_forall. intros q (i & Hi)%list_elem_of_In%list_elem_of_lookup.
    apply (sim_done _ _ _ HS i q); [|done]. apply lookup_lt_Some in Hi. lia.
  - apply not_true_is_false. intros Hall.
    destruct (lookup_lt_is_Some_2 (m_seqs m) f ltac:(lia)) as [q Hq].
    rewrite forallb_forall in Hall. specialize (Hall q).
    rewrite <- list_elem_of_In in Hall.
    rewrite (Hn q Hq) in Hall. discriminate Hall. by eapply list_elem_of_lookup_2.
Qed.

(** C8: on every legal schedule, batched or not and in every interleaving, the
    incremental collector publishes exactly the watermark the full-history
    model recomputes from scratch, reports idle exactly when every registered
    seq is done, and never records a protocol fault or trips the fatal slot. *)
Theorem collector_matches_model ack0 f0 evs :
  0 <= ack0 -> legal_schedule empty evs ->
  let s := collect (new ack0 f0) evs in
  let m := model_run evs in
  Pos.get (emitter_ack s) = Z.max ack0 (m_high m) /\
  all_done s = forallb m_done (m_seqs m) /\
  registered s = zlen (m_seqs m) /\
  wedged s = 0 /\ fatal s = f0.
Proof.
  intros H0 HL s m.
  pose proof (agree_collect ack0 f0 evs _ _ (agree_new ack0 f0 H0) HL) as HA.
  split; [apply HA|]. split; [by eapply agree_all_done|].
  pose proof (ag_fatal _ _ _ _ HA). destruct (ag_sim _ _ _ _ HA) as (f & HS & _).
  split; [apply HS|]. split; [apply HS|done].
Qed.

(** Registration order as the pump guarantees it: every registration carries a
    later position than every publishing registration and every trailing
    position before it. *)
Definition ordered (m : Model) (e : Ev) : Prop :=
  match e with
  | Reg _ lsn _ =>
      m_trailing m < lsn /\ 0 < lsn /\
      Forall (fun q => m_publish q = true -> m_lsn q < lsn) (m_seqs m)
  | _ => True
  end.

Fixpoint ordered_atoms (m : Model) (l : list Ev) : Prop :=
  match l with [] => True | e :: r => ordered m e /\ ordered_atoms (model_step m e) r end.

Fixpoint ordered_schedule (m : Model) (evs : list AckEvent) : Prop :=
  match evs with
  | [] => True
  | ev :: r => ordered_atoms m (atoms ev) /\ ordered_schedule (model_apply m ev) r
  end.

(** What order buys: unfinished seqs lie above the high watermark, which is
    bounded by what has been published or trailed. *)
Record Above (m : Model) : Prop := mkAbove
  { ab_pos : 0 <= m_trailing m;
    ab_lsn : forall i q, m_seqs m !! i = Some q -> 0 < m_lsn q;
    ab_sorted : forall i j p q, (i < j)%nat -> m_seqs m !! i = Some p ->
      m_seqs m !! j = Some q -> m_publish p = true -> m_lsn p < m_lsn q;
    ab_open : forall i q, m_seqs m !! i = Some q -> m_done q = false -> m_high m < m_lsn q;
    ab_high : forall b, m_trailing m < b -> 0 < b ->
      Forall (fun q => m_publish q = true -> m_lsn q < b) (m_seqs m) -> m_high m < b }.

(** A seq update that keeps position and flag, and never unfinishes a seq. *)
Lemma above_alter m i g :
  Above m ->
  (forall q, m_lsn (g q) = m_lsn q /\ m_publish (g q) = m_publish q) ->
  (forall q, m_seqs m !! i = Some q -> m_done (g q) = false -> m_done q = false) ->
  Above (MkModel (alter g i (m_seqs m)) (m_trailing m) (m_high m)).
Proof.
  intros [Hp Hl Hs Ho Hh] Hg Hd.
  assert (L : forall j q, alter g i (m_seqs m) !! j = Some q ->
    exists p, m_seqs m !! j = Some p /\ m_lsn q = m_lsn p /\ m_publish q = m_publish p /\
      (m_done q = false -> m_done p = false)).
  { intros j q. rewrite list_lookup_alter. case_decide as E; [|eauto 6].
    destruct E as [<- _]. destruct (m_seqs m !! i) as [p|] eqn:Ep; [|done]. simpl.
    intros [= <-]. exists p. destruct (Hg p). repeat split; auto. }
  split; simpl; auto.
  - intros j q (p & Hj & -> & _)%L. eauto.
  - intros j k p q Hjk (p' & Hp' & -> & -> & _)%L (q' & Hq' & -> & _)%L. eauto.
  - intros j q (p & Hj & -> & _ & D)%L Hnd. eauto.
  - intros b H1 H2 H3. apply Hh; auto. apply Forall_lookup. intros j p Hj Hpub.
    destruct (decide (j = i)) as [->|].
    + destruct (Hg p) as [<- E]. eapply (Forall_lookup_1 _ _ i (g p) H3).
      * by rewrite list_lookup_alter_eq, Hj.
      * congruence.
    + eapply (Forall_lookup_1 _ _ j p H3); [|done]. by rewrite list_lookup_alter_ne.
Qed.

Lemma above_reg m seq lsn pub :
  Above m -> ordered m (Reg seq lsn pub) -> Above (model_step m (Reg seq lsn pub)).
Proof.
  intros [Hp Hl Hs Ho Hh] (Ht & H0 & Hf).
  assert (L : forall j q, (m_seqs m ++ [MkModelSeq lsn pub None 0]) !! j = Some q ->
    m_seqs m !! j = Some q \/ (j = length (m_seqs m) /\ m_lsn q = lsn)).
  { intros j q [|(? & Hq)]%lookup_app_Some; [auto|]. right.
    destruct (j - length (m_seqs m))%nat eqn:E; simplify_eq/=. split; [lia|done]. }
  split; simpl; auto.
  - intros j q [|(_ & ->)]%L; [eauto|done].
  - intros i j p q Hij Hpi [Hqj|(-> & ->)]%L Hpub.
    + destruct (L _ _ Hpi) as [|(-> & _)]; [eauto|].
      apply lookup_lt_Some in Hqj. lia.
    + destruct (L _ _ Hpi) as [Hi|(-> & _)]; [|lia].
      exact (Forall_lookup_1 _ _ _ _ Hf Hi Hpub).
  - intros j q [Hj|(_ & ->)]%L Hnd; [eauto|]. apply Hh; auto.
  - intros b H1 H2 [H3 _]%Forall_app. auto.
Qed.

Lemma above_step m e : Above m -> legal m e -> ordered m e -> Above (model_step m e).
Proof.
  intros HA HL HO. destruct e as [seq lsn pub|seq r|seq n|lsn].
  - by apply above_reg.
  - destruct HL as (_ & q & Hq & Hn & _). apply above_alter; [done|done|].
    intros q' Hq' _. simplify_eq. unfold m_done. by rewrite Hn.
  - destruct HL as (_ & Hn & q & Hq & Hle & _). apply above_alter; [done|done|].
    intros q' Hq'. simplify_eq. unfold m_done. simpl.
    destruct (m_rows q); [|done]. rewrite !Z.eqb_neq. lia.
  - destruct HA as [Hp Hl Hs Ho Hh]. split; simpl; auto; [lia|].
    intros b H1 H2 H3. apply Hh; auto. lia.
Qed.

Lemma above_steps l : forall m,
  Above m -> legal_atoms m l -> ordered_atoms m l -> Above (fold_left model_step l m).
Proof.
  induction l as [|e l IH]; intros m HA; [done|].
  intros [HL1 HL2] [HO1 HO2]. simpl. eauto using above_step.
Qed.

Lemma bump_wm_bound l : forall w b,
  w < b -> Forall (fun q => m_publish q = true -> m_lsn q < b) l -> fold_left bump_wm l w < b.
Proof.
  induction l as [|q l IH]; intros w b Hw HF; [done|].
  apply Forall_cons_1 in HF as [Hq HF]. simpl. apply IH; [|done].
  unfold bump_wm. destruct (m_publish q); [|done]. specialize (Hq eq_refl). lia.
Qed.

(** The loop of [expected] stops at a prefix of done seqs. *)
Lemma scan_done_exists l : forall w d, exists f,
  (f <= length l)%nat /\ scan_done l w d = (fold_left bump_wm (take f l) w, (d + f)%nat) /\
  (f = length l -> Forall (fun q => m_done q = true) l) /\
  Forall (fun q => m_done q = true) (take f l).
Proof.
  induction l as [|q l IH]; intros w d; simpl.
  - exists 0%nat. rewrite Nat.add_0_r. repeat split; auto.
  - destruct (m_done q) eqn:E.
    + destruct (IH (bump_wm w q) (S d)) as (f & Hf & Eq & Ha & Hp). exists (S f).
      change (if m_publish q then Z.max w (m_lsn q) else w) with (bump_wm w q). rewrite Eq.
      split; [lia|]. split; [f_equal; lia|]. split; [|by constructor].
      intros Hl. constructor; [done|]. apply Ha. lia.
    + exists 0%nat. rewrite Nat.add_0_r. split; [lia|]. split; [done|]. split; [done|].
      constructor.
Qed.

Lemma above_publish m :
  Above m -> Above (MkModel (m_seqs m) (m_trailing m) (Z.max (m_high m) (expected m))).
Proof.
  intros HA. pose proof HA as [Hp Hl Hs Ho Hh].
  destruct (scan_done_exists (m_seqs m) 0 0) as (f & Hf & Eq & Ha & Hpre).
  split; simpl; auto.
  - intros i q Hi Hnd. apply Z.max_lub_lt; [eauto|].
    unfold expected. rewrite Eq. simpl.
    destruct (Nat.eqb_spec f (length (m_seqs m))) as [E|E].
    { pose proof (Forall_lookup_1 _ _ _ _ (Ha E) Hi). simpl in *. congruence. }
    apply bump_wm_bound; [eauto|]. apply Forall_lookup. intros j p Hj Hpub.
    pose proof (Forall_lookup_1 _ _ _ _ Hpre Hj) as Hdn. simpl in Hdn.
    apply lookup_take_Some in Hj as [Hj Hjf].
    apply (Hs j i p q); auto. destruct (decide (j < i)%nat); [done|].
    destruct (decide (i < f)%nat); [|lia].
    assert (take f (m_seqs m) !! i = Some q) as Hi' by (by apply lookup_take_Some).
    pose proof (Forall_lookup_1 _ _ _ _ Hpre Hi'). simpl in *. congruence.
  - intros b H1 H2 H3. apply Z.max_lub_lt; [eauto|].
    unfold expected. rewrite Eq. simpl.
    assert (fold_left bump_wm (take f (m_seqs m)) 0 < b).
    { apply bump_wm_bound; [done|]. by apply Forall_take. }
    destruct (Nat.eqb f (length (m_seqs m))); lia.
Qed.

Lemma above_run evs : forall m,
  Above m -> legal_schedule m evs -> ordered_schedule m evs ->
  Above (fold_left model_apply evs m).
Proof.
  induction evs as [|ev evs IH]; intros m HA; [done|].
  intros [HL1 HL2] [HO1 HO2]. simpl. apply IH; auto.
  apply above_publish. by apply above_steps.
Qed.

(** C32: no lost rows.  When registrations carry increasing positions, the
    published watermark stays strictly below the commit position of every seq
    whose rows are not all acknowledged, so a restart from the watermark
    replays it. *)
Theorem unacked_above_watermark f0 evs i q :
  legal_schedule empty evs -> ordered_schedule empty evs ->
  m_seqs (model_run evs) !! i = Some q -> m_done q = false ->
  Pos.get (emitter_ack (collect (new 0 f0) evs)) < m_lsn q.
Proof.
  intros HL HO Hq Hnd.
  pose proof (agree_collect 0 f0 evs _ _ (agree_new 0 f0 (Z.le_refl 0)) HL) as HA.
  rewrite (ag_ack _ _ _ _ HA).
  assert (Above empty) as H0.
  { split; simpl; try done; intros; by destruct i0. }
  pose proof (above_run evs empty H0 HL HO) as HB.
  pose proof (ab_lsn _ HB _ _ Hq). pose proof (ab_open _ HB _ _ Hq Hnd). lia.
Qed.

(** The hypotheses as executable checks. *)
#[global] Instance legal_dec m e : Decision (legal m e).
Proof.
  destruct e as [seq lsn pub|seq r|seq n|lsn]; simpl; try apply _.
  - destruct (m_seqs m !! Z.to_nat seq) as [q|].
    + destruct (decide (0 <= seq /\ m_rows q = None /\ m_acked q <= r)) as [H|H].
      * left. destruct H as (? & ? & ?). split; [done|]. by exists q.
      * right. intros (? & q' & [= <-] & ? & ?). auto.
    + right. by intros (_ & q & ? & _).
  - destruct (m_seqs m !! Z.to_nat seq) as [q|].
    + destruct (decide (0 <= seq /\ 0 <= n /\
        m_acked q + n <= match m_rows q with Some r => r | None => U64_MAX end /\
        m_acked q + n <= U64_MAX)) as [H|H].
      * left. destruct H as (? & ? & ? & ?). split; [done|]. split; [done|]. by exists q.
      * right. intros (? & ? & q' & [= <-] & ? & ?). auto.
    + right. by intros (_ & _ & q & ? & _).
Defined.

#[global] Instance legal_atoms_dec l : forall m, Decision (legal_atoms m l).
Proof. induction l as [|e l IH]; intros m; simpl; apply _. Defined.

#[global] Instance legal_schedule_dec evs : forall m, Decision (legal_schedule m evs).
Proof. induction evs as [|ev evs IH]; intros m; simpl; apply _. Defined.

#[global] Instance ordered_dec m e : Decision (ordered m e).
Proof. destruct e; simpl; apply _. Defined.

#[global] Instance ordered_atoms_dec l : forall m, Decision (ordered_atoms m l).
Proof. induction l as [|e l IH]; intros m; simpl; apply _. Defined.

#[global] Instance ordered_schedule_dec evs : forall m, Decision (ordered_schedule m evs).
Proof. induction evs as [|ev evs IH]; intros m; simpl; apply _. Defined.

(** A two-commit schedule, batched and out of order, for the witnesses. *)
Definition demo : list AckEvent :=
  [Batch [Register 0 10 true; Register 1 20 true]; Acked [(1, 2)]; Placed 1 2; Trailing 25;
   Placed 0 3].

Lemma collector_matches_model_witness :
  Pos.get (emitter_ack (collect (new 5 None) (demo ++ [Acked [(0, 3)]]))) = 25.
Proof.
  destruct (collector_matches_model 5 None (demo ++ [Acked [(0, 3)]])) as [E _].
  - lia.
  - by apply (bool_decide_unpack _).
  - rewrite E. vm_compute. reflexivity.
Defined.

Lemma unacked_above_watermark_witness :
  Pos.get (emitter_ack (collect (new 0 None) demo)) < 10.
Proof.
  apply (unacked_above_watermark None demo 0 (MkModelSeq 10 true (Some 3) 0)).
  - by apply (bool_decide_unpack _).
  - by apply (bool_decide_unpack _).
  - reflexivity.
  - reflexivity.
Defined.

End Model.
