(* ===== verification/DirtyTree.v ===== *)
(** * Catalog-dirty transaction tree ([src/filter/dirty_tree.rs])

    Which transactions wrote catalog state still pending at this stream
    position.  Maps are [gmap]s keyed by xid; where the source iterates a hash
    map in arbitrary order, the order is an argument. *)
From S2P Require Import Prelude.

Module DirtyTree.

Record DirtyState := MkDirty
  { first_touch : Z;
    oids : gmap Z Z;
    unenumerated : bool;
    direct_write : bool;
    db : option Z;
    db_other : option Z }.

Definition new_state (first_touch : Z) : DirtyState :=
  MkDirty first_touch ∅ false false None None.

(** [DirtyState::absorb]; the loop over [other.oids] touches distinct keys. *)
Definition absorb (self other : DirtyState) : DirtyState :=
  let '(d, o) :=
    match db self, db other with
    | Some ours, Some theirs =>
        if negb (ours =? theirs) then (db self, Some theirs) else (db self, db_other self)
    | None, theirs => (theirs, db_other self)
    | _, _ => (db self, db_other self)
    end in
  MkDirty (Z.min (first_touch self) (first_touch other))
    (union_with (fun l lsn => Some (Z.min l lsn)) (oids self) (oids other))
    (unenumerated self || unenumerated other)
    (direct_write self || direct_write other)
    d (opt_or o (db_other other)).

Record DirtyTree := MkTree
  { top_by_xid : gmap Z Z;
    state_by_xid : gmap Z DirtyState;
    dirty_members : gmap Z Z }.

Definition empty : DirtyTree := MkTree ∅ ∅ ∅.

Definition root (t : DirtyTree) (xid : Z) : Z := default xid (top_by_xid t !! xid).

(** [decrement]: a count that reaches zero leaves the map. *)
Definition decrement (counts : gmap Z Z) (key : Z) : gmap Z Z :=
  match counts !! key with
  | Some n => if n - 1 =? 0 then delete key counts else <[key := n - 1]> counts
  | None => counts
  end.

(** [*counts.entry(key).or_default() += 1]. *)
Definition increment (counts : gmap Z Z) (key : Z) : gmap Z Z :=
  <[key := default 0 (counts !! key) + 1]> counts.

Definition link (t : DirtyTree) (sub top : Z) : DirtyTree :=
  if (sub =? 0) || (top =? 0) || (sub =? top) then t
  else
    let tops := <[sub := top]> (top_by_xid t) in
    if negb (is_some (top_by_xid t !! sub)) && is_some (state_by_xid t !! sub) then
      MkTree tops (state_by_xid t) (increment (decrement (dirty_members t) sub) top)
    else MkTree tops (state_by_xid t) (dirty_members t).

(** [touch] hands the caller the entry to update: [f] is that update. *)
Definition touch (t : DirtyTree) (xid lsn : Z) (f : DirtyState -> DirtyState) : DirtyTree :=
  let r := root t xid in
  match state_by_xid t !! xid with
  | Some e => MkTree (top_by_xid t) (<[xid := f e]> (state_by_xid t)) (dirty_members t)
  | None =>
      MkTree (top_by_xid t) (<[xid := f (new_state lsn)]> (state_by_xid t))
        (increment (dirty_members t) r)
  end.

Definition is_dirty (t : DirtyTree) (xid : Z) : bool :=
  negb (xid =? 0) && is_some (dirty_members t !! root t xid).

(** One turn of [drain_tree]'s member loop. *)
Definition drain_one (acc : DirtyTree * option DirtyState * list Z) (x : Z)
    : DirtyTree * option DirtyState * list Z :=
  let '(t, merged, drained) := acc in
  if bool_decide (x ∈ drained) then acc
  else
    match state_by_xid t !! x with
    | None =>
        (MkTree (delete x (top_by_xid t)) (state_by_xid t) (dirty_members t),
         merged, drained ++ [x])
    | Some state =>
        (MkTree (delete x (top_by_xid t)) (delete x (state_by_xid t))
           (decrement (dirty_members t) (root t x)),
         Some (match merged with None => state | Some m => absorb m state end),
         drained ++ [x])
    end.

(** Members of the drained tree: the roots, the payload's subxacts, then the
    links to a root in the hash map's iteration order [linked]. *)
Definition tree_roots (header : Z) (twophase : option Z) : list Z :=
  header :: match twophase with Some x => [x] | None => [] end.

Definition is_link_of (t : DirtyTree) (roots : list Z) (x : Z) : bool :=
  match top_by_xid t !! x with Some top => bool_decide (top ∈ roots) | None => false end.

Definition drain_tree (t : DirtyTree) (header : Z) (twophase : option Z)
    (subxacts linked : list Z) : DirtyTree * option DirtyState * list Z :=
  if bool_decide (state_by_xid t = ∅) && bool_decide (top_by_xid t = ∅) then (t, None, [])
  else fold_left drain_one (tree_roots header twophase ++ subxacts ++ linked) (t, None, []).

(** ** The count invariant

    Every dirty xid is counted once under its root, and no root is kept with
    a zero count. *)
Definition dirty_under (t : DirtyTree) (r : Z) : gset Z :=
  filter (fun x => root t x = r) (dom (state_by_xid t)).

Definition count (t : DirtyTree) (r : Z) : Z := Z.of_nat (size (dirty_under t r)).

Definition nonzero (n : Z) : option Z := if n =? 0 then None else Some n.

Definition Inv (t : DirtyTree) : Prop :=
  forall r, dirty_members t !! r = nonzero (count t r).

Inductive op :=
| Link (sub top : Z)
| Touch (xid lsn : Z) (f : DirtyState -> DirtyState)
| Drain (header : Z) (twophase : option Z) (subxacts linked : list Z).

Definition exec (t : DirtyTree) (o : op) : DirtyTree :=
  match o with
  | Link sub top => link t sub top
  | Touch xid lsn f => touch t xid lsn f
  | Drain h tp subs linked => fst (fst (drain_tree t h tp subs linked))
  end.

(** Postgres assigns a subtransaction one top-level parent, so a repeated link
    names the same top. *)
Definition op_ok (t : DirtyTree) (o : op) : Prop :=
  match o with
  | Link sub top => top_by_xid t !! sub = None \/ top_by_xid t !! sub = Some top
  | _ => True
  end.

Inductive reachable : DirtyTree -> Prop :=
| reach_empty : reachable empty
| reach_step t o : reachable t -> op_ok t o -> reachable (exec t o).

Lemma nonzero_inv a b : nonzero a = nonzero b -> a = b.
Proof. unfold nonzero. bsplit; congruence. Qed.

Lemma count_nonneg t r : 0 <= count t r.
Proof. unfold count. lia. Qed.

Lemma lookup_increment m k r c :
  m !! k = nonzero c -> 0 <= c ->
  increment m k !! r = if decide (r = k) then nonzero (c + 1) else m !! r.
Proof.
  intros Hm Hc. unfold increment. rewrite lookup_insert, Hm. unfold nonzero.
  repeat case_decide; try congruence. subst. bsplit; simpl; try lia; f_equal; lia.
Qed.

Lemma lookup_decrement m k r c :
  m !! k = nonzero c -> 0 < c ->
  decrement m k !! r = if decide (r = k) then nonzero (c - 1) else m !! r.
Proof.
  intros Hm Hc. unfold decrement. rewrite Hm. unfold nonzero.
  destruct (Z.eqb_spec c 0); [lia|].
  destruct (Z.eqb_spec (c - 1) 0);
    rewrite ?lookup_delete, ?lookup_insert; repeat case_decide; congruence.
Qed.

(** The sets a change of one xid's dirt or root leaves behind. *)
Lemma count_add t t' x r :
  x ∉ dom (state_by_xid t) -> dirty_under t' r = {[x]} ∪ dirty_under t r ->
  count t' r = count t r + 1.
Proof.
  intros Hx E. unfold count. rewrite E, size_union, size_singleton; [lia|].
  unfold dirty_under. set_solver.
Qed.

Lemma count_remove t t' x r :
  x ∈ dirty_under t r -> dirty_under t' r = dirty_under t r ∖ {[x]} ->
  count t' r = count t r - 1.
Proof.
  intros Hx E. unfold count. rewrite E.
  rewrite size_difference, size_singleton by set_solver.
  assert (size (dirty_under t r) <> 0%nat); [|lia].
  intros H0%size_empty_inv. set_solver.
Qed.

Lemma elem_dirty_under t r x :
  x ∈ dirty_under t r <-> root t x = r /\ x ∈ dom (state_by_xid t).
Proof. unfold dirty_under. by rewrite elem_of_filter. Qed.

Lemma inv_touch t xid lsn f : Inv t -> Inv (touch t xid lsn f).
Proof.
  intros HI r. unfold touch. destruct (state_by_xid t !! xid) as [e|] eqn:E.
  - simpl. rewrite HI. unfold count, dirty_under. simpl.
    rewrite dom_insert_lookup_L by eauto. done.
  - apply not_elem_of_dom in E. set (t' := MkTree _ _ _). simpl.
    rewrite (lookup_increment _ _ _ _ (HI _) (count_nonneg _ _)). case_decide as D.
    + subst r. f_equal. symmetry. apply (count_add t t' xid); [done|].
      apply set_eq. intros x. rewrite elem_of_union, !elem_dirty_under. subst t'. simpl.
      rewrite dom_insert_L. unfold root; simpl. set_solver.
    + rewrite HI. f_equal. unfold count. f_equal. f_equal.
      apply set_eq. intros x. rewrite !elem_dirty_under. subst t'. simpl.
      rewrite dom_insert_L. unfold root in *; simpl. set_solver.
Qed.

(** Where a link leaves each root. *)
Lemma root_link t sub top st m x :
  root (MkTree (<[sub := top]> (top_by_xid t)) st m) x = if decide (x = sub) then top else root t x.
Proof. unfold root. simpl. rewrite lookup_insert. repeat case_decide; subst; done. Qed.

Lemma inv_link t sub top : Inv t -> op_ok t (Link sub top) -> Inv (link t sub top).
Proof.
  intros HI Hok. unfold link.
  destruct (Z.eqb_spec sub 0); [done|]. destruct (Z.eqb_spec top 0); [done|].
  destruct (Z.eqb_spec sub top) as [|Hne]; [done|]. simpl.
  destruct (top_by_xid t !! sub) as [p|] eqn:Et; simpl.
  - assert (p = top) as -> by (destruct Hok as [Hok|Hok]; congruence).
    intros r. simpl. rewrite HI. unfold count, dirty_under.
    simpl. rewrite (insert_id (top_by_xid t) sub top) by done. done.
  - destruct (state_by_xid t !! sub) as [e|] eqn:Es; simpl.
    + assert (Hroot : root t sub = sub) by (unfold root; by rewrite Et).
      assert (Hin : sub ∈ dom (state_by_xid t)) by (by eapply elem_of_dom_2).
      assert (Hsub : sub ∈ dirty_under t sub) by (by apply elem_dirty_under).
      assert (Hpos : 0 < count t sub).
      { unfold count. assert (size (dirty_under t sub) <> 0%nat); [|lia].
        intros H0%size_empty_inv. set_solver. }
      pose proof (lookup_decrement _ sub top _ (HI sub) Hpos) as Hd.
      rewrite decide_False, HI in Hd by congruence.
      intros r. cbn [dirty_members]. set (t' := MkTree _ _ _).
      rewrite (lookup_increment _ _ r _ Hd (count_nonneg _ _)).
      assert (U : forall r, dirty_under t' r =
        if decide (r = top) then {[sub]} ∪ dirty_under t top
        else if decide (r = sub) then dirty_under t sub ∖ {[sub]} else dirty_under t r).
      { clear r. intros r. apply set_eq. intros x. rewrite elem_dirty_under. subst t'.
        rewrite root_link. simpl. repeat case_decide; subst;
          rewrite ?elem_of_union, ?elem_of_difference, ?elem_of_singleton, ?elem_dirty_under;
          naive_solver. }
      case_decide as D1.
      * subst r. f_equal. unfold count. rewrite (U top), decide_True by done.
        rewrite size_union, size_singleton; [lia|].
        apply disjoint_singleton_l. rewrite elem_dirty_under. intros [? _]. congruence.
      * rewrite (lookup_decrement _ sub r _ (HI sub) Hpos). case_decide as D2.
        -- subst r. f_equal. symmetry. apply (count_remove t t' sub); [done|].
           rewrite (U sub), decide_False, decide_True by done. done.
        -- rewrite HI. f_equal. unfold count. rewrite (U r), !decide_False by done. done.
    + intros r. simpl. rewrite HI. unfold count, dirty_under. simpl. do 3 f_equal.
      apply set_eq. intros x. rewrite !elem_of_filter, root_link. case_decide; [|done].
      subst x. apply not_elem_of_dom in Es. set_solver.
Qed.

(** Deleting an xid's link and dirt leaves the other roots alone. *)
Lemma root_unlink t x st m y :
  root (MkTree (delete x (top_by_xid t)) st m) y = if decide (y = x) then x else root t y.
Proof. unfold root. simpl. rewrite lookup_delete. repeat case_decide; subst; done. Qed.

Lemma inv_drain_one t merged drained x :
  Inv t -> Inv (fst (fst (drain_one (t, merged, drained) x))).
Proof.
  intros HI. unfold drain_one. case_bool_decide; [done|].
  destruct (state_by_xid t !! x) as [e|] eqn:Es; simpl.
  - intros r. cbn [dirty_members].
    assert (Hin : x ∈ dom (state_by_xid t)) by (by eapply elem_of_dom_2).
    assert (Hx : x ∈ dirty_under t (root t x)) by (by apply elem_dirty_under).
    assert (Hpos : 0 < count t (root t x)).
    { unfold count. assert (size (dirty_under t (root t x)) <> 0%nat); [|lia].
      intros H0%size_empty_inv. set_solver. }
    rewrite (lookup_decrement _ _ r _ (HI _) Hpos). set (t' := MkTree _ _ _).
    assert (U : forall r, dirty_under t' r = dirty_under t r ∖ {[x]}).
    { clear r. intros r. apply set_eq. intros y. rewrite elem_dirty_under. subst t'.
      rewrite root_unlink. simpl. rewrite dom_delete_L.
      rewrite !elem_of_difference, !elem_of_singleton, elem_dirty_under.
      case_decide; naive_solver. }
    case_decide as D.
    + subst r. f_equal. symmetry. by apply (count_remove t t' x).
    + rewrite HI. f_equal. unfold count. rewrite U. do 2 f_equal.
      apply set_eq. intros y. rewrite elem_of_difference, elem_dirty_under. set_solver.
  - intros r. simpl. rewrite HI. unfold count, dirty_under. simpl. do 3 f_equal.
    apply set_eq. intros y. rewrite !elem_of_filter, root_unlink. case_decide; [|done].
    subst y. apply not_elem_of_dom in Es. set_solver.
Qed.

Lemma inv_drain_fold l : forall t merged drained,
  Inv t -> Inv (fst (fst (fold_left drain_one l (t, merged, drained)))).
Proof.
  induction l as [|x l IH]; intros t merged drained HI; [done|].
  cbn [fold_left]. pose proof (inv_drain_one t merged drained x HI) as H1.
  destruct (drain_one (t, merged, drained) x) as [[t' m'] d']. by apply IH.
Qed.

Lemma inv_exec t o : Inv t -> op_ok t o -> Inv (exec t o).
Proof.
  intros HI Hok. destruct o.
  - by apply inv_link.
  - by apply inv_touch.
  - simpl. unfold drain_tree. destruct (_ && _); [done|]. by apply inv_drain_fold.
Qed.

Lemma inv_reachable t : reachable t -> Inv t.
Proof. induction 1; [done|]. by apply inv_exec. Qed.

(** ** What a drain returns *)

Definition merge_into (acc : option DirtyState) (s : DirtyState) : option DirtyState :=
  Some (match acc with None => s | Some m => absorb m s end).

(** The members seen first, and the dirt among them. *)
Record Drained (t0 t : DirtyTree) (drained : list Z) (merged : option DirtyState) : Prop :=
  mkDrained
  { dr_state : forall x, state_by_xid t !! x =
      if bool_decide (x ∈ drained) then None else state_by_xid t0 !! x;
    dr_top : forall x, top_by_xid t !! x =
      if bool_decide (x ∈ drained) then None else top_by_xid t0 !! x;
    dr_merged : merged = fold_left merge_into (omap (fun x => state_by_xid t0 !! x) drained) None;
    dr_nodup : NoDup drained }.

Lemma drained_snoc t0 t drained merged x :
  Drained t0 t drained merged ->
  let '(t', m', d') := drain_one (t, merged, drained) x in
  Drained t0 t' d' m' /\ (forall y, y ∈ d' <-> y ∈ drained \/ y = x).
Proof.
  intros [Hs Ht Hm Hn]. unfold drain_one. case_bool_decide as Hx.
  { split; [done|]. naive_solver. }
  assert (Hmem : forall y, y ∈ drained ++ [x] <-> y ∈ drained \/ y = x) by set_solver.
  assert (Hsx : state_by_xid t !! x = state_by_xid t0 !! x)
    by (rewrite Hs, bool_decide_eq_false_2 by done; done).
  assert (Hdel : forall {A} (m m0 : gmap Z A),
    (forall y, m !! y = if bool_decide (y ∈ drained) then None else m0 !! y) ->
    forall y, delete x m !! y = if bool_decide (y ∈ drained ++ [x]) then None else m0 !! y).
  { intros A m m0 HA y. rewrite lookup_delete, HA.
    repeat case_decide; repeat case_bool_decide; set_solver. }
  assert (Hnd : NoDup (drained ++ [x])).
  { apply list.NoDup_app. split; [done|]. split; [set_solver|]. apply NoDup_singleton. }
  destruct (state_by_xid t !! x) as [s|] eqn:Es; (split; [|done]); split; simpl; auto.
  - rewrite omap_app, fold_left_app, <- Hm. simpl. rewrite <- Hsx. simpl. by destruct merged.
  - intros y. rewrite Hs. repeat case_bool_decide; set_solver.
  - rewrite omap_app, fold_left_app, <- Hm. simpl. by rewrite <- Hsx.
Qed.

Lemma drained_fold t0 l : forall t drained merged,
  Drained t0 t drained merged ->
  let '(t', m', d') := fold_left drain_one l (t, merged, drained) in
  Drained t0 t' d' m' /\ (forall y, y ∈ d' <-> y ∈ drained \/ y ∈ l).
Proof.
  induction l as [|x l IH]; intros t drained merged HD.
  - simpl. split; [done|]. set_solver.
  - cbn [fold_left]. pose proof (drained_snoc _ _ _ _ x HD) as H1.
    destruct (drain_one (t, merged, drained) x) as [[t' m'] d']. destruct H1 as [H1 Hm].
    specialize (IH t' d' m' H1). destruct (fold_left drain_one l (t', m', d')) as [[t2 m2] d2].
    destruct IH as [IH1 IH2]. split; [done|]. intros y. rewrite IH2, Hm. set_solver.
Qed.

(** What the merge keeps of one member. *)
Definition covers (m s : DirtyState) : Prop :=
  first_touch m <= first_touch s /\
  (unenumerated s = true -> unenumerated m = true) /\
  (direct_write s = true -> direct_write m = true) /\
  (forall oid lsn, oids s !! oid = Some lsn -> exists l, oids m !! oid = Some l /\ l <= lsn) /\
  (forall d, db s = Some d -> db m = Some d \/ is_Some (db_other m)) /\
  (is_Some (db_other s) -> is_Some (db_other m)).

Lemma covers_refl s : covers s s.
Proof. unfold covers. naive_solver lia. Qed.

Lemma covers_trans a b c : covers a b -> covers b c -> covers a c.
Proof.
  intros (A1 & A2 & A3 & A4 & A5 & A6) (B1 & B2 & B3 & B4 & B5 & B6).
  split; [lia|]. split; [auto|]. split; [auto|]. split; [|split; [|auto]].
  - intros oid lsn (l & Hl & Hle)%B4. destruct (A4 _ _ Hl) as (l' & ? & ?). exists l'. split; [done|lia].
  - intros d [H|H]%B5; auto.
Qed.

Lemma absorb_covers_l a b : covers (absorb a b) a.
Proof.
  unfold covers, absorb. destruct (db a) as [x|] eqn:Ea, (db b) as [y|] eqn:Eb; simpl;
    try destruct (Z.eqb_spec x y); simpl; (split; [lia|]);
    (split; [intros ->; done|]); (split; [intros ->; done|]);
    (split; [intros oid lsn Hl; rewrite lookup_union_with, Hl;
             destruct (oids b !! oid); simpl; eexists; split; try done; lia|]);
    (split; [intros d [=]; subst; auto|intros [o Ho]; rewrite ?Ho; simpl; eauto]).
Qed.

Lemma absorb_covers_r a b : covers (absorb a b) b.
Proof.
  unfold covers, absorb. destruct (db a) as [x|] eqn:Ea, (db b) as [y|] eqn:Eb; simpl;
    try destruct (Z.eqb_spec x y); simpl; (split; [lia|]);
    (split; [intros ->; apply orb_true_r|]); (split; [intros ->; apply orb_true_r|]);
    (split; [intros oid lsn Hl; rewrite lookup_union_with, Hl;
             destruct (oids a !! oid); simpl; eexists; split; try done; lia|]);
    (split; [intros d [=]; subst; simpl; eauto|intros [o Ho]; rewrite ?Ho; simpl; try destruct (db_other a); simpl; eauto]).
Qed.

Lemma merge_covers l : forall acc m,
  fold_left merge_into l acc = Some m ->
  (forall a, acc = Some a -> covers m a) /\ (forall s, s ∈ l -> covers m s).
Proof.
  induction l as [|s l IH]; intros acc m; cbn [fold_left].
  - intros ->. split; [intros a [= ->]; apply covers_refl|set_solver].
  - intros H. destruct (IH _ _ H) as [H1 H2]. specialize (H1 _ eq_refl). split.
    + intros a ->. eapply covers_trans; [exact H1|]. apply absorb_covers_l.
    + intros s' [->|Hs']%elem_of_cons; [|auto].
      destruct acc; [|done]. eapply covers_trans; [exact H1|]. apply absorb_covers_r.
Qed.

Lemma merge_none l : forall acc, fold_left merge_into l acc = None <-> l = [] /\ acc = None.
Proof.
  induction l as [|s l IH]; intros acc; cbn [fold_left]; [naive_solver|].
  rewrite IH. unfold merge_into. naive_solver.
Qed.

(** Two members that name different databases leave a conflict behind. *)
Lemma covers_conflict m a b x y :
  covers m a -> covers m b -> db a = Some x -> db b = Some y -> x <> y -> is_Some (db_other m).
Proof.
  intros (_ & _ & _ & _ & A & _) (_ & _ & _ & _ & B & _) Ha Hb Hne.
  destruct (A _ Ha); [|done]. destruct (B _ Hb); [|done]. congruence.
Qed.

Lemma inv_dirty t xid :
  Inv t -> xid <> 0 ->
  is_dirty t xid = true <-> exists x, is_Some (state_by_xid t !! x) /\ root t x = root t xid.
Proof.
  intros HI Hx. unfold is_dirty. rewrite (proj2 (Z.eqb_neq _ _) Hx). simpl.
  rewrite HI. unfold nonzero. destruct (Z.eqb_spec (count t (root t xid)) 0) as [E|E]; simpl.
  - split; [done|]. intros (x & Hs & Hr). exfalso. unfold count in E.
    assert (size (dirty_under t (root t xid)) = 0%nat) as H0%size_empty_inv by lia.
    apply (not_elem_of_empty (C := gset Z) x). rewrite <- H0. apply elem_dirty_under.
    split; [done|]. by apply elem_of_dom.
  - split; [|done]. intros _. destruct (set_choose_L (dirty_under t (root t xid))) as [x Hin].
    { intros H0. apply E. unfold count. by rewrite H0, size_empty. }
    apply elem_dirty_under in Hin as [Hr Hd]. exists x. by rewrite <- elem_of_dom.
Qed.

(** Nothing left behind has the drained root. *)
Lemma drained_root_clean t t' drained merged header roots :
  Inv t' -> Drained t t' drained merged -> header <> 0 -> header ∈ roots ->
  (forall x, x = header \/ is_link_of t roots x = true -> x ∈ drained) ->
  is_dirty t' header = false.
Proof.
  intros HI' [Hs Ht _ _] Hh Hroots Hl. apply not_true_is_false. rewrite inv_dirty by done.
  intros (x & [s Hsx] & Hr). rewrite Hs in Hsx. case_bool_decide as Hx; [done|].
  assert (root t' header = header) as Hrh.
  { unfold root. rewrite Ht, bool_decide_eq_true_2 by auto. done. }
  rewrite Hrh in Hr. unfold root in Hr. rewrite Ht, bool_decide_eq_false_2 in Hr by done.
  apply Hx, Hl. unfold is_link_of.
  destruct (top_by_xid t !! x) as [top|]; simpl in Hr; subst; [right|by left].
  by apply bool_decide_eq_true.
Qed.

(** A dirty member is never lost by a drain: its dirt is in the merged state. *)
Lemma drain_covers t header twophase subxacts linked x s :
  x ∈ tree_roots header twophase ++ subxacts ++ linked -> state_by_xid t !! x = Some s ->
  exists m, snd (fst (drain_tree t header twophase subxacts linked)) = Some m /\ covers m s.
Proof.
  intros Hx Hs. unfold drain_tree. set (l := tree_roots header twophase ++ subxacts ++ linked) in *.
  rewrite bool_decide_eq_false_2 by (intros E; by rewrite E in Hs). cbn [andb].
  pose proof (drained_fold t l t [] None) as HD.
  destruct (fold_left drain_one l (t, None, [])) as [[t' merged] drained].
  destruct HD as [[_ _ Hm _] Hmem]; [split; try done; constructor|].
  assert (Hin : s ∈ omap (fun x => state_by_xid t !! x) drained).
  { apply list_elem_of_omap. exists x. rewrite Hmem. auto. }
  destruct merged as [m|]; simpl.
  - exists m. split; [done|]. symmetry in Hm. apply merge_covers in Hm as [_ Hm]. by apply Hm.
  - symmetry in Hm. apply merge_none in Hm as [Hm _]. rewrite Hm in Hin. by apply elem_of_nil in Hin.
Qed.

Lemma drain_members t header twophase subxacts linked x s :
  x ∈ tree_roots header twophase ++ subxacts ++ linked -> state_by_xid t !! x = Some s ->
  x ∈ snd (drain_tree t header twophase subxacts linked).
Proof.
  intros Hx Hs. unfold drain_tree. set (l := tree_roots header twophase ++ subxacts ++ linked) in *.
  rewrite bool_decide_eq_false_2 by (intros E; by rewrite E in Hs). cbn [andb].
  pose proof (drained_fold t l t [] None) as HD.
  destruct (fold_left drain_one l (t, None, [])) as [[t' merged] drained].
  destruct HD as [_ Hmem]; [split; try done; constructor|]. apply Hmem. by right.
Qed.

(** At every position, a transaction tree is reported dirty exactly when
    some transaction with the same root still holds catalog dirt: the
    per-root member counts always agree with the states they summarise. *)
Theorem is_dirty_spec t xid :
  reachable t -> xid <> 0 ->
  is_dirty t xid = true <-> exists x, is_Some (state_by_xid t !! x) /\ root t x = root t xid.
Proof. intros HR. apply inv_dirty. by apply inv_reachable. Qed.

Lemma is_dirty_spec_witness :
  is_dirty (exec (exec empty (Touch 7 100 id)) (Link 7 5)) 5 = true.
Proof.
  apply (is_dirty_spec (exec (exec empty (Touch 7 100 id)) (Link 7 5)) 5).
  - apply reach_step; [apply reach_step; [apply reach_empty|done]|]. left. reflexivity.
  - lia.
  - exists 7. split; [vm_compute; eauto|reflexivity].
Defined.

(** A commit or abort drains its whole tree, whatever order the hash map
    yields the links in.  Every member loses its state and its link, every
    other transaction keeps both; nothing is merged only when no member was
    dirty, and otherwise the merged state covers each member's dirt, flagging
    a conflict when two members wrote different databases.  The drained root
    is no longer dirty. *)
Theorem drain_tree_spec t header twophase subxacts linked :
  reachable t -> header <> 0 ->
  (forall x, x ∈ linked <-> is_link_of t (tree_roots header twophase) x = true) ->
  let '(t', merged, drained) := drain_tree t header twophase subxacts linked in
  let members := tree_roots header twophase ++ subxacts ++ linked in
  (forall x, x ∈ members -> state_by_xid t' !! x = None /\ top_by_xid t' !! x = None) /\
  (forall x, x ∉ members -> state_by_xid t' !! x = state_by_xid t !! x /\
    top_by_xid t' !! x = top_by_xid t !! x) /\
  (merged = None <-> forall x, x ∈ members -> state_by_xid t !! x = None) /\
  (forall m x s, merged = Some m -> x ∈ members -> state_by_xid t !! x = Some s -> covers m s) /\
  (forall m x y a b c d, merged = Some m -> x ∈ members -> y ∈ members ->
    state_by_xid t !! x = Some a -> state_by_xid t !! y = Some b ->
    db a = Some c -> db b = Some d -> c <> d -> is_Some (db_other m)) /\
  is_dirty t' header = false.
Proof.
  intros HR Hh Hl. unfold drain_tree. set (members := tree_roots _ _ ++ _ ++ _).
  pose proof (inv_reachable _ HR) as HI.
  destruct (bool_decide (state_by_xid t = ∅) && bool_decide (top_by_xid t = ∅)) eqn:E0.
  - apply andb_true_iff in E0 as [E1%bool_decide_eq_true E2%bool_decide_eq_true].
    assert (N : forall x, state_by_xid t !! x = None) by (intros; by rewrite E1).
    split; [intros; by rewrite E1, E2|]. split; [done|]. split; [done|].
    split; [done|]. split; [done|]. apply not_true_is_false.
    rewrite inv_dirty by done. intros (x & Hx & _). rewrite N in Hx. by destruct Hx.
  - pose proof (drained_fold t members t [] None) as HD.
    pose proof (inv_drain_fold members t None [] HI) as HI'.
    destruct (fold_left drain_one members (t, None, [])) as [[t' merged] drained].
    destruct HD as [[Hs Ht Hm Hn] Hmem]; [split; try done; constructor|].
    assert (Hmem' : forall y, y ∈ drained <-> y ∈ members)
      by (intros y; rewrite Hmem, elem_of_nil; naive_solver). clear Hmem.
    assert (Hcov : forall m x s, merged = Some m -> x ∈ members ->
      state_by_xid t !! x = Some s -> covers m s).
    { intros m x s -> Hx Hsx. symmetry in Hm. apply merge_covers in Hm as [_ Hm].
      apply Hm. apply list_elem_of_omap. exists x. by rewrite Hmem'. }
    split; [|split; [|split; [|split; [|split]]]].
    + intros x Hx. rewrite Hs, Ht, bool_decide_eq_true_2 by (by apply Hmem'). done.
    + intros x Hx. rewrite Hs, Ht, bool_decide_eq_false_2 by (by rewrite Hmem'). done.
    + rewrite Hm, merge_none. split.
      * intros [Ho _] x Hx. destruct (state_by_xid t !! x) as [s|] eqn:Es; [|done].
        assert (s ∈ omap (fun x => state_by_xid t !! x) drained) as Hin.
        { apply list_elem_of_omap. exists x. by rewrite Hmem'. }
        rewrite Ho in Hin. set_solver.
      * intros Hnone. split; [|done]. apply elem_of_nil_inv.
        intros s (x & Hx & Hsx)%list_elem_of_omap. rewrite Hnone in Hsx; [done|].
        by apply Hmem'.
    + exact Hcov.
    + intros m x y a b c d Em Hx Hy Ha Hb. apply covers_conflict; eauto.
    + apply (drained_root_clean t t' drained merged header (tree_roots header twophase));
        [done|by split|done|left|].
      intros x Hx. rewrite Hmem'. destruct Hx as [->|Hx]; [set_solver|].
      apply Hl in Hx. set_solver.
Qed.

Lemma drain_tree_spec_witness :
  let t := exec (exec empty (Touch 7 100 id)) (Link 7 5) in
  is_dirty (fst (fst (drain_tree t 5 None [] [7]))) 5 = false.
Proof.
  pose proof (drain_tree_spec (exec (exec empty (Touch 7 100 id)) (Link 7 5)) 5 None [] [7]) as H.
  cbn zeta. destruct (drain_tree _ 5 None [] [7]) as [[t' m] d]. apply H.
  - apply reach_step; [apply reach_step; [apply reach_empty|done]|]. left. reflexivity.
  - lia.
  - intros x. split.
    + intros ->%list_elem_of_singleton. reflexivity.
    + unfold is_link_of.
      assert (top_by_xid (exec (exec empty (Touch 7 100 id)) (Link 7 5)) = {[7 := 5]}) as ->
        by (vm_compute; reflexivity).
      destruct (decide (x = 7)) as [->|Hne]; [left|].
      rewrite lookup_singleton_ne by done. done.
Defined.

(** A link that names another top than an earlier one moves no credit: the
    old top stays dirty for good, with no dirty member left. *)
Example relink_leaves_credit :
  let t := fold_left exec
    [Touch 7 100 id; Link 7 5; Link 7 6; Drain 6 None [] [7]; Drain 5 None [] []] empty in
  state_by_xid t = ∅ /\ is_dirty t 5 = true.
Proof. split; vm_compute; reflexivity. Qed.

End DirtyTree.
