(* ===== verification/Rewrite.v ===== *)
(** * NOOP replacement of dropped records ([src/filter/rewrite.rs])

    A dropped record becomes an [XLOG_NOOP] of the same length: [xl_tot_len]
    and [xl_prev] stay, everything else is rewritten and the CRC recomputed.
    CRC32C comes from the [crc32c] crate, so its append function is an
    argument; the crate defines [crc32c(b)] as [crc32c_append(0, b)]. *)
From S2P Require Import Prelude.

Module Rewrite.

Definition XLOG_NOOP : Z := 0x20.
Definition CRC_OFFSET : Z := 20.
Definition X_LOG_RECORD_HEADER_SIZE : Z := 24.
Definition XLR_BLOCK_ID_DATA_SHORT : Z := 255.
Definition XLR_BLOCK_ID_DATA_LONG : Z := 254.
Definition RMID_XLOG : Z := 0.
Definition MIN_SHORT_BODY : Z := 2.
Definition MIN_LONG_BODY : Z := 5.
Definition MAX_SHORT_BODY : Z := MIN_SHORT_BODY + 255.

(** [NOOP_BODY_CRC]: 8192 slots, zero until filled, bit 32 marking filled. *)
Definition CACHE_SLOTS : Z := 8192.
Notation cache := (gmap Z Z) (only parsing).
Definition load (c : cache) (slot : Z) : Z := default 0 (c !! slot).

Inductive RewriteError := TooSmall (xl_tot_len : Z).

Section Crc.
Variable crc32c_append : Z -> list Z -> Z.

Definition crc32c (data : list Z) : Z := crc32c_append 0 data.

(** [noop_body_crc], returning the cache it may have filled. *)
Definition noop_body_crc (c : cache) (body : list Z) : cache * Z :=
  if CACHE_SLOTS <=? zlen body then (c, crc32c body)
  else
    let cached := load c (zlen body) in
    if negb (Z.shiftr cached 32 =? 0) then (c, wrap 32 cached)
    else
      let crc := crc32c body in
      (<[zlen body := Z.lor (Z.shiftl 1 32) crc]> c, crc).

(** The body: zeros behind a main-data marker and its length. *)
Definition noop_body (body_len : Z) : list Z :=
  let body := zrep body_len 0 in
  if body_len <=? MAX_SHORT_BODY then
    put (put body 0 [XLR_BLOCK_ID_DATA_SHORT]) 1 [wrap 8 (body_len - MIN_SHORT_BODY)]
  else
    put (put body 0 [XLR_BLOCK_ID_DATA_LONG]) 1 (le_enc 4 (wrap 32 (body_len - MIN_LONG_BODY))).

(** [noop_replace]; [None] is the slice panic on fewer than four bytes. *)
Definition noop_replace (c : cache) (bytes : list Z)
    : option (result RewriteError (cache * list Z)) :=
  if zlen bytes <? 4 then None
  else
    let xl_tot_len := u32_at bytes 0 in
    let total := xl_tot_len in
    if negb (total =? zlen bytes) then Some (Err (TooSmall xl_tot_len))
    else
      let body_len := sat_sub total X_LOG_RECORD_HEADER_SIZE in
      if body_len <? MIN_SHORT_BODY then Some (Err (TooSmall xl_tot_len))
      else
        let b := put bytes 4 (zrep 4 0) in
        let b := put b 16 [XLOG_NOOP] in
        let b := put b 17 [RMID_XLOG] in
        let b := put b 18 [0] in
        let b := put b 19 [0] in
        let b := put b 20 (zrep 4 0) in
        let b := put b X_LOG_RECORD_HEADER_SIZE (noop_body body_len) in
        let '(c, body_crc) := noop_body_crc c (zdrop X_LOG_RECORD_HEADER_SIZE b) in
        let crc := crc32c_append body_crc (ztake CRC_OFFSET b) in
        Some (Ok (c, put b CRC_OFFSET (le_enc 4 crc))).

(** [compute_crc]: body, then the header up to [xl_crc]. *)
Definition compute_crc (bytes : list Z) : Z :=
  let crc := 0 in
  let crc := crc32c_append crc (zdrop X_LOG_RECORD_HEADER_SIZE bytes) in
  crc32c_append crc (ztake CRC_OFFSET bytes).

(** Every filled slot holds the CRC of the NOOP body of its length. *)
Definition cache_ok (c : cache) : Prop :=
  forall n, Z.shiftr (load c n) 32 <> 0 -> wrap 32 (load c n) = crc32c (noop_body n).

(** The replaced record, laid out field by field. *)
Definition noop_record (bytes : list Z) (crc : Z) : list Z :=
  sub bytes 0 4 ++ zrep 4 0 ++ sub bytes 8 16 ++ [XLOG_NOOP; RMID_XLOG; 0; 0] ++
  le_enc 4 crc ++ noop_body (zlen bytes - X_LOG_RECORD_HEADER_SIZE).

Hypothesis crc_fits : forall c data, fits 32 (crc32c_append c data).

Lemma zlen_noop_body n : 2 <= n -> zlen (noop_body n) = n.
Proof.
  intros H. unfold noop_body, MAX_SHORT_BODY, MIN_SHORT_BODY.
  destruct (Z.leb_spec n (2 + 255)); rewrite zlen_put; rewrite ?zlen_put; zlen; rewrite zlen_put; zlen.
Qed.

(** The fields of a record with at least a header. *)
Lemma record_fields (bytes : list Z) :
  24 <= zlen bytes ->
  bytes = sub bytes 0 4 ++ sub bytes 4 8 ++ sub bytes 8 16 ++ sub bytes 16 17 ++
    sub bytes 17 18 ++ sub bytes 18 19 ++ sub bytes 19 20 ++ sub bytes 20 24 ++ zdrop 24 bytes.
Proof.
  intros H. rewrite <- !zdrop_sub by lia. by rewrite zdrop_0.
Qed.

(** What the writes of [noop_replace] leave before the CRC goes in. *)
Lemma noop_writes bytes :
  26 <= zlen bytes ->
  put (put (put (put (put (put (put bytes 4 (zrep 4 0)) 16 [XLOG_NOOP]) 17 [RMID_XLOG]) 18 [0])
    19 [0]) 20 (zrep 4 0)) X_LOG_RECORD_HEADER_SIZE (noop_body (zlen bytes - 24)) =
  sub bytes 0 4 ++ zrep 4 0 ++ sub bytes 8 16 ++ [XLOG_NOOP] ++ [RMID_XLOG] ++ [0] ++ [0] ++
  zrep 4 0 ++ noop_body (zlen bytes - 24).
Proof.
  intros H. pose proof (record_fields bytes ltac:(lia)) as E.
  pose proof (zlen_noop_body (zlen bytes - 24) ltac:(lia)) as Hb.
  set (body := noop_body _) in *.
  assert (Hl : zlen (sub bytes 0 4) = 4 /\ zlen (sub bytes 4 8) = 4 /\ zlen (sub bytes 8 16) = 8 /\
    zlen (sub bytes 16 17) = 1 /\ zlen (sub bytes 17 18) = 1 /\ zlen (sub bytes 18 19) = 1 /\
    zlen (sub bytes 19 20) = 1 /\ zlen (sub bytes 20 24) = 4 /\ zlen (zdrop 24 bytes) = zlen bytes - 24).
  { rewrite !zlen_sub by lia. zlen. }
  revert Hl E Hb. generalize (sub bytes 0 4), (sub bytes 4 8), (sub bytes 8 16),
    (sub bytes 16 17), (sub bytes 17 18), (sub bytes 18 19), (sub bytes 19 20),
    (sub bytes 20 24), (zdrop 24 bytes).
  intros a x p i r p1 p2 cr b (Ha & Hx & Hp & Hi & Hr & Hp1 & Hp2 & Hcr & Hbl) E Hb.
  rewrite E. unfold X_LOG_RECORD_HEADER_SIZE.
  puts. done.
Qed.

(** The filled-slot encoding: bit 32 set, the CRC below it. *)
Lemma slot_value crc :
  fits 32 crc ->
  Z.shiftr (Z.lor (Z.shiftl 1 32) crc) 32 = 1 /\ wrap 32 (Z.lor (Z.shiftl 1 32) crc) = crc.
Proof.
  intros [H0 H1]. split.
  - rewrite Z.shiftr_lor, (Z.shiftr_div_pow2 crc) by lia.
    rewrite (Z.div_small crc) by lia. reflexivity.
  - unfold wrap. rewrite <- Z.land_ones by lia. rewrite Z.land_lor_distr_l.
    rewrite (Z.land_ones crc), (Z.mod_small crc) by lia. reflexivity.
Qed.

Lemma noop_body_crc_ok c n :
  2 <= n -> cache_ok c ->
  exists c', noop_body_crc c (noop_body n) = (c', crc32c (noop_body n)) /\ cache_ok c'.
Proof.
  intros Hn Hc. unfold noop_body_crc. rewrite zlen_noop_body by done.
  destruct (CACHE_SLOTS <=? n); [eauto|].
  destruct (Z.eqb_spec (Z.shiftr (load c n) 32) 0) as [E|E]; simpl.
  - eexists. split; [done|]. intros k. unfold load. rewrite lookup_insert.
    case_decide as Hk; [|apply Hc]. subst k. intros _. simpl.
    apply slot_value, crc_fits.
  - exists c. by rewrite (Hc n E).
Qed.

Lemma noop_record_parts bytes crc :
  26 <= zlen bytes ->
  zdrop 24 (noop_record bytes crc) = noop_body (zlen bytes - 24) /\
  ztake 20 (noop_record bytes crc) =
    sub bytes 0 4 ++ zrep 4 0 ++ sub bytes 8 16 ++ [XLOG_NOOP; RMID_XLOG; 0; 0] /\
  zlen (noop_record bytes crc) = zlen bytes.
Proof.
  intros H. unfold noop_record, X_LOG_RECORD_HEADER_SIZE.
  assert (H4 : zlen (sub bytes 0 4) = 4) by (rewrite zlen_sub; lia).
  assert (H8 : zlen (sub bytes 8 16) = 8) by (rewrite zlen_sub; lia).
  pose proof (zlen_noop_body (zlen bytes - 24) ltac:(lia)) as Hb.
  split; [|split].
  - rewrite !app_assoc. apply zdrop_app_exact. zlen.
  - rewrite !app_assoc, <- (app_assoc _ (le_enc 4 crc)), ztake_app_exact by zlen. done.
  - zlen.
Qed.

Lemma noop_replace_ok c bytes :
  26 <= zlen bytes -> u32_at bytes 0 = zlen bytes -> cache_ok c ->
  exists c', noop_replace c bytes = Some (Ok (c', noop_record bytes (compute_crc (noop_record bytes 0)))) /\
    cache_ok c'.
Proof.
  intros Hl Ht Hc. unfold noop_replace. rewrite Ht.
  rewrite (proj2 (Z.ltb_ge _ _)), Z.eqb_refl by lia. cbn [negb].
  unfold sat_sub. rewrite Z.max_r by (unfold X_LOG_RECORD_HEADER_SIZE; lia).
  rewrite (proj2 (Z.ltb_ge _ _)) by (unfold X_LOG_RECORD_HEADER_SIZE, MIN_SHORT_BODY; lia).
  cbv zeta. rewrite noop_writes by done.
  destruct (noop_record_parts bytes 0 Hl) as (Hd & Htk & Hz).
  pose proof (zlen_noop_body (zlen bytes - 24) ltac:(lia)) as Hb.
  assert (H4 : zlen (sub bytes 0 4) = 4) by (rewrite zlen_sub; lia).
  assert (H8 : zlen (sub bytes 8 16) = 8) by (rewrite zlen_sub; lia).
  rewrite !app_assoc, zdrop_app_exact, <- !app_assoc by (unfold X_LOG_RECORD_HEADER_SIZE; zlen).
  destruct (noop_body_crc_ok c (zlen bytes - 24) ltac:(lia) Hc) as (c' & -> & Hc').
  exists c'. split; [|done]. do 3 f_equal.
  unfold compute_crc, X_LOG_RECORD_HEADER_SIZE, CRC_OFFSET. rewrite Hd, Htk.
  fold (crc32c (noop_body (zlen bytes - 24))).
  rewrite !app_assoc, <- (app_assoc _ (zrep 4 0) (noop_body _)), ztake_app_exact by zlen.
  rewrite <- !app_assoc. unfold noop_record. puts. done.
Qed.

Lemma compute_crc_noop bytes crc :
  26 <= zlen bytes -> compute_crc (noop_record bytes crc) = compute_crc (noop_record bytes 0).
Proof.
  intros H. unfold compute_crc, X_LOG_RECORD_HEADER_SIZE, CRC_OFFSET.
  destruct (noop_record_parts bytes crc H) as (-> & -> & _).
  destruct (noop_record_parts bytes 0 H) as (-> & -> & _). done.
Qed.

Lemma noop_record_fields bytes crc :
  26 <= zlen bytes -> fits 32 crc ->
  let b := noop_record bytes crc in
  sub b 0 4 = sub bytes 0 4 /\ sub b 4 8 = zrep 4 0 /\ sub b 8 16 = sub bytes 8 16 /\
  byte_at b 16 = XLOG_NOOP /\ byte_at b 17 = RMID_XLOG /\ u32_at b 20 = crc.
Proof.
  intros H Hc b. unfold b, noop_record, u32_at.
  assert (H4 : zlen (sub bytes 0 4) = 4) by (rewrite zlen_sub; lia).
  assert (H8 : zlen (sub bytes 8 16) = 8) by (rewrite zlen_sub; lia).
  gets. cbn [app]. gets. rewrite le_dec_enc_small; [done|]. unfold fits in Hc. lia.
Qed.

(** The body announces exactly the bytes that follow its marker. *)
Lemma noop_body_marker n :
  2 <= n < 2 ^ 32 ->
  (n <= 257 -> byte_at (noop_body n) 0 = 255 /\ byte_at (noop_body n) 1 = n - 2) /\
  (257 < n -> byte_at (noop_body n) 0 = 254 /\ u32_at (noop_body n) 1 = n - 5).
Proof.
  intros H. unfold noop_body, MAX_SHORT_BODY, MIN_SHORT_BODY, MIN_LONG_BODY, u32_at.
  assert (Hz : forall k, 0 <= k <= n -> zrep n 0 = zrep k 0 ++ zrep (n - k) 0).
  { intros k Hk. unfold zrep. rewrite <- replicate_add. f_equal. lia. }
  split; intros Hn.
  - rewrite (proj2 (Z.leb_le _ _)) by lia. rewrite (Hz 2) by lia.
    change (zrep 2 0) with ([0] ++ [0]). rewrite <- app_assoc. puts.
    unfold wrap. rewrite Z.mod_small by lia. gets. done.
  - rewrite (proj2 (Z.leb_gt _ _)) by lia. rewrite (Hz 5) by lia.
    change (zrep 5 0) with ([0] ++ [0; 0; 0; 0]). rewrite <- app_assoc. puts.
    unfold wrap. rewrite Z.mod_small by lia. gets. rewrite le_dec_enc_small by lia. done.
Qed.

(** The marker of a NOOP record inside its bytes. *)
Lemma noop_record_marker bytes crc :
  26 <= zlen bytes < 2 ^ 32 ->
  let b := noop_record bytes crc in
  (zlen b <= 281 -> byte_at b 24 = 255 /\ byte_at b 25 = zlen b - 26) /\
  (281 < zlen b -> byte_at b 24 = 254 /\ u32_at b 25 = zlen b - 29).
Proof.
  intros H b. destruct (noop_record_parts bytes crc ltac:(lia)) as (_ & _ & Hz). fold b in Hz.
  rewrite Hz. unfold b, noop_record, u32_at.
  assert (H4 : zlen (sub bytes 0 4) = 4) by (rewrite zlen_sub; lia).
  assert (H8 : zlen (sub bytes 8 16) = 8) by (rewrite zlen_sub; lia).
  destruct (noop_body_marker (zlen bytes - 24) ltac:(lia)) as [Hs Hlg].
  unfold X_LOG_RECORD_HEADER_SIZE. unfold u32_at in Hlg.
  repeat first [rewrite byte_at_skip by zlen | rewrite sub_skip by zlen].
  autorewrite with zlen. rewrite H4, H8. change (zlen []) with 0.
  split; intros Hn.
  - destruct Hs as [Hs1 Hs2]; [lia|]. split; [exact Hs1|]. rewrite <- (Z.sub_add 24 (zlen bytes - 26)).
    etransitivity; [exact Hs2|]. lia.
  - destruct Hlg as [Hl1 Hl2]; [lia|]. split; [exact Hl1|]. etransitivity; [exact Hl2|]. lia.
Qed.

(** Replacing a whole record of at least 26 bytes succeeds.  The result
    has the same length, [xl_tot_len] and [xl_prev], no transaction id, the NOOP
    info and resource manager, announces exactly its remaining bytes as main data, and
    its stored CRC is the CRC of the record, also when the body CRC came from
    the cache; the cache stays right. *)
Theorem noop_replace_spec c bytes :
  26 <= zlen bytes -> u32_at bytes 0 = zlen bytes -> zlen bytes < 2 ^ 32 -> cache_ok c ->
  exists c' b, noop_replace c bytes = Some (Ok (c', b)) /\ cache_ok c' /\
    zlen b = zlen bytes /\ sub b 0 4 = sub bytes 0 4 /\ sub b 4 8 = zrep 4 0 /\ sub b 8 16 = sub bytes 8 16 /\
    byte_at b 16 = XLOG_NOOP /\ byte_at b 17 = RMID_XLOG /\ u32_at b 20 = compute_crc b /\
    (zlen b <= 281 -> byte_at b 24 = 255 /\ byte_at b 25 = zlen b - 26) /\
    (281 < zlen b -> byte_at b 24 = 254 /\ u32_at b 25 = zlen b - 29).
Proof.
  intros Hl Ht Hmax Hc. destruct (noop_replace_ok c bytes Hl Ht Hc) as (c' & E & Hc').
  set (crc := compute_crc (noop_record bytes 0)) in *.
  assert (Hf : fits 32 crc) by (unfold crc, compute_crc; apply crc_fits).
  destruct (noop_record_parts bytes crc Hl) as (_ & _ & Hz).
  destruct (noop_record_fields bytes crc Hl Hf) as (F1 & F0 & F2 & F3 & F4 & F5).
  exists c', (noop_record bytes crc). split; [done|]. split; [done|].
  split; [done|]. split; [done|]. split; [done|]. split; [done|]. split; [done|]. split; [done|].
  split; [by rewrite F5, compute_crc_noop|]. by apply noop_record_marker.
Qed.

(** The only failures are records whose length field disagrees with their
    bytes or that are too short for a NOOP body; they are reported with that
    length and nothing else is. *)
Theorem noop_replace_error c bytes :
  4 <= zlen bytes -> cache_ok c ->
  (noop_replace c bytes = Some (Err (TooSmall (u32_at bytes 0))) <->
   u32_at bytes 0 <> zlen bytes \/ zlen bytes < 26).
Proof.
  intros H4 Hc. split.
  - intros E. destruct (decide (u32_at bytes 0 = zlen bytes)) as [Ht|]; [|by left].
    right. destruct (Z.lt_ge_cases (zlen bytes) 26) as [|Hl]; [done|].
    destruct (noop_replace_ok c bytes Hl Ht Hc) as (c' & E' & _). congruence.
  - intros H. unfold noop_replace. rewrite (proj2 (Z.ltb_ge _ _)) by lia.
    destruct (Z.eqb_spec (u32_at bytes 0) (zlen bytes)) as [E|E]; simpl; [|done].
    unfold sat_sub, X_LOG_RECORD_HEADER_SIZE, MIN_SHORT_BODY.
    rewrite (proj2 (Z.ltb_lt _ _)) by lia. done.
Qed.

(** Replacing a replaced record changes nothing, so a record rewritten
    twice (after a restart, say) ships the same bytes. *)
Theorem noop_replace_idempotent c c' c'' bytes b b' :
  26 <= zlen bytes -> cache_ok c ->
  noop_replace c bytes = Some (Ok (c', b)) -> noop_replace c' b = Some (Ok (c'', b')) -> b' = b.
Proof.
  intros Hl Hc E1 E2.
  assert (Ht : u32_at bytes 0 = zlen bytes).
  { unfold noop_replace in E1. destruct (zlen bytes <? 4); [done|].
    destruct (Z.eqb_spec (u32_at bytes 0) (zlen bytes)); done. }
  destruct (noop_replace_ok c bytes Hl Ht Hc) as (c1 & F1 & Hc1).
  rewrite E1 in F1. injection F1 as <- ->. set (crc := compute_crc (noop_record bytes 0)) in *.
  assert (Hf : fits 32 crc) by (unfold crc, compute_crc; apply crc_fits).
  destruct (noop_record_parts bytes crc Hl) as (_ & _ & Hz).
  destruct (noop_record_fields bytes crc Hl Hf) as (F1 & _ & F2 & _).
  assert (N : forall k, noop_record (noop_record bytes crc) k = noop_record bytes k).
  { intros k. unfold noop_record at 1. by rewrite Hz, F1, F2. }
  assert (Ht' : u32_at (noop_record bytes crc) 0 = zlen (noop_record bytes crc)).
  { rewrite Hz, <- Ht. unfold u32_at. change (0 + 4) with 4. by rewrite F1. }
  destruct (noop_replace_ok c' (noop_record bytes crc) ltac:(lia) Ht' Hc1) as (c2 & F3 & _).
  rewrite E2 in F3. injection F3 as _ ->. by rewrite !N.
Qed.

End Crc.

(** A stand-in checksum and a 30-byte record for the witnesses. *)
Definition toy_crc (c : Z) (data : list Z) : Z :=
  wrap 32 (fold_left (fun a b => a * 31 + b) data c).

Lemma toy_crc_fits c data : fits 32 (toy_crc c data).
Proof. apply wrap_fits. lia. Qed.

Definition demo_record : list Z := [30; 0; 0; 0] ++ zrep 26 7.

Lemma empty_cache_ok append : cache_ok append ∅.
Proof. intros n H. unfold load in H. rewrite lookup_empty in H. by destruct H. Qed.

Lemma noop_replace_spec_witness :
  exists c' b, noop_replace toy_crc ∅ demo_record = Some (Ok (c', b)) /\ byte_at b 16 = XLOG_NOOP.
Proof.
  destruct (noop_replace_spec toy_crc toy_crc_fits ∅ demo_record)
    as (c' & b & E & _ & _ & _ & _ & _ & F & _).
  - vm_compute; congruence.
  - reflexivity.
  - reflexivity.
  - apply empty_cache_ok.
  - exists c', b. split; [exact E|exact F].
Defined.

Lemma noop_replace_error_witness :
  noop_replace toy_crc ∅ [25; 0; 0; 0; 1] = Some (Err (TooSmall 25)).
Proof.
  apply (noop_replace_error toy_crc toy_crc_fits ∅ [25; 0; 0; 0; 1]).
  - vm_compute; congruence.
  - apply empty_cache_ok.
  - left. vm_compute. congruence.
Defined.

Lemma noop_replace_idempotent_witness :
  let r := noop_replace toy_crc ∅ demo_record in
  exists c b c' b', r = Some (Ok (c, b)) /\ noop_replace toy_crc c b = Some (Ok (c', b')) /\ b' = b.
Proof.
  eexists _, _, _, _. split; [vm_compute; reflexivity|]. split; [vm_compute; reflexivity|].
  refine (noop_replace_idempotent toy_crc toy_crc_fits ∅ _ _ demo_record _ _ _ _ _ _).
  - vm_compute; congruence.
  - apply empty_cache_ok.
  - vm_compute; reflexivity.
  - vm_compute; reflexivity.
Defined.

End Rewrite.
