(* ===== verification/WalPage.v ===== *)
(** * WAL page headers ([src/source/wal_page.rs]) *)
From S2P Require Import Prelude.

Module WalPage.

Definition PAGE_SIZE : Z := 8192.
Definition X_LOG_RECORD_ALIGNMENT : Z := 8.
Definition SHORT_HEADER_SIZE : Z := 20.
Definition LONG_HEADER_SIZE : Z := SHORT_HEADER_SIZE + 16.
Definition XLP_LONG_HEADER : Z := 2.
Definition XLP_ALL_FLAGS : Z := 0x0007.
Definition XLP_PAGE_MAGIC_PG15 : Z := 0xD110.

Inductive WalkError :=
| BadPageMagic (off magic : Z)
| UnsupportedSourceVersion (off magic : Z)
| BadPageInfo (off info : Z)
| ZeroRecord (offset : Z)
| ShortRecord (offset min : Z)
| Truncated (off : Z).

Inductive PageHeaderParse :=
| ShortHeaderIncomplete
| LongHeaderIncomplete
| ZeroPage
| Valid (magic data_start remaining_data_len : Z).

(** [parse_page_header]; [!XLP_ALL_FLAGS] is the 16-bit complement. *)
Definition parse_page_header (bytes : list Z) (page_start : Z)
    : result WalkError PageHeaderParse :=
  if zlen bytes <? page_start + SHORT_HEADER_SIZE then Ok ShortHeaderIncomplete
  else
    let buf := zdrop page_start bytes in
    let magic := u16_at buf 0 in
    let info := u16_at buf 2 in
    if (magic =? 0) && (info =? 0) then Ok ZeroPage
    else if negb (Z.land magic 0xFF00 =? 0xD100) then Err (BadPageMagic page_start magic)
    else if magic <? XLP_PAGE_MAGIC_PG15 then Err (UnsupportedSourceVersion page_start magic)
    else if negb (Z.land info (0xFFFF - XLP_ALL_FLAGS) =? 0) then
      Err (BadPageInfo page_start info)
    else
      let is_long := negb (Z.land info XLP_LONG_HEADER =? 0) in
      let header_size := if is_long then LONG_HEADER_SIZE else SHORT_HEADER_SIZE in
      if zlen bytes <? page_start + header_size then Ok LongHeaderIncomplete
      else
        let remaining_data_len := u32_at buf 16 in
        let data_start := page_start + align_up header_size X_LOG_RECORD_ALIGNMENT in
        Ok (Valid magic data_start remaining_data_len).

(** Data starts 24 or 40 bytes into the page, on an aligned offset, and the
    magic is one of a supported version, hence nonzero. *)
Lemma parse_valid bytes ps magic ds rem :
  parse_page_header bytes ps = Ok (Valid magic ds rem) ->
  (ds = ps + 24 \/ ds = ps + 40) /\ XLP_PAGE_MAGIC_PG15 <= magic /\ ps + 20 <= zlen bytes.
Proof.
  unfold parse_page_header. destruct (Z.ltb_spec (zlen bytes) (ps + SHORT_HEADER_SIZE)); [done|].
  destruct (_ && _); [done|]. destruct (negb (_ =? 0xD100)); [done|].
  destruct (Z.ltb_spec (u16_at (zdrop ps bytes) 0) XLP_PAGE_MAGIC_PG15); [done|].
  destruct (negb (Z.land _ (0xFFFF - _) =? 0)); [done|].
  destruct (negb (Z.land _ XLP_LONG_HEADER =? 0)); destruct (_ <? _); intros [= <- <- <-];
    unfold SHORT_HEADER_SIZE in *; (split; [|lia]); [right|left]; reflexivity.
Qed.

(** A header once read reads the same when more bytes arrive; only a header
    not yet there may change its answer. *)
Lemma parse_app bytes ext ps r :
  0 <= ps -> parse_page_header bytes ps = r ->
  r <> Ok ShortHeaderIncomplete -> r <> Ok LongHeaderIncomplete ->
  parse_page_header (bytes ++ ext) ps = r.
Proof.
  intros H0 E N1 N2. subst r. unfold parse_page_header in *.
  pose proof (zlen_nonneg ext). rewrite zlen_app.
  destruct (Z.ltb_spec (zlen bytes) (ps + SHORT_HEADER_SIZE)); [done|].
  unfold SHORT_HEADER_SIZE in *.
  rewrite (proj2 (Z.ltb_ge _ _)) by lia. rewrite zdrop_app_l by lia.
  assert (L : 20 <= zlen (zdrop ps bytes)) by zlen.
  unfold u16_at, u32_at in *. rewrite !sub_app_l by lia.
  destruct (_ && _); [done|]. destruct (negb (_ =? 0xD100)); [done|].
  destruct (_ <? XLP_PAGE_MAGIC_PG15); [done|].
  destruct (negb (Z.land _ (0xFFFF - _) =? 0)); [done|].
  set (hs := if negb (Z.land _ XLP_LONG_HEADER =? 0) then _ else _) in *.
  destruct (Z.ltb_spec (zlen bytes) (ps + hs)); [done|].
  rewrite (proj2 (Z.ltb_ge _ _)) by lia. done.
Qed.

End WalPage.
