(* ===== verification/Walker.v ===== *)
(** * Record-cadence segment walker ([src/source/streaming_walker.rs])

    The page state machine that stitches records across pages as bytes
    arrive, tracks where each record's bytes sit, and rewrites dropped
    records in place.  Offsets are [usize], whose subtraction wraps in a
    release build. *)
From S2P Require Import Prelude WalPage.
Import WalPage.

Module Walker.

Definition X_LOG_RECORD_HEADER_SIZE : Z := 24.

Notation ByteRanges := (list (Z * Z)) (only parsing).

Record CompletedRecord := MkCompleted
  { stitched_bytes : option (list Z);
    byte_ranges : list (Z * Z);
    start_offset : Z;
    rec_magic : Z }.

(** [&buf[off..off + len]] for a range the walker recorded. *)
Definition range_bytes (buf : list Z) (r : Z * Z) : list Z := sub buf (fst r) (fst r + snd r).

Definition logical_bytes (r : CompletedRecord) (buf : list Z) : list Z :=
  match stitched_bytes r with
  | Some v => v
  | None => match byte_ranges r with rg :: _ => range_bytes buf rg | [] => [] end
  end.

Record Pending := MkPending
  { p_start_offset : Z;
    p_total_len : option Z;
    p_byte_ranges : list (Z * Z);
    p_accumulated_len : Z;
    p_page_magic : Z }.

(** The header loop of [try_resolve_total_len]. *)
Fixpoint read_hdr (buf : list Z) (ranges : list (Z * Z)) (cursor : Z) (hdr : list Z) : list Z :=
  match ranges with
  | [] => hdr
  | (off, len) :: rest =>
      if 4 <=? cursor then hdr
      else
        let take := Z.min (4 - cursor) len in
        read_hdr buf rest (cursor + take) (put hdr cursor (sub buf off (off + take)))
  end.

Definition try_resolve_total_len (p : Pending) (buf : list Z) : Pending :=
  if is_some (p_total_len p) || (p_accumulated_len p <? X_LOG_RECORD_HEADER_SIZE) then p
  else
    MkPending (p_start_offset p)
      (Some (le_dec (read_hdr buf (p_byte_ranges p) 0 [0; 0; 0; 0])))
      (p_byte_ranges p) (p_accumulated_len p) (p_page_magic p).

Definition fully_loaded (p : Pending) : bool :=
  match p_total_len p with Some t => p_accumulated_len p =? t | None => false end.

Definition materialise (p : Pending) (buf : list Z) : list Z :=
  concat (map (range_bytes buf) (p_byte_ranges p)).

Record StreamingWalker := MkWalker
  { seg_size : Z;
    buf : list Z;
    cursor : Z;
    page_start : Z;
    page_magic : Z;
    page_data_start : Z;
    page_cursor : Z;
    pending : option Pending;
    done_in_segment : bool }.

Definition new (seg_size : Z) : StreamingWalker :=
  MkWalker seg_size [] 0 0 0 0 0 None false.

Definition extend (w : StreamingWalker) (bytes : list Z) : StreamingWalker :=
  MkWalker (seg_size w) (buf w ++ bytes) (cursor w) (page_start w) (page_magic w)
    (page_data_start w) (page_cursor w) (pending w) (done_in_segment w).

Definition set_buf (w : StreamingWalker) (b : list Z) : StreamingWalker :=
  MkWalker (seg_size w) b (cursor w) (page_start w) (page_magic w)
    (page_data_start w) (page_cursor w) (pending w) (done_in_segment w).

Definition set_page_cursor (w : StreamingWalker) (c : Z) : StreamingWalker :=
  MkWalker (seg_size w) (buf w) (cursor w) (page_start w) (page_magic w)
    (page_data_start w) c (pending w) (done_in_segment w).

Definition set_pending (w : StreamingWalker) (p : option Pending) : StreamingWalker :=
  MkWalker (seg_size w) (buf w) (cursor w) (page_start w) (page_magic w)
    (page_data_start w) (page_cursor w) p (done_in_segment w).

Definition set_done (w : StreamingWalker) : StreamingWalker :=
  MkWalker (seg_size w) (buf w) (cursor w) (page_start w) (page_magic w)
    (page_data_start w) (page_cursor w) (pending w) true.

(** [first_segment_ready]: segment whole, and no pending record starts in it. *)
Definition first_segment_ready (w : StreamingWalker) : bool :=
  let spans_out :=
    match pending w with Some p => p_start_offset p <? seg_size w | None => false end in
  (seg_size w <=? zlen (buf w)) && negb spans_out.

Definition truncate_first_segment (w : StreamingWalker) : StreamingWalker :=
  let n := seg_size w in
  let p' :=
    match pending w with
    | Some p =>
        Some (MkPending (usub 64 (p_start_offset p) n) (p_total_len p)
                (map (fun r => (usub 64 (fst r) n, snd r)) (p_byte_ranges p))
                (p_accumulated_len p) (p_page_magic p))
    | None => None
    end in
  if n <=? page_start w then
    MkWalker n (zdrop n (buf w)) (sat_sub (cursor w) n) (page_start w - n) (page_magic w)
      (sat_sub (page_data_start w) n) (sat_sub (page_cursor w) n) p' false
  else
    MkWalker n (zdrop n (buf w)) (sat_sub (cursor w) n) 0 0 0 0 p' false.

Definition truncate_to (w : StreamingWalker) (len : Z) : StreamingWalker :=
  if len <? page_start w then
    MkWalker (seg_size w) (ztake len (buf w)) (Z.min (cursor w) len) 0 0 0 0 None false
  else
    MkWalker (seg_size w) (ztake len (buf w)) (Z.min (cursor w) len) (page_start w)
      (page_magic w) (page_data_start w) (Z.min (page_cursor w) len) None false.

(** The scatter loop of [rewrite_record]. *)
Fixpoint scatter (b : list Z) (ranges : list (Z * Z)) (new_logical : list Z) (cur : Z)
    : list Z :=
  match ranges with
  | [] => b
  | (off, len) :: rest =>
      scatter (put b off (sub new_logical cur (cur + len))) rest new_logical (cur + len)
  end.

Definition rewrite_record (w : StreamingWalker) (ranges : list (Z * Z)) (new_logical : list Z)
    : StreamingWalker :=
  set_buf w (scatter (buf w) ranges new_logical 0).

(** [rewrite_record_in_place]: the closure gets the record's own slice. *)
Definition rewrite_record_in_place {E} (w : StreamingWalker) (off len : Z)
    (rewrite : list Z -> result E (list Z)) : result E StreamingWalker :=
  let? b := rewrite (sub (buf w) off (off + len)) in
  Ok (set_buf w (put (buf w) off b)).

(** [advance_to_next_page]. *)
Definition advance_to_next_page (w : StreamingWalker) : StreamingWalker :=
  let ps := page_start w + PAGE_SIZE in
  MkWalker (seg_size w) (buf w) (cursor w) ps 0 0 ps (pending w) (done_in_segment w).

(** [try_read_page_header]. *)
Definition try_read_page_header (w : StreamingWalker) : result WalkError (StreamingWalker * bool) :=
  let? parsed := parse_page_header (buf w) (page_start w) in
  match parsed with
  | ShortHeaderIncomplete | LongHeaderIncomplete => Ok (w, false)
  | ZeroPage => Ok (set_done w, true)
  | Valid magic data_start remaining_data_len =>
      let page_end := page_start w + PAGE_SIZE in
      let pc :=
        if (0 <? remaining_data_len) && negb (is_some (pending w)) then
          if page_end - data_start <=? remaining_data_len then page_end
          else align_up (data_start + Z.min remaining_data_len (page_end - data_start))
                 X_LOG_RECORD_ALIGNMENT
        else data_start in
      Ok (MkWalker (seg_size w) (buf w) (cursor w) (page_start w) magic data_start pc
            (pending w) (done_in_segment w), true)
  end.

Definition all_zero (l : list Z) : bool := forallb (fun b => b =? 0) l.

(** [try_read_record]: a fresh record at the aligned page cursor. *)
Definition try_read_record (w0 : StreamingWalker)
    : result (StreamingWalker * WalkError) (StreamingWalker * option CompletedRecord) :=
  let page_end := page_start w0 + PAGE_SIZE in
  let pc := align_up (page_cursor w0) X_LOG_RECORD_ALIGNMENT in
  let w := set_page_cursor w0 pc in
  if page_end <=? pc then Ok (w, None)
  else
    let avail_on_page := page_end - pc in
    let avail_in_buf := sat_sub (zlen (buf w)) pc in
    if avail_in_buf =? 0 then Ok (w, None)
    else if avail_on_page <? X_LOG_RECORD_HEADER_SIZE then
      if avail_in_buf <? avail_on_page then Ok (w, None)
      else
        let chunk_end := pc + avail_on_page in
        if all_zero (sub (buf w) pc chunk_end) then Ok (set_done w, None)
        else
          let chunk_len := chunk_end - pc in
          let p := MkPending pc None [(pc, chunk_len)] chunk_len (page_magic w) in
          Ok (set_page_cursor (set_pending w (Some p)) page_end, None)
    else if avail_in_buf <? 4 then Ok (w, None)
    else
      let xl_tot_len := u32_at (buf w) pc in
      if xl_tot_len =? 0 then
        let tail := Z.min (page_end - pc) avail_in_buf in
        if tail <? page_end - pc then Ok (w, None)
        else if all_zero (sub (buf w) pc (pc + tail)) then Ok (set_done w, None)
        else Err (w, ZeroRecord pc)
      else if xl_tot_len <? X_LOG_RECORD_HEADER_SIZE then
        Err (w, ShortRecord pc X_LOG_RECORD_HEADER_SIZE)
      else
        let take_this_page := Z.min xl_tot_len avail_on_page in
        if avail_in_buf <? take_this_page then Ok (w, None)
        else if take_this_page =? xl_tot_len then
          Ok (set_page_cursor w (pc + take_this_page),
              Some (MkCompleted None [(pc, take_this_page)] pc (page_magic w)))
        else
          let p := MkPending pc (Some xl_tot_len) [(pc, take_this_page)] take_this_page
                     (page_magic w) in
          Ok (set_page_cursor (set_pending w (Some p)) page_end, None).

(** How a turn of [try_next]'s loop ends: [continue], or one of its returns. *)
Inductive outcome :=
| Again
| Wait
| Yield (r : CompletedRecord)
| Fail (e : WalkError).

(** Bytes a pending record takes from this page now. *)
Definition take_now (w : StreamingWalker) (want : Z) : Z :=
  let page_end := page_start w + PAGE_SIZE in
  Z.min (Z.min want (sat_sub page_end (page_cursor w))) (sat_sub (zlen (buf w)) (page_cursor w)).

Definition absorb (p : Pending) (at_ n : Z) : Pending :=
  if 0 <? n then
    MkPending (p_start_offset p) (p_total_len p) (p_byte_ranges p ++ [(at_, n)])
      (p_accumulated_len p + n) (p_page_magic p)
  else p.

Definition complete (p : Pending) (b : list Z) : CompletedRecord :=
  MkCompleted (Some (materialise p b)) (p_byte_ranges p) (p_start_offset p) (p_page_magic p).

(** One turn on a pending record of known length. *)
Definition step_known (w : StreamingWalker) (p : Pending) (total : Z) : StreamingWalker * outcome :=
  let remaining := usub 64 total (p_accumulated_len p) in
  let page_end := page_start w + PAGE_SIZE in
  let n := take_now w remaining in
  let p' := absorb p (page_cursor w) n in
  let w' := set_pending (set_page_cursor w (page_cursor w + n)) (Some p') in
  if fully_loaded p' then (set_pending w' None, Yield (complete p' (buf w)))
  else if page_end <=? page_cursor w' then (advance_to_next_page w', Again)
  else (w', Wait).

(** One turn on a pending record whose header straddles the page boundary. *)
Definition step_header (w : StreamingWalker) (p : Pending) : StreamingWalker * outcome :=
  let needed := usub 64 X_LOG_RECORD_HEADER_SIZE (p_accumulated_len p) in
  let n := take_now w needed in
  let p' := absorb p (page_cursor w) n in
  let p' := if 0 <? n then try_resolve_total_len p' (buf w) else p' in
  let w' := set_pending (set_page_cursor w (page_cursor w + n)) (Some p') in
  if fully_loaded p' then (set_pending w' None, Yield (complete p' (buf w)))
  else if n =? 0 then (w', Wait)
  else (w', Again).

(** One turn with no pending record. *)
Definition step_fresh (w : StreamingWalker) : StreamingWalker * outcome :=
  match try_read_record w with
  | Ok (w', Some r) => (w', Yield r)
  | Ok (w', None) =>
      if done_in_segment w' then (w', Wait)
      else if page_start w' + PAGE_SIZE <=? page_cursor w' then (advance_to_next_page w', Again)
      else (w', Wait)
  | Err (w', e) => (set_done w', Fail e)
  end.

Definition step_body (w : StreamingWalker) : StreamingWalker * outcome :=
  match pending w with
  | Some p =>
      match p_total_len p with
      | Some total => step_known w p total
      | None => step_header w p
      end
  | None => step_fresh w
  end.

(** One turn of [try_next]'s loop. *)
Definition step (w : StreamingWalker) : StreamingWalker * outcome :=
  if page_magic w =? 0 then
    match try_read_page_header w with
    | Ok (w', true) => step_body w'
    | Ok (w', false) => (w', Wait)
    | Err e => (set_done w, Fail e)
    end
  else step_body w.

(** The loop; [None] when the fuel runs out, which [try_next]'s never does. *)
Fixpoint run (fuel : nat) (w : StreamingWalker) : option (StreamingWalker * outcome) :=
  match fuel with
  | O => None
  | S fuel =>
      match step w with
      | (w', Again) => run fuel w'
      | res => Some res
      end
  end.

(** Each turn that continues moves to the next page or takes header bytes. *)
Definition turns (w : StreamingWalker) : nat := Z.to_nat (zlen (buf w) + PAGE_SIZE + 32).

Definition try_next (w : StreamingWalker) : option (StreamingWalker * outcome) :=
  if done_in_segment w then Some (w, Wait) else run (turns w) w.

(** ** Ranges: nonempty, in order, inside [[lo, hi]] *)
Fixpoint ranges_in (lo : Z) (rs : list (Z * Z)) (hi : Z) : Prop :=
  match rs with
  | [] => lo <= hi
  | (o, l) :: rest => lo <= o /\ 0 < l /\ ranges_in (o + l) rest hi
  end.

Definition ranges_len (rs : list (Z * Z)) : Z := fold_right (fun r n => snd r + n) 0 rs.

Definition gather (b : list Z) (rs : list (Z * Z)) : list Z := concat (map (range_bytes b) rs).

Lemma ranges_in_le lo rs hi : ranges_in lo rs hi -> lo <= hi.
Proof.
  revert lo. induction rs as [|[o l] rs IH]; intros lo H; [done|].
  destruct H as (H1 & H2 & H3). apply IH in H3. lia.
Qed.

Lemma ranges_in_weaken lo lo' rs hi hi' :
  ranges_in lo rs hi -> lo' <= lo -> hi <= hi' -> ranges_in lo' rs hi'.
Proof.
  revert lo lo'. induction rs as [|[o l] rs IH]; intros lo lo' H Hl Hh; simpl in *; [lia|].
  destruct H as (H1 & H2 & H3). split; [lia|]. split; [done|]. eapply IH; eauto. lia.
Qed.

Lemma ranges_in_snoc lo rs hi o l hi' :
  ranges_in lo rs hi -> hi <= o -> 0 < l -> o + l <= hi' -> ranges_in lo (rs ++ [(o, l)]) hi'.
Proof.
  revert lo. induction rs as [|[o' l'] rs IH]; intros lo H Ho Hl Hh; simpl in *; [lia|].
  destruct H as (H1 & H2 & H3). split; [done|]. split; [done|]. by apply IH.
Qed.

Lemma ranges_len_app a b : ranges_len (a ++ b) = ranges_len a + ranges_len b.
Proof. unfold ranges_len. induction a as [|r a IH]; simpl; lia. Qed.

Lemma ranges_len_nonneg lo rs hi : ranges_in lo rs hi -> 0 <= ranges_len rs <= hi - lo.
Proof.
  unfold ranges_len. revert lo. induction rs as [|[o l] rs IH]; intros lo H; simpl in *; [lia|].
  destruct H as (H1 & H2 & H3). apply IH in H3. lia.
Qed.

Lemma zlen_gather b lo rs :
  0 <= lo -> ranges_in lo rs (zlen b) -> zlen (gather b rs) = ranges_len rs.
Proof.
  unfold gather. revert lo. induction rs as [|[o l] rs IH]; intros lo H0 H; [done|].
  destruct H as (H1 & H2 & H3). simpl. rewrite zlen_app, (IH (o + l)) by (auto; lia).
  unfold range_bytes. simpl. pose proof (ranges_in_le _ _ _ H3). rewrite zlen_sub by lia. lia.
Qed.

(** Bytes that arrive later do not change a gathered record. *)
Lemma gather_app b e lo rs :
  0 <= lo -> ranges_in lo rs (zlen b) -> gather (b ++ e) rs = gather b rs.
Proof.
  unfold gather. revert lo. induction rs as [|[o l] rs IH]; intros lo H0 H; [done|].
  destruct H as (H1 & H2 & H3). pose proof (ranges_in_le _ _ _ H3). simpl. f_equal.
  - unfold range_bytes. simpl. apply sub_app_l; lia.
  - apply (IH (o + l)); [lia|done].
Qed.

(** A write at or above the ranges does not change them, nor one below. *)
Lemma gather_put_below b off new lo rs hi :
  0 <= off -> off + zlen new <= lo -> off + zlen new <= zlen b ->
  ranges_in lo rs hi -> gather (put b off new) rs = gather b rs.
Proof.
  unfold gather. intros H0 H1 H2. revert lo H1. induction rs as [|[o l] rs IH]; intros lo H1 H; [done|].
  destruct H as (H3 & H4 & H5). simpl. f_equal.
  - unfold range_bytes. simpl. apply sub_put_above; lia.
  - apply (IH (o + l)); [lia|done].
Qed.

Lemma read_hdr_spec b rs : forall lo c pre hdr,
  0 <= lo -> ranges_in lo rs (zlen b) -> 0 <= c <= 4 -> zlen pre = c ->
  hdr = pre ++ zrep (4 - c) 0 -> 4 - c <= ranges_len rs ->
  read_hdr b rs c hdr = pre ++ ztake (4 - c) (gather b rs).
Proof.
  induction rs as [|[o l] rs IH]; intros lo c pre hdr H0 HR Hc Hp -> Hs.
  - unfold ranges_len in Hs. simpl in Hs. assert (c = 4) as -> by lia. simpl. done.
  - destruct HR as (H1 & H2 & H3). pose proof (ranges_in_le _ _ _ H3). cbn [read_hdr].
    destruct (Z.leb_spec 4 c).
    { assert (c = 4) as -> by lia. done. }
    change (4 - c <= l + ranges_len rs) in Hs. pose proof (ranges_len_nonneg _ _ _ H3).
    assert (Hb : zlen (range_bytes b (o, l)) = l)
      by (unfold range_bytes; simpl; rewrite zlen_sub by lia; lia).
    assert (Hg : gather b ((o, l) :: rs) = range_bytes b (o, l) ++ gather b rs) by done.
    set (take := Z.min (4 - c) l). assert (Htk : take = Z.min (4 - c) l) by done.
    assert (Ht : sub b o (o + take) = ztake take (range_bytes b (o, l))).
    { unfold range_bytes, sub. simpl. rewrite ztake_ztake. f_equal. lia. }
    rewrite (IH (o + l) (c + take) (pre ++ ztake take (range_bytes b (o, l)))); try lia; auto.
    + rewrite <- app_assoc, Hg. f_equal. destruct (Z.le_gt_cases (4 - c) l).
      * unfold take. rewrite Z.min_l by lia. rewrite ztake_app_le by lia.
        replace (4 - (c + (4 - c))) with 0 by lia. change (ztake 0 (gather b rs)) with (@nil Z).
        by rewrite app_nil_r.
      * unfold take. rewrite Z.min_r by lia. rewrite ztake_all by lia.
        unfold ztake at 2. rewrite take_app_ge by (unfold zlen in *; lia). f_equal.
        unfold ztake. f_equal. unfold zlen in Hb. lia.
    + rewrite zlen_app, zlen_ztake, Hb. lia.
    + rewrite Ht. rewrite put_skip by lia.
      replace (zrep (4 - c) 0) with (zrep take 0 ++ zrep (4 - (c + take)) 0)
        by (unfold zrep; rewrite <- replicate_add; f_equal; lia).
      rewrite <- app_assoc. f_equal. apply put_here; [lia|]. rewrite zlen_ztake, zlen_zrep, Hb. lia.
Qed.

(** ** Well-formed walkers *)
Record PendingAt (b : list Z) (pc : Z) (p : Pending) : Prop := mkPendingAt
  { po_lo : 0 <= p_start_offset p;
    po_first : exists l rest, p_byte_ranges p = (p_start_offset p, l) :: rest;
    po_buf : ranges_in (p_start_offset p) (p_byte_ranges p) (zlen b);
    po_pc : ranges_in (p_start_offset p) (p_byte_ranges p) pc;
    po_acc : p_accumulated_len p = ranges_len (p_byte_ranges p) }.

(** The length is known exactly once the fixed header is in, and is what the
    first four bytes say. *)
Definition TotalOk (b : list Z) (p : Pending) : Prop :=
  match p_total_len p with
  | None => p_accumulated_len p < 24
  | Some t => 24 <= p_accumulated_len p /\ t = le_dec (ztake 4 (gather b (p_byte_ranges p)))
  end.

Definition PendingOk (b : list Z) (pc : Z) (p : Pending) : Prop := PendingAt b pc p /\ TotalOk b p.

Record WF (w : StreamingWalker) : Prop := mkWF
  { wf_bytes : bytes_ok (buf w);
    wf_page : 0 <= page_start w /\ page_start w mod PAGE_SIZE = 0;
    wf_pc : page_start w <= page_cursor w <= page_start w + PAGE_SIZE;
    wf_magic : page_magic w <> 0 -> page_start w <= zlen (buf w);
    wf_far : page_start w <= zlen (buf w) + PAGE_SIZE;
    wf_zero : page_magic w = 0 -> is_Some (pending w) -> page_cursor w = page_start w \/
      parse_page_header (buf w) (page_start w) = Ok ZeroPage;
    wf_pending : forall p, pending w = Some p -> PendingOk (buf w) (page_cursor w) p }.

(** What a completed record's footprint guarantees. *)
Record CompletedOk (b : list Z) (r : CompletedRecord) : Prop := mkCompletedOk
  { co_lo : 0 <= start_offset r;
    co_first : exists l rest, byte_ranges r = (start_offset r, l) :: rest;
    co_ranges : ranges_in (start_offset r) (byte_ranges r) (zlen b);
    co_bytes : logical_bytes r b = gather b (byte_ranges r);
    co_len : ranges_len (byte_ranges r) = u32_at (gather b (byte_ranges r)) 0;
    co_min : 24 <= ranges_len (byte_ranges r) }.

Lemma pending_at_mono b pc pc' p : PendingAt b pc p -> pc <= pc' -> PendingAt b pc' p.
Proof.
  intros [H1 H2 H3 H4 H5] Hle. split; auto. eapply ranges_in_weaken; eauto. lia.
Qed.

Lemma pending_at_pos b pc p : PendingAt b pc p -> 0 < p_accumulated_len p.
Proof.
  intros [H1 (l & rest & E) H3 _ H5]. rewrite H5. rewrite E in *. destruct H3 as (_ & Hl & H3).
  apply ranges_len_nonneg in H3. unfold ranges_len in *. simpl. lia.
Qed.

(** Taking [n] bytes at the page cursor keeps the footprint sound. *)
Lemma absorb_at b pc p n :
  PendingAt b pc p -> 0 <= n -> (0 < n -> pc + n <= zlen b) ->
  PendingAt b (pc + n) (absorb p pc n) /\
  p_accumulated_len (absorb p pc n) = p_accumulated_len p + n /\
  p_total_len (absorb p pc n) = p_total_len p.
Proof.
  intros HP Hn Hb. unfold absorb. destruct (Z.ltb_spec 0 n) as [Hpos|].
  2:{ assert (n = 0) as -> by lia. rewrite !Z.add_0_r. auto. }
  destruct HP as [H1 (l & rest & E) H3 H4 H5]. specialize (Hb Hpos). split; [|done].
  split; simpl; auto.
  - rewrite E. by exists l, (rest ++ [(pc, n)]).
  - eapply ranges_in_snoc; eauto; lia.
  - eapply ranges_in_snoc; eauto; lia.
  - rewrite ranges_len_app, H5. unfold ranges_len at 3. simpl. lia.
Qed.

Lemma gather_prefix b pc p n :
  PendingAt b pc p -> 4 <= p_accumulated_len p ->
  ztake 4 (gather b (p_byte_ranges (absorb p pc n))) = ztake 4 (gather b (p_byte_ranges p)).
Proof.
  intros [H1 H2 H3 H4 H5] Ha. unfold absorb. destruct (0 <? n); [|done]. simpl.
  unfold gather. rewrite map_app, concat_app. apply ztake_app_le.
  fold (gather b (p_byte_ranges p)). rewrite (zlen_gather b (p_start_offset p)) by done. lia.
Qed.

Lemma absorb_known b pc p n t :
  PendingOk b pc p -> p_total_len p = Some t -> 0 <= n -> (0 < n -> pc + n <= zlen b) ->
  PendingOk b (pc + n) (absorb p pc n).
Proof.
  intros [HA HT] Et Hn Hb. destruct (absorb_at b pc p n HA Hn Hb) as (HA' & Ea & Et').
  split; [done|]. unfold TotalOk in *. rewrite Et', Et in *. destruct HT as [HT ->].
  rewrite Ea, (gather_prefix b pc p n) by (done || lia). split; [lia|done].
Qed.

(** Resolving the length when the fixed header is complete. *)
Lemma resolve_ok b pc p :
  PendingAt b pc p -> p_total_len p = None -> p_accumulated_len p <= 24 ->
  PendingOk b pc (try_resolve_total_len p b).
Proof.
  intros HA Et Hle. unfold try_resolve_total_len. rewrite Et. simpl.
  destruct (Z.ltb_spec (p_accumulated_len p) X_LOG_RECORD_HEADER_SIZE) as [Hlt|Hge];
    unfold X_LOG_RECORD_HEADER_SIZE in *.
  - split; [done|]. unfold TotalOk. by rewrite Et.
  - destruct HA as [H1 H2 H3 H4 H5]. split; [by split|]. unfold TotalOk. simpl. split; [lia|].
    rewrite (read_hdr_spec b _ (p_start_offset p) 0 []); auto; lia.
Qed.

(** A record whose last byte landed. *)
Lemma complete_ok b pc p :
  PendingOk b pc p -> fully_loaded p = true -> CompletedOk b (complete p b).
Proof.
  intros [[H1 H2 H3 H4 H5] H6] HF. unfold fully_loaded in HF. unfold TotalOk in H6.
  destruct (p_total_len p) as [t|]; [|done]. apply Z.eqb_eq in HF. destruct H6 as [H6 Ht].
  split; simpl; auto; [|lia].
  rewrite <- H5, HF, Ht. unfold u32_at, sub. by rewrite zdrop_0.
Qed.

(** [take_now] stays inside the page and the buffer. *)
Lemma take_now_bounds w want :
  WF w -> 0 <= want ->
  0 <= take_now w want <= want /\
  page_cursor w + take_now w want <= page_start w + PAGE_SIZE /\
  (0 < take_now w want -> page_cursor w + take_now w want <= zlen (buf w)).
Proof.
  intros [_ [Hps _] Hpc _ _ _ _] Hw. unfold take_now, sat_sub. lia.
Qed.

(** Work left: bytes ahead of the page, and header bytes a straddling record
    still needs. *)
Definition header_need (p : option Pending) : Z :=
  match p with
  | Some p => match p_total_len p with None => 24 - p_accumulated_len p | Some _ => 0 end
  | None => 0
  end.

Definition work (w : StreamingWalker) : Z :=
  zlen (buf w) - page_start w + header_need (pending w).

Record StepOk (w w' : StreamingWalker) (o : outcome) : Prop := mkStepOk
  { so_buf : buf w' = buf w;
    so_wf : WF w';
    so_yield : forall r, o = Yield r -> CompletedOk (buf w) r;
    so_again : o = Again -> work w' < work w }.

(** The current page's header has been read. *)
Definition Headed (w : StreamingWalker) : Prop :=
  page_magic w <> 0 \/ parse_page_header (buf w) (page_start w) = Ok ZeroPage.

Lemma headed_in_buf w : WF w -> Headed w -> page_start w <= zlen (buf w).
Proof.
  intros HW [H|H]; [by apply wf_magic|]. unfold parse_page_header in H.
  destruct (Z.ltb_spec (zlen (buf w)) (page_start w + SHORT_HEADER_SIZE)); [done|].
  unfold SHORT_HEADER_SIZE in *. lia.
Qed.

Lemma advance_wf w :
  WF w -> page_start w <= zlen (buf w) -> WF (advance_to_next_page w).
Proof.
  intros [Hb [Hps Hm] Hpc Hmg Hf Hz Hp] Hle. unfold PAGE_SIZE in *.
  split; simpl; auto; unfold PAGE_SIZE in *; try lia; try done.
  - split; [lia|]. replace (page_start w + 8192) with (page_start w + 1 * 8192) by lia.
    rewrite Z.mod_add by lia. done.
  - intros p HPp. destruct (Hp p HPp) as [HA HT]. split; [|done].
    eapply pending_at_mono; eauto. lia.
Qed.

(** Moving the cursor inside the page with a sound pending record. *)
Lemma move_wf w pc p :
  WF w -> Headed w -> page_start w <= pc <= page_start w + PAGE_SIZE ->
  (forall q, p = Some q -> PendingOk (buf w) pc q) ->
  WF (set_pending (set_page_cursor w pc) p).
Proof.
  intros [Hb Hps Hpc Hmg Hf Hz Hp] HH Hc HP. split; auto. simpl. destruct HH; tauto.
Qed.

Lemma step_known_ok w p t w' o :
  WF w -> Headed w -> pending w = Some p -> p_total_len p = Some t ->
  step_known w p t = (w', o) -> StepOk w w' o.
Proof.
  intros HW HH Hp Ht. unfold step_known. pose proof (headed_in_buf _ HW HH) as Hle.
  assert (Hu : 0 <= usub 64 t (p_accumulated_len p)) by (apply wrap_fits; lia).
  destruct (take_now_bounds w _ HW Hu) as ([Hn _] & Hpage & Hbuf).
  set (n := take_now w _) in *.
  pose proof (absorb_known _ _ _ n t (wf_pending _ HW _ Hp) Ht Hn Hbuf) as HP.
  pose proof (wf_pc _ HW).
  assert (HW' : WF (set_pending (set_page_cursor w (page_cursor w + n))
    (Some (absorb p (page_cursor w) n)))) by (apply move_wf; [done|done|lia|by intros q [= <-]]).
  assert (Et : p_total_len (absorb p (page_cursor w) n) = Some t)
    by (unfold absorb; destruct (0 <? n); done).
  destruct (fully_loaded _) eqn:EF; [|destruct (_ <=? _)]; intros [= <- <-].
  - split; [done| |intros r [= <-]; by eapply complete_ok|done].
    by apply (move_wf w (page_cursor w + n) None HW HH); [lia|].
  - split; [done|by apply advance_wf|done|]. intros _. unfold work, PAGE_SIZE. simpl.
    rewrite Hp. simpl. rewrite Et, Ht. unfold PAGE_SIZE. lia.
  - by split.
Qed.

Lemma step_header_ok w p w' o :
  WF w -> Headed w -> pending w = Some p -> p_total_len p = None ->
  step_header w p = (w', o) -> StepOk w w' o.
Proof.
  intros HW HH Hp Ht. unfold step_header.
  destruct (wf_pending _ HW _ Hp) as [HA HT]. unfold TotalOk in HT. rewrite Ht in HT.
  pose proof (pending_at_pos _ _ _ HA) as Hpos.
  assert (Hu : usub 64 X_LOG_RECORD_HEADER_SIZE (p_accumulated_len p) = 24 - p_accumulated_len p).
  { unfold usub, X_LOG_RECORD_HEADER_SIZE. apply wrap_small. unfold fits. lia. }
  rewrite Hu. destruct (take_now_bounds w (24 - p_accumulated_len p) HW ltac:(lia))
    as ([Hn Hn'] & Hpage & Hbuf).
  set (n := take_now w _) in *. pose proof (wf_pc _ HW).
  destruct (absorb_at _ _ _ n HA Hn Hbuf) as (HA' & Ea & Et). rewrite Ht in Et.
  set (p' := if 0 <? n then _ else _).
  assert (HP' : PendingOk (buf w) (page_cursor w + n) p' /\
    (0 < n -> header_need (Some p') < 24 - p_accumulated_len p)).
  { unfold p'. destruct (Z.ltb_spec 0 n) as [H0|H0].
    - split; [apply resolve_ok; auto; lia|]. intros _. simpl. unfold try_resolve_total_len.
      rewrite Et. simpl. destruct (_ <? _); simpl; rewrite ?Et, ?Ea; lia.
    - split; [|lia]. split; [done|]. unfold TotalOk. rewrite Et, Ea. lia. }
  destruct HP' as [HP' HN].
  assert (HW' : WF (set_pending (set_page_cursor w (page_cursor w + n)) (Some p')))
    by (apply move_wf; [done|done|lia|by intros q [= <-]]).
  destruct (fully_loaded _) eqn:EF; [|destruct (Z.eqb_spec n 0)]; intros [= <- <-].
  - split; [done| |intros r [= <-]; by eapply complete_ok|done].
    by apply (move_wf w (page_cursor w + n) None HW HH); [lia|].
  - by split.
  - split; [done|done|done|]. intros _. unfold work. rewrite Hp. cbn [buf page_start pending set_pending set_page_cursor].
    specialize (HN ltac:(lia)). unfold header_need at 2. rewrite Ht. lia.
Qed.

Lemma align_in_page ps pc :
  ps mod PAGE_SIZE = 0 -> ps <= pc <= ps + PAGE_SIZE -> pc <= align_up pc 8 <= ps + PAGE_SIZE.
Proof.
  intros Hm Hpc. unfold PAGE_SIZE in *. pose proof (align_up_8_bounds pc).
  pose proof (align_up_8_mod pc). split; [lia|].
  rewrite align_up_8 in *. pose proof (Z.div_mod ps 8192 ltac:(lia)).
  pose proof (Z.div_mod (pc + 7) 8 ltac:(lia)). pose proof (Z.mod_pos_bound (pc + 7) 8). lia.
Qed.

(** One-range pending records that [try_read_record] opens. *)
Lemma open_pending_ok b pc n t magic :
  0 <= pc -> 0 < n -> pc + n <= zlen b ->
  match t with None => n < 24 | Some t => 24 <= n /\ t = u32_at b pc end ->
  PendingOk b (pc + n) (MkPending pc t [(pc, n)] n magic).
Proof.
  intros H0 Hn Hb Ht. split.
  - split; simpl; eauto; [repeat split; lia..|]. unfold ranges_len. simpl. lia.
  - unfold TotalOk. simpl. destruct t; [|done]. destruct Ht as [Ht ->]. split; [done|].
    unfold u32_at, gather, range_bytes, sub. simpl. rewrite app_nil_r, ztake_ztake. do 2 f_equal. lia.
Qed.

Lemma fresh_record_ok b pc n magic :
  0 <= pc -> 24 <= n -> pc + n <= zlen b -> u32_at b pc = n ->
  CompletedOk b (MkCompleted None [(pc, n)] pc magic).
Proof.
  intros H0 Hn Hb Ht. assert (E : ranges_len [(pc, n)] = n) by (unfold ranges_len; simpl; lia).
  split; cbn [byte_ranges start_offset]; eauto; [simpl; lia| | |lia].
  - unfold logical_bytes, gather. simpl. by rewrite app_nil_r.
  - rewrite E. etransitivity; [symmetry; exact Ht|]. unfold u32_at, gather, range_bytes, sub. simpl.
    rewrite app_nil_r, zdrop_0, ztake_ztake. do 2 f_equal. lia.
Qed.

Record ReadOk (w w' : StreamingWalker) (r : option CompletedRecord) : Prop := mkReadOk
  { ro_buf : buf w' = buf w;
    ro_page : page_start w' = page_start w;
    ro_wf : WF w';
    ro_record : forall c, r = Some c -> CompletedOk (buf w) c;
    ro_need : header_need (pending w') <= 24 }.

(** The four ways [try_read_record] leaves the walker. *)
Lemma read_stay w pc c :
  WF w -> Headed w -> pending w = None -> page_start w <= pc <= page_start w + PAGE_SIZE ->
  (forall r, c = Some r -> CompletedOk (buf w) r) -> ReadOk w (set_page_cursor w pc) c.
Proof.
  intros HW HH Hp Hpc Hc. pose proof (move_wf w pc None HW HH Hpc ltac:(done)) as M.
  split; auto; [|simpl; rewrite Hp; simpl; lia].
  destruct w; simpl in *. by rewrite Hp.
Qed.

Lemma read_done w w' : ReadOk w w' None -> ReadOk w (set_done w') None.
Proof. intros [H1 H2 [] H4 H5]. split; auto. by split. Qed.

Lemma read_open w p :
  WF w -> Headed w -> PendingOk (buf w) (page_start w + PAGE_SIZE) p ->
  forall pc, ReadOk w (set_page_cursor (set_pending (set_page_cursor w pc) (Some p))
    (page_start w + PAGE_SIZE)) None.
Proof.
  intros HW HH HP pc. pose proof (wf_pc _ HW).
  split; auto; [|done|].
  - exact (move_wf w (page_start w + PAGE_SIZE) (Some p) HW HH ltac:(unfold PAGE_SIZE in *; lia)
             ltac:(by intros q [= <-])).
  - destruct HP as [HA _]. pose proof (pending_at_pos _ _ _ HA). simpl.
    destruct (p_total_len p); lia.
Qed.

Lemma try_read_record_ok w :
  WF w -> Headed w -> pending w = None ->
  match try_read_record w with
  | Ok (w', r) => ReadOk w w' r
  | Err (w', _) => ReadOk w w' None
  end.
Proof.
  intros HW HH Hp. unfold try_read_record.
  destruct (wf_page _ HW) as [Hps Hm]. pose proof (wf_pc _ HW) as Hpc.
  destruct (align_in_page _ _ Hm Hpc) as [Ha1 Ha2]. change X_LOG_RECORD_ALIGNMENT with 8.
  set (pc := align_up _ 8) in *.
  assert (HS : ReadOk w (set_page_cursor w pc) None) by (apply read_stay; auto; [lia|done]).
  destruct (Z.leb_spec (page_start w + PAGE_SIZE) pc) as [|Hin]; [done|].
  unfold sat_sub, X_LOG_RECORD_HEADER_SIZE. cbn [buf set_page_cursor page_magic].
  destruct (Z.eqb_spec (Z.max 0 (zlen (buf w) - pc)) 0) as [|Hav]; [done|].
  destruct (Z.ltb_spec (page_start w + PAGE_SIZE - pc) 24) as [Hsm|Hbig].
  - destruct (Z.ltb_spec (Z.max 0 (zlen (buf w) - pc)) (page_start w + PAGE_SIZE - pc)); [done|].
    destruct (all_zero _); [by apply read_done|]. apply read_open; [done|done|].
    replace (pc + (page_start w + PAGE_SIZE - pc) - pc) with (page_start w + PAGE_SIZE - pc) by lia.
    set (n := page_start w + PAGE_SIZE - pc) in *.
    replace (page_start w + PAGE_SIZE) with (pc + n) by lia. apply open_pending_ok; lia.
  - destruct (Z.ltb_spec (Z.max 0 (zlen (buf w) - pc)) 4); [done|].
    set (total := u32_at (buf w) pc).
    destruct (Z.eqb_spec total 0).
    { destruct (_ <? _); [done|]. destruct (all_zero _); [by apply read_done|done]. }
    destruct (Z.ltb_spec total 24); [done|].
    destruct (Z.ltb_spec (Z.max 0 (zlen (buf w) - pc)) (Z.min total (page_start w + PAGE_SIZE - pc)));
      [done|].
    destruct (Z.eqb_spec (Z.min total (page_start w + PAGE_SIZE - pc)) total) as [E|E].
    + rewrite E. change (set_page_cursor (set_page_cursor w pc) (pc + total)) with
        (set_page_cursor w (pc + total)).
      apply read_stay; auto; [lia|]. intros r [= <-]. apply fresh_record_ok; try lia; done.
    + apply read_open; [done|done|]. rewrite Z.min_r by lia.
      replace (page_start w + PAGE_SIZE) with (pc + (page_start w + PAGE_SIZE - pc)) at 1 by lia.
      apply open_pending_ok; try lia.
Qed.

Lemma step_fresh_ok w w' o :
  WF w -> Headed w -> pending w = None ->
  step_fresh w = (w', o) -> StepOk w w' o.
Proof.
  intros HW HH Hp. unfold step_fresh. pose proof (try_read_record_ok w HW HH Hp) as H.
  pose proof (headed_in_buf _ HW HH) as Hle.
  destruct (try_read_record w) as [[w1 [r|]]|[w1 e]]; destruct H as [Hb Hps HW1 Hc Hn].
  - intros [= <- <-]. split; auto; [|done]. intros r' [= <-]. auto.
  - destruct (done_in_segment w1); [by intros [= <- <-]; split|].
    destruct (_ <=? _); intros [= <- <-]; [|by split].
    split; auto; [by apply advance_wf; [done|congruence]|done|].
    intros _. unfold work. simpl. rewrite Hp, Hb, Hps. unfold PAGE_SIZE. simpl. lia.
  - intros [= <- <-]. split; auto; [|done|done]. destruct HW1; by split.
Qed.

Lemma page_header_ok w w' b :
  WF w -> page_magic w = 0 -> try_read_page_header w = Ok (w', b) ->
  buf w' = buf w /\ page_start w' = page_start w /\ pending w' = pending w /\
  (b = true -> WF w' /\ Headed w') /\ (b = false -> w' = w).
Proof.
  intros HW Hmg. unfold try_read_page_header.
  destruct (parse_page_header (buf w) (page_start w)) as [[| | |magic ds rem]|] eqn:E; try done.
  1,2: by intros [= <- <-].
  - intros [= <- <-]. simpl. do 3 (split; [done|]). split; [|done]. intros _.
    split; [destruct HW; by split|by right].
  - intros [= <- <-]. simpl. do 3 (split; [done|]). split; [|done]. intros _.
    pose proof (parse_valid _ _ _ _ _ E) as (Hds & Hmgc & Hl).
    assert (Hmn : magic <> 0) by (unfold XLP_PAGE_MAGIC_PG15 in *; lia).
    split; [|by left]. destruct HW as [Hb [Hps Hm] Hpc _ Hf Hz HP].
    assert (Hpc0 : is_Some (pending w) -> page_cursor w = page_start w)
      by (intros Hs; destruct (Hz Hmg Hs); congruence).
    set (pc' := if _ && _ then _ else ds).
    assert (Hpc' : page_start w <= pc' <= page_start w + PAGE_SIZE).
    { unfold pc'. destruct (Z.ltb_spec 0 rem); simpl; [|unfold PAGE_SIZE; lia].
      destruct (negb _); [|unfold PAGE_SIZE; lia].
      destruct (Z.leb_spec (page_start w + PAGE_SIZE - ds) rem); [unfold PAGE_SIZE; lia|].
      pose proof (align_in_page (page_start w) (ds + Z.min rem (page_start w + PAGE_SIZE - ds)) Hm).
      unfold X_LOG_RECORD_ALIGNMENT, PAGE_SIZE in *. lia. }
    split; simpl; auto; [lia|done|]. intros p Hp. destruct (HP p Hp) as [HA HT].
    split; [|done]. eapply pending_at_mono; [done|]. rewrite Hpc0; [lia|]. by rewrite Hp.
Qed.

Lemma step_body_ok w w' o :
  WF w -> Headed w -> step_body w = (w', o) -> StepOk w w' o.
Proof.
  intros HW HH. unfold step_body. destruct (pending w) as [p|] eqn:Ep.
  - destruct (p_total_len p) as [t|] eqn:Et; [by apply step_known_ok|by apply step_header_ok].
  - by apply step_fresh_ok.
Qed.

Lemma step_ok w w' o : WF w -> step w = (w', o) -> StepOk w w' o.
Proof.
  intros HW. unfold step. destruct (Z.eqb_spec (page_magic w) 0) as [Hm|Hm].
  2:{ apply step_body_ok; [done|by left]. }
  destruct (try_read_page_header w) as [[w1 [|]]|e] eqn:E.
  - destruct (page_header_ok _ _ _ HW Hm E) as (Hb & Hps & Hp & Hw & _).
    destruct (Hw eq_refl) as [HW1 HH1]. intros [H1 H2 H3 H4]%step_body_ok; [|done|done].
    split; [congruence|done|by rewrite <- Hb|]. intros Ho. specialize (H4 Ho).
    unfold work in *. rewrite Hb, Hps, Hp in H4. done.
  - destruct (page_header_ok _ _ _ HW Hm E) as (_ & _ & _ & _ & Hw).
    intros [= <- <-]. rewrite (Hw eq_refl). by split.
  - intros [= <- <-]. split; auto; [|done|done]. destruct HW; by split.
Qed.

Lemma work_bound w : WF w -> - PAGE_SIZE <= work w.
Proof.
  intros [_ _ _ _ Hf _ Hp]. unfold work, header_need.
  destruct (pending w) as [p|]; [|lia]. destruct (Hp p eq_refl) as [HA HT]. unfold TotalOk in HT.
  destruct (p_total_len p); lia.
Qed.

(** The loop ends whenever the fuel exceeds the work left. *)
Lemma run_ok fuel : forall w,
  WF w -> work w + PAGE_SIZE < Z.of_nat fuel ->
  exists w' o, run fuel w = Some (w', o) /\ o <> Again /\ buf w' = buf w /\ WF w' /\
    forall r, o = Yield r -> CompletedOk (buf w) r.
Proof.
  induction fuel as [|fuel IH]; intros w HW Hf.
  - pose proof (work_bound w HW). lia.
  - cbn [run]. destruct (step w) as [w1 o] eqn:E.
    destruct (step_ok _ _ _ HW E) as [Hb HW1 Hy Ha].
    destruct o as [| |r|e]; [|by exists w1, Wait|by exists w1, (Yield r)|by exists w1, (Fail e)].
    destruct (IH w1 HW1) as (w' & o & -> & Ho & Hb' & HW' & Hy').
    { specialize (Ha eq_refl). lia. }
    exists w', o. rewrite Hb in Hb', Hy'. auto.
Qed.

Lemma try_next_ok w :
  WF w ->
  exists w' o, try_next w = Some (w', o) /\ o <> Again /\ buf w' = buf w /\ WF w' /\
    forall r, o = Yield r -> CompletedOk (buf w) r.
Proof.
  intros HW. unfold try_next. destruct (done_in_segment w); [by exists w, Wait|].
  apply run_ok; [done|]. unfold turns, work. pose proof (wf_page _ HW).
  assert (header_need (pending w) <= 24).
  { unfold header_need. destruct (pending w) as [p|] eqn:Ep; [|lia].
    destruct (wf_pending _ HW _ Ep) as [HA _]. pose proof (pending_at_pos _ _ _ HA).
    destruct (p_total_len p); lia. }
  unfold PAGE_SIZE in *. zlen.
Qed.

(** *** The other operations keep walkers well-formed *)

Lemma pending_ok_app b e pc p : PendingOk b pc p -> PendingOk (b ++ e) pc p.
Proof.
  intros [[H1 H2 H3 H4 H5] HT]. split.
  - split; auto. eapply ranges_in_weaken; [exact H3|lia|zlen].
  - unfold TotalOk in *. destruct (p_total_len p); [|done].
    by rewrite (gather_app b e (p_start_offset p)).
Qed.

Lemma new_wf n : WF (new n).
Proof. split; simpl; unfold PAGE_SIZE; try done; constructor. Qed.

Lemma extend_wf w bytes : WF w -> bytes_ok bytes -> WF (extend w bytes).
Proof.
  intros [Hb Hps Hpc Hmg Hf Hz Hp] HB. split; simpl; auto.
  - by apply bytes_ok_app.
  - intros H. specialize (Hmg H). zlen.
  - zlen.
  - intros H1 H2. destruct (Hz H1 H2) as [|E]; [by left|right].
    apply parse_app; auto; lia.
  - intros p E. by apply pending_ok_app, Hp.
Qed.

Lemma truncate_to_wf w len : WF w -> 0 <= len -> WF (truncate_to w len).
Proof.
  intros [Hb Hps Hpc Hmg Hf Hz Hp] H0. unfold truncate_to.
  assert (bytes_ok (ztake len (buf w))) by (by apply Forall_take).
  destruct (Z.ltb_spec len (page_start w)); split; simpl; auto; unfold PAGE_SIZE in *;
    try done; try lia; try (by intros _ [? ?]); zlen.
Qed.

Lemma parse_shift b ps n :
  0 <= n <= ps -> parse_page_header b ps = Ok ZeroPage -> n <= zlen b ->
  parse_page_header (zdrop n b) (ps - n) = Ok ZeroPage.
Proof.
  intros Hn H Hb. unfold parse_page_header in *.
  destruct (Z.ltb_spec (zlen b) (ps + SHORT_HEADER_SIZE)); [done|].
  rewrite zlen_zdrop. rewrite (proj2 (Z.ltb_ge _ _)) by (unfold SHORT_HEADER_SIZE in *; lia).
  rewrite zdrop_zdrop by lia. replace (ps - n + n) with ps by lia.
  destruct (_ && _); [done|]. repeat case_match; done.
Qed.

(** Shifting a pending record down with the buffer. *)
Lemma ranges_in_shift lo rs hi n :
  ranges_in lo rs hi -> ranges_in (lo - n) (map (fun r => (fst r - n, snd r)) rs) (hi - n).
Proof.
  revert lo. induction rs as [|[o l] rs IH]; intros lo H; simpl in *; [lia|].
  destruct H as (H1 & H2 & H3). split; [lia|]. split; [done|].
  replace (o - n + l) with (o + l - n) by lia. by apply IH.
Qed.

Lemma gather_shift b lo rs n :
  0 <= n <= lo -> ranges_in lo rs (zlen b) ->
  gather (zdrop n b) (map (fun r => (fst r - n, snd r)) rs) = gather b rs.
Proof.
  unfold gather. revert lo. induction rs as [|[o l] rs IH]; intros lo Hn H; [done|].
  destruct H as (H1 & H2 & H3). simpl. f_equal; [|apply (IH (o + l)); [lia|done]].
  unfold range_bytes, sub. simpl. rewrite zdrop_zdrop by lia. f_equal; [lia|]. f_equal. lia.
Qed.

Lemma ranges_len_shift rs n : ranges_len (map (fun r => (fst r - n, snd r)) rs) = ranges_len rs.
Proof. unfold ranges_len. induction rs as [|[o l] rs IH]; simpl; lia. Qed.

Lemma usub_ranges lo rs hi n :
  0 <= n <= lo -> hi < 2 ^ 64 -> ranges_in lo rs hi ->
  map (fun r => (usub 64 (fst r) n, snd r)) rs = map (fun r => (fst r - n, snd r)) rs.
Proof.
  intros Hn Hh H. revert lo Hn H. induction rs as [|[o l] rs IH]; intros lo Hn H; [done|].
  destruct H as (H1 & H2 & H3). pose proof (ranges_in_le _ _ _ H3). simpl. f_equal.
  - f_equal. apply wrap_small. unfold fits. lia.
  - apply (IH (o + l)); [lia|done].
Qed.

Lemma truncate_pending b pc p n :
  0 <= n <= p_start_offset p -> n <= zlen b -> zlen b < 2 ^ 64 -> n <= pc ->
  PendingOk b pc p ->
  PendingOk (zdrop n b) (pc - n)
    (MkPending (usub 64 (p_start_offset p) n) (p_total_len p)
       (map (fun r => (usub 64 (fst r) n, snd r)) (p_byte_ranges p))
       (p_accumulated_len p) (p_page_magic p)).
Proof.
  intros Hn Hb Hmax Hpc [[H1 (l & rest & E) H3 H4 H5] HT].
  rewrite (usub_ranges (p_start_offset p) _ (zlen b)) by done.
  pose proof (ranges_in_le _ _ _ H3).
  assert (Es : usub 64 (p_start_offset p) n = p_start_offset p - n)
    by (apply wrap_small; unfold fits; lia).
  rewrite Es. split; [split|]; simpl.
  - lia.
  - rewrite E. simpl. eauto.
  - rewrite zlen_zdrop. replace (Z.max 0 (zlen b - Z.max 0 n)) with (zlen b - n) by lia.
    by apply ranges_in_shift.
  - by apply ranges_in_shift.
  - by rewrite ranges_len_shift.
  - unfold TotalOk in *. simpl. destruct (p_total_len p); [|done].
    by rewrite (gather_shift b (p_start_offset p)).
Qed.

Lemma truncate_first_wf w :
  WF w -> 0 < seg_size w -> seg_size w mod PAGE_SIZE = 0 -> zlen (buf w) < 2 ^ 64 ->
  first_segment_ready w = true -> WF (truncate_first_segment w).
Proof.
  intros [Hb [Hps Hm] Hpc Hmg Hf Hz Hp] Hseg Hsm Hmax HR.
  apply andb_true_iff in HR as [Hlen%Z.leb_le HR].
  assert (Hst : forall p, pending w = Some p -> seg_size w <= p_start_offset p).
  { intros p E. rewrite E in HR. destruct (Z.ltb_spec (p_start_offset p) (seg_size w)); [done|lia]. }
  assert (HBd : bytes_ok (zdrop (seg_size w) (buf w))) by (by apply Forall_drop).
  unfold truncate_first_segment. destruct (Z.leb_spec (seg_size w) (page_start w)) as [Hge|Hlt].
  - split; simpl; unfold sat_sub; auto; try lia.
    + split; [lia|]. rewrite Zminus_mod, Hm, Hsm. done.
    + intros H. specialize (Hmg H). zlen.
    + zlen.
    + intros H1 [q Eq]. destruct (pending w) as [p|] eqn:Ep; [|done].
      destruct (Hz H1 ltac:(eauto)); [left; lia|right; apply parse_shift; [lia|done|lia]].
    + intros q. destruct (pending w) as [p|] eqn:Ep; [|done]. intros [= <-].
      replace (Z.max 0 (page_cursor w - seg_size w)) with (page_cursor w - seg_size w) by lia.
      specialize (Hst p eq_refl). apply truncate_pending; auto; lia.
  - destruct (pending w) as [p|] eqn:Ep.
    + exfalso. destruct (Hp p eq_refl) as [[H1 (l & rest & E) H3 H4 H5] _].
      specialize (Hst p eq_refl). rewrite E in H4. destruct H4 as (_ & H4 & H6).
      apply ranges_in_le in H6. unfold PAGE_SIZE in *.
      pose proof (Z.div_mod (page_start w) 8192 ltac:(lia)).
      pose proof (Z.div_mod (seg_size w) 8192 ltac:(lia)). lia.
    + split; simpl; unfold PAGE_SIZE; auto; try lia; try done; zlen.
Qed.

(** ** Rewriting a record in the buffer *)
Definition inside (rs : list (Z * Z)) (i : Z) : Prop :=
  Exists (fun r => fst r <= i < fst r + snd r) rs.

Lemma sub_app_r {A} (l : list A) a b c :
  0 <= a <= b -> b <= c -> sub l a b ++ sub l b c = sub l a c.
Proof.
  intros H1 H2. unfold sub. replace (zdrop b l) with (zdrop (b - a) (zdrop a l))
    by (rewrite zdrop_zdrop by lia; f_equal; lia).
  unfold ztake, zdrop at 2. rewrite take_take_drop. f_equal. lia.
Qed.

Lemma scatter_spec rs : forall b new lo cur,
  0 <= lo -> ranges_in lo rs (zlen b) -> 0 <= cur -> cur + ranges_len rs = zlen new ->
  zlen (scatter b rs new cur) = zlen b /\
  gather (scatter b rs new cur) rs = sub new cur (zlen new) /\
  (forall i, ~ inside rs i -> zget (scatter b rs new cur) i = zget b i) /\
  (forall x y, 0 <= x -> y <= lo -> sub (scatter b rs new cur) x y = sub b x y).
Proof.
  induction rs as [|[o l] rs IH]; intros b new lo cur H0 HR Hc Hs.
  - change (cur + 0 = zlen new) in Hs. simpl. split; [done|]. split; [|done].
    unfold sub, ztake. rewrite Z2Nat.nonpos by lia. done.
  - destruct HR as (H1 & H2 & H3). pose proof (ranges_in_le _ _ _ H3).
    pose proof (ranges_len_nonneg _ _ _ H3). change (cur + (l + ranges_len rs) = zlen new) in Hs.
    assert (Hl : zlen (sub new cur (cur + l)) = l) by (rewrite zlen_sub; lia).
    assert (Hb' : zlen (put b o (sub new cur (cur + l))) = zlen b) by (apply zlen_put; lia).
    cbn [scatter]. destruct (IH (put b o (sub new cur (cur + l))) new (o + l) (cur + l))
      as (E1 & E2 & E3 & E4); [lia|by rewrite Hb'|lia|lia|].
    set (b' := scatter _ _ _ _) in *. split; [lia|]. split; [|split].
    + change (range_bytes b' (o, l) ++ gather b' rs = sub new cur (zlen new)). rewrite E2.
      unfold range_bytes. simpl. rewrite E4 by lia.
      replace (o + l) with (o + zlen (sub new cur (cur + l))) by lia.
      rewrite sub_put_same by lia. apply sub_app_r; lia.
    + intros i Hi. rewrite E3 by (intros Hx; apply Hi; by right). apply zget_put_out; try lia.
      destruct (Z.lt_ge_cases i o); [lia|]. right. destruct (Z.le_gt_cases (o + l) i); [lia|].
      exfalso. apply Hi. left. simpl. lia.
    + intros x y Hx Hy. rewrite E4 by lia. apply sub_put_below; lia.
Qed.

(** ** Walkers the pump can reach *)
Inductive reachable : StreamingWalker -> Prop :=
| r_new n : 0 < n -> n mod PAGE_SIZE = 0 -> reachable (new n)
| r_extend w bytes : reachable w -> bytes_ok bytes -> reachable (extend w bytes)
| r_next w w' o : reachable w -> try_next w = Some (w', o) -> reachable w'
| r_flush w : reachable w -> zlen (buf w) < 2 ^ 64 -> first_segment_ready w = true ->
    reachable (truncate_first_segment w)
| r_fork w len : reachable w -> 0 <= len -> reachable (truncate_to w len).

Lemma run_seg fuel : forall w w' o, run fuel w = Some (w', o) -> seg_size w' = seg_size w.
Proof.
  assert (HR : forall w, match try_read_record w with
    | Ok (w', _) => seg_size w' = seg_size w | Err (w', _) => seg_size w' = seg_size w end).
  { intros w. unfold try_read_record. repeat case_match; simplify_eq; done. }
  assert (HB : forall w w' o, step_body w = (w', o) -> seg_size w' = seg_size w).
  { intros w w' o. unfold step_body, step_known, step_header, step_fresh. specialize (HR w).
    repeat case_match; intros; simplify_eq; done. }
  assert (HS : forall w w' o, step w = (w', o) -> seg_size w' = seg_size w).
  { intros w w' o. unfold step. destruct (_ =? _); [|apply HB].
    destruct (try_read_page_header w) as [[w1 [|]]|e] eqn:E; intros H.
    - rewrite (HB _ _ _ H). unfold try_read_page_header in E. repeat case_match; simplify_eq; done.
    - simplify_eq. unfold try_read_page_header in E. repeat case_match; simplify_eq; done.
    - by simplify_eq. }
  induction fuel as [|fuel IH]; intros w w' o; simpl; [done|].
  destruct (step w) as [w1 o1] eqn:E. apply HS in E.
  destruct o1; intros H; simplify_eq; auto. apply IH in H. congruence.
Qed.

Lemma reachable_wf w :
  reachable w -> WF w /\ 0 < seg_size w /\ seg_size w mod PAGE_SIZE = 0.
Proof.
  induction 1 as [n Hn Hm|w bytes _ (H1 & H2 & H3) HB|w w' o _ (H1 & H2 & H3) E
                 |w _ (H1 & H2 & H3) Hmax HR|w len _ (H1 & H2 & H3) HL].
  - split; [apply new_wf|done].
  - split; [by apply extend_wf|done].
  - destruct (try_next_ok w H1) as (w1 & o1 & E1 & _ & _ & HW1 & _). rewrite E in E1.
    injection E1 as -> ->. unfold try_next in E. destruct (done_in_segment w).
    + by simplify_eq.
    + rewrite (run_seg _ _ _ _ E). auto.
  - split; [by apply truncate_first_wf|]. unfold truncate_first_segment.
    destruct (_ <=? _); done.
  - split; [by apply truncate_to_wf|]. unfold truncate_to. destruct (_ <? _); done.
Qed.


(** Scattering a replacement of the same length back over a yielded
    record's ranges makes the record read as the replacement, keeps the
    buffer's length, and changes no byte outside the ranges: page headers and
    neighbouring records survive. *)
Theorem rewrite_record_spec w r new_logical :
  CompletedOk (buf w) r -> zlen new_logical = ranges_len (byte_ranges r) ->
  let b := buf (rewrite_record w (byte_ranges r) new_logical) in
  zlen b = zlen (buf w) /\ gather b (byte_ranges r) = new_logical /\
  forall i, ~ inside (byte_ranges r) i -> zget b i = zget (buf w) i.
Proof.
  intros [H1 H2 H3 H4 H5 H6] Hl. simpl.
  destruct (scatter_spec (byte_ranges r) (buf w) new_logical (start_offset r) 0)
    as (E1 & E2 & E3 & _); [done|done|lia|lia|].
  split; [done|]. split; [|done]. rewrite E2. apply sub_all; [done|done].
Qed.

(** A page holding one 32-byte record, and the walker that has it. *)
Definition demo_bytes : list Z :=
  [0x10; 0xD1; 0; 0] ++ zrep 20 0 ++ [32; 0; 0; 0] ++ zrep 28 5.

Definition demo_walker : StreamingWalker := extend (new PAGE_SIZE) demo_bytes.

Definition demo_rec : CompletedRecord := MkCompleted None [(24, 32)] 24 0xD110.


Lemma rewrite_record_spec_witness :
  gather (buf (rewrite_record demo_walker (byte_ranges demo_rec) (zrep 32 9))) [(24, 32)] = zrep 32 9.
Proof.
  destruct (rewrite_record_spec demo_walker demo_rec (zrep 32 9)) as (_ & E & _).
  - split; try (vm_compute; congruence); [exists 32, []; reflexivity|].
    split; [vm_compute; congruence|]. split; [reflexivity|vm_compute; congruence].
  - reflexivity.
  - exact E.
Defined.

(** ** A fork on a page boundary

    [truncate_to] keeps the parse state of a page that starts exactly at the
    cut, so the descendant's page header is read as a record. *)
Definition full_page : list Z :=
  [0x10; 0xD1; 0; 0] ++ zrep 20 0 ++ [0xE8; 0x1F; 0; 0] ++ zrep 8164 5.

Definition next_page : list Z := [0x10; 0xD1; 0; 0] ++ zrep 20 0 ++ [32; 0; 0; 0] ++ zrep 28 5.

(** Drain a walker: the start offsets yielded and where it stopped. *)
Fixpoint starts (fuel : nat) (w : StreamingWalker) : list Z * StreamingWalker :=
  match fuel with
  | O => ([], w)
  | S fuel =>
      match try_next w with
      | Some (w', Yield r) => let '(l, w'') := starts fuel w' in (start_offset r :: l, w'')
      | Some (w', _) => ([], w')
      | None => ([], w)
      end
  end.

(** A fork exactly on a page boundary loses the record stream.  The walker
    has read a page and the header of the next one when the branch is cut at
    their boundary; fed the descendant's next page it waits for a record of
    53520 bytes starting at the page header, where a fresh walker given the
    same bytes yields the page's record. *)
Theorem fork_on_page_boundary :
  let w := snd (starts 3 (extend (new (2 * PAGE_SIZE)) (full_page ++ ztake 28 next_page))) in
  let forked := snd (starts 3 (extend (truncate_to w PAGE_SIZE) next_page)) in
  fst (starts 3 (extend (truncate_to w PAGE_SIZE) next_page)) = [] /\
  page_cursor forked = PAGE_SIZE /\ u32_at (buf forked) (page_cursor forked) = 53520 /\
  fst (starts 3 (extend (new (2 * PAGE_SIZE)) (full_page ++ next_page))) = [24; PAGE_SIZE + 24].
Proof. vm_compute. repeat split; reflexivity. Qed.

End Walker.
