(* ===== verification/WalkerChunks.v ===== *)
(** * The walker does not depend on how the socket cuts the stream

    Feeding bytes in several chunks, draining the walker after each, yields
    the records that feeding them at once yields.  Ranges may be cut
    differently (a record waiting for bytes records what it has so far), so
    records are compared by the offsets they cover. *)
From S2P Require Import Prelude WalPage Walker.
Import WalPage Walker.

Module Chunks.

(** The offsets a range list covers, in order. *)
Definition offs (rs : list (Z * Z)) : list Z :=
  concat (map (fun r => seqZ (fst r) (snd r)) rs).

Definition pending_eq (p q : Pending) : Prop :=
  p_start_offset p = p_start_offset q /\ p_total_len p = p_total_len q /\
  offs (p_byte_ranges p) = offs (p_byte_ranges q) /\
  p_accumulated_len p = p_accumulated_len q /\ p_page_magic p = p_page_magic q.

Definition walker_eq (w v : StreamingWalker) : Prop :=
  option_Forall2 pending_eq (pending w) (pending v) /\
  set_pending w None = set_pending v None.

(** Same record: same start and page version, same bytes, same offsets. *)
Definition record_eq (b : list Z) (r s : CompletedRecord) : Prop :=
  start_offset r = start_offset s /\ rec_magic r = rec_magic s /\
  logical_bytes r b = logical_bytes s b /\ offs (byte_ranges r) = offs (byte_ranges s).

Inductive outcome_eq (b : list Z) : outcome -> outcome -> Prop :=
| oe_again : outcome_eq b Again Again
| oe_wait : outcome_eq b Wait Wait
| oe_yield r s : record_eq b r s -> outcome_eq b (Yield r) (Yield s)
| oe_fail e : outcome_eq b (Fail e) (Fail e).

#[global] Instance pending_eq_equiv : Equivalence pending_eq.
Proof.
  split; [done| |].
  - intros p q (H1 & H2 & H3 & H4 & H5). repeat split; congruence.
  - intros p q r (A1 & A2 & A3 & A4 & A5) (B1 & B2 & B3 & B4 & B5). repeat split; congruence.
Qed.

#[global] Instance walker_eq_equiv : Equivalence walker_eq.
Proof.
  split.
  - intros w. split; [apply option_Forall2_refl, _|done].
  - intros w v [H1 H2]. split; [|done]. destruct H1; constructor. by symmetry.
  - intros w v u [H1 H2] [H3 H4]. split; [|congruence].
    destruct H1 as [p q Hpq|]; inversion H3; subst; constructor. by etransitivity.
Qed.

Lemma offs_app a b : offs (a ++ b) = offs a ++ offs b.
Proof. unfold offs. by rewrite map_app, concat_app. Qed.

(** A gathered record is a function of the offsets. *)
Lemma range_bytes_offs b o l :
  0 <= o -> 0 <= l -> o + l <= zlen b -> range_bytes b (o, l) = map (byte_at b) (seqZ o l).
Proof.
  intros Ho Hl Hb. apply list_eq. intros i. unfold range_bytes, sub, ztake, zdrop. simpl.
  rewrite list_lookup_fmap. destruct (decide (Z.of_nat i < l)) as [Hi|Hi].
  - rewrite lookup_take_lt by lia. rewrite lookup_drop. rewrite lookup_seqZ_lt by lia. simpl.
    unfold byte_at, zget. rewrite (proj2 (Z.leb_le _ _)) by lia.
    replace (Z.to_nat (o + Z.of_nat i)) with (Z.to_nat o + i)%nat by lia.
    destruct (lookup_lt_is_Some_2 b (Z.to_nat o + i)) as [x Hx]; [unfold zlen in Hb; lia|].
    by rewrite Hx.
  - rewrite lookup_take_ge by lia. rewrite lookup_seqZ_ge by lia. done.
Qed.

Lemma gather_offs b rs lo :
  0 <= lo -> ranges_in lo rs (zlen b) -> gather b rs = map (byte_at b) (offs rs).
Proof.
  unfold gather, offs. revert lo. induction rs as [|[o l] rs IH]; intros lo H0 H; [done|].
  destruct H as (H1 & H2 & H3). pose proof (ranges_in_le _ _ _ H3). simpl. rewrite map_app. f_equal.
  - apply range_bytes_offs; lia.
  - apply (IH (o + l)); [lia|done].
Qed.

(** Two takes in a row cover what one take does. *)
Lemma absorb_twice p pc n m :
  0 <= n -> 0 <= m -> pending_eq (absorb (absorb p pc n) (pc + n) m) (absorb p pc (n + m)).
Proof.
  intros Hn Hm. unfold absorb.
  destruct (Z.ltb_spec 0 n), (Z.ltb_spec 0 m), (Z.ltb_spec 0 (n + m)); try lia; simpl.
  - repeat split; simpl; [|lia]. rewrite !offs_app, <- app_assoc. f_equal.
    unfold offs. simpl. rewrite !app_nil_r. symmetry. apply seqZ_app; lia.
  - replace m with 0 by lia. by rewrite Z.add_0_r.
  - replace n with 0 by lia. by rewrite Z.add_0_r, Z.add_0_l.
  - done.
Qed.

Lemma absorb_cong p q pc n : pending_eq p q -> pending_eq (absorb p pc n) (absorb q pc n).
Proof.
  intros (H1 & H2 & H3 & H4 & H5). unfold absorb. destruct (0 <? n); [|done].
  repeat split; simpl; auto; [|lia]. rewrite !offs_app. congruence.
Qed.

Lemma loaded_cong p q : pending_eq p q -> fully_loaded p = fully_loaded q.
Proof. intros (H1 & H2 & H3 & H4 & H5). unfold fully_loaded. by rewrite H2, H4. Qed.

Lemma complete_cong b pc qc p q :
  PendingAt b pc p -> PendingAt b qc q -> pending_eq p q -> record_eq b (complete p b) (complete q b).
Proof.
  intros HP HQ (H1 & H2 & H3 & H4 & H5). repeat split; simpl; auto.
  change (gather b (p_byte_ranges p) = gather b (p_byte_ranges q)).
  rewrite (gather_offs b _ (p_start_offset p)) by (apply HP).
  rewrite (gather_offs b _ (p_start_offset q)) by (apply HQ). by rewrite H3.
Qed.

Lemma resolve_cong b pc qc p q :
  PendingAt b pc p -> PendingAt b qc q -> pending_eq p q ->
  pending_eq (try_resolve_total_len p b) (try_resolve_total_len q b).
Proof.
  intros HP HQ E. pose proof E as (H1 & H2 & H3 & H4 & H5). unfold try_resolve_total_len.
  rewrite <- H2, <- H4. destruct (is_some (p_total_len p)); [done|]. simpl.
  destruct (Z.ltb_spec (p_accumulated_len p) X_LOG_RECORD_HEADER_SIZE); [done|].
  unfold X_LOG_RECORD_HEADER_SIZE in *.
  repeat split; simpl; auto. do 2 f_equal.
  rewrite (read_hdr_spec b (p_byte_ranges p) (p_start_offset p) 0 []);
    [|apply HP|apply HP|lia|done|done|rewrite <- (po_acc _ _ _ HP); lia].
  rewrite (read_hdr_spec b (p_byte_ranges q) (p_start_offset q) 0 []);
    [|apply HQ|apply HQ|lia|done|done|rewrite <- (po_acc _ _ _ HQ); lia].
  rewrite (gather_offs b _ (p_start_offset p)) by (apply HP).
  rewrite (gather_offs b _ (p_start_offset q)) by (apply HQ). by rewrite H3.
Qed.

Definition result_eq (b : list Z) (x y : StreamingWalker * outcome) : Prop :=
  walker_eq (fst x) (fst y) /\ outcome_eq b (snd x) (snd y).

Lemma record_eq_refl b r : record_eq b r r.
Proof. done. Qed.

Lemma result_eq_refl b x : result_eq b x x.
Proof. destruct x as [w []]; split; simpl; try done; constructor. by apply record_eq_refl. Qed.

Lemma walker_eq_pending w p q : pending_eq p q -> walker_eq (set_pending w (Some p)) (set_pending w (Some q)).
Proof. intros H. split; [by constructor|done]. Qed.

(** The turn on a record of known length, from its take on. *)
Lemma finish_known_cong w p q b :
  PendingAt b (page_cursor w) p -> PendingAt b (page_cursor w) q -> pending_eq p q ->
  let fin p :=
    let w' := set_pending w (Some p) in
    if fully_loaded p then (set_pending w' None, Yield (complete p b))
    else if page_start w + PAGE_SIZE <=? page_cursor w' then (advance_to_next_page w', Again)
    else (w', Wait) in
  result_eq b (fin p) (fin q).
Proof.
  intros HP HQ E fin. unfold fin. rewrite (loaded_cong p q E).
  destruct (fully_loaded q).
  - split; [done|]. constructor. by eapply complete_cong.
  - cbn [page_cursor set_pending]. destruct (_ <=? _).
    + split; [|constructor]. split; [by constructor|done].
    + split; [by apply walker_eq_pending|constructor].
Qed.

Lemma step_known_cong w p q t :
  WF w -> WF (set_pending w (Some q)) -> Headed w -> pending w = Some p -> pending_eq p q ->
  p_total_len p = Some t ->
  result_eq (buf w) (step_known w p t) (step_known (set_pending w (Some q)) q t).
Proof.
  intros HW HV HH Hp E Ht. pose proof E as (_ & E2 & _ & E4 & _).
  unfold step_known. rewrite <- E4.
  assert (Hu : 0 <= usub 64 t (p_accumulated_len p)) by (apply wrap_fits; lia).
  destruct (take_now_bounds w _ HW Hu) as ([Hn _] & Hpage & Hbuf).
  change (take_now (set_pending w (Some q))) with (take_now w).
  set (n := take_now w _) in *.
  destruct (wf_pending _ HW _ Hp) as [HP _]. destruct (wf_pending _ HV q eq_refl) as [HQ _].
  destruct (absorb_at _ _ _ n HP Hn Hbuf) as [HP' _].
  destruct (absorb_at _ _ _ n HQ Hn Hbuf) as [HQ' _].
  exact (finish_known_cong (set_page_cursor w (page_cursor w + n)) _ _ (buf w) HP' HQ'
    (absorb_cong _ _ _ _ E)).
Qed.

Lemma step_header_cong w p q :
  WF w -> WF (set_pending w (Some q)) -> Headed w -> pending w = Some p -> pending_eq p q ->
  p_total_len p = None ->
  result_eq (buf w) (step_header w p) (step_header (set_pending w (Some q)) q).
Proof.
  intros HW HV HH Hp E Ht. pose proof E as (_ & E2 & _ & E4 & _).
  unfold step_header. rewrite <- E4.
  assert (Hu : 0 <= usub 64 X_LOG_RECORD_HEADER_SIZE (p_accumulated_len p)) by (apply wrap_fits; lia).
  destruct (take_now_bounds w _ HW Hu) as ([Hn _] & Hpage & Hbuf).
  change (take_now (set_pending w (Some q))) with (take_now w).
  set (n := take_now w _) in *. cbn [buf set_pending page_cursor].
  destruct (wf_pending _ HW _ Hp) as [HP _]. destruct (wf_pending _ HV q eq_refl) as [HQ _].
  destruct (absorb_at _ _ _ n HP Hn Hbuf) as [HP' _].
  destruct (absorb_at _ _ _ n HQ Hn Hbuf) as [HQ' _].
  pose proof (absorb_cong _ _ (page_cursor w) n E) as EA.
  assert (RA : forall x pc, PendingAt (buf w) pc x -> PendingAt (buf w) pc (try_resolve_total_len x (buf w))).
  { intros x pc [H1 H2 H3 H4 H5]. unfold try_resolve_total_len. destruct (_ || _); by split. }
  set (p' := if 0 <? n then try_resolve_total_len (absorb p _ n) _ else absorb p _ n).
  set (q' := if 0 <? n then try_resolve_total_len (absorb q _ n) _ else absorb q _ n).
  assert (E' : pending_eq p' q' /\ PendingAt (buf w) (page_cursor w + n) p' /\
    PendingAt (buf w) (page_cursor w + n) q').
  { unfold p', q'. destruct (0 <? n); [|done]. split; [by eapply resolve_cong|auto]. }
  destruct E' as (E' & HP'' & HQ''). rewrite (loaded_cong _ _ E').
  destruct (fully_loaded q').
  - split; [done|]. constructor. by eapply complete_cong.
  - destruct (n =? 0); (split; [|constructor]).
    + exact (walker_eq_pending (set_page_cursor w (page_cursor w + n)) _ _ E').
    + exact (walker_eq_pending (set_page_cursor w (page_cursor w + n)) _ _ E').
Qed.

Lemma header_cong w p q w1 b :
  pending w = Some p -> try_read_page_header w = Ok (w1, b) ->
  try_read_page_header (set_pending w (Some q)) = Ok (set_pending w1 (Some q), b) /\
  pending w1 = Some p /\ buf w1 = buf w.
Proof.
  intros Hp. unfold try_read_page_header. cbn [buf set_pending page_start pending].
  rewrite Hp. simpl. repeat case_match; intros; simplify_eq/=; done.
Qed.

Lemma walker_eq_inv w v :
  walker_eq w v ->
  w = v \/ exists p q, pending w = Some p /\ pending_eq p q /\ v = set_pending w (Some q).
Proof.
  intros [HP HE]. destruct w as [n b c ps mg ds pc pd d], v as [n' b' c' ps' mg' ds' pc' pd' d'].
  unfold set_pending in *. simpl in *. injection HE as -> -> -> -> -> -> -> ->.
  inversion HP as [p q Hpq|]; subst; [right; eauto|by left].
Qed.

Lemma step_cong w v : WF w -> WF v -> walker_eq w v -> result_eq (buf w) (step w) (step v).
Proof.
  intros HW HV [->|(p & q & Hp & E & ->)]%walker_eq_inv; [apply result_eq_refl|].
  assert (HB : forall w, WF w -> WF (set_pending w (Some q)) -> Headed w -> pending w = Some p ->
    result_eq (buf w) (step_body w) (step_body (set_pending w (Some q)))).
  { clear w HW HV Hp. intros w HW HV HH Hp. unfold step_body. rewrite Hp. cbn [pending set_pending].
    pose proof E as (_ & Et & _). rewrite <- Et. destruct (p_total_len p) eqn:Etp.
    - by apply step_known_cong.
    - by apply step_header_cong. }
  unfold step. cbn [page_magic set_pending]. destruct (Z.eqb_spec (page_magic w) 0) as [Hm|Hm].
  2:{ apply HB; auto. by left. }
  destruct (try_read_page_header w) as [[w1 b]|e] eqn:EH.
  - destruct (header_cong w p q w1 b Hp EH) as (EH' & Hp1 & Hb1). rewrite EH'.
    destruct (page_header_ok _ _ _ HW Hm EH) as (_ & _ & _ & Ht & Hf).
    destruct (page_header_ok _ _ _ HV Hm EH') as (_ & _ & _ & Ht' & _).
    destruct b.
    + rewrite <- Hb1. apply HB; auto; [by apply Ht|by apply Ht'|by apply Ht].
    + split; [|constructor]. simpl. destruct w1. simpl in *. subst. split; [by constructor|done].
  - unfold try_read_page_header in *. cbn [buf page_start set_pending].
    destruct (parse_page_header (buf w) (page_start w)) as [[]|]; simplify_eq.
    split; [|constructor]. split; [|done]. simpl. rewrite Hp. by constructor.
Qed.

(** ** Draining: one call of [try_next] after another

    [Drain w rs e w'] is the loop of [WalStream::push] on a walker whose
    pages are sane: a page of zeros ends the data, so it carries no record's
    continuation and nothing but zeros. *)
Definition sane (w : StreamingWalker) : Prop :=
  page_magic w = 0 -> parse_page_header (buf w) (page_start w) = Ok ZeroPage ->
  pending w = None /\ all_zero (sub (buf w) (page_cursor w) (page_start w + PAGE_SIZE)) = true.

Inductive Drain : StreamingWalker -> list CompletedRecord -> option WalkError -> StreamingWalker -> Prop :=
| d_done w : done_in_segment w = true -> Drain w [] None w
| d_wait w w' : done_in_segment w = false -> sane w -> step w = (w', Wait) -> Drain w [] None w'
| d_fail w w' e : done_in_segment w = false -> sane w -> step w = (w', Fail e) ->
    Drain w [] (Some e) w'
| d_yield w w1 r rs e w' : done_in_segment w = false -> sane w -> step w = (w1, Yield r) ->
    Drain w1 rs e w' -> Drain w (r :: rs) e w'
| d_again w w1 rs e w' : done_in_segment w = false -> sane w -> step w = (w1, Again) ->
    Drain w1 rs e w' -> Drain w rs e w'.

Lemma sane_cong w v : walker_eq w v -> sane w -> sane v.
Proof.
  intros [->|(p & q & Hp & E & ->)]%walker_eq_inv; [done|]. intros HS H1 H2.
  destruct (HS H1 H2) as [H3 _]. congruence.
Qed.

Lemma drain_cong w rs e w' :
  Drain w rs e w' -> forall v, WF w -> WF v -> walker_eq w v ->
  exists rs' v', Drain v rs' e v' /\ Forall2 (record_eq (buf w)) rs rs' /\ walker_eq w' v'.
Proof.
  induction 1 as [w Hd|w w' Hd HS E|w w' e Hd HS E|w w1 r rs e w' Hd HS E _ IH|w w1 rs e w' Hd HS E _ IH];
    intros v HW HV Hv;
    assert (Ed : done_in_segment v = done_in_segment w)
      by (destruct (walker_eq_inv _ _ Hv) as [->|(? & ? & _ & _ & ->)]; done);
    pose proof (sane_cong _ _ Hv) as HSv.
  1: { exists [], v. split; [constructor; congruence|]. split; [constructor|done]. }
  all: pose proof (step_cong w v HW HV Hv) as [HA HO]; rewrite E in HA, HO;
    destruct (step v) as [v1 o] eqn:Ev; simpl in HA, HO; inversion HO; subst; rewrite <- Ed in Hd.
  - exists [], v1. split; [by apply d_wait; auto|]. split; [constructor|done].
  - exists [], v1. split; [by apply d_fail; auto|]. split; [constructor|done].
  - destruct (step_ok _ _ _ HW E) as [Hb HW1 _ _]. destruct (step_ok _ _ _ HV Ev) as [_ HV1 _ _].
    destruct (IH v1 HW1 HV1 HA) as (rs' & v' & HD & HF & HE).
    exists (s :: rs'), v'. split; [by eapply d_yield; auto|]. rewrite Hb in HF. auto.
  - destruct (step_ok _ _ _ HW E) as [Hb HW1 _ _]. destruct (step_ok _ _ _ HV Ev) as [_ HV1 _ _].
    destruct (IH v1 HW1 HV1 HA) as (rs' & v' & HD & HF & HE).
    exists rs', v'. split; [by eapply d_again; auto|]. rewrite Hb in HF. auto.
Qed.

(** ** One turn with and without the bytes still to come *)

(** [Same]: later bytes do not change the turn.  [Starved]: the turn ran out
    of bytes, and continuing after they arrive ends like having had them. *)
Definition Same (f : StreamingWalker -> StreamingWalker * outcome) (w : StreamingWalker)
    (ext : list Z) (w1 : StreamingWalker) (o : outcome) : Prop :=
  f (extend w ext) = (extend w1 ext, o) /\ (o = Wait -> done_in_segment w1 = true).

Definition Starved (f : StreamingWalker -> StreamingWalker * outcome) (w : StreamingWalker)
    (ext : list Z) (w1 : StreamingWalker) (o : outcome) : Prop :=
  done_in_segment w1 = false /\ page_magic w1 <> 0 /\
  (o = Wait \/ (o = Again /\ f w1 = (w1, Wait))) /\
  result_eq (buf w ++ ext) (f (extend w1 ext)) (f (extend w ext)).

Lemma take_now_ext w ext want n m :
  WF w -> 0 <= want -> n = take_now w want -> m = take_now (extend w ext) want ->
  0 <= n <= m /\ m <= want /\
  take_now (extend (set_page_cursor w (page_cursor w + n)) ext) (want - n) = m - n /\
  (n = want \/ page_cursor w + n = page_start w + PAGE_SIZE -> m = n) /\
  (n < m -> 0 < n -> page_cursor w + n = zlen (buf w)) /\
  (0 < m -> page_cursor w + m <= zlen (buf w ++ ext)).
Proof.
  intros HW H0 -> ->. pose proof (wf_pc _ HW). pose proof (zlen_nonneg ext).
  unfold take_now, sat_sub. simpl. rewrite zlen_app.
  generalize dependent (zlen ext). generalize dependent (zlen (buf w)).
  generalize dependent (page_cursor w). generalize dependent (page_start w).
  unfold PAGE_SIZE. intros ps pc Hpc L E HE.
  split; [lia|]. split; [lia|]. split; [lia|]. split; [lia|]. split; lia.
Qed.

Lemma set_pending_same w p : pending w = Some p -> set_pending (set_page_cursor w (page_cursor w + 0)) (Some p) = w.
Proof. intros H. destruct w. unfold set_pending, set_page_cursor. simpl in *. subst. by rewrite Z.add_0_r. Qed.

Lemma complete_app b ext pc p : PendingAt b pc p -> complete p (b ++ ext) = complete p b.
Proof.
  intros [H1 H2 H3 H4 H5]. unfold complete, materialise. do 2 f_equal.
  exact (gather_app b ext (p_start_offset p) _ H1 H3).
Qed.

Lemma pending_at_app b ext pc p : PendingAt b pc p -> PendingAt (b ++ ext) pc p.
Proof.
  intros [H1 H2 H3 H4 H5]. split; auto. eapply ranges_in_weaken; [exact H3|lia|zlen].
Qed.

Lemma step_known_ext w p t ext w1 o :
  WF w -> page_magic w <> 0 -> done_in_segment w = false -> pending w = Some p ->
  p_total_len p = Some t -> step_known w p t = (w1, o) ->
  Same (fun w => step_known w p t) w ext w1 o \/
  (o = Wait /\ done_in_segment w1 = false /\ page_magic w1 <> 0 /\
   exists p1, pending w1 = Some p1 /\ p_total_len p1 = Some t /\
   result_eq (buf w ++ ext) (step_known (extend w1 ext) p1 t) (step_known (extend w ext) p t)).
Proof.
  intros HW Hmg Hd Hp Ht. unfold step_known. cbv zeta.
  assert (Hu : fits 64 (usub 64 t (p_accumulated_len p))) by (apply wrap_fits; lia).
  set (r := usub 64 t (p_accumulated_len p)) in *.
  destruct (take_now_bounds w r HW ltac:(apply Hu)) as ([Hn _] & Hpage & Hbuf).
  destruct (take_now_ext w ext r _ _ HW ltac:(apply Hu) eq_refl eq_refl)
    as ([_ Hnm] & Hmr & Htk & Hsame & _ & Hmb).
  set (n := take_now w r) in *. set (m := take_now (extend w ext) r) in *.
  destruct (wf_pending _ HW _ Hp) as [HP HT].
  destruct (absorb_at _ _ _ n HP Hn Hbuf) as (HP' & Ea & Et). rewrite Ht in Et.
  destruct (fully_loaded (absorb p (page_cursor w) n)) eqn:EF.
  - intros [= <- <-]. left. split; [|done].
    assert (m = n) as Emn.
    { apply Hsame. left. unfold fully_loaded in EF. rewrite Et, Ea in EF. apply Z.eqb_eq in EF.
      assert (r <= n); [|lia]. unfold r, usub. replace (t - p_accumulated_len p) with n by lia.
      apply wrap_le; lia. }
    unfold step_known. cbv zeta. fold r. fold m. rewrite Emn.
    cbn [extend buf page_start page_cursor]. rewrite EF.
    f_equal. f_equal. by apply (complete_app _ ext) in HP'.
  - cbn [page_cursor set_pending set_page_cursor].
    destruct (Z.leb_spec (page_start w + PAGE_SIZE) (page_cursor w + n)) as [Hfull|Hpart];
      intros [= <- <-].
    + left. split; [|done]. assert (m = n) as Emn by (apply Hsame; lia).
      unfold step_known. cbv zeta. fold r. fold m. rewrite Emn.
      cbn [extend buf page_start page_cursor set_pending set_page_cursor]. rewrite EF.
      rewrite (proj2 (Z.leb_le _ _)) by lia. done.
    + right. split; [done|]. split; [done|]. split; [done|].
      exists (absorb p (page_cursor w) n). split; [done|]. split; [done|].
      cbn [extend set_pending set_page_cursor page_cursor buf page_start].
      assert (Er : usub 64 t (p_accumulated_len (absorb p (page_cursor w) n)) = r - n).
      { rewrite Ea. unfold r, usub. rewrite Z.sub_add_distr. unfold wrap at 1.
        rewrite Zminus_mod. fold (wrap 64 (t - p_accumulated_len p)).
        fold (usub 64 t (p_accumulated_len p)). fold r.
        rewrite <- Zminus_mod_idemp_r. unfold fits in Hu.
        rewrite Z.mod_mod by lia. rewrite (Z.mod_small n) by lia. apply Z.mod_small. lia. }
      destruct (absorb_at (buf w ++ ext) (page_cursor w) p m) as (HPm & _).
      { by apply pending_at_app. } { lia. } { done. }
      destruct (absorb_at (buf w ++ ext) (page_cursor w + n) (absorb p (page_cursor w) n) (m - n))
        as (HPnm & _).
      { by apply pending_at_app. } { lia. } { lia. }
      unfold step_known. cbv zeta. rewrite Er.
      change (take_now (extend (set_pending (set_page_cursor w (page_cursor w + n)) (Some (absorb p (page_cursor w) n))) ext) (r - n))
        with (take_now (extend (set_page_cursor w (page_cursor w + n)) ext) (r - n)).
      rewrite Htk. fold r. fold m.
      cbn [extend set_pending set_page_cursor page_cursor buf page_start].
      replace (page_cursor w + n + (m - n)) with (page_cursor w + m) by lia.
      refine (finish_known_cong (set_page_cursor (extend w ext) (page_cursor w + m)) _ _ _ _ HPm _).
      * cbn [page_cursor set_page_cursor].
        by replace (page_cursor w + n + (m - n)) with (page_cursor w + m) in HPnm by lia.
      * replace m with (n + (m - n)) at 2 by lia. apply absorb_twice; lia.
Qed.

Lemma resolve_app b ext pc p :
  PendingAt b pc p -> try_resolve_total_len p (b ++ ext) = try_resolve_total_len p b.
Proof.
  intros HP. pose proof HP as [H1 H2 H3 H4 H5]. unfold try_resolve_total_len.
  destruct (is_some _); [done|]. simpl.
  destruct (Z.ltb_spec (p_accumulated_len p) X_LOG_RECORD_HEADER_SIZE); [done|].
  unfold X_LOG_RECORD_HEADER_SIZE in *. do 3 f_equal.
  pose proof (pending_at_app b ext pc p HP) as [_ _ H3' _ _].
  rewrite (read_hdr_spec (b ++ ext) _ (p_start_offset p) 0 []) by (auto; lia).
  rewrite (read_hdr_spec b _ (p_start_offset p) 0 []) by (auto; lia).
  by rewrite (gather_app b ext (p_start_offset p)).
Qed.

Lemma resolve_at b b' pc p : PendingAt b pc p -> PendingAt b pc (try_resolve_total_len p b').
Proof. intros [H1 H2 H3 H4 H5]. unfold try_resolve_total_len. destruct (_ || _); by split. Qed.

(** The turn on a straddling header, after a take that got bytes. *)
Definition finish_header (w : StreamingWalker) (p : Pending) (b : list Z) : StreamingWalker * outcome :=
  if fully_loaded p then (set_pending (set_pending w (Some p)) None, Yield (complete p b))
  else (set_pending w (Some p), Again).

Lemma finish_header_cong w p q b :
  PendingAt b (page_cursor w) p -> PendingAt b (page_cursor w) q -> pending_eq p q ->
  result_eq b (finish_header w p b) (finish_header w q b).
Proof.
  intros HP HQ E. unfold finish_header. rewrite (loaded_cong p q E). destruct (fully_loaded q).
  - split; [done|]. constructor. by eapply complete_cong.
  - split; [by apply walker_eq_pending|constructor].
Qed.

Lemma step_header_pos w p n :
  n = take_now w (usub 64 X_LOG_RECORD_HEADER_SIZE (p_accumulated_len p)) -> 0 < n ->
  step_header w p =
    finish_header (set_page_cursor w (page_cursor w + n))
      (try_resolve_total_len (absorb p (page_cursor w) n) (buf w)) (buf w).
Proof.
  intros -> Hn. unfold step_header, finish_header. cbv zeta.
  rewrite (proj2 (Z.ltb_lt 0 _) Hn), (proj2 (Z.eqb_neq _ 0)) by lia. done.
Qed.

Lemma step_header_zero w p :
  pending w = Some p -> p_total_len p = None ->
  take_now w (usub 64 X_LOG_RECORD_HEADER_SIZE (p_accumulated_len p)) = 0 ->
  step_header w p = (w, Wait).
Proof.
  intros Hp Ht Hn. unfold step_header. cbv zeta. rewrite Hn. simpl.
  unfold absorb, fully_loaded. simpl. rewrite Ht. f_equal. by apply set_pending_same.
Qed.

Lemma step_header_ext w p ext w1 o :
  WF w -> page_magic w <> 0 -> done_in_segment w = false -> pending w = Some p ->
  p_total_len p = None -> step_header w p = (w1, o) ->
  Same (fun w => step_header w p) w ext w1 o \/
  (done_in_segment w1 = false /\ page_magic w1 <> 0 /\
   exists p1, pending w1 = Some p1 /\ p_total_len p1 = None /\
   (o = Wait \/ (o = Again /\ step_header w1 p1 = (w1, Wait))) /\
   result_eq (buf w ++ ext) (step_header (extend w1 ext) p1) (step_header (extend w ext) p)).
Proof.
  intros HW Hmg Hd Hp Ht E.
  destruct (wf_pending _ HW _ Hp) as [HP HT]. unfold TotalOk in HT. rewrite Ht in HT.
  pose proof (pending_at_pos _ _ _ HP) as Hpos.
  assert (Hu : usub 64 X_LOG_RECORD_HEADER_SIZE (p_accumulated_len p) = 24 - p_accumulated_len p)
    by (unfold usub, X_LOG_RECORD_HEADER_SIZE; apply wrap_small; unfold fits; lia).
  set (r := 24 - p_accumulated_len p) in *.
  destruct (take_now_bounds w r HW ltac:(lia)) as ([Hn _] & Hpage & Hbuf).
  destruct (take_now_ext w ext r _ _ HW ltac:(lia) eq_refl eq_refl)
    as ([_ Hnm] & Hmr & Htk & Hsame & Hend & Hmb).
  destruct (Z.eq_dec (take_now w r) 0) as [H0|H0].
  { rewrite step_header_zero in E by congruence. injection E as <- <-. right.
    split; [done|]. split; [done|]. exists p. split; [done|]. split; [done|].
    split; [by left|apply result_eq_refl]. }
  set (n := take_now w r) in *. set (m := take_now (extend w ext) r) in *.
  destruct (absorb_at _ _ _ n HP Hn Hbuf) as (HP' & Ea & Et). rewrite Ht in Et.
  rewrite (step_header_pos w p n) in E by (rewrite ?Hu; done || lia).
  assert (Hm : step_header (extend w ext) p =
    finish_header (set_page_cursor (extend w ext) (page_cursor w + m))
      (try_resolve_total_len (absorb p (page_cursor w) m) (buf w ++ ext)) (buf w ++ ext)).
  { exact (step_header_pos (extend w ext) p m ltac:(by rewrite Hu) ltac:(lia)). }
  destruct (Z.eq_dec m n) as [Emn|Hne].
  - left. split.
    + rewrite Hm, Emn, (resolve_app _ _ _ _ HP'). unfold finish_header in *.
      destruct (fully_loaded _); injection E as <- <-; [|done].
      f_equal. f_equal. apply (complete_app _ ext (page_cursor w + n)). by apply resolve_at.
    + unfold finish_header in E. destruct (fully_loaded _); by injection E as <- <-.
  - right.
    assert (Hn24 : p_accumulated_len (absorb p (page_cursor w) n) < 24) by lia.
    assert (Ers : try_resolve_total_len (absorb p (page_cursor w) n) (buf w) = absorb p (page_cursor w) n).
    { unfold try_resolve_total_len. rewrite (proj2 (Z.ltb_lt _ _)), orb_true_r; [done|].
      unfold X_LOG_RECORD_HEADER_SIZE. lia. }
    rewrite Ers in E. unfold finish_header, fully_loaded in E. rewrite Et in E.
    injection E as <- <-. split; [done|]. split; [done|].
    exists (absorb p (page_cursor w) n). split; [done|]. split; [done|].
    assert (Hu' : usub 64 X_LOG_RECORD_HEADER_SIZE
      (p_accumulated_len (absorb p (page_cursor w) n)) = r - n).
    { rewrite Ea. unfold usub, X_LOG_RECORD_HEADER_SIZE, r. rewrite wrap_small; [lia|].
      unfold fits. lia. }
    split.
    + right. split; [done|]. apply step_header_zero; [done|done|]. rewrite Hu'.
      unfold take_now, sat_sub. simpl. specialize (Hend ltac:(lia) ltac:(lia)). lia.
    + rewrite Hm. rewrite (step_header_pos _ _ (m - n)); [|by rewrite Hu'|lia].
      cbn [extend set_pending set_page_cursor page_cursor buf].
      replace (page_cursor w + n + (m - n)) with (page_cursor w + m) by lia.
      destruct (absorb_at (buf w ++ ext) (page_cursor w) p m) as (HPm & _).
      { by apply pending_at_app. } { lia. } { done. }
      destruct (absorb_at (buf w ++ ext) (page_cursor w + n) (absorb p (page_cursor w) n) (m - n))
        as (HPnm & _).
      { by apply pending_at_app. } { lia. } { lia. }
      replace (page_cursor w + n + (m - n)) with (page_cursor w + m) in HPnm by lia.
      refine (finish_header_cong (set_page_cursor (extend w ext) (page_cursor w + m)) _ _ _ _ _ _).
      * by apply resolve_at.
      * by apply resolve_at.
      * eapply resolve_cong; [exact HPnm|exact HPm|].
        replace m with (n + (m - n)) at 2 by lia. apply absorb_twice; lia.
Qed.

(** A fresh record: decided, or waiting for bytes at the aligned cursor. *)
Lemma read_record_ext w ext :
  WF w -> done_in_segment w = false ->
  match try_read_record w with
  | Ok (w', Some r) => try_read_record (extend w ext) = Ok (extend w' ext, Some r)
  | Err (w', x) => try_read_record (extend w ext) = Err (extend w' ext, x)
  | Ok (w', None) =>
      (try_read_record (extend w ext) = Ok (extend w' ext, None) /\
       (done_in_segment w' = true \/ page_start w' + PAGE_SIZE <= page_cursor w')) \/
      w' = set_page_cursor w (align_up (page_cursor w) 8)
  end.
Proof.
  intros HW Hd. unfold try_read_record. cbn [extend buf page_start page_cursor set_page_cursor].
  change X_LOG_RECORD_ALIGNMENT with 8. set (pc := align_up (page_cursor w) 8).
  assert (H0 : 0 <= pc).
  { pose proof (wf_pc _ HW). pose proof (wf_page _ HW). pose proof (align_up_8_bounds (page_cursor w)). lia. }
  destruct (Z.leb_spec (page_start w + PAGE_SIZE) pc) as [|Hin].
  { left. split; [done|]. right. simpl. lia. }
  rewrite zlen_app. unfold sat_sub, X_LOG_RECORD_HEADER_SIZE. pose proof (zlen_nonneg ext).
  destruct (Z.eqb_spec (Z.max 0 (zlen (buf w) - pc)) 0) as [|Hav]; [by right|].
  rewrite (proj2 (Z.eqb_neq (Z.max 0 (zlen (buf w) + zlen ext - pc)) 0)) by lia.
  destruct (Z.ltb_spec (page_start w + PAGE_SIZE - pc) 24) as [Hsm|Hbig].
  - destruct (Z.ltb_spec (Z.max 0 (zlen (buf w) - pc)) (page_start w + PAGE_SIZE - pc)); [by right|].
    rewrite (proj2 (Z.ltb_ge _ _)) by lia. rewrite sub_app_l by lia.
    destruct (all_zero _); left; (split; [done|]); [by left|]. right. simpl. lia.
  - destruct (Z.ltb_spec (Z.max 0 (zlen (buf w) - pc)) 4); [by right|].
    rewrite (proj2 (Z.ltb_ge (Z.max 0 (zlen (buf w) + zlen ext - pc)) 4)) by lia.
    unfold u32_at. rewrite sub_app_l by lia. fold (u32_at (buf w) pc).
    set (total := u32_at (buf w) pc).
    destruct (Z.eqb_spec total 0).
    { destruct (Z.ltb_spec (Z.min (page_start w + PAGE_SIZE - pc) (Z.max 0 (zlen (buf w) - pc)))
                 (page_start w + PAGE_SIZE - pc)); [by right|].
      rewrite (proj2 (Z.ltb_ge (Z.min _ (Z.max 0 (zlen (buf w) + zlen ext - pc))) _)) by lia.
      rewrite sub_app_l by lia.
      rewrite (Z.min_l _ (Z.max 0 (zlen (buf w) - pc))) by lia.
      rewrite (Z.min_l _ (Z.max 0 (zlen (buf w) + zlen ext - pc))) by lia.
      destruct (all_zero _); [left; split; [done|by left]|done]. }
    destruct (total <? 24); [done|].
    destruct (Z.ltb_spec (Z.max 0 (zlen (buf w) - pc)) (Z.min total (page_start w + PAGE_SIZE - pc)));
      [by right|].
    rewrite (proj2 (Z.ltb_ge (Z.max 0 (zlen (buf w) + zlen ext - pc)) _)) by lia.
    destruct (_ =? total); [done|]. left. split; [done|]. right. simpl. lia.
Qed.

Lemma read_record_align w :
  try_read_record (set_page_cursor w (align_up (page_cursor w) 8)) = try_read_record w.
Proof.
  unfold try_read_record. cbn [page_cursor set_page_cursor page_start].
  change X_LOG_RECORD_ALIGNMENT with 8.
  rewrite (align_up_8_id (align_up (page_cursor w) 8)) by apply align_up_8_mod. done.
Qed.

Lemma step_fresh_ext w ext w1 o :
  WF w -> page_magic w <> 0 -> done_in_segment w = false -> pending w = None ->
  step_fresh w = (w1, o) ->
  Same step_fresh w ext w1 o \/
  (o = Wait /\ done_in_segment w1 = false /\ page_magic w1 <> 0 /\ pending w1 = None /\
   step_fresh (extend w1 ext) = step_fresh (extend w ext)).
Proof.
  intros HW Hmg Hd Hp. unfold step_fresh at 1. pose proof (read_record_ext w ext HW Hd) as HR.
  destruct (try_read_record w) as [[w' [r|]]|[w' x]] eqn:ER.
  - intros [= <- <-]. left. split; [|done]. unfold step_fresh. by rewrite HR.
  - destruct HR as [[HR HC]| ->].
    + intros E. left. unfold Same, step_fresh. rewrite HR.
      cbn [extend done_in_segment page_start page_cursor].
      destruct (done_in_segment w') eqn:Ed; [by injection E as <- <-|].
      destruct HC as [|HC]; [done|]. rewrite (proj2 (Z.leb_le _ _)) in * by done.
      by injection E as <- <-.
    + cbn [set_page_cursor done_in_segment]. rewrite Hd.
      destruct (Z.leb_spec (page_start (set_page_cursor w (align_up (page_cursor w) 8)) + PAGE_SIZE)
        (page_cursor (set_page_cursor w (align_up (page_cursor w) 8)))) as [Hge|Hlt]; intros [= <- <-].
      * left. split; [|done]. unfold step_fresh, try_read_record.
        cbn [extend page_start page_cursor set_page_cursor] in *.
        change X_LOG_RECORD_ALIGNMENT with 8.
        rewrite (proj2 (Z.leb_le _ _) Hge). cbn [done_in_segment set_page_cursor page_start page_cursor extend].
        rewrite Hd, (proj2 (Z.leb_le _ _) Hge). done.
      * right. do 4 (split; [done|]). unfold step_fresh.
        change (extend (set_page_cursor w (align_up (page_cursor w) 8)) ext) with
          (set_page_cursor (extend w ext) (align_up (page_cursor (extend w ext)) 8)).
        by rewrite read_record_align.
  - intros [= <- <-]. left. split; [|done]. unfold step_fresh. by rewrite HR.
Qed.

Lemma step_body_ext w ext w1 o :
  WF w -> page_magic w <> 0 -> done_in_segment w = false -> step_body w = (w1, o) ->
  Same step_body w ext w1 o \/ Starved step_body w ext w1 o.
Proof.
  intros HW Hmg Hd. unfold step_body at 1. destruct (pending w) as [p|] eqn:Hp.
  - destruct (p_total_len p) as [t|] eqn:Ht; intros E.
    + destruct (step_known_ext w p t ext w1 o HW Hmg Hd Hp Ht E)
        as [[H1 H2]|(-> & H1 & H2 & p1 & H3 & H4 & H5)].
      * left. split; [|done]. unfold step_body. simpl. by rewrite Hp, Ht.
      * right. split; [done|]. split; [done|]. split; [by left|]. unfold step_body. simpl.
        by rewrite Hp, Ht, H3, H4.
    + destruct (step_header_ext w p ext w1 o HW Hmg Hd Hp Ht E)
        as [[H1 H2]|(H1 & H2 & p1 & H3 & H4 & H6 & H5)].
      * left. split; [|done]. unfold step_body. simpl. by rewrite Hp, Ht.
      * right. split; [done|]. split; [done|]. unfold step_body. simpl. rewrite Hp, Ht, H3, H4. done.
  - intros E. destruct (step_fresh_ext w ext w1 o HW Hmg Hd Hp E)
      as [[H1 H2]|(-> & H1 & H2 & H3 & H4)].
    + left. split; [|done]. unfold step_body. simpl. by rewrite Hp.
    + right. split; [done|]. split; [done|]. split; [by left|]. unfold step_body. simpl.
      rewrite Hp, H3, H4. apply result_eq_refl.
Qed.

(** *** Pages of zeros *)
Lemma all_zero_sub b x y x' y' :
  0 <= x <= x' -> y' <= y -> all_zero (sub b x y) = true -> all_zero (sub b x' y') = true.
Proof.
  intros Hx Hy. unfold all_zero. rewrite !forallb_forall. intros H v Hv. apply H. revert Hv.
  rewrite <- !list_elem_of_In. unfold sub, ztake, zdrop. intros (i & Hi)%list_elem_of_lookup.
  apply lookup_take_Some in Hi as [Hi Hlt]. rewrite lookup_drop in Hi.
  apply list_elem_of_lookup. exists (Z.to_nat x' - Z.to_nat x + i)%nat.
  apply lookup_take_Some. rewrite lookup_drop. split; [|lia].
  rewrite <- Hi. f_equal. lia.
Qed.

Lemma all_zero_app b ext x y :
  0 <= x -> all_zero (sub (b ++ ext) x y) = true -> all_zero (sub b x y) = true.
Proof.
  intros Hx. unfold all_zero. rewrite !forallb_forall. intros H v Hv. apply H. revert Hv.
  rewrite <- !list_elem_of_In. unfold sub, ztake, zdrop. intros (i & Hi)%list_elem_of_lookup.
  apply lookup_take_Some in Hi as [Hi Hlt]. rewrite lookup_drop in Hi.
  apply list_elem_of_lookup. exists i. apply lookup_take_Some. rewrite lookup_drop.
  split; [|done]. by apply lookup_app_l_Some.
Qed.

Lemma all_zero_dec l : all_zero l = true -> le_dec l = 0.
Proof.
  induction l as [|b l IH]; [done|]. simpl. intros [Hb%Z.eqb_eq Hl]%andb_true_iff.
  rewrite Hb, IH by done. done.
Qed.

Lemma step_zero_page w :
  WF w -> page_magic w = 0 -> parse_page_header (buf w) (page_start w) = Ok ZeroPage ->
  pending w = None -> all_zero (sub (buf w) (page_cursor w) (page_start w + PAGE_SIZE)) = true ->
  step w = (set_done (set_page_cursor w (align_up (page_cursor w) 8)), Wait).
Proof.
  intros HW Hm Hz Hp HA. unfold step. rewrite Hm. simpl. unfold try_read_page_header. rewrite Hz.
  unfold step_body. cbn [pending set_done]. rewrite Hp.
  assert (HR : try_read_record (set_done w) =
    Ok (set_done (set_page_cursor w (align_up (page_cursor w) 8)), None)).
  2:{ unfold step_fresh. by rewrite HR. }
  pose proof (wf_pc _ HW). pose proof (wf_page _ HW). pose proof (align_up_8_bounds (page_cursor w)).
  unfold try_read_record. cbn [set_done page_start page_cursor set_page_cursor buf].
  change X_LOG_RECORD_ALIGNMENT with 8. set (pc := align_up (page_cursor w) 8) in *.
  assert (HZ : forall y, y <= page_start w + PAGE_SIZE -> all_zero (sub (buf w) pc y) = true)
    by (intros y Hy; eapply all_zero_sub; [| |exact HA]; lia).
  destruct (Z.leb_spec (page_start w + PAGE_SIZE) pc); [done|].
  destruct (_ =? 0); [done|]. unfold X_LOG_RECORD_HEADER_SIZE.
  destruct (Z.ltb_spec (page_start w + PAGE_SIZE - pc) 24).
  - destruct (_ <? _); [done|]. rewrite HZ by lia. done.
  - destruct (_ <? 4); [done|].
    assert (u32_at (buf w) pc = 0) as -> by (unfold u32_at; apply all_zero_dec, HZ; lia). simpl.
    destruct (_ <? _); [done|]. rewrite HZ by lia. done.
Qed.

Lemma sane_prefix w ext : 0 <= page_cursor w -> 0 <= page_start w -> sane (extend w ext) -> sane w.
Proof.
  intros Hc Hs HS Hm Hz. destruct HS as [HP HA]; simpl; [done| |].
  - by apply parse_app.
  - split; [done|]. simpl in HA. by eapply all_zero_app.
Qed.

(** *** A whole turn *)
Lemma step_headed w : page_magic w <> 0 -> step w = step_body w.
Proof. intros Hm. unfold step. by rewrite (proj2 (Z.eqb_neq _ _) Hm). Qed.

(** Reading a valid header first, with and without the later bytes. *)
Lemma step_valid w ext mg ds rem :
  WF w -> page_magic w = 0 -> parse_page_header (buf w) (page_start w) = Ok (Valid mg ds rem) ->
  exists wh, WF wh /\ page_magic wh <> 0 /\ buf wh = buf w /\ done_in_segment wh = done_in_segment w /\
    step w = step_body wh /\ step (extend w ext) = step_body (extend wh ext).
Proof.
  intros HW Hm EP. destruct (wf_page _ HW) as [H0 _].
  destruct (try_read_page_header w) as [[wh [|]]|x] eqn:EH;
    pose proof EH as EH'; unfold try_read_page_header in EH'; rewrite EP in EH'; simplify_eq.
  destruct (page_header_ok _ _ _ HW Hm EH) as (Hb & _ & _ & Ht & _).
  destruct (Ht eq_refl) as [HWh _]. eexists. split; [exact HWh|].
  apply parse_valid in EP as HV. destruct HV as (_ & Hmg & _).
  split; [simpl; unfold XLP_PAGE_MAGIC_PG15 in *; lia|]. split; [done|]. split; [done|].
  unfold step at 1 2. cbn [extend page_magic]. rewrite Hm. simpl (0 =? 0). cbn iota.
  rewrite EH. split; [done|]. unfold try_read_page_header. cbn [extend buf page_start].
  rewrite (parse_app _ ext _ _ H0 EP) by done. done.
Qed.

Lemma step_ext w ext w1 o :
  WF w -> bytes_ok ext -> done_in_segment w = false -> sane (extend w ext) -> step w = (w1, o) ->
  Same step w ext w1 o \/ (o = Wait /\ w1 = w) \/ Starved step w ext w1 o.
Proof.
  intros HW HE Hd HS. pose proof (wf_pc _ HW). pose proof (wf_page _ HW).
  assert (HB : forall wh, WF wh -> page_magic wh <> 0 -> buf wh = buf w -> done_in_segment wh = false ->
    step_body wh = (w1, o) -> step (extend w ext) = step_body (extend wh ext) ->
    Same step w ext w1 o \/ Starved step w ext w1 o).
  { intros wh HWh Hm Hb Hdh E1 E2.
    destruct (step_body_ext wh ext w1 o HWh Hm Hdh E1) as [[H1 H2]|(H1 & H2 & H3 & H4)].
    - left. split; [congruence|done].
    - right. split; [done|]. split; [done|]. rewrite !(step_headed w1), E2 by done.
      rewrite step_headed by done. rewrite <- Hb. done. }
  destruct (Z.eq_dec (page_magic w) 0) as [Hm|Hm].
  2:{ rewrite (step_headed w Hm). intros E. destruct (HB w); auto. by apply step_headed. }
  destruct (parse_page_header (buf w) (page_start w)) as [[| | |mg ds rem]|x] eqn:EP.
  1,2: intros E; right; left; unfold step in E; rewrite Hm in E; simpl in E;
    unfold try_read_page_header in E; rewrite EP in E; by injection E as <- <-.
  - assert (HSw : sane w) by (eapply sane_prefix; eauto; lia).
    destruct (HSw Hm EP) as [Hp HA]. rewrite step_zero_page by done. intros [= <- <-]. left.
    assert (EP' : parse_page_header (buf w ++ ext) (page_start w) = Ok ZeroPage)
      by (apply parse_app; auto; lia).
    split; [|done]. destruct (HS Hm EP') as [_ HA'].
    rewrite step_zero_page; [done|by apply extend_wf|done..].
  - destruct (step_valid w ext mg ds rem HW Hm EP) as (wh & HWh & Hmh & Hbh & Hdh & E1 & E2).
    rewrite E1. intros E. destruct (HB wh); auto. congruence.
  - intros E. left. unfold step in E. rewrite Hm in E. simpl in E. unfold try_read_page_header in E.
    rewrite EP in E. injection E as <- <-. split; [|done]. unfold step. simpl. rewrite Hm. simpl.
    unfold try_read_page_header. simpl. rewrite (parse_app (buf w) ext (page_start w) _ ltac:(lia) EP) by done. done.
Qed.

Lemma outcome_eq_sym b o o' : outcome_eq b o o' -> outcome_eq b o' o.
Proof. destruct 1 as [| |r s (H1 & H2 & H3 & H4)|]; constructor. by repeat split. Qed.

(** A walker whose next turn ends alike drains alike. *)
Lemma drain_resume W rs err wf V :
  Drain W rs err wf -> done_in_segment W = false -> WF W -> WF V -> buf V = buf W ->
  done_in_segment V = false -> sane V -> result_eq (buf W) (step V) (step W) ->
  exists rs' wf', Drain V rs' err wf' /\ Forall2 (record_eq (buf W)) rs rs' /\ walker_eq wf wf'.
Proof.
  intros HD HdW HW HV Hb HdV HS [HE HO]. destruct (step V) as [V1 o] eqn:EV.
  destruct (step_ok _ _ _ HV EV) as [_ HV1 _ _].
  inversion HD as [? Hd|? ? Hd HS' E|? ? e Hd HS' E|? W1 r rs0 e ? Hd HS' E HD'
    |? W1 rs0 e ? Hd HS' E HD']; subst; [congruence|..];
    rewrite E in HE, HO; simpl in HE, HO; symmetry in HE; apply outcome_eq_sym in HO;
    inversion HO; subst;
    destruct (step_ok _ _ _ HW E) as [HbW HW1 _ _].
  - exists [], V1. split; [by apply d_wait|]. split; [constructor|done].
  - exists [], V1. split; [by apply d_fail|]. split; [constructor|done].
  - destruct (drain_cong _ _ _ _ HD' V1 HW1 HV1 HE) as (rs' & wf' & H1 & H2 & H3).
    exists (s :: rs'), wf'. split; [by eapply d_yield|]. rewrite HbW in H2. auto.
  - destruct (drain_cong _ _ _ _ HD' V1 HW1 HV1 HE) as (rs' & wf' & H1 & H2 & H3).
    exists rs', wf'. split; [by eapply d_again|]. rewrite HbW in H2. auto.
Qed.

Lemma drain_starved w ext w1 o rs err wf :
  Drain (extend w ext) rs err wf -> WF w -> bytes_ok ext -> done_in_segment w = false -> sane w ->
  step w = (w1, o) -> (o = Wait /\ w1 = w) \/ Starved step w ext w1 o ->
  Drain w [] None w1 /\
  exists rs2 w2, Drain (extend w1 ext) rs2 err w2 /\
    Forall2 (record_eq (buf (extend w ext))) rs rs2 /\ walker_eq wf w2.
Proof.
  intros HD HW HE Hd HS Ew [[-> ->]|(H1 & H2 & H3 & H4)].
  - split; [by apply d_wait|]. exists rs, wf. split; [done|]. split; [|done].
    clear. induction rs; auto using record_eq_refl.
  - destruct (step_ok _ _ _ HW Ew) as [Hb1 HW1 _ _]. split.
    + destruct H3 as [->|[-> Hw1]]; [by apply d_wait|]. eapply d_again; eauto.
      apply d_wait; auto. by intros Hm.
    + apply (drain_resume (extend w ext)); auto using extend_wf.
      * simpl. by rewrite Hb1.
      * by intros Hm.
Qed.

(** Draining what has arrived, then the rest, yields the same records. *)
Lemma drain_split W rs err wf :
  Drain W rs err wf -> forall w ext, W = extend w ext -> WF w -> bytes_ok ext ->
  exists rs1 err1 w1, Drain w rs1 err1 w1 /\
    match err1 with
    | Some _ => err = err1 /\ rs = rs1
    | None => exists rs2 w2, Drain (extend w1 ext) rs2 err w2 /\
        Forall2 (record_eq (buf W)) rs (rs1 ++ rs2) /\ walker_eq wf w2
    end.
Proof.
  intros HD. pose proof HD as HD0. revert HD0.
  induction HD as [W Hd|W W' Hd HS E|W W' e Hd HS E|W W1 r rs e W' Hd HS E HD IH|W W1 rs e W' Hd HS E HD IH];
    intros HD0 w ext -> HW HE.
  { exists [], None, w. split; [by constructor|]. exists [], (extend w ext).
    split; [by constructor|]. split; [constructor|done]. }
  all: assert (HSw : sane w) by (eapply sane_prefix; [| |exact HS];
    pose proof (wf_pc _ HW); pose proof (wf_page _ HW); lia).
  all: destruct (step w) as [w1 o] eqn:Ew;
    destruct (step_ok _ _ _ HW Ew) as [Hb1 HW1 _ _].
  all: destruct (step_ext w ext w1 o HW HE Hd HS Ew) as [[HSame Hdn]|HSt];
    [|destruct (drain_starved w ext w1 o _ _ _ HD0 HW HE Hd HSw Ew HSt) as [HA HB];
      by exists [], None, w1].
  all: rewrite E in HSame; injection HSame as -> <-.
  - exists [], None, w1. split; [by apply d_wait|]. exists [], (extend w1 ext).
    split; [apply d_done; by apply Hdn|]. split; [constructor|done].
  - exists [], (Some e), w1. split; [by apply d_fail|done].
  - destruct (IH HD w1 ext eq_refl HW1 HE) as (rs1 & err1 & w2 & H1 & H2).
    exists (r :: rs1), err1, w2. split; [by eapply d_yield|]. destruct err1.
    + by destruct H2 as [-> ->].
    + destruct H2 as (rs2 & w3 & H2 & H3 & H4). exists rs2, w3. split; [done|]. split; [|done].
      simpl in *. rewrite Hb1 in H3. constructor; [apply record_eq_refl|done].
  - destruct (IH HD w1 ext eq_refl HW1 HE) as (rs1 & err1 & w2 & H1 & H2).
    exists rs1, err1, w2. split; [by eapply d_again|]. destruct err1; [done|].
    destruct H2 as (rs2 & w3 & H2 & H3 & H4). exists rs2, w3. simpl in *. by rewrite Hb1 in H3.
Qed.

(** ** The loop of [WalStream::push] *)

(** [while let Some(r) = walker.try_next()? {}] after one [extend]. *)
Fixpoint next_all (fuel : nat) (w : StreamingWalker)
    : option (list CompletedRecord * option WalkError * StreamingWalker) :=
  match fuel with
  | O => None
  | S fuel =>
      let* res := try_next w in
      match res with
      | (w', Yield r) => let* (rs, e, w'') := next_all fuel w' in Some (r :: rs, e, w'')
      | (w', Fail e) => Some ([], Some e, w')
      | (w', _) => Some ([], None, w')
      end
  end.

(** Chunks as they come off the socket, stopping at the first error. *)
Fixpoint feed (fuel : nat) (w : StreamingWalker) (chunks : list (list Z))
    : option (list CompletedRecord * option WalkError * StreamingWalker) :=
  match chunks with
  | [] => Some ([], None, w)
  | c :: cs =>
      let* (rs, e, w1) := next_all fuel (extend w c) in
      match e with
      | Some _ => Some (rs, e, w1)
      | None => let* (rs2, e2, w2) := feed fuel w1 cs in Some (rs ++ rs2, e2, w2)
      end
  end.

(** [Drain] as a function, and [sane] as a check. *)
Definition saneb (w : StreamingWalker) : bool :=
  negb (page_magic w =? 0) ||
  match parse_page_header (buf w) (page_start w) with
  | Ok ZeroPage =>
      negb (is_some (pending w)) &&
      all_zero (sub (buf w) (page_cursor w) (page_start w + PAGE_SIZE))
  | _ => true
  end.

Fixpoint drain (fuel : nat) (w : StreamingWalker)
    : option (list CompletedRecord * option WalkError * StreamingWalker) :=
  match fuel with
  | O => None
  | S fuel =>
      if done_in_segment w then Some ([], None, w)
      else if negb (saneb w) then None
      else
        match step w with
        | (w', Wait) => Some ([], None, w')
        | (w', Fail e) => Some ([], Some e, w')
        | (w', Again) => drain fuel w'
        | (w', Yield r) => let* (rs, e, w'') := drain fuel w' in Some (r :: rs, e, w'')
        end
  end.

Lemma saneb_sane w : saneb w = true -> sane w.
Proof.
  unfold saneb, sane. intros H Hm Hz. rewrite Hm, Hz in H. simpl in H.
  apply andb_true_iff in H as [H1 H2]. split; [|done]. by destruct (pending w).
Qed.

Lemma drain_Drain fuel : forall w rs e w', drain fuel w = Some (rs, e, w') -> Drain w rs e w'.
Proof.
  induction fuel as [|fuel IH]; intros w rs e w'; simpl; [done|].
  destruct (done_in_segment w) eqn:Hd; [intros; simplify_eq; by apply d_done|].
  destruct (saneb w) eqn:Hs; [|done]. apply saneb_sane in Hs. simpl.
  destruct (step w) as [w1 [| |r|x]] eqn:E.
  - intros H%IH. by eapply d_again.
  - intros [= <- <- <-]. by apply d_wait.
  - destruct (drain fuel w1) as [[[rs1 e1] w2]|] eqn:ED; [|done]. intros [= <- <- <-].
    eapply d_yield; eauto.
  - intros [= <- <- <-]. by apply d_fail.
Qed.

(** A turn that continues has not ended the segment. *)
Lemma step_again_open w w1 :
  WF w -> done_in_segment w = false -> sane w -> step w = (w1, Again) -> done_in_segment w1 = false.
Proof.
  intros HW Hd HS.
  assert (HB : forall w, done_in_segment w = false -> step_body w = (w1, Again) -> done_in_segment w1 = false).
  { clear. intros w Hd. unfold step_body, step_known, step_header, step_fresh.
    repeat case_match; intros; simplify_eq; try done. }
  destruct (Z.eq_dec (page_magic w) 0) as [Hm|Hm]; [|rewrite step_headed by done; by apply HB].
  destruct (parse_page_header (buf w) (page_start w)) as [[| | |mg ds rem]|x] eqn:EP.
  3:{ destruct (HS Hm EP). rewrite step_zero_page by done. done. }
  3:{ destruct (step_valid w [] mg ds rem HW Hm EP) as (wh & _ & _ & _ & Hdh & E1 & _).
      rewrite E1. apply HB. congruence. }
  all: unfold step; rewrite Hm; simpl; unfold try_read_page_header; rewrite EP; done.
Qed.

Lemma run_fuel fuel fuel' : forall w res, run fuel w = Some res -> (fuel <= fuel')%nat -> run fuel' w = Some res.
Proof.
  revert fuel'. induction fuel as [|fuel IH]; intros fuel' w res; [done|].
  destruct fuel' as [|fuel']; [lia|]. simpl. destruct (step w) as [w1 []]; auto. intros H Hle.
  apply IH; [done|lia].
Qed.

(** Whatever some fuel reaches, [try_next] reaches. *)
Lemma try_next_run w fuel w' o :
  WF w -> done_in_segment w = false -> run fuel w = Some (w', o) -> try_next w = Some (w', o).
Proof.
  intros HW Hd HR. destruct (try_next_ok w HW) as (w1 & o1 & E & _).
  unfold try_next in *. rewrite Hd in *. rewrite E. f_equal.
  apply (run_fuel _ (fuel + turns w)) in HR; [|lia].
  apply (run_fuel _ (fuel + turns w)) in E; [|lia]. congruence.
Qed.

Lemma try_next_step w w1 o :
  WF w -> done_in_segment w = false -> step w = (w1, o) ->
  (o <> Again -> try_next w = Some (w1, o)) /\
  (o = Again -> done_in_segment w1 = false -> try_next w = try_next w1).
Proof.
  intros HW Hd E. destruct (step_ok _ _ _ HW E) as [_ HW1 _ _]. split.
  - intros Ho. apply (try_next_run w 1); auto. simpl. rewrite E. by destruct o.
  - intros -> Hd1. destruct (try_next_ok w1 HW1) as (w2 & o2 & E2 & _). rewrite E2.
    unfold try_next in E2. rewrite Hd1 in E2.
    apply (try_next_run w (S (turns w1))); auto. simpl. by rewrite E.
Qed.

(** The loop realises every drain. *)
Lemma next_all_drain w rs e w' :
  Drain w rs e w' -> WF w -> exists N, forall fuel, (N <= fuel)%nat -> next_all fuel w = Some (rs, e, w').
Proof.
  induction 1 as [w Hd|w w' Hd HS E|w w' e Hd HS E|w w1 r rs e w' Hd HS E HD IH|w w1 rs e w' Hd HS E HD IH];
    intros HW.
  - exists 1%nat. intros [|fuel] Hf; [lia|]. simpl. unfold try_next. by rewrite Hd.
  - exists 1%nat. intros [|fuel] Hf; [lia|]. simpl.
    rewrite (proj1 (try_next_step _ _ _ HW Hd E)) by done. done.
  - exists 1%nat. intros [|fuel] Hf; [lia|]. simpl.
    rewrite (proj1 (try_next_step _ _ _ HW Hd E)) by done. done.
  - destruct (step_ok _ _ _ HW E) as [_ HW1 _ _]. destruct (IH HW1) as [N HN].
    exists (S N). intros [|fuel] Hf; [lia|]. simpl.
    rewrite (proj1 (try_next_step _ _ _ HW Hd E)) by done. rewrite HN by lia. done.
  - destruct (step_ok _ _ _ HW E) as [_ HW1 _ _]. destruct (IH HW1) as [N HN].
    exists (S N). intros [|fuel] Hf; [lia|]. specialize (HN (S fuel) ltac:(lia)). simpl in *.
    destruct (try_next_step _ _ _ HW Hd E) as [_ Hn].
    rewrite Hn; [done|done|]. exact (step_again_open _ _ HW Hd HS E).
Qed.

Lemma extend_app w a b : extend (extend w a) b = extend w (a ++ b).
Proof. unfold extend. simpl. by rewrite app_assoc. Qed.

Lemma drain_wf w rs e w' : Drain w rs e w' -> WF w -> WF w' /\ buf w' = buf w.
Proof.
  induction 1 as [w Hd|w w' Hd HS E|w w' e Hd HS E|w w1 r rs e w' Hd HS E HD IH|w w1 rs e w' Hd HS E HD IH];
    intros HW; [done|..]; destruct (step_ok _ _ _ HW E) as [Hb HW1 _ _]; try done;
    destruct (IH HW1) as [? ?]; split; congruence.
Qed.

Lemma feed_drain chunks : forall w rs e wf,
  chunks <> [] -> Forall bytes_ok chunks -> WF w -> Drain (extend w (concat chunks)) rs e wf ->
  exists N, forall fuel, (N <= fuel)%nat -> exists rs' wf',
    feed fuel w chunks = Some (rs', e, wf') /\
    Forall2 (record_eq (buf (extend w (concat chunks)))) rs rs'.
Proof.
  induction chunks as [|c cs IH]; intros w rs e wf Hne HB HW HD; [done|].
  apply Forall_cons_1 in HB as [Hc HB]. pose proof (extend_wf _ _ HW Hc) as HWc.
  assert (RR : forall b l, Forall2 (record_eq b) l l)
    by (intros b l; induction l; auto using record_eq_refl).
  destruct (decide (cs = [])) as [->|Hcs].
  - simpl in HD. rewrite app_nil_r in HD. destruct (next_all_drain _ _ _ _ HD HWc) as [N HN].
    exists N. intros fuel Hf. simpl. rewrite (HN fuel Hf). destruct e; eauto.
    rewrite app_nil_r. eauto.
  - simpl in HD. rewrite <- extend_app in HD.
    assert (HBc : bytes_ok (concat cs)) by (by apply Forall_concat).
    destruct (drain_split _ _ _ _ HD (extend w c) (concat cs) eq_refl HWc HBc)
      as (rs1 & err1 & w1 & HD1 & Hrest).
    destruct (next_all_drain _ _ _ _ HD1 HWc) as [N1 HN1]. destruct err1 as [x|].
    + destruct Hrest as [-> ->]. exists N1. intros fuel Hf. simpl. rewrite (HN1 fuel Hf). eauto.
    + destruct Hrest as (rs2 & w2 & HD2 & HF & _).
      destruct (drain_wf _ _ _ _ HD1 HWc) as [HW1 Hb1].
      destruct (IH w1 rs2 e w2 Hcs HB HW1 HD2) as [N2 HN2].
      exists (N1 + N2)%nat. intros fuel Hf. simpl. rewrite (HN1 fuel) by lia.
      destruct (HN2 fuel ltac:(lia)) as (rs' & wf' & -> & HF2). eexists _, _. split; [done|].
      rewrite app_assoc. simpl in *. rewrite Hb1 in HF2. simpl in HF2.
      clear -HF HF2. revert rs2 rs' HF HF2. intros rs2 rs' HF HF2.
      apply Forall2_app_inv_r in HF as (l1 & l2 & H1 & H2 & ->). apply Forall2_app; [done|].
      revert rs' HF2. induction H2 as [|x y l k Hxy H2 IH2]; intros rs' HF2; inversion HF2; subst; constructor; auto.
      destruct Hxy as (A1 & A2 & A3 & A4), H3 as (B1 & B2 & B3 & B4). repeat split; congruence.
Qed.


(** A page with one record, cut inside the page header and inside the record. *)
Definition demo_page : list Z :=
  [0x10; 0xD1; 0; 0] ++ zrep 20 0 ++ [32; 0; 0; 0] ++ zrep 28 5.


End Chunks.
