(* ===== verification/WalkerLow.v ===== *)
(** * Where the walker can still yield a record

    The low-water mark of a walker: no record yielded from now on starts below
    it, so bytes below it are final.  The stream ships exactly those. *)
From S2P Require Import Prelude WalPage Walker.

Module WalkerLow.
Import WalPage Walker.

Definition lw (w : StreamingWalker) : Z :=
  match pending w with Some p => p_start_offset p | None => page_cursor w end.

(** An unread page is entered at its start. *)
Definition at_page (w : StreamingWalker) : Prop :=
  page_magic w = 0 -> pending w = None -> page_cursor w = page_start w.

(** What a turn does to the mark.  A record yielded after a zero page has been
    met in its middle is torn; the mark then says nothing about its end. *)
Record LowOk (w w' : StreamingWalker) (o : outcome) : Prop := mkLowOk
  { lo_mono : lw w <= lw w';
    lo_start : forall r, o = Yield r -> lw w <= start_offset r;
    lo_end : forall r, o = Yield r -> pending w' = None /\
      ranges_in (start_offset r) (byte_ranges r) (page_cursor w');
    lo_page : (forall r, o = Yield r -> done_in_segment w' = false) -> at_page w' }.

(** Taking bytes never moves a pending record's start. *)
Lemma absorb_start p pc n : p_start_offset (absorb p pc n) = p_start_offset p.
Proof. unfold absorb. by destruct (0 <? n). Qed.

Lemma resolve_start p b :
  p_start_offset (try_resolve_total_len p b) = p_start_offset p /\
  p_byte_ranges (try_resolve_total_len p b) = p_byte_ranges p.
Proof. unfold try_resolve_total_len. by repeat case_match. Qed.

Lemma known_low w p t w' o :
  WF w -> pending w = Some p -> p_total_len p = Some t ->
  (page_magic w <> 0 \/ done_in_segment w = true) ->
  step_known w p t = (w', o) -> LowOk w w' o.
Proof.
  intros HW Hp Ht Hz. unfold step_known.
  assert (Hu : 0 <= usub 64 t (p_accumulated_len p)) by (apply wrap_fits; lia).
  destruct (take_now_bounds w _ HW Hu) as ([Hn _] & Hpage & Hbuf). set (n := take_now w _) in *.
  destruct (wf_pending _ HW _ Hp) as [HA _].
  destruct (absorb_at _ _ _ n HA Hn Hbuf) as ([_ _ _ Hpc _] & _).
  pose proof (ranges_in_le _ _ _ Hpc) as Hle. cbn [set_pending set_page_cursor page_cursor].
  destruct (fully_loaded _); [|destruct (_ <=? _)]; intros [= <- <-]; split; unfold lw, at_page; simpl;
    rewrite ?Hp, ?absorb_start in *; try done; try lia.
  - intros r [= <-]. simpl. rewrite absorb_start. lia.
  - intros r [= <-]. simpl. by rewrite absorb_start in *.
  - intros H Hm _. destruct Hz as [Hz|Hz]; [done|]. by rewrite (H _ eq_refl) in Hz.
Qed.

Lemma header_low w p w' o :
  WF w -> pending w = Some p -> p_total_len p = None ->
  (page_magic w <> 0 \/ done_in_segment w = true) ->
  step_header w p = (w', o) -> LowOk w w' o.
Proof.
  intros HW Hp Ht Hz. unfold step_header.
  assert (Hu : 0 <= usub 64 X_LOG_RECORD_HEADER_SIZE (p_accumulated_len p)) by (apply wrap_fits; lia).
  destruct (take_now_bounds w _ HW Hu) as ([Hn _] & Hpage & Hbuf). set (n := take_now w _) in *.
  destruct (wf_pending _ HW _ Hp) as [HA _].
  destruct (absorb_at _ _ _ n HA Hn Hbuf) as ([_ _ _ Hpc _] & _).
  pose proof (ranges_in_le _ _ _ Hpc) as Hle. cbn [set_pending set_page_cursor page_cursor].
  set (p' := if 0 <? n then _ else _).
  assert (Hp' : p_start_offset p' = p_start_offset p /\ p_byte_ranges p' = p_byte_ranges (absorb p (page_cursor w) n)).
  { unfold p'. destruct (0 <? n); [|by rewrite absorb_start].
    destruct (resolve_start (absorb p (page_cursor w) n) (buf w)) as [-> ->]. by rewrite absorb_start. }
  destruct Hp' as [Hs Hr]. rewrite absorb_start in *.
  destruct (fully_loaded _); [|destruct (_ =? 0)]; intros [= <- <-]; split; unfold lw, at_page; simpl;
    rewrite ?Hp, ?Hs; try done; try lia.
  - intros r [= <-]. simpl. lia.
  - intros r [= <-]. simpl. by rewrite Hs, Hr.
  - intros H Hm _. destruct Hz as [Hz|Hz]; [done|]. by rewrite (H _ eq_refl) in Hz.
Qed.

(** A fresh record never starts below the page cursor. *)
Lemma read_low w :
  WF w -> pending w = None ->
  match try_read_record w with
  | Ok (w', Some r) =>
      page_cursor w <= start_offset r /\ pending w' = None /\ page_magic w' = page_magic w /\
      page_cursor w <= page_cursor w' /\ ranges_in (start_offset r) (byte_ranges r) (page_cursor w')
  | Ok (w', None) => page_cursor w <= lw w' /\ page_magic w' = page_magic w
  | Err (w', _) => page_cursor w <= lw w' /\ pending w' = None /\ page_magic w' = page_magic w
  end.
Proof.
  intros HW Hp. unfold try_read_record, lw.
  destruct (wf_page _ HW) as [Hps Hm]. pose proof (wf_pc _ HW) as Hpc.
  destruct (align_in_page _ _ Hm Hpc) as [Ha1 Ha2]. change X_LOG_RECORD_ALIGNMENT with 8.
  set (pc := align_up _ 8) in *. cbn [buf set_page_cursor page_magic].
  unfold X_LOG_RECORD_HEADER_SIZE.
  repeat case_match; simplify_eq; simpl in *; try congruence; try (split; [lia|done]); try (by repeat split; try lia).
  all: match goal with H : Some _ = Some _ |- _ => injection H as <- end; simpl; split; [lia|done].
Qed.

(** On a zero page with no record open nothing is read and nothing moves. *)
Lemma zero_page_read w :
  WF w -> pending w = None -> page_cursor w = page_start w ->
  parse_page_header (buf w) (page_start w) = Ok ZeroPage ->
  match try_read_record w with
  | Ok (w', r) => r = None /\ pending w' = None /\ page_cursor w' = page_start w /\ page_start w' = page_start w
  | Err (w', _) => pending w' = None /\ page_cursor w' = page_start w /\ page_start w' = page_start w
  end.
Proof.
  intros HW Hp Hpc Hz. unfold try_read_record.
  destruct (wf_page _ HW) as [Hps Hm]. change X_LOG_RECORD_ALIGNMENT with 8.
  assert (Ea : align_up (page_cursor w) 8 = page_start w).
  { rewrite Hpc. apply align_up_8_id. unfold PAGE_SIZE in Hm.
    rewrite (Z.div_mod (page_start w) 8192), Hm by lia. rewrite Z.add_0_r.
    replace (8192 * (page_start w / 8192)) with (page_start w / 8192 * 1024 * 8) by lia.
    apply Z.mod_mul. lia. }
  rewrite Ea. cbn [buf set_page_cursor page_magic].
  assert (E0 : u32_at (buf w) (page_start w) = 0).
  { unfold parse_page_header in Hz. destruct (Z.ltb_spec (zlen (buf w)) (page_start w + SHORT_HEADER_SIZE)); [done|].
    unfold SHORT_HEADER_SIZE in *.
    destruct (_ && _) eqn:Eb; [|by repeat case_match].
    apply andb_true_iff in Eb as [E1 E2]. apply Z.eqb_eq in E1, E2.
    unfold u32_at, u16_at in *. unfold sub in *. rewrite Z.sub_0_r in *.
    set (l := zdrop (page_start w) (buf w)) in *. assert (Hl : 20 <= zlen l) by (unfold l; zlen).
    rewrite zdrop_0 in E1. replace (page_start w + 4 - page_start w) with 4 by lia.
    rewrite <- (ztake_zdrop_id 2 (ztake 4 l)). rewrite le_dec_app.
    assert (Et : ztake 2 (ztake 4 l) = ztake 2 l) by (rewrite ztake_ztake; f_equal; lia).
    assert (Ed : zdrop 2 (ztake 4 l) = ztake 2 (zdrop 2 l)).
    { unfold zdrop, ztake. by rewrite skipn_firstn_comm. }
    rewrite Et, Ed. change (2 + 2 - 2) with 2 in E2. change (0 + 2) with 2 in E1. rewrite E1, E2. lia. }
  destruct (Z.leb_spec (page_start w + PAGE_SIZE) (page_start w)); [by repeat split|].
  destruct (_ =? 0); [by repeat split|].
  rewrite (proj2 (Z.ltb_ge (page_start w + PAGE_SIZE - page_start w) _))
    by (unfold PAGE_SIZE, X_LOG_RECORD_HEADER_SIZE; lia).
  destruct (_ <? 4); [by repeat split|]. rewrite E0. cbn [Z.eqb].
  repeat case_match; simplify_eq; by repeat split.
Qed.

Lemma fresh_low w w' o :
  WF w -> pending w = None ->
  (page_magic w <> 0 \/
   (page_cursor w = page_start w /\ parse_page_header (buf w) (page_start w) = Ok ZeroPage)) ->
  step_fresh w = (w', o) -> LowOk w w' o.
Proof.
  intros HW Hp Hz. unfold step_fresh. pose proof (read_low w HW Hp) as H.
  assert (Hzero : match try_read_record w with
    | Ok (w', None) => page_magic w = 0 -> pending w' = None -> page_cursor w' = page_start w'
    | Ok (w', Some _) => page_magic w <> 0
    | Err (w', _) => page_magic w = 0 -> page_cursor w' = page_start w' end).
  { destruct Hz as [Hz|[Hpc Hz]]; [by repeat case_match|].
    pose proof (zero_page_read w HW Hp Hpc Hz) as Hr.
    destruct (try_read_record w) as [[w1 [r|]]|[w1 e]]; [by destruct Hr|..];
      repeat match goal with H : _ /\ _ |- _ => destruct H end; intros; congruence. }
  assert (HH : Headed w) by (destruct Hz as [Hz|[_ Hz]]; [by left|by right]).
  pose proof (try_read_record_ok w HW HH Hp) as Hok. pose proof (wf_pc _ HW) as Hwpc.
  destruct (try_read_record w) as [[w1 [r|]]|[w1 e]].
  - destruct H as (Hs & Hp1 & Hm1 & Hle & Hr). intros [= <- <-]. unfold lw, at_page.
    split; unfold lw, at_page; rewrite ?Hp, ?Hp1; try done; [by intros ? [= <-]|by intros ? [= <-]|].
    intros _ Hm. congruence.
  - destruct H as [Hle Hm1]. destruct (done_in_segment w1).
    + intros [= <- <-]. split; unfold lw, at_page in *; rewrite ?Hp in *; try done.
      intros _ Hm. apply Hzero. congruence.
    + destruct (Z.leb_spec (page_start w1 + PAGE_SIZE) (page_cursor w1)); intros [= <- <-];
        split; unfold lw, at_page in *; simpl; rewrite ?Hp in *; try done.
      * destruct (pending w1); [done|]. destruct Hok as [_ Eps _ _ _]. lia.
      * intros _ Hm. apply Hzero. congruence.
  - destruct H as (Hle & Hp1 & Hm1). intros [= <- <-]. split; unfold lw, at_page in *; simpl; rewrite ?Hp in *; try done.
    intros _ Hm _. apply Hzero. congruence.
Qed.

Lemma body_low w w' o :
  WF w ->
  (page_magic w <> 0 \/
   (done_in_segment w = true /\ (pending w = None -> page_cursor w = page_start w) /\
    parse_page_header (buf w) (page_start w) = Ok ZeroPage)) ->
  step_body w = (w', o) -> LowOk w w' o.
Proof.
  intros HW Hz. unfold step_body. destruct (pending w) as [p|] eqn:Ep.
  - destruct (p_total_len p) as [t|] eqn:Et; [eapply known_low|eapply header_low]; eauto; naive_solver.
  - apply fresh_low; [done|done|]. destruct Hz as [Hz|(_ & Hpc & Hz)]; [by left|]. right. auto.
Qed.

Lemma step_low w w' o : WF w -> at_page w -> step w = (w', o) -> LowOk w w' o.
Proof.
  intros HW HJ. unfold step. destruct (Z.eqb_spec (page_magic w) 0) as [Hm|Hm].
  2: { apply body_low; [done|by left]. }
  destruct (try_read_page_header w) as [[w1 [|]]|e] eqn:E.
  - destruct (page_header_ok _ _ _ HW Hm E) as (_ & _ & _ & Hw & _). destruct (Hw eq_refl) as [HW1 _].
    intros Hs. assert (H1 : LowOk w1 w' o /\ lw w <= lw w1).
    { unfold try_read_page_header in E.
      destruct (parse_page_header (buf w) (page_start w)) as [[| | |magic ds rem]|] eqn:Ez; try done.
      - injection E as <-. split; [|unfold lw; simpl; lia]. apply body_low; [done| |done]. right. simpl.
        split; [done|]. split; [|done]. intros Hn. by apply HJ.
      - injection E as <-. pose proof (parse_valid _ _ _ _ _ Ez) as (Hds & Hmg & _).
        split; [apply body_low; [done|left; simpl; unfold XLP_PAGE_MAGIC_PG15 in *; lia|done]|].
        unfold lw. simpl. destruct (pending w) as [p|] eqn:Ep; [lia|]. rewrite (HJ Hm Ep). simpl.
        destruct (Z.ltb_spec 0 rem); simpl; [|lia]. destruct (_ <=? _); [unfold PAGE_SIZE; lia|].
        unfold X_LOG_RECORD_ALIGNMENT. pose proof (align_up_8_bounds (ds + Z.min rem (page_start w + PAGE_SIZE - ds))).
        destruct (wf_page _ HW). unfold PAGE_SIZE in *. lia. }
    destruct H1 as [[A B D F] Hle]. split; [lia| |done|done]. intros r Hr. specialize (B r Hr). lia.
  - destruct (page_header_ok _ _ _ HW Hm E) as (_ & _ & _ & _ & Hw). rewrite (Hw eq_refl).
    intros [= <- <-]. split; [lia|done|done|done].
  - intros [= <- <-]. split; [done|done|done|]. intros _. exact HJ.
Qed.

Lemma run_low fuel : forall w w' o, WF w -> at_page w -> run fuel w = Some (w', o) -> LowOk w w' o.
Proof.
  induction fuel as [|fuel IH]; intros w w' o HW HJ; simpl; [done|].
  destruct (step w) as [w1 o1] eqn:E. pose proof (step_low _ _ _ HW HJ E) as H1.
  destruct (step_ok _ _ _ HW E) as [_ HW1 _ _].
  destruct o1 as [| |r|e]; [|by intros [= <- <-]..]. intros Hr.
  destruct H1 as [A _ _ F]. destruct (IH w1 w' o HW1 (F ltac:(done)) Hr) as [A' B' D' F'].
  split; [lia| |done|done]. intros r' Er. specialize (B' r' Er). lia.
Qed.

Lemma try_next_low w w' o : WF w -> at_page w -> try_next w = Some (w', o) -> LowOk w w' o.
Proof.
  intros HW HJ. unfold try_next. destruct (done_in_segment w) eqn:Ed.
  - intros [= <- <-]. by split; try done.
  - by apply run_low.
Qed.

(** Extending and rewriting leave the mark alone. *)
Lemma lw_extend w bytes : lw (extend w bytes) = lw w.
Proof. done. Qed.

Lemma lw_set_buf w b : lw (set_buf w b) = lw w.
Proof. done. Qed.


(** ** Every record yielded is progress, wherever the walker stands *)
Definition progress (w : StreamingWalker) : Z :=
  4 * page_start w + (if page_magic w =? 0 then 0 else 2 * (page_cursor w - page_start w) + 2) +
  (if done_in_segment w then 1 else 0) + (if pending w then 0 else 1).

(** Between turns a finished walker still holds a record. *)
Definition busy (w : StreamingWalker) : Prop := done_in_segment w = true -> pending w <> None.

Lemma pending_progress w p w' o :
  WF w -> pending w = Some p -> step_body w = (w', o) ->
  progress w <= progress w' /\ (forall r, o = Yield r -> progress w < progress w') /\
  (o = Again -> busy w').
Proof.
  intros HW Hp. unfold step_body. rewrite Hp. pose proof (wf_pc _ HW) as Hpc. unfold progress, busy. rewrite Hp.
  destruct (p_total_len p) as [t|].
  - unfold step_known. assert (Hu : 0 <= usub 64 t (p_accumulated_len p)) by (apply wrap_fits; lia).
    destruct (take_now_bounds w _ HW Hu) as ([Hn _] & Hpage & _). set (n := take_now w _) in *.
    unfold PAGE_SIZE in *. destruct (fully_loaded _); [|destruct (_ <=? _)]; intros [= <- <-]; simpl;
      unfold PAGE_SIZE; destruct (page_magic w =? 0); destruct (done_in_segment w); repeat split; intros; try done; lia.
  - unfold step_header. set (needed := usub _ _ _).
    assert (Hu : 0 <= needed) by (apply wrap_fits; lia).
    destruct (take_now_bounds w _ HW Hu) as ([Hn _] & Hpage & _). set (n := take_now w _) in *.
    destruct (fully_loaded _); [|destruct (_ =? 0)]; intros [= <- <-]; simpl;
      destruct (page_magic w =? 0); destruct (done_in_segment w); repeat split; intros; try done; lia.
Qed.

Lemma fresh_progress w w' o :
  WF w -> Headed w -> pending w = None -> step_fresh w = (w', o) ->
  (o = Again -> busy w') /\
  (page_magic w <> 0 -> progress w <= progress w' /\ (forall r, o = Yield r -> progress w < progress w')) /\
  (page_magic w = 0 -> progress w <= progress w' + 1 /\ (forall r, o = Yield r -> progress w <= progress w')).
Proof.
  intros HW HH Hp. unfold step_fresh. destruct (wf_page _ HW) as [Hps Hm]. pose proof (wf_pc _ HW) as Hpc.
  assert (HR : match try_read_record w with
    | Ok (w1, r) => page_start w1 = page_start w /\ page_magic w1 = page_magic w /\
        page_cursor w <= page_cursor w1 <= page_start w + PAGE_SIZE /\
        (done_in_segment w = true -> done_in_segment w1 = true) /\
        (pending w1 = None \/ (r = None /\ page_cursor w < page_cursor w1)) /\
        (r <> None -> page_cursor w < page_cursor w1)
    | Err (w1, e) => page_start w1 = page_start w /\ page_magic w1 = page_magic w /\
        page_cursor w <= page_cursor w1 <= page_start w + PAGE_SIZE /\ pending w1 = None
    end).
  { unfold try_read_record. destruct (align_in_page _ _ Hm Hpc) as [Ha1 Ha2].
    change X_LOG_RECORD_ALIGNMENT with 8. set (pc := align_up _ 8) in *. cbn [buf set_page_cursor page_magic].
    unfold X_LOG_RECORD_HEADER_SIZE, PAGE_SIZE in *. destruct (Z.leb_spec (page_start w + 8192) pc).
    { repeat split; simpl; auto; try lia; done. }
    destruct (_ =? 0); [repeat split; simpl; auto; try lia; done|].
    destruct (_ <? 24).
    { destruct (_ <? _); [repeat split; simpl; auto; try lia; done|].
      destruct (all_zero _); [repeat split; simpl; auto; try lia; done|]. repeat split; simpl; auto; try lia; try done; right; split; [done|lia]. }
    destruct (_ <? 4); [repeat split; simpl; auto; try lia; done|].
    destruct (_ =? 0); [destruct (_ <? _); [|destruct (all_zero _)]; repeat split; simpl; auto; try lia; done|].
    destruct (Z.ltb_spec (u32_at (buf w) pc) 24); [repeat split; simpl; auto; try lia; done|].
    destruct (_ <? _); [repeat split; simpl; auto; try lia; done|].
    destruct (_ =? _); repeat split; simpl; auto; try lia; try done; right; split; try done; lia. }
  destruct (try_read_record w) as [[w1 r]|[w1 e]]; unfold progress, busy; rewrite Hp.
  - destruct HR as (E1 & E2 & E3 & E4 & E5 & E6). destruct r as [r|].
    + specialize (E6 ltac:(done)). destruct E5 as [E5|[? _]]; [|done]. intros [= <- <-].
      rewrite E1, E2, E5. destruct (Z.eqb_spec (page_magic w) 0); destruct (done_in_segment w), (done_in_segment w1);
        repeat split; intros; try done; try lia; specialize (E4 eq_refl); done.
    + assert (Hd : done_in_segment w1 = false -> done_in_segment w = false)
        by (intros H; destruct (done_in_segment w); [by rewrite (E4 eq_refl) in H|done]).
      destruct (done_in_segment w1) eqn:Ed; [|rewrite (Hd eq_refl); destruct (_ <=? _)]; intros [= <- <-]; simpl;
        rewrite ?E1, ?E2, ?Ed; unfold PAGE_SIZE in *; destruct (Z.eqb_spec (page_magic w) 0);
        destruct (done_in_segment w); destruct (pending w1); repeat split; intros; try done; try lia;
        destruct E5 as [E5|[_ E5]]; try done; lia.
  - destruct HR as (E1 & E2 & E3 & E4). intros [= <- <-]. simpl. rewrite E1, E2, E4.
    destruct (Z.eqb_spec (page_magic w) 0); destruct (done_in_segment w); repeat split; intros; try done; lia.
Qed.

Lemma body_progress w w' o :
  WF w -> Headed w -> page_magic w <> 0 -> step_body w = (w', o) ->
  progress w <= progress w' /\ (forall r, o = Yield r -> progress w < progress w') /\ (o = Again -> busy w').
Proof.
  intros HW HH Hm. destruct (pending w) as [p|] eqn:Hp; [by eapply pending_progress|].
  unfold step_body. rewrite Hp. intros H. destruct (fresh_progress _ _ _ HW HH Hp H) as (Ha & Hb & _).
  destruct (Hb Hm). auto.
Qed.

Lemma step_progress w w' o :
  WF w -> busy w -> step w = (w', o) ->
  progress w <= progress w' /\ (forall r, o = Yield r -> progress w < progress w') /\ (o = Again -> busy w').
Proof.
  intros HW HB. unfold step. destruct (Z.eqb_spec (page_magic w) 0) as [Hm|Hm].
  2:{ apply body_progress; [done|by left|done]. }
  destruct (try_read_page_header w) as [[w1 [|]]|e] eqn:E.
  - destruct (page_header_ok _ _ _ HW Hm E) as (_ & _ & Hp1 & Hw & _). destruct (Hw eq_refl) as [HW1 HH1].
    unfold try_read_page_header in E.
    destruct (parse_page_header (buf w) (page_start w)) as [[| | |magic ds rem]|] eqn:Ez; try done.
    + injection E as <-. intros Hs. unfold busy in HB. destruct (pending w) as [p|] eqn:Ep.
      * destruct (pending_progress _ p _ _ HW1 Ep Hs) as (H1 & H2 & H3).
        assert (progress w <= progress (set_done w)); [|split; [lia|split; [|done]]].
        { unfold progress. simpl. destruct (done_in_segment w); lia. }
        intros r Hr. specialize (H2 r Hr). lia.
      * unfold step_body in Hs. simpl in Hs. rewrite Ep in Hs.
        destruct (fresh_progress _ _ _ HW1 HH1 Ep Hs) as (H1 & _ & H2). destruct (H2 Hm) as [H3 H4].
        assert (progress (set_done w) = progress w + 1).
        { unfold progress. simpl. destruct (done_in_segment w); [by destruct HB|lia]. }
        split; [lia|split; [|done]]. intros r Hr. specialize (H4 r Hr). lia.
    + injection E as <-. set (w1 := MkWalker _ _ _ _ _ _ _ _ _) in *. intros Hs.
      pose proof (parse_valid _ _ _ _ _ Ez) as (_ & Hmg & _). unfold XLP_PAGE_MAGIC_PG15 in Hmg.
      destruct (body_progress w1 w' o HW1 HH1 ltac:(simpl; lia) Hs) as (H1 & H2 & H3).
      assert (progress w <= progress w1); [|split; [lia|split; [|done]]].
      { pose proof (wf_pc _ HW1) as Hpc. unfold progress. rewrite Hm.
        change (page_start w1) with (page_start w) in *. change (page_magic w1) with magic.
        change (done_in_segment w1) with (done_in_segment w). change (pending w1) with (pending w).
        rewrite (proj2 (Z.eqb_neq magic 0)) by lia. cbn [Z.eqb]. lia. }
      intros r Hr. specialize (H2 r Hr). lia.
  - destruct (page_header_ok _ _ _ HW Hm E) as (_ & _ & _ & _ & Hw). rewrite (Hw eq_refl).
    intros [= <- <-]. split; [lia|done].
  - intros [= <- <-]. split; [|done]. unfold progress. simpl. destruct (done_in_segment w); lia.
Qed.

Lemma run_progress fuel : forall w w' o,
  WF w -> busy w -> run fuel w = Some (w', o) ->
  progress w <= progress w' /\ (forall r, o = Yield r -> progress w < progress w').
Proof.
  induction fuel as [|fuel IH]; intros w w' o HW HB; simpl; [done|].
  destruct (step w) as [w1 o1] eqn:E. destruct (step_progress _ _ _ HW HB E) as (H1 & H2 & H3).
  destruct (step_ok _ _ _ HW E) as [_ HW1 _ _].
  destruct o1 as [| |r|e]; [|by intros [= <- <-]..]. intros Hr.
  destruct (IH w1 w' o HW1 (H3 eq_refl) Hr) as [H4 H5]. split; [lia|]. intros r Er. specialize (H5 r Er). lia.
Qed.

Lemma try_next_progress w w' r :
  WF w -> try_next w = Some (w', Yield r) -> progress w < progress w'.
Proof.
  intros HW. unfold try_next. destruct (done_in_segment w) eqn:Ed; [done|]. intros Hr.
  destruct (run_progress _ _ _ _ HW ltac:(by unfold busy; rewrite Ed) Hr) as [_ H]. by apply (H r).
Qed.

Lemma progress_bound w : WF w -> 0 <= progress w <= 4 * zlen (buf w) + 6 * PAGE_SIZE + 4.
Proof.
  intros HW. pose proof (wf_far _ HW). pose proof (wf_pc _ HW). destruct (wf_page _ HW).
  unfold progress, PAGE_SIZE in *. destruct (_ =? 0), (done_in_segment w), (pending w); lia.
Qed.

(** ** Sealing a segment *)

(** The mark moves down by the segment and never below its end. *)
Lemma truncate_low w :
  WF w -> at_page w -> 0 < seg_size w -> seg_size w mod PAGE_SIZE = 0 -> zlen (buf w) < 2 ^ 64 ->
  first_segment_ready w = true ->
  at_page (truncate_first_segment w) /\
  lw (truncate_first_segment w) = Z.max 0 (lw w - seg_size w).
Proof.
  intros [Hb [Hps Hm] Hpc Hmg Hf Hz Hp] HJ Hseg Hsm Hmax HR.
  apply andb_true_iff in HR as [Hlen%Z.leb_le HR].
  unfold truncate_first_segment, lw, at_page in *. destruct (pending w) as [p|] eqn:Ep.
  - destruct (Z.ltb_spec (p_start_offset p) (seg_size w)) as [|Hst]; [done|].
    destruct (Hp p eq_refl) as [[H1 _ H3 H4 _] _]. apply ranges_in_le in H3, H4.
    destruct (_ <=? _); simpl; (split; [done|]); unfold usub; rewrite wrap_small by (unfold fits; lia); lia.
  - destruct (Z.leb_spec (seg_size w) (page_start w)); simpl; unfold sat_sub.
    + split; [intros Hg _; rewrite (HJ Hg eq_refl); lia|lia].
    + split; [done|]. unfold PAGE_SIZE in *. pose proof (Z.div_mod (page_start w) 8192 ltac:(lia)).
      pose proof (Z.div_mod (seg_size w) 8192 ltac:(lia)). lia.
Qed.

Lemma truncate_frame w :
  seg_size (truncate_first_segment w) = seg_size w /\
  buf (truncate_first_segment w) = zdrop (seg_size w) (buf w) /\
  done_in_segment (truncate_first_segment w) = false.
Proof. unfold truncate_first_segment. by destruct (_ <=? _). Qed.

Lemma try_next_seg w w' o : try_next w = Some (w', o) -> seg_size w' = seg_size w.
Proof. unfold try_next. destruct (done_in_segment w); [by intros [= <- _]|apply run_seg]. Qed.

Lemma progress_set_buf w b : progress (set_buf w b) = progress w.
Proof. done. Qed.

(** Once no record is pending, the bytes may be rewritten. *)
Lemma set_buf_wf w b :
  WF w -> pending w = None -> zlen b = zlen (buf w) -> bytes_ok b -> WF (set_buf w b).
Proof.
  intros [Hb Hps Hpc Hmg Hf Hz Hp] Hn Hl Hok. split; simpl; rewrite ?Hl; auto.
  - rewrite Hn. by intros _ [? ?].
  - by rewrite Hn.
Qed.

(** A yield leaves no record pending. *)
Lemma try_next_yields w w' r :
  WF w -> try_next w = Some (w', Yield r) -> pending w' = None.
Proof.
  intros HW. unfold try_next. destruct (done_in_segment w); [done|]. generalize (turns w) as fuel.
  intros fuel. revert w HW. induction fuel as [|fuel IH]; intros w HW; simpl; [done|].
  destruct (step w) as [w1 o1] eqn:E. destruct (step_ok _ _ _ HW E) as [_ HW1 _ _].
  destruct o1 as [| |r1|e]; [by apply IH|done| |done]. intros [= <- <-]. clear IH HW1.
  assert (HB : forall v, step_body v = (w1, Yield r1) -> WF v -> pending w1 = None).
  { intros v. unfold step_body. destruct (pending v) as [p|] eqn:Ep.
    - destruct (p_total_len p); [unfold step_known|unfold step_header];
        destruct (fully_loaded _); [by intros [= <- _]|destruct (_ <=? _); done|by intros [= <- _]|destruct (_ =? 0); done].
    - unfold step_fresh. intros H HV. pose proof (read_low v HV Ep) as HR.
      destruct (try_read_record v) as [[v1 [r0|]]|[v1 e]]; [by injection H as <- _; destruct HR as (_ & ? & _)| |done].
      by destruct (done_in_segment v1); [|destruct (_ <=? _)]. }
  unfold step in E. destruct (Z.eqb_spec (page_magic w) 0) as [Hm|]; [|by eapply HB].
  destruct (try_read_page_header w) as [[w2 [|]]|e] eqn:Eh; [|done..].
  destruct (page_header_ok _ _ _ HW Hm Eh) as (_ & _ & _ & Hw & _). eapply HB; [done|]. by apply Hw.
Qed.
End WalkerLow.
