(* ===== verification/Text.v ===== *)
(** * Text as the standard library reads and prints it

    UTF-8 validation ([std::str::from_utf8]), decimal printing of unsigned
    integers ([to_string]) and their parsing ([str::parse]), on byte lists. *)
From S2P Require Import Prelude.

Module Text.

Definition between (lo hi b : Z) : bool := (lo <=? b) && (b <=? hi).
Definition cont (b : Z) : bool := between 0x80 0xBF b.

(** [std::str::from_utf8(..).is_ok()]: no overlong forms, no surrogates,
    nothing above U+10FFFF. *)
Fixpoint valid_utf8 (l : list Z) : bool :=
  match l with
  | [] => true
  | b0 :: r0 =>
      if b0 <? 0x80 then valid_utf8 r0
      else
        match r0 with
        | [] => false
        | b1 :: r1 =>
            if between 0xC2 0xDF b0 then cont b1 && valid_utf8 r1
            else
              match r1 with
              | [] => false
              | b2 :: r2 =>
                  if between 0xE0 0xEF b0 then
                    (if b0 =? 0xE0 then between 0xA0 0xBF b1
                     else if b0 =? 0xED then between 0x80 0x9F b1 else cont b1) &&
                    cont b2 && valid_utf8 r2
                  else
                    match r2 with
                    | [] => false
                    | b3 :: r3 =>
                        between 0xF0 0xF4 b0 &&
                        (if b0 =? 0xF0 then between 0x90 0xBF b1
                         else if b0 =? 0xF4 then between 0x80 0x8F b1 else cont b1) &&
                        cont b2 && cont b3 && valid_utf8 r3
                    end
              end
        end
  end.

(** Decimal digits of a non-negative integer. *)
Fixpoint dec_go (fuel : nat) (n : Z) (acc : list Z) : list Z :=
  match fuel with
  | O => acc
  | S f =>
      let acc := (48 + n mod 10) :: acc in
      if n / 10 =? 0 then acc else dec_go f (n / 10) acc
  end.

Definition to_dec (n : Z) : list Z := dec_go (S (Z.to_nat (Z.log2 n))) n [].

Definition is_digit (b : Z) : bool := between 48 57 b.

(** [uN::from_str_radix(_, 10)]: an optional [+], then digits, checked. *)
Fixpoint parse_digits (w acc : Z) (l : list Z) : option Z :=
  match l with
  | [] => Some acc
  | b :: r =>
      if is_digit b then
        let v := acc * 10 + (b - 48) in
        if v <? 2 ^ w then parse_digits w v r else None
      else None
  end.

Definition parse_uint (w : Z) (l : list Z) : option Z :=
  match l with
  | [] => None
  | b :: r =>
      if b =? 43 then match r with [] => None | _ => parse_digits w 0 r end
      else parse_digits w 0 l
  end.

(** [str::strip_prefix]. *)
Fixpoint strip_prefix (p l : list Z) : option (list Z) :=
  match p, l with
  | [], _ => Some l
  | a :: p, b :: l => if a =? b then strip_prefix p l else None
  | _ :: _, [] => None
  end.

Fixpoint position0 (l : list Z) : option Z :=
  match l with
  | [] => None
  | b :: r => if b =? 0 then Some 0 else let* n := position0 r in Some (1 + n)
  end.

(** Byte-list equality, as [==] on slices. *)
Definition bytes_eqb (a b : list Z) : bool := bool_decide (a = b).

(** ** Facts *)
Lemma between_spec lo hi b : between lo hi b = true <-> lo <= b <= hi.
Proof. unfold between. rewrite andb_true_iff, !Z.leb_le. done. Qed.

Lemma ascii_utf8 l : Forall (fun b => b < 128) l -> valid_utf8 l = true.
Proof.
  induction 1 as [|b l Hb _ IH]; [done|]. simpl. by rewrite (proj2 (Z.ltb_lt _ _)) by lia.
Qed.

Definition dec_val (l : list Z) : Z := fold_left (fun a b => a * 10 + (b - 48)) l 0.

Lemma dec_go_spec fuel : forall n acc, 0 <= n < 10 ^ Z.of_nat fuel -> (0 < fuel)%nat ->
  exists ds, dec_go fuel n acc = ds ++ acc /\ ds <> [] /\ Forall (fun b => is_digit b = true) ds /\
    dec_val ds = n.
Proof.
  induction fuel as [|f IH]; intros n acc Hn Hf; [lia|]. cbn [dec_go].
  assert (Hd : is_digit (48 + n mod 10) = true)
    by (pose proof (Z.mod_pos_bound n 10); apply between_spec; lia).
  pose proof (Z.div_mod n 10). destruct (Z.eqb_spec (n / 10) 0) as [E|E].
  - exists [48 + n mod 10]. repeat split; [done|by constructor|]. unfold dec_val. simpl. lia.
  - assert (0 <= n / 10) by (apply Z.div_pos; lia).
    assert (Hlt : n / 10 < 10 ^ Z.of_nat f).
    { apply Z.div_lt_upper_bound; [lia|]. replace (Z.of_nat (S f)) with (1 + Z.of_nat f) in Hn by lia.
      rewrite Z.pow_add_r in Hn by lia. lia. }
    destruct f as [|f]; [simpl in Hlt; lia|].
    destruct (IH (n / 10) ((48 + n mod 10) :: acc)) as (ds & -> & Hne & HF & Hv); [lia|lia|].
    exists (ds ++ [48 + n mod 10]). rewrite <- app_assoc. repeat split.
    + by destruct ds.
    + apply Forall_app. split; [done|by constructor].
    + unfold dec_val in *. rewrite fold_left_app, Hv. simpl. lia.
Qed.

Lemma to_dec_spec n : 0 <= n ->
  to_dec n <> [] /\ Forall (fun b => is_digit b = true) (to_dec n) /\ dec_val (to_dec n) = n.
Proof.
  intros Hn. unfold to_dec. destruct (dec_go_spec (S (Z.to_nat (Z.log2 n))) n []) as (ds & -> & H).
  - split; [done|]. pose proof (Z.log2_nonneg n).
    replace (Z.of_nat (S (Z.to_nat (Z.log2 n)))) with (Z.succ (Z.log2 n)) by lia.
    destruct (Z.eq_dec n 0) as [-> |]; [done|].
    apply Z.lt_le_trans with (2 ^ Z.succ (Z.log2 n)); [apply Z.log2_spec; lia|].
    apply Z.pow_le_mono_l. lia.
  - lia.
  - by rewrite app_nil_r.
Qed.

Lemma fold_dec_mono l : Forall (fun b => is_digit b = true) l -> forall a, 0 <= a ->
  a <= fold_left (fun a b => a * 10 + (b - 48)) l a.
Proof.
  induction 1 as [|b l Hb _ IH]; intros a Ha; simpl; [lia|].
  apply between_spec in Hb.
  etransitivity; [|apply IH]; lia.
Qed.

Lemma parse_digits_val w l : Forall (fun b => is_digit b = true) l -> forall a, 0 <= a ->
  fold_left (fun a b => a * 10 + (b - 48)) l a < 2 ^ w ->
  parse_digits w a l = Some (fold_left (fun a b => a * 10 + (b - 48)) l a).
Proof.
  induction 1 as [|b l Hb HF IH]; intros a Ha Hlt; [done|]. simpl in *. rewrite Hb.
  pose proof (proj1 (between_spec _ _ _) Hb).
  pose proof (fold_dec_mono l HF (a * 10 + (b - 48))).
  rewrite (proj2 (Z.ltb_lt _ _)) by lia. apply IH; lia.
Qed.

Lemma parse_digits_nonneg w l : forall a n, 0 <= a -> parse_digits w a l = Some n -> 0 <= n.
Proof.
  induction l as [|b l IH]; intros a n Ha H; simpl in H; [by injection H as <-|].
  destruct (is_digit b) eqn:E; [|done]. apply between_spec in E.
  destruct (_ <? _); [|done]. apply IH in H; lia.
Qed.

Lemma parse_uint_nonneg w l n : parse_uint w l = Some n -> 0 <= n.
Proof.
  unfold parse_uint. destruct l as [|b r]; [done|]. destruct (b =? 43).
  - destruct r; [done|]. by apply parse_digits_nonneg.
  - by apply parse_digits_nonneg.
Qed.

(** Printing then parsing an unsigned integer gives it back. *)
Lemma parse_to_dec w n : fits w n -> parse_uint w (to_dec n) = Some n.
Proof.
  intros [H0 H1]. destruct (to_dec_spec n H0) as (Hne & HF & Hv). unfold parse_uint.
  destruct (to_dec n) as [|b r] eqn:E; [done|]. pose proof (Forall_cons_1 _ _ _ HF) as [Hb _].
  apply between_spec in Hb.
  rewrite (proj2 (Z.eqb_neq _ _)) by lia. unfold dec_val in Hv.
  rewrite parse_digits_val; [by f_equal|done|lia|lia].
Qed.

Lemma to_dec_ascii n : 0 <= n -> Forall (fun b => 48 <= b <= 57) (to_dec n).
Proof.
  intros H. destruct (to_dec_spec n H) as (_ & HF & _).
  induction HF as [|b l Hb _ IH]; constructor; [by apply between_spec|done].
Qed.

Lemma strip_prefix_app p l : strip_prefix p (p ++ l) = Some l.
Proof. induction p as [|a p IH]; [done|]. simpl. by rewrite Z.eqb_refl. Qed.

Lemma strip_prefix_inv p l r : strip_prefix p l = Some r -> l = p ++ r.
Proof.
  revert l. induction p as [|a p IH]; intros l H; simpl in H; [by injection H as <-|].
  destruct l as [|b l]; [done|]. destruct (Z.eqb_spec a b) as [-> |]; [|done]. simpl. f_equal. by apply IH.
Qed.

Lemma position0_app l rest :
  Forall (fun b => b <> 0) l -> position0 (l ++ 0 :: rest) = Some (zlen l).
Proof.
  induction 1 as [|b l Hb _ IH]; [done|]. simpl. rewrite (proj2 (Z.eqb_neq _ _)) by done.
  rewrite IH. by rewrite zlen_cons.
Qed.

Lemma position0_inv l n : position0 l = Some n ->
  0 <= n < zlen l /\ exists rest, l = ztake n l ++ 0 :: rest.
Proof.
  revert n. induction l as [|b l IH]; intros n H; [done|]. simpl in H. rewrite zlen_cons.
  pose proof (zlen_nonneg l). destruct (Z.eqb_spec b 0) as [-> |].
  - injection H as <-. split; [lia|]. by exists l.
  - destruct (position0 l) as [k|]; [|done]. injection H as <-.
    destruct (IH k eq_refl) as (Hk & rest & E). split; [lia|]. exists rest.
    unfold ztake in *. replace (Z.to_nat (1 + k)) with (S (Z.to_nat k)) by lia. simpl. by f_equal.
Qed.

End Text.
