(* ===== verification/WalRecord.v ===== *)
(** * Parsed WAL records, classification and main-data payloads

    [src/filter/classify.rs], [src/filter/main_data.rs] and the routing types
    of [src/record.rs].  A parsed record is what the [walrus] parser hands
    out: the fields below are the ones the filter reads. *)
From stdpp Require Import strings.
From S2P Require Import Prelude.

Module WalRecord.

Record RelFileNode := MkRfn { spc_node : Z; db_node : Z; rel_node : Z }.

#[global] Instance rfn_eq_dec : EqDecision RelFileNode.
Proof. solve_decision. Defined.

#[global] Instance rfn_countable : Countable RelFileNode.
Proof.
  refine (inj_countable' (fun r => (spc_node r, db_node r, rel_node r))
    (fun '(a, b, c) => MkRfn a b c) _). by intros [].
Defined.

Record ImageHeader := MkImage { hole_offset : Z; hole_length : Z; bimg_info : Z }.

Record Block := MkBlock
  { rel : RelFileNode; block_no : Z; has_image : bool; image_header : ImageHeader;
    image : list Z; data : list Z }.

Record XLogRecord := MkRecord
  { resource_manager_id : Z;
    info : Z;
    xact_id : Z;
    total_record_length : Z;
    toplevel_xid : Z;
    blocks : list Block;
    main_data : list Z }.

(** [RmId] discriminants, in [rmgrlist.h] order. *)
Definition RM_XLOG := 0.
Definition RM_XACT := 1.
Definition RM_SMGR := 2.
Definition RM_CLOG := 3.
Definition RM_DBASE := 4.
Definition RM_TBLSPC := 5.
Definition RM_MULTIXACT := 6.
Definition RM_RELMAP := 7.
Definition RM_STANDBY := 8.
Definition RM_HEAP2 := 9.
Definition RM_HEAP := 10.
Definition RM_BTREE := 11.
Definition RM_HASH := 12.
Definition RM_GIN := 13.
Definition RM_GIST := 14.
Definition RM_SPGIST := 16.
Definition RM_BRIN := 17.
Definition RM_COMMIT_TS := 18.
Definition RM_REPL_ORIGIN := 19.
Definition RM_GENERIC := 20.

Definition FIRST_NORMAL_OBJECT_ID := 16384.

(** [Route]. *)
Inductive Route := ToShadow | ToDecoder | ToBoth.

#[global] Instance route_eq_dec : EqDecision Route.
Proof. solve_decision. Defined.

(** ** Classification *)
Inductive Class := Catalog | User | Special | Empty.

#[global] Instance class_eq_dec : EqDecision Class.
Proof. solve_decision. Defined.

Definition rmgr_is_special (rm : Z) : bool :=
  (rm =? RM_XLOG) || (rm =? RM_XACT) || (rm =? RM_CLOG) || (rm =? RM_MULTIXACT) ||
  (rm =? RM_STANDBY) || (rm =? RM_RELMAP) || (rm =? RM_COMMIT_TS) || (rm =? RM_REPL_ORIGIN) ||
  (rm =? RM_DBASE) || (rm =? RM_TBLSPC) || (rm =? RM_SMGR).

Definition XLOG_FPI_FOR_HINT := 0xA0.
Definition XLOG_FPI := 0xB0.

Definition is_page_image (r : XLogRecord) : bool :=
  (resource_manager_id r =? RM_XLOG) &&
  ((Z.land (info r) 0xF0 =? XLOG_FPI) || (Z.land (info r) 0xF0 =? XLOG_FPI_FOR_HINT)).

Definition is_catalog_relnode (rel_node : Z) : bool :=
  negb (rel_node =? 0) && (rel_node <? FIRST_NORMAL_OBJECT_ID).

(** The block loop of [classify]. *)
Fixpoint classify_blocks (bs : list Block) (saw_user : bool) : Class :=
  match bs with
  | [] => if saw_user then User else Empty
  | b :: rest =>
      let r := rel_node (rel b) in
      if is_catalog_relnode r then Catalog
      else classify_blocks rest (if negb (r =? 0) then true else saw_user)
  end.

Definition classify (r : XLogRecord) : Class :=
  if rmgr_is_special (resource_manager_id r) && negb (is_page_image r) then Special
  else match blocks r with [] => Empty | bs => classify_blocks bs false end.

(** ** Summary counters; additions on [u64] counters wrap. *)
Record ClassCount := MkClassCount { cc_records : Z; cc_bytes : Z }.
Record RmgrCount := MkRmgrCount
  { rc_records : Z; rc_bytes : Z; rc_catalog : Z; rc_user : Z; rc_special : Z; rc_empty : Z }.

Record Summary := MkSummary
  { s_records : Z; s_bytes : Z; by_class : gmap string ClassCount; by_rmgr : gmap string RmgrCount }.

Definition class_key (c : Class) : string :=
  match c with
  | Catalog => "catalog" | User => "user" | Special => "special" | Empty => "empty"
  end.

Definition bump_class (c : Class) (rc : RmgrCount) : RmgrCount :=
  let i := fun z => uadd 64 z 1 in
  match c with
  | Catalog => MkRmgrCount (rc_records rc) (rc_bytes rc) (i (rc_catalog rc)) (rc_user rc) (rc_special rc) (rc_empty rc)
  | User => MkRmgrCount (rc_records rc) (rc_bytes rc) (rc_catalog rc) (i (rc_user rc)) (rc_special rc) (rc_empty rc)
  | Special => MkRmgrCount (rc_records rc) (rc_bytes rc) (rc_catalog rc) (rc_user rc) (i (rc_special rc)) (rc_empty rc)
  | Empty => MkRmgrCount (rc_records rc) (rc_bytes rc) (rc_catalog rc) (rc_user rc) (rc_special rc) (i (rc_empty rc))
  end.

(** [Summary::observe]; [label] is [rmgr_label] of the record. *)
Definition observe (s : Summary) (r : XLogRecord) (label : string) : Summary :=
  let class := classify r in
  let bytes := total_record_length r in
  let cc := default (MkClassCount 0 0) (by_class s !! class_key class) in
  let cc := MkClassCount (uadd 64 (cc_records cc) 1) (uadd 64 (cc_bytes cc) bytes) in
  let rc := default (MkRmgrCount 0 0 0 0 0 0) (by_rmgr s !! label) in
  let rc := MkRmgrCount (uadd 64 (rc_records rc) 1) (uadd 64 (rc_bytes rc) bytes)
              (rc_catalog rc) (rc_user rc) (rc_special rc) (rc_empty rc) in
  MkSummary (uadd 64 (s_records s) 1) (uadd 64 (s_bytes s) bytes)
    (<[class_key class := cc]> (by_class s)) (<[label := bump_class class rc]> (by_rmgr s)).

(** A record is a catalog record exactly when a block names a catalog. *)
Lemma classify_blocks_catalog bs : forall u,
  classify_blocks bs u = Catalog <-> Exists (fun b => is_catalog_relnode (rel_node (rel b)) = true) bs.
Proof.
  induction bs as [|b bs IH]; intros u; simpl.
  - destruct u; split; try done; intros H; inversion H.
  - destruct (is_catalog_relnode (rel_node (rel b))) eqn:E.
    + split; [|done]. intros _. by left.
    + rewrite IH. split; [by right|]. intros H. inversion H; subst; [congruence|done].
Qed.

Lemma classify_blocks_user bs : forall u,
  classify_blocks bs u = User ->
  Forall (fun b => is_catalog_relnode (rel_node (rel b)) = false) bs.
Proof.
  induction bs as [|b bs IH]; intros u; simpl; [constructor|].
  destruct (is_catalog_relnode (rel_node (rel b))) eqn:E; [done|].
  intros H. constructor; [done|]. by eapply IH.
Qed.

End WalRecord.

(** ** Payloads carried in main data ([main_data.rs]) *)
Module MainData.
Import WalRecord.

Definition XLOG_HEAP2_NEW_CID := 0x70.
Definition XLOG_BTREE_REUSE_PAGE := 0xD0.
Definition NEW_CID_LOCATOR_OFFSET := 16.
Definition NEW_CID_MIN_SIZE := 34.
Definition BTREE_REUSE_PAGE_MIN_SIZE := 25.
Definition HEAP_TRUNCATE_HEADER_SIZE := 12.

Record HeapTruncate := MkTruncate { db_oid : Z; flags : Z; relids : list Z }.

Definition parse_xl_heap_truncate (md : list Z) : option HeapTruncate :=
  if zlen md <? HEAP_TRUNCATE_HEADER_SIZE then None
  else
    let db := u32_at md 0 in
    let nrelids := u32_at md 4 in
    let fl := byte_at md 8 in
    let expected := HEAP_TRUNCATE_HEADER_SIZE + nrelids * 4 in
    if zlen md <? expected then None
    else
      Some (MkTruncate db fl
        (map (fun i => u32_at md (HEAP_TRUNCATE_HEADER_SIZE + i * 4)) (seqZ 0 nrelids))).

Definition XLOG_RUNNING_XACTS := 0x10.
Definition RUNNING_XACTS_NEXT_XID_OFFSET := 12.
Definition MIN_SIZE_OF_XACT_RUNNING_XACTS := 24.

Definition parse_running_xacts_next_xid (md : list Z) : option Z :=
  if zlen md <? MIN_SIZE_OF_XACT_RUNNING_XACTS then None
  else Some (u32_at md RUNNING_XACTS_NEXT_XID_OFFSET).

Definition XL_RELMAP_UPDATE_HEADER_SIZE := 12.

Record RelmapUpdate := MkRelmap { dbid : Z; tsid : Z; nbytes : Z }.

Definition parse_xl_relmap_update (md : list Z) : option RelmapUpdate :=
  if zlen md <? XL_RELMAP_UPDATE_HEADER_SIZE then None
  else
    let n := i32_at md 8 in
    if n <? 0 then None else Some (MkRelmap (u32_at md 0) (u32_at md 4) n).

Definition read_locator (md : list Z) (off : Z) : RelFileNode :=
  MkRfn (u32_at md off) (u32_at md (off + 4)) (u32_at md (off + 8)).

Definition XLOG_SMGR_CREATE := 0x10.
Definition MAIN_FORKNUM := 0.

Definition parse_xl_smgr_create (md : list Z) : option (RelFileNode * Z) :=
  if zlen md <? 16 then None else Some (read_locator md 0, i32_at md 12).

Definition relation_for_empty (r : XLogRecord) : option RelFileNode :=
  let rmid := resource_manager_id r in
  let info_high := Z.land (info r) 0xF0 in
  let md := main_data r in
  if (rmid =? RM_HEAP2) && (info_high =? XLOG_HEAP2_NEW_CID) then
    if zlen md <? NEW_CID_MIN_SIZE then None else Some (read_locator md NEW_CID_LOCATOR_OFFSET)
  else if (rmid =? RM_BTREE) && (info_high =? XLOG_BTREE_REUSE_PAGE) then
    if zlen md <? BTREE_REUSE_PAGE_MIN_SIZE then None else Some (read_locator md 0)
  else None.

(** *** The layouts, as Postgres writes them *)
Definition enc_truncate (t : HeapTruncate) (pad : list Z) : list Z :=
  le_enc 4 (db_oid t) ++ le_enc 4 (zlen (relids t)) ++ [flags t] ++ pad ++
  concat (map (le_enc 4) (relids t)).

Definition enc_locator (r : RelFileNode) : list Z :=
  le_enc 4 (spc_node r) ++ le_enc 4 (db_node r) ++ le_enc 4 (rel_node r).

Definition rfn_fits (r : RelFileNode) : Prop :=
  fits 32 (spc_node r) /\ fits 32 (db_node r) /\ fits 32 (rel_node r).

Lemma u32_enc z : fits 32 z -> le_dec (le_enc 4 z) = z.
Proof. intros H. apply le_dec_enc_small. exact H. Qed.

(** The [k]-th element of an array of 4-byte words behind a header. *)
Lemma u32_at_array pre l k x :
  Forall (fits 32) l -> l !! k = Some x ->
  u32_at (pre ++ concat (map (le_enc 4) l)) (zlen pre + Z.of_nat k * 4) = x.
Proof.
  revert pre k. induction l as [|y l IH]; intros pre k HF Hk; [done|].
  apply Forall_cons_1 in HF as [Hy HF]. cbn [map concat]. destruct k as [|k].
  - injection Hk as <-. unfold u32_at. gets. by apply u32_enc.
  - rewrite app_assoc. replace (zlen pre + Z.of_nat (S k) * 4) with
      (zlen (pre ++ le_enc 4 y) + Z.of_nat k * 4) by zlen. by apply IH.
Qed.

Lemma zlen_array l : zlen (concat (map (le_enc 4) l)) = 4 * zlen l.
Proof. induction l as [|y l IH]; [done|]. cbn [map concat]. rewrite zlen_app, zlen_cons, zlen_le_enc, IH. lia. Qed.

(** Parsing a [TRUNCATE] payload gives back what was logged, whatever the
    padding, and rejects any payload shorter than it announces. *)
Lemma truncate_roundtrip t pad rest :
  fits 32 (db_oid t) -> Forall (fits 32) (relids t) -> zlen (relids t) < 2 ^ 32 -> zlen pad = 3 ->
  parse_xl_heap_truncate (enc_truncate t pad ++ rest) = Some t.
Proof.
  intros Hdb Hr Hn Hp. destruct t as [db fl rs]. cbn [db_oid flags relids] in *.
  set (md := enc_truncate (MkTruncate db fl rs) pad ++ rest).
  pose proof (zlen_nonneg rs). pose proof (zlen_nonneg rest). pose proof (zlen_array rs) as Ha.
  assert (Hlen : zlen md = 12 + 4 * zlen rs + zlen rest) by (unfold md, enc_truncate; cbn [db_oid flags relids]; zlen).
  assert (E0 : u32_at md 0 = db).
  { unfold md, enc_truncate, u32_at. cbn [db_oid flags relids]. rewrite <- !app_assoc. gets. by apply u32_enc. }
  assert (E4 : u32_at md 4 = zlen rs).
  { unfold md, enc_truncate, u32_at. cbn [db_oid flags relids]. rewrite <- !app_assoc. gets. apply u32_enc. by split. }
  assert (E8 : byte_at md 8 = fl).
  { unfold md, enc_truncate. cbn [db_oid flags relids]. rewrite <- !app_assoc. gets. cbn [app]. gets. done. }
  unfold parse_xl_heap_truncate, HEAP_TRUNCATE_HEADER_SIZE. cbv zeta. rewrite E0, E4, E8, Hlen.
  rewrite !(proj2 (Z.ltb_ge _ _)) by lia. do 2 f_equal.
  apply list_eq. intros k. rewrite list_lookup_fmap. destruct (rs !! k) as [x|] eqn:Ek.
  - pose proof (lookup_lt_Some _ _ _ Ek). rewrite lookup_seqZ_lt by (unfold zlen; lia). simpl. f_equal.
    unfold md, enc_truncate. cbn [db_oid flags relids].
    pose proof (u32_at_array (le_enc 4 db ++ le_enc 4 (zlen rs) ++ [fl] ++ pad) rs k x Hr Ek) as E.
    rewrite <- E. unfold u32_at. assert (Z.of_nat k < zlen rs) by (unfold zlen; lia). rewrite sub_app_l by zlen.
    rewrite !app_assoc. do 2 f_equal; zlen.
  - apply lookup_ge_None in Ek. rewrite lookup_seqZ_ge by (unfold zlen; lia). done.
Qed.

End MainData.
