(* ===== verification/XactPayload.v ===== *)
(** * Transaction record payloads ([src/decode/wal_xact.rs])

    Parsers that consume a cursor return the rest of the buffer.  Error
    strings are constructors of [What]. *)
From S2P Require Import Prelude.

Module XactPayload.

Definition PG_NAMESPACE_OID := 2615.

Definition XLOG_XACT_OPMASK := 0x70.
Definition XLOG_XACT_COMMIT := 0x00.
Definition XLOG_XACT_ABORT := 0x20.
Definition XLOG_XACT_COMMIT_PREPARED := 0x30.
Definition XLOG_XACT_ABORT_PREPARED := 0x40.
Definition XLOG_XACT_ASSIGNMENT := 0x50.
Definition XLOG_XACT_INVALIDATIONS := 0x60.
Definition XLOG_XACT_HAS_INFO := 0x80.

Definition XACT_XINFO_HAS_DBINFO := 1.
Definition XACT_XINFO_HAS_SUBXACTS := 2.
Definition XACT_XINFO_HAS_RELFILELOCATORS := 4.
Definition XACT_XINFO_HAS_INVALS := 8.
Definition XACT_XINFO_HAS_TWOPHASE := 16.
Definition XACT_XINFO_HAS_ORIGIN := 32.
Definition XACT_XINFO_HAS_GID := 128.
Definition XACT_XINFO_HAS_DROPPED_STATS := 256.

Record RelcacheInval := MkInval { inval_db_id : Z; rel_id : Z }.

Inductive NamespaceInval := NsEmpty | Shared | Unshared (db : Z) | Both (db : Z).

(** [NamespaceInval::mark], arm by arm. *)
Definition mark (self : NamespaceInval) (db_id : Z) : NamespaceInval :=
  match self with
  | NsEmpty => if db_id =? 0 then Shared else Unshared db_id
  | Shared => if db_id =? 0 then Shared else Both db_id
  | Unshared db => if db_id =? 0 then Both db else if db_id =? db then self else Shared
  | Both db => if db_id =? 0 then Both db else if db_id =? db then self else Shared
  end.

Definition hits (self : NamespaceInval) (local : Z -> bool) : bool :=
  match self with
  | NsEmpty => false
  | Shared => local 0
  | Unshared db => local db
  | Both db => local 0 || local db
  end.

Record InvalSet := MkInvals { relcache : list RelcacheInval; namespace : NamespaceInval }.

Definition inval_default : InvalSet := MkInvals [] NsEmpty.

Record XactCommitPayload := MkPayload
  { xact_time : Z; subxacts : list Z; twophase_xid : option Z; invals : InvalSet;
    db_id : option Z }.

(** What a payload error names. *)
Inductive What :=
| WXactTime | WXinfo | WDbinfo | WSubxactCount | WSubxact | WRelfilelocators | WDroppedStats
| WInvalCount | WInvalMsg | WUnknownSinval (id : Z) | WTwophaseXid | WGidTerminator | WOrigin
| WAssignment.

Inductive XactPayloadError :=
| Malformed (what : What)
| ForeignScope (db_id target : Z)
| MixedScope (first second : Z).

(** [take::<N>]: [split_at_checked]. *)
Definition take_n (n : Z) (data : list Z) : option (list Z * list Z) :=
  if n <=? zlen data then Some (ztake n data, zdrop n data) else None.

Definition take_u32 (data : list Z) : option (Z * list Z) :=
  let* (v, rest) := take_n 4 data in Some (le_dec v, rest).

Definition take_i64 (data : list Z) : option (Z * list Z) :=
  let* (v, rest) := take_n 8 data in Some (signed 64 (le_dec v), rest).

(** [take_count]: a negative count consumes its bytes and fails. *)
Definition take_count (data : list Z) : option (Z * list Z) :=
  let* (v, rest) := take_n 4 data in
  let n := signed 32 (le_dec v) in
  if n <? 0 then None else Some (n, rest).

(** [for _ in 0..count { push(take_u32(data)?) }]. *)
Fixpoint take_u32s (count : nat) (data : list Z) : option (list Z * list Z) :=
  match count with
  | O => Some ([], data)
  | S count =>
      let* (x, rest) := take_u32 data in
      let* (xs, rest) := take_u32s count rest in
      Some (x :: xs, rest)
  end.

Definition parse_xact_assignment (data : list Z) : option (Z * list Z) :=
  let* (top, rest) := take_u32 data in
  let* (count, rest) := take_count rest in
  let* (subs, _) := take_u32s (Z.to_nat count) rest in
  Some (top, subs).

Definition stats_item_width (page_magic : Z) : Z := if 0xD118 <=? page_magic then 16 else 12.

Definition namespace_catcache_ids (page_magic : Z) : list Z :=
  if 0xD118 <=? page_magic then [37; 38] else [35; 36].

(** One sinval message of [take_invals]. *)
Definition inval_msg (page_magic : Z) (out : InvalSet) (msg : list Z)
    : result XactPayloadError InvalSet :=
  let db := u32_at msg 4 in
  let arg := u32_at msg 8 in
  let id := signed 8 (byte_at msg 0) in
  if id =? -2 then Ok (MkInvals (relcache out ++ [MkInval db arg]) (namespace out))
  else if (id =? -1) && (arg =? PG_NAMESPACE_OID) then
    Ok (MkInvals (relcache out) (mark (namespace out) db))
  else if existsb (Z.eqb id) (namespace_catcache_ids page_magic) then
    Ok (MkInvals (relcache out) (mark (namespace out) db))
  else if (-6 <=? id) && (id <=? -1) then Ok out
  else if 0 <=? id then Ok out
  else Err (Malformed (WUnknownSinval id)).

Fixpoint inval_loop (count : nat) (data : list Z) (page_magic : Z) (out : InvalSet)
    : result XactPayloadError (InvalSet * list Z) :=
  match count with
  | O => Ok (out, data)
  | S count =>
      let? (msg, rest) := ok_or (take_n 16 data) (Malformed WInvalMsg) in
      let? out := inval_msg page_magic out msg in
      inval_loop count rest page_magic out
  end.

Definition take_invals (data : list Z) (page_magic : Z) (out : InvalSet)
    : result XactPayloadError (InvalSet * list Z) :=
  let? (count, rest) := ok_or (take_count data) (Malformed WInvalCount) in
  inval_loop (Z.to_nat count) rest page_magic out.

Definition parse_xact_invalidations (data : list Z) (page_magic : Z)
    : result XactPayloadError InvalSet :=
  let? (out, _) := take_invals data page_magic inval_default in
  Ok out.

(** [skip_counted]; [checked_mul] cannot overflow below [2^31 * 16]. *)
Definition skip_counted (data : list Z) (xinfo flag width : Z) : option (list Z) :=
  if Z.land xinfo flag =? 0 then Some data
  else
    let* (count, rest) := take_count data in
    let* (_, rest) := take_n (count * width) rest in
    Some rest.

(** [data.iter().position(|b| *b == 0)]. *)
Fixpoint position0 (data : list Z) : option nat :=
  match data with
  | [] => None
  | b :: rest => if b =? 0 then Some O else let* n := position0 rest in Some (S n)
  end.

Definition has (xinfo flag : Z) : bool := negb (Z.land xinfo flag =? 0).

(** The optional sections of [parse_xact_payload], in order. *)
Definition take_dbinfo (xinfo : Z) (data : list Z) : result XactPayloadError (option Z * list Z) :=
  if has xinfo XACT_XINFO_HAS_DBINFO then
    let? (db, rest) := ok_or (take_u32 data) (Malformed WDbinfo) in
    let? (_, rest) := ok_or (take_u32 rest) (Malformed WDbinfo) in
    Ok (Some db, rest)
  else Ok (None, data).

Definition take_subxacts (xinfo : Z) (data : list Z) : result XactPayloadError (list Z * list Z) :=
  if has xinfo XACT_XINFO_HAS_SUBXACTS then
    let? (count, rest) := ok_or (take_count data) (Malformed WSubxactCount) in
    ok_or (take_u32s (Z.to_nat count) rest) (Malformed WSubxact)
  else Ok ([], data).

Definition take_twophase (xinfo : Z) (data : list Z) : result XactPayloadError (option Z * list Z) :=
  if has xinfo XACT_XINFO_HAS_TWOPHASE then
    let? (xid, rest) := ok_or (take_u32 data) (Malformed WTwophaseXid) in
    if has xinfo XACT_XINFO_HAS_GID then
      let? n := ok_or (position0 rest) (Malformed WGidTerminator) in
      Ok (Some xid, drop (S n) rest)
    else Ok (Some xid, rest)
  else Ok (None, data).

Definition parse_xact_payload (info : Z) (data : list Z) (page_magic : Z)
    : result XactPayloadError XactCommitPayload :=
  let? (time, data) := ok_or (take_i64 data) (Malformed WXactTime) in
  let? (xinfo, data) :=
    if negb (Z.land info XLOG_XACT_HAS_INFO =? 0) then ok_or (take_u32 data) (Malformed WXinfo)
    else Ok (0, data) in
  let? (db, data) := take_dbinfo xinfo data in
  let? (subs, data) := take_subxacts xinfo data in
  let? data := ok_or (skip_counted data xinfo XACT_XINFO_HAS_RELFILELOCATORS 12)
                 (Malformed WRelfilelocators) in
  let? data := ok_or (skip_counted data xinfo XACT_XINFO_HAS_DROPPED_STATS
                        (stats_item_width page_magic)) (Malformed WDroppedStats) in
  let? (inv, data) :=
    if has xinfo XACT_XINFO_HAS_INVALS then take_invals data page_magic inval_default
    else Ok (inval_default, data) in
  let? (tp, data) := take_twophase xinfo data in
  if has xinfo XACT_XINFO_HAS_ORIGIN && (zlen data <? 16) then Err (Malformed WOrigin)
  else Ok (MkPayload time subs tp inv db).

(** ** The record as Postgres lays it out *)

(** A 16-byte [SharedInvalidationMessage]: signed id, padding, database, a
    relation or catalog oid, and four bytes the parser ignores. *)
Record Msg := MkMsg { m_id : Z; m_pad : list Z; m_db : Z; m_arg : Z; m_tail : list Z }.

Definition enc_msg (m : Msg) : list Z :=
  [wrap 8 (m_id m)] ++ m_pad m ++ le_enc 4 (m_db m) ++ le_enc 4 (m_arg m) ++ m_tail m.

Definition msg_ok (m : Msg) : Prop :=
  -6 <= m_id m < 128 /\ zlen (m_pad m) = 3 /\ fits 32 (m_db m) /\ fits 32 (m_arg m) /\
  zlen (m_tail m) = 4.

(** Optional sections of a commit or abort record. *)
Record Sections := MkSections
  { e_time : Z;
    e_db : option (Z * Z);
    e_subs : option (list Z);
    e_locators : option (list (list Z));
    e_stats : option (list (list Z));
    e_invals : option (list Msg);
    e_twophase : option (Z * option (list Z));
    e_origin : option (list Z) }.

Definition enc_counted (l : list (list Z)) : list Z := le_enc 4 (zlen l) ++ concat l.

Definition opt_enc {A} (f : A -> list Z) (o : option A) : list Z :=
  match o with Some x => f x | None => [] end.

Definition flag_if {A} (o : option A) (flag : Z) : Z := if is_some o then flag else 0.

Definition xinfo_of (s : Sections) : Z :=
  flag_if (e_db s) 1 + flag_if (e_subs s) 2 + flag_if (e_locators s) 4 + flag_if (e_invals s) 8 +
  flag_if (e_twophase s) 16 + flag_if (e_origin s) 32 +
  match e_twophase s with Some (_, Some _) => 128 | _ => 0 end + flag_if (e_stats s) 256.

Definition encode (s : Sections) : list Z :=
  le_enc 8 (wrap 64 (e_time s)) ++ le_enc 4 (xinfo_of s) ++
  opt_enc (fun d => le_enc 4 (fst d) ++ le_enc 4 (snd d)) (e_db s) ++
  opt_enc (fun l => enc_counted (map (le_enc 4) l)) (e_subs s) ++
  opt_enc enc_counted (e_locators s) ++
  opt_enc enc_counted (e_stats s) ++
  opt_enc (fun l => enc_counted (map enc_msg l)) (e_invals s) ++
  opt_enc (fun t => le_enc 4 (fst t) ++ opt_enc (fun gid => gid ++ [0]) (snd t)) (e_twophase s) ++
  opt_enc (fun o => o) (e_origin s).

Definition opt_all {A} (P : A -> Prop) (o : option A) : Prop :=
  match o with Some x => P x | None => True end.

Definition sections_ok (page_magic : Z) (s : Sections) : Prop :=
  - 2 ^ 63 <= e_time s < 2 ^ 63 /\
  opt_all (fun d => fits 32 (fst d) /\ fits 32 (snd d)) (e_db s) /\
  opt_all (fun l => Forall (fits 32) l /\ zlen l < 2 ^ 31) (e_subs s) /\
  opt_all (fun l => Forall (fun x => zlen x = 12) l /\ zlen l < 2 ^ 31) (e_locators s) /\
  opt_all (fun l => Forall (fun x => zlen x = stats_item_width page_magic) l /\ zlen l < 2 ^ 31)
    (e_stats s) /\
  opt_all (fun l => Forall msg_ok l /\ zlen l < 2 ^ 31) (e_invals s) /\
  opt_all (fun t => fits 32 (fst t) /\ opt_all (Forall (fun b => b <> 0)) (snd t)) (e_twophase s) /\
  opt_all (fun o => zlen o = 16) (e_origin s).

(** What the invalidations mean: relcache messages listed, namespace scopes
    folded, everything else ignored. *)
Definition is_namespace_msg (page_magic : Z) (m : Msg) : bool :=
  negb (m_id m =? -2) &&
  (((m_id m =? -1) && (m_arg m =? PG_NAMESPACE_OID)) ||
   existsb (Z.eqb (m_id m)) (namespace_catcache_ids page_magic)).

Definition meaning (page_magic : Z) (msgs : list Msg) : InvalSet :=
  MkInvals (map (fun m => MkInval (m_db m) (m_arg m)) (List.filter (fun m => m_id m =? -2) msgs))
    (fold_left mark (map m_db (List.filter (is_namespace_msg page_magic) msgs)) NsEmpty).

Definition payload_of (page_magic : Z) (s : Sections) : XactCommitPayload :=
  MkPayload (e_time s) (default [] (e_subs s)) (fst <$> e_twophase s)
    (default inval_default (meaning page_magic <$> e_invals s)) (fst <$> e_db s).

(** ** Round trip *)
Lemma take_n_app n a rest : zlen a = n -> take_n n (a ++ rest) = Some (a, rest).
Proof.
  intros <-. unfold take_n. rewrite zlen_app. pose proof (zlen_nonneg rest).
  rewrite (proj2 (Z.leb_le _ _)) by lia. by rewrite ztake_app_exact, zdrop_app_exact.
Qed.

Lemma take_u32_enc x rest : fits 32 x -> take_u32 (le_enc 4 x ++ rest) = Some (x, rest).
Proof.
  intros H. unfold take_u32. rewrite take_n_app by (by rewrite zlen_le_enc).
  rewrite le_dec_enc_small; [done|exact H].
Qed.

Lemma take_i64_enc x rest :
  - 2 ^ 63 <= x < 2 ^ 63 -> take_i64 (le_enc 8 (wrap 64 x) ++ rest) = Some (x, rest).
Proof.
  intros H. unfold take_i64. rewrite take_n_app by (by rewrite zlen_le_enc).
  rewrite le_dec_enc_small by (apply (wrap_fits 64); lia). do 2 f_equal.
  unfold signed, wrap. destruct (Z.lt_ge_cases x 0).
  - rewrite <- (Z.mod_add x 1) by lia. rewrite Z.mod_small by lia.
    rewrite (proj2 (Z.ltb_ge _ _)); lia.
  - rewrite Z.mod_small by lia. rewrite (proj2 (Z.ltb_lt _ _)); lia.
Qed.

Lemma take_count_enc n rest : 0 <= n < 2 ^ 31 -> take_count (le_enc 4 n ++ rest) = Some (n, rest).
Proof.
  intros H. unfold take_count. rewrite take_n_app by (by rewrite zlen_le_enc).
  rewrite le_dec_enc_small by lia. unfold signed. rewrite (proj2 (Z.ltb_lt n _)) by lia.
  rewrite (proj2 (Z.ltb_ge _ _)) by lia. done.
Qed.

Lemma take_u32s_enc l rest :
  Forall (fits 32) l -> take_u32s (length l) (concat (map (le_enc 4) l) ++ rest) = Some (l, rest).
Proof.
  induction 1 as [|x l Hx _ IH]; [done|]. cbn [map concat length take_u32s].
  rewrite <- app_assoc, take_u32_enc by done. by rewrite IH.
Qed.

Lemma zlen_concat w l : Forall (fun x : list Z => zlen x = w) l -> zlen (concat l) = zlen l * w.
Proof.
  induction 1 as [|x l Hx _ IH]; [done|]. cbn [concat]. rewrite zlen_app, zlen_cons. lia.
Qed.

Lemma skip_counted_enc l rest xinfo flag w :
  has xinfo flag = true -> Forall (fun x => zlen x = w) l -> zlen l < 2 ^ 31 ->
  skip_counted (enc_counted l ++ rest) xinfo flag w = Some rest.
Proof.
  intros Hh HF Hl. unfold skip_counted, enc_counted, has in *. pose proof (zlen_nonneg l).
  destruct (Z.land xinfo flag =? 0); [done|]. rewrite <- app_assoc, take_count_enc by lia.
  rewrite take_n_app; [done|]. by apply zlen_concat.
Qed.

Lemma signed8_wrap x : -128 <= x < 128 -> signed 8 (wrap 8 x) = x.
Proof.
  intros H. unfold signed, wrap. change (2 ^ 8) with 256. change (2 ^ (8 - 1)) with 128.
  destruct (Z.lt_ge_cases x 0).
  - rewrite <- (Z.mod_add x 1) by lia. rewrite Z.mod_small by lia.
    rewrite (proj2 (Z.ltb_ge _ _)); lia.
  - rewrite Z.mod_small by lia. rewrite (proj2 (Z.ltb_lt _ _)); lia.
Qed.

(** One message, read back. *)
Lemma inval_msg_enc magic out m :
  msg_ok m ->
  inval_msg magic out (enc_msg m) =
  Ok (MkInvals (relcache out ++ (if m_id m =? -2 then [MkInval (m_db m) (m_arg m)] else []))
        (if is_namespace_msg magic m then mark (namespace out) (m_db m) else namespace out)).
Proof.
  intros (Hid & Hp & Hd & Ha & Ht). unfold inval_msg.
  assert (E0 : byte_at (enc_msg m) 0 = wrap 8 (m_id m)) by reflexivity.
  assert (E4 : u32_at (enc_msg m) 4 = m_db m).
  { unfold enc_msg, u32_at. gets. by apply le_dec_enc_small. }
  assert (E8 : u32_at (enc_msg m) 8 = m_arg m).
  { unfold enc_msg, u32_at. gets. by apply le_dec_enc_small. }
  rewrite E0, E4, E8, signed8_wrap by lia. unfold is_namespace_msg.
  destruct (Z.eqb_spec (m_id m) (-2)) as [E|E]; [done|]. simpl.
  destruct ((m_id m =? -1) && (m_arg m =? PG_NAMESPACE_OID)); [by rewrite app_nil_r|]. simpl.
  destruct (existsb _ _); [by rewrite app_nil_r|]. rewrite app_nil_r.
  destruct out. bsplit; simpl; try done; lia.
Qed.

Lemma inval_loop_enc magic msgs : forall out rest,
  Forall msg_ok msgs ->
  inval_loop (length msgs) (concat (map enc_msg msgs) ++ rest) magic out =
  Ok (MkInvals
        (relcache out ++ map (fun m => MkInval (m_db m) (m_arg m)) (List.filter (fun m => m_id m =? -2) msgs))
        (fold_left mark (map m_db (List.filter (is_namespace_msg magic) msgs)) (namespace out)), rest).
Proof.
  induction msgs as [|m msgs IH]; intros out rest HF.
  - simpl. rewrite app_nil_r. by destruct out.
  - apply Forall_cons_1 in HF as [Hm HF]. cbn [map concat length inval_loop].
    pose proof Hm as (_ & Hp & _ & _ & Ht).
    rewrite <- app_assoc, take_n_app by (unfold enc_msg; zlen). cbn [ok_or].
    rewrite inval_msg_enc by done. rewrite IH by done. cbn [relcache namespace List.filter].
    destruct (m_id m =? -2) eqn:E; destruct (is_namespace_msg magic m) eqn:E';
      cbn [map fold_left]; rewrite <- ?app_assoc; done.
Qed.

Lemma take_invals_enc magic msgs rest :
  Forall msg_ok msgs -> zlen msgs < 2 ^ 31 ->
  take_invals (enc_counted (map enc_msg msgs) ++ rest) magic inval_default =
  Ok (meaning magic msgs, rest).
Proof.
  intros HF Hl. unfold take_invals, enc_counted. pose proof (zlen_nonneg msgs).
  assert (E : zlen (map enc_msg msgs) = zlen msgs) by (unfold zlen; by rewrite length_map).
  rewrite <- app_assoc, E, take_count_enc by lia. cbn [ok_or].
  replace (Z.to_nat (zlen msgs)) with (length msgs) by (unfold zlen; lia).
  by rewrite inval_loop_enc.
Qed.

(** Every section flag answers whether the section is there. *)
Lemma has_flags s :
  has (xinfo_of s) XACT_XINFO_HAS_DBINFO = is_some (e_db s) /\
  has (xinfo_of s) XACT_XINFO_HAS_SUBXACTS = is_some (e_subs s) /\
  has (xinfo_of s) XACT_XINFO_HAS_RELFILELOCATORS = is_some (e_locators s) /\
  has (xinfo_of s) XACT_XINFO_HAS_DROPPED_STATS = is_some (e_stats s) /\
  has (xinfo_of s) XACT_XINFO_HAS_INVALS = is_some (e_invals s) /\
  has (xinfo_of s) XACT_XINFO_HAS_TWOPHASE = is_some (e_twophase s) /\
  has (xinfo_of s) XACT_XINFO_HAS_GID = is_some (e_twophase s ≫= snd) /\
  has (xinfo_of s) XACT_XINFO_HAS_ORIGIN = is_some (e_origin s) /\
  fits 32 (xinfo_of s).
Proof.
  destruct s as [t d u l st i tp o]. unfold xinfo_of, flag_if. simpl.
  destruct d, u, l, st, i, o, tp as [[? []]|]; vm_compute; repeat split; discriminate.
Qed.

Lemma position0_enc gid rest :
  Forall (fun b => b <> 0) gid -> position0 (gid ++ 0 :: rest) = Some (length gid).
Proof.
  induction 1 as [|b gid Hb _ IH]; [done|]. simpl. rewrite (proj2 (Z.eqb_neq _ _)) by done.
  by rewrite IH.
Qed.

Section Parts.
Context (s : Sections) (rest : list Z).

Lemma take_dbinfo_enc :
  opt_all (fun d => fits 32 (fst d) /\ fits 32 (snd d)) (e_db s) ->
  take_dbinfo (xinfo_of s)
    (opt_enc (fun d => le_enc 4 (fst d) ++ le_enc 4 (snd d)) (e_db s) ++ rest) =
  Ok (fst <$> e_db s, rest).
Proof.
  intros H. unfold take_dbinfo. rewrite (proj1 (has_flags s)).
  destruct (e_db s) as [[a b]|]; [|done]. destruct H as [Ha Hb]. cbn [is_some opt_enc fst snd].
  rewrite <- app_assoc, take_u32_enc by done. cbn [ok_or]. by rewrite take_u32_enc.
Qed.

Lemma take_subxacts_enc :
  opt_all (fun l => Forall (fits 32) l /\ zlen l < 2 ^ 31) (e_subs s) ->
  take_subxacts (xinfo_of s)
    (opt_enc (fun l => enc_counted (map (le_enc 4) l)) (e_subs s) ++ rest) =
  Ok (default [] (e_subs s), rest).
Proof.
  intros H. unfold take_subxacts. rewrite (proj1 (proj2 (has_flags s))).
  destruct (e_subs s) as [l|]; [|done]. destruct H as [Ha Hb]. cbn [is_some opt_enc].
  unfold enc_counted. pose proof (zlen_nonneg l).
  assert (E : zlen (map (le_enc 4) l) = zlen l) by (unfold zlen; by rewrite length_map).
  rewrite <- app_assoc, E, take_count_enc by lia. cbn [ok_or].
  replace (Z.to_nat (zlen l)) with (length l) by (unfold zlen; lia).
  by rewrite take_u32s_enc.
Qed.

Lemma skip_section o flag w :
  has (xinfo_of s) flag = is_some o ->
  opt_all (fun l => Forall (fun x => zlen x = w) l /\ zlen l < 2 ^ 31) o ->
  skip_counted (opt_enc enc_counted o ++ rest) (xinfo_of s) flag w = Some rest.
Proof.
  intros Hf H. destruct o as [l|]; [by apply skip_counted_enc; destruct H|].
  unfold skip_counted, has in *. by destruct (Z.land (xinfo_of s) flag =? 0).
Qed.

Lemma take_twophase_enc :
  opt_all (fun t => fits 32 (fst t) /\ opt_all (Forall (fun b => b <> 0)) (snd t)) (e_twophase s) ->
  take_twophase (xinfo_of s)
    (opt_enc (fun t => le_enc 4 (fst t) ++ opt_enc (fun gid => gid ++ [0]) (snd t)) (e_twophase s)
       ++ rest) =
  Ok (fst <$> e_twophase s, rest).
Proof.
  intros H. unfold take_twophase. destruct (has_flags s) as (_ & _ & _ & _ & _ & -> & -> & _).
  destruct (e_twophase s) as [[x g]|]; [|done]. destruct H as [Hx Hg]. cbn [is_some opt_enc fst snd] in *.
  rewrite <- app_assoc, take_u32_enc by done. cbn [ok_or].
  destruct g as [g|]; [|done]. simpl in Hg |- *. rewrite <- app_assoc. simpl.
  rewrite position0_enc by done. simpl.
  replace (g ++ 0 :: rest) with ((g ++ [0]) ++ rest) by (by rewrite <- app_assoc).
  rewrite drop_app_length'; [done|]. rewrite length_app. simpl. lia.
Qed.
End Parts.

(** A commit or abort record laid out the way Postgres lays it out, with
    any choice of optional sections, parses to exactly what it carries: commit
    time, subtransaction xids, prepared xid, database, every relcache
    invalidation in order and the folded namespace scope; the relfilelocator,
    dropped-stats, GID and origin sections are stepped over at the right width. *)
Theorem parse_xact_payload_roundtrip (op page_magic : Z) (s : Sections) :
  Z.land op XLOG_XACT_HAS_INFO <> 0 -> sections_ok page_magic s ->
  parse_xact_payload op (encode s) page_magic = Ok (payload_of page_magic s).
Proof.
  intros Hop (Ht & Hdb & Hsub & Hloc & Hst & Hinv & Htp & Hor).
  destruct (has_flags s) as (_ & _ & Fl & Fs & Fi & _ & _ & Fo & Hx).
  unfold parse_xact_payload, encode. rewrite take_i64_enc by done. cbn [ok_or].
  rewrite (proj2 (Z.eqb_neq _ _)) by done. cbn [negb].
  rewrite take_u32_enc by done. cbn [ok_or].
  rewrite take_dbinfo_enc, take_subxacts_enc by done.
  rewrite (skip_section s _ (e_locators s)) by done. cbn [ok_or].
  rewrite (skip_section s _ (e_stats s)) by done. cbn [ok_or].
  rewrite Fi, Fo. unfold payload_of.
  destruct (e_invals s) as [msgs|]; cbn [is_some opt_enc].
  - destruct Hinv. rewrite take_invals_enc by done. rewrite take_twophase_enc by done.
    destruct (e_origin s); simpl in *; [|done]. by rewrite (proj2 (Z.ltb_ge _ _)) by lia.
  - cbn [app]. rewrite take_twophase_enc by done.
    destruct (e_origin s); simpl in *; [|done]. by rewrite (proj2 (Z.ltb_ge _ _)) by lia.
Qed.

Definition sample_sections : Sections :=
  MkSections (-5) (Some (16384, 1663)) (Some [701; 702]) (Some [repeat 1 12])
    (Some [repeat 2 16; repeat 3 16])
    (Some [MkMsg (-2) [0; 0; 0] 16384 24576 [0; 0; 0; 0]; MkMsg 37 [9; 9; 9] 16384 77 [1; 2; 3; 4];
           MkMsg (-1) [0; 0; 0] 0 2615 [0; 0; 0; 0]])
    (Some (700, Some [103; 105; 100])) (Some (repeat 7 16)).

Lemma parse_xact_payload_roundtrip_witness :
  sections_ok 53528 sample_sections /\
  parse_xact_payload 176 (encode sample_sections) 53528 =
    Ok (MkPayload (-5) [701; 702] (Some 700)
          (MkInvals [MkInval 16384 24576] (Both 16384)) (Some 16384)).
Proof.
  assert (H : sections_ok 53528 sample_sections).
  { unfold sections_ok, sample_sections, opt_all. cbn [e_time e_db e_subs e_locators e_stats e_invals e_twophase e_origin fst snd].
    unfold msg_ok, fits.
    repeat match goal with |- _ /\ _ => split | |- Forall _ _ => constructor end; try done; lia. }
  split; [exact H|].
  rewrite (parse_xact_payload_roundtrip 176 53528 sample_sections); [|done|exact H].
  vm_compute. reflexivity.
Defined.

(** ** Namespace scope *)

(** Databases a scope may have been folded from: at most one besides 0. *)
Definition one_backend (db : Z) (dbs : list Z) : Prop := Forall (fun d => d = 0 \/ d = db) dbs.

Definition scope_of (db : Z) (zero nonzero : bool) : NamespaceInval :=
  match zero, nonzero with
  | false, false => NsEmpty
  | true, false => Shared
  | false, true => Unshared db
  | true, true => Both db
  end.

Lemma mark_scope db z nz d :
  db <> 0 -> d = 0 \/ d = db ->
  mark (scope_of db z nz) d = scope_of db (z || (d =? 0)) (nz || (d =? db)).
Proof.
  intros Hdb [-> | ->]; rewrite ?Z.eqb_refl, ?(proj2 (Z.eqb_neq _ _)) by done;
    destruct z, nz; simpl; rewrite ?Z.eqb_refl, ?(proj2 (Z.eqb_neq db 0)) by done; done.
Qed.

Lemma hits_scope db z nz local :
  hits (scope_of db z nz) local = (z && local 0) || (nz && local db).
Proof. by destruct z, nz; simpl; rewrite ?orb_false_r. Qed.

Lemma fold_mark_scope db dbs : db <> 0 -> one_backend db dbs -> forall z nz,
  fold_left mark dbs (scope_of db z nz) =
  scope_of db (z || existsb (fun d => d =? 0) dbs) (nz || existsb (fun d => d =? db) dbs).
Proof.
  intros Hdb. induction 1 as [|d dbs Hd _ IH]; intros z nz; simpl; [by rewrite !orb_false_r|].
  by rewrite mark_scope, IH, !orb_assoc.
Qed.

Lemma mark_keeps local s d :
  local 0 = true -> hits s local || local d = true -> hits (mark s d) local = true.
Proof.
  intros H0 H. destruct s as [| |db|db]; simpl in *;
    destruct (Z.eqb_spec d 0) as [-> |]; try destruct (Z.eqb_spec d db) as [-> |]; simpl;
    rewrite ?H0 in *; rewrite ?orb_diag in *; done.
Qed.

Lemma fold_mark_keeps local dbs : local 0 = true -> forall s,
  hits s local || existsb local dbs = true -> hits (fold_left mark dbs s) local = true.
Proof.
  intros H0. induction dbs as [|d dbs IH]; intros s H; simpl in *; [by rewrite orb_false_r in H|].
  apply IH. rewrite orb_assoc in H. apply orb_true_iff in H as [H|H].
  - by rewrite (mark_keeps local s d H0 H).
  - by rewrite H, orb_true_r.
Qed.

(** Folding the namespace invalidations of a record into one scope never
    loses a database: if any of them concerns a database the caller follows
    (the shared scope 0 always counts) the fold hits; and when they come from
    one backend, so name at most one database besides 0, the fold hits exactly
    when one of them does, whatever the caller follows. *)
Theorem namespace_scope_spec (dbs : list Z) (local : Z -> bool) (db : Z) :
  (local 0 = true -> existsb local dbs = true -> hits (fold_left mark dbs NsEmpty) local = true) /\
  (db <> 0 -> one_backend db dbs -> hits (fold_left mark dbs NsEmpty) local = existsb local dbs).
Proof.
  split.
  - intros H0 H. by apply fold_mark_keeps.
  - intros Hdb H. change NsEmpty with (scope_of db false false).
    rewrite fold_mark_scope, hits_scope by done. simpl.
    induction H as [|d dbs Hd _ IH]; [done|]. simpl. rewrite <- IH.
    destruct Hd as [-> | ->]; rewrite ?Z.eqb_refl, ?(proj2 (Z.eqb_neq _ _)) by done; simpl;
      destruct (existsb (fun d => d =? 0) dbs), (existsb (fun d => d =? db) dbs), (local 0), (local db);
      done.
Qed.

Lemma namespace_scope_spec_witness :
  hits (fold_left mark [16384; 0; 16385] NsEmpty) (fun d => (d =? 0) || (d =? 16385)) = true /\
  hits (fold_left mark [16384; 16384] NsEmpty) (Z.eqb 5) = false.
Proof.
  split.
  - exact (proj1 (namespace_scope_spec [16384; 0; 16385] (fun d => (d =? 0) || (d =? 16385)) 16384)
             eq_refl eq_refl).
  - rewrite (proj2 (namespace_scope_spec [16384; 16384] (Z.eqb 5) 16384)); [done|done|].
    by repeat (constructor; [by right|]).
Defined.

End XactPayload.
