(* ===== verification/Fpi.v ===== *)
(** * Full-page images and heap pages

    [src/decode/fpi.rs] ([restore_block_image]) and the line-pointer readers
    of [src/backfill/backup_page_walk.rs].  The decompressors and the reading
    of the compression bits belong to other crates and are parameters. *)
From stdpp Require Import strings.
From S2P Require Import Prelude WalRecord.

Module Fpi.
Import WalRecord.

Definition PAGE_BYTES := 8192.

Inductive Method := Pglz | Lz4 | Zstd.

Inductive FpiError :=
| NoImage
| UnknownCodec (bits : Z)
| BadHole (offset length : Z)
| PglzCorrupt
| Lz4Error (e : string)
| ZstdError (e : string)
| SizeMismatch (got expected : Z).

(** What other crates provide: [compression_method] and [is_compressed] read
    the image header's bits for a page magic; a decompressor gets the image and
    the room there is, and returns what it wrote. *)
Class Codecs := MkCodecs
  { compression_method : Z -> Z -> option Method;
    is_compressed : Z -> Z -> bool;
    pglz : list Z -> Z -> option (list Z);
    lz4 : list Z -> Z -> result string (list Z);
    zstd : list Z -> Z -> result string (list Z) }.

Section Restore.
Context `{C : Codecs}.

(** The codec arms: bytes written at the front of the scratch page. *)
Definition decoded_body (b : Block) (page_magic body_len : Z) : result FpiError (list Z) :=
  let info := bimg_info (image_header b) in
  let sized written :=
    if zlen written =? body_len then Ok written else Err (SizeMismatch (zlen written) body_len) in
  match compression_method info page_magic with
  | Some Pglz => match pglz (image b) body_len with Some w => sized w | None => Err PglzCorrupt end
  | Some Lz4 => match lz4 (image b) body_len with Ok w => sized w | Err e => Err (Lz4Error e) end
  | Some Zstd => match zstd (image b) body_len with Ok w => sized w | Err e => Err (ZstdError e) end
  | None =>
      if is_compressed info page_magic then Err (UnknownCodec info) else sized (image b)
  end.

Definition restore_block_image (b : Block) (page_magic : Z) : result FpiError (list Z) :=
  if negb (has_image b) then Err NoImage
  else
    let ho := hole_offset (image_header b) in
    let hl := hole_length (image_header b) in
    if PAGE_BYTES <? ho + hl then Err (BadHole ho hl)
    else
      let body_len := PAGE_BYTES - hl in
      let? body := decoded_body b page_magic body_len in
      let scratch := put (zrep PAGE_BYTES 0) 0 body in
      if 0 <? hl then
        let page := zrep PAGE_BYTES 0 in
        let page := put page 0 (sub scratch 0 ho) in
        Ok (put page (ho + hl) (sub scratch ho (ho + (PAGE_BYTES - ho - hl))))
      else Ok scratch.

(** ** Correctness *)

(** The page with its hole cut out. *)
Definition packed (page : list Z) (ho hl : Z) : list Z := ztake ho page ++ zdrop (ho + hl) page.

(** The image of a block holds the packed page under its method. *)
Definition stores (b : Block) (page_magic : Z) (body : list Z) : Prop :=
  match compression_method (bimg_info (image_header b)) page_magic with
  | Some Pglz => pglz (image b) (zlen body) = Some body
  | Some Lz4 => lz4 (image b) (zlen body) = Ok body
  | Some Zstd => zstd (image b) (zlen body) = Ok body
  | None => is_compressed (bimg_info (image_header b)) page_magic = false /\ image b = body
  end.

Lemma decoded_stores b magic body :
  stores b magic body -> decoded_body b magic (zlen body) = Ok body.
Proof.
  unfold stores, decoded_body. cbv zeta. destruct (compression_method _ _) as [[]|].
  - intros ->. by rewrite Z.eqb_refl.
  - intros ->. by rewrite Z.eqb_refl.
  - intros ->. by rewrite Z.eqb_refl.
  - intros [-> ->]. by rewrite Z.eqb_refl.
Qed.

Lemma decoded_len b magic n body : decoded_body b magic n = Ok body -> zlen body = n.
Proof.
  unfold decoded_body. cbv zeta. intros H.
  destruct (compression_method _ _) as [[]|];
    [destruct (pglz _ _) as [w|]|destruct (lz4 _ _) as [w|]|destruct (zstd _ _) as [w|]
    |destruct (is_compressed _ _)]; try done;
    match type of H with context [?x =? n] => destruct (Z.eqb_spec x n) end; congruence.
Qed.
End Restore.

(** The spread around the hole, on any page-sized scratch. *)
Lemma spread_page page ho hl :
  zlen page = PAGE_BYTES -> 0 <= ho -> 0 <= hl -> ho + hl <= PAGE_BYTES ->
  sub page ho (ho + hl) = zrep hl 0 ->
  let scratch := put (zrep PAGE_BYTES 0) 0 (packed page ho hl) in
  put (put (zrep PAGE_BYTES 0) 0 (sub scratch 0 ho)) (ho + hl)
    (sub scratch ho (ho + (PAGE_BYTES - ho - hl))) = page.
Proof.
  intros Hlen Hho Hhl Hle Hz. unfold packed. cbv zeta.
  pose (a := ztake ho page). pose (c := zdrop (ho + hl) page).
  assert (La : zlen a = ho) by (unfold a; rewrite zlen_ztake; lia).
  assert (Lc : zlen c = PAGE_BYTES - ho - hl) by (unfold c; rewrite zlen_zdrop; lia).
  assert (Hpage : page = a ++ zrep hl 0 ++ c).
  { rewrite <- Hz. unfold a, c. rewrite <- (ztake_zdrop_id ho page) at 1. f_equal.
    rewrite <- (ztake_zdrop_id hl (zdrop ho page)). f_equal.
    - unfold sub. f_equal. lia.
    - rewrite zdrop_zdrop by lia. f_equal. lia. }
  fold a. fold c.
  assert (E3 : forall x y z, 0 <= x -> 0 <= y -> 0 <= z -> x + y + z = PAGE_BYTES ->
            zrep PAGE_BYTES 0 = zrep x 0 ++ zrep y 0 ++ zrep z 0).
  { intros x y z ? ? ? E. unfold zrep. rewrite <- !replicate_add. f_equal. lia. }
  assert (Escratch : put (zrep PAGE_BYTES 0) 0 (a ++ c) = a ++ c ++ zrep hl 0).
  { rewrite (E3 ho (PAGE_BYTES - ho - hl) hl) by lia. rewrite app_assoc.
    rewrite put_here by zlen. by rewrite <- app_assoc. }
  rewrite Escratch. gets. rewrite Hpage, (E3 ho hl (PAGE_BYTES - ho - hl)) by lia. puts. done.
Qed.

(** A page whose hole is zero, stored with the hole cut out either raw or
    through a codec whose decompressor gives the stored bytes back, is restored
    byte for byte, whatever the hole. *)
Theorem restore_block_image_roundtrip `{C : Codecs} (b : Block) (page_magic : Z) (page : list Z) :
  let ho := hole_offset (image_header b) in
  let hl := hole_length (image_header b) in
  has_image b = true -> zlen page = PAGE_BYTES -> 0 <= ho -> 0 <= hl -> ho + hl <= PAGE_BYTES ->
  sub page ho (ho + hl) = zrep hl 0 ->
  stores b page_magic (packed page ho hl) ->
  restore_block_image b page_magic = Ok page.
Proof.
  cbv zeta. intros Himg Hlen Hho Hhl Hle Hz Hst. unfold restore_block_image. rewrite Himg. simpl negb. cbv iota zeta.
  rewrite (proj2 (Z.ltb_ge _ _)) by lia. apply decoded_stores in Hst.
  assert (Hb : zlen (packed page (hole_offset (image_header b)) (hole_length (image_header b)))
               = PAGE_BYTES - hole_length (image_header b)) by (unfold packed; zlen).
  rewrite Hb in Hst. rewrite Hst. destruct (Z.ltb_spec 0 (hole_length (image_header b))) as [H|H].
  - by rewrite spread_page.
  - assert (E0 : hole_length (image_header b) = 0) by lia. unfold packed. rewrite E0, Z.add_0_r, ztake_zdrop_id.
    f_equal. apply put_all; [done|]. rewrite zlen_zrep. lia.
Qed.

(** A toy codec for the witness: the image is the page itself. *)
Definition toy_codecs : Codecs := MkCodecs
  (fun info _ => if info =? 8 then Some Lz4 else None) (fun _ _ => false)
  (fun _ _ => None) (fun img _ => Ok img) (fun _ _ => Err "no zstd"%string).

Definition toy_page : list Z := zrep 100 7 ++ zrep 200 0 ++ zrep 7892 9.

Definition toy_block (info : Z) : Block :=
  MkBlock (MkRfn 1663 5 1259) 3 true (MkImage 100 200 info) (packed toy_page 100 200) [].

Lemma restore_block_image_roundtrip_witness :
  @restore_block_image toy_codecs (toy_block 8) 53528 = Ok toy_page /\ @restore_block_image toy_codecs (toy_block 0) 53528 = Ok toy_page.
Proof.
  split.
  - apply (@restore_block_image_roundtrip toy_codecs (toy_block 8) 53528 toy_page);
      vm_compute; done.
  - apply (@restore_block_image_roundtrip toy_codecs (toy_block 0) 53528 toy_page);
      vm_compute; done.
Defined.

(** Every image that is accepted gives a whole page; the rest is refused. *)
Lemma restore_ok_len `{C : Codecs} b magic page :
  0 <= hole_offset (image_header b) -> 0 <= hole_length (image_header b) ->
  restore_block_image b magic = Ok page -> zlen page = PAGE_BYTES.
Proof.
  intros Hho Hhl. unfold restore_block_image. destruct (has_image b); [|done]. simpl negb. cbv iota zeta.
  destruct (Z.ltb_spec PAGE_BYTES (hole_offset (image_header b) + hole_length (image_header b))); [done|].
  destruct (decoded_body _ _ _) as [body|] eqn:Eb; [|done]. apply decoded_len in Eb.
  assert (zlen (zrep PAGE_BYTES 0) = PAGE_BYTES) by (rewrite zlen_zrep; done).
  assert (L1 : zlen (put (zrep PAGE_BYTES 0) 0 body) = PAGE_BYTES) by (rewrite zlen_put; lia).
  destruct (0 <? _).
  - intros [= <-]. rewrite !zlen_put; [done|lia| |lia|].
    + rewrite zlen_sub; lia.
    + rewrite !zlen_put, zlen_sub; [lia|lia|lia|lia|]. rewrite zlen_sub; lia.
  - by intros [= <-].
Qed.

End Fpi.

(** ** Line pointers *)
Module HeapPage.

Definition SIZE_OF_PAGE_HEADER := 24.
Definition SIZE_OF_ITEM_ID := 4.
Definition LP_NORMAL := 1.

(** [page_tuple_bytes]: the tuple behind an item id, if the slot is normal
    and in bounds. *)
Definition page_tuple_bytes (page : list Z) (offnum : Z) : option (list Z) :=
  if (offnum =? 0) || (zlen page <? SIZE_OF_PAGE_HEADER) then None
  else
    let pd_lower := u16_at page 12 in
    let off := SIZE_OF_PAGE_HEADER + (offnum - 1) * SIZE_OF_ITEM_ID in
    if Z.min pd_lower (zlen page) <? off + SIZE_OF_ITEM_ID then None
    else
      let raw := u32_at page off in
      let lp_off := Z.land raw 0x7FFF in
      let lp_flags := Z.land (Z.shiftr raw 15) 0x3 in
      let lp_len := Z.land (Z.shiftr raw 17) 0x7FFF in
      if negb (lp_flags =? LP_NORMAL) || (lp_len =? 0) || (zlen page <? lp_off + lp_len) then None
      else Some (sub page lp_off (lp_off + lp_len)).

(** [page_max_offnum]; the cast to [u16] keeps the low bits. *)
Definition page_max_offnum (page : list Z) : Z :=
  if zlen page <? SIZE_OF_PAGE_HEADER then 0
  else wrap 16 (sat_sub (u16_at page 12) SIZE_OF_PAGE_HEADER / SIZE_OF_ITEM_ID).

(** [page_pd_lsn]: a little-endian word rotated left by 32. *)
Definition page_pd_lsn (page : list Z) : Z :=
  if zlen page <? SIZE_OF_PAGE_HEADER then 0
  else let v := u64_at page 0 in Z.lor (wrap 64 (Z.shiftl v 32)) (Z.shiftr v 32).

(** An item id, packed as Postgres packs it. *)
Definition item_id (off flags len : Z) : Z := off + 2 ^ 15 * flags + 2 ^ 17 * len.

Lemma item_id_fields off flags len :
  0 <= off < 2 ^ 15 -> 0 <= flags < 4 -> 0 <= len < 2 ^ 15 ->
  Z.land (item_id off flags len) 0x7FFF = off /\
  Z.land (Z.shiftr (item_id off flags len) 15) 0x3 = flags /\
  Z.land (Z.shiftr (item_id off flags len) 17) 0x7FFF = len /\
  fits 32 (item_id off flags len).
Proof.
  intros Ho Hf Hl. unfold item_id.
  change 0x7FFF with (Z.ones 15). change 0x3 with (Z.ones 2).
  rewrite !Z.land_ones, !Z.shiftr_div_pow2 by lia.
  split; [|split; [|split]].
  - symmetry. apply (Z.mod_unique_pos _ _ (flags + 4 * len)); lia.
  - assert (E : (off + 2 ^ 15 * flags + 2 ^ 17 * len) / 2 ^ 15 = flags + 4 * len)
      by (symmetry; apply (Z.div_unique_pos _ _ _ off); lia).
    rewrite E. symmetry. apply (Z.mod_unique_pos _ _ len); lia.
  - assert (E : (off + 2 ^ 15 * flags + 2 ^ 17 * len) / 2 ^ 17 = len)
      by (symmetry; apply (Z.div_unique_pos _ _ _ (off + 2 ^ 15 * flags)); lia).
    rewrite E. apply Z.mod_small. lia.
  - unfold fits. lia.
Qed.

(** A tuple found through its item id is the one the page stores there. *)
Lemma page_tuple_bytes_found page offnum off len :
  24 <= zlen page -> 1 <= offnum -> 24 + offnum * 4 <= u16_at page 12 -> 24 + offnum * 4 <= zlen page ->
  0 < len < 2 ^ 15 -> 0 <= off < 2 ^ 15 -> off + len <= zlen page ->
  u32_at page (24 + (offnum - 1) * 4) = item_id off LP_NORMAL len ->
  page_tuple_bytes page offnum = Some (sub page off (off + len)).
Proof.
  intros Hp Hn Hlow Hlen Hl Ho Hfit Hid. unfold page_tuple_bytes, SIZE_OF_PAGE_HEADER, SIZE_OF_ITEM_ID.
  rewrite (proj2 (Z.eqb_neq _ _)) by lia. rewrite (proj2 (Z.ltb_ge _ _)) by lia. cbn [orb]. cbv zeta iota.
  rewrite (proj2 (Z.ltb_ge _ _)) by lia. rewrite Hid.
  destruct (item_id_fields off LP_NORMAL len) as (-> & -> & -> & _); [lia|done|lia|].
  rewrite Z.eqb_refl. cbn [negb orb].
  rewrite (proj2 (Z.eqb_neq _ _)) by lia. rewrite (proj2 (Z.ltb_ge _ _)) by lia. done.
Qed.

End HeapPage.
