(* ===== verification/PgClass.v ===== *)
(** * Reading pg_class rows out of WAL

    [src/filter/pg_class_decoder.rs]: the row behind an insert, an update (with
    the bytes it shares with the old tuple left out of the record), an in-place
    update or a full-page image. *)
From stdpp Require Import strings.
From S2P Require Import Prelude Text WalRecord Fpi.

Module PgClass.
Import WalRecord Fpi HeapPage Text.

Definition XL_HEAP_HEADER_SIZE := 5.
Definition SIZE_OF_HEAP_TUPLE_HEADER := 23.
Definition T_HOFF_OFFSET := 22.
Definition SIZE_OF_HEAP_UPDATE := 14.
Definition XL_HEAP_UPDATE_FLAGS_OFFSET := 7.
Definition XL_HEAP_OLD_OFFNUM_OFFSET := 4.
Definition XL_HEAP_UPDATE_NEW_OFFNUM_OFFSET := 12.
Definition HEAP_UPDATE_OLD_BLOCK := 1.
Definition PG_CLASS_OID_OFFSET := 0.
Definition PG_CLASS_RELNAME_OFFSET := 4.
Definition NAME_LEN := 64.
Definition PG_CLASS_RELNAMESPACE_OFFSET := 68.
Definition PG_CLASS_RELFILENODE_OFFSET := 88.
Definition HEAP_OPMASK := 0x70.
Definition HEAP_INSERT_OP := 0x00.
Definition HEAP_DELETE_OP := 0x10.
Definition HEAP_UPDATE_OP := 0x20.
Definition HEAP_HOT_UPDATE_OP := 0x40.
Definition HEAP_INPLACE_OP := 0x70.
Definition XLH_UPDATE_PREFIX_FROM_OLD := 0x20.
Definition XLH_UPDATE_SUFFIX_FROM_OLD := 0x40.
Definition HEAP_INFO_NEW_TUPLE_OPS := [HEAP_INSERT_OP; HEAP_UPDATE_OP; HEAP_HOT_UPDATE_OP].
Definition PG_PUBLIC_NAMESPACE := 2200.

(** ** Rows *)
Record PgClassRow := MkRow { oid : Z; relname : list Z; relnamespace : Z; relfilenode : Z }.

(** [u32_at] of [from_columns]: a checked read. *)
Definition col_u32 (cols : list Z) (off : Z) : option Z :=
  let* b := get_range cols off (off + 4) in Some (le_dec b).

Definition from_columns (cols : list Z) : option PgClassRow :=
  let* o := col_u32 cols PG_CLASS_OID_OFFSET in
  let* n := get_range cols PG_CLASS_RELNAME_OFFSET (PG_CLASS_RELNAME_OFFSET + NAME_LEN) in
  let* ns := col_u32 cols PG_CLASS_RELNAMESPACE_OFFSET in
  let* rfn := col_u32 cols PG_CLASS_RELFILENODE_OFFSET in
  Some (MkRow o n ns rfn).

Definition from_tuple (tuple : list Z) : option PgClassRow :=
  let* t_hoff := zget tuple T_HOFF_OFFSET in
  let* cols := get_range tuple t_hoff (zlen tuple) in
  from_columns cols.

(** ["pg_temp_"]. *)
Definition PG_TEMP : list Z := [112; 103; 95; 116; 101; 109; 112; 95].

Definition rebuilt_catalog (self : PgClassRow) : option Z :=
  if (FIRST_NORMAL_OBJECT_ID <=? relnamespace self) || (relnamespace self =? PG_PUBLIC_NAMESPACE) then None
  else
    let* len := position0 (relname self) in
    let name := ztake len (relname self) in
    if negb (valid_utf8 name) then None
    else
      let* digits := strip_prefix PG_TEMP name in
      let* parent := parse_uint 32 digits in
      if negb (parent =? 0) && (parent <? FIRST_NORMAL_OBJECT_ID) && bytes_eqb digits (to_dec parent)
      then Some parent else None.

(** ** Slots *)
Record TupleSlots := MkSlots { ts_old : option (Z * Z); ts_new : option (Z * Z) }.

Definition slot (r : XLogRecord) (block : Z) (at_ : Z) : option (Z * Z) :=
  let* b := zget (blocks r) block in
  let* n := get_range (main_data r) at_ (at_ + 2) in
  Some (block_no b, le_dec n).

Definition tuple_slots (r : XLogRecord) : TupleSlots :=
  let op := Z.land (info r) HEAP_OPMASK in
  if (op =? HEAP_INSERT_OP) || (op =? HEAP_INPLACE_OP) then MkSlots None (slot r 0 0)
  else if op =? HEAP_DELETE_OP then MkSlots (slot r 0 XL_HEAP_OLD_OFFNUM_OFFSET) None
  else if (op =? HEAP_UPDATE_OP) || (op =? HEAP_HOT_UPDATE_OP) then
    let old_block := if HEAP_UPDATE_OLD_BLOCK <? zlen (blocks r) then HEAP_UPDATE_OLD_BLOCK else 0 in
    MkSlots (slot r old_block XL_HEAP_OLD_OFFNUM_OFFSET) (slot r 0 XL_HEAP_UPDATE_NEW_OFFNUM_OFFSET)
  else MkSlots None None.

(** ** Decoding *)
Inductive DecodeOutcome :=
| Decoded (row : PgClassRow)
| OidInPrefix (rfn : list (option Z))
| Undecoded.

Definition decoded_or (o : option PgClassRow) : DecodeOutcome :=
  match o with Some row => Decoded row | None => Undecoded end.

(** The relfilenode bytes an update logged past its shared prefix. *)
Definition logged_rfn (prefixlen : Z) (logged : list Z) : list (option Z) :=
  map (fun i =>
         let at_ := PG_CLASS_RELFILENODE_OFFSET + i - prefixlen in
         if at_ <? 0 then None else zget logged at_) [0; 1; 2; 3].

(** Block data of an insert or an update, after the prefix and suffix flags. *)
Definition decode_new_tuple (data : list Z) (has_prefix has_suffix : bool) : DecodeOutcome :=
  let skip := (if has_prefix then 2 else 0) + (if has_suffix then 2 else 0) in
  if zlen data <? skip + XL_HEAP_HEADER_SIZE then Undecoded
  else
    let prefixlen := if has_prefix then u16_at data 0 else 0 in
    let t_hoff := byte_at data (skip + XL_HEAP_HEADER_SIZE - 1) in
    if t_hoff <? SIZE_OF_HEAP_TUPLE_HEADER then Undecoded
    else
      let cds := skip + XL_HEAP_HEADER_SIZE + (t_hoff - SIZE_OF_HEAP_TUPLE_HEADER) in
      match get_range data cds (zlen data) with
      | None => Undecoded
      | Some logged =>
          if 0 <? prefixlen then OidInPrefix (logged_rfn prefixlen logged)
          else decoded_or (from_columns logged)
      end.

Section Decode.
Context `{C : Codecs}.

Definition decode_image (r : XLogRecord) (b : Block) (page_magic : Z) : DecodeOutcome :=
  match ts_new (tuple_slots r) with
  | None => Undecoded
  | Some (_, offnum) =>
      match restore_block_image b page_magic with
      | Err _ => Undecoded
      | Ok page => decoded_or (let* t := page_tuple_bytes page offnum in from_tuple t)
      end
  end.

Definition decode_pg_class_tuple (r : XLogRecord) (block_idx page_magic : Z) : DecodeOutcome :=
  match zget (blocks r) block_idx with
  | None => Undecoded
  | Some b =>
      if has_image b then decode_image r b page_magic
      else
        let op := Z.land (info r) HEAP_OPMASK in
        if op =? HEAP_INSERT_OP then decode_new_tuple (data b) false false
        else if (op =? HEAP_UPDATE_OP) || (op =? HEAP_HOT_UPDATE_OP) then
          if zlen (main_data r) <? SIZE_OF_HEAP_UPDATE then Undecoded
          else
            let flags := byte_at (main_data r) XL_HEAP_UPDATE_FLAGS_OFFSET in
            decode_new_tuple (data b)
              (negb (Z.land flags XLH_UPDATE_PREFIX_FROM_OLD =? 0))
              (negb (Z.land flags XLH_UPDATE_SUFFIX_FROM_OLD =? 0))
        else if op =? HEAP_INPLACE_OP then decoded_or (from_columns (data b))
        else Undecoded
  end.
End Decode.

(** [page_rows]: every row on a page, by offset number. *)
Definition page_rows (page : list Z) : list (Z * PgClassRow) :=
  omap (fun off =>
          let* t := page_tuple_bytes page off in
          let* row := from_tuple t in
          Some (off, row)) (seqZ 1 (page_max_offnum page)).

Definition info_carries_new_tuple_heap (info : Z) : bool :=
  existsb (Z.eqb (Z.land info HEAP_OPMASK)) HEAP_INFO_NEW_TUPLE_OPS.

Definition info_is_inplace (info : Z) : bool := Z.land info HEAP_OPMASK =? HEAP_INPLACE_OP.

Definition info_carries_new_tuple_heap2 (info : Z) : bool := false.

(** ** Rows as Postgres lays them out *)

(** Column data of a row: [oid, relname, relnamespace], four columns the
    decoder steps over (reltype, reloftype, relowner, relam), relfilenode and
    whatever follows. *)
Definition enc_cols (row : PgClassRow) (mid tail : list Z) : list Z :=
  le_enc 4 (oid row) ++ relname row ++ le_enc 4 (relnamespace row) ++ mid ++
  le_enc 4 (relfilenode row) ++ tail.

Definition row_ok (row : PgClassRow) (mid : list Z) : Prop :=
  fits 32 (oid row) /\ zlen (relname row) = 64 /\ fits 32 (relnamespace row) /\
  zlen mid = 16 /\ fits 32 (relfilenode row).

(** [xl_heap_header], the bitmap and padding up to the column data. *)
Definition enc_header (infomasks bitmap : list Z) : list Z :=
  infomasks ++ [23 + zlen bitmap] ++ bitmap.

Definition header_ok (infomasks bitmap : list Z) : Prop :=
  zlen infomasks = 4 /\ 23 + zlen bitmap < 256.

(** Block data of an update: the lengths shared with the old tuple, each
    present only when positive, the header, and the bytes in between. *)
Definition enc_len (n : Z) : list Z := if 0 <? n then le_enc 2 n else [].

Definition enc_update (prefixlen suffixlen : Z) (infomasks bitmap new_cols : list Z) : list Z :=
  enc_len prefixlen ++ enc_len suffixlen ++ enc_header infomasks bitmap ++
  sub new_cols prefixlen (zlen new_cols - suffixlen).

Lemma get_range_full (l : list Z) a b : 0 <= a -> a <= b -> b <= zlen l -> get_range l a b = Some (sub l a b).
Proof.
  intros. unfold get_range. by rewrite (proj2 (Z.leb_le _ _)), (proj2 (Z.leb_le _ _)),
    (proj2 (Z.leb_le _ _)) by lia.
Qed.

Lemma from_columns_enc row mid tail : row_ok row mid -> from_columns (enc_cols row mid tail) = Some row.
Proof.
  intros (Ho & Hn & Hs & Hm & Hf). unfold from_columns, col_u32.
  unfold PG_CLASS_OID_OFFSET, PG_CLASS_RELNAME_OFFSET, NAME_LEN, PG_CLASS_RELNAMESPACE_OFFSET,
    PG_CLASS_RELFILENODE_OFFSET.
  pose proof (zlen_nonneg tail).
  assert (L : zlen (enc_cols row mid tail) = 92 + zlen tail) by (unfold enc_cols; zlen).
  rewrite !get_range_full by lia.
  assert (E1 : sub (enc_cols row mid tail) 0 (0 + 4) = le_enc 4 (oid row)) by (unfold enc_cols; by gets).
  assert (E2 : sub (enc_cols row mid tail) 4 (4 + 64) = relname row) by (unfold enc_cols; by gets).
  assert (E3 : sub (enc_cols row mid tail) 68 (68 + 4) = le_enc 4 (relnamespace row)) by (unfold enc_cols; by gets).
  assert (E4 : sub (enc_cols row mid tail) 88 (88 + 4) = le_enc 4 (relfilenode row)) by (unfold enc_cols; by gets).
  rewrite E1, E2, E3, E4, !le_dec_enc_small by done. by destruct row.
Qed.

(** Block data, read back past the header whatever the bitmap. *)
Lemma decode_new_enc p q im bm logged :
  fits 16 p -> fits 16 q -> header_ok im bm ->
  decode_new_tuple (enc_len p ++ enc_len q ++ enc_header im bm ++ logged) (0 <? p) (0 <? q) =
  if 0 <? p then OidInPrefix (logged_rfn p logged) else decoded_or (from_columns logged).
Proof.
  intros Hp Hq [Him Hbm]. unfold fits in *. pose proof (zlen_nonneg bm). pose proof (zlen_nonneg logged).
  set (pre := enc_len p ++ enc_len q).
  set (skip := (if 0 <? p then 2 else 0) + (if 0 <? q then 2 else 0)).
  assert (Lpre : zlen pre = skip)
    by (unfold pre, skip, enc_len; destruct (0 <? p), (0 <? q); zlen).
  assert (E : enc_len p ++ enc_len q ++ enc_header im bm ++ logged =
              (pre ++ im) ++ [23 + zlen bm] ++ bm ++ logged)
    by (unfold pre, enc_header; by rewrite <- !app_assoc).
  assert (Epl : (if 0 <? p then u16_at (enc_len p ++ enc_len q ++ enc_header im bm ++ logged) 0 else 0) = p).
  { destruct (Z.ltb_spec 0 p) as [H'|H']; [|lia]. unfold enc_len at 1.
    rewrite (proj2 (Z.ltb_lt 0 p)) by done. unfold u16_at. gets. by apply le_dec_enc_small. }
  unfold decode_new_tuple. rewrite Epl. fold skip. rewrite E. clear E Epl. cbv zeta.
  unfold XL_HEAP_HEADER_SIZE, SIZE_OF_HEAP_TUPLE_HEADER.
  assert (Hb : byte_at ((pre ++ im) ++ [23 + zlen bm] ++ bm ++ logged) (skip + 5 - 1) = 23 + zlen bm).
  { rewrite byte_at_skip by zlen. apply byte_at_here. zlen. }
  rewrite Hb. assert (0 <= skip) by (unfold skip; destruct (0 <? p), (0 <? q); lia).
  assert (L : zlen ((pre ++ im) ++ [23 + zlen bm] ++ bm ++ logged) = skip + 5 + zlen bm + zlen logged) by zlen.
  rewrite L. rewrite !(proj2 (Z.ltb_ge _ _)) by lia. rewrite get_range_full by lia.
  assert (Es : sub ((pre ++ im) ++ [23 + zlen bm] ++ bm ++ logged) (skip + 5 + (23 + zlen bm - 23))
                 (skip + 5 + zlen bm + zlen logged) = logged).
  { rewrite !app_assoc. rewrite sub_skip by zlen. apply sub_all; zlen. }
  by rewrite Es.
Qed.

(** What each relfilenode byte of the outcome says: a byte that is there is
    the new tuple's; a byte that is missing lies in the shared prefix or the
    shared suffix. *)
Lemma logged_rfn_spec p q new i :
  0 < p -> 0 <= q -> p + q <= zlen new -> 0 <= i < 4 ->
  exists o, zget (logged_rfn p (sub new p (zlen new - q))) i = Some o /\
    match o with
    | Some b => zget new (88 + i) = Some b /\ p <= 88 + i < zlen new - q
    | None => 88 + i < p \/ zlen new - q <= 88 + i
    end.
Proof.
  intros Hp Hq Hpq Hi. exists
    (let at_ := 88 + i - p in if at_ <? 0 then None else zget (sub new p (zlen new - q)) at_).
  split.
  { unfold zget at 1. rewrite (proj2 (Z.leb_le _ _)) by lia. unfold logged_rfn, PG_CLASS_RELFILENODE_OFFSET.
    assert (Hc : i = 0 \/ i = 1 \/ i = 2 \/ i = 3) by lia.
    by destruct Hc as [-> |[-> |[-> | ->]]]. }
  cbv zeta. destruct (Z.ltb_spec (88 + i - p) 0); [left; lia|].
  unfold zget. rewrite !(proj2 (Z.leb_le _ _)) by lia. unfold sub, ztake, zdrop.
  destruct (decide (88 + i < zlen new - q)) as [Hlt|Hge].
  - rewrite lookup_take_lt by lia. rewrite lookup_drop.
    replace (Z.to_nat p + Z.to_nat (88 + i - p))%nat with (Z.to_nat (88 + i)) by lia.
    destruct (new !! Z.to_nat (88 + i)) as [b|] eqn:E; [split; [done|lia]|].
    apply lookup_ge_None in E. unfold zlen in *. lia.
  - rewrite lookup_take_ge by lia. right. lia.
Qed.

(** ** Catalog rebuilds *)

(** A row names the catalog being rebuilt exactly when it sits in an initdb
    namespace other than public and its name is [pg_temp_] followed by the
    canonical decimal of a catalog oid; leading zeros, signs, overflow and
    non-catalog oids are all refused. *)
Theorem rebuilt_catalog_spec (row : PgClassRow) (parent : Z) :
  rebuilt_catalog row = Some parent <->
  relnamespace row < FIRST_NORMAL_OBJECT_ID /\ relnamespace row <> PG_PUBLIC_NAMESPACE /\
  0 < parent < FIRST_NORMAL_OBJECT_ID /\
  exists rest, relname row = PG_TEMP ++ to_dec parent ++ 0 :: rest.
Proof.
  unfold rebuilt_catalog. split.
  - destruct (Z.leb_spec FIRST_NORMAL_OBJECT_ID (relnamespace row)); [done|]. cbn [orb].
    destruct (Z.eqb_spec (relnamespace row) PG_PUBLIC_NAMESPACE); [done|].
    destruct (position0 (relname row)) as [len|] eqn:En; [|done].
    destruct (valid_utf8 _); [|done]. cbn [negb].
    destruct (strip_prefix PG_TEMP _) as [ds|] eqn:Ed; [|done].
    destruct (parse_uint 32 ds) as [p|] eqn:Ep; [|done].
    destruct (Z.eqb_spec p 0); [done|]. cbn [negb andb].
    destruct (Z.ltb_spec p FIRST_NORMAL_OBJECT_ID); [|done]. cbn [andb].
    unfold bytes_eqb. case_bool_decide as Ec; [|done]. intros [= ->].
    apply strip_prefix_inv in Ed. apply position0_inv in En as (_ & rest & En).
    repeat split; [done|done| |done|].
    + apply parse_uint_nonneg in Ep. lia.
    + exists rest. by rewrite En, Ed, Ec, <- app_assoc.
  - intros (Hns & Hpub & Hp & rest & Hname).
    rewrite (proj2 (Z.leb_gt _ _)), (proj2 (Z.eqb_neq _ _)) by done. cbn [orb].
    pose proof (to_dec_ascii parent ltac:(lia)) as HF.
    assert (HF' : Forall (fun b => 0 < b < 128) (PG_TEMP ++ to_dec parent)).
    { apply Forall_app. split; [by repeat constructor|].
      eapply Forall_impl; [|exact HF]. simpl. lia. }
    rewrite Hname, app_assoc. rewrite position0_app by (eapply Forall_impl; [|exact HF']; simpl; lia).
    rewrite ztake_app_exact by done.
    rewrite ascii_utf8 by (eapply Forall_impl; [|exact HF']; simpl; lia). cbn [negb].
    rewrite strip_prefix_app, parse_to_dec by (unfold fits, FIRST_NORMAL_OBJECT_ID in *; lia).
    rewrite (proj2 (Z.eqb_neq _ _)), (proj2 (Z.ltb_lt _ _)) by lia. cbn [negb andb].
    unfold bytes_eqb. by rewrite bool_decide_true.
Qed.

End PgClass.
