(* ===== verification/CatalogTracker.v ===== *)
(** * The live set of catalog relfilenodes

    [src/filter/catalog_tracker.rs]: which relfilenodes are catalog storage, as
    learned from relation-map updates, pg_class writes, catalog rebuilds,
    full-page images and a seed query on the source.  Query results are
    arguments of [seed_rows]. *)
From stdpp Require Import strings.
From S2P Require Import Prelude Text WalRecord XactPayload Fpi PgClass.

Module CatalogTracker.
Import WalRecord MainData Fpi HeapPage PgClass Text.

Definition XLOG_RELMAP_UPDATE := 0x00.
Definition RELMAPPER_FILEMAGIC := 0x592717.
Definition MAX_MAPPINGS := 64.
Definition REL_MAP_FILE_SIZE := 4 + 4 + MAX_MAPPINGS * 8 + 4.
Definition PG_CLASS_OID := 1259.
Definition OPAQUE_CATALOG_OIDS := [2619; 2696; 2840; 2841; 3429; 3430; 3431; 3433].
Definition PG_NAMESPACE_OID := 2615.

Notation slot_key := (Z * Z * Z * Z)%type (only parsing).

Record CatalogTracker := MkTracker
  { nodes : gset (Z * Z);
    pg_class_filenode : gmap Z Z;
    pg_namespace_filenode : gmap Z Z;
    opaque_filenodes : gset (Z * Z);
    opaque_filenode_by_oid : gmap (Z * Z) Z;
    catalog_slots : gmap slot_key (Z * Z);
    catalog_rebuilds : gset Z;
    pg_class_transient : gmap Z Z;
    relmap_updates : Z;
    pg_class_writes_undecoded : Z;
    pg_class_writes_decoded : Z;
    pg_class_writes_oid_in_prefix : Z;
    seeded_from_source : Z;
    invalidation_signals_sent : Z }.

Definition new : CatalogTracker := MkTracker ∅ ∅ ∅ ∅ ∅ ∅ ∅ ∅ 0 0 0 0 0 0.

(** Field updates. *)
Definition set_nodes (f : gset (Z * Z) -> gset (Z * Z)) (t : CatalogTracker) : CatalogTracker :=
  MkTracker (f (nodes t)) (pg_class_filenode t) (pg_namespace_filenode t) (opaque_filenodes t)
    (opaque_filenode_by_oid t) (catalog_slots t) (catalog_rebuilds t) (pg_class_transient t)
    (relmap_updates t) (pg_class_writes_undecoded t) (pg_class_writes_decoded t)
    (pg_class_writes_oid_in_prefix t) (seeded_from_source t) (invalidation_signals_sent t).

Definition set_class_file (f : gmap Z Z -> gmap Z Z) (t : CatalogTracker) : CatalogTracker :=
  MkTracker (nodes t) (f (pg_class_filenode t)) (pg_namespace_filenode t) (opaque_filenodes t)
    (opaque_filenode_by_oid t) (catalog_slots t) (catalog_rebuilds t) (pg_class_transient t)
    (relmap_updates t) (pg_class_writes_undecoded t) (pg_class_writes_decoded t)
    (pg_class_writes_oid_in_prefix t) (seeded_from_source t) (invalidation_signals_sent t).

Definition set_namespace_file (f : gmap Z Z -> gmap Z Z) (t : CatalogTracker) : CatalogTracker :=
  MkTracker (nodes t) (pg_class_filenode t) (f (pg_namespace_filenode t)) (opaque_filenodes t)
    (opaque_filenode_by_oid t) (catalog_slots t) (catalog_rebuilds t) (pg_class_transient t)
    (relmap_updates t) (pg_class_writes_undecoded t) (pg_class_writes_decoded t)
    (pg_class_writes_oid_in_prefix t) (seeded_from_source t) (invalidation_signals_sent t).

Definition set_opaque (f : gset (Z * Z) -> gset (Z * Z)) (g : gmap (Z * Z) Z -> gmap (Z * Z) Z)
    (t : CatalogTracker) : CatalogTracker :=
  MkTracker (nodes t) (pg_class_filenode t) (pg_namespace_filenode t) (f (opaque_filenodes t))
    (g (opaque_filenode_by_oid t)) (catalog_slots t) (catalog_rebuilds t) (pg_class_transient t)
    (relmap_updates t) (pg_class_writes_undecoded t) (pg_class_writes_decoded t)
    (pg_class_writes_oid_in_prefix t) (seeded_from_source t) (invalidation_signals_sent t).

Definition set_slots (f : gmap slot_key (Z * Z) -> gmap slot_key (Z * Z)) (t : CatalogTracker)
    : CatalogTracker :=
  MkTracker (nodes t) (pg_class_filenode t) (pg_namespace_filenode t) (opaque_filenodes t)
    (opaque_filenode_by_oid t) (f (catalog_slots t)) (catalog_rebuilds t) (pg_class_transient t)
    (relmap_updates t) (pg_class_writes_undecoded t) (pg_class_writes_decoded t)
    (pg_class_writes_oid_in_prefix t) (seeded_from_source t) (invalidation_signals_sent t).

Definition set_rebuilds (f : gset Z -> gset Z) (t : CatalogTracker) : CatalogTracker :=
  MkTracker (nodes t) (pg_class_filenode t) (pg_namespace_filenode t) (opaque_filenodes t)
    (opaque_filenode_by_oid t) (catalog_slots t) (f (catalog_rebuilds t)) (pg_class_transient t)
    (relmap_updates t) (pg_class_writes_undecoded t) (pg_class_writes_decoded t)
    (pg_class_writes_oid_in_prefix t) (seeded_from_source t) (invalidation_signals_sent t).

Definition set_transient (f : gmap Z Z -> gmap Z Z) (t : CatalogTracker) : CatalogTracker :=
  MkTracker (nodes t) (pg_class_filenode t) (pg_namespace_filenode t) (opaque_filenodes t)
    (opaque_filenode_by_oid t) (catalog_slots t) (catalog_rebuilds t) (f (pg_class_transient t))
    (relmap_updates t) (pg_class_writes_undecoded t) (pg_class_writes_decoded t)
    (pg_class_writes_oid_in_prefix t) (seeded_from_source t) (invalidation_signals_sent t).

(** Counters: relmap updates, undecoded, decoded, oid in prefix, seeded,
    invalidation signals. *)
Definition count (dr du dd dp ds di : Z) (t : CatalogTracker) : CatalogTracker :=
  MkTracker (nodes t) (pg_class_filenode t) (pg_namespace_filenode t) (opaque_filenodes t)
    (opaque_filenode_by_oid t) (catalog_slots t) (catalog_rebuilds t) (pg_class_transient t)
    (uadd 64 (relmap_updates t) dr) (uadd 64 (pg_class_writes_undecoded t) du)
    (uadd 64 (pg_class_writes_decoded t) dd) (uadd 64 (pg_class_writes_oid_in_prefix t) dp)
    (uadd 64 (seeded_from_source t) ds) (uadd 64 (invalidation_signals_sent t) di).

Definition count_relmap := count 1 0 0 0 0 0.
Definition count_undecoded := count 0 1 0 0 0 0.
Definition count_decoded := count 0 0 1 0 0 0.
Definition count_in_prefix := count 0 0 0 1 0 0.
Definition count_signal := count 0 0 0 0 0 1.

(** [Observation]; [catalog] is [Observation::catalog]. *)
Record Observation := MkObs
  { catalog_write : bool; catalog_db_oid : option Z; pg_class_user_oid : option Z }.

Definition no_observation : Observation := MkObs false None None.
Definition catalog (db_oid : Z) : Observation := MkObs true (Some db_oid) None.

(** ** Queries *)
Definition add (t : CatalogTracker) (db_node rel_node : Z) : CatalogTracker :=
  set_nodes (fun n => {[(db_node, rel_node)]} ∪ n) t.

Definition is_catalog (t : CatalogTracker) (db_node rel_node : Z) : bool :=
  if rel_node =? 0 then false
  else if rel_node <? FIRST_NORMAL_OBJECT_ID then true
  else if db_node =? 0 then bool_decide ((0, rel_node) ∈ nodes t)
  else bool_decide ((db_node, rel_node) ∈ nodes t) || bool_decide ((0, rel_node) ∈ nodes t).

Definition is_opaque_catalog (t : CatalogTracker) (db rel : Z) : bool :=
  if bool_decide ((db, rel) ∈ opaque_filenodes t) then true
  else existsb (Z.eqb rel) OPAQUE_CATALOG_OIDS && negb (is_some (opaque_filenode_by_oid t !! (db, rel))).

Definition is_capture_all_catalog (t : CatalogTracker) (db rel : Z) : bool :=
  match pg_namespace_filenode t !! db with
  | Some fnum => fnum =? rel
  | None => rel =? PG_NAMESPACE_OID
  end.

Definition is_pg_class_relfilenode (t : CatalogTracker) (db rel : Z) : bool :=
  match pg_class_filenode t !! db with
  | Some fnum => fnum =? rel
  | None => rel =? PG_CLASS_OID
  end.

(** ** Learning *)
Definition learn_opaque (t : CatalogTracker) (db oid filenode : Z) : CatalogTracker :=
  let prev := opaque_filenode_by_oid t !! (db, oid) in
  set_opaque
    (fun s =>
       let s := match prev with
                | Some p => if negb (p =? filenode) then s ∖ {[(db, p)]} else s
                | None => s
                end in
       {[(db, filenode)]} ∪ s)
    (fun m => <[(db, oid) := filenode]> m) t.

Definition learn_catalog_row (t : CatalogTracker) (db oid relfilenode : Z) : CatalogTracker :=
  let t := add t db relfilenode in
  let t := if oid =? PG_NAMESPACE_OID then set_namespace_file (fun m => <[db := relfilenode]> m) t else t in
  if existsb (Z.eqb oid) OPAQUE_CATALOG_OIDS then learn_opaque t db oid relfilenode else t.

Definition set_slot (t : CatalogTracker) (key : slot_key) (catalog_row : option (Z * Z)) : CatalogTracker :=
  match catalog_row with
  | Some row => set_slots (fun m => <[key := row]> m) t
  | None => set_slots (fun m => delete key m) t
  end.

Definition learn_rebuild (t : CatalogTracker) (db : Z) (row : PgClassRow) (xid : Z) : CatalogTracker :=
  match rebuilt_catalog row with
  | None => t
  | Some parent =>
      let t := add t db (relfilenode row) in
      let t := if negb (xid =? 0) then set_rebuilds (fun s => {[xid]} ∪ s) t else t in
      if parent =? PG_CLASS_OID then set_transient (fun m => <[db := relfilenode row]> m) t else t
  end.

(** The row a catalog slot keeps: a non-zero oid below the first user oid. *)
Definition catalog_oid (o : Z) : bool := negb (o =? 0) && (o <? FIRST_NORMAL_OBJECT_ID).

Definition pg_class_block (t : CatalogTracker) (r : XLogRecord) : option (Z * Z) :=
  match blocks r with
  | [] => None
  | b :: _ =>
      let db := db_node (rel b) in
      let rl := rel_node (rel b) in
      if is_pg_class_relfilenode t db rl then Some (db, rl) else None
  end.

(** Missing relfilenode bytes come from the old row. *)
Definition merge_rfn (logged : list (option Z)) (old_rfn : Z) : Z :=
  le_dec (zip_with (fun o b => default b o) logged (le_enc 4 old_rfn)).

(** ** Relation-map updates *)
Definition apply_mapping (dbid : Z) (map : list Z) (t : CatalogTracker) (i : Z) : CatalogTracker :=
  let off := 8 + i * 8 in
  let mapoid := u32_at map off in
  let filenum := u32_at map (off + 4) in
  if negb (mapoid =? 0) && negb (filenum =? 0) then
    let t := add t dbid filenum in
    if mapoid =? PG_CLASS_OID then
      let t := set_class_file (fun m => <[dbid := filenum]> m) t in
      let t := set_slots (filter (fun '((d, r, _, _), _) => d ≠ dbid \/ r = filenum)) t in
      set_transient (fun m => delete dbid m) t
    else t
  else t.

Definition handle_relmap_update (t : CatalogTracker) (r : XLogRecord) : CatalogTracker * option Z :=
  let t := count_relmap t in
  let md := main_data r in
  match parse_xl_relmap_update md with
  | None => (t, None)
  | Some header =>
      if (zlen md <? XL_RELMAP_UPDATE_HEADER_SIZE + REL_MAP_FILE_SIZE)
         || negb (nbytes header =? REL_MAP_FILE_SIZE) then (t, None)
      else
        let map := sub md XL_RELMAP_UPDATE_HEADER_SIZE (XL_RELMAP_UPDATE_HEADER_SIZE + REL_MAP_FILE_SIZE) in
        if negb (i32_at map 0 =? RELMAPPER_FILEMAGIC) then (t, None)
        else
          let num_mappings := wrap 64 (i32_at map 4) in
          if MAX_MAPPINGS <? num_mappings then (t, None)
          else
            let t := fold_left (apply_mapping (dbid header) map) (seqZ 0 num_mappings) t in
            (count_signal t, Some (dbid header))
  end.

Section Observe.
Context `{C : Codecs}.

(** ** Full-page images *)
Definition learn_row (db rl blk : Z) (t : CatalogTracker) (e : Z * PgClassRow) : CatalogTracker :=
  let '(off, row) := e in
  if catalog_oid (oid row) then
    set_slots (fun m => <[(db, rl, blk, off) := (oid row, relfilenode row)]> m) t
  else t.

Definition learn_imaged_page (page_magic : Z) (t : CatalogTracker) (b : Block) : CatalogTracker :=
  let db := db_node (rel b) in
  let rl := rel_node (rel b) in
  let blk := block_no b in
  if negb (has_image b) ||
     negb (is_pg_class_relfilenode t db rl || bool_decide (pg_class_transient t !! db = Some rl))
  then t
  else
    let t := set_slots (filter (fun '((d, r, k, _), _) => (d, r, k) ≠ (db, rl, blk))) t in
    match restore_block_image b page_magic with
    | Err _ => t
    | Ok page => fold_left (learn_row db rl blk) (page_rows page) t
    end.

Definition learn_imaged_pages (t : CatalogTracker) (r : XLogRecord) (page_magic : Z) : CatalogTracker :=
  fold_left (learn_imaged_page page_magic) (blocks r) t.

(** ** pg_class writes *)
Definition harvest_decoded (t : CatalogTracker) (db xid : Z) (old : option (Z * Z)) (o : DecodeOutcome)
    : CatalogTracker * option Z * option (Z * Z) :=
  match o with
  | Decoded row =>
      let t := count_decoded t in
      let catalog_row :=
        if catalog_oid (oid row) && negb (relfilenode row =? 0) then Some (oid row, relfilenode row)
        else None in
      if FIRST_NORMAL_OBJECT_ID <=? oid row then (learn_rebuild t db row xid, Some (oid row), catalog_row)
      else (t, None, catalog_row)
  | OidInPrefix logged =>
      (count_in_prefix t, None,
       let* (o, old_rfn) := old in Some (o, merge_rfn logged old_rfn))
  | Undecoded => (count_undecoded t, None, None)
  end.

Definition harvest_pg_class_blocks (t : CatalogTracker) (r : XLogRecord) (page_magic : Z)
    : CatalogTracker * Observation :=
  match pg_class_block t r with
  | None => (t, no_observation)
  | Some (db, rl) =>
      let slots := tuple_slots r in
      let '(t, old) :=
        match ts_old slots with
        | Some (blk, off) =>
            (set_slots (delete (db, rl, blk, off)) t, catalog_slots t !! (db, rl, blk, off))
        | None => (t, None)
        end in
      let '(t, user_oid, catalog_row) :=
        harvest_decoded t db (xact_id r) old (decode_pg_class_tuple r 0 page_magic) in
      let t := match catalog_row with
               | Some (o, f) => learn_catalog_row t db o f
               | None => t
               end in
      let t := match ts_new slots with
               | Some (blk, off) => set_slot t (db, rl, blk, off) catalog_row
               | None => t
               end in
      (count_signal t, MkObs true (Some db) user_oid)
  end.

Definition learn_inplace (t : CatalogTracker) (r : XLogRecord) (page_magic : Z) : CatalogTracker :=
  match pg_class_block t r, ts_new (tuple_slots r) with
  | Some (db, rl), Some (blk, off) =>
      let row := match decode_pg_class_tuple r 0 page_magic with
                 | Decoded row => if catalog_oid (oid row) then Some (oid row, relfilenode row) else None
                 | _ => None
                 end in
      set_slot t (db, rl, blk, off) row
  | _, _ => t
  end.

Definition observe_delete (t : CatalogTracker) (r : XLogRecord) : CatalogTracker * Observation :=
  match pg_class_block t r with
  | None => (t, no_observation)
  | Some (db, rl) =>
      let t := match ts_old (tuple_slots r) with
               | Some (blk, off) => set_slots (delete (db, rl, blk, off)) t
               | None => t
               end in
      let t := set_rebuilds (fun s => s ∖ {[xact_id r]}) t in
      (count_signal t, catalog db)
  end.

Definition is_xact_end (r : XLogRecord) : bool :=
  let op := Z.land (info r) XactPayload.XLOG_XACT_OPMASK in
  (op =? XactPayload.XLOG_XACT_COMMIT) || (op =? XactPayload.XLOG_XACT_ABORT).

(** The heap tail of [observe], after the imaged pages are learned. *)
Definition observe_heap (t : CatalogTracker) (r : XLogRecord) (page_magic : Z)
    : CatalogTracker * Observation :=
  let rm := resource_manager_id r in
  let info_high := Z.land (info r) 0xF0 in
  let t := learn_imaged_pages t r page_magic in
  if ((rm =? RM_HEAP) && info_carries_new_tuple_heap info_high) ||
     ((rm =? RM_HEAP2) && info_carries_new_tuple_heap2 info_high)
  then harvest_pg_class_blocks t r page_magic
  else if (rm =? RM_HEAP) && info_is_inplace info_high then (learn_inplace t r page_magic, no_observation)
  else if (rm =? RM_HEAP) && (Z.land info_high 0x70 =? 0x10) then observe_delete t r
  else (t, no_observation).

Definition observe (t : CatalogTracker) (r : XLogRecord) (page_magic : Z) : CatalogTracker * Observation :=
  let rm := resource_manager_id r in
  let info_high := Z.land (info r) 0xF0 in
  if (rm =? RM_RELMAP) && (info_high =? XLOG_RELMAP_UPDATE) then
    match handle_relmap_update t r with
    | (t, Some db) => (t, catalog db)
    | (t, None) => (t, no_observation)
    end
  else
    match
      (if (rm =? RM_SMGR) && (info_high =? XLOG_SMGR_CREATE) &&
          bool_decide (xact_id r ∈ catalog_rebuilds t)
       then parse_xl_smgr_create (main_data r) else None)
    with
    | Some (rfn, _) => (add t (db_node rfn) (rel_node rfn), no_observation)
    | None =>
        if (rm =? RM_XACT) && is_xact_end r then
          (set_rebuilds (fun s => s ∖ {[xact_id r]}) t, no_observation)
        else observe_heap t r page_magic
    end.
End Observe.

(** ** Seeding *)

(** [parse_ctid]: [(block, offnum)] from tid text. *)
Definition strip_suffix (c : Z) (l : list Z) : option (list Z) :=
  match rev l with
  | b :: r => if b =? c then Some (rev r) else None
  | [] => None
  end.

Fixpoint split_once (c : Z) (l : list Z) : option (list Z * list Z) :=
  match l with
  | [] => None
  | b :: r => if b =? c then Some ([], r) else let* (x, y) := split_once c r in Some (b :: x, y)
  end.

Definition parse_ctid (text : list Z) : option (Z * Z) :=
  let* t := strip_prefix [40] text in
  let* t := strip_suffix 41 t in
  let* (b, o) := split_once 44 t in
  let* blk := parse_uint 32 b in
  let* off := parse_uint 16 o in
  Some (blk, off).

Record SeedRow := MkSeed { sd_db_node : Z; sd_oid : Z; sd_filenode : Z; sd_slot : list Z }.

Notation pending_slot := (Z * (Z * Z) * Z * Z)%type (only parsing).

(** One row of [seed_from_source]'s first loop. *)
Definition seed_row (acc : CatalogTracker * Z * list pending_slot) (row : SeedRow)
    : CatalogTracker * Z * list pending_slot :=
  let '(t, added, slots) := acc in
  if sd_filenode row =? 0 then (t, added, slots)
  else
    let slots :=
      if negb (sd_db_node row =? 0) then
        match parse_ctid (sd_slot row) with
        | Some s => slots ++ [(sd_db_node row, s, sd_oid row, sd_filenode row)]
        | None => slots
        end
      else slots in
    let fresh := negb (bool_decide ((sd_db_node row, sd_filenode row) ∈ nodes t)) in
    let t := add t (sd_db_node row) (sd_filenode row) in
    let added := if fresh then uadd 64 added 1 else added in
    let t := if sd_oid row =? PG_CLASS_OID then
               set_class_file (fun m => <[sd_db_node row := sd_filenode row]> m) t else t in
    let t := if sd_oid row =? PG_NAMESPACE_OID then
               set_namespace_file (fun m => <[sd_db_node row := sd_filenode row]> m) t else t in
    let t := if existsb (Z.eqb (sd_oid row)) OPAQUE_CATALOG_OIDS then
               learn_opaque t (sd_db_node row) (sd_oid row) (sd_filenode row) else t in
    (t, added, slots).

(** The second loop: slots the stream has not filled already. *)
Definition seed_slot (t : CatalogTracker) (e : pending_slot) : CatalogTracker :=
  let '(db, (blk, off), o, filenode) := e in
  let pg_class := default PG_CLASS_OID (pg_class_filenode t !! db) in
  match catalog_slots t !! (db, pg_class, blk, off) with
  | Some _ => t
  | None => set_slots (fun m => <[(db, pg_class, blk, off) := (o, filenode)]> m) t
  end.

Definition seed_from_source (t : CatalogTracker) (rows : list SeedRow) : CatalogTracker * Z :=
  let '(t, added, slots) := fold_left seed_row rows (t, 0, []) in
  let t := fold_left seed_slot slots t in
  (count 0 0 0 0 added 0 t, added).

(** ** Catalog storage is never forgotten *)
Inductive event :=
| EAdd (db_node rel_node : Z)
| ERecord (r : XLogRecord) (page_magic : Z)
| ESeed (rows : list SeedRow).

Definition exec `{C : Codecs} (t : CatalogTracker) (e : event) : CatalogTracker :=
  match e with
  | EAdd db rl => add t db rl
  | ERecord r magic => fst (observe t r magic)
  | ESeed rows => fst (seed_from_source t rows)
  end.

Definition grows (t t' : CatalogTracker) : Prop := nodes t ⊆ nodes t'.

#[global] Instance grows_preorder : PreOrder grows.
Proof. unfold grows. split; [intros t; done|]. intros a b c. apply transitivity. Qed.

Lemma same_nodes t t' : nodes t = nodes t' -> grows t t'.
Proof. unfold grows. by intros ->. Qed.

#[local] Hint Extern 0 (grows _ _) => (apply same_nodes; reflexivity) : core.

Lemma grows_add t db rl : grows t (add t db rl).
Proof. unfold grows. simpl. set_solver. Qed.

Lemma grows_fold {A} (f : CatalogTracker -> A -> CatalogTracker) l :
  (forall t x, grows t (f t x)) -> forall t, grows t (fold_left f l t).
Proof. intros Hf. induction l as [|x l IH]; intros t; simpl; [done|]. etransitivity; [apply Hf|apply IH]. Qed.

Lemma grows_learn_opaque t db o f : grows t (learn_opaque t db o f).
Proof. unfold grows, learn_opaque. done. Qed.

Lemma grows_learn_catalog_row t db o f : grows t (learn_catalog_row t db o f).
Proof.
  unfold learn_catalog_row. transitivity (add t db f); [apply grows_add|].
  destruct (o =? PG_NAMESPACE_OID); destruct (existsb _ _); done.
Qed.

Lemma grows_set_slot t k row : grows t (set_slot t k row).
Proof. by destruct row. Qed.

Lemma grows_learn_rebuild t db row xid : grows t (learn_rebuild t db row xid).
Proof.
  unfold learn_rebuild. destruct (rebuilt_catalog row); [|done].
  transitivity (add t db (relfilenode row)); [apply grows_add|].
  destruct (negb (xid =? 0)); destruct (_ =? PG_CLASS_OID); done.
Qed.

Lemma grows_apply_mapping dbid map t i : grows t (apply_mapping dbid map t i).
Proof.
  unfold apply_mapping. destruct (negb _ && negb _); [|done].
  transitivity (add t dbid (u32_at map (8 + i * 8 + 4))); [apply grows_add|].
  by destruct (_ =? PG_CLASS_OID).
Qed.

Lemma grows_relmap t r : grows t (fst (handle_relmap_update t r)).
Proof.
  unfold handle_relmap_update. cbv zeta. destruct (parse_xl_relmap_update _) as [h|]; [|done].
  destruct (_ || _); [done|]. destruct (negb _); [done|]. destruct (_ <? _); [done|]. simpl.
  transitivity (count_relmap t); [done|].
  apply (grows_fold (apply_mapping _ _)). intros. apply grows_apply_mapping.
Qed.

Section Grows.
Context `{C : Codecs}.

Lemma grows_imaged t r magic : grows t (learn_imaged_pages t r magic).
Proof.
  apply grows_fold. clear. intros t b. unfold learn_imaged_page. cbv zeta.
  destruct (_ || _); [done|]. destruct (restore_block_image _ _); [|done].
  etransitivity; [|apply grows_fold]; [done|]. intros t' [off row]. simpl. by destruct (catalog_oid _).
Qed.

Lemma grows_harvest_decoded t db xid old o : grows t (fst (fst (harvest_decoded t db xid old o))).
Proof.
  destruct o as [row| |]; simpl; [|done..]. destruct (_ <=? _); simpl; [|done].
  transitivity (count_decoded t); [done|]. apply grows_learn_rebuild.
Qed.

Lemma grows_harvest t r magic : grows t (fst (harvest_pg_class_blocks t r magic)).
Proof.
  unfold harvest_pg_class_blocks. destruct (pg_class_block t r) as [[db rl]|]; [|done]. cbv zeta.
  set (q := match ts_old (tuple_slots r) with Some _ => _ | None => _ end).
  assert (Hq : grows t (fst q)) by (unfold q; by destruct (ts_old (tuple_slots r)) as [[]|]).
  destruct q as [t1 old]. simpl in Hq.
  pose proof (grows_harvest_decoded t1 db (xact_id r) old (decode_pg_class_tuple r 0 magic)) as Hd.
  destruct (harvest_decoded _ _ _ _ _) as [[t2 u] row]. simpl in Hd.
  transitivity t2; [by transitivity t1|]. cbn [fst].
  set (t3 := match row with Some _ => _ | None => _ end).
  assert (H3 : grows t2 t3) by (unfold t3; destruct row as [[]|]; [apply grows_learn_catalog_row|done]).
  transitivity t3; [done|]. destruct (ts_new _) as [[]|]; [|done]. exact (grows_set_slot _ _ _).
Qed.

Lemma grows_observe t r magic : grows t (fst (observe t r magic)).
Proof.
  unfold observe. cbv zeta. destruct (_ && _).
  { pose proof (grows_relmap t r) as H. by destruct (handle_relmap_update t r) as [t' []]. }
  match goal with |- context [match ?x with Some _ => _ | None => _ end] =>
    destruct x as [[rfn fork]|] end; [apply grows_add|].
  destruct (_ && _); [done|]. unfold observe_heap. cbv zeta.
  transitivity (learn_imaged_pages t r magic); [apply grows_imaged|].
  destruct (_ || _); [apply grows_harvest|]. destruct (_ && _).
  - unfold learn_inplace. destruct (pg_class_block _ _) as [[]|]; [|done].
    destruct (ts_new _) as [[]|]; [|done]. apply grows_set_slot.
  - destruct (_ && _); [|done]. unfold observe_delete.
    destruct (pg_class_block _ _) as [[]|]; [|done]. by destruct (ts_old _) as [[]|].
Qed.

Lemma grows_seed_row acc row : grows (fst (fst acc)) (fst (fst (seed_row acc row))).
Proof.
  destruct acc as [[t a] sl]. unfold seed_row. destruct (_ =? 0); [done|]. cbv zeta. cbn [fst].
  transitivity (add t (sd_db_node row) (sd_filenode row)); [apply grows_add|].
  destruct (_ =? PG_CLASS_OID), (_ =? PG_NAMESPACE_OID), (existsb _ _); done.
Qed.

Lemma grows_seed t rows : grows t (fst (seed_from_source t rows)).
Proof.
  unfold seed_from_source.
  assert (H : forall acc, grows (fst (fst acc)) (fst (fst (fold_left seed_row rows acc)))).
  { induction rows as [|row rows IH]; intros acc; simpl; [done|].
    etransitivity; [apply grows_seed_row|apply IH]. }
  specialize (H (t, 0, [])). destruct (fold_left seed_row rows _) as [[t1 a] sl]. simpl in *.
  etransitivity; [exact H|]. apply (grows_fold seed_slot). intros t' [[[db [blk off]] o] f]. simpl.
  by destruct (catalog_slots t' !! _).
Qed.

Lemma grows_exec t e : grows t (exec t e).
Proof. destruct e; [apply grows_add|apply grows_observe|apply grows_seed]. Qed.
End Grows.

Lemma grows_is_catalog t t' db rl :
  grows t t' -> is_catalog t db rl = true -> is_catalog t' db rl = true.
Proof.
  unfold grows, is_catalog. intros H. destruct (rl =? 0); [done|]. destruct (_ <? _); [done|].
  destruct (db =? 0); rewrite ?orb_true_iff, !bool_decide_eq_true; set_solver.
Qed.

(** Once a relfilenode is known to be catalog storage, no record, seed or
    addition makes the tracker forget it: every later write to it is still
    routed as a catalog write. *)
Theorem catalog_never_forgotten `{C : Codecs} (t : CatalogTracker) (events : list event) (db rl : Z) :
  is_catalog t db rl = true -> is_catalog (fold_left exec events t) db rl = true.
Proof. apply grows_is_catalog. apply grows_fold. intros. apply grows_exec. Qed.

Lemma catalog_never_forgotten_witness :
  let t := add new 5 20000 in
  is_catalog t 5 20000 = true /\
  is_catalog (fold_left (@exec toy_codecs)
    [ESeed [MkSeed 5 1259 30000 []]; EAdd 0 40000] t) 5 20000 = true.
Proof. split; [done|]. by apply (@catalog_never_forgotten toy_codecs). Defined.

(** ** Relation-map updates as Postgres writes them *)
Definition flat (ms : list (Z * Z)) : list Z := concat (map (fun '(o, f) => [o; f]) ms).

Definition enc_relmap (dbid tsid : Z) (ms : list (Z * Z)) (crc rest : list Z) : list Z :=
  le_enc 4 dbid ++ le_enc 4 tsid ++ le_enc 4 REL_MAP_FILE_SIZE ++
  le_enc 4 RELMAPPER_FILEMAGIC ++ le_enc 4 (zlen ms) ++ concat (map (le_enc 4) (flat ms)) ++
  zrep ((MAX_MAPPINGS - zlen ms) * 8) 0 ++ crc ++ rest.

Definition apply_pair (dbid : Z) (t : CatalogTracker) (p : Z * Z) : CatalogTracker :=
  let '(mapoid, filenum) := p in
  if negb (mapoid =? 0) && negb (filenum =? 0) then
    let t := add t dbid filenum in
    if mapoid =? PG_CLASS_OID then
      let t := set_class_file (fun m => <[dbid := filenum]> m) t in
      let t := set_slots (filter (fun '((d, r, _, _), _) => d ≠ dbid \/ r = filenum)) t in
      set_transient (fun m => delete dbid m) t
    else t
  else t.

Lemma zlen_flat ms : zlen (flat ms) = 2 * zlen ms.
Proof. induction ms as [|[o f] ms IH]; [done|]. unfold flat in *. simpl. rewrite !zlen_cons, IH. lia. Qed.

Lemma flat_lookup ms k o f :
  ms !! k = Some (o, f) -> flat ms !! (2 * k)%nat = Some o /\ flat ms !! (S (2 * k))%nat = Some f.
Proof.
  revert k. induction ms as [|[o' f'] ms IH]; intros k H; [done|]. destruct k as [|k]; simpl in H.
  - by injection H as -> ->.
  - destruct (IH k H). replace (2 * S k)%nat with (S (S (2 * k))) by lia. done.
Qed.

Lemma fold_seqZ {A B} (f : B -> Z -> B) (g : B -> A -> B) (l : list A) : forall m t,
  (forall k x t, l !! k = Some x -> f t (m + Z.of_nat k) = g t x) ->
  fold_left f (seqZ m (zlen l)) t = fold_left g l t.
Proof.
  induction l as [|x l IH]; intros m t H; [done|]. rewrite zlen_cons. pose proof (zlen_nonneg l).
  rewrite seqZ_cons by lia. replace (Z.pred (1 + zlen l)) with (zlen l) by lia. cbn [fold_left].
  replace (f t m) with (g t x) by (rewrite <- (H O x t eq_refl); f_equal; lia). apply IH.
  intros k y t' Hk. rewrite <- (H (S k) y t' Hk). f_equal. lia.
Qed.

Lemma relmap_decoded dbid tsid ms crc rest t r :
  main_data r = enc_relmap dbid tsid ms crc rest ->
  fits 32 dbid -> fits 32 tsid -> zlen ms <= 64 -> zlen crc = 4 -> Forall (fits 32) (flat ms) ->
  handle_relmap_update t r =
  (count_signal (fold_left (apply_pair dbid) ms (count_relmap t)), Some dbid).
Proof.
  intros Hmd Hdb Hts Hn Hcrc HF. unfold handle_relmap_update. cbv zeta. rewrite Hmd.
  set (md := enc_relmap dbid tsid ms crc rest).
  pose proof (zlen_nonneg ms). pose proof (zlen_nonneg rest). pose proof (zlen_flat ms).
  pose proof (zlen_array (flat ms)) as Ha. unfold MAX_MAPPINGS in *.
  assert (L : zlen md = 536 + zlen rest)
    by (unfold md, enc_relmap, MAX_MAPPINGS; zlen).
  pose (body := le_enc 4 RELMAPPER_FILEMAGIC ++ le_enc 4 (zlen ms) ++ concat (map (le_enc 4) (flat ms)) ++
    zrep ((64 - zlen ms) * 8) 0 ++ crc).
  assert (Lb : zlen body = 524) by (unfold body; zlen).
  assert (Emd : md = (le_enc 4 dbid ++ le_enc 4 tsid ++ le_enc 4 REL_MAP_FILE_SIZE) ++ body ++ rest)
    by (unfold md, enc_relmap, body, MAX_MAPPINGS; by rewrite <- !app_assoc).
  assert (Hp : parse_xl_relmap_update md = Some (MkRelmap dbid tsid REL_MAP_FILE_SIZE)).
  { unfold parse_xl_relmap_update, XL_RELMAP_UPDATE_HEADER_SIZE. rewrite L.
    rewrite (proj2 (Z.ltb_ge _ _)) by lia. cbv zeta. rewrite Emd. unfold i32_at, u32_at.
    rewrite <- !app_assoc. gets. rewrite !u32_enc by done. done. }
  rewrite Hp. cbn [nbytes MainData.dbid]. unfold XL_RELMAP_UPDATE_HEADER_SIZE.
  change REL_MAP_FILE_SIZE with 524. rewrite L, (proj2 (Z.ltb_ge _ _)) by lia.
  rewrite Z.eqb_refl. cbn [negb orb].
  assert (Eb : sub md 12 (12 + 524) = body) by (rewrite Emd; by gets).
  rewrite Eb.
  assert (E0 : i32_at body 0 = RELMAPPER_FILEMAGIC) by (unfold i32_at, u32_at, body; by gets).
  assert (E4 : i32_at body 4 = zlen ms).
  { unfold i32_at, u32_at, body. gets. rewrite u32_enc by (unfold fits; lia). unfold signed.
    by rewrite (proj2 (Z.ltb_lt _ _)) by lia. }
  rewrite E0, E4, Z.eqb_refl, wrap_small by (unfold fits; lia). cbn [negb].
  rewrite (proj2 (Z.ltb_ge _ _)) by lia. do 2 f_equal. apply fold_seqZ.
  intros k [o f] t' Hk. destruct (flat_lookup ms k o f Hk) as [Ho Hf].
  pose proof (lookup_lt_Some _ _ _ Hk). assert (Z.of_nat k < zlen ms) by (unfold zlen; lia).
  unfold apply_mapping, apply_pair. cbv zeta.
  assert (Hread : forall j x, flat ms !! j = Some x -> (j < 2 * length ms)%nat ->
            u32_at body (8 + Z.of_nat j * 4) = x).
  { intros j x Hj Hjl. rewrite <- (u32_at_array (le_enc 4 RELMAPPER_FILEMAGIC ++ le_enc 4 (zlen ms)) _ j x HF Hj).
    unfold u32_at, body. assert (Z.of_nat j < 2 * zlen ms) by (unfold zlen; lia).
    rewrite !app_assoc. rewrite <- (app_assoc _ (zrep _ _)). rewrite sub_app_l by zlen. do 2 f_equal; zlen. }
  replace (8 + (0 + Z.of_nat k) * 8) with (8 + Z.of_nat (2 * k) * 4) by lia.
  replace (8 + Z.of_nat (2 * k) * 4 + 4) with (8 + Z.of_nat (S (2 * k)) * 4) by lia.
  rewrite (Hread _ _ Ho), (Hread _ _ Hf) by lia. done.
Qed.

Lemma grows_pair dbid t p : grows t (apply_pair dbid t p).
Proof.
  destruct p as [o f]. unfold apply_pair. destruct (_ && _); [|done]. cbv zeta.
  transitivity (add t dbid f); [apply grows_add|]. by destruct (o =? PG_CLASS_OID).
Qed.

Lemma pairs_nodes dbid ms o f : (o, f) ∈ ms -> o <> 0 -> f <> 0 -> forall t,
  (dbid, f) ∈ nodes (fold_left (apply_pair dbid) ms t).
Proof.
  intros Hin Ho Hf. induction ms as [|p ms IH]; [by apply not_elem_of_nil in Hin|]. intros t. simpl.
  apply elem_of_cons in Hin as [<-|Hin]; [|by apply IH].
  apply (grows_fold (apply_pair dbid) ms (grows_pair dbid)). simpl.
  rewrite !(proj2 (Z.eqb_neq _ _)) by done. simpl. destruct (o =? PG_CLASS_OID); simpl; set_solver.
Qed.

(** pg_class has moved to [f] in [dbid], and no slot of an older file is left. *)
Definition class_at (dbid f : Z) (t : CatalogTracker) : Prop :=
  pg_class_filenode t !! dbid = Some f /\
  forall r b o row, catalog_slots t !! (dbid, r, b, o) = Some row -> r = f.

Lemma pairs_class dbid ms f : f <> 0 -> (forall f', (PG_CLASS_OID, f') ∈ ms -> f' = f) -> forall t,
  (PG_CLASS_OID, f) ∈ ms \/ class_at dbid f t -> class_at dbid f (fold_left (apply_pair dbid) ms t).
Proof.
  intros Hf. induction ms as [|[o g] ms IH]; intros Huniq t H; simpl.
  { destruct H as [H|H]; [by apply not_elem_of_nil in H|done]. }
  assert (Hrest : forall f', (PG_CLASS_OID, f') ∈ ms -> f' = f) by (intros f' ?; apply Huniq; by right).
  destruct (Z.eqb_spec o PG_CLASS_OID) as [-> |Hne].
  - assert (g = f) as -> by (apply Huniq; by left).
    apply IH; [done|]. right. rewrite !(proj2 (Z.eqb_neq _ _)) by done. simpl. split.
    + apply lookup_insert_eq.
    + intros r b o row Hs. apply map_lookup_filter_Some in Hs as [_ Hs]. naive_solver.
  - apply IH; [done|]. destruct H as [H|H].
    + left. apply elem_of_cons in H as [[=]|H]; [congruence|done].
    + right. destruct (_ && _); [|done]. exact H.
Qed.

(** A relation-map update record, written the way Postgres writes it,
    makes every mapped file catalog storage (of every database when the map is
    the shared one), and when it moves pg_class, moves the tracker's pg_class
    with it and drops the slots of the old file. *)
Theorem relmap_update_spec `{C : Codecs} (dbid tsid : Z) (ms : list (Z * Z)) (crc rest : list Z)
    (t : CatalogTracker) (r : XLogRecord) (page_magic : Z) :
  resource_manager_id r = RM_RELMAP -> Z.land (info r) 0xF0 = XLOG_RELMAP_UPDATE ->
  main_data r = enc_relmap dbid tsid ms crc rest ->
  fits 32 dbid -> fits 32 tsid -> zlen ms <= 64 -> zlen crc = 4 -> Forall (fits 32) (flat ms) ->
  let '(t', obs) := observe t r page_magic in
  obs = catalog dbid /\
  (forall o f db, (o, f) ∈ ms -> o <> 0 -> f <> 0 -> dbid = 0 \/ db = dbid -> is_catalog t' db f = true) /\
  (forall f, (PG_CLASS_OID, f) ∈ ms -> f <> 0 -> (forall f', (PG_CLASS_OID, f') ∈ ms -> f' = f) ->
     is_pg_class_relfilenode t' dbid f = true /\
     forall r b o row, catalog_slots t' !! (dbid, r, b, o) = Some row -> r = f).
Proof.
  intros Hrm Hinfo Hmd Hdb Hts Hn Hcrc HF. unfold observe. cbv zeta. rewrite Hrm, Hinfo, !Z.eqb_refl.
  cbn [andb]. rewrite (relmap_decoded dbid tsid ms crc rest) by done. split; [done|]. split.
  - intros o f db Hin Ho Hf Hd. pose proof (pairs_nodes dbid ms o f Hin Ho Hf (count_relmap t)) as Hnode.
    unfold is_catalog. rewrite (proj2 (Z.eqb_neq _ _)) by done. destruct (_ <? _); [done|]. simpl.
    destruct (Z.eqb_spec db 0); rewrite ?orb_true_iff, !bool_decide_eq_true;
      destruct Hd as [E|E]; subst; auto.
  - intros f Hin Hf Hu. destruct (pairs_class dbid ms f Hf Hu (count_relmap t)) as [Hc Hs]; [by left|].
    split; [|exact Hs]. unfold is_pg_class_relfilenode. simpl. rewrite Hc. apply Z.eqb_refl.
Qed.

Definition relmap_sample : XLogRecord :=
  MkRecord RM_RELMAP 0 700 600 0 [] (enc_relmap 5 1663 [(1259, 30001); (1249, 30002)] [1; 2; 3; 4] []).

Lemma relmap_update_spec_witness :
  let t' := fst (@observe toy_codecs new relmap_sample 53528) in
  is_catalog t' 5 30002 = true /\ is_catalog t' 6 30002 = false /\
  is_pg_class_relfilenode t' 5 30001 = true.
Proof.
  pose proof (@relmap_update_spec toy_codecs 5 1663 [(1259, 30001); (1249, 30002)] [1; 2; 3; 4] [] new
    relmap_sample 53528 eq_refl eq_refl eq_refl) as H.
  destruct H as (_ & Hn & Hc); [done|done|done|done| |].
  { cbn [flat map concat app]. unfold fits. repeat (constructor; [lia|]). constructor. }
  cbv zeta. split; [|split].
  - apply (Hn 1249 30002); [|done|done|by right]. right. left.
  - vm_compute. done.
  - apply Hc; [left|done|]. intros f' Hin. apply elem_of_cons in Hin as [[=]|Hin]; [done|].
    apply elem_of_cons in Hin as [[=]|Hin]. by apply not_elem_of_nil in Hin.
Defined.

End CatalogTracker.
