(* ===== verification/CatalogSlots.v ===== *)
(** * The tracker's pg_class slots against the heap they mirror

    [CatalogTracker.catalog_slots] exists so that an update whose oid lies in
    the bytes shared with the old tuple can still be resolved.  Here pg_class
    is a heap (slot to column bytes), its writes are the records Postgres logs
    for them, and the tracker's slots are related to the heap. *)
From stdpp Require Import strings.
From S2P Require Import Prelude Text WalRecord XactPayload Fpi PgClass CatalogTracker.

Module CatalogSlots.
Import WalRecord Fpi HeapPage PgClass CatalogTracker.

Notation heap := (gmap (Z * Z) (list Z)) (only parsing).

(** Writes to the pg_class heap of one database. *)
Inductive write :=
| WInsert (s : Z * Z) (im bm cols : list Z)
| WUpdate (hot : bool) (old new : Z * Z) (p q : Z) (im bm cols : list Z)
| WDelete (s : Z * Z)
| WInplace (s : Z * Z) (cols : list Z)
| WPrune (dead : list (Z * Z))
| WImage (blk : Z) (img : ImageHeader) (bytes : list Z) (after : heap).

Definition plain_block (db rl blk : Z) (d : list Z) : Block :=
  MkBlock (MkRfn 1663 db rl) blk false (MkImage 0 0 0) [] d.

Definition image_block (db rl blk : Z) (img : ImageHeader) (bytes : list Z) : Block :=
  MkBlock (MkRfn 1663 db rl) blk true img bytes [].

Definition update_flags (p q : Z) : Z := (if 0 <? p then 0x20 else 0) + (if 0 <? q then 0x40 else 0).

(** The record a write is logged as. *)
Definition record_of (db rl xid : Z) (w : write) : XLogRecord :=
  match w with
  | WInsert (blk, off) im bm cols =>
      MkRecord RM_HEAP HEAP_INSERT_OP xid 0 0
        [plain_block db rl blk (enc_header im bm ++ cols)] (le_enc 2 off ++ [0])
  | WUpdate hot (oblk, ooff) (nblk, noff) p q im bm cols =>
      MkRecord RM_HEAP (if hot then HEAP_HOT_UPDATE_OP else HEAP_UPDATE_OP) xid 0 0
        (plain_block db rl nblk (enc_update p q im bm cols) ::
         if oblk =? nblk then [] else [plain_block db rl oblk []])
        (le_enc 4 xid ++ le_enc 2 ooff ++ [0] ++ [update_flags p q] ++ le_enc 4 0 ++ le_enc 2 noff)
  | WDelete (blk, off) =>
      MkRecord RM_HEAP HEAP_DELETE_OP xid 0 0 [plain_block db rl blk []]
        (le_enc 4 xid ++ le_enc 2 off ++ [0; 0])
  | WInplace (blk, off) cols =>
      MkRecord RM_HEAP HEAP_INPLACE_OP xid 0 0 [plain_block db rl blk cols] (le_enc 2 off)
  | WPrune _ => MkRecord RM_HEAP2 0x10 xid 0 0 [plain_block db rl 0 []] []
  | WImage blk img bytes _ => MkRecord RM_XLOG 0xB0 xid 0 0 [image_block db rl blk img bytes] []
  end.

(** The heap after a write.  Dead tuples stay on their page until pruned. *)
Definition apply (h : heap) (w : write) : heap :=
  match w with
  | WInsert s _ _ cols => <[s := cols]> h
  | WUpdate _ _ new _ _ _ _ cols => <[new := cols]> h
  | WDelete _ => h
  | WInplace s cols => <[s := cols]> h
  | WPrune dead => fold_left (fun m s => delete s m) dead h
  | WImage _ _ _ after => after
  end.

Definition slot_ok (s : Z * Z) : Prop := fits 32 (fst s) /\ fits 16 (snd s).

(** What Postgres guarantees of a write: an update shares with the old tuple
    the prefix and suffix it says it does and keeps the oid; when lengths
    differ, the suffix stops short of relfilenode; an image shows the block. *)
Definition legal `{C : Codecs} (db rl page_magic : Z) (h : heap) (w : write) : Prop :=
  match w with
  | WInsert s im bm cols => slot_ok s /\ header_ok im bm
  | WUpdate _ old new p q im bm cols =>
      slot_ok old /\ slot_ok new /\ old <> new /\ fits 16 p /\ fits 16 q /\ header_ok im bm /\
      exists oldc, h !! old = Some oldc /\ bytes_ok oldc /\ bytes_ok cols /\
        92 <= zlen oldc /\ 92 <= zlen cols /\ p + q <= zlen cols /\ p + q <= zlen oldc /\
        sub oldc 0 4 = sub cols 0 4 /\
        (forall i, 0 <= i < p -> zget oldc i = zget cols i) /\
        (forall i, 1 <= i <= q -> zget oldc (zlen oldc - i) = zget cols (zlen cols - i)) /\
        (zlen oldc = zlen cols \/ 92 <= zlen cols - q)
  | WDelete s => slot_ok s
  | WInplace s cols => slot_ok s
  | WPrune _ => True
  | WImage blk img bytes after =>
      fits 32 blk /\
      exists page, restore_block_image (image_block db rl blk img bytes) page_magic = Ok page /\
        (forall b off, b <> blk -> after !! (b, off) = h !! (b, off)) /\
        (forall off cols, after !! (blk, off) = Some cols ->
           exists tuple hoff, page_tuple_bytes page off = Some tuple /\
             zget tuple T_HOFF_OFFSET = Some hoff /\ get_range tuple hoff (zlen tuple) = Some cols)
  end.

(** The tracker knows only true rows. *)
Definition sound (db rl : Z) (t : CatalogTracker) (h : heap) : Prop :=
  is_pg_class_relfilenode t db rl = true /\
  forall blk off o f cols,
    catalog_slots t !! (db, rl, blk, off) = Some (o, f) -> h !! (blk, off) = Some cols ->
    exists row, from_columns cols = Some row /\ oid row = o /\ relfilenode row = f.

(** ** Merging the logged bytes with the old row's *)
Lemma zget_le_enc l off i :
  bytes_ok l -> 0 <= off -> off + 4 <= zlen l -> 0 <= i < 4 ->
  le_enc 4 (le_dec (sub l off (off + 4))) !! Z.to_nat i = zget l (off + i).
Proof.
  intros Hb Hoff Hlen Hi.
  assert (L : length (sub l off (off + 4)) = 4%nat).
  { pose proof (zlen_sub l off (off + 4) ltac:(lia) Hlen). unfold zlen in *. lia. }
  rewrite <- L, le_enc_dec by (by apply bytes_ok_sub). unfold sub, ztake, zdrop, zget.
  rewrite (proj2 (Z.leb_le _ _)) by lia. rewrite lookup_take_lt by lia. rewrite lookup_drop. f_equal. lia.
Qed.

Lemma merge_rfn_new p q old new :
  0 < p -> 0 <= q -> p + q <= zlen new -> p + q <= zlen old -> bytes_ok old -> bytes_ok new ->
  92 <= zlen old -> 92 <= zlen new ->
  (forall i, 0 <= i < p -> zget old i = zget new i) ->
  (forall i, 1 <= i <= q -> zget old (zlen old - i) = zget new (zlen new - i)) ->
  zlen old = zlen new \/ 92 <= zlen new - q ->
  merge_rfn (logged_rfn p (sub new p (zlen new - q))) (le_dec (sub old 88 (88 + 4))) =
  le_dec (sub new 88 (88 + 4)).
Proof.
  intros Hp Hq Hpn Hpo Hbo Hbn Hlo Hln Hpre Hsuf Hcov. unfold merge_rfn.
  set (lg := logged_rfn p _). set (ob := le_enc 4 (le_dec (sub old 88 (88 + 4)))).
  assert (Hlg : length lg = 4%nat) by done.
  assert (Hob : length ob = 4%nat) by exact (Nat2Z.inj _ _ (zlen_le_enc 4 _)).
  assert (Hsl : length (sub new 88 (88 + 4)) = 4%nat).
  { pose proof (zlen_sub new 88 (88 + 4)). unfold zlen in *. lia. }
  f_equal. apply list_eq. intros k. destruct (decide (k < 4)%nat) as [Hk|Hk].
  2: { rewrite !(proj2 (lookup_ge_None _ _)); [done|lia|rewrite length_zip_with; lia]. }
  rewrite lookup_zip_with.
  destruct (logged_rfn_spec p q new (Z.of_nat k)) as (o & Ho & Hspec); [lia..|]. fold lg in Ho.
  unfold zget in Ho. rewrite (proj2 (Z.leb_le _ _)) in Ho by lia. rewrite Nat2Z.id in Ho. rewrite Ho. simpl.
  pose proof (zget_le_enc old 88 (Z.of_nat k) Hbo ltac:(lia) ltac:(lia) ltac:(lia)) as Eo.
  rewrite Nat2Z.id in Eo. fold ob in Eo.
  assert (En : sub new 88 (88 + 4) !! k = zget new (88 + Z.of_nat k)).
  { unfold sub, ztake, zdrop, zget. rewrite (proj2 (Z.leb_le _ _)) by lia.
    rewrite lookup_take_lt by lia. rewrite lookup_drop. f_equal. lia. }
  rewrite En. destruct (ob !! k) as [b|] eqn:Eb; [|apply lookup_ge_None in Eb; lia]. simpl.
  destruct o as [x|]; simpl; [by destruct Hspec|].
  destruct Hspec as [Hin|Hin].
  - rewrite Eo. apply Hpre. lia.
  - destruct Hcov as [Hl|Hc]; [|lia]. rewrite Eo.
    specialize (Hsuf (zlen new - (88 + Z.of_nat k)) ltac:(lia)).
    replace (zlen old - (zlen new - (88 + Z.of_nat k))) with (88 + Z.of_nat k) in Hsuf by lia.
    by replace (zlen new - (zlen new - (88 + Z.of_nat k))) with (88 + Z.of_nat k) in Hsuf by lia.
Qed.

(** ** What a harvested record does to the slots *)

(** The catalog row a new tuple is taken to be. *)
Definition row_of (old : option (Z * Z)) (o : DecodeOutcome) : option (Z * Z) :=
  match o with
  | Decoded row =>
      if catalog_oid (oid row) && negb (relfilenode row =? 0) then Some (oid row, relfilenode row) else None
  | OidInPrefix logged => let* (o, old_rfn) := old in Some (o, merge_rfn logged old_rfn)
  | Undecoded => None
  end.

Definition put_slot (k : Z * Z * Z * Z) (row : option (Z * Z)) (m : gmap (Z * Z * Z * Z) (Z * Z))
    : gmap (Z * Z * Z * Z) (Z * Z) :=
  match row with Some r => <[k := r]> m | None => delete k m end.

Section Harvest.
Context `{C : Codecs}.

Lemma harvest_decoded_keeps t db xid old o :
  let '(t', _, row) := harvest_decoded t db xid old o in
  row = row_of old o /\ catalog_slots t' = catalog_slots t /\ pg_class_filenode t' = pg_class_filenode t.
Proof.
  destruct o as [row|l|]; simpl; [|by destruct old as [[]|]|done].
  destruct (_ <=? _); [|done]. split; [done|].
  unfold learn_rebuild. destruct (rebuilt_catalog row); [|done].
  by destruct (negb (xid =? 0)), (_ =? PG_CLASS_OID).
Qed.

Lemma learn_catalog_row_keeps t db o f :
  catalog_slots (learn_catalog_row t db o f) = catalog_slots t /\
  pg_class_filenode (learn_catalog_row t db o f) = pg_class_filenode t /\
  (db, f) ∈ nodes (learn_catalog_row t db o f).
Proof.
  unfold learn_catalog_row. destruct (o =? PG_NAMESPACE_OID), (existsb _ _); simpl;
    (split; [done|split; [done|set_solver]]).
Qed.

(** Slots, pg_class file and nodes after a harvest. *)
Lemma harvest_spec t r magic db rl knew :
  pg_class_block t r = Some (db, rl) -> ts_new (tuple_slots r) = Some knew ->
  let old := let* (b, o) := ts_old (tuple_slots r) in catalog_slots t !! (db, rl, b, o) in
  let row := row_of old (decode_pg_class_tuple r 0 magic) in
  let base := match ts_old (tuple_slots r) with
              | Some (b, o) => delete (db, rl, b, o) (catalog_slots t)
              | None => catalog_slots t
              end in
  let t' := fst (harvest_pg_class_blocks t r magic) in
  catalog_slots t' = put_slot (db, rl, fst knew, snd knew) row base /\
  pg_class_filenode t' = pg_class_filenode t /\
  (forall o f, row = Some (o, f) -> (db, f) ∈ nodes t').
Proof.
  intros Hb Hnew. cbv zeta. unfold harvest_pg_class_blocks. rewrite Hb, Hnew. cbv zeta.
  destruct knew as [nb no]. cbn [fst snd].
  set (q := match ts_old (tuple_slots r) with Some _ => _ | None => (t, None) end).
  set (old := match ts_old (tuple_slots r) with Some _ => _ | None => None end).
  set (base := match ts_old (tuple_slots r) with Some _ => _ | None => catalog_slots t end).
  assert (Hq : snd q = old /\ catalog_slots (fst q) = base /\ pg_class_filenode (fst q) = pg_class_filenode t)
    by (unfold q, old, base; by destruct (ts_old (tuple_slots r)) as [[]|]).
  destruct q as [t1 old']. simpl in Hq. destruct Hq as (-> & Hs1 & Hf1).
  pose proof (harvest_decoded_keeps t1 db (xact_id r) old (decode_pg_class_tuple r 0 magic)) as Hd.
  destruct (harvest_decoded _ _ _ _ _) as [[t2 u] row]. destruct Hd as (-> & Hs2 & Hf2). cbn [fst].
  destruct (row_of old _) as [[o f]|]; cbn [set_slot].
  - destruct (learn_catalog_row_keeps t2 db o f) as (Hs3 & Hf3 & Hn3). simpl.
    rewrite Hs3, Hs2, Hs1, Hf3, Hf2, Hf1. split; [done|]. split; [done|]. by intros o' f' [= <- <-].
  - simpl. rewrite Hs2, Hs1, Hf2, Hf1. done.
Qed.

Lemma no_images t r magic :
  Forall (fun b => has_image b = false) (blocks r) -> learn_imaged_pages t r magic = t.
Proof.
  unfold learn_imaged_pages. generalize (blocks r) as bs. induction 1 as [|b bs Hb _ IH]; [done|].
  simpl. unfold learn_imaged_page at 2. rewrite Hb. exact IH.
Qed.

Section Records.
Context (db rl xid magic : Z).

Lemma insert_record s im bm cols :
  slot_ok s -> header_ok im bm ->
  let r := record_of db rl xid (WInsert s im bm cols) in
  tuple_slots r = MkSlots None (Some s) /\
  decode_pg_class_tuple r 0 magic = decoded_or (from_columns cols).
Proof.
  intros [_ Ho] Hh. destruct s as [blk off]. cbv zeta. split.
  - cbn [record_of]. unfold tuple_slots. cbn [info]. unfold slot. cbn [blocks main_data].
    replace (get_range (le_enc 2 off ++ [0]) 0 (0 + 2)) with (Some (le_enc 2 off)).
    2: { rewrite get_range_full; [by gets|lia|lia|zlen]. }
    rewrite le_dec_enc_small by exact Ho. done.
  - pose proof (decode_new_enc 0 0 im bm cols ltac:(done) ltac:(done) Hh) as E. exact E.
Qed.

Lemma update_record hot old new p q im bm cols :
  slot_ok old -> slot_ok new -> fits 16 p -> fits 16 q -> header_ok im bm ->
  let r := record_of db rl xid (WUpdate hot old new p q im bm cols) in
  tuple_slots r = MkSlots (Some old) (Some new) /\
  decode_pg_class_tuple r 0 magic =
    if 0 <? p then OidInPrefix (logged_rfn p (sub cols p (zlen cols - q)))
    else decoded_or (from_columns (sub cols p (zlen cols - q))).
Proof.
  intros [_ Ho] [_ Hn] Hp Hq Hh. destruct old as [ob oo], new as [nb no]. cbv zeta. cbn [fst snd] in *.
  set (md := le_enc 4 xid ++ le_enc 2 oo ++ [0] ++ [update_flags p q] ++ le_enc 4 0 ++ le_enc 2 no).
  assert (Lmd : zlen md = 14) by (unfold md; zlen).
  split.
  - assert (E4 : get_range md 4 (4 + 2) = Some (le_enc 2 oo))
      by (rewrite get_range_full by lia; unfold md; by gets).
    assert (E12 : get_range md 12 (12 + 2) = Some (le_enc 2 no)).
    { rewrite get_range_full by lia. unfold md. rewrite !app_assoc. rewrite sub_skip by zlen.
      rewrite sub_all; [done|zlen|zlen]. }
    cbn [record_of]. fold md. unfold tuple_slots, slot. cbn [info blocks main_data].
    unfold XL_HEAP_OLD_OFFNUM_OFFSET, XL_HEAP_UPDATE_NEW_OFFNUM_OFFSET. rewrite E4, E12.
    rewrite !le_dec_enc_small by done.
    destruct (Z.eqb_spec ob nb) as [-> |]; by destruct hot.
  - pose proof (decode_new_enc p q im bm (sub cols p (zlen cols - q)) Hp Hq Hh) as E.
    rewrite <- E. cbn [record_of]. fold md. unfold decode_pg_class_tuple. cbn [blocks zget].
    cbn [has_image plain_block info main_data data]. rewrite Lmd.
    replace (byte_at md XL_HEAP_UPDATE_FLAGS_OFFSET) with (update_flags p q).
    2: { unfold md, XL_HEAP_UPDATE_FLAGS_OFFSET. gets. done. }
    unfold update_flags, enc_update. by destruct hot, (0 <? p), (0 <? q).
Qed.

Lemma delete_record s :
  slot_ok s -> tuple_slots (record_of db rl xid (WDelete s)) = MkSlots (Some s) None.
Proof.
  intros [_ Ho]. destruct s as [blk off]. cbn [record_of fst snd] in *.
  unfold tuple_slots, slot. cbn [info blocks main_data]. unfold XL_HEAP_OLD_OFFNUM_OFFSET.
  replace (get_range _ 4 (4 + 2)) with (Some (le_enc 2 off)).
  2: { rewrite get_range_full; [by gets|lia|lia|zlen]. }
  by rewrite le_dec_enc_small.
Qed.

Lemma inplace_record s cols :
  slot_ok s ->
  let r := record_of db rl xid (WInplace s cols) in
  tuple_slots r = MkSlots None (Some s) /\
  decode_pg_class_tuple r 0 magic = decoded_or (from_columns cols).
Proof.
  intros [_ Ho]. destruct s as [blk off]. cbv zeta. split; [|done]. cbn [record_of fst snd] in *.
  unfold tuple_slots, slot. cbn [info blocks main_data].
  rewrite get_range_full by zlen. rewrite sub_all by zlen. by rewrite le_dec_enc_small.
Qed.
End Records.
End Harvest.

(** ** The simulation *)
Lemma from_columns_long l : 92 <= zlen l ->
  from_columns l =
  Some (MkRow (le_dec (sub l 0 (0 + 4))) (sub l 4 (4 + 64)) (le_dec (sub l 68 (68 + 4)))
          (le_dec (sub l 88 (88 + 4)))).
Proof.
  intros H. unfold from_columns, col_u32, PG_CLASS_OID_OFFSET, PG_CLASS_RELNAME_OFFSET, NAME_LEN,
    PG_CLASS_RELNAMESPACE_OFFSET, PG_CLASS_RELFILENODE_OFFSET. by rewrite !get_range_full by lia.
Qed.

Lemma from_columns_short l row : from_columns l = Some row -> 92 <= zlen l.
Proof.
  unfold from_columns, col_u32, PG_CLASS_RELFILENODE_OFFSET. intros H.
  destruct (get_range l PG_CLASS_OID_OFFSET _); [|done].
  destruct (get_range l PG_CLASS_RELNAME_OFFSET _); [|done].
  destruct (get_range l PG_CLASS_RELNAMESPACE_OFFSET _); [|done].
  unfold get_range in H. destruct (Z.leb_spec (88 + 4) (zlen l)); [lia|].
  by rewrite andb_false_r in H.
Qed.

Lemma from_columns_prefix l n row : 0 <= n <= zlen l ->
  from_columns (sub l 0 n) = Some row -> from_columns l = Some row.
Proof.
  intros Hn H. pose proof (from_columns_short _ _ H) as Hs. rewrite zlen_sub in Hs by lia.
  rewrite from_columns_long in H by (rewrite zlen_sub; lia). rewrite from_columns_long by lia.
  rewrite <- H. assert (E : l = sub l 0 n ++ zdrop n l).
  { unfold sub. rewrite zdrop_0, Z.sub_0_r. by rewrite ztake_zdrop_id. }
  assert (Hl : zlen (sub l 0 n) = n) by (rewrite zlen_sub; lia).
  rewrite E at 1 2 3 4. by rewrite !sub_app_l by lia.
Qed.

Section Simulation.
Context `{C : Codecs} (db rl magic : Z).

Lemma sound_put t t' h s cols row base :
  sound db rl t h -> pg_class_filenode t' = pg_class_filenode t ->
  catalog_slots t' = put_slot (db, rl, fst s, snd s) row base ->
  (forall k x, base !! k = Some x -> catalog_slots t !! k = Some x) ->
  (forall o f, row = Some (o, f) ->
     exists r, from_columns cols = Some r /\ oid r = o /\ relfilenode r = f) ->
  sound db rl t' (<[s := cols]> h).
Proof.
  intros [Hf Hs] Ef Es Hb Hrow. split; [unfold is_pg_class_relfilenode in *; by rewrite Ef|].
  intros blk off o f c Hk Hc. rewrite Es in Hk. destruct s as [sb so]. cbn [fst snd] in Hk.
  destruct (decide ((sb, so) = (blk, off))) as [E|E].
  - injection E as -> ->. rewrite lookup_insert_eq in Hc. injection Hc as <-.
    destruct row as [[o' f']|]; simpl in Hk.
    + rewrite lookup_insert_eq in Hk. injection Hk as <- <-. by apply Hrow.
    + by rewrite lookup_delete_eq in Hk.
  - rewrite lookup_insert_ne in Hc by done.
    assert (Hk' : base !! (db, rl, blk, off) = Some (o, f)).
    { destruct row; simpl in Hk; [rewrite lookup_insert_ne in Hk by congruence|
        rewrite lookup_delete_ne in Hk by congruence]; done. }
    by apply (Hs blk off o f c); [apply Hb|].
Qed.

Lemma sound_block t h blk d bs :
  sound db rl t h ->
  forall r, blocks r = plain_block db rl blk d :: bs -> pg_class_block t r = Some (db, rl).
Proof. intros [H _] r Hr. unfold pg_class_block. rewrite Hr. simpl. by rewrite H. Qed.

(** A fully decoded tuple gives its own row. *)
Lemma row_of_decoded old cols o f :
  row_of old (decoded_or (from_columns cols)) = Some (o, f) ->
  exists r, from_columns cols = Some r /\ oid r = o /\ relfilenode r = f.
Proof.
  destruct (from_columns cols) as [r|]; [|done]. simpl. destruct (_ && _); [|done].
  intros [= <- <-]. by exists r.
Qed.

(** So does an update resolved through the old tuple's slot. *)
Lemma row_of_update t h hot old new p q im bm cols o f :
  sound db rl t h -> legal db rl magic h (WUpdate hot old new p q im bm cols) ->
  row_of (catalog_slots t !! (db, rl, fst old, snd old))
    (if 0 <? p then OidInPrefix (logged_rfn p (sub cols p (zlen cols - q)))
     else decoded_or (from_columns (sub cols p (zlen cols - q)))) = Some (o, f) ->
  exists r, from_columns cols = Some r /\ oid r = o /\ relfilenode r = f.
Proof.
  intros [_ Hs] (_ & _ & _ & Hp & Hq & _ & oldc & Hold & Hbo & Hbn & Hlo & Hln & Hpn & Hpo & Hoid & Hpre & Hsuf & Hcov).
  unfold fits in *. destruct (Z.ltb_spec 0 p) as [Hpos|Hz]; intros Hrow.
  - cbn [row_of] in Hrow. destruct (catalog_slots t !! _) as [[o0 f0]|] eqn:Ek; [|done].
    injection Hrow as <- <-. destruct old as [ob oo]. cbn [fst snd] in Ek.
    destruct (Hs _ _ _ _ _ Ek Hold) as (rold & Hro & <- & <-).
    rewrite from_columns_long in Hro by done. injection Hro as <-. cbn [oid relfilenode].
    eexists. split; [by apply from_columns_long|]. cbn [oid relfilenode]. split.
    + change (0 + 4) with 4. by rewrite Hoid.
    + symmetry. apply merge_rfn_new; (done || lia).
  - assert (p = 0) as -> by lia. apply row_of_decoded in Hrow as (r & Hr & Ho & Hf).
    exists r. split; [|done]. apply from_columns_prefix in Hr; [done|lia].
Qed.

Lemma observe_heap_record t r :
  resource_manager_id r = RM_HEAP -> Forall (fun b => has_image b = false) (blocks r) ->
  fst (observe t r magic) =
  if info_carries_new_tuple_heap (Z.land (info r) 0xF0) then fst (harvest_pg_class_blocks t r magic)
  else if info_is_inplace (Z.land (info r) 0xF0) then learn_inplace t r magic
  else if Z.land (Z.land (info r) 0xF0) 0x70 =? 0x10 then fst (observe_delete t r)
  else t.
Proof.
  intros Hrm Himg. unfold observe. rewrite Hrm. cbn [Z.eqb Pos.eqb RM_HEAP RM_RELMAP RM_SMGR RM_XACT andb].
  unfold observe_heap. cbv zeta. rewrite no_images, Hrm by done.
  change (RM_HEAP =? RM_HEAP) with true. change (RM_HEAP =? RM_HEAP2) with false. cbn [andb].
  rewrite orb_false_r. destruct (info_carries_new_tuple_heap (Z.land (info r) 240)); [done|].
  destruct (info_is_inplace (Z.land (info r) 240)); [done|]. by destruct (Z.land _ 112 =? 16).
Qed.

(** *** One write at a time *)
Lemma step_insert t h xid s im bm cols :
  sound db rl t h -> legal db rl magic h (WInsert s im bm cols) ->
  sound db rl (fst (observe t (record_of db rl xid (WInsert s im bm cols)) magic)) (<[s := cols]> h).
Proof.
  intros Hsnd [Hs Hh]. destruct (insert_record db rl xid magic s im bm cols Hs Hh) as [Hts Hdec].
  destruct s as [blk off]. set (r := record_of db rl xid (WInsert (blk, off) im bm cols)) in *.
  rewrite observe_heap_record; [|done|by repeat constructor].
  assert (Hb : pg_class_block t r = Some (db, rl)) by (eapply sound_block; done).
  pose proof (harvest_spec t r magic db rl (blk, off) Hb ltac:(by rewrite Hts)) as (Es & Ef & _).
  rewrite Hts, Hdec in Es. change (info r) with HEAP_INSERT_OP.
  eapply sound_put; [done|exact Ef|exact Es|done|]. intros o f Hrow. by eapply row_of_decoded.
Qed.

Lemma step_update t h xid hot old new p q im bm cols :
  sound db rl t h -> legal db rl magic h (WUpdate hot old new p q im bm cols) ->
  let t' := fst (observe t (record_of db rl xid (WUpdate hot old new p q im bm cols)) magic) in
  sound db rl t' (<[new := cols]> h) /\
  forall o f, row_of (catalog_slots t !! (db, rl, fst old, snd old))
    (if 0 <? p then OidInPrefix (logged_rfn p (sub cols p (zlen cols - q)))
     else decoded_or (from_columns (sub cols p (zlen cols - q)))) = Some (o, f) ->
    (db, f) ∈ nodes t'.
Proof.
  intros Hsnd Hleg. pose proof Hleg as (Hso & Hsn & Hne & Hp & Hq & Hh & _). cbv zeta.
  destruct (update_record db rl xid magic hot old new p q im bm cols) as [Hts Hdec]; [done..|].
  destruct old as [ob oo], new as [nb no].
  set (r := record_of db rl xid (WUpdate hot (ob, oo) (nb, no) p q im bm cols)) in *.
  assert (Himg : Forall (fun b => has_image b = false) (blocks r))
    by (subst r; cbn [record_of blocks]; destruct (ob =? nb); by repeat constructor).
  rewrite observe_heap_record; [|done|done].
  assert (Hb : pg_class_block t r = Some (db, rl)) by (eapply sound_block; done).
  pose proof (harvest_spec t r magic db rl (nb, no) Hb ltac:(by rewrite Hts)) as (Es & Ef & Hn).
  rewrite Hts, Hdec in Es, Hn. cbn [ts_old fst snd] in *.
  replace (info_carries_new_tuple_heap (Z.land (info r) 0xF0)) with true by (by destruct hot).
  split; [|exact Hn]. eapply sound_put; [exact Hsnd|exact Ef|exact Es| |].
  - intros k x Hk. by apply lookup_delete_Some in Hk as [_ Hk].
  - intros o f Hrow. by eapply (row_of_update t h hot (ob, oo)).
Qed.
Lemma step_delete t h xid s :
  sound db rl t h -> slot_ok s ->
  sound db rl (fst (observe t (record_of db rl xid (WDelete s)) magic)) h.
Proof.
  intros Hsnd Hs. pose proof (delete_record db rl xid s Hs) as Hts. destruct s as [blk off].
  set (r := record_of db rl xid (WDelete (blk, off))) in *.
  rewrite observe_heap_record; [|done|by repeat constructor].
  assert (Hb : pg_class_block t r = Some (db, rl)) by (eapply sound_block; done).
  change (info r) with HEAP_DELETE_OP. unfold observe_delete. rewrite Hb, Hts. simpl.
  destruct Hsnd as [Hf Hk]. split; [exact Hf|]. simpl. intros b o x f cols Hl.
  apply lookup_delete_Some in Hl as [_ Hl]. by apply Hk.
Qed.

Lemma step_inplace t h xid s cols :
  sound db rl t h -> slot_ok s ->
  sound db rl (fst (observe t (record_of db rl xid (WInplace s cols)) magic)) (<[s := cols]> h).
Proof.
  intros Hsnd Hs. pose proof (inplace_record db rl xid magic s cols Hs) as [Hts Hdec].
  destruct s as [blk off]. set (r := record_of db rl xid (WInplace (blk, off) cols)) in *.
  rewrite observe_heap_record; [|done|by repeat constructor].
  assert (Hb : pg_class_block t r = Some (db, rl)) by (eapply sound_block; done).
  change (info r) with HEAP_INPLACE_OP. simpl. unfold learn_inplace. rewrite Hb, Hts, Hdec. simpl.
  set (row := match decoded_or (from_columns cols) with Decoded _ => _ | _ => None end).
  eapply (sound_put t _ h (blk, off) cols row (catalog_slots t)); [done|by destruct row|by destruct row|done|].
  intros o f. unfold row. destruct (from_columns cols) as [rw|]; [|done]. simpl.
  destruct (catalog_oid _); [|done]. intros [= <- <-]. by exists rw.
Qed.

(** Rows learned from a page come from the page. *)
Lemma learn_rows_slots blk rows : forall t k x,
  catalog_slots (fold_left (learn_row db rl blk) rows t) !! k = Some x ->
  catalog_slots t !! k = Some x \/
  exists off row, (off, row) ∈ rows /\ k = (db, rl, blk, off) /\ x = (oid row, relfilenode row).
Proof.
  induction rows as [|[off row] rows IH]; intros t k x H; simpl in H; [by left|].
  apply IH in H as [H|(o & r & Hin & Hk & Hx)]; [|right; exists o, r; by split; [right|]].
  destruct (catalog_oid (oid row)); [|by left]. simpl in H.
  apply lookup_insert_Some in H as [[<- <-]|[_ H]]; [|by left].
  right. exists off, row. by split; [left|].
Qed.

Lemma page_rows_elem page off row :
  (off, row) ∈ page_rows page ->
  exists tuple, page_tuple_bytes page off = Some tuple /\ from_tuple tuple = Some row.
Proof.
  unfold page_rows. intros H. apply list_elem_of_omap in H as (o & _ & H).
  destruct (page_tuple_bytes page o) as [tu|] eqn:Et; [|done].
  destruct (from_tuple tu) as [r|] eqn:Er; [|done]. injection H as -> ->. by exists tu.
Qed.

Lemma learn_rows_file blk rows : forall t,
  pg_class_filenode (fold_left (learn_row db rl blk) rows t) = pg_class_filenode t.
Proof.
  induction rows as [|[off row] rows IH]; intros t; simpl; [done|]. rewrite IH.
  by destruct (catalog_oid _).
Qed.

Lemma step_image t h xid blk img bytes after :
  sound db rl t h -> legal db rl magic h (WImage blk img bytes after) ->
  sound db rl (fst (observe t (record_of db rl xid (WImage blk img bytes after)) magic)) after.
Proof.
  intros [Hf Hs] (_ & page & Hpage & Hother & Hblk). cbn [record_of].
  unfold observe. simpl. unfold observe_heap. simpl.
  unfold learn_imaged_pages. cbn [blocks fold_left]. unfold learn_imaged_page. simpl.
  rewrite Hf. cbn [orb negb]. rewrite Hpage. split.
  { unfold is_pg_class_relfilenode in *. rewrite learn_rows_file. exact Hf. }
  intros b off o f cols Hk Hc. apply learn_rows_slots in Hk as [Hk|(off' & row & Hin & Ek & Ex)].
  - simpl in Hk. apply map_lookup_filter_Some in Hk as [Hk Hne].
    apply (Hs b off o f cols Hk). rewrite <- Hother; [done|]. intros ->. by apply Hne.
  - injection Ek as -> ->. injection Ex as -> ->.
    apply page_rows_elem in Hin as (tuple & Ht & Hr). destruct (Hblk _ _ Hc) as (tu & hoff & Ht' & Hh & Hg).
    rewrite Ht in Ht'. injection Ht' as <-. unfold from_tuple in Hr. rewrite Hh, Hg in Hr. by exists row.
Qed.

Lemma fold_delete_Some (dead : list (Z * Z)) : forall (m : heap) k x,
  fold_left (fun m s => delete s m) dead m !! k = Some x -> m !! k = Some x.
Proof.
  induction dead as [|s dead IH]; intros m k x H; simpl in H; [done|].
  apply IH in H. by apply lookup_delete_Some in H as [_ H].
Qed.

Lemma step_any t h xid w :
  sound db rl t h -> legal db rl magic h w ->
  sound db rl (fst (observe t (record_of db rl xid w) magic)) (apply h w).
Proof.
  intros Hs Hl. destruct w as [s im bm cols|hot old new p q im bm cols|s|s cols|dead|blk img bytes after];
    cbn [apply].
  - by apply step_insert.
  - by apply step_update.
  - by apply step_delete.
  - by apply step_inplace.
  - destruct Hs as [Hf Hs]. split; [exact Hf|]. intros b off o f cols Hk Hc.
    apply fold_delete_Some in Hc. by eapply Hs.
  - by apply (step_image t h).
Qed.
End Simulation.

(** Writes in WAL order, each by some transaction. *)
Fixpoint legal_run `{C : Codecs} (db rl magic : Z) (h : heap) (ws : list (Z * write)) : Prop :=
  match ws with
  | [] => True
  | (_, w) :: rest => legal db rl magic h w /\ legal_run db rl magic (apply h w) rest
  end.

Definition track `{C : Codecs} (db rl magic : Z) (t : CatalogTracker) (xw : Z * write) : CatalogTracker :=
  fst (observe t (record_of db rl (fst xw) (snd xw)) magic).

(** Over any sequence of pg_class writes (inserts, prefix- and
    suffix-compressed updates, deletes, in-place updates, pruning, full-page
    images) the tracker's slots stay true: whatever row it holds for a slot is
    the row the heap has there. *)
Theorem slots_track_heap `{C : Codecs} (db rl magic : Z) (ws : list (Z * write)) :
  forall (t : CatalogTracker) (h : heap),
  sound db rl t h -> legal_run db rl magic h ws ->
  sound db rl (fold_left (track db rl magic) ws t) (fold_left apply (map snd ws) h).
Proof.
  induction ws as [|[xid w] ws IH]; intros t h Hs Hl; [done|]. destruct Hl as [Hw Hl].
  apply IH; [|exact Hl]. by apply step_any.
Qed.

(** When pg_class moves a catalog to a new file, the tracker follows: after
    an update whose new row is a catalog's, either logged down to relfilenode
    or with the oid in the shared prefix and the old tuple's slot known, the
    new relfilenode is catalog storage. *)
Theorem moved_catalog_followed `{C : Codecs} (db rl magic xid : Z) (t : CatalogTracker) (h : heap)
    hot old new p q im bm cols (row : PgClassRow) :
  sound db rl t h -> legal db rl magic h (WUpdate hot old new p q im bm cols) ->
  from_columns cols = Some row -> catalog_oid (oid row) = true -> relfilenode row <> 0 ->
  (p = 0 /\ 92 <= zlen cols - q) \/
    (0 < p /\ is_some (catalog_slots t !! (db, rl, fst old, snd old)) = true) ->
  let t' := fst (observe t (record_of db rl xid (WUpdate hot old new p q im bm cols)) magic) in
  is_catalog t' db (relfilenode row) = true.
Proof.
  intros Hs Hl Hrow Hcat Hnz Hknown. cbv zeta.
  destruct (step_update db rl magic t h xid hot old new p q im bm cols Hs Hl) as [_ Hn].
  set (out := if 0 <? p then _ else _) in Hn.
  destruct (row_of (catalog_slots t !! (db, rl, fst old, snd old)) out) as [[o f]|] eqn:Er.
  - pose proof (row_of_update db rl magic t h hot old new p q im bm cols o f Hs Hl Er) as (r' & Hr' & _ & Hf).
    rewrite Hrow in Hr'. injection Hr' as <-. rewrite Hf. specialize (Hn o f eq_refl).
    unfold is_catalog. rewrite (proj2 (Z.eqb_neq _ _)) by congruence. destruct (f <? _); [done|].
    destruct (Z.eqb_spec db 0) as [-> |]; [by rewrite bool_decide_true|].
    by rewrite bool_decide_true by done.
  - exfalso. destruct Hl as (_ & _ & _ & Hp & Hq & _ & oldc & _ & _ & _ & _ & Hln & _). unfold fits in *.
    destruct Hknown as [[-> Hcov]|[Hpos Hk]].
    + unfold out in Er. simpl in Er. rewrite from_columns_long in Hrow by done. injection Hrow as <-.
      rewrite from_columns_long in Er by (rewrite zlen_sub; lia). simpl in Er.
      assert (E : forall a b, 0 <= a -> a <= b <= 92 -> sub (sub cols 0 (zlen cols - q)) a b = sub cols a b).
      { intros a b Ha Hb. rewrite <- (sub_app_l (sub cols 0 (zlen cols - q)) (zdrop (zlen cols - q) cols) a b);
          [|lia|rewrite zlen_sub; lia]. f_equal. unfold sub. rewrite zdrop_0, Z.sub_0_r. apply ztake_zdrop_id. }
      rewrite !E in Er by lia. simpl in Hcat, Hnz. rewrite Hcat, (proj2 (Z.eqb_neq _ _)) in Er by done. done.
    + destruct (catalog_slots t !! _) as [[o f]|]; [|done]. unfold out in Er.
      by rewrite (proj2 (Z.ltb_lt _ _)) in Er.
Qed.

(** ** A catalog rewritten: pg_depend moves from file 2608 to 30000 *)
Definition sample_cols (rfn : Z) : list Z :=
  enc_cols (MkRow 2608 (zrep 64 97) 11 rfn) (zrep 16 1) [9; 9; 9; 9].

Definition sample_insert : write := WInsert (3, 7) [1; 0; 0; 0] [0] (sample_cols 2608).

Definition sample_update : write :=
  WUpdate true (3, 7) (3, 8) 89 6 [1; 0; 0; 0] [0] (sample_cols 30000).

Lemma zget_agree (a b : list Z) (da db : Z) (l : list Z) :
  forallb (fun i => bool_decide (zget a (da + i) = zget b (db + i))) l = true ->
  forall i, i ∈ l -> zget a (da + i) = zget b (db + i).
Proof.
  intros H i Hi. rewrite forallb_forall in H. apply list_elem_of_In in Hi. apply H in Hi.
  by apply bool_decide_eq_true in Hi.
Qed.

Lemma sample_update_legal :
  @legal toy_codecs 5 1259 53528 {[(3, 7) := sample_cols 2608]} sample_update.
Proof.
  cbn [legal sample_update]. unfold slot_ok, fits, header_ok. cbn [fst snd].
  split; [lia|]. split; [lia|]. split; [done|]. split; [lia|]. split; [lia|]. split; [done|].
  exists (sample_cols 2608). rewrite lookup_singleton_eq. split; [done|].
  assert (Hb : forall l, forallb (fun b => (0 <=? b) && (b <? 256)) l = true -> bytes_ok l).
  { intros l H. apply list.Forall_forall. intros b Hin. apply list_elem_of_In in Hin.
    rewrite forallb_forall in H. apply H, andb_true_iff in Hin as [? ?]. unfold byte_ok. lia. }
  split; [by apply Hb|]. split; [by apply Hb|]. do 4 (split; [by vm_compute|]). split; [done|]. split.
  - intros i Hi. apply (zget_agree (sample_cols 2608) (sample_cols 30000) 0 0 (seqZ 0 89)); [done|].
    apply elem_of_seqZ. lia.
  - split; [|by left]. intros i Hi.
    pose proof (zget_agree (sample_cols 2608) (sample_cols 30000) 96 96 (seqZ (-6) 6) eq_refl (- i)) as H.
    apply H. apply elem_of_seqZ. lia.
Qed.

Lemma slots_track_heap_witness :
  sound 5 1259 (fold_left (@track toy_codecs 5 1259 53528) [(700, sample_insert); (701, sample_update)] new)
    (fold_left apply [sample_insert; sample_update] ∅).
Proof.
  apply (@slots_track_heap toy_codecs 5 1259 53528 [(700, sample_insert); (701, sample_update)] new ∅).
  - split; [done|]. intros blk off o f cols H. vm_compute in H. discriminate.
  - split; [by vm_compute|]. split; [|done]. apply sample_update_legal.
Defined.

Lemma moved_catalog_followed_witness :
  let t := @track toy_codecs 5 1259 53528 new (700, sample_insert) in
  is_catalog t 5 30000 = false /\
  is_catalog (@track toy_codecs 5 1259 53528 t (701, sample_update)) 5 30000 = true.
Proof.
  cbv zeta. split; [by vm_compute|].
  apply (@moved_catalog_followed toy_codecs 5 1259 53528 701
    (@track toy_codecs 5 1259 53528 new (700, sample_insert)) {[(3, 7) := sample_cols 2608]}
    true (3, 7) (3, 8) 89 6 [1; 0; 0; 0] [0] (sample_cols 30000) (MkRow 2608 (zrep 64 97) 11 30000)).
  - split; [done|]. intros blk off o f cols Hk Hc. apply lookup_singleton_Some in Hc as [[= <- <-] <-].
    exists (MkRow 2608 (zrep 64 97) 11 2608). split; [by vm_compute|].
    revert Hk. vm_compute. by intros [= <- <-].
  - exact sample_update_legal.
  - by vm_compute.
  - done.
  - done.
  - right. split; [lia|by vm_compute].
Defined.

End CatalogSlots.
