(* ===== verification/XidCeiling.v ===== *)
(** * Xid ceilings at WAL positions ([src/toast/xid_ceiling.rs])

    Samples of the highest xid seen, taken by the pump every mebibyte of WAL
    and read by the TOAST store to tell a reused value id from the original. *)
From S2P Require Import Prelude.

Module XidCeiling.

Definition SAMPLE_BYTES := 2 ^ 20.
Definition SAMPLE_CAP := 16 * 1024.

(** [TransactionIdFollows]: later in circular order. *)
Definition follows (a b : Z) : bool := 0 <? signed 32 (usub 32 a b).

Record XidCeiling := MkCeiling
  { max_xid : Z; next_sample_lsn : Z; samples : list (Z * Z) }.

Definition new : XidCeiling := MkCeiling 0 0 [].

(** [while samples.len() > SAMPLE_CAP { samples.pop_front(); }] *)
Definition evict (s : list (Z * Z)) : list (Z * Z) := zdrop (zlen s - SAMPLE_CAP) s.

Definition observe (c : XidCeiling) (lsn xid : Z) : XidCeiling :=
  let have := max_xid c in
  let m := if negb (xid =? 0) && ((have =? 0) || follows xid have) then xid else have in
  if lsn <? next_sample_lsn c then MkCeiling m (next_sample_lsn c) (samples c)
  else
    let next := uadd 64 lsn SAMPLE_BYTES in
    if m =? 0 then MkCeiling m next (samples c)
    else MkCeiling m next (evict (samples c ++ [(lsn, m)])).

(** [partition_point] of a partitioned sequence: how many lead with [true]. *)
Fixpoint partition_point {A} (f : A -> bool) (l : list A) : nat :=
  match l with x :: r => if f x then S (partition_point f r) else O | [] => O end.

Definition at_ (c : XidCeiling) (lsn : Z) : Z :=
  let i := partition_point (fun '(sample_lsn, _) => sample_lsn <? lsn) (samples c) in
  match samples c !! i with Some (_, xid) => xid | None => 0 end.

(** ** Safety of rounding up *)

(** Xids of a run span less than half the circle: [base + k], [k < 2^31]. *)
Definition in_window (base xid k : Z) : Prop := 0 <= k < 2 ^ 31 /\ xid = wrap 32 (base + k).

Lemma follows_window base x y i j :
  in_window base x i -> in_window base y j -> follows x y = (j <? i).
Proof.
  intros [Hi ->] [Hj ->]. unfold follows, usub, wrap.
  rewrite <- Zminus_mod. replace (base + i - (base + j)) with (i - j) by lia.
  unfold signed. change (2 ^ (32 - 1)) with (2 ^ 31).
  destruct (Z.lt_ge_cases (i - j) 0) as [H|H].
  - rewrite <- (Z.mod_add (i - j) 1) by lia. rewrite Z.mod_small by lia.
    rewrite (proj2 (Z.ltb_ge _ (2 ^ 31))) by lia. bsplit; lia.
  - rewrite Z.mod_small by lia. rewrite (proj2 (Z.ltb_lt _ (2 ^ 31))) by lia. bsplit; lia.
Qed.

(** A stream of records: positions strictly increase and leave room below
    [2^64]; xids lie in one window. *)
Fixpoint stream (base from : Z) (rs : list (Z * Z)) : Prop :=
  match rs with
  | [] => True
  | (lsn, xid) :: rest =>
      from <= lsn < 2 ^ 64 - SAMPLE_BYTES /\ (xid = 0 \/ exists k, in_window base xid k) /\
      stream base (lsn + 1) rest
  end.

Definition feed (c : XidCeiling) (rs : list (Z * Z)) : XidCeiling :=
  fold_left (fun c r => observe c (fst r) (snd r)) rs c.

(** [m] is no earlier than any xid among [seen]. *)
Definition tops (base m : Z) (seen : list (Z * Z)) : Prop :=
  exists k, in_window base m k /\
    forall l x, (l, x) ∈ seen -> x <> 0 -> exists i, in_window base x i /\ i <= k.

(** Everything seen so far against the state: the running maximum tops it, and
    so does each sample for the records up to its position. *)
Record Inv (base from : Z) (seen : list (Z * Z)) (c : XidCeiling) : Prop :=
  { inv_seen : forall l x, (l, x) ∈ seen -> l < from;
    inv_max : (max_xid c = 0 /\ forall l x, (l, x) ∈ seen -> x = 0) \/
              (max_xid c <> 0 /\ tops base (max_xid c) seen);
    inv_samples : forall s m, (s, m) ∈ samples c ->
      m <> 0 /\ s < from /\ tops base m (filter (fun r => fst r <= s) seen);
    inv_sorted : forall i j a b, samples c !! i = Some a -> samples c !! j = Some b ->
      (i < j)%nat -> fst a < fst b }.

Lemma tops_snoc base m seen l x k :
  tops base m seen -> (x = 0 \/ (in_window base x k /\ follows x m = false)) ->
  tops base m (seen ++ [(l, x)]).
Proof.
  intros (km & Hm & Ht) Hx. exists km. split; [done|]. intros l' x' Hin Hnz.
  apply elem_of_app in Hin as [Hin|Hin]; [by eapply Ht|].
  apply list_elem_of_singleton in Hin as [= -> ->]. destruct Hx as [->|[Hw Hf]]; [done|].
  exists k. split; [done|]. rewrite (follows_window base x m k km) in Hf by done. lia.
Qed.

Lemma tops_new base m seen l x k :
  (forall l x, (l, x) ∈ seen -> x = 0) \/ (tops base m seen /\ follows x m = true) ->
  in_window base x k -> tops base x (seen ++ [(l, x)]).
Proof.
  intros H Hw. exists k. split; [done|]. intros l' x' Hin Hnz.
  apply elem_of_app in Hin as [Hin|Hin].
  - destruct H as [H|[(km & Hm & Ht) Hf]]; [by apply H in Hin|].
    destruct (Ht l' x' Hin Hnz) as (i & Hi & Hle). exists i. split; [done|].
    rewrite (follows_window base x m k km) in Hf by done. lia.
  - apply list_elem_of_singleton in Hin as [= -> ->]. by exists k.
Qed.

Definition fold_max (have xid : Z) : Z :=
  if negb (xid =? 0) && ((have =? 0) || follows xid have) then xid else have.

Lemma max_step base have seen l x :
  (have = 0 /\ forall l x, (l, x) ∈ seen -> x = 0) \/ (have <> 0 /\ tops base have seen) ->
  (x = 0 \/ exists k, in_window base x k) ->
  (fold_max have x = 0 /\ forall l' x', (l', x') ∈ seen ++ [(l, x)] -> x' = 0) \/
  (fold_max have x <> 0 /\ tops base (fold_max have x) (seen ++ [(l, x)])).
Proof.
  intros Hm Hx. unfold fold_max. destruct (Z.eqb_spec x 0) as [-> |Hnz].
  { destruct Hm as [[-> Hz]|[Hn Ht]].
    - left. split; [done|]. intros l' x' Hin. apply elem_of_app in Hin as [Hin|Hin]; [by eapply Hz|].
      by apply list_elem_of_singleton in Hin as [= _ ->].
    - right. split; [done|]. eapply tops_snoc; [done|by left]. Unshelve. exact 0. }
  destruct Hx as [|[k Hw]]; [done|]. right. destruct Hm as [[-> Hz]|[Hn Ht]].
  - split; [done|]. eapply (tops_new base 0); [by left|exact Hw].
  - rewrite (proj2 (Z.eqb_neq _ _)) by done. cbn [negb andb orb]. destruct (follows x have) eqn:Ef.
    + split; [done|]. eapply (tops_new base have); [by right|exact Hw].
    + split; [done|]. eapply tops_snoc; [done|]. right. by split.
Qed.

Lemma evict_elem s x : x ∈ evict s -> x ∈ s.
Proof.
  unfold evict, zdrop. intros H. apply list_elem_of_lookup in H as [i H]. rewrite lookup_drop in H.
  by eapply list_elem_of_lookup_2.
Qed.

Lemma evict_sorted s :
  (forall i j a b, s !! i = Some a -> s !! j = Some b -> (i < j)%nat -> fst a < fst b) ->
  forall i j (a b : Z * Z), evict s !! i = Some a -> evict s !! j = Some b -> (i < j)%nat -> fst a < fst b.
Proof.
  intros H i j a b Ha Hb Hij. unfold evict, zdrop in *. rewrite lookup_drop in Ha, Hb.
  apply (H _ _ _ _ Ha Hb). lia.
Qed.

Lemma sorted_snoc (s : list (Z * Z)) (e : Z * Z) :
  (forall i j a b, s !! i = Some a -> s !! j = Some b -> (i < j)%nat -> fst a < fst b) ->
  (forall a, a ∈ s -> fst a < fst e) ->
  forall i j (a b : Z * Z), (s ++ [e]) !! i = Some a -> (s ++ [e]) !! j = Some b -> (i < j)%nat -> fst a < fst b.
Proof.
  intros Hs He i j a b Ha Hb Hij. apply lookup_app_Some in Ha as [Ha|[Hi Ha]], Hb as [Hb|[Hj Hb]].
  - by eapply Hs.
  - apply list_lookup_singleton_Some in Hb as [_ <-]. apply He. by eapply list_elem_of_lookup_2.
  - apply lookup_lt_Some in Hb. lia.
  - apply list_lookup_singleton_Some in Ha as [Ea _], Hb as [Eb _]. lia.
Qed.

Lemma tops_filter_mono base m s seen l x :
  s < l -> tops base m (filter (fun r => fst r <= s) seen) ->
  tops base m (filter (fun r => fst r <= s) (seen ++ [(l, x)])).
Proof.
  intros Hs. rewrite list.filter_app. rewrite (filter_cons_False _ (l, x)) by (simpl; lia).
  by rewrite filter_nil, app_nil_r.
Qed.

Lemma tops_sub base m seen seen' : (forall r, r ∈ seen' -> r ∈ seen) -> tops base m seen -> tops base m seen'.
Proof. intros H (k & Hk & Ht). exists k. split; [done|]. intros l x Hin. by apply (Ht l x), H. Qed.

Lemma inv_observe base from seen c l x :
  Inv base from seen c -> from <= l < 2 ^ 64 - SAMPLE_BYTES -> (x = 0 \/ exists k, in_window base x k) ->
  Inv base (l + 1) (seen ++ [(l, x)]) (observe c l x).
Proof.
  intros [Hseen Hmax Hsam Hsort] Hl Hx.
  pose proof (max_step base (max_xid c) seen l x Hmax Hx) as Hm.
  assert (Hseen' : forall l' x', (l', x') ∈ seen ++ [(l, x)] -> l' < l + 1).
  { intros l' x' Hin. apply elem_of_app in Hin as [Hin|Hin]; [apply Hseen in Hin; lia|].
    apply list_elem_of_singleton in Hin as [= -> _]. lia. }
  assert (Hold : forall s m, (s, m) ∈ samples c -> m <> 0 /\ s < l + 1 /\
    tops base m (filter (fun r => fst r <= s) (seen ++ [(l, x)]))).
  { intros s m Hin. destruct (Hsam s m Hin) as (Hn & Hs & Ht). split; [done|]. split; [lia|].
    apply tops_filter_mono; [lia|done]. }
  unfold observe. cbv zeta. fold (fold_max (max_xid c) x).
  destruct (l <? next_sample_lsn c); [split; done|].
  destruct (Z.eqb_spec (fold_max (max_xid c) x) 0) as [Ez|Ez]; [split; done|].
  destruct Hm as [[? _]|[_ Ht]]; [done|]. split; simpl; [done|by right| |].
  - intros s m Hin. apply evict_elem, elem_of_app in Hin as [Hin|Hin]; [by apply Hold|].
    apply list_elem_of_singleton in Hin as [= -> ->]. split; [done|]. split; [lia|].
    eapply tops_sub; [|exact Ht]. intros r Hr. by apply list_elem_of_filter in Hr as [_ Hr].
  - apply evict_sorted, sorted_snoc; [done|]. intros [s m] Hin. apply Hsam in Hin as (_ & Hs & _). simpl. lia.
Qed.

Lemma inv_feed base rs : forall from seen c,
  Inv base from seen c -> stream base from rs ->
  exists from', Inv base from' (seen ++ rs) (feed c rs).
Proof.
  induction rs as [|[l x] rs IH]; intros from seen c Hi Hs; [exists from; by rewrite app_nil_r|].
  destruct Hs as (Hl & Hx & Hs). apply (inv_observe _ _ _ _ _ _ Hi Hl) in Hx as Hi'.
  destruct (IH _ _ _ Hi' Hs) as [from' H]. exists from'. by rewrite <- app_assoc in H.
Qed.

(** The element [partition_point] lands on, in a sorted sequence. *)
Lemma partition_point_lookup (l : list (Z * Z)) lsn s m :
  l !! partition_point (fun '(p, _) => p <? lsn) l = Some (s, m) -> (s, m) ∈ l /\ lsn <= s.
Proof.
  induction l as [|[p y] l IH]; simpl; [done|]. destruct (Z.ltb_spec p lsn).
  - intros Hk. destruct (IH Hk). split; [by right|done].
  - intros [= -> ->]. split; [left|lia].
Qed.

(** The ceiling read for a position is never earlier than any xid the
    stream showed up to it: an original TOAST value, written at or before the
    referring record, is never rejected as a reuse.  Rounding up to a later
    sample and evicting old samples both keep this. *)
Theorem ceiling_never_rejects_original (base : Z) (rs : list (Z * Z)) (lsn l x : Z) :
  stream base 0 rs -> (l, x) ∈ rs -> x <> 0 -> l <= lsn ->
  at_ (feed new rs) lsn = 0 \/ follows x (at_ (feed new rs) lsn) = false.
Proof.
  intros Hs Hin Hnz Hle. destruct (inv_feed base rs 0 [] new) as [from' Hi].
  { split; simpl.
    - intros ? ? H. by apply not_elem_of_nil in H.
    - left. split; [done|]. intros ? ? H. by apply not_elem_of_nil in H.
    - intros ? ? H. by apply not_elem_of_nil in H.
    - intros i j a b H. done. }
  { exact Hs. }
  simpl in Hi. unfold at_. cbv zeta.
  destruct (samples (feed new rs) !! _) as [[s m]|] eqn:E; [|by left]. right.
  apply partition_point_lookup in E as [Hm Hge].
  destruct (inv_samples _ _ _ _ Hi s m Hm) as (_ & _ & km & Hkm & Ht).
  destruct (Ht l x) as (i & Hi' & Hik); [|done|].
  - apply list_elem_of_filter. simpl. split; [lia|done].
  - rewrite (follows_window base x m i km) by done. bsplit; [lia|done].
Qed.

Lemma ceiling_never_rejects_original_witness :
  let rs := [(10, 4294967290); (20, 0); (2000000, 3); (2000010, 5)] in
  at_ (feed new rs) 15 = 3 /\ follows 4294967290 (at_ (feed new rs) 15) = false.
Proof.
  cbv zeta. split; [by vm_compute|].
  destruct (ceiling_never_rejects_original 4294967290
    [(10, 4294967290); (20, 0); (2000000, 3); (2000010, 5)] 15 10 4294967290) as [H|H].
  - cbn [stream]. unfold SAMPLE_BYTES. split; [lia|]. split; [right; by exists 0|].
    split; [lia|]. split; [by left|]. split; [lia|]. split; [right; by exists 9|].
    split; [lia|]. split; [right; by exists 11|done].
  - left.
  - done.
  - lia.
  - vm_compute in H. discriminate.
  - exact H.
Defined.

End XidCeiling.
