(* ===== verification/ShadowRelations.v ===== *)
(** * Relations whose records also replay on the shadow

    [src/filter/shadow_relations.rs]: membership by (database, relfilenode)
    with the position it holds from, and the stored form.  File reads and
    writes are the surrounding runtime's: [flush] returns what it writes and
    [load] takes what was read and the system identifier of [pg_control]. *)
From stdpp Require Import sorting.
From S2P Require Import Prelude.

Module ShadowRelations.

Notation relkey := (Z * Z)%type (only parsing).

Record ShadowRelations := MkShadow
  { rels : gmap (Z * Z) Z;
    held : gset (Z * Z);
    creates_from : Z;
    dir : bool;
    dirty : bool }.

Definition new (rs : list relkey) (creates_from : Z) : ShadowRelations :=
  MkShadow (list_to_map (map (fun r => (r, 0)) rs)) (list_to_set rs) creates_from false true.

Definition contains (s : ShadowRelations) (rel : relkey) : bool := is_some (rels s !! rel).

Definition keeps (s : ShadowRelations) (rel : relkey) (lsn : Z) : bool :=
  match rels s !! rel with Some from => from <=? lsn | None => false end.

Definition admit_rel (s : ShadowRelations) (rel : relkey) (lsn : Z) : ShadowRelations :=
  if (lsn <? creates_from s) || is_some (rels s !! rel) then s
  else MkShadow (<[rel := lsn]> (rels s)) ({[rel]} ∪ held s) (creates_from s) (dir s) true.

(** ** Stored form *)
Record Stored := MkStored
  { version : Z; system_id : option Z; st_creates_from : Z; relations : list (Z * Z * Z) }.

Inductive LoadError := BadVersion | ForeignSystem | BadCreationLsn | DuplicateRelation.

(** Tuple order, as [sort_unstable] uses. *)
Definition tuple_le (a b : Z * Z * Z) : Prop :=
  let '(a1, a2, a3) := a in
  let '(b1, b2, b3) := b in
  a1 < b1 \/ (a1 = b1 /\ (a2 < b2 \/ (a2 = b2 /\ a3 <= b3))).

#[global] Instance tuple_le_dec : RelDecision tuple_le.
Proof. intros [[a1 a2] a3] [[b1 b2] b3]. simpl. apply _. Defined.

Definition stored_of (s : ShadowRelations) (control : option Z) : Stored :=
  MkStored 1 control (creates_from s)
    (merge_sort tuple_le (map (fun '((d, r), lsn) => (d, r, lsn)) (map_to_list (rels s)))).

(** [flush]: what is written, if anything, and the state after. *)
Definition flush (s : ShadowRelations) (control : option Z) : ShadowRelations * option Stored :=
  if dir s && dirty s then
    (MkShadow (rels s) (held s) (creates_from s) (dir s) false, Some (stored_of s control))
  else (s, None).

Definition persist (s : ShadowRelations) (control : option Z) : ShadowRelations * option Stored :=
  flush (MkShadow (rels s) (held s) (creates_from s) true true) control.

Fixpoint load_relations (from : Z) (l : list (Z * Z * Z)) (m : gmap (Z * Z) Z)
    : result LoadError (gmap (Z * Z) Z) :=
  match l with
  | [] => Ok m
  | (db, rel, lsn) :: rest =>
      if negb ((lsn =? 0) || (from <=? lsn)) then Err BadCreationLsn
      else if is_some (m !! (db, rel)) then Err DuplicateRelation
      else load_relations from rest (<[(db, rel) := lsn]> m)
  end.

Definition load (stored : Stored) (control : option Z) : result LoadError ShadowRelations :=
  if negb (version stored =? 1) then Err BadVersion
  else if match system_id stored with
          | Some id => negb (bool_decide (control = Some id))
          | None => false
          end then Err ForeignSystem
  else
    let? m := load_relations (st_creates_from stored) (relations stored) ∅ in
    Ok (MkShadow m (dom m) (st_creates_from stored) true
          (negb (is_some (system_id stored)) && is_some control)).

(** ** Eligibility *)

(** What every live set satisfies: a relation is eligible from the start or
    from its creation, and the shared handle agrees with the map. *)
Definition wf (s : ShadowRelations) : Prop :=
  (forall r lsn, rels s !! r = Some lsn -> lsn = 0 \/ creates_from s <= lsn) /\ held s = dom (rels s).

Lemma wf_new rs from : wf (new rs from).
Proof.
  split; simpl.
  - intros r lsn H. apply elem_of_list_to_map_2, list_elem_of_fmap in H as (x & [= _ ->] & _). by left.
  - apply set_eq. intros x. rewrite elem_of_list_to_set, dom_list_to_map_L, elem_of_list_to_set.
    rewrite <- list_fmap_compose. simpl. by rewrite list_fmap_id.
Qed.

Lemma wf_admit s rel lsn : wf s -> wf (admit_rel s rel lsn).
Proof.
  intros [Hl Hh]. unfold admit_rel. destruct (Z.ltb_spec lsn (creates_from s)); [done|]. simpl.
  destruct (rels s !! rel) eqn:E; [done|]. split; simpl.
  - intros r l Hr. apply lookup_insert_Some in Hr as [[_ <-]|[_ Hr]]; [by right|by apply (Hl r)].
  - by rewrite dom_insert_L, Hh.
Qed.

Lemma load_relations_ok from l : forall m,
  (forall d r lsn, (d, r, lsn) ∈ l -> lsn = 0 \/ from <= lsn) ->
  NoDup (map (fun '(d, r, _) => (d, r)) l) ->
  (forall d r lsn, (d, r, lsn) ∈ l -> m !! (d, r) = None) ->
  load_relations from l m = Ok (list_to_map (map (fun '(d, r, lsn) => ((d, r), lsn)) l) ∪ m).
Proof.
  induction l as [|[[d r] lsn] l IH]; intros m Hl Hnd Hm; simpl; [by rewrite map_empty_union|].
  assert (Hc : (lsn =? 0) || (from <=? lsn) = true).
  { destruct (Hl d r lsn ltac:(left)) as [-> |H]; [done|].
    by rewrite (proj2 (Z.leb_le _ _)), orb_true_r. }
  rewrite Hc. cbn [negb]. rewrite (Hm d r lsn) by left. cbn [is_some].
  apply list.NoDup_cons in Hnd as [Hni Hnd]. rewrite IH.
  - f_equal. rewrite <- insert_union_l. rewrite insert_union_r; [done|].
    apply not_elem_of_list_to_map_1. intros Hin. apply Hni.
    apply list_elem_of_fmap in Hin as ([k v] & Ek & Hin). simpl in Ek. subst k.
    apply list_elem_of_fmap in Hin as ([[d' r'] l'] & [= -> -> ->] & Hin).
    apply list_elem_of_fmap. by exists (d', r', l').
  - intros d' r' l' Hin. apply (Hl d' r' l'). by right.
  - done.
  - intros d' r' l' Hin. rewrite lookup_insert_ne; [apply (Hm d' r' l'); by right|].
    intros [= -> ->]. apply Hni. apply list_elem_of_fmap. by exists (d', r', l').
Qed.

(** What is persisted loads back: the same relations with the same
    positions, the same creation floor and a handle holding exactly them,
    whatever the hash map's order, on the cluster that wrote the file. *)
Theorem persist_load_roundtrip (s : ShadowRelations) (control : option Z) :
  wf s ->
  exists stored, snd (persist s control) = Some stored /\
    load stored control =
      Ok (MkShadow (rels s) (held s) (creates_from s) true false).
Proof.
  intros [Hl Hh]. eexists. split; [reflexivity|]. cbn [rels creates_from].
  unfold load, stored_of. cbn [version system_id st_creates_from relations rels creates_from].
  rewrite Z.eqb_refl. cbn [negb].
  set (l := map (fun '((d, r), lsn) => (d, r, lsn)) (map_to_list (rels s))).
  assert (HP : merge_sort tuple_le l ≡ₚ l) by apply merge_sort_Permutation.
  assert (Hel : forall d r lsn, (d, r, lsn) ∈ merge_sort tuple_le l -> rels s !! (d, r) = Some lsn).
  { intros d r lsn Hin. rewrite HP in Hin. unfold l in Hin.
    apply list_elem_of_fmap in Hin as ([[d' r'] l'] & [= -> -> ->] & Hin). by apply elem_of_map_to_list. }
  assert (Ek : map (fun '(d, r, lsn) => ((d, r), lsn)) l = map_to_list (rels s)).
  { unfold l. rewrite map_map. rewrite <- (map_id (map_to_list (rels s))) at 2. apply map_ext. by intros [[]]. }
  assert (Hperm : map (fun '(d, r, lsn) => ((d, r), lsn)) (merge_sort tuple_le l) ≡ₚ map_to_list (rels s)).
  { rewrite <- Ek. by apply fmap_Permutation. }
  assert (Hctl : match control with Some id => negb (bool_decide (control = Some id)) | None => false end = false)
    by (destruct control; [by rewrite bool_decide_true|done]).
  rewrite Hctl. rewrite load_relations_ok.
  - rewrite map_union_empty. rewrite Hh.
    assert (Em : list_to_map (map (fun '(d, r, lsn) => ((d, r), lsn)) (merge_sort tuple_le l)) = rels s).
    { rewrite <- (list_to_map_to_list (rels s)). apply list_to_map_proper; [|done].
      rewrite Hperm. apply NoDup_fst_map_to_list. }
    rewrite Em. by destruct control.
  - intros d r lsn Hin. apply (Hl (d, r)). by apply Hel.
  - assert (E : map (fun '(d, r, _) => (d, r)) (merge_sort tuple_le l) =
                (map (fun '(d, r, lsn) => ((d, r), lsn)) (merge_sort tuple_le l)).*1).
    { rewrite <- list_fmap_compose. apply list_fmap_ext. by intros ? [[]]. }
    rewrite E, Hperm. apply NoDup_fst_map_to_list.
  - intros. apply lookup_empty.
Qed.

Lemma persist_load_roundtrip_witness :
  let s := admit_rel (new [(5, 16400)] 1000) (5, 16500) 2000 in
  exists stored, snd (persist s (Some 77)) = Some stored /\
    match load stored (Some 77) with
    | Ok s' => keeps s' (5, 16500) 1999 = false /\ keeps s' (5, 16500) 2000 = true
    | Err _ => False
    end.
Proof.
  cbv zeta.
  destruct (persist_load_roundtrip (admit_rel (new [(5, 16400)] 1000) (5, 16500) 2000) (Some 77)) as (st & Hst & Hl).
  { apply wf_admit, wf_new. }
  exists st. split; [exact Hst|]. rewrite Hl. by vm_compute.
Defined.

End ShadowRelations.
