(* ===== verification/Filter.v ===== *)
(** * The routing filter ([src/filter/engine.rs])

    Per-record routing: which path each WAL record takes, which commits and
    commands are catalog boundaries, which user records must wait for one.
    Two inputs are not in the record: [linked], the order in which the dirty
    tree's hash map yields the members linked to a drained root, and whether
    skip attribution is on. *)
From stdpp Require Import strings sorting.
From S2P Require Import Prelude Text WalRecord XactPayload Fpi PgClass CatalogTracker DirtyTree.
From S2P Require Import XidCeiling ShadowRelations.

Module Filter.
Import WalRecord MainData Fpi XactPayload.

(** ** Statistics *)
Record FilterStats := MkStats
  { kept : Z; dropped : Z; kept_bytes : Z; dropped_bytes : Z;
    kept_catalog : Z; kept_user : Z; kept_special : Z; kept_empty : Z }.

Definition no_stats : FilterStats := MkStats 0 0 0 0 0 0 0 0.

Definition inc (z : Z) : Z := uadd 64 z 1.

Definition record_stats (s : FilterStats) (class : Class) (route : Route) (bytes : Z) : FilterStats :=
  match route with
  | ToShadow | ToBoth =>
      MkStats (inc (kept s)) (dropped s) (uadd 64 (kept_bytes s) bytes) (dropped_bytes s)
        (match class with Catalog => inc (kept_catalog s) | _ => kept_catalog s end)
        (match class with User => inc (kept_user s) | _ => kept_user s end)
        (match class with Special => inc (kept_special s) | _ => kept_special s end)
        (match class with Empty => inc (kept_empty s) | _ => kept_empty s end)
  | ToDecoder =>
      MkStats (kept s) (inc (dropped s)) (kept_bytes s) (uadd 64 (dropped_bytes s) bytes)
        (kept_catalog s) (kept_user s) (kept_special s) (kept_empty s)
  end.

(** ** File-creation markers *)
Record SmgrMarkers := MkMarkers { markers : gmap RelFileNode Z; order : list (RelFileNode * Z) }.

Definition SMGR_MARKER_CAP := 65536.

(** The eviction loop of [SmgrMarkers::insert]. *)
Fixpoint pop_excess (ord : list (RelFileNode * Z)) (m : gmap RelFileNode Z)
    : list (RelFileNode * Z) * gmap RelFileNode Z :=
  match ord with
  | [] => ([], m)
  | (old, old_lsn) :: rest =>
      if SMGR_MARKER_CAP <? zlen ord then
        pop_excess rest (if bool_decide (m !! old = Some old_lsn) then delete old m else m)
      else (ord, m)
  end.

Definition insert_marker (s : SmgrMarkers) (rfn : RelFileNode) (lsn : Z) : SmgrMarkers :=
  let m := <[rfn := lsn]> (markers s) in
  if negb (bool_decide (markers s !! rfn = Some lsn)) then
    let '(o, m) := pop_excess (order s ++ [(rfn, lsn)]) m in MkMarkers m o
  else MkMarkers m (order s).

Definition get_marker (s : SmgrMarkers) (rfn : RelFileNode) : option Z := markers s !! rfn.

(** ** Boundaries and verdicts *)
Record AffectedOid := MkAffected { ao_oid : Z; pg_class_touch : option Z }.

Inductive BoundaryKind := Commit | Command (writer_xid : Z).

Record BoundaryInfo := MkBoundary
  { drain_xid : Z;
    tree_first_touch : Z;
    b_oids : list AffectedOid;
    capture_all : bool;
    db_oid : Z;
    kind : BoundaryKind;
    members : list Z;
    stats_only : bool }.

Record XactEnd := MkEnd
  { boundary : option BoundaryInfo; aborted_tree : option (list Z); xact_db : option Z }.

Definition no_end : XactEnd := MkEnd None None None.

Record Verdict := MkVerdict
  { v_route : Route;
    v_boundary : option BoundaryInfo;
    v_aborted_tree : option (list Z);
    defer_catalog_decode : bool;
    v_xact_db : option Z;
    index_dropped : option (Z * Z) }.

Record Filter := MkFilter
  { tracker : CatalogTracker.CatalogTracker;
    stats : FilterStats;
    dirty : DirtyTree.DirtyTree;
    stats_writers : gset Z;
    observed_from_xid : option Z;
    smgr_markers : SmgrMarkers;
    targets : list Z;
    creating_dbs : gmap Z Z;
    shadow_rels : option ShadowRelations.ShadowRelations;
    xid_ceiling : option XidCeiling.XidCeiling;
    attribute_skips : bool }.

Definition new : Filter :=
  MkFilter CatalogTracker.new no_stats DirtyTree.empty ∅ None (MkMarkers ∅ []) [] ∅ None None false.

(** Field updates. *)
Definition set_tracker (t : CatalogTracker.CatalogTracker) (f : Filter) : Filter :=
  MkFilter t (stats f) (dirty f) (stats_writers f) (observed_from_xid f) (smgr_markers f) (targets f)
    (creating_dbs f) (shadow_rels f) (xid_ceiling f) (attribute_skips f).
Definition set_stats (s : FilterStats) (f : Filter) : Filter :=
  MkFilter (tracker f) s (dirty f) (stats_writers f) (observed_from_xid f) (smgr_markers f) (targets f)
    (creating_dbs f) (shadow_rels f) (xid_ceiling f) (attribute_skips f).
Definition set_dirty (d : DirtyTree.DirtyTree) (f : Filter) : Filter :=
  MkFilter (tracker f) (stats f) d (stats_writers f) (observed_from_xid f) (smgr_markers f) (targets f)
    (creating_dbs f) (shadow_rels f) (xid_ceiling f) (attribute_skips f).
Definition set_stats_writers (w : gset Z) (f : Filter) : Filter :=
  MkFilter (tracker f) (stats f) (dirty f) w (observed_from_xid f) (smgr_markers f) (targets f)
    (creating_dbs f) (shadow_rels f) (xid_ceiling f) (attribute_skips f).
Definition set_observed (o : option Z) (f : Filter) : Filter :=
  MkFilter (tracker f) (stats f) (dirty f) (stats_writers f) o (smgr_markers f) (targets f)
    (creating_dbs f) (shadow_rels f) (xid_ceiling f) (attribute_skips f).
Definition set_markers (m : SmgrMarkers) (f : Filter) : Filter :=
  MkFilter (tracker f) (stats f) (dirty f) (stats_writers f) (observed_from_xid f) m (targets f)
    (creating_dbs f) (shadow_rels f) (xid_ceiling f) (attribute_skips f).
Definition set_target_dbs (dbs : list Z) (f : Filter) : Filter :=
  MkFilter (tracker f) (stats f) (dirty f) (stats_writers f) (observed_from_xid f) (smgr_markers f) dbs
    (creating_dbs f) (shadow_rels f) (xid_ceiling f) (attribute_skips f).
Definition set_creating (c : gmap Z Z) (f : Filter) : Filter :=
  MkFilter (tracker f) (stats f) (dirty f) (stats_writers f) (observed_from_xid f) (smgr_markers f) (targets f)
    c (shadow_rels f) (xid_ceiling f) (attribute_skips f).
Definition set_shadow_rels (s : option ShadowRelations.ShadowRelations) (f : Filter) : Filter :=
  MkFilter (tracker f) (stats f) (dirty f) (stats_writers f) (observed_from_xid f) (smgr_markers f) (targets f)
    (creating_dbs f) s (xid_ceiling f) (attribute_skips f).
Definition set_ceiling (x : option XidCeiling.XidCeiling) (f : Filter) : Filter :=
  MkFilter (tracker f) (stats f) (dirty f) (stats_writers f) (observed_from_xid f) (smgr_markers f) (targets f)
    (creating_dbs f) (shadow_rels f) x (attribute_skips f).

(** ** Configuration *)
Definition add_target_db (f : Filter) (db : Z) : Filter :=
  if existsb (Z.eqb db) (targets f) then f else set_target_dbs (targets f ++ [db]) f.

Definition remove_target_db (f : Filter) (db : Z) : Filter :=
  set_target_dbs (List.filter (fun d => negb (d =? db)) (targets f)) f.

Definition keep_user_rels (f : Filter) (rs : list (Z * Z)) (from_lsn : Z) : Filter :=
  set_shadow_rels (Some (ShadowRelations.new rs from_lsn)) f.

Definition observe_from_xid (f : Filter) (xid : Z) : Filter :=
  let earlier := match observed_from_xid f with
                 | Some have => if XidCeiling.follows xid have then have else xid
                 | None => xid
                 end in
  set_observed (Some earlier) f.

Definition is_target_db (f : Filter) (db : Z) : bool := existsb (Z.eqb db) (targets f).

Definition is_target_or_shared (f : Filter) (db : Z) : bool :=
  negb (zlen (targets f) =? 0) && ((db =? 0) || existsb (Z.eqb db) (targets f)).

Definition keeps_user_rel (f : Filter) (db rl lsn : Z) : bool :=
  match shadow_rels f with Some s => ShadowRelations.keeps s (db, rl) lsn | None => false end.

Definition user_rel_to_shadow (f : Filter) (r : XLogRecord) (lsn : Z) : bool :=
  existsb (fun b => keeps_user_rel f (db_node (rel b)) (rel_node (rel b)) lsn) (blocks r).

(** ** Reading a record *)
Definition XLOG_DBASE_CREATE_FILE_COPY := 0x00.
Definition XLOG_DBASE_CREATE_WAL_LOG := 0x10.

Definition created_database (r : XLogRecord) : option Z :=
  if negb (resource_manager_id r =? RM_DBASE) then None
  else
    let op := Z.land (info r) 0xF0 in
    if negb (op =? XLOG_DBASE_CREATE_FILE_COPY) && negb (op =? XLOG_DBASE_CREATE_WAL_LOG) then None
    else let* db := get_range (main_data r) 0 4 in Some (le_dec db).

Definition is_index_rmgr (rm : Z) : bool :=
  existsb (Z.eqb rm) [RM_BTREE; RM_HASH; RM_GIN; RM_GIST; RM_SPGIST; RM_BRIN; RM_GENERIC].

Definition any_block_is_catalog (t : CatalogTracker.CatalogTracker) (bs : list Block) : bool :=
  existsb (fun b => CatalogTracker.is_catalog t (db_node (rel b)) (rel_node (rel b))) bs.

Definition XLOG_HEAP_OPMASK := 0x70.
Definition XLOG_HEAP_INSERT := 0x00.
Definition XLOG_HEAP_DELETE := 0x10.
Definition XLOG_HEAP_UPDATE := 0x20.
Definition XLOG_HEAP_HOT_UPDATE := 0x40.
Definition XLOG_HEAP_INPLACE := 0x70.
Definition XLOG_HEAP2_MULTI_INSERT := 0x50.

Definition catalog_mutation (r : XLogRecord) : bool :=
  let op := Z.land (info r) XLOG_HEAP_OPMASK in
  let rm := resource_manager_id r in
  if rm =? RM_HEAP then
    (op =? XLOG_HEAP_INSERT) || (op =? XLOG_HEAP_DELETE) || (op =? XLOG_HEAP_UPDATE) ||
    (op =? XLOG_HEAP_HOT_UPDATE)
  else (rm =? RM_HEAP2) && (op =? XLOG_HEAP2_MULTI_INSERT).

Definition catalog_write_db (r : XLogRecord) : option Z :=
  if negb (catalog_mutation r) then None
  else match blocks r with [] => None | b :: _ => Some (db_node (rel b)) end.

Definition descriptor_touch_db (f : Filter) (r : XLogRecord) : option Z :=
  let* db := catalog_write_db r in
  match blocks r with
  | [] => None
  | b :: _ =>
      if negb (CatalogTracker.is_opaque_catalog (tracker f) (db_node (rel b)) (rel_node (rel b)))
      then Some db else None
  end.

Definition is_stats_write (f : Filter) (r : XLogRecord) : bool :=
  match blocks r with
  | [] => false
  | b :: _ =>
      let db := db_node (rel b) in
      let rl := rel_node (rel b) in
      if negb (is_target_db f db) then false
      else if CatalogTracker.is_opaque_catalog (tracker f) db rl then true
      else (resource_manager_id r =? RM_HEAP) && (Z.land (info r) XLOG_HEAP_OPMASK =? XLOG_HEAP_INPLACE)
           && CatalogTracker.is_catalog (tracker f) db rl
  end.

Definition fully_observed (f : Filter) (xid : Z) : bool :=
  match observed_from_xid f with Some from => negb (XidCeiling.follows from xid) | None => false end.

Definition stats_only_tree (f : Filter) (root : Z) (ms : list Z) (dirty_hit : bool) : bool :=
  negb dirty_hit && fully_observed f root &&
  (bool_decide (root ∈ stats_writers f) || existsb (fun m => bool_decide (m ∈ stats_writers f)) ms).

Definition forget_stats_writers (f : Filter) (ms : list Z) : Filter :=
  set_stats_writers (stats_writers f ∖ list_to_set ms) f.

Definition note_index_drop (f : Filter) (r : XLogRecord) : option (Z * Z) :=
  if negb (attribute_skips f) then None
  else if negb (is_index_rmgr (resource_manager_id r)) then None
  else
    let rl := match blocks r with
              | b :: _ => Some (rel b)
              | [] => relation_for_empty r
              end in
    Some (match rl with Some x => (db_node x, rel_node x) | None => (0, 0) end).

(** [entry(k).or_insert(v)]. *)
Definition or_insert (m : gmap Z Z) (k v : Z) : gmap Z Z :=
  match m !! k with Some _ => m | None => <[k := v]> m end.

Definition by_oid (a b : AffectedOid) : Prop := ao_oid a <= ao_oid b.

#[global] Instance by_oid_dec : RelDecision by_oid.
Proof. intros a b. unfold by_oid. apply _. Defined.

(** ** Route *)
Definition route_of (f : Filter) (obs : CatalogTracker.Observation) (r : XLogRecord) (lsn : Z)
    : Route * option Z :=
  match classify r with
  | Catalog => (ToShadow, descriptor_touch_db f r)
  | Special => (ToShadow, CatalogTracker.catalog_db_oid obs)
  | User =>
      if any_block_is_catalog (tracker f) (blocks r) then (ToShadow, descriptor_touch_db f r)
      else if user_rel_to_shadow f r lsn then (ToBoth, None)
      else (ToDecoder, None)
  | Empty =>
      match relation_for_empty r with
      | Some rl =>
          if CatalogTracker.is_catalog (tracker f) (db_node rl) (rel_node rl) then
            (ToShadow,
             if negb (CatalogTracker.is_opaque_catalog (tracker f) (db_node rl) (rel_node rl))
             then Some (db_node rl) else None)
          else if keeps_user_rel f (db_node rl) (rel_node rl) lsn then (ToBoth, None)
          else (ToDecoder, None)
      | None => (ToShadow, None)
      end
  end.

(** File creation, running transactions, database creation and the ceiling. *)
Definition note_smgr_create (f : Filter) (r : XLogRecord) (lsn : Z) : Filter :=
  if (resource_manager_id r =? RM_SMGR) && (Z.land (info r) 0xF0 =? XLOG_SMGR_CREATE) then
    match parse_xl_smgr_create (main_data r) with
    | Some (rfn, fork) =>
        if fork =? MAIN_FORKNUM then
          let f := set_markers (insert_marker (smgr_markers f) rfn lsn) f in
          match shadow_rels f with
          | Some s =>
              if (zlen (targets f) =? 0) || existsb (Z.eqb (db_node rfn)) (targets f) then
                set_shadow_rels (Some (ShadowRelations.admit_rel s (db_node rfn, rel_node rfn) lsn)) f
              else f
          | None => f
          end
        else f
    | None => f
    end
  else f.

Definition note_running_xacts (f : Filter) (r : XLogRecord) : Filter :=
  if (resource_manager_id r =? RM_STANDBY) && (Z.land (info r) 0xF0 =? XLOG_RUNNING_XACTS) then
    match parse_running_xacts_next_xid (main_data r) with
    | Some next_xid => observe_from_xid f next_xid
    | None => f
    end
  else f.

Definition note_database (f : Filter) (r : XLogRecord) : Filter :=
  let xid := xact_id r in
  if negb (xid =? 0) then
    match created_database r with
    | Some db => set_creating (<[xid := db]> (creating_dbs f)) f
    | None => f
    end
  else f.

Definition note_ceiling (f : Filter) (r : XLogRecord) (lsn : Z) : Filter :=
  match xid_ceiling f with
  | Some c => set_ceiling (Some (XidCeiling.observe c lsn (xact_id r))) f
  | None => f
  end.

(** The catalog write, folded into the writer's dirt. *)
Definition dirty_write (f : Filter) (obs : CatalogTracker.Observation) (r : XLogRecord) (lsn db : Z)
    (d : DirtyTree.DirtyState) : DirtyTree.DirtyState :=
  let '(d_db, d_other) :=
    match DirtyTree.db d with
    | Some have => if negb (have =? db) then (DirtyTree.db d, Some db) else (Some db, DirtyTree.db_other d)
    | None => (Some db, DirtyTree.db_other d)
    end in
  DirtyTree.MkDirty (DirtyTree.first_touch d)
    (match CatalogTracker.pg_class_user_oid obs with
     | Some o => or_insert (DirtyTree.oids d) o lsn
     | None => DirtyTree.oids d
     end)
    (DirtyTree.unenumerated d ||
     existsb (fun b => CatalogTracker.is_capture_all_catalog (tracker f) (db_node (rel b)) (rel_node (rel b)))
       (blocks r))
    true d_db d_other.

Definition touch_catalog (f : Filter) (obs : CatalogTracker.Observation) (r : XLogRecord) (lsn : Z)
    (touch_db : option Z) : Filter :=
  let xid := xact_id r in
  match touch_db with
  | Some db =>
      if negb (xid =? 0) && is_target_db f db && negb (bool_decide (creating_dbs f !! xid = Some db)) then
        set_dirty (DirtyTree.touch (dirty f) xid lsn (dirty_write f obs r lsn db)) f
      else f
  | None => f
  end.

(** ** Invalidations and transaction ends *)

(** Relcache invalidations of followed databases: whole-cache flush seen, and
    the user relations named. *)
Definition relcache_scope (f : Filter) (msgs : list RelcacheInval) : bool * list Z :=
  fold_left (fun '(flush, os) i =>
    if negb (is_target_or_shared f (inval_db_id i)) then (flush, os)
    else if rel_id i =? 0 then (true, os)
    else if FIRST_NORMAL_OBJECT_ID <=? rel_id i then (flush, os ++ [rel_id i])
    else (flush, os)) msgs (false, []).

(** First followed database an invalidation names. *)
Definition inval_db (f : Filter) (msgs : list RelcacheInval) : option Z :=
  fold_left (fun acc i =>
    if is_target_or_shared f (inval_db_id i) && negb (inval_db_id i =? 0)
    then opt_or acc (Some (inval_db_id i)) else acc) msgs None.

Fixpoint dedup_by_oid (l : list AffectedOid) : list AffectedOid :=
  match l with
  | a :: (b :: _) as rest =>
      if ao_oid a =? ao_oid b then
        match dedup_by_oid rest with _ :: r => a :: r | [] => [a] end
      else a :: dedup_by_oid rest
  | _ => l
  end.

Definition observe_xact_invals (f : Filter) (r : XLogRecord) (lsn page_magic : Z)
    : Filter * result XactPayloadError (option BoundaryInfo) :=
  let xid := xact_id r in
  if xid =? 0 then (f, Ok None)
  else
    match parse_xact_invalidations (main_data r) page_magic with
    | Err e => (f, Err e)
    | Ok invals =>
        let namespace_hit := hits (namespace invals) (is_target_or_shared f) in
        let '(flush, os) := relcache_scope f (relcache invals) in
        if negb namespace_hit && negb flush && (zlen os =? 0) then (f, Ok None)
        else
          let root := DirtyTree.root (dirty f) xid in
          if negb namespace_hit && negb flush &&
             stats_only_tree f root [xid] (DirtyTree.is_dirty (dirty f) xid)
          then (f, Ok None)
          else
            let touched :=
              DirtyTree.touch (dirty f) xid lsn (fun d =>
                DirtyTree.MkDirty (DirtyTree.first_touch d)
                  (fold_left (fun m o => or_insert m o lsn) os (DirtyTree.oids d))
                  (DirtyTree.unenumerated d || (namespace_hit || flush))
                  (DirtyTree.direct_write d) (DirtyTree.db d) (DirtyTree.db_other d)) in
            let d := default (DirtyTree.new_state lsn) (DirtyTree.state_by_xid touched !! xid) in
            let touches :=
              dedup_by_oid (merge_sort by_oid
                (map (fun o => MkAffected o (DirtyTree.oids d !! o)) os)) in
            (set_dirty touched f,
             Ok (Some (MkBoundary root (DirtyTree.first_touch d) touches (namespace_hit || flush)
                         (default 0 (opt_or (DirtyTree.db d) (inval_db f (relcache invals))))
                         (Command xid) [] false)))
    end.

Definition link_all (d : DirtyTree.DirtyTree) (top : Z) (subs : list Z) : DirtyTree.DirtyTree :=
  fold_left (fun d s => DirtyTree.link d s top) subs d.

(** Databases of a tree that wrote a catalog must agree with each other and
    with the commit record. *)
Definition scope_error (merged : option DirtyTree.DirtyState) (payload_db : option Z)
    : option XactPayloadError :=
  match merged with
  | Some state =>
      if DirtyTree.direct_write state then
        let proved := default 0 (DirtyTree.db state) in
        match DirtyTree.db_other state with
        | Some second => Some (MixedScope proved second)
        | None =>
            match payload_db with
            | Some d => if negb (d =? proved) then Some (ForeignScope d proved) else None
            | None => None
            end
        end
      else None
  | None => None
  end.

Definition affected (m : gmap Z Z) : list AffectedOid :=
  merge_sort by_oid
    (map (fun '(o, l) => MkAffected o (if negb (l =? 0) then Some l else None)) (map_to_list m)).

(** The commit arm, after the tree is drained. *)
Definition commit_end (f : Filter) (lsn header_xid : Z) (payload : XactCommitPayload)
    (merged : option DirtyTree.DirtyState) (ms : list Z) (stats_tree : bool)
    : result XactPayloadError XactEnd :=
  match scope_error merged (db_id payload) with
  | Some e => Err e
  | None =>
      let '(flush, os) := relcache_scope f (relcache (invals payload)) in
      let all := flush || hits (namespace (invals payload)) (is_target_or_shared f) in
      let so := stats_tree && negb all in
      let os := if so then [] else os in
      if negb (is_some merged) && (zlen os =? 0) && negb all && negb so then
        Ok (MkEnd None None (db_id payload))
      else
        let d := default (DirtyTree.new_state lsn) merged in
        let db := default 0 (opt_or (DirtyTree.db d)
                    (match db_id payload with
                     | Some x => if is_target_db f x then Some x else None
                     | None => None
                     end)) in
        let touched := fold_left (fun m o => or_insert m o 0) os (DirtyTree.oids d) in
        Ok (MkEnd
              (Some (MkBoundary (default header_xid (twophase_xid payload)) (DirtyTree.first_touch d)
                       (affected touched) (all || DirtyTree.unenumerated d) db Commit ms so))
              None (db_id payload))
  end.

Definition observe_xact_end (f : Filter) (r : XLogRecord) (lsn page_magic : Z) (linked : list Z)
    : Filter * result XactPayloadError XactEnd :=
  if negb (resource_manager_id r =? RM_XACT) then (f, Ok no_end)
  else
    let op := Z.land (info r) XLOG_XACT_OPMASK in
    if op =? XLOG_XACT_INVALIDATIONS then
      match observe_xact_invals f r lsn page_magic with
      | (f, Ok b) => (f, Ok (MkEnd b None None))
      | (f, Err e) => (f, Err e)
      end
    else if op =? XLOG_XACT_ASSIGNMENT then
      match parse_xact_assignment (main_data r) with
      | Some (top, subs) => (set_dirty (link_all (dirty f) top subs) f, Ok no_end)
      | None => (f, Err (Malformed WAssignment))
      end
    else
      let is_commit := (op =? XLOG_XACT_COMMIT) || (op =? XLOG_XACT_COMMIT_PREPARED) in
      let is_abort := (op =? XLOG_XACT_ABORT) || (op =? XLOG_XACT_ABORT_PREPARED) in
      if negb is_commit && negb is_abort then (f, Ok no_end)
      else
        match parse_xact_payload (info r) (main_data r) page_magic with
        | Err e => (f, Err e)
        | Ok payload =>
            let header_xid := xact_id r in
            let f := set_creating (delete header_xid (creating_dbs f)) f in
            let '(tree, merged, ms) :=
              DirtyTree.drain_tree (dirty f) header_xid (twophase_xid payload) (subxacts payload) linked in
            let f := set_dirty tree f in
            let root := default header_xid (twophase_xid payload) in
            let stats_tree := stats_only_tree f root ms (is_some merged) in
            let f := forget_stats_writers f ms in
            let f := forget_stats_writers f [header_xid; root] in
            let f := forget_stats_writers f (subxacts payload) in
            if negb is_commit then
              (f, Ok (MkEnd None (if is_some merged then Some ms else None) (db_id payload)))
            else (f, commit_end f lsn header_xid payload merged ms stats_tree)
        end.

(** ** One record *)
Section Decide.
Context `{C : Codecs}.

(** Everything before the transaction end is looked at. *)
Definition before_end (f : Filter) (r : XLogRecord) (lsn page_magic : Z) : Filter * Route :=
  let '(t, obs) := CatalogTracker.observe (tracker f) r page_magic in
  let f := set_tracker t f in
  let '(route, touch_db) := route_of f obs r lsn in
  let f := note_smgr_create f r lsn in
  let f := note_running_xacts f r in
  let f := note_database f r in
  let f := note_ceiling f r lsn in
  let f := set_dirty (DirtyTree.link (dirty f) (xact_id r) (toplevel_xid r)) f in
  let f := if negb (xact_id r =? 0) && is_stats_write f r
           then set_stats_writers ({[xact_id r]} ∪ stats_writers f) f else f in
  (touch_catalog f obs r lsn touch_db, route).

Definition decide_record (f : Filter) (r : XLogRecord) (source_lsn page_magic : Z) (linked : list Z)
    : Filter * result XactPayloadError Verdict :=
  let '(f, route) := before_end f r source_lsn page_magic in
  let defer := bool_decide (route = ToDecoder) && DirtyTree.is_dirty (dirty f) (xact_id r) in
  match observe_xact_end f r source_lsn page_magic linked with
  | (f, Err e) => (f, Err e)
  | (f, Ok e) =>
      let f := set_stats (record_stats (stats f) (classify r) route (total_record_length r)) f in
      let skip := if bool_decide (route = ToDecoder) then note_index_drop f r else None in
      (f, Ok (MkVerdict route (boundary e) (aborted_tree e) defer (xact_db e) skip))
  end.
End Decide.

End Filter.
