(* ===== verification/FilterProofs.v ===== *)
(** * Properties of the routing filter

    Routing safety, deferral of user records behind catalog writes, catalog
    boundaries at commits and commands, aborts and scope conflicts. *)
From stdpp Require Import strings sorting.
From S2P Require Import Prelude Text WalRecord XactPayload Fpi PgClass CatalogTracker DirtyTree.
From S2P Require Import XidCeiling ShadowRelations Filter.

Module FilterProofs.
Import WalRecord MainData Fpi XactPayload Filter.

(** ** Frames: what each step leaves alone *)
Lemma note_smgr_create_frame f r lsn :
  tracker (note_smgr_create f r lsn) = tracker f /\ dirty (note_smgr_create f r lsn) = dirty f /\
  targets (note_smgr_create f r lsn) = targets f /\ stats (note_smgr_create f r lsn) = stats f.
Proof.
  unfold note_smgr_create. destruct (_ && _); [|done]. destruct (parse_xl_smgr_create _) as [[rfn fork]|]; [|done].
  destruct (fork =? _); [|done]. simpl. destruct (shadow_rels f); [|done]. by destruct (_ || _).
Qed.

Lemma note_running_frame f r :
  tracker (note_running_xacts f r) = tracker f /\ dirty (note_running_xacts f r) = dirty f /\
  targets (note_running_xacts f r) = targets f /\ stats (note_running_xacts f r) = stats f.
Proof.
  unfold note_running_xacts. destruct (_ && _); [|done]. by destruct (parse_running_xacts_next_xid _).
Qed.

Lemma note_database_frame f r :
  tracker (note_database f r) = tracker f /\ dirty (note_database f r) = dirty f /\
  targets (note_database f r) = targets f /\ stats (note_database f r) = stats f.
Proof. unfold note_database. destruct (negb _); [|done]. by destruct (created_database r). Qed.

Lemma note_ceiling_frame f r lsn :
  tracker (note_ceiling f r lsn) = tracker f /\ dirty (note_ceiling f r lsn) = dirty f /\
  targets (note_ceiling f r lsn) = targets f /\ stats (note_ceiling f r lsn) = stats f.
Proof. unfold note_ceiling. by destruct (xid_ceiling f). Qed.

Lemma touch_catalog_frame f obs r lsn db :
  tracker (touch_catalog f obs r lsn db) = tracker f /\ targets (touch_catalog f obs r lsn db) = targets f /\
  stats (touch_catalog f obs r lsn db) = stats f.
Proof. unfold touch_catalog. destruct db; [|done]. by destruct (_ && _ && _). Qed.

Lemma observe_xact_invals_frame f r lsn magic :
  tracker (fst (observe_xact_invals f r lsn magic)) = tracker f /\
  targets (fst (observe_xact_invals f r lsn magic)) = targets f /\
  stats (fst (observe_xact_invals f r lsn magic)) = stats f.
Proof.
  unfold observe_xact_invals. cbv zeta. destruct (xact_id r =? 0); [done|].
  destruct (parse_xact_invalidations _ _); [|done]. destruct (relcache_scope _ _) as [fl os].
  destruct (_ && _ && _); [done|]. by destruct (_ && _ && _).
Qed.

Lemma observe_xact_end_frame f r lsn magic linked :
  tracker (fst (observe_xact_end f r lsn magic linked)) = tracker f /\
  targets (fst (observe_xact_end f r lsn magic linked)) = targets f /\
  stats (fst (observe_xact_end f r lsn magic linked)) = stats f.
Proof.
  unfold observe_xact_end. cbv zeta. destruct (negb _); [done|]. destruct (_ =? XLOG_XACT_INVALIDATIONS).
  { pose proof (observe_xact_invals_frame f r lsn magic) as H.
    by destruct (observe_xact_invals f r lsn magic) as [f' []]. }
  destruct (_ =? XLOG_XACT_ASSIGNMENT); [by destruct (parse_xact_assignment _) as [[]|]|].
  destruct (_ && _); [done|]. destruct (parse_xact_payload _ _ _); [|done].
  destruct (DirtyTree.drain_tree _ _ _ _ _) as [[tree merged] ms]. by destruct (negb _).
Qed.

Section Before.
Context `{C : Codecs}.

(** The tracker and route [before_end] leaves, and its dirty tree. *)
Lemma before_end_spec f r lsn magic :
  let t := fst (CatalogTracker.observe (tracker f) r magic) in
  let obs := snd (CatalogTracker.observe (tracker f) r magic) in
  let '(f', route) := before_end f r lsn magic in
  tracker f' = t /\ targets f' = targets f /\ stats f' = stats f /\
  route = fst (route_of (set_tracker t f) obs r lsn) /\
  exists f1, dirty f1 = DirtyTree.link (dirty f) (xact_id r) (toplevel_xid r) /\
    tracker f1 = t /\ targets f1 = targets f /\
    f' = touch_catalog f1 obs r lsn (snd (route_of (set_tracker t f) obs r lsn)).
Proof.
  cbv zeta. unfold before_end. destruct (CatalogTracker.observe (tracker f) r magic) as [t obs]. cbn [fst snd].
  set (f0 := set_tracker t f). destruct (route_of f0 obs r lsn) as [route touch_db]. cbn [fst snd].
  cbv zeta. set (f1 := note_ceiling _ r lsn).
  assert (H1 : tracker f1 = t /\ dirty f1 = dirty f /\ targets f1 = targets f /\ stats f1 = stats f).
  { unfold f1.
    destruct (note_ceiling_frame (note_database (note_running_xacts (note_smgr_create f0 r lsn) r) r) r lsn) as (-> & -> & -> & ->).
    destruct (note_database_frame (note_running_xacts (note_smgr_create f0 r lsn) r) r) as (-> & -> & -> & ->).
    destruct (note_running_frame (note_smgr_create f0 r lsn) r) as (-> & -> & -> & ->).
    destruct (note_smgr_create_frame f0 r lsn) as (-> & -> & -> & ->). done. }
  destruct H1 as (Ht & Hd & Htg & Hst).
  set (f2 := set_dirty _ f1). set (f3 := if _ && is_stats_write f2 r then _ else f2).
  assert (H3 : tracker f3 = t /\ dirty f3 = DirtyTree.link (dirty f) (xact_id r) (toplevel_xid r) /\
               targets f3 = targets f /\ stats f3 = stats f).
  { unfold f3. destruct (_ && _); unfold f2; simpl; rewrite ?Hd; done. }
  destruct H3 as (Ht3 & Hd3 & Htg3 & Hst3).
  destruct (touch_catalog_frame f3 obs r lsn touch_db) as (-> & -> & ->).
  repeat split; [done|done|done|]. by exists f3.
Qed.
End Before.

(** ** Routing *)

(** A record replaced on the shadow: what it may name. *)
Definition no_catalog (t : CatalogTracker.CatalogTracker) (r : XLogRecord) : Prop :=
  (rmgr_is_special (resource_manager_id r) = false \/ is_page_image r = true) /\
  Forall (fun b => CatalogTracker.is_catalog t (db_node (rel b)) (rel_node (rel b)) = false) (blocks r) /\
  (blocks r = [] -> exists rl, relation_for_empty r = Some rl /\
     CatalogTracker.is_catalog t (db_node rl) (rel_node rl) = false).

Lemma classify_not_special r :
  classify r <> Special -> rmgr_is_special (resource_manager_id r) = false \/ is_page_image r = true.
Proof.
  unfold classify. destruct (rmgr_is_special _); [|by left]. destruct (is_page_image r); [by right|done].
Qed.

Lemma classify_blocks_empty bs : forall u,
  classify_blocks bs u = Empty -> Forall (fun b => rel_node (rel b) = 0) bs /\ u = false.
Proof.
  induction bs as [|b bs IH]; intros u; simpl; [by destruct u|].
  destruct (is_catalog_relnode _); [done|]. intros H. apply IH in H as [HF Hu].
  destruct (Z.eqb_spec (rel_node (rel b)) 0); [|done]. split; [by constructor|done].
Qed.

Lemma classify_empty_blocks r : classify r = Empty -> Forall (fun b => rel_node (rel b) = 0) (blocks r).
Proof.
  unfold classify. destruct (_ && _); [done|]. destruct (blocks r) as [|b bs] eqn:E; [done|].
  intros H. rewrite <- E in H |- *. by apply classify_blocks_empty in H as [? _].
Qed.

Lemma route_of_decoder f obs r lsn :
  fst (route_of f obs r lsn) = ToDecoder -> no_catalog (tracker f) r.
Proof.
  unfold route_of, no_catalog. intros H.
  assert (Hs : classify r <> Special) by (intros E; by rewrite E in H).
  split; [by apply classify_not_special|]. destruct (classify r) eqn:Ec; [done| |done|].
  - destruct (any_block_is_catalog _ _) eqn:Ea; [done|]. split.
    + apply list.Forall_forall. intros b Hb. apply not_true_is_false. intros Hc. apply not_true_iff_false in Ea.
      apply Ea. apply existsb_exists. exists b. by rewrite <- list_elem_of_In.
    + intros E. exfalso. unfold classify in Ec. rewrite E in Ec. by destruct (_ && _).
  - pose proof (classify_empty_blocks r Ec) as Hz. split.
    + eapply Forall_impl; [|exact Hz]. intros b Hb. simpl. unfold CatalogTracker.is_catalog. by rewrite Hb.
    + intros _. destruct (relation_for_empty r) as [rl|]; [|done]. exists rl. split; [done|].
      by destruct (CatalogTracker.is_catalog _ _ _).
Qed.

(** C18: a record is taken away from the shadow only when, against the catalog
    set as this very record updates it, it names no catalog storage at all:
    none of its blocks, nor the relation in its main data, and it is not one
    of the records recovery needs verbatim. *)
Theorem suppressed_is_not_catalog `{C : Codecs} f r lsn magic linked f' v :
  decide_record f r lsn magic linked = (f', Ok v) -> v_route v = ToDecoder -> no_catalog (tracker f') r.
Proof.
  unfold decide_record. pose proof (before_end_spec f r lsn magic) as Hb.
  destruct (before_end f r lsn magic) as [f1 route]. destruct Hb as (Ht & _ & _ & Hr & _).
  pose proof (observe_xact_end_frame f1 r lsn magic linked) as (He & _).
  destruct (observe_xact_end f1 r lsn magic linked) as [f2 [e|e]]; [|done]. simpl in He.
  intros [= <- <-] Hv. cbn [v_route] in Hv. simpl. rewrite He, Ht.
  rewrite Hv in Hr. symmetry in Hr. by apply route_of_decoder in Hr.
Qed.

(** ** Deferral *)

(** A link that changes nothing, or gives a subtransaction its only parent. *)
Definition link_ok (t : DirtyTree.DirtyTree) (sub top : Z) : Prop :=
  sub = 0 \/ top = 0 \/ sub = top \/ DirtyTree.op_ok t (DirtyTree.Link sub top).

(** The links a record carries respect the parents Postgres assigned. *)
Definition step_ok (f : Filter) (r : XLogRecord) : Prop :=
  link_ok (dirty f) (xact_id r) (toplevel_xid r) /\
  forall top subs, resource_manager_id r = RM_XACT ->
    Z.land (info r) XLOG_XACT_OPMASK = XLOG_XACT_ASSIGNMENT ->
    parse_xact_assignment (main_data r) = Some (top, subs) ->
    Forall (fun s => link_ok (DirtyTree.link (dirty f) (xact_id r) (toplevel_xid r)) s top) subs.

Inductive reachable `{C : Codecs} : Filter -> Prop :=
| reach_start f : dirty f = DirtyTree.empty -> reachable f
| reach_config f g : reachable f -> dirty g = dirty f -> reachable g
| reach_record f r lsn magic linked :
    reachable f -> step_ok f r -> reachable (fst (decide_record f r lsn magic linked)).

Lemma inv_link_ok t sub top : DirtyTree.Inv t -> link_ok t sub top -> DirtyTree.Inv (DirtyTree.link t sub top).
Proof.
  intros HI [-> |[-> |[-> |H]]]; [..|by apply DirtyTree.inv_link]; unfold DirtyTree.link.
  - done.
  - by rewrite orb_true_r.
  - by rewrite Z.eqb_refl, orb_true_r.
Qed.

Lemma link_top_other t sub top x :
  x <> sub -> DirtyTree.top_by_xid (DirtyTree.link t sub top) !! x = DirtyTree.top_by_xid t !! x.
Proof.
  intros Hx. unfold DirtyTree.link. destruct (_ || _ || _); [done|].
  destruct (_ && _); simpl; by rewrite lookup_insert_ne.
Qed.

Lemma link_top_same t sub top y :
  DirtyTree.top_by_xid (DirtyTree.link t sub top) !! sub = Some y ->
  y = top \/ DirtyTree.top_by_xid t !! sub = Some y.
Proof.
  unfold DirtyTree.link. destruct (_ || _ || _); [by right|].
  destruct (_ && _); simpl; rewrite lookup_insert_eq; intros [= ->]; by left.
Qed.

Lemma link_ok_link t sub top s : link_ok t s top -> link_ok (DirtyTree.link t sub top) s top.
Proof.
  intros [H|[H|[H|H]]]; [by left|by right; left|by right; right; left|]. right; right; right.
  unfold DirtyTree.op_ok in *. destruct (decide (s = sub)) as [-> |Hne]; [|by rewrite link_top_other].
  destruct (DirtyTree.top_by_xid (DirtyTree.link t sub top) !! sub) as [y|] eqn:E; [|by left].
  right. apply link_top_same in E as [-> |E]; [done|]. destruct H as [H|H]; congruence.
Qed.

Lemma inv_link_all subs top : forall t, DirtyTree.Inv t ->
  Forall (fun s => link_ok t s top) subs -> DirtyTree.Inv (link_all t top subs).
Proof.
  induction subs as [|s subs IH]; intros t HI HF; [done|]. apply Forall_cons_1 in HF as [Hs HF].
  apply IH; [by apply inv_link_ok|]. eapply Forall_impl; [|exact HF]. intros x Hx. by apply link_ok_link.
Qed.

Lemma link_state t sub top : DirtyTree.state_by_xid (DirtyTree.link t sub top) = DirtyTree.state_by_xid t.
Proof. unfold DirtyTree.link. destruct (_ || _ || _); [done|]. by destruct (_ && _). Qed.

Lemma inv_touch_catalog f obs r lsn db :
  DirtyTree.Inv (dirty f) -> DirtyTree.Inv (dirty (touch_catalog f obs r lsn db)).
Proof.
  intros HI. unfold touch_catalog. destruct db; [|done]. destruct (_ && _ && _); [|done].
  simpl. by apply DirtyTree.inv_touch.
Qed.

Lemma inv_xact_invals f r lsn magic :
  DirtyTree.Inv (dirty f) -> DirtyTree.Inv (dirty (fst (observe_xact_invals f r lsn magic))).
Proof.
  intros HI. unfold observe_xact_invals. cbv zeta. destruct (xact_id r =? 0); [done|].
  destruct (parse_xact_invalidations _ _); [|done]. destruct (relcache_scope _ _) as [fl os].
  destruct (_ && _ && _); [done|]. destruct (_ && _ && _); [done|]. simpl. by apply DirtyTree.inv_touch.
Qed.

Lemma inv_drain t h tp subs linked :
  DirtyTree.Inv t -> DirtyTree.Inv (fst (fst (DirtyTree.drain_tree t h tp subs linked))).
Proof. intros HI. by apply (DirtyTree.inv_exec t (DirtyTree.Drain h tp subs linked)). Qed.

Lemma inv_xact_end f r lsn magic linked :
  DirtyTree.Inv (dirty f) ->
  (forall top subs, resource_manager_id r = RM_XACT ->
     Z.land (info r) XLOG_XACT_OPMASK = XLOG_XACT_ASSIGNMENT ->
     parse_xact_assignment (main_data r) = Some (top, subs) -> Forall (fun s => link_ok (dirty f) s top) subs) ->
  DirtyTree.Inv (dirty (fst (observe_xact_end f r lsn magic linked))).
Proof.
  intros HI Ha. unfold observe_xact_end. cbv zeta.
  destruct (Z.eqb_spec (resource_manager_id r) RM_XACT) as [Hrm|]; [|done]. cbn [negb].
  destruct (_ =? XLOG_XACT_INVALIDATIONS).
  { pose proof (inv_xact_invals f r lsn magic HI) as H. by destruct (observe_xact_invals f r lsn magic) as [f' []]. }
  destruct (Z.eqb_spec (Z.land (info r) XLOG_XACT_OPMASK) XLOG_XACT_ASSIGNMENT) as [Eop|].
  { destruct (parse_xact_assignment (main_data r)) as [[top subs]|] eqn:Ep; [|done]. simpl.
    apply inv_link_all; [done|]. by apply Ha. }
  destruct (_ && _); [done|]. destruct (parse_xact_payload _ _ _) as [p|]; [|done].
  pose proof (inv_drain (dirty f) (xact_id r) (twophase_xid p) (subxacts p) linked HI) as H. cbn [set_creating dirty].
  destruct (DirtyTree.drain_tree _ _ _ _ _) as [[tree merged] ms]. simpl in H. by destruct (negb _).
Qed.

Section Deferral.
Context `{C : Codecs}.

Lemma assignment_no_touch f r lsn magic :
  resource_manager_id r = RM_XACT ->
  dirty (fst (before_end f r lsn magic)) = DirtyTree.link (dirty f) (xact_id r) (toplevel_xid r).
Proof.
  intros Hrm. pose proof (before_end_spec f r lsn magic) as Hb.
  destruct (before_end f r lsn magic) as [f1 route]. destruct Hb as (_ & _ & _ & _ & f0 & Hd & _ & _ & ->).
  assert (Ho : snd (CatalogTracker.observe (tracker f) r magic) = CatalogTracker.no_observation).
  { unfold CatalogTracker.observe. cbv zeta. rewrite Hrm. simpl.
    destruct (CatalogTracker.is_xact_end r); [done|]. unfold CatalogTracker.observe_heap. by rewrite Hrm. }
  rewrite Ho. unfold route_of. assert (Ec : classify r = Special).
  { unfold classify, is_page_image. by rewrite Hrm. }
  rewrite Ec. exact Hd.
Qed.

Lemma inv_decide f r lsn magic linked :
  DirtyTree.Inv (dirty f) -> step_ok f r -> DirtyTree.Inv (dirty (fst (decide_record f r lsn magic linked))).
Proof.
  intros HI [Hl Ha]. unfold decide_record. pose proof (before_end_spec f r lsn magic) as Hb.
  pose proof (assignment_no_touch f r lsn magic) as Hn.
  destruct (before_end f r lsn magic) as [f1 route]. destruct Hb as (_ & _ & _ & _ & f0 & Hd & _ & _ & Ef).
  assert (HI1 : DirtyTree.Inv (dirty f1)).
  { rewrite Ef. apply inv_touch_catalog. rewrite Hd. by apply inv_link_ok. }
  pose proof (inv_xact_end f1 r lsn magic linked HI1) as He.
  destruct (observe_xact_end f1 r lsn magic linked) as [f2 [e|e]]; simpl in *; apply He;
    intros top subs Hrm Hop Hp; rewrite (Hn Hrm); by apply Ha.
Qed.

Lemma filter_inv_reachable f : reachable f -> DirtyTree.Inv (dirty f).
Proof.
  induction 1 as [f E|f g _ IH E|f r lsn magic linked _ IH Hs]; [by rewrite E|by rewrite E|].
  by apply inv_decide.
Qed.
End Deferral.


(** ** Transaction ends *)
Lemma or_insert_dom m k v x : is_Some (or_insert m k v !! x) <-> is_Some (m !! x) \/ x = k.
Proof.
  unfold or_insert. destruct (m !! k) eqn:E.
  - split; [by left|]. intros [H| ->]; [done|by eexists].
  - destruct (decide (x = k)) as [-> |Hne]; [rewrite lookup_insert_eq|rewrite lookup_insert_ne by done].
    + split; [by right|by eexists].
    + split; [by left|]. by intros [H|].
Qed.

Lemma fold_or_insert_dom os v : forall m x,
  is_Some (fold_left (fun m o => or_insert m o v) os m !! x) <-> is_Some (m !! x) \/ x ∈ os.
Proof.
  induction os as [|o os IH]; intros m x; simpl; [rewrite elem_of_nil; naive_solver|].
  rewrite IH, or_insert_dom, elem_of_cons. naive_solver.
Qed.

Lemma affected_elem m x : is_Some (m !! x) <-> exists a, a ∈ affected m /\ ao_oid a = x.
Proof.
  unfold affected. split.
  - intros [l Hl]. exists (MkAffected x (if negb (l =? 0) then Some l else None)). split; [|done].
    rewrite merge_sort_Permutation. apply list_elem_of_fmap. exists (x, l). split; [done|].
    by apply elem_of_map_to_list.
  - intros (a & Ha & <-). rewrite merge_sort_Permutation in Ha.
    apply list_elem_of_fmap in Ha as ([o l] & -> & Hin). apply elem_of_map_to_list in Hin. simpl. by eexists.
Qed.

Definition user_inval (f : Filter) (i : RelcacheInval) : bool :=
  is_target_or_shared f (inval_db_id i) && (FIRST_NORMAL_OBJECT_ID <=? rel_id i).

Definition flush_inval (f : Filter) (i : RelcacheInval) : bool :=
  is_target_or_shared f (inval_db_id i) && (rel_id i =? 0).

Lemma relcache_scope_spec f msgs :
  relcache_scope f msgs =
  (existsb (flush_inval f) msgs, map rel_id (List.filter (user_inval f) msgs)).
Proof.
  unfold relcache_scope.
  assert (H : forall b os, fold_left (fun '(flush, os) i =>
    if negb (is_target_or_shared f (inval_db_id i)) then (flush, os)
    else if rel_id i =? 0 then (true, os)
    else if FIRST_NORMAL_OBJECT_ID <=? rel_id i then (flush, os ++ [rel_id i])
    else (flush, os)) msgs (b, os) =
    (b || existsb (flush_inval f) msgs, os ++ map rel_id (List.filter (user_inval f) msgs))).
  { induction msgs as [|i msgs IH]; intros b os; simpl; [by rewrite orb_false_r, app_nil_r|].
    unfold flush_inval at 1, user_inval at 1. destruct (is_target_or_shared f _); cbn [negb andb]; [|by rewrite IH].
    destruct (Z.eqb_spec (rel_id i) 0) as [E|E].
    - rewrite IH, E. simpl. by rewrite orb_true_r.
    - destruct (FIRST_NORMAL_OBJECT_ID <=? rel_id i); rewrite IH; [|done]. simpl. by rewrite <- app_assoc. }
  by rewrite H.
Qed.

(** What a boundary promises about one member's dirt. *)
Definition boundary_covers (b : BoundaryInfo) (s : DirtyTree.DirtyState) : Prop :=
  kind b = Commit /\ tree_first_touch b <= DirtyTree.first_touch s /\
  (DirtyTree.unenumerated s = true -> capture_all b = true) /\
  (forall o lsn, DirtyTree.oids s !! o = Some lsn -> exists a, a ∈ b_oids b /\ ao_oid a = o) /\
  (forall d, DirtyTree.direct_write s = true -> DirtyTree.db s = Some d -> db_oid b = d) /\
  stats_only b = false.

Definition is_commit_op (r : XLogRecord) : bool :=
  let op := Z.land (info r) XLOG_XACT_OPMASK in
  (op =? XLOG_XACT_COMMIT) || (op =? XLOG_XACT_COMMIT_PREPARED).

Definition is_abort_op (r : XLogRecord) : bool :=
  let op := Z.land (info r) XLOG_XACT_OPMASK in
  (op =? XLOG_XACT_ABORT) || (op =? XLOG_XACT_ABORT_PREPARED).

(** The filter the commit arm runs in, and the drained tree it gets. *)
Lemma commit_end_of f r lsn magic linked p :
  resource_manager_id r = RM_XACT -> is_commit_op r = true ->
  parse_xact_payload (info r) (main_data r) magic = Ok p ->
  exists g stats_tree, targets g = targets f /\
    (is_some (snd (fst (DirtyTree.drain_tree (dirty f) (xact_id r) (twophase_xid p) (subxacts p) linked))) = true ->
     stats_tree = false) /\
    observe_xact_end f r lsn magic linked =
    (g, commit_end g lsn (xact_id r) p
          (snd (fst (DirtyTree.drain_tree (dirty f) (xact_id r) (twophase_xid p) (subxacts p) linked)))
          (snd (DirtyTree.drain_tree (dirty f) (xact_id r) (twophase_xid p) (subxacts p) linked)) stats_tree).
Proof.
  intros Hrm Hop Hp. unfold observe_xact_end. cbv zeta. rewrite Hrm, Z.eqb_refl. cbn [negb].
  unfold is_commit_op in Hop. cbv zeta in Hop. rewrite Hop. cbn [negb andb].
  assert (Hno : (Z.land (info r) XLOG_XACT_OPMASK =? XLOG_XACT_INVALIDATIONS) = false /\
                (Z.land (info r) XLOG_XACT_OPMASK =? XLOG_XACT_ASSIGNMENT) = false).
  { apply orb_true_iff in Hop as [E|E]; apply Z.eqb_eq in E; by rewrite E. }
  destruct Hno as [-> ->]. rewrite Hp. cbn [set_creating dirty].
  destruct (DirtyTree.drain_tree _ _ _ _ _) as [[tree merged] ms]. cbn [fst snd].
  do 2 eexists. split; [|split; [|reflexivity]]; [done|]. intros Hm. unfold stats_only_tree. by rewrite Hm.
Qed.

(** A commit with a dirty member is a boundary covering it, or a scope error. *)
Lemma commit_end_covers f lsn header p m ms stats_tree s :
  DirtyTree.covers m s -> stats_tree = false ->
  match commit_end f lsn header p (Some m) ms stats_tree with
  | Ok e => exists b, boundary e = Some b /\ boundary_covers b s /\ aborted_tree e = None /\
      drain_xid b = default header (twophase_xid p) /\
      (forall i, i ∈ relcache (invals p) -> user_inval f i = true ->
         exists a, a ∈ b_oids b /\ ao_oid a = rel_id i) /\
      (existsb (flush_inval f) (relcache (invals p)) = true -> capture_all b = true)
  | Err e => scope_error (Some m) (db_id p) = Some e
  end.
Proof.
  intros (Hft & Hun & Hdw & Hoids & Hdb & _) ->. unfold commit_end.
  destruct (scope_error (Some m) (db_id p)) as [e|] eqn:Esc; [done|].
  rewrite relcache_scope_spec. cbn [is_some negb andb].
  change (default (DirtyTree.new_state lsn) (Some m)) with m. eexists. split; [reflexivity|].
  unfold boundary_covers. cbn [kind tree_first_touch capture_all b_oids db_oid stats_only drain_xid aborted_tree].
  split; [|split; [done|split; [done|split]]].
  - split; [done|]. split; [done|]. split; [intros H; by rewrite (Hun H), orb_true_r|]. split; [|split; [|done]].
    + intros o l Ho. apply Hoids in Ho as (l' & Ho & _).
      apply (proj1 (affected_elem _ o)). apply fold_or_insert_dom. left. by eexists.
    + intros d Hd Es. apply Hdw in Hd. apply Hdb in Es as [Es|Es].
      * by rewrite Es.
      * unfold scope_error in Esc. rewrite Hd in Esc. destruct Es as [x Es]. by rewrite Es in Esc.
  - intros i Hi Hu. apply (proj1 (affected_elem _ _)). apply fold_or_insert_dom. right.
    apply list_elem_of_fmap. exists i. split; [done|]. apply list_elem_of_In, filter_In.
    by rewrite <- list_elem_of_In.
  - intros H. by rewrite H.
Qed.

(** Committing a transaction tree publishes everything it did to the
    catalog: for every member holding dirt, whether named by the commit record
    or linked earlier, the commit is a boundary that starts no later than that
    member's first touch, lists every relation it touched and every user
    relation a followed invalidation names, widens to the whole catalog when
    it must, and carries the database the member wrote; otherwise the record
    is refused with the scope conflict the merged dirt shows. *)
Theorem commit_publishes_dirt `{C : Codecs} f r lsn magic linked p x s :
  resource_manager_id r = RM_XACT -> is_commit_op r = true ->
  parse_xact_payload (info r) (main_data r) magic = Ok p ->
  x ∈ DirtyTree.tree_roots (xact_id r) (twophase_xid p) ++ subxacts p ++ linked ->
  DirtyTree.state_by_xid (dirty f) !! x = Some s ->
  exists m, DirtyTree.covers m s /\
  match snd (decide_record f r lsn magic linked) with
  | Ok v => exists b, v_boundary v = Some b /\ boundary_covers b s /\ v_aborted_tree v = None /\
      drain_xid b = default (xact_id r) (twophase_xid p) /\
      (forall i, i ∈ relcache (invals p) -> user_inval f i = true ->
         exists a, a ∈ b_oids b /\ ao_oid a = rel_id i) /\
      (existsb (flush_inval f) (relcache (invals p)) = true -> capture_all b = true)
  | Err e => scope_error (Some m) (db_id p) = Some e
  end.
Proof.
  intros Hrm Hop Hp Hx Hs. unfold decide_record.
  pose proof (before_end_spec f r lsn magic) as Hb. pose proof (assignment_no_touch f r lsn magic Hrm) as Hd.
  destruct (before_end f r lsn magic) as [f1 route]. destruct Hb as (_ & Htg & _). cbn [fst] in Hd.
  destruct (commit_end_of f1 r lsn magic linked p Hrm Hop Hp) as (g & st & Htg' & Hst & E). rewrite E.
  assert (Hs1 : DirtyTree.state_by_xid (dirty f1) !! x = Some s) by (by rewrite Hd, link_state).
  destruct (DirtyTree.drain_covers _ _ _ _ _ _ _ Hx Hs1) as (m & Hm & Hc). exists m. split; [exact Hc|].
  rewrite Hm in *. specialize (Hst eq_refl).
  pose proof (commit_end_covers g lsn (xact_id r) p m
    (snd (DirtyTree.drain_tree (dirty f1) (xact_id r) (twophase_xid p) (subxacts p) linked)) st s Hc Hst) as H.
  destruct (commit_end _ _ _ _ _ _ _) as [e|e]; [|exact H]. destruct H as (b & Hb & Hcov & Ha & Hdx & Hinv & Hfl).
  exists b. cbn [snd v_boundary v_aborted_tree]. do 4 (split; [done|]).
  assert (Et : forall i, user_inval g i = user_inval f i /\ flush_inval g i = flush_inval f i).
  { intros i. unfold user_inval, flush_inval, is_target_or_shared. by rewrite Htg', Htg. }
  split.
  - intros i Hi Hu. apply Hinv; [done|]. by rewrite (proj1 (Et i)).
  - intros H. apply Hfl. rewrite <- H. clear -Et. induction (relcache (invals p)) as [|i l IH]; [done|].
    simpl. by rewrite IH, (proj2 (Et i)).
Qed.

(** An abort never publishes: no boundary comes of it, and when any member
    of the tree held dirt the verdict names that member among the dropped. *)
Theorem abort_never_publishes `{C : Codecs} f r lsn magic linked p :
  resource_manager_id r = RM_XACT -> is_abort_op r = true ->
  parse_xact_payload (info r) (main_data r) magic = Ok p ->
  exists v, snd (decide_record f r lsn magic linked) = Ok v /\ v_boundary v = None /\
    forall x s, x ∈ DirtyTree.tree_roots (xact_id r) (twophase_xid p) ++ subxacts p ++ linked ->
      DirtyTree.state_by_xid (dirty f) !! x = Some s ->
      exists ms, v_aborted_tree v = Some ms /\ x ∈ ms.
Proof.
  intros Hrm Hop Hp. unfold decide_record.
  pose proof (assignment_no_touch f r lsn magic Hrm) as Hd.
  destruct (before_end f r lsn magic) as [f1 route]. cbn [fst] in Hd.
  unfold observe_xact_end. cbv zeta. rewrite Hrm, Z.eqb_refl. cbn [negb].
  unfold is_abort_op in Hop. cbv zeta in Hop.
  assert (Hno : (Z.land (info r) XLOG_XACT_OPMASK =? XLOG_XACT_INVALIDATIONS) = false /\
                (Z.land (info r) XLOG_XACT_OPMASK =? XLOG_XACT_ASSIGNMENT) = false /\
                (Z.land (info r) XLOG_XACT_OPMASK =? XLOG_XACT_COMMIT) = false /\
                (Z.land (info r) XLOG_XACT_OPMASK =? XLOG_XACT_COMMIT_PREPARED) = false).
  { apply orb_true_iff in Hop as [E|E]; apply Z.eqb_eq in E; by rewrite E. }
  destruct Hno as (-> & -> & -> & ->). rewrite Hop. cbn [negb andb orb]. rewrite Hp. cbn [set_creating dirty].
  pose proof (fun x s => DirtyTree.drain_covers (dirty f1) (xact_id r) (twophase_xid p) (subxacts p) linked x s) as Hc.
  pose proof (DirtyTree.drain_members (dirty f1) (xact_id r) (twophase_xid p) (subxacts p) linked) as Hmem.
  destruct (DirtyTree.drain_tree _ _ _ _ _) as [[tree merged] ms]. cbn [fst snd] in *.
  eexists. split; [reflexivity|]. split; [done|]. intros x s Hx Hs. cbn [v_aborted_tree aborted_tree].
  assert (Hs1 : DirtyTree.state_by_xid (dirty f1) !! x = Some s) by (by rewrite Hd, link_state).
  destruct (Hc x s Hx Hs1) as (m & -> & _). exists ms. split; [done|]. by eapply Hmem.
Qed.

(** ** A transaction that changes a table and then writes to it *)
Definition heap_insert (rl : Z) : XLogRecord :=
  MkRecord RM_HEAP 0 700 60 0 [MkBlock (MkRfn 1663 5 rl) 0 false (MkImage 0 0 0) [] []] [1; 0; 0].

Definition end_record (op : Z) : XLogRecord := MkRecord RM_XACT op 700 40 0 [] (le_enc 8 7).

(** Database 5 is followed; transaction 700 has just written pg_class. *)
Definition followed : Filter := set_target_dbs [5] new.
Definition mid_xact : Filter :=
  fst (@decide_record toy_codecs followed (heap_insert 1259) 1000 53528 []).

Definition user_verdict : Verdict := MkVerdict ToDecoder None None true None None.

Lemma mid_xact_verdict :
  @decide_record toy_codecs mid_xact (heap_insert 20000) 1100 53528 [] =
  (fst (@decide_record toy_codecs mid_xact (heap_insert 20000) 1100 53528 []), Ok user_verdict).
Proof. by vm_compute. Qed.

Lemma suppressed_is_not_catalog_witness :
  no_catalog (tracker (fst (@decide_record toy_codecs mid_xact (heap_insert 20000) 1100 53528 [])))
    (heap_insert 20000).
Proof.
  exact (@suppressed_is_not_catalog toy_codecs mid_xact (heap_insert 20000) 1100 53528 []
    _ user_verdict mid_xact_verdict eq_refl).
Defined.


Lemma commit_publishes_dirt_witness :
  match snd (@decide_record toy_codecs mid_xact (end_record 0) 1200 53528 []) with
  | Ok v => exists b, v_boundary v = Some b /\ tree_first_touch b <= 1000 /\ db_oid b = 5
  | Err _ => False
  end.
Proof.
  destruct (@commit_publishes_dirt toy_codecs mid_xact (end_record 0) 1200 53528 []
    (MkPayload 7 [] None inval_default None) 700
    (DirtyTree.MkDirty 1000 ∅ false true (Some 5) None)) as (m & Hc & H).
  - done.
  - done.
  - by vm_compute.
  - left.
  - by vm_compute.
  - assert (E : exists v, snd (@decide_record toy_codecs mid_xact (end_record 0) 1200 53528 []) = Ok v)
      by (eexists; vm_compute; reflexivity).
    destruct E as [v E]. rewrite E in H |- *. destruct H as (b & Hb & (_ & Hft & _ & _ & Hdb & _) & _).
    exists b. split; [exact Hb|]. split; [exact Hft|]. by apply Hdb.
Defined.

Lemma abort_never_publishes_witness :
  exists v, snd (@decide_record toy_codecs mid_xact (end_record 32) 1200 53528 []) = Ok v /\
    v_boundary v = None /\ exists ms, v_aborted_tree v = Some ms /\ 700 ∈ ms.
Proof.
  destruct (@abort_never_publishes toy_codecs mid_xact (end_record 32) 1200 53528 []
    (MkPayload 7 [] None inval_default None)) as (v & Hv & Hb & Hm).
  - done.
  - done.
  - by vm_compute.
  - exists v. split; [exact Hv|]. split; [exact Hb|].
    apply (Hm 700 (DirtyTree.MkDirty 1000 ∅ false true (Some 5) None)); [left|by vm_compute].
Defined.

End FilterProofs.
