(* ===== verification/ResumePrefix.v ===== *)
(** * Continuation bytes retained across a restart ([src/source/resume_prefix.rs])

    A record that started before the resume point may already have been
    rewritten in the retained segments.  Its filtered continuation is read
    back from them and spliced over the source's bytes.  A directory of
    retained segments is a function from names to file contents. *)
From S2P Require Import Prelude WalPage.
Import WalPage.

Module ResumePrefix.

Definition XLP_FIRST_IS_CONT_RECORD : Z := 1.

(** [SegmentName], and the name of the segment that holds a position. *)
Record SegmentName := MkSeg { seg_timeline : Z; log_id : Z; seg_no : Z }.

Definition segment_path (timeline seg_size lsn : Z) : SegmentName :=
  MkSeg timeline (wrap 32 (Z.shiftr lsn 32)) (wrap 32 (Z.land lsn 0xffffffff / seg_size)).

Notation directory := (SegmentName -> option (list Z)) (only parsing).

Record ResumePrefix := MkPrefix
  { start_lsn : Z; bytes : list Z; headers : list (Z * Z) }.

Inductive PrefixError :=
| HeaderDiffers (lsn : Z)
| SegmentLength (len : Z)
| BadPage (e : WalkError)
| IncompletePage (lsn : Z)
| AddressMismatch (lsn : Z)
| LengthMismatch (lsn : Z)
| FlagMissing (lsn : Z)
| SegmentMissing (lsn : Z).

Definition end_lsn (p : ResumePrefix) : Z := start_lsn p + zlen (bytes p).

(** ** Splicing *)

(** The header loop of [apply]: the part of each header the chunk covers must
    be what was retained. *)
Fixpoint check_headers (p : ResumePrefix) (hs : list (Z * Z)) (chunk : list Z) (dst src_start src_end : Z)
    : result PrefixError unit :=
  match hs with
  | [] => Ok tt
  | (h_start, h_end) :: rest =>
      let lo := Z.max src_start h_start in
      let hi := Z.min src_end h_end in
      if lo <? hi then
        if bool_decide (sub chunk (dst + lo - src_start) (dst + hi - src_start) = sub (bytes p) lo hi)
        then check_headers p rest chunk dst src_start src_end
        else Err (HeaderDiffers (start_lsn p + lo))
      else check_headers p rest chunk dst src_start src_end
  end.

Definition apply (p : ResumePrefix) (lsn : Z) (chunk : list Z) : result PrefixError (list Z) :=
  let from := Z.max lsn (start_lsn p) in
  let to := Z.min (lsn + zlen chunk) (end_lsn p) in
  if to <=? from then Ok chunk
  else
    let dst := from - lsn in
    let src_start := from - start_lsn p in
    let src_end := to - start_lsn p in
    let? _ := check_headers p (headers p) chunk dst src_start src_end in
    Ok (put chunk dst (sub (bytes p) src_start src_end)).

(** ** Reading *)
Definition page_address (segment : list Z) (page : Z) : Z := u64_at segment (page + 8).
Definition page_info (segment : list Z) (page : Z) : Z := u16_at segment (page + 2).

(** [read_segment]: absent, or whole. *)
Definition read_segment (file : option (list Z)) (seg_size : Z) : result PrefixError (option (list Z)) :=
  match file with
  | None => Ok None
  | Some b => if zlen b =? seg_size then Ok (Some b) else Err (SegmentLength (zlen b))
  end.

(** The page loop of [read]; [None] when the fuel runs out. *)
Fixpoint read_pages (fuel : nat) (dir : directory) (timeline seg_size : Z) (segment : list Z)
    (prefix : ResumePrefix) (remaining : option Z) (page_lsn : Z)
    : option (result PrefixError (option ResumePrefix)) :=
  match fuel with
  | O => None
  | S fuel =>
      let page := page_lsn mod seg_size in
      match parse_page_header segment page with
      | Err e => Some (Err (BadPage e))
      | Ok ZeroPage => Some (if is_some remaining then Err (IncompletePage page_lsn) else Ok None)
      | Ok ShortHeaderIncomplete | Ok LongHeaderIncomplete => Some (Err (IncompletePage page_lsn))
      | Ok (Valid _ data_start remaining_data_len) =>
          let address := page_address segment page in
          if negb (is_some remaining) && negb (address =? page_lsn) then Some (Ok None)
          else if negb (address =? page_lsn) then Some (Err (AddressMismatch page_lsn))
          else if negb (is_some remaining) && (remaining_data_len =? 0) then Some (Ok None)
          else if match remaining with Some n => negb (n =? remaining_data_len) | None => false end
          then Some (Err (LengthMismatch page_lsn))
          else if Z.land (page_info segment page) XLP_FIRST_IS_CONT_RECORD =? 0
          then Some (Err (FlagMissing page_lsn))
          else
            let take := Z.min remaining_data_len (page + PAGE_SIZE - data_start) in
            let offset := zlen (bytes prefix) in
            let prefix :=
              MkPrefix (start_lsn prefix) (bytes prefix ++ sub segment page (data_start + take))
                (headers prefix ++ [(offset, offset + data_start - page)]) in
            if take =? remaining_data_len then Some (Ok (Some prefix))
            else
              let remaining := Some (remaining_data_len - take) in
              let page_lsn := page_lsn + PAGE_SIZE in
              if page_lsn mod seg_size =? 0 then
                match read_segment (dir (segment_path timeline seg_size page_lsn)) seg_size with
                | Err e => Some (Err e)
                | Ok None => Some (Err (SegmentMissing page_lsn))
                | Ok (Some segment) => read_pages fuel dir timeline seg_size segment prefix remaining page_lsn
                end
              else read_pages fuel dir timeline seg_size segment prefix remaining page_lsn
      end
  end.

(** Every page but the last takes at least 8152 bytes of what remains. *)
Definition read_fuel (segment : list Z) (page : Z) : nat :=
  S (S (Z.to_nat (u32_at segment (page + 16) / 8152))).

Definition read (dir : directory) (timeline seg_size lsn : Z) (segment : list Z)
    : option (result PrefixError (option ResumePrefix)) :=
  read_pages (read_fuel segment (lsn mod seg_size)) dir timeline seg_size segment (MkPrefix lsn [] []) None lsn.

(** [load]: directories in order of trust, the first that holds a
    continuation wins. *)
Fixpoint load (dirs : list directory) (timeline seg_size lsn : Z)
    : option (result PrefixError (option ResumePrefix)) :=
  match dirs with
  | [] => Some (Ok None)
  | dir :: rest =>
      match read_segment (dir (segment_path timeline seg_size lsn)) seg_size with
      | Err e => Some (Err e)
      | Ok None => load rest timeline seg_size lsn
      | Ok (Some segment) =>
          match read dir timeline seg_size lsn segment with
          | Some (Ok None) => load rest timeline seg_size lsn
          | r => r
          end
      end
  end.

(** ** Splicing, byte by byte *)

(** The byte the splice leaves at position [i] of a chunk that starts at [lsn]. *)
Definition spliced (p : ResumePrefix) (lsn : Z) (chunk : list Z) (i : Z) : option Z :=
  if (start_lsn p <=? lsn + i) && (lsn + i <? end_lsn p) then zget (bytes p) (lsn + i - start_lsn p)
  else zget chunk i.

(** Every header byte the chunk covers is the retained one. *)
Definition headers_agree (p : ResumePrefix) (lsn : Z) (chunk : list Z) : Prop :=
  forall h i, h ∈ headers p -> 0 <= i < zlen chunk -> fst h <= lsn + i - start_lsn p < snd h ->
    lsn + i < end_lsn p -> start_lsn p <= lsn + i -> zget chunk i = zget (bytes p) (lsn + i - start_lsn p).

Lemma zget_sub {A} (l : list A) a b i :
  0 <= a -> 0 <= i < b - a -> zget (sub l a b) i = zget l (a + i).
Proof.
  intros Ha Hi. unfold zget, sub, ztake, zdrop. rewrite !(proj2 (Z.leb_le _ _)) by lia.
  rewrite lookup_take_lt by lia. rewrite lookup_drop. f_equal. lia.
Qed.

Lemma zget_ext {A} (l k : list A) :
  zlen l = zlen k -> (forall i, 0 <= i < zlen l -> zget l i = zget k i) -> l = k.
Proof.
  intros Hl H. apply list_eq. intros n. destruct (decide (n < length l)%nat) as [Hn|Hn].
  - specialize (H (Z.of_nat n)). unfold zget in H. rewrite (proj2 (Z.leb_le _ _)), Nat2Z.id in H by lia.
    apply H. unfold zlen. lia.
  - unfold zlen in Hl. rewrite !lookup_ge_None_2 by lia. done.
Qed.

Lemma zget_put_in {A} (l new : list A) off i :
  0 <= off -> off + zlen new <= zlen l -> 0 <= i < zlen new -> zget (put l off new) (off + i) = zget new i.
Proof.
  intros H0 H1 Hi. rewrite <- (sub_put_same l off new) at 2 by done.
  by rewrite zget_sub by lia.
Qed.

Lemma check_headers_spec p hs chunk dst a b :
  0 <= dst -> 0 <= a -> dst + (b - a) <= zlen chunk -> b <= zlen (bytes p) ->
  (is_ok (check_headers p hs chunk dst a b) = true <->
   forall h k, h ∈ hs -> Z.max a (fst h) <= k < Z.min b (snd h) -> zget chunk (dst + k - a) = zget (bytes p) k).
Proof.
  intros Hd Ha Hc Hb. induction hs as [|[s e] hs IH]; simpl.
  { split; [|done]. intros _ h k Hh. by apply not_elem_of_nil in Hh. }
  assert (Hhd : (forall h k, h ∈ (s, e) :: hs -> Z.max a (fst h) <= k < Z.min b (snd h) ->
             zget chunk (dst + k - a) = zget (bytes p) k) <->
    (forall k, Z.max a s <= k < Z.min b e -> zget chunk (dst + k - a) = zget (bytes p) k) /\
    (forall h k, h ∈ hs -> Z.max a (fst h) <= k < Z.min b (snd h) ->
             zget chunk (dst + k - a) = zget (bytes p) k)).
  { split.
    - intros H. split; intros; [apply (H (s, e)); [by left|done]|eapply H; [by right|done]].
    - intros [H1 H2] h k Hh. apply elem_of_cons in Hh as [->|Hh]; [apply H1|by apply H2]. }
  rewrite Hhd. destruct (Z.ltb_spec (Z.max a s) (Z.min b e)) as [Hlt|Hge].
  2:{ rewrite IH. split; [|tauto]. intros H. split; [intros; lia|done]. }
  case_bool_decide as E.
  - rewrite IH. split; [|tauto]. intros H. split; [|done]. intros k Hk.
    pose proof (f_equal (fun l => zget l (k - Z.max a s)) E) as E'. simpl in E'.
    rewrite !zget_sub in E' by lia.
    replace (dst + Z.max a s - a + (k - Z.max a s)) with (dst + k - a) in E' by lia.
    by replace (Z.max a s + (k - Z.max a s)) with k in E' by lia.
  - split; [done|]. intros [H _]. exfalso. apply E. apply zget_ext.
    + rewrite !zlen_sub by lia. lia.
    + intros i Hi. rewrite zlen_sub in Hi by lia. rewrite !zget_sub by lia.
      rewrite <- H by lia. f_equal. lia.
Qed.

(** [apply] succeeds exactly when the headers agree, and leaves the splice. *)
Lemma apply_spec p lsn chunk out :
  apply p lsn chunk = Ok out <->
  headers_agree p lsn chunk /\ zlen out = zlen chunk /\
  forall i, 0 <= i < zlen chunk -> zget out i = spliced p lsn chunk i.
Proof.
  unfold apply. pose proof (zlen_nonneg chunk) as Hn. pose proof (zlen_nonneg (bytes p)) as Hp.
  unfold headers_agree, spliced. unfold end_lsn.
  set (from := Z.max lsn (start_lsn p)). set (to := Z.min (lsn + zlen chunk) (start_lsn p + zlen (bytes p))).
  destruct (Z.leb_spec to from) as [Hle|Hlt].
  { assert (Hout : forall i, 0 <= i < zlen chunk ->
      (start_lsn p <=? lsn + i) && (lsn + i <? start_lsn p + zlen (bytes p)) = false).
    { intros i Hi. apply andb_false_iff. destruct (Z.leb_spec (start_lsn p) (lsn + i)); [right|by left].
      apply Z.ltb_ge. lia. }
    split.
    - intros [= <-]. split; [intros; lia|]. split; [done|]. intros i Hi. by rewrite Hout.
    - intros (_ & Hl & H). f_equal. apply zget_ext; [done|]. intros i Hi. by rewrite H, Hout by lia. }
  pose proof (check_headers_spec p (headers p) chunk (from - lsn) (from - start_lsn p) (to - start_lsn p)
    ltac:(lia) ltac:(lia) ltac:(lia) ltac:(lia)) as Hc.
  set (r := check_headers _ _ _ _ _ _) in *.
  assert (Hag : is_ok r = true <-> headers_agree p lsn chunk).
  { rewrite Hc. unfold headers_agree, end_lsn. split.
    - intros H h i Hh Hi Hr He Hs. rewrite <- (H h (lsn + i - start_lsn p) Hh ltac:(lia)). f_equal. lia.
    - intros H h k Hh Hk. rewrite (H h (from - lsn + k - (from - start_lsn p)) Hh); [f_equal; lia|lia..]. }
  unfold headers_agree, end_lsn in Hag. rewrite <- Hag.
  set (new := sub (bytes p) (from - start_lsn p) (to - start_lsn p)).
  assert (Hz : zlen new = to - from) by (unfold new; rewrite zlen_sub; lia).
  assert (Hput : zlen (put chunk (from - lsn) new) = zlen chunk) by (apply zlen_put; lia).
  assert (Hval : forall i, 0 <= i < zlen chunk -> zget (put chunk (from - lsn) new) i =
    if (start_lsn p <=? lsn + i) && (lsn + i <? start_lsn p + zlen (bytes p))
    then zget (bytes p) (lsn + i - start_lsn p) else zget chunk i).
  { intros i Hi. destruct (_ && _) eqn:E.
    - apply andb_true_iff in E as [E1%Z.leb_le E2%Z.ltb_lt].
      replace i with (from - lsn + (i - (from - lsn))) at 1 by lia. rewrite zget_put_in by lia.
      unfold new. rewrite zget_sub by lia. f_equal. lia.
    - apply andb_false_iff in E. apply zget_put_out; [lia|lia|].
      destruct E as [E%Z.leb_gt|E%Z.ltb_ge]; lia. }
  destruct r as [[]|e]; simpl; [|by split; [|intros [? _]]]. split.
  - intros [= <-]. done.
  - intros (_ & Hl & H). f_equal. apply zget_ext; [lia|]. intros i Hi. rewrite Hval, H by lia. done.
Qed.

Lemma zget_app_l {A} (a b : list A) i : i < zlen a -> zget (a ++ b) i = zget a i.
Proof.
  intros H. unfold zget. destruct (Z.leb_spec 0 i); [|done]. apply lookup_app_l. unfold zlen in H. lia.
Qed.

Lemma zget_app_r {A} (a b : list A) i : zlen a <= i -> zget (a ++ b) i = zget b (i - zlen a).
Proof.
  intros H. pose proof (zlen_nonneg a). unfold zget. rewrite !(proj2 (Z.leb_le _ _)) by lia.
  rewrite lookup_app_r by (unfold zlen in *; lia). f_equal. unfold zlen in *. lia.
Qed.

Lemma agree_app p lsn a b :
  headers_agree p lsn (a ++ b) <-> headers_agree p lsn a /\ headers_agree p (lsn + zlen a) b.
Proof.
  unfold headers_agree. pose proof (zlen_nonneg a). pose proof (zlen_nonneg b). rewrite zlen_app. split.
  - intros H1. split; intros h i Hh Hi Hr He Hs.
    + rewrite <- (H1 h i) by (done || lia). by rewrite zget_app_l by lia.
    + replace (lsn + zlen a + i) with (lsn + (zlen a + i)) in * by lia.
      rewrite <- (H1 h (zlen a + i)) by (done || lia). rewrite zget_app_r by lia. f_equal. lia.
  - intros [H1 H2] h i Hh Hi Hr He Hs. destruct (Z.lt_ge_cases i (zlen a)).
    + rewrite zget_app_l by lia. apply (H1 h); done || lia.
    + rewrite zget_app_r by lia. rewrite (H2 h) by (done || lia). f_equal. lia.
Qed.

(** Splicing does not depend on how the bytes were chunked.  A push split
    at any point succeeds exactly when the whole does, and the spliced halves
    are the spliced whole. *)
Theorem apply_chunking p lsn a b out :
  apply p lsn (a ++ b) = Ok out <->
  exists a' b', apply p lsn a = Ok a' /\ apply p (lsn + zlen a) b = Ok b' /\ out = a' ++ b'.
Proof.
  pose proof (zlen_nonneg a) as Ha. pose proof (zlen_nonneg b) as Hb. split.
  - rewrite apply_spec, agree_app, zlen_app. intros ([H1 H2] & Hl & H).
    exists (ztake (zlen a) out), (zdrop (zlen a) out).
    destruct (zsplit out (zlen a) ltac:(lia)) as (Eo & L1 & L2).
    assert (G1 : forall i, i < zlen a -> zget (ztake (zlen a) out) i = zget out i).
    { intros i Hi. rewrite Eo at 2. by rewrite zget_app_l by lia. }
    assert (G2 : forall i, 0 <= i -> zget (zdrop (zlen a) out) i = zget out (zlen a + i)).
    { intros i Hi. rewrite Eo at 2. rewrite zget_app_r by lia. f_equal. lia. }
    split; [|split; [|done]]; apply apply_spec; (split; [done|]); (split; [lia|]); intros i Hi.
    + rewrite G1, H by lia. unfold spliced. by rewrite zget_app_l by lia.
    + rewrite G2, H by lia. unfold spliced. rewrite zget_app_r by lia.
      rewrite !Z.add_assoc. by replace (zlen a + i - zlen a) with i by lia.
  - intros (a' & b' & E1 & E2 & ->). apply apply_spec in E1 as (A1 & L1 & V1), E2 as (A2 & L2 & V2).
    apply apply_spec. rewrite agree_app, !zlen_app. split; [done|]. split; [lia|]. intros i Hi.
    unfold spliced in *. destruct (Z.lt_ge_cases i (zlen a)).
    + rewrite !zget_app_l by lia. apply V1. lia.
    + rewrite !zget_app_r by lia. rewrite L1, V2 by lia.
      by replace (lsn + zlen a + (i - zlen a)) with (lsn + i) by lia.
Qed.

(** ** What reading finds *)

(** The two ways of naming a segment agree when its size divides 4 GiB. *)
Lemma path_quotient timeline seg lsn :
  0 < seg -> (seg | 2 ^ 32) -> 0 <= lsn ->
  segment_path timeline seg lsn =
  MkSeg timeline (wrap 32 (lsn / seg / (2 ^ 32 / seg))) (wrap 32 ((lsn / seg) mod (2 ^ 32 / seg))).
Proof.
  intros Hs [k Hk] Hl. unfold segment_path. change 0xffffffff with (Z.ones 32).
  rewrite Z.shiftr_div_pow2, Z.land_ones by lia. rewrite Hk, Z.div_mul by lia.
  assert (0 < k) by nia. rewrite Z.div_div, (Z.mul_comm seg) by lia. do 2 f_equal.
  rewrite (Z.mul_comm k), Z.rem_mul_r by lia. rewrite Z.mul_comm, Z.div_add by lia.
  rewrite (Z.div_small (lsn mod seg)) by (apply Z.mod_pos_bound; lia). lia.
Qed.

Lemma path_same timeline seg a b :
  0 < seg -> (seg | 2 ^ 32) -> 0 <= a -> 0 <= b -> a / seg = b / seg ->
  segment_path timeline seg a = segment_path timeline seg b.
Proof. intros. rewrite !path_quotient by done. congruence. Qed.

Lemma parse_valid_len b ps magic ds rem :
  0 <= ps -> parse_page_header b ps = Ok (Valid magic ds rem) -> rem = u32_at b (ps + 16).
Proof.
  intros H0. unfold parse_page_header. cbv zeta.
  destruct (_ <? ps + SHORT_HEADER_SIZE); [done|]. destruct (_ && _); [done|].
  destruct (negb (_ =? 0xD100)); [done|]. destruct (_ <? XLP_PAGE_MAGIC_PG15); [done|].
  destruct (negb (Z.land _ (0xFFFF - _) =? 0)); [done|].
  destruct (zlen b <? _); [done|]. intros [= _ _ <-].
  unfold u32_at, sub. rewrite zdrop_zdrop by lia. do 2 f_equal; [lia|]. f_equal. lia.
Qed.

(** The retained byte at a position. *)
Definition retained (dir : directory) (timeline seg pos : Z) : option Z :=
  let* s := dir (segment_path timeline seg pos) in zget s (pos mod seg).

Definition matches (dir : directory) (timeline seg lsn : Z) (b : list Z) : Prop :=
  forall i, 0 <= i < zlen b -> zget b i = retained dir timeline seg (lsn + i).

Section Read.
Variables (dir : directory) (timeline seg lsn : Z).
Hypothesis seg_pos : 0 < seg.
Hypothesis seg_pages : (PAGE_SIZE | seg).
Hypothesis seg_names : (seg | 2 ^ 32).
Hypothesis lsn_pos : 0 <= lsn.
Hypothesis files_ok : forall n s, dir n = Some s -> bytes_ok s.

Lemma matches_page page_lsn segment b n :
  0 <= page_lsn -> dir (segment_path timeline seg page_lsn) = Some segment ->
  page_lsn mod seg + n <= seg -> zlen segment = seg -> 0 <= n ->
  zlen b = page_lsn - lsn -> matches dir timeline seg lsn b ->
  matches dir timeline seg lsn (b ++ sub segment (page_lsn mod seg) (page_lsn mod seg + n)).
Proof.
  intros H0 Hd Hn Hl Hn0 Hb HM i Hi. pose proof (Z.mod_pos_bound page_lsn seg seg_pos).
  pose proof (Z.div_mod page_lsn seg ltac:(lia)).
  rewrite zlen_app, zlen_sub in Hi by lia. destruct (Z.lt_ge_cases i (zlen b)).
  - rewrite zget_app_l by lia. apply HM. lia.
  - rewrite zget_app_r, zget_sub by lia. unfold retained.
    assert (E : lsn + i = page_lsn mod seg + (i - zlen b) + page_lsn / seg * seg) by lia.
    rewrite (path_same timeline seg (lsn + i) page_lsn), Hd; try lia; try done.
    + f_equal. rewrite E, Z.mod_add by lia. symmetry. apply Z.mod_small. lia.
    + rewrite E, Z.div_add, Z.div_small by lia. lia.
Qed.

Lemma same_segment page_lsn :
  0 <= page_lsn -> page_lsn mod PAGE_SIZE = 0 -> (page_lsn + PAGE_SIZE) mod seg <> 0 ->
  segment_path timeline seg (page_lsn + PAGE_SIZE) = segment_path timeline seg page_lsn /\
  (page_lsn + PAGE_SIZE) mod seg = page_lsn mod seg + PAGE_SIZE.
Proof.
  intros H0 Hp Hm. destruct seg_pages as [k Hk]. unfold PAGE_SIZE in *.
  pose proof (Z.mod_pos_bound page_lsn seg seg_pos) as Hb.
  pose proof (Z.div_mod page_lsn seg ltac:(lia)) as Ed.
  pose proof (Z.div_mod page_lsn 8192 ltac:(lia)) as Ep.
  assert (Hlt : page_lsn mod seg + 8192 < seg).
  { destruct (Z.lt_ge_cases (page_lsn mod seg + 8192) seg) as [|Hge]; [done|]. exfalso. apply Hm.
    assert (page_lsn mod seg + 8192 = seg).
    { assert (page_lsn mod seg = 8192 * (page_lsn / 8192 - k * (page_lsn / seg))) by lia. nia. }
    replace (page_lsn + 8192) with ((page_lsn / seg + 1) * seg) by lia. apply Z.mod_mul. lia. }
  assert (E : page_lsn + 8192 = page_lsn mod seg + 8192 + page_lsn / seg * seg) by lia.
  split.
  - apply path_same; try done; try lia. rewrite E, Z.div_add, Z.div_small by lia. lia.
  - rewrite E, Z.mod_add by lia. apply Z.mod_small. lia.
Qed.

(** Where the loop stands at a page. *)
Record At (fuel : nat) (segment : list Z) (prefix : ResumePrefix) (remaining : option Z) (page_lsn : Z)
    : Prop := mkAt
  { at_pos : 0 <= page_lsn /\ page_lsn mod PAGE_SIZE = 0;
    at_file : dir (segment_path timeline seg page_lsn) = Some segment /\ zlen segment = seg;
    at_start : start_lsn prefix = lsn;
    at_len : zlen (bytes prefix) = page_lsn - lsn;
    at_bytes : matches dir timeline seg lsn (bytes prefix);
    at_fuel : (Z.to_nat (default (u32_at segment (page_lsn mod seg + 16)) remaining / 8152) < fuel)%nat }.

Lemma page_room page_lsn :
  0 <= page_lsn -> page_lsn mod PAGE_SIZE = 0 -> 0 <= page_lsn mod seg <= seg - PAGE_SIZE.
Proof.
  intros H0 Hp. destruct seg_pages as [k Hk]. unfold PAGE_SIZE in *.
  pose proof (Z.mod_pos_bound page_lsn seg seg_pos) as Hb.
  pose proof (Z.div_mod page_lsn seg ltac:(lia)) as Ed.
  pose proof (Z.div_mod page_lsn 8192 ltac:(lia)) as Ep.
  assert (page_lsn mod seg = 8192 * (page_lsn / 8192 - k * (page_lsn / seg))) by lia. nia.
Qed.

Lemma u32_at_nonneg b off : bytes_ok b -> 0 <= u32_at b off.
Proof.
  intros H. unfold u32_at, sub, ztake, zdrop. apply le_dec_bound.
  by apply Forall_take, Forall_drop.
Qed.

Definition Found (r : result PrefixError (option ResumePrefix)) : Prop :=
  forall p, r = Ok (Some p) -> start_lsn p = lsn /\ matches dir timeline seg lsn (bytes p).

Lemma read_pages_spec fuel : forall segment prefix remaining page_lsn,
  At fuel segment prefix remaining page_lsn ->
  exists r, read_pages fuel dir timeline seg segment prefix remaining page_lsn = Some r /\ Found r.
Proof.
  induction fuel as [|fuel IH]; intros segment prefix remaining page_lsn
    [[H0 Hp] [Hf Hl] Hs Hlen HM Hfu]; [lia|].
  assert (Hstop : forall r, (forall p, r <> Ok (Some p)) -> exists r', Some r = Some r' /\ Found r').
  { intros r Hr. exists r. split; [done|]. intros p ->. by destruct (Hr p). }
  cbn [read_pages]. pose proof (page_room _ H0 Hp) as Hroom. set (page := page_lsn mod seg) in *.
  destruct (parse_page_header segment page) as [[| | |magic ds rem]|e] eqn:E; try by apply Hstop.
  { destruct remaining; by apply Hstop. }
  destruct (parse_valid _ _ _ _ _ E) as (Hds & _ & _).
  apply parse_valid_len in E; [|lia].
  pose proof (u32_at_nonneg segment (page + 16) (files_ok _ _ Hf)) as Hrem. rewrite <- E in *.
  destruct (negb (is_some remaining) && negb _); [by apply Hstop|].
  destruct (negb (_ =? page_lsn)); [by apply Hstop|].
  destruct (negb (is_some remaining) && (rem =? 0)); [by apply Hstop|].
  destruct (match remaining with Some n => negb (n =? rem) | None => false end) eqn:En; [by apply Hstop|].
  assert (Er : default rem remaining = rem).
  { destruct remaining as [n|]; [|done]. simpl. destruct (Z.eqb_spec n rem); done. }
  destruct (_ =? 0); [by apply Hstop|]. rewrite Er in Hfu. unfold PAGE_SIZE in *.
  set (take := Z.min rem (page + 8192 - ds)).
  pose proof (matches_page page_lsn segment (bytes prefix) (ds + take - page) H0 Hf ltac:(lia) Hl
    ltac:(lia) Hlen HM) as HM'. fold page in HM'.
  replace (page + (ds + take - page)) with (ds + take) in HM' by lia.
  destruct (Z.eqb_spec take rem) as [Et|Et].
  { exists (Ok (Some (MkPrefix (start_lsn prefix) (bytes prefix ++ sub segment page (ds + take))
      (headers prefix ++ [(zlen (bytes prefix), zlen (bytes prefix) + ds - page)])))).
    split; [done|]. by intros p [= <-]. }
  assert (Hn : (Z.to_nat ((rem - take) / 8152) < fuel)%nat).
  { assert (1 <= rem / 8152) by (apply Z.div_le_lower_bound; lia).
    assert ((rem - take) / 8152 <= rem / 8152 - 1); [|lia].
    replace (rem / 8152 - 1) with ((rem + -1 * 8152) / 8152) by (rewrite Z.div_add; lia). apply Z.div_le_mono; lia. }
  assert (Hnext : forall segment', dir (segment_path timeline seg (page_lsn + 8192)) = Some segment' ->
    zlen segment' = seg -> At fuel segment'
      (MkPrefix (start_lsn prefix) (bytes prefix ++ sub segment page (ds + take))
        (headers prefix ++ [(zlen (bytes prefix), zlen (bytes prefix) + ds - page)]))
      (Some (rem - take)) (page_lsn + 8192)).
  { intros segment' Hd' Hl'. split; simpl; auto.
    - split; [lia|]. unfold PAGE_SIZE. rewrite Z.add_mod, Hp by lia. done.
    - rewrite zlen_app, zlen_sub by lia. lia. }
  destruct (Z.eqb_spec ((page_lsn + 8192) mod seg) 0) as [Hz|Hz].
  - unfold read_segment. destruct (dir (segment_path timeline seg (page_lsn + 8192))) as [segment'|] eqn:Ed; [|by apply Hstop].
    destruct (Z.eqb_spec (zlen segment') seg); [|by apply Hstop]. apply IH. by apply Hnext.
  - apply IH, Hnext; [|done]. destruct (same_segment page_lsn H0 Hp Hz) as [Hx _].
    unfold PAGE_SIZE in Hx. by rewrite Hx.
Qed.

(** Splicing what was read over the same bytes changes nothing. *)
Lemma apply_retained p pos chunk :
  start_lsn p = lsn -> matches dir timeline seg lsn (bytes p) -> matches dir timeline seg pos chunk ->
  apply p pos chunk = Ok chunk.
Proof.
  intros Hs HM HC. apply apply_spec. assert (Hsame : forall i, 0 <= i < zlen chunk ->
    start_lsn p <= pos + i -> pos + i < end_lsn p -> zget chunk i = zget (bytes p) (pos + i - start_lsn p)).
  { intros i Hi H1 H2. unfold end_lsn in H2. rewrite (HC i Hi), HM by lia. f_equal. lia. }
  split; [|split; [done|]].
  - intros h i _ Hi _ H2 H1. auto.
  - intros i Hi. unfold spliced. destruct (_ && _) eqn:E; [|done].
    apply andb_true_iff in E as [E1%Z.leb_le E2%Z.ltb_lt]. auto.
Qed.
End Read.

(** Reading a retained continuation always ends, and what it finds is the
    retained WAL from the resume point: every byte is the one the segment
    files hold there, so splicing it over a source that has those bytes, at
    any offset, changes nothing. *)
Theorem read_spec dir timeline seg lsn segment :
  0 < seg -> (PAGE_SIZE | seg) -> (seg | 2 ^ 32) -> 0 <= lsn -> lsn mod seg = 0 ->
  (forall n s, dir n = Some s -> bytes_ok s) ->
  dir (segment_path timeline seg lsn) = Some segment -> zlen segment = seg ->
  exists r, read dir timeline seg lsn segment = Some r /\
    forall p, r = Ok (Some p) ->
      start_lsn p = lsn /\ matches dir timeline seg lsn (bytes p) /\
      forall pos chunk, matches dir timeline seg pos chunk -> apply p pos chunk = Ok chunk.
Proof.
  intros Hs Hp Hn Hl Hm Hok Hf Hz.
  destruct (read_pages_spec dir timeline seg lsn Hs Hp Hn Hok (read_fuel segment (lsn mod seg)) segment
    (MkPrefix lsn [] []) None lsn) as (r & Hr & HF).
  - split; simpl; [|done|done|unfold zlen; simpl; lia|intros i Hi; unfold zlen in Hi; simpl in Hi; lia|unfold read_fuel; lia].
    split; [done|]. destruct Hp as [k ->]. apply Z.mod_divide in Hm as [j ->]; [|unfold PAGE_SIZE in *; lia].
    rewrite Z.mul_assoc. apply Z.mod_mul. done.
  - exists r. split; [done|]. intros p Ep. destruct (HF p Ep) as [Hst HM]. split; [done|]. split; [done|].
    intros pos chunk HC. by eapply apply_retained.
Qed.

(** A one-page segment that opens with 16 continuation bytes. *)
Definition demo_segment : list Z :=
  [0x10; 0xD1; 1; 0] ++ zrep 12 0 ++ [16; 0; 0; 0] ++ zrep 4 0 ++ zrep 16 7 ++ zrep 8152 0.

Definition demo_dir (n : SegmentName) : option (list Z) :=
  if seg_no n =? 0 then Some demo_segment else None.

Definition demo_prefix : ResumePrefix := MkPrefix 0 (ztake 40 demo_segment) [(0, 24)].

Lemma read_spec_witness :
  read demo_dir 1 8192 0 demo_segment = Some (Ok (Some demo_prefix)) /\
  apply demo_prefix 0 demo_segment = Ok demo_segment.
Proof.
  assert (Hm : matches demo_dir 1 8192 0 demo_segment).
  { intros i Hi. change (zlen demo_segment) with 8192 in Hi. unfold retained.
    rewrite path_quotient by (lia || by exists 524288). rewrite Z.add_0_l, (Z.div_small i 8192) by lia.
    unfold demo_dir. simpl. by rewrite Z.mod_small by lia. }
  destruct (read_spec demo_dir 1 8192 0 demo_segment) as (r & Er & H).
  - lia.
  - by exists 1.
  - by exists 524288.
  - lia.
  - reflexivity.
  - intros n s. unfold demo_dir. destruct (_ =? 0); [|done]. intros [= <-].
    unfold demo_segment. repeat (apply Forall_app; split); try (apply Forall_replicate; unfold byte_ok; lia);
      repeat constructor; unfold byte_ok; lia.
  - reflexivity.
  - reflexivity.
  - assert (E : read demo_dir 1 8192 0 demo_segment = Some (Ok (Some demo_prefix))) by (vm_compute; reflexivity).
    split; [exact E|]. apply H; [|exact Hm]. rewrite E in Er. injection Er as <-. reflexivity.
Defined.
End ResumePrefix.
