(* ===== verification/WalStream.v ===== *)
(** * The record-cadence pump ([src/source/wal_stream.rs])

    Source bytes go into the walker; each completed record is parsed, decided
    by the filter, replaced by a NOOP when shadow must not see it, and staged.
    Staged records' bytes ship to the shadow wire as one chunk, then the
    records dispatch; a whole segment is archived once no pending record
    reaches into it.

    The sinks are the surrounding runtime: [Events] they are called with are
    kept in a log, and [sink] says whether the call fails, as a function of
    what was called before.  The record parser is [walrus]'s.  [None] is a
    slice panic or a loop that does not end; [push_total] rules both out. *)
From S2P Require Import Prelude WalPage Walker WalRecord Fpi XactPayload ShadowRelations Filter Rewrite.
From S2P Require Import ResumePrefix.

Module WalStream.
Import WalPage Walker WalRecord Filter.

Definition STAGED_MAX_BYTES : Z := 128 * 1024.
Definition STAGED_MAX_RECORDS : Z := 4096.
Definition X_LOG_SWITCH : Z := 0x40.

(** [Record]: what a sink receives. *)
Record Rec := MkRec
  { parsed : XLogRecord;
    source_lsn : Z;
    rec_next_lsn : Z;
    rec_page_magic : Z;
    route : Route;
    boundary_info : option BoundaryInfo;
    rec_aborted_tree : option (list Z);
    rec_defer : bool;
    rec_xact_db : option Z }.

(** Calls on the sinks. *)
Inductive Event :=
| Wire (lsn : Z) (bytes : list Z)
| Dispatch (r : Rec)
| Segment (name : ResumePrefix.SegmentName) (bytes : list Z)
| Retired (lsn : Z).

Inductive WalStreamError :=
| Walk (seg : ResumePrefix.SegmentName) (source : WalkError)
| Parse (offset code : Z)
| Payload (offset : Z) (source : XactPayload.XactPayloadError)
| Rewriting (offset : Z) (source : Rewrite.RewriteError)
| Misaligned (expected got : Z)
| TimelineNotAbove (current_tli next_tli : Z)
| ForkAboveFrontier (switch_lsn next_lsn : Z)
| ForkBehindDispatched (switch_lsn dispatched : Z)
| UnalignedBase (lsn : Z)
| Sink (code : Z)
| ShadowRels
| BadPrefix (e : ResumePrefix.PrefixError)
| Poisoned.

(** What the pump runs in: the parser and CRC of other crates, the sinks, the
    order hash maps yield their members in, and the eligibility file. *)
Class Runtime := MkRuntime
  { parse_record_from_bytes : list Z -> Z -> result Z XLogRecord;
    crc32c_append : Z -> list Z -> Z;
    sink : list Event -> Event -> option Z;
    may_park : list Event -> Rec -> bool;
    linked_order : Filter -> XLogRecord -> list Z;
    control : option Z;
    write_stored : ShadowRelations.Stored -> bool }.

Record WalStream := MkStream
  { timeline : Z;
    s_seg_size : Z;
    next_lsn : Z;
    current_lsn : Z;
    walker : StreamingWalker;
    filter : Filter;
    wire_offset : Z;
    staged : list Rec;
    staged_end : Z;
    raw_crc : Z;
    raw_crc_from : Z;
    poisoned : bool;
    resume_prefix : option ResumePrefix.ResumePrefix }.

(** The stream, the calls made so far, the process-wide cache of NOOP body
    CRCs, and a ghost flag: a record completed inside a page that was zero
    when the walker got there. *)
Record World := MkWorld { ws : WalStream; log : list Event; cache : gmap Z Z; torn : bool }.

Definition is_multiple_of (a b : Z) : bool := a mod b =? 0.

Definition align_down (lsn seg_size : Z) : Z := lsn - lsn mod seg_size.

Definition new (timeline seg_size start_lsn : Z) : result WalStreamError WalStream :=
  if negb (is_multiple_of start_lsn seg_size) then Err (UnalignedBase start_lsn)
  else Ok (MkStream timeline seg_size start_lsn start_lsn (Walker.new seg_size) Filter.new 0 [] 0 0 start_lsn
             false None).

Definition segment_for_lsn (s : WalStream) (lsn : Z) : ResumePrefix.SegmentName :=
  let seg_no := lsn / s_seg_size s in
  let xlog_segs_per_xlog_id := 0x100000000 / s_seg_size s in
  ResumePrefix.MkSeg (timeline s) (wrap 32 (seg_no / xlog_segs_per_xlog_id))
    (wrap 32 (seg_no mod xlog_segs_per_xlog_id)).

Definition is_switch (r : XLogRecord) : bool :=
  (resource_manager_id r =? RM_XLOG) && (Z.land (info r) 0xF0 =? X_LOG_SWITCH).

Definition end_rec_ptr (s : WalStream) (last_range : Z * Z) (r : XLogRecord) : Z :=
  let '(off, len) := last_range in
  let aligned_len := align_up len X_LOG_RECORD_ALIGNMENT in
  let end_ := uadd 64 (uadd 64 (current_lsn s) off) aligned_len in
  if is_switch r then
    let end_ := uadd 64 end_ (s_seg_size s - 1) in
    end_ - end_ mod s_seg_size s
  else end_.

(** Field updates. *)
Definition on_ws (f : WalStream -> WalStream) (w : World) : World := MkWorld (f (ws w)) (log w) (cache w) (torn w).
Definition set_walker (x : StreamingWalker) (s : WalStream) : WalStream :=
  MkStream (timeline s) (s_seg_size s) (next_lsn s) (current_lsn s) x (filter s) (wire_offset s) (staged s)
    (staged_end s) (raw_crc s) (raw_crc_from s) (poisoned s) (resume_prefix s).
Definition set_filter (x : Filter) (s : WalStream) : WalStream :=
  MkStream (timeline s) (s_seg_size s) (next_lsn s) (current_lsn s) (walker s) x (wire_offset s) (staged s)
    (staged_end s) (raw_crc s) (raw_crc_from s) (poisoned s) (resume_prefix s).
Definition set_wire_offset (x : Z) (s : WalStream) : WalStream :=
  MkStream (timeline s) (s_seg_size s) (next_lsn s) (current_lsn s) (walker s) (filter s) x (staged s)
    (staged_end s) (raw_crc s) (raw_crc_from s) (poisoned s) (resume_prefix s).
Definition set_staged (x : list Rec) (e : Z) (s : WalStream) : WalStream :=
  MkStream (timeline s) (s_seg_size s) (next_lsn s) (current_lsn s) (walker s) (filter s) (wire_offset s) x
    e (raw_crc s) (raw_crc_from s) (poisoned s) (resume_prefix s).
Definition set_current (x : Z) (s : WalStream) : WalStream :=
  MkStream (timeline s) (s_seg_size s) (next_lsn s) x (walker s) (filter s) (wire_offset s) (staged s)
    (staged_end s) (raw_crc s) (raw_crc_from s) (poisoned s) (resume_prefix s).
Definition set_next (x : Z) (s : WalStream) : WalStream :=
  MkStream (timeline s) (s_seg_size s) x (current_lsn s) (walker s) (filter s) (wire_offset s) (staged s)
    (staged_end s) (raw_crc s) (raw_crc_from s) (poisoned s) (resume_prefix s).
Definition set_timeline (x : Z) (s : WalStream) : WalStream :=
  MkStream x (s_seg_size s) (next_lsn s) (current_lsn s) (walker s) (filter s) (wire_offset s) (staged s)
    (staged_end s) (raw_crc s) (raw_crc_from s) (poisoned s) (resume_prefix s).
Definition set_raw (crc from : Z) (s : WalStream) : WalStream :=
  MkStream (timeline s) (s_seg_size s) (next_lsn s) (current_lsn s) (walker s) (filter s) (wire_offset s) (staged s)
    (staged_end s) crc from (poisoned s) (resume_prefix s).
Definition poison (s : WalStream) : WalStream :=
  MkStream (timeline s) (s_seg_size s) (next_lsn s) (current_lsn s) (walker s) (filter s) (wire_offset s) (staged s)
    (staged_end s) (raw_crc s) (raw_crc_from s) true (resume_prefix s).
Definition set_prefix (x : option ResumePrefix.ResumePrefix) (s : WalStream) : WalStream :=
  MkStream (timeline s) (s_seg_size s) (next_lsn s) (current_lsn s) (walker s) (filter s) (wire_offset s) (staged s)
    (staged_end s) (raw_crc s) (raw_crc_from s) (poisoned s) x.

Notation outcome_of A := (option (World * result WalStreamError A)) (only parsing).

(** [let! x := e in k w x]: run, hand the state on, stop at a panic or error. *)
Notation "'let!' ( w , x ) := e 'in' k" :=
  (match e with
   | Some (w, Ok x) => k
   | Some (w, Err err) => Some (w, Err err)
   | None => None
   end) (at level 10, w name, x pattern, e at level 100, k at level 200) : rust_scope.

Section Pump.
Context `{C : Fpi.Codecs} `{R : Runtime}.

(** One sink call. *)
Definition emit (w : World) (e : Event) : World * result WalStreamError unit :=
  (MkWorld (ws w) (log w ++ [e]) (cache w) (torn w),
   match sink (log w) e with None => Ok tt | Some code => Err (Sink code) end).

(** The dispatch loop of [dispatch_staged]. *)
Fixpoint dispatch_all (w : World) (rs : list Rec) : World * result WalStreamError unit :=
  match rs with
  | [] => (w, Ok tt)
  | r :: rest =>
      match emit w (Dispatch r) with
      | (w, Ok _) => dispatch_all w rest
      | stop => stop
      end
  end.

(** Ship [buffer[from..to]] at its position. *)
Definition ship (w : World) (from to : Z) : outcome_of unit :=
  let* chunk := get_range (buf (walker (ws w))) from to in
  Some (emit w (Wire (uadd 64 (current_lsn (ws w)) from) chunk)).

Definition dispatch_staged (w : World) : outcome_of unit :=
  let s := ws w in
  let! (w, _) :=
    if wire_offset s <? staged_end s then
      let! (w, _) := ship w (wire_offset s) (staged_end s) in
      Some (on_ws (set_wire_offset (staged_end s)) w, Ok tt)
    else Some (w, Ok tt) in
  let rs := staged (ws w) in
  Some (dispatch_all (on_ws (fun s => set_staged [] (staged_end s) s) w) rs).

(** [Filter::flush_shadow_rels]. *)
Definition flush_shadow_rels (f : Filter) : result WalStreamError Filter :=
  match shadow_rels f with
  | Some s =>
      let '(s, write) := ShadowRelations.flush s control in
      match write with
      | Some st => if write_stored st then Ok (Filter.set_shadow_rels (Some s) f) else Err ShadowRels
      | None => Ok f
      end
  | None => Ok f
  end.

(** NOOP the record in the buffer, stitched or in place. *)
Definition suppress (w : World) (completed : CompletedRecord) : outcome_of unit :=
  let at_offset := start_offset completed in
  let x := walker (ws w) in
  match stitched_bytes completed with
  | Some bytes =>
      match Rewrite.noop_replace crc32c_append (cache w) bytes with
      | None => None
      | Some (Err e) => Some (w, Err (Rewriting at_offset e))
      | Some (Ok (c, bytes)) =>
          Some (MkWorld (set_walker (rewrite_record x (byte_ranges completed) bytes) (ws w)) (log w) c (torn w), Ok tt)
      end
  | None =>
      match byte_ranges completed with
      | [] => None
      | (off, len) :: _ =>
          match Rewrite.noop_replace crc32c_append (cache w) (sub (buf x) off (off + len)) with
          | None => None
          | Some (Err e) => Some (w, Err (Rewriting at_offset e))
          | Some (Ok (c, bytes)) =>
              Some (MkWorld (set_walker (set_buf x (put (buf x) off bytes)) (ws w)) (log w) c (torn w), Ok tt)
          end
      end
  end.

(** Parse, decide and rewrite one completed record. *)
Definition filter_record (w : World) (completed : CompletedRecord)
    : outcome_of (XLogRecord * Verdict) :=
  let s := ws w in
  let at_offset := start_offset completed in
  match parse_record_from_bytes (logical_bytes completed (buf (walker s))) (rec_magic completed) with
  | Err code => Some (w, Err (Parse at_offset code))
  | Ok p =>
      match decide_record (filter s) p (uadd 64 (current_lsn s) at_offset) (rec_magic completed)
              (linked_order (filter s) p) with
      | (f, Err e) => Some (on_ws (set_filter f) w, Err (Payload at_offset e))
      | (f, Ok verdict) =>
          match flush_shadow_rels f with
          | Err e => Some (on_ws (set_filter f) w, Err e)
          | Ok f =>
              let w := on_ws (set_filter f) w in
              let! (w, _) :=
                if bool_decide (v_route verdict = ToDecoder) then suppress w completed
                else Some (w, Ok tt) in
              Some (w, Ok (p, verdict))
          end
      end
  end.

Definition last_range (completed : CompletedRecord) : Z * Z := List.last (byte_ranges completed) (0, 0).

(** Stage the record; true when staging must dispatch. *)
Definition stage_record (w : World) (completed : CompletedRecord) (p : XLogRecord) (v : Verdict)
    : World * bool :=
  let s := ws w in
  let '(off, len) := last_range completed in
  let record_end := off + len in
  let r := MkRec p (uadd 64 (current_lsn s) (start_offset completed)) (end_rec_ptr s (off, len) p)
             (rec_magic completed) (v_route v) (v_boundary v) (v_aborted_tree v)
             (defer_catalog_decode v) (v_xact_db v) in
  let parks := may_park (log w) r in
  let s := set_staged (staged s ++ [r]) (Z.max (staged_end s) record_end) s in
  (MkWorld s (log w) (cache w) (torn w),
   parks || (STAGED_MAX_RECORDS <=? zlen (staged s)) ||
   (STAGED_MAX_BYTES <=? usub 64 (staged_end s) (wire_offset s))).

Definition handle_record (w : World) (completed : CompletedRecord) : outcome_of unit :=
  let! (w, x) := filter_record w completed in
  let '(p, v) := x in
  let '(w, full) := stage_record w completed p v in
  if full then dispatch_staged w else Some (w, Ok tt).

(** [drain_records]; the fuel bounds the records one buffer can hold. *)
Fixpoint drain_records (fuel : nat) (w : World) : outcome_of unit :=
  match fuel with
  | O => None
  | S fuel =>
      let s := ws w in
      match try_next (walker s) with
      | None => None
      | Some (x, o) =>
          let cut := match o with Yield _ => done_in_segment x | _ => false end in
          let w := MkWorld (set_walker x s) (log w) (cache w) (torn w || cut) in
          match o with
          | Again => None
          | Fail e => Some (w, Err (Walk (segment_for_lsn s (current_lsn s)) e))
          | Wait => dispatch_staged w
          | Yield completed =>
              let! (w, _) := handle_record w completed in
              drain_records fuel w
          end
      end
  end.

Definition try_flush_first_segment (w : World) : outcome_of bool :=
  let s := ws w in
  let seg_size := s_seg_size s in
  if negb (first_segment_ready (walker s)) then Some (w, Ok false)
  else
    let seg := segment_for_lsn s (current_lsn s) in
    let! (w, _) :=
      if wire_offset s <? seg_size then ship w (wire_offset s) seg_size else Some (w, Ok tt) in
    let* bytes := get_range (buf (walker s)) 0 seg_size in
    let! (w, _) := Some (emit w (Segment seg bytes)) in
    let w := on_ws (set_walker (truncate_first_segment (walker s))) w in
    let! (w, _) := Some (emit w (Retired (current_lsn s))) in
    let s := ws w in
    let s := set_current (uadd 64 (current_lsn s) seg_size) s in
    let s := set_wire_offset (sat_sub (wire_offset s) seg_size) s in
    let s := set_staged (staged s) (sat_sub (staged_end s) seg_size) s in
    Some (MkWorld s (log w) (cache w) (torn w), Ok true).

(** Most records a buffer can complete, and most segments it can hold. *)
Definition record_fuel (w : World) : nat := Z.to_nat (4 * zlen (buf (walker (ws w))) + 7 * PAGE_SIZE).
Definition segment_fuel (w : World) : nat := S (Z.to_nat (zlen (buf (walker (ws w))))).

(** [push]'s inner loop: drain, seal a segment, again. *)
Fixpoint drain_and_seal (fuel : nat) (w : World) : outcome_of unit :=
  match fuel with
  | O => None
  | S fuel =>
      let! (w, _) := drain_records (record_fuel w) w in
      let! (w, sealed) := try_flush_first_segment w in
      if sealed : bool then drain_and_seal fuel w else Some (w, Ok tt)
  end.

(** Feed one chunk to the walker, through the resume prefix if there is one. *)
Definition feed (w : World) (cur_lsn : Z) (chunk : list Z) : World * result WalStreamError unit :=
  let s := ws w in
  match resume_prefix s with
  | None => (on_ws (set_walker (extend (walker s) chunk)) w, Ok tt)
  | Some prefix =>
      match ResumePrefix.apply prefix cur_lsn chunk with
      | Err e => (w, Err (BadPrefix e))
      | Ok spliced =>
          let w := on_ws (set_walker (extend (walker s) spliced)) w in
          if ResumePrefix.end_lsn prefix <=? cur_lsn + zlen chunk then (on_ws (set_prefix None) w, Ok tt)
          else (w, Ok tt)
      end
  end.

(** [push]'s outer loop, one segment of input at a time. *)
Fixpoint push_loop (fuel : nat) (w : World) (cur_lsn : Z) (data : list Z) : outcome_of Z :=
  match data with
  | [] => Some (w, Ok cur_lsn)
  | _ =>
      match fuel with
      | O => None
      | S fuel =>
          let take := Z.min (s_seg_size (ws w)) (zlen data) in
          let chunk := ztake take data in
          let! (w, _) := Some (feed w cur_lsn chunk) in
          let! (w, _) := drain_and_seal (segment_fuel w) w in
          push_loop fuel w (cur_lsn + take) (zdrop take data)
      end
  end.

(** [digest_raw]. *)
Fixpoint digest_loop (fuel : nat) (seg_size : Z) (crc from lsn : Z) (data : list Z) : option (Z * Z * Z) :=
  match data with
  | [] => Some (crc, from, lsn)
  | _ =>
      match fuel with
      | O => None
      | S fuel =>
          let seg_start := align_down lsn seg_size in
          let '(crc, from) := if negb (from =? seg_start) then (0, seg_start) else (crc, from) in
          let room := seg_start + seg_size - lsn in
          let take := Z.min room (zlen data) in
          digest_loop fuel seg_size (crc32c_append crc (ztake take data)) from (lsn + take) (zdrop take data)
      end
  end.

Definition digest_raw (s : WalStream) (lsn : Z) (data : list Z) : option WalStream :=
  let* x := digest_loop (S (length data)) (s_seg_size s) (raw_crc s) (raw_crc_from s) lsn data in
  let '(crc, from, lsn) := x in
  Some (if is_multiple_of lsn (s_seg_size s) then set_raw 0 lsn s else set_raw crc from s).

Record ForkPrefix := MkFork { fp_from : Z; fp_through : Z; fp_crc : Z }.

Definition fork_prefix (s : WalStream) : ForkPrefix := MkFork (raw_crc_from s) (next_lsn s) (raw_crc s).

Definition push (w : World) (lsn : Z) (data : list Z) : outcome_of Z :=
  let s := ws w in
  if poisoned s then Some (w, Err Poisoned)
  else if negb (lsn =? next_lsn s) then Some (w, Err (Misaligned (next_lsn s) lsn))
  else
    let* s := digest_raw s lsn data in
    let* r := push_loop (S (length data)) (on_ws (fun _ => s) w) lsn data in
    match r with
    | (w, Ok cur_lsn) => Some (on_ws (set_next cur_lsn) w, Ok cur_lsn)
    | (w, Err e) => Some (on_ws poison w, Err e)
    end.

(** [transition_timeline]'s loop. *)
Fixpoint seal_all (fuel : nat) (w : World) : outcome_of unit :=
  match fuel with
  | O => None
  | S fuel =>
      let! (w, sealed) := try_flush_first_segment w in
      if sealed : bool then seal_all fuel w else Some (w, Ok tt)
  end.

Definition transition_timeline (w : World) (next_tli switch_lsn : Z) : outcome_of Z :=
  let s := ws w in
  let dispatched := uadd 64 (current_lsn s) (wire_offset s) in
  if poisoned s then Some (w, Err Poisoned)
  else if next_tli <=? timeline s then Some (w, Err (TimelineNotAbove (timeline s) next_tli))
  else if next_lsn s <? switch_lsn then Some (w, Err (ForkAboveFrontier switch_lsn (next_lsn s)))
  else if switch_lsn <? dispatched then Some (w, Err (ForkBehindDispatched switch_lsn dispatched))
  else
    let s := set_next switch_lsn (set_walker (truncate_to (walker s) (switch_lsn - current_lsn s)) s) in
    let w := on_ws (fun _ => s) w in
    let* r := seal_all (segment_fuel w) w in
    match r with
    | (w, Ok _) => Some (on_ws (set_timeline next_tli) w, Ok (align_down switch_lsn (s_seg_size (ws w))))
    | (w, Err e) => Some (on_ws poison w, Err e)
    end.

Definition adopt_timeline (s : WalStream) (tli : Z) : result WalStreamError WalStream :=
  if tli <=? timeline s then Err (TimelineNotAbove (timeline s) tli)
  else if negb (is_multiple_of (next_lsn s) (s_seg_size s)) then Err (UnalignedBase (next_lsn s))
  else Ok (set_timeline tli s).
End Pump.

End WalStream.
