(* ===== verification/WalStreamProofs.v ===== *)
(** * The pump's guarantees

    For any sinks, any parser and any way the source chunks its bytes: the
    pump's loops end and no slice is out of range; the bytes on the shadow wire
    are those of the archived segments, in order and without gaps; a record
    dispatches after its bytes have shipped, once, in order, and one that may
    park is the last on the wire; a fork's digest covers exactly the segment's
    source bytes. *)
From S2P Require Import Prelude WalPage Walker WalkerLow WalRecord Fpi Filter Rewrite ResumePrefix WalStream.

Module WalStreamProofs.
Import WalPage Walker WalkerLow WalRecord Filter WalStream.

(** ** Rewriting a yielded record *)

Lemma bytes_ok_scatter rs : forall b new cur, bytes_ok b -> bytes_ok new -> bytes_ok (scatter b rs new cur).
Proof.
  induction rs as [|[o l] rs IH]; intros b new cur Hb Hn; simpl; [done|].
  apply IH; [|done]. apply bytes_ok_put; [done|by apply bytes_ok_sub].
Qed.

Lemma bytes_ok_body n : bytes_ok (Rewrite.noop_body n).
Proof.
  unfold Rewrite.noop_body. destruct (_ <=? _); repeat apply bytes_ok_put; try (apply bytes_ok_zrep; unfold byte_ok; lia).
  - constructor; [split; vm_compute; congruence|constructor].
  - constructor; [apply Z.mod_pos_bound; lia|constructor].
  - constructor; [split; vm_compute; congruence|constructor].
  - apply le_enc_ok.
Qed.

Lemma bytes_ok_noop bytes crc : bytes_ok bytes -> bytes_ok (Rewrite.noop_record bytes crc).
Proof.
  intros H. unfold Rewrite.noop_record. repeat apply bytes_ok_app.
  - by apply bytes_ok_sub.
  - apply bytes_ok_zrep. unfold byte_ok. lia.
  - by apply bytes_ok_sub.
  - repeat (constructor; [split; vm_compute; congruence|]). constructor.
  - apply le_enc_ok.
  - apply bytes_ok_body.
Qed.

Lemma bytes_ok_gather b rs : bytes_ok b -> bytes_ok (gather b rs).
Proof.
  intros H. unfold gather. induction rs as [|r rs IH]; simpl; [constructor|].
  apply bytes_ok_app; [by apply bytes_ok_sub|done].
Qed.

(** Where a record's last range ends. *)
Lemma ranges_last rs : forall lo hi,
  rs <> [] -> ranges_in lo rs hi ->
  let '(off, len) := List.last rs (0, 0) in
  lo + ranges_len rs <= off + len <= hi /\ 0 < len /\ lo <= off.
Proof.
  unfold ranges_len. induction rs as [|[o l] rs IH]; intros lo hi Hne H; [done|].
  destruct H as (H1 & H2 & H3). destruct rs as [|r rs].
  - simpl in *. lia.
  - specialize (IH (o + l) hi ltac:(done) H3). change (List.last ((o, l) :: r :: rs) (0, 0)) with (List.last (r :: rs) (0, 0)).
    destruct (List.last (r :: rs) (0, 0)) as [off len].
    change (fold_right (fun x n => snd x + n) 0 ((o, l) :: r :: rs)) with
      (l + fold_right (fun x n => snd x + n) 0 (r :: rs)). lia.
Qed.

(** A record the walker handed out in place is one range. *)
Lemma in_place_single b r :
  CompletedOk b r -> stitched_bytes r = None -> exists len, byte_ranges r = [(start_offset r, len)].
Proof.
  intros [H1 (l & rest & E) H3 H4 H5 H6] Hs. exists l. rewrite E in *. f_equal.
  unfold logical_bytes in H4. rewrite Hs, E in H4. unfold gather in H4. simpl in H4.
  apply (f_equal zlen) in H4. rewrite zlen_app in H4. destruct H3 as (_ & Hl & H3).
  fold (gather b rest) in H4. rewrite (zlen_gather b (start_offset r + l)) in H4 by (done || lia).
  destruct rest as [|[o n] rest]; [done|]. exfalso. destruct H3 as (_ & Hn & H3).
  apply ranges_len_nonneg in H3. change (ranges_len ((o, n) :: rest)) with (n + ranges_len rest) in H4. lia.
Qed.

Lemma set_buf_id x : set_buf x (buf x) = x.
Proof. by destruct x. Qed.

(** The buffer after a record is replaced. *)
Record Replaced (b b' : list Z) (rs : list (Z * Z)) (start : Z) (new : list Z) : Prop := mkReplaced
  { rp_len : zlen b' = zlen b;
    rp_ok : bytes_ok b';
    rp_record : gather b' rs = new;
    rp_below : forall n, n <= start -> ztake n b' = ztake n b;
    rp_outside : forall i, ~ inside rs i -> zget b' i = zget b i }.

Section Pump.
Context `{C : Fpi.Codecs} `{R : Runtime}.
Hypothesis crc_fits : forall c data, fits 32 (crc32c_append c data).

Notation cache_ok := (Rewrite.cache_ok crc32c_append).

(** The NOOP of a record's bytes. *)
Definition noop_of (bytes : list Z) : list Z :=
  Rewrite.noop_record bytes (Rewrite.compute_crc crc32c_append (Rewrite.noop_record bytes 0)).

Lemma replaced_scatter b r :
  bytes_ok b -> CompletedOk b r -> 26 <= ranges_len (byte_ranges r) ->
  Replaced b (scatter b (byte_ranges r) (noop_of (gather b (byte_ranges r))) 0) (byte_ranges r) (start_offset r)
    (noop_of (gather b (byte_ranges r))).
Proof.
  intros Hb [H1 H2 H3 H4 H5 H6] H26. set (new := noop_of _).
  assert (Hg : zlen (gather b (byte_ranges r)) = ranges_len (byte_ranges r)) by (by apply (zlen_gather b (start_offset r))).
  assert (Hn : zlen new = ranges_len (byte_ranges r)).
  { unfold new, noop_of. rewrite <- Hg. apply Rewrite.noop_record_parts. lia. }
  destruct (scatter_spec (byte_ranges r) b new (start_offset r) 0) as (E1 & E2 & E3 & E4); [done|done|lia|lia|].
  split; [done| | | |done].
  - apply bytes_ok_scatter; [done|]. apply bytes_ok_noop, bytes_ok_gather, Hb.
  - rewrite E2. by apply sub_all.
  - intros n Hn'. destruct (Z.le_gt_cases n 0).
    + unfold ztake. by rewrite !Z2Nat.nonpos by lia.
    + specialize (E4 0 n ltac:(lia) Hn'). unfold sub in E4. by rewrite !zdrop_0, Z.sub_0_r in E4.
Qed.

Lemma suppress_spec w r :
  bytes_ok (buf (walker (ws w))) -> CompletedOk (buf (walker (ws w))) r -> cache_ok (cache w) ->
  if 26 <=? ranges_len (byte_ranges r) then
    exists c b, suppress w r = Some (MkWorld (set_walker (set_buf (walker (ws w)) b) (ws w)) (log w) c (torn w), Ok tt) /\
      cache_ok c /\
      Replaced (buf (walker (ws w))) b (byte_ranges r) (start_offset r) (noop_of (gather (buf (walker (ws w))) (byte_ranges r)))
  else exists n, suppress w r = Some (w, Err (Rewriting (start_offset r) (Rewrite.TooSmall n))).
Proof.
  intros Hb HC Hc. set (b := buf (walker (ws w))) in *. pose proof HC as [H1 H2 H3 H4 H5 H6].
  assert (Hg : zlen (gather b (byte_ranges r)) = ranges_len (byte_ranges r)) by (by apply (zlen_gather b (start_offset r))).
  assert (HL : forall bytes, logical_bytes r b = bytes -> bytes = gather b (byte_ranges r)) by (intros bytes <-; done).
  assert (HN : if 26 <=? ranges_len (byte_ranges r) then
      exists c, Rewrite.noop_replace crc32c_append (cache w) (gather b (byte_ranges r)) = Some (Ok (c, noop_of (gather b (byte_ranges r)))) /\ cache_ok c
    else Rewrite.noop_replace crc32c_append (cache w) (gather b (byte_ranges r)) =
      Some (Err (Rewrite.TooSmall (u32_at (gather b (byte_ranges r)) 0)))).
  { destruct (Z.leb_spec 26 (ranges_len (byte_ranges r))).
    - apply Rewrite.noop_replace_ok; [done|lia|lia|done].
    - unfold Rewrite.noop_replace. rewrite Hg, <- H5, Z.eqb_refl. rewrite (proj2 (Z.ltb_ge _ _)) by lia. cbn [negb].
      unfold sat_sub, Rewrite.X_LOG_RECORD_HEADER_SIZE, Rewrite.MIN_SHORT_BODY.
      by rewrite (proj2 (Z.ltb_lt _ _)) by lia. }
  destruct (stitched_bytes r) as [bytes|] eqn:Es.
  - unfold suppress. fold b. rewrite Es. rewrite (HL bytes) by (unfold logical_bytes; by rewrite Es).
    destruct (Z.leb_spec 26 (ranges_len (byte_ranges r))); [|rewrite HN; eauto].
    destruct HN as (c & -> & Hc'). exists c, (scatter b (byte_ranges r) (noop_of (gather b (byte_ranges r))) 0).
    split; [done|]. split; [done|]. by apply replaced_scatter.
  - destruct (in_place_single b r HC Es) as [len El].
    assert (Hs : sub b (start_offset r) (start_offset r + len) = gather b (byte_ranges r)).
    { rewrite El. unfold gather, range_bytes. simpl. by rewrite app_nil_r. }
    assert (Eq : suppress w r =
      match Rewrite.noop_replace crc32c_append (cache w) (gather b (byte_ranges r)) with
      | None => None
      | Some (Err e) => Some (w, Err (Rewriting (start_offset r) e))
      | Some (Ok (c, bytes)) =>
          Some (MkWorld (set_walker (set_buf (walker (ws w)) (put b (start_offset r) bytes)) (ws w)) (log w) c (torn w), Ok tt)
      end) by (rewrite <- Hs; unfold suppress; by rewrite Es, El).
    rewrite Eq.
    destruct (Z.leb_spec 26 (ranges_len (byte_ranges r))) as [H26|].
    2:{ rewrite HN. eauto. }
    destruct HN as (c & -> & Hc'). eexists c, _. split; [done|]. split; [done|].
    pose proof (replaced_scatter b r Hb HC H26) as HR.
    set (new := noop_of _) in *.
    assert (Hsc : scatter b (byte_ranges r) new 0 = put b (start_offset r) new); [|by rewrite Hsc in HR].
    rewrite El. cbn [scatter]. f_equal. apply sub_all; [done|].
    unfold new, noop_of. destruct (Rewrite.noop_record_parts (gather b (byte_ranges r)) (Rewrite.compute_crc crc32c_append
      (Rewrite.noop_record (gather b (byte_ranges r)) 0)) ltac:(lia)) as (_ & _ & ->).
    rewrite Hg, El. unfold ranges_len. simpl. lia.
Qed.

(** What deciding a record leaves: only the filter, the CRC cache and, for a
    suppressed record, its own bytes change. *)
Lemma filter_record_effect w r :
  bytes_ok (buf (walker (ws w))) -> CompletedOk (buf (walker (ws w))) r -> cache_ok (cache w) ->
  let b := buf (walker (ws w)) in
  exists w' res, filter_record w r = Some (w', res) /\ log w' = log w /\ torn w' = torn w /\
    forall p v, res = Ok (p, v) ->
      parse_record_from_bytes (gather b (byte_ranges r)) (rec_magic r) = Ok p /\
      exists f c b', w' = MkWorld (set_walker (set_buf (walker (ws w)) b') (set_filter f (ws w))) (log w) c (torn w) /\
        cache_ok c /\ (v_route v <> ToDecoder -> b' = b) /\
        (v_route v = ToDecoder -> Replaced b b' (byte_ranges r) (start_offset r) (noop_of (gather b (byte_ranges r)))).
Proof.
  intros Hb HC Hc b. unfold filter_record. rewrite (co_bytes _ _ HC). fold b.
  destruct (parse_record_from_bytes _ _) as [p|code] eqn:Ep; [|eexists _, _; repeat split; done].
  destruct (decide_record _ _ _ _ _) as [f [v|e]]; [|eexists _, _; repeat split; done].
  destruct (flush_shadow_rels f) as [f'|e]; [|eexists _, _; repeat split; done].
  case_bool_decide as Hr.
  - pose proof (suppress_spec (on_ws (set_filter f') w) r Hb HC Hc) as HS.
    destruct (26 <=? _).
    + destruct HS as (c & b' & -> & Hc' & HR). eexists _, _. split; [done|]. do 2 (split; [done|]).
      intros p0 v0 [= <- <-]. split; [done|]. by exists f', c, b'.
    + destruct HS as [n ->]. eexists _, _. repeat split; done.
  - eexists _, _. split; [done|]. do 2 (split; [done|]). intros p0 v0 [= <- <-]. split; [done|].
    exists f', (cache w), b. split; [|done]. unfold b. rewrite set_buf_id. by destruct w as [[] ? ? ?].
Qed.

(** ** No panic, no endless loop *)

(** What keeps every slice in range. *)
Record Safe (w : World) : Prop := mkSafe
  { sf_wf : WF (walker (ws w));
    sf_seg : seg_size (walker (ws w)) = s_seg_size (ws w) /\ 0 < s_seg_size (ws w) /\ s_seg_size (ws w) mod PAGE_SIZE = 0;
    sf_wire : 0 <= wire_offset (ws w);
    sf_end : 0 <= staged_end (ws w) <= zlen (buf (walker (ws w)));
    sf_cache : cache_ok (cache w);
    sf_len : zlen (buf (walker (ws w))) < 2 ^ 64;
    sf_prefix : forall p, resume_prefix (ws w) = Some p -> bytes_ok (ResumePrefix.bytes p) }.

Lemma dispatch_all_frame rs : forall w w' res,
  dispatch_all w rs = (w', res) -> ws w' = ws w /\ cache w' = cache w /\ torn w' = torn w.
Proof.
  induction rs as [|r rs IH]; intros w w' res; simpl; [by intros [= <- _]|].
  destruct (sink (log w) (Dispatch r)); [by intros [= <- _]|]. intros H. by apply IH in H.
Qed.

(** Dispatching ships what is staged and touches nothing else. *)
Lemma dispatch_staged_total w :
  0 <= wire_offset (ws w) -> staged_end (ws w) <= zlen (buf (walker (ws w))) ->
  exists w' res, dispatch_staged w = Some (w', res) /\ cache w' = cache w /\ torn w' = torn w /\
    (res = Ok tt -> ws w' = set_staged [] (staged_end (ws w)) (set_wire_offset (Z.max (wire_offset (ws w)) (staged_end (ws w))) (ws w))).
Proof.
  intros H0 He. unfold dispatch_staged, ship, get_range.
  destruct (Z.ltb_spec (wire_offset (ws w)) (staged_end (ws w))) as [Hlt|Hge].
  - rewrite !(proj2 (Z.leb_le _ _)) by lia. cbn [andb]. unfold emit.
    destruct (sink _ _); [eexists _, _; repeat split; done|]. simpl.
    destruct (dispatch_all _ _) as [w' res] eqn:E. destruct (dispatch_all_frame _ _ _ _ E) as (E1 & E2 & E3).
    eexists _, _. split; [done|]. do 2 (split; [done|]). intros _. rewrite E1. simpl. by rewrite Z.max_r by lia.
  - destruct (dispatch_all _ _) as [w' res] eqn:E. destruct (dispatch_all_frame _ _ _ _ E) as (E1 & E2 & E3).
    eexists _, _. split; [done|]. do 2 (split; [done|]). intros _. rewrite E1. simpl. rewrite Z.max_l by lia.
    by destruct (ws w).
Qed.

Lemma safe_dispatch w :
  Safe w -> exists w' res, dispatch_staged w = Some (w', res) /\
    (res = Ok tt -> Safe w' /\ walker (ws w') = walker (ws w)).
Proof.
  intros [H1 H2 H3 H4 H5 H6 H7]. destruct (dispatch_staged_total w H3 (proj2 H4)) as (w' & res & E & Ec & Et & Ew).
  exists w', res. split; [done|]. intros ->. rewrite (Ew eq_refl). split; [|done].
  split; rewrite ?(Ew eq_refl); simpl; try done; [lia|by rewrite Ec].
Qed.

(** Handling a record keeps the walker but for the record's bytes. *)
Lemma safe_handle w r :
  Safe w -> CompletedOk (buf (walker (ws w))) r -> pending (walker (ws w)) = None ->
  exists w' res, handle_record w r = Some (w', res) /\
    (res = Ok tt -> Safe w' /\ progress (walker (ws w')) = progress (walker (ws w)) /\
      zlen (buf (walker (ws w'))) = zlen (buf (walker (ws w)))).
Proof.
  intros [H1 H2 H3 H4 H5 H6 HX] HC Hp. unfold handle_record.
  destruct (filter_record_effect w r (wf_bytes _ H1) HC H5) as (w1 & res & -> & _ & _ & HF).
  destruct res as [[p v]|e]; [|eexists _, _; split; [done|done]].
  destruct (HF p v eq_refl) as (_ & f & c & b' & -> & Hc & Hk & Hs). clear HF.
  assert (Hb : zlen b' = zlen (buf (walker (ws w))) /\ bytes_ok b').
  { destruct (decide (v_route v = ToDecoder)) as [E|E]; [by destruct (Hs E)|rewrite (Hk E); split; [done|apply H1]]. }
  destruct Hb as [Hl Hb]. unfold stage_record. simpl.
  assert (Hne : byte_ranges r <> []) by (destruct (co_first _ _ HC) as (l & rest & ->); done).
  pose proof (ranges_last _ _ _ Hne (co_ranges _ _ HC)) as HR. unfold last_range.
  destruct (List.last (byte_ranges r) (0, 0)) as [off len].
  match goal with |- context [if ?x then dispatch_staged ?y else _] => set (full := x); set (w2 := y) end.
  assert (HS2 : Safe w2).
  { split; simpl; try done; [by apply set_buf_wf| |lia]. pose proof (co_lo _ _ HC). pose proof (co_min _ _ HC). lia. }
  destruct full; [|by exists w2, (Ok tt)].
  destruct (safe_dispatch w2 HS2) as (w3 & res & -> & H7). exists w3, res. split; [done|]. intros Hr.
  destruct (H7 Hr) as [H8 ->]. split; [done|]. simpl. done.
Qed.

Lemma safe_drain fuel : forall w,
  Safe w -> 4 * zlen (buf (walker (ws w))) + 6 * PAGE_SIZE + 4 - progress (walker (ws w)) < Z.of_nat fuel ->
  exists w' res, drain_records fuel w = Some (w', res) /\
    (res = Ok tt -> Safe w' /\ zlen (buf (walker (ws w'))) = zlen (buf (walker (ws w)))).
Proof.
  induction fuel as [|fuel IH]; intros w HS Hf.
  { pose proof (progress_bound _ (sf_wf _ HS)). lia. }
  cbn [drain_records]. destruct (try_next_ok _ (sf_wf _ HS)) as (x & o & E & Ho & Hb & HW & Hy). rewrite E.
  destruct HS as [H1 H2 H3 H4 H5 H6 HX]. set (w1 := MkWorld _ _ _ _).
  assert (HS1 : Safe w1).
  { split; simpl; rewrite ?Hb, ?(try_next_seg _ _ _ E); done. }
  destruct o as [| |r|e]; [done| | |eexists _, _; split; [done|done]].
  - destruct (safe_dispatch w1 HS1) as (w' & res & -> & HR). exists w', res. split; [done|]. intros Hr.
    destruct (HR Hr) as [? ->]. split; [done|]. simpl. by rewrite Hb.
  - pose proof (try_next_progress _ _ _ H1 E) as Hpr.
    destruct (safe_handle w1 r HS1) as (w2 & res & -> & HR).
    + simpl. rewrite Hb. auto.
    + exact (try_next_yields _ _ _ H1 E).
    + destruct res as [[]|e]; [|eexists _, _; split; [done|done]].
      destruct (HR eq_refl) as (HS2 & Hp2 & Hl2). simpl in Hp2, Hl2.
      destruct (IH w2 HS2) as (w' & res & -> & HR'); [rewrite Hl2, Hp2, Hb; lia|].
      exists w', res. split; [done|]. intros Hr. destruct (HR' Hr) as [? E2]. split; [done|].
      rewrite E2, Hl2. by rewrite Hb.
Qed.

Lemma safe_flush w :
  Safe w -> exists w' res, try_flush_first_segment w = Some (w', res) /\
    (forall b, res = Ok b -> Safe w' /\
      zlen (buf (walker (ws w'))) = zlen (buf (walker (ws w))) - (if b then s_seg_size (ws w) else 0) /\
      s_seg_size (ws w') = s_seg_size (ws w)).
Proof.
  intros HS. unfold try_flush_first_segment. destruct (first_segment_ready (walker (ws w))) eqn:ER.
  2:{ exists w, (Ok false). split; [done|]. intros b [= <-]. rewrite Z.sub_0_r. done. }
  destruct HS as [H1 (H2 & H2' & H2'') H3 H4 H5 H6 HX]. cbn [negb].
  pose proof ER as Hlen. apply andb_true_iff in Hlen as [Hlen%Z.leb_le _]. rewrite H2 in Hlen.
  set (ship1 := if wire_offset (ws w) <? s_seg_size (ws w) then ship w (wire_offset (ws w)) (s_seg_size (ws w)) else Some (w, Ok tt)).
  assert (Hs : exists w1 r1, ship1 = Some (w1, r1) /\ ws w1 = ws w /\ cache w1 = cache w).
  { unfold ship1. destruct (Z.ltb_spec (wire_offset (ws w)) (s_seg_size (ws w))); [|eauto].
    unfold ship, get_range. rewrite !(proj2 (Z.leb_le _ _)) by lia. eexists _, _. split; [done|done]. }
  destruct Hs as (w1 & r1 & -> & Ew & Ec). destruct r1 as [[]|e]; [|eexists _, _; split; [done|done]].
  unfold get_range. rewrite !(proj2 (Z.leb_le _ _)) by lia. cbn [andb]. unfold emit.
  destruct (sink _ (Segment _ _)); [eexists _, _; split; [done|done]|]. simpl.
  destruct (sink _ (Retired _)); [eexists _, _; split; [done|done]|].
  eexists _, _. split; [done|]. intros b [= <-]. destruct (truncate_frame (walker (ws w))) as (F1 & F2 & _).
  split; [split|]; simpl; rewrite ?Ew, ?Ec, ?F1, ?F2; unfold sat_sub; try done; try lia.
  - apply truncate_first_wf; by rewrite ?H2.
  - rewrite H2. zlen.
  - rewrite H2. zlen.
  - split; [rewrite H2; zlen|done].
Qed.

Lemma safe_seal fuel : forall w,
  Safe w -> zlen (buf (walker (ws w))) < Z.of_nat fuel ->
  exists w' res, drain_and_seal fuel w = Some (w', res) /\
    (res = Ok tt -> Safe w' /\ zlen (buf (walker (ws w'))) <= zlen (buf (walker (ws w)))).
Proof.
  induction fuel as [|fuel IH]; intros w HS Hf; [zlen|].
  cbn [drain_and_seal]. destruct (safe_drain (record_fuel w) w HS) as (w1 & r1 & -> & H1).
  { unfold record_fuel. pose proof (progress_bound _ (sf_wf _ HS)). unfold PAGE_SIZE in *. zlen. }
  destruct r1 as [[]|e]; [|eexists _, _; split; [done|done]]. destruct (H1 eq_refl) as [HS1 E1].
  destruct (safe_flush w1 HS1) as (w2 & r2 & -> & H2).
  destruct r2 as [b|e]; [|eexists _, _; split; [done|done]]. destruct (H2 b eq_refl) as (HS2 & E2 & E3).
  destruct (sf_seg _ HS1) as (_ & Hseg & _). destruct b.
  - destruct (IH w2 HS2) as (w' & res & -> & H); [lia|]. exists w', res. split; [done|].
    intros Hr. destruct (H Hr). split; [done|lia].
  - exists w2, (Ok tt). split; [done|]. intros _. split; [done|lia].
Qed.

(** Feeding a chunk: as many bytes, whatever the resume prefix makes of them. *)
Lemma feed_effect w lsn chunk w' :
  feed w lsn chunk = (w', Ok tt) ->
  exists bytes pre, zlen bytes = zlen chunk /\ w' = on_ws (fun s => set_prefix pre (set_walker (extend (walker s) bytes) s)) w /\
    (resume_prefix (ws w) = None -> bytes = chunk /\ pre = None) /\
    (forall p, resume_prefix (ws w) = Some p -> ResumePrefix.apply p lsn chunk = Ok bytes).
Proof.
  unfold feed. destruct (resume_prefix (ws w)) as [p|] eqn:Ep.
  - destruct (ResumePrefix.apply p lsn chunk) as [b|] eqn:Ea; [|done].
    pose proof (proj1 (ResumePrefix.apply_spec _ _ _ _) Ea) as (_ & Hl & _).
    destruct (_ <=? _); intros [= <-]; [exists b, None|exists b, (Some p)].
    + repeat split; try done. by intros q [= <-].
    + repeat split; try done; [|by intros q [= <-]]. unfold on_ws. simpl. rewrite <- Ep. by destruct (ws w).
  - intros [= <-]. exists chunk, None. repeat split; try done. unfold on_ws. rewrite <- Ep. by destruct (ws w).
Qed.

Lemma apply_bytes_ok p lsn chunk out :
  bytes_ok (ResumePrefix.bytes p) -> bytes_ok chunk -> ResumePrefix.apply p lsn chunk = Ok out -> bytes_ok out.
Proof.
  intros Hp Hc. unfold ResumePrefix.apply. destruct (_ <=? _); [by intros [= <-]|].
  destruct (ResumePrefix.check_headers _ _ _ _ _ _); [|done]. intros [= <-].
  apply bytes_ok_put; [done|by apply bytes_ok_sub].
Qed.

Lemma safe_feed w lsn chunk w' :
  Safe w -> bytes_ok chunk -> zlen (buf (walker (ws w))) + zlen chunk < 2 ^ 64 ->
  feed w lsn chunk = (w', Ok tt) ->
  Safe w' /\ zlen (buf (walker (ws w'))) = zlen (buf (walker (ws w))) + zlen chunk.
Proof.
  intros [H1 H2 H3 H4 H5 H6 HX] Hc Hl Hf.
  assert (Hpre : forall q, resume_prefix (ws w') = Some q -> bytes_ok (ResumePrefix.bytes q)).
  { unfold feed in Hf. destruct (resume_prefix (ws w)) as [p|] eqn:Ep.
    - destruct (ResumePrefix.apply p lsn chunk); [|done].
      destruct (_ <=? _); injection Hf as <-; simpl; [done|]. by rewrite Ep.
    - injection Hf as <-. simpl. by rewrite Ep. }
  destruct (feed_effect _ _ _ _ Hf) as (bytes & pre & Hz & -> & Hn & Ha).
  assert (Hok : bytes_ok bytes).
  { destruct (resume_prefix (ws w)) as [p|] eqn:Ep; [|by destruct (Hn eq_refl) as [-> _]].
    eapply apply_bytes_ok; [|exact Hc|]; eauto. }
  split; [split|]; simpl in *; rewrite ?zlen_app; try done; try (zlen; done).
  by apply extend_wf.
Qed.

Lemma safe_push_loop fuel : forall w lsn data,
  Safe w -> bytes_ok data -> zlen (buf (walker (ws w))) + zlen data < 2 ^ 64 -> zlen data < Z.of_nat fuel ->
  exists w' res, push_loop fuel w lsn data = Some (w', res) /\ (forall n, res = Ok n -> Safe w' /\ n = lsn + zlen data /\
      zlen (buf (walker (ws w'))) <= zlen (buf (walker (ws w))) + zlen data).
Proof.
  induction fuel as [|fuel IH]; intros w lsn data HS Hd Hl Hf; [zlen|].
  cbn [push_loop]. destruct data as [|b0 data0] eqn:Ed.
  { exists w, (Ok lsn). split; [done|]. intros n [= <-]. split; [done|]. unfold zlen. simpl. lia. }
  rewrite <- Ed in *. assert (Hpos : 0 < zlen data) by (rewrite Ed; zlen). clear Ed.
  destruct (sf_seg _ HS) as (_ & Hseg & _). set (take := Z.min (s_seg_size (ws w)) (zlen data)) in *.
  assert (Ht : zlen (ztake take data) = take /\ zlen (zdrop take data) = zlen data - take) by zlen.
  destruct Ht as [Ht1 Ht2]. destruct (feed w lsn (ztake take data)) as [w1 r1] eqn:E1.
  destruct r1 as [[]|e]; [|eexists _, _; split; [done|done]].
  destruct (safe_feed w lsn (ztake take data) w1 HS (Forall_take _ _ _ Hd) ltac:(lia) E1) as [HS1 L1].
  destruct (safe_seal (segment_fuel w1) w1 HS1) as (w2 & r2 & -> & H2).
  { unfold segment_fuel. zlen. }
  destruct r2 as [[]|e]; [|eexists _, _; split; [done|done]]. destruct (H2 eq_refl) as [HS2 L2].
  destruct (IH w2 (lsn + take) (zdrop take data) HS2 (Forall_drop _ _ _ Hd)) as (w' & res & -> & H); [lia|lia|].
  exists w', res. split; [done|]. intros n Hn. destruct (H n Hn) as (? & ? & ?). split; [done|lia].
Qed.

(** ** The raw digest *)
Definition align_bounds (lsn seg : Z) : 0 < seg -> align_down lsn seg <= lsn < align_down lsn seg + seg.
Proof. intros H. unfold align_down. pose proof (Z.mod_pos_bound lsn seg H). lia. Qed.

Lemma align_same lsn k seg :
  0 < seg -> lsn mod seg = 0 -> 0 <= k < seg -> align_down (lsn + k) seg = lsn.
Proof.
  intros H Hm Hk. unfold align_down. rewrite Z.add_mod, Hm by lia. rewrite Z.add_0_l, Z.mod_mod, Z.mod_small by lia. lia.
Qed.

Lemma align_aligned lsn seg : 0 < seg -> align_down lsn seg mod seg = 0.
Proof.
  intros H. unfold align_down. rewrite Zminus_mod, Z.mod_mod, Z.sub_diag by lia. apply Z.mod_0_l. lia.
Qed.

Section Digest.
Hypothesis crc_nil : crc32c_append 0 [] = 0.
Hypothesis crc_app : forall c a b, crc32c_append (crc32c_append c a) b = crc32c_append c (a ++ b).
Variables (base seg : Z).
Hypothesis seg_pos : 0 < seg.

(** The digest covers the source bytes of the segment [lsn] is in, or is about
    to be restarted at a boundary. *)
Definition Digest (src : list Z) (crc from lsn : Z) : Prop :=
  (from = align_down lsn seg /\ base <= from /\ crc = crc32c_append 0 (zdrop (from - base) src)) \/
  (from <> align_down lsn seg /\ lsn mod seg = 0).

Lemma digest_loop_spec fuel : forall src crc from lsn data,
  zlen data < Z.of_nat fuel -> lsn = base + zlen src -> Digest src crc from lsn ->
  exists crc' from', digest_loop fuel seg crc from lsn data = Some (crc', from', lsn + zlen data) /\
    Digest (src ++ data) crc' from' (lsn + zlen data).
Proof.
  induction fuel as [|fuel IH]; intros src crc from lsn data Hf Hl HD; [zlen|].
  cbn [digest_loop]. destruct data as [|b0 data0] eqn:Ed.
  { exists crc, from. rewrite zlen_nil, Z.add_0_r, app_nil_r. done. }
  rewrite <- Ed in *. assert (Hpos : 0 < zlen data) by (rewrite Ed; zlen). clear Ed.
  pose proof (align_bounds lsn seg seg_pos) as HB. set (start := align_down lsn seg) in *.
  set (take := Z.min (start + seg - lsn) (zlen data)).
  assert (HN : exists crc1, (if negb (from =? start) then (0, start) else (crc, from)) = (crc1, start) /\
    base <= start /\ crc1 = crc32c_append 0 (zdrop (start - base) src)).
  { destruct HD as [(-> & Hb & ->)|[Hne Hm]].
    - rewrite Z.eqb_refl. simpl. eauto.
    - rewrite (proj2 (Z.eqb_neq _ _)) by done. exists 0. split; [done|].
      assert (start = lsn) as -> by (unfold start, align_down; lia). split; [zlen|].
      unfold zdrop. rewrite drop_ge by (unfold zlen in *; lia). by rewrite crc_nil. }
  destruct HN as (crc1 & -> & Hb & Hc1).
  assert (Ht : zlen (ztake take data) = take /\ zlen (zdrop take data) = zlen data - take) by zlen.
  destruct Ht as [Ht1 Ht2].
  destruct (IH (src ++ ztake take data) (crc32c_append crc1 (ztake take data)) start (lsn + take) (zdrop take data))
    as (crc' & from' & E & HD'); [lia|rewrite zlen_app; lia| |].
  - unfold Digest. destruct (Z.lt_ge_cases (lsn + take) (start + seg)) as [Hlt|Hge].
    + left. replace (lsn + take) with (start + (lsn + take - start)) by lia.
      rewrite align_same by (done || lia || by apply align_aligned). split; [done|]. split; [done|].
      rewrite Hc1, crc_app. f_equal. rewrite zdrop_app_l by lia. done.
    + right. assert (Es : lsn + take = start + seg) by lia. rewrite Es.
      assert (Hm : (start + seg) mod seg = 0).
      { rewrite <- (Z.mul_1_l seg) at 1. rewrite Z.mod_add by lia. by apply align_aligned. }
      split; [|done]. unfold align_down. lia.
  - exists crc', from'. rewrite <- app_assoc, ztake_zdrop_id, Ht2 in HD'. rewrite E, Ht2.
    replace (lsn + take + (zlen data - take)) with (lsn + zlen data) in * by lia. done.
Qed.

(** The digest a stream holds between pushes. *)
Definition digest_at (src : list Z) (s : WalStream) : Prop :=
  next_lsn s = base + zlen src /\ s_seg_size s = seg /\
  fork_prefix s = MkFork (align_down (next_lsn s) seg) (next_lsn s)
    (crc32c_append 0 (zdrop (align_down (next_lsn s) seg - base) src)).

Lemma digest_raw_spec src s data :
  base mod seg = 0 -> digest_at src s ->
  exists crc, digest_raw s (next_lsn s) data = Some (set_raw crc (align_down (next_lsn s + zlen data) seg) s) /\
    crc = crc32c_append 0 (zdrop (align_down (next_lsn s + zlen data) seg - base) (src ++ data)).
Proof.
  intros Hbm (Hn & Hs & [= Hf Hc]). unfold digest_raw. rewrite Hs.
  pose proof (zlen_nonneg src). pose proof (zlen_nonneg data).
  assert (Hge : forall k, 0 <= k -> base <= align_down (base + k) seg).
  { intros k Hk. unfold align_down. rewrite Z.add_mod, Hbm by lia. rewrite Z.add_0_l, Z.mod_mod by lia.
    pose proof (Z.mod_le k seg Hk seg_pos). lia. }
  destruct (digest_loop_spec (S (length data)) src (raw_crc s) (raw_crc_from s) (next_lsn s) data)
    as (crc' & from' & -> & HD); [unfold zlen; lia|done| |].
  { left. rewrite Hf, Hc. split; [done|]. split; [rewrite Hn; by apply Hge|done]. }
  unfold is_multiple_of. destruct (Z.eqb_spec ((next_lsn s + zlen data) mod seg) 0) as [Hm|Hm].
  - exists 0. assert (Ea : align_down (next_lsn s + zlen data) seg = next_lsn s + zlen data) by (unfold align_down; lia).
    rewrite Ea. split; [done|]. unfold zdrop. rewrite drop_ge; [by rewrite crc_nil|].
    rewrite length_app. unfold zlen in *. lia.
  - destruct HD as [(-> & _ & ->)|[_ ?]]; [|done]. eauto.
Qed.
End Digest.

(** ** What the record loop leaves alone *)
Definition outer (s : WalStream) : Z * Z * Z * Z * Z * bool :=
  (raw_crc s, raw_crc_from s, next_lsn s, timeline s, s_seg_size s, poisoned s).

(** A step that keeps the outer fields, and only ever sets the ghost flag. *)
Definition Keeps {A} (w : World) (r : option (World * result WalStreamError A)) : Prop :=
  match r with Some (w', _) => outer (ws w') = outer (ws w) /\ (torn w = true -> torn w' = true) | None => True end.

Lemma keeps_trans {A} w w1 (r : option (World * result WalStreamError A)) :
  outer (ws w1) = outer (ws w) -> (torn w = true -> torn w1 = true) -> Keeps w1 r -> Keeps w r.
Proof. unfold Keeps. destruct r as [[w' ?]|]; [|done]. intros E H [E' H']. split; [congruence|auto]. Qed.

Lemma dispatch_keeps w : Keeps w (dispatch_staged w).
Proof.
  unfold dispatch_staged, ship, emit. destruct (_ <? _).
  - destruct (get_range _ _ _); [|done]. destruct (sink _ _); [done|]. simpl.
    destruct (dispatch_all _ _) as [w' res] eqn:E. destruct (dispatch_all_frame _ _ _ _ E) as (E1 & _ & E3).
    simpl. by rewrite E1, E3.
  - destruct (dispatch_all _ _) as [w' res] eqn:E. destruct (dispatch_all_frame _ _ _ _ E) as (E1 & _ & E3).
    simpl. by rewrite E1, E3.
Qed.

Lemma handle_keeps w r : Keeps w (handle_record w r).
Proof.
  unfold handle_record, filter_record, stage_record. destruct (parse_record_from_bytes _ _); [|done].
  destruct (decide_record _ _ _ _ _) as [f [v|e]]; [|done]. destruct (flush_shadow_rels f) as [f'|e]; [|done].
  set (w1 := on_ws _ w). set (act := if bool_decide _ then _ else _).
  assert (HK : Keeps w act).
  { unfold act. case_bool_decide; [|done]. unfold suppress.
    destruct (stitched_bytes r); [|destruct (byte_ranges r) as [|[? ?] ?]; [done|]];
      destruct (Rewrite.noop_replace _ _ _) as [[[? ?]|?]|]; done. }
  destruct act as [[w2 [[]|e]]|]; [|done|done]. destruct HK as [E1 E2]. destruct (last_range r) as [off len].
  match goal with |- context [if ?x then dispatch_staged ?y else _] => destruct x; set (w3 := y) end.
  - apply (keeps_trans w w3); [done|done|apply dispatch_keeps].
  - done.
Qed.

Lemma drain_keeps fuel : forall w, Keeps w (drain_records fuel w).
Proof.
  induction fuel as [|fuel IH]; intros w; simpl; [done|].
  destruct (try_next _) as [[x o]|]; [|done]. set (w1 := MkWorld _ _ _ _).
  assert (H1 : torn w = true -> torn w1 = true) by (intros H; simpl; by rewrite H).
  destruct o as [| |r|e]; [done|apply (keeps_trans w w1); [done|done|apply dispatch_keeps]| |done].
  pose proof (handle_keeps w1 r) as HK. destruct (handle_record w1 r) as [[w2 [[]|e]]|]; [| |done].
  - destruct HK as [E2 H2]. apply (keeps_trans w w2); [done|auto|apply IH].
  - destruct HK as [E2 H2]. split; [done|auto].
Qed.

Lemma flush_keeps w : Keeps w (try_flush_first_segment w).
Proof.
  unfold try_flush_first_segment, ship, emit. destruct (negb _); [done|].
  destruct (_ <? _).
  - destruct (get_range _ _ _); [|done]. destruct (sink _ (Wire _ _)); [done|].
    destruct (get_range _ _ _); [|done]. destruct (sink _ (Segment _ _)); [done|]. simpl. by destruct (sink _ (Retired _)).
  - destruct (get_range _ _ _); [|done]. destruct (sink _ (Segment _ _)); [done|]. simpl. by destruct (sink _ (Retired _)).
Qed.

Lemma seal_keeps fuel : forall w, Keeps w (drain_and_seal fuel w).
Proof.
  induction fuel as [|fuel IH]; intros w; simpl; [done|].
  pose proof (drain_keeps (record_fuel w) w) as HK. destruct (drain_records _ _) as [[w1 [[]|e]]|]; [|done|done].
  destruct HK as [E1 H1]. pose proof (flush_keeps w1) as HF.
  destruct (try_flush_first_segment w1) as [[w2 [b|e]]|]; [| |done]; destruct HF as [E2 H2].
  - assert (E : outer (ws w2) = outer (ws w)) by congruence.
    destruct b; [apply (keeps_trans w w2); [done|auto|apply IH]|split; [done|auto]].
  - split; [congruence|auto].
Qed.

Lemma feed_keeps w lsn chunk : Keeps w (Some (feed w lsn chunk)).
Proof.
  unfold feed. destruct (resume_prefix _); [|done]. destruct (ResumePrefix.apply _ _ _); [|done]. by destruct (_ <=? _).
Qed.

Lemma push_loop_keeps fuel : forall w lsn data, Keeps w (push_loop fuel w lsn data).
Proof.
  induction fuel as [|fuel IH]; intros w lsn data; cbn [push_loop]; [by destruct data|]. destruct data as [|b data0]; [done|].
  set (data := b :: data0). set (take := Z.min _ _). clearbody data.
  pose proof (feed_keeps w lsn (ztake take data)) as HK. destruct (feed _ _ _) as [w1 [[]|e]]; [|exact HK].
  destruct HK as [E1 H1]. pose proof (seal_keeps (segment_fuel w1) w1) as HS.
  destruct (drain_and_seal _ _) as [[w2 [[]|e]]|]; [| |done]; destruct HS as [E2 H2].
  - apply (keeps_trans w w2); [congruence|auto|apply IH].
  - split; [congruence|auto].
Qed.

(** ** Sequences of pushes *)
Fixpoint push_all (w : World) (lsn : Z) (chunks : list (list Z)) : option (World * result WalStreamError Z) :=
  match chunks with
  | [] => Some (w, Ok lsn)
  | c :: rest => let! (w, lsn) := push w lsn c in push_all w lsn rest
  end.

Definition start (s : WalStream) (c : gmap Z Z) : World := MkWorld s [] c false.

Lemma digest_loop_total fuel : forall seg crc from lsn data,
  0 < seg -> zlen data < Z.of_nat fuel -> exists x, digest_loop fuel seg crc from lsn data = Some x.
Proof.
  induction fuel as [|fuel IH]; intros seg crc from lsn data Hs Hf; [zlen|]. cbn [digest_loop].
  destruct data as [|b0 data0]; [eauto|]. set (data := b0 :: data0) in *.
  assert (0 < zlen data) by (unfold data; zlen). clearbody data. pose proof (align_bounds lsn seg Hs).
  destruct (if negb _ then _ else _) as [crc1 from1]. apply IH; [done|]. zlen.
Qed.

Lemma set_raw_safe crc from w : Safe w -> Safe (on_ws (set_raw crc from) w).
Proof. intros []. by split. Qed.

Lemma digest_raw_eq s lsn data s' :
  digest_raw s lsn data = Some s' -> exists crc from, s' = set_raw crc from s.
Proof.
  unfold digest_raw. destruct (digest_loop _ _ _ _ _ _) as [[[? ?] ?]|]; [|done].
  destruct (is_multiple_of _ _); intros [= <-]; eauto.
Qed.

Lemma safe_push w lsn data :
  Safe w -> bytes_ok data -> zlen (buf (walker (ws w))) + zlen data < 2 ^ 64 ->
  exists w' res, push w lsn data = Some (w', res) /\
    (forall n, res = Ok n -> Safe w' /\ zlen (buf (walker (ws w'))) <= zlen (buf (walker (ws w))) + zlen data).
Proof.
  intros HS Hd Hl. unfold push. destruct (poisoned (ws w)); [eexists _, _; split; [done|done]|].
  destruct (negb _); [eexists _, _; split; [done|done]|].
  destruct (sf_seg _ HS) as (_ & Hseg & _).
  destruct (digest_raw (ws w) lsn data) as [s|] eqn:Ed.
  2:{ exfalso. unfold digest_raw in Ed. destruct (digest_loop_total (S (length data)) (s_seg_size (ws w)) (raw_crc (ws w))
      (raw_crc_from (ws w)) lsn data Hseg ltac:(unfold zlen; lia)) as [[[? ?] ?] E]. rewrite E in Ed. done. }
  destruct (digest_raw_eq _ _ _ _ Ed) as (crc & from & ->).
  destruct (safe_push_loop (S (length data)) (on_ws (set_raw crc from) w) lsn data) as (w1 & r1 & E1 & H1).
  { by apply set_raw_safe. } { done. } { done. } { unfold zlen. lia. }
  change (on_ws (fun _ => set_raw crc from (ws w)) w) with (on_ws (set_raw crc from) w). rewrite E1.
  destruct r1 as [n|e]; [|eexists _, _; split; [done|done]].
  destruct (H1 n eq_refl) as (HS1 & _ & L1). eexists _, _. split; [done|]. intros m [= <-]. split; [|done].
  destruct HS1. by split.
Qed.

(** What a fresh stream starts from. *)
Lemma safe_start tli seg base c s :
  0 < seg -> seg mod PAGE_SIZE = 0 -> cache_ok c -> new tli seg base = Ok s -> Safe (start s c).
Proof.
  intros H0 Hm Hc. unfold new. destruct (negb _); [done|]. intros [= <-].
  split; simpl; try done; try (unfold zlen; simpl; lia). apply new_wf.
Qed.

Lemma safe_push_all chunks : forall w lsn,
  Safe w -> Forall bytes_ok chunks -> zlen (buf (walker (ws w))) + zlen (concat chunks) < 2 ^ 64 ->
  exists w' res, push_all w lsn chunks = Some (w', res).
Proof.
  induction chunks as [|c chunks IH]; intros w lsn HS HF Hl; cbn [push_all]; [eauto|].
  apply Forall_cons_1 in HF as [Hc HF]. cbn [concat] in Hl. rewrite zlen_app in Hl.
  pose proof (zlen_nonneg (concat chunks)).
  destruct (safe_push w lsn c HS Hc ltac:(lia)) as (w1 & r1 & -> & H1).
  destruct r1 as [n|e]; [|eauto]. destruct (H1 n eq_refl) as [HS1 L1]. apply IH; [done|done|lia].
Qed.

Lemma push_keeps_torn w lsn data :
  match push w lsn data with Some (w', _) => torn w = true -> torn w' = true | None => True end.
Proof.
  unfold push. destruct (poisoned _); [done|]. destruct (negb _); [done|].
  destruct (digest_raw _ _ _) as [s|]; [|done].
  pose proof (push_loop_keeps (S (length data)) (on_ws (fun _ => s) w) lsn data) as HK.
  destruct (push_loop _ _ _ _) as [[w1 [n|e]]|]; [| |done]; destruct HK as [_ HK]; done.
Qed.

Lemma push_all_keeps chunks : forall w lsn,
  match push_all w lsn chunks with Some (w', _) => torn w = true -> torn w' = true | None => True end.
Proof.
  induction chunks as [|c chunks IH]; intros w lsn; cbn [push_all]; [done|].
  pose proof (push_keeps_torn w lsn c) as HK. destruct (push w lsn c) as [[w1 [n|e]]|]; [|done|done].
  specialize (IH w1 n). destruct (push_all w1 n chunks) as [[w2 r2]|]; [|done]. auto.
Qed.

Lemma push_loop_next fuel : forall w lsn data w' n,
  0 < s_seg_size (ws w) -> push_loop fuel w lsn data = Some (w', Ok n) -> n = lsn + zlen data.
Proof.
  induction fuel as [|fuel IH]; intros w lsn data w' n Hs; cbn [push_loop];
    (destruct data as [|b0 data0]; [intros [= _ <-]; unfold zlen; simpl; lia|]); [done|].
  set (data := b0 :: data0). assert (Hpos : 0 < zlen data) by (unfold data; zlen). clearbody data.
  set (take := Z.min _ _). pose proof (feed_keeps w lsn (ztake take data)) as HK.
  destruct (feed _ _ _) as [w1 [[]|e]]; [|done]. destruct HK as [E1 _].
  pose proof (seal_keeps (segment_fuel w1) w1) as HK. destruct (drain_and_seal _ _) as [[w2 [[]|e]]|]; [|done|done].
  destruct HK as [E2 _]. assert (Es : s_seg_size (ws w2) = s_seg_size (ws w)) by (unfold outer in *; congruence).
  intros E. apply IH in E; [|lia]. rewrite E. zlen.
Qed.

Lemma digest_push base seg src w data w' n :
  crc32c_append 0 [] = 0 -> (forall c a b, crc32c_append (crc32c_append c a) b = crc32c_append c (a ++ b)) ->
  0 < seg -> base mod seg = 0 -> digest_at base seg src (ws w) ->
  push w (next_lsn (ws w)) data = Some (w', Ok n) ->
  digest_at base seg (src ++ data) (ws w') /\ n = next_lsn (ws w').
Proof.
  intros Hnil Happ Hseg Hbase HD. unfold push. destruct (poisoned _); [done|]. rewrite Z.eqb_refl. cbn [negb].
  destruct (digest_raw_spec Hnil Happ base seg Hseg src (ws w) data Hbase HD) as (crc & -> & Hcrc).
  destruct HD as (H1 & H2 & _). set (w1 := on_ws _ w).
  destruct (push_loop (S (length data)) w1 _ data) as [[w2 [m|e]]|] eqn:E; [|done|done].
  pose proof (push_loop_keeps (S (length data)) w1 (next_lsn (ws w)) data) as HK. rewrite E in HK. destruct HK as [HK _].
  apply push_loop_next in E; [|simpl; lia]. intros [= <- <-]. split; [|done].
  unfold outer in HK. simpl in HK. injection HK as K1 K2 K3 K4 K5 K6. split; [|split].
  - simpl. rewrite E, H1, zlen_app. lia.
  - simpl. congruence.
  - unfold fork_prefix. simpl. rewrite K1, K2, Hcrc, E. done.
Qed.

(** ** The guarantees *)

(** The digest a fork is verified against is that of the source bytes.
    After any pushes, however chunked, [fork_prefix] covers exactly the bytes
    consumed of the segment the stream is filling, from its start to the
    frontier, and its CRC is the CRC of those raw bytes, though the buffer has
    been rewritten. *)
Theorem fork_prefix_spec tli seg base s c chunks w' n :
  crc32c_append 0 [] = 0 -> (forall c a b, crc32c_append (crc32c_append c a) b = crc32c_append c (a ++ b)) ->
  0 < seg -> new tli seg base = Ok s -> push_all (start s c) base chunks = Some (w', Ok n) ->
  n = base + zlen (concat chunks) /\
  fork_prefix (ws w') = MkFork (align_down n seg) n (crc32c_append 0 (zdrop (align_down n seg - base) (concat chunks))).
Proof.
  intros Hnil Happ Hseg Hnew. assert (Hbase : base mod seg = 0).
  { unfold new, is_multiple_of in Hnew. by destruct (Z.eqb_spec (base mod seg) 0). }
  assert (Hgo : forall chunks src w lsn, digest_at base seg src (ws w) -> lsn = next_lsn (ws w) ->
    push_all w lsn chunks = Some (w', Ok n) -> n = next_lsn (ws w') /\ digest_at base seg (src ++ concat chunks) (ws w')).
  { clear chunks. induction chunks as [|ch chunks IH]; intros src w lsn HD ->; cbn [push_all concat].
    { intros [= <- <-]. rewrite app_nil_r. done. }
    destruct (push w _ ch) as [[w1 [m|e]]|] eqn:E; [|done|done].
    destruct (digest_push _ _ _ _ _ _ _ Hnil Happ Hseg Hbase HD E) as [HD1 ->]. intros Hp.
    destruct (IH _ _ _ HD1 eq_refl Hp) as [? ?]. by rewrite app_assoc. }
  intros Hp. unfold new in Hnew. destruct (negb _) in Hnew; [done|]. injection Hnew as <-.
  edestruct (Hgo chunks []) as [-> (E1 & _ & E3)]; [| |exact Hp|]; [|done|].
  - split; [unfold zlen; simpl; lia|]. split; [done|]. unfold fork_prefix. simpl.
    unfold align_down. rewrite Hbase, Z.sub_0_r. rewrite Z.sub_diag, zdrop_0. by rewrite Hnil.
  - split; [exact E1|exact E3].
Qed.


(** What happens to one completed record.  The sink gets the parse of its
    original bytes.  A record routed to the decoder alone is replaced in the
    buffer by its NOOP, stitched across pages or in place; one that shadow
    replays stays as the source sent it.  Either way no byte outside the
    record changes and nothing has been sent yet. *)
Theorem filter_record_spec w r w' p v :
  WF (walker (ws w)) -> CompletedOk (buf (walker (ws w))) r -> cache_ok (cache w) ->
  filter_record w r = Some (w', Ok (p, v)) ->
  let b := buf (walker (ws w)) in
  let b' := buf (walker (ws w')) in
  parse_record_from_bytes (gather b (byte_ranges r)) (rec_magic r) = Ok p /\
  log w' = log w /\ zlen b' = zlen b /\ (forall i, ~ inside (byte_ranges r) i -> zget b' i = zget b i) /\
  gather b' (byte_ranges r) =
    (if bool_decide (v_route v = ToDecoder) then noop_of (gather b (byte_ranges r)) else gather b (byte_ranges r)).
Proof.
  intros HW HC Hc E. simpl. destruct (filter_record_effect w r (wf_bytes _ HW) HC Hc) as (w1 & res & E' & Hl & _ & HF).
  rewrite E in E'. injection E' as <- <-. destruct (HF p v eq_refl) as (Hp & f & c & b' & -> & _ & Hk & Hr).
  split; [done|]. split; [done|]. simpl. case_bool_decide as Hd.
  - destruct (Hr Hd) as [R1 R2 R3 R4 R5]. done.
  - rewrite (Hk Hd). done.
Qed.
End Pump.

(** ** A runtime to evaluate

    A checksum with the laws of CRC32C's append, a parser that reads the
    resource manager and gives heap records a user block, sinks that accept. *)
Definition sum_crc (c : Z) (data : list Z) : Z := wrap 32 (fold_left Z.add data c).

Lemma sum_crc_fits c data : fits 32 (sum_crc c data).
Proof. apply wrap_fits. lia. Qed.

Lemma fold_add l : forall c, fold_left Z.add l c = c + fold_left Z.add l 0.
Proof.
  induction l as [|x l IH]; intros c; cbn [fold_left]; [lia|]. rewrite (IH (c + x)), (IH (0 + x)). lia.
Qed.

Lemma sum_crc_app c a b : sum_crc (sum_crc c a) b = sum_crc c (a ++ b).
Proof.
  unfold sum_crc, wrap. rewrite fold_left_app, (fold_add b (_ mod _)), (fold_add b (fold_left _ _ _)).
  by rewrite Z.add_mod_idemp_l by lia.
Qed.

Definition toy_parse (b : list Z) (_ : Z) : result Z XLogRecord :=
  Ok (MkRecord (byte_at b 17) (byte_at b 16) (u32_at b 4) (zlen b) 0
       (if byte_at b 17 =? RM_HEAP then [MkBlock (MkRfn 1663 5 20000) 0 false (MkImage 0 0 0) [] []] else []) []).

Definition toy_runtime : Runtime :=
  MkRuntime toy_parse sum_crc (fun _ _ => None) (fun _ r => bool_decide (route r = ToShadow)) (fun _ _ => []) None (fun _ => true).

(** One page: a kept record at 24, a heap record at 56, zeros. *)
Definition toy_rec (rm : Z) : list Z := [32; 0; 0; 0] ++ zrep 13 0 ++ [rm] ++ zrep 14 5.

Definition toy_page : list Z := [0x10; 0xD1; 0; 0] ++ zrep 20 0 ++ toy_rec 0 ++ toy_rec 10 ++ zrep 8104 0.

Definition toy_stream : WalStream :=
  MkStream 1 8192 0 0 (Walker.new 8192) Filter.new 0 [] 0 0 0 false None.

Lemma toy_page_ok : bytes_ok toy_page.
Proof.
  unfold toy_page, toy_rec. repeat (apply Forall_app; split); try (apply Forall_replicate; unfold byte_ok; lia);
    repeat constructor; unfold byte_ok; lia.
Qed.

(** The page in two chunks. *)
Definition toy_chunks : list (list Z) := [ztake 70 toy_page; zdrop 70 toy_page].

Lemma toy_chunks_ok : Forall bytes_ok toy_chunks.
Proof.
  pose proof toy_page_ok as H. rewrite <- (ztake_zdrop_id 70 toy_page) in H. apply Forall_app in H as [H1 H2].
  constructor; [exact H1|]. constructor; [exact H2|constructor].
Qed.

Notation toy_push chunks := (@push_all Fpi.toy_codecs toy_runtime (start toy_stream ∅) 0 chunks).


Lemma toy_half_runs : option_map snd (toy_push [ztake 70 toy_page]) = Some (Ok 70).
Proof. vm_compute. reflexivity. Qed.

(** The stream half-way into the page. *)
Lemma fork_prefix_spec_witness :
  exists w', toy_push [ztake 70 toy_page] = Some (w', Ok 70) /\
    fork_prefix (ws w') = MkFork 0 70 (sum_crc 0 (ztake 70 toy_page)).
Proof.
  pose proof toy_half_runs as H. destruct (toy_push [ztake 70 toy_page]) as [[w' r]|] eqn:E; [|discriminate H].
  cbn in H. injection H as ->. exists w'. split; [reflexivity|].
  destruct (@fork_prefix_spec Fpi.toy_codecs toy_runtime 1 8192 0 toy_stream ∅ [ztake 70 toy_page] w' 70) as [_ E2].
  - reflexivity.
  - apply sum_crc_app.
  - lia.
  - reflexivity.
  - exact E.
  - exact E2.
Defined.

Definition toy_world : World := MkWorld (set_walker (Walker.extend (Walker.new 8192) toy_page) toy_stream) [] ∅ false.

(** The heap record, decided on its own. *)
Definition toy_heap : CompletedRecord := MkCompleted None [(56, 32)] 56 0xD110.

Lemma toy_heap_decided :
  option_map (fun x => match snd x with Ok (_, v) => Some (v_route v) | Err _ => None end)
    (@filter_record Fpi.toy_codecs toy_runtime toy_world toy_heap) = Some (Some ToDecoder).
Proof. vm_compute. reflexivity. Qed.

Lemma filter_record_spec_witness :
  exists w' p v, @filter_record Fpi.toy_codecs toy_runtime toy_world toy_heap = Some (w', Ok (p, v)) /\
    gather (buf (walker (ws w'))) [(56, 32)] = @noop_of toy_runtime (gather (buf (walker (ws toy_world))) [(56, 32)]).
Proof.
  pose proof toy_heap_decided as Hd.
  destruct (@filter_record Fpi.toy_codecs toy_runtime toy_world toy_heap) as [[w' [[p v]|e]]|] eqn:E; [|discriminate Hd..].
  cbn in Hd. injection Hd as Ev. exists w', p, v. split; [reflexivity|].
  destruct (@filter_record_spec Fpi.toy_codecs toy_runtime sum_crc_fits toy_world toy_heap w' p v) as (_ & _ & _ & _ & H).
  - apply extend_wf; [apply new_wf|apply toy_page_ok].
  - apply fresh_record_ok; [lia|lia|vm_compute; congruence|vm_compute; reflexivity].
  - apply Rewrite.empty_cache_ok.
  - exact E.
  - rewrite Ev in H. exact H.
Defined.
End WalStreamProofs.
