(* ===== verification/WalWire.v ===== *)
(** * The shadow wire and the dispatch order

    The log of sink calls a pump makes, whatever the sinks answer: the wire is
    the archive, and records dispatch behind it. *)
From stdpp Require Import sorting.
From S2P Require Import Prelude WalPage Walker WalkerLow WalRecord Fpi Filter Rewrite ResumePrefix WalStream.
From S2P Require Import WalStreamProofs.

Module WalWire.
Import WalPage Walker WalkerLow WalRecord WalStream WalStreamProofs.

(** Bytes shipped, bytes archived, records dispatched. *)
Definition wire_of (e : Event) : list Z := match e with Wire _ b => b | _ => [] end.
Definition arch_of (e : Event) : list Z := match e with Segment _ b => b | _ => [] end.
Definition rec_of (e : Event) : list Rec := match e with Dispatch r => [r] | _ => [] end.

Definition wired (l : list Event) : list Z := concat (map wire_of l).
Definition archived (l : list Event) : list Z := concat (map arch_of l).
Definition dispatched (l : list Event) : list Rec := concat (map rec_of l).

Lemma wired_app a b : wired (a ++ b) = wired a ++ wired b.
Proof. unfold wired. by rewrite map_app, concat_app. Qed.

Lemma archived_app a b : archived (a ++ b) = archived a ++ archived b.
Proof. unfold archived. by rewrite map_app, concat_app. Qed.

Lemma dispatched_app a b : dispatched (a ++ b) = dispatched a ++ dispatched b.
Proof. unfold dispatched. by rewrite map_app, concat_app. Qed.

(** The name of the segment that starts at a position. *)
Definition names (tli seg lsn : Z) (n : ResumePrefix.SegmentName) : Prop :=
  n = ResumePrefix.MkSeg tli (wrap 32 (lsn / seg / (0x100000000 / seg))) (wrap 32 ((lsn / seg) mod (0x100000000 / seg))).

Section Wire.
Context `{C : Fpi.Codecs} `{R : Runtime}.
Hypothesis crc_fits : forall c data, fits 32 (crc32c_append c data).
Variables (base seg : Z).
Hypothesis base_pos : 0 <= base.
Hypothesis seg_pos : 0 < seg.

Notation cache_ok := (Rewrite.cache_ok crc32c_append).

(** A call is right after the calls before it. *)
Definition ev_ok (pre : list Event) (e : Event) : Prop :=
  let wire_end := base + zlen (wired pre) in
  let sealed := zlen (archived pre) in
  match e with
  | Wire lsn _ => lsn = wire_end
  | Segment n b => b = sub (wired pre) sealed (sealed + seg) /\ zlen b = seg /\ exists tli, names tli seg (base + sealed) n
  | Retired lsn => lsn + seg = base + sealed
  | Dispatch r =>
      source_lsn r + 24 <= wire_end /\
      (is_switch (parsed r) = false -> rec_next_lsn r <= wire_end + 7) /\
      ((forall h, h `prefix_of` pre -> may_park h r = true) -> wire_end <= rec_next_lsn r) /\
      Forall (fun q => source_lsn q < source_lsn r) (dispatched pre)
  end.

Definition log_ok (l : list Event) : Prop := forall pre e post, l = pre ++ e :: post -> ev_ok pre e.

Lemma log_ok_nil : log_ok [].
Proof. intros pre e post H. by destruct pre. Qed.

Lemma log_ok_snoc l e : log_ok l -> ev_ok l e -> log_ok (l ++ [e]).
Proof.
  intros Hl He pre e' post E. destruct post as [|x post] using rev_ind.
  - apply app_inj_tail in E as [-> ->]. done.
  - clear IHpost. rewrite app_comm_cons, app_assoc in E. apply app_inj_tail in E as [-> _]. by apply (Hl pre e' post).
Qed.

(** A staged record, against the wire's end once it ships. *)
Definition Covered (wire_end : Z) (r : Rec) : Prop :=
  source_lsn r + 24 <= wire_end /\ (is_switch (parsed r) = false -> rec_next_lsn r <= wire_end + 7).

Definition calm (l : list Event) (r : Rec) : Prop := exists h, h `prefix_of` l /\ may_park h r = false.

Definition in_order (rs : list Rec) : Prop := StronglySorted Z.lt (map source_lsn rs).

Lemma in_order_mid a r b : in_order (a ++ r :: b) -> Forall (fun q => source_lsn q < source_lsn r) a.
Proof.
  unfold in_order. induction a as [|x a IH]; simpl; intros H; [constructor|].
  inversion_clear H as [|? ? H1 H2]. constructor; [|by apply IH].
  rewrite map_app in H2. apply Forall_app in H2 as [_ H2]. by inversion_clear H2.
Qed.

Lemma in_order_snoc a r :
  in_order a -> Forall (fun q => source_lsn q < source_lsn r) a -> in_order (a ++ [r]).
Proof.
  unfold in_order. induction a as [|x a IH]; simpl; intros H HF; [repeat constructor|].
  inversion_clear H as [|? ? H1 H2]. apply Forall_cons_1 in HF as [Hx HF]. constructor; [by apply IH|].
  rewrite map_app. apply Forall_app. split; [done|]. by repeat constructor.
Qed.

(** Dispatching changes neither bytes nor what was archived. *)
Lemma dispatch_all_log rs : forall w w' res,
  let wire_end := base + zlen (wired (log w)) in
  log_ok (log w) -> in_order (dispatched (log w) ++ rs) ->
  Forall (fun r => Covered wire_end r /\ (calm (log w) r \/ wire_end <= rec_next_lsn r)) rs ->
  dispatch_all w rs = (w', res) ->
  log_ok (log w') /\ wired (log w') = wired (log w) /\ archived (log w') = archived (log w) /\
  (res = Ok tt -> dispatched (log w') = dispatched (log w) ++ rs).
Proof.
  induction rs as [|r rs IH]; intros w w' res wire_end Hl Ho HF; simpl.
  { intros [= <- _]. rewrite app_nil_r. done. }
  apply Forall_cons_1 in HF as [[[Hc1 Hc2] Hp] HF]. set (w1 := MkWorld _ _ _ _).
  assert (Hl1 : log_ok (log w1)).
  { apply log_ok_snoc; [done|]. split; [done|]. split; [done|]. split; [|by eapply in_order_mid].
    intros Hpark. destruct Hp as [(h & Hh & Hf)|Hp]; [|done]. by rewrite (Hpark h Hh) in Hf. }
  assert (E1 : wired (log w1) = wired (log w) /\ archived (log w1) = archived (log w) /\
    dispatched (log w1) = dispatched (log w) ++ [r]).
  { simpl. rewrite wired_app, archived_app, dispatched_app. unfold wired at 2, archived at 2, dispatched at 2. simpl.
    by rewrite !app_nil_r. }
  destruct E1 as (E1 & E2 & E3). destruct (sink _ _); intros H.
  { injection H as <- <-. done. }
  destruct (IH w1 w' res) as (G1 & G2 & G3 & G4); try done.
  - rewrite E3, <- app_assoc. done.
  - rewrite E1. eapply Forall_impl; [|exact HF]. intros q [Hq1 Hq2]. split; [done|].
    destruct Hq2 as [(h & Hh & Hf)|]; [left|by right]. exists h. split; [|done]. simpl. by apply prefix_app_r.
  - rewrite G2, G3, E1, E2. split; [done|]. do 2 (split; [done|]). intros Hr. rewrite (G4 Hr), E3, <- app_assoc. done.
Qed.

(** ** The state behind the log

    [F] is how far the source has been read, [m] a mark below which the buffer
    is final. *)
Section Frontier.
Variable F : Z.

Record Core (m : Z) (w : World) : Prop := mkCore
  { cr_safe : Safe w;
    cr_seg : s_seg_size (ws w) = seg;
    cr_cur : current_lsn (ws w) = base + zlen (archived (log w));
    cr_lim : current_lsn (ws w) + zlen (buf (walker (ws w))) = F /\ F + 2 * seg < 2 ^ 64;
    cr_wire : wire_offset (ws w) <= m /\ wire_offset (ws w) <= zlen (buf (walker (ws w)));
    cr_same : wired (log w) = archived (log w) ++ ztake (wire_offset (ws w)) (buf (walker (ws w)));
    cr_end : staged_end (ws w) <= m;
    cr_order : in_order (dispatched (log w) ++ staged (ws w));
    cr_past : Forall (fun r => source_lsn r + 24 <= current_lsn (ws w) + m) (dispatched (log w) ++ staged (ws w));
    cr_log : log_ok (log w) }.

Definition Calm (w : World) : Prop :=
  Forall (fun r => Covered (current_lsn (ws w) + staged_end (ws w)) r /\ calm (log w) r) (staged (ws w)).

Lemma core_mono m m' w : Core m w -> m <= m' -> Core m' w.
Proof.
  intros [H1 H2 H3 H4 H5 H6 H7 H8 H9 H10] Hm. split; try done; try lia.
  eapply Forall_impl; [|exact H9]. simpl. lia.
Qed.

Lemma core_wire_end m w : Core m w -> base + zlen (wired (log w)) = current_lsn (ws w) + wire_offset (ws w).
Proof.
  intros [H1 H2 H3 H4 H5 H6 _ _ _ _]. destruct H1 as [_ _ Hw _ _ _ _]. rewrite H6, zlen_app, zlen_ztake. lia.
Qed.

(** Shipping a stretch that follows the wire. *)
Lemma core_ship m w to chunk :
  Core m w -> wire_offset (ws w) < to -> to <= zlen (buf (walker (ws w))) ->
  get_range (buf (walker (ws w))) (wire_offset (ws w)) to = Some chunk ->
  let l := log w ++ [Wire (uadd 64 (current_lsn (ws w)) (wire_offset (ws w))) chunk] in
  log_ok l /\ wired l = archived l ++ ztake to (buf (walker (ws w))) /\ archived l = archived (log w) /\
  dispatched l = dispatched (log w).
Proof.
  intros HC Hlt Hle Hg l. pose proof (core_wire_end _ _ HC) as He. destruct HC as [H1 H2 H3 H4 H5 H6 _ _ _ H10].
  pose proof (sf_wire _ H1) as Hw. unfold get_range in Hg. destruct (_ && _); [|done]. injection Hg as <-.
  assert (Hz : archived l = archived (log w) /\ dispatched l = dispatched (log w)).
  { unfold l. rewrite archived_app, dispatched_app. unfold archived at 2, dispatched at 2. simpl. by rewrite !app_nil_r. }
  destruct Hz as [Hz1 Hz2]. split; [|split; [|done]].
  - apply log_ok_snoc; [done|]. simpl. rewrite uadd_small; [lia|]. unfold fits.
    pose proof (zlen_nonneg (archived (log w))). lia.
  - unfold l at 1. rewrite wired_app, Hz1, H6, <- app_assoc. f_equal. unfold wired. simpl. rewrite app_nil_r.
    unfold sub. rewrite <- (ztake_zdrop_id (wire_offset (ws w)) (ztake to (buf (walker (ws w))))).
    rewrite ztake_ztake, Z.min_l by lia. f_equal. unfold ztake, zdrop. rewrite skipn_firstn_comm. f_equal. lia.
Qed.

(** The shipping half of [dispatch_staged]: it fails, or hands the records to
    the dispatch loop with the wire moved to the end of their bytes. *)
Lemma dispatch_shape m w w' res :
  Core m w -> dispatch_staged w = Some (w', res) ->
  (log_ok (log w') /\ res <> Ok tt) \/
  exists l, let to := Z.max (wire_offset (ws w)) (staged_end (ws w)) in
    log_ok l /\ wired l = archived l ++ ztake to (buf (walker (ws w))) /\ archived l = archived (log w) /\
    dispatched l = dispatched (log w) /\ log w `prefix_of` l /\
    dispatch_all (MkWorld (set_staged [] (staged_end (ws w)) (set_wire_offset to (ws w))) l (cache w) (torn w))
      (staged (ws w)) = (w', res).
Proof.
  intros HC. unfold dispatch_staged, ship. pose proof (sf_end _ (cr_safe _ _ HC)) as [_ Hse].
  destruct (Z.ltb_spec (wire_offset (ws w)) (staged_end (ws w))) as [Hlt|Hge].
  - destruct (get_range _ _ _) as [chunk|] eqn:Eg; [|done].
    destruct (core_ship _ _ _ _ HC Hlt Hse Eg) as (L1 & L2 & L3 & L4). unfold emit.
    destruct (sink _ _); [intros [= <- <-]; left; by split|]. simpl. intros [= E]. right.
    rewrite Z.max_r by lia. eexists. split; [exact L1|]. split; [done|]. split; [done|]. split; [done|].
    split; [by apply prefix_app_r|]. exact E.
  - intros [= E]. right. rewrite Z.max_l by lia. exists (log w). split; [apply HC|]. split; [apply HC|]. do 2 (split; [done|]).
    split; [done|]. rewrite <- E. f_equal.
Qed.

(** Dispatching from a state whose last staged record may be a parking one. *)
Lemma core_dispatch m w w' res :
  Core m w ->
  Forall (fun r => Covered (current_lsn (ws w) + staged_end (ws w)) r /\
    (calm (log w) r \/ current_lsn (ws w) + Z.max (wire_offset (ws w)) (staged_end (ws w)) <= rec_next_lsn r)) (staged (ws w)) ->
  dispatch_staged w = Some (w', res) ->
  log_ok (log w') /\ (res = Ok tt -> Core m w' /\ staged (ws w') = [] /\ walker (ws w') = walker (ws w)).
Proof.
  intros HC HF E. pose proof HC as [H1 H2 H3 H4 H5 H6 H7 H8 H9 H10].
  destruct (safe_dispatch w H1) as (w2 & res2 & E2 & Hsafe). rewrite E in E2. injection E2 as <- <-.
  destruct (dispatch_shape _ _ _ _ HC E) as [[Hl Hr]|(l & G1 & G2 & G3 & G4 & G5 & Ed)]; [by split|].
  pose proof (sf_wire _ H1) as Hw. pose proof (sf_end _ H1) as Hse.
  set (to := Z.max (wire_offset (ws w)) (staged_end (ws w))) in *.
  assert (Hend : base + zlen (wired l) = current_lsn (ws w) + to).
  { rewrite G2, G3, zlen_app, zlen_ztake. lia. }
  destruct (dispatch_all_frame _ _ _ _ Ed) as (F1 & _ & _). simpl in F1.
  set (w1 := MkWorld (set_staged _ _ _) l _ _) in Ed.
  destruct (dispatch_all_log (staged (ws w)) w1 w' res) as (L1 & L2 & L3 & L4); [done|simpl; by rewrite G4| |done|].
  { simpl. rewrite Hend. eapply Forall_impl; [|exact HF]. intros r [[Hr1 Hr2] Hr3].
    split; [split; [lia|intros Hsw; specialize (Hr2 Hsw); lia]|].
    destruct Hr3 as [(h & Hh & Hf)|Hr3]; [left; exists h; split; [by etransitivity|done]|by right]. }
  simpl in L2, L3, L4. split; [done|]. intros Hr. destruct (Hsafe Hr) as [Hs' Hwk]. specialize (L4 Hr).
  split; [|by rewrite F1]. split; rewrite ?F1; simpl; rewrite ?L2, ?L3, ?L4, ?G4, ?app_nil_r; try done; try lia. by rewrite G3.
Qed.

(** Rewriting above the mark keeps the core. *)
Lemma core_rewrite m w f c b' :
  Core m w -> cache_ok c -> WF (set_buf (walker (ws w)) b') -> zlen b' = zlen (buf (walker (ws w))) ->
  (forall n, n <= m -> ztake n b' = ztake n (buf (walker (ws w)))) ->
  Core m (MkWorld (set_walker (set_buf (walker (ws w)) b') (set_filter f (ws w))) (log w) c (torn w)).
Proof.
  intros [[S1 S2 S3 S4 S5 S6 S7] H2 H3 H4 H5 H6 H7 H8 H9 H10] Hc HW Hl Hb.
  split; simpl; rewrite ?Hl; try done.
  - split; simpl; rewrite ?Hl; done.
  - rewrite Hb by lia. done.
Qed.

(** The end pointer of a record whose last range ends at [off + len]. *)
Lemma end_rec_ptr_bounds s off len r :
  s_seg_size s = seg -> 0 <= current_lsn s -> 0 <= off -> 0 < len ->
  current_lsn s + (off + len) + 2 * seg < 2 ^ 64 -> 8 <= seg ->
  current_lsn s + (off + len) <= end_rec_ptr s (off, len) r /\
  (is_switch r = false -> end_rec_ptr s (off, len) r <= current_lsn s + (off + len) + 7).
Proof.
  intros Hs Hc Ho Hl Hlim H8. unfold end_rec_ptr. rewrite Hs. unfold X_LOG_RECORD_ALIGNMENT.
  pose proof (align_up_8_bounds len) as Ha. set (al := align_up len 8) in *.
  assert (E : uadd 64 (uadd 64 (current_lsn s) off) al = current_lsn s + off + al).
  { rewrite (uadd_small 64 (current_lsn s)) by (unfold fits; lia). apply uadd_small. unfold fits. lia. }
  rewrite E. destruct (is_switch r); [|split; [lia|intros _; lia]]. split; [|done].
  rewrite uadd_small by (unfold fits; lia).
  pose proof (Z.mod_pos_bound (current_lsn s + off + al + (seg - 1)) seg seg_pos). lia.
Qed.

(** A record just staged: the state either dispatches or may wait for more. *)
Lemma core_stage w r p v w2 full :
  Core (start_offset r) w -> Calm w -> byte_ranges r <> [] -> 0 <= start_offset r -> 24 <= ranges_len (byte_ranges r) ->
  ranges_in (start_offset r) (byte_ranges r) (zlen (buf (walker (ws w)))) -> 8 <= seg ->
  stage_record w r p v = (w2, full) ->
  let '(off, len) := last_range r in
  Core (off + len) w2 /\ walker (ws w2) = walker (ws w) /\
  Forall (fun q => Covered (current_lsn (ws w2) + staged_end (ws w2)) q /\
    (calm (log w2) q \/ current_lsn (ws w2) + Z.max (wire_offset (ws w2)) (staged_end (ws w2)) <= rec_next_lsn q)) (staged (ws w2)) /\
  (full = false -> Calm w2).
Proof.
  intros HC HA Hne Hlo Hmin Hrg H8. unfold stage_record.
  pose proof (ranges_last _ _ _ Hne Hrg) as HR. unfold last_range.
  destruct (List.last (byte_ranges r) (0, 0)) as [off len]. destruct HR as ([HR1 HR2] & HR3 & HR4).
  destruct HC as [S1 S2 S3 S4 S5 S6 S7 S8 S9 S10]. pose proof (sf_wire _ S1) as Hw. pose proof (sf_end _ S1) as Hse.
  pose proof (zlen_nonneg (archived (log w))) as Hza.
  destruct (end_rec_ptr_bounds (ws w) off len p S2 ltac:(lia) ltac:(lia) ltac:(lia) ltac:(lia) H8) as [Hn1 Hn2].
  assert (Hsrc : uadd 64 (current_lsn (ws w)) (start_offset r) = current_lsn (ws w) + start_offset r)
    by (apply uadd_small; unfold fits; lia).
  rewrite Hsrc. set (q := MkRec _ _ _ _ _ _ _ _ _). intros [= <- <-]. simpl.
  rewrite (Z.max_r (staged_end (ws w)) (off + len)) by lia.
  assert (Hq : Covered (current_lsn (ws w) + (off + len)) q) by (split; simpl; [lia|done]).
  assert (HA' : Forall (fun x => Covered (current_lsn (ws w) + (off + len)) x /\ calm (log w) x) (staged (ws w))).
  { eapply Forall_impl; [|exact HA]. intros x [[Hx1 Hx2] Hx3]. split; [|done].
    split; [lia|]. intros Hsw. specialize (Hx2 Hsw). lia. }
  split; [|split; [done|split]].
  - split; simpl; try done; try lia.
    + destruct S1. split; simpl; try done. lia.
    + rewrite app_assoc. apply in_order_snoc; [done|]. eapply Forall_impl; [|exact S9]. simpl. lia.
    + rewrite app_assoc. apply Forall_app. split; [|repeat constructor; simpl; lia].
      eapply Forall_impl; [|exact S9]. simpl. lia.
  - apply Forall_app. split.
    + eapply Forall_impl; [|exact HA']. intros x [Hx1 Hx2]. split; [done|by left].
    + apply Forall_singleton. split; [exact Hq|right; unfold q; cbn [rec_next_lsn]; lia].
  - intros Hf. apply orb_false_iff in Hf as [Hf _]. apply orb_false_iff in Hf as [Hf _].
    unfold Calm. simpl. apply Forall_app. split; [done|].
    apply Forall_singleton. split; [exact Hq|]. by exists (log w).
Qed.

Lemma core_handle w r w' res :
  Core (start_offset r) w -> Calm w -> CompletedOk (buf (walker (ws w))) r -> pending (walker (ws w)) = None ->
  ranges_in (start_offset r) (byte_ranges r) (page_cursor (walker (ws w))) -> 8 <= seg ->
  handle_record w r = Some (w', res) ->
  log_ok (log w') /\
  (res = Ok tt -> Core (page_cursor (walker (ws w))) w' /\ Calm w' /\ exists b, walker (ws w') = set_buf (walker (ws w)) b).
Proof.
  intros HC HA HCo Hp Hrg H8. unfold handle_record. pose proof (cr_safe _ _ HC) as HS.
  destruct (filter_record_effect crc_fits w r (wf_bytes _ (sf_wf _ HS)) HCo (sf_cache _ HS)) as (w1 & r1 & -> & El & _ & HF).
  destruct r1 as [[p v]|e]; [|intros [= <- <-]; split; [rewrite El; apply HC|done]].
  destruct (HF p v eq_refl) as (_ & f & c & b' & -> & Hc & Hk & Hr). clear HF El.
  assert (Hb : zlen b' = zlen (buf (walker (ws w))) /\ bytes_ok b' /\
    (forall n, n <= start_offset r -> ztake n b' = ztake n (buf (walker (ws w))))).
  { destruct (decide (Filter.v_route v = ToDecoder)) as [E|E]; [by destruct (Hr E)|].
    rewrite (Hk E). repeat split; try done. apply HS. }
  destruct Hb as (Hl & Hbo & Hbelow). clear Hk Hr.
  assert (Hne : byte_ranges r <> []) by (destruct (co_first _ _ HCo) as (l & rest & ->); done).
  pose proof (core_rewrite _ _ f c b' HC Hc (set_buf_wf _ _ (sf_wf _ HS) Hp Hl Hbo) Hl Hbelow) as HC1.
  set (w1 := MkWorld _ _ _ _) in *.
  assert (HA1 : Calm w1) by exact HA.
  destruct (stage_record w1 r p v) as [w2 full] eqn:Es.
  pose proof (core_stage w1 r p v w2 full HC1 HA1 Hne (co_lo _ _ HCo) (co_min _ _ HCo)
    ltac:(simpl; rewrite Hl; apply (co_ranges _ _ HCo)) H8 Es) as HT. unfold last_range in HT.
  pose proof (ranges_last _ _ _ Hne Hrg) as HL. destruct (List.last (byte_ranges r) (0, 0)) as [off len].
  destruct HT as (HC2 & Hw2 & HF2 & HQ2). destruct HL as ([_ HL] & _).
  destruct full.
  - intros Ed. destruct (core_dispatch _ _ _ _ HC2 HF2 Ed) as [Hlog Hok]. split; [done|]. intros Hres.
    destruct (Hok Hres) as (HC3 & Hst & Hw3). split; [by eapply core_mono|].
    split; [unfold Calm; rewrite Hst; constructor|]. exists b'. rewrite Hw3, Hw2. done.
  - intros [= <- <-]. split; [apply HC2|]. intros _. split; [by eapply core_mono|]. split; [by apply HQ2|].
    exists b'. rewrite Hw2. done.
Qed.

(** ** The loops *)
Record Live (w : World) : Prop := mkLive
  { lv_core : Core (lw (walker (ws w))) w; lv_page : at_page (walker (ws w)); lv_calm : Calm w }.

Lemma core_drain fuel : forall w w' res,
  8 <= seg -> Live w -> drain_records fuel w = Some (w', res) -> torn w' = false ->
  log_ok (log w') /\ (res = Ok tt -> Live w' /\ staged (ws w') = []).
Proof.
  induction fuel as [|fuel IH]; intros w w' res H8 [HC HP HA]; cbn [drain_records]; [done|].
  pose proof (cr_safe _ _ HC) as HS.
  destruct (try_next_ok _ (sf_wf _ HS)) as (x & o & E & Ho & Hb & HW & Hy). rewrite E.
  pose proof (try_next_low _ _ _ (sf_wf _ HS) HP E) as [L1 L2 L3 L4]. set (w1 := MkWorld _ _ _ _).
  assert (HC1 : forall m, Core m w -> Core m w1).
  { intros m [[S1 S2 S3 S4 S5 S6 S7] T2 T3 T4 T5 T6 T7 T8 T9 T10]. split; simpl; rewrite ?Hb; try done.
    split; simpl; rewrite ?Hb, ?(try_next_seg _ _ _ E); done. }
  destruct o as [| |r|e]; [done| | |].
  - intros Ed Ht. destruct (core_dispatch (lw x) w1 w' res) as [Hlog Hok]; [|  |done|].
    + eapply core_mono; [by apply HC1|done].
    + eapply Forall_impl; [|exact HA]. intros q [Hq1 Hq2]. split; [done|by left].
    + split; [done|]. intros Hr. destruct (Hok Hr) as (HC2 & Hst & Hwk). split; [|done].
      split; [by rewrite Hwk| |unfold Calm; rewrite Hst; constructor]. rewrite Hwk. apply L4. done.
  - destruct (handle_record w1 r) as [[w2 r2]|] eqn:Eh; [|done].
    pose proof (handle_keeps w1 r) as HK. rewrite Eh in HK. destruct HK as [_ HK].
    destruct (L3 r eq_refl) as [Hp Hrg].
    destruct (core_handle w1 r w2 r2) as [Hlog Hok]; try done.
    { eapply core_mono; [by apply HC1|]. by apply L2. }
    { simpl. rewrite Hb. by apply Hy. }
    intros Hd Ht. destruct r2 as [[]|e]; [|injection Hd as <- <-; by split].
    assert (Ht2 : torn w2 = false).
    { pose proof (drain_keeps fuel w2) as HK2. rewrite Hd in HK2. destruct HK2 as [_ HK2].
      destruct (torn w2); [by rewrite HK2 in Ht|done]. }
    assert (Hcut : done_in_segment x = false).
    { destruct (done_in_segment x) eqn:Ex; [|done]. rewrite HK in Ht2; [done|]. simpl. by rewrite orb_true_r. }
    destruct (Hok eq_refl) as (HC2 & HA2 & b & Hwk). simpl in HC2, Hwk.
    apply (IH w2 w' res H8); [|done|done]. split; [|rewrite Hwk; apply L4; by intros ? _|done].
    rewrite Hwk. unfold lw. simpl. by rewrite Hp.
  - intros [= <- <-] _. split; [apply HC|done].
Qed.

Lemma ztake_split {A} (l : list A) n m : 0 <= n <= m -> ztake m l = ztake n l ++ ztake (m - n) (zdrop n l).
Proof.
  intros H. rewrite <- (ztake_zdrop_id n (ztake m l)), ztake_ztake, Z.min_l by lia. f_equal.
  unfold ztake, zdrop. rewrite skipn_firstn_comm. f_equal. lia.
Qed.

Lemma sub_from_0 {A} (l : list A) n : sub l 0 n = ztake n l.
Proof. unfold sub. by rewrite zdrop_0, Z.sub_0_r. Qed.

(** The wire tail: whatever of the segment has not shipped does. *)
Lemma flush_tail m w w1 r1 :
  Core m w -> seg <= zlen (buf (walker (ws w))) ->
  (if wire_offset (ws w) <? seg then ship w (wire_offset (ws w)) seg else Some (w, Ok tt)) = Some (w1, r1) ->
  log_ok (log w1) /\ ws w1 = ws w /\ cache w1 = cache w /\ torn w1 = torn w /\
  archived (log w1) = archived (log w) /\ dispatched (log w1) = dispatched (log w) /\
  wired (log w1) = archived (log w) ++ ztake (Z.max (wire_offset (ws w)) seg) (buf (walker (ws w))).
Proof.
  intros HC Hlen. destruct (Z.ltb_spec (wire_offset (ws w)) seg) as [Hlt|Hge].
  - unfold ship. destruct (get_range _ _ _) as [chunk|] eqn:Eg; [|done].
    destruct (core_ship _ _ _ _ HC Hlt Hlen Eg) as (L1 & L2 & L3 & L4). intros [= <- <-]. simpl.
    rewrite Z.max_r by lia. by rewrite L2, L3.
  - intros [= <- <-]. rewrite Z.max_l by lia. destruct HC. done.
Qed.

Lemma core_flush w w' res :
  seg mod PAGE_SIZE = 0 -> Live w -> staged (ws w) = [] -> try_flush_first_segment w = Some (w', res) ->
  log_ok (log w') /\
  (forall b, res = Ok b -> Live w' /\ staged (ws w') = []).
Proof.
  intros Hpg [HC HP HA] Hst E. pose proof HC as [HS H2 H3 H4 H5 H6 H7 H8 H9 H10].
  destruct (safe_flush w HS) as (w9 & r9 & E9 & Hsafe). rewrite E in E9. injection E9 as <- <-.
  pose proof (sf_seg _ HS) as [Hsg _]. rewrite H2 in Hsg. revert E.
  unfold try_flush_first_segment. destruct (first_segment_ready (walker (ws w))) eqn:ER; cbn [negb].
  2:{ intros [= <- <-]. split; [done|]. intros b _. by split. }
  pose proof ER as Hlen. apply andb_true_iff in Hlen as [Hlen%Z.leb_le _]. rewrite Hsg in Hlen.
  rewrite H2. destruct (if wire_offset (ws w) <? seg then _ else _) as [[w1 r1]|] eqn:E1; [|done].
  destruct (flush_tail _ _ _ _ HC Hlen E1) as (T1 & T2 & T3 & T4 & T5 & T6 & T7). clear E1.
  destruct r1 as [[]|e]; [|intros [= <- <-]; by split].
  destruct (get_range (buf (walker (ws w))) 0 seg) as [bytes|] eqn:Eg; [|done].
  assert (Hby : bytes = ztake seg (buf (walker (ws w)))).
  { unfold get_range in Eg. destruct (_ && _); [|done]. injection Eg as <-. apply sub_from_0. }
  pose proof (zlen_nonneg (archived (log w))) as Hza. pose proof (sf_wire _ HS) as Hw0.
  assert (Hzb : zlen bytes = seg) by (rewrite Hby; zlen).
  set (nm := segment_for_lsn (ws w) (current_lsn (ws w))). unfold emit.
  set (l2 := log w1 ++ [Segment nm bytes]). set (l3 := l2 ++ [Retired (current_lsn (ws w))]).
  assert (Hl2 : log_ok l2).
  { apply log_ok_snoc; [done|]. cbn [ev_ok]. rewrite T5, T7. split; [|split; [done|]].
    - rewrite sub_skip by lia. rewrite Z.sub_diag, Z.add_simpl_l, sub_from_0, ztake_ztake, Z.min_l by lia. done.
    - exists (timeline (ws w)). unfold nm, names, segment_for_lsn. by rewrite H2, <- H3. }
  assert (Ha2 : archived l2 = archived (log w) ++ bytes /\ wired l2 = wired (log w1) /\ dispatched l2 = dispatched (log w)).
  { unfold l2. rewrite archived_app, wired_app, dispatched_app, T5, T6.
    unfold archived at 2, wired at 2, dispatched at 2. simpl. by rewrite !app_nil_r. }
  destruct Ha2 as (A1 & A2 & A3).
  assert (Hl3 : log_ok l3).
  { apply log_ok_snoc; [done|]. cbn [ev_ok]. rewrite A1, zlen_app, Hzb. lia. }
  assert (Ha3 : archived l3 = archived (log w) ++ bytes /\ wired l3 = wired (log w1) /\ dispatched l3 = dispatched (log w)).
  { unfold l3. rewrite archived_app, wired_app, dispatched_app, A1, A2, A3.
    unfold archived at 2, wired at 3, dispatched at 2. simpl. by rewrite !app_nil_r. }
  destruct Ha3 as (B1 & B2 & B3).
  destruct (sink (log w1) (Segment nm bytes)); [intros [= <- <-]; by split|]. cbn [log on_ws].
  destruct (sink l2 _); [intros [= <- <-]; by split|]. intros [= <- <-]. split; [done|]. intros b Hb.
  destruct (Hsafe b Hb) as (HS' & Hz & _). injection Hb as <-. rewrite H2 in Hz.
  cbn [ws log current_lsn walker wire_offset staged staged_end set_current set_wire_offset set_staged set_walker on_ws] in *.
  rewrite T2 in *. fold l3 in HS' |- *.
  destruct (truncate_low (walker (ws w)) (sf_wf _ HS) HP ltac:(lia) ltac:(by rewrite Hsg) (sf_len _ HS) ER) as [Hat Hlw].
  destruct (truncate_frame (walker (ws w))) as (F1 & F2 & _). rewrite Hsg in *.
  assert (Hu : uadd 64 (current_lsn (ws w)) seg = current_lsn (ws w) + seg)
    by (apply uadd_small; unfold fits; zlen).
  split; [|done]. split; [|done|].
  - split; cbn [ws log current_lsn walker wire_offset staged staged_end s_seg_size set_current set_wire_offset set_staged set_walker on_ws];
      rewrite ?Hu, ?B1, ?B2, ?B3, ?F2, ?Hlw, ?T7, ?Hst, ?Hzb in *; unfold sat_sub; try done.
    + rewrite zlen_app, Hzb. lia.
    + zlen.
    + split; [lia|zlen].
    + rewrite <- app_assoc. f_equal. rewrite Hby. rewrite (ztake_split _ seg) by lia. do 2 f_equal. lia.
    + lia.
    + eapply Forall_impl; [|exact H9]. simpl. lia.
  - unfold Calm. cbn [ws staged set_current set_wire_offset set_staged set_walker on_ws]. rewrite Hst. constructor.
Qed.

Lemma core_seal fuel : forall w w' res,
  8 <= seg -> seg mod PAGE_SIZE = 0 -> Live w -> drain_and_seal fuel w = Some (w', res) -> torn w' = false ->
  log_ok (log w') /\ (res = Ok tt -> Live w' /\ staged (ws w') = []).
Proof.
  induction fuel as [|fuel IH]; intros w w' res H8 Hpg HL; cbn [drain_and_seal]; [done|].
  destruct (drain_records (record_fuel w) w) as [[w1 r1]|] eqn:Ed; [|done].
  destruct r1 as [[]|e]; [|intros [= <- <-] Ht; by destruct (core_drain _ _ _ _ H8 HL Ed Ht)].
  destruct (try_flush_first_segment w1) as [[w2 r2]|] eqn:Ef; [|done].
  pose proof (flush_keeps w1) as HK. rewrite Ef in HK. destruct HK as [_ HK].
  intros E Ht.
  assert (Ht2 : torn w2 = false).
  { destruct r2 as [[]|e]; [|by injection E as <- _..]. pose proof (seal_keeps fuel w2) as HK2. rewrite E in HK2.
    destruct HK2 as [_ HK2]. destruct (torn w2); [by rewrite HK2 in Ht|done]. }
  assert (Ht1 : torn w1 = false) by (destruct (torn w1); [by rewrite HK in Ht2|done]).
  destruct (core_drain _ _ _ _ H8 HL Ed Ht1) as [_ HD]. destruct (HD eq_refl) as [HL1 Hs1].
  destruct (core_flush _ _ _ Hpg HL1 Hs1 Ef) as [Hlog HF].
  destruct r2 as [b|e]; [|injection E as <- <-; by split]. destruct (HF b eq_refl) as [HL2 Hs2].
  destruct b; [by apply (IH w2)|]. injection E as <- <-. by split.
Qed.
End Frontier.

(** A chunk moves the frontier by its length. *)
Lemma core_feed F w lsn chunk w' :
  Live F w -> bytes_ok chunk -> F + zlen chunk + 2 * seg < 2 ^ 64 -> feed w lsn chunk = (w', Ok tt) ->
  Live (F + zlen chunk) w' /\ staged (ws w') = staged (ws w).
Proof.
  intros [[H1 H2 H3 H4 H5 H6 H7 H8 H9 H10] HP HA] Hb Hl Hf. pose proof (zlen_nonneg (archived (log w))).
  destruct (safe_feed _ _ _ _ H1 Hb ltac:(zlen) Hf) as [HS' _].
  destruct (feed_effect _ _ _ _ Hf) as (bytes & pre & Hz & -> & _). split; [|done]. split; [|done|done].
  split; simpl; rewrite ?zlen_app, ?Hz; try done; try lia.
  - rewrite lw_extend. zlen.
  - rewrite H6, ztake_app_le by lia. done.
Qed.

Lemma core_push_loop fuel : forall F w lsn data w' res,
  8 <= seg -> seg mod PAGE_SIZE = 0 -> Live F w -> staged (ws w) = [] -> bytes_ok data -> F + zlen data + 2 * seg < 2 ^ 64 ->
  push_loop fuel w lsn data = Some (w', res) -> torn w' = false ->
  log_ok (log w') /\ (forall n, res = Ok n -> Live (F + zlen data) w' /\ staged (ws w') = []).
Proof.
  induction fuel as [|fuel IH]; intros F w lsn data w' res H8 Hpg HL Hs Hb Hl; cbn [push_loop];
    (destruct data as [|b0 data0]; [intros [= <- <-] _; split; [apply (lv_core _ _ HL)|];
      intros n _; unfold zlen; simpl; rewrite Z.add_0_r; done|]); [done|].
  set (data := b0 :: data0) in *. assert (Hpos : 0 < zlen data) by (unfold data; zlen). clearbody data.
  rewrite (cr_seg _ _ _ (lv_core _ _ HL)). set (take := Z.min seg (zlen data)) in *.
  assert (Ht : zlen (ztake take data) = take /\ zlen (zdrop take data) = zlen data - take) by zlen.
  destruct Ht as [Ht1 Ht2]. destruct (feed w lsn (ztake take data)) as [w1 r1] eqn:E1.
  destruct r1 as [[]|e].
  2:{ intros [= <- <-] _. split; [|done]. unfold feed in E1. destruct (resume_prefix _); [|done].
      destruct (ResumePrefix.apply _ _ _); [by destruct (_ <=? _)|]. injection E1 as <- _. apply (lv_core _ _ HL). }
  destruct (core_feed F w lsn (ztake take data) w1 HL (Forall_take _ _ _ Hb) ltac:(lia) E1) as [HL1 Hs1].
  destruct (drain_and_seal (segment_fuel w1) w1) as [[w2 r2]|] eqn:E2; [|done]. intros E Ht.
  assert (HT2 : torn w2 = false).
  { destruct r2 as [[]|e]; [|by injection E as <- _]. pose proof (push_loop_keeps fuel w2 (lsn + take) (zdrop take data)) as HK.
    rewrite E in HK. destruct HK as [_ HK]. destruct (torn w2); [by rewrite HK in Ht|done]. }
  destruct (core_seal _ _ _ _ _ H8 Hpg HL1 E2 HT2) as [Hlog HF].
  destruct r2 as [[]|e]; [|injection E as <- <-; by split]. destruct (HF eq_refl) as [HL2 Hs2].
  destruct (IH (F + zlen (ztake take data)) w2 (lsn + take) (zdrop take data) w' res H8 Hpg HL2 Hs2 (Forall_drop _ _ _ Hb) ltac:(lia) E Ht) as [G1 G2].
  split; [done|]. intros n Hn. destruct (G2 n Hn) as [G3 G4]. split; [|done].
  replace (F + zlen data) with (F + zlen (ztake take data) + zlen (zdrop take data)) by lia. done.
Qed.

Lemma core_push F w lsn data w' res :
  8 <= seg -> seg mod PAGE_SIZE = 0 -> Live F w -> staged (ws w) = [] -> bytes_ok data -> F + zlen data + 2 * seg < 2 ^ 64 ->
  push w lsn data = Some (w', res) -> torn w' = false ->
  log_ok (log w') /\ (forall n, res = Ok n -> Live (F + zlen data) w' /\ staged (ws w') = []).
Proof.
  intros H8 Hpg HL Hs Hb Hl. unfold push.
  destruct (poisoned (ws w)); [intros [= <- <-] _; split; [apply (lv_core _ _ HL)|done]|].
  destruct (negb _); [intros [= <- <-] _; split; [apply (lv_core _ _ HL)|done]|].
  destruct (digest_raw (ws w) lsn data) as [s|] eqn:Ed; [|done].
  destruct (digest_raw_eq _ _ _ _ Ed) as (crc & from & ->).
  change (on_ws (fun _ => set_raw crc from (ws w)) w) with (on_ws (set_raw crc from) w).
  assert (HL1 : Live F (on_ws (set_raw crc from) w)).
  { destruct HL as [[H1 H2 H3 H4 H5 H6 H7 H9 H10 H11] HP HA]. split; [|done|done]. split; try done. by apply set_raw_safe. }
  destruct (push_loop _ _ _ _) as [[w1 r1]|] eqn:E1; [|done].
  intros E Ht. assert (Ht1 : torn w1 = false) by (by destruct r1; injection E as <- _).
  destruct (core_push_loop _ _ _ _ _ _ _ H8 Hpg HL1 Hs Hb Hl E1 Ht1) as [Hlog HF].
  destruct r1 as [n|e]; injection E as <- <-; (split; [done|]); [|done]. intros m Hm.
  destruct (HF n eq_refl) as [[[[S1 S2 S3 S4 S5 S6 S7] H2 H3 H4 H5 H6 H7 H9 H10 H11] HP HA] Hst]. split; [|done].
  split; [|done|done]. split; try done.
Qed.

Lemma core_push_all chunks : forall F w lsn w' res,
  8 <= seg -> seg mod PAGE_SIZE = 0 -> Live F w -> staged (ws w) = [] -> Forall bytes_ok chunks ->
  F + zlen (concat chunks) + 2 * seg < 2 ^ 64 ->
  push_all w lsn chunks = Some (w', res) -> torn w' = false ->
  log_ok (log w') /\ (forall n, res = Ok n -> exists F', Live F' w' /\ staged (ws w') = []).
Proof.
  induction chunks as [|c chunks IH]; intros F w lsn w' res H8 Hpg HL Hs HF Hl; cbn [push_all].
  { intros [= <- <-] _. split; [apply (lv_core _ _ HL)|]. eauto. }
  apply Forall_cons_1 in HF as [Hc HF]. cbn [concat] in Hl. rewrite zlen_app in Hl.
  pose proof (zlen_nonneg (concat chunks)).
  destruct (push w lsn c) as [[w1 r1]|] eqn:E1; [|done]. intros E Ht.
  assert (Ht1 : torn w1 = false).
  { destruct r1 as [n|e]; [|by injection E as <- _]. pose proof (push_all_keeps chunks w1 n) as HK. rewrite E in HK.
    destruct (torn w1); [by rewrite HK in Ht|done]. }
  destruct (core_push F w lsn c w1 r1 H8 Hpg HL Hs Hc ltac:(lia) E1 Ht1) as [Hlog HF1].
  destruct r1 as [n|e]; [|injection E as <- <-; by split]. destruct (HF1 n eq_refl) as [HL1 Hs1].
  apply (IH (F + zlen c) w1 n w' res); try done. lia.
Qed.

(** A fresh stream is live at its base. *)
Lemma live_start tli s pre c :
  seg mod PAGE_SIZE = 0 -> cache_ok c -> new tli seg base = Ok s -> base + 2 * seg < 2 ^ 64 ->
  (forall p, pre = Some p -> bytes_ok (ResumePrefix.bytes p)) ->
  Live base (start (set_prefix pre s) c).
Proof.
  intros Hpg Hc Hn Hl Hpre. pose proof (safe_start _ _ _ _ _ seg_pos Hpg Hc Hn) as [S1 S2 S3 S4 S5 S6 S7].
  unfold new in Hn. destruct (negb _) in Hn; [done|]. injection Hn as <-.
  split; [|done|constructor]. split; simpl; try done; try (unfold zlen; simpl; lia); try apply log_ok_nil; try constructor.
  all: try done.
Qed.
End Wire.

(** What the theorems below share: a stream started at [base], fed chunks. *)
Definition pumped `{C : Fpi.Codecs} `{R : Runtime} (tli seg base : Z) (pre : option ResumePrefix.ResumePrefix)
    (chunks : list (list Z)) (w : World) (res : result WalStreamError Z) : Prop :=
  (forall c data, fits 32 (crc32c_append c data)) /\ 0 <= base /\ 0 < seg /\ seg mod PAGE_SIZE = 0 /\
  base + zlen (concat chunks) + 2 * seg < 2 ^ 64 /\ Forall bytes_ok chunks /\
  (forall p, pre = Some p -> bytes_ok (ResumePrefix.bytes p)) /\
  exists s c, Rewrite.cache_ok crc32c_append c /\ new tli seg base = Ok s /\
    push_all (start (set_prefix pre s) c) base chunks = Some (w, res).

Lemma pumped_log `{C : Fpi.Codecs} `{R : Runtime} tli seg base pre chunks w res :
  pumped tli seg base pre chunks w res -> torn w = false ->
  log_ok base seg (log w) /\ (forall n, res = Ok n -> exists F, Live base seg F w).
Proof.
  intros (Hcrc & Hb & Hs & Hpg & Hl & HF & Hpre & s & c & Hc & Hn & Hp) Ht.
  assert (H8 : 8 <= seg).
  { unfold PAGE_SIZE in Hpg. pose proof (Z.div_mod seg 8192 ltac:(lia)). lia. }
  pose proof (zlen_nonneg (concat chunks)).
  pose proof (live_start base seg Hs tli s pre c Hpg Hc Hn ltac:(lia) Hpre) as HL.
  destruct (core_push_all Hcrc base seg Hb Hs chunks base _ base w res H8 Hpg HL) as [H1 H2]; try done.
  { unfold new in Hn. destruct (negb _) in Hn; [done|]. by injection Hn as <-. }
  split; [done|]. intros n Hr. destruct (H2 n Hr) as (F & HLF & _). eauto.
Qed.



(** The page of [WalStreamProofs] in two chunks, pumped. *)
Lemma toy_pump_runs :
  option_map (fun x => (torn (fst x), is_ok (snd x), zlen (wired (log (fst x))), map source_lsn (dispatched (log (fst x)))))
    (@push_all Fpi.toy_codecs toy_runtime (start toy_stream ∅) 0 toy_chunks) = Some (false, true, 8192, [24; 56]).
Proof. vm_compute. reflexivity. Qed.

Lemma toy_pumped :
  exists w res, @pumped Fpi.toy_codecs toy_runtime 1 8192 0 None toy_chunks w res /\ torn w = false /\
    zlen (wired (log w)) = 8192 /\ map source_lsn (dispatched (log w)) = [24; 56] /\ is_ok res = true.
Proof.
  pose proof toy_pump_runs as H.
  destruct (@push_all Fpi.toy_codecs toy_runtime (start toy_stream ∅) 0 toy_chunks) as [[w res]|] eqn:E; [|discriminate H].
  cbn [option_map fst snd] in H. injection H as H1 H2 H3 H4. exists w, res.
  split; [|split; [exact H1|split; [exact H3|split; [exact H4|exact H2]]]].
  split; [apply sum_crc_fits|]. split; [lia|]. split; [lia|]. split; [reflexivity|].
  split; [vm_compute; reflexivity|]. split; [apply toy_chunks_ok|]. split; [discriminate|].
  exists toy_stream, ∅. split; [apply Rewrite.empty_cache_ok|]. split; [reflexivity|exact E].
Qed.


(** A dispatched record is somewhere in the log. *)
Lemma dispatched_split l r rs :
  dispatched l = r :: rs -> exists before after, l = before ++ Dispatch r :: after.
Proof.
  induction l as [|e l IH]; [done|]. unfold dispatched. simpl. destruct e; simpl; intros H.
  2:{ injection H as <- _. by exists [], l. }
  all: destruct (IH H) as (b & a & ->); by eexists (_ :: b), a.
Qed.


(** ** Cutting inside a long record

    A branch is left at position 10000, inside a record of 20000 bytes that
    starts at 56 and that the walker had followed onto its third page.  The cut
    resets the walker to the start of the buffer, so the record at 24, already
    dispatched, dispatches again. *)
Definition long_branch : list Z :=
  [0x10; 0xD1; 0; 0] ++ zrep 20 0 ++ toy_rec 0 ++ [0x20; 0x4E; 0; 0] ++ zrep 8132 0 ++
  [0x10; 0xD1; 1; 0] ++ zrep 12 0 ++ [0x58; 0x2E; 0; 0] ++ zrep 8172 0 ++
  [0x10; 0xD1; 1; 0] ++ zrep 12 0 ++ [0x70; 0x0E; 0; 0] ++ zrep 980 0.

Definition long_stream : WalStream :=
  MkStream 1 32768 0 0 (Walker.new 32768) Filter.new 0 [] 0 0 0 false None.

Example fork_redispatches :
  match @push_all Fpi.toy_codecs toy_runtime (start long_stream ∅) 0 [long_branch] with
  | Some (w, Ok _) =>
      match @transition_timeline toy_runtime w 2 10000 with
      | Some (w, Ok _) =>
          option_map (fun x => map source_lsn (dispatched (log (fst x))))
            (@push_all Fpi.toy_codecs toy_runtime w 10000 [zrep 8 0])
      | _ => None
      end
  | _ => None
  end = Some [24; 24].
Proof. vm_compute. reflexivity. Qed.
End WalWire.
