(* ===== verification/AsciiBuf.v ===== *)
(** * Fixed-capacity text ([src/ascii_buf.rs]) and its renderers

    Time of day, [timetz], [interval], [inet] and [cidr] render into stack
    buffers that drop what does not fit; [src/decode/codecs/time.rs],
    [interval.rs], [inet.rs] and [uuid.rs]. *)
From S2P Require Import Prelude Text.

Module AsciiBuf.

(** Capacity and the bytes pushed so far. *)
Record AsciiBuf := MkBuf { cap : Z; chars : list Z }.

Definition new (n : Z) : AsciiBuf := MkBuf n [].

Definition push (out : AsciiBuf) (byte : Z) : AsciiBuf :=
  if (byte <? 128) && (zlen (chars out) <? cap out) then MkBuf (cap out) (chars out ++ [byte]) else out.

Definition push_str (out : AsciiBuf) (s : list Z) : AsciiBuf := fold_left push s out.

Definition is_empty (out : AsciiBuf) : bool := zlen (chars out) =? 0.

(** The digit loop of [push_uint], least significant first; twenty slots hold
    any [u64]. *)
Fixpoint uint_digits (slots : nat) (rest : Z) : list Z :=
  match slots with
  | O => []
  | S slots =>
      let digit := 48 + rest mod 10 in
      let rest := rest / 10 in
      if rest =? 0 then [digit] else digit :: uint_digits slots rest
  end.

Definition push_uint (out : AsciiBuf) (value pad : Z) : AsciiBuf :=
  let digits := uint_digits 20 value in
  let out := push_str out (zrep (pad - zlen digits) 48) in
  push_str out (rev digits).

Definition push_int (out : AsciiBuf) (value : Z) : AsciiBuf :=
  let out := if value <? 0 then push out 45 else out in
  push_uint out (Z.abs value) 1.

Definition hex_digit (n : Z) : Z := if n <? 10 then 48 + n else 87 + n.

(** The nibble loop of [push_hex]. *)
Fixpoint hex_nibbles (shifts : list Z) (significant : bool) (value : Z) (out : AsciiBuf) : AsciiBuf :=
  match shifts with
  | [] => out
  | shift :: rest =>
      let nibble := Z.land (Z.shiftr value shift) 0xf in
      let significant := significant || negb (nibble =? 0) in
      let out := if significant || (shift =? 0) then push out (hex_digit nibble) else out in
      hex_nibbles rest significant value out
  end.

Definition push_hex (out : AsciiBuf) (value : Z) : AsciiBuf := hex_nibbles [12; 8; 4; 0] false value out.

(** ** Time of day *)

(** Drop a fraction's trailing zeros. *)
Fixpoint strip_zeros (fuel : nat) (frac digits : Z) : Z * Z :=
  match fuel with
  | O => (frac, digits)
  | S fuel => if frac mod 10 =? 0 then strip_zeros fuel (frac / 10) (digits - 1) else (frac, digits)
  end.

Definition write_time_us (out : AsciiBuf) (us : Z) : AsciiBuf :=
  let out := if us <? 0 then push out 45 else out in
  let us := Z.abs us in
  let out := push_uint out (us / 3600000000) 2 in
  let out := push out 58 in
  let out := push_uint out (us / 60000000 mod 60) 2 in
  let out := push out 58 in
  let out := push_uint out (us / 1000000 mod 60) 2 in
  let frac := us mod 1000000 in
  if negb (frac =? 0) then
    let out := push out 46 in
    let '(frac, digits) := strip_zeros 6 frac 6 in
    push_uint out frac digits
  else out.

Definition format_time_us (n us : Z) : AsciiBuf := write_time_us (new n) us.

Definition timetz_to_text (n micros tz_seconds : Z) : AsciiBuf :=
  let out := write_time_us (new n) micros in
  let out := push out (if 0 <? tz_seconds then 45 else 43) in
  let abs := Z.abs tz_seconds in
  let out := push_uint out (abs / 3600) 2 in
  let mm := abs mod 3600 / 60 in
  let ss := abs mod 60 in
  if negb (mm =? 0) || negb (ss =? 0) then
    let out := push_uint (push out 58) mm 2 in
    if negb (ss =? 0) then push_uint (push out 58) ss 2 else out
  else out.

(** ** Interval *)
Inductive JsonbFault :=
| header_past_end
| child_entries_past_end
| child_data_past_end
| nesting_past_depth_bound
| scalar_without_a_child
| object_key_is_not_a_string
| aligned_child_past_end
| numeric_child_past_end
| unknown_child_type
| string_not_utf8.

Inductive CodecError :=
| Truncated (offset need have : Z)
| BadNumeric (weight ndigits dscale : Z)
| BadInet (family bits addr_len : Z)
| BadJsonbContainer (what : JsonbFault).

Record IntervalValue := MkInterval { months : Z; days : Z; micros : Z }.

Definition decode_interval (body : list Z) : result CodecError IntervalValue :=
  if zlen body <? 16 then Err (Truncated 0 16 (zlen body))
  else Ok (MkInterval (i32_at body 12) (i32_at body 8) (i64_at body 0)).

(** ["year"], ["mon"], ["day"]. *)
Definition YEAR : list Z := [121; 101; 97; 114].
Definition MON : list Z := [109; 111; 110].
Definition DAY : list Z := [100; 97; 121].

(** One turn of [to_text]'s unit loop. *)
Definition write_unit (st : AsciiBuf * bool) (nu : Z * list Z) : AsciiBuf * bool :=
  let '(out, previous_negative) := st in
  let '(n, unit) := nu in
  if n =? 0 then st
  else
    let out := if negb (is_empty out) then push out 32 else out in
    let out := if previous_negative && (0 <? n) then push out 43 else out in
    let out := push_int out n in
    let out := push out 32 in
    let out := push_str out unit in
    let out := if negb (n =? 1) then push out 115 else out in
    (out, n <? 0).

Definition interval_to_text (cap_ : Z) (v : IntervalValue) : AsciiBuf :=
  let '(out, previous_negative) :=
    fold_left write_unit [(Z.quot (months v) 12, YEAR); (Z.rem (months v) 12, MON); (days v, DAY)] (new cap_, false) in
  if negb (micros v =? 0) || is_empty out then
    let out := if negb (is_empty out) then push out 32 else out in
    let out := if previous_negative && (0 <? micros v) then push out 43 else out in
    write_time_us out (micros v)
  else out.

(** ** Addresses *)
Definition PGSQL_AF_INET : Z := 2.
Definition PGSQL_AF_INET6 : Z := 3.

Record InetValue := MkInet { family : Z; bits : Z; is_cidr : bool; addr : list Z }.

Definition decode_inet (body : list Z) (is_cidr : bool) : result CodecError InetValue :=
  if zlen body <? 2 then Err (Truncated 0 2 (zlen body))
  else
    let family := byte_at body 0 in
    let bits := byte_at body 1 in
    if negb (family =? PGSQL_AF_INET) && negb (family =? PGSQL_AF_INET6) then Err (BadInet family bits 0)
    else
      let nb := if family =? PGSQL_AF_INET then 4 else 16 in
      if zlen body <? 2 + nb then Err (Truncated 2 nb (zlen body - 2))
      else Ok (MkInet family bits is_cidr (sub body 2 (2 + nb))).

(** The big-endian groups of an IPv6 address. *)
Fixpoint groups_of (n : nat) (bytes : list Z) : list Z :=
  match n with
  | O => []
  | S n => (byte_at bytes 0 * 256 + byte_at bytes 1) :: groups_of n (zdrop 2 bytes)
  end.

(** Zero groups from the front. *)
Fixpoint zero_run (gs : list Z) : Z :=
  match gs with
  | [] => 0
  | g :: rest => if g =? 0 then 1 + zero_run rest else 0
  end.

(** The run search of [write_ipv6]: the first longest run of two or more. *)
Fixpoint best_run (fuel : nat) (gs : list Z) (i : Z) (best_start : option Z) (best_len : Z) : option Z * Z :=
  match fuel with
  | O => (best_start, best_len)
  | S fuel =>
      if i <? 8 then
        if byte_at gs i =? 0 then
          let run := zero_run (zdrop i gs) in
          let '(best_start, best_len) := if best_len <? run then (Some i, run) else (best_start, best_len) in
          best_run fuel gs (i + run) best_start best_len
        else best_run fuel gs (i + 1) best_start best_len
      else (best_start, best_len)
  end.

Definition ends_with_colon (out : AsciiBuf) : bool := List.last (chars out) 0 =? 58.

(** The printing loop of [write_ipv6]. *)
Fixpoint write_groups (fuel : nat) (gs : list Z) (best_start : option Z) (best_len k : Z) (out : AsciiBuf) : AsciiBuf :=
  match fuel with
  | O => out
  | S fuel =>
      if k <? 8 then
        if bool_decide (Some k = best_start) then
          write_groups fuel gs best_start best_len (k + best_len) (push_str out [58; 58])
        else
          let out := if negb (is_empty out) && negb (ends_with_colon out) then push out 58 else out in
          write_groups fuel gs best_start best_len (k + 1) (push_hex out (byte_at gs k))
      else out
  end.

Definition write_ipv6 (out : AsciiBuf) (bytes : list Z) : AsciiBuf :=
  if zlen bytes <? 16 then push out 63
  else
    let gs := groups_of 8 bytes in
    let '(best_start, best_len) := best_run 8 gs 0 None 1 in
    write_groups 8 gs best_start best_len 0 out.

(** The dotted-quad loop. *)
Fixpoint write_quad (i : Z) (octets : list Z) (out : AsciiBuf) : AsciiBuf :=
  match octets with
  | [] => out
  | octet :: rest =>
      let out := if 0 <? i then push out 46 else out in
      write_quad (i + 1) rest (push_uint out octet 1)
  end.

Definition inet_to_text (cap_ : Z) (v : InetValue) : AsciiBuf :=
  let out := new cap_ in
  let out :=
    if family v =? PGSQL_AF_INET then write_quad 0 (ztake 4 (addr v)) out
    else if family v =? PGSQL_AF_INET6 then write_ipv6 out (addr v)
    else push out 63 in
  let max_bits := if family v =? PGSQL_AF_INET then 32 else 128 in
  if is_cidr v || negb (bits v =? max_bits) then push_uint (push out 47) (bits v) 1 else out.

(** ** Uuid *)
Definition uuid_to_ch_wire (b : list Z) : list Z := rev (ztake 8 b) ++ rev (zdrop 8 b).

(** ** No byte is dropped

    Two buffers of capacities [N] and [M] hold the same text, at most [k]
    bytes of it. *)
Section Agree.
Context (N M : Z).

Definition agree (k : Z) (a b : AsciiBuf) : Prop :=
  cap a = N /\ cap b = M /\ chars a = chars b /\ zlen (chars a) <= k.

Lemma agree_new_buf : agree 0 (new N) (new M).
Proof. repeat split. cbn [chars new]. zlen. Qed.

Lemma agree_mono k k' a b : agree k a b -> k <= k' -> agree k' a b.
Proof. intros (H1 & H2 & H3 & H4) Hk. repeat split; [done..|lia]. Qed.

Lemma agree_empty k a b : agree k a b -> is_empty a = is_empty b.
Proof. intros (_ & _ & H & _). unfold is_empty. by rewrite H. Qed.

Lemma agree_colon k a b : agree k a b -> ends_with_colon a = ends_with_colon b.
Proof. intros (_ & _ & H & _). unfold ends_with_colon. by rewrite H. Qed.

Lemma agree_push k k' a b c : agree k a b -> k + 1 <= k' -> k' <= N -> k' <= M -> agree k' (push a c) (push b c).
Proof.
  intros (Ha & Hb & Hc & Hl) H1 H2 H3. unfold push. rewrite Ha, Hb, <- Hc.
  replace (zlen (chars a) <? N) with true by (symmetry; lia).
  replace (zlen (chars a) <? M) with true by (symmetry; lia).
  rewrite andb_true_r. destruct (c <? 128); repeat split; cbn [cap chars]; try done.
  - zlen.
  - lia.
Qed.

Lemma agree_push_str s : forall k k' a b, agree k a b -> k + zlen s <= k' -> k' <= N -> k' <= M ->
  agree k' (push_str a s) (push_str b s).
Proof.
  induction s as [|c s IH]; intros k k' a b H Hk HN HM; unfold push_str; cbn [fold_left].
  - rewrite zlen_nil in Hk. eapply agree_mono; [exact H|lia].
  - rewrite zlen_cons in Hk. pose proof (zlen_nonneg s).
    apply (IH (k + 1)); [|lia..]. apply (agree_push k); [done|lia..].
Qed.

Lemma agree_if (c : bool) k k' a b a' b' : agree k' a b -> agree k a' b' -> k <= k' ->
  agree k' (if c then a else a') (if c then b else b').
Proof. intros H1 H2 Hk. destruct c; [done|]. by eapply agree_mono. Qed.

Lemma uint_digits_len slots : forall v d, 1 <= d -> 0 <= v < 10 ^ d -> zlen (uint_digits slots v) <= d.
Proof.
  induction slots as [|slots IH]; intros v d Hd Hv; cbn [uint_digits]; [zlen|].
  destruct (v / 10 =? 0) eqn:E; [zlen|]. rewrite zlen_cons.
  assert (1 < d). { destruct (decide (d = 1)) as [->|]; [|lia]. exfalso. change (10 ^ 1) with 10 in Hv. rewrite Z.div_small in E by lia. done. }
  assert (10 ^ d = 10 * 10 ^ (d - 1)) as E10. { rewrite <- Z.pow_succ_r by lia. f_equal. lia. }
  specialize (IH (v / 10) (d - 1) ltac:(lia)).
  assert (0 <= v / 10 < 10 ^ (d - 1)). { split; [apply Z.div_pos; lia|]. apply Z.div_lt_upper_bound; lia. }
  specialize (IH ltac:(lia)). lia.
Qed.

Lemma agree_uint d v pad k k' a b : agree k a b -> 1 <= d -> pad <= d -> 0 <= v < 10 ^ d ->
  k + d <= k' -> k' <= N -> k' <= M -> agree k' (push_uint a v pad) (push_uint b v pad).
Proof.
  intros H Hd Hp Hv Hk HN HM. unfold push_uint. pose proof (uint_digits_len 20 v d Hd Hv) as Hl.
  pose proof (zlen_nonneg (uint_digits 20 v)).
  set (ds := uint_digits 20 v) in *.
  assert (zlen (rev ds) = zlen ds) as Er. { unfold zlen. by rewrite length_rev. }
  apply (agree_push_str _ (k + Z.max 0 (pad - zlen ds))); [|rewrite Er; lia|lia..].
  apply (agree_push_str _ k); [done|rewrite zlen_zrep; lia|lia..].
Qed.

Lemma agree_int d v k k' a b : agree k a b -> 1 <= d -> Z.abs v < 10 ^ d ->
  k + 1 + d <= k' -> k' <= N -> k' <= M -> agree k' (push_int a v) (push_int b v).
Proof.
  intros H Hd Hv Hk HN HM. unfold push_int. apply (agree_uint d _ _ (k + 1)); try lia.
  apply (agree_if _ k); [|done|lia]. apply (agree_push k); [done|lia..].
Qed.

Lemma agree_hex_nibbles sh : forall sig v k k' a b, agree k a b -> k + zlen sh <= k' -> k' <= N -> k' <= M ->
  agree k' (hex_nibbles sh sig v a) (hex_nibbles sh sig v b).
Proof.
  induction sh as [|s sh IH]; intros sig v k k' a b H Hk HN HM; cbn [hex_nibbles].
  - rewrite zlen_nil in Hk. eapply agree_mono; [exact H|lia].
  - rewrite zlen_cons in Hk. pose proof (zlen_nonneg sh). apply (IH _ _ (k + 1)); [|lia..].
    apply (agree_if _ k); [|done|lia]. apply (agree_push k); [done|lia..].
Qed.

Lemma agree_hex v k k' a b : agree k a b -> k + 4 <= k' -> k' <= N -> k' <= M -> agree k' (push_hex a v) (push_hex b v).
Proof. intros H Hk HN HM. apply (agree_hex_nibbles _ _ _ k); [done|exact Hk|done..]. Qed.

Lemma strip_zeros_bounds fuel : forall f d, 0 <= f -> d <= 6 ->
  0 <= (strip_zeros fuel f d).1 <= f /\ (strip_zeros fuel f d).2 <= 6.
Proof.
  induction fuel as [|fuel IH]; intros f d Hf Hd; cbn [strip_zeros]; [cbn; lia|].
  destruct (f mod 10 =? 0); [|cbn; lia].
  specialize (IH (f / 10) (d - 1) ltac:(apply Z.div_pos; lia) ltac:(lia)).
  pose proof (Z.div_le_upper_bound f 10 f ltac:(lia) ltac:(lia)). lia.
Qed.

Lemma agree_time us k k' a b : agree k a b -> - 2 ^ 63 <= us < 2 ^ 63 ->
  k + 24 <= k' -> k' <= N -> k' <= M -> agree k' (write_time_us a us) (write_time_us b us).
Proof.
  intros H Hus Hk HN HM. unfold write_time_us.
  set (u := Z.abs us). assert (0 <= u <= 2 ^ 63) as Hu by lia.
  assert (0 <= u / 3600000000 < 10 ^ 10) by (split; [apply Z.div_pos|apply Z.div_lt_upper_bound]; lia).
  pose proof (Z.mod_pos_bound (u / 60000000) 60 ltac:(lia)).
  pose proof (Z.mod_pos_bound (u / 1000000) 60 ltac:(lia)).
  pose proof (Z.mod_pos_bound u 1000000 ltac:(lia)) as Hf.
  destruct (strip_zeros 6 (u mod 1000000) 6) as [f d] eqn:Es.
  pose proof (strip_zeros_bounds 6 (u mod 1000000) 6 ltac:(lia) ltac:(lia)) as Hs. rewrite Es in Hs. cbn in Hs.
  set (q1 := u / 3600000000) in *. set (q2 := u / 60000000 mod 60) in *. set (q3 := u / 1000000 mod 60) in *.
  apply (agree_if _ (k + 17)); [apply (agree_uint 6 _ _ (k + 18)); try lia; apply (agree_push (k + 17)); try lia| |lia].
  all: apply (agree_uint 2 _ _ (k + 15)); try lia.
  all: apply (agree_push (k + 14)); try lia.
  all: apply (agree_uint 2 _ _ (k + 12)); try lia.
  all: apply (agree_push (k + 11)); try lia.
  all: apply (agree_uint 10 _ _ (k + 1)); try lia.
  all: apply (agree_if _ k); [apply (agree_push k); [done|lia..]|done|lia].
Qed.

Lemma agree_write_unit d k k' a b p n u : agree k a b -> 1 <= d -> Z.abs n < 10 ^ d ->
  k + d + zlen u + 5 <= k' -> k' <= N -> k' <= M ->
  agree k' (write_unit (a, p) (n, u)).1 (write_unit (b, p) (n, u)).1 /\
  (write_unit (a, p) (n, u)).2 = (write_unit (b, p) (n, u)).2.
Proof.
  intros H Hd Hn Hk HN HM. pose proof (zlen_nonneg u). unfold write_unit.
  destruct (n =? 0); cbn [fst snd]; (split; [|done]); [eapply agree_mono; [exact H|lia]|].
  rewrite <- (agree_empty _ _ _ H).
  apply (agree_if _ (k + d + zlen u + 4)); [apply (agree_push (k + d + zlen u + 4)); try lia| |lia].
  all: apply (agree_push_str _ (k + d + 4)); try lia.
  all: apply (agree_push (k + d + 3)); try lia.
  all: apply (agree_int d _ (k + 2)); try lia.
  all: apply (agree_if _ (k + 1)); [apply (agree_push (k + 1)); try lia| |lia].
  all: apply (agree_if _ k); [apply (agree_push k); [done|lia..]|done|lia].
Qed.

End Agree.

Lemma agree_interval N M v : 80 <= N -> 80 <= M ->
  - 2 ^ 31 <= months v < 2 ^ 31 -> - 2 ^ 31 <= days v < 2 ^ 31 -> - 2 ^ 63 <= micros v < 2 ^ 63 ->
  agree N M 80 (interval_to_text N v) (interval_to_text M v).
Proof.
  intros HN HM Hm Hd Hu. unfold interval_to_text. cbn [fold_left].
  assert (zlen YEAR = 4 /\ zlen MON = 3 /\ zlen DAY = 3) as (? & ? & ?) by done.
  assert (Z.abs (Z.quot (months v) 12) < 10 ^ 9) by (Z.to_euclidean_division_equations; lia).
  assert (Z.abs (Z.rem (months v) 12) < 10 ^ 2) by (Z.to_euclidean_division_equations; lia).
  destruct (agree_write_unit N M 9 0 18 _ _ false (Z.quot (months v) 12) YEAR (agree_new_buf N M)) as [A1 P1]; try lia.
  destruct (write_unit (new N, false) _) as [a1 p1], (write_unit (new M, false) _) as [b1 q1].
  cbn [fst snd] in A1, P1. subst q1.
  destruct (agree_write_unit N M 2 18 28 _ _ p1 (Z.rem (months v) 12) MON A1) as [A2 P2]; try lia.
  destruct (write_unit (a1, p1) _) as [a2 p2], (write_unit (b1, p1) _) as [b2 q2].
  cbn [fst snd] in A2, P2. subst q2.
  destruct (agree_write_unit N M 10 28 46 _ _ p2 (days v) DAY A2) as [A3 P3]; try lia.
  destruct (write_unit (a2, p2) _) as [a3 p3], (write_unit (b2, p2) _) as [b3 q3].
  cbn [fst snd] in A3, P3. subst q3.
  rewrite <- (agree_empty _ _ _ _ _ A3).
  apply (agree_if _ _ _ 46); [|done|lia]. apply (agree_time _ _ _ 48); try lia.
  apply (agree_if _ _ _ 47); [apply (agree_push _ _ 47); try lia| |lia].
  all: apply (agree_if _ _ _ 46); [apply (agree_push _ _ 46); [done|lia..]|done|lia].
Qed.

Lemma agree_timetz N M us tz : 48 <= N -> 48 <= M -> - 2 ^ 63 <= us < 2 ^ 63 -> - 2 ^ 31 <= tz < 2 ^ 31 ->
  agree N M 48 (timetz_to_text N us tz) (timetz_to_text M us tz).
Proof.
  intros HN HM Hus Htz. unfold timetz_to_text. set (t := Z.abs tz). assert (0 <= t <= 2 ^ 31) by lia.
  assert (0 <= t / 3600 < 10 ^ 6) by (split; [apply Z.div_pos|apply Z.div_lt_upper_bound]; lia).
  assert (0 <= t mod 3600 / 60 < 10 ^ 2).
  { pose proof (Z.mod_pos_bound t 3600 ltac:(lia)). split; [apply Z.div_pos|apply Z.div_lt_upper_bound]; lia. }
  pose proof (Z.mod_pos_bound t 60 ltac:(lia)).
  assert (agree N M 31 (push_uint (push (write_time_us (new N) us) (if 0 <? tz then 45 else 43)) (t / 3600) 2)
    (push_uint (push (write_time_us (new M) us) (if 0 <? tz then 45 else 43)) (t / 3600) 2)) as Hh.
  { apply (agree_uint _ _ 6 _ _ 25); try lia. apply (agree_push _ _ 24); try lia.
    apply (agree_time _ _ _ 0); try lia. apply agree_new_buf. }
  assert (agree N M 34 (push_uint (push (push_uint (push (write_time_us (new N) us) (if 0 <? tz then 45 else 43)) (t / 3600) 2) 58) (t mod 3600 / 60) 2)
    (push_uint (push (push_uint (push (write_time_us (new M) us) (if 0 <? tz then 45 else 43)) (t / 3600) 2) 58) (t mod 3600 / 60) 2)) as Hm.
  { apply (agree_uint _ _ 2 _ _ 32); try lia. apply (agree_push _ _ 31); [done|lia..]. }
  apply (agree_if _ _ _ 31); [|exact Hh|lia]. apply (agree_if _ _ _ 34); [|exact Hm|lia].
  apply (agree_uint _ _ 2 _ _ 35); try lia. apply (agree_push _ _ 34); [exact Hm|lia..].
Qed.

Lemma agree_groups N M fuel : forall gs bs bl i k k' a b, agree N M k a b ->
  k + 5 * Z.of_nat fuel <= k' -> k' <= N -> k' <= M ->
  agree N M k' (write_groups fuel gs bs bl i a) (write_groups fuel gs bs bl i b).
Proof.
  induction fuel as [|fuel IH]; intros gs bs bl i k k' a b H Hk HN HM; cbn [write_groups].
  - eapply agree_mono; [exact H|lia].
  - destruct (i <? 8); [|eapply agree_mono; [exact H|lia]].
    destruct (bool_decide (Some i = bs)); apply (IH _ _ _ _ (k + 5)); try lia.
    + apply (agree_push_str _ _ _ k); [done|change (zlen [58; 58]) with 2; lia|lia..].
    + apply (agree_hex _ _ _ (k + 1)); try lia. rewrite (agree_empty _ _ _ _ _ H), (agree_colon _ _ _ _ _ H).
      apply (agree_if _ _ _ k); [|done|lia]. apply (agree_push _ _ k); [done|lia..].
Qed.

Lemma agree_ipv6 N M bytes : 40 <= N -> 40 <= M -> agree N M 40 (write_ipv6 (new N) bytes) (write_ipv6 (new M) bytes).
Proof.
  intros HN HM. pose proof (agree_new_buf N M). unfold write_ipv6. destruct (zlen bytes <? 16).
  - apply (agree_push _ _ 0); [done|lia..].
  - destruct (best_run _ _ _ _ _). apply (agree_groups _ _ _ _ _ _ _ 0); [done|lia..].
Qed.

Lemma agree_quad N M octets : forall i k k' a b, agree N M k a b -> bytes_ok octets ->
  k + 4 * zlen octets <= k' -> k' <= N -> k' <= M -> agree N M k' (write_quad i octets a) (write_quad i octets b).
Proof.
  induction octets as [|o rest IH]; intros i k k' a b H Ho Hk HN HM; cbn [write_quad].
  - change (zlen []) with 0 in Hk. eapply agree_mono; [exact H|lia].
  - rewrite zlen_cons in Hk. apply Forall_cons_1 in Ho as [Ho Hr]. unfold byte_ok in Ho. pose proof (zlen_nonneg rest).
    apply (IH _ (k + 4)); try lia; [|done]. apply (agree_uint _ _ 3 _ _ (k + 1)); try lia.
    apply (agree_if _ _ _ k); [|done|lia]. apply (agree_push _ _ k); [done|lia..].
Qed.

Lemma agree_inet N M v : 48 <= N -> 48 <= M -> bytes_ok (addr v) -> byte_ok (bits v) ->
  agree N M 48 (inet_to_text N v) (inet_to_text M v).
Proof.
  intros HN HM Ha Hb. unfold byte_ok in Hb. unfold inet_to_text. pose proof (agree_new_buf N M) as Hn.
  match goal with |- agree _ _ _ (if _ then push_uint (push ?x _) _ _ else _) (if _ then push_uint (push ?y _) _ _ else _) =>
    assert (agree N M 40 x y) as H0 end.
  { destruct (family v =? PGSQL_AF_INET).
    - apply (agree_quad _ _ _ _ 0); try lia; [done| |].
      + by apply Forall_take.
      + rewrite zlen_ztake. lia.
    - destruct (family v =? PGSQL_AF_INET6); [apply agree_ipv6; lia|]. apply (agree_push _ _ 0); [done|lia..]. }
  apply (agree_if _ _ _ 40); [|done|lia]. apply (agree_uint _ _ 3 _ _ 41); try lia.
  apply (agree_push _ _ 40); [done|lia..].
Qed.

Lemma signed_range w z : 0 < w -> 0 <= z < 2 ^ w -> - 2 ^ (w - 1) <= signed w z < 2 ^ (w - 1).
Proof.
  intros Hw Hz. unfold signed. assert (2 ^ w = 2 * 2 ^ (w - 1)). { rewrite <- Z.pow_succ_r by lia. f_equal. lia. }
  destruct (z <? 2 ^ (w - 1)) eqn:E; lia.
Qed.

Lemma le_dec_sub_bound body off n : bytes_ok body -> 0 <= n -> 0 <= le_dec (sub body off (off + n)) < 256 ^ n.
Proof.
  intros Hb Hn. pose proof (le_dec_bound (sub body off (off + n)) (bytes_ok_sub _ _ _ Hb)) as H.
  enough (256 ^ zlen (sub body off (off + n)) <= 256 ^ n) by lia.
  apply Z.pow_le_mono_r; [lia|]. unfold sub. rewrite zlen_ztake. lia.
Qed.

Lemma i32_at_range body off : bytes_ok body -> - 2 ^ 31 <= i32_at body off < 2 ^ 31.
Proof. intros Hb. apply (signed_range 32); [lia|]. by apply (le_dec_sub_bound _ _ 4). Qed.

Lemma i64_at_range body off : bytes_ok body -> - 2 ^ 63 <= i64_at body off < 2 ^ 63.
Proof. intros Hb. apply (signed_range 64); [lia|]. by apply (le_dec_sub_bound _ _ 8). Qed.

Lemma byte_at_ok body i : bytes_ok body -> byte_ok (byte_at body i).
Proof.
  intros Hb. unfold byte_at. destruct (zget body i) as [x|] eqn:E; cbn [default from_option id]; [|unfold byte_ok; lia].
  unfold zget in E. case_match; [|done]. by eapply Forall_lookup_1.
Qed.

Lemma agree_chars N M k a b : agree N M k a b -> chars b = chars a.
Proof. intros (_ & _ & H & _). done. Qed.

(** Every renderer's text fits its buffer.  For every [i64] time, every
    [i32] zone, every interval a 16-byte datum can hold and every address the
    decoder returns, the buffer sizes of the code (32, 48, 80 and 48 bytes)
    give the text any larger buffer gives: no byte is dropped. *)
Theorem renderers_fit N us tz v body cidr w : 80 <= N ->
  - 2 ^ 63 <= us < 2 ^ 63 -> - 2 ^ 31 <= tz < 2 ^ 31 -> bytes_ok body ->
  chars (format_time_us N us) = chars (format_time_us 32 us) /\
  chars (timetz_to_text N us tz) = chars (timetz_to_text 48 us tz) /\
  (decode_interval body = Ok v -> chars (interval_to_text N v) = chars (interval_to_text 80 v)) /\
  (decode_inet body cidr = Ok w -> chars (inet_to_text N w) = chars (inet_to_text 48 w)).
Proof.
  intros HN Hus Htz Hb. split; [|split; [|split]].
  - apply (agree_chars 32 N 24), (agree_time _ _ _ 0); try lia. apply agree_new_buf.
  - apply (agree_chars 48 N 48), agree_timetz; lia.
  - unfold decode_interval. destruct (zlen body <? 16); [done|]. intros [= <-].
    apply (agree_chars 80 N 80), agree_interval; try lia; cbn [months days micros].
    + by apply i32_at_range.
    + by apply i32_at_range.
    + by apply i64_at_range.
  - unfold decode_inet. repeat case_match; try done; intros [= <-].
    all: apply (agree_chars 48 N 48), agree_inet; try lia; cbn [addr bits].
    all: first [by apply bytes_ok_sub | by apply byte_at_ok].
Qed.

Lemma renderers_fit_witness :
  chars (interval_to_text 100 (MkInterval (-14) 3 (-1500000))) = chars (interval_to_text 80 (MkInterval (-14) 3 (-1500000))) /\
  chars (inet_to_text 100 (MkInet 3 64 false (replicate 14 0 ++ [1; 2]))) = chars (inet_to_text 48 (MkInet 3 64 false (replicate 14 0 ++ [1; 2]))).
Proof.
  pose (ib := le_enc 8 (2 ^ 64 - 1500000) ++ le_enc 4 3 ++ le_enc 4 (2 ^ 32 - 14)).
  pose (ab := [3; 64] ++ replicate 14 0 ++ [1; 2]).
  assert (bytes_ok ib) as Hi by (repeat apply bytes_ok_app; apply le_enc_ok).
  assert (bytes_ok ab) as Ha by (unfold bytes_ok, byte_ok; repeat (constructor; [lia|]); constructor).
  split.
  - apply (renderers_fit 100 0 0 (MkInterval (-14) 3 (-1500000)) ib false (MkInet 3 64 false [])); try lia; [exact Hi|reflexivity].
  - apply (renderers_fit 100 0 0 (MkInterval 0 0 0) ab false (MkInet 3 64 false (replicate 14 0 ++ [1; 2]))); try lia; [exact Ha|reflexivity].
Defined.

End AsciiBuf.
