(* ===== verification/Numeric.v ===== *)
(** * [numeric] datums as text ([src/decode/codecs/numeric.rs])

    The header forms, the base-10000 digits, and the renderer's text as a
    decimal expansion of the value the digits denote. *)
From S2P Require Import Prelude Text AsciiBuf.
Import Text AsciiBuf(CodecError(..)).

Module Numeric.

Definition NUMERIC_SIGN_MASK : Z := 0xC000.
Definition NUMERIC_POS : Z := 0x0000.
Definition NUMERIC_NEG : Z := 0x4000.
Definition NUMERIC_SHORT : Z := 0x8000.
Definition NUMERIC_SPECIAL : Z := 0xC000.
Definition NUMERIC_NAN : Z := 0xC000.
Definition NUMERIC_PINF : Z := 0xD000.
Definition NUMERIC_NINF : Z := 0xF000.
Definition NUMERIC_SHORT_SIGN_MASK : Z := 0x2000.
Definition NUMERIC_SHORT_DSCALE_MASK : Z := 0x1F80.
Definition NUMERIC_SHORT_DSCALE_SHIFT : Z := 7.
Definition NUMERIC_SHORT_WEIGHT_SIGN_MASK : Z := 0x0040.
Definition NUMERIC_SHORT_WEIGHT_MASK : Z := 0x003F.
Definition NUMERIC_DSCALE_MASK : Z := 0x3FFF.

Inductive NumericKind :=
| NaN
| PInf
| NInf
| Finite (text : list Z).

(** ["NaN"], ["Infinity"], ["-Infinity"]. *)
Definition as_text (k : NumericKind) : list Z :=
  match k with
  | Finite s => s
  | NaN => [78; 97; 78]
  | PInf => [73; 110; 102; 105; 110; 105; 116; 121]
  | NInf => [45; 73; 110; 102; 105; 110; 105; 116; 121]
  end.

(** Header fields and the digits still in the datum. *)
Inductive Parsed :=
| Special (k : NumericKind)
| FiniteNum (neg : bool) (weight dscale : Z) (digits : list (Z * Z)).

(** [as_chunks::<2>().0]: the whole pairs. *)
Fixpoint chunks2 (l : list Z) : list (Z * Z) :=
  match l with
  | a :: b :: rest => (a, b) :: chunks2 rest
  | _ => []
  end.

Definition parse_numeric (body : list Z) : result CodecError Parsed :=
  if zlen body <? 2 then Err (Truncated 0 2 (zlen body))
  else
    let n_header := u16_at body 0 in
    let flag := Z.land n_header NUMERIC_SIGN_MASK in
    let is_short := flag =? NUMERIC_SHORT in
    let is_special := flag =? NUMERIC_SPECIAL in
    if is_special then
      Ok (Special (if n_header =? NUMERIC_NAN then NaN
                   else if n_header =? NUMERIC_PINF then PInf
                   else if n_header =? NUMERIC_NINF then NInf
                   else NaN))
    else
      let? fields :=
        (if is_short then
           let sign := if negb (Z.land n_header NUMERIC_SHORT_SIGN_MASK =? 0) then NUMERIC_NEG else NUMERIC_POS in
           let dscale := Z.shiftr (Z.land n_header NUMERIC_SHORT_DSCALE_MASK) NUMERIC_SHORT_DSCALE_SHIFT in
           let w := Z.land n_header NUMERIC_SHORT_WEIGHT_MASK in
           let w := if negb (Z.land n_header NUMERIC_SHORT_WEIGHT_SIGN_MASK =? 0)
                    then Z.lor w (Z.lnot NUMERIC_SHORT_WEIGHT_MASK) else w in
           Ok (sign, w, dscale, 2)
         else if zlen body <? 4 then Err (Truncated 2 4 (zlen body))
         else Ok (Z.land n_header NUMERIC_SIGN_MASK, i16_at body 2, Z.land n_header NUMERIC_DSCALE_MASK, 4)) in
      let '(sign, weight, dscale, digits_off) := fields in
      let digits := chunks2 (zdrop digits_off body) in
      let ndigits := zlen digits in
      if (dscale <? 0) || (NUMERIC_DSCALE_MASK + 4 <? ndigits) then Err (BadNumeric weight ndigits dscale)
      else Ok (FiniteNum (sign =? NUMERIC_NEG) weight dscale digits).

Definition dec_digits (dig : Z) : list Z :=
  [48 + dig / 1000 mod 10; 48 + dig / 100 mod 10; 48 + dig / 10 mod 10; 48 + dig mod 10].

(** The digit at [d]: zero outside the stored ones, and for a negative one. *)
Definition digit_at (digits : list (Z * Z)) (d : Z) : Z :=
  match zget digits d with
  | Some (lo, hi) => Z.max 0 (signed 16 (le_dec [lo; hi]))
  | None => 0
  end.

Definition group (digits : list (Z * Z)) (d : Z) : list Z := dec_digits (digit_at digits d).

(** Zeros [take_while] counts. *)
Fixpoint leading_zeros (l : list Z) : Z :=
  match l with
  | [] => 0
  | c :: rest => if c =? 48 then 1 + leading_zeros rest else 0
  end.

(** [for d in 1..=weight]. *)
Fixpoint push_groups (n : nat) (digits : list (Z * Z)) (d : Z) (out : list Z) : list Z :=
  match n with
  | O => out
  | S n => push_groups n digits (d + 1) (out ++ group digits d)
  end.

(** The inner loop over a group's characters, left at [dscale]. *)
Fixpoint push_limited (dscale : Z) (cs : list Z) (written : Z) (out : list Z) : Z * list Z :=
  match cs with
  | [] => (written, out)
  | c :: cs => if written =? dscale then (written, out) else push_limited dscale cs (written + 1) (out ++ [c])
  end.

(** The fraction loop; each turn writes at least one of the [dscale]
    characters, so [dscale] turns are enough ([frac_loop_text]). *)
Fixpoint frac_loop (fuel : nat) (dscale : Z) (digits : list (Z * Z)) (written d : Z) (out : list Z) : list Z :=
  match fuel with
  | O => out
  | S fuel =>
      if written <? dscale then
        let '(written, out) := push_limited dscale (group digits d) written out in
        frac_loop fuel dscale digits written (d + 1) out
      else out
  end.

Definition render_numeric (neg : bool) (weight dscale : Z) (digits : list (Z * Z)) (out : list Z) : list Z :=
  let out := if neg then out ++ [45] else out in
  let out :=
    if weight <? 0 then out ++ [48]
    else
      let lead := group digits 0 in
      let zeros := leading_zeros (ztake 3 lead) in
      push_groups (Z.to_nat weight) digits 1 (out ++ zdrop zeros lead) in
  if 0 <? dscale then frac_loop (Z.to_nat dscale) dscale digits 0 (weight + 1) (out ++ [46]) else out.

Definition decode_numeric (body : list Z) : result CodecError NumericKind :=
  let? p := parse_numeric body in
  match p with
  | Special kind => Ok kind
  | FiniteNum neg weight dscale digits => Ok (Finite (render_numeric neg weight dscale digits []))
  end.

Definition render_numeric_text (body out : list Z) : result CodecError (list Z) :=
  let? p := parse_numeric body in
  match p with
  | Special kind => Ok (out ++ as_text kind)
  | FiniteNum neg weight dscale digits => Ok (render_numeric neg weight dscale digits out)
  end.

(** ** What the datum denotes

    PostgreSQL's [make_result]: the short header when scale and weight fit it,
    the long one otherwise, then the digits. *)
Record Num := MkNum { sign : bool; weight : Z; dscale : Z; ndigits : list Z }.

Definition short_header (v : Num) : Z :=
  NUMERIC_SHORT + (if sign v then NUMERIC_SHORT_SIGN_MASK else 0) + dscale v * 2 ^ 7 + weight v mod 2 ^ 7.

Definition long_header (v : Num) : Z := (if sign v then NUMERIC_NEG else 0) + dscale v.

Definition digit_bytes (ds : list Z) : list Z := concat (map (le_enc 2) ds).

Definition short_form (v : Num) : bool := (dscale v <=? 63) && (-64 <=? weight v) && (weight v <=? 63).

Definition numeric_body (v : Num) : list Z :=
  if short_form v then le_enc 2 (short_header v) ++ digit_bytes (ndigits v)
  else le_enc 2 (long_header v) ++ le_enc 2 (weight v mod 2 ^ 16) ++ digit_bytes (ndigits v).

Definition num_ok (v : Num) : Prop :=
  0 <= dscale v < 2 ^ 14 /\ - 2 ^ 15 <= weight v < 2 ^ 15 /\ zlen (ndigits v) <= NUMERIC_DSCALE_MASK + 4 /\
  Forall (fun d => 0 <= d < 10000) (ndigits v).

(** The first [n] base-10000 digits as an integer, missing ones zero. *)
Fixpoint prefix_value (ds : list Z) (n : nat) : Z :=
  match n with
  | O => 0
  | S n => prefix_value ds n * 10000 + default 0 (ds !! n)
  end.

(** ** Header round trip: every short header and every long one, by
    evaluation. *)
Fixpoint forall_from (P : Z -> bool) (n : nat) (z : Z) : bool :=
  match n with
  | O => true
  | S n => P z && forall_from P n (z + 1)
  end.

Lemma forall_from_spec P n : forall z z', forall_from P n z = true -> z <= z' < z + Z.of_nat n -> P z' = true.
Proof.
  induction n as [|n IH]; intros z z' H Hz; [lia|]. cbn [forall_from] in H. apply andb_true_iff in H as [H1 H2].
  destruct (decide (z' = z)) as [->|Hne]; [done|]. apply (IH (z + 1)); [done|lia].
Qed.

Definition short_check (s : bool) (d m : Z) : bool :=
  let h := NUMERIC_SHORT + (if s then NUMERIC_SHORT_SIGN_MASK else 0) + d * 2 ^ 7 + m in
  (Z.land h NUMERIC_SIGN_MASK =? NUMERIC_SHORT) &&
  Bool.eqb (Z.land h NUMERIC_SHORT_SIGN_MASK =? 0) (negb s) &&
  (Z.shiftr (Z.land h NUMERIC_SHORT_DSCALE_MASK) NUMERIC_SHORT_DSCALE_SHIFT =? d) &&
  ((if negb (Z.land h NUMERIC_SHORT_WEIGHT_SIGN_MASK =? 0)
    then Z.lor (Z.land h NUMERIC_SHORT_WEIGHT_MASK) (Z.lnot NUMERIC_SHORT_WEIGHT_MASK)
    else Z.land h NUMERIC_SHORT_WEIGHT_MASK) =? signed 7 m).

Lemma short_check_all s d m : 0 <= d < 64 -> 0 <= m < 128 -> short_check s d m = true.
Proof.
  intros Hd Hm. apply (forall_from_spec (short_check s d) 128 0); [|exact Hm].
  apply (forall_from_spec (fun d => forall_from (short_check s d) 128 0) 64 0); [|exact Hd].
  destruct s; vm_compute; reflexivity.
Qed.

Definition long_check (s : bool) (d : Z) : bool :=
  let h := (if s then NUMERIC_NEG else 0) + d in
  (Z.land h NUMERIC_SIGN_MASK =? (if s then NUMERIC_NEG else NUMERIC_POS)) && (Z.land h NUMERIC_DSCALE_MASK =? d).

Lemma long_check_all s d : 0 <= d < 2 ^ 14 -> long_check s d = true.
Proof.
  intros Hd. apply (forall_from_spec (long_check s) (Z.to_nat (2 ^ 14)) 0); [|lia].
  destruct s; vm_compute; reflexivity.
Qed.

Lemma signed_mod w z : 0 < w -> - 2 ^ (w - 1) <= z < 2 ^ (w - 1) -> signed w (z mod 2 ^ w) = z.
Proof.
  intros Hw Hz. unfold signed. assert (2 ^ w = 2 * 2 ^ (w - 1)) as E. { rewrite <- Z.pow_succ_r by lia. f_equal. lia. }
  destruct (Z_lt_le_dec z 0) as [Hn|Hn].
  - rewrite <- (Z.mod_unique_pos z (2 ^ w) (-1) (z + 2 ^ w)) by lia.
    destruct (_ <? _) eqn:El; lia.
  - rewrite Z.mod_small by lia. destruct (_ <? _) eqn:El; lia.
Qed.

(** The digits as the parser holds them. *)
Definition raw_digits (ds : list Z) : list (Z * Z) := map (fun d => (d mod 256, d / 256 mod 256)) ds.

Lemma chunks2_digit_bytes ds : chunks2 (digit_bytes ds) = raw_digits ds.
Proof.
  induction ds as [|d ds IH]; [done|]. unfold digit_bytes, raw_digits in *. cbn [map concat le_enc app chunks2]. by f_equal.
Qed.

Lemma digit_bytes_len ds : zlen (raw_digits ds) = zlen ds.
Proof. unfold raw_digits, zlen. by rewrite length_map. Qed.

Lemma parse_numeric_body v : num_ok v ->
  parse_numeric (numeric_body v) = Ok (FiniteNum (sign v) (weight v) (dscale v) (raw_digits (ndigits v))).
Proof.
  intros (Hs & Hw & Hl & _). unfold parse_numeric, numeric_body. destruct (short_form v) eqn:Ef.
  - unfold short_form in Ef. rewrite !andb_true_iff in Ef. destruct Ef as [[? ?] ?]. pose proof (Z.mod_pos_bound (weight v) (2 ^ 7) ltac:(lia)) as Hm.
    pose proof (short_check_all (sign v) (dscale v) (weight v mod 2 ^ 7) ltac:(lia) ltac:(lia)) as Hc.
    unfold short_check in Hc. fold (short_header v) in Hc.
    assert (0 <= short_header v < 2 ^ 16) as Hh.
    { unfold short_header, NUMERIC_SHORT, NUMERIC_SHORT_SIGN_MASK. destruct (sign v); lia. }
    set (h := short_header v) in *. rewrite !andb_true_iff in Hc. destruct Hc as [[[C1 C2] C3] C4].
    apply Z.eqb_eq in C1, C3, C4. apply eqb_prop in C2.
    rewrite (proj2 (Z.ltb_ge _ _)) by zlen.
    replace (u16_at (le_enc 2 h ++ digit_bytes (ndigits v)) 0) with h.
    2: { unfold u16_at. rewrite sub_here by zlen. rewrite le_dec_enc_small; lia. }
    rewrite C1, C2, C3, C4. change (NUMERIC_SHORT =? NUMERIC_SPECIAL) with false.
    change (NUMERIC_SHORT =? NUMERIC_SHORT) with true. rewrite negb_involutive. cbv beta iota.
    rewrite zdrop_app_exact, chunks2_digit_bytes, digit_bytes_len by zlen.
    rewrite (signed_mod 7) by lia. rewrite (proj2 (Z.ltb_ge (dscale v) 0)), (proj2 (Z.ltb_ge _ (zlen _))) by (unfold NUMERIC_DSCALE_MASK in *; lia).
    by destruct (sign v).
  - pose proof (long_check_all (sign v) (dscale v) ltac:(lia)) as Hc.
    unfold long_check in Hc. fold (long_header v) in Hc.
    assert (0 <= long_header v < 2 ^ 16) as Hh by (unfold long_header, NUMERIC_NEG; destruct (sign v); lia).
    set (h := long_header v) in *. apply andb_true_iff in Hc as [C1 C2]. apply Z.eqb_eq in C1, C2.
    rewrite (proj2 (Z.ltb_ge (zlen _) 2)), (proj2 (Z.ltb_ge (zlen _) 4)) by zlen.
    set (w2 := weight v mod 2 ^ 16).
    replace (u16_at _ 0) with h by (unfold u16_at; rewrite sub_here by zlen; rewrite le_dec_enc_small; lia).
    replace (i16_at _ 2) with (weight v).
    2: { unfold i16_at, u16_at. rewrite sub_skip, sub_here by zlen. pose proof (Z.mod_pos_bound (weight v) (2 ^ 16) ltac:(lia)).
         rewrite le_dec_enc_small by (subst w2; lia). subst w2. rewrite (signed_mod 16) by lia. done. }
    rewrite C1, C2, (app_assoc (le_enc 2 h)).
    replace (((if sign v then NUMERIC_NEG else NUMERIC_POS) =? NUMERIC_SPECIAL)) with false by (by destruct (sign v)).
    replace (((if sign v then NUMERIC_NEG else NUMERIC_POS) =? NUMERIC_SHORT)) with false by (by destruct (sign v)).
    rewrite zdrop_app_exact, chunks2_digit_bytes, digit_bytes_len by zlen.
    rewrite (proj2 (Z.ltb_ge (dscale v) 0)), (proj2 (Z.ltb_ge _ (zlen _))) by lia.
    by destruct (sign v).
Qed.

(** ** The text as a decimal expansion *)
Lemma dec_val_app a b : dec_val (a ++ b) = dec_val a * 10 ^ zlen b + dec_val b.
Proof.
  unfold dec_val. rewrite fold_left_app. generalize (fold_left (fun x y => x * 10 + (y - 48)) a 0). intros x.
  revert x. induction b as [|c b IH] using rev_ind; intros x; [change (zlen []) with 0; cbn [fold_left]; lia|].
  rewrite !fold_left_app, IH. cbn [fold_left]. rewrite zlen_app. change (zlen [c]) with 1.
  pose proof (zlen_nonneg b). rewrite Z.pow_add_r by lia. lia.
Qed.

Definition decimal (l : list Z) : Prop := Forall (fun c => 48 <= c <= 57) l.

Lemma dec_val_bound l : decimal l -> 0 <= dec_val l < 10 ^ zlen l.
Proof.
  induction l as [|c l IH] using rev_ind; intros H; [by vm_compute|].
  apply Forall_app in H as [H1 H2]. apply Forall_cons_1 in H2 as [H2 _]. specialize (IH H1).
  rewrite dec_val_app, zlen_app. change (zlen [c]) with 1. pose proof (zlen_nonneg l).
  rewrite Z.pow_add_r by lia. assert (dec_val [c] = c - 48) as -> by (unfold dec_val; cbn [fold_left]; lia). change (10 ^ 1) with 10. cbv beta in H2.
  lia.
Qed.

Lemma dec_val_take n l : decimal l -> 0 <= n <= zlen l -> dec_val (ztake n l) = dec_val l / 10 ^ (zlen l - n).
Proof.
  intros Hl Hn. rewrite <- (ztake_zdrop_id n l) at 2. rewrite dec_val_app, zlen_zdrop.
  replace (Z.max 0 (zlen l - Z.max 0 n)) with (zlen l - n) by lia.
  assert (decimal (zdrop n l)) as Hd by (by apply Forall_drop).
  apply dec_val_bound in Hd. rewrite zlen_zdrop in Hd. replace (Z.max 0 (zlen l - Z.max 0 n)) with (zlen l - n) in Hd by lia.
  rewrite Z.div_add_l by lia. rewrite (Z.div_small (dec_val (zdrop n l))) by lia. lia.
Qed.

Lemma dec_digits_spec g : 0 <= g < 10000 -> decimal (dec_digits g) /\ zlen (dec_digits g) = 4 /\ dec_val (dec_digits g) = g.
Proof.
  intros Hg. split; [|split; [done|]].
  - unfold decimal, dec_digits. repeat (constructor; [match goal with |- context [?x mod 10] => pose proof (Z.mod_pos_bound x 10 ltac:(lia)) end; lia|]). constructor.
  - unfold dec_val, dec_digits. cbn [fold_left]. Z.to_euclidean_division_equations. lia.
Qed.

Lemma digit_at_raw ds d : Forall (fun d => 0 <= d < 10000) ds -> digit_at (raw_digits ds) d = default 0 (zget ds d).
Proof.
  intros H. unfold digit_at, raw_digits, zget. destruct (0 <=? d); [|done]. rewrite list_lookup_fmap.
  destruct (ds !! Z.to_nat d) as [x|] eqn:E; [|done]. cbn. rewrite Forall_lookup in H. specialize (H _ _ E). cbn in H.
  rewrite Z.mul_0_r, Z.add_0_r. unfold signed. change (2 ^ (16 - 1)) with 32768. change (2 ^ 16) with 65536.
  assert (x mod 256 + 256 * (x / 256 mod 256) = x) as -> by (Z.to_euclidean_division_equations; lia).
  destruct (x <? 32768) eqn:El; lia.
Qed.

Lemma digit_at_ok ds d : Forall (fun d => 0 <= d < 10000) ds -> 0 <= digit_at (raw_digits ds) d < 10000.
Proof.
  intros H. rewrite digit_at_raw by done. unfold zget. destruct (0 <=? d); [|cbn; lia].
  destruct (ds !! Z.to_nat d) eqn:E; cbn; [|lia]. rewrite Forall_lookup in H. by apply (H _ _ E).
Qed.

(** The characters of [n] groups from [d] on. *)
Fixpoint group_chars (n : nat) (ds : list (Z * Z)) (d : Z) : list Z :=
  match n with
  | O => []
  | S n => group ds d ++ group_chars n ds (d + 1)
  end.

Lemma push_groups_chars n : forall ds d out, push_groups n ds d out = out ++ group_chars n ds d.
Proof.
  induction n as [|n IH]; intros ds d out; cbn [push_groups group_chars]; [by rewrite app_nil_r|].
  by rewrite IH, <- app_assoc.
Qed.

Lemma push_limited_spec s cs : forall written out, written <= s ->
  push_limited s cs written out = (Z.min s (written + zlen cs), out ++ ztake (s - written) cs).
Proof.
  induction cs as [|c cs IH]; intros written out Hw; cbn [push_limited].
  - change (zlen []) with 0. unfold ztake. rewrite take_nil, app_nil_r. f_equal. lia.
  - rewrite zlen_cons. pose proof (zlen_nonneg cs). destruct (Z.eqb_spec written s) as [->|Hne].
    + rewrite Z.sub_diag. unfold ztake. cbn [Z.to_nat take]. rewrite app_nil_r. f_equal. lia.
    + rewrite IH by lia. f_equal; [lia|]. rewrite <- app_assoc. f_equal. unfold ztake.
      replace (Z.to_nat (s - written)) with (S (Z.to_nat (s - (written + 1)))) by lia. done.
Qed.

Lemma group_len ds d : zlen (group ds d) = 4.
Proof. done. Qed.

Lemma frac_loop_text fuel : forall s ds written d out n, written <= s -> s - written <= Z.of_nat fuel ->
  s - written <= 4 * Z.of_nat n ->
  frac_loop fuel s ds written d out = out ++ ztake (s - written) (group_chars n ds d).
Proof.
  induction fuel as [|fuel IH]; intros s ds written d out n Hw Hf Hn; cbn [frac_loop].
  - replace (s - written) with 0 by lia. unfold ztake. cbn. by rewrite app_nil_r.
  - destruct (Z.ltb_spec written s).
    2: { replace (s - written) with 0 by lia. unfold ztake. cbn. by rewrite app_nil_r. }
    destruct n as [|n]; [lia|]. rewrite push_limited_spec by lia. rewrite group_len.
    rewrite (IH _ _ _ _ _ n) by lia. rewrite <- app_assoc. f_equal. cbn [group_chars].
    destruct (Z_le_gt_dec (s - written) 4) as [Hle|Hgt].
    + rewrite (ztake_app_le (s - written)) by (rewrite group_len; lia).
      replace (s - Z.min s (written + 4)) with 0 by lia. unfold ztake at 2. cbn [Z.to_nat take]. by rewrite app_nil_r.
    + unfold ztake. rewrite take_app. f_equal. f_equal. change (length (group ds d)) with 4%nat. lia.
Qed.

Section Value.
Context (ds : list Z) (Hds : Forall (fun d => 0 <= d < 10000) ds).

Lemma group_chars_ok n : forall d, decimal (group_chars n (raw_digits ds) d) /\
  zlen (group_chars n (raw_digits ds) d) = 4 * Z.of_nat n.
Proof.
  induction n as [|n IH]; intros d; cbn [group_chars]; [split; [constructor|done]|].
  destruct (IH (d + 1)) as [H1 H2]. split.
  - apply Forall_app. split; [|done]. apply dec_digits_spec, (digit_at_ok _ _ Hds).
  - rewrite zlen_app, group_len. lia.
Qed.

Lemma prefix_step d : prefix_value ds (Z.to_nat (d + 1)) = prefix_value ds (Z.to_nat d) * 10000 + digit_at (raw_digits ds) d.
Proof.
  rewrite digit_at_raw by done. unfold zget. destruct (Z.leb_spec 0 d).
  - replace (Z.to_nat (d + 1)) with (S (Z.to_nat d)) by lia. done.
  - replace (Z.to_nat (d + 1)) with O by lia. replace (Z.to_nat d) with O by lia. done.
Qed.

Lemma group_chars_value n : forall d, prefix_value ds (Z.to_nat (d + Z.of_nat n)) =
  prefix_value ds (Z.to_nat d) * 10 ^ (4 * Z.of_nat n) + dec_val (group_chars n (raw_digits ds) d).
Proof.
  induction n as [|n IH]; intros d; cbn [group_chars].
  - rewrite Z.add_0_r. change (10 ^ (4 * Z.of_nat 0)) with 1. change (dec_val []) with 0. lia.
  - replace (d + Z.of_nat (S n)) with (d + 1 + Z.of_nat n) by lia.
    rewrite IH, prefix_step, dec_val_app. unfold group at 1.
    destruct (dec_digits_spec _ (digit_at_ok _ d Hds)) as (_ & _ & ->). rewrite (proj2 (group_chars_ok n (d + 1))).
    replace (4 * Z.of_nat (S n)) with (4 + 4 * Z.of_nat n) by lia. rewrite Z.pow_add_r by lia. change (10 ^ 4) with 10000. lia.
Qed.

(** Dropping leading zeros keeps the value, and at least one character. *)
Lemma drop_zeros l k : leading_zeros l <= zlen l /\ dec_val (zdrop (leading_zeros l) (l ++ k)) = dec_val (l ++ k).
Proof.
  induction l as [|c l [IH1 IH2]]; cbn [leading_zeros]; [done|].
  destruct (Z.eqb_spec c 48) as [->|]; [|split; [apply zlen_nonneg|done]]. rewrite zlen_cons. split; [lia|].
  assert (0 <= leading_zeros l). { clear. induction l as [|c l IH]; cbn [leading_zeros]; [lia|]. destruct (c =? 48); lia. }
  unfold zdrop in *. replace (Z.to_nat (1 + leading_zeros l)) with (S (Z.to_nat (leading_zeros l))) by lia.
  cbn [app drop]. rewrite IH2. done.
Qed.

Definition lead_chars (g : Z) : list Z := zdrop (leading_zeros (ztake 3 (dec_digits g))) (dec_digits g).

Definition lead_check (g : Z) : bool :=
  match lead_chars g with
  | [] => false
  | c :: rest => negb (c =? 48) || ((g =? 0) && (zlen rest =? 0))
  end.

Lemma lead_check_all g : 0 <= g < 10000 -> lead_check g = true.
Proof. intros Hg. apply (forall_from_spec lead_check (Z.to_nat 10000) 0); [vm_compute; reflexivity|lia]. Qed.

Lemma lead_chars_ok g : 0 <= g < 10000 -> decimal (lead_chars g) /\ dec_val (lead_chars g) = g.
Proof.
  intros Hg. destruct (dec_digits_spec _ Hg) as (Hd & _ & Hv). split; [by apply Forall_drop|].
  unfold lead_chars. rewrite <- (ztake_zdrop_id 3 (dec_digits g)) at 2.
  destruct (drop_zeros (ztake 3 (dec_digits g)) (zdrop 3 (dec_digits g))) as [_ ->]. by rewrite ztake_zdrop_id.
Qed.

(** The integer part of the text. *)
Definition int_chars (w : Z) : list Z :=
  if w <? 0 then [48] else lead_chars (digit_at (raw_digits ds) 0) ++ group_chars (Z.to_nat w) (raw_digits ds) 1.

Lemma int_chars_ok w : decimal (int_chars w) /\ int_chars w <> [] /\ dec_val (int_chars w) = prefix_value ds (Z.to_nat (w + 1)).
Proof.
  unfold int_chars. destruct (Z.ltb_spec w 0).
  - split; [repeat constructor; lia|]. split; [done|]. by replace (Z.to_nat (w + 1)) with O by lia.
  - pose proof (digit_at_ok ds 0 Hds) as Hg. destruct (lead_chars_ok _ Hg) as [H1 H2].
    destruct (group_chars_ok (Z.to_nat w) 1) as [H3 H4]. split; [by apply Forall_app|]. split.
    + pose proof (lead_check_all _ Hg) as Hc. unfold lead_check in Hc. by destruct (lead_chars _).
    + rewrite dec_val_app, H2, H4. pose proof (group_chars_value (Z.to_nat w) 1) as Hv.
      replace (1 + Z.of_nat (Z.to_nat w)) with (w + 1) in Hv by lia. rewrite Hv.
      assert (prefix_value ds (Z.to_nat 1) = digit_at (raw_digits ds) 0) as -> by exact (prefix_step 0).
      rewrite Z2Nat.id by lia. lia.
Qed.

Lemma int_chars_canonical w rest : w <= 0 \/ digit_at (raw_digits ds) 0 <> 0 -> int_chars w = 48 :: rest -> rest = [].
Proof.
  intros Hw E. unfold int_chars in E. destruct (Z.ltb_spec w 0); [congruence|].
  pose proof (lead_check_all _ (digit_at_ok ds 0 Hds)) as Hc. unfold lead_check in Hc.
  destruct (lead_chars _) as [|c l]; [done|]. injection E as -> <-. cbn in Hc.
  apply andb_true_iff in Hc as [Hz Hl]. destruct l; [|done].
  destruct Hw; [|lia]. by replace w with 0 by lia.
Qed.

End Value.

Lemma render_numeric_chars neg w s ds out : 0 <= s -> Forall (fun d => 0 <= d < 10000) ds ->
  render_numeric neg w s (raw_digits ds) out =
  out ++ (if neg then [45] else []) ++ int_chars ds w ++
    (if 0 <? s then 46 :: ztake s (group_chars (Z.to_nat ((s + 3) / 4)) (raw_digits ds) (w + 1)) else []).
Proof.
  intros Hs Hds. unfold render_numeric. set (o1 := if neg then out ++ [45] else out).
  assert (o1 = out ++ (if neg then [45] else [])) as Eo by (subst o1; destruct neg; [done|by rewrite app_nil_r]).
  assert ((if w <? 0 then o1 ++ [48]
     else push_groups (Z.to_nat w) (raw_digits ds) 1
       (o1 ++ zdrop (leading_zeros (ztake 3 (group (raw_digits ds) 0))) (group (raw_digits ds) 0))) =
    o1 ++ int_chars ds w) as ->.
  { unfold int_chars. destruct (w <? 0); [done|]. by rewrite push_groups_chars, <- app_assoc. }
  rewrite Eo. destruct (Z.ltb_spec 0 s); [|by rewrite app_nil_r, <- app_assoc].
  rewrite (frac_loop_text _ _ _ _ _ _ (Z.to_nat ((s + 3) / 4))).
  - rewrite Z.sub_0_r, <- !app_assoc. done.
  - lia.
  - lia.
  - Z.to_euclidean_division_equations. lia.
Qed.

(** A finite [numeric] renders as its exact decimal expansion.  For every
    value in PostgreSQL's layout, short header or long, the text is a sign, a
    non-empty integer part and, when the scale is positive, a point and
    exactly [dscale] fraction digits; integer and fraction digits together are
    the value the base-10000 digits denote, cut to [dscale] decimals; and the
    integer part has no superfluous leading zero. *)
Theorem numeric_text_exact v : num_ok v ->
  exists int frac,
    decode_numeric (numeric_body v) =
      Ok (Finite ((if sign v then [45] else []) ++ int ++ (if 0 <? dscale v then 46 :: frac else []))) /\
    decimal int /\ decimal frac /\ int <> [] /\ zlen frac = dscale v /\
    (let g := (dscale v + 3) / 4 in
     dec_val (int ++ frac) = prefix_value (ndigits v) (Z.to_nat (weight v + 1 + g)) / 10 ^ (4 * g - dscale v)) /\
    (weight v <= 0 \/ nth 0 (ndigits v) 0 <> 0 -> forall rest, int = 48 :: rest -> rest = []).
Proof.
  intros Hv. pose proof Hv as (Hs & Hw & _ & Hds). set (g := (dscale v + 3) / 4).
  assert (0 <= 4 * g - dscale v < 4) as Hg by (subst g; Z.to_euclidean_division_equations; lia).
  set (l := group_chars (Z.to_nat g) (raw_digits (ndigits v)) (weight v + 1)).
  destruct (group_chars_ok _ Hds (Z.to_nat g) (weight v + 1)) as [Hl1 Hl2]. fold l in Hl1, Hl2.
  destruct (int_chars_ok _ Hds (weight v)) as (Hi1 & Hi2 & Hi3).
  exists (int_chars (ndigits v) (weight v)), (ztake (dscale v) l).
  split; [|split; [|split; [|split; [|split; [|split]]]]]; try done.
  - unfold decode_numeric. rewrite parse_numeric_body by done. rewrite render_numeric_chars by (done || lia). done.
  - by apply Forall_take.
  - rewrite zlen_ztake, Hl2. lia.
  - cbv zeta. rewrite dec_val_app, zlen_ztake, (dec_val_take _ _ Hl1), Hi3, Hl2 by lia.
    replace (Z.min (Z.max 0 (dscale v)) (4 * Z.of_nat (Z.to_nat g))) with (dscale v) by lia.
    pose proof (group_chars_value _ Hds (Z.to_nat g) (weight v + 1)) as E. fold l in E.
    rewrite Z2Nat.id in * by lia. rewrite E.
    replace (10 ^ (4 * g)) with (10 ^ dscale v * 10 ^ (4 * g - dscale v)) by (rewrite <- Z.pow_add_r by lia; f_equal; lia).
    rewrite Z.mul_assoc, Z.div_add_l by lia. lia.
  - intros Hz rest. apply int_chars_canonical; [done|]. destruct Hz as [Hz|Hz]; [by left|right].
    rewrite digit_at_raw by done. unfold zget. cbn. by destruct (ndigits v).
Qed.

(** [-1234567.0450]. *)
Lemma numeric_text_exact_witness :
  num_ok (MkNum true 1 4 [123; 4567; 450]) /\
  exists int frac,
    decode_numeric (numeric_body (MkNum true 1 4 [123; 4567; 450])) = Ok (Finite ([45] ++ int ++ 46 :: frac)) /\
    dec_val (int ++ frac) = 12345670450 /\ zlen frac = 4.
Proof.
  assert (num_ok (MkNum true 1 4 [123; 4567; 450])) as Hv.
  { split; [cbn; lia|]. split; [cbn; lia|]. split; [by vm_compute|]. cbn. repeat (constructor; [lia|]). constructor. }
  split; [exact Hv|].
  destruct (numeric_text_exact (MkNum true 1 4 [123; 4567; 450]) Hv) as (int & frac & E & _ & _ & _ & Hl & Hval & _).
  exists int, frac. split; [exact E|]. split; [rewrite Hval; reflexivity|exact Hl].
Defined.

End Numeric.
