(* ===== verification/Decimal.v ===== *)
(** * [numeric] text as a ClickHouse decimal ([src/emit/ch_emitter.rs])

    The 256-bit magnitude of four 64-bit limbs, the digit loop over
    [numeric_out]'s text, the rescaling, and the two's complement bytes of the
    wire width. *)
From S2P Require Import Prelude Text AsciiBuf Numeric.
Import Text.

Module Decimal.

(** The four limbs, least significant first. *)
Definition U256 := list Z.

Definition zero : U256 := [0; 0; 0; 0].

Definition is_zero (m : U256) : bool := bool_decide (m = zero).

(** [limbs[bit / 64] = 1 << (bit % 64)]. *)
Definition one_shl (bit : Z) : U256 := <[Z.to_nat (bit / 64) := Z.shiftl 1 (bit mod 64)]> zero.

(** The loop of [checked_mul_small], with its last carry. *)
Fixpoint mul_limbs (rhs carry : Z) (m : U256) : U256 * Z :=
  match m with
  | [] => ([], carry)
  | limb :: m =>
      let v := limb * rhs + carry in
      let '(m, c) := mul_limbs rhs (Z.shiftr v 64) m in (wrap 64 v :: m, c)
  end.

Definition checked_mul_small (m : U256) (rhs : Z) : U256 * bool := let '(m, c) := mul_limbs rhs 0 m in (m, c =? 0).

(** The loop of [checked_add_small], which returns as soon as the carry is out. *)
Fixpoint add_limbs (carry : Z) (m : U256) : U256 * bool :=
  match m with
  | [] => ([], false)
  | limb :: m =>
      let v := limb + carry in
      if Z.shiftr v 64 =? 0 then (wrap 64 v :: m, true)
      else let '(m, ok) := add_limbs (Z.shiftr v 64) m in (wrap 64 v :: m, ok)
  end.

Definition checked_add_small (m : U256) (rhs : Z) : U256 * bool := add_limbs rhs m.

(** The loop of [div_small] from the top limb down, with the remainder. *)
Fixpoint div_limbs (rhs : Z) (m : U256) : U256 * Z :=
  match m with
  | [] => ([], 0)
  | limb :: m =>
      let '(m, rem) := div_limbs rhs m in
      let v := Z.lor (Z.shiftl rem 64) limb in (v / rhs :: m, v mod rhs)
  end.

Definition div_small (m : U256) (rhs : Z) : U256 * Z := div_limbs rhs m.

Definition to_le_bytes (m : U256) : list Z := concat (map (le_enc 8) m).

(** [Ord::cmp], the top limbs first. *)
Fixpoint cmp (a b : U256) : comparison :=
  match a, b with
  | x :: a, y :: b => match cmp a b with Eq => x ?= y | c => c end
  | _, _ => Eq
  end.

Inductive DecimalWidth := D32 | D64 | D128 | D256.

Definition width_bytes (w : DecimalWidth) : Z := match w with D32 => 4 | D64 => 8 | D128 => 16 | D256 => 32 end.

(** [decimal_type_error] on the scale, [decimal_oob] on everything else. *)
Inductive DecimalError := NegativeScale | OutOfRange.

(** The digit loop: magnitude, fraction digits, whether a point and a digit have
    been seen. *)
Record Scan := MkScan { mag : U256; frac_digits : Z; seen_dot : bool; saw_digit : bool }.

Definition scan_byte (s : Scan) (b : Z) : option Scan :=
  if (b =? 46) && negb (seen_dot s) then Some (MkScan (mag s) (frac_digits s) true (saw_digit s))
  else if (48 <=? b) && (b <=? 57) then
    let '(m, ok) := checked_mul_small (mag s) 10 in
    if negb ok then None
    else
      let '(m, ok) := checked_add_small m (b - 48) in
      if negb ok then None
      else Some (MkScan m (if seen_dot s then frac_digits s + 1 else frac_digits s) (seen_dot s) true)
  else None.

Fixpoint scan (s : Scan) (body : list Z) : option Scan :=
  match body with
  | [] => Some s
  | b :: body => let* s := scan_byte s b in scan s body
  end.

Fixpoint mul_10s (n : nat) (m : U256) : option U256 :=
  match n with
  | O => Some m
  | S n => let '(m, ok) := checked_mul_small m 10 in if ok then mul_10s n m else None
  end.

Fixpoint div_10s (n : nat) (m : U256) : U256 :=
  match n with
  | O => m
  | S n => div_10s n (div_small m 10).1
  end.

Definition rescale (m : U256) (diff : Z) : option U256 :=
  if 0 <? diff then mul_10s (Z.to_nat diff) m
  else if diff <? 0 then Some (div_10s (Z.to_nat (- diff)) m)
  else Some m.

(** The increment of the two's complement, byte by byte. *)
Fixpoint add_bytes (carry : Z) (l : list Z) : list Z :=
  match l with
  | [] => []
  | b :: l =>
      let v := b + carry in
      if Z.shiftr v 8 =? 0 then wrap 8 v :: l else wrap 8 v :: add_bytes (Z.shiftr v 8) l
  end.

Definition negate (width : Z) (out : list Z) : list Z :=
  add_bytes 1 (map (fun b => Z.lxor b 255) (ztake width out)) ++ zdrop width out.

Definition decimal_text_to_scaled_le (text : list Z) (scale : Z) (w : DecimalWidth) : result DecimalError (list Z) :=
  let width := width_bytes w in
  if scale <? 0 then Err NegativeScale
  else
    let neg := match text with 45 :: _ => true | _ => false end in
    let body := match text with 45 :: rest | 43 :: rest => rest | _ => text end in
    match scan (MkScan zero 0 false false) body with
    | None => Err OutOfRange
    | Some s =>
        if negb (saw_digit s) then Err OutOfRange
        else
          match rescale (mag s) (scale - frac_digits s) with
          | None => Err OutOfRange
          | Some m =>
              let limit := one_shl (width * 8 - 1) in
              let over := match cmp m limit with Lt => false | Eq => negb neg | Gt => true end in
              if over then Err OutOfRange
              else
                let out := to_le_bytes m in
                Ok (if neg && negb (is_zero m) then negate width out else out)
          end
    end.

(** ** Values of limbs *)
Definition limbs_ok (m : U256) : Prop := Forall (fits 64) m.

Fixpoint value (m : U256) : Z := match m with [] => 0 | l :: m => l + 2 ^ 64 * value m end.

Definition big (n : nat) : Z := 2 ^ (64 * Z.of_nat n).

Lemma big_S n : big (S n) = 2 ^ 64 * big n.
Proof. unfold big. rewrite <-Z.pow_add_r by lia. f_equal. lia. Qed.

Lemma value_bound m : limbs_ok m -> 0 <= value m < big (length m).
Proof. induction 1 as [|l m Hl Hm IH]; [done|]. cbn [value length]. rewrite big_S. unfold fits in Hl. nia. Qed.

Lemma split_64 v : 0 <= v -> v = wrap 64 v + 2 ^ 64 * Z.shiftr v 64 /\ fits 64 (wrap 64 v) /\ 0 <= Z.shiftr v 64.
Proof.
  intros Hv. rewrite Z.shiftr_div_pow2 by lia. unfold wrap, fits. pose proof (Z.div_mod v (2 ^ 64) ltac:(lia)). pose proof (Z.mod_pos_bound v (2 ^ 64) ltac:(lia)).
  pose proof (Z.div_pos v (2 ^ 64) Hv ltac:(lia)). lia.
Qed.

Lemma mul_limbs_spec rhs m : 0 <= rhs -> limbs_ok m -> forall carry, 0 <= carry ->
  let '(m', c) := mul_limbs rhs carry m in
  limbs_ok m' /\ length m' = length m /\ 0 <= c /\ value m' + big (length m) * c = value m * rhs + carry.
Proof.
  intros Hr. induction 1 as [|l m Hl Hm IH]; intros carry Hc; cbn [mul_limbs]; [split_and!; [constructor|done|done|unfold big; cbn; lia]|].
  unfold fits in Hl. destruct (split_64 (l * rhs + carry) ltac:(nia)) as (E & Hw & Hs). specialize (IH _ Hs). destruct (mul_limbs rhs _ m) as [m' c].
  destruct IH as (H1 & H2 & H3 & H4). split_and!; [by constructor|cbn; lia|done|]. cbn [value length]. rewrite big_S. nia.
Qed.

Lemma mul_small_spec m rhs : 0 <= rhs -> limbs_ok m -> let '(m', ok) := checked_mul_small m rhs in
  limbs_ok m' /\ length m' = length m /\ (if ok then value m' = value m * rhs else big (length m) <= value m * rhs).
Proof.
  intros Hr Hm. unfold checked_mul_small. pose proof (mul_limbs_spec rhs m Hr Hm 0 ltac:(lia)) as Hs. destruct (mul_limbs rhs 0 m) as [m' c]. destruct Hs as (H1 & H2 & H3 & H4).
  split; [done|]. split; [done|]. pose proof (value_bound m' H1). destruct (Z.eqb_spec c 0); [subst; lia|]. assert (0 < big (length m)) by (apply Z.pow_pos_nonneg; lia). nia.
Qed.

Lemma add_limbs_spec m : limbs_ok m -> forall carry, fits 64 carry -> let '(m', ok) := add_limbs carry m in
  limbs_ok m' /\ length m' = length m /\ (if ok then value m' = value m + carry else big (length m) <= value m + carry \/ m = []).
Proof.
  induction 1 as [|l m Hl Hm IH]; intros carry Hc; cbn [add_limbs]; [split_and!; [constructor|done|by right]|].
  unfold fits in Hl, Hc. destruct (split_64 (l + carry) ltac:(lia)) as (E & Hw & Hs). destruct (Z.eqb_spec (Z.shiftr (l + carry) 64) 0) as [Ez|Ez].
  - split_and!; [by constructor|done|]. cbn [value]. lia.
  - assert (Z.shiftr (l + carry) 64 = 1) as E1 by (unfold fits in Hw; lia). rewrite E1 in *. specialize (IH 1 ltac:(unfold fits; lia)). destruct (add_limbs 1 m) as [m' ok].
    destruct IH as (H1 & H2 & H3). split_and!; [by constructor|cbn; lia|]. cbn [value length]. rewrite big_S. destruct ok; [lia|]. left. destruct H3 as [H3| ->]; [unfold fits in Hw; lia|].
    cbn [length value]. change (big 0) with 1. unfold fits in Hw. lia.
Qed.

Lemma div_limbs_spec rhs m : 0 < rhs <= 2 ^ 64 -> limbs_ok m -> let '(m', rem) := div_limbs rhs m in
  limbs_ok m' /\ length m' = length m /\ 0 <= rem < rhs /\ value m = value m' * rhs + rem.
Proof.
  intros Hr. induction 1 as [|l m Hl Hm IH]; cbn [div_limbs]; [split_and!; [constructor|done|lia|lia|done]|]. destruct (div_limbs rhs m) as [m' rem]. destruct IH as (H1 & H2 & H3 & H4).
  assert (Z.lor (Z.shiftl rem 64) l = rem * 2 ^ 64 + l) as ->.
  { rewrite Z.shiftl_mul_pow2 by lia. rewrite <-Z.lxor_lor, <-Z.add_nocarry_lxor; [done|..].
    all: apply Z.bits_inj'; intros n Hn; rewrite Z.land_spec, Z.bits_0; destruct (Z.lt_ge_cases n 64) as [Hlt|Hge]; [rewrite Z.mul_pow2_bits_low by lia; done|].
    all: rewrite (Z.bits_above_log2 l n), andb_false_r; [done|unfold fits in Hl; lia|]; unfold fits in Hl; destruct (Z.eq_dec l 0) as [->|]; [cbn; lia|]; enough (Z.log2 l < 64) by lia; apply Z.log2_lt_pow2; lia. }
  set (v := rem * 2 ^ 64 + l) in *. pose proof (Z.div_mod v rhs ltac:(lia)) as E. pose proof (Z.mod_pos_bound v rhs ltac:(lia)) as B. unfold fits in Hl.
  assert (0 <= v / rhs < 2 ^ 64) as Hq by (split; [apply Z.div_pos; unfold v; lia|apply Z.div_lt_upper_bound; [lia|unfold v; nia]]).
  split_and!; [by constructor|cbn; lia|lia|lia|]. cbn [value]. rewrite H4. assert (v = rem * 2 ^ 64 + l) as Ev by done. clearbody v. set (q := v / rhs) in *. set (r := v mod rhs) in *. clearbody q r. lia.
Qed.

Lemma add_small_spec m rhs : fits 64 rhs -> limbs_ok m -> m <> [] -> let '(m', ok) := checked_add_small m rhs in
  limbs_ok m' /\ length m' = length m /\ (if ok then value m' = value m + rhs else big (length m) <= value m + rhs).
Proof.
  intros Hr Hm Hne. pose proof (add_limbs_spec m Hm rhs Hr) as Hs. unfold checked_add_small. destruct (add_limbs rhs m) as [m' ok]. destruct Hs as (H1 & H2 & H3).
  split_and!; [done|done|]. destruct ok; [done|]. by destruct H3.
Qed.

Lemma cmp_spec a b : limbs_ok a -> limbs_ok b -> length a = length b -> cmp a b = (value a ?= value b).
Proof.
  intros Ha. revert b. induction Ha as [|x a Hx Ha IH]; intros [|y b] Hb Hl; try done. apply Forall_cons_1 in Hb as [Hy Hb]. cbn [cmp value]. rewrite IH by (done || (cbn in Hl; lia)).
  unfold fits in *. destruct (Z.compare_spec (value a) (value b)) as [E|E|E].
  - rewrite E. destruct (Z.compare_spec x y); symmetry; [apply Z.compare_eq_iff|apply Z.compare_lt_iff|apply Z.compare_gt_iff]; lia.
  - symmetry. apply Z.compare_lt_iff. nia.
  - symmetry. apply Z.compare_gt_iff. nia.
Qed.

Lemma le_bytes_value m : limbs_ok m -> le_dec (to_le_bytes m) = value m /\ zlen (to_le_bytes m) = 8 * zlen m /\ bytes_ok (to_le_bytes m).
Proof.
  unfold to_le_bytes. induction 1 as [|l m Hl Hm (IH1 & IH2 & IH3)]; [split_and!; [done|done|constructor]|]. cbn [map concat value]. rewrite le_dec_app, zlen_app, zlen_le_enc, zlen_cons, IH1, IH2.
  rewrite le_dec_enc_small by exact Hl. split; [lia|]. split; [lia|]. apply bytes_ok_app; [apply le_enc_ok|done].
Qed.

(** The limits are powers of two within the four limbs. *)
Lemma limit_spec w : limbs_ok (one_shl (width_bytes w * 8 - 1)) /\ length (one_shl (width_bytes w * 8 - 1)) = 4%nat /\ value (one_shl (width_bytes w * 8 - 1)) = 2 ^ (width_bytes w * 8 - 1).
Proof. destruct w; (split_and!; [|done|done]); repeat (constructor; [done|]); constructor. Qed.

(** ** Two's complement *)
Lemma add_bytes_spec l : bytes_ok l -> forall carry, 0 <= carry <= 1 -> bytes_ok (add_bytes carry l) /\ length (add_bytes carry l) = length l /\
  le_dec (add_bytes carry l) = (le_dec l + carry) mod 256 ^ zlen l.
Proof.
  induction 1 as [|b l Hb Hl IH]; intros carry Hc; cbn [add_bytes]; [split_and!; [constructor|done|by rewrite Z.mod_1_r]|]. unfold byte_ok in Hb. rewrite Z.shiftr_div_pow2 by lia. change (2 ^ 8) with 256.
  pose proof (le_dec_bound l Hl) as Hbd. rewrite zlen_cons, Z.pow_add_r by (pose proof (zlen_nonneg l); lia). change (256 ^ 1) with 256. unfold wrap. change (2 ^ 8) with 256.
  destruct (Z.lt_ge_cases (b + carry) 256) as [Hlt|Hge].
  - rewrite (Z.div_small (b + carry)), (Z.mod_small (b + carry) 256) by lia. cbn [Z.eqb]. split_and!; [constructor; [unfold byte_ok; lia|done]|done|]. cbn [le_dec]. rewrite Z.mod_small; nia.
  - assert (b = 255 /\ carry = 1) as [-> ->] by lia. change ((255 + 1) / 256) with 1. change ((255 + 1) mod 256) with 0. cbn [Z.eqb]. destruct (IH 1 ltac:(lia)) as (H1 & H2 & H3).
    split_and!; [constructor; [done|exact H1]|cbn; lia|]. cbn [le_dec]. rewrite H3. replace (255 + 256 * le_dec l + 1) with (256 * (le_dec l + 1)) by lia. rewrite Zmult_mod_distr_l. lia.
Qed.

Lemma flip_bytes_spec l : bytes_ok l -> bytes_ok (map (fun b => Z.lxor b 255) l) /\ le_dec (map (fun b => Z.lxor b 255) l) = 256 ^ zlen l - 1 - le_dec l.
Proof.
  assert (forall b, byte_ok b -> Z.lxor b 255 = 255 - b) as Hx.
  { intros b Hb. assert (forallb (fun b => Z.lxor b 255 =? 255 - b) (seqZ 0 256) = true) as Hall by by vm_compute.
    apply Z.eqb_eq. apply (proj1 (List.forallb_forall _ _) Hall). apply list_elem_of_In, elem_of_seqZ. unfold byte_ok in Hb. lia. }
  induction 1 as [|b l Hb Hl [IH1 IH2]]; [split; [constructor|done]|]. cbn [map]. rewrite Hx by done. unfold byte_ok in Hb. split; [constructor; [unfold byte_ok; lia|done]|].
  cbn [le_dec]. rewrite IH2, zlen_cons, Z.pow_add_r by (pose proof (zlen_nonneg l); lia). change (256 ^ 1) with 256. lia.
Qed.

Lemma le_enc_mod n z : le_enc n z = le_enc n (z mod 256 ^ Z.of_nat n).
Proof.
  rewrite <-le_dec_enc. pose proof (le_enc_dec (le_enc n z) (le_enc_ok n z)) as E. pose proof (zlen_le_enc n z) as El. unfold zlen in El. apply Nat2Z.inj in El. rewrite El in E. congruence.
Qed.

(** A magnitude that fits the wire width, and its negation there. *)
Lemma high_zeros n l : bytes_ok l -> Z.of_nat n <= zlen l -> le_dec l < 256 ^ Z.of_nat n ->
  le_dec (ztake (Z.of_nat n) l) = le_dec l /\ l = ztake (Z.of_nat n) l ++ zrep (zlen l - Z.of_nat n) 0.
Proof.
  intros Hl Hn Hx. rewrite <-(ztake_zdrop_id (Z.of_nat n) l) in Hl. pose proof (f_equal le_dec (ztake_zdrop_id (Z.of_nat n) l)) as E. pose proof (ztake_zdrop_id (Z.of_nat n) l) as Es.
  set (a := ztake (Z.of_nat n) l) in *. set (b := zdrop (Z.of_nat n) l) in *. assert (zlen a = Z.of_nat n) as Ha by (unfold a; rewrite zlen_ztake; lia).
  assert (zlen b = zlen l - Z.of_nat n) as Hb by (unfold b; rewrite zlen_zdrop; lia). apply Forall_app in Hl as [HA HB]. rewrite le_dec_app, Ha in E.
  pose proof (le_dec_bound a HA). pose proof (le_dec_bound b HB). assert (0 < 256 ^ Z.of_nat n) by (apply Z.pow_pos_nonneg; lia). assert (le_dec b = 0) as Hb0 by nia.
  split; [nia|]. rewrite <-Es at 1. f_equal. rewrite <-(le_enc_dec b HB), Hb0. rewrite <-Hb. unfold zlen, zrep. rewrite Nat2Z.id. clear. induction (length b) as [|m IH]; [done|].
  cbn [le_enc replicate]. by rewrite Z.mod_0_l, Z.div_0_l, IH by lia.
Qed.

Lemma negate_spec a z : bytes_ok a -> negate (zlen a) (a ++ z) = le_enc (length a) (- le_dec a) ++ z.
Proof.
  intros HA. unfold negate. rewrite ztake_app_exact, zdrop_app_exact by done. f_equal. destruct (flip_bytes_spec a HA) as [HF EF]. destruct (add_bytes_spec _ HF 1 ltac:(lia)) as (H1 & H2 & H3).
  assert (zlen (map (fun b => Z.lxor b 255) a) = zlen a) as Hm by (unfold zlen; by rewrite length_map). rewrite EF, Hm in H3. rewrite length_map in H2.
  rewrite <-(le_enc_dec _ H1), H2, H3, (le_enc_mod _ (- le_dec a)). f_equal. fold (zlen a).
  replace (256 ^ zlen a - 1 - le_dec a + 1) with (- le_dec a + 1 * 256 ^ zlen a) by lia. rewrite Z.mod_add; [done|]. apply Z.pow_nonzero; [lia|apply zlen_nonneg].
Qed.

(** ** The digit loop *)
Definition digit (b : Z) : bool := (48 <=? b) && (b <=? 57).

(** Digits and at most one point. *)
Fixpoint well_formed (dot : bool) (body : list Z) : bool :=
  match body with
  | [] => true
  | b :: body => if (b =? 46) && negb dot then well_formed true body else digit b && well_formed dot body
  end.

Definition digits_of (body : list Z) : list Z := filter (fun b => digit b = true) body.

(** The fraction digits: those after the first point. *)
Fixpoint fraction (dot : bool) (body : list Z) : Z :=
  match body with
  | [] => 0
  | b :: body => if (b =? 46) && negb dot then fraction true body else (if dot then 1 else 0) + fraction dot body
  end.

Definition append_digits (n : Z) (ds : list Z) : Z := fold_left (fun x y => x * 10 + (y - 48)) ds n.

Lemma append_digits_le ds n : 0 <= n -> Forall (fun c => digit c = true) ds -> n <= append_digits n ds.
Proof.
  intros Hn HF. revert n Hn. induction HF as [|d ds Hd HF IH]; intros n Hn; cbn [append_digits fold_left]; [lia|]. fold (append_digits (n * 10 + (d - 48)) ds).
  unfold digit in Hd. apply andb_prop in Hd as [H1%Z.leb_le H2%Z.leb_le]. specialize (IH (n * 10 + (d - 48)) ltac:(lia)). lia.
Qed.

Lemma digits_digits body : Forall (fun c => digit c = true) (digits_of body).
Proof. apply Forall_elem. intros x [Hx _]%list_elem_of_filter. done. Qed.

Lemma scan_spec body s : limbs_ok (mag s) -> length (mag s) = 4%nat ->
  if well_formed (seen_dot s) body && (append_digits (value (mag s)) (digits_of body) <? 2 ^ 256) then
    exists s', scan s body = Some s' /\ limbs_ok (mag s') /\ length (mag s') = 4%nat /\ value (mag s') = append_digits (value (mag s)) (digits_of body) /\
      frac_digits s' = frac_digits s + fraction (seen_dot s) body /\ saw_digit s' = saw_digit s || bool_decide (digits_of body <> [])
  else scan s body = None.
Proof.
  revert s. induction body as [|b body IH]; intros s Hm Hl; cbn [scan well_formed fraction].
  - pose proof (value_bound _ Hm) as Hb. rewrite Hl in Hb. change (big 4) with (2 ^ 256) in Hb. cbn [digits_of filter list_filter append_digits fold_left andb].
    rewrite (proj2 (Z.ltb_lt _ _) (proj2 Hb)). exists s. rewrite Z.add_0_r, bool_decide_false, orb_false_r by (intros Hne; by apply Hne). done.
  - unfold scan_byte, digits_of. rewrite filter_cons. fold (digits_of body). destruct ((b =? 46) && negb (seen_dot s)) eqn:Ed.
    + apply andb_prop in Ed as [->%Z.eqb_eq Hd]. rewrite decide_False by done. exact (IH (MkScan (mag s) (frac_digits s) true (saw_digit s)) Hm Hl).
    + destruct (digit b) eqn:Eb; [|unfold digit in Eb; rewrite Eb; done]. rewrite decide_True by done. unfold digit in Eb. rewrite Eb. cbn [andb append_digits fold_left].
      fold (append_digits (value (mag s) * 10 + (b - 48)) (digits_of body)). apply andb_prop in Eb as [E1%Z.leb_le E2%Z.leb_le]. pose proof (value_bound _ Hm) as Hb.
      assert (2 ^ 256 <= value (mag s) * 10 + (b - 48) -> well_formed (seen_dot s) body && (append_digits (value (mag s) * 10 + (b - 48)) (digits_of body) <? 2 ^ 256) = false) as Hover.
      { intros Ho. pose proof (append_digits_le (digits_of body) (value (mag s) * 10 + (b - 48)) ltac:(lia) (digits_digits body)). rewrite (proj2 (Z.ltb_ge _ _)) by lia. apply andb_false_r. }
      pose proof (mul_small_spec (mag s) 10 ltac:(lia) Hm) as Hmul. destruct (checked_mul_small (mag s) 10) as [m1 [|]]; destruct Hmul as (M1 & M2 & M3); rewrite Hl in *; change (big 4) with (2 ^ 256) in *; cbn [negb].
      2:{ by rewrite Hover by lia. }
      pose proof (add_small_spec m1 (b - 48) ltac:(unfold fits; lia) M1 ltac:(intros ->; done)) as Hadd. destruct (checked_add_small m1 (b - 48)) as [m2 [|]]; destruct Hadd as (A1 & A2 & A3); rewrite M2 in *; change (big 4) with (2 ^ 256) in *; cbn [negb].
      2:{ by rewrite Hover by lia. }
      specialize (IH (MkScan m2 (if seen_dot s then frac_digits s + 1 else frac_digits s) (seen_dot s) true) A1 A2). cbn [mag seen_dot frac_digits saw_digit] in IH. rewrite A3, M3 in IH.
      destruct (well_formed (seen_dot s) body && _); [|exact IH]. destruct IH as (s' & -> & H1 & H2 & H3 & H4 & H5). exists s'. split_and!; try done.
      * rewrite H4. destruct (seen_dot s); lia.
      * rewrite H5, orb_true_l, bool_decide_true by done. by rewrite orb_true_r.
Qed.

Lemma mul_10s_spec n m : limbs_ok m -> length m = 4%nat ->
  if value m * 10 ^ Z.of_nat n <? 2 ^ 256 then exists m', mul_10s n m = Some m' /\ limbs_ok m' /\ length m' = 4%nat /\ value m' = value m * 10 ^ Z.of_nat n
  else mul_10s n m = None.
Proof.
  revert m. induction n as [|n IH]; intros m Hm Hl; cbn [mul_10s]; pose proof (value_bound m Hm) as Hb; rewrite Hl in Hb; change (big 4) with (2 ^ 256) in Hb.
  - rewrite Z.mul_1_r, (proj2 (Z.ltb_lt _ _) (proj2 Hb)). by exists m.
  - pose proof (mul_small_spec m 10 ltac:(lia) Hm) as Hmul. rewrite Hl in Hmul. change (big 4) with (2 ^ 256) in Hmul. rewrite Nat2Z.inj_succ, Z.pow_succ_r, Z.mul_assoc by lia.
    destruct (checked_mul_small m 10) as [m1 [|]]; destruct Hmul as (M1 & M2 & M3).
    + rewrite <-M3. by apply IH.
    + assert (1 <= 10 ^ Z.of_nat n) by (pose proof (Z.pow_pos_nonneg 10 (Z.of_nat n)); lia). by rewrite (proj2 (Z.ltb_ge _ _)) by nia.
Qed.

Lemma div_10s_spec n m : limbs_ok m -> length m = 4%nat -> limbs_ok (div_10s n m) /\ length (div_10s n m) = 4%nat /\ value (div_10s n m) = value m / 10 ^ Z.of_nat n.
Proof.
  revert m. induction n as [|n IH]; intros m Hm Hl; cbn [div_10s]; [by rewrite Z.div_1_r|]. unfold div_small. pose proof (div_limbs_spec 10 m ltac:(lia) Hm) as Hd. destruct (div_limbs 10 m) as [m1 r].
  destruct Hd as (D1 & D2 & D3 & D4). cbn [fst]. destruct (IH m1 D1 ltac:(lia)) as (H1 & H2 & ->). split_and!; [done..|]. rewrite Nat2Z.inj_succ, Z.pow_succ_r by lia.
  rewrite <-Z.div_div by (try apply Z.pow_pos_nonneg; lia). f_equal. apply (Z.div_unique _ _ _ r); lia.
Qed.

Lemma rescale_spec m scale f : limbs_ok m -> length m = 4%nat -> 0 <= scale -> 0 <= f ->
  match rescale m (scale - f) with
  | Some m' => limbs_ok m' /\ length m' = 4%nat /\ value m' = value m * 10 ^ scale / 10 ^ f
  | None => 2 ^ 256 <= value m * 10 ^ scale / 10 ^ f
  end.
Proof.
  intros Hm Hl Hs Hf. unfold rescale. assert (0 < 10 ^ f) by (apply Z.pow_pos_nonneg; lia). assert (0 < 10 ^ scale) by (apply Z.pow_pos_nonneg; lia).
  destruct (Z.ltb_spec 0 (scale - f)) as [Hd|Hd]; [|destruct (Z.ltb_spec (scale - f) 0) as [Hd'|Hd']].
  - assert (value m * 10 ^ scale / 10 ^ f = value m * 10 ^ Z.of_nat (Z.to_nat (scale - f))) as ->.
    { rewrite Z2Nat.id by lia. replace scale with (scale - f + f) at 1 by lia. rewrite Z.pow_add_r, Z.mul_assoc by lia. apply Z.div_mul. lia. }
    pose proof (mul_10s_spec (Z.to_nat (scale - f)) m Hm Hl) as Hx. destruct (Z.ltb_spec (value m * 10 ^ Z.of_nat (Z.to_nat (scale - f))) (2 ^ 256)); [by destruct Hx as (m' & -> & ?)|by rewrite Hx].
  - destruct (div_10s_spec (Z.to_nat (- (scale - f))) m Hm Hl) as (H1 & H2 & ->). split_and!; [done..|]. rewrite Z2Nat.id by lia.
    replace f with (scale + - (scale - f)) at 2 by lia. rewrite Z.pow_add_r by lia. rewrite (Z.mul_comm (value m)), Z.div_mul_cancel_l; [done| |lia]. apply Z.pow_nonzero; lia.
  - assert (scale = f) as -> by lia. split_and!; [done..|]. rewrite Z.div_mul by lia. done.
Qed.

Lemma fraction_nonneg dot body : 0 <= fraction dot body.
Proof. revert dot. induction body as [|b body IH]; intros dot; cbn [fraction]; [lia|]. destruct (_ && _); [apply IH|]. specialize (IH dot). destruct dot; lia. Qed.

Lemma value_zero m : limbs_ok m -> length m = 4%nat -> is_zero m = (value m =? 0).
Proof.
  intros Hm Hl. unfold is_zero. destruct m as [|a [|b [|c [|d [|e m]]]]]; try done. repeat (apply Forall_cons_1 in Hm as [? Hm]). unfold fits in *. cbn [value].
  case_bool_decide as E; symmetry; [injection E as -> -> -> ->; done|]. apply Z.eqb_neq. intros Hz. apply E. unfold zero. repeat f_equal; lia.
Qed.

(** The bytes the last step writes for the magnitude [m] within the limit. *)
Definition signed_bytes (neg : bool) (w : DecimalWidth) (m : U256) : list Z :=
  if neg && negb (is_zero m) then negate (width_bytes w) (to_le_bytes m) else to_le_bytes m.

Lemma signed_bytes_spec neg w m : limbs_ok m -> length m = 4%nat -> value m <= 2 ^ (width_bytes w * 8 - 1) ->
  signed_bytes neg w m = le_enc (Z.to_nat (width_bytes w)) (if neg then - value m else value m) ++ zrep (32 - width_bytes w) 0.
Proof.
  intros Hm Hl Hv. destruct (le_bytes_value m Hm) as (E1 & E2 & E3). unfold zlen in E2 at 2. rewrite Hl in E2. change (8 * Z.of_nat 4) with 32 in E2.
  pose proof (high_zeros (Z.to_nat (width_bytes w)) _ E3 ltac:(rewrite E2; destruct w; done) ltac:(rewrite E1; eapply Z.le_lt_trans; [exact Hv|]; by destruct w)) as [H1 H2].
  rewrite Z2Nat.id in H1, H2 by (destruct w; done). rewrite E1 in H1. rewrite E2 in H2. set (a := ztake (width_bytes w) (to_le_bytes m)) in *.
  assert (zlen a = width_bytes w) as Ha by (unfold a; rewrite zlen_ztake; rewrite E2; destruct w; cbn; lia). assert (length a = Z.to_nat (width_bytes w)) as Hna by (unfold zlen in Ha; lia).
  assert (bytes_ok a) as Hok by (rewrite H2 in E3; by apply Forall_app in E3 as [? _]). pose proof (le_enc_dec a Hok) as Ea. rewrite Hna, H1 in Ea. unfold signed_bytes.
  rewrite value_zero by done. destruct neg; cbn [andb]; [|by rewrite Ea]. destruct (Z.eqb_spec (value m) 0) as [Ez|Ez]; cbn [negb]; [rewrite Ez in *; change (- 0) with 0; by rewrite Ea|].
  rewrite H2 at 1. rewrite <-Ha at 1. by rewrite negate_spec, H1, Hna.
Qed.

Lemma append_digits_split ds n : append_digits n ds = n * 10 ^ zlen ds + append_digits 0 ds.
Proof.
  revert n. induction ds as [|d ds IH]; intros n; [change (append_digits n [] = n * 1 + 0); cbn; lia|]. cbn [append_digits fold_left]. fold (append_digits (n * 10 + (d - 48)) ds). fold (append_digits (0 * 10 + (d - 48)) ds).
  rewrite (IH (n * 10 + _)), (IH (0 * 10 + _)), zlen_cons, Z.pow_add_r by (pose proof (zlen_nonneg ds); lia). change (10 ^ 1) with 10. ring.
Qed.

Lemma append_digits_app n a b : append_digits n (a ++ b) = append_digits n a * 10 ^ zlen b + append_digits 0 b.
Proof. unfold append_digits at 1. rewrite fold_left_app. fold (append_digits n a). fold (append_digits (append_digits n a) b). apply append_digits_split. Qed.

Lemma append_digits_bound ds : Forall (fun c => digit c = true) ds -> 0 <= append_digits 0 ds < 10 ^ zlen ds.
Proof.
  induction ds as [|d ds IH] using rev_ind; intros HF; [done|]. apply Forall_app in HF as [HF Hd]. apply Forall_cons_1 in Hd as [Hd _]. specialize (IH HF). unfold digit in Hd. apply andb_prop in Hd as [H1%Z.leb_le H2%Z.leb_le].
  rewrite append_digits_app, zlen_app, Z.pow_add_r by (apply zlen_nonneg). change (zlen [d]) with 1. change (append_digits 0 [d]) with (0 * 10 + (d - 48)). lia.
Qed.

(** ** What the conversion is meant to compute

    The text is an optional sign and digits with at most one point.  Its digits
    [n], [f] of them after the point, denote [n / 10^f]; the column stores that
    value times [10^scale], truncated towards zero, as a two's complement
    integer of the wire width, zero above it. *)
Definition decimal_spec (text : list Z) (scale : Z) (w : DecimalWidth) : result DecimalError (list Z) :=
  if scale <? 0 then Err NegativeScale
  else
    let neg := match text with 45 :: _ => true | _ => false end in
    let body := match text with 45 :: rest | 43 :: rest => rest | _ => text end in
    let n := append_digits 0 (digits_of body) in
    let x := n * 10 ^ scale / 10 ^ fraction false body in
    let z := if neg then - x else x in
    let limit := 2 ^ (width_bytes w * 8 - 1) in
    if well_formed false body && bool_decide (digits_of body <> []) && (n <? 2 ^ 256) && (- limit <=? z) && (z <? limit)
    then Ok (le_enc (Z.to_nat (width_bytes w)) z ++ zrep (32 - width_bytes w) 0)
    else Err OutOfRange.

Lemma conversion_exact text scale w : decimal_text_to_scaled_le text scale w = decimal_spec text scale w.
Proof.
  unfold decimal_text_to_scaled_le, decimal_spec. destruct (Z.ltb_spec scale 0) as [|Hs]; [done|]. set (neg := match text with 45 :: _ => true | _ => false end). set (body := match text with 45 :: rest | 43 :: rest => rest | _ => text end).
  clearbody neg body. pose proof (scan_spec body (MkScan zero 0 false false) ltac:(repeat (constructor; [done|]); constructor) eq_refl) as Hsc. cbn [mag seen_dot frac_digits saw_digit] in Hsc. change (value zero) with 0 in Hsc.
  set (n := append_digits 0 (digits_of body)) in *. destruct (well_formed false body) eqn:Ew; cbn [andb] in *; [|by rewrite Hsc]. destruct (n <? 2 ^ 256) eqn:En; [|rewrite Hsc; by rewrite andb_false_r].
  destruct Hsc as (s & -> & H1 & H2 & H3 & H4 & H5). rewrite andb_true_r. cbn [orb] in H5. rewrite H5. case_bool_decide as Hd; cbn [negb andb]; [|done]. rewrite H4, Z.add_0_l.
  pose proof (rescale_spec (mag s) scale (fraction false body) H1 H2 Hs (fraction_nonneg _ _)) as Hr. rewrite H3 in Hr. set (x := n * 10 ^ scale / 10 ^ fraction false body) in *.
  assert (2 ^ (width_bytes w * 8 - 1) <= 2 ^ 255) as Hlim by by destruct w. assert (0 < 2 ^ (width_bytes w * 8 - 1)) as Hpos by by destruct w. destruct (rescale (mag s) _) as [m|].
  - destruct Hr as (M1 & M2 & M3). destruct (limit_spec w) as (L1 & L2 & L3). rewrite cmp_spec by (done || lia). rewrite L3, M3. pose proof (value_bound m M1). fold (signed_bytes neg w m).
    pose proof (signed_bytes_spec neg w m M1 M2) as Hb. set (limit := 2 ^ (width_bytes w * 8 - 1)) in *. rewrite M3 in *. clearbody x limit.
    destruct (Z.compare_spec x limit) as [E|E|E]; destruct neg; cbn [negb].
    all: repeat match goal with |- context [?a <=? ?b] => destruct (Z.leb_spec a b); try lia | |- context [?a <? ?b] => destruct (Z.ltb_spec a b); try lia end; cbn [andb]; try done.
    all: rewrite Hb by lia; done.
  - clearbody x. destruct neg; [destruct (Z.leb_spec (- 2 ^ (width_bytes w * 8 - 1)) (- x)); [lia|done]|]. destruct (Z.ltb_spec x (2 ^ (width_bytes w * 8 - 1))); [lia|]. by rewrite andb_false_r.
Qed.

(** C33: on every text, scale and width the conversion of a numeric's text to a
    ClickHouse decimal is the arithmetic one: a well-formed text gives the two's
    complement little-endian bytes of the scaled value truncated towards zero,
    exactly when that value is within the signed range of the wire width (and the
    digits within 256 bits); every other text, and a negative scale, is an error,
    never a wrapped value. *)
Theorem decimal_is_scaled_value text scale w : decimal_text_to_scaled_le text scale w = decimal_spec text scale w.
Proof. apply conversion_exact. Qed.

End Decimal.
