(* ===== verification/TextArray.v ===== *)
(** * [text[]] datums ([src/decode/codecs/text_array.rs])

    The decoder runtime configuration reads its key lists with, and the round
    trip with the encoder beside it. *)
From S2P Require Import Prelude Text.
Import Text.

Module TextArray.

Definition TEXTOID : Z := 25.

(** [n.next_multiple_of(4)]. *)
Definition next4 (n : Z) : Z := (n + 3) / 4 * 4.

Definition word (body : list Z) (at_ : Z) : option Z :=
  let* raw := get_range body at_ (at_ + 4) in Some (signed 32 (le_dec raw)).

(** The element loop. *)
Fixpoint decode_elems (n : nat) (body : list Z) (cursor : Z) (values : list (list Z)) : option (list (list Z)) :=
  match n with
  | O => Some values
  | S n =>
      let cursor := next4 cursor in
      let* first := zget body cursor in
      let* ht :=
        (if negb (Z.land first 1 =? 0) then Some (1, Z.shiftr first 1)
         else let* w := word body cursor in Some (4, Z.shiftr (wrap 32 w) 2)) in
      let '(header, total) := ht in
      let* text := get_range body (cursor + header) (cursor + total) in
      if valid_utf8 text then decode_elems n body (cursor + total) (values ++ [text]) else None
  end.

Definition decode_text_array (body : list Z) : option (list (list Z)) :=
  let* ndim := word body 0 in
  let* dataoffset := word body 4 in
  let* elemtype := word body 8 in
  if negb (dataoffset =? 0) || negb (wrap 32 elemtype =? TEXTOID) || negb ((0 <=? ndim) && (ndim <=? 1)) then None
  else if ndim =? 0 then Some []
  else
    let* nitems := word body 12 in
    if nitems <? 0 then None else decode_elems (Z.to_nat nitems) body 20 [].

(** The encoder's element loop. *)
Definition push_elem (body value : list Z) : list Z :=
  let body := body ++ le_enc 4 ((zlen value + 4) * 4) in
  let body := body ++ value in
  body ++ zrep (next4 (zlen body) - zlen body) 0.

Definition text_array_body (values : list (list Z)) : list Z :=
  let body := zrep 20 0 in
  let body := put body 0 (le_enc 4 1) in
  let body := put body 8 (le_enc 4 TEXTOID) in
  let body := put body 12 (le_enc 4 (zlen values)) in
  let body := put body 16 (le_enc 4 1) in
  fold_left push_elem values body.

(** ** Round trip *)
Definition elem_ok (v : list Z) : Prop := valid_utf8 v = true /\ zlen v + 4 < 2 ^ 30.

Definition elem_bytes (v : list Z) : list Z := le_enc 4 ((zlen v + 4) * 4) ++ v ++ zrep (next4 (zlen v) - zlen v) 0.

Lemma next4_spec n : n <= next4 n < n + 4 /\ next4 n mod 4 = 0.
Proof. unfold next4. Z.to_euclidean_division_equations. lia. Qed.

Lemma next4_id n : n mod 4 = 0 -> next4 n = n.
Proof. unfold next4. intros H. Z.to_euclidean_division_equations. lia. Qed.

Lemma next4_add n m : n mod 4 = 0 -> next4 (n + m) = n + next4 m.
Proof. unfold next4. intros H. Z.to_euclidean_division_equations. lia. Qed.

Lemma elem_bytes_len v : zlen (elem_bytes v) = 4 + next4 (zlen v) /\ zlen (elem_bytes v) mod 4 = 0.
Proof.
  pose proof (next4_spec (zlen v)) as [? ?]. assert (zlen (elem_bytes v) = 4 + next4 (zlen v)) as E by (unfold elem_bytes; zlen).
  split; [done|]. rewrite E. Z.to_euclidean_division_equations. lia.
Qed.

Lemma push_elem_eq body v : zlen body mod 4 = 0 -> push_elem body v = body ++ elem_bytes v.
Proof.
  intros Hb. unfold push_elem, elem_bytes. rewrite <- !app_assoc. do 3 f_equal.
  rewrite !zlen_app, zlen_le_enc. rewrite (next4_add (zlen body)) by done.
  change (Z.of_nat 4) with 4. rewrite (next4_add 4) by done. f_equal. lia.
Qed.

Lemma push_elems_eq vs : forall body, zlen body mod 4 = 0 ->
  fold_left push_elem vs body = body ++ concat (map elem_bytes vs).
Proof.
  induction vs as [|v vs IH]; intros body Hb; cbn [fold_left map concat]; [by rewrite app_nil_r|].
  rewrite push_elem_eq by done. rewrite IH, app_assoc; [done|].
  rewrite zlen_app. destruct (elem_bytes_len v). Z.to_euclidean_division_equations. lia.
Qed.

Lemma get_range_mid {A} (a m c : list A) i j : i = zlen a -> j = i + zlen m -> get_range (a ++ m ++ c) i j = Some m.
Proof.
  intros -> ->. unfold get_range. pose proof (zlen_nonneg a). pose proof (zlen_nonneg m). pose proof (zlen_nonneg c).
  rewrite !zlen_app. rewrite (proj2 (Z.leb_le 0 _)), !(proj2 (Z.leb_le _ _)) by lia. cbn [andb].
  by rewrite sub_split by lia.
Qed.

Lemma word_mid a n c i : i = zlen a -> 0 <= n < 2 ^ 31 -> word (a ++ le_enc 4 n ++ c) i = Some n.
Proof.
  intros Hi Hn. unfold word. rewrite get_range_mid by zlen. cbn [mbind option_bind]. rewrite le_dec_enc_small by lia.
  unfold signed. destruct (Z.ltb_spec n (2 ^ (32 - 1))); [done|lia].
Qed.

Lemma decode_elem_step n pre v rest cursor values : elem_ok v -> next4 cursor = zlen pre ->
  decode_elems (S n) (pre ++ elem_bytes v ++ rest) cursor values =
  decode_elems n (pre ++ elem_bytes v ++ rest) (zlen pre + (zlen v + 4)) (values ++ [v]).
Proof.
  intros [Hu Hl] Hc. cbn [decode_elems]. rewrite Hc. pose proof (zlen_nonneg v).
  set (k := (zlen v + 4) * 4). set (pad := zrep (next4 (zlen v) - zlen v) 0).
  assert (zget (pre ++ elem_bytes v ++ rest) (zlen pre) = Some (k mod 256)) as ->.
  { unfold zget. rewrite (proj2 (Z.leb_le _ _)) by (apply zlen_nonneg). unfold zlen at 1. rewrite Nat2Z.id.
    rewrite lookup_app_r, Nat.sub_diag by lia. done. }
  assert (Z.land (k mod 256) 1 =? 0 = true) as E1.
  { change 1 with (Z.ones 1). rewrite Z.land_ones by lia. subst k. Z.to_euclidean_division_equations. lia. }
  cbn [mbind option_bind]. rewrite E1. cbn [negb].
  assert (word (pre ++ elem_bytes v ++ rest) (zlen pre) = Some (signed 32 k)) as ->.
  { unfold word. change (elem_bytes v) with (le_enc 4 k ++ v ++ pad). rewrite <- app_assoc.
    rewrite get_range_mid by zlen. cbn [mbind option_bind]. rewrite le_dec_enc_small by (subst k; lia). done. }
  assert (Z.shiftr (wrap 32 (signed 32 k)) 2 = zlen v + 4) as E2.
  { assert (wrap 32 (signed 32 k) = k) as ->.
    { unfold wrap, signed. subst k. destruct (_ <? _); [apply Z.mod_small; lia|].
      replace ((zlen v + 4) * 4 - 2 ^ 32) with ((zlen v + 4) * 4 + (-1) * 2 ^ 32) by lia. rewrite Z.mod_add by lia. apply Z.mod_small. lia. }
    rewrite Z.shiftr_div_pow2 by lia. subst k. change (2 ^ 2) with 4. by rewrite Z.div_mul. }
  cbn [mbind option_bind]. rewrite E2.
  assert (get_range (pre ++ elem_bytes v ++ rest) (zlen pre + 4) (zlen pre + (zlen v + 4)) = Some v) as ->.
  { change (elem_bytes v) with (le_enc 4 k ++ v ++ pad). rewrite <- !app_assoc, (app_assoc pre).
    apply get_range_mid; zlen. }
  cbn [mbind option_bind]. by rewrite Hu.
Qed.

Lemma decode_elems_spec vs : forall pre cursor values, Forall elem_ok vs -> next4 cursor = zlen pre ->
  decode_elems (length vs) (pre ++ concat (map elem_bytes vs)) cursor values = Some (values ++ vs).
Proof.
  induction vs as [|v vs IH]; intros pre cursor values Hok Hc; [cbn; by rewrite app_nil_r|].
  apply Forall_cons_1 in Hok as [Hv Hvs]. cbn [length map concat]. rewrite decode_elem_step by done.
  rewrite app_assoc, (IH (pre ++ elem_bytes v)), <- app_assoc; [done..|].
  rewrite zlen_app. destruct (elem_bytes_len v) as [-> _].
  assert (zlen pre mod 4 = 0) by (rewrite <- Hc; apply next4_spec).
  rewrite (next4_add (zlen pre)) by done. rewrite (Z.add_comm (zlen v)), (next4_add 4) by done. done.
Qed.

(** A [text[]] of UTF-8 elements survives its encoding: the decoder reads
    back exactly the elements written, in order, whatever padding their
    lengths call for. *)
Theorem text_array_roundtrip vs : Forall elem_ok vs -> zlen vs < 2 ^ 31 ->
  decode_text_array (text_array_body vs) = Some vs.
Proof.
  intros Hok Hn. pose proof (zlen_nonneg vs). unfold text_array_body.
  set (hdr := le_enc 4 1 ++ le_enc 4 0 ++ le_enc 4 TEXTOID ++ le_enc 4 (zlen vs) ++ le_enc 4 1).
  assert (put (put (put (put (zrep 20 0) 0 (le_enc 4 1)) 8 (le_enc 4 TEXTOID)) 12 (le_enc 4 (zlen vs))) 16 (le_enc 4 1) = hdr) as ->.
  { reflexivity. }
  rewrite push_elems_eq by done. set (tail := concat (map elem_bytes vs)).
  unfold decode_text_array.
  assert (word (hdr ++ tail) 0 = Some 1) as -> by (apply (word_mid []); [done|lia]).
  assert (word (hdr ++ tail) 4 = Some 0) as -> by (apply (word_mid (le_enc 4 1)); [done|lia]).
  assert (word (hdr ++ tail) 8 = Some TEXTOID) as -> by (apply (word_mid (le_enc 4 1 ++ le_enc 4 0)); [done|unfold TEXTOID; lia]).
  assert (word (hdr ++ tail) 12 = Some (zlen vs)) as -> by (apply (word_mid (le_enc 4 1 ++ le_enc 4 0 ++ le_enc 4 TEXTOID)); [done|lia]).
  cbn [mbind option_bind]. change (wrap 32 TEXTOID =? TEXTOID) with true. cbn [negb orb andb Z.eqb Z.leb Z.compare].
  destruct (Z.ltb_spec (zlen vs) 0); [lia|]. unfold zlen at 1. rewrite Nat2Z.id.
  change (1 =? 0) with false. cbn [negb]. apply (decode_elems_spec vs hdr 20 []); done.
Qed.

Lemma text_array_roundtrip_witness : decode_text_array (text_array_body [[97; 98; 99]; []; [195; 169; 33; 34]]) = Some [[97; 98; 99]; []; [195; 169; 33; 34]].
Proof.
  apply (text_array_roundtrip [[97; 98; 99]; []; [195; 169; 33; 34]]); [|by vm_compute].
  repeat (constructor; [split; by vm_compute|]). constructor.
Defined.

End TextArray.
