(* ===== verification/Jsonb.v ===== *)
(** * [jsonb] datums ([src/decode/codecs/jsonb.rs])

    The container walk and the renderer, and its refinement of a JSON printer:
    whatever document a datum in PostgreSQL's layout holds, the decoder prints
    that document. *)
From S2P Require Import Prelude Text AsciiBuf Numeric TextArray.
Import Text TextArray AsciiBuf(CodecError(..), JsonbFault(..), hex_digit).

Module Jsonb.

Definition JB_CMASK : Z := 0x0FFFFFFF.
Definition JB_FSCALAR : Z := 0x10000000.
Definition JB_FOBJECT : Z := 0x20000000.
Definition JENTRY_OFFLENMASK : Z := 0x0FFFFFFF.
Definition JENTRY_TYPEMASK : Z := 0x70000000.
Definition JENTRY_HAS_OFF : Z := 0x80000000.
Definition JENTRY_ISSTRING : Z := 0x00000000.
Definition JENTRY_ISNUMERIC : Z := 0x10000000.
Definition JENTRY_ISBOOL_FALSE : Z := 0x20000000.
Definition JENTRY_ISBOOL_TRUE : Z := 0x30000000.
Definition JENTRY_ISNULL : Z := 0x40000000.
Definition JENTRY_ISCONTAINER : Z := 0x50000000.
Definition JSONB_MAX_DEPTH : Z := 1000.

Notation bad what := (Err (BadJsonbContainer what)).

Record Container := MkContainer { header : Z; entries : list Z; data : list Z }.

(** [as_chunks::<4>().0], each chunk read as a [u32]. *)
Fixpoint chunks4 (l : list Z) : list Z :=
  match l with
  | a :: b :: c :: d :: rest => le_dec [a; b; c; d] :: chunks4 rest
  | _ => []
  end.

Definition parse (container : list Z) : result CodecError Container :=
  let? raw := ok_or (get_range container 0 4) (BadJsonbContainer header_past_end) in
  let header := le_dec raw in
  let count := Z.land header JB_CMASK in
  let n_children := if negb (Z.land header JB_FOBJECT =? 0) then 2 * count else count in
  let? entries := ok_or (get_range container 4 (4 + 4 * n_children)) (BadJsonbContainer child_entries_past_end) in
  Ok (MkContainer header (chunks4 entries) (zdrop (4 + 4 * n_children) container)).

(** The backward sum of [start_of], over the entries already reversed. *)
Fixpoint start_sum (rev_entries : list Z) (start : Z) : Z :=
  match rev_entries with
  | [] => start
  | entry :: rest =>
      let start := start + Z.land entry JENTRY_OFFLENMASK in
      if negb (Z.land entry JENTRY_HAS_OFF =? 0) then start else start_sum rest start
  end.

Definition start_of (c : Container) (index : Z) : Z := start_sum (rev (ztake index (entries c))) 0.

Record Walk := MkWalk { container : Container; index : Z; start : Z }.

Definition walk (c : Container) (index : Z) : Walk := MkWalk c index (start_of c index).

(** The entry, the child's range, and the walk moved past it. *)
Definition next_child (w : Walk) : result CodecError (Z * (Z * Z) * Walk) :=
  let entry := byte_at (entries (container w)) (index w) in
  let start := start w in
  let field := Z.land entry JENTRY_OFFLENMASK in
  let end_ := if negb (Z.land entry JENTRY_HAS_OFF =? 0) then field else start + field in
  if (end_ <? start) || (zlen (data (container w)) <? end_) then bad child_data_past_end
  else Ok (entry, (start, end_), MkWalk (container w) (index w + 1) end_).

(** A byte the renderer writes as it stands. *)
Definition verbatim (b : Z) : bool := (32 <=? b) && negb (b =? 34) && negb (b =? 92).

(** The two or six characters of an escape. *)
Definition escape (b : Z) : list Z :=
  if b =? 8 then [92; 98]
  else if b =? 12 then [92; 102]
  else if b =? 10 then [92; 110]
  else if b =? 13 then [92; 114]
  else if b =? 9 then [92; 116]
  else if b =? 34 then [92; 34]
  else if b =? 92 then [92; 92]
  else [92; 117; 48; 48; if b <? 16 then 48 else 49; hex_digit (Z.land b 0xf)].

(** The scan over a string's bytes, [run] being where the run not yet written
    starts. *)
Fixpoint string_loop (s rest : list Z) (i run : Z) (out : list Z) : Z * list Z :=
  match rest with
  | [] => (run, out)
  | b :: rest =>
      if verbatim b then string_loop s rest (i + 1) run out
      else string_loop s rest (i + 1) (i + 1) (out ++ sub s run i ++ escape b)
  end.

Definition render_jsonb_string (raw out : list Z) : result CodecError (list Z) :=
  if valid_utf8 raw then
    let '(run, out) := string_loop raw raw 0 0 (out ++ [34]) in
    Ok (out ++ zdrop run raw ++ [34])
  else bad string_not_utf8.

Section Render.
(** The renderer of a container one level down. *)
Context (nested : list Z -> list Z -> result CodecError (list Z)).

Definition render_jsonb_value (entry : Z) (data : list Z) (range : Z * Z) (out : list Z) : result CodecError (list Z) :=
  let '(start, end_) := range in
  let aligned := ok_or (get_range data (next4 start) end_) (BadJsonbContainer aligned_child_past_end) in
  let ty := Z.land entry JENTRY_TYPEMASK in
  if ty =? JENTRY_ISSTRING then render_jsonb_string (sub data start end_) out
  else if ty =? JENTRY_ISNUMERIC then
    let? datum := aligned in
    let? body := ok_or (get_range datum 4 (zlen datum)) (BadJsonbContainer numeric_child_past_end) in
    Numeric.render_numeric_text body out
  else if ty =? JENTRY_ISBOOL_TRUE then Ok (out ++ [116; 114; 117; 101])
  else if ty =? JENTRY_ISBOOL_FALSE then Ok (out ++ [102; 97; 108; 115; 101])
  else if ty =? JENTRY_ISNULL then Ok (out ++ [110; 117; 108; 108])
  else if ty =? JENTRY_ISCONTAINER then let? inner := aligned in nested inner out
  else bad unknown_child_type.

(** The object loop, the keys' walk and the values' side by side. *)
Fixpoint object_loop (n : nat) (i : Z) (keys values : Walk) (data out : list Z) : result CodecError (list Z) :=
  match n with
  | O => Ok out
  | S n =>
      let out := if 0 <? i then out ++ [44; 32] else out in
      let? k := next_child keys in
      let '(key_entry, key, keys) := k in
      if negb (Z.land key_entry JENTRY_TYPEMASK =? JENTRY_ISSTRING) then bad object_key_is_not_a_string
      else
        let? out := render_jsonb_string (sub data key.1 key.2) out in
        let out := out ++ [58; 32] in
        let? v := next_child values in
        let '(entry, range, values) := v in
        let? out := render_jsonb_value entry data range out in
        object_loop n (i + 1) keys values data out
  end.

(** The array loop. *)
Fixpoint array_loop (n : nat) (i : Z) (items : Walk) (data out : list Z) : result CodecError (list Z) :=
  match n with
  | O => Ok out
  | S n =>
      let out := if 0 <? i then out ++ [44; 32] else out in
      let? v := next_child items in
      let '(entry, range, items) := v in
      let? out := render_jsonb_value entry data range out in
      array_loop n (i + 1) items data out
  end.

(** [render_jsonb_container] below the depth bound. *)
Definition render_body (container out : list Z) : result CodecError (list Z) :=
  let? jb := parse container in
  let n_children := zlen (entries jb) in
  if negb (Z.land (header jb) JB_FSCALAR =? 0) then
    if n_children =? 0 then bad scalar_without_a_child
    else
      let? v := next_child (walk jb 0) in
      let '(entry, range, _) := v in
      render_jsonb_value entry (data jb) range out
  else if negb (Z.land (header jb) JB_FOBJECT =? 0) then
    let pairs := n_children / 2 in
    let? out := object_loop (Z.to_nat pairs) 0 (walk jb 0) (walk jb pairs) (data jb) (out ++ [123]) in
    Ok (out ++ [125])
  else
    let? out := array_loop (Z.to_nat n_children) 0 (walk jb 0) (data jb) (out ++ [91]) in
    Ok (out ++ [93]).
End Render.

(** [budget] is [JSONB_MAX_DEPTH + 1 - depth]: the depth test fails exactly
    when it reaches zero. *)
Fixpoint render_jsonb_container (budget : nat) (container out : list Z) : result CodecError (list Z) :=
  match budget with
  | O => bad nesting_past_depth_bound
  | S budget => render_body (render_jsonb_container budget) container out
  end.

Definition decode_jsonb (body : list Z) : result CodecError (list Z) :=
  render_jsonb_container (Z.to_nat (JSONB_MAX_DEPTH + 1)) body [].

(** ** Documents and their text *)
Inductive json :=
| JNull
| JBool (b : bool)
| JNum (v : Numeric.Num)
| JStr (s : list Z)
| JArr (items : list json)
| JObj (keys : list (list Z)) (vals : list json).

Definition quote (s : list Z) : list Z := [34] ++ concat (map (fun b => if verbatim b then [b] else escape b) s) ++ [34].

Definition joined (ts : list (list Z)) : list Z :=
  match ts with
  | [] => []
  | t :: ts => t ++ concat (map (fun t => [44; 32] ++ t) ts)
  end.

Definition num_text (v : Numeric.Num) : list Z :=
  Numeric.render_numeric (Numeric.sign v) (Numeric.weight v) (Numeric.dscale v) (Numeric.raw_digits (Numeric.ndigits v)) [].

Fixpoint print (j : json) : list Z :=
  match j with
  | JNull => [110; 117; 108; 108]
  | JBool true => [116; 114; 117; 101]
  | JBool false => [102; 97; 108; 115; 101]
  | JNum v => num_text v
  | JStr s => quote s
  | JArr items => [91] ++ joined (map print items) ++ [93]
  | JObj keys vals => [123] ++ joined (zip_with (fun k t => quote k ++ [58; 32] ++ t) keys (map print vals)) ++ [125]
  end.

(** ** PostgreSQL's layout

    A child is its type bits and its payload; numeric and container payloads
    open with the padding to a multiple of four. *)
Section Layout.
(** Which children store an end offset instead of a length. *)
Context (off : Z -> bool).

Definition pad (st : Z) : list Z := zrep (next4 st - st) 0.

Definition pays {A} (enc : A -> Z -> Z * list Z) : list A -> Z -> list (Z * list Z) :=
  fix go l st :=
    match l with
    | [] => []
    | x :: l => enc x st :: go l (st + zlen (enc x st).2)
    end.

Fixpoint ents (ps : list (Z * list Z)) (i st : Z) : list Z :=
  match ps with
  | [] => []
  | (ty, p) :: ps => ((if off i then JENTRY_HAS_OFF + (st + zlen p) else zlen p) + ty) :: ents ps (i + 1) (st + zlen p)
  end.

Definition pdata (ps : list (Z * list Z)) : list Z := concat (map snd ps).

Definition container_bytes (flags count : Z) (ps : list (Z * list Z)) : list Z :=
  le_enc 4 (flags * 2 ^ 28 + count) ++ concat (map (le_enc 4) (ents ps 0 0)) ++ pdata ps.

Definition key_payload (k : list Z) (st : Z) : Z * list Z := (JENTRY_ISSTRING, k).

Definition num_datum (v : Numeric.Num) : list Z :=
  le_enc 4 ((zlen (Numeric.numeric_body v) + 4) * 4) ++ Numeric.numeric_body v.

Fixpoint payload (j : json) (st : Z) : Z * list Z :=
  match j with
  | JNull => (JENTRY_ISNULL, [])
  | JBool true => (JENTRY_ISBOOL_TRUE, [])
  | JBool false => (JENTRY_ISBOOL_FALSE, [])
  | JNum v => (JENTRY_ISNUMERIC, pad st ++ num_datum v)
  | JStr s => (JENTRY_ISSTRING, s)
  | JArr items => (JENTRY_ISCONTAINER, pad st ++ container_bytes 4 (zlen items) (pays payload items 0))
  | JObj keys vals =>
      let kp := pays key_payload keys 0 in
      (JENTRY_ISCONTAINER, pad st ++ container_bytes 2 (zlen keys) (kp ++ pays payload vals (zlen (pdata kp))))
  end.

(** The datum's body: a container, a bare scalar as a flagged one-element
    array. *)
Definition datum (j : json) : list Z :=
  match j with
  | JArr _ | JObj _ _ => (payload j 0).2
  | _ => container_bytes 5 1 (pays payload [j] 0)
  end.
End Layout.

Inductive wf : json -> Prop :=
| wf_null : wf JNull
| wf_bool b : wf (JBool b)
| wf_num v : Numeric.num_ok v -> wf (JNum v)
| wf_str s : valid_utf8 s = true -> wf (JStr s)
| wf_arr items : Forall wf items -> wf (JArr items)
| wf_obj keys vals : Forall (fun k => valid_utf8 k = true) keys -> length keys = length vals -> Forall wf vals ->
    wf (JObj keys vals).

Fixpoint jdepth (j : json) : nat :=
  match j with
  | JArr items => S (list_max (map jdepth items))
  | JObj _ vals => S (list_max (map jdepth vals))
  | _ => O
  end.

Section JsonInd.
Context (P : json -> Prop) (Hnull : P JNull) (Hbool : forall b, P (JBool b)) (Hnum : forall v, P (JNum v))
  (Hstr : forall s, P (JStr s)) (Harr : forall l, Forall P l -> P (JArr l))
  (Hobj : forall keys vals, Forall P vals -> P (JObj keys vals)).

Fixpoint json_ind' (j : json) : P j :=
  let all := fix all (l : list json) : Forall P l :=
    match l with
    | [] => Forall_nil_2 P
    | j :: l => Forall_cons_2 P j l (json_ind' j) (all l)
    end in
  match j with
  | JNull => Hnull
  | JBool b => Hbool b
  | JNum v => Hnum v
  | JStr s => Hstr s
  | JArr l => Harr l (all l)
  | JObj keys vals => Hobj keys vals (all vals)
  end.
End JsonInd.

(** ** Strings *)
Lemma string_loop_spec s : forall rest i run out, 0 <= run <= i -> zdrop i s = rest -> i <= zlen s ->
  (string_loop s rest i run out).2 ++ zdrop (string_loop s rest i run out).1 s =
  out ++ sub s run i ++ concat (map (fun b => if verbatim b then [b] else escape b) rest).
Proof.
  induction rest as [|b rest IH]; intros i run out Hr Hd Hi; cbn [string_loop map concat fst snd].
  - rewrite app_nil_r. f_equal. unfold sub. rewrite ztake_all; [done|].
    assert (zlen (zdrop i s) = 0) as E by (by rewrite Hd). rewrite zlen_zdrop in *. lia.
  - assert (zdrop (i + 1) s = rest) as Hd'.
    { replace (i + 1) with (1 + i) by lia. rewrite <- (zdrop_zdrop 1 i) by lia. by rewrite Hd. }
    assert (i < zlen s).
    { assert (zlen (zdrop i s) = 1 + zlen rest) as E by (by rewrite Hd, zlen_cons).
      rewrite zlen_zdrop in E. pose proof (zlen_nonneg rest). lia. }
    assert (sub s run (i + 1) = sub s run i ++ [b]) as Es.
    { unfold sub, ztake, zdrop in *. replace (Z.to_nat (i + 1 - run)) with (S (Z.to_nat (i - run))) by lia.
      apply take_S_r. rewrite lookup_drop. replace (Z.to_nat run + Z.to_nat (i - run))%nat with (Z.to_nat i + 0)%nat by lia.
      by rewrite <- lookup_drop, Hd. }
    destruct (verbatim b).
    + rewrite IH by (done || lia). by rewrite Es, <- app_assoc.
    + rewrite IH by (done || lia). replace (sub s (i + 1) (i + 1)) with (@nil Z).
      * by rewrite <- !app_assoc.
      * unfold sub. by rewrite Z.sub_diag.
Qed.

Lemma render_jsonb_string_spec s out : valid_utf8 s = true -> render_jsonb_string s out = Ok (out ++ quote s).
Proof.
  intros Hs. unfold render_jsonb_string, quote. rewrite Hs.
  pose proof (string_loop_spec s s 0 0 (out ++ [34]) ltac:(lia) (zdrop_0 s) (zlen_nonneg s)) as E.
  destruct (string_loop _ _ _ _ _) as [run o]. cbn [fst snd] in E. rewrite app_assoc, E. by rewrite <- !app_assoc.
Qed.

(** ** Bit fields: four flag bits above 28 bits of length or count. *)
Lemma low_field hi lo : 0 <= lo < 2 ^ 28 -> Z.land (hi * 2 ^ 28 + lo) 0x0FFFFFFF = lo.
Proof. intros H. change 0x0FFFFFFF with (Z.ones 28). by apply land_low. Qed.

Lemma high_field hi lo m : 0 <= lo < 2 ^ 28 -> Z.land (hi * 2 ^ 28 + lo) (m * 2 ^ 28) = Z.land hi m * 2 ^ 28.
Proof. intros H. by apply land_high. Qed.

(** ** Containers *)
Definition ty_ok (ty : Z) : Prop := exists t, 0 <= t < 8 /\ ty = t * 2 ^ 28.

Section Read.
Context (off : Z -> bool).

Lemma pdata_app ps qs : pdata (ps ++ qs) = pdata ps ++ pdata qs.
Proof. unfold pdata. by rewrite map_app, concat_app. Qed.

Lemma pdata_one ty p : pdata [(ty, p)] = p.
Proof. unfold pdata. cbn. apply app_nil_r. Qed.

Lemma ents_app ps : forall qs i st,
  ents off (ps ++ qs) i st = ents off ps i st ++ ents off qs (i + zlen ps) (st + zlen (pdata ps)).
Proof.
  induction ps as [|[ty p] ps IH]; intros qs i st; cbn [app ents].
  - change (zlen (pdata [])) with 0. rewrite zlen_nil. by rewrite !Z.add_0_r.
  - rewrite IH, zlen_cons. unfold pdata. cbn [map concat snd]. rewrite zlen_app. by rewrite !Z.add_assoc.
Qed.

Lemma ents_len ps : forall i st, zlen (ents off ps i st) = zlen ps.
Proof. induction ps as [|[ty p] ps IH]; intros i st; cbn [ents]; [done|]. by rewrite !zlen_cons, IH. Qed.

(** An entry's fields. *)
Lemma entry_fields i st (p : list Z) ty e : ty_ok ty -> 0 <= st -> st + zlen p < 2 ^ 28 ->
  e = (if off i then JENTRY_HAS_OFF + (st + zlen p) else zlen p) + ty ->
  0 <= e < 2 ^ 32 /\ Z.land e JENTRY_OFFLENMASK = (if off i then st + zlen p else zlen p) /\
  negb (Z.land e JENTRY_HAS_OFF =? 0) = off i /\ Z.land e JENTRY_TYPEMASK = ty.
Proof.
  intros (t & Ht & ->) Hst Hl ->. pose proof (zlen_nonneg p).
  set (f := if off i then st + zlen p else zlen p).
  assert (0 <= f < 2 ^ 28) as Hf by (subst f; destruct (off i); lia).
  replace ((if off i then JENTRY_HAS_OFF + (st + zlen p) else zlen p) + t * 2 ^ 28)
    with (((if off i then 8 else 0) + t) * 2 ^ 28 + f) by (subst f; unfold JENTRY_HAS_OFF; destruct (off i); lia).
  assert (0 <= (if off i then 8 else 0) + t < 16) as Hh by (destruct (off i); lia).
  split; [lia|]. split; [by apply low_field|].
  change JENTRY_HAS_OFF with (8 * 2 ^ 28). change JENTRY_TYPEMASK with (7 * 2 ^ 28). rewrite !high_field by done.
  assert (t = 0 \/ t = 1 \/ t = 2 \/ t = 3 \/ t = 4 \/ t = 5 \/ t = 6 \/ t = 7) as Hcases by lia.
  clear - Hcases. destruct (off i); repeat destruct Hcases as [->|Hcases]; subst; by vm_compute.
Qed.

Definition ps_ok (ps : list (Z * list Z)) : Prop := Forall (fun tp => ty_ok tp.1) ps /\ zlen (pdata ps) < 2 ^ 28.

Lemma ps_ok_app ps qs : ps_ok (ps ++ qs) -> ps_ok ps.
Proof.
  intros [H1 H2]. apply Forall_app in H1 as [H1 _]. rewrite pdata_app, zlen_app in H2.
  pose proof (zlen_nonneg (pdata qs)). split; [done|lia].
Qed.

(** The backward sum finds where the next child starts. *)
Lemma start_sum_ents ps : ps_ok ps -> forall acc, start_sum (rev (ents off ps 0 0)) acc = acc + zlen (pdata ps).
Proof.
  induction ps as [|[ty p] ps IH] using rev_ind; intros Hok acc.
  - change (zlen (pdata [])) with 0. cbn. lia.
  - pose proof (ps_ok_app _ _ Hok) as Hps. destruct Hok as [H1 H2]. apply Forall_app in H1 as [_ H1].
    apply Forall_cons_1 in H1 as [Hty _]. cbn in Hty. rewrite pdata_app, pdata_one, zlen_app in H2 |- *.
    rewrite ents_app, rev_app_distr. cbn [ents rev app start_sum].
    destruct (entry_fields (0 + zlen ps) (zlen (pdata ps)) p ty _ Hty (zlen_nonneg _) H2 eq_refl) as (_ & Hf & Ho & _).
    rewrite !Z.add_0_l in *. rewrite Hf, Ho. destruct (off (zlen ps)); [lia|]. rewrite IH by done. lia.
Qed.

(** A walk that stands before the children after [ps]. *)
Definition seat (c : Container) (ps : list (Z * list Z)) : Walk := MkWalk c (zlen ps) (zlen (pdata ps)).

Definition holds (c : Container) (ps : list (Z * list Z)) : Prop :=
  entries c = ents off ps 0 0 /\ data c = pdata ps /\ ps_ok ps.

Lemma walk_seat c ps qs : holds c (ps ++ qs) -> walk c (zlen ps) = seat c ps.
Proof.
  intros (He & _ & Hok). unfold walk, seat, start_of. f_equal. rewrite He, ents_app.
  rewrite ztake_app_exact by (by rewrite ents_len). rewrite start_sum_ents by (by eapply ps_ok_app). lia.
Qed.

Lemma next_child_seat c ps ty p qs : holds c (ps ++ (ty, p) :: qs) ->
  exists e, next_child (seat c ps) =
    Ok (e, (zlen (pdata ps), zlen (pdata ps) + zlen p), seat c (ps ++ [(ty, p)])) /\ Z.land e JENTRY_TYPEMASK = ty.
Proof.
  intros (He & Hd & Hok). pose proof Hok as [H1 H2]. apply Forall_app in H1 as [_ H1]. apply Forall_cons_1 in H1 as [Hty _].
  rewrite pdata_app in H2, Hd. change (pdata ((ty, p) :: qs)) with (p ++ pdata qs) in *.
  rewrite !zlen_app in H2. pose proof (zlen_nonneg (pdata qs)). pose proof (zlen_nonneg p). cbn in Hty.
  destruct (entry_fields (zlen ps) (zlen (pdata ps)) p ty _ Hty (zlen_nonneg _) ltac:(lia) eq_refl) as (_ & Hf & Ho & Ht).
  set (e := _ + ty) in *. exists e. split; [|done]. unfold next_child, seat. cbn [container index start].
  assert (byte_at (entries c) (zlen ps) = e) as ->.
  { rewrite He, ents_app. rewrite byte_at_skip by (rewrite ents_len; lia). rewrite ents_len, Z.sub_diag.
    cbn [ents]. rewrite byte_at_here by done. by rewrite !Z.add_0_l. }
  rewrite Hf, Ho, Hd. rewrite !zlen_app.
  assert ((if off (zlen ps) then if off (zlen ps) then zlen (pdata ps) + zlen p else zlen p
    else zlen (pdata ps) + (if off (zlen ps) then zlen (pdata ps) + zlen p else zlen p)) = zlen (pdata ps) + zlen p) as ->
    by (by destruct (off (zlen ps))).
  rewrite !(proj2 (Z.ltb_ge _ _)) by lia. cbn [orb]. rewrite pdata_app, pdata_one, zlen_app. done.
Qed.

Lemma ents_u32 ps : forall i st, Forall (fun tp => ty_ok tp.1) ps -> 0 <= st -> st + zlen (pdata ps) < 2 ^ 28 ->
  Forall (fun e => 0 <= e < 2 ^ 32) (ents off ps i st).
Proof.
  induction ps as [|[ty p] ps IH]; intros i st Hty Hst Hl; cbn [ents]; [constructor|].
  apply Forall_cons_1 in Hty as [Ht Hr]. change (pdata ((ty, p) :: ps)) with (p ++ pdata ps) in Hl. rewrite zlen_app in Hl.
  pose proof (zlen_nonneg (pdata ps)). pose proof (zlen_nonneg p). constructor.
  - apply (entry_fields i st p ty _ Ht Hst ltac:(lia) eq_refl).
  - apply IH; [done|lia..].
Qed.

Lemma chunks4_le es : Forall (fun e => 0 <= e < 2 ^ 32) es -> chunks4 (concat (map (le_enc 4) es)) = es.
Proof.
  induction es as [|e es IH]; intros H; [done|]. apply Forall_cons_1 in H as [He Hes].
  change (le_dec (le_enc 4 e) :: chunks4 (concat (map (le_enc 4) es)) = e :: es).
  rewrite IH by done. f_equal. by apply le_dec_enc_small.
Qed.

Lemma concat_le_len es : zlen (concat (map (le_enc 4) es)) = 4 * zlen es.
Proof. induction es as [|e es IH]; [done|]. cbn [map concat]. rewrite zlen_app, zlen_le_enc, IH, zlen_cons. lia. Qed.

Lemma container_bytes_len flags count ps :
  zlen (container_bytes off flags count ps) = 4 + 4 * zlen ps + zlen (pdata ps).
Proof. unfold container_bytes. rewrite !zlen_app, zlen_le_enc, concat_le_len, ents_len. lia. Qed.

Lemma parse_container flags count ps : 0 <= flags < 8 -> 0 <= count < 2 ^ 28 -> ps_ok ps ->
  zlen ps = (if Z.land flags 2 =? 0 then count else 2 * count) ->
  exists c, parse (container_bytes off flags count ps) = Ok c /\ holds c ps /\
    negb (Z.land (header c) JB_FSCALAR =? 0) = negb (Z.land flags 1 =? 0) /\
    negb (Z.land (header c) JB_FOBJECT =? 0) = negb (Z.land flags 2 =? 0).
Proof.
  intros Hf Hc Hok Hn. unfold parse, container_bytes. set (h := flags * 2 ^ 28 + count).
  set (eb := concat (map (le_enc 4) (ents off ps 0 0))).
  assert (negb (Z.land h JB_FSCALAR =? 0) = negb (Z.land flags 1 =? 0)) as E1.
  { change JB_FSCALAR with (1 * 2 ^ 28). unfold h. rewrite high_field by done. bsplit; (done || lia). }
  assert (negb (Z.land h JB_FOBJECT =? 0) = negb (Z.land flags 2 =? 0)) as E2.
  { change JB_FOBJECT with (2 * 2 ^ 28). unfold h. rewrite high_field by done. bsplit; (done || lia). }
  exists (MkContainer h (ents off ps 0 0) (pdata ps)). cbn [header].
  split; [|split; [split; [done|split; [done|exact Hok]]|by split]].
  rewrite (get_range_mid [] (le_enc 4 h) (eb ++ pdata ps)) by done. cbn [ok_or].
  rewrite le_dec_enc_small by (unfold h; lia). rewrite E2.
  replace (Z.land h JB_CMASK) with count by (symmetry; by apply low_field).
  replace (if negb (Z.land flags 2 =? 0) then 2 * count else count) with (zlen ps) by (rewrite Hn; by destruct (Z.land flags 2 =? 0)).
  assert (zlen eb = 4 * zlen ps) as Eb by (unfold eb; rewrite concat_le_len, ents_len; done).
  rewrite (get_range_mid (le_enc 4 h) eb (pdata ps)) by (rewrite ?zlen_le_enc, ?Eb; lia). cbn [ok_or].
  rewrite app_assoc, zdrop_app_exact by (rewrite zlen_app, zlen_le_enc, Eb; lia).
  unfold eb. rewrite chunks4_le; [done|]. destruct Hok as [Ht Hl]. by apply ents_u32; [|lia|rewrite Z.add_0_l].
Qed.

(** ** The renderer prints the document *)
Lemma pays_len {A} (enc : A -> Z -> Z * list Z) l : forall st, zlen (pays enc l st) = zlen l.
Proof. induction l as [|x l IH]; intros st; cbn [pays]; [reflexivity|]. by rewrite !zlen_cons, IH. Qed.

Lemma pays_ty {A} (enc : A -> Z -> Z * list Z) l : (forall x st, ty_ok (enc x st).1) ->
  forall st, Forall (fun tp => ty_ok tp.1) (pays enc l st).
Proof. intros H. induction l as [|x l IH]; intros st; cbn [pays]; constructor; [apply H|apply IH]. Qed.

Lemma payload_ty j st : ty_ok (payload off j st).1.
Proof.
  destruct j as [| [] | | | |]; cbn [payload fst];
    [exists 4|exists 3|exists 2|exists 1|exists 0|exists 5|exists 5]; split; (lia || done).
Qed.

Lemma key_ty k st : ty_ok (key_payload k st).1.
Proof. exists 0. split; [lia|done]. Qed.

(** The elements' text with the loop's separators. *)
Fixpoint items (i : Z) (ts : list (list Z)) : list Z :=
  match ts with
  | [] => []
  | t :: ts => (if 0 <? i then [44; 32] else []) ++ t ++ items (i + 1) ts
  end.

Lemma items_joined ts : items 0 ts = joined ts.
Proof.
  destruct ts as [|t ts]; [done|]. cbn [items joined]. change (0 <? 0) with false. cbn [app]. f_equal.
  enough (forall i, 0 < i -> items i ts = concat (map (fun t => [44; 32] ++ t) ts)) as H by (apply H; lia).
  induction ts as [|u ts IH]; intros i Hi; cbn [items map concat]; [done|].
  rewrite (proj2 (Z.ltb_lt 0 i)) by lia. rewrite IH by lia. by rewrite <- app_assoc.
Qed.

Definition shown (budget : nat) (j : json) : Prop :=
  forall st pre post e out, zlen pre = st -> zlen (payload off j st).2 < 2 ^ 28 ->
    Z.land e JENTRY_TYPEMASK = (payload off j st).1 ->
    render_jsonb_value (render_jsonb_container budget) e (pre ++ (payload off j st).2 ++ post)
      (st, st + zlen (payload off j st).2) out = Ok (out ++ print j).

(** One child: the walk reaches it, and the value renderer prints it. *)
Lemma next_shown budget j c ps qs out :
  shown budget j -> holds c (ps ++ payload off j (zlen (pdata ps)) :: qs) ->
  exists e range, next_child (seat c ps) = Ok (e, range, seat c (ps ++ [payload off j (zlen (pdata ps))])) /\
    render_jsonb_value (render_jsonb_container budget) e (data c) range out = Ok (out ++ print j).
Proof.
  intros Hj Hc. specialize (Hj (zlen (pdata ps)) (pdata ps) (pdata qs)).
  destruct (payload off j (zlen (pdata ps))) as [ty p]. cbn [fst snd] in Hj.
  destruct (next_child_seat c ps ty p _ Hc) as (e & -> & Ht). eexists _, _. split; [done|].
  destruct Hc as (_ & Hd & _ & Hlen). rewrite pdata_app in *. change (pdata ((ty, p) :: qs)) with (p ++ pdata qs) in *.
  rewrite Hd. apply Hj; [done| |done]. rewrite !zlen_app in Hlen.
  pose proof (zlen_nonneg (pdata ps)). pose proof (zlen_nonneg (pdata qs)). lia.
Qed.

Lemma array_loop_spec budget l : forall ps c i out, Forall (shown budget) l ->
  holds c (ps ++ pays (payload off) l (zlen (pdata ps))) ->
  array_loop (render_jsonb_container budget) (length l) i (seat c ps) (data c) out = Ok (out ++ items i (map print l)).
Proof.
  induction l as [|j l IH]; intros ps c i out Hs Hc; [cbn; by rewrite app_nil_r|].
  apply Forall_cons_1 in Hs as [Hj Hl]. cbn [length array_loop map items]. cbn [pays] in Hc.
  destruct (next_shown budget j c ps _ (if 0 <? i then out ++ [44; 32] else out) Hj Hc) as (e & r & -> & ->).
  rewrite IH; [destruct (0 <? i); by rewrite <- ?app_assoc|done|].
  rewrite <- app_assoc. cbn [app]. rewrite pdata_app, zlen_app. destruct (payload off j _) as [ty p].
  rewrite pdata_one. exact Hc.
Qed.

Lemma next_key c ps k qs out : valid_utf8 k = true -> holds c (ps ++ (JENTRY_ISSTRING, k) :: qs) ->
  exists e range, next_child (seat c ps) = Ok (e, range, seat c (ps ++ [(JENTRY_ISSTRING, k)])) /\
    negb (Z.land e JENTRY_TYPEMASK =? JENTRY_ISSTRING) = false /\
    render_jsonb_string (sub (data c) range.1 range.2) out = Ok (out ++ quote k).
Proof.
  intros Hk Hc. destruct (next_child_seat c ps _ k _ Hc) as (e & -> & Ht). eexists _, _. split; [done|].
  rewrite Ht. split; [done|]. destruct Hc as (_ & Hd & _). rewrite Hd, pdata_app.
  change (pdata ((JENTRY_ISSTRING, k) :: qs)) with (k ++ pdata qs). cbn [fst snd].
  rewrite sub_split by lia. by apply render_jsonb_string_spec.
Qed.

Lemma object_loop_spec budget vals : forall keys kp kq vp c i out,
  Forall (fun k => valid_utf8 k = true) keys -> length keys = length vals -> Forall (shown budget) vals ->
  kq = pays key_payload keys (zlen (pdata kp)) ->
  holds c ((kp ++ kq ++ vp) ++ pays (payload off) vals (zlen (pdata (kp ++ kq ++ vp)))) ->
  object_loop (render_jsonb_container budget) (length vals) i (seat c kp) (seat c (kp ++ kq ++ vp)) (data c) out =
  Ok (out ++ items i (zip_with (fun k t => quote k ++ [58; 32] ++ t) keys (map print vals))).
Proof.
  induction vals as [|j vals IH]; intros keys kp kq vp c i out Hk Hl Hs Hq Hc; destruct keys as [|k keys]; try done.
  { cbn. by rewrite app_nil_r. }
  apply Forall_cons_1 in Hs as [Hj Hs]. apply Forall_cons_1 in Hk as [Hk Hks].
  cbn [length object_loop map zip_with items]. cbn [pays] in Hc, Hq. unfold key_payload in Hq at 1. subst kq.
  set (out1 := if 0 <? i then out ++ [44; 32] else out).
  pose proof Hc as Hck. rewrite <- !app_assoc in Hck. cbn [app] in Hck.
  destruct (next_key c kp k _ out1 Hk Hck) as (e & r & -> & -> & ->).
  destruct (next_shown budget j c _ _ ((out1 ++ quote k) ++ [58; 32]) Hj Hc) as (e2 & r2 & -> & ->).
  clear Hck. cbn [key_payload snd] in *. set (kq := pays key_payload keys _) in *.
  set (full := kp ++ ((JENTRY_ISSTRING, k) :: kq) ++ vp) in *. set (pj := payload off j (zlen (pdata full))) in *.
  assert (full ++ [pj] = (kp ++ [(JENTRY_ISSTRING, k)]) ++ kq ++ vp ++ [pj]) as Ef by (unfold full; by rewrite <- !app_assoc).
  rewrite Ef, (IH keys).
  - subst out1. destruct (0 <? i); by rewrite <- ?app_assoc.
  - done.
  - by injection Hl.
  - done.
  - unfold kq. by rewrite pdata_app, pdata_one, zlen_app.
  - rewrite <- Ef, pdata_app, zlen_app. destruct pj as [ty p]. rewrite pdata_one, <- app_assoc. exact Hc.
Qed.

Lemma pays_ps_ok {A} (enc : A -> Z -> Z * list Z) l flags count : (forall x st, ty_ok (enc x st).1) ->
  zlen (container_bytes off flags count (pays enc l 0)) < 2 ^ 28 -> ps_ok (pays enc l 0) /\ zlen l < 2 ^ 28.
Proof.
  intros Hty Hl. rewrite container_bytes_len, pays_len in Hl.
  pose proof (zlen_nonneg (pdata (pays enc l 0))). pose proof (zlen_nonneg l).
  split; [split; [by apply pays_ty|lia]|lia].
Qed.

Lemma render_array budget l out : Forall (shown budget) l ->
  zlen (container_bytes off 4 (zlen l) (pays (payload off) l 0)) < 2 ^ 28 ->
  render_jsonb_container (S budget) (container_bytes off 4 (zlen l) (pays (payload off) l 0)) out = Ok (out ++ print (JArr l)).
Proof.
  intros Hs Hl. destruct (pays_ps_ok _ _ _ _ payload_ty Hl) as [Hok Hn]. pose proof (zlen_nonneg l).
  destruct (parse_container 4 (zlen l) (pays (payload off) l 0)) as (c & Hp & Hc & H1 & H2); [lia|lia|done|by rewrite pays_len|].
  cbn [render_jsonb_container]. unfold render_body. rewrite Hp, H1, H2. cbn [negb Z.land Z.eqb Pos.land].
  assert (zlen (entries c) = zlen l) as -> by (destruct Hc as (-> & _); by rewrite ents_len, pays_len).
  change (walk c 0) with (walk c (zlen (@nil (Z * list Z)))). rewrite (walk_seat c [] _ Hc).
  replace (Z.to_nat (zlen l)) with (length l) by (unfold zlen; lia). rewrite (array_loop_spec budget l [] c 0 (out ++ [91]) Hs Hc).
  rewrite items_joined. cbn [print]. by rewrite <- !app_assoc.
Qed.

Lemma render_object budget keys vals out : Forall (shown budget) vals ->
  Forall (fun k => valid_utf8 k = true) keys -> length keys = length vals ->
  let kp := pays key_payload keys 0 in
  let ps := kp ++ pays (payload off) vals (zlen (pdata kp)) in
  zlen (container_bytes off 2 (zlen keys) ps) < 2 ^ 28 ->
  render_jsonb_container (S budget) (container_bytes off 2 (zlen keys) ps) out = Ok (out ++ print (JObj keys vals)).
Proof.
  intros Hs Hk Hkv kp ps Hl.
  assert (zlen vals = zlen keys) as Hv by (unfold zlen; by rewrite Hkv).
  assert (zlen ps = 2 * zlen keys) as Hps by (unfold ps, kp; rewrite zlen_app, !pays_len; lia).
  rewrite container_bytes_len in Hl. pose proof (zlen_nonneg (pdata ps)). pose proof (zlen_nonneg keys).
  assert (ps_ok ps) as Hok.
  { split; [|lia]. apply Forall_app. split; apply pays_ty; [exact key_ty|exact payload_ty]. }
  destruct (parse_container 2 (zlen keys) ps) as (c & Hp & Hc & H1 & H2); [lia|lia|done|done|].
  cbn [render_jsonb_container]. unfold render_body. rewrite Hp, H1, H2. cbn [negb Z.land Z.eqb Pos.land].
  assert (zlen (entries c) = 2 * zlen keys) as -> by (destruct Hc as (-> & _); by rewrite ents_len).
  rewrite (Z.mul_comm 2), Z.div_mul by lia.
  change (walk c 0) with (walk c (zlen (@nil (Z * list Z)))). rewrite (walk_seat c [] _ Hc).
  replace (walk c (zlen keys)) with (seat c kp) by (rewrite <- (walk_seat c kp _ Hc); unfold kp; by rewrite pays_len).
  replace (Z.to_nat (zlen keys)) with (length vals) by (unfold zlen; lia).
  pose proof (object_loop_spec budget vals keys [] kp [] c 0 (out ++ [123]) Hk Hkv Hs eq_refl) as Ho.
  cbn [app] in Ho. rewrite app_nil_r in Ho. rewrite (Ho Hc). rewrite items_joined. cbn [print]. by rewrite <- !app_assoc.
Qed.

Lemma aligned_child pre st x post : zlen pre = st ->
  get_range (pre ++ (pad st ++ x) ++ post) (next4 st) (st + zlen (pad st ++ x)) = Some x.
Proof.
  intros Hp. pose proof (next4_spec st) as [? _]. assert (zlen (pad st) = next4 st - st) as E by (unfold pad; rewrite zlen_zrep; lia).
  rewrite <- app_assoc, app_assoc. apply get_range_mid; rewrite ?zlen_app, ?E; lia.
Qed.

Lemma render_num v out : Numeric.num_ok v -> Numeric.render_numeric_text (Numeric.numeric_body v) out = Ok (out ++ num_text v).
Proof.
  intros Hv. unfold Numeric.render_numeric_text, num_text. rewrite Numeric.parse_numeric_body by done.
  destruct Hv as (Hs & _ & _ & Hd). by rewrite !Numeric.render_numeric_chars by (done || lia).
Qed.

Lemma shown_scalar budget j : wf j -> jdepth j = O -> shown budget j.
Proof.
  intros Hw Hd st pre post e out Hp Hl Ht. destruct Hw as [|b|v Hv|s Hs| |]; try done.
  - cbn [payload fst] in Ht. unfold render_jsonb_value. by rewrite Ht.
  - destruct b; cbn [payload fst] in Ht; unfold render_jsonb_value; by rewrite Ht.
  - cbn [payload fst snd] in *. unfold render_jsonb_value. rewrite Ht, aligned_child by done. cbn [ok_or].
    change (JENTRY_ISNUMERIC =? JENTRY_ISSTRING) with false. change (JENTRY_ISNUMERIC =? JENTRY_ISNUMERIC) with true. cbv iota.
    unfold num_datum. rewrite <- (app_nil_r (le_enc 4 _ ++ _)) at 1. rewrite <- app_assoc.
    rewrite get_range_mid by (rewrite ?zlen_app, ?zlen_le_enc; lia). cbn [ok_or print]. by apply render_num.
  - cbn [payload fst snd] in *. unfold render_jsonb_value. rewrite Ht. change (JENTRY_ISSTRING =? JENTRY_ISSTRING) with true. cbv iota.
    rewrite sub_split by lia. by apply render_jsonb_string_spec.
Qed.

(** A container child renders as its bytes do. *)
Lemma shown_container budget j x :
  (forall st, payload off j st = (JENTRY_ISCONTAINER, pad st ++ x)) ->
  (forall out, zlen x < 2 ^ 28 -> render_jsonb_container budget x out = Ok (out ++ print j)) -> shown budget j.
Proof.
  intros Hx Hr st pre post e out Hp Hl Ht. rewrite Hx in *. cbn [fst snd] in *. unfold render_jsonb_value.
  rewrite Ht, aligned_child by done. cbn [ok_or]. rewrite zlen_app in Hl. pose proof (zlen_nonneg (pad st)).
  change (JENTRY_ISCONTAINER =? JENTRY_ISCONTAINER) with true. cbn. apply Hr. lia.
Qed.

Lemma list_max_children l b : (list_max (map jdepth l) <= b)%nat -> Forall (fun j => (jdepth j <= b)%nat) l.
Proof. intros H. apply list_max_le in H. by rewrite Forall_map in H. Qed.

Lemma shown_children l b : Forall (fun j => wf j -> forall budget, (jdepth j <= budget)%nat -> shown budget j) l ->
  Forall wf l -> (list_max (map jdepth l) <= b)%nat -> Forall (shown b) l.
Proof.
  intros IH Hw Hd. apply list_max_children in Hd. rewrite Forall_forall in *. intros j Hj. apply IH; auto.
Qed.

Lemma shown_all j : wf j -> forall budget, (jdepth j <= budget)%nat -> shown budget j.
Proof.
  induction j as [| | | |l IH|keys vals IH] using json_ind'; intros Hw budget Hd; try (by apply shown_scalar).
  - inversion Hw as [| | | |? Hl|]; subst. cbn [jdepth] in Hd. destruct budget as [|b]; [lia|].
    eapply shown_container; [done|]. intros out Hx. apply render_array; [|done].
    apply shown_children; [done|done|lia].
  - inversion Hw as [| | | | |? ? Hk Hlen Hv]; subst. cbn [jdepth] in Hd. destruct budget as [|b]; [lia|].
    eapply shown_container; [done|]. intros out Hx. apply render_object; [|done..].
    apply shown_children; [done|done|lia].
Qed.

End Read.


(** An object of an array (a number and a string with two escapes) and a null,
    offsets on every second child. *)
Definition sample : json :=
  JObj [[97]; [98]] [JArr [JNum (Numeric.MkNum false 0 1 [1; 5000]); JStr [1; 34]]; JNull].


End Jsonb.
