(* ===== verification/HeapDecode.v ===== *)
(** * The heap tuple decoder ([src/decode/heap_decoder.rs])

    A heap WAL record and the relation's descriptor to typed column values:
    the tuple walk over null bitmap, alignment and varlena headers, the four
    record shapes, fast defaults, and the replica-identity helpers.  Attribute
    and descriptor types are [src/schema.rs]. *)
From S2P Require Import Prelude Text WalRecord AsciiBuf Numeric TextArray Jsonb.
Import WalRecord.

Module Schema.

Definition BOOLOID : Z := 16.
Definition BYTEAOID : Z := 17.
Definition CHAROID : Z := 18.
Definition NAMEOID : Z := 19.
Definition INT8OID : Z := 20.
Definition INT2OID : Z := 21.
Definition INT4OID : Z := 23.
Definition TEXTOID : Z := 25.
Definition OIDOID : Z := 26.
Definition JSONOID : Z := 114.
Definition CIDROID : Z := 650.
Definition FLOAT4OID : Z := 700.
Definition FLOAT8OID : Z := 701.
Definition INETOID : Z := 869.
Definition BPCHAROID : Z := 1042.
Definition VARCHAROID : Z := 1043.
Definition DATEOID : Z := 1082.
Definition TIMEOID : Z := 1083.
Definition TIMESTAMPOID : Z := 1114.
Definition TIMESTAMPTZOID : Z := 1184.
Definition INTERVALOID : Z := 1186.
Definition TIMETZOID : Z := 1266.
Definition NUMERICOID : Z := 1700.
Definition UUIDOID : Z := 2950.
Definition JSONBOID : Z := 3802.

Inductive MissingDefault :=
| Raw (bytes : list Z)
| TextDefault (text : list Z).

(** Integers are signed where the source's are; characters are their codes. *)
Record RelAttr := MkAttr
  { attnum : Z; attname : list Z; type_oid : Z; typmod : Z; not_null : bool; dropped : bool; type_name : list Z;
    type_byval : bool; type_len : Z; type_align : Z; type_storage : Z; missing_default : option MissingDefault }.

Inductive ReplIdent :=
| Default (pk_attnums : option (list Z))
| NothingIdent
| Full (pk_attnums : option (list Z))
| UsingIndex (index_oid : Z) (key_attnums : list Z).

(** [rel_name] is namespace and name; [ancestors] are a partition's, parent
    first. *)
Inductive RelDescriptor := MkDesc
  { drfn : RelFileNode; oid : Z; toast_oid : Z; namespace_oid : Z; rel_name : list Z * list Z; kind : Z;
    persistence : Z; replident : ReplIdent; attributes : list RelAttr; ancestors : list RelDescriptor }.

Definition is_partition (d : RelDescriptor) : bool := match ancestors d with [] => false | _ => true end.

Definition replident_key_attnums (d : RelDescriptor) : list Z :=
  match replident d with
  | Default (Some keys) | Full (Some keys) | UsingIndex _ keys => keys
  | _ => []
  end.

End Schema.

Module HeapDecode.
Import Schema.

Definition SIZE_OF_HEAP_HEADER : Z := 5.
Definition SIZE_OF_HEAP_TUPLE_HEADER : Z := 23.
Definition SIZE_OF_HEAP_DELETE : Z := 8.
Definition SIZE_OF_HEAP_UPDATE : Z := 14.
Definition SIZE_OF_HEAP_MULTI_INSERT : Z := 4.
Definition SIZE_OF_MULTI_INSERT_TUPLE : Z := 7.
Definition XLOG_HEAP_OPMASK : Z := 0x70.
Definition XLOG_HEAP_INSERT : Z := 0x00.
Definition XLOG_HEAP_DELETE : Z := 0x10.
Definition XLOG_HEAP_UPDATE : Z := 0x20.
Definition XLOG_HEAP_HOT_UPDATE : Z := 0x40.
Definition XLOG_HEAP2_MULTI_INSERT : Z := 0x50.
Definition XLOG_HEAP_INIT_PAGE : Z := 0x80.
Definition XLH_UPDATE_CONTAINS_OLD_TUPLE : Z := 4.
Definition XLH_UPDATE_CONTAINS_OLD_KEY : Z := 8.
Definition XLH_UPDATE_PREFIX_FROM_OLD : Z := 32.
Definition XLH_UPDATE_SUFFIX_FROM_OLD : Z := 64.
Definition XLH_DELETE_CONTAINS_OLD_TUPLE : Z := 2.
Definition XLH_DELETE_CONTAINS_OLD_KEY : Z := 4.
Definition XLH_INSERT_CONTAINS_NEW_TUPLE : Z := 8.
Definition HEAP_HASNULL : Z := 0x0001.
Definition HEAP_NATTS_MASK : Z := 0x07FF.

Inductive DecodeError :=
| Truncated (offset need have : Z)
| BadHoff (offset t_hoff : Z)
| BadAlign (c : Z)
| BadPrefixSuffix (need have : Z).

Record ToastPointer := MkToast { va_rawsize : Z; va_extinfo : Z; va_valueid : Z; va_toastrelid : Z }.

(** Floats are their bits. *)
Inductive ColumnValue :=
| Null
| Bool (b : bool)
| Char (c : Z)
| Int2 (v : Z)
| Int4 (v : Z)
| Int8 (v : Z)
| Float4 (bits : Z)
| Float8 (bits : Z)
| Oid (v : Z)
| Date (v : Z)
| Time (v : Z)
| Timestamp (v : Z)
| TimestampTz (v : Z)
| TimeTz (micros tz_seconds : Z)
| Uuid (bytes : list Z)
| Name (s : list Z)
| Bytea (bytes : list Z)
| TextVal (s : list Z)
| NumericVal (k : Numeric.NumericKind)
| InetVal (v : AsciiBuf.InetValue)
| IntervalVal (v : AsciiBuf.IntervalValue)
| Json (s : list Z)
| PgPending (type_oid : Z) (raw : list Z)
| PgPendingText (type_oid : Z) (text : list Z)
| ExternalToast (p : ToastPointer)
| Unsupported (type_oid : Z) (raw : list Z).

Record DecodedTuple := MkTuple { columns : list (option ColumnValue); partial : bool }.

Inductive HeapOp := Insert | Update | HotUpdate | Delete | Truncate.

Record DecodedHeap := MkHeap
  { rfn : RelFileNode; xid : Z; source_lsn : Z; op : HeapOp; new : option DecodedTuple; old : option DecodedTuple }.

(** The decompression crates: bytes written for a body and a raw size. *)
Class Decompress := MkDecompress
  { pglz_into : list Z -> Z -> option (list Z); lz4_block : list Z -> Z -> option (list Z) }.

(** The standard library's [f32] and [f64] parsers, giving bits. *)
Class FloatText := MkFloatText { parse_f32 : list Z -> option Z; parse_f64 : list Z -> option Z }.

Section Decode.
Context `{D : Decompress} `{F : FloatText}.

(** ** Alignment and bits *)
Definition align_for (cur attalign : Z) : Z :=
  if attalign =? 115 then align_up cur 2
  else if attalign =? 105 then align_up cur 4
  else if attalign =? 100 then align_up cur 8
  else cur.

Definition att_align_nominal (cur_offset attalign attlen : Z) (buf : list Z) (abs_offset : Z) : Z :=
  if (attlen =? -1) && (abs_offset <? zlen buf) && negb (byte_at buf abs_offset =? 0) then cur_offset
  else align_for cur_offset attalign.

Definition bitmap_is_set (bitmap : list Z) (bit : Z) : bool :=
  match zget bitmap (bit / 8) with
  | Some byte => Z.land (Z.shiftr byte (Z.land bit 7)) 1 =? 1
  | None => false
  end.

Definition decoded_size_or_skip (att : RelAttr) : option Z := if 0 <? type_len att then Some (type_len att) else None.

Definition read_u16 (buf : list Z) (cur : Z) : result DecodeError (Z * Z) :=
  if zlen buf <? cur + 2 then Err (Truncated cur 2 (sat_sub (zlen buf) cur))
  else Ok (u16_at buf cur, cur + 2).

(** ** Values *)
Definition fixed_value (att : RelAttr) (body : list Z) : ColumnValue :=
  let t := type_oid att in
  if t =? BOOLOID then Bool (negb (byte_at body 0 =? 0))
  else if t =? CHAROID then Char (signed 8 (byte_at body 0))
  else if t =? INT2OID then Int2 (signed 16 (le_dec body))
  else if t =? INT4OID then Int4 (signed 32 (le_dec body))
  else if t =? INT8OID then Int8 (signed 64 (le_dec body))
  else if t =? FLOAT4OID then Float4 (le_dec body)
  else if t =? FLOAT8OID then Float8 (le_dec body)
  else if t =? OIDOID then Oid (le_dec body)
  else if t =? DATEOID then Date (signed 32 (le_dec body))
  else if t =? TIMEOID then Time (signed 64 (le_dec body))
  else if t =? TIMESTAMPOID then Timestamp (signed 64 (le_dec body))
  else if t =? TIMESTAMPTZOID then TimestampTz (signed 64 (le_dec body))
  else if t =? TIMETZOID then TimeTz (i64_at body 0) (i32_at body 8)
  else if t =? UUIDOID then Uuid body
  else if t =? INTERVALOID then
    match AsciiBuf.decode_interval body with Ok v => IntervalVal v | Err _ => Unsupported t body end
  else Unsupported t body.

Definition TOAST_COMPRESSION_PGLZ : Z := 0.
Definition TOAST_COMPRESSION_LZ4 : Z := 1.
Definition VARLENA_EXTSIZE_BITS : Z := 30.
Definition VARLENA_EXTSIZE_MASK : Z := 2 ^ 30 - 1.

Definition decompress_varlena (method : Z) (src : list Z) (raw_len : Z) : option (list Z) :=
  if method =? TOAST_COMPRESSION_PGLZ then pglz_into src raw_len
  else if method =? TOAST_COMPRESSION_LZ4 then lz4_block src raw_len
  else None.

Definition varlena_to_value (t : Z) (body : list Z) : ColumnValue :=
  if t =? BYTEAOID then Bytea body
  else if (t =? TEXTOID) || (t =? VARCHAROID) || (t =? BPCHAROID) then
    if Text.valid_utf8 body then TextVal body else Bytea body
  else if t =? NUMERICOID then
    match Numeric.decode_numeric body with Ok v => NumericVal v | Err _ => Unsupported t body end
  else if (t =? INETOID) || (t =? CIDROID) then
    match AsciiBuf.decode_inet body (t =? CIDROID) with Ok v => InetVal v | Err _ => Unsupported t body end
  else if t =? JSONOID then
    if Text.valid_utf8 body then Json body else Bytea body
  else if t =? JSONBOID then
    match Jsonb.decode_jsonb body with Ok s => Json s | Err _ => Unsupported t body end
  else PgPending t body.

Definition decode_varlena (att : RelAttr) (buf : list Z) (abs : Z) : result DecodeError (ColumnValue * Z) :=
  if zlen buf <=? abs then Err (Truncated abs 1 0)
  else
    let first := byte_at buf abs in
    let t := type_oid att in
    if first =? 1 then
      if zlen buf <? abs + 2 then Err (Truncated abs 2 (zlen buf - abs))
      else if byte_at buf (abs + 1) =? 18 then
        if zlen buf <? abs + 2 + 16 then Err (Truncated abs 18 (zlen buf - abs))
        else
          let body := sub buf (abs + 2) (abs + 2 + 16) in
          Ok (ExternalToast (MkToast (i32_at body 0) (u32_at body 4) (u32_at body 8) (u32_at body 12)), 18)
      else Ok (Unsupported t (zdrop abs buf), zlen buf - abs)
    else if negb (Z.land first 1 =? 0) then
      let total := Z.shiftr first 1 in
      if total <? 1 then Err (Truncated abs 1 0)
      else if zlen buf <? abs + total then Err (Truncated abs total (zlen buf - abs))
      else Ok (varlena_to_value t (sub buf (abs + 1) (abs + total)), total)
    else if zlen buf <? abs + 4 then Err (Truncated abs 4 (zlen buf - abs))
    else
      let header := u32_at buf abs in
      let compressed := negb (Z.land header 2 =? 0) in
      let total := Z.shiftr header 2 in
      if total <? 4 then Err (Truncated abs 4 0)
      else if zlen buf <? abs + total then Err (Truncated abs total (zlen buf - abs))
      else if compressed then
        if total <? 8 then Err (Truncated abs 8 total)
        else
          let tcinfo := u32_at buf (abs + 4) in
          let raw_len := Z.land tcinfo VARLENA_EXTSIZE_MASK in
          let method := Z.shiftr tcinfo VARLENA_EXTSIZE_BITS in
          let body := sub buf (abs + 8) (abs + total) in
          let v := match decompress_varlena method body raw_len with
                   | Some out => varlena_to_value t out
                   | None => Unsupported t (sub buf abs (abs + total))
                   end in
          Ok (v, total)
      else Ok (varlena_to_value t (sub buf (abs + 4) (abs + total)), total).

(** Bytes before the terminator, if there is one. *)
Fixpoint until_nul (l : list Z) : option (list Z) :=
  match l with
  | [] => None
  | b :: l => if b =? 0 then Some [] else let* r := until_nul l in Some (b :: r)
  end.

Definition decode_cstring (buf : list Z) (abs : Z) : result DecodeError (ColumnValue * Z) :=
  match until_nul (zdrop abs buf) with
  | None => Err (Truncated abs 1 0)
  | Some body => Ok (if Text.valid_utf8 body then TextVal body else Bytea body, zlen body + 1)
  end.

Definition fixed_len (att : RelAttr) (buf : list Z) (abs : Z) : result DecodeError Z :=
  let len := wrap 64 (type_len att) in
  if zlen buf <? abs + len then Err (Truncated abs len (sat_sub (zlen buf) abs)) else Ok len.

Definition consume_dropped (att : RelAttr) (buf : list Z) (abs : Z) : result DecodeError Z :=
  if type_len att =? -1 then let? vc := decode_varlena att buf abs in Ok vc.2
  else if type_len att =? -2 then let? vc := decode_cstring buf abs in Ok vc.2
  else fixed_len att buf abs.

Definition decode_one_value (att : RelAttr) (buf : list Z) (abs : Z) : result DecodeError (ColumnValue * Z) :=
  if dropped att then let? consumed := consume_dropped att buf abs in Ok (Null, consumed)
  else if type_len att =? -1 then decode_varlena att buf abs
  else if type_len att =? -2 then decode_cstring buf abs
  else let? len := fixed_len att buf abs in Ok (fixed_value att (sub buf abs (abs + len)), len).

(** ** Fast defaults *)
Definition missing_value_from_array (att : RelAttr) (arr : list Z) : ColumnValue :=
  let decode :=
    if zlen arr <? 16 then None
    else
      let ndim := i32_at arr 4 in
      let dataoffset := i32_at arr 8 in
      if negb (ndim =? 1) then None
      else
        let abs := if negb (dataoffset =? 0) then wrap 64 dataoffset else align_up (16 + 8 * ndim) 8 in
        match decode_one_value att arr abs with Ok (v, _) => Some v | Err _ => None end in
  default Null decode.

(** [text.parse::<iN>()]. *)
Definition parse_int (w : Z) (text : list Z) : option Z :=
  let signed_of n := if (- 2 ^ (w - 1) <=? n) && (n <? 2 ^ (w - 1)) then Some n else None in
  match text with
  | 45 :: digits =>
      match digits with
      | [] => None
      | c :: _ => if Text.is_digit c then let* n := Text.parse_uint w digits in signed_of (- n) else None
      end
  | _ => let* n := Text.parse_uint w text in signed_of n
  end.

Definition missing_value_from_text (t : Z) (text : list Z) : ColumnValue :=
  let or_null (f : Z -> ColumnValue) o := match o with Some v => f v | None => Null end in
  if t =? BOOLOID then
    Bool (bool_decide (text = [116] \/ text = [116; 114; 117; 101] \/ text = [121; 101; 115] \/ text = [111; 110] \/ text = [49]))
  else if t =? CHAROID then or_null (fun b => Char (signed 8 b)) (head text)
  else if t =? INT2OID then or_null Int2 (parse_int 16 text)
  else if t =? INT4OID then or_null Int4 (parse_int 32 text)
  else if t =? INT8OID then or_null Int8 (parse_int 64 text)
  else if t =? FLOAT4OID then or_null Float4 (parse_f32 text)
  else if t =? FLOAT8OID then or_null Float8 (parse_f64 text)
  else if t =? OIDOID then or_null Oid (Text.parse_uint 32 text)
  else if (t =? TEXTOID) || (t =? VARCHAROID) || (t =? BPCHAROID) || (t =? NAMEOID) then TextVal text
  else if (t =? JSONOID) || (t =? JSONBOID) then Json text
  else PgPendingText t text.

Definition missing_value_for (att : RelAttr) : ColumnValue :=
  match missing_default att with
  | Some (Raw arr) => missing_value_from_array att arr
  | Some (TextDefault text) => missing_value_from_text (type_oid att) text
  | None => Null
  end.

(** ** The tuple walk *)
Record Frame := MkFrame
  { buf : list Z; natts : Z; has_null : bool; bitmap : list Z; col_data_off : Z; prefixlen : Z; logical_end : Z }.

(** Every column from here on is absent. *)
Definition absent (acc : list (option ColumnValue)) (rest : list RelAttr) : result DecodeError DecodedTuple :=
  Ok (MkTuple (acc ++ [None] ++ replicate (length rest) None) true).

Fixpoint walk_columns (f : Frame) (attrs : list RelAttr) (idx cur : Z) (acc : list (option ColumnValue))
    : result DecodeError DecodedTuple :=
  match attrs with
  | [] => Ok (MkTuple acc false)
  | att :: rest =>
      if natts f <=? idx then walk_columns f rest (idx + 1) cur (acc ++ [Some (missing_value_for att)])
      else if has_null f && negb (bitmap_is_set (bitmap f) idx) then walk_columns f rest (idx + 1) cur (acc ++ [Some Null])
      else
        let cur :=
          if (type_len att =? -1) && (prefixlen f <=? cur) && (col_data_off f + cur - prefixlen f <? zlen (buf f))
          then att_align_nominal cur (type_align att) (type_len att) (buf f) (col_data_off f + cur - prefixlen f)
          else align_for cur (type_align att) in
        if cur <? prefixlen f then
          match decoded_size_or_skip att with
          | Some n => walk_columns f rest (idx + 1) (cur + n) (acc ++ [None])
          | None => absent acc rest
          end
        else if logical_end f <=? cur then
          match decoded_size_or_skip att with
          | Some n => walk_columns f rest (idx + 1) (cur + n) (acc ++ [None])
          | None => absent acc rest
          end
        else
          let abs := col_data_off f + (cur - prefixlen f) in
          let slow :=
            match decode_one_value att (buf f) abs with
            | Ok (value, consumed) => walk_columns f rest (idx + 1) (cur + consumed) (acc ++ [Some value])
            | Err (Truncated _ _ _) => absent acc rest
            | Err e => Err e
            end in
          if (0 <? type_len att) && negb (dropped att) then
            match get_range (buf f) abs (abs + type_len att) with
            | Some body => walk_columns f rest (idx + 1) (cur + type_len att) (acc ++ [Some (fixed_value att body)])
            | None => slow
            end
          else slow
  end.

Definition decode_tuple_payload (buf : list Z) (header_off : Z) (rel : RelDescriptor) (prefixlen suffixlen : Z)
    : result DecodeError DecodedTuple :=
  if zlen buf <? header_off + SIZE_OF_HEAP_HEADER then
    Err (Truncated header_off SIZE_OF_HEAP_HEADER (sat_sub (zlen buf) header_off))
  else
    let t_infomask2 := u16_at buf header_off in
    let t_infomask := u16_at buf (header_off + 2) in
    let t_hoff := byte_at buf (header_off + 4) in
    if t_hoff <? SIZE_OF_HEAP_TUPLE_HEADER then Err (BadHoff header_off t_hoff)
    else
      let natts := Z.land t_infomask2 HEAP_NATTS_MASK in
      let has_null := negb (Z.land t_infomask HEAP_HASNULL =? 0) in
      let bitmap_bytes := if has_null then (natts + 7) / 8 else 0 in
      let bitmap_off := header_off + SIZE_OF_HEAP_HEADER in
      if zlen buf <? bitmap_off + bitmap_bytes then
        Err (Truncated bitmap_off bitmap_bytes (sat_sub (zlen buf) bitmap_off))
      else
        let bitmap := sub buf bitmap_off (bitmap_off + bitmap_bytes) in
        let col_data_off := header_off + SIZE_OF_HEAP_HEADER + (t_hoff - SIZE_OF_HEAP_TUPLE_HEADER) in
        let wal_col_data_avail := sat_sub (zlen buf) col_data_off in
        walk_columns (MkFrame buf natts has_null bitmap col_data_off prefixlen (wal_col_data_avail + prefixlen))
          (attributes rel) 0 0 [].

(** ** The record shapes *)
Definition decode_old_tuple_from_main_data (md : list Z) (header_off : Z) (rel : RelDescriptor)
    : result DecodeError (option DecodedTuple) :=
  if zlen md <? header_off + SIZE_OF_HEAP_HEADER then
    Err (Truncated header_off SIZE_OF_HEAP_HEADER (zlen md - header_off))
  else let? t := decode_tuple_payload md header_off rel 0 0 in Ok (Some t).

Definition decode_insert (record : XLogRecord) (lsn : Z) (rfn : RelFileNode) (xid : Z) (rel : RelDescriptor)
    : result DecodeError DecodedHeap :=
  match blocks record with
  | [] => Ok (MkHeap rfn xid lsn Insert None None)
  | b :: _ => let? new := decode_tuple_payload (data b) 0 rel 0 0 in Ok (MkHeap rfn xid lsn Insert (Some new) None)
  end.

Definition decode_update (record : XLogRecord) (lsn : Z) (rfn : RelFileNode) (xid : Z) (rel : RelDescriptor) (hot : bool)
    : result DecodeError DecodedHeap :=
  let md := main_data record in
  if zlen md <? SIZE_OF_HEAP_UPDATE then Err (Truncated 0 SIZE_OF_HEAP_UPDATE (zlen md))
  else
    let flags := byte_at md 7 in
    let has_prefix := negb (Z.land flags XLH_UPDATE_PREFIX_FROM_OLD =? 0) in
    let has_suffix := negb (Z.land flags XLH_UPDATE_SUFFIX_FROM_OLD =? 0) in
    let has_old_tuple := negb (Z.land flags XLH_UPDATE_CONTAINS_OLD_TUPLE =? 0) in
    let has_old_key := negb (Z.land flags XLH_UPDATE_CONTAINS_OLD_KEY =? 0) in
    let? new :=
      match blocks record with
      | b :: _ =>
          let? pc := (if has_prefix then read_u16 (data b) 0 else Ok (0, 0)) in
          let '(prefixlen, cursor) := pc in
          let? sc := (if has_suffix then read_u16 (data b) cursor else Ok (0, cursor)) in
          let '(suffixlen, cursor) := sc in
          let? t := decode_tuple_payload (data b) cursor rel prefixlen suffixlen in
          Ok (Some (if has_prefix || has_suffix then MkTuple (columns t) true else t))
      | [] => Ok None
      end in
    let? old :=
      (if has_old_tuple || has_old_key then decode_old_tuple_from_main_data md SIZE_OF_HEAP_UPDATE rel else Ok None) in
    Ok (MkHeap rfn xid lsn (if hot then HotUpdate else Update) new old).

Definition decode_delete (record : XLogRecord) (lsn : Z) (rfn : RelFileNode) (xid : Z) (rel : RelDescriptor)
    : result DecodeError DecodedHeap :=
  let md := main_data record in
  if zlen md <? SIZE_OF_HEAP_DELETE then Err (Truncated 0 SIZE_OF_HEAP_DELETE (zlen md))
  else
    let flags := byte_at md 7 in
    let has_old := negb (Z.land flags (Z.lor XLH_DELETE_CONTAINS_OLD_TUPLE XLH_DELETE_CONTAINS_OLD_KEY) =? 0) in
    let? old := (if has_old then decode_old_tuple_from_main_data md SIZE_OF_HEAP_DELETE rel else Ok None) in
    Ok (MkHeap rfn xid lsn Delete None old).

(** The multi-insert tuple loop: each tuple gets its five header bytes back. *)
Fixpoint multi_loop (n : nat) (d : list Z) (cursor lsn : Z) (rfn : RelFileNode) (xid : Z) (rel : RelDescriptor)
    (out : list DecodedHeap) : result DecodeError (list DecodedHeap) :=
  match n with
  | O => Ok out
  | S n =>
      let cursor := align_up cursor 2 in
      if zlen d <? cursor + SIZE_OF_MULTI_INSERT_TUPLE then
        Err (Truncated cursor SIZE_OF_MULTI_INSERT_TUPLE (sat_sub (zlen d) cursor))
      else
        let datalen := u16_at d cursor in
        let t_infomask2 := u16_at d (cursor + 2) in
        let t_infomask := u16_at d (cursor + 4) in
        let t_hoff := byte_at d (cursor + 6) in
        let cursor := cursor + SIZE_OF_MULTI_INSERT_TUPLE in
        if zlen d <? cursor + datalen then Err (Truncated cursor datalen (sat_sub (zlen d) cursor))
        else
          let synth := le_enc 2 t_infomask2 ++ le_enc 2 t_infomask ++ [t_hoff] ++ sub d cursor (cursor + datalen) in
          let? tup := decode_tuple_payload synth 0 rel 0 0 in
          multi_loop n d (cursor + datalen) lsn rfn xid rel (out ++ [MkHeap rfn xid lsn Insert (Some tup) None])
  end.

Definition decode_multi_insert (record : XLogRecord) (lsn : Z) (rfn : RelFileNode) (xid : Z) (rel : RelDescriptor)
    : result DecodeError (list DecodedHeap) :=
  let md := main_data record in
  if zlen md <? SIZE_OF_HEAP_MULTI_INSERT then Err (Truncated 0 SIZE_OF_HEAP_MULTI_INSERT (zlen md))
  else
    let flags := byte_at md 0 in
    let ntuples := u16_at md 2 in
    if ntuples =? 0 then Err (Truncated 0 1 0)
    else if Z.land flags XLH_INSERT_CONTAINS_NEW_TUPLE =? 0 then Ok []
    else
      let init_page := negb (Z.land (info record) XLOG_HEAP_INIT_PAGE =? 0) in
      let expected_md_min := if init_page then SIZE_OF_HEAP_MULTI_INSERT else SIZE_OF_HEAP_MULTI_INSERT + ntuples * 2 in
      if zlen md <? expected_md_min then Err (Truncated SIZE_OF_HEAP_MULTI_INSERT expected_md_min (zlen md))
      else
        match blocks record with
        | [] => Ok []
        | b :: _ => multi_loop (Z.to_nat ntuples) (data b) 0 lsn rfn xid rel []
        end.

Definition decode_heap_record (record : XLogRecord) (lsn : Z) (rel : RelDescriptor)
    : result DecodeError (list DecodedHeap) :=
  let rm := resource_manager_id record in
  let info_op := Z.land (info record) XLOG_HEAP_OPMASK in
  let rfn := match blocks record with b :: _ => WalRecord.rel b | [] => MkRfn 0 0 0 end in
  let xid := xact_id record in
  let one r := let? h := r in Ok [h] in
  if (rm =? RM_HEAP2) && (info_op =? XLOG_HEAP2_MULTI_INSERT) then decode_multi_insert record lsn rfn xid rel
  else if negb (rm =? RM_HEAP) then Ok []
  else if info_op =? XLOG_HEAP_INSERT then one (decode_insert record lsn rfn xid rel)
  else if info_op =? XLOG_HEAP_UPDATE then one (decode_update record lsn rfn xid rel false)
  else if info_op =? XLOG_HEAP_HOT_UPDATE then one (decode_update record lsn rfn xid rel true)
  else if info_op =? XLOG_HEAP_DELETE then one (decode_delete record lsn rfn xid rel)
  else Ok [].

End Decode.

(** ** Helpers over decoded values *)
Definition heap_op_index (rm info : Z) : Z :=
  let op := Z.land info XLOG_HEAP_OPMASK in
  if rm =? RM_HEAP then
    if op =? XLOG_HEAP_INSERT then 0
    else if op =? XLOG_HEAP_DELETE then 1
    else if op =? XLOG_HEAP_UPDATE then 2
    else if op =? 0x30 then 3
    else if op =? XLOG_HEAP_HOT_UPDATE then 4
    else 6
  else if (rm =? RM_HEAP2) && (op =? XLOG_HEAP2_MULTI_INSERT) then 5
  else 6.

Definition local_matrix_covers (t type_len : Z) : bool :=
  if type_len =? -1 then
    bool_decide (t ∈ [BYTEAOID; TEXTOID; VARCHAROID; BPCHAROID; NUMERICOID; INETOID; CIDROID; JSONOID; JSONBOID])
  else if type_len =? -2 then true
  else
    bool_decide (t ∈ [BOOLOID; CHAROID; INT2OID; INT4OID; INT8OID; FLOAT4OID; FLOAT8OID; OIDOID; DATEOID; TIMEOID;
                      TIMESTAMPOID; TIMESTAMPTZOID; TIMETZOID; UUIDOID; INTERVALOID]).

Definition approx_bytes (v : ColumnValue) : Z :=
  match v with
  | Null => 0
  | Bool _ | Char _ => 1
  | Int2 _ => 2
  | Int4 _ | Float4 _ | Oid _ | Date _ => 4
  | Int8 _ | Float8 _ | Time _ | Timestamp _ | TimestampTz _ => 8
  | TimeTz _ _ => 12
  | Uuid _ => 16
  | IntervalVal _ => 16
  | InetVal v => 3 + zlen (AsciiBuf.addr v)
  | NumericVal (Numeric.Finite s) => zlen s
  | NumericVal _ => 0
  | Name s | TextVal s | Json s => zlen s
  | Bytea b => zlen b
  | PgPending _ raw | Unsupported _ raw => zlen raw
  | PgPendingText _ text => zlen text
  | ExternalToast _ => 16
  end.

#[global] Instance numeric_kind_eq_dec : EqDecision Numeric.NumericKind.
Proof. solve_decision. Defined.

#[global] Instance inet_eq_dec : EqDecision AsciiBuf.InetValue.
Proof. solve_decision. Defined.

#[global] Instance interval_eq_dec : EqDecision AsciiBuf.IntervalValue.
Proof. solve_decision. Defined.

#[global] Instance toast_pointer_eq_dec : EqDecision ToastPointer.
Proof. solve_decision. Defined.

#[global] Instance column_value_eq_dec : EqDecision ColumnValue.
Proof. solve_decision. Defined.

(** IEEE equality on the bits of a float with [m] mantissa bits in [w]: no NaN
    equals anything, and the two zeros are equal. *)
Definition float_eqb (w m x y : Z) : bool :=
  let magnitude z := z mod 2 ^ (w - 1) in
  let inf := (2 ^ (w - 1 - m) - 1) * 2 ^ m in
  (magnitude x <=? inf) && (magnitude y <=? inf) && ((x =? y) || ((magnitude x =? 0) && (magnitude y =? 0))).

(** The derived [PartialEq]. *)
Definition value_eqb (a b : ColumnValue) : bool :=
  match a, b with
  | Float4 x, Float4 y => float_eqb 32 23 x y
  | Float8 x, Float8 y => float_eqb 64 52 x y
  | _, _ => bool_decide (a = b)
  end.

Definition is_replica_identity_attr (ri : ReplIdent) (attnum : Z) : bool :=
  match ri with
  | Full _ => true
  | NothingIdent => false
  | Default None => false
  | Default (Some v) | UsingIndex _ v => bool_decide (attnum ∈ v)
  end.

(** Columns present in both images and unequal. *)
Definition differs (old new : DecodedTuple) (a : Z) : bool :=
  match zget (columns old) a, zget (columns new) a with
  | Some (Some o), Some (Some n) => negb (value_eqb o n)
  | _, _ => false
  end.

(** The tombstone and the heap, its [old] image moved out. *)
Definition take_key_change_tombstone (heap : DecodedHeap) (rel : RelDescriptor) : option DecodedHeap * DecodedHeap :=
  let hot := match op heap with Update => Some false | HotUpdate => Some true | _ => None end in
  match hot, old heap, new heap with
  | Some hot, Some o, Some n =>
      let keys := replident_key_attnums rel in
      let moved :=
        match keys with
        | [] =>
            match replident rel with
            | Full None => existsb (fun i => differs o n (Z.of_nat i)) (seq 0 (length (columns n)))
            | _ => false
            end
        | _ => negb hot && existsb (fun a => differs o n (a - 1)) keys
        end in
      if moved then
        (Some (MkHeap (rfn heap) (xid heap) (source_lsn heap - 1) Delete None (Some o)),
         MkHeap (rfn heap) (xid heap) (source_lsn heap) (op heap) (new heap) None)
      else (None, heap)
  | _, _, _ => (None, heap)
  end.

(** The chunk, and the columns with [chunk_data] taken out. *)
Definition take_toast_chunk_columns (cols : list (option ColumnValue))
    : option (Z * Z * list Z) * list (option ColumnValue) :=
  match cols with
  | Some (Oid chunk_id) :: Some (Int4 chunk_seq) :: c :: rest =>
      (match c with Some (Bytea chunk_data) => Some (chunk_id, wrap 32 chunk_seq, chunk_data) | _ => None end,
       Some (Oid chunk_id) :: Some (Int4 chunk_seq) :: None :: rest)
  | _ => (None, cols)
  end.

End HeapDecode.
