(* ===== verification/HeapDecodeProofs.v ===== *)
(** * Heap tuples survive PostgreSQL's layout

    The layout [heap_fill_tuple] gives a row (null bitmap, alignment, varlena
    headers), and that the walk of [HeapDecode] reads every column back. *)
From S2P Require Import Prelude Text WalRecord AsciiBuf Numeric TextArray Jsonb HeapDecode.
Import WalRecord Schema HeapDecode.

Module HeapLayout.

(** What is stored for a column. *)
Inductive field :=
| FNull
| FFixed (body : list Z)
| FShort (body : list Z)
| FLong (body : list Z)
| FPacked (method raw_len : Z) (body : list Z)
| FToast (p : ToastPointer)
| FCStr (body : list Z).

Definition field_bytes (f : field) : list Z :=
  match f with
  | FNull => []
  | FFixed b => b
  | FShort b => (2 * (zlen b + 1) + 1) :: b
  | FLong b => le_enc 4 ((zlen b + 4) * 4) ++ b
  | FPacked m r b => le_enc 4 ((zlen b + 8) * 4 + 2) ++ le_enc 4 (m * 2 ^ 30 + r) ++ b
  | FToast p => 1 :: 18 :: le_enc 4 (va_rawsize p mod 2 ^ 32) ++ le_enc 4 (va_extinfo p) ++ le_enc 4 (va_valueid p) ++
      le_enc 4 (va_toastrelid p)
  | FCStr b => b ++ [0]
  end.

Definition toast_ok (p : ToastPointer) : Prop :=
  - 2 ^ 31 <= va_rawsize p < 2 ^ 31 /\ fits 32 (va_extinfo p) /\ fits 32 (va_valueid p) /\ fits 32 (va_toastrelid p).

Definition field_ok (att : RelAttr) (f : field) : Prop :=
  match f with
  | FNull => True
  | FFixed b => 0 < type_len att < 2 ^ 15 /\ zlen b = type_len att
  | FShort b => type_len att = -1 /\ zlen b <= 126
  | FLong b => type_len att = -1 /\ zlen b + 4 < 2 ^ 30
  | FPacked m r b => type_len att = -1 /\ zlen b + 8 < 2 ^ 30 /\ 0 <= m < 4 /\ 0 <= r < 2 ^ 30
  | FToast p => type_len att = -1 /\ toast_ok p
  | FCStr b => type_len att = -2 /\ Forall (fun c => c <> 0) b
  end.

Definition is_null (f : field) : bool := match f with FNull => true | _ => false end.

(** Where a field starts: headers of one byte are never aligned. *)
Definition start (cur : Z) (att : RelAttr) (f : field) : Z :=
  match f with
  | FShort _ | FToast _ => cur
  | _ => align_for cur (type_align att)
  end.

(** The data area from offset [cur] on. *)
Fixpoint lay (l : list (RelAttr * field)) (cur : Z) : list Z :=
  match l with
  | [] => []
  | (att, f) :: l =>
      if is_null f then lay l cur
      else
        let at_ := start cur att f in
        zrep (at_ - cur) 0 ++ field_bytes f ++ lay l (at_ + zlen (field_bytes f))
  end.

(** Null bitmap: a set bit is a present column. *)
Fixpoint bits_val (l : list bool) : Z :=
  match l with
  | [] => 0
  | b :: l => Z.b2z b + 2 * bits_val l
  end.

Fixpoint bitmap_of (n : nat) (l : list bool) : list Z :=
  match n with
  | O => []
  | S n => bits_val (take 8 l) :: bitmap_of n (drop 8 l)
  end.

Definition present (l : list (RelAttr * field)) : list bool := map (fun af => negb (is_null af.2)) l.

Definition any_null (l : list (RelAttr * field)) : bool := existsb (fun af => is_null af.2) l.

Definition null_bitmap (l : list (RelAttr * field)) : list Z :=
  if any_null l then bitmap_of (Z.to_nat ((zlen l + 7) / 8)) (present l) else [].

(** Header, bitmap, [pad] bytes up to [t_hoff], data.  [hi2] and [hi] are the
    infomask bits that do not matter here. *)
Definition tuple_payload (hi2 hi pad : Z) (l : list (RelAttr * field)) : list Z :=
  le_enc 2 (hi2 * 2048 + zlen l) ++ le_enc 2 (2 * hi + Z.b2z (any_null l)) ++
  [23 + zlen (null_bitmap l) + pad] ++ null_bitmap l ++ zrep pad 0 ++ lay l 0.

Section Roundtrip.
Context `{D : Decompress} `{F : FloatText}.

(** What the decoder should return for a column. *)
Definition field_value (att : RelAttr) (f : field) : ColumnValue :=
  if is_null f || dropped att then Null
  else
    match f with
    | FNull => Null
    | FFixed b => fixed_value att b
    | FShort b | FLong b => varlena_to_value (type_oid att) b
    | FPacked m r b =>
        match decompress_varlena m b r with
        | Some out => varlena_to_value (type_oid att) out
        | None => Unsupported (type_oid att) (field_bytes f)
        end
    | FToast p => ExternalToast p
    | FCStr b => if Text.valid_utf8 b then TextVal b else Bytea b
    end.

(** ** One field *)
Lemma first_byte pre h rest : byte_at (pre ++ h :: rest) (zlen pre) = h.
Proof. rewrite byte_at_skip by lia. by rewrite byte_at_here by lia. Qed.

Lemma word_at pre z rest i : i = zlen pre -> 0 <= z < 2 ^ 32 -> u32_at (pre ++ le_enc 4 z ++ rest) i = z.
Proof. intros -> Hz. unfold u32_at. rewrite sub_split by zlen. by apply le_dec_enc_small. Qed.

Lemma short_field att pre b post : zlen b <= 126 ->
  decode_varlena att (pre ++ field_bytes (FShort b) ++ post) (zlen pre) =
  Ok (varlena_to_value (type_oid att) b, zlen (field_bytes (FShort b))).
Proof.
  intros Hb. cbn [field_bytes]. unfold decode_varlena. pose proof (zlen_nonneg b). pose proof (zlen_nonneg post).
  set (h := 2 * (zlen b + 1) + 1). cbn [app]. rewrite first_byte. rewrite !zlen_app, !zlen_cons, zlen_app.
  assert (h =? 1 = false) as -> by lia.
  assert (Z.land h 1 =? 0 = false) as ->. { change 1 with (Z.ones 1). rewrite Z.land_ones by lia. subst h. Z.to_euclidean_division_equations. lia. }
  assert (Z.shiftr h 1 = 1 + zlen b) as ->. { rewrite Z.shiftr_div_pow2 by lia. subst h. change (2 ^ 1) with 2. Z.to_euclidean_division_equations. lia. }
  rewrite (proj2 (Z.leb_gt _ _)), !(proj2 (Z.ltb_ge _ _)) by lia. cbn [negb]. do 3 f_equal.
  replace (pre ++ h :: b ++ post) with ((pre ++ [h]) ++ b ++ post) by (by rewrite <- app_assoc).
  by apply sub_split; zlen.
Qed.

(** The first byte of a four-byte header is even. *)
Lemma long_first pre z rest k : z = 2 * k -> 0 <= z < 2 ^ 32 ->
  byte_at (pre ++ le_enc 4 z ++ rest) (zlen pre) =? 1 = false /\
  Z.land (byte_at (pre ++ le_enc 4 z ++ rest) (zlen pre)) 1 =? 0 = true.
Proof.
  intros -> Hz. cbn [le_enc app]. rewrite first_byte. change 1 with (Z.ones 1) at 2. rewrite Z.land_ones by lia.
  change (2 ^ 1) with 2. split; Z.to_euclidean_division_equations; lia.
Qed.

Lemma land_2 k b : Z.land (4 * k + 2 * Z.b2z b) 2 =? 0 = negb b.
Proof.
  pose proof (land_high 1 (k * 2 ^ 1 + Z.b2z b) 0 1 ltac:(lia) ltac:(lia)) as E.
  change (Z.land (k * 2 ^ 1 + Z.b2z b) 1) with (Z.land (k * 2 ^ 1 + Z.b2z b) (Z.ones 1)) in E.
  rewrite land_low in E by (destruct b; cbn [Z.b2z]; lia).
  replace ((k * 2 ^ 1 + Z.b2z b) * 2 ^ 1 + 0) with (4 * k + 2 * Z.b2z b) in E by lia. change (1 * 2 ^ 1) with 2 in E.
  rewrite E. by destruct b.
Qed.

Lemma long_field att pre b post : zlen b + 4 < 2 ^ 30 ->
  decode_varlena att (pre ++ field_bytes (FLong b) ++ post) (zlen pre) =
  Ok (varlena_to_value (type_oid att) b, zlen (field_bytes (FLong b))).
Proof.
  intros Hb. cbn [field_bytes]. unfold decode_varlena. pose proof (zlen_nonneg b). pose proof (zlen_nonneg post).
  set (h := (zlen b + 4) * 4). rewrite <- app_assoc.
  destruct (long_first pre h (b ++ post) (2 * (zlen b + 4))) as [-> ->]; [lia..|]. cbn [negb].
  rewrite (word_at pre h) by lia. rewrite !zlen_app, !zlen_le_enc.
  assert (Z.land h 2 =? 0 = true) as ->. { replace h with (4 * (zlen b + 4) + 2 * Z.b2z false) by (cbn; lia). apply land_2. }
  assert (Z.shiftr h 2 = zlen b + 4) as ->. { rewrite Z.shiftr_div_pow2 by lia. subst h. change (2 ^ 2) with 4. apply Z.div_mul. lia. }
  rewrite (proj2 (Z.leb_gt _ _)), !(proj2 (Z.ltb_ge _ _)) by lia. cbn [negb]. rewrite app_assoc, sub_split by zlen.
  do 2 f_equal. lia.
Qed.

Lemma packed_field att pre m r b post : zlen b + 8 < 2 ^ 30 -> 0 <= m < 4 -> 0 <= r < 2 ^ 30 ->
  decode_varlena att (pre ++ field_bytes (FPacked m r b) ++ post) (zlen pre) =
  Ok (match decompress_varlena m b r with
      | Some out => varlena_to_value (type_oid att) out
      | None => Unsupported (type_oid att) (field_bytes (FPacked m r b))
      end, zlen (field_bytes (FPacked m r b))).
Proof.
  intros Hb Hm Hr. unfold decode_varlena. pose proof (zlen_nonneg b). pose proof (zlen_nonneg post).
  assert (sub (pre ++ field_bytes (FPacked m r b) ++ post) (zlen pre) (zlen pre + (zlen b + 8)) = field_bytes (FPacked m r b)) as Ew.
  { apply sub_split; [lia|]. cbn [field_bytes]. rewrite !zlen_app, !zlen_le_enc. lia. }
  cbn [field_bytes] in *.
  set (h := (zlen b + 8) * 4 + 2) in *. set (tc := m * 2 ^ 30 + r) in *. rewrite <- !app_assoc in *.
  destruct (long_first pre h (le_enc 4 tc ++ b ++ post) (2 * (zlen b + 8) + 1)) as [-> ->]; [lia..|]. cbn [negb].
  rewrite (word_at pre h) by lia. rewrite (app_assoc pre). rewrite (word_at (pre ++ le_enc 4 h) tc) by zlen.
  rewrite !zlen_app, !zlen_le_enc.
  assert (Z.land h 2 =? 0 = false) as ->. { replace h with (4 * (zlen b + 8) + 2 * Z.b2z true) by (cbn; lia). apply land_2. }
  assert (Z.shiftr h 2 = zlen b + 8) as ->. { rewrite Z.shiftr_div_pow2 by lia. subst h. change (2 ^ 2) with 4. Z.to_euclidean_division_equations. lia. }
  assert (Z.land tc VARLENA_EXTSIZE_MASK = r) as -> by (apply (land_low 30); lia).
  assert (Z.shiftr tc VARLENA_EXTSIZE_BITS = m) as -> by (apply (shiftr_high 30); lia).
  rewrite (proj2 (Z.leb_gt _ _)), !(proj2 (Z.ltb_ge _ _)) by lia. cbn [negb].
  rewrite <- (app_assoc pre), Ew. rewrite !app_assoc. rewrite <- (app_assoc _ b post), sub_split by zlen.
  do 2 f_equal. lia.
Qed.

Lemma toast_field att pre p post : toast_ok p ->
  decode_varlena att (pre ++ field_bytes (FToast p) ++ post) (zlen pre) = Ok (ExternalToast p, zlen (field_bytes (FToast p))).
Proof.
  intros (Hr & He & Hv & Ht). unfold fits in *. pose proof (zlen_nonneg post).
  set (body := le_enc 4 (va_rawsize p mod 2 ^ 32) ++ le_enc 4 (va_extinfo p) ++ le_enc 4 (va_valueid p) ++ le_enc 4 (va_toastrelid p)).
  change (field_bytes (FToast p)) with ([1; 18] ++ body). assert (zlen body = 16) as Hb by done.
  unfold decode_varlena. rewrite <- app_assoc. cbn [app]. rewrite first_byte. change (1 =? 1) with true.
  assert (byte_at (pre ++ 1 :: 18 :: body ++ post) (zlen pre + 1) = 18) as ->.
  { replace (pre ++ 1 :: 18 :: body ++ post) with ((pre ++ [1]) ++ 18 :: body ++ post) by (by rewrite <- app_assoc).
    replace (zlen pre + 1) with (zlen (pre ++ [1])) by zlen. apply first_byte. }
  change (18 =? 18) with true. rewrite !zlen_app, !zlen_cons, zlen_app, Hb.
  rewrite (proj2 (Z.leb_gt _ _)), !(proj2 (Z.ltb_ge _ _)) by lia.
  assert (sub (pre ++ 1 :: 18 :: body ++ post) (zlen pre + 2) (zlen pre + 2 + 16) = body) as ->.
  { replace (pre ++ 1 :: 18 :: body ++ post) with ((pre ++ [1; 18]) ++ body ++ post) by (by rewrite <- app_assoc).
    apply sub_split; rewrite ?zlen_app, ?Hb; change (zlen [1; 18]) with 2; lia. }
  pose proof (Z.mod_pos_bound (va_rawsize p) (2 ^ 32) ltac:(lia)).
  assert (i32_at body 0 = va_rawsize p) as ->.
  { unfold i32_at. assert (u32_at body 0 = va_rawsize p mod 2 ^ 32) as -> by (apply (word_at []); [done|lia]).
    by apply (Numeric.signed_mod 32). }
  assert (u32_at body 4 = va_extinfo p) as -> by (apply (word_at (le_enc 4 _)); [done|lia]).
  assert (u32_at body 8 = va_valueid p) as -> by (apply (word_at (le_enc 4 _ ++ le_enc 4 _)); [done|lia]).
  assert (u32_at body 12 = va_toastrelid p) as ->.
  { unfold body. rewrite <- (app_nil_r (le_enc 4 (va_toastrelid p))), !app_assoc, <- (app_assoc _ (le_enc 4 (va_toastrelid p))).
    apply word_at; [done|lia]. }
  by destruct p.
Qed.

Lemma until_nul_spec b post : Forall (fun c => c <> 0) b -> until_nul (b ++ 0 :: post) = Some b.
Proof.
  induction 1 as [|c b Hc _ IH]; [done|]. cbn [app until_nul]. destruct (Z.eqb_spec c 0); [done|]. by rewrite IH.
Qed.

Lemma cstr_field pre b post : Forall (fun c => c <> 0) b ->
  decode_cstring (pre ++ field_bytes (FCStr b) ++ post) (zlen pre) =
  Ok (if Text.valid_utf8 b then TextVal b else Bytea b, zlen (field_bytes (FCStr b))).
Proof.
  intros Hb. unfold decode_cstring. cbn [field_bytes]. rewrite zdrop_app_exact by done. rewrite <- app_assoc. cbn [app].
  rewrite until_nul_spec by done. do 2 f_equal. zlen.
Qed.

(** ** Any stored field decodes to its value and its length. *)
Lemma fixed_len_ok att pre b post : 0 < type_len att < 2 ^ 15 -> zlen b = type_len att ->
  fixed_len att (pre ++ b ++ post) (zlen pre) = Ok (zlen b).
Proof.
  intros Ht Hb. unfold fixed_len. rewrite wrap_small by (unfold fits; lia). pose proof (zlen_nonneg post).
  rewrite !zlen_app, (proj2 (Z.ltb_ge _ _)) by lia. by rewrite Hb.
Qed.

Lemma decode_field att f pre post : field_ok att f -> is_null f = false ->
  decode_one_value att (pre ++ field_bytes f ++ post) (zlen pre) = Ok (field_value att f, zlen (field_bytes f)).
Proof.
  intros Hok Hn. unfold decode_one_value, consume_dropped, field_value. rewrite Hn. cbn [orb].
  destruct f as [|b|b|b|m r b|p|b]; [done|..]; cbn [field_ok] in Hok.
  - destruct Hok as [Ht Hb]. destruct (Z.eqb_spec (type_len att) (-1)); [lia|]. destruct (Z.eqb_spec (type_len att) (-2)); [lia|].
    cbn [field_bytes]. rewrite fixed_len_ok by done. rewrite sub_split by lia. by destruct (dropped att).
  - destruct Hok as [-> Hb]. change (-1 =? -1) with true. rewrite short_field by done. by destruct (dropped att).
  - destruct Hok as [-> Hb]. change (-1 =? -1) with true. rewrite long_field by done. by destruct (dropped att).
  - destruct Hok as (-> & Hb & Hm & Hr). change (-1 =? -1) with true. rewrite packed_field by done. by destruct (dropped att).
  - destruct Hok as [-> Hp]. change (-1 =? -1) with true. rewrite toast_field by done. by destruct (dropped att).
  - destruct Hok as [-> Hb]. change (-2 =? -1) with false. change (-2 =? -2) with true. rewrite cstr_field by done. by destruct (dropped att).
Qed.

Lemma field_bytes_pos att f : field_ok att f -> is_null f = false -> 0 < zlen (field_bytes f).
Proof.
  intros Hok Hn. destruct f as [|b|b|b|m r b|p|b]; [done|..]; cbn [field_ok field_bytes] in *; zlen.
Qed.

(** ** Alignment *)
Lemma align_up_ge n k : 0 <= k -> n <= align_up n (2 ^ k).
Proof.
  intros Hk. rewrite align_up_pow2 by done. pose proof (Z.pow_pos_nonneg 2 k ltac:(lia) Hk).
  pose proof (Z.div_mod (n + 2 ^ k - 1) (2 ^ k) ltac:(lia)). pose proof (Z.mod_pos_bound (n + 2 ^ k - 1) (2 ^ k) ltac:(lia)). lia.
Qed.

Lemma align_for_ge cur c : cur <= align_for cur c.
Proof.
  unfold align_for. pose proof (align_up_ge cur 1 ltac:(lia)). pose proof (align_up_ge cur 2 ltac:(lia)).
  pose proof (align_up_ge cur 3 ltac:(lia)). repeat case_match; assumption || lia.
Qed.

Lemma start_ge cur att f : cur <= start cur att f.
Proof. pose proof (align_for_ge cur (type_align att)). destruct f; cbn [start]; lia. Qed.

Lemma nominal_start att f cur off pre post : field_ok att f -> is_null f = false -> type_len att = -1 -> zlen pre = off + cur ->
  att_align_nominal cur (type_align att) (type_len att)
    (pre ++ zrep (start cur att f - cur) 0 ++ field_bytes f ++ post) (off + cur) = start cur att f.
Proof.
  intros Hok Hn Ht Hp. unfold att_align_nominal. rewrite Ht, <- Hp. change (-1 =? -1) with true.
  pose proof (field_bytes_pos _ _ Hok Hn). pose proof (start_ge cur att f). pose proof (zlen_nonneg post).
  rewrite (proj2 (Z.ltb_lt _ _)) by (rewrite !zlen_app, zlen_zrep; lia). cbn [andb].
  destruct (decide (start cur att f = cur)) as [E|E].
  - rewrite E, Z.sub_diag. change (zrep 0 0) with (@nil Z). cbn [app].
    destruct f as [|b|b|b|m r b|p|b]; [done|..]; cbn [start] in E |- *; try (rewrite E; by destruct (negb _)).
    + cbn [field_bytes app]. rewrite first_byte. pose proof (zlen_nonneg b). by rewrite (proj2 (Z.eqb_neq _ _)) by lia.
    + cbn [field_bytes app]. by rewrite first_byte.
  - assert (byte_at (pre ++ zrep (start cur att f - cur) 0 ++ field_bytes f ++ post) (zlen pre) = 0) as ->.
    { unfold zrep. replace (Z.to_nat (start cur att f - cur)) with (S (Z.to_nat (start cur att f - cur - 1))) by lia.
      cbn [replicate app]. apply first_byte. }
    cbn. by destruct f.
Qed.

(** ** The walk *)
Lemma walk_missing fr rest : forall idx cur acc, natts fr <= idx ->
  walk_columns fr rest idx cur acc = Ok (MkTuple (acc ++ map (fun a => Some (missing_value_for a)) rest) false).
Proof.
  induction rest as [|att rest IH]; intros idx cur acc Hi; cbn [walk_columns map]; [by rewrite app_nil_r|].
  rewrite (proj2 (Z.leb_le _ _)) by done. rewrite IH by lia. by rewrite <- app_assoc.
Qed.

(** One present column. *)
Lemma walk_step fr att f rest idx cur acc pre post :
  prefixlen fr = 0 -> logical_end fr = zlen (buf fr) - col_data_off fr ->
  buf fr = pre ++ zrep (start cur att f - cur) 0 ++ field_bytes f ++ post -> zlen pre = col_data_off fr + cur -> 0 <= cur ->
  idx < natts fr -> field_ok att f -> is_null f = false ->
  has_null fr && negb (bitmap_is_set (bitmap fr) idx) = false ->
  walk_columns fr (att :: rest) idx cur acc =
  walk_columns fr rest (idx + 1) (start cur att f + zlen (field_bytes f)) (acc ++ [Some (field_value att f)]).
Proof.
  intros Hpl Hle Hb Hp Hc Hi Hok Hn Hbit. cbn [walk_columns]. rewrite (proj2 (Z.leb_gt _ _)) by lia. rewrite Hbit, Hpl.
  pose proof (start_ge cur att f) as Hst. pose proof (field_bytes_pos _ _ Hok Hn) as Hlen. pose proof (zlen_nonneg post).
  assert (zlen (buf fr) = zlen pre + (start cur att f - cur) + zlen (field_bytes f) + zlen post) as Hbl
    by (rewrite Hb, !zlen_app, zlen_zrep; lia).
  rewrite Z.sub_0_r, (proj2 (Z.leb_le 0 cur)), (proj2 (Z.ltb_lt (col_data_off fr + cur) _)) by lia. rewrite !andb_true_r.
  assert ((if type_len att =? -1 then att_align_nominal cur (type_align att) (type_len att) (buf fr) (col_data_off fr + cur)
    else align_for cur (type_align att)) = start cur att f) as ->.
  { destruct (Z.eqb_spec (type_len att) (-1)) as [Et|Et]; [rewrite Hb; by apply nominal_start|].
    destruct f; cbn [field_ok start] in *; [done|done|tauto|tauto|done|tauto|done]. }
  rewrite Z.sub_0_r, (proj2 (Z.ltb_ge _ 0)), (proj2 (Z.leb_gt (logical_end fr) _)) by lia.
  set (pre' := pre ++ zrep (start cur att f - cur) 0).
  assert (zlen pre' = col_data_off fr + start cur att f) as Hp' by (unfold pre'; rewrite zlen_app, zlen_zrep; lia).
  assert (buf fr = pre' ++ field_bytes f ++ post) as -> by (rewrite Hb; unfold pre'; by rewrite <- app_assoc).
  rewrite <- Hp'. rewrite (decode_field att f) by done.
  destruct ((0 <? type_len att) && negb (dropped att)) eqn:Efast; [|done].
  apply andb_true_iff in Efast as [Ef1 Ef2]. apply Z.ltb_lt in Ef1. apply negb_true_iff in Ef2.
  destruct f as [|b|b|b|m r b|p|b]; cbn [field_ok] in Hok; try lia; [done|]. destruct Hok as [Ht Hbb]. cbn [field_bytes] in *.
  rewrite TextArray.get_range_mid by lia. unfold field_value. rewrite Ef2. cbn [is_null orb]. by rewrite Hbb.
Qed.

Lemma walk_fields fr rest l : forall idx cur acc pre,
  prefixlen fr = 0 -> logical_end fr = zlen (buf fr) - col_data_off fr ->
  buf fr = pre ++ lay l cur -> zlen pre = col_data_off fr + cur -> 0 <= cur -> 0 <= idx ->
  natts fr = idx + zlen l -> Forall (fun af => field_ok af.1 af.2) l ->
  (forall i af, l !! i = Some af -> has_null fr && negb (bitmap_is_set (bitmap fr) (idx + Z.of_nat i)) = is_null af.2) ->
  walk_columns fr (map fst l ++ rest) idx cur acc =
  Ok (MkTuple (acc ++ map (fun af => Some (field_value af.1 af.2)) l ++ map (fun a => Some (missing_value_for a)) rest) false).
Proof.
  induction l as [|[att f] l IH]; intros idx cur acc pre Hpl Hle Hb Hp Hc Hi Hn Hok Hnull.
  - rewrite zlen_nil in Hn. cbn [map app]. by apply walk_missing; lia.
  - rewrite zlen_cons in Hn. pose proof (zlen_nonneg l). apply Forall_cons_1 in Hok as [Hf Hl]. cbn [fst snd] in Hf.
    assert (forall i af, l !! i = Some af -> has_null fr && negb (bitmap_is_set (bitmap fr) (idx + 1 + Z.of_nat i)) = is_null af.2) as Hnull'.
    { intros i af Hia. rewrite <- (Hnull (S i) af Hia). do 3 f_equal. lia. }
    specialize (Hnull O (att, f) eq_refl). rewrite Z.add_0_r in Hnull. cbn [snd] in Hnull.
    cbn [map app fst snd]. cbn [lay] in Hb. destruct (is_null f) eqn:En.
    + cbn [walk_columns]. rewrite (proj2 (Z.leb_gt _ _)) by lia. rewrite Hnull. rewrite (IH _ _ _ pre) by (done || lia). rewrite <- app_assoc. by destruct f.
    + pose proof (start_ge cur att f) as Hst. pose proof (zlen_nonneg (field_bytes f)).
      rewrite (walk_step fr att f _ idx cur acc pre (lay l (start cur att f + zlen (field_bytes f)))) by (done || lia).
      rewrite (IH _ _ _ (pre ++ zrep (start cur att f - cur) 0 ++ field_bytes f)).
      * by rewrite <- app_assoc.
      * done.
      * done.
      * by rewrite Hb, <- !app_assoc.
      * rewrite !zlen_app, zlen_zrep. lia.
      * lia.
      * lia.
      * lia.
      * done.
      * done.
Qed.

(** ** The null bitmap *)
Lemma bits_val_testbit l : forall j, Z.testbit (bits_val l) (Z.of_nat j) = nth j l false.
Proof.
  induction l as [|b l IH]; intros j; cbn [bits_val]; [rewrite Z.testbit_0_l; by destruct j|].
  destruct j as [|j]; cbn [nth]; [apply Z.add_b2z_double_bit0|].
  rewrite Nat2Z.inj_succ, Z.add_comm, Z.testbit_succ_r by lia. apply IH.
Qed.

Lemma bit_test x k : 0 <= k -> Z.land (Z.shiftr x k) 1 =? 1 = Z.testbit x k.
Proof.
  intros Hk. change 1 with (Z.ones 1) at 1. rewrite Z.land_ones, Z.shiftr_div_pow2 by lia. change (2 ^ 1) with 2.
  rewrite <- Z.testbit_spec' by lia. by destruct (Z.testbit x k).
Qed.

Lemma land_7 i : Z.land i 7 = i mod 8.
Proof. change 7 with (Z.ones 3). by rewrite Z.land_ones. Qed.

Lemma bitmap_of_spec n : forall l i, 0 <= i < 8 * Z.of_nat n -> bitmap_is_set (bitmap_of n l) i = nth (Z.to_nat i) l false.
Proof.
  induction n as [|n IH]; intros l i Hi; [lia|]. unfold bitmap_is_set. cbn [bitmap_of]. rewrite land_7.
  destruct (Z_lt_le_dec i 8) as [Hl|Hl].
  - rewrite Z.div_small, Z.mod_small by lia. replace (zget (bits_val (take 8 l) :: bitmap_of n (drop 8 l)) 0) with (Some (bits_val (take 8 l))) by done.
    rewrite bit_test by lia. rewrite <- (Z2Nat.id i) at 1 by lia. rewrite bits_val_testbit.
    rewrite !nth_lookup. by rewrite lookup_take_lt by lia.
  - specialize (IH (drop 8 l) (i - 8) ltac:(lia)). unfold bitmap_is_set in IH. rewrite land_7 in IH.
    replace ((i - 8) mod 8) with (i mod 8) in IH by (Z.to_euclidean_division_equations; lia).
    replace (zget (bits_val (take 8 l) :: bitmap_of n (drop 8 l)) (i / 8)) with (zget (bitmap_of n (drop 8 l)) ((i - 8) / 8)).
    + rewrite IH, !nth_lookup, lookup_drop. do 2 f_equal. lia.
    + assert (i / 8 = 1 + (i - 8) / 8) as -> by (Z.to_euclidean_division_equations; lia).
      assert (0 <= (i - 8) / 8) by (apply Z.div_pos; lia). unfold zget. rewrite !(proj2 (Z.leb_le 0 _)) by lia.
      by replace (Z.to_nat (1 + (i - 8) / 8)) with (S (Z.to_nat ((i - 8) / 8))) by lia.
Qed.

Lemma bitmap_of_len n l : zlen (bitmap_of n l) = Z.of_nat n.
Proof. revert l. induction n as [|n IH]; intros l; cbn [bitmap_of]; [reflexivity|]. rewrite zlen_cons, IH. lia. Qed.

Lemma null_bitmap_bits l i af : l !! i = Some af ->
  any_null l && negb (bitmap_is_set (null_bitmap l) (Z.of_nat i)) = is_null af.2.
Proof.
  intros Hi. unfold null_bitmap. pose proof (lookup_lt_Some _ _ _ Hi) as Hlt. destruct (any_null l) eqn:E.
  - rewrite bitmap_of_spec.
    + rewrite Nat2Z.id, nth_lookup. unfold present. rewrite list_lookup_fmap, Hi. cbn. by destruct (is_null af.2).
    + unfold zlen. Z.to_euclidean_division_equations. lia.
  - unfold any_null in E. destruct (is_null af.2) eqn:En; [|done]. exfalso.
    assert (existsb (fun af => is_null af.2) l = true) as E'; [|congruence].
    apply existsb_exists. exists af. split; [by apply list_elem_of_In, (list_elem_of_lookup_2 _ i)|done].
Qed.

Definition row (l : list (RelAttr * field)) (rest : list RelAttr) : DecodedTuple :=
  MkTuple (map (fun af => Some (field_value af.1 af.2)) l ++ map (fun a => Some (missing_value_for a)) rest) false.

Definition payload_ok (hi2 hi pad : Z) (l : list (RelAttr * field)) : Prop :=
  0 <= hi2 < 32 /\ 0 <= hi < 2 ^ 15 /\ 0 <= pad /\ 23 + zlen (null_bitmap l) + pad <= 255 /\ zlen l < 2048 /\
  Forall (fun af => field_ok af.1 af.2) l.

Lemma u16_here pre z rest i : i = zlen pre -> 0 <= z < 2 ^ 16 -> u16_at (pre ++ le_enc 2 z ++ rest) i = z.
Proof. intros -> Hz. unfold u16_at. rewrite sub_split by zlen. by apply le_dec_enc_small. Qed.

Lemma decode_payload pre rel hi2 hi pad l rest : payload_ok hi2 hi pad l -> attributes rel = map fst l ++ rest ->
  decode_tuple_payload (pre ++ tuple_payload hi2 hi pad l) (zlen pre) rel 0 0 = Ok (row l rest).
Proof.
  intros (H2 & Hh & Hpad & Hoff & Hn & Hok) Hattrs. pose proof (zlen_nonneg l). pose proof (zlen_nonneg (lay l 0)).
  unfold decode_tuple_payload, tuple_payload.
  set (im2 := hi2 * 2048 + zlen l). set (im := 2 * hi + Z.b2z (any_null l)).
  assert (0 <= im < 2 ^ 16) as Him by (unfold im; destruct (any_null l); cbn [Z.b2z]; lia).
  set (bm := null_bitmap l) in *. set (hoff := 23 + zlen bm + pad) in *. pose proof (zlen_nonneg bm).
  set (body := bm ++ zrep pad 0 ++ lay l 0).
  assert (zlen body = zlen bm + pad + zlen (lay l 0)) as Hbl by (unfold body; rewrite !zlen_app, zlen_zrep; lia).
  assert (zlen (pre ++ le_enc 2 im2 ++ le_enc 2 im ++ [hoff] ++ body) = zlen pre + 5 + zlen body) as Hlen.
  { rewrite !zlen_app, !zlen_le_enc. change (zlen [hoff]) with 1. lia. }
  rewrite Hlen, (proj2 (Z.ltb_ge _ _)) by (unfold SIZE_OF_HEAP_HEADER; lia).
  rewrite (u16_here pre im2 _ (zlen pre)) by (unfold im2; lia).
  rewrite (app_assoc pre), (u16_here (pre ++ le_enc 2 im2) im _ (zlen pre + 2)) by zlen.
  rewrite (app_assoc (pre ++ _)). set (p4 := (pre ++ le_enc 2 im2) ++ le_enc 2 im).
  assert (zlen p4 = zlen pre + 4) as Hp4 by (unfold p4; zlen). cbn [app]. rewrite <- Hp4, first_byte.
  rewrite (proj2 (Z.ltb_ge hoff _)) by (unfold hoff, SIZE_OF_HEAP_TUPLE_HEADER; lia).
  assert (Z.land im2 HEAP_NATTS_MASK = zlen l) as -> by (apply (land_low 11); lia).
  assert (negb (Z.land im HEAP_HASNULL =? 0) = any_null l) as ->.
  { unfold im. replace (2 * hi + Z.b2z (any_null l)) with (hi * 2 ^ 1 + Z.b2z (any_null l)) by lia.
    change HEAP_HASNULL with (Z.ones 1). rewrite land_low by (destruct (any_null l); cbn [Z.b2z]; lia). by destruct (any_null l). }
  assert ((if any_null l then (zlen l + 7) / 8 else 0) = zlen bm) as ->.
  { unfold bm, null_bitmap. destruct (any_null l); [|done]. rewrite bitmap_of_len. pose proof (Z.div_pos (zlen l + 7) 8). lia. }
  rewrite (proj2 (Z.ltb_ge _ _)) by (unfold SIZE_OF_HEAP_HEADER; lia).
  replace (p4 ++ hoff :: body) with ((p4 ++ [hoff]) ++ body) by (by rewrite <- app_assoc).
  assert (zlen (p4 ++ [hoff]) = zlen pre + 5) as Hp5 by (rewrite zlen_app; change (zlen [hoff]) with 1; lia).
  set (p5 := p4 ++ [hoff]) in *. unfold SIZE_OF_HEAP_HEADER, SIZE_OF_HEAP_TUPLE_HEADER.
  rewrite (sub_split p5 bm (zrep pad 0 ++ lay l 0)) by lia.
  rewrite Hattrs. unfold row.
  rewrite (walk_fields _ rest l 0 0 [] (p5 ++ bm ++ zrep pad 0)); cbn [buf natts has_null bitmap col_data_off HeapDecode.prefixlen logical_end]; try done.
  - unfold sat_sub. rewrite zlen_app. lia.
  - unfold body. by rewrite <- !app_assoc.
  - rewrite !zlen_app, zlen_zrep. unfold hoff. lia.
  - intros i af Hi. rewrite Z.add_0_l. by apply null_bitmap_bits.
Qed.

(** ** Records *)
Record Tup := MkTup { hi2 : Z; hi : Z; tpad : Z; fields : list (RelAttr * field); trest : list RelAttr }.

Definition payload (t : Tup) : list Z := tuple_payload (hi2 t) (hi t) (tpad t) (fields t).

Definition tup_ok (rel : RelDescriptor) (t : Tup) : Prop :=
  payload_ok (hi2 t) (hi t) (tpad t) (fields t) /\ attributes rel = map fst (fields t) ++ trest t.

Definition tuple_of (t : Tup) : DecodedTuple := row (fields t) (trest t).

Lemma payload_at rel t pre : tup_ok rel t -> decode_tuple_payload (pre ++ payload t) (zlen pre) rel 0 0 = Ok (tuple_of t).
Proof. intros [Hp Ha]. by apply decode_payload. Qed.

Lemma payload_len t : 0 <= tpad t -> 5 <= zlen (payload t).
Proof.
  intros Hp. unfold payload, tuple_payload. rewrite !zlen_app, !zlen_le_enc. pose proof (zlen_nonneg (null_bitmap (fields t))).
  pose proof (zlen_nonneg (lay (fields t) 0)). rewrite zlen_zrep. change (zlen [?x]) with 1. lia.
Qed.

(** The tuples of a multi-insert: each aligned to two, its data length first. *)
Fixpoint multi_lay (ts : list Tup) (cur : Z) : list Z :=
  match ts with
  | [] => []
  | t :: ts =>
      let at_ := align_up cur 2 in
      zrep (at_ - cur) 0 ++ le_enc 2 (zlen (payload t) - 5) ++ payload t ++ multi_lay ts (at_ + 2 + zlen (payload t))
  end.

Lemma multi_step rel t n pre post cur lsn rf x out : tup_ok rel t -> zlen (payload t) - 5 < 2 ^ 16 -> zlen pre = align_up cur 2 ->
  let d := pre ++ le_enc 2 (zlen (payload t) - 5) ++ payload t ++ post in
  multi_loop (S n) d cur lsn rf x rel out =
  multi_loop n d (align_up cur 2 + 2 + zlen (payload t)) lsn rf x rel (out ++ [MkHeap rf x lsn Insert (Some (tuple_of t)) None]).
Proof.
  intros Hok Hlen Hpre d. pose proof Hok as [(H2 & Hh & Hpad & Hoff & Hn & _) _]. cbn [multi_loop].
  pose proof (payload_len t Hpad) as H5. pose proof (zlen_nonneg post). pose proof (zlen_nonneg (fields t)).
  pose proof (payload_at rel t [] Hok) as Hdec. cbn [app] in Hdec. change (zlen []) with 0 in Hdec.
  assert (zlen d = align_up cur 2 + 2 + zlen (payload t) + zlen post) as Hd by (unfold d; rewrite !zlen_app, zlen_le_enc, Hpre; lia).
  rewrite Hd, <- Hpre, (proj2 (Z.ltb_ge _ _)) by (unfold SIZE_OF_MULTI_INSERT_TUPLE; lia).
  assert (u16_at d (zlen pre) = zlen (payload t) - 5) as -> by (apply u16_here; lia).
  unfold payload, tuple_payload in *.
  set (im2 := hi2 t * 2048 + zlen (fields t)) in *. set (im := 2 * hi t + Z.b2z (any_null (fields t))) in *.
  assert (0 <= im < 2 ^ 16) as Him by (unfold im; destruct (any_null (fields t)); cbn [Z.b2z]; lia).
  set (hoff := 23 + _ + _) in *. set (body := null_bitmap _ ++ _) in *.
  set (pl := le_enc 2 im2 ++ le_enc 2 im ++ [hoff] ++ body) in *. set (n0 := zlen pl - 5) in *.
  assert (zlen body = n0) as Hb by (unfold n0, pl; rewrite !zlen_app, !zlen_le_enc; change (zlen [hoff]) with 1; lia).
  set (p2 := pre ++ le_enc 2 n0). assert (zlen p2 = zlen pre + 2) as Hp2 by (unfold p2; zlen).
  assert (d = p2 ++ le_enc 2 im2 ++ le_enc 2 im ++ hoff :: body ++ post) as Ed by (unfold d, p2, pl; by rewrite <- !app_assoc).
  assert (u16_at d (zlen pre + 2) = im2) as -> by (rewrite Ed; apply u16_here; unfold im2; lia).
  assert (u16_at d (zlen pre + 4) = im) as -> by (rewrite Ed, app_assoc; apply u16_here; zlen).
  assert (byte_at d (zlen pre + 6) = hoff) as ->.
  { rewrite Ed, !app_assoc. replace (zlen pre + 6) with (zlen ((p2 ++ le_enc 2 im2) ++ le_enc 2 im)) by zlen. apply first_byte. }
  assert (sub d (zlen pre + 7) (zlen pre + 7 + n0) = body) as Es.
  { rewrite Ed. replace (p2 ++ le_enc 2 im2 ++ le_enc 2 im ++ hoff :: body ++ post)
      with ((p2 ++ le_enc 2 im2 ++ le_enc 2 im ++ [hoff]) ++ body ++ post) by (by rewrite <- !app_assoc).
    apply sub_split; rewrite ?zlen_app, ?zlen_le_enc; change (zlen [hoff]) with 1; lia. }
  unfold SIZE_OF_MULTI_INSERT_TUPLE. rewrite (proj2 (Z.ltb_ge _ _)) by lia. rewrite Es. fold pl. rewrite Hdec.
  f_equal. unfold n0. lia.
Qed.

Lemma multi_roundtrip rel ts : forall pre cur lsn rf x out,
  Forall (tup_ok rel) ts -> Forall (fun t => zlen (payload t) - 5 < 2 ^ 16) ts -> zlen pre = cur ->
  multi_loop (length ts) (pre ++ multi_lay ts cur) cur lsn rf x rel out =
  Ok (out ++ map (fun t => MkHeap rf x lsn Insert (Some (tuple_of t)) None) ts).
Proof.
  induction ts as [|t ts IH]; intros pre cur lsn rf x out Hok Hl Hp; [cbn; by rewrite app_nil_r|].
  apply Forall_cons_1 in Hok as [Ht Hts], Hl as [Hl1 Hl2]. cbn [length multi_lay map].
  pose proof (align_up_ge cur 1 ltac:(lia)) as Hge. change (2 ^ 1) with 2 in Hge.
  set (p1 := pre ++ zrep (align_up cur 2 - cur) 0).
  assert (zlen p1 = align_up cur 2) as Hp1 by (unfold p1; rewrite zlen_app, zlen_zrep; lia).
  rewrite app_assoc. fold p1. rewrite (multi_step rel t) by done.
  replace (p1 ++ le_enc 2 (zlen (payload t) - 5) ++ payload t ++ multi_lay ts (align_up cur 2 + 2 + zlen (payload t)))
    with ((p1 ++ le_enc 2 (zlen (payload t) - 5) ++ payload t) ++ multi_lay ts (align_up cur 2 + 2 + zlen (payload t)))
    by (by rewrite <- !app_assoc).
  rewrite IH; [by rewrite <- app_assoc|done|done|]. rewrite !zlen_app, zlen_le_enc. lia.
Qed.

Lemma old_image rel o md hd off : tup_ok rel o -> md = hd ++ payload o -> zlen hd = off ->
  decode_old_tuple_from_main_data md off rel = Ok (Some (tuple_of o)).
Proof.
  intros Ho -> <-. assert (5 <= zlen (payload o)) by (apply payload_len; apply Ho).
  unfold decode_old_tuple_from_main_data, SIZE_OF_HEAP_HEADER. rewrite zlen_app, (proj2 (Z.ltb_ge _ _)) by lia.
  by rewrite (payload_at rel o hd Ho).
Qed.

Lemma update_image rel t o r b bs hd lsn rf x hot : tup_ok rel t -> tup_ok rel o -> blocks r = b :: bs ->
  main_data r = hd ++ payload o -> zlen hd = 14 -> data b = payload t ->
  Z.land (byte_at (main_data r) 7) 32 = 0 -> Z.land (byte_at (main_data r) 7) 64 = 0 ->
  Z.land (byte_at (main_data r) 7) 4 <> 0 \/ Z.land (byte_at (main_data r) 7) 8 <> 0 ->
  decode_update r lsn rf x rel hot = Ok (MkHeap rf x lsn (if hot then HotUpdate else Update) (Some (tuple_of t)) (Some (tuple_of o))).
Proof.
  intros Ht Ho Hb Hm Hh Hd Hp Hs Hf. unfold decode_update. rewrite (old_image rel o (main_data r) hd SIZE_OF_HEAP_UPDATE Ho Hm Hh).
  unfold XLH_UPDATE_PREFIX_FROM_OLD, XLH_UPDATE_SUFFIX_FROM_OLD, XLH_UPDATE_CONTAINS_OLD_TUPLE, XLH_UPDATE_CONTAINS_OLD_KEY.
  rewrite Hp, Hs, Hb, Hd. change (negb (0 =? 0)) with false. cbv beta iota. cbn [orb].
  pose proof (payload_at rel t [] Ht) as Hdt. cbn [app] in Hdt. change (zlen []) with 0 in Hdt. rewrite Hdt.
  pose proof (zlen_nonneg (payload o)). rewrite Hm at 1. rewrite zlen_app, Hh, (proj2 (Z.ltb_ge _ _)) by (unfold SIZE_OF_HEAP_UPDATE; lia).
  destruct Hf as [Hf|Hf]; rewrite (proj2 (Z.eqb_neq _ _) Hf); cbn [negb orb]; by rewrite ?orb_true_r.
Qed.


End Roundtrip.
(** ** A table of [int4], [text] and a later [int2 default 7] *)
#[local] Instance no_codecs : Decompress := MkDecompress (fun _ _ => None) (fun _ _ => None).
#[local] Instance no_floats : FloatText := MkFloatText (fun _ => None) (fun _ => None).

Definition att_id : RelAttr := MkAttr 1 [105; 100] INT4OID (-1) true false [] true 4 105 112 None.
Definition att_note : RelAttr := MkAttr 2 [110] TEXTOID (-1) false false [] false (-1) 105 120 None.
Definition att_extra : RelAttr := MkAttr 3 [120] INT2OID (-1) false false [] true 2 115 112 (Some (TextDefault [55])).

Definition toy_rel : RelDescriptor :=
  MkDesc (MkRfn 1663 5 16400) 16400 0 2200 ([], []) 114 112 (Full None) [att_id; att_note; att_extra] [].

Definition toy_new : Tup := MkTup 0 0 1 [(att_id, FFixed [1; 0; 0; 0]); (att_note, FShort [104; 105])] [att_extra].
Definition toy_old : Tup := MkTup 0 0 0 [(att_id, FFixed [1; 0; 0; 0]); (att_note, FNull)] [att_extra].

Definition toy_block : Block := MkBlock (drfn toy_rel) 0 false (MkImage 0 0 0) [] (payload toy_new).
Definition toy_main : list Z := [0; 0; 0; 0; 0; 0; 0; 4; 0; 0; 0; 0; 0; 0].

Definition toy_update : XLogRecord :=
  MkRecord RM_HEAP XLOG_HEAP_UPDATE 700 0 0 [toy_block] (toy_main ++ payload toy_old).

Lemma toy_flags : Z.land (byte_at (main_data toy_update) 7) 4 <> 0.
Proof. vm_compute. discriminate. Qed.

Lemma toy_ok t : t = toy_new \/ t = toy_old -> tup_ok toy_rel t.
Proof.
  intros [-> | ->]; (split; [|reflexivity]); unfold payload_ok.
  all: cbn [hi2 hi tpad fields toy_new toy_old]; repeat (split; [lia || (vm_compute; (reflexivity || discriminate))|]).
  - constructor; [split; [cbn; lia|reflexivity]|]. constructor; [|constructor]. split; [reflexivity|vm_compute; discriminate].
  - constructor; [split; [cbn; lia|reflexivity]|]. constructor; [exact I|constructor].
Qed.


(** ** A short varlena inside an update's shared prefix

    The row is [true] and a text of five characters under a one-byte header,
    so the text starts at offset 1.  With the first three bytes shared with
    the old row, the walk aligns the text to offset 4, past the prefix, and
    reads a value from its middle. *)
Definition att_flag : RelAttr := MkAttr 1 [102] BOOLOID (-1) true false [] true 1 99 112 None.

Definition prefix_row : list (RelAttr * field) := [(att_flag, FFixed [1]); (att_note, FShort [97; 98; 5; 122; 113])].

Definition prefix_rel : RelDescriptor := MkDesc (MkRfn 1663 5 16401) 16401 0 2200 ([], []) 114 112 (Full None) [att_flag; att_note] [].

Example prefix_misreads_varlena :
  decode_tuple_payload (le_enc 2 2 ++ le_enc 2 0 ++ [24; 0] ++ zdrop 3 (lay prefix_row 0)) 0 prefix_rel 3 0 =
    Ok (MkTuple [None; Some (TextVal [122])] false) /\
  field_value att_note (FShort [97; 98; 5; 122; 113]) = TextVal [97; 98; 5; 122; 113].
Proof. split; vm_compute; reflexivity. Qed.

End HeapLayout.
