(* ===== verification/Wire.v ===== *)
(** * The length-prefixed binary codec

    The cursor and the integer, byte and string codecs that the spill files
    ([src/xact/spill.rs]) and the descriptor log ([src/catalog/desc_log.rs])
    share, and [reads]: a parser reads a value back from its encoding, wherever
    in a buffer the encoding stands. *)
From S2P Require Import Prelude Text Numeric.

Module Wire.

(** Every error of either reader carries the cursor's position. *)
Inductive WireError :=
| ShortRead (offset need have : Z)
| BadUtf8 (offset : Z)
| UnknownTag (offset tag : Z)
| Malformed (offset : Z).

Record Cursor := MkCur { cbuf : list Z; cpos : Z }.

Definition P (A : Type) : Type := Cursor -> result WireError (A * Cursor).

Definition ret {A} (x : A) : P A := fun c => Ok (x, c).
Definition bind {A B} (p : P A) (k : A -> P B) : P B := fun c => let? xc := p c in k xc.1 xc.2.
Definition fail {A} (e : Z -> WireError) : P A := fun c => Err (e (cpos c)).

Declare Scope wire_scope.
Delimit Scope wire_scope with wire.
Notation "'let!' x := p 'in' k" := (bind p (fun x => k)) (at level 200, x pattern, p at level 100, k at level 200) : wire_scope.
Open Scope wire_scope.

Definition need (n : Z) : P (list Z) := fun c =>
  if zlen (cbuf c) <? cpos c + n then Err (ShortRead (cpos c) n (zlen (cbuf c) - cpos c))
  else Ok (sub (cbuf c) (cpos c) (cpos c + n), MkCur (cbuf c) (cpos c + n)).

Definition uint (n : nat) : P Z := let! b := need (Z.of_nat n) in ret (le_dec b).
Definition int (n : nat) : P Z := let! b := need (Z.of_nat n) in ret (signed (8 * Z.of_nat n) (le_dec b)).
Definition u8 : P Z := uint 1.
Definition u16 : P Z := uint 2.
Definition u32 : P Z := uint 4.
Definition u64 : P Z := uint 8.
Definition i16 : P Z := int 2.
Definition i32 : P Z := int 4.
Definition i64 : P Z := int 8.
Definition boolish : P bool := let! b := u8 in ret (negb (b =? 0)).
Definition bytes : P (list Z) := let! n := u32 in need n.
Definition string : P (list Z) := let! bs := bytes in if Text.valid_utf8 bs then ret bs else fail BadUtf8.

(** [for _ in 0..n]. *)
Fixpoint times {A} (n : nat) (p : P A) : P (list A) :=
  match n with
  | O => ret []
  | S n => let! x := p in let! rest := times n p in ret (x :: rest)
  end.

Definition counted {A} (p : P A) : P (list A) := let! n := u32 in times (Z.to_nat n) p.

(** [as u8] and friends truncate; [le_enc] does. *)
Definition push_u8 (v : Z) : list Z := le_enc 1 v.
Definition push_u16 (v : Z) : list Z := le_enc 2 v.
Definition push_u32 (v : Z) : list Z := le_enc 4 v.
Definition push_u64 (v : Z) : list Z := le_enc 8 v.
Definition push_i16 (v : Z) : list Z := le_enc 2 v.
Definition push_i32 (v : Z) : list Z := le_enc 4 v.
Definition push_i64 (v : Z) : list Z := le_enc 8 v.
Definition push_bool (b : bool) : list Z := push_u8 (Z.b2z b).
Definition push_bytes (b : list Z) : list Z := push_u32 (zlen b) ++ b.
Definition push_counted {A} (enc : A -> list Z) (l : list A) : list Z := push_u32 (zlen l) ++ concat (map enc l).

(** ** Reading back *)
Definition reads {A} (p : P A) (x : A) (enc : list Z) : Prop :=
  forall pre post, p (MkCur (pre ++ enc ++ post) (zlen pre)) = Ok (x, MkCur (pre ++ enc ++ post) (zlen pre + zlen enc)).

Lemma reads_ret {A} (x : A) : reads (ret x) x [].
Proof. intros pre post. unfold ret. rewrite zlen_nil, Z.add_0_r. done. Qed.

Lemma reads_bind {A B} (p : P A) (k : A -> P B) x y e1 e2 : reads p x e1 -> reads (k x) y e2 -> reads (bind p k) y (e1 ++ e2).
Proof.
  intros H1 H2 pre post. unfold bind. rewrite <- app_assoc, H1. cbn [fst snd].
  specialize (H2 (pre ++ e1) post). rewrite <- app_assoc, zlen_app in H2. rewrite H2. do 3 f_equal. rewrite zlen_app. lia.
Qed.

Lemma reads_last {A B} (p : P A) (k : A -> P B) x y e : reads p x e -> reads (k x) y [] -> reads (bind p k) y e.
Proof. intros H1 H2. rewrite <- (app_nil_r e). by eapply reads_bind. Qed.

Lemma reads_need n b : n = zlen b -> reads (need n) b b.
Proof.
  intros -> pre post. unfold need. cbn [cbuf cpos]. pose proof (zlen_nonneg post).
  rewrite !zlen_app, (proj2 (Z.ltb_ge _ _)) by lia. by rewrite sub_split.
Qed.

Lemma reads_uint n v : 0 <= v < 256 ^ Z.of_nat n -> reads (uint n) v (le_enc n v).
Proof.
  intros Hv. unfold uint. eapply reads_last; [apply reads_need; by rewrite zlen_le_enc|].
  rewrite le_dec_enc_small by done. apply reads_ret.
Qed.

Lemma reads_int n v : (0 < n)%nat -> - 2 ^ (8 * Z.of_nat n - 1) <= v < 2 ^ (8 * Z.of_nat n - 1) -> reads (int n) v (le_enc n v).
Proof.
  intros Hn Hv. unfold int. eapply reads_last; [apply reads_need; by rewrite zlen_le_enc|]. cbv beta.
  rewrite le_dec_enc. change 256 with (2 ^ 8). rewrite <- Z.pow_mul_r by lia. rewrite Numeric.signed_mod by lia. apply reads_ret.
Qed.

Lemma reads_u8 v : 0 <= v < 2 ^ 8 -> reads u8 v (push_u8 v).
Proof. intros H. exact (reads_uint 1 v H). Qed.
Lemma reads_u16 v : 0 <= v < 2 ^ 16 -> reads u16 v (push_u16 v).
Proof. intros H. exact (reads_uint 2 v H). Qed.
Lemma reads_u32 v : 0 <= v < 2 ^ 32 -> reads u32 v (push_u32 v).
Proof. intros H. exact (reads_uint 4 v H). Qed.
Lemma reads_u64 v : 0 <= v < 2 ^ 64 -> reads u64 v (push_u64 v).
Proof. intros H. exact (reads_uint 8 v H). Qed.
Lemma reads_i16 v : - 2 ^ 15 <= v < 2 ^ 15 -> reads i16 v (push_i16 v).
Proof. intros H. exact (reads_int 2 v ltac:(lia) H). Qed.
Lemma reads_i32 v : - 2 ^ 31 <= v < 2 ^ 31 -> reads i32 v (push_i32 v).
Proof. intros H. exact (reads_int 4 v ltac:(lia) H). Qed.
Lemma reads_i64 v : - 2 ^ 63 <= v < 2 ^ 63 -> reads i64 v (push_i64 v).
Proof. intros H. exact (reads_int 8 v ltac:(lia) H). Qed.

Lemma reads_bool b : reads boolish b (push_bool b).
Proof. unfold boolish, push_bool. eapply reads_last; [apply reads_u8; destruct b; cbn; lia|]. destruct b; apply reads_ret. Qed.

Lemma reads_bytes b : zlen b < 2 ^ 32 -> reads bytes b (push_bytes b).
Proof.
  intros Hb. pose proof (zlen_nonneg b). unfold bytes, push_bytes. eapply reads_bind; [apply reads_u32; lia|]. by apply reads_need.
Qed.

Lemma reads_string s : zlen s < 2 ^ 32 -> Text.valid_utf8 s = true -> reads string s (push_bytes s).
Proof. intros Hs Hu. unfold string. eapply reads_last; [by apply reads_bytes|]. rewrite Hu. apply reads_ret. Qed.

Lemma reads_times {A} (p : P A) (enc : A -> list Z) l : Forall (fun x => reads p x (enc x)) l ->
  reads (times (length l) p) l (concat (map enc l)).
Proof.
  induction 1 as [|x l Hx _ IH]; cbn [length times map concat]; [apply reads_ret|].
  eapply reads_bind; [exact Hx|]. eapply reads_last; [exact IH|]. apply reads_ret.
Qed.

Lemma reads_counted {A} (p : P A) (enc : A -> list Z) l : zlen l < 2 ^ 32 -> Forall (fun x => reads p x (enc x)) l ->
  reads (counted p) l (push_counted enc l).
Proof.
  intros Hl H. pose proof (zlen_nonneg l). unfold counted, push_counted. eapply reads_bind; [apply reads_u32; lia|].
  replace (Z.to_nat (zlen l)) with (length l) by (unfold zlen; lia). by apply reads_times.
Qed.

Lemma reads_weaken {A} (p q : P A) x e : (forall c, p c = q c) -> reads p x e -> reads q x e.
Proof. intros H Hp pre post. by rewrite <- H. Qed.

(** A reader over exactly the encoding. *)
Lemma reads_whole {A} (p : P A) x e : reads p x e -> p (MkCur e 0) = Ok (x, MkCur e (zlen e)).
Proof. intros H. specialize (H [] []). cbn [app] in H. rewrite app_nil_r in H. exact H. Qed.

#[global] Arguments push_u8 _ : simpl never.
#[global] Arguments push_u16 _ : simpl never.
#[global] Arguments push_u32 _ : simpl never.
#[global] Arguments push_u64 _ : simpl never.
#[global] Arguments push_i16 _ : simpl never.
#[global] Arguments push_i32 _ : simpl never.
#[global] Arguments push_i64 _ : simpl never.
#[global] Arguments push_bool _ : simpl never.
#[global] Arguments push_bytes _ : simpl never.

End Wire.

Create HintDb wire.
#[export] Hint Resolve Wire.reads_u8 Wire.reads_u16 Wire.reads_u32 Wire.reads_u64 Wire.reads_i16 Wire.reads_i32
  Wire.reads_i64 Wire.reads_bool Wire.reads_bytes Wire.reads_string Wire.reads_counted : wire.
#[export] Hint Extern 1 (_ <= _ < _) => lia : wire.
#[export] Hint Extern 1 (_ < _) => lia : wire.

(** Read a tag byte and take its branch. *)
Ltac wtag := first [eapply Wire.reads_bind; [apply Wire.reads_u8; lia|] | eapply Wire.reads_last; [apply Wire.reads_u8; lia|]];
  cbn [Z.eqb Pos.eqb].

(** Read one field after another; the fields' bounds come from the context. *)
Ltac wire :=
  repeat first
    [ apply Wire.reads_ret
    | eapply Wire.reads_bind; [solve [eauto 4 with wire]|]
    | eapply Wire.reads_last; [solve [eauto 4 with wire]|] ].
