(* ===== verification/DescCodec.v ===== *)
(** * Descriptors and capture batches on disk ([src/catalog/desc_log.rs])

    The records of the descriptor log, their encoders and decoders, and the
    round trips.  Spill files store descriptors with the same codec. *)
From S2P Require Import Prelude Text WalRecord HeapDecode Wire.
Import WalRecord Schema Wire.

Module DescCodec.

Definition VERSION : Z := 4.
Definition MIN_VERSION : Z := 3.
Definition ANCESTRY_VERSION : Z := 4.
Definition TAG_META : Z := 0.
Definition TAG_BATCH : Z := 1.

(** ** Descriptors *)
Definition push_opt_missing (m : option MissingDefault) : list Z :=
  match m with
  | None => push_u8 0
  | Some (TextDefault s) => push_u8 1 ++ push_bytes s
  | Some (Raw b) => push_u8 2 ++ push_u32 (zlen b) ++ b
  end.

Definition encode_attnums (nums : list Z) : list Z := push_counted push_i16 nums.

Definition encode_opt_attnums (nums : option (list Z)) : list Z :=
  match nums with
  | None => push_u8 0
  | Some nums => push_u8 1 ++ encode_attnums nums
  end.

Definition encode_replident (r : ReplIdent) : list Z :=
  match r with
  | Default pk => push_u8 0 ++ encode_opt_attnums pk
  | NothingIdent => push_u8 1
  | Full pk => push_u8 2 ++ encode_opt_attnums pk
  | UsingIndex index_oid keys => push_u8 3 ++ push_u32 index_oid ++ encode_attnums keys
  end.

Definition encode_rfn (r : RelFileNode) : list Z := push_u32 (spc_node r) ++ push_u32 (db_node r) ++ push_u32 (rel_node r).

Definition encode_attr (a : RelAttr) : list Z :=
  push_i16 (attnum a) ++ push_bytes (attname a) ++ push_u32 (type_oid a) ++ push_i32 (typmod a) ++
  push_bool (not_null a) ++ push_bool (dropped a) ++ push_bytes (type_name a) ++ push_bool (type_byval a) ++
  push_i16 (type_len a) ++ push_u8 (type_align a) ++ push_u8 (type_storage a) ++ push_opt_missing (missing_default a).

Fixpoint encode_descriptor (d : RelDescriptor) : list Z :=
  encode_rfn (drfn d) ++ push_u32 (oid d) ++ push_u32 (toast_oid d) ++ push_u32 (namespace_oid d) ++
  push_bytes (rel_name d).1 ++ push_bytes (rel_name d).2 ++ push_u8 (kind d) ++ push_u8 (persistence d) ++
  encode_replident (replident d) ++ push_counted encode_attr (attributes d) ++
  push_u32 (zlen (ancestors d)) ++ concat (map encode_descriptor (ancestors d)).

Definition opt_missing : P (option MissingDefault) :=
  let! t := u8 in
  if t =? 0 then ret None
  else if t =? 1 then let! s := string in ret (Some (TextDefault s))
  else if t =? 2 then let! n := u32 in let! b := need n in ret (Some (Raw b))
  else fail (fun p => UnknownTag p t).

Definition decode_attnums : P (list Z) := counted i16.

Definition decode_opt_attnums : P (option (list Z)) :=
  let! t := u8 in if t =? 0 then ret None else let! l := decode_attnums in ret (Some l).

Definition decode_replident : P ReplIdent :=
  let! t := u8 in
  if t =? 0 then let! pk := decode_opt_attnums in ret (Default pk)
  else if t =? 1 then ret NothingIdent
  else if t =? 2 then let! pk := decode_opt_attnums in ret (Full pk)
  else if t =? 3 then let! i := u32 in let! k := decode_attnums in ret (UsingIndex i k)
  else fail (fun p => UnknownTag p t).

Definition decode_rfn : P RelFileNode := let! s := u32 in let! d := u32 in let! r := u32 in ret (MkRfn s d r).

Definition decode_attr : P RelAttr :=
  let! num := i16 in let! name := string in let! t := u32 in let! tm := i32 in let! nn := boolish in
  let! dr := boolish in let! tn := string in let! bv := boolish in let! tl := i16 in let! al := u8 in
  let! st := u8 in let! md := opt_missing in
  ret (MkAttr num name t tm nn dr tn bv tl al st md).

(** An ancestor is decoded by the same function; each level consumes bytes, so
    the buffer's length bounds the depth. *)
Fixpoint decode_descriptor_at (fuel : nat) (version : Z) : P RelDescriptor :=
  match fuel with
  | O => fail Malformed
  | S fuel =>
      let! r := decode_rfn in let! o := u32 in let! toast := u32 in let! ns := u32 in
      let! namespace := string in let! name := string in let! k := u8 in let! p := u8 in
      let! ri := decode_replident in let! attrs := counted decode_attr in
      let! n := (if version <? ANCESTRY_VERSION then ret 0 else u32) in
      let! anc := times (Z.to_nat n)
        (let! a := decode_descriptor_at fuel version in if is_partition a then fail Malformed else ret a) in
      ret (MkDesc r o toast ns (namespace, name) k p ri attrs anc)
  end.

Definition decode_descriptor (version : Z) : P RelDescriptor :=
  fun c => decode_descriptor_at (S (length (cbuf c))) version c.

Definition encode_descriptor_bytes (d : RelDescriptor) : list Z := encode_descriptor d.

(** The descriptor and the bytes it took. *)
Definition decode_descriptor_bytes (buf : list Z) : result WireError (RelDescriptor * Z) :=
  let? dc := decode_descriptor VERSION (MkCur buf 0) in Ok (dc.1, cpos dc.2).

(** ** Batches *)
Inductive LogValue :=
| Present (d : RelDescriptor)
| Dropped
| Retired.

Record LogEntry := MkEntry { valid_from : Z; eoid : Z; erfn : RelFileNode; value : LogValue }.

Inductive AmbiguityScope :=
| ScopeRfn (r : RelFileNode)
| ScopeOid (o : Z)
| ScopeDatabase (db : Z).

Record Ambiguity := MkAmb { scope : AmbiguityScope; from_lsn : Z; through_lsn : Z }.

Inductive ObservationKind := AffectedOid | SmgrCreate | FullScan.

Record RelationObservation := MkObs
  { obs_oid : option Z; obs_rfn : option RelFileNode; first_touch_lsn : Z; smgr_create_lsn : option Z; obs_kind : ObservationKind }.

Record BatchRecord := MkBatch
  { captured_at : Z; commit_lsn : Z; observations : list RelationObservation; ambiguities : list Ambiguity;
    entries : list LogEntry }.

Definition encode_entry (e : LogEntry) : list Z :=
  push_u64 (valid_from e) ++ push_u32 (eoid e) ++ encode_rfn (erfn e) ++
  match value e with
  | Present d => push_u8 0 ++ encode_descriptor d
  | Dropped => push_u8 1
  | Retired => push_u8 2
  end.

Definition encode_scope (s : AmbiguityScope) : list Z :=
  match s with
  | ScopeRfn r => push_u8 0 ++ encode_rfn r
  | ScopeOid o => push_u8 1 ++ push_u32 o
  | ScopeDatabase db => push_u8 2 ++ push_u32 db
  end.

(** The only reason there is has tag 1. *)
Definition encode_amb (a : Ambiguity) : list Z :=
  encode_scope (scope a) ++ push_u64 (from_lsn a) ++ push_u64 (through_lsn a) ++ push_u8 1.

Definition push_opt {A} (enc : A -> list Z) (o : option A) : list Z :=
  match o with
  | None => push_u8 0
  | Some x => push_u8 1 ++ enc x
  end.

Definition kind_tag (k : ObservationKind) : Z := match k with AffectedOid => 0 | SmgrCreate => 1 | FullScan => 2 end.

Definition encode_obs (o : RelationObservation) : list Z :=
  push_opt push_u32 (obs_oid o) ++ push_opt encode_rfn (obs_rfn o) ++ push_u64 (first_touch_lsn o) ++
  push_opt push_u64 (smgr_create_lsn o) ++ push_u8 (kind_tag (obs_kind o)).

Definition encode_batch (b : BatchRecord) : list Z :=
  push_u8 TAG_BATCH ++ push_u64 (captured_at b) ++ push_u64 (commit_lsn b) ++
  push_counted encode_entry (entries b) ++ push_counted encode_amb (ambiguities b) ++ push_counted encode_obs (observations b).

Definition decode_entry (version : Z) : P LogEntry :=
  let! v := u64 in let! o := u32 in let! r := decode_rfn in let! t := u8 in
  let! val := (if t =? 0 then let! d := decode_descriptor version in ret (Present d)
               else if t =? 1 then ret Dropped
               else if t =? 2 then ret Retired
               else fail (fun p => UnknownTag p t)) in
  ret (MkEntry v o r val).

Definition decode_amb : P Ambiguity :=
  let! t := u8 in
  let! s := (if t =? 0 then let! r := decode_rfn in ret (ScopeRfn r)
             else if t =? 1 then let! o := u32 in ret (ScopeOid o)
             else if t =? 2 then let! d := u32 in ret (ScopeDatabase d)
             else fail (fun p => UnknownTag p t)) in
  let! f := u64 in let! th := u64 in let! reason := u8 in
  if reason =? 1 then ret (MkAmb s f th) else fail (fun p => UnknownTag p reason).

Definition opt {A} (p : P A) : P (option A) := let! t := u8 in if t =? 0 then ret None else let! x := p in ret (Some x).

Definition decode_obs : P RelationObservation :=
  let! o := opt u32 in let! r := opt decode_rfn in let! f := u64 in let! s := opt u64 in let! k := u8 in
  let! kind := (if k =? 0 then ret AffectedOid else if k =? 1 then ret SmgrCreate else if k =? 2 then ret FullScan
                else fail (fun p => UnknownTag p k)) in
  ret (MkObs o r f s kind).

(** Past the tag byte. *)
Definition decode_batch (version : Z) : P BatchRecord :=
  let! c := u64 in let! l := u64 in let! es := counted (decode_entry version) in
  let! ambs := counted decode_amb in let! obs := counted decode_obs in
  ret (MkBatch c l obs ambs es).

(** ** Round trips *)
Definition str_ok (s : list Z) : Prop := zlen s < 2 ^ 32 /\ Text.valid_utf8 s = true.

Definition missing_ok (m : option MissingDefault) : Prop :=
  match m with
  | None => True
  | Some (TextDefault s) => str_ok s
  | Some (Raw b) => zlen b < 2 ^ 32
  end.

Definition nums_ok (l : list Z) : Prop := zlen l < 2 ^ 32 /\ Forall (fun n => - 2 ^ 15 <= n < 2 ^ 15) l.

Definition replident_ok (r : ReplIdent) : Prop :=
  match r with
  | Default pk | Full pk => match pk with Some l => nums_ok l | None => True end
  | NothingIdent => True
  | UsingIndex i l => fits 32 i /\ nums_ok l
  end.

Definition rfn_ok (r : RelFileNode) : Prop := fits 32 (spc_node r) /\ fits 32 (db_node r) /\ fits 32 (rel_node r).

Definition attr_ok (a : RelAttr) : Prop :=
  - 2 ^ 15 <= attnum a < 2 ^ 15 /\ str_ok (attname a) /\ fits 32 (type_oid a) /\ - 2 ^ 31 <= typmod a < 2 ^ 31 /\
  str_ok (type_name a) /\ - 2 ^ 15 <= type_len a < 2 ^ 15 /\ fits 8 (type_align a) /\ fits 8 (type_storage a) /\
  missing_ok (missing_default a).

Definition flat_ok (d : RelDescriptor) : Prop :=
  rfn_ok (drfn d) /\ fits 32 (oid d) /\ fits 32 (toast_oid d) /\ fits 32 (namespace_oid d) /\
  str_ok (rel_name d).1 /\ str_ok (rel_name d).2 /\ fits 8 (kind d) /\ fits 8 (persistence d) /\
  replident_ok (replident d) /\ zlen (attributes d) < 2 ^ 32 /\ Forall attr_ok (attributes d) /\ zlen (ancestors d) < 2 ^ 32.

(** Capture embeds ancestors without their own. *)
Definition desc_ok (d : RelDescriptor) : Prop :=
  flat_ok d /\ Forall (fun a => flat_ok a /\ ancestors a = []) (ancestors d).

Lemma reads_str s : str_ok s -> reads string s (push_bytes s).
Proof. intros [H1 H2]. by apply reads_string. Qed.
#[local] Hint Resolve reads_str : wire.

Lemma reads_fits8 v : fits 8 v -> reads u8 v (push_u8 v).
Proof. apply reads_u8. Qed.
Lemma reads_fits32 v : fits 32 v -> reads u32 v (push_u32 v).
Proof. apply reads_u32. Qed.
Lemma reads_fits64 v : fits 64 v -> reads u64 v (push_u64 v).
Proof. apply reads_u64. Qed.
#[local] Hint Resolve reads_fits8 reads_fits32 reads_fits64 : wire.

Lemma reads_missing m : missing_ok m -> reads opt_missing m (push_opt_missing m).
Proof.
  intros H. unfold opt_missing, push_opt_missing. destruct m as [[b|s]|].
  - wtag. pose proof (zlen_nonneg b). cbn in H.
    eapply reads_bind; [apply reads_u32; lia|]. eapply reads_last; [by apply reads_need|]. apply reads_ret.
  - wtag. wire.
  - wtag. apply reads_ret.
Qed.

Lemma reads_attnums l : nums_ok l -> reads decode_attnums l (encode_attnums l).
Proof.
  intros [H1 H2]. apply reads_counted; [done|]. eapply Forall_impl; [|exact H2]. intros n Hn. by apply reads_i16.
Qed.
#[local] Hint Resolve reads_missing reads_attnums : wire.

Lemma reads_opt_attnums o : match o with Some l => nums_ok l | None => True end -> reads decode_opt_attnums o (encode_opt_attnums o).
Proof.
  intros H. unfold decode_opt_attnums. destruct o as [l|].
  - wtag. wire.
  - wtag. apply reads_ret.
Qed.
#[local] Hint Resolve reads_opt_attnums : wire.

Lemma reads_replident r : replident_ok r -> reads decode_replident r (encode_replident r).
Proof.
  intros H. unfold decode_replident. destruct r as [pk| |pk|i l]; cbn [replident_ok] in H.
  - wtag. wire.
  - wtag. apply reads_ret.
  - wtag. wire.
  - destruct H. wtag. wire.
Qed.

Lemma reads_rfn r : rfn_ok r -> reads decode_rfn r (encode_rfn r).
Proof. intros (H1 & H2 & H3). unfold decode_rfn, encode_rfn. wire. by destruct r; wire. Qed.

Lemma reads_attr a : attr_ok a -> reads decode_attr a (encode_attr a).
Proof.
  intros (H1 & H2 & H3 & H4 & H5 & H6 & H7 & H8 & H9). unfold decode_attr, encode_attr. wire. destruct a; apply reads_ret.
Qed.
#[local] Hint Resolve reads_replident reads_rfn reads_attr : wire.

Lemma reads_desc_at fuel d : flat_ok d ->
  Forall (fun a => reads (decode_descriptor_at fuel VERSION) a (encode_descriptor a) /\ ancestors a = []) (ancestors d) ->
  reads (decode_descriptor_at (S fuel) VERSION) d (encode_descriptor d).
Proof.
  intros (H1 & H2 & H3 & H4 & H5 & H6 & H7 & H8 & H9 & H10 & H11 & H12) Hanc.
  assert (reads (counted decode_attr) (attributes d) (push_counted encode_attr (attributes d))) as Hattrs.
  { apply reads_counted; [done|]. eapply Forall_impl; [|exact H11]. intros a Ha. by apply reads_attr. }
  set (anc := let! a := decode_descriptor_at fuel VERSION in if is_partition a then fail Malformed else ret a).
  assert (reads (times (Z.to_nat (zlen (ancestors d))) anc) (ancestors d) (concat (map encode_descriptor (ancestors d)))) as Hl.
  { replace (Z.to_nat (zlen (ancestors d))) with (length (ancestors d)) by (unfold zlen; lia).
    apply reads_times. eapply Forall_impl; [|exact Hanc]. intros a [Ha Hn]. unfold anc. eapply reads_last; [exact Ha|].
    unfold is_partition. rewrite Hn. apply reads_ret. }
  pose proof (zlen_nonneg (ancestors d)).
  destruct d as [r o t ns [nsp nm] k p ri attrs ancs]. cbn [drfn oid toast_oid namespace_oid rel_name kind persistence replident attributes ancestors fst snd] in *.
  cbn [decode_descriptor_at encode_descriptor drfn oid toast_oid namespace_oid rel_name kind persistence replident attributes ancestors fst snd].
  change (VERSION <? ANCESTRY_VERSION) with false. cbv iota. fold anc. wire.
Qed.

Lemma reads_descriptor d : desc_ok d -> reads (decode_descriptor VERSION) d (encode_descriptor d).
Proof.
  intros [Hf Ha] pre post. unfold decode_descriptor. cbn [cbuf].
  assert (exists k, length (pre ++ encode_descriptor d ++ post) = S k) as [k ->].
  { destruct (length (pre ++ encode_descriptor d ++ post)) as [|k] eqn:E; [|by exists k].
    exfalso. rewrite !length_app in E. assert (length (encode_descriptor d) = O) as E0 by lia.
    destruct d. cbn [encode_descriptor] in E0. rewrite length_app in E0. by unfold encode_rfn, push_u32 in E0. }
  apply reads_desc_at; [done|]. eapply Forall_impl; [|exact Ha]. intros a [Haf Hn]. split; [|done].
  apply reads_desc_at; [done|]. rewrite Hn. constructor.
Qed.

(** The spill dictionary's use of the codec. *)
Lemma descriptor_bytes_roundtrip d : desc_ok d ->
  decode_descriptor_bytes (encode_descriptor_bytes d) = Ok (d, zlen (encode_descriptor_bytes d)).
Proof.
  intros Hd. unfold decode_descriptor_bytes, encode_descriptor_bytes. rewrite (reads_whole _ d (encode_descriptor d)); [done|].
  by apply reads_descriptor.
Qed.
#[local] Hint Resolve reads_descriptor : wire.

Definition entry_ok (e : LogEntry) : Prop :=
  fits 64 (valid_from e) /\ fits 32 (eoid e) /\ rfn_ok (erfn e) /\ match value e with Present d => desc_ok d | _ => True end.

Definition amb_ok (a : Ambiguity) : Prop :=
  match scope a with ScopeRfn r => rfn_ok r | ScopeOid o => fits 32 o | ScopeDatabase d => fits 32 d end /\
  fits 64 (from_lsn a) /\ fits 64 (through_lsn a).

Definition obs_ok (o : RelationObservation) : Prop :=
  match obs_oid o with Some x => fits 32 x | None => True end /\ match obs_rfn o with Some r => rfn_ok r | None => True end /\
  fits 64 (first_touch_lsn o) /\ match smgr_create_lsn o with Some x => fits 64 x | None => True end.

Definition batch_ok (b : BatchRecord) : Prop :=
  fits 64 (captured_at b) /\ fits 64 (commit_lsn b) /\
  zlen (entries b) < 2 ^ 32 /\ Forall entry_ok (entries b) /\ zlen (ambiguities b) < 2 ^ 32 /\ Forall amb_ok (ambiguities b) /\
  zlen (observations b) < 2 ^ 32 /\ Forall obs_ok (observations b).

Lemma reads_entry e : entry_ok e -> reads (decode_entry VERSION) e (encode_entry e).
Proof.
  destruct e as [v o r val]. intros (H1 & H2 & H3 & H4). cbn [valid_from eoid erfn value] in *.
  unfold decode_entry, encode_entry. cbn [valid_from eoid erfn value].
  do 3 (eapply reads_bind; [solve [eauto 4 with wire]|]). destruct val as [d| |].
  - wtag. eapply reads_last; [eapply reads_last; [by apply reads_descriptor|apply reads_ret]|]. apply reads_ret.
  - wtag. eapply reads_last; apply reads_ret.
  - wtag. eapply reads_last; apply reads_ret.
Qed.

Lemma reads_amb a : amb_ok a -> reads decode_amb a (encode_amb a).
Proof.
  destruct a as [sc f t]. intros (H1 & H2 & H3). cbn [scope from_lsn through_lsn] in *. unfold decode_amb, encode_amb. cbn [scope from_lsn through_lsn].
  destruct sc as [r|o|d]; unfold encode_scope; rewrite <- app_assoc; wtag.
  all: eapply reads_bind; [eapply reads_last; [solve [eauto 3 with wire]|apply reads_ret]|].
  all: do 2 (eapply reads_bind; [solve [eauto 4 with wire]|]); wtag; apply reads_ret.
Qed.

Lemma reads_opt {A} (p : P A) enc o : match o with Some x => reads p x (enc x) | None => True end -> reads (opt p) o (push_opt enc o).
Proof.
  intros H. unfold opt, push_opt. destruct o as [x|]; wtag; [|apply reads_ret]. eapply reads_last; [exact H|]. apply reads_ret.
Qed.

Lemma reads_obs o : obs_ok o -> reads decode_obs o (encode_obs o).
Proof.
  destruct o as [ob rf f sm k]. intros (H1 & H2 & H3 & H4). cbn in *. unfold decode_obs, encode_obs. cbn [obs_oid obs_rfn first_touch_lsn smgr_create_lsn obs_kind].
  eapply reads_bind; [apply reads_opt; destruct ob; eauto with wire|].
  eapply reads_bind; [apply reads_opt; destruct rf; eauto with wire|].
  eapply reads_bind; [eauto with wire|].
  eapply reads_bind; [apply reads_opt; destruct sm; eauto with wire|].
  destruct k; cbn [kind_tag]; wtag; eapply reads_last; apply reads_ret.
Qed.

(** A batch frame's body, past its tag. *)
Lemma reads_batch b : batch_ok b ->
  reads (let! t := u8 in if t =? TAG_BATCH then decode_batch VERSION else fail Malformed) b (encode_batch b).
Proof.
  intros (H1 & H2 & H3 & H4 & H5 & H6 & H7 & H8). unfold encode_batch, TAG_BATCH. wtag. unfold decode_batch.
  assert (reads (counted (decode_entry VERSION)) (entries b) (push_counted encode_entry (entries b))).
  { apply reads_counted; [done|]. eapply Forall_impl; [|exact H4]. apply reads_entry. }
  assert (reads (counted decode_amb) (ambiguities b) (push_counted encode_amb (ambiguities b))).
  { apply reads_counted; [done|]. eapply Forall_impl; [|exact H6]. apply reads_amb. }
  assert (reads (counted decode_obs) (observations b) (push_counted encode_obs (observations b))).
  { apply reads_counted; [done|]. eapply Forall_impl; [|exact H8]. apply reads_obs. }
  wire. destruct b. apply reads_ret.
Qed.

End DescCodec.
