(* ===== verification/Spill.v ===== *)
(** * Spill files of a buffered transaction ([src/xact/spill.rs])

    The entry codecs (column values, heaps, TOAST chunks and deletes, raw
    records), the writer with its descriptor dictionary and framing, and the
    chunked reader.  Files are byte lists; what a reader gets from the file is
    any sequence of non-empty chunks of it. *)
From S2P Require Import Prelude Text WalRecord AsciiBuf Numeric HeapDecode Wire DescCodec.
Import WalRecord Schema HeapDecode Wire.

Module Spill.

Record RawBlock := MkRawBlock
  { block_id : Z; fork_flags : Z; data_length : Z; image_length : Z; rb_hole_offset : Z; rb_hole_length : Z;
    rb_bimg_info : Z; rb_rel : RelFileNode; rb_block_no : Z; rb_image : list Z; rb_data : list Z }.

Record RawRecord := MkRaw
  { raw_xid : Z; rm : Z; raw_info : Z; raw_lsn : Z; page_magic : Z; raw_main_data : list Z; raw_blocks : list RawBlock }.

Record ToastChunk := MkChunk
  { ck_db_oid : Z; ck_toast_relid : Z; value_id : Z; chunk_seq : Z; ck_lsn : Z; ck_blkno : Z; ck_offnum : Z; chunk_data : list Z }.

Record ToastDelete := MkToastDelete { td_db_oid : Z; td_toast_relid : Z; td_blkno : Z; td_offnum : Z; td_lsn : Z }.

Record DescribedHeap := MkDescribed { decoded : DecodedHeap; descriptor : RelDescriptor; descriptor_valid_from : Z }.

Inductive SpillEntry :=
| EHeap (h : DescribedHeap)
| EChunk (c : ToastChunk)
| EToastDelete (d : ToastDelete)
| ERaw (r : RawRecord).

(** [BKP_BLOCK_HAS_IMAGE]. *)
Definition BKP_BLOCK_HAS_IMAGE : Z := 0x10.

Definition drop_redundant_image (b : RawBlock) : RawBlock :=
  if (data_length b =? 0) || (image_length b =? 0) then b
  else MkRawBlock (block_id b) (Z.land (fork_flags b) (Z.lnot BKP_BLOCK_HAS_IMAGE)) (data_length b) 0 0 0 0 (rb_rel b)
         (rb_block_no b) [] (rb_data b).

Definition drop_redundant_images (r : RawRecord) : RawRecord :=
  MkRaw (raw_xid r) (rm r) (raw_info r) (raw_lsn r) (page_magic r) (raw_main_data r) (map drop_redundant_image (raw_blocks r)).

(** [to_xlog_record], on what the heap decoder reads of a record. *)
Definition to_xlog_record (r : RawRecord) : XLogRecord :=
  MkRecord (rm r) (raw_info r) (raw_xid r) 0 0
    (map (fun b => MkBlock (rb_rel b) (rb_block_no b) (negb (Z.land (fork_flags b) BKP_BLOCK_HAS_IMAGE =? 0))
                     (MkImage (rb_hole_offset b) (rb_hole_length b) (rb_bimg_info b)) (rb_image b) (rb_data b)) (raw_blocks r))
    (raw_main_data r).

Definition raw_rfn (r : RawRecord) : option RelFileNode :=
  match raw_blocks r with b :: _ => Some (rb_rel b) | [] => None end.

(** ** Tags *)
Definition TAG_HEAP : Z := 0.
Definition TAG_CHUNK : Z := 1.
Definition TAG_TOAST_DELETE : Z := 2.
Definition TAG_RAW : Z := 3.
Definition TAG_DESCRIPTOR : Z := 4.

Definition op_byte (op : HeapOp) : Z :=
  match op with Insert => 0 | Update => 1 | HotUpdate => 2 | Delete => 3 | Truncate => 4 end.

(** ** Encoders *)
Definition encode_value (v : ColumnValue) : list Z :=
  match v with
  | Null => push_u8 0
  | Bool b => push_u8 1 ++ push_bool b
  | Char i => push_u8 2 ++ push_u8 i
  | Int2 i => push_u8 3 ++ push_u16 i
  | Int4 i => push_u8 4 ++ push_i32 i
  | Int8 i => push_u8 5 ++ push_i64 i
  | Float4 f => push_u8 6 ++ push_u32 f
  | Float8 f => push_u8 7 ++ push_u64 f
  | Oid i => push_u8 8 ++ push_u32 i
  | Date i => push_u8 9 ++ push_i32 i
  | Time i => push_u8 10 ++ push_i64 i
  | Timestamp i => push_u8 11 ++ push_i64 i
  | TimestampTz i => push_u8 12 ++ push_i64 i
  | TimeTz m z => push_u8 13 ++ push_i64 m ++ push_i32 z
  | Uuid b => push_u8 14 ++ b
  | Name s => push_u8 15 ++ push_bytes s
  | Bytea b => push_u8 16 ++ push_bytes b
  | TextVal s => push_u8 17 ++ push_bytes s
  | ExternalToast p =>
      push_u8 18 ++ push_i32 (va_rawsize p) ++ push_u32 (va_extinfo p) ++ push_u32 (va_valueid p) ++ push_u32 (va_toastrelid p)
  | Unsupported t raw => push_u8 19 ++ push_u32 t ++ push_bytes raw
  | NumericVal n =>
      push_u8 20 ++ match n with
                    | Numeric.Finite s => push_u8 0 ++ push_bytes s
                    | Numeric.NaN => push_u8 1
                    | Numeric.PInf => push_u8 2
                    | Numeric.NInf => push_u8 3
                    end
  | InetVal v =>
      push_u8 21 ++ push_u8 (AsciiBuf.family v) ++ push_u8 (AsciiBuf.bits v) ++ push_bool (AsciiBuf.is_cidr v) ++
      push_bytes (AsciiBuf.addr v)
  | IntervalVal v => push_u8 22 ++ push_i32 (AsciiBuf.months v) ++ push_i32 (AsciiBuf.days v) ++ push_i64 (AsciiBuf.micros v)
  | Json s => push_u8 23 ++ push_bytes s
  | PgPending t raw => push_u8 24 ++ push_u32 t ++ push_bytes raw
  | PgPendingText t text => push_u8 25 ++ push_u32 t ++ push_bytes text
  end.

Definition encode_column (c : option ColumnValue) : list Z :=
  match c with
  | None => push_u8 0
  | Some v => push_u8 1 ++ encode_value v
  end.

Definition encode_opt_tuple (t : option DecodedTuple) : list Z :=
  match t with
  | None => push_u8 0
  | Some t => push_u8 1 ++ push_bool (partial t) ++ push_counted encode_column (columns t)
  end.

Definition encode_heap (h : DecodedHeap) : list Z :=
  DescCodec.encode_rfn (rfn h) ++ push_u32 (xid h) ++ push_u64 (source_lsn h) ++ push_u8 (op_byte (op h)) ++
  encode_opt_tuple (new h) ++ encode_opt_tuple (old h).

Definition encode_chunk (c : ToastChunk) : list Z :=
  push_u32 (ck_db_oid c) ++ push_u32 (ck_toast_relid c) ++ push_u32 (value_id c) ++ push_u32 (chunk_seq c) ++
  push_u64 (ck_lsn c) ++ push_u32 (ck_blkno c) ++ push_u16 (ck_offnum c) ++ push_bytes (chunk_data c).

Definition encode_toast_delete (d : ToastDelete) : list Z :=
  push_u32 (td_db_oid d) ++ push_u32 (td_toast_relid d) ++ push_u32 (td_blkno d) ++ push_u16 (td_offnum d) ++ push_u64 (td_lsn d).

Definition encode_raw_block (b : RawBlock) : list Z :=
  push_u8 (block_id b) ++ push_u8 (fork_flags b) ++ push_u16 (data_length b) ++ push_u16 (image_length b) ++
  push_u16 (rb_hole_offset b) ++ push_u16 (rb_hole_length b) ++ push_u8 (rb_bimg_info b) ++
  DescCodec.encode_rfn (rb_rel b) ++ push_u32 (rb_block_no b) ++ push_bytes (rb_image b) ++ push_bytes (rb_data b).

Definition encode_raw (r : RawRecord) : list Z :=
  push_u32 (raw_xid r) ++ push_u8 (rm r) ++ push_u8 (raw_info r) ++ push_u64 (raw_lsn r) ++ push_u16 (page_magic r) ++
  push_bytes (raw_main_data r) ++ push_counted encode_raw_block (raw_blocks r).

(** ** Decoders *)
Definition decode_value : P ColumnValue :=
  let! tag := u8 in
  if tag =? 0 then ret Null
  else if tag =? 1 then let! b := boolish in ret (Bool b)
  else if tag =? 2 then let! c := u8 in ret (Char (signed 8 c))
  else if tag =? 3 then let! i := u16 in ret (Int2 (signed 16 i))
  else if tag =? 4 then let! i := i32 in ret (Int4 i)
  else if tag =? 5 then let! i := i64 in ret (Int8 i)
  else if tag =? 6 then let! f := u32 in ret (Float4 f)
  else if tag =? 7 then let! f := u64 in ret (Float8 f)
  else if tag =? 8 then let! i := u32 in ret (Oid i)
  else if tag =? 9 then let! i := i32 in ret (Date i)
  else if tag =? 10 then let! i := i64 in ret (Time i)
  else if tag =? 11 then let! i := i64 in ret (Timestamp i)
  else if tag =? 12 then let! i := i64 in ret (TimestampTz i)
  else if tag =? 13 then let! m := i64 in let! z := i32 in ret (TimeTz m z)
  else if tag =? 14 then let! b := need 16 in ret (Uuid b)
  else if tag =? 15 then let! s := string in ret (Name s)
  else if tag =? 16 then let! b := bytes in ret (Bytea b)
  else if tag =? 17 then let! s := string in ret (TextVal s)
  else if tag =? 18 then
    let! r := i32 in let! e := u32 in let! v := u32 in let! t := u32 in ret (ExternalToast (MkToast r e v t))
  else if tag =? 19 then let! t := u32 in let! raw := bytes in ret (Unsupported t raw)
  else if tag =? 20 then
    let! k := u8 in
    if k =? 0 then let! s := string in ret (NumericVal (Numeric.Finite s))
    else if k =? 1 then ret (NumericVal Numeric.NaN)
    else if k =? 2 then ret (NumericVal Numeric.PInf)
    else if k =? 3 then ret (NumericVal Numeric.NInf)
    else fail (fun p => UnknownTag p k)
  else if tag =? 21 then
    let! f := u8 in let! b := u8 in let! c := boolish in let! a := bytes in ret (InetVal (AsciiBuf.MkInet f b c a))
  else if tag =? 22 then
    let! m := i32 in let! d := i32 in let! u := i64 in ret (IntervalVal (AsciiBuf.MkInterval m d u))
  else if tag =? 23 then let! s := string in ret (Json s)
  else if tag =? 24 then let! t := u32 in let! raw := bytes in ret (PgPending t raw)
  else if tag =? 25 then let! t := u32 in let! s := string in ret (PgPendingText t s)
  else fail (fun p => UnknownTag p tag).

Definition decode_column : P (option ColumnValue) :=
  let! t := u8 in if t =? 0 then ret None else let! v := decode_value in ret (Some v).

Definition decode_opt_tuple : P (option DecodedTuple) :=
  let! t := u8 in
  if t =? 0 then ret None
  else let! p := boolish in let! cols := counted decode_column in ret (Some (MkTuple cols p)).

Definition decode_heap : P DecodedHeap :=
  let! r := DescCodec.decode_rfn in let! x := u32 in let! l := u64 in let! o := u8 in
  let! op := (if o =? 0 then ret Insert else if o =? 1 then ret Update else if o =? 2 then ret HotUpdate
              else if o =? 3 then ret Delete else if o =? 4 then ret Truncate else fail (fun p => UnknownTag p o)) in
  let! n := decode_opt_tuple in let! old := decode_opt_tuple in ret (MkHeap r x l op n old).

Definition decode_chunk : P ToastChunk :=
  let! db := u32 in let! t := u32 in let! v := u32 in let! s := u32 in let! l := u64 in let! b := u32 in
  let! o := u16 in let! d := bytes in ret (MkChunk db t v s l b o d).

Definition decode_toast_delete : P ToastDelete :=
  let! db := u32 in let! t := u32 in let! b := u32 in let! o := u16 in let! l := u64 in ret (MkToastDelete db t b o l).

Definition decode_raw_block : P RawBlock :=
  let! i := u8 in let! f := u8 in let! dl := u16 in let! il := u16 in let! ho := u16 in let! hl := u16 in let! bi := u8 in
  let! r := DescCodec.decode_rfn in let! bn := u32 in let! im := bytes in let! d := bytes in
  ret (MkRawBlock i f dl il ho hl bi r bn im d).

Definition decode_raw : P RawRecord :=
  let! x := u32 in let! m := u8 in let! i := u8 in let! l := u64 in let! pm := u16 in let! md := bytes in
  let! bs := counted decode_raw_block in ret (MkRaw x m i l pm md bs).

(** ** The writer *)
Definition SPILL_MAGIC : list Z := [87; 83].
Definition SPILL_VERSION : Z := 7.
Definition IO_CHUNK : Z := 262144.

(** Bytes handed to the file and bytes still buffered. *)
Record ChunkWriter := MkCw { file : list Z; wbuf : list Z }.

Definition spawn_write (w : ChunkWriter) : ChunkWriter := MkCw (file w ++ wbuf w) [].
Definition maybe_flush (w : ChunkWriter) : ChunkWriter := if IO_CHUNK <=? zlen (wbuf w) then spawn_write w else w.
Definition flush (w : ChunkWriter) : ChunkWriter := if zlen (wbuf w) =? 0 then w else spawn_write w.

(** The dictionary: ids by log identity, in first-use order. *)
Record SpillWriter := MkWriter { wout : ChunkWriter; wdict : gmap (RelFileNode * Z) Z }.

Definition frame (tag : Z) (body : list Z) : list Z := push_u8 tag ++ push_u32 (zlen body) ++ body.

Definition writer : SpillWriter := MkWriter (MkCw [] (SPILL_MAGIC ++ push_u16 SPILL_VERSION)) ∅.

Definition append (w : SpillWriter) (bytes : list Z) (dict : gmap (RelFileNode * Z) Z) : SpillWriter :=
  MkWriter (MkCw (file (wout w)) (wbuf (wout w) ++ bytes)) dict.

Definition encode (w : SpillWriter) (e : SpillEntry) : SpillWriter :=
  match e with
  | EHeap h =>
      let key := (drfn (descriptor h), descriptor_valid_from h) in
      let next_id := Z.of_nat (size (wdict w)) in
      let '(id, dict) := match wdict w !! key with
                         | Some id => (id, wdict w)
                         | None => (next_id, <[key := next_id]> (wdict w))
                         end in
      let desc := if id =? next_id
                  then frame TAG_DESCRIPTOR (push_u64 (descriptor_valid_from h) ++ DescCodec.encode_descriptor_bytes (descriptor h))
                  else [] in
      append w (desc ++ frame TAG_HEAP (push_u32 id ++ encode_heap (decoded h))) dict
  | EChunk c => append w (frame TAG_CHUNK (encode_chunk c)) (wdict w)
  | EToastDelete d => append w (frame TAG_TOAST_DELETE (encode_toast_delete d)) (wdict w)
  | ERaw r => append w (frame TAG_RAW (encode_raw r)) (wdict w)
  end.

Definition write_entry (w : SpillWriter) (e : SpillEntry) : SpillWriter :=
  let w := encode w e in MkWriter (maybe_flush (wout w)) (wdict w).

Definition write_batch (w : SpillWriter) (es : list SpillEntry) : SpillWriter :=
  let w := fold_left write_entry es w in MkWriter (flush (wout w)) (wdict w).

(** ** The reader *)
Inductive SpillError :=
| UnexpectedEof
| Format (e : WireError)
| BadMagic
| BadVersion (found : Z)
| UndefinedDictId (id defined : Z)
| DescriptorLength (offset : Z)
| UnknownEntryTag (tag : Z).

Definition format {A} (r : result WireError A) : result SpillError A :=
  match r with Ok x => Ok x | Err e => Err (Format e) end.

(** The buffer, the position in it, and the reads still to come; [None] once
    the end of the file has been seen. *)
Record ChunkReader := MkCr { rbuf : list Z; rpos : Z; next_chunk : option (list (list Z)) }.

(** [ChunkReader::open] on the whole file, which the reader then gets in
    [chunks]. *)
Definition open_chunks (header : list Z) (magic : list Z) (version : Z) (chunks : list (list Z)) : result SpillError ChunkReader :=
  if zlen header <? 4 then Err UnexpectedEof
  else if negb (bool_decide (ztake 2 header = magic)) then Err BadMagic
  else
    let found := u16_at header 2 in
    if negb (found =? version) then Err (BadVersion found) else Ok (MkCr [] 0 (Some chunks)).

(** The loop of [fill] over the chunks that arrive. *)
Fixpoint fill_go (n : Z) (buf : list Z) (pos : Z) (chunks : list (list Z)) : bool * ChunkReader :=
  if n <=? zlen buf - pos then (true, MkCr buf pos (Some chunks))
  else
    match chunks with
    | [] => (false, MkCr buf pos None)
    | chunk :: rest =>
        if zlen chunk =? 0 then (false, MkCr buf pos None)
        else fill_go n (if pos =? zlen buf then chunk else zdrop pos buf ++ chunk) 0 rest
    end.

Definition fill (r : ChunkReader) (n : Z) : bool * ChunkReader :=
  match next_chunk r with
  | Some chunks => fill_go n (rbuf r) (rpos r) chunks
  | None => (n <=? zlen (rbuf r) - rpos r, r)
  end.

Definition unread (r : ChunkReader) : list Z := zdrop (rpos r) (rbuf r).

Definition consume (r : ChunkReader) (n : Z) : list Z * ChunkReader :=
  (sub (rbuf r) (rpos r) (rpos r + n), MkCr (rbuf r) (rpos r + n) (next_chunk r)).

Record SpillReader := MkReader { chunks : ChunkReader; rdict : list (RelDescriptor * Z) }.

(** A frame's body: an entry, or a dictionary record, which extends the
    dictionary. *)
Definition decode_frame (dict : list (RelDescriptor * Z)) (tag len : Z) (body : list Z)
    : result SpillError (option SpillEntry * list (RelDescriptor * Z)) :=
  let cur := MkCur body 0 in
  let entry {A} (p : P A) (f : A -> SpillEntry) := let? xc := format (p cur) in Ok (Some (f xc.1), dict) in
  if tag =? TAG_HEAP then
    let? ic := format (u32 cur) in
    let? hc := format (decode_heap ic.2) in
    match dict !! Z.to_nat ic.1 with
    | Some (d, v) => Ok (Some (EHeap (MkDescribed hc.1 d v)), dict)
    | None => Err (UndefinedDictId ic.1 (zlen dict))
    end
  else if tag =? TAG_CHUNK then entry decode_chunk EChunk
  else if tag =? TAG_TOAST_DELETE then entry decode_toast_delete EToastDelete
  else if tag =? TAG_RAW then entry decode_raw ERaw
  else if tag =? TAG_DESCRIPTOR then
    let? vc := format (u64 cur) in
    let? du := format (DescCodec.decode_descriptor_bytes (zdrop (cpos vc.2) body)) in
    if negb (cpos vc.2 + du.2 =? len) then Err (DescriptorLength (cpos vc.2 + du.2))
    else Ok (None, dict ++ [(du.1, vc.1)])
  else Err (UnknownEntryTag tag).

(** One turn of [next]'s loop; [None] at the end of the file. *)
Definition next_frame (r : SpillReader) : result SpillError (option (option SpillEntry) * SpillReader) :=
  let '(ok, cr) := fill (chunks r) 5 in
  if negb ok then
    if zlen (unread cr) =? 0 then Ok (None, MkReader cr (rdict r)) else Err UnexpectedEof
  else
    let head := unread cr in
    let tag := byte_at head 0 in
    let len := u32_at head 1 in
    let '(ok, cr) := fill cr (5 + len) in
    if negb ok then Err UnexpectedEof
    else
      let '(got, cr) := consume cr (5 + len) in
      let? ed := decode_frame (rdict r) tag len (zdrop 5 got) in
      Ok (Some ed.1, MkReader cr ed.2).

(** [next], the loop bounded by [fuel] frames. *)
Fixpoint next (fuel : nat) (r : SpillReader) : result SpillError (option SpillEntry * SpillReader) :=
  match fuel with
  | O => Err UnexpectedEof
  | S fuel =>
      let? fr := next_frame r in
      match fr.1 with
      | None => Ok (None, fr.2)
      | Some (Some e) => Ok (Some e, fr.2)
      | Some None => next fuel fr.2
      end
  end.

(** The caller's drain: [next] until [None].  Every frame takes five bytes, so
    the file's length bounds both loops. *)
Fixpoint drain (fuel : nat) (bound : nat) (r : SpillReader) : result SpillError (list SpillEntry) :=
  match fuel with
  | O => Err UnexpectedEof
  | S fuel =>
      let? er := next bound r in
      match er.1 with
      | None => Ok []
      | Some e => let? rest := drain fuel bound er.2 in Ok (e :: rest)
      end
  end.

(** [finish] then the drain, the file after its header arriving in
    [chunks]. *)
Definition read_back (w : SpillWriter) (cs : list (list Z)) : result SpillError (list SpillEntry) :=
  let bytes := file (flush (wout w)) in
  let? cr := open_chunks (ztake 4 bytes) SPILL_MAGIC SPILL_VERSION cs in
  drain (S (length bytes)) (S (length bytes)) (MkReader cr []).

(** ** Values and entries read back *)
Definition value_ok (v : ColumnValue) : Prop :=
  match v with
  | Null | Bool _ => True
  | Char i => - 2 ^ 7 <= i < 2 ^ 7
  | Int2 i => - 2 ^ 15 <= i < 2 ^ 15
  | Int4 i | Date i => - 2 ^ 31 <= i < 2 ^ 31
  | Int8 i | Time i | Timestamp i | TimestampTz i => - 2 ^ 63 <= i < 2 ^ 63
  | Float4 f | Oid f => fits 32 f
  | Float8 f => fits 64 f
  | TimeTz m z => - 2 ^ 63 <= m < 2 ^ 63 /\ - 2 ^ 31 <= z < 2 ^ 31
  | Uuid b => zlen b = 16
  | Name s | TextVal s | Json s => DescCodec.str_ok s
  | Bytea b => zlen b < 2 ^ 32
  | ExternalToast p => - 2 ^ 31 <= va_rawsize p < 2 ^ 31 /\ fits 32 (va_extinfo p) /\ fits 32 (va_valueid p) /\ fits 32 (va_toastrelid p)
  | Unsupported t raw | PgPending t raw => fits 32 t /\ zlen raw < 2 ^ 32
  | PgPendingText t s => fits 32 t /\ DescCodec.str_ok s
  | NumericVal (Numeric.Finite s) => DescCodec.str_ok s
  | NumericVal _ => True
  | InetVal v => fits 8 (AsciiBuf.family v) /\ fits 8 (AsciiBuf.bits v) /\ zlen (AsciiBuf.addr v) < 2 ^ 32
  | IntervalVal v => - 2 ^ 31 <= AsciiBuf.months v < 2 ^ 31 /\ - 2 ^ 31 <= AsciiBuf.days v < 2 ^ 31 /\ - 2 ^ 63 <= AsciiBuf.micros v < 2 ^ 63
  end.

#[local] Hint Resolve DescCodec.reads_str DescCodec.reads_fits8 DescCodec.reads_fits32 DescCodec.reads_fits64 DescCodec.reads_rfn : wire.

(** A signed value written at its width and read unsigned. *)
Lemma reads_wrapped n v : reads (uint n) (v mod 256 ^ Z.of_nat n) (le_enc n v).
Proof.
  unfold uint. eapply reads_last; [apply reads_need; by rewrite zlen_le_enc|]. rewrite le_dec_enc. apply reads_ret.
Qed.

Lemma reads_value v : value_ok v -> reads decode_value v (encode_value v).
Proof.
  intros H. unfold decode_value.
  destruct v as [|b|c|i|i|i|f|f|i|i|i|i|i|m z|b|s|b|s|k|iv|iv|s|t raw|t s|[r e vi tr]|t raw]; cbn [encode_value value_ok] in *;
    wtag; try (by apply reads_ret); try (by wire).
  - eapply reads_last; [apply (reads_wrapped 1)|]. cbv beta. rewrite (Numeric.signed_mod 8) by lia. apply reads_ret.
  - eapply reads_last; [apply (reads_wrapped 2)|]. cbv beta. rewrite (Numeric.signed_mod 16) by lia. apply reads_ret.
  - eapply reads_last; [by apply reads_need|]. apply reads_ret.
  - destruct k; wtag; try apply reads_ret. wire.
  - destruct iv, H as (H1 & H2 & H3). cbn [AsciiBuf.family AsciiBuf.bits AsciiBuf.addr AsciiBuf.is_cidr] in *. wire.
  - destruct iv, H as (H1 & H2 & H3). cbn [AsciiBuf.months AsciiBuf.days AsciiBuf.micros] in *. wire.
  - destruct H. wire.
  - destruct H. wire.
  - destruct H as (H1 & H2 & H3 & H4). cbn [va_rawsize va_extinfo va_valueid va_toastrelid] in *. wire.
  - destruct H. wire.
Qed.

End Spill.
