(* ===== verification/SpillProofs.v ===== *)
(** * A spill file returns what was written to it

    Entries survive their encoding, the chunked reader sees the file's bytes
    whatever chunks they arrive in, and the dictionary the reader rebuilds
    resolves every heap to its own descriptor. *)
From S2P Require Import Prelude Text WalRecord AsciiBuf Numeric HeapDecode Wire DescCodec Spill.
Import WalRecord Schema HeapDecode Wire Spill.

Module SpillFile.

#[local] Hint Resolve DescCodec.reads_str DescCodec.reads_fits8 DescCodec.reads_fits32 DescCodec.reads_fits64 DescCodec.reads_rfn reads_value : wire.

Lemma reads_fits16 v : fits 16 v -> reads u16 v (push_u16 v).
Proof. apply reads_u16. Qed.
#[local] Hint Resolve reads_fits16 : wire.

(** ** Entries *)
Definition tuple_ok (t : option DecodedTuple) : Prop :=
  match t with
  | None => True
  | Some t => zlen (columns t) < 2 ^ 32 /\ Forall (fun c => match c with Some v => value_ok v | None => True end) (columns t)
  end.

Definition heap_ok (h : DecodedHeap) : Prop :=
  DescCodec.rfn_ok (rfn h) /\ fits 32 (xid h) /\ fits 64 (source_lsn h) /\ tuple_ok (new h) /\ tuple_ok (old h).

Definition chunk_ok (c : ToastChunk) : Prop :=
  fits 32 (ck_db_oid c) /\ fits 32 (ck_toast_relid c) /\ fits 32 (value_id c) /\ fits 32 (chunk_seq c) /\ fits 64 (ck_lsn c) /\
  fits 32 (ck_blkno c) /\ fits 16 (ck_offnum c) /\ zlen (chunk_data c) < 2 ^ 32.

Definition delete_ok (d : ToastDelete) : Prop :=
  fits 32 (td_db_oid d) /\ fits 32 (td_toast_relid d) /\ fits 32 (td_blkno d) /\ fits 16 (td_offnum d) /\ fits 64 (td_lsn d).

Definition block_ok (b : RawBlock) : Prop :=
  fits 8 (block_id b) /\ fits 8 (fork_flags b) /\ fits 16 (data_length b) /\ fits 16 (image_length b) /\
  fits 16 (rb_hole_offset b) /\ fits 16 (rb_hole_length b) /\ fits 8 (rb_bimg_info b) /\ DescCodec.rfn_ok (rb_rel b) /\
  fits 32 (rb_block_no b) /\ zlen (rb_image b) < 2 ^ 32 /\ zlen (rb_data b) < 2 ^ 32.

Definition raw_ok (r : RawRecord) : Prop :=
  fits 32 (raw_xid r) /\ fits 8 (rm r) /\ fits 8 (raw_info r) /\ fits 64 (raw_lsn r) /\ fits 16 (page_magic r) /\
  zlen (raw_main_data r) < 2 ^ 32 /\ zlen (raw_blocks r) < 2 ^ 32 /\ Forall block_ok (raw_blocks r).

Lemma reads_column c : match c with Some v => value_ok v | None => True end -> reads decode_column c (encode_column c).
Proof. intros H. unfold decode_column. destruct c as [v|]; cbn [encode_column]; wtag; [|apply reads_ret]. wire. Qed.

Lemma reads_tuple t : tuple_ok t -> reads decode_opt_tuple t (encode_opt_tuple t).
Proof.
  intros H. unfold decode_opt_tuple. destruct t as [[cols p]|]; cbn [encode_opt_tuple partial columns] in *; wtag; [|apply reads_ret].
  destruct H as [H1 H2]. cbn [columns] in *.
  assert (reads (counted decode_column) cols (push_counted encode_column cols)).
  { apply reads_counted; [done|]. eapply Forall_impl; [|exact H2]. apply reads_column. }
  wire.
Qed.
#[local] Hint Resolve reads_tuple : wire.

Lemma reads_heap h : heap_ok h -> reads decode_heap h (encode_heap h).
Proof.
  destruct h as [r x l o n od]. intros (H1 & H2 & H3 & H4 & H5). cbn [rfn xid source_lsn op new old] in *.
  unfold decode_heap, encode_heap. cbn [rfn xid source_lsn op new old].
  do 3 (eapply reads_bind; [solve [eauto 4 with wire]|]).
  destruct o; cbn [op_byte]; wtag; (rewrite <- (app_nil_l (encode_opt_tuple n ++ _)); eapply reads_bind; [apply reads_ret|]); wire.
Qed.

Lemma reads_chunk c : chunk_ok c -> reads decode_chunk c (encode_chunk c).
Proof.
  destruct c. intros (H1 & H2 & H3 & H4 & H5 & H6 & H7 & H8). cbn in *. unfold decode_chunk, encode_chunk.
  cbn [ck_db_oid ck_toast_relid value_id chunk_seq ck_lsn ck_blkno ck_offnum chunk_data]. wire.
Qed.

Lemma reads_toast_delete d : delete_ok d -> reads decode_toast_delete d (encode_toast_delete d).
Proof.
  destruct d. intros (H1 & H2 & H3 & H4 & H5). cbn in *. unfold decode_toast_delete, encode_toast_delete.
  cbn [td_db_oid td_toast_relid td_blkno td_offnum td_lsn]. wire.
Qed.

Lemma reads_raw_block b : block_ok b -> reads decode_raw_block b (encode_raw_block b).
Proof.
  destruct b. intros (H1 & H2 & H3 & H4 & H5 & H6 & H7 & H8 & H9 & H10 & H11). cbn in *. unfold decode_raw_block, encode_raw_block.
  cbn [block_id fork_flags data_length image_length rb_hole_offset rb_hole_length rb_bimg_info rb_rel rb_block_no rb_image rb_data]. wire.
Qed.

Lemma reads_raw r : raw_ok r -> reads decode_raw r (encode_raw r).
Proof.
  destruct r as [x m i l pm md bs]. intros (H1 & H2 & H3 & H4 & H5 & H6 & H7 & H8). cbn in *. unfold decode_raw, encode_raw.
  cbn [raw_xid rm raw_info raw_lsn page_magic raw_main_data raw_blocks].
  assert (reads (counted decode_raw_block) bs (push_counted encode_raw_block bs)).
  { apply reads_counted; [done|]. eapply Forall_impl; [|exact H8]. apply reads_raw_block. }
  wire.
Qed.

(** ** The chunked reader *)
Definition stream (r : ChunkReader) : list Z := unread r ++ match next_chunk r with Some cs => concat cs | None => [] end.

Definition reader_ok (r : ChunkReader) : Prop :=
  0 <= rpos r <= zlen (rbuf r) /\ match next_chunk r with Some cs => Forall (fun c => 0 < zlen c) cs | None => True end.

Lemma fill_go_spec n cs : forall buf pos, 0 <= pos <= zlen buf -> Forall (fun c => 0 < zlen c) cs ->
  let r := (fill_go n buf pos cs).2 in
  reader_ok r /\ stream r = zdrop pos buf ++ concat cs /\
  (if (fill_go n buf pos cs).1 then n <= zlen (unread r) else zlen (stream r) < n /\ unread r = stream r).
Proof.
  induction cs as [|c cs IH]; intros buf pos Hp Hc; cbn [fill_go].
  - destruct (Z.leb_spec n (zlen buf - pos)); cbn [fst snd]; unfold reader_ok, stream, unread; cbn [rbuf rpos next_chunk concat].
    + split; [done|]. split; [done|]. rewrite zlen_zdrop. lia.
    + rewrite !app_nil_r. split; [done|]. split; [done|]. rewrite zlen_zdrop. split; [lia|done].
  - destruct (Z.leb_spec n (zlen buf - pos)); cbn [fst snd].
    + unfold reader_ok, stream, unread; cbn [rbuf rpos next_chunk concat]. split; [done|]. split; [done|]. rewrite zlen_zdrop. lia.
    + apply Forall_cons_1 in Hc as [Hc Hcs]. rewrite (proj2 (Z.eqb_neq (zlen c) 0)) by lia.
      assert ((if pos =? zlen buf then c else zdrop pos buf ++ c) = zdrop pos buf ++ c) as ->.
      { destruct (Z.eqb_spec pos (zlen buf)) as [->|]; [|done]. unfold zdrop, zlen. rewrite Nat2Z.id, drop_all. done. }
      specialize (IH (zdrop pos buf ++ c) 0). rewrite zdrop_0, <- app_assoc in IH. apply IH; [|done].
      split; [lia|apply zlen_nonneg].
Qed.

Lemma fill_spec r n : reader_ok r ->
  reader_ok (fill r n).2 /\ stream (fill r n).2 = stream r /\
  (if (fill r n).1 then n <= zlen (unread (fill r n).2) else zlen (stream r) < n /\ unread (fill r n).2 = stream r).
Proof.
  intros [Hp Hc]. unfold fill. destruct (next_chunk r) as [cs|] eqn:E.
  - pose proof (fill_go_spec n cs (rbuf r) (rpos r) Hp Hc) as (H1 & H2 & H3). split; [done|]. split.
    + rewrite H2. unfold stream, unread. by rewrite E.
    + destruct (fill_go n (rbuf r) (rpos r) cs).1; [done|]. rewrite H2 in H3. unfold stream, unread in *. by rewrite E.
  - cbn [fst snd]. split; [by unfold reader_ok; rewrite E|]. split; [done|]. unfold stream, unread. rewrite E, app_nil_r, zlen_zdrop.
    destruct (Z.leb_spec n (zlen (rbuf r) - rpos r)); [lia|]. split; [lia|done].
Qed.

Lemma fill_enough r n : reader_ok r -> n <= zlen (stream r) ->
  (fill r n).1 = true /\ reader_ok (fill r n).2 /\ stream (fill r n).2 = stream r /\ n <= zlen (unread (fill r n).2).
Proof.
  intros Hr Hn. destruct (fill_spec r n Hr) as (H1 & H2 & H3). destruct (fill r n).1; [done|]. lia.
Qed.

Lemma frame_len tag body : zlen (frame tag body) = 5 + zlen body.
Proof. unfold frame, push_u8, push_u32. zlen. Qed.

(** The front of a buffer that holds the front of a longer list. *)
Lemma prefix_front (a x l : list Z) n : a ++ x = l -> n <= zlen a -> ztake n a = ztake n l.
Proof. intros <- Hn. by rewrite ztake_app_le. Qed.

Lemma frame_head tag body rest a x : 0 <= tag < 2 ^ 8 -> zlen body < 2 ^ 32 -> a ++ x = frame tag body ++ rest -> 5 <= zlen a ->
  byte_at a 0 = tag /\ u32_at a 1 = zlen body.
Proof.
  intros Ht Hb E Ha. pose proof (zlen_nonneg body).
  assert (ztake 5 a = push_u8 tag ++ push_u32 (zlen body)) as E5.
  { rewrite (prefix_front a x _ 5 E Ha). unfold frame. rewrite app_assoc, <- app_assoc. apply ztake_app_exact. done. }
  rewrite <- (ztake_zdrop_id 5 a), E5. split.
  - unfold push_u8. cbn [le_enc app]. rewrite byte_at_here by done. by apply Z.mod_small.
  - unfold u32_at. rewrite <- app_assoc. rewrite sub_split by done. unfold push_u32. by apply le_dec_enc_small.
Qed.

Lemma consume_spec r n pre rest : reader_ok r -> n <= zlen (unread r) -> zlen pre = n -> stream r = pre ++ rest ->
  (consume r n).1 = pre /\ reader_ok (consume r n).2 /\ stream (consume r n).2 = rest.
Proof.
  intros [Hp Hc] Hn Hpre Hs. pose proof (zlen_nonneg pre). unfold unread in Hn. rewrite zlen_zdrop in Hn.
  unfold consume, stream, unread in *. cbn [fst snd rbuf rpos next_chunk].
  assert (zdrop (rpos r) (rbuf r) = pre ++ zdrop n (zdrop (rpos r) (rbuf r))) as Eu.
  { rewrite <- (ztake_zdrop_id n (zdrop (rpos r) (rbuf r))) at 1. f_equal.
    rewrite (prefix_front _ _ _ n Hs) by (rewrite zlen_zdrop; lia). by apply ztake_app_exact. }
  split; [|split].
  - unfold sub. replace (rpos r + n - rpos r) with n by lia. rewrite Eu. by apply ztake_app_exact.
  - split; [cbn [rpos rbuf]; lia|done].
  - replace (rpos r + n) with (n + rpos r) by lia. rewrite <- zdrop_zdrop by lia.
    rewrite Eu, <- app_assoc in Hs. by apply app_inv_head in Hs.
Qed.

Lemma next_frame_at r tag body rest : reader_ok (chunks r) -> stream (chunks r) = frame tag body ++ rest ->
  0 <= tag < 2 ^ 8 -> zlen body < 2 ^ 32 ->
  exists cr, reader_ok cr /\ stream cr = rest /\
    next_frame r = (let? ed := decode_frame (rdict r) tag (zlen body) body in Ok (Some ed.1, MkReader cr ed.2)).
Proof.
  intros Hr Hs Ht Hb. pose proof (zlen_nonneg body). pose proof (zlen_nonneg rest).
  assert (zlen (stream (chunks r)) = 5 + zlen body + zlen rest) as Hl by (rewrite Hs, zlen_app, frame_len; lia).
  destruct (fill_enough (chunks r) 5 Hr ltac:(lia)) as (F1 & R1 & S1 & U1).
  unfold next_frame. destruct (fill (chunks r) 5) as [ok1 cr1]. cbn [fst snd] in *. subst ok1. cbn [negb].
  destruct (frame_head tag body rest (unread cr1) (match next_chunk cr1 with Some cs => concat cs | None => [] end) Ht Hb) as [-> ->];
    [by rewrite <- Hs, <- S1|lia|].
  destruct (fill_enough cr1 (5 + zlen body) R1 ltac:(rewrite S1; lia)) as (F2 & R2 & S2 & U2).
  destruct (fill cr1 (5 + zlen body)) as [ok2 cr2]. cbn [fst snd] in *. subst ok2. cbn [negb].
  destruct (consume_spec cr2 (5 + zlen body) (frame tag body) rest R2 U2) as (G & R3 & S3);
    [by rewrite frame_len|by rewrite S2, S1|].
  destruct (consume cr2 (5 + zlen body)) as [got cr3]. cbn [fst snd] in *. subst got.
  exists cr3. split; [done|]. split; [done|].
  replace (zdrop 5 (frame tag body)) with body; [done|]. unfold frame. rewrite app_assoc. by rewrite zdrop_app_exact.
Qed.

Lemma next_frame_end r : reader_ok (chunks r) -> stream (chunks r) = [] ->
  exists r', next_frame r = Ok (None, r').
Proof.
  intros Hr Hs. destruct (fill_spec (chunks r) 5 Hr) as (_ & H2 & H3). unfold next_frame.
  destruct (fill (chunks r) 5) as [ok cr]. cbn [fst snd] in *. rewrite Hs in *. destruct ok.
  - exfalso. unfold stream in H2. apply app_eq_nil in H2 as [H2 _]. rewrite H2 in H3. by vm_compute in H3.
  - destruct H3 as [_ ->]. by eexists.
Qed.

(** ** The dictionary *)
Definition hkey (h : DescribedHeap) : RelFileNode * Z := (drfn (descriptor h), descriptor_valid_from h).

Definition entry_ok (e : SpillEntry) : Prop :=
  match e with
  | EHeap h => heap_ok (decoded h) /\ DescCodec.desc_ok (descriptor h) /\ fits 64 (descriptor_valid_from h) /\
      4 + zlen (encode_heap (decoded h)) < 2 ^ 32 /\ 8 + zlen (DescCodec.encode_descriptor_bytes (descriptor h)) < 2 ^ 32
  | EChunk c => chunk_ok c /\ zlen (encode_chunk c) < 2 ^ 32
  | EToastDelete d => delete_ok d /\ zlen (encode_toast_delete d) < 2 ^ 32
  | ERaw r => raw_ok r /\ zlen (encode_raw r) < 2 ^ 32
  end.

(** One log identity names one descriptor. *)
Definition coherent (es : list SpillEntry) : Prop :=
  forall h h', EHeap h ∈ es -> EHeap h' ∈ es -> hkey h = hkey h' -> descriptor h = descriptor h'.

Definition heap_id (wd : gmap (RelFileNode * Z) Z) (h : DescribedHeap) : Z := default (Z.of_nat (size wd)) (wd !! hkey h).

Definition entry_dict (wd : gmap (RelFileNode * Z) Z) (e : SpillEntry) : gmap (RelFileNode * Z) Z :=
  match e with
  | EHeap h => match wd !! hkey h with Some _ => wd | None => <[hkey h := Z.of_nat (size wd)]> wd end
  | _ => wd
  end.

Definition desc_frame (h : DescribedHeap) : list Z :=
  frame TAG_DESCRIPTOR (push_u64 (descriptor_valid_from h) ++ DescCodec.encode_descriptor_bytes (descriptor h)).

Definition entry_bytes (wd : gmap (RelFileNode * Z) Z) (e : SpillEntry) : list Z :=
  match e with
  | EHeap h =>
      (if heap_id wd h =? Z.of_nat (size wd) then desc_frame h else []) ++
      frame TAG_HEAP (push_u32 (heap_id wd h) ++ encode_heap (decoded h))
  | EChunk c => frame TAG_CHUNK (encode_chunk c)
  | EToastDelete d => frame TAG_TOAST_DELETE (encode_toast_delete d)
  | ERaw r => frame TAG_RAW (encode_raw r)
  end.

Lemma encode_eq w e : encode w e = append w (entry_bytes (wdict w) e) (entry_dict (wdict w) e).
Proof. destruct e as [h|c|d|r]; try done. unfold encode, entry_bytes, entry_dict, heap_id, hkey. by destruct (wdict w !! _). Qed.

Definition dict_rel (all : list SpillEntry) (wd : gmap (RelFileNode * Z) Z) (rd : list (RelDescriptor * Z)) : Prop :=
  size wd = length rd /\
  forall key id, wd !! key = Some id -> 0 <= id < zlen rd /\
    exists d, rd !! Z.to_nat id = Some (d, key.2) /\ forall h, EHeap h ∈ all -> hkey h = key -> descriptor h = d.

Lemma frame_desc rd h : entry_ok (EHeap h) -> forall len, len = 8 + zlen (DescCodec.encode_descriptor_bytes (descriptor h)) ->
  decode_frame rd TAG_DESCRIPTOR len (push_u64 (descriptor_valid_from h) ++ DescCodec.encode_descriptor_bytes (descriptor h)) =
  Ok (None, rd ++ [(descriptor h, descriptor_valid_from h)]).
Proof.
  intros (_ & Hd & Hv & _) len ->. unfold decode_frame. cbn [Z.eqb TAG_DESCRIPTOR TAG_HEAP TAG_CHUNK TAG_TOAST_DELETE TAG_RAW Pos.eqb].
  set (enc := DescCodec.encode_descriptor_bytes (descriptor h)).
  pose proof (DescCodec.reads_fits64 _ Hv [] enc) as E. cbn [app] in E. change (zlen []) with 0 in E. rewrite E. cbn [format fst snd cpos].
  assert (zlen (push_u64 (descriptor_valid_from h)) = 8) as E8 by done. rewrite E8, Z.add_0_l.
  rewrite zdrop_app_exact by done. unfold enc. rewrite DescCodec.descriptor_bytes_roundtrip by done. cbn [format fst snd].
  by rewrite Z.eqb_refl.
Qed.

Lemma frame_heap rd h id d v len : heap_ok (decoded h) -> 0 <= id < 2 ^ 32 -> rd !! Z.to_nat id = Some (d, v) ->
  decode_frame rd TAG_HEAP len (push_u32 id ++ encode_heap (decoded h)) = Ok (Some (EHeap (MkDescribed (decoded h) d v)), rd).
Proof.
  intros Hh Hid Hrd. unfold decode_frame. cbn [Z.eqb TAG_HEAP].
  pose proof (reads_u32 id Hid [] (encode_heap (decoded h))) as E. cbn [app] in E. change (zlen []) with 0 in E. rewrite E.
  cbn [format fst snd]. pose proof (reads_heap _ Hh (push_u32 id) []) as E2. rewrite app_nil_r in E2.
  change (zlen (push_u32 id)) with 4 in *. rewrite Z.add_0_l. rewrite E2. cbn [format fst snd]. by rewrite Hrd.
Qed.

Lemma frame_chunk rd c len : chunk_ok c -> decode_frame rd TAG_CHUNK len (encode_chunk c) = Ok (Some (EChunk c), rd).
Proof. intros H. unfold decode_frame. cbn [Z.eqb TAG_HEAP TAG_CHUNK Pos.eqb]. by rewrite (reads_whole _ _ _ (reads_chunk c H)). Qed.

Lemma frame_delete rd d len : delete_ok d -> decode_frame rd TAG_TOAST_DELETE len (encode_toast_delete d) = Ok (Some (EToastDelete d), rd).
Proof.
  intros H. unfold decode_frame. cbn [Z.eqb TAG_HEAP TAG_CHUNK TAG_TOAST_DELETE Pos.eqb].
  by rewrite (reads_whole _ _ _ (reads_toast_delete d H)).
Qed.

Lemma frame_raw rd r len : raw_ok r -> decode_frame rd TAG_RAW len (encode_raw r) = Ok (Some (ERaw r), rd).
Proof.
  intros H. unfold decode_frame. cbn [Z.eqb TAG_HEAP TAG_CHUNK TAG_TOAST_DELETE TAG_RAW Pos.eqb].
  by rewrite (reads_whole _ _ _ (reads_raw r H)).
Qed.

(** The reader's dictionary after an entry's frames. *)
Definition entry_rdict (wd : gmap (RelFileNode * Z) Z) (rd : list (RelDescriptor * Z)) (e : SpillEntry) : list (RelDescriptor * Z) :=
  match e with
  | EHeap h => match wd !! hkey h with Some _ => rd | None => rd ++ [(descriptor h, descriptor_valid_from h)] end
  | _ => rd
  end.

Lemma dict_rel_step all wd rd e : dict_rel all wd rd -> coherent all -> e ∈ all ->
  dict_rel all (entry_dict wd e) (entry_rdict wd rd e).
Proof.
  intros [Hs Hr] Hc He. destruct e as [h|c|d|r]; try by split. cbn [entry_dict entry_rdict].
  destruct (wd !! hkey h) as [id|] eqn:E; [by split|]. split.
  { rewrite map_size_insert_None by done. rewrite length_app. cbn. lia. }
  assert (zlen (rd ++ [(descriptor h, descriptor_valid_from h)]) = zlen rd + 1) as Hl by (unfold zlen; rewrite length_app; cbn; lia).
  intros key id Hk. rewrite Hl. destruct (decide (key = hkey h)) as [->|Hne].
  - rewrite lookup_insert_eq in Hk. injection Hk as <-. rewrite Hs.
    split; [unfold zlen; lia|]. exists (descriptor h). rewrite Nat2Z.id, lookup_app_r, Nat.sub_diag by lia. split; [done|].
    intros h' Hh' Hk. by apply Hc.
  - rewrite lookup_insert_ne in Hk by done. destruct (Hr _ _ Hk) as (Hid & d & Hd & Hall).
    split; [lia|]. exists d. split; [|done]. by apply lookup_app_l_Some.
Qed.

Lemma entry_dict_size wd e : (size (entry_dict wd e) <= S (size wd))%nat.
Proof.
  destruct e as [h|c|d|r]; cbn [entry_dict]; try lia. destruct (wd !! hkey h) eqn:E; [lia|].
  rewrite map_size_insert_None by done. lia.
Qed.

(** [next] where the stream starts with a frame that decodes to an entry. *)
Lemma next_at r tag body rest fuel e rd : reader_ok (chunks r) -> stream (chunks r) = frame tag body ++ rest ->
  0 <= tag < 2 ^ 8 -> zlen body < 2 ^ 32 -> decode_frame (rdict r) tag (zlen body) body = Ok (Some e, rd) ->
  exists r', next (S fuel) r = Ok (Some e, r') /\ reader_ok (chunks r') /\ stream (chunks r') = rest /\ rdict r' = rd.
Proof.
  intros Hr Hs Ht Hb Hd. destruct (next_frame_at r tag body rest Hr Hs Ht Hb) as (cr & Hr' & Hs' & Hn).
  rewrite Hd in Hn. cbn [fst snd] in Hn. exists (MkReader cr rd). cbn [next]. by rewrite Hn.
Qed.

(** [next] where it starts with a dictionary record. *)
Lemma next_past r tag body rest fuel rd : reader_ok (chunks r) -> stream (chunks r) = frame tag body ++ rest ->
  0 <= tag < 2 ^ 8 -> zlen body < 2 ^ 32 -> decode_frame (rdict r) tag (zlen body) body = Ok (None, rd) ->
  exists r', next (S fuel) r = next fuel r' /\ reader_ok (chunks r') /\ stream (chunks r') = rest /\ rdict r' = rd.
Proof.
  intros Hr Hs Ht Hb Hd. destruct (next_frame_at r tag body rest Hr Hs Ht Hb) as (cr & Hr' & Hs' & Hn).
  rewrite Hd in Hn. cbn [fst snd] in Hn. exists (MkReader cr rd). cbn [next]. by rewrite Hn.
Qed.

Lemma next_heap all wd r h rest fuel : dict_rel all wd (rdict r) -> EHeap h ∈ all -> entry_ok (EHeap h) -> Z.of_nat (size wd) < 2 ^ 32 ->
  reader_ok (chunks r) -> stream (chunks r) = entry_bytes wd (EHeap h) ++ rest ->
  exists r', next (S (S fuel)) r = Ok (Some (EHeap h), r') /\ reader_ok (chunks r') /\ stream (chunks r') = rest /\
    rdict r' = entry_rdict wd (rdict r) (EHeap h).
Proof.
  intros [Hsz Hrel] He Hok Hsize Hr Hs. pose proof Hok as (Ho & Hd & Hv & Hl1 & Hl2). cbn [entry_bytes entry_rdict] in *.
  assert (Z.of_nat (size wd) = zlen (rdict r)) as Hz by (unfold zlen; lia). unfold heap_id in Hs.
  assert (forall id, zlen (push_u32 id ++ encode_heap (decoded h)) < 2 ^ 32) as Hb by (intros id; rewrite zlen_app; exact Hl1).
  destruct (wd !! hkey h) as [id|] eqn:E; cbn [default from_option Datatypes.id] in Hs.
  - destruct (Hrel _ _ E) as (Hid & d & Hdk & Hall). destruct (Z.eqb_spec id (Z.of_nat (size wd))); [lia|]. cbn [app] in Hs.
    eapply next_at; [done|exact Hs|done|apply Hb|]. rewrite (frame_heap _ h id d (descriptor_valid_from h)) by (done || lia).
    rewrite <- (Hall h He eq_refl). by destruct h.
  - rewrite Z.eqb_refl, <- app_assoc in Hs.
    edestruct (next_past r) as (r1 & -> & Hr1 & Hs1 & Hd1); [done|exact Hs|done|rewrite zlen_app; exact Hl2| |].
    { apply frame_desc; [done|]. by rewrite zlen_app. }
    rewrite <- Hd1. eapply next_at; [done|exact Hs1|done|apply Hb|].
    rewrite (frame_heap _ h _ (descriptor h) (descriptor_valid_from h)); [by destruct h|done|lia|].
    rewrite Hd1, Nat2Z.id, Hsz. rewrite lookup_app_r by lia. by rewrite Nat.sub_diag.
Qed.

(** [next] at an entry's frames: the entry, and the reader after it. *)
Lemma next_entry all wd r e rest fuel : dict_rel all wd (rdict r) -> e ∈ all -> entry_ok e -> Z.of_nat (size wd) < 2 ^ 32 ->
  reader_ok (chunks r) -> stream (chunks r) = entry_bytes wd e ++ rest ->
  exists r', next (S (S fuel)) r = Ok (Some e, r') /\ reader_ok (chunks r') /\ stream (chunks r') = rest /\
    rdict r' = entry_rdict wd (rdict r) e.
Proof.
  intros Hrel He Hok Hsize Hr Hs. destruct e as [h|c|d|x].
  - by eapply next_heap.
  - destruct Hok as [Ho Hl]. eapply next_at; [done|exact Hs|done|done|by apply frame_chunk].
  - destruct Hok as [Ho Hl]. eapply next_at; [done|exact Hs|done|done|by apply frame_delete].
  - destruct Hok as [Ho Hl]. eapply next_at; [done|exact Hs|done|done|by apply frame_raw].
Qed.

(** ** The whole file *)
Fixpoint all_bytes (wd : gmap (RelFileNode * Z) Z) (es : list SpillEntry) : list Z :=
  match es with [] => [] | e :: es => entry_bytes wd e ++ all_bytes (entry_dict wd e) es end.

Lemma drain_spec all bound : (2 <= bound)%nat -> coherent all ->
  forall es wd r fuel, dict_rel all wd (rdict r) -> (forall e, e ∈ es -> e ∈ all) -> Forall entry_ok es ->
  Z.of_nat (size wd) + zlen es < 2 ^ 32 -> reader_ok (chunks r) -> stream (chunks r) = all_bytes wd es -> (length es < fuel)%nat ->
  drain fuel bound r = Ok es.
Proof.
  intros Hb Hc. destruct bound as [|[|bound]]; [lia..|]. induction es as [|e es IH]; intros wd r fuel Hrel Hall Hok Hsz Hr Hs Hf;
    (destruct fuel as [|fuel]; [cbn in Hf; lia|]).
  - destruct (next_frame_end r Hr Hs) as (r' & Hn). cbn [drain next]. by rewrite Hn.
  - apply Forall_cons_1 in Hok as [Hoke Hok]. cbn [all_bytes] in Hs. rewrite zlen_cons in Hsz.
    pose proof (zlen_nonneg es). pose proof (entry_dict_size wd e). assert (e ∈ all) by (apply Hall; set_solver).
    destruct (next_entry all wd r e _ bound Hrel ltac:(done) Hoke ltac:(lia) Hr Hs) as (r' & Hn & Hr' & Hs' & Hd').
    cbn [drain]. rewrite Hn. cbn [fst snd]. rewrite (IH (entry_dict wd e) r' fuel); [done|..].
    + rewrite Hd'. by apply dict_rel_step.
    + intros x Hx. apply Hall. set_solver.
    + done.
    + lia.
    + done.
    + done.
    + cbn in Hf. lia.
Qed.

Definition content (w : SpillWriter) : list Z := file (wout w) ++ wbuf (wout w).

Lemma write_entry_content w e : content (write_entry w e) = content w ++ entry_bytes (wdict w) e /\
  wdict (write_entry w e) = entry_dict (wdict w) e.
Proof.
  unfold write_entry. rewrite encode_eq. unfold append, content, maybe_flush. cbn [wout wdict file wbuf]. split; [|done].
  destruct (IO_CHUNK <=? _); cbn [spawn_write file wbuf]; [rewrite app_nil_r|]; by rewrite app_assoc.
Qed.

Lemma flush_file o : file (flush o) = file o ++ wbuf o /\ wbuf (flush o) = [].
Proof.
  unfold flush. destruct (Z.eqb_spec (zlen (wbuf o)) 0) as [E|E]; [|done].
  destruct (wbuf o) eqn:Eb; [by rewrite app_nil_r|]. rewrite zlen_cons in E. pose proof (zlen_nonneg l). lia.
Qed.

Lemma all_bytes_app wd es es' : all_bytes wd (es ++ es') = all_bytes wd es ++ all_bytes (fold_left entry_dict es wd) es'.
Proof. revert wd. induction es as [|e es IH]; intros wd; [done|]. cbn [app all_bytes fold_left]. by rewrite IH, app_assoc. Qed.

Lemma write_batch_content w es : content (write_batch w es) = content w ++ all_bytes (wdict w) es /\
  wdict (write_batch w es) = fold_left entry_dict es (wdict w).
Proof.
  assert (content (fold_left write_entry es w) = content w ++ all_bytes (wdict w) es /\
          wdict (fold_left write_entry es w) = fold_left entry_dict es (wdict w)) as [H1 H2].
  { revert w. induction es as [|e es IH]; intros w; [cbn; by rewrite app_nil_r|]. cbn [fold_left all_bytes].
    destruct (IH (write_entry w e)) as [-> ->]. destruct (write_entry_content w e) as [-> ->]. by rewrite app_assoc. }
  unfold write_batch, content in *. cbn [wout wdict]. destruct (flush_file (wout (fold_left write_entry es w))) as [-> ->].
  by rewrite app_nil_r.
Qed.

Lemma write_batches_content bs w : content (fold_left write_batch bs w) = content w ++ all_bytes (wdict w) (concat bs) /\
  wdict (fold_left write_batch bs w) = fold_left entry_dict (concat bs) (wdict w).
Proof.
  revert w. induction bs as [|es bs IH]; intros w; [cbn; by rewrite app_nil_r|]. cbn [fold_left concat].
  destruct (IH (write_batch w es)) as [-> ->]. destruct (write_batch_content w es) as [-> ->].
  by rewrite all_bytes_app, fold_left_app, app_assoc.
Qed.

Lemma entry_bytes_len wd e : (5 <= length (entry_bytes wd e))%nat.
Proof.
  assert (forall t b, (5 <= length (frame t b))%nat) as H by (intros t b; pose proof (frame_len t b); pose proof (zlen_nonneg b); unfold zlen in *; lia).
  destruct e as [h|c|d|r]; cbn [entry_bytes]; try apply H. rewrite length_app. pose proof (H TAG_HEAP (push_u32 (heap_id wd h) ++ encode_heap (decoded h))). lia.
Qed.

Lemma all_bytes_len wd es : (length es <= length (all_bytes wd es))%nat.
Proof.
  revert wd. induction es as [|e es IH]; intros wd; [cbn; lia|]. cbn [all_bytes length]. rewrite length_app.
  pose proof (entry_bytes_len wd e). pose proof (IH (entry_dict wd e)). lia.
Qed.

(** C15: Whatever batches of entries a transaction spilled, the file reads back
    as exactly those entries in order - every column value, toast chunk, toast
    delete and raw record, each heap entry under the descriptor and log identity
    it was buffered with although a descriptor is written once per file - and
    this for every way the asynchronous reads split the file into chunks.
    Entries fit their wire widths, and one log identity names one
    descriptor. *)
Theorem spill_roundtrip bs cs : Forall entry_ok (concat bs) -> coherent (concat bs) -> zlen (concat bs) < 2 ^ 32 ->
  concat cs = zdrop 4 (file (flush (wout (fold_left write_batch bs writer)))) -> Forall (fun c => 0 < zlen c) cs ->
  read_back (fold_left write_batch bs writer) cs = Ok (concat bs).
Proof.
  intros Hok Hc Hn Hcs Hne. unfold read_back. destruct (flush_file (wout (fold_left write_batch bs writer))) as [Hfile _].
  destruct (write_batches_content bs writer) as [Hcont _]. unfold content in Hcont. rewrite Hfile, Hcont in *.
  change (wdict writer) with (∅ : gmap (RelFileNode * Z) Z) in *.
  set (hd := file (wout writer) ++ wbuf (wout writer)) in *. assert (zlen hd = 4) as Hhd by done.
  rewrite zdrop_app_exact in Hcs by done. rewrite ztake_app_exact by done.
  replace (open_chunks hd SPILL_MAGIC SPILL_VERSION cs) with (Ok (MkCr [] 0 (Some cs)) : result SpillError ChunkReader) by by vm_compute.
  pose proof (all_bytes_len ∅ (concat bs)). assert (length hd = 4)%nat by done. rewrite length_app.
  eapply (drain_spec (concat bs)) with (wd := ∅); [lia|done|split; [done|]|done|done| | | |lia].
  - intros key id Hk. by rewrite lookup_empty in Hk.
  - rewrite map_size_empty. lia.
  - split; [done|]. done.
  - done.
Qed.

(** ** Two batches over one table, read in uneven chunks *)
Definition item_rel : RelDescriptor :=
  MkDesc (MkRfn 1663 5 16400) 16400 16403 2200 ([112], [116]) 114 112 (Full None)
    [MkAttr 1 [105; 100] INT4OID (-1) true false [105] true 4 105 112 None] [].
Definition item_heap (n : Z) : SpillEntry :=
  EHeap (MkDescribed (MkHeap (drfn item_rel) 700 n Insert (Some (MkTuple [Some (Int4 n); None; Some (TextVal [104; 105])] false)) None) item_rel 9).
Definition item_batches : list (list SpillEntry) :=
  [[item_heap 1; EChunk (MkChunk 5 16403 7 0 88 0 1 [1; 2; 3])]; [item_heap 2; EToastDelete (MkToastDelete 5 16403 0 1 99)]].
Definition item_rest : list Z := zdrop 4 (file (flush (wout (fold_left write_batch item_batches writer)))).

Ltac small := vm_compute; repeat (split || constructor); discriminate.

Lemma item_rel_ok : DescCodec.desc_ok item_rel.
Proof.
  split; [|constructor]. unfold DescCodec.flat_ok. do 9 (split; [small|]). split; [small|]. split; [|small].
  constructor; [small|constructor].
Qed.

Lemma item_heap_ok n : n = 1 \/ n = 2 -> entry_ok (item_heap n).
Proof.
  intros [-> | ->]; (split; [|split; [exact item_rel_ok|small]]); do 3 (split; [small|]); (split; [|exact I]); split; [small| |small|].
  all: constructor; [small|]; constructor; [exact I|]; constructor; [small|constructor].
Qed.

(** The two inserts, the toast chunk and the toast delete come back. *)
Lemma spill_roundtrip_witness :
  read_back (fold_left write_batch item_batches writer) [ztake 3 item_rest; zdrop 3 item_rest] = Ok (concat item_batches).
Proof.
  apply spill_roundtrip.
  - constructor; [apply item_heap_ok; by left|]. constructor; [small|].
    constructor; [apply item_heap_ok; by right|]. constructor; [small|constructor].
  - intros h h' Hh Hh' _. cbn in Hh, Hh'. rewrite !elem_of_cons in Hh, Hh'.
    assert (forall x, EHeap x = item_heap 1 \/ EHeap x = EChunk (MkChunk 5 16403 7 0 88 0 1 [1; 2; 3]) \/ EHeap x = item_heap 2 \/
      EHeap x = EToastDelete (MkToastDelete 5 16403 0 1 99) \/ EHeap x ∈ [] -> descriptor x = item_rel) as H.
    { intros x. unfold item_heap. intros [[= ->]|[?|[[= ->]|[?|?%not_elem_of_nil]]]]; done. }
    by rewrite (H h Hh), (H h' Hh').
  - done.
  - cbn [concat]. rewrite app_nil_r. apply ztake_zdrop_id.
  - constructor; [by vm_compute|]. constructor; [by vm_compute|constructor].
Defined.

End SpillFile.
