(* ===== verification/ToastRef.v ===== *)
(** * TOAST values inside a transaction
    ([src/toast/resolver.rs], [src/xact/spill.rs], [src/xact/xact_buffer.rs])

    Chunk bodies kept in memory or appended to the drain's body spool, the
    per-value references a commit drain collects from them, and their
    reassembly: dense coverage and the pointer's stored size are checked before
    any byte is read, then memory bodies and spool ranges are concatenated and
    decompressed.  [toast_values_reassemble] of
    [ToastRefProofs] ties the two ends together. *)
From S2P Require Import Prelude WalRecord AsciiBuf Numeric HeapDecode Wire DescCodec Spill.
Import WalRecord Schema HeapDecode Spill.

Module ToastRef.

(** ** Pointers *)
Definition VARHDRSZ : Z := 4.
Definition TCINFO_LEN : Z := 4.

(** [va_rawsize - VARHDRSZ], in [i32]. *)
Definition raw_payload (p : ToastPointer) : Z := signed 32 (wrap 32 (va_rawsize p - VARHDRSZ)).

Definition pointer_extsize (p : ToastPointer) : Z := Z.land (va_extinfo p) VARLENA_EXTSIZE_MASK.

Definition pointer_is_compressed (p : ToastPointer) : bool := pointer_extsize p <? raw_payload p.

Definition pointer_footprint (p : ToastPointer) : Z := Z.max (Z.max 0 (raw_payload p)) (pointer_extsize p).

Inductive InlineValueOverflow := OverflowNull | OverflowError.

(** The messages of [ToastValueError] and [XactBufferError::Detoast]. *)
Inductive ToastError :=
| Detoast (method payload_len raw_len value relid : Z)
| ValueTooLarge (rawsize max : Z)
| FileRefsWithoutSpool
| BodySpoolRead
| BodyOverU32 (offset : Z).

Definition check_value_caps (pointers : list ToastPointer) (max : Z) (overflow : InlineValueOverflow) : result ToastError Z :=
  let fix go ps retained transient :=
    match ps with
    | [] => Ok (retained + transient)
    | p :: ps =>
        let footprint := pointer_footprint p in
        if max <? footprint then
          match overflow with
          | OverflowNull => go ps retained transient
          | OverflowError => Err (ValueTooLarge footprint max)
          end
        else go ps (retained + footprint) (if pointer_is_compressed p then Z.max transient (pointer_extsize p) else transient)
    end in
  go pointers 0 0.

Definition detoasted_value (raw : list Z) (t : Z) : ColumnValue := varlena_to_value t raw.

Definition finish_value `{Decompress} (p : ToastPointer) (stored : list Z) : result ToastError (list Z) :=
  if negb (pointer_is_compressed p) then Ok stored
  else
    let method := Z.land (Z.shiftr (va_extinfo p) VARLENA_EXTSIZE_BITS) 3 in
    let raw_len := Z.max 0 (raw_payload p) in
    let payload := zdrop TCINFO_LEN stored in
    match decompress_varlena method payload raw_len with
    | Some out => Ok out
    | None => Err (Detoast method (zlen payload) raw_len (va_valueid p) (va_toastrelid p))
    end.

(** ** The body spool *)
Record BodyRef := MkBodyRef { offset : Z; len : Z }.

(** Bytes the file holds, bytes still buffered, and the running length. *)
Record BodySpoolWriter := MkSpool { spooled : list Z; sbuf : list Z; slen : Z }.

Definition create : BodySpoolWriter := MkSpool [] [] 0.

Definition flush (s : BodySpoolWriter) : BodySpoolWriter := MkSpool (spooled s ++ sbuf s) [] (slen s).

Definition append (s : BodySpoolWriter) (body : list Z) : result ToastError (BodySpoolWriter * BodyRef) :=
  if 2 ^ 32 <=? zlen body then Err (BodyOverU32 (slen s))
  else
    let r := MkBodyRef (slen s) (zlen body) in
    let s := MkSpool (spooled s) (sbuf s ++ body) (slen s + zlen body) in
    Ok (if IO_CHUNK <=? zlen (sbuf s) then flush s else s, r).

(** [read_exact_at]: a short file is an error. *)
Definition read_at (file : list Z) (off n : Z) : result ToastError (list Z) :=
  if off + n <=? zlen file then Ok (sub file off (off + n)) else Err BodySpoolRead.

Inductive Body := Mem (b : list Z) | File (r : BodyRef).

Definition body_len (b : Body) : Z := match b with Mem b => zlen b | File r => len r end.

(** [Body::load], over what the spool file holds. *)
Definition load (spool : option (list Z)) (b : Body) : result ToastError (list Z) :=
  match b with
  | Mem b => Ok b
  | File r => match spool with None => Err FileRefsWithoutSpool | Some f => read_at f (offset r) (len r) end
  end.

(** ** References to one value *)
Record ValueRef := MkRef { run : BodyRef; run_chunks : Z; tail : list (Z * Body) }.

Definition push (v : ValueRef) (seq : Z) (body : Body) : ValueRef :=
  let aside := MkRef (run v) (run_chunks v) (btree_insert seq body (tail v)) in
  match body with
  | File r =>
      if bool_decide (tail v = []) && (seq =? run_chunks v) &&
         ((run_chunks v =? 0) || (offset r =? offset (run v) + len (run v)))
      then MkRef (if run_chunks v =? 0 then r else MkBodyRef (offset (run v)) (uadd 32 (len (run v)) (len r)))
             (uadd 32 (run_chunks v) 1) (tail v)
      else aside
  | Mem _ => aside
  end.

Definition new (seq : Z) (body : Body) : ValueRef := push (MkRef (MkBodyRef 0 0) 0 []) seq body.

(** [tail.range(run_chunks..)]. *)
Definition beyond (v : ValueRef) : list (Z * Body) := filter (fun kb => run_chunks v <= kb.1) (tail v).

(** Each key one more than the last. *)
Fixpoint dense (next : Z) (l : list (Z * Body)) : bool :=
  match l with [] => true | (s, _) :: l => (s =? next) && dense (next + 1) l end.

Definition observed_mid_value (v : ValueRef) : bool :=
  if 0 <? run_chunks v then false
  else match tail v with [] => false | (first, _) :: rest => (0 <? first) && dense (first + 1) rest end.

Definition first_missing_seq_ref (v : ValueRef) : Z :=
  let fix go next l := match l with [] => next | (s, _) :: l => if negb (s =? next) then next else go (next + 1) l end in
  go (run_chunks v) (beyond v).

Inductive Reassembled :=
| Bytes (b : list Z)
| Missing
| SizeMismatch (got want : Z).

(** The read loop over the tail. *)
Fixpoint load_all (spool : option (list Z)) (l : list (Z * Body)) : result ToastError (list Z) :=
  match l with
  | [] => Ok []
  | (_, b) :: l => let? x := load spool b in let? r := load_all spool l in Ok (x ++ r)
  end.

Definition total_len (v : ValueRef) : Z := fold_left (fun t kb => t + body_len kb.2) (beyond v) (len (run v)).

Definition reassemble_value_ref `{Decompress} (p : ToastPointer) (spool : option (list Z)) (v : ValueRef)
    : result ToastError Reassembled :=
  if negb (dense (run_chunks v) (beyond v)) then Ok Missing
  else
    let extsize := pointer_extsize p in
    if negb (total_len v =? extsize) then Ok (SizeMismatch (total_len v) extsize)
    else
      let? front := if 0 <? len (run v) then load spool (File (run v)) else Ok [] in
      let? back := load_all spool (beyond v) in
      let? raw := finish_value p (front ++ back) in
      Ok (Bytes raw).

(** ** What one commit drain collects *)
Notation ChunkRefMap := (gmap (Z * Z) ValueRef).

(** [ToastRow<Body>]: a birth, or a tombstone with value id 0. *)
Record ToastRow := MkToastRow
  { r_db_oid : Z; r_toast_relid : Z; r_blkno : Z; r_offnum : Z; chunk_id : Z; r_chunk_seq : Z; r_body : Body; r_lsn : Z }.

Definition tombstone (d : ToastDelete) : ToastRow :=
  MkToastRow (td_db_oid d) (td_toast_relid d) (td_blkno d) (td_offnum d) 0 0 (Mem []) (td_lsn d).

Definition with_body (c : ToastChunk) (b : Body) : ToastRow :=
  MkToastRow (ck_db_oid c) (ck_toast_relid c) (ck_blkno c) (ck_offnum c) (value_id c) (chunk_seq c) b (ck_lsn c).

Definition is_tombstone (r : ToastRow) : bool := chunk_id r =? 0.

Definition CHUNK_REF_META : Z := 64.

Record Limits := MkLimits { collect_rows : bool; body_mem_max : Z; index_mem_max : Z }.

(** The part of [MergedDrain] the folds write. *)
Record Folded := MkFolded
  { chunks : ChunkRefMap; rows : list ToastRow; spool : option BodySpoolWriter; mem_body_bytes : Z; index_meta_bytes : Z }.

Definition nothing : Folded := MkFolded ∅ [] None 0 0.

Inductive FoldError :=
| ToastIndexOverflow (bytes max : Z)
| FoldToast (e : ToastError).

Definition reserve_meta (l : Limits) (f : Folded) (n : Z) : result FoldError Folded :=
  if index_mem_max l <? index_meta_bytes f + n then Err (ToastIndexOverflow (index_meta_bytes f + n) (index_mem_max l))
  else Ok (MkFolded (chunks f) (rows f) (spool f) (mem_body_bytes f) (index_meta_bytes f + n)).

Definition fold_body (l : Limits) (f : Folded) (data : list Z) : result FoldError (Folded * Body) :=
  let spool_to s :=
    match append s data with
    | Ok (s, r) => Ok (MkFolded (chunks f) (rows f) (Some s) (mem_body_bytes f) (index_meta_bytes f), File r)
    | Err e => Err (FoldToast e)
    end in
  match spool f with
  | Some s => spool_to s
  | None =>
      if mem_body_bytes f + zlen data <=? body_mem_max l
      then Ok (MkFolded (chunks f) (rows f) None (mem_body_bytes f + zlen data) (index_meta_bytes f), Mem data)
      else spool_to create
  end.

Definition fold_chunk (l : Limits) (f : Folded) (c : ToastChunk) : result FoldError Folded :=
  let collect_row := collect_rows l && negb (ck_offnum c =? 0) in
  let? f := reserve_meta l f (CHUNK_REF_META * (1 + if collect_row then 1 else 0)) in
  let? fb := fold_body l f (chunk_data c) in
  let f := fb.1 in
  let key := (ck_toast_relid c, value_id c) in
  let v := match chunks f !! key with Some v => push v (chunk_seq c) fb.2 | None => new (chunk_seq c) fb.2 end in
  Ok (MkFolded (<[key := v]> (chunks f)) (if collect_row then rows f ++ [with_body c fb.2] else rows f)
        (spool f) (mem_body_bytes f) (index_meta_bytes f)).

Definition fold_delete (l : Limits) (f : Folded) (d : ToastDelete) : result FoldError Folded :=
  if negb (collect_rows l) then Ok f
  else
    let? f := reserve_meta l f CHUNK_REF_META in
    Ok (MkFolded (chunks f) (rows f ++ [tombstone d]) (spool f) (mem_body_bytes f) (index_meta_bytes f)).

(** What one stashed record of a TOAST relation does, and the loop that folds it. *)
Inductive StashedToastOp := OpChunk (c : ToastChunk) | OpDelete (d : ToastDelete).

Definition fold_op (l : Limits) (f : Folded) (o : StashedToastOp) : result FoldError Folded :=
  match o with OpChunk c => fold_chunk l f c | OpDelete d => fold_delete l f d end.

Fixpoint fold_ops (l : Limits) (f : Folded) (ops : list StashedToastOp) : result FoldError Folded :=
  match ops with [] => Ok f | o :: ops => let? f := fold_op l f o in fold_ops l f ops end.

(** [take_chunks]: the sealed generation, with the spool file flushed. *)
Definition take_chunks (f : Folded) : Folded * ChunkRefMap :=
  (MkFolded ∅ (rows f) (flush <$> spool f) (mem_body_bytes f) (index_meta_bytes f), chunks f).

Definition take_rows (f : Folded) : Folded * list ToastRow :=
  (MkFolded (chunks f) [] (spool f) (mem_body_bytes f) (index_meta_bytes f), rows f).

(** What readers of the spool see. *)
Definition spool_file (f : Folded) : option (list Z) := spooled <$> spool f.

End ToastRef.
