(* ===== verification/ToastRefProofs.v ===== *)
(** * Collected TOAST chunks reassemble

    What a commit drain collects from a run of chunks and deletes: every value
    reassembles from its references to the concatenation of its chunks in
    sequence order, wherever each body was kept, and every collected row loads
    the bytes it was written with. *)
From S2P Require Import Prelude WalRecord AsciiBuf Numeric HeapDecode Wire DescCodec Spill ToastRef.
Import WalRecord Schema HeapDecode Spill ToastRef.

Module ToastRefProofs.

(** ** References against the spool *)
Definition body_in (sp : option (list Z)) (b : Body) : Prop :=
  match b with
  | Mem _ => True
  | File r => exists f, sp = Some f /\ 0 <= offset r /\ 0 <= len r /\ offset r + len r <= zlen f
  end.

Definition body_of (sp : option (list Z)) (b : Body) : list Z :=
  match b with Mem b => b | File r => sub (default [] sp) (offset r) (offset r + len r) end.

Lemma load_body sp b : body_in sp b -> load sp b = Ok (body_of sp b).
Proof.
  destruct b as [b|r]; [done|]. intros (f & -> & H0 & H1 & H2). cbn. unfold read_at. by rewrite (proj2 (Z.leb_le _ _) H2).
Qed.

Lemma body_of_len sp b : body_in sp b -> zlen (body_of sp b) = body_len b.
Proof. destruct b as [b|r]; [done|]. intros (f & -> & H0 & H1 & H2). cbn. rewrite zlen_sub by lia. lia. Qed.

(** The spool only grows. *)
Definition grows (sp sp' : option (list Z)) : Prop :=
  match sp with None => True | Some f => exists x, sp' = Some (f ++ x) end.

Lemma body_grow sp sp' b : grows sp sp' -> body_in sp b -> body_in sp' b /\ body_of sp' b = body_of sp b.
Proof.
  destruct b as [b|r]; [done|]. intros Hg (f & -> & H0 & H1 & H2). destruct Hg as [x ->]. split.
  - exists (f ++ x). rewrite zlen_app. pose proof (zlen_nonneg x). repeat split; lia.
  - cbn. by rewrite sub_app_l by lia.
Qed.

(** ** References to one value

    [m] holds the value's chunks by sequence number, [bs] those of the run. *)
Record rep (sp : option (list Z)) (v : ValueRef) (m : gmap Z (list Z)) (bs : list (list Z)) : Prop := MkRep
  { rep_count : run_chunks v = zlen bs;
    rep_front : forall s, 0 <= s < run_chunks v -> m !! s = bs !! Z.to_nat s;
    rep_run : bs = [] /\ run v = MkBodyRef 0 0 \/ body_in sp (File (run v)) /\ body_of sp (File (run v)) = concat bs;
    rep_sorted : StronglySorted Z.lt (map fst (tail v));
    rep_tail : forall s b, btree_get s (tail v) = Some b -> m !! s = Some (body_of sp b) /\ body_in sp b;
    rep_all : forall s b, m !! s = Some b -> 0 <= s /\ (s < run_chunks v \/ is_Some (btree_get s (tail v))) }.

Lemma rep_len sp v m bs : rep sp v m bs -> len (run v) = zlen (concat bs).
Proof.
  intros [_ _ [[-> ->]|[Hin Hb]] _ _ _]; [done|]. rewrite <-Hb, body_of_len; done.
Qed.

Lemma rep_grow sp sp' v m bs : grows sp sp' -> rep sp v m bs -> rep sp' v m bs.
Proof.
  intros Hg [H1 H2 H3 H4 H5 H6]. split; try done.
  - destruct H3 as [?|[Hin Hb]]; [by left|right]. by destruct (body_grow _ _ _ Hg Hin) as [? ->].
  - intros s b Hs. destruct (H5 s b Hs) as [Hm Hin]. by destruct (body_grow _ _ _ Hg Hin) as [? ->].
Qed.

Lemma rep_empty sp : rep sp (MkRef (MkBodyRef 0 0) 0 []) ∅ [].
Proof. split; try done; [by left|constructor]. Qed.

(** A chunk set aside. *)
Lemma rep_aside sp v m bs seq b : rep sp v m bs -> 0 <= seq -> body_in sp b -> (m !! seq = None \/ m !! seq = Some (body_of sp b)) ->
  rep sp (MkRef (run v) (run_chunks v) (btree_insert seq b (tail v))) (<[seq := body_of sp b]> m) bs.
Proof.
  intros [H1 H2 H3 H4 H5 H6] Hs Hb Hm. split; cbn [run run_chunks tail]; try done.
  - intros s Hlt. destruct (decide (s = seq)) as [->|]; [|rewrite lookup_insert_ne by done; by apply H2].
    rewrite lookup_insert_eq, <-(H2 seq Hlt). destruct Hm as [E| ->]; [|done].
    rewrite (H2 seq Hlt) in E. apply lookup_ge_None in E. unfold zlen in *. lia.
  - by apply btree_insert_keys.
  - intros s b'. rewrite btree_get_insert. destruct (Z.eqb_spec s seq) as [->|Hne]; [intros [= <-]; by rewrite lookup_insert_eq|].
    rewrite lookup_insert_ne by done. apply H5.
  - intros s b'. rewrite btree_get_insert. destruct (Z.eqb_spec s seq) as [->|Hne]; [intros _; split; [done|right; by eexists]|].
    rewrite lookup_insert_ne by done. apply H6.
Qed.

(** A chunk that extends the run. *)
Lemma rep_extend sp v m bs r : rep sp v m bs -> tail v = [] -> body_in sp (File r) -> run_chunks v + 1 < 2 ^ 32 ->
  (run_chunks v = 0 \/ offset r = offset (run v) + len (run v)) -> len (run v) + len r < 2 ^ 32 ->
  rep sp (MkRef (if run_chunks v =? 0 then r else MkBodyRef (offset (run v)) (uadd 32 (len (run v)) (len r))) (uadd 32 (run_chunks v) 1) (tail v))
    (<[run_chunks v := body_of sp (File r)]> m) (bs ++ [body_of sp (File r)]).
Proof.
  intros Hr Ht Hb Hc Ho Hl. pose proof (rep_len _ _ _ _ Hr) as Hlen. destruct Hr as [H1 H2 H3 H4 H5 H6].
  pose proof (zlen_nonneg bs). pose proof (zlen_nonneg (concat bs)). rewrite Ht in *.
  rewrite (uadd_small 32 (run_chunks v)) by (unfold fits; lia).
  assert (0 <= len r) by (destruct Hb as (f & _ & ? & ? & ?); done).
  split; cbn [run run_chunks tail].
  - rewrite zlen_app. change (zlen [_]) with 1. lia.
  - intros s Hs. destruct (decide (s = run_chunks v)) as [->|].
    + rewrite lookup_insert_eq, lookup_app_r by (unfold zlen in *; lia). rewrite H1. unfold zlen. by rewrite Nat2Z.id, Nat.sub_diag.
    + rewrite lookup_insert_ne by done. rewrite lookup_app_l by (unfold zlen in *; lia). apply H2. lia.
  - right. destruct (Z.eqb_spec (run_chunks v) 0) as [E|E].
    + assert (bs = []) as -> by (destruct bs; [done|]; rewrite zlen_cons in H1; pose proof (zlen_nonneg bs); lia).
      split; [done|]. cbn [app concat]. by rewrite app_nil_r.
    + destruct H3 as [[-> _]|[Hin Hbs]]; [change (zlen []) with 0 in H1; lia|]. destruct Ho as [?|Ho]; [lia|].
      rewrite uadd_small by (unfold fits; lia). destruct Hin as (f & -> & I1 & I2 & I3), Hb as (f' & [= <-] & J1 & J2 & J3).
      split; [exists f; cbn [offset len]; repeat split; lia|]. rewrite concat_app. cbn [concat]. rewrite app_nil_r, <-Hbs. cbn [body_of default offset len].
      rewrite Ho. unfold sub. rewrite <-(ztake_zdrop_id (len (run v)) (ztake _ (zdrop (offset (run v)) f))). f_equal.
      * rewrite ztake_ztake. f_equal. lia.
      * rewrite (Z.add_comm (offset (run v)) (len (run v))), <-zdrop_zdrop by lia. unfold ztake, zdrop. rewrite skipn_firstn_comm. f_equal. lia.
  - constructor.
  - done.
  - intros s b. destruct (decide (s = run_chunks v)) as [->|]; [intros _; split; [|left]; lia|].
    rewrite lookup_insert_ne by done. intros Hs. destruct (H6 s b Hs) as [? [?|[? ?]]]; [split; [|left]; lia|done].
Qed.

Lemma rep_push sp v m bs seq b : rep sp v m bs -> 0 <= seq < 2 ^ 31 -> body_in sp b -> (m !! seq = None \/ m !! seq = Some (body_of sp b)) ->
  len (run v) + body_len b < 2 ^ 32 ->
  exists bs', rep sp (push v seq b) (<[seq := body_of sp b]> m) bs' /\ zlen (concat bs') <= zlen (concat bs) + body_len b.
Proof.
  intros Hr Hs Hb Hm Hl. assert (0 <= body_len b) by (rewrite <-(body_of_len sp) by done; apply zlen_nonneg).
  assert (exists bs', rep sp (MkRef (run v) (run_chunks v) (btree_insert seq b (tail v))) (<[seq := body_of sp b]> m) bs' /\
    zlen (concat bs') <= zlen (concat bs) + body_len b) as Haside by (exists bs; split; [apply rep_aside; auto; lia|lia]).
  destruct b as [b|r]; [done|]. unfold push. destruct (bool_decide (tail v = [])) eqn:Et; [|done]. apply bool_decide_eq_true in Et.
  destruct (Z.eqb_spec seq (run_chunks v)) as [->|]; [|done]. cbn [andb].
  destruct ((run_chunks v =? 0) || (offset r =? offset (run v) + len (run v))) eqn:Eo; [|done].
  eexists. split; [apply rep_extend; [done|done|done|lia| |done]|].
  - apply orb_true_iff in Eo as [?%Z.eqb_eq|?%Z.eqb_eq]; auto.
  - rewrite concat_app, zlen_app. cbn [concat]. rewrite app_nil_r, body_of_len by done. lia.
Qed.

(** ** Reassembly *)
Lemma dense_at n l : dense n l = true -> forall i kb, l !! i = Some kb -> kb.1 = n + Z.of_nat i.
Proof.
  revert n. induction l as [|[s b] l IH]; intros n Hd i kb Hi; [done|]. cbn [dense] in Hd. apply andb_true_iff in Hd as [->%Z.eqb_eq Hd].
  destruct i as [|i]; [injection Hi as <-; cbn; lia|]. rewrite (IH _ Hd i kb Hi). lia.
Qed.

Lemma sorted_dense n (l : list (Z * Body)) : StronglySorted Z.lt (map fst l) -> (forall k, k ∈ map fst l -> n <= k) ->
  (forall k j, k ∈ map fst l -> n <= j < k -> j ∈ map fst l) -> dense n l = true.
Proof.
  revert n. induction l as [|[s b] l IH]; intros n Hs Hge Hdown; [done|]. cbn [map fst dense] in *.
  apply StronglySorted_inv in Hs as [Hs HF]. rewrite Forall_elem in HF.
  assert (s = n) as ->.
  { pose proof (Hge s ltac:(set_solver)). destruct (decide (s = n)); [done|].
    pose proof (Hdown s n ltac:(set_solver) ltac:(lia)) as Hn. rewrite elem_of_cons in Hn. destruct Hn as [?|Hn]; [done|]. specialize (HF n Hn). lia. }
  rewrite Z.eqb_refl. cbn [andb]. apply IH; [done| |].
  - intros k Hk. specialize (HF k Hk). lia.
  - intros k j Hk Hj. pose proof (Hdown k j ltac:(set_solver) ltac:(lia)) as Hin. rewrite elem_of_cons in Hin. destruct Hin as [->|]; [lia|done].
Qed.

Lemma filter_keys_sorted {A} (P : Z * A -> Prop) `{!forall x, Decision (P x)} (l : list (Z * A)) :
  StronglySorted Z.lt (map fst l) -> StronglySorted Z.lt (map fst (filter P l)).
Proof.
  induction l as [|x l IH]; cbn [map]; intros Hs; [constructor|]. apply StronglySorted_inv in Hs as [Hs HF].
  rewrite filter_cons. destruct (decide (P x)); [|by apply IH]. cbn [map]. constructor; [by apply IH|].
  rewrite Forall_elem in *. intros k (y & -> & Hy)%list_elem_of_fmap. apply HF, list_elem_of_fmap. exists y. split; [done|].
  by apply list_elem_of_filter in Hy as [_ Hy].
Qed.

Lemma beyond_elem v s b : StronglySorted Z.lt (map fst (tail v)) -> (s, b) ∈ beyond v <-> run_chunks v <= s /\ btree_get s (tail v) = Some b.
Proof. intros Hs. unfold beyond. rewrite list_elem_of_filter, (btree_get_elem s _ Hs b). done. Qed.

(** The chunks a value's references stand for. *)
Definition pieces (sp : option (list Z)) (v : ValueRef) (bs : list (list Z)) : list (list Z) :=
  bs ++ map (fun kb => body_of sp kb.2) (beyond v).

Lemma dense_pieces sp v m bs : rep sp v m bs -> dense (run_chunks v) (beyond v) = true -> m = map_seqZ 0 (pieces sp v bs).
Proof.
  intros [H1 H2 H3 H4 H5 H6] Hd. apply map_eq. intros s. destruct (decide (0 <= s)) as [Hs|Hs].
  2:{ rewrite (proj2 (lookup_map_seqZ_None _ _ _)) by lia. destruct (m !! s) eqn:E; [|done]. by destruct (H6 s _ E). }
  rewrite lookup_map_seqZ_0 by done. unfold pieces. destruct (decide (s < run_chunks v)) as [Hlt|Hge].
  { rewrite H2 by lia. by rewrite lookup_app_l by (unfold zlen in *; lia). }
  rewrite lookup_app_r by (unfold zlen in *; lia). rewrite list_lookup_fmap.
  destruct (beyond v !! (Z.to_nat s - length bs)%nat) as [[k b]|] eqn:E; cbn [fmap option_fmap option_map snd].
  - pose proof (dense_at _ _ Hd _ _ E) as Hk. cbn in Hk. apply list_elem_of_lookup_2, beyond_elem in E as [_ E]; [|done].
    assert (k = s) as -> by (unfold zlen in *; lia). apply (H5 s b E).
  - destruct (m !! s) as [x|] eqn:Em; [|done]. destruct (H6 s x Em) as [_ [?|[b Hb]]]; [lia|].
    assert ((s, b) ∈ beyond v) as [i Hi]%list_elem_of_lookup by (apply beyond_elem; [done|]; split; [lia|done]).
    pose proof (dense_at _ _ Hd _ _ Hi) as Hk. cbn in Hk. replace (Z.to_nat s - length bs)%nat with i in E by (unfold zlen in *; lia). congruence.
Qed.

Lemma pieces_dense sp v m bs cs : rep sp v m bs -> m = map_seqZ 0 cs -> dense (run_chunks v) (beyond v) = true.
Proof.
  intros [H1 H2 H3 H4 H5 H6] ->.
  assert (forall s, s ∈ map fst (beyond v) <-> run_chunks v <= s /\ is_Some (btree_get s (tail v))) as Hk.
  { intros s. rewrite list_elem_of_fmap. split.
    - intros ([k b] & -> & [? ?]%beyond_elem); [|done]. split; [done|by eexists].
    - intros [? [b ?]]. exists (s, b). split; [done|]. by apply beyond_elem. }
  apply sorted_dense; [by apply filter_keys_sorted| |].
  - intros k Hin. by apply Hk in Hin as [? _].
  - intros k j [Hge [b Hb]]%Hk Hj. apply Hk. split; [lia|]. destruct (H5 k b Hb) as [Hm _].
    pose proof (zlen_nonneg bs). apply lookup_map_seqZ_Some in Hm as [_ Hm]. apply lookup_lt_Some in Hm.
    destruct (lookup_lt_is_Some_2 cs (Z.to_nat j)) as [x Hx]; [lia|].
    assert ((map_seqZ 0 cs : gmap Z (list Z)) !! j = Some x) as Hj' by (rewrite lookup_map_seqZ_0 by lia; done).
    destruct (H6 j x Hj') as [_ [?|?]]; [lia|done].
Qed.

Lemma seqZ_inj (xs ys : list (list Z)) : map_seqZ (M := gmap Z (list Z)) 0 xs = map_seqZ 0 ys -> xs = ys.
Proof.
  intros E. apply list_eq. intros i. pose proof (lookup_map_seqZ_0 (M := gmap Z) xs (Z.of_nat i) ltac:(lia)) as H1.
  pose proof (lookup_map_seqZ_0 (M := gmap Z) ys (Z.of_nat i) ltac:(lia)) as H2. rewrite E, Nat2Z.id in *. congruence.
Qed.

Lemma load_pieces sp l : (forall kb, kb ∈ l -> body_in sp kb.2) ->
  load_all sp l = Ok (concat (map (fun kb => body_of sp kb.2) l)) /\
  forall t, fold_left (fun t kb => t + body_len kb.2) l t = t + zlen (concat (map (fun kb => body_of sp kb.2) l)).
Proof.
  induction l as [|[s b] l IH]; intros H; [split; [done|]; intros t; cbn; change (zlen []) with 0; lia|].
  destruct IH as [IH1 IH2]; [set_solver|]. assert (body_in sp b) as Hb by (apply (H (s, b)); set_solver). split.
  - cbn [load_all map concat snd]. by rewrite (load_body sp b Hb), IH1.
  - intros t. cbn [fold_left map concat snd]. rewrite IH2, zlen_app, body_of_len by done. lia.
Qed.

Section Reassembly.
Context `{Decompress}.

(** What a covered value gives. *)
Definition assembled (p : ToastPointer) (b : list Z) : result ToastError Reassembled :=
  if zlen b =? pointer_extsize p then let? raw := finish_value p b in Ok (Bytes raw)
  else Ok (SizeMismatch (zlen b) (pointer_extsize p)).

Lemma rep_reassemble p sp v m bs : rep sp v m bs ->
  (forall cs, m = map_seqZ 0 cs -> reassemble_value_ref p sp v = assembled p (concat cs)) /\
  ((forall cs, m <> map_seqZ 0 cs) -> reassemble_value_ref p sp v = Ok Missing).
Proof.
  intros Hr. unfold reassemble_value_ref. split.
  - intros cs Hm. rewrite (pieces_dense _ _ _ _ _ Hr Hm). cbn [negb].
    pose proof (dense_pieces _ _ _ _ Hr (pieces_dense _ _ _ _ _ Hr Hm)) as Hp. rewrite Hm in Hp. apply seqZ_inj in Hp as ->.
    destruct (load_pieces sp (beyond v)) as [Hload Htot].
    { intros [s b] [_ Hb]%beyond_elem; [|apply Hr]. by apply (rep_tail _ _ _ _ Hr) in Hb as [_ Hb]. }
    unfold total_len, assembled, pieces. rewrite Htot, (rep_len _ _ _ _ Hr), concat_app, zlen_app.
    destruct (_ =? pointer_extsize p); cbn [negb]; [|done]. rewrite Hload.
    destruct (Z.ltb_spec 0 (zlen (concat bs))) as [Hpos|Hz].
    + destruct (rep_run _ _ _ _ Hr) as [[-> _]|[Hin Hb]]; [done|]. by rewrite (load_body sp _ Hin), Hb.
    + pose proof (zlen_nonneg (concat bs)). replace (concat bs) with (@nil Z); [done|]. destruct (concat bs); [done|].
      rewrite zlen_cons in *. pose proof (zlen_nonneg l). lia.
  - intros Hno. destruct (dense (run_chunks v) (beyond v)) eqn:Hd; [|done]. exfalso. eapply Hno, dense_pieces; done.
Qed.

End Reassembly.

(** ** Folding chunks and deletes *)
Definition chunks_of (ops : list StashedToastOp) : list ToastChunk := omap (fun o => match o with OpChunk c => Some c | _ => None end) ops.

Definition key (c : ToastChunk) : Z * Z := (ck_toast_relid c, value_id c).

Definition mine (k : Z * Z) (cs : list ToastChunk) : list ToastChunk := filter (fun c => key c = k) cs.

Definition values (cs : list ToastChunk) : gmap Z (list Z) := fold_left (fun m c => <[chunk_seq c := chunk_data c]> m) cs ∅.

Definition weight (cs : list ToastChunk) : Z := zlen (concat (map chunk_data cs)).

(** A chunk row is never rewritten, and a value stays under 4 GiB. *)
Record chunks_wf (cs : list ToastChunk) : Prop := MkWf
  { wf_seq : forall c, c ∈ cs -> 0 <= chunk_seq c < 2 ^ 31;
    wf_same : forall c c', c ∈ cs -> c' ∈ cs -> key c = key c' -> chunk_seq c = chunk_seq c' -> chunk_data c = chunk_data c';
    wf_weight : forall k, weight (mine k cs) < 2 ^ 32 }.

(** Metadata an operation reserves. *)
Definition need (l : Limits) (o : StashedToastOp) : Z :=
  match o with
  | OpChunk c => CHUNK_REF_META * (1 + if collect_rows l && negb (ck_offnum c =? 0) then 1 else 0)
  | OpDelete _ => if collect_rows l then CHUNK_REF_META else 0
  end.

Definition needs (l : Limits) (ops : list StashedToastOp) : Z := fold_right (fun o n => need l o + n) 0 ops.

(** The operations that leave a row. *)
Definition births (l : Limits) (ops : list StashedToastOp) : list StashedToastOp :=
  filter (fun o => match o with OpChunk c => collect_rows l && negb (ck_offnum c =? 0) | OpDelete _ => collect_rows l end = true) ops.

Definition row_is (sp : option (list Z)) (r : ToastRow) (o : StashedToastOp) : Prop :=
  match o with
  | OpChunk c => r = with_body c (r_body r) /\ load sp (r_body r) = Ok (chunk_data c)
  | OpDelete d => r = tombstone d
  end.

(** ** The folds keep what they collected readable *)
Definition content (f : Folded) : option (list Z) := (fun s => spooled s ++ sbuf s) <$> spool f.

Definition spool_ok (f : Folded) : Prop := forall s, spool f = Some s -> slen s = zlen (spooled s ++ sbuf s).

Lemma append_spec s data : slen s = zlen (spooled s ++ sbuf s) -> zlen data < 2 ^ 32 ->
  exists s', append s data = Ok (s', MkBodyRef (zlen (spooled s ++ sbuf s)) (zlen data)) /\
    spooled s' ++ sbuf s' = (spooled s ++ sbuf s) ++ data /\ slen s' = zlen (spooled s' ++ sbuf s').
Proof.
  intros Hs Hd. unfold append. rewrite (proj2 (Z.leb_gt _ _) Hd). eexists. split; [by rewrite <-Hs|].
  destruct (IO_CHUNK <=? _); cbn [flush spooled sbuf slen]; rewrite ?app_nil_r, <-?app_assoc; (split; [done|]); rewrite ?app_assoc, zlen_app; lia.
Qed.

Lemma spooled_body sp s' data : spooled s' ++ sbuf s' = sp ++ data ->
  body_in (Some (spooled s' ++ sbuf s')) (File (MkBodyRef (zlen sp) (zlen data))) /\
  body_of (Some (spooled s' ++ sbuf s')) (File (MkBodyRef (zlen sp) (zlen data))) = data.
Proof.
  intros ->. pose proof (zlen_nonneg sp). pose proof (zlen_nonneg data). split.
  - eexists. split; [done|]. cbn [offset len]. rewrite zlen_app. lia.
  - change (sub (sp ++ data) (zlen sp) (zlen sp + zlen data) = data). rewrite sub_skip by lia. apply sub_all; lia.
Qed.

Lemma fold_body_spec l f data : spool_ok f -> zlen data < 2 ^ 32 -> exists f' b, fold_body l f data = Ok (f', b) /\
  spool_ok f' /\ grows (content f) (content f') /\ body_in (content f') b /\ body_of (content f') b = data /\
  chunks f' = chunks f /\ rows f' = rows f /\ index_meta_bytes f' = index_meta_bytes f.
Proof.
  intros Hok Hd. unfold fold_body.
  assert (forall s, slen s = zlen (spooled s ++ sbuf s) -> grows (content f) (Some (spooled s ++ sbuf s)) ->
    exists f' b, match append s data with
      | Ok (s, r) => Ok (MkFolded (chunks f) (rows f) (Some s) (mem_body_bytes f) (index_meta_bytes f), File r)
      | Err e => Err (FoldToast e)
      end = Ok (f', b) /\ spool_ok f' /\ grows (content f) (content f') /\ body_in (content f') b /\ body_of (content f') b = data /\
      chunks f' = chunks f /\ rows f' = rows f /\ index_meta_bytes f' = index_meta_bytes f) as Hspool.
  { intros s Hs Hg. destruct (append_spec s data Hs Hd) as (s' & -> & Ec & Hs'). do 2 eexists. split; [done|].
    destruct (spooled_body _ _ _ Ec). repeat split; try done; [by intros ? [= <-]|].
    unfold content at 2. cbn [spool fmap option_fmap option_map]. unfold grows in *. destruct (content f) as [c|]; [|done]. destruct Hg as [x Hg].
    injection Hg as Hg. exists (x ++ data). by rewrite Ec, Hg, app_assoc. }
  destruct (spool f) as [s|] eqn:Es.
  - apply Hspool; [by apply Hok|]. unfold content. rewrite Es. exists []. by rewrite app_nil_r.
  - destruct (_ <=? _); [|apply Hspool; [done|unfold content; by rewrite Es]].
    do 2 eexists. split; [done|]. unfold content. rewrite Es. by repeat split.
Qed.

(** [row_is], with the body inside the spool. *)
Definition row_in (sp : option (list Z)) (r : ToastRow) (o : StashedToastOp) : Prop :=
  match o with
  | OpChunk c => r = with_body c (r_body r) /\ body_in sp (r_body r) /\ body_of sp (r_body r) = chunk_data c
  | OpDelete d => r = tombstone d
  end.

Record collected (l : Limits) (f0 f : Folded) (ops : list StashedToastOp) : Prop := MkCollected
  { col_spool : spool_ok f;
    col_chunks : forall k, match chunks f !! k with
                           | None => mine k (chunks_of ops) = []
                           | Some v => mine k (chunks_of ops) <> [] /\
                               exists bs, rep (content f) v (values (mine k (chunks_of ops))) bs /\ zlen (concat bs) <= weight (mine k (chunks_of ops))
                           end;
    col_rows : exists rs, rows f = rows f0 ++ rs /\ Forall2 (row_in (content f)) rs (births l ops);
    col_meta : index_meta_bytes f = index_meta_bytes f0 + needs l ops }.

Lemma rows_grow sp sp' rs os : grows sp sp' -> Forall2 (row_in sp) rs os -> Forall2 (row_in sp') rs os.
Proof.
  intros Hg. apply Forall2_impl. intros r [c|d]; [|done]. intros (Er & Hin & Hb).
  destruct (body_grow _ _ _ Hg Hin) as [? E]. cbn [row_in]. rewrite E. done.
Qed.

Lemma chunks_of_app a b : chunks_of (a ++ b) = chunks_of a ++ chunks_of b.
Proof. apply omap_app. Qed.

Lemma needs_app l a b : needs l (a ++ b) = needs l a + needs l b.
Proof. induction a as [|o a IH]; cbn [app needs fold_right]; [done|]. fold (needs l (a ++ b)). fold (needs l a). lia. Qed.

Lemma mine_app k a b : mine k (a ++ b) = mine k a ++ mine k b.
Proof. apply list.filter_app. Qed.

Lemma values_snoc cs c : values (cs ++ [c]) = <[chunk_seq c := chunk_data c]> (values cs).
Proof. unfold values. by rewrite fold_left_app. Qed.

Lemma weight_snoc cs c : weight (cs ++ [c]) = weight cs + zlen (chunk_data c).
Proof. unfold weight. rewrite map_app, concat_app, zlen_app. cbn [map concat]. by rewrite app_nil_r. Qed.

Lemma values_lookup cs s b : values cs !! s = Some b -> exists c, c ∈ cs /\ chunk_seq c = s /\ chunk_data c = b.
Proof.
  induction cs as [|c cs IH] using rev_ind; [done|]. rewrite values_snoc. destruct (decide (chunk_seq c = s)) as [<-|].
  - rewrite lookup_insert_eq. intros [= <-]. exists c. set_solver.
  - rewrite lookup_insert_ne by done. intros (c' & ? & ? & ?)%IH. exists c'. set_solver.
Qed.

Lemma wf_data cs c : chunks_wf cs -> c ∈ cs -> zlen (chunk_data c) < 2 ^ 32.
Proof.
  intros Hwf Hc. apply (Z.le_lt_trans _ (weight (mine (key c) cs))); [|apply Hwf].
  assert (c ∈ mine (key c) cs) as Hin by (apply list_elem_of_filter; done). clear -Hin.
  induction (mine (key c) cs) as [|x l IH]; [set_solver|]. unfold weight in *. cbn [map concat]. rewrite zlen_app.
  pose proof (zlen_nonneg (concat (map chunk_data l))). pose proof (zlen_nonneg (chunk_data x)).
  apply elem_of_cons in Hin as [->|Hin]; [lia|]. specialize (IH Hin). lia.
Qed.

(** One more chunk of the value [key c]. *)
Lemma rep_chunk sp sp' v cs c b bs : grows sp sp' -> rep sp v (values (mine (key c) cs)) bs -> chunks_wf (cs ++ [c]) ->
  zlen (concat bs) <= weight (mine (key c) cs) -> body_in sp' b -> body_of sp' b = chunk_data c ->
  exists bs', rep sp' (push v (chunk_seq c) b) (values (mine (key c) (cs ++ [c]))) bs' /\
    zlen (concat bs') <= weight (mine (key c) (cs ++ [c])).
Proof.
  intros Hg Hr Hwf Hw Hin Hb. pose proof (rep_len _ _ _ _ Hr) as Hl.
  assert (mine (key c) (cs ++ [c]) = mine (key c) cs ++ [c]) as Em.
  { rewrite mine_app. f_equal. unfold mine. rewrite filter_cons, decide_True by done. by rewrite filter_nil. }
  pose proof (wf_weight _ Hwf (key c)) as Hw2. rewrite Em, values_snoc, weight_snoc in *.
  assert (body_len b = zlen (chunk_data c)) as Eb by (rewrite <-Hb; symmetry; by apply body_of_len).
  destruct (rep_push sp' v (values (mine (key c) cs)) bs (chunk_seq c) b) as (bs' & Hr' & Hle).
  - by eapply rep_grow.
  - apply (wf_seq _ Hwf). set_solver.
  - done.
  - destruct (values (mine (key c) cs) !! chunk_seq c) as [d|] eqn:E; [right|by left].
    apply values_lookup in E as (c' & [Hk Hc']%list_elem_of_filter & Hs & <-). rewrite Hb. f_equal.
    apply (wf_same _ Hwf); [set_solver|set_solver|done|done].
  - lia.
  - exists bs'. rewrite Hb in Hr'. split; [done|lia].
Qed.

Lemma collect_chunk l f0 f ops c : collected l f0 f ops -> chunks_wf (chunks_of ops ++ [c]) ->
  match fold_chunk l f c with
  | Ok f' => index_meta_bytes f + need l (OpChunk c) <= index_mem_max l /\ collected l f0 f' (ops ++ [OpChunk c])
  | Err e => e = ToastIndexOverflow (index_meta_bytes f + need l (OpChunk c)) (index_mem_max l) /\
             index_mem_max l < index_meta_bytes f + need l (OpChunk c)
  end.
Proof.
  intros [Hsp Hch (rs & Hrs & Hrows) Hmeta] Hwf. unfold fold_chunk, reserve_meta. fold (need l (OpChunk c)).
  destruct (Z.ltb_spec (index_mem_max l) (index_meta_bytes f + need l (OpChunk c))) as [Hlt|Hge]; [done|].
  set (f1 := MkFolded _ _ _ _ _).
  destruct (fold_body_spec l f1 (chunk_data c)) as (f2 & b & -> & Hsp2 & Hg & Hin & Hb & E1 & E2 & E3).
  { done. } { eapply wf_data; [done|set_solver]. }
  split; [lia|]. cbn [fst snd]. split; cbn [chunks rows index_meta_bytes spool].
  - done.
  - intros k. change (content (MkFolded _ _ (spool f2) _ _)) with (content f2). rewrite E1, chunks_of_app. cbn [chunks f1].
    change (chunks_of [OpChunk c]) with [c]. change (ck_toast_relid c, value_id c) with (key c).
    destruct (decide (k = key c)) as [->|Hne].
    + rewrite lookup_insert_eq. split.
      { rewrite mine_app. unfold mine at 2. rewrite filter_cons, decide_True by done. by intros [_ ?]%app_eq_nil. }
      specialize (Hch (key c)). destruct (chunks f !! key c) as [v|].
      * destruct Hch as (_ & bs & Hr & Hw). by eapply rep_chunk.
      * apply (rep_chunk None _ _ (chunks_of ops) c b []); [done|rewrite Hch; apply rep_empty|done|apply zlen_nonneg|done|done].
    + rewrite lookup_insert_ne by done. assert (mine k (chunks_of ops ++ [c]) = mine k (chunks_of ops)) as ->.
      { rewrite mine_app. unfold mine at 2. rewrite filter_cons, decide_False by congruence. by rewrite filter_nil, app_nil_r. }
      specialize (Hch k). destruct (chunks f !! k) as [v|]; [|done]. destruct Hch as (? & bs & Hr & Hw). split; [done|].
      exists bs. split; [|done]. by eapply rep_grow.
  - change (content (MkFolded _ _ (spool f2) _ _)) with (content f2). rewrite E2. cbn [rows f1].
    assert (births l (ops ++ [OpChunk c]) = births l ops ++ births l [OpChunk c]) as -> by apply list.filter_app.
    unfold births at 2. rewrite filter_cons, filter_nil. apply (rows_grow _ _ _ _ Hg) in Hrows.
    destruct (collect_rows l && negb (ck_offnum c =? 0)) eqn:Ecol.
    + rewrite decide_True by done. exists (rs ++ [with_body c b]). rewrite Hrs, app_assoc. split; [done|].
      apply Forall2_app; [done|]. repeat constructor; done.
    + rewrite decide_False by done. exists rs. by rewrite app_nil_r.
  - rewrite E3, needs_app. cbn [f1 index_meta_bytes needs fold_right]. lia.
Qed.

Lemma collect_delete l f0 f ops d : collected l f0 f ops ->
  match fold_delete l f d with
  | Ok f' => (need l (OpDelete d) = 0 \/ index_meta_bytes f + need l (OpDelete d) <= index_mem_max l) /\ collected l f0 f' (ops ++ [OpDelete d])
  | Err e => e = ToastIndexOverflow (index_meta_bytes f + need l (OpDelete d)) (index_mem_max l) /\
             index_mem_max l < index_meta_bytes f + need l (OpDelete d)
  end.
Proof.
  intros [Hsp Hch (rs & Hrs & Hrows) Hmeta]. unfold fold_delete, reserve_meta, need.
  assert (births l (ops ++ [OpDelete d]) = births l ops ++ births l [OpDelete d]) as Hbi by apply list.filter_app.
  assert (chunks_of (ops ++ [OpDelete d]) = chunks_of ops) as Hc by (rewrite chunks_of_app; apply app_nil_r).
  assert (needs l [OpDelete d] = if collect_rows l then CHUNK_REF_META else 0) as Hn by (cbn [needs fold_right need]; lia).
  unfold births at 3 in Hbi. rewrite filter_cons, filter_nil in Hbi. destruct (collect_rows l) eqn:Ec; cbn [negb].
  - destruct (Z.ltb_spec (index_mem_max l) (index_meta_bytes f + CHUNK_REF_META)); [done|]. split; [by right|]. rewrite decide_True in Hbi by done.
    split; cbn [chunks rows index_meta_bytes spool]; [done| | |rewrite needs_app; lia].
    + intros k. rewrite Hc. apply Hch.
    + exists (rs ++ [tombstone d]). rewrite Hrs, app_assoc, Hbi. split; [done|]. apply Forall2_app; [done|]. by repeat constructor.
  - split; [by left|]. rewrite decide_False in Hbi by done. split; [done| | |rewrite needs_app; lia].
    + intros k. rewrite Hc. apply Hch.
    + exists rs. by rewrite Hbi, app_nil_r.
Qed.

Lemma need_nonneg l o : 0 <= need l o.
Proof. unfold need, CHUNK_REF_META. destruct o; [destruct (_ && _)|destruct (collect_rows l)]; lia. Qed.

Lemma needs_nonneg l ops : 0 <= needs l ops.
Proof. induction ops as [|o ops IH]; cbn [needs fold_right]; [done|]. pose proof (need_nonneg l o). fold (needs l ops). lia. Qed.

Lemma wf_prefix a b : chunks_wf (a ++ b) -> chunks_wf a.
Proof.
  intros [H1 H2 H3]. split.
  - intros c Hc. apply H1. set_solver.
  - intros c c' Hc Hc'. apply H2; set_solver.
  - intros k. specialize (H3 k). rewrite mine_app in H3. unfold weight in *. rewrite map_app, concat_app, zlen_app in H3.
    pose proof (zlen_nonneg (concat (map chunk_data (mine k b)))). lia.
Qed.

Lemma fold_collects l f0 rest : forall f ops, collected l f0 f ops -> chunks_wf (chunks_of (ops ++ rest)) ->
  match fold_ops l f rest with
  | Ok f' => (needs l rest = 0 \/ index_meta_bytes f0 + needs l (ops ++ rest) <= index_mem_max l) /\ collected l f0 f' (ops ++ rest)
  | Err e => exists n, e = ToastIndexOverflow n (index_mem_max l) /\ index_mem_max l < n <= index_meta_bytes f0 + needs l (ops ++ rest)
  end.
Proof.
  induction rest as [|o rest IH]; intros f ops Hc Hwf; cbn [fold_ops]; [rewrite app_nil_r; split; [by left|done]|].
  assert (ops ++ o :: rest = (ops ++ [o]) ++ rest) as E by (by rewrite <-app_assoc). rewrite E in *.
  pose proof (col_meta _ _ _ _ Hc) as Hmeta. pose proof (needs_nonneg l rest). pose proof (need_nonneg l o).
  assert (needs l ((ops ++ [o]) ++ rest) = needs l ops + need l o + needs l rest) as En by (rewrite !needs_app; cbn [needs fold_right]; lia).
  assert (match fold_op l f o with
    | Ok f' => (need l o = 0 \/ index_meta_bytes f + need l o <= index_mem_max l) /\ collected l f0 f' (ops ++ [o])
    | Err e => e = ToastIndexOverflow (index_meta_bytes f + need l o) (index_mem_max l) /\ index_mem_max l < index_meta_bytes f + need l o
    end) as Hop.
  { destruct o as [c|d]; [|by apply collect_delete]. cbn [fold_op]. rewrite chunks_of_app, chunks_of_app in Hwf. apply wf_prefix in Hwf.
    pose proof (collect_chunk _ _ _ _ c Hc Hwf) as H1. destruct (fold_chunk l f c); [|done]. destruct H1. split; [by right|done]. }
  destruct (fold_op l f o) as [f'|e]; [|destruct Hop as [-> Hlt]; eexists; split; [done|lia]].
  destruct Hop as [Hle Hc']. specialize (IH f' (ops ++ [o]) Hc' Hwf). destruct (fold_ops l f' rest) as [f''|e]; [|done].
  destruct IH as [Hle' Hc'']. split; [|done]. cbn [needs fold_right]. fold (needs l rest). lia.
Qed.

(** C27: A commit drain that folds a run of TOAST chunks and deletes either runs
    past its metadata cap, which it reports, or ends with references from which
    every value reassembles: whatever order its chunks came in, repeated or
    interleaved with others, in memory or in the spool file, the bytes are the
    chunks concatenated in sequence order, checked against the pointer's stored
    size and decompressed; a value with a gap is missing; a value without chunks
    has no reference; and the mirror rows load the bodies they were written with,
    births and deaths in order. *)
Theorem toast_values_reassemble `{Decompress} l f0 ops : chunks f0 = ∅ -> spool_ok f0 -> chunks_wf (chunks_of ops) ->
  match fold_ops l f0 ops with
  | Err e => exists n, e = ToastIndexOverflow n (index_mem_max l) /\ index_mem_max l < n <= index_meta_bytes f0 + needs l ops
  | Ok f =>
      let sp := spool_file (take_chunks f).1 in
      (needs l ops = 0 \/ index_meta_bytes f0 + needs l ops <= index_mem_max l) /\
      (forall k p, match (take_chunks f).2 !! k with
         | None => mine k (chunks_of ops) = []
         | Some v =>
             mine k (chunks_of ops) <> [] /\
             (forall cs, values (mine k (chunks_of ops)) = map_seqZ 0 cs -> reassemble_value_ref p sp v = assembled p (concat cs)) /\
             ((forall cs, values (mine k (chunks_of ops)) <> map_seqZ 0 cs) -> reassemble_value_ref p sp v = Ok Missing)
         end) /\
      exists rs, rows f = rows f0 ++ rs /\ Forall2 (row_is sp) rs (births l ops)
  end.
Proof.
  intros Hc0 Hs0 Hwf.
  assert (collected l f0 f0 []) as H0.
  { split; [done| | |cbn; lia]; [intros k; by rewrite Hc0, lookup_empty|]. exists []. rewrite app_nil_r. split; [done|constructor]. }
  pose proof (fold_collects l f0 ops f0 [] H0 Hwf) as HF. cbn [app] in HF. destruct (fold_ops l f0 ops) as [f|e]; [|done].
  destruct HF as [Hle [Hsp Hch (rs & Hrs & Hrows) _]].
  assert (spool_file (take_chunks f).1 = content f) as Esp.
  { unfold spool_file, take_chunks, content. cbn [fst spool]. by destruct (spool f). }
  cbv zeta. rewrite Esp. split; [done|]. split.
  - intros k p. cbn [take_chunks snd]. specialize (Hch k). destruct (chunks f !! k) as [v|]; [|done].
    destruct Hch as (Hne & bs & Hr & _). split; [done|]. by apply rep_reassemble with (bs := bs).
  - exists rs. split; [done|]. eapply Forall2_impl; [|exact Hrows]. intros r [c|d]; [|done].
    intros (E & Hin & Hb). split; [done|]. by rewrite load_body, Hb.
Qed.

(** ** Three chunks of one value around another's, past a four-byte budget *)
#[local] Instance no_decompress : Decompress := MkDecompress (fun _ _ => None) (fun _ _ => None).

Definition demo_chunk (value seq : Z) (data : list Z) : ToastChunk := MkChunk 5 16403 value seq 100 0 (seq + 1) data.
Definition demo_ops : list StashedToastOp :=
  [OpChunk (demo_chunk 7 0 [1; 2; 3]); OpChunk (demo_chunk 7 1 [4; 5]); OpChunk (demo_chunk 8 0 [9]);
   OpDelete (MkToastDelete 5 16403 3 1 101); OpChunk (demo_chunk 7 2 [6])].
Definition demo_limits : Limits := MkLimits true 4 1000.
Definition demo_pointer : ToastPointer := MkToast 10 6 7 16403.

Lemma demo_wf : chunks_wf (chunks_of demo_ops).
Proof.
  change (chunks_of demo_ops) with [demo_chunk 7 0 [1; 2; 3]; demo_chunk 7 1 [4; 5]; demo_chunk 8 0 [9]; demo_chunk 7 2 [6]].
  split.
  - apply Forall_elem. repeat constructor; done.
  - intros c c' Hc Hc'. rewrite !elem_of_cons in Hc, Hc'.
    destruct Hc as [->|[->|[->|[->|?%not_elem_of_nil]]]], Hc' as [->|[->|[->|[->|?%not_elem_of_nil]]]]; done.
  - intros k. unfold mine. rewrite !filter_cons, filter_nil. repeat case_decide; by vm_compute.
Qed.

Lemma toast_values_reassemble_witness : exists f v,
  fold_ops demo_limits nothing demo_ops = Ok f /\ (take_chunks f).2 !! (16403, 7) = Some v /\
  spool_file (take_chunks f).1 = Some [4; 5; 9; 6] /\
  reassemble_value_ref demo_pointer (spool_file (take_chunks f).1) v = Ok (Bytes [1; 2; 3; 4; 5; 6]).
Proof.
  pose proof (toast_values_reassemble demo_limits nothing demo_ops) as HT.
  assert (chunks_wf (chunks_of demo_ops)) as Hwf by exact demo_wf.
  assert ((let? f := fold_ops demo_limits nothing demo_ops in Ok (is_some ((take_chunks f).2 !! (16403, 7)), spool_file (take_chunks f).1)) =
    Ok (true, Some [4; 5; 9; 6])) as Hrun by (vm_compute; reflexivity).
  specialize (HT eq_refl ltac:(done) Hwf).
  destruct (fold_ops demo_limits nothing demo_ops) as [f|e]; [|done]. destruct HT as (_ & HT & _). injection Hrun as Hv Hsp.
  specialize (HT (16403, 7) demo_pointer). destruct ((take_chunks f).2 !! (16403, 7)) as [v|] eqn:Ev; [|done]. destruct HT as (_ & HT & _).
  exists f, v. repeat split; [done|done|]. rewrite (HT [[1; 2; 3]; [4; 5]; [6]]); [by vm_compute|by vm_compute].
Defined.

End ToastRefProofs.
