(* ===== verification/XactBuffer.v ===== *)
(** * The transaction buffer ([src/xact/xact_buffer.rs])

    Everything decoded for a transaction waits here, per transaction id, until
    its commit or abort: heaps, TOAST chunks and deletes, raw records of
    filenodes no descriptor answers for yet, and control events.  The buffer
    holds the in-memory entries of all transactions under one budget, moving the
    largest transaction to its spill file when it is exceeded, and knows how far
    back a restart has to read.  The commit drain is in [XactDrain]. *)
From S2P Require Import Prelude Pos WalRecord AsciiBuf Numeric HeapDecode Wire DescCodec Spill.
Import WalRecord Schema HeapDecode Spill.

(** ** Subtransactions seen assigned to a top transaction *)
Module SubxactTracker.

Record SubxactTracker := MkTracker { parent : gmap Z Z; children : gmap Z (list Z) }.

Definition new : SubxactTracker := MkTracker ∅ ∅.

(** The retargeting loop. *)
Definition retarget (top_xid : Z) (t : SubxactTracker) (s : Z) : SubxactTracker :=
  let children :=
    match parent t !! s with
    | Some prev => if prev =? top_xid then children t else alter (filter (fun x => x <> s)) prev (children t)
    | None => children t
    end in
  MkTracker (<[s := top_xid]> (parent t)) children.

Definition bucket_push (bucket : list Z) (s : Z) : list Z := if bool_decide (s ∈ bucket) then bucket else bucket ++ [s].

Definition assign (t : SubxactTracker) (top_xid : Z) (subxids : list Z) : SubxactTracker :=
  match subxids with
  | [] => t
  | _ =>
      let t := fold_left (retarget top_xid) subxids t in
      MkTracker (parent t) (<[top_xid := fold_left bucket_push subxids (default [] (children t !! top_xid))]> (children t))
  end.

Definition top_for (t : SubxactTracker) (xid : Z) : Z := default xid (parent t !! xid).

Definition forget_tree (t : SubxactTracker) (top_xid : Z) : SubxactTracker :=
  let parent' := match children t !! top_xid with Some subs => fold_left (fun p s => delete s p) subs (parent t) | None => parent t end in
  MkTracker (delete top_xid parent') (delete top_xid (children t)).

Definition subxids_of (t : SubxactTracker) (top_xid : Z) : list Z := default [] (children t !! top_xid).

End SubxactTracker.

(** ** Sizes the compiler lays out *)
Class Layout := MkLayout
  { size_of_DescribedHeap : Z; size_of_ToastChunk : Z; size_of_ToastDelete : Z; size_of_DecodedTuple : Z;
    size_of_Column : Z; size_of_RawRecord : Z; size_of_RawBlock : Z;
    (** [Vec::capacity] of a tuple's columns *)
    columns_capacity : DecodedTuple -> Z;
    sizes_positive : 0 < size_of_DescribedHeap /\ 0 < size_of_ToastChunk /\ 0 < size_of_ToastDelete /\ 0 <= size_of_DecodedTuple /\
                     0 <= size_of_Column /\ 0 < size_of_RawRecord /\ 0 <= size_of_RawBlock;
    capacity_nonneg : forall t, 0 <= columns_capacity t }.

Module XactBuffer.

(** A control event of the drain.  The catalog and configuration payloads are
    carried, never read. *)
Inductive DrainEntry {SchemaEvent ConfigEvent : Type} :=
| Catalog (e : SchemaEvent)
| Config (e : ConfigEvent)
| ToastBarrier (toast_relid marker_lsn : Z).
Arguments DrainEntry : clear implicits.

Record StashMark := MkMark { mark_first : Z; payload_free : bool }.

Definition merge (m other : StashMark) : StashMark :=
  MkMark (Z.min (mark_first m) (mark_first other)) (payload_free m || payload_free other).

Section Buffer.
Context `{Layout} {SchemaEvent ConfigEvent : Type}.
Local Notation DrainEntry := (DrainEntry SchemaEvent ConfigEvent).

Definition entry_lsn (e : SpillEntry) : Z :=
  match e with
  | EHeap h => source_lsn (decoded h)
  | EChunk c => ck_lsn c
  | EToastDelete d => td_lsn d
  | ERaw r => raw_lsn r
  end.

(** *** Memory estimates *)
Definition value_size (v : ColumnValue) : Z :=
  match v with Bytea b => zlen b | TextVal s | Name s => zlen s | Unsupported _ raw => zlen raw | _ => 0 end.

Definition tuple_size (t : DecodedTuple) : Z :=
  size_of_DecodedTuple + columns_capacity t * size_of_Column +
  zsum (map (fun c => match c with Some v => value_size v | None => 0 end) (columns t)).

Definition raw_bytes (r : RawRecord) : Z :=
  size_of_RawRecord + zlen (raw_main_data r) + zsum (map (fun b => size_of_RawBlock + zlen (rb_image b) + zlen (rb_data b)) (raw_blocks r)).

Definition approximate_size (e : SpillEntry) : Z :=
  match e with
  | EHeap h =>
      size_of_DescribedHeap + match new (decoded h) with Some t => tuple_size t | None => 0 end +
      match old (decoded h) with Some t => tuple_size t | None => 0 end
  | EChunk c => size_of_ToastChunk + zlen (chunk_data c)
  | EToastDelete _ => size_of_ToastDelete
  | ERaw r => raw_bytes r
  end.

(** *** Per-transaction state *)
Record XactState := MkState
  { first_lsn : Z; in_mem : list SpillEntry; in_mem_bytes : Z; plain : bool; spill : option SpillWriter; spill_bytes : Z;
    events : list (Z * DrainEntry); stash_rfns : gmap RelFileNode StashMark }.

Definition new_state (first : Z) : XactState := MkState first [] 0 true None 0 [] ∅.

Definition byte_count (w : SpillWriter) : Z := zlen (file (wout w)) + zlen (wbuf (wout w)).

(** *** Committed transactions not yet durable

    A binary heap under [Reverse]: what it gives is its least pair. *)
Definition pair_le (a b : Z * Z) : bool := (a.1 <? b.1) || ((a.1 =? b.1) && (a.2 <=? b.2)).

Fixpoint pd_push (x : Z * Z) (l : list (Z * Z)) : list (Z * Z) :=
  match l with [] => [x] | y :: l' => if pair_le x y then x :: l else y :: pd_push x l' end.

Fixpoint prune (durable_ack : Z) (l : list (Z * Z)) : list (Z * Z) :=
  match l with [] => [] | y :: l' => if y.2 <=? durable_ack then prune durable_ack l' else l end.

Definition min_first_lsn (l : list (Z * Z)) : option Z := fst <$> head l.

(** *** The buffer *)
Record XactBufferConfig := MkConfig
  { xact_buffer_max : Z; toast_body_mem_max : Z; toast_index_mem_max : Z; drain_batch_rows : Z; drain_batch_bytes : Z }.

Record XactBufferStats := MkStats
  { xacts_active : Z; st_bytes_in_memory : Z; xacts_total : Z; spill_xacts_active : Z; spill_bytes_active : Z;
    spill_evictions_total : Z; committed_xacts_total : Z; aborted_xacts_total : Z; commits_unknown_xid : Z;
    aborts_unknown_xid : Z; commits_before_start : Z; drain_lsn : Z; raw_stash_bytes_mem : Z }.

Record XactBuffer := MkBuffer
  { inflight : gmap Z XactState; stash_live : Z; markers : gmap RelFileNode Z; marker_order : list (RelFileNode * Z);
    pending_durable : list (Z * Z); min_commit_lsn : Z; bytes_in_memory : Z; stats : XactBufferStats }.

Definition new_buffer : XactBuffer := MkBuffer ∅ 0 ∅ [] [] 0 0 (MkStats 0 0 0 0 0 0 0 0 0 0 0 0 0).

(** The gauges [state_for], [evict_xact] and the drains move. *)
Definition with_gauges (s : XactBufferStats) (active bytes total spill_xacts spill_bytes : Z) : XactBufferStats :=
  MkStats active bytes total spill_xacts spill_bytes (spill_evictions_total s) (committed_xacts_total s) (aborted_xacts_total s)
    (commits_unknown_xid s) (aborts_unknown_xid s) (commits_before_start s) (drain_lsn s) (raw_stash_bytes_mem s).

(** The totals: evictions, commits, aborts, unknown commits and aborts, early
    commits, and raw bytes stashed in memory. *)
Definition with_totals (s : XactBufferStats) (ev co ab uc ua bs raw : Z) : XactBufferStats :=
  MkStats (xacts_active s) (st_bytes_in_memory s) (xacts_total s) (spill_xacts_active s) (spill_bytes_active s)
    (spill_evictions_total s + ev) (committed_xacts_total s + co) (aborted_xacts_total s + ab) (commits_unknown_xid s + uc)
    (aborts_unknown_xid s + ua) (commits_before_start s + bs) (drain_lsn s) (raw_stash_bytes_mem s + raw).

Definition advance_drain (s : XactBufferStats) (lsn : Z) : XactBufferStats :=
  MkStats (xacts_active s) (st_bytes_in_memory s) (xacts_total s) (spill_xacts_active s) (spill_bytes_active s)
    (spill_evictions_total s) (committed_xacts_total s) (aborted_xacts_total s) (commits_unknown_xid s) (aborts_unknown_xid s)
    (commits_before_start s) (Z.max (drain_lsn s) lsn) (raw_stash_bytes_mem s).

Definition with_stats (b : XactBuffer) (s : XactBufferStats) : XactBuffer :=
  MkBuffer (inflight b) (stash_live b) (markers b) (marker_order b) (pending_durable b) (min_commit_lsn b) (bytes_in_memory b) s.

Definition set_state (b : XactBuffer) (xid : Z) (st : XactState) : XactBuffer :=
  MkBuffer (<[xid := st]> (inflight b)) (stash_live b) (markers b) (marker_order b) (pending_durable b) (min_commit_lsn b)
    (bytes_in_memory b) (stats b).

(** [state_for]: the state and the buffer holding it. *)
Definition state_for (b : XactBuffer) (xid first : Z) : XactBuffer * XactState :=
  match inflight b !! xid with
  | Some st => (b, st)
  | None =>
      let s := stats b in
      (set_state (with_stats b (with_gauges s (xacts_active s + 1) (st_bytes_in_memory s) (xacts_total s + 1)
                                  (spill_xacts_active s) (spill_bytes_active s))) xid (new_state first), new_state first)
  end.

Definition push_drain_entry (b : XactBuffer) (xid lsn : Z) (e : DrainEntry) : XactBuffer :=
  let '(b, st) := state_for b xid lsn in
  set_state b xid (MkState (first_lsn st) (in_mem st) (in_mem_bytes st) (plain st) (spill st) (spill_bytes st)
                     (events st ++ [(lsn, e)]) (stash_rfns st)).

Definition on_schema_event (b : XactBuffer) (xid lsn : Z) (e : SchemaEvent) : XactBuffer := push_drain_entry b xid lsn (Catalog e).
Definition on_config_event (b : XactBuffer) (xid lsn : Z) (e : ConfigEvent) : XactBuffer := push_drain_entry b xid lsn (Config e).
Definition on_toast_barrier (b : XactBuffer) (xid commit_lsn toast_relid marker_lsn : Z) : XactBuffer :=
  push_drain_entry b xid commit_lsn (ToastBarrier toast_relid marker_lsn).

(** *** Filenodes to resolve at commit *)
Definition MARKER_CAP : Z := 65536.

Definition mark_stash (b : XactBuffer) (xid lsn : Z) (rfn : RelFileNode) (payload_free : bool) : XactBuffer :=
  let mark := MkMark lsn payload_free in
  let '(b, st) := state_for b xid lsn in
  let '(m, live) := match stash_rfns st !! rfn with Some m => (merge m mark, 0) | None => (mark, 1) end in
  let b := set_state b xid (MkState (first_lsn st) (in_mem st) (in_mem_bytes st) (plain st) (spill st) (spill_bytes st)
                              (events st) (<[rfn := m]> (stash_rfns st))) in
  MkBuffer (inflight b) (stash_live b + live) (markers b) (marker_order b) (pending_durable b) (min_commit_lsn b) (bytes_in_memory b) (stats b).

(** The cap's pruning loop. *)
Fixpoint prune_markers (excess : nat) (m : gmap RelFileNode Z) (order : list (RelFileNode * Z))
    : gmap RelFileNode Z * list (RelFileNode * Z) :=
  match excess, order with
  | S excess, (old, old_lsn) :: order =>
      prune_markers excess (if bool_decide (m !! old = Some old_lsn) then delete old m else m) order
  | _, _ => (m, order)
  end.

Definition note_smgr_create (b : XactBuffer) (xid : Z) (rfn : RelFileNode) (lsn : Z) : XactBuffer :=
  let m := <[rfn := lsn]> (markers b) in
  let '(m, order) :=
    if bool_decide (markers b !! rfn = Some lsn) then (m, marker_order b)
    else
      let order := marker_order b ++ [(rfn, lsn)] in
      prune_markers (Z.to_nat (zlen order - MARKER_CAP)) m order in
  let b := MkBuffer (inflight b) (stash_live b) m order (pending_durable b) (min_commit_lsn b) (bytes_in_memory b) (stats b) in
  if negb (xid =? 0) then mark_stash b xid lsn rfn false else b.

Definition marker_lsn (b : XactBuffer) (rfn : RelFileNode) : option Z := markers b !! rfn.

Definition track_unresolvable (b : XactBuffer) (xid lsn : Z) (rfn : RelFileNode) : XactBuffer := mark_stash b xid lsn rfn true.

Definition is_stash_candidate (b : XactBuffer) (xid : Z) (rfn : RelFileNode) : bool :=
  match inflight b !! xid with Some st => is_some (stash_rfns st !! rfn) | None => false end.

(** [stash_candidates], before its deterministic sort. *)
Definition stash_candidates (b : XactBuffer) (xids : list Z) : gmap RelFileNode StashMark :=
  fold_left (fun acc x => match inflight b !! x with
                          | Some st => union_with (fun m other => Some (merge m other)) acc (stash_rfns st)
                          | None => acc
                          end) xids ∅.

Definition forget_markers (b : XactBuffer) (rfns : list RelFileNode) : XactBuffer :=
  MkBuffer (inflight b) (stash_live b) (fold_left (fun m r => delete r m) rfns (markers b)) (marker_order b) (pending_durable b)
    (min_commit_lsn b) (bytes_in_memory b) (stats b).

(** *** Absorbing entries, under the memory budget *)
Context (cfg : XactBufferConfig).

(** [HashMap::iter] of the transactions in flight. *)
Context (iter : gmap Z XactState -> list (Z * XactState)).

(** [Iterator::max_by_key]: the last of the greatest. *)
Definition max_by_key {A} (key : A -> Z) (l : list A) : option A :=
  fold_left (fun best x => match best with None => Some x | Some y => if key y <=? key x then Some x else best end) l None.

Definition largest (b : XactBuffer) : option Z :=
  fst <$> max_by_key (fun xs => in_mem_bytes xs.2) (filter (fun xs : Z * XactState => in_mem xs.2 <> []) (iter (inflight b))).

Definition evict_xact (b : XactBuffer) (xid : Z) : XactBuffer :=
  match inflight b !! xid with
  | None => b
  | Some st =>
      let first_spill := negb (is_some (spill st)) in
      let w := write_batch (default writer (spill st)) (in_mem st) in
      let bc := byte_count w in
      let bytes := sat_sub (bytes_in_memory b) (in_mem_bytes st) in
      let s := stats b in
      let s := with_totals (with_gauges s (xacts_active s) bytes (xacts_total s)
                              (spill_xacts_active s + if first_spill then 1 else 0) (spill_bytes_active s + (bc - spill_bytes st))) 1 0 0 0 0 0 0 in
      MkBuffer (<[xid := MkState (first_lsn st) [] 0 (plain st) (Some w) bc (events st) (stash_rfns st)]> (inflight b))
        (stash_live b) (markers b) (marker_order b) (pending_durable b) (min_commit_lsn b) bytes s
  end.

(** The eviction loop; every turn empties one transaction. *)
Fixpoint maybe_evict (fuel : nat) (b : XactBuffer) : XactBuffer :=
  match fuel with
  | O => b
  | S fuel =>
      if xact_buffer_max cfg <? bytes_in_memory b
      then match largest b with None => b | Some xid => maybe_evict fuel (evict_xact b xid) end
      else b
  end.

Definition absorb (b : XactBuffer) (xid first : Z) (entry : SpillEntry) : XactBuffer :=
  let sz := approximate_size entry in
  let raw_sz := match entry with ERaw _ => sz | _ => 0 end in
  let is_plain := match entry with EHeap h => match op (decoded h) with Truncate => false | _ => true end | _ => false end in
  let '(b, st) := state_for b xid first in
  let b := set_state b xid (MkState (first_lsn st) (in_mem st ++ [entry]) (in_mem_bytes st + sz) (plain st && is_plain) (spill st)
                              (spill_bytes st) (events st) (stash_rfns st)) in
  let bytes := bytes_in_memory b + sz in
  let s := stats b in
  let s := with_totals (with_gauges s (xacts_active s) bytes (xacts_total s) (spill_xacts_active s) (spill_bytes_active s)) 0 0 0 0 0 0 raw_sz in
  let b := MkBuffer (inflight b) (stash_live b) (markers b) (marker_order b) (pending_durable b) (min_commit_lsn b) bytes s in
  if xact_buffer_max cfg <? bytes then maybe_evict (S (size (inflight b))) b else b.

Definition on_heap (b : XactBuffer) (h : DescribedHeap) : XactBuffer := absorb b (xid (decoded h)) (source_lsn (decoded h)) (EHeap h).
Definition on_toast_chunk (b : XactBuffer) (c : ToastChunk) (xid : Z) : XactBuffer := absorb b xid (ck_lsn c) (EChunk c).
Definition on_toast_delete (b : XactBuffer) (d : ToastDelete) (xid : Z) : XactBuffer := absorb b xid (td_lsn d) (EToastDelete d).

Definition stash_raw (b : XactBuffer) (xid : Z) (raw : RawRecord) : XactBuffer :=
  match raw_rfn raw with
  | None => b
  | Some rfn => absorb (mark_stash b xid (raw_lsn raw) rfn false) xid (raw_lsn raw) (ERaw raw)
  end.

(** *** Ends of transactions *)

(** One turn of [discard_states]. *)
Definition discard_state (b : XactBuffer) (x : Z) : XactBuffer :=
  match inflight b !! x with
  | None => b
  | Some st =>
      let s := stats b in
      let '(spill_x, spill_b) :=
        match spill st with
        | Some w => (sat_sub (spill_xacts_active s) 1, sat_sub (spill_bytes_active s) (byte_count w))
        | None => (spill_xacts_active s, spill_bytes_active s)
        end in
      MkBuffer (delete x (inflight b)) (stash_live b - Z.of_nat (size (stash_rfns st)))
        (map_fold (fun r _ m => delete r m) (markers b) (stash_rfns st)) (marker_order b) (pending_durable b) (min_commit_lsn b)
        (sat_sub (bytes_in_memory b) (in_mem_bytes st))
        (with_gauges s (sat_sub (xacts_active s) 1) (st_bytes_in_memory s) (xacts_total s) spill_x spill_b)
  end.

Definition discard_states (b : XactBuffer) (xids : list Z) : XactBuffer * bool :=
  let any := existsb (fun x => is_some (inflight b !! x)) xids in
  let b := fold_left discard_state xids b in
  let s := stats b in
  (with_stats b (with_gauges s (xacts_active s) (bytes_in_memory b) (xacts_total s) (spill_xacts_active s) (spill_bytes_active s)), any).

Definition abort (b : XactBuffer) (xid abort_lsn : Z) (subxids : list Z) : XactBuffer :=
  let b := with_stats b (advance_drain (stats b) abort_lsn) in
  let '(b, any) := discard_states b (xid :: subxids) in
  with_stats b (if any then with_totals (stats b) 0 0 1 0 0 0 0 else with_totals (stats b) 0 0 0 0 1 0 0).

Definition set_min_commit_lsn (b : XactBuffer) (lsn : Z) : XactBuffer :=
  MkBuffer (inflight b) (stash_live b) (markers b) (marker_order b) (pending_durable b) lsn (bytes_in_memory b) (stats b).

Definition advance_idle (b : XactBuffer) (lsn : Z) : XactBuffer :=
  if negb (xacts_active (stats b) =? 0) then b else with_stats b (advance_drain (stats b) lsn).

Definition resume_safe_lsn (b : XactBuffer) (durable_ack : Z) : XactBuffer * Z :=
  let pd := prune durable_ack (pending_durable b) in
  let b := MkBuffer (inflight b) (stash_live b) (markers b) (marker_order b) pd (min_commit_lsn b) (bytes_in_memory b) (stats b) in
  let firsts := map (fun xs => first_lsn xs.2) (map_to_list (inflight b)) ++ match min_first_lsn pd with Some f => [f] | None => [] end in
  (b, fold_left Z.min firsts durable_ack).

(** The head of [drain_committed]: the states the commit takes out, or [None]
    for a commit that drains nothing. *)
Definition take_states (b : XactBuffer) (commit_lsn : Z) (xids : list Z) : XactBuffer * list XactState :=
  if commit_lsn <? min_commit_lsn b then
    let b := with_stats b (advance_drain (stats b) commit_lsn) in
    let '(b, _) := discard_states b xids in
    (with_stats b (with_totals (stats b) 0 0 0 0 0 1 0), [])
  else
    let '(m, states) := fold_left (fun ms x => match ms.1 !! x with
                                               | Some st => (delete x ms.1, ms.2 ++ [st])
                                               | None => ms
                                               end) xids (inflight b, []) in
    let live := stash_live b - zsum (map (fun st => Z.of_nat (size (stash_rfns st))) states) in
    let s := advance_drain (stats b) commit_lsn in
    match states with
    | [] => (MkBuffer m live (markers b) (marker_order b) (pending_durable b) (min_commit_lsn b) (bytes_in_memory b)
               (with_totals s 0 0 0 1 0 0 0), [])
    | st0 :: rest =>
        let first := fold_left (fun acc st => Z.min acc (first_lsn st)) rest (first_lsn st0) in
        let bytes := fold_left (fun n st => sat_sub n (in_mem_bytes st)) states (bytes_in_memory b) in
        let active := fold_left (fun n _ => sat_sub n 1) states (xacts_active s) in
        (MkBuffer m live (markers b) (marker_order b) (pd_push (first, commit_lsn) (pending_durable b)) (min_commit_lsn b) bytes
           (with_gauges s active bytes (xacts_total s) (spill_xacts_active s) (spill_bytes_active s)), states)
    end.

(** The spill accounting [open_drain] releases. *)
Definition release_spill (b : XactBuffer) (st : XactState) : XactBuffer :=
  match spill st with
  | None => b
  | Some w =>
      let s := stats b in
      with_stats b (with_gauges s (xacts_active s) (st_bytes_in_memory s) (xacts_total s) (sat_sub (spill_xacts_active s) 1)
                      (sat_sub (spill_bytes_active s) (byte_count w)))
  end.

End Buffer.
Arguments XactState : clear implicits.
Arguments XactBuffer : clear implicits.

End XactBuffer.
