(* ===== verification/XactBufferProofs.v ===== *)
(** * The transaction buffer keeps its books

    The invariant every operation of [XactBuffer] preserves: each transaction in
    flight holds, spilled and in memory, exactly what was absorbed for it and in
    that order, the gauges are exact, and the memory in use stays inside the
    budget. *)
From S2P Require Import Prelude Pos WalRecord AsciiBuf Numeric HeapDecode Wire DescCodec Spill XactBuffer.
Import WalRecord Schema HeapDecode Spill XactBuffer.

Module XactBufferProofs.

(** ** Sums over a map *)
Section Msum.
Context {A : Type}.
Implicit Types (f : A -> Z) (m : gmap Z A).

Definition msum f m : Z := map_fold (fun _ x n => f x + n) 0 m.

Lemma msum_empty f : msum f ∅ = 0.
Proof. apply map_fold_empty. Qed.

Lemma msum_insert f m i x : m !! i = None -> msum f (<[i := x]> m) = f x + msum f m.
Proof. intros Hi. unfold msum. rewrite (map_fold_insert_L (fun _ x n => f x + n)); [done|intros; lia|done]. Qed.

Lemma msum_delete f m i x : m !! i = Some x -> msum f m = f x + msum f (delete i m).
Proof.
  intros Hi. rewrite <-(insert_delete_id m i x Hi) at 1. by rewrite msum_insert by apply lookup_delete_eq.
Qed.

Lemma msum_update f m i x y : m !! i = Some x -> msum f (<[i := y]> m) = msum f m - f x + f y.
Proof.
  intros Hi. rewrite (msum_delete f m i x Hi). rewrite <-(insert_delete_eq m i y), msum_insert by apply lookup_delete_eq. lia.
Qed.

Lemma msum_nonneg f m : (forall i x, m !! i = Some x -> 0 <= f x) -> 0 <= msum f m.
Proof.
  induction m as [|i x m Hi IH] using map_ind; intros Hf; [by rewrite msum_empty|]. rewrite msum_insert by done.
  pose proof (Hf i x (lookup_insert_eq _ _ _)). assert (0 <= msum f m); [|lia]. apply IH. intros j y Hj. apply (Hf j y).
  rewrite lookup_insert_ne; [done|]. congruence.
Qed.

Lemma msum_le f m i x : (forall j y, m !! j = Some y -> 0 <= f y) -> m !! i = Some x -> f x <= msum f m.
Proof.
  intros Hf Hi. rewrite (msum_delete f m i x Hi). assert (0 <= msum f (delete i m)); [|lia].
  apply msum_nonneg. intros j y [_ Hj]%lookup_delete_Some. by apply (Hf j y).
Qed.

Lemma msum_zero f m i x : (forall j y, m !! j = Some y -> 0 <= f y) -> m !! i = Some x -> 0 < f x -> 0 < msum f m.
Proof. intros Hf Hi Hx. pose proof (msum_le f m i x Hf Hi). lia. Qed.

Definition deletes m (xids : list Z) : gmap Z A := fold_left (fun h x => delete x h) xids m.

Lemma deletes_lookup xids : forall m y, deletes m xids !! y = if bool_decide (y ∈ xids) then None else m !! y.
Proof.
  induction xids as [|x xids IH]; intros m y; [done|]. cbn [deletes fold_left]. fold (deletes (delete x m) xids). rewrite IH.
  destruct (decide (y = x)) as [->|Hne].
  - rewrite lookup_delete_eq. rewrite (bool_decide_true (x ∈ x :: xids)) by set_solver. by destruct (bool_decide (x ∈ xids)).
  - rewrite lookup_delete_ne by congruence. rewrite (bool_decide_ext (y ∈ x :: xids) (y ∈ xids)) by set_solver. done.
Qed.

End Msum.

Ltac stats_cbn := cbn [set_state with_stats with_gauges with_totals advance_drain inflight stats xacts_active st_bytes_in_memory xacts_total
  spill_xacts_active spill_bytes_active bytes_in_memory stash_live markers marker_order pending_durable min_commit_lsn drain_lsn
  spill_evictions_total committed_xacts_total aborted_xacts_total commits_unknown_xid aborts_unknown_xid commits_before_start raw_stash_bytes_mem
  first_lsn in_mem in_mem_bytes plain spill spill_bytes events stash_rfns fst snd] in *.

Section Proofs.
Context `{Layout} {SchemaEvent ConfigEvent : Type}.
Local Notation DrainEntry := (DrainEntry SchemaEvent ConfigEvent).
Local Notation XactState := (XactState SchemaEvent ConfigEvent).
Local Notation XactBuffer := (XactBuffer SchemaEvent ConfigEvent).

(** ** Sizes *)
Lemma zsum_nonneg l : Forall (fun x => 0 <= x) l -> 0 <= zsum l.
Proof. induction 1; cbn [zsum fold_right]; [done|]. unfold zsum in *. lia. Qed.

Lemma tuple_size_nonneg t : 0 <= tuple_size t.
Proof.
  unfold tuple_size. pose proof sizes_positive as (_ & _ & _ & ? & ? & _). pose proof (capacity_nonneg t).
  assert (0 <= zsum (map (fun c => match c with Some v => value_size v | None => 0 end) (columns t))); [|nia].
  apply zsum_nonneg, Forall_elem. intros x (c & -> & _)%list_elem_of_fmap. destruct c as [[]|]; cbn; try done; apply zlen_nonneg.
Qed.

Lemma approximate_size_pos e : 0 < approximate_size e.
Proof.
  pose proof sizes_positive as (? & ? & ? & _ & _ & ? & ?). destruct e as [h|c|d|r]; cbn [approximate_size]; [| |done|].
  - assert (forall o, 0 <= match o with Some t => tuple_size t | None => 0 end) as Ht by (intros [t|]; [apply tuple_size_nonneg|done]).
    pose proof (Ht (new (decoded h))). pose proof (Ht (old (decoded h))). lia.
  - pose proof (zlen_nonneg (chunk_data c)). lia.
  - unfold raw_bytes. pose proof (zlen_nonneg (raw_main_data r)).
    assert (0 <= zsum (map (fun b => size_of_RawBlock + zlen (rb_image b) + zlen (rb_data b)) (raw_blocks r))); [|lia].
    apply zsum_nonneg, Forall_elem. intros x (b & -> & _)%list_elem_of_fmap. pose proof (zlen_nonneg (rb_image b)). pose proof (zlen_nonneg (rb_data b)). lia.
Qed.

Definition sizes (l : list SpillEntry) : Z := zsum (map approximate_size l).

Lemma sizes_app a b : sizes (a ++ b) = sizes a + sizes b.
Proof. unfold sizes. by rewrite map_app, zsum_app. Qed.

Lemma sizes_nonneg l : 0 <= sizes l.
Proof. apply zsum_nonneg, Forall_elem. intros x (e & -> & _)%list_elem_of_fmap. pose proof (approximate_size_pos e). lia. Qed.

Lemma sizes_pos l : l <> [] -> 0 < sizes l.
Proof.
  destruct l as [|e l]; [done|]. intros _. change (sizes (e :: l)) with (approximate_size e + sizes l).
  pose proof (approximate_size_pos e). pose proof (sizes_nonneg l). lia.
Qed.

(** ** The invariant *)

(** The batches a spill file was written from. *)
Definition holds (w : option SpillWriter) (bs : list (list SpillEntry)) : Prop :=
  match w with None => bs = [] | Some w => bs <> [] /\ w = fold_left write_batch bs writer end.

Definition spilled_bytes (st : XactState) : Z := match spill st with Some w => byte_count w | None => 0 end.
Definition spilled_one (st : XactState) : Z := if is_some (spill st) then 1 else 0.
Definition stashed (st : XactState) : Z := Z.of_nat (size (stash_rfns st)).

(** An entry the in-memory fast path can hand out. *)
Definition plain_entry (e : SpillEntry) : bool :=
  match e with EHeap h => match op (decoded h) with Truncate => false | _ => true end | _ => false end.

(** State [st] holds what was absorbed, [es], for transaction [x]. *)
Record state_ok (x : Z) (st : XactState) (es : list SpillEntry) : Prop := MkStateOk
  { so_entries : exists bs, holds (spill st) bs /\ concat bs ++ in_mem st = es;
    so_bytes : in_mem_bytes st = sizes (in_mem st);
    so_spill : spill_bytes st = spilled_bytes st;
    so_plain : plain st = forallb plain_entry es;
    so_owner : forall h, EHeap h ∈ es -> xid (decoded h) = x }.

(** [hist] is what each open transaction absorbed. *)
Record Inv (b : XactBuffer) (hist : gmap Z (list SpillEntry)) : Prop := MkInv
  { inv_dom : forall x, is_Some (inflight b !! x) <-> is_Some (hist !! x);
    inv_state : forall x st es, inflight b !! x = Some st -> hist !! x = Some es -> state_ok x st es;
    inv_bytes : bytes_in_memory b = msum in_mem_bytes (inflight b);
    inv_bytes_stat : st_bytes_in_memory (stats b) = bytes_in_memory b;
    inv_active : xacts_active (stats b) = Z.of_nat (size (inflight b));
    inv_spill_x : spill_xacts_active (stats b) = msum spilled_one (inflight b);
    inv_spill_b : spill_bytes_active (stats b) = msum spilled_bytes (inflight b);
    inv_stash : stash_live b = msum stashed (inflight b) }.

Lemma inv_new : Inv new_buffer ∅.
Proof. split; cbn; try done. intros x. rewrite !lookup_empty. split; by intros [? ?]. Qed.

Lemma inv_bytes_nonneg b hist x st : Inv b hist -> inflight b !! x = Some st -> 0 <= in_mem_bytes st.
Proof.
  intros HI Hx. destruct (proj1 (inv_dom _ _ HI x) (mk_is_Some _ _ Hx)) as [es He].
  rewrite (so_bytes _ _ _ (inv_state _ _ HI _ _ _ Hx He)). apply sizes_nonneg.
Qed.

(** ** One state changes *)
Lemma inv_update b b' hist x st st' es es' : Inv b hist -> inflight b !! x = Some st -> hist !! x = Some es ->
  inflight b' = <[x := st']> (inflight b) -> state_ok x st' es' ->
  bytes_in_memory b' = bytes_in_memory b - in_mem_bytes st + in_mem_bytes st' ->
  st_bytes_in_memory (stats b') = bytes_in_memory b' -> xacts_active (stats b') = xacts_active (stats b) ->
  spill_xacts_active (stats b') = spill_xacts_active (stats b) - spilled_one st + spilled_one st' ->
  spill_bytes_active (stats b') = spill_bytes_active (stats b) - spilled_bytes st + spilled_bytes st' ->
  stash_live b' = stash_live b - stashed st + stashed st' -> Inv b' (<[x := es']> hist).
Proof.
  intros [H1 H2 H3 H4 H5 H6 H7 H8] Hx He E1 Hok E2 E3 E4 E5 E6 E7. split.
  - intros y. rewrite E1. destruct (decide (x = y)) as [<-|]; [rewrite !lookup_insert_eq; done|]. by rewrite !lookup_insert_ne.
  - intros y sy ey. rewrite E1. destruct (decide (x = y)) as [<-|].
    + rewrite !lookup_insert_eq. by intros [= <-] [= <-].
    + rewrite !lookup_insert_ne by done. apply H2.
  - rewrite E1, E2, H3. by rewrite (msum_update _ _ _ _ _ Hx).
  - done.
  - rewrite E4, H5, E1. by rewrite map_size_insert_Some by (by eexists).
  - rewrite E1, E5, H6. by rewrite (msum_update _ _ _ _ _ Hx).
  - rewrite E1, E6, H7. by rewrite (msum_update _ _ _ _ _ Hx).
  - rewrite E1, E7, H8. by rewrite (msum_update _ _ _ _ _ Hx).
Qed.

Lemma inv_hist b hist hist' : (forall x, hist !! x = hist' !! x) -> Inv b hist -> Inv b hist'.
Proof. intros E. assert (hist = hist') as ->; [by apply map_eq|done]. Qed.

(** A transaction opened by its first record. *)
Definition opened (hist : gmap Z (list SpillEntry)) (x : Z) : gmap Z (list SpillEntry) := <[x := default [] (hist !! x)]> hist.

(** What [state_for] and every update after it leave alone. *)
Definition same_rest (b b' : XactBuffer) : Prop :=
  markers b' = markers b /\ marker_order b' = marker_order b /\ pending_durable b' = pending_durable b /\ min_commit_lsn b' = min_commit_lsn b.

Lemma same_rest_trans b1 b2 b3 : same_rest b1 b2 -> same_rest b2 b3 -> same_rest b1 b3.
Proof. intros (? & ? & ? & ?) (? & ? & ? & ?). repeat split; congruence. Qed.

Lemma inv_state_for b hist x f : Inv b hist -> exists es, opened hist x !! x = Some es /\
  Inv (state_for b x f).1 (opened hist x) /\ inflight (state_for b x f).1 !! x = Some (state_for b x f).2 /\
  (inflight (state_for b x f).1 = inflight b /\ inflight b !! x = Some (state_for b x f).2 \/
   inflight (state_for b x f).1 = <[x := new_state f]> (inflight b) /\ inflight b !! x = None /\ (state_for b x f).2 = new_state f) /\
  same_rest b (state_for b x f).1 /\ bytes_in_memory (state_for b x f).1 = bytes_in_memory b.
Proof.
  intros HI. unfold opened. rewrite lookup_insert_eq. eexists. split; [done|]. unfold state_for.
  destruct (inflight b !! x) as [st|] eqn:Hx; cbn [fst snd].
  - destruct (proj1 (inv_dom _ _ HI x) (mk_is_Some _ _ Hx)) as [es He]. rewrite He. change (default [] (Some es)) with es.
    split; [by rewrite insert_id|]. split; [done|]. split; [by left|]. done.
  - assert (hist !! x = None) as He.
    { destruct (hist !! x) eqn:E; [|done]. destruct (proj2 (inv_dom _ _ HI x) (mk_is_Some _ _ E)). congruence. }
    rewrite He. change (default (@nil SpillEntry) None) with (@nil SpillEntry). cbn [set_state with_stats inflight]. rewrite lookup_insert_eq. split; [|split; [done|]; split; [by right|done]].
    destruct HI as [H1 H2 H3 H4 H5 H6 H7 H8]. split; cbn [set_state with_stats with_gauges inflight stats xacts_active st_bytes_in_memory spill_xacts_active
      spill_bytes_active bytes_in_memory stash_live]; rewrite ?(msum_insert _ _ _ _ Hx); cbn [in_mem_bytes new_state spilled_one spilled_bytes stashed spill stash_rfns is_some]; try done.
    + intros y. destruct (decide (x = y)) as [<-|]; [rewrite !lookup_insert_eq; done|]. by rewrite !lookup_insert_ne.
    + intros y sy ey. destruct (decide (x = y)) as [<-|]; [|rewrite !lookup_insert_ne by done; apply H2].
      rewrite !lookup_insert_eq. intros [= <-] [= <-]. split; cbn; try done; [|set_solver]. exists []. done.
    + rewrite map_size_insert_None by done. lia.
Qed.

(** ** Events and marks *)
Lemma inv_push_drain_entry b hist x lsn e : Inv b hist -> Inv (push_drain_entry b x lsn e) (opened hist x).
Proof.
  intros HI. destruct (inv_state_for b hist x lsn HI) as (es & He & HI' & Hx & _). unfold push_drain_entry.
  destruct (state_for b x lsn) as [b' st]. stats_cbn. pose proof (inv_state _ _ HI' _ _ _ Hx He) as [S1 S2 S3 S4 S5].
  eapply inv_hist; [|eapply inv_update with (es' := es); [exact HI'|exact Hx|exact He|reflexivity|..]; try done; stats_cbn].
  all: try (intros y; by rewrite insert_id); try (by split); try lia; try apply HI'; unfold spilled_one, spilled_bytes, stashed; stats_cbn; lia.
Qed.

Lemma inv_mark_stash b hist x lsn rfn pf : Inv b hist -> Inv (mark_stash b x lsn rfn pf) (opened hist x).
Proof.
  intros HI. destruct (inv_state_for b hist x lsn HI) as (es & He & HI' & Hx & _). unfold mark_stash.
  destruct (state_for b x lsn) as [b' st]. stats_cbn. pose proof (inv_state _ _ HI' _ _ _ Hx He) as [S1 S2 S3 S4 S5].
  destruct (stash_rfns st !! rfn) as [m|] eqn:Em; cbv zeta; stats_cbn.
  all: eapply inv_hist; [|eapply inv_update with (es' := es); [exact HI'|exact Hx|exact He|reflexivity|..]; try done; stats_cbn].
  all: try (intros y; by rewrite insert_id); try (by split); try lia; try apply HI'; try (unfold spilled_one, spilled_bytes; stats_cbn; lia).
  - unfold stashed. stats_cbn. rewrite map_size_insert_Some by (by eexists). lia.
  - unfold stashed. stats_cbn. rewrite map_size_insert_None by done. lia.
Qed.

Lemma inv_note_smgr_create b hist x rfn lsn : Inv b hist -> Inv (note_smgr_create b x rfn lsn) (if x =? 0 then hist else opened hist x).
Proof.
  intros HI. unfold note_smgr_create.
  destruct (if bool_decide (markers b !! rfn = Some lsn) then _ else _) as [m order].
  set (b1 := MkBuffer (inflight b) _ _ _ _ _ _ _). assert (Inv b1 hist) as HI1 by (destruct HI; by split).
  destruct (x =? 0); [done|]. by apply inv_mark_stash.
Qed.

(** ** Eviction *)
Lemma inv_evict b hist x : Inv b hist -> Inv (evict_xact b x) hist.
Proof.
  intros HI. unfold evict_xact. destruct (inflight b !! x) as [st|] eqn:Hx; [|done].
  destruct (proj1 (inv_dom _ _ HI x) (mk_is_Some _ _ Hx)) as [es He]. pose proof (inv_state _ _ HI _ _ _ Hx He) as [S1 S2 S3 S4 S5].
  assert (in_mem_bytes st <= bytes_in_memory b) as Hle.
  { rewrite (inv_bytes _ _ HI). apply (msum_le in_mem_bytes _ x); [|done]. intros j y Hj. by eapply inv_bytes_nonneg. }
  pose proof (inv_bytes_nonneg _ _ _ _ HI Hx) as Hnn.
  eapply inv_hist; [|eapply inv_update with (es' := es); [exact HI|exact Hx|exact He|reflexivity|..]; stats_cbn; try done].
  - intros y. by rewrite insert_id.
  - destruct S1 as (bs & Hb & Hc). split; stats_cbn; try done.
    exists (bs ++ [in_mem st]). rewrite concat_app. cbn [concat]. rewrite !app_nil_r. split; [|done].
    split; [by intros [_ ?]%app_eq_nil|]. rewrite fold_left_app. cbn [fold_left]. f_equal. destruct (spill st) as [w|]; [by destruct Hb as [_ ->]|].
    by rewrite Hb.
  - unfold sat_sub. lia.
  - unfold spilled_one. stats_cbn. destruct (spill st); cbn [is_some negb]; lia.
  - unfold spilled_bytes at 2. stats_cbn. rewrite S3. lia.
  - unfold stashed. stats_cbn. lia.
Qed.

(** What eviction never touches. *)
Definition view (st : XactState) : Z * list (Z * DrainEntry) * gmap RelFileNode StashMark := (first_lsn st, events st, stash_rfns st).

Definition same_views (b b' : XactBuffer) : Prop := forall x, view <$> inflight b' !! x = view <$> inflight b !! x.

Lemma evict_same b x : same_rest b (evict_xact b x) /\ same_views b (evict_xact b x).
Proof.
  unfold evict_xact. destruct (inflight b !! x) as [st|] eqn:Hx; [|by repeat split]. split; [by repeat split|]. intros y. stats_cbn.
  destruct (decide (x = y)) as [<-|]; [|by rewrite lookup_insert_ne]. by rewrite lookup_insert_eq, Hx.
Qed.

(** ** The eviction loop ends inside the budget *)
Lemma max_by_key_spec {A} (key : A -> Z) l : match max_by_key key l with
  | Some x => x ∈ l /\ forall y, y ∈ l -> key y <= key x
  | None => l = []
  end.
Proof.
  unfold max_by_key. assert (forall best, match fold_left (fun best x => match best with None => Some x | Some y => if key y <=? key x then Some x else best end) l best with
    | Some x => (best = Some x \/ x ∈ l) /\ (forall y, y ∈ l \/ best = Some y -> key y <= key x)
    | None => l = [] /\ best = None
    end) as Hgo.
  { induction l as [|a l IH]; intros best; cbn [fold_left].
    - destruct best as [x|]; [|done]. split; [by left|]. intros y [Hy|[= <-]]; [by apply not_elem_of_nil in Hy|done].
    - specialize (IH (match best with None => Some a | Some y => if key y <=? key a then Some a else best end)).
      destruct (fold_left _ l _) as [x|]; [|by destruct IH as [_ ?]; destruct best; [destruct (_ <=? _)|]].
      destruct IH as [Hin Hmax]. destruct best as [y|]; [destruct (Z.leb_spec (key y) (key a))|].
      + split; [destruct Hin as [[= <-]|]; right; set_solver|]. intros z [Hz|[= <-]]; [|pose proof (Hmax a ltac:(auto)); lia].
        apply elem_of_cons in Hz as [->|]; apply Hmax; auto.
      + split; [destruct Hin as [[= <-]|]; [by left|right; set_solver]|]. intros z [Hz|[= <-]]; [|apply Hmax; auto].
        apply elem_of_cons in Hz as [->|]; [pose proof (Hmax y ltac:(auto)); lia|apply Hmax; auto].
      + split; [destruct Hin as [[= <-]|]; right; set_solver|]. intros z [Hz|Hz]; [|done]. apply elem_of_cons in Hz as [->|]; apply Hmax; auto. }
  specialize (Hgo None). destruct (fold_left _ l None) as [x|]; [|by destruct Hgo]. destruct Hgo as [[?|?] Hm]; [done|]. split; [done|]. intros y Hy. apply Hm. by left.
Qed.

Section Evict.
Context (cfg : XactBufferConfig) (iter : gmap Z XactState -> list (Z * XactState)).
Hypothesis iter_perm : forall m, iter m ≡ₚ map_to_list m.
Hypothesis max_nonneg : 0 <= xact_buffer_max cfg.

(** Transactions with entries in memory. *)
Definition resident (st : XactState) : Z := match in_mem st with [] => 0 | _ => 1 end.

Lemma largest_spec b hist : Inv b hist -> match largest iter b with
  | Some x => exists st, inflight b !! x = Some st /\ in_mem st <> [] /\ forall y sy, inflight b !! y = Some sy -> in_mem sy <> [] -> in_mem_bytes sy <= in_mem_bytes st
  | None => bytes_in_memory b = 0
  end.
Proof.
  intros HI. unfold largest.
  assert (forall x st, (x, st) ∈ filter (fun xs : Z * XactState => in_mem xs.2 <> []) (iter (inflight b)) <-> inflight b !! x = Some st /\ in_mem st <> []) as Hin.
  { intros x st. rewrite list_elem_of_filter, iter_perm, elem_of_map_to_list. cbn. tauto. }
  pose proof (max_by_key_spec (fun xs : Z * XactState => in_mem_bytes xs.2) (filter (fun xs : Z * XactState => in_mem xs.2 <> []) (iter (inflight b)))) as Hm.
  destruct (max_by_key _ _) as [[x st]|]; cbn [fmap option_fmap option_map fst].
  - destruct Hm as [[Hx Hne]%Hin Hmax]. exists st. split; [done|]. split; [done|]. intros y sy Hy Hney. apply (Hmax (y, sy)), Hin. done.
  - rewrite (inv_bytes _ _ HI). assert (forall x st, inflight b !! x = Some st -> in_mem_bytes st = 0) as Hz.
    { intros x st Hx. destruct (proj1 (inv_dom _ _ HI x) (mk_is_Some _ _ Hx)) as [es He]. rewrite (so_bytes _ _ _ (inv_state _ _ HI _ _ _ Hx He)).
      destruct (in_mem st) as [|e l] eqn:E; [done|]. assert ((x, st) ∈ filter (fun xs : Z * XactState => in_mem xs.2 <> []) (iter (inflight b))) as Hin2.
      { apply Hin. by rewrite E. } rewrite Hm in Hin2. by apply not_elem_of_nil in Hin2. }
    clear -Hz. induction (inflight b) as [|i x m Hi IH] using map_ind; [done|]. rewrite msum_insert by done.
    rewrite (Hz i x) by apply lookup_insert_eq. rewrite IH; [done|]. intros j y Hj. apply (Hz j). rewrite lookup_insert_ne; [done|congruence].
Qed.

Lemma maybe_evict_spec hist fuel : forall b, Inv b hist -> msum resident (inflight b) < Z.of_nat fuel ->
  Inv (maybe_evict cfg iter fuel b) hist /\ bytes_in_memory (maybe_evict cfg iter fuel b) <= xact_buffer_max cfg /\
  same_rest b (maybe_evict cfg iter fuel b) /\ same_views b (maybe_evict cfg iter fuel b).
Proof.
  assert (forall m, 0 <= msum resident m) as Hr by (intros m; apply msum_nonneg; intros _ x _; unfold resident; by destruct (in_mem x)).
  induction fuel as [|fuel IH]; intros b HI Hf; [specialize (Hr (inflight b)); lia|]. cbn [maybe_evict].
  destruct (Z.ltb_spec (xact_buffer_max cfg) (bytes_in_memory b)) as [Hlt|Hle]; [|split; [done|]; split; [lia|]; split; [by repeat split|by intros y]].
  pose proof (largest_spec b hist HI) as HL. destruct (largest iter b) as [x|]; [|lia]. destruct HL as (st & Hx & Hne & _).
  destruct (IH (evict_xact b x)) as (I1 & I2 & I3 & I4).
  - by apply inv_evict.
  - unfold evict_xact. rewrite Hx. stats_cbn. rewrite (msum_update _ _ _ _ _ Hx). unfold resident at 2 3. stats_cbn. destruct (in_mem st); [done|lia].
  - split; [done|]. split; [done|]. destruct (evict_same b x) as [E1 E2]. split; [exact (same_rest_trans _ _ _ E1 I3)|].
    intros y. by rewrite I4, E2.
Qed.

Lemma resident_size (m : gmap Z XactState) : msum resident m <= Z.of_nat (size m).
Proof.
  induction m as [|i x m Hi IH] using map_ind; [by rewrite msum_empty|]. rewrite msum_insert, map_size_insert_None by done.
  unfold resident at 1. destruct (in_mem x); lia.
Qed.

(** *** Absorbing an entry *)
Lemma inv_absorb b hist x f e : Inv b hist -> bytes_in_memory b <= xact_buffer_max cfg -> (forall h, e = EHeap h -> xid (decoded h) = x) ->
  Inv (absorb cfg iter b x f e) (<[x := default [] (hist !! x) ++ [e]]> hist) /\
  bytes_in_memory (absorb cfg iter b x f e) <= xact_buffer_max cfg /\
  same_rest b (absorb cfg iter b x f e) /\
  (forall y, view <$> inflight (absorb cfg iter b x f e) !! y = if decide (y = x) then view <$> Some (default (new_state f) (inflight b !! x)) else view <$> inflight b !! y).
Proof.
  intros HI Hmax Hown. destruct (inv_state_for b hist x f HI) as (es & He & HI' & Hx & Hcase & Hsame & Hb). unfold absorb.
  destruct (state_for b x f) as [b1 st] eqn:Es. stats_cbn. pose proof (inv_state _ _ HI' _ _ _ Hx He) as [S1 S2 S3 S4 S5].
  set (b2 := MkBuffer (<[x := _]> (inflight b1)) _ _ _ _ _ _ _).
  assert (es = default [] (hist !! x)) as Ees by (unfold opened in He; rewrite lookup_insert_eq in He; by injection He).
  assert (Inv b2 (<[x := default [] (hist !! x) ++ [e]]> hist)) as HI2.
  { eapply (inv_hist _ (<[x := es ++ [e]]> (opened hist x))); [intros y; unfold opened; by rewrite Ees, insert_insert_eq|].
    eapply inv_update; [exact HI'|exact Hx|exact He|reflexivity|..]; subst b2; stats_cbn; try done.
    - destruct S1 as (bs & Hbs & Hc). split; stats_cbn; try done.
      + exists bs. split; [done|]. by rewrite app_assoc, Hc.
      + rewrite sizes_app, S2. unfold sizes at 3. cbn [map zsum fold_right]. lia.
      + rewrite forallb_app, S4. cbn [forallb plain_entry]. by rewrite andb_true_r.
      + intros h. rewrite elem_of_app, list_elem_of_singleton. intros [?|<-]; [by apply S5|]. by apply Hown.
    - lia.
    - unfold spilled_one. stats_cbn. lia.
    - unfold spilled_bytes. stats_cbn. lia.
    - unfold stashed. stats_cbn. lia. }
  assert (forall y, view <$> inflight b2 !! y = if decide (y = x) then view <$> Some (default (new_state f) (inflight b !! x)) else view <$> inflight b !! y) as Hv.
  { intros y. subst b2. stats_cbn. case_decide as Hy; [subst y; rewrite lookup_insert_eq|rewrite lookup_insert_ne by done].
    - cbn [fmap option_fmap option_map]. f_equal. destruct Hcase as [[_ ->]|(_ & -> & ->)]; done.
    - destruct Hcase as [[-> _]|(-> & _ & _)]; [done|by rewrite lookup_insert_ne]. }
  assert (same_rest b b2) as Hs2 by (destruct Hsame as (? & ? & ? & ?); subst b2; by repeat split).
  destruct (Z.ltb_spec (xact_buffer_max cfg) (bytes_in_memory b1 + approximate_size e)) as [Hlt|Hge].
  - destruct (maybe_evict_spec (<[x := default [] (hist !! x) ++ [e]]> hist) (S (size (inflight b2))) b2 HI2) as (I1 & I2 & I3 & I4).
    { pose proof (resident_size (inflight b2)). lia. }
    split; [done|]. split; [done|]. split; [|intros y; by rewrite I4].
    exact (same_rest_trans _ _ _ Hs2 I3).
  - done.
Qed.

End Evict.

(** ** Transactions end *)
Definition resync (b : XactBuffer) : XactBuffer :=
  let s := stats b in
  with_stats b (with_gauges s (xacts_active s) (bytes_in_memory b) (xacts_total s) (spill_xacts_active s) (spill_bytes_active s)).

Lemma inv_resync b hist : Inv b hist -> Inv (resync b) hist.
Proof. intros []. by split. Qed.

Lemma spilled_nonneg (st : XactState) : 0 <= spilled_bytes st /\ 0 <= spilled_one st /\ 0 <= stashed st.
Proof.
  unfold spilled_bytes, spilled_one, stashed, byte_count. destruct (spill st) as [w|]; cbn [is_some]; [|lia].
  pose proof (zlen_nonneg (file (wout w))). pose proof (zlen_nonneg (wbuf (wout w))). lia.
Qed.

Lemma inv_dom_delete b b' hist x : Inv b hist -> inflight b' = delete x (inflight b) ->
  (forall y, is_Some (inflight b' !! y) <-> is_Some (delete x hist !! y)) /\
  (forall y st es, inflight b' !! y = Some st -> delete x hist !! y = Some es -> state_ok y st es).
Proof.
  intros HI E. split.
  - intros y. rewrite E. destruct (decide (x = y)) as [<-|]; [rewrite !lookup_delete_eq; split; by intros [? ?]|]. rewrite !lookup_delete_ne by done. apply HI.
  - intros y st es. rewrite E. rewrite !lookup_delete_Some. intros [_ Hy] [_ He]. by eapply inv_state.
Qed.

Lemma inv_discard b hist x : Inv (resync b) hist -> Inv (resync (discard_state b x)) (delete x hist).
Proof.
  intros HI. unfold discard_state. destruct (inflight b !! x) as [st|] eqn:Hx.
  2:{ eapply inv_hist; [|exact HI]. intros y. rewrite delete_id; [done|]. destruct (hist !! x) eqn:E; [|done].
      destruct (proj2 (inv_dom _ _ HI x) (mk_is_Some _ _ E)) as [? Hs]. change (inflight (resync b)) with (inflight b) in Hs. congruence. }
  assert (0 <= msum in_mem_bytes (delete x (inflight b))) as N1.
  { apply msum_nonneg. intros y sy [_ Hy]%lookup_delete_Some. by apply (inv_bytes_nonneg (resync b) hist y). }
  assert (0 <= msum spilled_bytes (delete x (inflight b))) as N2 by (apply msum_nonneg; intros; apply spilled_nonneg).
  assert (0 <= msum spilled_one (delete x (inflight b))) as N3 by (apply msum_nonneg; intros; apply spilled_nonneg).
  set (b' := let '(_, _) := _ in _). assert (inflight b' = delete x (inflight b)) as E by (subst b'; by destruct (spill st)).
  destruct (inv_dom_delete (resync b) (resync b') hist x HI E) as [D1 D2].
  destruct HI as [_ _ H3 H4 H5 H6 H7 H8]. unfold resync in *. stats_cbn.
  split; [exact D1|exact D2|..]; unfold resync; stats_cbn; rewrite ?E; try done.
  all: subst b'; rewrite ?(msum_delete _ _ _ _ Hx) in *; unfold spilled_one at 1 in H6; unfold spilled_bytes at 1 in H7; unfold stashed at 1 in H8.
  all: destruct (spill st); cbn [is_some] in *; stats_cbn; unfold sat_sub; try lia.
  all: rewrite map_size_delete_Some by (by eexists); pose proof (map_size_ne_0_lookup_2 _ x ltac:(by eexists) : size (inflight b) <> 0%nat); lia.
Qed.

Lemma discard_fold xids : forall (b : XactBuffer) hist, Inv (resync b) hist ->
  Inv (resync (fold_left discard_state xids b)) (deletes hist xids).
Proof. induction xids as [|x xids IH]; intros b hist HI; [done|]. cbn [fold_left deletes]. by apply IH, inv_discard. Qed.

Lemma discard_inflight xids : forall (b : XactBuffer) y, inflight (fold_left discard_state xids b) !! y = if bool_decide (y ∈ xids) then None else inflight b !! y.
Proof.
  induction xids as [|x xids IH]; intros b y; [done|]. cbn [fold_left]. rewrite IH.
  assert (inflight (discard_state b x) !! y = if decide (y = x) then None else inflight b !! y) as ->.
  { unfold discard_state. destruct (inflight b !! x) as [st|] eqn:Hx; [|case_decide; [by subst|done]]. destruct (spill st); stats_cbn;
      (case_decide; [subst; apply lookup_delete_eq|rewrite lookup_delete_ne by congruence; done]). }
  case_decide as Hy; [subst|]; [rewrite (bool_decide_true (x ∈ x :: xids)) by set_solver; by destruct (bool_decide _)|].
  rewrite (bool_decide_ext (y ∈ x :: xids) (y ∈ xids)) by set_solver. done.
Qed.

Lemma discard_rest xids : forall (b : XactBuffer), pending_durable (fold_left discard_state xids b) = pending_durable b /\
  min_commit_lsn (fold_left discard_state xids b) = min_commit_lsn b.
Proof.
  induction xids as [|x xids IH]; intros b; [done|]. cbn [fold_left]. destruct (IH (discard_state b x)) as [-> ->].
  unfold discard_state. destruct (inflight b !! x) as [st|]; [|done]. by destruct (spill st).
Qed.

Lemma inv_stats (b : XactBuffer) s hist : Inv b hist -> xacts_active s = xacts_active (stats b) -> st_bytes_in_memory s = st_bytes_in_memory (stats b) ->
  spill_xacts_active s = spill_xacts_active (stats b) -> spill_bytes_active s = spill_bytes_active (stats b) -> Inv (with_stats b s) hist.
Proof. intros [] E1 E2 E3 E4. split; stats_cbn; rewrite ?E1, ?E2, ?E3, ?E4; done. Qed.

Lemma inv_discard_states b hist xids : Inv b hist -> Inv (discard_states b xids).1 (deletes hist xids).
Proof. intros HI. apply (discard_fold xids b hist), inv_resync, HI. Qed.

Lemma inv_abort b hist x lsn subs : Inv b hist -> Inv (abort b x lsn subs) (deletes hist (x :: subs)).
Proof.
  intros HI. unfold abort. assert (Inv (with_stats b (advance_drain (stats b) lsn)) hist) as HI1 by (by apply inv_stats).
  pose proof (inv_discard_states _ _ (x :: subs) HI1) as HI2. destruct (discard_states _ _) as [b2 any]. cbn [fst] in HI2.
  destruct any; by apply inv_stats.
Qed.

(** *** A commit takes its states out *)
Fixpoint taken (m : gmap Z XactState) (xids : list Z) : list (Z * XactState) :=
  match xids with
  | [] => []
  | x :: xids => match m !! x with Some st => (x, st) :: taken (delete x m) xids | None => taken m xids end
  end.

Lemma take_loop xids : forall m acc,
  fold_left (fun (ms : gmap Z XactState * list XactState) x => match ms.1 !! x with Some st => (delete x ms.1, ms.2 ++ [st]) | None => ms end) xids (m, acc) =
  (deletes m xids, acc ++ map snd (taken m xids)).
Proof.
  induction xids as [|x xids IH]; intros m acc; [cbn; by rewrite app_nil_r|]. cbn [fold_left taken fst snd]. destruct (m !! x) as [st|] eqn:Hx.
  - rewrite IH. cbn [map snd]. by rewrite <-app_assoc.
  - rewrite IH. unfold deletes. cbn [fold_left]. by rewrite delete_id.
Qed.

Lemma taken_sum (f : XactState -> Z) xids : forall m, msum f m = zsum (map f (map snd (taken m xids))) + msum f (deletes m xids).
Proof.
  induction xids as [|x xids IH]; intros m; [cbn; lia|]. cbn [taken]. unfold deletes. cbn [fold_left]. fold (deletes (delete x m) xids).
  destruct (m !! x) as [st|] eqn:Hx; cbn [map snd zsum fold_right].
  - rewrite (msum_delete f m x st Hx), (IH (delete x m)). unfold zsum. lia.
  - rewrite delete_id by done. apply IH.
Qed.

Lemma taken_elem xids : forall m x st, (x, st) ∈ taken m xids -> x ∈ xids /\ m !! x = Some st.
Proof.
  induction xids as [|y xids IH]; intros m x st; cbn [taken]; [by intros ?%not_elem_of_nil|]. destruct (m !! y) as [sy|] eqn:Hy.
  - rewrite !elem_of_cons. intros [[= -> ->]|[? [_ ?]%lookup_delete_Some]%IH]; auto.
  - intros [? ?]%IH. set_solver.
Qed.

Lemma taken_nil xids : forall m, taken m xids = [] -> forall x, x ∈ xids -> m !! x = None.
Proof.
  induction xids as [|y xids IH]; intros m; cbn [taken]; [set_solver|]. destruct (m !! y) eqn:Hy; [done|]. intros Ht x [->|Hx]%elem_of_cons; [done|]. by apply IH.
Qed.

Lemma sat_fold (f : XactState -> Z) l : (forall st, st ∈ l -> 0 <= f st) -> forall n, zsum (map f l) <= n ->
  fold_left (fun n st => sat_sub n (f st)) l n = n - zsum (map f l).
Proof.
  induction l as [|st l IH]; intros Hf n Hn; cbn [fold_left map zsum fold_right] in *; [lia|]. pose proof (Hf st ltac:(set_solver)).
  assert (0 <= zsum (map f l)) by (apply zsum_nonneg, Forall_elem; intros x (s & -> & Hs)%list_elem_of_fmap; apply Hf; set_solver).
  unfold zsum in *. rewrite IH; [unfold sat_sub; lia|set_solver|unfold sat_sub; lia].
Qed.

Lemma release_fold l : forall (b : XactBuffer), zsum (map spilled_one l) <= spill_xacts_active (stats b) -> zsum (map spilled_bytes l) <= spill_bytes_active (stats b) ->
  let b' := fold_left release_spill l b in
  spill_xacts_active (stats b') = spill_xacts_active (stats b) - zsum (map spilled_one l) /\
  spill_bytes_active (stats b') = spill_bytes_active (stats b) - zsum (map spilled_bytes l) /\
  xacts_active (stats b') = xacts_active (stats b) /\ st_bytes_in_memory (stats b') = st_bytes_in_memory (stats b) /\
  inflight b' = inflight b /\ bytes_in_memory b' = bytes_in_memory b /\ stash_live b' = stash_live b /\ same_rest b b'.
Proof.
  induction l as [|st l IH]; intros b H1 H2; cbn [fold_left map zsum fold_right] in *; [cbn; repeat split; lia|].
  assert (forall f : XactState -> Z, (forall s, 0 <= f s) -> 0 <= zsum (map f l)) as Hnn
    by (intros f Hf; apply zsum_nonneg, Forall_elem; intros x (s & -> & _)%list_elem_of_fmap; apply Hf).
  pose proof (Hnn spilled_one (fun s => proj1 (proj2 (spilled_nonneg s)))). pose proof (Hnn spilled_bytes (fun s => proj1 (spilled_nonneg s))).
  pose proof (spilled_nonneg st) as (? & ? & _).
  assert (spill_xacts_active (stats (release_spill b st)) = spill_xacts_active (stats b) - spilled_one st /\
          spill_bytes_active (stats (release_spill b st)) = spill_bytes_active (stats b) - spilled_bytes st) as [E1 E2].
  { unfold release_spill, spilled_one, spilled_bytes in *. unfold zsum in *. destruct (spill st); cbn [is_some] in *; stats_cbn; unfold sat_sub; lia. }
  unfold zsum in *. destruct (IH (release_spill b st)) as (F1 & F2 & F3 & F4 & F5 & F6 & F7 & F8); [lia|lia|].
  cbv zeta in *. rewrite F1, F2, F3, F4, F5, F6, F7, E1, E2. split; [lia|]. split; [lia|]. unfold release_spill in *. by destruct (spill st).
Qed.

Lemma fold_sub_ones (l : list XactState) : forall n, Z.of_nat (length l) <= n -> fold_left (fun n _ => sat_sub n 1) l n = n - Z.of_nat (length l).
Proof. induction l as [|st l IH]; intros n Hn; cbn [fold_left length] in *; [lia|]. rewrite IH; unfold sat_sub; lia. Qed.

Lemma deletes_size (m : gmap Z XactState) xids : Z.of_nat (size m) = Z.of_nat (length (taken m xids)) + Z.of_nat (size (deletes m xids)).
Proof.
  revert m. induction xids as [|x xids IH]; intros m; [cbn; lia|]. cbn [taken]. unfold deletes. cbn [fold_left]. fold (deletes (delete x m) xids).
  destruct (m !! x) as [st|] eqn:Hx; [|rewrite delete_id by done; apply IH]. cbn [length]. specialize (IH (delete x m)).
  rewrite map_size_delete_Some in IH by (by eexists). pose proof (map_size_ne_0_lookup_2 m x ltac:(by eexists)). lia.
Qed.

(** The books after the states are gone and their files released. *)
Lemma inv_released b b1 hist xids (l := map snd (taken (inflight b) xids)) : Inv b hist -> inflight b1 = deletes (inflight b) xids ->
  bytes_in_memory b1 = bytes_in_memory b - zsum (map in_mem_bytes l) -> st_bytes_in_memory (stats b1) = bytes_in_memory b1 ->
  xacts_active (stats b1) = xacts_active (stats b) - Z.of_nat (length l) ->
  spill_xacts_active (stats b1) = spill_xacts_active (stats b) -> spill_bytes_active (stats b1) = spill_bytes_active (stats b) ->
  stash_live b1 = stash_live b - zsum (map stashed l) -> Inv (fold_left release_spill l b1) (deletes hist xids).
Proof.
  intros HI E1 E2 E3 E4 E5 E6 E7. pose proof HI as [H1 H2 H3 H4 H5 H6 H7 H8].
  assert (forall f, msum f (inflight b) = zsum (map f l) + msum f (deletes (inflight b) xids)) as Hsum by (intros f; apply taken_sum).
  assert (forall f : XactState -> Z, (forall s, 0 <= f s) -> zsum (map f l) <= msum f (inflight b)) as Hle.
  { intros f Hf. rewrite (Hsum f). pose proof (msum_nonneg f (deletes (inflight b) xids) ltac:(auto)). lia. }
  pose proof (deletes_size (inflight b) xids) as Hsize. assert (length l = length (taken (inflight b) xids)) as Hlen by apply length_map.
  pose proof (Hle spilled_one (fun s => proj1 (proj2 (spilled_nonneg s)))) as L1. pose proof (Hle spilled_bytes (fun s => proj1 (spilled_nonneg s))) as L2.
  destruct (release_fold l b1) as (F1 & F2 & F3 & F4 & F5 & F6 & F7 & _); [lia|lia|]. cbv zeta in *.
  split; rewrite ?F1, ?F2, ?F3, ?F4, ?F5, ?F6, ?F7, ?E1.
  - intros y. rewrite !deletes_lookup. destruct (bool_decide (y ∈ xids)); [split; by intros [? ?]|apply H1].
  - intros y st es. rewrite !deletes_lookup. destruct (bool_decide (y ∈ xids)); [done|apply H2].
  - specialize (Hsum in_mem_bytes). lia.
  - lia.
  - lia.
  - specialize (Hsum spilled_one). lia.
  - specialize (Hsum spilled_bytes). lia.
  - specialize (Hsum stashed). lia.
Qed.

Lemma inv_take b hist lsn xids : Inv b hist ->
  Inv (fold_left release_spill (take_states b lsn xids).2 (take_states b lsn xids).1) (deletes hist xids) /\
  (take_states b lsn xids).2 = (if lsn <? min_commit_lsn b then [] else map snd (taken (inflight b) xids)).
Proof.
  intros HI. unfold take_states. destruct (lsn <? min_commit_lsn b).
  { pose proof (inv_discard_states _ _ xids (inv_stats b (advance_drain (stats b) lsn) hist HI eq_refl eq_refl eq_refl eq_refl)) as HI2.
    destruct (discard_states _ _) as [b2 any]. cbn [fst snd fold_left] in *. split; [|done]. by apply inv_stats. }
  rewrite take_loop. cbn [app]. assert (forall st, st ∈ map snd (taken (inflight b) xids) -> 0 <= in_mem_bytes st) as Hpos.
  { intros st ([x sx] & -> & [_ Hx]%taken_elem)%list_elem_of_fmap. by eapply inv_bytes_nonneg. }
  pose proof (taken_sum in_mem_bytes xids (inflight b)) as Hsum. pose proof (deletes_size (inflight b) xids) as Hsize.
  assert (0 <= msum in_mem_bytes (deletes (inflight b) xids)) as Hnn.
  { apply msum_nonneg. intros y sy Hy. rewrite deletes_lookup in Hy. destruct (bool_decide _); [done|]. by eapply inv_bytes_nonneg. }
  pose proof (inv_released b) as HR. pose proof (inv_bytes _ _ HI). pose proof (inv_active _ _ HI).
  assert (length (map snd (taken (inflight b) xids)) = length (taken (inflight b) xids)) as Hlen by apply length_map.
  destruct (map snd (taken (inflight b) xids)) as [|st0 rest] eqn:El; (split; [|done]); cbn [fst snd].
  - specialize (fun b1 => HR b1 hist xids HI). cbv zeta in HR. rewrite El in HR. apply HR; stats_cbn; cbn [map zsum fold_right length] in *; try done; try lia.
    apply HI.
  - rewrite <-El in *. apply HR; stats_cbn; try done.
    + apply sat_fold; [done|lia].
    + rewrite fold_sub_ones by lia. done.
Qed.

End Proofs.

End XactBufferProofs.
