(* ===== verification/DescLog.v ===== *)
(** * The descriptor log ([src/catalog/desc_log.rs])

    Relation shapes by log position: the in-memory index and its lookups,
    compaction at the resume floor, and the two files - a checkpoint replaced
    atomically and an appended tail - that a restart rebuilds the index from.
    The file contents are part of the state; the operating system calls around
    them are not. *)
From S2P Require Import Prelude Text WalRecord HeapDecode Wire DescCodec.
Import WalRecord Schema Wire DescCodec.

(** CRC32C comes from the [crc32c] crate; it answers a [u32]. *)
Class Crc32c := MkCrc { crc32c : list Z -> Z; crc32c_u32 : forall b, fits 32 (crc32c b) }.

Module DescLog.

(** ** Equality of stored records ([PartialEq]) *)
#[global] Instance missing_eq_dec : EqDecision MissingDefault.
Proof. solve_decision. Defined.
#[global] Instance attr_eq_dec : EqDecision RelAttr.
Proof. solve_decision. Defined.
#[global] Instance replident_eq_dec : EqDecision ReplIdent.
Proof. solve_decision. Defined.

Fixpoint desc_eq (d d' : RelDescriptor) {struct d} : {d = d'} + {d <> d'}.
Proof.
  decide equality; try apply (decide (_ = _)). apply (List.list_eq_dec desc_eq).
Defined.
#[global] Instance desc_eq_dec : EqDecision RelDescriptor := desc_eq.

#[global] Instance log_value_eq_dec : EqDecision LogValue.
Proof. solve_decision. Defined.
#[global] Instance entry_eq_dec : EqDecision LogEntry.
Proof. solve_decision. Defined.
#[global] Instance scope_eq_dec : EqDecision AmbiguityScope.
Proof. solve_decision. Defined.
#[global] Instance amb_eq_dec : EqDecision Ambiguity.
Proof. solve_decision. Defined.
#[global] Instance obs_kind_eq_dec : EqDecision ObservationKind.
Proof. solve_decision. Defined.
#[global] Instance obs_eq_dec : EqDecision RelationObservation.
Proof. solve_decision. Defined.
#[global] Instance batch_eq_dec : EqDecision BatchRecord.
Proof. solve_decision. Defined.

(** ** The index *)
Record DescLogIdentity := MkIdentity { pg_major : Z; system_id : list Z; timeline : Z; db_oid : Z; wal_seg_size : Z }.

Inductive LookupResult :=
| LPresent (d : RelDescriptor)
| LDropped
| LRetired
| LAmbiguous (a : Ambiguity)
| LNotCovered
| LForeignDb.

(** An [Arc<LogEntry>]: the allocation, told apart by the batch and the place
    in it the entry was allocated for, and what it points to. *)
Record ArcEntry := MkArc { ptr : Z * Z; entry : LogEntry }.

(** An [Arc<BatchRecord>]: its entries shared with the chains. *)
Record Held := MkHeld
  { h_captured_at : Z; h_commit_lsn : Z; h_observations : list RelationObservation; h_ambiguities : list Ambiguity;
    h_entries : list ArcEntry }.

Fixpoint arcs (c i : Z) (es : list LogEntry) : list ArcEntry :=
  match es with [] => [] | e :: es => MkArc (c, i) e :: arcs c (i + 1) es end.

Definition hold (b : BatchRecord) : Held :=
  MkHeld (captured_at b) (commit_lsn b) (observations b) (ambiguities b) (arcs (captured_at b) 0 (entries b)).

Definition record (h : Held) : BatchRecord :=
  MkBatch (h_captured_at h) (h_commit_lsn h) (h_observations h) (h_ambiguities h) (map entry (h_entries h)).

Record Slot := MkSlot { s_valid_from : Z; s_captured_at : Z; s_entry : ArcEntry }.

(** [batches] is the [BTreeMap], ascending by key. *)
Record Index := MkIndex
  { by_rfn : gmap RelFileNode (list Slot); by_oid : gmap Z (list Slot); amb_rfn : gmap RelFileNode (list Ambiguity);
    amb_oid : gmap Z (list Ambiguity); amb_db : gmap Z (list Ambiguity); batches : list (Z * Held);
    covered_through : Z; floor_at_write : Z; entries_total : Z }.

Definition default_index : Index := MkIndex ∅ ∅ ∅ ∅ ∅ [] 0 0 0.

(** [partition_point] on a list its predicate partitions. *)
Fixpoint partition_point {A} (p : A -> bool) (l : list A) : nat :=
  match l with
  | x :: l => if p x then S (partition_point p l) else O
  | [] => O
  end.

Definition insert_at {A} (n : nat) (x : A) (l : list A) : list A := take n l ++ x :: drop n l.

(** [<=] on pairs of [u64]. *)
Definition key_le (a b : Z * Z) : bool := (a.1 <? b.1) || ((a.1 =? b.1) && (a.2 <=? b.2)).

Definition slot_key (s : Slot) : Z * Z := (s_valid_from s, s_captured_at s).
Definition amb_key (a : Ambiguity) : Z * Z := (from_lsn a, through_lsn a).

Definition insert_sorted (chain : list Slot) (slot : Slot) : list Slot :=
  insert_at (partition_point (fun s => key_le (slot_key s) (slot_key slot)) chain) slot chain.

Definition insert_amb (l : list Ambiguity) (a : Ambiguity) : list Ambiguity :=
  insert_at (partition_point (fun b => key_le (amb_key b) (amb_key a)) l) a l.

Definition file_amb (idx : Index) (a : Ambiguity) : Index :=
  let into {K} `{Countable K} (m : gmap K (list Ambiguity)) (k : K) := <[k := insert_amb (default [] (m !! k)) a]> m in
  match scope a with
  | ScopeRfn r => MkIndex (by_rfn idx) (by_oid idx) (into (amb_rfn idx) r) (amb_oid idx) (amb_db idx) (batches idx)
                    (covered_through idx) (floor_at_write idx) (entries_total idx)
  | ScopeOid o => MkIndex (by_rfn idx) (by_oid idx) (amb_rfn idx) (into (amb_oid idx) o) (amb_db idx) (batches idx)
                    (covered_through idx) (floor_at_write idx) (entries_total idx)
  | ScopeDatabase d => MkIndex (by_rfn idx) (by_oid idx) (amb_rfn idx) (amb_oid idx) (into (amb_db idx) d) (batches idx)
                         (covered_through idx) (floor_at_write idx) (entries_total idx)
  end.

Definition is_retired (v : LogValue) : bool := match v with Retired => true | _ => false end.
Definition is_present (v : LogValue) : bool := match v with Present _ => true | _ => false end.

Definition file_entry (captured : Z) (idx : Index) (a : ArcEntry) : Index :=
  let slot := MkSlot (valid_from (entry a)) captured a in
  let into {K} `{Countable K} (m : gmap K (list Slot)) (k : K) := <[k := insert_sorted (default [] (m !! k)) slot]> m in
  MkIndex (into (by_rfn idx) (erfn (entry a)))
    (if is_retired (value (entry a)) then by_oid idx else into (by_oid idx) (eoid (entry a)))
    (amb_rfn idx) (amb_oid idx) (amb_db idx) (batches idx) (covered_through idx) (floor_at_write idx) (entries_total idx + 1).

Definition set_batches (idx : Index) (bs : list (Z * Held)) : Index :=
  MkIndex (by_rfn idx) (by_oid idx) (amb_rfn idx) (amb_oid idx) (amb_db idx) bs
    (covered_through idx) (floor_at_write idx) (entries_total idx).

Definition set_meta (idx : Index) (covered floor : Z) : Index :=
  MkIndex (by_rfn idx) (by_oid idx) (amb_rfn idx) (amb_oid idx) (amb_db idx) (batches idx) covered floor (entries_total idx).

Definition insert_batch (idx : Index) (h : Held) : Index :=
  let idx := fold_left file_amb (h_ambiguities h) idx in
  let idx := fold_left (file_entry (h_captured_at h)) (h_entries h) idx in
  set_batches idx (btree_insert (h_captured_at h) h (batches idx)).

(** ** Lookups *)
Definition ambiguity_covering (l : option (list Ambiguity)) (lsn : Z) : option Ambiguity :=
  let* l := l in
  List.find (fun a => lsn <? through_lsn a) (rev (take (partition_point (fun a => from_lsn a <=? lsn) l) l)).

(** [chain[..pos].last()]. *)
Definition last_at (chain : list Slot) (lsn : Z) : option Slot :=
  list.last (take (partition_point (fun s => s_valid_from s <=? lsn) chain) chain).

Definition lookup_spanned (chain : option (list Slot)) (lsn : Z) : result LookupResult (RelDescriptor * Z) :=
  match chain with
  | None => Err LNotCovered
  | Some chain =>
      match last_at chain lsn with
      | None => Err LNotCovered
      | Some slot =>
          match value (entry (s_entry slot)) with
          | Present d => Ok (d, s_valid_from slot)
          | Dropped => Err LDropped
          | Retired => Err LRetired
          end
      end
  end.

Definition fenced (amb : option Ambiguity) (chain : option (list Slot)) (lsn : Z) : result LookupResult (RelDescriptor * Z) :=
  match amb with
  | Some a => Err (LAmbiguous a)
  | None => lookup_spanned chain lsn
  end.

Definition peek_spanned (id : DescLogIdentity) (idx : Index) (r : RelFileNode) (lsn : Z) : result LookupResult (RelDescriptor * Z) :=
  if negb (db_node r =? 0) && negb (db_node r =? db_oid id) then Err LForeignDb
  else fenced (opt_or (ambiguity_covering (amb_rfn idx !! r) lsn) (ambiguity_covering (amb_db idx !! db_node r) lsn)) (by_rfn idx !! r) lsn.

Definition descriptor_by_oid_at_spanned (id : DescLogIdentity) (idx : Index) (o lsn : Z) : result LookupResult (RelDescriptor * Z) :=
  fenced (opt_or (ambiguity_covering (amb_oid idx !! o) lsn) (ambiguity_covering (amb_db idx !! db_oid id) lsn)) (by_oid idx !! o) lsn.

Definition descriptor_by_oid_in_db_at_spanned (id : DescLogIdentity) (idx : Index) (db o lsn : Z)
    : result LookupResult (RelDescriptor * Z) :=
  if negb (db =? db_oid id) then Err LForeignDb else descriptor_by_oid_at_spanned id idx o lsn.

Definition plain (r : result LookupResult (RelDescriptor * Z)) : LookupResult :=
  match r with Ok x => LPresent x.1 | Err e => e end.

Definition descriptor_at (id : DescLogIdentity) (idx : Index) (r : RelFileNode) (lsn : Z) : LookupResult :=
  plain (peek_spanned id idx r lsn).

Definition descriptor_by_oid_at (id : DescLogIdentity) (idx : Index) (o lsn : Z) : LookupResult :=
  plain (descriptor_by_oid_at_spanned id idx o lsn).

Definition head (idx : Index) : Z := default 0 (fst <$> list.last (batches idx)).

Definition is_empty (idx : Index) : bool := (match batches idx with [] => true | _ => false end) && (covered_through idx =? 0).

Definition batch_at (idx : Index) (c : Z) : option BatchRecord := record <$> btree_get c (batches idx).

Definition present_of (s : Slot) : option RelDescriptor := match value (entry (s_entry s)) with Present d => Some d | _ => None end.

Definition present_before (idx : Index) (r : RelFileNode) (lsn : Z) : option RelDescriptor :=
  let* chain := by_rfn idx !! r in
  List.hd_error (omap present_of (rev (take (partition_point (fun s => s_valid_from s <=? lsn) chain) chain))).

Definition predecessor_before (idx : Index) (o c : Z) : option LogEntry :=
  let* chain := by_oid idx !! o in
  (fun s => entry (s_entry s)) <$> list.last (take (partition_point (fun s => s_captured_at s <? c) chain) chain).

(** Collected in map order, which the source leaves unspecified. *)
Definition present_oids (idx : Index) : gset Z :=
  let live (kc : Z * list Slot) := match list.last kc.2 with Some s => is_present (value (entry (s_entry s))) | None => false end in
  dom (filter (fun kc => live kc = true) (by_oid idx)).

Definition active_present_at (idx : Index) (lsn : Z) : list RelDescriptor :=
  omap (fun kc => match lookup_spanned (Some kc.2) lsn with Ok x => Some x.1 | Err _ => None end) (map_to_list (by_oid idx)).

(** The list before the final sort.  Each interval is filed under one key, so
    no allocation comes twice. *)
Definition ambiguities_intersecting (id : DescLogIdentity) (idx : Index) (r : RelFileNode) (o : option Z) (from through : Z)
    : list Ambiguity :=
  if negb (db_node r =? 0) && negb (db_node r =? db_oid id) then []
  else List.filter (fun a => (from_lsn a <? through) && (from <? through_lsn a))
    (default [] (amb_rfn idx !! r) ++ default [] (o ≫= fun o => amb_oid idx !! o) ++ default [] (amb_db idx !! db_node r)).

(** ** Compaction *)
Definition keep_chain (floor : Z) (chain : list Slot) (keep : gset (Z * Z)) : gset (Z * Z) :=
  match last_at chain floor with
  | Some s => if is_present (value (entry (s_entry s))) then {[ ptr (s_entry s) ]} ∪ keep else keep
  | None => keep
  end.

Definition keep_at_floor (idx : Index) (floor : Z) : gset (Z * Z) :=
  let keep := map_fold (fun _ => keep_chain floor) ∅ (by_rfn idx) in
  map_fold (fun _ => keep_chain floor) keep (by_oid idx).

Definition retains (floor : Z) (keep : gset (Z * Z)) (a : ArcEntry) : bool :=
  (floor <? valid_from (entry a)) || bool_decide (ptr a ∈ keep).

Definition droppable_entries (idx : Index) (floor : Z) : Z :=
  let keep := keep_at_floor idx floor in
  zlen (List.filter (fun a => negb (retains floor keep a))
    (concat (map (fun kb => h_entries kb.2) (List.filter (fun kb => kb.1 <=? floor) (batches idx))))).

Definition retain_batch (floor : Z) (keep : gset (Z * Z)) (out : Index) (kb : Z * Held) : Index :=
  let '(captured, b) := kb in
  if floor <? captured then insert_batch out b
  else
    let es := List.filter (retains floor keep) (h_entries b) in
    let ambs := List.filter (fun a => floor <? through_lsn a) (h_ambiguities b) in
    if (zlen es =? 0) && (zlen ambs =? 0) then out
    else insert_batch out (MkHeld captured (h_commit_lsn b) (h_observations b) ambs es).

Definition compute_retained (idx : Index) (floor : Z) : Index :=
  fold_left (retain_batch floor (keep_at_floor idx floor)) (batches idx)
    (set_meta default_index (covered_through idx) (floor_at_write idx)).

(** ** The files *)
Definition MAGIC : list Z := [87; 76].
Definition MAX_FRAME : Z := 256 * 1024 * 1024.
Definition GC_DEAD_ENTRIES : Z := 512.
Definition GC_TAIL_BYTES : Z := 8 * 1024 * 1024.

Inductive LogFile := Ckpt | Tail.
Inductive IdField := FPgMajor | FSystemId | FTimeline | FDbOid | FWalSegSize.

Inductive Detail :=
| WireDetail (e : WireError)
| BadMagic
| SeedOnNonEmpty
| AppendDiverges (captured : Z)
| TornHeader
| PastEof (len : Z)
| ExceedsBound (len : Z)
| CrcFinal
| CrcInterior
| BatchDiverges (captured : Z)
| UnknownFrame (tag : Z).

Inductive DescLogError :=
| Version (v : Z)
| ForeignLog (f : IdField)
| Corrupt (f : LogFile) (offset : Z) (d : Detail).

Definition offset_of (e : WireError) : Z :=
  match e with ShortRead o _ _ | BadUtf8 o | UnknownTag o _ | Malformed o => o end.

(** [?] on a [Cur] over a part of the file starting at [base]. *)
Definition cur {A} (f : LogFile) (base : Z) (r : result WireError A) : result DescLogError A :=
  match r with Ok x => Ok x | Err e => Err (Corrupt f (base + offset_of e) (WireDetail e)) end.

Section Files.
Context `{Crc32c}.

Definition encode_header (id : DescLogIdentity) : list Z :=
  MAGIC ++ push_u16 VERSION ++ push_u32 (pg_major id) ++ push_bytes (system_id id) ++ push_u32 (timeline id) ++
  push_u32 (db_oid id) ++ push_u32 (wal_seg_size id).

Definition push_frame (body : list Z) : list Z := push_u32 (zlen body) ++ push_u32 (crc32c body) ++ body.

Definition encode_meta (covered floor : Z) : list Z := push_u8 TAG_META ++ push_u64 covered ++ push_u64 floor.

Definition encode_ckpt (id : DescLogIdentity) (covered floor : Z) (bs : list BatchRecord) : list Z :=
  encode_header id ++ push_frame (encode_meta covered floor) ++ concat (map (fun b => push_frame (encode_batch b)) bs).

Definition decode_identity : P DescLogIdentity :=
  let! m := u32 in let! s := string in let! t := u32 in let! d := u32 in let! w := u32 in ret (MkIdentity m s t d w).

(** The comparisons of [check_identity]. *)
Definition compare_identity (log ours : DescLogIdentity) (lineage : list Z) : option IdField :=
  if negb (pg_major log =? pg_major ours) then Some FPgMajor
  else if negb (bool_decide (system_id log = system_id ours)) then Some FSystemId
  else if negb (timeline log =? timeline ours) && negb (existsb (Z.eqb (timeline log)) lineage) then Some FTimeline
  else if negb (db_oid log =? db_oid ours) then Some FDbOid
  else if negb (wal_seg_size log =? wal_seg_size ours) then Some FWalSegSize
  else None.

Definition check_identity (f : LogFile) (c : Cursor) (ours : DescLogIdentity) (lineage : list Z) : result DescLogError Cursor :=
  let? ic := cur f 0 (decode_identity c) in
  match compare_identity ic.1 ours lineage with
  | Some field => Err (ForeignLog field)
  | None => Ok ic.2
  end.

(** A frame's body, at offset [start] of the file. *)
Definition load_body (f : LogFile) (start version : Z) (body : list Z) (idx : Index) : result DescLogError Index :=
  let base := start + 8 in
  let? tc := cur f base (u8 (MkCur body 0)) in
  if tc.1 =? TAG_META then
    let? cc := cur f base (u64 tc.2) in
    let? fc := cur f base (u64 cc.2) in
    Ok (set_meta idx cc.1 fc.1)
  else if tc.1 =? TAG_BATCH then
    let? bc := cur f base (decode_batch version tc.2) in
    match btree_get (captured_at bc.1) (batches idx) with
    | Some existing =>
        if bool_decide (record existing = bc.1) then Ok idx else Err (Corrupt f start (BatchDiverges (captured_at bc.1)))
    | None => Ok (insert_batch idx (hold bc.1))
    end
  else Err (Corrupt f base (UnknownFrame tc.1)).

(** The loop of [load_frames] from [pos], which is also [good]: the index
    and the offset after the last good frame.  A turn takes eight bytes. *)
Fixpoint frames (fuel : nat) (f : LogFile) (repairable : bool) (version : Z) (bytes : list Z) (pos : Z) (idx : Index)
    : result DescLogError (Index * Z) :=
  match fuel with
  | O => Ok (idx, pos)
  | S fuel =>
      let torn d := if repairable then Ok (idx, pos) else Err (Corrupt f pos d) in
      if pos =? zlen bytes then Ok (idx, pos)
      else if zlen bytes - pos <? 8 then torn TornHeader
      else
        let len := u32_at bytes pos in
        let crc := u32_at bytes (pos + 4) in
        let body_end := pos + 8 + len in
        if zlen bytes <? body_end then torn (PastEof len)
        else if MAX_FRAME <? len then Err (Corrupt f pos (ExceedsBound len))
        else
          let body := sub bytes (pos + 8) body_end in
          if negb (crc32c body =? crc) then
            if body_end =? zlen bytes then torn CrcFinal else Err (Corrupt f pos CrcInterior)
          else
            let? idx := load_body f pos version body idx in
            frames fuel f repairable version bytes body_end idx
  end.

(** The index, the offset after the last good frame and the version. *)
Definition load_frames (bytes : list Z) (f : LogFile) (ours : DescLogIdentity) (lineage : list Z) (idx : Index) (repairable : bool)
    : result DescLogError (Index * Z * Z) :=
  let? mc := cur f 0 (need 2 (MkCur bytes 0)) in
  if negb (bool_decide (mc.1 = MAGIC)) then Err (Corrupt f 0 BadMagic)
  else
    let? vc := cur f 0 (u16 mc.2) in
    if negb ((MIN_VERSION <=? vc.1) && (vc.1 <=? VERSION)) then Err (Version vc.1)
    else
      let? c := check_identity f vc.2 ours lineage in
      let? ig := frames (S (length bytes)) f repairable vc.1 bytes (cpos c) idx in
      Ok (ig, vc.1).

(** ** The log *)
Record Disk := MkDisk { ckpt_file : option (list Z); tail_file : option (list Z) }.

Record Log := MkLog { identity : DescLogIdentity; index : Index; disk : Disk; tail_len : Z }.

Definition tail_bytes (l : Log) : list Z := default [] (tail_file (disk l)).
Definition header_len (l : Log) : Z := zlen (encode_header (identity l)).

Definition open_on_branch (d : Disk) (id : DescLogIdentity) (lineage : list Z) : result DescLogError Log :=
  let? iv := match ckpt_file d with
             | Some bytes => let? igv := load_frames bytes Ckpt id lineage default_index false in Ok (igv.1.1, igv.2 <? VERSION)
             | None => Ok (default_index, false)
             end in
  let '(idx, legacy) := iv in
  let header := encode_header id in
  let? igl := match tail_file d with
              | Some bytes =>
                  let? igv := load_frames bytes Tail id lineage idx true in
                  Ok (igv.1.1, ztake igv.1.2 bytes, legacy || (igv.2 <? VERSION))
              | None => Ok (idx, header, legacy)
              end in
  let '(idx, tail, legacy) := igl in
  if legacy then
    let ckpt := encode_ckpt id (covered_through idx) (floor_at_write idx) (map (fun kb => record kb.2) (batches idx)) in
    Ok (MkLog id idx (MkDisk (Some ckpt) (Some header)) (zlen header))
  else Ok (MkLog id idx (MkDisk (ckpt_file d) (Some tail)) (zlen tail)).

Definition open (d : Disk) (id : DescLogIdentity) : result DescLogError Log := open_on_branch d id [].

Definition seed (l : Log) (b : BatchRecord) (covered : Z) : result DescLogError Log :=
  if negb (is_empty (index l)) then Err (Corrupt Ckpt 0 SeedOnNonEmpty)
  else
    let bytes := encode_header (identity l) ++ push_frame (encode_meta covered 0) ++ push_frame (encode_batch b) in
    let idx := insert_batch (set_meta (index l) covered (floor_at_write (index l))) (hold b) in
    Ok (MkLog (identity l) idx (MkDisk (Some bytes) (tail_file (disk l))) (tail_len l)).

(** The batch a re-read boundary names again: the same one, or an error. *)
Definition append_batch (l : Log) (b : BatchRecord) : result DescLogError Log :=
  match btree_get (captured_at b) (batches (index l)) with
  | Some existing =>
      if bool_decide (record existing = b) then Ok l else Err (Corrupt Tail (tail_len l) (AppendDiverges (captured_at b)))
  | None =>
      let tail := tail_bytes l ++ push_frame (encode_batch b) in
      Ok (MkLog (identity l) (insert_batch (index l) (hold b)) (MkDisk (ckpt_file (disk l)) (Some tail)) (zlen tail))
  end.

(** The checkpoint [gc_locked] writes, and the log after it. *)
Definition gc_ckpt (l : Log) (retained : Index) (floor : Z) : list Z :=
  encode_ckpt (identity l) (covered_through retained) floor (map (fun kb => record kb.2) (batches retained)).

Definition gc_locked (l : Log) (retained : Index) (floor : Z) : Log :=
  let retained := set_meta retained (covered_through retained) floor in
  MkLog (identity l) retained (MkDisk (Some (gc_ckpt l retained floor)) (Some (ztake (header_len l) (tail_bytes l)))) (header_len l).

Definition maybe_gc (l : Log) (floor : Z) : Log * bool :=
  if (droppable_entries (index l) floor <? GC_DEAD_ENTRIES) && (tail_len l - header_len l <? GC_TAIL_BYTES) then (l, false)
  else (gc_locked l (compute_retained (index l) floor) floor, true).

End Files.

End DescLog.
