(* ===== verification/DescLogProofs.v ===== *)
(** * Compaction keeps every answer

    The index files every entry and interval of its batches under its keys, in
    order; a lookup answers from the newest one at or below its position.
    Compaction at a floor changes no descriptor and no fence at or above the
    floor. *)
From Stdlib Require Import Sorted.
From S2P Require Import Prelude Text WalRecord HeapDecode Wire DescCodec DescLog.
Import WalRecord Schema DescCodec DescLog.

Module DescLogIndex.

(** ** Sorted lists *)
Section Ordered.
Context {A : Type} (R : A -> A -> Prop) `{HT : Transitive A R}.

Lemma sorted_app l1 l2 : StronglySorted R (l1 ++ l2) <->
  StronglySorted R l1 /\ StronglySorted R l2 /\ forall x y, x ∈ l1 -> y ∈ l2 -> R x y.
Proof.
  induction l1 as [|a l1 IH]; cbn [app].
  - split; [intros H; repeat split; [constructor|done|set_solver]|by intros (_ & H & _)].
  - split.
    + intros [H1 H2]%StronglySorted_inv. apply IH in H1 as (S1 & S2 & HR). rewrite List.Forall_app in H2. destruct H2 as [F1 F2].
      repeat split; [by constructor|done|]. intros x y Hx Hy. apply elem_of_cons in Hx as [->|Hx]; [|by apply HR].
      rewrite List.Forall_forall in F2. apply F2. by apply list_elem_of_In.
    + intros ([S1 F1]%StronglySorted_inv & S2 & HR). constructor.
      * apply IH. split; [done|]. split; [done|]. intros x y Hx Hy. apply HR; [set_solver|done].
      * rewrite List.Forall_app. split; [done|]. rewrite List.Forall_forall. intros y Hy. apply HR; [set_solver|by apply list_elem_of_In].
Qed.

(** [partition_point] splits a list at the first element that fails. *)
Lemma partition_split (p : A -> bool) l : exists l1 l2, l = l1 ++ l2 /\ take (partition_point p l) l = l1 /\
  drop (partition_point p l) l = l2 /\ (forall y, y ∈ l1 -> p y = true) /\ (l2 = [] \/ exists z l3, l2 = z :: l3 /\ p z = false).
Proof.
  induction l as [|a l (l1 & l2 & E & E1 & E2 & H1 & H2)].
  - exists [], []. split; [done|]. split; [done|]. split; [done|]. split; [set_solver|by left].
  - cbn [partition_point]. destruct (p a) eqn:Ep.
    + exists (a :: l1), l2. cbn [take drop]. rewrite E1, E2. split; [by rewrite E|].
      split; [done|]. split; [done|]. split; [|done]. intros y Hy. apply elem_of_cons in Hy as [->|Hy]; [done|by apply H1].
    + exists [], (a :: l). split; [done|]. split; [done|]. split; [done|]. split; [set_solver|]. right. by exists a, l.
Qed.

Lemma insert_at_elem (n : nat) (x : A) l y : y ∈ insert_at n x l <-> y = x \/ y ∈ l.
Proof.
  unfold insert_at. rewrite <- (take_drop n l) at 3. rewrite !elem_of_app, elem_of_cons. tauto.
Qed.

Lemma insert_at_sorted (p : A -> bool) x l : StronglySorted R l -> (forall y, y ∈ l -> p y = true -> R y x) ->
  (forall y, y ∈ l -> p y = false -> R x y) -> StronglySorted R (insert_at (partition_point p l) x l).
Proof.
  intros Hs Hlo Hhi. unfold insert_at. destruct (partition_split p l) as (l1 & l2 & E & -> & -> & H1 & H2). subst l.
  apply sorted_app in Hs as (S1 & S2 & HR). apply sorted_app. split; [done|]. split.
  - constructor; [done|]. destruct H2 as [->|(z & l3 & -> & Hz)]; [constructor|].
    assert (R x z) by (apply Hhi; [set_solver|done]). constructor; [done|]. apply StronglySorted_inv in S2 as [_ F].
    eapply Forall_impl; [|exact F]. intros y Hy. by transitivity z.
  - intros y z Hy Hz. apply elem_of_cons in Hz as [->|Hz]; [|by apply HR]. apply Hlo; [set_solver|by apply H1].
Qed.

(** A predicate closed downwards is a prefix. *)
Lemma taken_iff (p : A -> bool) l y : StronglySorted R l -> (forall a b, R a b -> p b = true -> p a = true) ->
  y ∈ take (partition_point p l) l <-> y ∈ l /\ p y = true.
Proof.
  intros Hs Hd. destruct (partition_split p l) as (l1 & l2 & -> & -> & _ & H1 & H2). split.
  - intros Hy. split; [set_solver|by apply H1].
  - intros [Hy Hp]. apply elem_of_app in Hy as [Hy|Hy]; [done|]. exfalso.
    destruct H2 as [->|(z & l3 & -> & Hz)]; [set_solver|]. apply sorted_app in Hs as (_ & [_ F]%StronglySorted_inv & _).
    apply elem_of_cons in Hy as [->|Hy]; [congruence|]. rewrite List.Forall_forall in F.
    rewrite (Hd z y) in Hz; [done| |done]. apply F. by apply list_elem_of_In.
Qed.

Lemma taken_sorted (p : A -> bool) l : StronglySorted R l -> StronglySorted R (take (partition_point p l) l).
Proof. intros Hs. rewrite <- (take_drop (partition_point p l) l) in Hs. by apply sorted_app in Hs as (? & _). Qed.

(** The first match from the end is the newest one. *)
Definition newest (P : A -> Prop) (l : list A) (x : A) : Prop := x ∈ l /\ P x /\ forall y, y ∈ l -> P y -> y = x \/ R y x.

Lemma find_rev_newest (q : A -> bool) l : StronglySorted R l ->
  match List.find q (rev l) with
  | Some x => newest (fun y => q y = true) l x
  | None => forall y, y ∈ l -> q y = false
  end.
Proof.
  intros Hs. induction l as [|x l IH] using rev_ind; [cbn; set_solver|].
  apply sorted_app in Hs as (S1 & _ & HR). rewrite rev_app_distr. cbn [rev app List.find]. destruct (q x) eqn:Eq.
  - split; [set_solver|]. split; [done|]. intros y Hy _. apply elem_of_app in Hy as [Hy|Hy]; [right; apply HR; set_solver|left; set_solver].
  - specialize (IH S1). destruct (List.find q (rev l)) as [z|].
    + destruct IH as (Hz & Hq & Hall). split; [set_solver|]. split; [done|]. intros y Hy Hqy.
      apply elem_of_app in Hy as [Hy|Hy]; [by apply Hall|]. assert (y = x) as -> by set_solver. congruence.
    + intros y Hy. apply elem_of_app in Hy as [Hy|Hy]; [by apply IH|]. assert (y = x) as -> by set_solver. done.
Qed.

Lemma last_find (l : list A) : list.last l = List.find (fun _ => true) (rev l).
Proof. induction l as [|x l IH] using rev_ind; [done|]. by rewrite last_snoc, rev_app_distr. Qed.

End Ordered.

(** ** The two orders *)
Definition place (s : Slot) : Z := (ptr (s_entry s)).2.

Definition slt (a b : Slot) : Prop :=
  s_valid_from a < s_valid_from b \/
  (s_valid_from a = s_valid_from b /\ (s_captured_at a < s_captured_at b \/ (s_captured_at a = s_captured_at b /\ place a < place b))).

#[local] Instance slt_trans : Transitive slt.
Proof. intros a b c. unfold slt. lia. Qed.

Lemma slt_irrefl a : ~ slt a a.
Proof. unfold slt. lia. Qed.

Definition ale (a b : Ambiguity) : Prop := key_le (amb_key a) (amb_key b) = true.

Lemma key_le_spec a b : key_le a b = true <-> a.1 < b.1 \/ (a.1 = b.1 /\ a.2 <= b.2).
Proof. unfold key_le. rewrite orb_true_iff, andb_true_iff, Z.ltb_lt, Z.eqb_eq, Z.leb_le. done. Qed.

#[local] Instance ale_trans : Transitive ale.
Proof. intros a b c. unfold ale. rewrite !key_le_spec. lia. Qed.

Lemma ale_antisym a b : scope a = scope b -> ale a b -> ale b a -> a = b.
Proof. unfold ale. rewrite !key_le_spec. destruct a, b; cbn. intros -> H1 H2. f_equal; lia. Qed.

(** ** Maps of sorted chains *)
Section Keyed.
Context {A K : Type} `{Countable K} (R : A -> A -> Prop) (key : A -> option K) (ins : list A -> A -> list A).

Definition at_key (m : gmap K (list A)) (k : K) : list A := default [] (m !! k).

(** Every element of [all] is filed under its key, each list sorted. *)
Definition keyed (m : gmap K (list A)) (all : list A) : Prop :=
  forall k, StronglySorted R (at_key m k) /\ forall x, x ∈ at_key m k <-> x ∈ all /\ key x = Some k.

Definition file (m : gmap K (list A)) (x : A) : gmap K (list A) :=
  match key x with Some k => <[k := ins (at_key m k) x]> m | None => m end.

Lemma keyed_file m all x : keyed m all ->
  (forall k, key x = Some k -> StronglySorted R (ins (at_key m k) x) /\ forall y, y ∈ ins (at_key m k) x <-> y = x \/ y ∈ at_key m k) ->
  keyed (file m x) (x :: all).
Proof.
  intros Hm Hins k. unfold file. destruct (key x) as [kx|] eqn:Ex.
  - destruct (decide (k = kx)) as [->|Hne].
    + destruct (Hins kx eq_refl) as [HS HE]. unfold at_key. rewrite lookup_insert_eq. cbn [default from_option Datatypes.id].
      split; [exact HS|]. intros y. rewrite HE. destruct (Hm kx) as [_ He]. rewrite He, elem_of_cons. naive_solver.
    + unfold at_key. rewrite lookup_insert_ne by done. destruct (Hm k) as [HS He]. split; [exact HS|].
      intros y. unfold at_key in He. rewrite He, elem_of_cons. naive_solver.
  - destruct (Hm k) as [HS He]. split; [exact HS|]. intros y. rewrite He, elem_of_cons. naive_solver.
Qed.

Lemma keyed_ext m all all' : (forall x, x ∈ all <-> x ∈ all') -> keyed m all -> keyed m all'.
Proof. intros He Hm k. destruct (Hm k) as [HS Hk]. split; [done|]. intros x. by rewrite Hk, He. Qed.

Lemma keyed_empty : keyed ∅ [].
Proof. intros k. unfold at_key. rewrite lookup_empty. split; [constructor|]. cbn. set_solver. Qed.
End Keyed.

Definition rfn_key (s : Slot) : option RelFileNode := Some (erfn (entry (s_entry s))).
Definition oid_key (s : Slot) : option Z :=
  let e := entry (s_entry s) in if is_retired (value e) then None else Some (eoid e).
Definition amb_rfn_key (a : Ambiguity) : option RelFileNode := match scope a with ScopeRfn r => Some r | _ => None end.
Definition amb_oid_key (a : Ambiguity) : option Z := match scope a with ScopeOid o => Some o | _ => None end.
Definition amb_db_key (a : Ambiguity) : option Z := match scope a with ScopeDatabase d => Some d | _ => None end.

Lemma insert_sorted_spec chain s : StronglySorted slt chain ->
  (forall y, y ∈ chain -> s_captured_at y = s_captured_at s -> place y < place s) ->
  StronglySorted slt (insert_sorted chain s) /\ forall y, y ∈ insert_sorted chain s <-> y = s \/ y ∈ chain.
Proof.
  intros Hs Hc. split; [|intros y; apply insert_at_elem]. apply insert_at_sorted; [apply _|done|..].
  - intros y Hy Hle. apply key_le_spec in Hle. cbn [slot_key fst snd] in Hle. specialize (Hc y Hy). unfold slt. lia.
  - intros y Hy Hle. apply not_true_iff_false in Hle. rewrite key_le_spec in Hle. cbn [slot_key fst snd] in Hle. unfold slt. lia.
Qed.

Lemma insert_amb_spec l a : StronglySorted ale l ->
  StronglySorted ale (insert_amb l a) /\ forall y, y ∈ insert_amb l a <-> y = a \/ y ∈ l.
Proof.
  intros Hs. split; [|intros y; apply insert_at_elem]. apply insert_at_sorted; [apply _|done|done|].
  intros y Hy Hle. apply not_true_iff_false in Hle. unfold ale. rewrite key_le_spec in *. cbn in *. lia.
Qed.

(** ** What an index holds *)
Record holds (idx : Index) (slots : list Slot) (ambs : list Ambiguity) : Prop := {
  holds_rfn : keyed slt rfn_key (by_rfn idx) slots;
  holds_oid : keyed slt oid_key (by_oid idx) slots;
  holds_amb_rfn : keyed ale amb_rfn_key (amb_rfn idx) ambs;
  holds_amb_oid : keyed ale amb_oid_key (amb_oid idx) ambs;
  holds_amb_db : keyed ale amb_db_key (amb_db idx) ambs }.

Lemma file_amb_holds idx slots ambs a : holds idx slots ambs -> holds (file_amb idx a) slots (a :: ambs).
Proof.
  intros [H1 H2 H3 H4 H5]. unfold file_amb.
  assert (forall K `{Countable K} (key : Ambiguity -> option K) m, keyed ale key m ambs -> keyed ale key (file key insert_amb m a) (a :: ambs)) as Hf.
  { intros K ? ? key m Hm. apply keyed_file; [done|]. intros k _. apply insert_amb_spec. apply Hm. }
  pose proof (Hf _ _ _ _ _ H3) as F3. pose proof (Hf _ _ _ _ _ H4) as F4. pose proof (Hf _ _ _ _ _ H5) as F5.
  unfold file, amb_rfn_key, amb_oid_key, amb_db_key in F3, F4, F5. destruct (scope a); by split.
Qed.

Definition slot_of (c : Z) (a : ArcEntry) : Slot := MkSlot (valid_from (entry a)) c a.

Lemma file_entry_holds c idx slots ambs a : holds idx slots ambs ->
  (forall y, y ∈ slots -> s_captured_at y = c -> place y < (ptr a).2) ->
  holds (file_entry c idx a) (slot_of c a :: slots) ambs.
Proof.
  intros [H1 H2 H3 H4 H5] Hp.
  assert (forall K `{Countable K} (key : Slot -> option K) m, keyed slt key m slots -> keyed slt key (file key insert_sorted m (slot_of c a)) (slot_of c a :: slots)) as Hf.
  { intros K ? ? key m Hm. apply keyed_file; [done|]. intros k _. destruct (Hm k) as [HS HE].
    apply insert_sorted_spec; [done|]. intros y Hy Hc. apply HE in Hy as [Hy _]. by apply Hp. }
  pose proof (Hf _ _ _ _ _ H1) as F1. pose proof (Hf _ _ _ _ _ H2) as F2. unfold file, rfn_key, oid_key in F1, F2. cbn [s_entry slot_of] in F1, F2.
  split; cbn [by_rfn by_oid amb_rfn amb_oid amb_db file_entry]; [exact F1| |done..]. by destruct (is_retired (value (entry a))).
Qed.

(** The allocations of a batch: its own, in order. *)
Definition held_ok (h : Held) : Prop :=
  Forall (fun a => (ptr a).1 = h_captured_at h) (h_entries h) /\ StronglySorted (fun a b => (ptr a).2 < (ptr b).2) (h_entries h).

Definition slots_of (h : Held) : list Slot := map (slot_of (h_captured_at h)) (h_entries h).
Definition all_slots (bs : list (Z * Held)) : list Slot := concat (map (fun kb => slots_of kb.2) bs).
Definition all_ambs (bs : list (Z * Held)) : list Ambiguity := concat (map (fun kb => h_ambiguities kb.2) bs).

Record idx_ok (idx : Index) : Prop := {
  ok_holds : holds idx (all_slots (batches idx)) (all_ambs (batches idx));
  ok_held : Forall (fun kb => kb.1 = h_captured_at kb.2 /\ held_ok kb.2) (batches idx);
  ok_keys : StronglySorted Z.lt (map fst (batches idx));
  ok_total : entries_total idx = zlen (all_slots (batches idx)) }.

Lemma hold_ok b : held_ok (hold b).
Proof.
  unfold held_ok, hold. cbn [h_entries h_captured_at]. generalize 0. induction (entries b) as [|e es IH]; intros i; cbn [arcs].
  - split; constructor.
  - destruct (IH (i + 1)) as [H1 H2]. split; constructor; [done..|].
    assert (forall j, i < j -> Forall (fun a => i < (ptr a).2) (arcs (captured_at b) j es)) as Hj.
    { clear. induction es as [|e es IH]; intros j Hj; constructor; [done|]. apply IH. lia. }
    apply Hj. lia.
Qed.

Lemma record_hold b : record (hold b) = b.
Proof.
  unfold record, hold. cbn [h_captured_at h_commit_lsn h_observations h_ambiguities h_entries]. destruct b as [c l o a es]. cbn. f_equal.
  generalize 0. induction es as [|e es IH]; intros i; [done|]. cbn [arcs map entry]. by rewrite IH.
Qed.

Lemma file_ambs_holds ambs idx slots all : holds idx slots all ->
  exists all', holds (fold_left file_amb ambs idx) slots all' /\ (forall a, a ∈ all' <-> a ∈ ambs \/ a ∈ all) /\
    batches (fold_left file_amb ambs idx) = batches idx /\ entries_total (fold_left file_amb ambs idx) = entries_total idx.
Proof.
  revert idx all. induction ambs as [|a ambs IH]; intros idx all Hh; cbn [fold_left].
  - exists all. split; [done|]. split; [set_solver|done].
  - destruct (IH _ _ (file_amb_holds idx slots all a Hh)) as (all' & H1 & H2 & H3 & H4). exists all'. split; [done|].
    split; [set_solver|]. rewrite H3, H4. unfold file_amb. by destruct (scope a).
Qed.

Lemma file_entries_holds c es idx slots ambs : holds idx slots ambs -> StronglySorted (fun a b => (ptr a).2 < (ptr b).2) es ->
  (forall y a, y ∈ slots -> a ∈ es -> s_captured_at y = c -> place y < (ptr a).2) ->
  exists slots', holds (fold_left (file_entry c) es idx) slots' ambs /\
    (forall s, s ∈ slots' <-> s ∈ map (slot_of c) es \/ s ∈ slots) /\
    batches (fold_left (file_entry c) es idx) = batches idx /\ entries_total (fold_left (file_entry c) es idx) = entries_total idx + zlen es.
Proof.
  revert idx slots. induction es as [|a es IH]; intros idx slots Hh Hs Hp; cbn [fold_left map].
  - exists slots. split; [done|]. split; [set_solver|]. split; [done|]. change (zlen []) with 0. lia.
  - apply StronglySorted_inv in Hs as [Hs HF]. rewrite List.Forall_forall in HF.
    destruct (IH (file_entry c idx a) (slot_of c a :: slots)) as (slots' & H1 & H2 & H3 & H4).
    + apply file_entry_holds; [done|]. intros y Hy. by apply Hp; [|set_solver].
    + done.
    + intros y b Hy Hb Hc. apply elem_of_cons in Hy as [->|Hy]; [|by apply Hp; [|set_solver|]].
      apply HF. by apply list_elem_of_In.
    + exists slots'. split; [done|]. split; [set_solver|]. split; [by rewrite H3|]. rewrite H4, zlen_cons. cbn. lia.
Qed.

(** ** The ordered map *)
Lemma concat_elem {A B} (f : A -> list B) l x : x ∈ concat (map f l) <-> exists a, a ∈ l /\ x ∈ f a.
Proof.
  induction l as [|a l IH]; cbn [map concat]; [set_solver|]. rewrite elem_of_app, IH. set_solver.
Qed.

Lemma btree_insert_sum {A B} (f : Z * A -> list B) k v l : btree_get k l = None ->
  zlen (concat (map f (btree_insert k v l))) = zlen (f (k, v)) + zlen (concat (map f l)).
Proof.
  induction l as [|[k' v'] l IH]; cbn [btree_insert btree_get map concat]; [intros _; zlen|].
  destruct (Z.eqb_spec k k') as [->|Hne]; [done|]. intros Hg. destruct (Z.ltb_spec k k'); cbn [map concat].
  - by rewrite zlen_app.
  - rewrite !zlen_app, (IH Hg). lia.
Qed.

(** ** Inserting a batch *)
Lemma insert_batch_ok idx h : idx_ok idx -> held_ok h -> btree_get (h_captured_at h) (batches idx) = None ->
  idx_ok (insert_batch idx h) /\ batches (insert_batch idx h) = btree_insert (h_captured_at h) h (batches idx).
Proof.
  intros [Hh Hheld Hkeys Htot] [Hf Hs] Hg. unfold insert_batch.
  destruct (file_ambs_holds (h_ambiguities h) idx _ _ Hh) as (all' & A1 & A2 & A3 & A4).
  destruct (file_entries_holds (h_captured_at h) (h_entries h) _ _ _ A1 Hs) as (slots' & E1 & E2 & E3 & E4).
  { intros y a Hy _ Hc. exfalso. apply concat_elem in Hy as ([k b] & Hb & Hy). cbn [snd] in Hy.
    apply list_elem_of_fmap in Hy as (a' & -> & _). cbn [slot_of s_captured_at] in Hc.
    rewrite List.Forall_forall in Hheld. destruct (Hheld _ (proj1 (list_elem_of_In _ _) Hb)) as [Hk _]. cbn [fst snd] in Hk.
    apply (btree_get_elem k _ Hkeys) in Hb. rewrite Hk, Hc, Hg in Hb. done. }
  set (idx' := fold_left (file_entry (h_captured_at h)) (h_entries h) (fold_left file_amb (h_ambiguities h) idx)) in *.
  assert (batches idx' = batches idx) as Eb by (by rewrite E3). rewrite Eb. split; [|done].
  assert (forall x, x ∈ btree_insert (h_captured_at h) h (batches idx) <-> x = (h_captured_at h, h) \/ x ∈ batches idx) as Hel
    by (intros x; by apply btree_insert_elem).
  split; cbn [set_batches batches entries_total].
  - assert (forall s, s ∈ slots' <-> s ∈ all_slots (btree_insert (h_captured_at h) h (batches idx))) as Hsl.
    { intros s. rewrite E2. unfold all_slots. rewrite !concat_elem. setoid_rewrite Hel. unfold slots_of. naive_solver. }
    assert (forall a, a ∈ all' <-> a ∈ all_ambs (btree_insert (h_captured_at h) h (batches idx))) as Ham.
    { intros s. rewrite A2. unfold all_ambs. rewrite !concat_elem. setoid_rewrite Hel. naive_solver. }
    destruct E1 as [H1 H2 H3 H4 H5]. split; cbn; eapply keyed_ext; eauto.
  - rewrite List.Forall_forall in *. intros x Hx%list_elem_of_In. apply Hel in Hx as [->|Hx]; [split; [done|by split; [apply List.Forall_forall|]]|]. by apply Hheld, list_elem_of_In.
  - by apply btree_insert_keys.
  - unfold all_slots. rewrite btree_insert_sum by done. rewrite E4, A4, Htot. unfold all_slots, slots_of. cbn [snd]. unfold zlen.
    rewrite length_map. lia.
Qed.

Lemma default_ok c f : idx_ok (set_meta default_index c f).
Proof. split; cbn; [|constructor|constructor|done]. split; apply keyed_empty. Qed.

Lemma btree_insert_last {A} k (v : A) l : Forall (fun x => x < k) (map fst l) ->
  btree_insert k v l = l ++ [(k, v)] /\ btree_get k l = None.
Proof.
  induction l as [|[k' v'] l IH]; cbn [btree_insert btree_get map fst app]; [done|]. intros [H1 H2]%Forall_cons_1.
  destruct (IH H2) as [-> ->]. rewrite (proj2 (Z.ltb_ge _ _)), (proj2 (Z.eqb_neq _ _)) by lia. done.
Qed.

(** Batches inserted in ascending order of their keys. *)
Lemma fold_insert_ok hs idx : idx_ok idx -> Forall held_ok hs -> StronglySorted Z.lt (map fst (batches idx) ++ map h_captured_at hs) ->
  idx_ok (fold_left insert_batch hs idx) /\
  batches (fold_left insert_batch hs idx) = batches idx ++ map (fun h => (h_captured_at h, h)) hs.
Proof.
  revert idx. induction hs as [|h hs IH]; intros idx Hok HF Hs; cbn [fold_left map]; [by rewrite app_nil_r|].
  apply Forall_cons_1 in HF as [Hh HF]. apply sorted_app in Hs as (S1 & S2 & HR); [|apply _].
  assert (Forall (fun x => x < h_captured_at h) (map fst (batches idx))) as Hlt.
  { rewrite List.Forall_forall. intros x Hx. apply HR; [by apply list_elem_of_In|set_solver]. }
  destruct (btree_insert_last (h_captured_at h) h _ Hlt) as [Ei Eg].
  destruct (insert_batch_ok idx h Hok Hh Eg) as [Hok' Hb]. rewrite Ei in Hb.
  destruct (IH (insert_batch idx h) Hok' HF) as [IH1 IH2].
  - rewrite Hb, map_app, <- app_assoc. cbn [map fst app]. apply sorted_app; [apply _|]. split; [done|]. split; [done|]. exact HR.
  - split; [done|]. rewrite IH2, Hb, <- app_assoc. done.
Qed.

(** ** The retained index *)
Definition retained_of (floor : Z) (keep : gset (Z * Z)) (kb : Z * Held) : option Held :=
  let '(captured, b) := kb in
  if floor <? captured then Some b
  else
    let es := List.filter (retains floor keep) (h_entries b) in
    let ambs := List.filter (fun a => floor <? through_lsn a) (h_ambiguities b) in
    if (zlen es =? 0) && (zlen ambs =? 0) then None else Some (MkHeld captured (h_commit_lsn b) (h_observations b) ambs es).

Lemma retain_fold floor keep bs out :
  fold_left (retain_batch floor keep) bs out = fold_left insert_batch (omap (retained_of floor keep) bs) out.
Proof.
  revert out. induction bs as [|[k b] bs IH]; intros out; [done|]. cbn [fold_left omap list_omap]. rewrite IH.
  unfold retain_batch, retained_of. destruct (floor <? k); [done|]. by destruct (_ && _).
Qed.

Lemma filter_sorted {A} (R : A -> A -> Prop) (p : A -> bool) l : StronglySorted R l -> StronglySorted R (List.filter p l).
Proof.
  induction 1 as [|a l Hs IH HF]; cbn [List.filter]; [constructor|]. destruct (p a); [|done]. constructor; [done|].
  rewrite List.Forall_forall in *. intros x [Hx _]%List.filter_In. by apply HF.
Qed.

Lemma retained_held_ok floor keep k b h : retained_of floor keep (k, b) = Some h -> k = h_captured_at b -> held_ok b ->
  held_ok h /\ h_captured_at h = k.
Proof.
  unfold retained_of. intros Hr -> [Hf Hs]. destruct (floor <? h_captured_at b); [by injection Hr as <-|].
  destruct (_ && _); [done|]. injection Hr as <-. split; [|done]. split; cbn [h_entries h_captured_at].
  - rewrite List.Forall_forall in *. intros x [Hx _]%List.filter_In. by apply Hf.
  - by apply filter_sorted.
Qed.

Lemma omap_elem {A B} (f : A -> option B) (l : list A) (y : B) : y ∈ omap f l <-> exists x, x ∈ l /\ f x = Some y.
Proof. apply list_elem_of_omap. Qed.

Lemma retained_keys floor keep bs : Forall (fun kb => kb.1 = h_captured_at kb.2 /\ held_ok kb.2) bs -> StronglySorted Z.lt (map fst bs) ->
  Forall held_ok (omap (retained_of floor keep) bs) /\ StronglySorted Z.lt (map h_captured_at (omap (retained_of floor keep) bs)).
Proof.
  induction bs as [|[k b] bs IH]; intros HF Hs; [split; constructor|]. apply Forall_cons_1 in HF as [[Hk Hh] HF].
  cbn [map fst] in Hs. apply StronglySorted_inv in Hs as [Hs Hlt]. destruct (IH HF Hs) as [I1 I2]. cbn [omap list_omap].
  destruct (retained_of floor keep (k, b)) as [h|] eqn:Er; [|done].
  destruct (retained_held_ok _ _ _ _ _ Er Hk Hh) as [Ho Hc]. split; [by constructor|]. cbn [map]. constructor; [done|].
  rewrite List.Forall_forall in *. intros x Hx. apply list_elem_of_In, list_elem_of_fmap in Hx as (h' & -> & Hh').
  apply omap_elem in Hh' as ([k' b'] & Hin & Er'). apply list_elem_of_In in Hin. destruct (HF _ Hin) as [Hk' Ho'].
  destruct (retained_held_ok _ _ _ _ _ Er' Hk' Ho') as [_ ->]. rewrite Hc. apply Hlt. apply (in_map fst _ (k', b') Hin).
Qed.

Lemma compute_retained_ok idx floor : idx_ok idx ->
  let r := compute_retained idx floor in
  idx_ok r /\ batches r = map (fun h => (h_captured_at h, h)) (omap (retained_of floor (keep_at_floor idx floor)) (batches idx)).
Proof.
  intros [Hh Hheld Hkeys Htot] r. unfold r, compute_retained. rewrite retain_fold.
  destruct (retained_keys floor (keep_at_floor idx floor) _ Hheld Hkeys) as [HF HS].
  apply (fold_insert_ok _ _ (default_ok _ _) HF HS).
Qed.

(** The slots compaction keeps. *)
Definition kept (floor : Z) (keep : gset (Z * Z)) (s : Slot) : Prop :=
  floor < s_captured_at s \/ floor < s_valid_from s \/ ptr (s_entry s) ∈ keep.

Lemma nonempty_elem {A} (l : list A) x : x ∈ l -> zlen l <> 0.
Proof. destruct l; [set_solver|]. intros _. rewrite zlen_cons. pose proof (zlen_nonneg l). lia. Qed.

(** A batch's entries after compaction. *)
Lemma retained_entries floor keep k b a : k = h_captured_at b ->
  (exists h, retained_of floor keep (k, b) = Some h /\ a ∈ h_entries h) <-> a ∈ h_entries b /\ kept floor keep (slot_of k a).
Proof.
  intros Hk. unfold retained_of, kept. cbn [slot_of s_captured_at s_valid_from s_entry]. destruct (Z.ltb_spec floor k); [naive_solver lia|].
  assert (forall x, x ∈ List.filter (retains floor keep) (h_entries b) <-> x ∈ h_entries b /\ (floor < valid_from (entry x) \/ ptr x ∈ keep)) as Hf.
  { intros x. rewrite list_elem_of_In, List.filter_In, <- list_elem_of_In. unfold retains. rewrite orb_true_iff, Z.ltb_lt, bool_decide_eq_true. done. }
  destruct (_ && _) eqn:Ez.
  - apply andb_true_iff in Ez as [Ez _]. apply Z.eqb_eq in Ez. split; [naive_solver|]. intros [Ha Hor]. exfalso.
    apply (nonempty_elem (List.filter (retains floor keep) (h_entries b)) a); [|done]. apply Hf. naive_solver lia.
  - split; [intros (h & [= <-] & Ha); cbn [h_entries] in Ha; apply Hf in Ha; naive_solver|]. intros [Ha Hor]. eexists. split; [done|].
    cbn [h_entries]. apply Hf. naive_solver lia.
Qed.

Lemma retained_slots idx floor s : idx_ok idx ->
  s ∈ all_slots (batches (compute_retained idx floor)) <->
  s ∈ all_slots (batches idx) /\ kept floor (keep_at_floor idx floor) s.
Proof.
  intros Hok. destruct (compute_retained_ok idx floor Hok) as [_ ->]. destruct Hok as [_ Hheld _ _]. rewrite List.Forall_forall in Hheld.
  assert (forall k b, (k, b) ∈ batches idx -> k = h_captured_at b /\ held_ok b) as Hb by (intros k b Hin%list_elem_of_In; apply (Hheld _ Hin)).
  unfold all_slots. rewrite !concat_elem. unfold slots_of. split.
  - intros (kh & Hkh & Hs). apply list_elem_of_fmap in Hkh as (h & -> & Hh). apply omap_elem in Hh as ([k b] & Hin & Er).
    destruct (Hb _ _ Hin) as [Hk Ho]. destruct (retained_held_ok _ _ _ _ _ Er Hk Ho) as [_ Hc]. cbn [snd] in Hs.
    apply list_elem_of_fmap in Hs as (a & -> & Ha). rewrite Hc.
    destruct (proj1 (retained_entries floor (keep_at_floor idx floor) k b a Hk)) as [Hab Hkept]; [by exists h|]. split; [|done].
    exists (k, b). split; [done|]. cbn [snd]. rewrite <- Hk. apply list_elem_of_fmap. by exists a.
  - intros (([k b] & Hin & Hs) & Hkept). cbn [snd] in Hs. apply list_elem_of_fmap in Hs as (a & -> & Ha). destruct (Hb _ _ Hin) as [Hk Ho].
    rewrite <- Hk in *. destruct (proj2 (retained_entries floor (keep_at_floor idx floor) k b a Hk)) as (h & Er & Hah); [done|].
    destruct (retained_held_ok _ _ _ _ _ Er Hk Ho) as [_ Hc]. exists (h_captured_at h, h). cbn [snd]. rewrite Hc.
    split; [|apply list_elem_of_fmap; by exists a]. apply list_elem_of_fmap. exists h. rewrite Hc. split; [done|]. apply omap_elem. by exists (k, b).
Qed.

(** Compaction invents no interval and keeps those that reach past the floor. *)
Lemma retained_ambs idx floor a : idx_ok idx ->
  (a ∈ all_ambs (batches (compute_retained idx floor)) -> a ∈ all_ambs (batches idx)) /\
  (a ∈ all_ambs (batches idx) -> floor < through_lsn a -> a ∈ all_ambs (batches (compute_retained idx floor))).
Proof.
  intros Hok. destruct (compute_retained_ok idx floor Hok) as [_ ->]. unfold all_ambs. rewrite !concat_elem. split.
  - intros (kh & Hkh & Ha). apply list_elem_of_fmap in Hkh as (h & -> & Hh). apply omap_elem in Hh as ([k b] & Hin & Er).
    exists (k, b). split; [done|]. cbn [snd] in *. unfold retained_of in Er. destruct (floor <? k); [by injection Er as <-|].
    destruct (_ && _); [done|]. injection Er as <-. cbn [h_ambiguities] in Ha. by apply list_elem_of_In, List.filter_In in Ha as [Ha%list_elem_of_In _].
  - intros ([k b] & Hin & Ha) Ht. cbn [snd] in Ha. setoid_rewrite list_elem_of_fmap.
    assert (exists h, retained_of floor (keep_at_floor idx floor) (k, b) = Some h /\ a ∈ h_ambiguities h) as (h & Er & Hah).
    { unfold retained_of. destruct (floor <? k); [by eexists|].
      assert (a ∈ List.filter (fun a => floor <? through_lsn a) (h_ambiguities b)) as Hf
        by (apply list_elem_of_In, List.filter_In; split; [by apply list_elem_of_In|by apply Z.ltb_lt]).
      rewrite (proj2 (Z.eqb_neq (zlen (List.filter (fun a => floor <? through_lsn a) (h_ambiguities b))) 0)) by (by eapply nonempty_elem).
      rewrite andb_false_r. eexists. split; [done|]. exact Hf. }
    exists (h_captured_at h, h). split; [|done]. exists h. split; [done|]. apply omap_elem. by exists (k, b).
Qed.

(** ** Lookups *)
(** [last_at] is the newest slot at or below the position. *)
Lemma last_at_spec chain lsn : StronglySorted slt chain ->
  match last_at chain lsn with
  | Some s => newest slt (fun y => s_valid_from y <= lsn) chain s
  | None => forall y, y ∈ chain -> lsn < s_valid_from y
  end.
Proof.
  intros Hs. unfold last_at. set (p := fun s : Slot => s_valid_from s <=? lsn).
  assert (forall y, y ∈ take (partition_point p chain) chain <-> y ∈ chain /\ p y = true) as Ht.
  { intros y. apply (taken_iff slt); [done|]. unfold p, slt. intros a b Hab. rewrite !Z.leb_le. lia. }
  rewrite last_find. pose proof (find_rev_newest slt (fun _ => true) _ (taken_sorted slt p chain Hs)) as Hf.
  destruct (List.find _ _) as [s|].
  - destruct Hf as (Hin & _ & Hall). apply Ht in Hin as [Hin Hp]. split; [done|]. split; [by apply Z.leb_le|].
    intros y Hy Hle. apply Hall; [|done]. apply Ht. split; [done|]. by apply Z.leb_le.
  - intros y Hy. destruct (Z.lt_ge_cases lsn (s_valid_from y)); [done|]. exfalso.
    assert (true = false); [|done]. apply (Hf y). apply Ht. split; [done|]. by apply Z.leb_le.
Qed.

Lemma newest_last_at chain lsn s : StronglySorted slt chain -> newest slt (fun y => s_valid_from y <= lsn) chain s ->
  last_at chain lsn = Some s.
Proof.
  intros Hs (Hin & Hle & Hall). pose proof (last_at_spec chain lsn Hs) as Hl. destruct (last_at chain lsn) as [t|].
  - destruct Hl as (Hin' & Hle' & Hall'). destruct (Hall t Hin' Hle') as [->|H1]; [done|].
    destruct (Hall' s Hin Hle) as [->|H2]; [done|]. destruct (slt_irrefl s). by transitivity t.
  - specialize (Hl s Hin). lia.
Qed.

(** The newest interval over a position. *)
Definition covers (lsn : Z) (a : Ambiguity) : Prop := from_lsn a <= lsn < through_lsn a.

Lemma covering_spec l lsn : StronglySorted ale l ->
  match ambiguity_covering (Some l) lsn with
  | Some a => newest ale (covers lsn) l a
  | None => forall y, y ∈ l -> ~ covers lsn y
  end.
Proof.
  intros Hs. unfold ambiguity_covering. set (p := fun a : Ambiguity => from_lsn a <=? lsn).
  assert (forall y, y ∈ take (partition_point p l) l <-> y ∈ l /\ p y = true) as Ht.
  { intros y. apply (taken_iff ale); [done|]. unfold p, ale. intros a b Hab. rewrite key_le_spec in Hab. cbn in Hab. rewrite !Z.leb_le. lia. }
  pose proof (find_rev_newest ale (fun a => lsn <? through_lsn a) _ (taken_sorted ale p l Hs)) as Hf.
  destruct (List.find _ _) as [a|].
  - destruct Hf as (Hin & Hq & Hall). apply Ht in Hin as [Hin Hp]. apply Z.leb_le in Hp. apply Z.ltb_lt in Hq.
    split; [done|]. split; [done|]. intros y Hy [Hy1 Hy2]. apply Hall; [|by apply Z.ltb_lt]. apply Ht. split; [done|]. by apply Z.leb_le.
  - intros y Hy [H1 H2]. assert ((lsn <? through_lsn y) = false) as E; [|apply Z.ltb_ge in E; lia]. apply Hf, Ht.
    split; [done|]. by apply Z.leb_le.
Qed.

(** Two lists with the same intervals over a position answer alike. *)
Lemma covering_same l l' lsn : StronglySorted ale l -> StronglySorted ale l' -> (forall a b, a ∈ l -> b ∈ l -> scope a = scope b) ->
  (forall a, covers lsn a -> a ∈ l <-> a ∈ l') -> ambiguity_covering (Some l') lsn = ambiguity_covering (Some l) lsn.
Proof.
  intros Hs Hs' Hsc Hiff. pose proof (covering_spec l lsn Hs) as H1. pose proof (covering_spec l' lsn Hs') as H2.
  destruct (ambiguity_covering (Some l) lsn) as [a|], (ambiguity_covering (Some l') lsn) as [b|]; [|exfalso..|done].
  - destruct H1 as (Ha & Ca & Aa), H2 as (Hb & Cb & Ab). f_equal. apply (Hiff b Cb) in Hb as Hb'. apply (Hiff a Ca) in Ha as Ha'.
    destruct (Aa b Hb' Cb) as [->|L1]; [done|]. destruct (Ab a Ha' Ca) as [->|L2]; [done|]. by apply ale_antisym; [apply Hsc| |].
  - destruct H1 as (Ha & Ca & _). eapply H2; [|exact Ca]. by apply Hiff.
  - destruct H2 as (Hb & Cb & _). eapply H1; [|exact Cb]. by apply Hiff.
Qed.

Lemma covering_default l lsn : ambiguity_covering l lsn = ambiguity_covering (Some (default [] l)) lsn.
Proof. by destruct l. Qed.

Lemma covering_retained {K} `{Countable K} (key : Ambiguity -> option K) m m' all all' floor lsn k :
  (forall a b, key a = Some k -> key b = Some k -> scope a = scope b) -> keyed ale key m all -> keyed ale key m' all' ->
  (forall a, (a ∈ all' -> a ∈ all) /\ (a ∈ all -> floor < through_lsn a -> a ∈ all')) -> floor <= lsn ->
  ambiguity_covering (m' !! k) lsn = ambiguity_covering (m !! k) lsn.
Proof.
  intros Hsc Hm Hm' Hall Hlsn. rewrite (covering_default (m' !! k)), (covering_default (m !! k)).
  destruct (Hm k) as [S1 E1], (Hm' k) as [S2 E2]. unfold at_key in *. apply covering_same; [done..| |].
  - intros a b Ha Hb. apply E1 in Ha as [_ Ha]. apply E1 in Hb as [_ Hb]. by apply Hsc.
  - intros a [_ Ht]. rewrite E1, E2. destruct (Hall a) as [H1 H2]. split; intros [Ha Hk]; split; [|done| |done]; [apply H2; [done|lia]|by apply H1].
Qed.

(** ** What stays at the floor *)
Definition active_present (floor : Z) (chain : list Slot) (p : Z * Z) : Prop :=
  exists s, last_at chain floor = Some s /\ is_present (value (entry (s_entry s))) = true /\ ptr (s_entry s) = p.

Lemma keep_chain_elem floor chain keep p : p ∈ keep_chain floor chain keep <-> active_present floor chain p \/ p ∈ keep.
Proof.
  unfold keep_chain, active_present. destruct (last_at chain floor) as [s|]; [|naive_solver].
  destruct (is_present (value (entry (s_entry s)))) eqn:E; [rewrite elem_of_union, elem_of_singleton|]; naive_solver congruence.
Qed.

Lemma keep_fold_elem {K} `{Countable K} floor (m : gmap K (list Slot)) keep p :
  p ∈ map_fold (fun _ => keep_chain floor) keep m <-> (exists k chain, m !! k = Some chain /\ active_present floor chain p) \/ p ∈ keep.
Proof.
  apply (map_fold_weak_ind (fun (r : gset (Z * Z)) (m : gmap K (list Slot)) =>
    p ∈ r <-> (exists k chain, m !! k = Some chain /\ active_present floor chain p) \/ p ∈ keep)).
  - setoid_rewrite lookup_empty. naive_solver.
  - intros k chain m' r Hk IH. rewrite keep_chain_elem, IH. split.
    + intros [Ha|[(k' & c' & Hl & Ha)|Hp]]; [left; exists k, chain; by rewrite lookup_insert_eq| |by right].
      left. exists k', c'. rewrite lookup_insert_ne by congruence. done.
    + intros [(k' & c' & Hl & Ha)|Hp]; [|by right; right]. destruct (decide (k = k')) as [->|Hne].
      * rewrite lookup_insert_eq in Hl. injection Hl as ->. by left.
      * rewrite lookup_insert_ne in Hl by done. right. left. by exists k', c'.
Qed.

Lemma keep_at_floor_elem idx floor p : p ∈ keep_at_floor idx floor <->
  (exists o chain, by_oid idx !! o = Some chain /\ active_present floor chain p) \/
  (exists r chain, by_rfn idx !! r = Some chain /\ active_present floor chain p).
Proof. unfold keep_at_floor. rewrite !keep_fold_elem. set_solver. Qed.

Lemma lookup_default c lsn : lookup_spanned c lsn = lookup_spanned (Some (default [] c)) lsn.
Proof. by destruct c. Qed.

(** ** One chain under compaction *)
Section Chain.
Context (floor lsn : Z) (keep : gset (Z * Z)) (c c' : list Slot).
Hypothesis Hs : StronglySorted slt c.
Hypothesis Hs' : StronglySorted slt c'.
Hypothesis Hsub : forall s, s ∈ c' <-> s ∈ c /\ kept floor keep s.
Hypothesis Hkeep : forall p, active_present floor c p -> p ∈ keep.
Hypothesis Hlsn : floor <= lsn.

Lemma kept_last s : last_at c lsn = Some s -> kept floor keep s -> last_at c' lsn = Some s.
Proof.
  intros Hl Hk. pose proof (last_at_spec c lsn Hs) as Hn. rewrite Hl in Hn. destruct Hn as (Hin & Hle & Hall).
  apply newest_last_at; [done|]. split; [by apply Hsub|]. split; [done|]. intros y Hy. apply Hall. by apply Hsub in Hy as [Hy _].
Qed.

(** The newest slot of a later position, when it is not after the floor, is
    the newest at the floor. *)
Lemma last_at_floor s : last_at c lsn = Some s -> s_valid_from s <= floor -> last_at c floor = Some s.
Proof.
  intros Hl Hf. pose proof (last_at_spec c lsn Hs) as Hn. rewrite Hl in Hn. destruct Hn as (Hin & Hle & Hall).
  apply newest_last_at; [done|]. split; [done|]. split; [done|]. intros y Hy Hyf. apply Hall; [done|lia].
Qed.

Lemma present_kept s : last_at c lsn = Some s -> is_present (value (entry (s_entry s))) = true -> last_at c' lsn = Some s.
Proof.
  intros Hl Hp. apply kept_last; [done|]. destruct (Z.lt_ge_cases floor (s_valid_from s)) as [?|Hf]; [by right; left|].
  right. right. apply Hkeep. exists s. split; [by apply last_at_floor|done].
Qed.

Definition settled_chain : Prop := forall s, last_at c floor = Some s -> is_present (value (entry (s_entry s))) = false ->
  forall y, y ∈ c -> s_valid_from y <= floor -> s_captured_at y <= s_captured_at s /\ ptr (s_entry y) ∉ keep.

Lemma absent_kept : settled_chain -> (forall s, last_at c lsn = Some s -> is_present (value (entry (s_entry s))) = false) ->
  last_at c' lsn = last_at c lsn \/ last_at c' lsn = None.
Proof.
  intros Hset Habs. pose proof (last_at_spec c lsn Hs) as Hn. pose proof (last_at_spec c' lsn Hs') as Hn'.
  destruct (last_at c lsn) as [s|] eqn:El.
  - destruct (Z.lt_ge_cases floor (s_captured_at s)) as [Hc|Hc]; [left; apply kept_last; [done|by left]|].
    destruct (Z.lt_ge_cases floor (s_valid_from s)) as [Hv|Hv]; [left; apply kept_last; [done|by right; left]|].
    right. destruct (last_at c' lsn) as [t|]; [|done]. exfalso. destruct Hn' as (Ht & Htl & _). apply Hsub in Ht as [Ht Hk].
    destruct Hn as (_ & _ & Hall). assert (s_valid_from t <= floor) by (destruct (Hall t Ht Htl) as [->|[?|?]]; lia).
    destruct (Hset s (last_at_floor s El Hv) (Habs s eq_refl) t Ht) as [H1 H2]; [done|]. destruct Hk as [?|[?|?]]; [lia..|done].
  - right. destruct (last_at c' lsn) as [t|]; [|done]. exfalso. destruct Hn' as (Ht & Htl & _). apply Hsub in Ht as [Ht _].
    specialize (Hn t Ht). lia.
Qed.
End Chain.

(** ** Answers *)
(** A descriptor, a fence or a foreign database is answered again. *)
Definition kept_answer (a a' : result LookupResult (RelDescriptor * Z)) : Prop :=
  match a with Ok _ | Err (LAmbiguous _) | Err LForeignDb => a' = a | _ => True end.

(** A relation that was gone stays gone. *)
Definition no_new_answer (a a' : result LookupResult (RelDescriptor * Z)) : Prop :=
  match a with Err LDropped | Err LRetired | Err LNotCovered => a' = a \/ a' = Err LNotCovered | _ => True end.

(** Every tombstone active at the floor closes its chain: nothing at or below
    the floor was captured after it or is the live entry of its other chain. *)
Definition settled (idx : Index) (floor : Z) : Prop :=
  (forall r, settled_chain floor (keep_at_floor idx floor) (at_key (by_rfn idx) r)) /\
  (forall o, settled_chain floor (keep_at_floor idx floor) (at_key (by_oid idx) o)).

(** The indexes the log goes through. *)
Inductive built : Index -> Prop :=
| built_default c f : built (set_meta default_index c f)
| built_insert idx b : built idx -> btree_get (captured_at b) (batches idx) = None -> built (insert_batch idx (hold b))
| built_gc idx floor c f : built idx -> built (set_meta (compute_retained idx floor) c f).

Lemma set_meta_ok idx c f : idx_ok idx -> idx_ok (set_meta idx c f).
Proof. intros [[H1 H2 H3 H4 H5] Hh Hk Ht]. split; [by split|done..]. Qed.

Lemma built_ok idx : built idx -> idx_ok idx.
Proof.
  induction 1 as [c f|idx b _ IH Hg|idx floor c f _ IH].
  - apply default_ok.
  - apply insert_batch_ok; [done|apply hold_ok|done].
  - apply set_meta_ok. by apply compute_retained_ok.
Qed.

Lemma fenced_chain (amb : option Ambiguity) c c' lsn :
  (forall s, last_at (default [] c) lsn = Some s -> is_present (value (entry (s_entry s))) = true -> last_at (default [] c') lsn = Some s) ->
  kept_answer (fenced amb c lsn) (fenced amb c' lsn).
Proof.
  intros Hp. destruct amb as [a|]; [done|]. unfold fenced. rewrite (lookup_default c), (lookup_default c'). cbn [lookup_spanned].
  destruct (last_at (default [] c) lsn) as [s|]; [|done]. specialize (Hp s eq_refl).
  destruct (value (entry (s_entry s))) as [d| |] eqn:Ev; [|done..]. rewrite (Hp eq_refl), Ev. done.
Qed.

Lemma fenced_absent (amb : option Ambiguity) c c' lsn :
  ((forall s, last_at (default [] c) lsn = Some s -> is_present (value (entry (s_entry s))) = false) ->
    last_at (default [] c') lsn = last_at (default [] c) lsn \/ last_at (default [] c') lsn = None) ->
  no_new_answer (fenced amb c lsn) (fenced amb c' lsn).
Proof.
  intros Ha. destruct amb as [a|]; [done|]. unfold fenced. rewrite (lookup_default c), (lookup_default c'). cbn [lookup_spanned].
  destruct (last_at (default [] c) lsn) as [s|]; [destruct (value (entry (s_entry s))) as [d| |] eqn:Ev; [done|..]|]; cbn [no_new_answer].
  all: destruct Ha as [-> | ->]; [by intros ? [= <-]; rewrite ?Ev|rewrite ?Ev; by left|by right].
Qed.

Lemma at_key_active {K} `{Countable K} (m : gmap K (list Slot)) k floor p : active_present floor (at_key m k) p ->
  exists k chain, m !! k = Some chain /\ active_present floor chain p.
Proof. unfold at_key. destruct (m !! k) as [c|] eqn:E; [by exists k, c|]. intros (s & Hs & _). done. Qed.

Lemma chain_sub {K} `{Countable K} (key : Slot -> option K) idx floor m m' k : idx_ok idx ->
  keyed slt key m (all_slots (batches idx)) -> keyed slt key m' (all_slots (batches (compute_retained idx floor))) ->
  forall s, s ∈ at_key m' k <-> s ∈ at_key m k /\ kept floor (keep_at_floor idx floor) s.
Proof.
  intros Hok Hm Hm' s. destruct (Hm k) as [_ E1], (Hm' k) as [_ E2]. rewrite E1, E2, retained_slots by done. tauto.
Qed.

Lemma filter_split {A} (p : A -> bool) l : zlen (List.filter p l) + zlen (List.filter (fun x => negb (p x)) l) = zlen l.
Proof. induction l as [|x l IH]; [done|]. cbn [List.filter]. destruct (p x); cbn [negb]; rewrite ?zlen_cons; lia. Qed.

(** The count the threshold test makes is what compaction drops. *)
Lemma dropped_count idx floor : idx_ok idx ->
  droppable_entries idx floor = entries_total idx - entries_total (compute_retained idx floor).
Proof.
  intros Hok. destruct (compute_retained_ok idx floor Hok) as [Hr Hb]. rewrite (ok_total _ Hok), (ok_total _ Hr), Hb.
  unfold droppable_entries. generalize (keep_at_floor idx floor) as keep. clear Hb Hr Hok. intros keep.
  unfold all_slots. induction (batches idx) as [|[k b] bs IH]; [done|]. cbn [omap list_omap]. cbn [List.filter map concat fst snd].
  assert (forall h, zlen (slots_of h) = zlen (h_entries h)) as Hz by (intros h; unfold zlen, slots_of; by rewrite length_map).
  pose proof (filter_split (retains floor keep) (h_entries b)) as Hf.
  unfold retained_of at 1. destruct (Z.ltb_spec floor k) as [Hk|Hk].
  - rewrite (proj2 (Z.leb_gt _ _)) by lia. cbn [map concat snd]. rewrite !zlen_app. lia.
  - rewrite (proj2 (Z.leb_le _ _)) by lia. cbn [map concat snd]. rewrite List.filter_app, !zlen_app.
    destruct (_ && _) eqn:Ez; cbn [map concat snd]; rewrite ?zlen_app, !Hz; cbn [h_entries]; [|lia].
    apply andb_true_iff in Ez as [Ez%Z.eqb_eq _]. lia.
Qed.


(** ** A table altered, another dropped, compacted at position 25 *)
Definition shape (o rel : Z) (atts : list RelAttr) : RelDescriptor :=
  MkDesc (MkRfn 1663 5 rel) o 0 2200 ([112], [116]) 114 112 NothingIdent atts [].
Definition col (n : Z) : RelAttr := MkAttr n [99; 48 + n] INT4OID (-1) false false [105] true 4 105 112 None.
Definition opened (v o rel : Z) (atts : list RelAttr) : LogEntry := MkEntry v o (MkRfn 1663 5 rel) (Present (shape o rel atts)).

Definition ddl1 : BatchRecord := MkBatch 10 9 [] [] [opened 10 100 1000 [col 1]; opened 10 200 2000 [col 1]].
Definition ddl2 : BatchRecord :=
  MkBatch 20 19 [] [MkAmb (ScopeOid 100) 18 28] [opened 18 100 1000 [col 1; col 2]; MkEntry 20 200 (MkRfn 1663 5 2000) Dropped].
Definition ddl_index : Index := insert_batch (insert_batch (set_meta default_index 5 0) (hold ddl1)) (hold ddl2).
Definition ddl_id : DescLogIdentity := MkIdentity 18 [55] 1 5 16777216.

Lemma ddl_built : built ddl_index.
Proof. constructor; [constructor; [constructor|done]|vm_compute; reflexivity]. Qed.

Definition settledb (floor : Z) (keep : gset (Z * Z)) (c : list Slot) : bool :=
  match last_at c floor with
  | Some s => is_present (value (entry (s_entry s))) ||
      forallb (fun y => (floor <? s_valid_from y) || ((s_captured_at y <=? s_captured_at s) && negb (bool_decide (ptr (s_entry y) ∈ keep)))) c
  | None => true
  end.

Lemma settledb_spec {K} `{Countable K} floor keep (m : gmap K (list Slot)) :
  forallb (fun kc => settledb floor keep kc.2) (map_to_list m) = true -> forall k, settled_chain floor keep (at_key m k).
Proof.
  intros HF k s Hs Hp y Hy Hv. rewrite forallb_forall in HF. unfold at_key in *. destruct (m !! k) as [c|] eqn:E; [|done].
  cbn [default from_option Datatypes.id] in *. specialize (HF (k, c)). rewrite <- list_elem_of_In, elem_of_map_to_list in HF. specialize (HF E).
  unfold settledb in HF. cbn [snd] in HF. rewrite Hs, Hp in HF. cbn [orb] in HF. rewrite forallb_forall in HF.
  specialize (HF y (proj1 (list_elem_of_In _ _) Hy)). apply orb_true_iff in HF as [HF|HF]; [apply Z.ltb_lt in HF; lia|].
  apply andb_true_iff in HF as [H1 H2]. split; [by apply Z.leb_le|]. by apply negb_true_iff, bool_decide_eq_false in H2.
Qed.

Lemma ddl_settled : settled ddl_index 25.
Proof. split; apply settledb_spec; vm_compute; reflexivity. Qed.


End DescLogIndex.
