(* ===== verification/DescLogFile.v ===== *)
(** * A restart rebuilds the descriptor log

    Whatever seeds, appends and compactions a log went through, opening its two
    files gives the index back, and an append torn by a crash leaves the log
    before it. *)
From Stdlib Require Import Sorted.
From S2P Require Import Prelude Text WalRecord HeapDecode Wire DescCodec DescLog DescLogProofs.
Import WalRecord Schema Wire DescCodec DescLog DescLogIndex.

Module DescLogFile.

(** ** Indexes up to the allocations *)
Definition erase_arc (a : ArcEntry) : ArcEntry := MkArc (0, 0) (entry a).
Definition erase_slot (s : Slot) : Slot := MkSlot (s_valid_from s) (s_captured_at s) (erase_arc (s_entry s)).
Definition erase_held (h : Held) : Held :=
  MkHeld (h_captured_at h) (h_commit_lsn h) (h_observations h) (h_ambiguities h) (map erase_arc (h_entries h)).
Definition erase (idx : Index) : Index :=
  MkIndex (map erase_slot <$> by_rfn idx) (map erase_slot <$> by_oid idx) (amb_rfn idx) (amb_oid idx) (amb_db idx)
    (map (fun kb => (kb.1, erase_held kb.2)) (batches idx)) (covered_through idx) (floor_at_write idx) (entries_total idx).

Lemma partition_map {A B} (f : A -> B) (p : B -> bool) l : partition_point p (map f l) = partition_point (fun x => p (f x)) l.
Proof. induction l as [|x l IH]; [done|]. cbn [map partition_point]. rewrite IH. done. Qed.

Lemma insert_at_map {A B} (f : A -> B) n x l : map f (insert_at n x l) = insert_at n (f x) (map f l).
Proof. unfold insert_at. rewrite map_app. cbn [map]. by rewrite <- firstn_map, <- skipn_map. Qed.

Lemma erase_insert_sorted c s : map erase_slot (insert_sorted c s) = insert_sorted (map erase_slot c) (erase_slot s).
Proof. unfold insert_sorted. by rewrite insert_at_map, partition_map. Qed.

Lemma erase_file {K} `{Countable K} (m : gmap K (list Slot)) k s :
  map erase_slot <$> (<[k := insert_sorted (default [] (m !! k)) s]> m) =
  <[k := insert_sorted (default [] ((map erase_slot <$> m) !! k)) (erase_slot s)]> (map erase_slot <$> m).
Proof.
  rewrite fmap_insert. f_equal. rewrite erase_insert_sorted, lookup_fmap. by destruct (m !! k).
Qed.

Lemma erase_file_entry c idx a : erase (file_entry c idx a) = file_entry c (erase idx) (erase_arc a).
Proof.
  unfold file_entry, erase. cbn [by_rfn by_oid amb_rfn amb_oid amb_db batches covered_through floor_at_write entries_total entry erase_arc].
  f_equal; [apply erase_file|]. destruct (is_retired _); [done|apply erase_file].
Qed.

Lemma erase_file_amb idx a : erase (file_amb idx a) = file_amb (erase idx) a.
Proof. unfold file_amb. by destruct (scope a). Qed.

Lemma btree_insert_map {A B} (f : A -> B) k v (l : list (Z * A)) :
  map (fun kb => (kb.1, f kb.2)) (btree_insert k v l) = btree_insert k (f v) (map (fun kb => (kb.1, f kb.2)) l).
Proof.
  induction l as [|[k' v'] l IH]; [done|]. cbn [btree_insert map fst snd]. destruct (k <? k'); [done|]. destruct (k =? k'); [done|].
  cbn [map fst snd]. by rewrite IH.
Qed.

Lemma btree_get_map {A B} (f : A -> B) k (l : list (Z * A)) : btree_get k (map (fun kb => (kb.1, f kb.2)) l) = f <$> btree_get k l.
Proof. induction l as [|[k' v'] l IH]; [done|]. cbn [btree_get map fst snd]. by destruct (k =? k'). Qed.

Lemma fold_erase {B} (f g : Index -> B -> Index) (e : B -> B) l idx : (forall i b, erase (f i b) = g (erase i) (e b)) ->
  erase (fold_left f l idx) = fold_left g (map e l) (erase idx).
Proof. intros Hf. revert idx. induction l as [|b l IH]; intros idx; [done|]. cbn [fold_left map]. by rewrite IH, Hf. Qed.

Lemma erase_insert_batch idx h : erase (insert_batch idx h) = insert_batch (erase idx) (erase_held h).
Proof.
  unfold insert_batch. cbn [h_captured_at h_entries h_ambiguities erase_held].
  set (i := fold_left (file_entry (h_captured_at h)) (h_entries h) (fold_left file_amb (h_ambiguities h) idx)).
  assert (fold_left (file_entry (h_captured_at h)) (map erase_arc (h_entries h)) (fold_left file_amb (h_ambiguities h) (erase idx)) = erase i) as ->.
  { unfold i. rewrite (fold_erase (file_entry (h_captured_at h)) (file_entry (h_captured_at h)) erase_arc) by (intros; apply erase_file_entry).
    rewrite (fold_erase file_amb file_amb (fun a => a)) by (intros; apply erase_file_amb). by rewrite map_id. }
  unfold set_batches, erase at 1. cbn [by_rfn by_oid amb_rfn amb_oid amb_db batches covered_through floor_at_write entries_total].
  by rewrite btree_insert_map.
Qed.

Lemma record_erase h : record (erase_held h) = record h.
Proof. unfold record, erase_held. cbn. f_equal. rewrite map_map. done. Qed.

Lemma erase_hold_record h : erase_held (hold (record h)) = erase_held h.
Proof.
  unfold hold, record, erase_held. cbn. f_equal. generalize 0. induction (h_entries h) as [|a es IH]; intros i; [done|].
  cbn [map arcs]. by rewrite IH.
Qed.

(** The lookups see no allocation. *)
Lemma erase_lookup c lsn : lookup_spanned (map erase_slot <$> c) lsn = lookup_spanned c lsn.
Proof.
  destruct c as [c|]; [|done]. unfold lookup_spanned, last_at. cbn [fmap option_fmap option_map]. rewrite partition_map. cbn [s_valid_from erase_slot].
  rewrite firstn_map, fmap_last. by destruct (list.last _).
Qed.

Lemma erase_peek id idx idx' : erase idx = erase idx' -> (forall r lsn, peek_spanned id idx r lsn = peek_spanned id idx' r lsn) /\
  (forall o lsn, descriptor_by_oid_at_spanned id idx o lsn = descriptor_by_oid_at_spanned id idx' o lsn).
Proof.
  intros E. assert (forall i, (forall r lsn, peek_spanned id (erase i) r lsn = peek_spanned id i r lsn) /\
    (forall o lsn, descriptor_by_oid_at_spanned id (erase i) o lsn = descriptor_by_oid_at_spanned id i o lsn)) as He.
  { intros i. unfold peek_spanned, descriptor_by_oid_at_spanned, fenced. cbn [erase by_rfn by_oid amb_rfn amb_oid amb_db].
    split; [intros r lsn|intros o lsn]; rewrite lookup_fmap, erase_lookup; done. }
  destruct (He idx) as [H1 H2], (He idx') as [H3 H4]. split; intros; [by rewrite <- H1, <- H3, E|by rewrite <- H2, <- H4, E].
Qed.

(** ** The index a list of batches builds *)
Definition build (idx : Index) (bs : list BatchRecord) : Index := fold_left (fun i b => insert_batch i (hold b)) bs idx.

Lemma build_app idx bs bs' : build idx (bs ++ bs') = build (build idx bs) bs'.
Proof. apply fold_left_app. Qed.

Lemma insert_batch_batches idx h : batches (insert_batch idx h) = btree_insert (h_captured_at h) h (batches idx).
Proof.
  unfold insert_batch, set_batches. cbn [batches]. f_equal.
  assert (forall c es i, batches (fold_left (file_entry c) es i) = batches i) as ->
    by (intros c es; induction es as [|a es IH]; intros i; [done|]; cbn [fold_left]; by rewrite IH).
  generalize idx. induction (h_ambiguities h) as [|a l IH]; intros i; [done|]. cbn [fold_left]. rewrite IH. unfold file_amb. by destruct (scope a).
Qed.

Lemma build_get idx bs c : btree_get c (batches (build idx bs)) = None <->
  btree_get c (batches idx) = None /\ c ∉ map captured_at bs.
Proof.
  revert idx. induction bs as [|b bs IH]; intros idx; cbn [build fold_left map]; [set_solver|].
  fold (build (insert_batch idx (hold b)) bs). rewrite IH, insert_batch_batches, btree_get_insert, not_elem_of_cons. cbn [hold h_captured_at].
  destruct (Z.eqb_spec c (captured_at b)); naive_solver.
Qed.

Lemma build_erase idx idx' bs : erase idx = erase idx' -> erase (build idx bs) = erase (build idx' bs).
Proof.
  revert idx idx'. induction bs as [|b bs IH]; intros idx idx' E; [done|]. cbn [build fold_left]. apply IH. by rewrite !erase_insert_batch, E.
Qed.

Lemma erase_get idx idx' c : erase idx = erase idx' -> record <$> btree_get c (batches idx) = record <$> btree_get c (batches idx').
Proof.
  intros E. apply (f_equal batches) in E. cbn [erase batches] in E. apply (f_equal (btree_get c)) in E. rewrite !btree_get_map in E.
  apply (f_equal (fmap record)) in E. rewrite <- !option_fmap_compose in E.
  destruct (btree_get c (batches idx)), (btree_get c (batches idx')); cbn in *; rewrite ?record_erase in E; done.
Qed.

(** Batches whose keys are new. *)
Definition fresh (idx : Index) (bs : list BatchRecord) : Prop :=
  NoDup (map captured_at bs) /\ forall b, b ∈ bs -> btree_get (captured_at b) (batches idx) = None.

Lemma build_built idx bs : built idx -> fresh idx bs -> built (build idx bs).
Proof.
  revert idx. induction bs as [|b bs IH]; intros idx Hb [Hn Hf]; [done|]. cbn [build fold_left map] in *. inversion_clear Hn as [|? ? Hni Hn'].
  assert (btree_get (captured_at b) (batches idx) = None) by (apply Hf; set_solver). apply IH; [by constructor|]. split; [exact Hn'|].
  intros b' Hb'. rewrite insert_batch_batches, btree_get_insert. cbn [hold h_captured_at]. destruct (Z.eqb_spec (captured_at b') (captured_at b)) as [E|].
  - destruct Hni. rewrite <- E. apply list_elem_of_fmap. by exists b'.
  - apply Hf. set_solver.
Qed.

Lemma insert_set_meta idx c f h : insert_batch (set_meta idx c f) h = set_meta (insert_batch idx h) c f.
Proof.
  unfold insert_batch.
  assert (forall l i, fold_left file_amb l (set_meta i c f) = set_meta (fold_left file_amb l i) c f) as ->.
  { induction l as [|a l IH]; intros i; [done|]. cbn [fold_left]. rewrite <- IH. f_equal. unfold file_amb. by destruct (scope a). }
  assert (forall k l i, fold_left (file_entry k) l (set_meta i c f) = set_meta (fold_left (file_entry k) l i) c f) as ->.
  { intros k. induction l as [|a l IH]; intros i; [done|]. cbn [fold_left]. by rewrite <- IH. }
  done.
Qed.

Lemma built_meta idx c f : built idx -> built (set_meta idx c f).
Proof.
  induction 1 as [c' f'|idx b _ IH Hg|idx floor c' f' Hb _].
  - apply (built_default c f).
  - rewrite <- insert_set_meta. by constructor.
  - apply (built_gc idx floor c f Hb).
Qed.

(** Reallocating a batch changes nothing the index shows. *)
Lemma erase_rebuild hs idx : erase (fold_left insert_batch hs idx) = erase (build idx (map record hs)).
Proof.
  revert idx. induction hs as [|h hs IH]; intros idx; [done|]. cbn [fold_left map build]. rewrite IH. apply build_erase.
  by rewrite !erase_insert_batch, erase_hold_record.
Qed.

Lemma fold_set_meta hs idx c f : set_meta (fold_left insert_batch hs idx) c f = fold_left insert_batch hs (set_meta idx c f).
Proof. revert idx. induction hs as [|h hs IH]; intros idx; [done|]. cbn [fold_left]. by rewrite IH, insert_set_meta. Qed.

Lemma build_elem bs idx kh : kh ∈ batches (build idx bs) -> kh ∈ batches idx \/ record kh.2 ∈ bs.
Proof.
  revert idx. induction bs as [|b bs IH]; intros idx; cbn [build fold_left]; [by left|]. intros Hk.
  apply IH in Hk as [Hk|Hk]; [|right; set_solver]. rewrite insert_batch_batches in Hk.
  assert (forall l, kh ∈ btree_insert (h_captured_at (hold b)) (hold b) l -> kh = (h_captured_at (hold b), hold b) \/ kh ∈ l) as Hb.
  { induction l as [|[k v] l IHl]; cbn [btree_insert]; [set_solver|]. destruct (_ <? _); [set_solver|]. destruct (_ =? _); set_solver. }
  apply Hb in Hk as [->|Hk]; [right; cbn [snd]; rewrite record_hold; set_solver|by left].
Qed.

Lemma erase_elem idx idx' kh : erase idx = erase idx' -> kh ∈ batches idx -> exists kh', kh' ∈ batches idx' /\ record kh'.2 = record kh.2.
Proof.
  intros E Hk. apply (f_equal batches) in E. cbn [erase batches] in E.
  assert ((kh.1, erase_held kh.2) ∈ map (fun kb => (kb.1, erase_held kb.2)) (batches idx')) as Hin
    by (rewrite <- E; apply list_elem_of_fmap; by exists kh).
  apply list_elem_of_fmap in Hin as (kh' & Eq & Hin). apply (f_equal snd) in Eq. cbn [snd] in Eq. exists kh'. split; [done|].
  by rewrite <- record_erase, <- Eq, record_erase.
Qed.

(** ** Frames *)
Section Frames.
Context `{Crc32c}.

Definition batch_frame (b : BatchRecord) : list Z := push_frame (encode_batch b).
Definition frame_ok (b : BatchRecord) : Prop := batch_ok b /\ zlen (encode_batch b) <= MAX_FRAME.

Lemma frame_zlen body : zlen (push_frame body) = 8 + zlen body.
Proof. unfold push_frame, push_u32. zlen. Qed.

(** The two words before a body. *)
Lemma frame_words pre body post : zlen body < 2 ^ 32 ->
  u32_at (pre ++ push_frame body ++ post) (zlen pre) = zlen body /\
  u32_at (pre ++ push_frame body ++ post) (zlen pre + 4) = crc32c body.
Proof.
  intros Hb. pose proof (zlen_nonneg body). unfold push_frame, u32_at. rewrite <- !app_assoc. split.
  - rewrite sub_split by done. unfold push_u32. by apply le_dec_enc_small.
  - rewrite app_assoc. rewrite sub_split by (rewrite ?zlen_app; done). unfold push_u32. apply le_dec_enc_small. apply crc32c_u32.
Qed.

Lemma frame_body pre body post : sub (pre ++ push_frame body ++ post) (zlen pre + 8) (zlen pre + 8 + zlen body) = body.
Proof.
  unfold push_frame. rewrite <- !app_assoc, (app_assoc (push_u32 _)), (app_assoc pre). apply sub_split; [|done]. by rewrite !zlen_app.
Qed.

(** A whole frame at the reader's position. *)
Lemma frames_step fuel f rep pre body post idx : zlen body <= MAX_FRAME ->
  frames (S fuel) f rep VERSION (pre ++ push_frame body ++ post) (zlen pre) idx =
  (let? idx' := load_body f (zlen pre) VERSION body idx in
   frames fuel f rep VERSION (pre ++ push_frame body ++ post) (zlen (pre ++ push_frame body)) idx').
Proof.
  intros Hb. pose proof (zlen_nonneg body). pose proof (zlen_nonneg post). assert (zlen body < 2 ^ 32) by (unfold MAX_FRAME in Hb; lia).
  destruct (frame_words pre body post) as [E1 E2]; [done|]. cbn [frames]. rewrite E1, E2, frame_body, !zlen_app, frame_zlen.
  rewrite (proj2 (Z.eqb_neq _ _)), (proj2 (Z.ltb_ge _ 8)), (proj2 (Z.ltb_ge _ (zlen pre + 8 + zlen body))), (proj2 (Z.ltb_ge MAX_FRAME _)) by lia.
  rewrite Z.eqb_refl. cbn [negb]. by replace (zlen pre + 8 + zlen body) with (zlen pre + (8 + zlen body)) by lia.
Qed.

(** A batch is new, known, or a different batch of the same boundary. *)
Lemma load_batch f start b idx : batch_ok b ->
  load_body f start VERSION (encode_batch b) idx =
  match btree_get (captured_at b) (batches idx) with
  | Some existing => if bool_decide (record existing = b) then Ok idx else Err (Corrupt f start (BatchDiverges (captured_at b)))
  | None => Ok (insert_batch idx (hold b))
  end.
Proof.
  intros Hb. pose proof (reads_whole _ _ _ (reads_batch b Hb)) as Hr. unfold load_body. unfold bind in Hr.
  destruct (u8 (MkCur (encode_batch b) 0)) as [[t c]|e] eqn:Et; [|done]. cbn [fst snd cur] in *.
  destruct (Z.eqb_spec t TAG_BATCH) as [->|]; [|done]. cbn [Z.eqb TAG_BATCH TAG_META]. rewrite Hr. done.
Qed.

Lemma load_meta f start covered floor idx : fits 64 covered -> fits 64 floor ->
  load_body f start VERSION (encode_meta covered floor) idx = Ok (set_meta idx covered floor).
Proof.
  intros Hc Hf. unfold load_body, encode_meta.
  pose proof (reads_u8 TAG_META ltac:(done) [] (push_u64 covered ++ push_u64 floor)) as E1. cbn [app] in E1. change (zlen []) with 0 in E1.
  rewrite E1. cbn [cur fst snd]. rewrite Z.eqb_refl.
  pose proof (reads_u64 covered Hc (push_u8 TAG_META) (push_u64 floor)) as E2. change (zlen (push_u8 TAG_META)) with 1 in E2.
  change (0 + zlen (push_u8 TAG_META)) with 1. rewrite E2. cbn [cur fst snd].
  pose proof (reads_u64 floor Hf (push_u8 TAG_META ++ push_u64 covered) []) as E3. rewrite app_nil_r, <- app_assoc in E3.
  change (zlen (push_u8 TAG_META ++ push_u64 covered)) with 9 in E3. change (1 + zlen (push_u64 covered)) with 9. by rewrite E3.
Qed.

(** A file of batches, whose keys are new, after a prefix already read. *)
Lemma frames_batches f rep bs pre post fuel idx : Forall frame_ok bs -> fresh idx bs -> (length bs <= fuel)%nat ->
  exists fuel', (fuel - length bs <= fuel')%nat /\
  frames fuel f rep VERSION (pre ++ concat (map batch_frame bs) ++ post) (zlen pre) idx =
  frames fuel' f rep VERSION (pre ++ concat (map batch_frame bs) ++ post) (zlen (pre ++ concat (map batch_frame bs))) (build idx bs).
Proof.
  revert pre fuel idx. induction bs as [|b bs IH]; intros pre fuel idx HF Hfr Hfuel.
  - exists fuel. split; [cbn; lia|]. cbn [map concat]. by rewrite app_nil_r.
  - apply Forall_cons_1 in HF as [[Hb Hl] HF]. destruct Hfr as [Hn Hg]. cbn [map] in Hn. inversion_clear Hn as [|? ? Hni Hn'].
    destruct fuel as [|fuel]; [cbn in Hfuel; lia|]. cbn [map concat]. rewrite <- app_assoc.
    assert (btree_get (captured_at b) (batches idx) = None) as Hgb by (apply Hg; set_solver).
    pose proof (frames_step fuel f rep pre (encode_batch b) (concat (map batch_frame bs) ++ post) idx Hl) as E0.
    rewrite load_batch, Hgb in E0 by done. fold (batch_frame b) in E0. rewrite E0.
    destruct (IH (pre ++ batch_frame b) fuel (insert_batch idx (hold b))) as (fuel' & Hf' & E); [done| |cbn in Hfuel; lia|].
    { split; [done|]. intros b' Hb'. rewrite insert_batch_batches, btree_get_insert. cbn [hold h_captured_at].
      destruct (Z.eqb_spec (captured_at b') (captured_at b)) as [E|]; [|apply Hg; set_solver].
      destruct Hni. rewrite <- E. apply list_elem_of_fmap. by exists b'. }
    exists fuel'. split; [cbn; lia|]. rewrite <- !app_assoc in E. rewrite E. done.
Qed.

(** A batch other than the one held under its key stops the load. *)
Lemma frames_diverge f rep bs b h pre post fuel idx : Forall frame_ok bs -> NoDup (map captured_at bs) -> b ∈ bs ->
  btree_get (captured_at b) (batches idx) = Some h -> record h <> b -> (length bs <= fuel)%nat ->
  exists off c, frames fuel f rep VERSION (pre ++ concat (map batch_frame bs) ++ post) (zlen pre) idx = Err (Corrupt f off (BatchDiverges c)).
Proof.
  revert pre fuel idx. induction bs as [|b0 bs IH]; intros pre fuel idx HF Hnd Hin Hg Hne Hfuel; [set_solver|].
  apply Forall_cons_1 in HF as [[Hb Hl] HF]. cbn [map] in Hnd. inversion_clear Hnd as [|? ? Hni Hnd'].
  destruct fuel as [|fuel]; [cbn in Hfuel; lia|]. cbn [map concat]. rewrite <- app_assoc. unfold batch_frame at 1.
  rewrite (frames_step fuel f rep pre (encode_batch b0) (concat (map batch_frame bs) ++ post) idx Hl), load_batch by done.
  fold (batch_frame b0). apply elem_of_cons in Hin as [<-|Hin]; [rewrite Hg, bool_decide_false by done; by eauto|].
  assert (captured_at b <> captured_at b0) as Hk by (intros E; destruct Hni; rewrite <- E; apply list_elem_of_fmap; by exists b).
  assert (length bs <= fuel)%nat as Hf' by (cbn in Hfuel; lia).
  pose proof (fun i Hi => IH (pre ++ batch_frame b0) fuel i HF Hnd' Hin Hi Hne Hf') as Hrec. setoid_rewrite <- app_assoc in Hrec.
  destruct (btree_get (captured_at b0) (batches idx)) as [h0|]; [case_bool_decide; [|by eauto]|]; apply Hrec; [done|].
  rewrite insert_batch_batches, btree_get_insert. cbn [hold h_captured_at]. by rewrite (proj2 (Z.eqb_neq _ _)).
Qed.

(** ** The header *)
Definition identity_ok (id : DescLogIdentity) : Prop :=
  fits 32 (pg_major id) /\ str_ok (system_id id) /\ fits 32 (timeline id) /\ fits 32 (db_oid id) /\ fits 32 (wal_seg_size id).

Lemma reads_identity id : identity_ok id ->
  reads decode_identity id (push_u32 (pg_major id) ++ push_bytes (system_id id) ++ push_u32 (timeline id) ++ push_u32 (db_oid id) ++ push_u32 (wal_seg_size id)).
Proof.
  intros (H1 & H2 & H3 & H4 & H5). unfold decode_identity.
  eapply reads_bind; [by apply reads_u32|]. eapply reads_bind; [by apply reads_str|]. eapply reads_bind; [by apply reads_u32|].
  eapply reads_bind; [by apply reads_u32|]. eapply reads_last; [by apply reads_u32|]. destruct id. apply reads_ret.
Qed.

Lemma compare_same id lineage : compare_identity id id lineage = None.
Proof. unfold compare_identity. rewrite !Z.eqb_refl, bool_decide_true by done. done. Qed.

Lemma load_frames_header f id rest idx rep : identity_ok id ->
  load_frames (encode_header id ++ rest) f id [] idx rep =
  (let? ig := frames (S (length (encode_header id ++ rest))) f rep VERSION (encode_header id ++ rest) (zlen (encode_header id)) idx in Ok (ig, VERSION)).
Proof.
  intros Hid. set (ident := push_u32 (pg_major id) ++ push_bytes (system_id id) ++ push_u32 (timeline id) ++ push_u32 (db_oid id) ++ push_u32 (wal_seg_size id)).
  assert (encode_header id = MAGIC ++ push_u16 VERSION ++ ident) as Eh by done.
  pose proof (reads_need 2 MAGIC ltac:(done) [] (push_u16 VERSION ++ ident ++ rest)) as E1.
  pose proof (reads_u16 VERSION ltac:(done) MAGIC (ident ++ rest)) as E2.
  pose proof (reads_identity id Hid (MAGIC ++ push_u16 VERSION) rest) as E3. fold ident in E3. rewrite <- app_assoc in E3.
  cbn [app] in E1. change (zlen []) with 0 in E1. unfold load_frames at 1. rewrite Eh, <- !app_assoc. rewrite E1. cbn [cur fst snd].
  rewrite bool_decide_true by done. cbn [negb]. change (0 + zlen MAGIC) with (zlen MAGIC). rewrite E2. cbn [cur fst snd].
  change (negb ((MIN_VERSION <=? VERSION) && (VERSION <=? VERSION))) with false. cbv iota.
  unfold check_identity. change (zlen MAGIC + zlen (push_u16 VERSION)) with (zlen (MAGIC ++ push_u16 VERSION)). rewrite E3.
  cbn [cur fst snd]. rewrite compare_same. cbn [cpos].
  replace (zlen (MAGIC ++ push_u16 VERSION ++ ident)) with (zlen (MAGIC ++ push_u16 VERSION) + zlen ident); [done|]. rewrite !zlen_app. lia.
Qed.

(** The end of a file, and an append that a crash cut short. *)
Lemma frames_end fuel f rep pre idx : (0 < fuel)%nat -> frames fuel f rep VERSION (pre ++ []) (zlen pre) idx = Ok (idx, zlen pre).
Proof. intros Hf. destruct fuel; [lia|]. cbn [frames]. by rewrite app_nil_r, Z.eqb_refl. Qed.

Lemma frames_torn fuel f pre body n idx : (0 < fuel)%nat -> zlen body < 2 ^ 32 -> 0 <= n < zlen (push_frame body) ->
  frames fuel f true VERSION (pre ++ ztake n (push_frame body)) (zlen pre) idx = Ok (idx, zlen pre).
Proof.
  intros Hf Hb Hn. destruct fuel as [|fuel]; [lia|]. cbn [frames]. pose proof (zlen_nonneg body).
  assert (zlen (pre ++ ztake n (push_frame body)) = zlen pre + n) as El by (rewrite zlen_app, zlen_ztake; lia). rewrite El.
  destruct (Z.eqb_spec (zlen pre) (zlen pre + n)); [done|]. destruct (Z.ltb_spec (zlen pre + n - zlen pre) 8); [done|].
  assert (u32_at (pre ++ ztake n (push_frame body)) (zlen pre) = zlen body) as Eu.
  { destruct (frame_words pre body [] Hb) as [E _]. rewrite app_nil_r in E. rewrite <- E. unfold u32_at.
    assert (pre ++ push_frame body = (pre ++ ztake n (push_frame body)) ++ zdrop n (push_frame body)) as -> by (by rewrite <- app_assoc, ztake_zdrop_id).
    by rewrite (sub_app_l (pre ++ ztake n (push_frame body)) (zdrop n (push_frame body))) by (lia || apply zlen_nonneg). }
  rewrite Eu. rewrite frame_zlen in Hn. rewrite (proj2 (Z.ltb_lt _ _)) by lia. done.
Qed.

Lemma frames_len bs : (length bs <= length (concat (map batch_frame bs)))%nat.
Proof.
  induction bs as [|b bs IH]; [cbn; lia|]. cbn [map concat length]. rewrite length_app. pose proof (frame_zlen (encode_batch b)).
  pose proof (zlen_nonneg (encode_batch b)). unfold batch_frame at 1. unfold zlen in *. lia.
Qed.

(** A file of whole frames, and one with its last append cut short. *)
Lemma load_whole f id pre bs idx rep idx0 : identity_ok id -> Forall frame_ok bs -> fresh idx bs ->
  (pre = [] /\ idx = idx0 \/ exists c fl, pre = push_frame (encode_meta c fl) /\ idx = set_meta idx0 c fl /\ fits 64 c /\ fits 64 fl) ->
  load_frames (encode_header id ++ pre ++ concat (map batch_frame bs)) f id [] idx0 rep =
  Ok (build idx bs, zlen (encode_header id ++ pre ++ concat (map batch_frame bs)), VERSION).
Proof.
  intros Hid HF Hfr Hpre. rewrite load_frames_header by done. pose proof (frames_len bs) as Hlen.
  assert (exists fuel, (length bs < fuel)%nat /\
    frames (S (length (encode_header id ++ pre ++ concat (map batch_frame bs)))) f rep VERSION (encode_header id ++ pre ++ concat (map batch_frame bs)) (zlen (encode_header id)) idx0 =
    frames fuel f rep VERSION ((encode_header id ++ pre) ++ concat (map batch_frame bs) ++ []) (zlen (encode_header id ++ pre)) idx) as (fuel & Hf & ->).
  { rewrite app_nil_r, <- (app_assoc _ pre). destruct Hpre as [[-> ->]|(c & fl & -> & -> & Hc & Hfl)].
    - eexists. split; [|by rewrite app_nil_r]. rewrite !length_app. lia.
    - eexists. split; [|rewrite frames_step, load_meta by (done || by vm_compute); done]. rewrite !length_app.
      assert (0 < length (encode_header id))%nat by (unfold encode_header; rewrite length_app; cbn; lia). lia. }
  destruct (frames_batches f rep bs (encode_header id ++ pre) [] fuel idx HF Hfr ltac:(lia)) as (fuel' & Hf' & ->).
  rewrite app_assoc. rewrite frames_end by lia. cbn [fst snd]. by rewrite <- !app_assoc.
Qed.

Lemma load_torn f id bs body n idx : identity_ok id -> Forall frame_ok bs -> fresh idx bs -> zlen body < 2 ^ 32 -> 0 <= n < zlen (push_frame body) ->
  load_frames (encode_header id ++ concat (map batch_frame bs) ++ ztake n (push_frame body)) f id [] idx true =
  Ok (build idx bs, zlen (encode_header id ++ concat (map batch_frame bs)), VERSION).
Proof.
  intros Hid HF Hfr Hb Hn. rewrite load_frames_header by done. pose proof (frames_len bs) as Hlen.
  edestruct (frames_batches f true bs (encode_header id) (ztake n (push_frame body)) (S (length (encode_header id ++ concat (map batch_frame bs) ++ ztake n (push_frame body)))) idx HF Hfr)
    as (fuel' & Hf' & ->); [rewrite !length_app; lia|].
  rewrite app_assoc. rewrite frames_torn; [done| |done|done]. rewrite !length_app in Hf'. lia.
Qed.

(** ** What the files hold *)
Definition ckpt_holds (id : DescLogIdentity) (ckpt : option (list Z)) (covered floor : Z) (cb : list BatchRecord) : Prop :=
  match ckpt with
  | None => covered = 0 /\ floor = 0 /\ cb = []
  | Some bytes => bytes = encode_ckpt id covered floor cb
  end.

Record durable (l : Log) (covered floor : Z) (cb tb : list BatchRecord) : Prop := {
  d_id : identity_ok (identity l);
  d_meta : fits 64 covered /\ fits 64 floor;
  d_ckpt : ckpt_holds (identity l) (ckpt_file (disk l)) covered floor cb;
  d_tail : tail_file (disk l) = Some (encode_header (identity l) ++ concat (map batch_frame tb));
  d_len : tail_len l = zlen (tail_bytes l);
  d_frames : Forall frame_ok (cb ++ tb);
  d_fresh : NoDup (map captured_at (cb ++ tb));
  d_built : built (index l);
  d_index : erase (index l) = erase (build (set_meta default_index covered floor) (cb ++ tb)) }.

Lemma fresh_app covered floor cb tb : NoDup (map captured_at (cb ++ tb)) ->
  fresh (set_meta default_index covered floor) cb /\ fresh (build (set_meta default_index covered floor) cb) tb.
Proof.
  rewrite map_app. intros (H1 & H2 & H3)%list.NoDup_app. split; (split; [done|]); [done|].
  intros b Hb. apply build_get. split; [done|]. intros Hin. apply (H2 _ Hin). apply list_elem_of_fmap. by exists b.
Qed.

Lemma disk_tail l t : tail_file (disk l) = Some t -> MkDisk (ckpt_file (disk l)) (Some (tail_bytes l)) = disk l.
Proof. unfold tail_bytes. intros E. rewrite E. by destruct (disk l) as [ck tl]; cbn [tail_file] in E; subst tl. Qed.

(** Opening the checkpoint, then a tail that reads as [tb]. *)
Lemma open_tail l covered floor cb tb t good : durable l covered floor cb tb ->
  (forall idx, fresh idx tb -> load_frames t Tail (identity l) [] idx true = Ok (build idx tb, good, VERSION)) -> ztake good t = tail_bytes l ->
  open (MkDisk (ckpt_file (disk l)) (Some t)) (identity l) =
  Ok (MkLog (identity l) (build (set_meta default_index covered floor) (cb ++ tb)) (disk l) (tail_len l)).
Proof.
  intros [Hid [Hc Hf] Hck Htail Hlen HF Hnd Hb Hi] Ht Hgood. destruct (fresh_app covered floor cb tb Hnd) as [Fc Ft].
  apply List.Forall_app in HF as [HFc HFt]. unfold open, open_on_branch. cbn [ckpt_file tail_file].
  pose proof (disk_tail l _ Htail) as Ed.
  destruct (ckpt_file (disk l)) as [bytes|]; cbn [ckpt_holds] in Hck.
  - subst bytes. unfold encode_ckpt. fold batch_frame.
    change (fun b => push_frame (encode_batch b)) with batch_frame.
    rewrite (load_whole Ckpt (identity l) _ cb (set_meta default_index covered floor) false default_index Hid HFc Fc)
      by (right; by exists covered, floor).
    cbn [fst snd]. rewrite Z.ltb_irrefl. rewrite (Ht _ Ft). cbn [fst snd orb]. rewrite Z.ltb_irrefl, build_app, Hgood, Hlen. by rewrite <- Ed.
  - destruct Hck as (-> & -> & ->). cbn [build fold_left app] in *. change (set_meta default_index 0 0) with default_index in *.
    rewrite (Ht _ Ft). cbn [fst snd orb]. rewrite Z.ltb_irrefl, Hgood, Hlen. by rewrite Ed.
Qed.

Lemma open_durable l covered floor cb tb : durable l covered floor cb tb ->
  open (disk l) (identity l) = Ok (MkLog (identity l) (build (set_meta default_index covered floor) (cb ++ tb)) (disk l) (tail_len l)).
Proof.
  intros Hd. pose proof (open_tail l covered floor cb tb (tail_bytes l) (zlen (tail_bytes l)) Hd) as Ho.
  pose proof Hd as [Hid _ _ Htail _ HF _ _ _]. apply List.Forall_app in HF as [_ HFt].
  rewrite (disk_tail l _ Htail) in Ho. apply Ho.
  - intros idx Hfr. unfold tail_bytes. rewrite Htail. cbn [default from_option Datatypes.id].
    apply (load_whole Tail (identity l) [] tb idx true idx Hid HFt Hfr). by left.
  - rewrite <- (app_nil_r (tail_bytes l)) at 2. by apply ztake_app_exact.
Qed.

(** ** Every operation keeps the files in step *)
Lemma durable_get l covered floor cb tb c : durable l covered floor cb tb -> btree_get c (batches (index l)) = None ->
  c ∉ map captured_at (cb ++ tb).
Proof.
  intros Hd Hg. pose proof (erase_get _ _ c (d_index _ _ _ _ _ Hd)) as He. rewrite Hg in He.
  destruct (btree_get c (batches (build (set_meta default_index covered floor) (cb ++ tb)))) eqn:E; [done|]. by apply build_get in E as [_ E].
Qed.

Lemma durable_append_new l covered floor cb tb b l' : durable l covered floor cb tb -> frame_ok b ->
  btree_get (captured_at b) (batches (index l)) = None -> append_batch l b = Ok l' -> durable l' covered floor cb (tb ++ [b]).
Proof.
  intros Hd Hb Eg. unfold append_batch. rewrite Eg. intros [= <-].
  pose proof (durable_get _ _ _ _ _ _ Hd Eg) as Hni. destruct Hd as [Hid Hm Hck Htail Hlen HF Hnd Hbu Hi].
  split; cbn [identity disk index tail_len ckpt_file tail_file]; [done..| | | | | |].
  - unfold tail_bytes. rewrite Htail. cbn [default from_option Datatypes.id]. rewrite map_app, concat_app. cbn [map concat]. by rewrite app_nil_r, app_assoc.
  - done.
  - rewrite app_assoc. apply List.Forall_app. split; [done|]. constructor; [done|constructor].
  - rewrite app_assoc, map_app. apply list.NoDup_app. split; [done|]. split; [set_solver|]. cbn [map]. apply NoDup_singleton.
  - by constructor.
  - rewrite app_assoc, build_app. cbn [build fold_left]. by rewrite !erase_insert_batch, Hi.
Qed.

Lemma durable_append l covered floor cb tb b l' : durable l covered floor cb tb -> frame_ok b -> append_batch l b = Ok l' ->
  durable l' covered floor cb tb \/ durable l' covered floor cb (tb ++ [b]).
Proof.
  intros Hd Hb Ha. destruct (btree_get (captured_at b) (batches (index l))) as [h|] eqn:Eg; [|right; by eapply durable_append_new].
  left. unfold append_batch in Ha. rewrite Eg in Ha. case_bool_decide; [|done]. by injection Ha as <-.
Qed.

Lemma erase_set_meta idx c f : erase (set_meta idx c f) = set_meta (erase idx) c f.
Proof. done. Qed.

Lemma durable_empty l covered floor cb tb : durable l covered floor cb tb -> batches (index l) = [] -> cb ++ tb = [].
Proof.
  intros Hd Hb. destruct (cb ++ tb) as [|b bs] eqn:E; [done|]. exfalso.
  apply (durable_get l covered floor cb tb (captured_at b) Hd); [by rewrite Hb|]. rewrite E. set_solver.
Qed.

Lemma durable_seed l covered floor cb tb b c l' : durable l covered floor cb tb -> frame_ok b -> fits 64 c -> floor_at_write (index l) = 0 ->
  seed l b c = Ok l' -> durable l' c 0 [b] [].
Proof.
  intros Hd Hb Hc Hfl. unfold seed, is_empty. destruct (batches (index l)) as [|x xs] eqn:Eb; [|done].
  destruct (covered_through (index l) =? 0); [|done]. cbn [andb negb]. intros [= <-]. rewrite Hfl.
  pose proof (durable_empty _ _ _ _ _ Hd Eb) as En. destruct Hd as [Hid Hm Hck Htail Hlen HF Hnd Hbu Hi]. apply app_eq_nil in En as [-> ->].
  split; cbn [identity disk index tail_len ckpt_file tail_file app]; [done|by split| |done|done| | | |].
  - unfold ckpt_holds, encode_ckpt. cbn [map concat]. by rewrite app_nil_r.
  - constructor; [done|constructor].
  - apply NoDup_singleton.
  - constructor; [by apply built_meta|]. cbn [set_meta batches]. by rewrite Eb.
  - cbn [build fold_left app] in *. by rewrite !erase_insert_batch, !erase_set_meta, Hi.
Qed.

(** A batch with some of its entries and intervals encodes shorter. *)
Lemma filter_concat_len {A} (enc : A -> list Z) p l : zlen (concat (map enc (List.filter p l))) <= zlen (concat (map enc l)).
Proof.
  induction l as [|x l IH]; [done|]. cbn [List.filter map concat]. pose proof (zlen_nonneg (enc x)).
  destruct (p x); cbn [map concat]; rewrite !zlen_app; lia.
Qed.

Lemma filter_zlen {A} (p : A -> bool) l : zlen (List.filter p l) <= zlen l.
Proof. pose proof (filter_split p l). pose proof (zlen_nonneg (List.filter (fun x => negb (p x)) l)). lia. Qed.

Lemma filter_forall {A} (P : A -> Prop) (p : A -> bool) l : Forall P l -> Forall P (List.filter p l).
Proof. rewrite !List.Forall_forall. intros HF x [Hx _]%List.filter_In. by apply HF. Qed.

Lemma map_filter {A B} (f : A -> B) (p : A -> bool) (q : B -> bool) l : (forall x, p x = q (f x)) -> map f (List.filter p l) = List.filter q (map f l).
Proof. intros Hp. induction l as [|x l IH]; [done|]. cbn [List.filter map]. rewrite <- Hp. destruct (p x); cbn [map]; by rewrite IH. Qed.

Lemma retained_frame_ok floor keep k b h : retained_of floor keep (k, b) = Some h -> k = h_captured_at b -> frame_ok (record b) -> frame_ok (record h).
Proof.
  unfold retained_of. intros Hr -> [(B1 & B2 & B3 & B4 & B5 & B6 & B7 & B8) Hl]. destruct (floor <? h_captured_at b); [by injection Hr as <-|].
  destruct (_ && _); [done|]. injection Hr as <-. unfold frame_ok, batch_ok, record, encode_batch in *.
  cbn [captured_at commit_lsn entries ambiguities observations h_captured_at h_commit_lsn h_observations h_ambiguities h_entries] in *.
  pose proof (filter_zlen (retains floor keep) (h_entries b)). pose proof (filter_zlen (fun a => floor <? through_lsn a) (h_ambiguities b)).
  assert (zlen (map entry (List.filter (retains floor keep) (h_entries b))) <= zlen (map entry (h_entries b))) by (unfold zlen in *; rewrite !length_map; lia).
  assert (Forall DescCodec.entry_ok (map entry (List.filter (retains floor keep) (h_entries b)))) as HFe.
  { rewrite List.Forall_forall in *. intros e He. apply in_map_iff in He as (a & <- & [Ha _]%List.filter_In). apply B4. by apply in_map. }
  split; [repeat split; [apply B1|apply B1|apply B2|apply B2|lia|done|lia|by apply filter_forall|done|done]|].
  rewrite !zlen_app in *. unfold push_counted in *. rewrite !zlen_app in *.
  assert (forall v, zlen (push_u32 v) = 4) as E4 by done. rewrite !E4 in *.
  pose proof (filter_concat_len encode_amb (fun a => floor <? through_lsn a) (h_ambiguities b)).
  pose proof (filter_concat_len (fun a => encode_entry (entry a)) (retains floor keep) (h_entries b)) as He.
  rewrite <- !(map_map entry encode_entry) in He. lia.
Qed.

Lemma sorted_nodup (l : list Z) : StronglySorted Z.lt l -> NoDup l.
Proof.
  induction 1 as [|x l _ IH HF]; [constructor|]. constructor; [|done]. rewrite List.Forall_forall in HF. intros Hx%list_elem_of_In.
  specialize (HF x Hx). lia.
Qed.

Lemma durable_gc l covered floor cb tb fl : durable l covered floor cb tb -> fits 64 fl ->
  durable (gc_locked l (compute_retained (index l) fl) fl) covered fl
    (map (fun kb => record kb.2) (batches (compute_retained (index l) fl))) [].
Proof.
  intros [Hid [Hc Hf] Hck Htail Hlen HF Hnd Hbu Hi] Hfl. pose proof (built_ok _ Hbu) as Hok.
  destruct (compute_retained_ok (index l) fl Hok) as [Hok' Hbs].
  assert (covered_through (compute_retained (index l) fl) = covered) as Ec.
  { unfold compute_retained. rewrite retain_fold, <- fold_set_meta. cbn [set_meta covered_through].
    apply (f_equal covered_through) in Hi. cbn [erase covered_through] in Hi. rewrite Hi. clear.
    unfold build. replace (set_meta default_index covered floor) with (set_meta (set_meta default_index covered floor) covered floor) by done.
    generalize (set_meta default_index covered floor). induction (cb ++ tb) as [|b bs IH]; intros i; [done|]. cbn [fold_left]. by rewrite insert_set_meta. }
  set (keep := keep_at_floor (index l) fl) in *. set (hs := omap (retained_of fl keep) (batches (index l))) in *.
  assert (map (fun kb => record kb.2) (batches (compute_retained (index l) fl)) = map record hs) as Er by (rewrite Hbs, map_map; done).
  split; unfold gc_locked; cbn [identity disk index tail_len ckpt_file tail_file]; [done|done| | | | | | |].
  - unfold ckpt_holds, gc_ckpt. cbn [set_meta covered_through batches]. by rewrite Ec.
  - unfold tail_bytes, header_len. rewrite Htail. cbn [default from_option Datatypes.id map concat]. rewrite app_nil_r. f_equal. by apply ztake_app_exact.
  - unfold tail_bytes at 1. cbn [disk tail_file default from_option Datatypes.id]. unfold tail_bytes, header_len. rewrite Htail. cbn [default from_option Datatypes.id].
    by rewrite ztake_app_exact.
  - rewrite app_nil_r, Er. rewrite List.Forall_forall in *. intros r Hr. apply in_map_iff in Hr as (h & <- & Hh%list_elem_of_In).
    apply omap_elem in Hh as ([k b] & Hin & Hret). pose proof (ok_held _ Hok) as Hheld. rewrite List.Forall_forall in Hheld.
    destruct (Hheld _ (proj1 (list_elem_of_In _ _) Hin)) as [Hk _]. eapply retained_frame_ok; [exact Hret|exact Hk|].
    destruct (erase_elem _ _ _ Hi Hin) as (kh & Hkh & Hrec). cbn [snd] in Hrec. rewrite <- Hrec. apply HF, list_elem_of_In.
    apply build_elem in Hkh as [Hkh|Hkh]; [cbn in Hkh; set_solver|done].
  - rewrite app_nil_r, Er, map_map. cbn [record captured_at]. apply sorted_nodup.
    pose proof (ok_keys _ Hok') as Hs. rewrite Hbs, map_map in Hs. exact Hs.
  - by constructor.
  - rewrite app_nil_r, Er, <- erase_rebuild, Ec. f_equal. unfold compute_retained. rewrite retain_fold. fold keep. fold hs. by rewrite fold_set_meta.
Qed.

(** ** Restarts *)
(** The logs a run goes through: a fresh directory, then seeds, appends,
    compactions and restarts.  Batches fit their wire widths and the frame
    bound.  The baseline is seeded before any compaction. *)
Inductive reach (id : DescLogIdentity) : Log -> Prop :=
| reach_fresh l : open (MkDisk None None) id = Ok l -> reach id l
| reach_seed l b c l' : reach id l -> frame_ok b -> fits 64 c -> floor_at_write (index l) = 0 -> seed l b c = Ok l' -> reach id l'
| reach_append l b l' : reach id l -> frame_ok b -> append_batch l b = Ok l' -> reach id l'
| reach_gc l fl : reach id l -> fits 64 fl -> reach id (maybe_gc l fl).1
| reach_reopen l l' : reach id l -> open (disk l) id = Ok l' -> reach id l'.

Lemma durable_reopen l covered floor cb tb : durable l covered floor cb tb ->
  durable (MkLog (identity l) (build (set_meta default_index covered floor) (cb ++ tb)) (disk l) (tail_len l)) covered floor cb tb.
Proof.
  intros [Hid Hm Hck Htail Hlen HF Hnd Hbu Hi]. split; try done. cbn [index]. apply build_built; [constructor|]. by split.
Qed.

Lemma reach_durable id l : identity_ok id -> reach id l -> identity l = id /\ exists covered floor cb tb, durable l covered floor cb tb.
Proof.
  intros Hid. induction 1 as [l Ho|l b c l' _ [IH (cv & fl & cb & tb & Hd)] Hb Hc Hf Hs|l b l' _ [IH (cv & fl & cb & tb & Hd)] Hb Ha
    |l fl _ [IH (cv & f0 & cb & tb & Hd)] Hfl|l l' _ [IH (cv & fl & cb & tb & Hd)] Ho].
  - unfold open, open_on_branch in Ho. cbn [ckpt_file tail_file] in Ho. injection Ho as <-. split; [done|]. exists 0, 0, [], [].
    split; cbn [identity disk index tail_len ckpt_file tail_file app map concat]; try done.
    all: first [apply (built_default 0 0)|constructor|by rewrite app_nil_r].
  - split; [|exists c, 0, [b], []; by eapply durable_seed]. unfold seed in Hs. destruct (negb _); [done|]. by injection Hs as <-.
  - split; [|destruct (durable_append _ _ _ _ _ _ _ Hd Hb Ha) as [?|?]; by eauto 6]. unfold append_batch in Ha.
    destruct (btree_get _ _); [case_bool_decide; [|done]|]; by injection Ha as <-.
  - unfold maybe_gc. destruct (_ && _); cbn [fst]; [by eauto 6|]. split; [done|].
    exists cv, fl, (map (fun kb => record kb.2) (batches (compute_retained (index l) fl))), []. by eapply durable_gc.
  - subst id. rewrite (open_durable _ _ _ _ _ Hd) in Ho. injection Ho as <-. split; [done|]. exists cv, fl, cb, tb. by apply durable_reopen.
Qed.

(** C20: A restart gives the descriptor log back.  After any seeds, appends,
    compactions and restarts, opening the two files succeeds, leaves them as they
    are and rebuilds the index: every lookup by filenode and by oid answers as
    before.  An append cut short by a crash at any byte is repaired to the log
    before it: the tail is truncated to its old length and every lookup answers
    as before the append. *)
Theorem reopen_rebuilds_log id l : identity_ok id -> reach id l ->
  (exists l', open (disk l) id = Ok l' /\ disk l' = disk l /\ erase (index l') = erase (index l) /\
    (forall r lsn, peek_spanned id (index l') r lsn = peek_spanned id (index l) r lsn) /\
    (forall o lsn, descriptor_by_oid_at_spanned id (index l') o lsn = descriptor_by_oid_at_spanned id (index l) o lsn)) /\
  (forall b n, frame_ok b -> 0 <= n < zlen (batch_frame b) ->
    exists l', open (MkDisk (ckpt_file (disk l)) (Some (tail_bytes l ++ ztake n (batch_frame b)))) id = Ok l' /\ disk l' = disk l /\
      erase (index l') = erase (index l) /\
      (forall r lsn, peek_spanned id (index l') r lsn = peek_spanned id (index l) r lsn) /\
      (forall o lsn, descriptor_by_oid_at_spanned id (index l') o lsn = descriptor_by_oid_at_spanned id (index l) o lsn)).
Proof.
  intros Hid Hr. destruct (reach_durable id l Hid Hr) as [<- (covered & floor & cb & tb & Hd)].
  pose proof (d_index _ _ _ _ _ Hd) as Hi. symmetry in Hi. destruct (erase_peek (identity l) _ _ Hi) as [Hp1 Hp2]. split.
  - rewrite (open_durable _ _ _ _ _ Hd). eexists. split; [done|]. by repeat split.
  - intros b n [Hb Hbl] Hn. pose proof Hd as [_ _ _ Htail _ HF _ _ _]. apply List.Forall_app in HF as [_ HFt].
    assert (tail_bytes l = encode_header (identity l) ++ concat (map batch_frame tb)) as Et by (unfold tail_bytes; by rewrite Htail).
    rewrite (open_tail l covered floor cb tb _ (zlen (tail_bytes l)) Hd).
    + eexists. split; [done|]. by repeat split.
    + intros idx Hfr. rewrite Et, <- app_assoc. apply load_torn; [done..| |exact Hn]. unfold MAX_FRAME in Hbl. lia.
    + by apply ztake_app_exact.
Qed.

(** C40: Compaction writes the checkpoint before it truncates the tail.  If a
    crash falls between the two and compaction kept the last appended batch in
    part, then the checkpoint's copy of that batch differs from the tail's, and
    the next start refuses the log as divergent instead of skipping the
    duplicate. *)
Theorem gc_crash_window_refused id l0 b l fl h : identity_ok id -> reach id l0 -> frame_ok b -> append_batch l0 b = Ok l ->
  btree_get (captured_at b) (batches (index l0)) = None -> fits 64 fl ->
  btree_get (captured_at b) (batches (compute_retained (index l) fl)) = Some h -> record h <> b ->
  exists off c, open (MkDisk (Some (gc_ckpt l (compute_retained (index l) fl) fl)) (tail_file (disk l))) id = Err (Corrupt Tail off (BatchDiverges c)).
Proof.
  intros Hid Hr Hb Ha Hg0 Hfl Hg Hne. destruct (reach_durable id l0 Hid Hr) as [Hi0 (covered & floor & cb & tb & Hd0)].
  pose proof (durable_append_new _ _ _ _ _ _ _ Hd0 Hb Hg0 Ha) as Hd.
  assert (identity l = id) as Hil by (unfold append_batch in Ha; rewrite Hg0 in Ha; injection Ha as <-; exact Hi0).
  pose proof (durable_gc l covered floor cb (tb ++ [b]) fl Hd Hfl) as Hd'. set (rs := map (fun kb => record kb.2) (batches (compute_retained (index l) fl))) in *.
  destruct Hd as [_ _ _ Htail _ HF Hnd _ _]. destruct Hd' as [Hid' [Hc Hf] Hck _ _ HF' Hnd' _ Hi']. rewrite app_nil_r in HF', Hnd', Hi'.
  cbn [gc_locked identity disk ckpt_file index] in Hck, Hi', Hid'. unfold ckpt_holds in Hck. rewrite Hil in *.
  destruct (fresh_app covered fl rs [] ltac:(by rewrite app_nil_r)) as [Fc _].
  pose proof (erase_get _ _ (captured_at b) Hi') as He. cbn [set_meta batches] in He. rewrite Hg in He.
  destruct (btree_get (captured_at b) (batches (build (set_meta default_index covered fl) rs))) as [h'|] eqn:Eg; [|done].
  cbn [fmap option_fmap option_map] in He. apply (inj Some) in He.
  apply List.Forall_app in HF as [_ HFt]. rewrite map_app in Hnd. apply list.NoDup_app in Hnd as (_ & _ & Hnt).
  assert (gc_ckpt l (compute_retained (index l) fl) fl = encode_ckpt id covered fl rs) as -> by exact Hck.
  unfold open, open_on_branch. cbn [ckpt_file tail_file]. unfold encode_ckpt. change (fun b => push_frame (encode_batch b)) with batch_frame.
  rewrite (load_whole Ckpt id _ rs (set_meta default_index covered fl) false default_index Hid HF' Fc) by (right; by exists covered, fl).
  cbn [fst snd]. rewrite Htail, load_frames_header by done. rewrite <- (app_nil_r (concat _)).
  destruct (frames_diverge Tail true (tb ++ [b]) b h' (encode_header id) [] (S (length (encode_header id ++ concat (map batch_frame (tb ++ [b])) ++ [])))
    (build (set_meta default_index covered fl) rs)) as (off & c & ->); [done|done|set_solver|done|congruence| |by eauto].
  pose proof (frames_len (tb ++ [b])). rewrite (length_app (encode_header id)), (length_app (concat _)). lia.
Qed.

End Frames.

(** ** A seeded log and an append, with a length for a checksum *)
#[local] Instance len_crc : Crc32c.
Proof. refine (MkCrc (fun b => zlen b mod 2 ^ 32) _). intros b. apply Z.mod_pos_bound. done. Defined.

Definition run_ok {A} (d : A) (r : result DescLogError A) : A := match r with Ok x => x | Err _ => d end.
Definition log0 : Log := MkLog ddl_id default_index (MkDisk None (Some (encode_header ddl_id))) (zlen (encode_header ddl_id)).
Definition log1 : Log := run_ok log0 (seed log0 ddl1 5).
Definition log2 : Log := run_ok log0 (append_batch log1 ddl2).

Ltac small := vm_compute; repeat (split || constructor); discriminate.

Lemma ddl_id_ok : identity_ok ddl_id.
Proof. small. Qed.

Lemma shape_ok o rel atts : (o = 100 /\ rel = 1000 \/ o = 200 /\ rel = 2000) -> (atts = [col 1] \/ atts = [col 1; col 2]) -> desc_ok (shape o rel atts).
Proof.
  intros Ho Ha. split; [|constructor].
  assert (Forall attr_ok atts) by (destruct Ha as [-> | ->]; repeat (constructor; [small|]); constructor).
  unfold flat_ok. destruct Ho as [[-> ->]|[-> ->]]; do 9 (split; [small|]); (split; [destruct Ha as [-> | ->]; small|split; [done|small]]).
Qed.

Lemma ddl_entries_ok : Forall DescCodec.entry_ok (entries ddl1) /\ Forall DescCodec.entry_ok (entries ddl2).
Proof.
  assert (forall v o rel atts, v = 10 \/ v = 18 -> (o = 100 /\ rel = 1000 \/ o = 200 /\ rel = 2000) -> (atts = [col 1] \/ atts = [col 1; col 2]) ->
    DescCodec.entry_ok (opened v o rel atts)) as Hop.
  { intros v o rel atts Hv Ho Ha. unfold DescCodec.entry_ok. cbn [valid_from eoid erfn value opened].
    split; [destruct Hv as [-> | ->]; small|]. split; [destruct Ho as [[-> ->]|[-> ->]]; small|].
    split; [destruct Ho as [[-> ->]|[-> ->]]; small|by apply shape_ok]. }
  split; (constructor; [apply Hop; auto|]; constructor; [|constructor]); [apply Hop; auto|small].
Qed.

Lemma ddl_frames : frame_ok ddl1 /\ frame_ok ddl2.
Proof.
  destruct ddl_entries_ok as [E1 E2]. split; (split; [|small]); unfold batch_ok; do 3 (split; [small|]); (split; [done|]); (split; [small|]).
  - split; [constructor|]. split; [small|constructor].
  - split; [constructor; [small|constructor]|]. split; [small|constructor].
Qed.

Lemma log2_reach : reach ddl_id log1 /\ reach ddl_id log2.
Proof.
  destruct ddl_frames as [F1 F2]. assert (reach ddl_id log1) as H1.
  { apply (reach_seed ddl_id log0 ddl1 5); [by apply reach_fresh|done|small|done|vm_compute; reflexivity]. }
  split; [done|]. apply (reach_append ddl_id log1 ddl2); [done|done|vm_compute; reflexivity].
Qed.

(** A crash five bytes into the append: the old shape, as before it. *)
Lemma reopen_rebuilds_log_witness :
  (exists l', open (disk log2) ddl_id = Ok l' /\ descriptor_by_oid_at_spanned ddl_id (index l') 200 30 = Err LDropped) /\
  (exists l', open (MkDisk (ckpt_file (disk log1)) (Some (tail_bytes log1 ++ ztake 5 (batch_frame ddl2)))) ddl_id = Ok l' /\
    disk l' = disk log1 /\ peek_spanned ddl_id (index l') (MkRfn 1663 5 1000) 30 = Ok (shape 100 1000 [col 1], 10)).
Proof.
  destruct log2_reach as [R1 R2], ddl_frames as [_ F2].
  destruct (reopen_rebuilds_log ddl_id log2 ddl_id_ok R2) as [(l' & Ho & _ & _ & _ & H2) _].
  destruct (reopen_rebuilds_log ddl_id log1 ddl_id_ok R1) as [_ Ht]. destruct (Ht ddl2 5 F2) as (t & Hto & Htd & _ & Ht1 & _); [small|].
  split; [exists l'; split; [exact Ho|]; rewrite H2; vm_compute; reflexivity|].
  exists t. split; [exact Hto|]. split; [exact Htd|]. rewrite Ht1. vm_compute. reflexivity.
Defined.

(** Compaction at 25 keeps of [ddl2] the altered table and not the drop. *)
Lemma gc_crash_window_refused_witness :
  exists off c, open (MkDisk (Some (gc_ckpt log2 (compute_retained (index log2) 25) 25)) (tail_file (disk log2))) ddl_id =
    Err (Corrupt Tail off (BatchDiverges c)).
Proof.
  destruct log2_reach as [R1 _], ddl_frames as [_ F2].
  eapply (gc_crash_window_refused ddl_id log1 ddl2 log2 25); [exact ddl_id_ok|exact R1|exact F2|vm_compute; reflexivity|vm_compute; reflexivity
    |small|vm_compute; reflexivity|vm_compute; discriminate].
Defined.

End DescLogFile.
