(* ===== verification/Pending.v ===== *)
(** * The pending catalog ([src/catalog/pending.rs])

    Shapes a transaction gave its relations at its own command boundaries,
    visible only to that transaction until it commits.  One timeline per
    transaction tree: chains by filenode and by oid, the boundaries admitted,
    the time parked, and why coverage was given up if it was. *)
From S2P Require Import Prelude WalRecord HeapDecode.
Import WalRecord Schema HeapDecode.

Module Pending.

Inductive DegradeReason := CaptureAll | CapExceeded | HoldBudget | ReplayMismatch | QueryError.

Record PendingSlot := MkPSlot { p_valid_from : Z; writer_xid : Z; desc : RelDescriptor }.

Notation Chains K := (gmap K (list PendingSlot)).

Record PendingXact := MkPXact
  { chains : Chains RelFileNode; by_oid : Chains Z; boundaries : Z; hold_nanos : Z; p_degraded : option DegradeReason }.

Definition fresh : PendingXact := MkPXact ∅ ∅ 0 0 None.

(** [insert_sorted]: the binary search finds the position, or the slot to
    replace, in a chain without repeated positions. *)
Fixpoint insert_sorted (chain : list PendingSlot) (slot : PendingSlot) : list PendingSlot :=
  match chain with
  | [] => [slot]
  | s :: rest =>
      if p_valid_from slot <? p_valid_from s then slot :: chain
      else if p_valid_from slot =? p_valid_from s then slot :: rest
      else s :: insert_sorted rest slot
  end.

(** [entry(k).or_default()] and the insertion. *)
Definition file `{Countable K} (m : Chains K) (k : K) (slot : PendingSlot) : Chains K :=
  <[k := insert_sorted (default [] (m !! k)) slot]> m.

Definition push (x : PendingXact) (slot : PendingSlot) : PendingXact :=
  MkPXact (file (chains x) (drfn (desc slot)) slot) (file (by_oid x) (oid (desc slot)) slot) (boundaries x) (hold_nanos x) (p_degraded x).

Definition absorb (x other : PendingXact) : PendingXact :=
  MkPXact
    (map_fold (fun _ slots m => fold_left (fun m s => file m (drfn (desc s)) s) slots m) (chains x) (chains other))
    (map_fold (fun o slots m => <[o := fold_left insert_sorted slots (default [] (m !! o))]> m) (by_oid x) (by_oid other))
    (boundaries x + boundaries other) (hold_nanos x + hold_nanos other) (opt_or (p_degraded x) (p_degraded other)).

Definition slots (x : PendingXact) : Z := map_fold (fun _ l n => zlen l + n) 0 (chains x).

(** [retain], then the chains left empty are removed. *)
Definition keep `{Countable K} (members : list Z) (m : Chains K) : Chains K :=
  filter (fun kl => kl.2 <> []) (filter (fun s => writer_xid s ∉ members) <$> m).

Definition drop_writers (x : PendingXact) (members : list Z) : PendingXact * Z :=
  let x' := MkPXact (keep members (chains x)) (keep members (by_oid x)) (boundaries x) (hold_nanos x) (p_degraded x) in
  (x', slots x - slots x').

(** ** The catalog *)
Notation PendingCatalog := (gmap Z PendingXact).

Definition or_default (c : PendingCatalog) (top : Z) : PendingXact := default fresh (c !! top).

(** [PendingCatalog::admit]: [Ok], or the reason when this call degraded the transaction. *)
Definition admit_boundary (c : PendingCatalog) (top max_boundaries hold_budget : Z) : PendingCatalog * result (option DegradeReason) unit :=
  let x := or_default c top in
  match p_degraded x with
  | Some _ => (<[top := x]> c, Err None)
  | None =>
      let over := if max_boundaries <=? boundaries x then Some CapExceeded
                  else if hold_budget <=? hold_nanos x then Some HoldBudget else None in
      match over with
      | Some reason => (<[top := MkPXact (chains x) (by_oid x) (boundaries x) (hold_nanos x) (Some reason)]> c, Err (Some reason))
      | None => (<[top := MkPXact (chains x) (by_oid x) (boundaries x + 1) (hold_nanos x) None]> c, Ok tt)
      end
  end.

Definition charge_hold (c : PendingCatalog) (top nanos : Z) : PendingCatalog :=
  let x := or_default c top in <[top := MkPXact (chains x) (by_oid x) (boundaries x) (hold_nanos x + nanos) (p_degraded x)]> c.

Definition degrade (c : PendingCatalog) (top : Z) (reason : DegradeReason) : PendingCatalog * bool :=
  let x := or_default c top in
  match p_degraded x with
  | Some _ => (<[top := x]> c, false)
  | None => (<[top := MkPXact (chains x) (by_oid x) (boundaries x) (hold_nanos x) (Some reason)]> c, true)
  end.

Definition degraded (c : PendingCatalog) (top : Z) : option DegradeReason := c !! top ≫= p_degraded.

Definition record (c : PendingCatalog) (top : Z) (ss : list PendingSlot) : PendingCatalog :=
  match ss with [] => c | _ => <[top := fold_left push ss (or_default c top)]> c end.

(** [rev().find(valid_from <= lsn)]. *)
Definition shape_at (chain : list PendingSlot) (lsn : Z) : option PendingSlot := List.find (fun s => p_valid_from s <=? lsn) (rev chain).

Definition descriptor_at (c : PendingCatalog) (top : Z) (rfn : RelFileNode) (lsn : Z) : option RelDescriptor :=
  let* x := c !! top in let* chain := chains x !! rfn in desc <$> shape_at chain lsn.

Definition has_slots (c : PendingCatalog) (top : Z) (rfn : RelFileNode) : bool :=
  match c !! top with Some x => is_some (chains x !! rfn) | None => false end.

Definition chain (c : PendingCatalog) (top : Z) (rfn : RelFileNode) : list PendingSlot :=
  default [] (c !! top ≫= fun x => chains x !! rfn).

Definition consolidate (c : PendingCatalog) (top : Z) (members : list Z) : PendingCatalog :=
  let merge st m :=
    if m =? top then st
    else match st.1 !! m with
         | None => st
         | Some other => (delete m st.1, Some (match st.2 with Some acc => absorb acc other | None => other end))
         end in
  let '(c, merged) := fold_left merge members (delete top c, c !! top) in
  match merged with Some x => <[top := x]> c | None => c end.

Record PromotedXact := MkPromoted { pr_by_oid : list (Z * list PendingSlot); pr_degraded : option DegradeReason }.

Definition promoted (c : PendingCatalog) (top : Z) : option PromotedXact :=
  let* x := c !! top in
  Some (MkPromoted (fold_left (fun l kv => btree_insert kv.1 kv.2 l) (map_to_list (by_oid x)) []) (p_degraded x)).

Definition slots_for (p : PromotedXact) (o : Z) : list PendingSlot := default [] (btree_get o (pr_by_oid p)).

Definition coverage_from (p : PromotedXact) (o : Z) : option Z :=
  match pr_degraded p with Some _ => None | None => p_valid_from <$> head (slots_for p o) end.

Definition forget_tree (c : PendingCatalog) (top : Z) : PendingCatalog * Z :=
  (delete top c, match c !! top with Some x => slots x | None => 0 end).

Definition forget_members (c : PendingCatalog) (members : list Z) : PendingCatalog * Z :=
  let '(c, dropped) := fold_left (fun st m => (delete m st.1, st.2 + match st.1 !! m with Some x => slots x | None => 0 end)) members (c, 0) in
  let dropped := map_fold (fun _ x n => (drop_writers x members).2 + n) dropped c in
  let c := (fun x => (drop_writers x members).1) <$> c in
  (filter (fun kx => 0 < slots kx.2 \/ 0 < boundaries kx.2 \/ p_degraded kx.2 <> None) c, dropped).

End Pending.
