(* ===== verification/XactDrain.v ===== *)
(** * The commit drain ([src/xact/xact_buffer.rs])

    What a commit does with the states it takes out of the buffer: the stashed
    filenodes are resolved against the descriptor log, the per-transaction
    entries and event queues are merged by position, chunks and raw records fold
    away, and the heaps and events that remain leave in bounded slices.  A lone
    in-memory transaction of plain heaps that fits one slice skips the merge. *)
From S2P Require Import Prelude Pos WalRecord Fpi AsciiBuf Numeric HeapDecode Wire DescCodec Spill ToastRef XactBuffer DescLog Pending.
Import WalRecord Schema HeapDecode DescCodec Spill XactBuffer.
Import ToastRef (Folded, Limits, fold_chunk, fold_delete, fold_ops, StashedToastOp, OpChunk, OpDelete, FoldError).

Module XactDrain.

(** ** Errors *)
Inductive FailClosedReason :=
| ImageOnly
| Malformed (e : DecodeError)
| UnsupportedOperation
| PartialUpdate.

Inductive ImageInsertError := LacksOffnum | FpiRestore (e : Fpi.FpiError) | NoTuple (blkno offnum : Z) | MalformedTuple (blkno offnum : Z).

Inductive XactBufferError :=
| SpillFailed (e : SpillError)
| DetoastRecord (e : DecodeError)
| DetoastImage (e : ImageInsertError)
| FoldFailed (e : FoldError)
| IncompleteToastGeneration (relid : Z)
| OrdinaryFailClosed (relid lsn rm info : Z) (reason : FailClosedReason)
| StashAmbiguous (rel_node lsn from_lsn through_lsn : Z)
| MissingStashResolution (top_xid : Z)
| ForeignXid (xid top : Z).

(** ** Verdicts on stashed filenodes *)
Inductive StashOutcome :=
| OToast (rel : RelDescriptor)
| OOrdinary (rel : RelDescriptor) (valid_from : Z) (fence : list Ambiguity) (pending : list Pending.PendingSlot).

Record StashResolved := MkResolved { res_top_xid : Z; res : option (gmap RelFileNode StashOutcome) }.

Definition nothing_stashed (top_xid : Z) : StashResolved := MkResolved top_xid None.

Definition superseded_generation (idx : DescLog.Index) (o : Z) (rfn : RelFileNode) (first : Z) : bool :=
  match DescLog.predecessor_before idx o first with
  | Some e => match value e with Present prev => negb (bool_decide (drfn prev = rfn)) | _ => false end
  | None => false
  end.

Section Drain.
Context `{Layout} `{Decompress} `{FloatText} `{Fpi.Codecs} {SchemaEvent ConfigEvent : Type}.
Local Notation DrainEntry := (DrainEntry SchemaEvent ConfigEvent).
Local Notation XactState := (XactState SchemaEvent ConfigEvent).
Local Notation XactBuffer := (XactBuffer SchemaEvent ConfigEvent).

(** [sort_unstable_by_key] on filenodes, whose order is the parser crate's. *)
Context (sort_rfns : list (RelFileNode * StashMark) -> list (RelFileNode * StashMark)).

(** One filenode of [resolve_stash]'s loop: its verdict and the barrier a
    rewritten TOAST generation queues. *)
Definition resolve_one (b : XactBuffer) (id : DescLog.DescLogIdentity) (idx : DescLog.Index) (pending : gmap Z Pending.PendingXact)
    (top_xid next_lsn : Z) (rfn : RelFileNode) (mark : StashMark)
    : result XactBufferError (option StashOutcome * option (Z * Z)) :=
  match DescLog.peek_spanned id idx rfn next_lsn with
  | Ok (rel, valid_from) =>
      let fenced := fold_left DescLog.insert_amb (DescLog.ambiguities_intersecting id idx rfn (Some (oid rel)) (mark_first mark) next_lsn) [] in
      if kind rel =? 116 then
        match fenced with
        | a :: _ => Err (StashAmbiguous (rel_node rfn) next_lsn (from_lsn a) (through_lsn a))
        | [] =>
            match marker_lsn b rfn with
            | Some m => Ok (Some (OToast rel), Some (oid rel, m))
            | None =>
                if superseded_generation idx (oid rel) rfn (mark_first mark) then Err (IncompleteToastGeneration (oid rel))
                else Ok (Some (OToast rel), None)
            end
        end
      else Ok (Some (OOrdinary rel valid_from fenced (Pending.chain pending top_xid rfn)), None)
  | Err (DescLog.LAmbiguous a) => Err (StashAmbiguous (rel_node rfn) next_lsn (from_lsn a) (through_lsn a))
  | Err _ => Ok (None, None)
  end.

Fixpoint resolve_loop (b : XactBuffer) (id : DescLog.DescLogIdentity) (idx : DescLog.Index) (pending : gmap Z Pending.PendingXact)
    (top_xid next_lsn : Z) (rfns : list (RelFileNode * StashMark)) (outcomes : gmap RelFileNode StashOutcome) (barriers : list (Z * Z))
    : result XactBufferError (gmap RelFileNode StashOutcome * list (Z * Z)) :=
  match rfns with
  | [] => Ok (outcomes, barriers)
  | (rfn, mark) :: rfns =>
      let? ob := resolve_one b id idx pending top_xid next_lsn rfn mark in
      resolve_loop b id idx pending top_xid next_lsn rfns
        (match ob.1 with Some o => <[rfn := o]> outcomes | None => outcomes end)
        (match ob.2 with Some x => barriers ++ [x] | None => barriers end)
  end.

Definition resolve_stash (b : XactBuffer) (id : DescLog.DescLogIdentity) (idx : DescLog.Index) (pending : gmap Z Pending.PendingXact)
    (top_xid : Z) (subxids : list Z) (next_lsn : Z) : result XactBufferError (XactBuffer * StashResolved) :=
  let rfns := sort_rfns (map_to_list (stash_candidates b (top_xid :: subxids))) in
  match rfns with
  | [] => Ok (b, MkResolved top_xid (Some ∅))
  | _ =>
      let? ob := resolve_loop b id idx pending top_xid next_lsn rfns ∅ [] in
      let b := fold_left (fun b x => on_toast_barrier b top_xid next_lsn x.1 x.2) ob.2 b in
      Ok (forget_markers b (map fst rfns), MkResolved top_xid (Some ob.1))
  end.

(** ** Merge sources *)
Inductive SpillSide := Unspilled | Reading (r : SpillReader) | Spent (r : SpillReader).

Record MergeSource := MkSource { shead : option SpillEntry; side : SpillSide; smem : list SpillEntry }.

(** How the asynchronous reads cut a file into chunks. *)
Context (reads : list Z -> list (list Z)).

(** Frames left in the file, at most. *)
Definition reader_fuel (r : SpillReader) : nat :=
  S (length (unread (chunks r)) + length (concat (default [] (next_chunk (chunks r))))).

Definition pop_mem (side : SpillSide) (mem : list SpillEntry) : option SpillEntry * MergeSource :=
  match mem with [] => (None, MkSource None side []) | e :: mem => (Some e, MkSource None side mem) end.

(** [next_entry], the head already taken. *)
Definition next_entry (s : MergeSource) : result SpillError (option SpillEntry * MergeSource) :=
  match side s with
  | Reading r =>
      let? er := Spill.next (reader_fuel r) r in
      match er.1 with
      | Some e => Ok (Some e, MkSource None (Reading er.2) (smem s))
      | None => Ok (pop_mem (Spent er.2) (smem s))
      end
  | sd => Ok (pop_mem sd (smem s))
  end.

Definition refill (s : MergeSource) : result SpillError MergeSource :=
  let? es := next_entry s in Ok (MkSource es.1 (side es.2) (smem es.2)).

Definition open_mem (in_mem : list SpillEntry) : MergeSource :=
  let '(h, s) := pop_mem Unspilled in_mem in MkSource h (side s) (smem s).

Definition open_spilled (w : SpillWriter) (in_mem : list SpillEntry) : result SpillError MergeSource :=
  let bytes := file (flush (wout w)) in
  let? cr := open_chunks (ztake 4 bytes) SPILL_MAGIC SPILL_VERSION (reads (zdrop 4 bytes)) in
  refill (MkSource None (Reading (MkReader cr [])) in_mem).

Definition head_lsn (s : MergeSource) : option Z := entry_lsn <$> shead s.

Definition pop (s : MergeSource) : result SpillError (option SpillEntry * MergeSource) :=
  match shead s with
  | None => Ok (None, s)
  | Some e => let? s := refill (MkSource None (side s) (smem s)) in Ok (Some e, s)
  end.

(** ** Stashed records *)
Definition BKP_BLOCK_HAS_DATA : Z := 0x20.
Definition XLOG_HEAP_CONFIRM : Z := 0x50.
Definition XLOG_HEAP_LOCK : Z := 0x60.

(** The first block carries an image and no data of its own. *)
Definition image_only (r : RawRecord) : bool :=
  match raw_blocks r with
  | b :: _ => negb (Z.land (fork_flags b) BKP_BLOCK_HAS_IMAGE =? 0) && (Z.land (fork_flags b) BKP_BLOCK_HAS_DATA =? 0)
  | [] => false
  end.

Definition toast_record_tid (r : XLogRecord) : option (Z * Z) :=
  if negb (resource_manager_id r =? RM_HEAP) then None
  else
    let op := Z.land (info r) XLOG_HEAP_OPMASK in
    let* off := if op =? XLOG_HEAP_INSERT then Some 0 else if op =? XLOG_HEAP_DELETE then Some 4 else None in
    let* b := get_range (main_data r) off (off + 2) in
    match blocks r with blk :: _ => Some (block_no blk, le_dec b) | [] => None end.

Definition toast_chunk_from_decoded (d : DecodedHeap) (rel : RelDescriptor) (tid : option (Z * Z)) : option ToastChunk :=
  match op d with
  | Insert =>
      let* t := HeapDecode.new d in
      let* c := (take_toast_chunk_columns (columns t)).1 in
      let '(value_id, chunk_seq, chunk_data) := c in
      let '(blkno, offnum) := default (0, 0) tid in
      Some (MkChunk (db_node (drfn rel)) (oid rel) value_id chunk_seq (source_lsn d) blkno offnum chunk_data)
  | _ => None
  end.

(** [decode_on_page_tuple], on what the chunk columns need. *)
Definition decode_on_page_tuple (tuple : list Z) (rel : RelDescriptor) : option (list (option ColumnValue)) :=
  if zlen tuple <? SIZE_OF_HEAP_TUPLE_HEADER then None
  else
    let t_hoff := byte_at tuple 22 in
    if (t_hoff <? SIZE_OF_HEAP_TUPLE_HEADER) || (zlen tuple <? t_hoff) then None
    else match decode_tuple_payload (zdrop 18 tuple) 0 rel 0 0 with Ok d => Some (columns d) | Err _ => None end.

Definition decode_image_insert (raw : RawRecord) (rel : RelDescriptor) : result XactBufferError (list StashedToastOp) :=
  let rec := to_xlog_record raw in
  match toast_record_tid rec with
  | None => Err (DetoastImage LacksOffnum)
  | Some (blkno, offnum) =>
      match blocks rec with
      | [] => Ok []
      | block :: _ =>
          match Fpi.restore_block_image block (page_magic raw) with
          | Err e => Err (DetoastImage (FpiRestore e))
          | Ok page =>
              match HeapPage.page_tuple_bytes page offnum with
              | None => Err (DetoastImage (NoTuple blkno offnum))
              | Some tuple =>
                  match decode_on_page_tuple tuple rel with
                  | None => Err (DetoastImage (MalformedTuple blkno offnum))
                  | Some cols =>
                      match (take_toast_chunk_columns cols).1 with
                      | None => Ok []
                      | Some (value_id, chunk_seq, chunk_data) =>
                          Ok [OpChunk (MkChunk (db_node (drfn rel)) (oid rel) value_id chunk_seq (raw_lsn raw) blkno offnum chunk_data)]
                      end
                  end
              end
          end
      end
  end.

Definition decode_stashed_toast (raw : RawRecord) (rel : RelDescriptor) : result XactBufferError (list StashedToastOp) :=
  let rec := to_xlog_record raw in
  if (rm raw =? RM_HEAP) && (Z.land (raw_info raw) XLOG_HEAP_OPMASK =? XLOG_HEAP_INSERT) && image_only raw
  then decode_image_insert raw rel
  else
    match decode_heap_record rec (raw_lsn raw) rel with
    | Err e => Err (DetoastRecord e)
    | Ok set =>
        let tid := if zlen set =? 1 then toast_record_tid rec else None in
        let one d :=
          match op d with
          | Insert => OpChunk <$> toast_chunk_from_decoded d rel tid
          | Delete =>
              let* t := tid in
              Some (OpDelete (MkToastDelete (db_node (drfn rel)) (oid rel) t.1 t.2 (raw_lsn raw)))
          | _ => None
          end in
        Ok (omap one set)
    end.

(** The shape a raw record was written under. *)
Definition shape_for (raw : RawRecord) (rel : RelDescriptor) (valid_from : Z) (pending : list Pending.PendingSlot) : RelDescriptor * Z :=
  match List.find (fun s => (Pending.p_valid_from s <=? raw_lsn raw) && (oid (Pending.desc s) =? oid rel)) (rev pending) with
  | Some s => (Pending.desc s, Pending.p_valid_from s)
  | None => (rel, valid_from)
  end.

(** The operation policy of [fold_raw_ordinary]: fail, skip, or decode. *)
Definition ordinary_policy (raw : RawRecord) : result FailClosedReason bool :=
  let op := Z.land (raw_info raw) XLOG_HEAP_OPMASK in
  let writes := (op =? XLOG_HEAP_INSERT) || (op =? XLOG_HEAP_UPDATE) || (op =? XLOG_HEAP_HOT_UPDATE) in
  if rm raw =? RM_HEAP then
    if writes && image_only raw then Err ImageOnly
    else if writes || (op =? XLOG_HEAP_DELETE) then Ok true
    else if (op =? XLOG_HEAP_LOCK) || (op =? XLOG_HEAP_CONFIRM) then Ok false
    else Err UnsupportedOperation
  else if rm raw =? RM_HEAP2 then
    if negb (op =? XLOG_HEAP2_MULTI_INSERT) then Ok false
    else if image_only raw ||
            match raw_main_data raw with f :: _ => Z.land f XLH_INSERT_CONTAINS_NEW_TUPLE =? 0 | [] => false end
    then Err ImageOnly
    else Ok true
  else Err UnsupportedOperation.

(** The heaps a raw record of an ordinary relation fans out to. *)
Definition fold_raw_ordinary (raw : RawRecord) (rel : RelDescriptor) (valid_from : Z) (fence : list Ambiguity)
    : result XactBufferError (list DescribedHeap) :=
  let fail reason := Err (OrdinaryFailClosed (oid rel) (raw_lsn raw) (rm raw) (raw_info raw) reason) in
  match List.find (fun a => (from_lsn a <=? raw_lsn raw) && (raw_lsn raw <? through_lsn a)) fence with
  | Some a => Err (StashAmbiguous (rel_node (drfn rel)) (raw_lsn raw) (from_lsn a) (through_lsn a))
  | None =>
      match ordinary_policy raw with
      | Err reason => fail reason
      | Ok false => Ok []
      | Ok true =>
          match decode_heap_record (to_xlog_record raw) (raw_lsn raw) rel with
          | Err e => fail (Malformed e)
          | Ok set =>
              if existsb (fun d => match HeapDecode.new d with Some t => partial t | None => false end) set then fail PartialUpdate
              else Ok (map (fun d => MkDescribed d rel valid_from) set)
          end
      end
  end.

(** ** The merge *)
Inductive MergeItem := MHeap (h : DescribedHeap) | MEvent (e : DrainEntry).

Record MergedDrain := MkMerged
  { sources : list MergeSource; queues : list (list (Z * DrainEntry)); pending_heaps : list DescribedHeap; folded : Folded;
    limits : Limits; stash : gmap RelFileNode StashOutcome; allowed_xids : list Z; drain_top : Z }.

Definition set_folded (m : MergedDrain) (f : Folded) : MergedDrain :=
  MkMerged (sources m) (queues m) (pending_heaps m) f (limits m) (stash m) (allowed_xids m) (drain_top m).

Definition set_pending (m : MergedDrain) (hs : list DescribedHeap) : MergedDrain :=
  MkMerged (sources m) (queues m) hs (folded m) (limits m) (stash m) (allowed_xids m) (drain_top m).

(** [fold_raw]: chunks and tombstones of a TOAST relation, heaps of an
    ordinary one, nothing for a filenode without a verdict. *)
Definition fold_raw (m : MergedDrain) (raw : RawRecord) : result XactBufferError MergedDrain :=
  match raw_rfn raw with
  | None => Ok m
  | Some rfn =>
      match stash m !! rfn with
      | None => Ok m
      | Some (OOrdinary rel valid_from fence pending) =>
          let '(rel, valid_from) := shape_for raw rel valid_from pending in
          let? hs := fold_raw_ordinary raw rel valid_from fence in
          Ok (set_pending m (pending_heaps m ++ hs))
      | Some (OToast rel) =>
          let? ops := decode_stashed_toast raw rel in
          match fold_ops (limits m) (folded m) ops with Ok f => Ok (set_folded m f) | Err e => Err (FoldFailed e) end
      end
  end.

Definition check_owned (m : MergedDrain) (x : Z) : result XactBufferError unit :=
  if bool_decide (x ∈ allowed_xids m) then Ok tt else Err (ForeignXid x (drain_top m)).

Inductive Pick := PData (i : nat) | PEvent (i : nat).

(** The event loop, which takes over on ties, then the data loop, which does
    not. *)
Fixpoint pick_events (i : nat) (qs : list (list (Z * DrainEntry))) (best : option (Pick * Z)) : option (Pick * Z) :=
  match qs with
  | [] => best
  | q :: qs =>
      pick_events (S i) qs
        match q with
        | [] => best
        | (lsn, _) :: _ => match best with Some (_, b) => if lsn <=? b then Some (PEvent i, lsn) else best | None => Some (PEvent i, lsn) end
        end
  end.

Fixpoint pick_data (i : nat) (ss : list MergeSource) (best : option (Pick * Z)) : option (Pick * Z) :=
  match ss with
  | [] => best
  | s :: ss =>
      pick_data (S i) ss
        match head_lsn s with
        | None => best
        | Some lsn => match best with Some (_, b) => if lsn <? b then Some (PData i, lsn) else best | None => Some (PData i, lsn) end
        end
  end.

Definition pick (m : MergedDrain) : option Pick := fst <$> pick_data 0 (sources m) (pick_events 0 (queues m) None).

(** One turn of [next]'s loop: an item, another turn, or the end. *)
Inductive Turn := Yield (x : MergeItem) (m : MergedDrain) | Again (m : MergedDrain) | Finished.

Definition take_entry (m : MergedDrain) (e : SpillEntry) : result XactBufferError Turn :=
  let folds (r : result FoldError Folded) := match r with Ok f => Ok (Again (set_folded m f)) | Err e => Err (FoldFailed e) end in
  match e with
  | EHeap h => let? _ := check_owned m (xid (decoded h)) in Ok (Yield (MHeap h) m)
  | EChunk c => folds (fold_chunk (limits m) (folded m) c)
  | EToastDelete d => folds (fold_delete (limits m) (folded m) d)
  | ERaw raw => let? m := fold_raw m raw in Ok (Again m)
  end.

Definition turn (m : MergedDrain) : result XactBufferError Turn :=
  match pending_heaps m with
  | h :: hs => let? _ := check_owned m (xid (decoded h)) in Ok (Yield (MHeap h) (set_pending m hs))
  | [] =>
      match pick m with
      | None => Ok Finished
      | Some (PEvent i) =>
          match queues m !! i with
          | Some ((_, ev) :: q) =>
              Ok (Yield (MEvent ev) (MkMerged (sources m) (<[i := q]> (queues m)) (pending_heaps m) (folded m) (limits m) (stash m)
                                       (allowed_xids m) (drain_top m)))
          | _ => Ok Finished
          end
      | Some (PData i) =>
          match sources m !! i with
          | Some s =>
              match pop s with
              | Err e => Err (SpillFailed e)
              | Ok (Some e, s) =>
                  take_entry (MkMerged (<[i := s]> (sources m)) (queues m) (pending_heaps m) (folded m) (limits m) (stash m)
                                (allowed_xids m) (drain_top m)) e
              | Ok (None, _) => Ok Finished
              end
          | None => Ok Finished
          end
      end
  end.

(** Entries left in a source, at most. *)
Definition source_fuel (s : MergeSource) : nat :=
  S (length (smem s)) + match side s with Reading r => reader_fuel r | _ => 0 end.

Definition merge_fuel (m : MergedDrain) : nat := S (list_sum (map source_fuel (sources m))).

Fixpoint next_go (fuel : nat) (m : MergedDrain) : result XactBufferError (option MergeItem * MergedDrain) :=
  match fuel with
  | O => Ok (None, m)
  | S fuel =>
      let? t := turn m in
      match t with
      | Yield x m => Ok (Some x, m)
      | Again m => next_go fuel m
      | Finished => Ok (None, m)
      end
  end.

Definition next (m : MergedDrain) : result XactBufferError (option MergeItem * MergedDrain) := next_go (merge_fuel m) m.

Definition is_exhausted (m : MergedDrain) : bool :=
  forallb (fun s => negb (is_some (shead s))) (sources m) && forallb (fun q => match q with [] => true | _ => false end) (queues m).

(** ** Slices *)
Record OrderedEvent := MkOrdered { heap_idx : Z; row_idx : Z; event : DrainEntry }.

Record DrainedBatch := MkBatchOut
  { heaps : list DescribedHeap; ordered_events : list OrderedEvent; generations : list ToastRef.ChunkRefMap; new_rows : list ToastRef.ToastRow;
    spool_view : option (list Z); truncate_rows : list Z; is_final : bool }.

Definition heap_bytes (h : DescribedHeap) : Z :=
  let image t := match t with Some t => zsum (map (fun c => match c with Some v => approx_bytes v | None => 0 end) (columns t)) | None => 0 end in
  image (HeapDecode.new (decoded h)) + image (old (decoded h)) + 8 + 8.

Definition is_truncate (h : DescribedHeap) : bool := match op (decoded h) with Truncate => true | _ => false end.

Inductive Drained := Merged (m : MergedDrain) | Heaps (hs : list DescribedHeap).

Record CommittedDrain := MkCommittedDrain { commit_ts : Z; drain_commit_lsn : Z; merged : option Drained; gens : list ToastRef.ChunkRefMap }.

(** The slice being filled. *)
Record Slice := MkSlice { sl_heaps : list DescribedHeap; sl_events : list OrderedEvent; sl_truncs : list Z; sl_bytes : Z }.

(** The loop that fills a slice. *)
Fixpoint fill_slice (fuel : nat) (max_rows max_bytes : Z) (m : MergedDrain) (s : Slice) : result XactBufferError (MergedDrain * Slice) :=
  match fuel with
  | O => Ok (m, s)
  | S fuel =>
      if (zlen (sl_heaps s) <? Z.max max_rows 1) && (sl_bytes s <? Z.max max_bytes 1) then
        let? xm := next m in
        match xm.1 with
        | None => Ok (xm.2, s)
        | Some (MEvent e) =>
            fill_slice fuel max_rows max_bytes xm.2
              (MkSlice (sl_heaps s) (sl_events s ++ [MkOrdered (zlen (sl_heaps s)) (zlen (ToastRef.rows (folded xm.2))) e]) (sl_truncs s) (sl_bytes s))
        | Some (MHeap h) =>
            fill_slice fuel max_rows max_bytes xm.2
              (MkSlice (sl_heaps s ++ [h]) (sl_events s)
                 (if is_truncate h then sl_truncs s ++ [zlen (ToastRef.rows (folded xm.2))] else sl_truncs s) (sl_bytes s + heap_bytes h))
        end
      else Ok (m, s)
  end.

Definition slice_fuel (max_rows : Z) (m : MergedDrain) : nat := S (Z.to_nat (Z.max max_rows 1) + list_sum (map length (queues m))).

Definition next_batch (d : CommittedDrain) (max_rows max_bytes : Z) : result XactBufferError (option DrainedBatch * CommittedDrain) :=
  match merged d with
  | None | Some (Heaps []) => Ok (None, d)
  | Some (Heaps hs) => Ok (Some (MkBatchOut hs [] [] [] None [] true), MkCommittedDrain (commit_ts d) (drain_commit_lsn d) (Some (Heaps [])) (gens d))
  | Some (Merged m) =>
      let? ms := fill_slice (slice_fuel max_rows m) max_rows max_bytes m (MkSlice [] [] [] 0) in
      let '(m, s) := ms in
      let final := is_exhausted m in
      let '(f, sealed) := ToastRef.take_chunks (folded m) in
      let '(f, rows) := ToastRef.take_rows f in
      let gens := if bool_decide (sealed = ∅) then gens d else gens d ++ [sealed] in
      let d := MkCommittedDrain (commit_ts d) (drain_commit_lsn d) (Some (Merged (set_folded m f))) gens in
      if bool_decide (sl_heaps s = []) && bool_decide (length (sl_events s) = 0)%nat && bool_decide (sealed = ∅) && (zlen rows =? 0)
      then Ok (None, d)
      else Ok (Some (MkBatchOut (sl_heaps s) (sl_events s) gens rows (ToastRef.spool_file f) (sl_truncs s) final), d)
  end.

(** ** Draining a commit *)

Fixpoint open_sources (states : list XactState) : result SpillError (list MergeSource) :=
  match states with
  | [] => Ok []
  | st :: states =>
      let? s := match spill st with None => Ok (open_mem (in_mem st)) | Some w => open_spilled w (in_mem st) end in
      let? ss := open_sources states in
      Ok (s :: ss)
  end.

Definition open_drain (cfg : XactBufferConfig) (states : list XactState) (collect : bool) (stash : gmap RelFileNode StashOutcome)
    (top_xid : Z) (allowed : list Z) : result XactBufferError MergedDrain :=
  match open_sources states with
  | Err e => Err (SpillFailed e)
  | Ok ss =>
      Ok (MkMerged ss (map (fun st => sort_by fst (events st)) states) [] ToastRef.nothing
            (ToastRef.MkLimits collect (toast_body_mem_max cfg) (toast_index_mem_max cfg)) stash allowed top_xid)
  end.

Definition heap_of (e : SpillEntry) : option DescribedHeap := match e with EHeap h => Some h | _ => None end.

(** The lone transaction that skips the merge. *)
Definition fits_one_slice (cfg : XactBufferConfig) (states : list XactState) : option (list DescribedHeap) :=
  match states with
  | [st] =>
      if plain st && negb (is_some (spill st)) && bool_decide (length (events st) = 0)%nat && (zlen (in_mem st) <=? drain_batch_rows cfg) &&
         (in_mem_bytes st <=? drain_batch_bytes cfg)
      then Some (omap heap_of (in_mem st)) else None
  | _ => None
  end.

Definition drain_committed (cfg : XactBufferConfig) (b : XactBuffer) (sr : StashResolved) (ts commit_lsn : Z) (subxids : list Z)
    (collect : bool) : XactBuffer * result XactBufferError CommittedDrain :=
  let top_xid := res_top_xid sr in
  let xids := top_xid :: subxids in
  let '(b, states) := take_states b commit_lsn xids in
  let out m := MkCommittedDrain ts commit_lsn m [] in
  let committed b := with_stats b (with_totals (stats b) 0 1 0 0 0 0 0) in
  match states with
  | [] => (b, Ok (out None))
  | _ =>
      let resolved :=
        match res sr with
        | Some r => Ok r
        | None => if forallb (fun st => bool_decide (stash_rfns st = ∅)) states then Ok ∅ else Err (MissingStashResolution top_xid)
        end in
      match resolved with
      | Err e => (b, Err e)
      | Ok r =>
          match fits_one_slice cfg states with
          | Some hs => (committed b, Ok (out (Some (Heaps hs))))
          | None =>
              let b := fold_left release_spill states b in
              match open_drain cfg states collect r top_xid xids with
              | Err e => (b, Err e)
              | Ok m => (committed b, Ok (out (Some (Merged m))))
              end
          end
      end
  end.

(** ** The apply plan of a slice *)
Inductive WalkStep :=
| WRows (upto : Z)
| WEvent (e : DrainEntry)
| WTruncate (h : DescribedHeap) (upto : Z)
| WHeap (h : DescribedHeap).

(** Events due before the heap at index [i]. *)
Fixpoint events_due (i : Z) (es : list OrderedEvent) : list WalkStep * list OrderedEvent :=
  match es with
  | e :: es' => if heap_idx e <=? i then let '(w, r) := events_due i es' in (WRows (row_idx e) :: WEvent (event e) :: w, r) else ([], es)
  | [] => ([], [])
  end.

(** [None] is the panic of a truncate without its row cursor. *)
Fixpoint walk_heaps (i : Z) (hs : list DescribedHeap) (es : list OrderedEvent) (ts : list Z) : option (list WalkStep) :=
  match hs with
  | [] => Some (concat (map (fun e => [WRows (row_idx e); WEvent (event e)]) es))
  | h :: hs =>
      let '(w, es) := events_due i es in
      if is_truncate h then
        match ts with
        | upto :: ts => let* r := walk_heaps (i + 1) hs es ts in Some (w ++ WRows upto :: WTruncate h upto :: r)
        | [] => None
        end
      else let* r := walk_heaps (i + 1) hs es ts in Some (w ++ WHeap h :: r)
  end.

Definition into_walk (b : DrainedBatch) : option (list WalkStep) :=
  let* w := walk_heaps 0 (heaps b) (ordered_events b) (truncate_rows b) in Some (w ++ [WRows (zlen (new_rows b))]).

End Drain.

End XactDrain.
