(* ===== verification/XactMerge.v ===== *)
(** * The drain's merge is a stable sort

    Each merge source hands out, whatever part of it is in the spill file,
    exactly the entries absorbed for its transaction, and the merge of sources
    and event queues is the stable sort of all of them by position: on equal
    positions events come before data, later queues before earlier ones, and
    earlier sources before later ones. *)
From S2P Require Import Prelude Pos WalRecord Fpi AsciiBuf Numeric HeapDecode Wire DescCodec Spill SpillProofs ToastRef XactBuffer DescLog Pending XactDrain.
Import WalRecord Schema HeapDecode DescCodec Spill SpillFile XactBuffer XactDrain.

Module XactMerge.

Section Sources.
(** Reader [r] has exactly the entries [es] before it. *)
Definition reader_holds (r : SpillReader) (es : list SpillEntry) : Prop :=
  exists all wd, coherent all /\ dict_rel all wd (rdict r) /\ (forall e, e ∈ es -> e ∈ all) /\ Forall entry_ok es /\
    Z.of_nat (size wd) + zlen es < 2 ^ 32 /\ reader_ok (chunks r) /\ stream (chunks r) = all_bytes wd es.

Lemma reader_fuel_stream r : reader_ok (chunks r) -> reader_fuel r = S (length (stream (chunks r))).
Proof. intros _. unfold reader_fuel, stream. rewrite length_app. by destruct (next_chunk (chunks r)). Qed.

Lemma reader_length r es : reader_holds r es -> (length es < reader_fuel r)%nat.
Proof.
  intros (all & wd & _ & _ & _ & _ & _ & Hok & Hs). rewrite reader_fuel_stream, Hs by done. pose proof (all_bytes_len wd es). lia.
Qed.

Lemma reader_next r es : reader_holds r es -> match es with
  | [] => exists r', Spill.next (reader_fuel r) r = Ok (None, r')
  | e :: es => exists r', Spill.next (reader_fuel r) r = Ok (Some e, r') /\ reader_holds r' es
  end.
Proof.
  intros (all & wd & Hc & Hrel & Hall & Hok & Hsz & Hr & Hs). rewrite reader_fuel_stream by done. destruct es as [|e es].
  - destruct (next_frame_end r Hr Hs) as (r' & Hn). exists r'. cbn [Spill.next]. by rewrite Hn.
  - apply Forall_cons_1 in Hok as [Hoke Hok]. cbn [all_bytes] in Hs. rewrite zlen_cons in Hsz. pose proof (zlen_nonneg es).
    pose proof (entry_dict_size wd e). assert (e ∈ all) by (apply Hall; set_solver).
    pose proof (entry_bytes_len wd e). rewrite Hs, length_app. destruct (length (entry_bytes wd e)) as [|n]; [lia|]. cbn [Nat.add].
    destruct (SpillFile.next_entry all wd r e _ (n + length (all_bytes (entry_dict wd e) es)) Hrel ltac:(done) Hoke ltac:(lia) Hr Hs) as (r' & Hn & Hr' & Hs' & Hd').
    exists r'. split; [exact Hn|]. exists all, (entry_dict wd e). split; [done|]. split; [rewrite Hd'; by apply dict_rel_step|].
    split; [intros x Hx; apply Hall; set_solver|]. split; [done|]. split; [lia|done].
Qed.

(** Source [s], its head taken, has the entries [es] left. *)
Definition rest_holds (s : MergeSource) (es : list SpillEntry) : Prop :=
  match side s with
  | Reading r => exists fs, reader_holds r fs /\ es = fs ++ smem s
  | _ => es = smem s
  end.

(** Source [s] has the entries [es] left, the first of them as its head. *)
Definition source_holds (s : MergeSource) (es : list SpillEntry) : Prop :=
  match es with [] => shead s = None | e :: es => shead s = Some e /\ rest_holds s es end.

Lemma pop_mem_spec sd mem : match sd with Reading _ => False | _ => True end ->
  source_holds (let '(h, s) := pop_mem sd mem in MkSource h (side s) (smem s)) mem.
Proof. intros Hsd. destruct mem as [|e mem]; [done|]. cbn. split; [done|]. unfold rest_holds. by destruct sd. Qed.

Lemma refill_spec s es : rest_holds s es -> exists s', refill s = Ok s' /\ source_holds s' es.
Proof.
  intros Hr. unfold refill, next_entry, rest_holds in *. destruct (side s) as [|r|r].
  - subst es. eexists. split; [done|]. pose proof (pop_mem_spec Unspilled (smem s) I) as Hp. by destruct (pop_mem Unspilled (smem s)).
  - destruct Hr as (fs & Hf & ->). pose proof (reader_next r fs Hf) as Hn. destruct fs as [|e fs].
    + destruct Hn as [r' ->]. cbn [fst snd app]. eexists. split; [done|]. pose proof (pop_mem_spec (Spent r') (smem s) I) as Hp. by destruct (pop_mem (Spent r') (smem s)).
    + destruct Hn as (r' & -> & Hr'). cbn [fst snd]. eexists. split; [done|]. split; [done|]. by exists fs.
  - subst es. eexists. split; [done|]. pose proof (pop_mem_spec (Spent r) (smem s) I) as Hp. by destruct (pop_mem (Spent r) (smem s)).
Qed.

Lemma pop_spec s e es : source_holds s (e :: es) -> exists s', pop s = Ok (Some e, s') /\ source_holds s' es.
Proof.
  intros [Hh Hr]. unfold pop. rewrite Hh. destruct (refill_spec (MkSource None (side s) (smem s)) es Hr) as (s' & -> & Hs'). by exists s'.
Qed.

Lemma source_head s es : source_holds s es -> shead s = head es.
Proof. destruct es as [|e es]; [done|]. by intros [-> _]. Qed.

Lemma source_length s es : source_holds s es -> (length es <= source_fuel s)%nat.
Proof.
  destruct es as [|e es]; [cbn; lia|]. intros [_ Hr]. unfold rest_holds, source_fuel in *. cbn [length]. destruct (side s) as [|r|r].
  - subst es. lia.
  - destruct Hr as (fs & Hf & ->). pose proof (reader_length r fs Hf). rewrite length_app. lia.
  - subst es. lia.
Qed.

(** ** Opening *)
Context (reads : list Z -> list (list Z)).
Hypothesis reads_all : forall bytes, concat (reads bytes) = bytes.
Hypothesis reads_some : forall bytes, Forall (fun c => 0 < zlen c) (reads bytes).

Lemma open_mem_spec mem : source_holds (open_mem mem) mem.
Proof. unfold open_mem. by apply (pop_mem_spec Unspilled). Qed.

Lemma open_spilled_spec bs mem : Forall entry_ok (concat bs) -> coherent (concat bs) -> zlen (concat bs) < 2 ^ 32 ->
  exists s, open_spilled reads (fold_left write_batch bs writer) mem = Ok s /\ source_holds s (concat bs ++ mem).
Proof.
  intros Hok Hc Hn. unfold open_spilled. destruct (flush_file (wout (fold_left write_batch bs writer))) as [Hfile _].
  destruct (write_batches_content bs writer) as [Hcont _]. unfold content in Hcont. rewrite Hfile, Hcont in *.
  change (wdict writer) with (∅ : gmap (RelFileNode * Z) Z) in *.
  set (hd := file (wout writer) ++ wbuf (wout writer)) in *. assert (zlen hd = 4) as Hhd by done.
  rewrite zdrop_app_exact, ztake_app_exact by done.
  assert (forall cs, open_chunks hd SPILL_MAGIC SPILL_VERSION cs = Ok (MkCr [] 0 (Some cs))) as -> by (intros cs; by vm_compute).
  apply refill_spec. unfold rest_holds. cbn [side]. exists (concat bs). split; [|done].
  exists (concat bs), ∅. split; [done|]. split; [split; [done|]; intros key id Hk; by rewrite lookup_empty in Hk|]. split; [done|]. split; [done|].
  split; [rewrite map_size_empty; lia|]. split; [split; [done|apply reads_some]|]. unfold stream. cbn [chunks unread rbuf next_chunk]. apply reads_all.
Qed.

End Sources.

(** ** The order *)
Section Order.
Context {SchemaEvent ConfigEvent : Type}.
Local Notation DrainEntry := (DrainEntry SchemaEvent ConfigEvent).

Inductive Item := IEvent (x : Z * DrainEntry) | IEntry (e : SpillEntry).

Definition ikey (i : Item) : Z := match i with IEvent x => x.1 | IEntry e => entry_lsn e end.

Definition lists (qs : list (list (Z * DrainEntry))) (ls : list (list SpillEntry)) : list (list Item) :=
  rev (map (map IEvent) qs) ++ map (map IEntry) ls.

(** The reference: everything, stably sorted by position. *)
Definition merge_order (qs : list (list (Z * DrainEntry))) (ls : list (list SpillEntry)) : list Item := sort_by ikey (concat (lists qs ls)).

Definition by_pos (a b : Item) : Prop := ikey a <= ikey b.

Definition all_sorted (LL : list (list Item)) : Prop := Forall (StronglySorted by_pos) LL.

(** Every list of [L] starts above [k]. *)
Definition heads (P : Z -> Prop) (L : list (list Item)) : Prop := forall x l, (x :: l) ∈ L -> P (ikey x).

Lemma heads_concat (P : Z -> Prop) L : (forall a b, a <= b -> P a -> P b) -> all_sorted L -> heads P L -> Forall (fun y => P (ikey y)) (concat L).
Proof.
  intros Hmono Hs Hh. apply Forall_elem. intros y (l & Hl & Hy)%list_elem_of_In%in_concat.
  apply list_elem_of_In in Hl. apply list_elem_of_In in Hy. pose proof (proj1 (Forall_elem _ _) Hs l Hl) as Hsl.
  destruct l as [|x l]; [by apply not_elem_of_nil in Hy|]. apply (Hmono (ikey x)); [|by eapply Hh].
  apply StronglySorted_inv in Hsl as [_ HF]. apply elem_of_cons in Hy as [->|Hy]; [done|]. by apply (proj1 (Forall_elem _ _) HF).
Qed.

Lemma sorted_app_inv A B : all_sorted (A ++ B) -> all_sorted A /\ all_sorted B.
Proof. unfold all_sorted. rewrite Forall_app. done. Qed.

Lemma pick_first A x l B : all_sorted (A ++ (x :: l) :: B) -> heads (fun k => ikey x < k) A -> heads (fun k => ikey x <= k) B ->
  sort_by ikey (concat (A ++ (x :: l) :: B)) = x :: sort_by ikey (concat (A ++ l :: B)).
Proof.
  intros Hs HA HB. apply sorted_app_inv in Hs as [HsA HsB]. pose proof HsB as [Hl HsB']%Forall_cons_1.
  rewrite !concat_app. cbn [concat]. apply sort_by_first.
  - apply (heads_concat (fun k => ikey x < k)); [lia|done|done].
  - apply Forall_app_2.
    + apply StronglySorted_inv in Hl as [_ HF]. exact HF.
    + apply (heads_concat (fun k => ikey x <= k)); [lia|done|done].
Qed.

Lemma sorted_tail A x l B : all_sorted (A ++ (x :: l) :: B) -> all_sorted (A ++ l :: B).
Proof.
  intros Hs. apply sorted_app_inv in Hs as [HsA HsB]. apply Forall_cons_1 in HsB as [Hl HsB]. apply Forall_app_2; [done|].
  apply StronglySorted_inv in Hl as [Hl _]. by constructor.
Qed.

(** ** What the two loops pick *)
Lemma pick_events_spec (qs : list (list (Z * DrainEntry))) : forall i best, match pick_events i qs best with
  | None => best = None /\ Forall (fun q => q = []) qs
  | Some (p, b) =>
      (best = Some (p, b) /\ forall x q, (x :: q) ∈ qs -> b < x.1) \/
      (exists q1 x q q2, qs = q1 ++ (x :: q) :: q2 /\ p = PEvent (i + length q1) /\ x.1 = b /\
        (forall y q', (y :: q') ∈ q2 -> b < y.1) /\ (forall y q', (y :: q') ∈ q1 -> b <= y.1) /\ (forall p0 b0, best = Some (p0, b0) -> b <= b0))
  end.
Proof.
  induction qs as [|q qs IH]; intros i best; cbn [pick_events].
  { destruct best as [[p b]|]; [|done]. left. split; [done|]. set_solver. }
  set (best' := match q with [] => best | _ :: _ => _ end). specialize (IH (S i) best'). destruct (pick_events (S i) qs best') as [[p b]|].
  2:{ destruct IH as [Hb Hq]. destruct q as [|[lsn e] q]; [split; [done|by constructor]|]. subst best'. destruct best as [[p b]|]; [destruct (lsn <=? b)|]; done. }
  destruct IH as [[Hb Hlt]|(q1 & x & q' & q2 & -> & -> & Hx & H2 & H1 & H0)].
  - destruct q as [|[lsn e] q]; [left; split; [done|]; intros x q [?|?]%elem_of_cons; [done|by eapply Hlt]|].
    subst best'. destruct best as [[p0 b0]|]; [destruct (Z.leb_spec lsn b0)|].
    + injection Hb as <- <-. right. exists [], (lsn, e), q, qs. split; [done|]. split; [f_equal; cbn; lia|]. split; [done|]. split; [done|].
      split; [set_solver|]. by intros ? ? [= <- <-].
    + injection Hb as <- <-. left. split; [done|]. intros x q' [[= -> ->]|?]%elem_of_cons; [cbn; lia|by eapply Hlt].
    + injection Hb as <- <-. right. exists [], (lsn, e), q, qs. split; [done|]. split; [f_equal; cbn; lia|]. split; [done|]. split; [done|]. split; [set_solver|done].
  - right. exists (q :: q1), x, q', q2. split; [done|]. split; [f_equal; cbn; lia|]. split; [done|]. split; [done|].
    destruct q as [|[lsn e] q]; [split; [intros y q'' [?|?]%elem_of_cons; [done|by eapply H1]|exact H0]|]. subst best'.
    assert (b <= lsn /\ forall p0 b0, best = Some (p0, b0) -> b <= b0) as [Hl Hb].
    { destruct best as [[p0 b0]|]; [destruct (Z.leb_spec lsn b0)|]; pose proof (H0 _ _ eq_refl); (split; [lia|]); try done; intros ? ? [= <- <-]; lia. }
    split; [|done]. intros y q'' [[= -> ->]|?]%elem_of_cons; [done|by eapply H1].
Qed.

Lemma pick_data_spec ss ls : Forall2 source_holds ss ls -> forall i best, match pick_data i ss best with
  | None => best = None /\ Forall (fun l => l = []) ls
  | Some (p, b) =>
      (best = Some (p, b) /\ forall x l, (x :: l) ∈ ls -> b <= entry_lsn x) \/
      (exists l1 x l l2, ls = l1 ++ (x :: l) :: l2 /\ p = PData (i + length l1) /\ entry_lsn x = b /\
        (forall y l', (y :: l') ∈ l2 -> b <= entry_lsn y) /\ (forall y l', (y :: l') ∈ l1 -> b < entry_lsn y) /\ (forall p0 b0, best = Some (p0, b0) -> b < b0))
  end.
Proof.
  induction 1 as [|s l ss ls Hs HF IH]; intros i best; cbn [pick_data].
  { destruct best as [[p b]|]; [|done]. left. split; [done|]. set_solver. }
  unfold head_lsn. rewrite (source_head s l Hs). set (best' := match entry_lsn <$> head l with None => best | Some _ => _ end).
  specialize (IH (S i) best'). destruct (pick_data (S i) ss best') as [[p b]|].
  2:{ destruct IH as [Hb Hq]. destruct l as [|e l]; [split; [done|by constructor]|]. subst best'. cbn in Hb. destruct best as [[p b]|]; [destruct (_ <? b)|]; done. }
  destruct IH as [[Hb Hle]|(l1 & x & l' & l2 & -> & -> & Hx & H2 & H1 & H0)].
  - destruct l as [|e l]; [left; split; [done|]; intros x l [?|?]%elem_of_cons; [done|by eapply Hle]|].
    subst best'. cbn [head fmap option_fmap option_map] in Hb. destruct best as [[p0 b0]|]; [destruct (Z.ltb_spec (entry_lsn e) b0)|].
    + injection Hb as <- <-. right. exists [], e, l, ls. split; [done|]. split; [f_equal; cbn; lia|]. split; [done|]. split; [done|].
      split; [set_solver|]. by intros ? ? [= <- <-].
    + injection Hb as <- <-. left. split; [done|]. intros x l' [[= -> ->]|?]%elem_of_cons; [lia|by eapply Hle].
    + injection Hb as <- <-. right. exists [], e, l, ls. split; [done|]. split; [f_equal; cbn; lia|]. split; [done|]. split; [done|]. split; [set_solver|done].
  - right. exists (l :: l1), x, l', l2. split; [done|]. split; [f_equal; cbn; lia|]. split; [done|]. split; [done|].
    destruct l as [|e l]; [split; [intros y l'' [?|?]%elem_of_cons; [done|by eapply H1]|exact H0]|]. subst best'. cbn [head fmap option_fmap option_map] in H0.
    assert (b < entry_lsn e /\ forall p0 b0, best = Some (p0, b0) -> b < b0) as [Hl Hb].
    { destruct best as [[p0 b0]|]; [destruct (Z.ltb_spec (entry_lsn e) b0)|]; pose proof (H0 _ _ eq_refl); (split; [lia|]); try done; intros ? ? [= <- <-]; lia. }
    split; [|done]. intros y l'' [[= -> ->]|?]%elem_of_cons; [done|by eapply H1].
Qed.

Lemma lists_event q1 x q q2 ls : lists (q1 ++ (x :: q) :: q2) ls =
  rev (map (map IEvent) q2) ++ (IEvent x :: map IEvent q) :: (rev (map (map IEvent) q1) ++ map (map IEntry) ls).
Proof. unfold lists. rewrite map_app, rev_app_distr. cbn [map rev]. by rewrite <-!app_assoc. Qed.

Lemma lists_event' q1 q q2 ls : lists (q1 ++ q :: q2) ls =
  rev (map (map IEvent) q2) ++ map IEvent q :: (rev (map (map IEvent) q1) ++ map (map IEntry) ls).
Proof. unfold lists. rewrite map_app, rev_app_distr. cbn [map rev]. by rewrite <-!app_assoc. Qed.

Lemma lists_data qs l1 l l2 : lists qs (l1 ++ l :: l2) = (rev (map (map IEvent) qs) ++ map (map IEntry) l1) ++ map IEntry l :: map (map IEntry) l2.
Proof. unfold lists. rewrite map_app. cbn [map]. by rewrite <-!app_assoc. Qed.

Lemma heads_events (P : Z -> Prop) (qs : list (list (Z * DrainEntry))) : (forall x q, (x :: q) ∈ qs -> P x.1) -> heads P (rev (map (map IEvent) qs)).
Proof.
  intros Hq i l Hin. rewrite <-list_elem_of_In, <-in_rev, list_elem_of_In in Hin || idtac.
  apply list_elem_of_In, in_rev, list_elem_of_In, list_elem_of_fmap in Hin as ([|x q] & E & Hin); [done|]. injection E as -> ->. by eapply Hq.
Qed.

Lemma heads_entries (P : Z -> Prop) (ls : list (list SpillEntry)) : (forall x l, (x :: l) ∈ ls -> P (entry_lsn x)) -> heads P (map (map IEntry) ls).
Proof. intros Hl i l ([|x q] & E & Hin)%list_elem_of_fmap; [done|]. injection E as -> ->. by eapply Hl. Qed.

Lemma heads_app P A B : heads P A -> heads P B -> heads P (A ++ B).
Proof. intros HA HB x l [?|?]%elem_of_app; [by eapply HA|by eapply HB]. Qed.

(** The merge takes the first of the order. *)
Lemma pick_splits (m : MergedDrain) ls : Forall2 source_holds (sources m) ls -> all_sorted (lists (queues m) ls) ->
  match pick m with
  | None => merge_order (queues m) ls = []
  | Some (PEvent i) => exists x q, queues m !! i = Some (x :: q) /\ merge_order (queues m) ls = IEvent x :: merge_order (<[i := q]> (queues m)) ls /\
      all_sorted (lists (<[i := q]> (queues m)) ls)
  | Some (PData i) => exists e l, ls !! i = Some (e :: l) /\ merge_order (queues m) ls = IEntry e :: merge_order (queues m) (<[i := l]> ls) /\
      all_sorted (lists (queues m) (<[i := l]> ls))
  end.
Proof.
  intros HF Hs. unfold pick, merge_order. pose proof (pick_events_spec (queues m) 0 None) as He.
  pose proof (pick_data_spec (sources m) ls HF 0 (pick_events 0 (queues m) None)) as Hd.
  destruct (pick_data 0 (sources m) (pick_events 0 (queues m) None)) as [[p b]|]; cbn [fmap option_fmap option_map fst].
  2:{ destruct Hd as [Hn Hl]. rewrite Hn in He. destruct He as [_ Hq]. unfold lists.
      assert (forall L : list (list Item), Forall (fun l => l = []) L -> concat L = []) as Hnil by (induction 1 as [|l L -> _ IH]; done).
      rewrite Hnil; [done|]. apply Forall_elem. intros l Hl'. apply elem_of_app in Hl' as [Hl'|Hl'].
      - apply list_elem_of_In, in_rev, list_elem_of_In, list_elem_of_fmap in Hl' as (q & -> & Hq'). by rewrite (proj1 (Forall_elem _ _) Hq q Hq').
      - apply list_elem_of_fmap in Hl' as (q & -> & Hq'). by rewrite (proj1 (Forall_elem _ _) Hl q Hq'). }
  destruct Hd as [[Hbest Hle]|(l1 & x & l & l2 & -> & -> & Hx & H2 & H1 & H0)].
  - rewrite Hbest in He. destruct He as [[? _]|(q1 & x & q & q2 & Hqs & -> & Hx & H2 & H1 & _)]; [done|]. cbn [Nat.add]. rewrite Hqs in *.
    exists x, q. rewrite list_lookup_middle, insert_app_r_alt, Nat.sub_diag by done. cbn [list_insert insert]. split; [done|].
    rewrite lists_event, lists_event' in *. subst b. split; [|by eapply sorted_tail].
    apply pick_first; [done|by apply heads_events|]. apply heads_app; [by apply heads_events|by apply heads_entries].
  - cbn [Nat.add]. exists x, l. rewrite list_lookup_middle, insert_app_r_alt, Nat.sub_diag by done. cbn [list_insert insert]. split; [done|].
    rewrite !lists_data in *. cbn [map] in *. subst b. split; [|by eapply sorted_tail].
    apply (pick_first _ (IEntry x)); [done| |by apply heads_entries]. apply heads_app; [|by apply heads_entries]. apply heads_events.
    intros y q Hy. destruct (pick_events 0 (queues m) None) as [[p0 b0]|].
    + cbn [ikey]. pose proof (H0 _ _ eq_refl). destruct He as [[? _]|(q1 & z & q' & q2 & Hqs & _ & Hz & E2 & E1 & _)]; [done|]. rewrite Hqs in Hy.
      apply elem_of_app in Hy as [Hy|[[= -> ->]|Hy]%elem_of_cons]; [specialize (E1 _ _ Hy)| |specialize (E2 _ _ Hy)]; lia.
    + destruct He as [_ Hq]. by specialize (proj1 (Forall_elem _ _) Hq _ Hy).
Qed.

End Order.

End XactMerge.
