(* ===== verification/XactReplay.v ===== *)
(** * Slicing a commit changes nothing

    What a drain hands out, slice after slice, is the replay of the merged
    order: chunks and raw records fold away, every heap and event leaves with
    the number of mirror rows folded before it, whatever the slice budgets are. *)
From S2P Require Import Prelude Pos WalRecord Fpi AsciiBuf Numeric HeapDecode Wire DescCodec Spill SpillProofs ToastRef XactBuffer DescLog Pending XactDrain XactMerge.
Import WalRecord Schema HeapDecode DescCodec Spill SpillFile XactBuffer XactDrain XactMerge.
Import ToastRef (Folded, Limits, fold_chunk, fold_delete, fold_ops, StashedToastOp, OpChunk, OpDelete, FoldError).

Module XactReplay.

Section Replay.
Context `{Layout} `{Decompress} `{FloatText} `{Fpi.Codecs} {SchemaEvent ConfigEvent : Type}.
Local Notation DrainEntry := (DrainEntry SchemaEvent ConfigEvent).
Local Notation MergeItem := (@MergeItem SchemaEvent ConfigEvent).
Local Notation MergedDrain := (@MergedDrain SchemaEvent ConfigEvent).
Local Notation Item := (@Item SchemaEvent ConfigEvent).

(** What a drain is opened with and never changes. *)
Record Env := MkEnv { e_limits : Limits; e_stash : gmap RelFileNode StashOutcome; e_allowed : list Z; e_top : Z }.

Definition env (m : MergedDrain) : Env := MkEnv (limits m) (stash m) (allowed_xids m) (drain_top m).

(** A heap or event, with the number of mirror rows before it. *)
Definition Step : Type := MergeItem * Z.

Definition owned (E : Env) (x : Z) : result XactBufferError unit :=
  if bool_decide (x ∈ e_allowed E) then Ok tt else Err (ForeignXid x (e_top E)).

(** Steps handed out, and how the drain ended. *)
Definition Run : Type := list Step * result XactBufferError Folded.

Definition after (t : list Step) (r : Run) : Run := (t ++ r.1, r.2).

Fixpoint replay_heaps (E : Env) (n : Z) (hs : list DescribedHeap) (k : Run) : Run :=
  match hs with
  | [] => k
  | h :: hs => match owned E (xid (decoded h)) with Ok _ => after [(MHeap h, n)] (replay_heaps E n hs k) | Err e => ([], Err e) end
  end.

Definition lift_fold {A} (r : result FoldError A) : result XactBufferError A := match r with Ok x => Ok x | Err e => Err (FoldFailed e) end.

(** What one entry folds and the heaps it stands for. *)
Definition effect (E : Env) (f : Folded) (e : SpillEntry) : result XactBufferError (Folded * list DescribedHeap) :=
  match e with
  | EHeap h => Ok (f, [h])
  | EChunk c => let? f := lift_fold (fold_chunk (e_limits E) f c) in Ok (f, [])
  | EToastDelete d => let? f := lift_fold (fold_delete (e_limits E) f d) in Ok (f, [])
  | ERaw raw =>
      match raw_rfn raw with
      | None => Ok (f, [])
      | Some rfn =>
          match e_stash E !! rfn with
          | None => Ok (f, [])
          | Some (OOrdinary rel valid_from fence pending) =>
              let '(rel, valid_from) := shape_for raw rel valid_from pending in
              let? hs := fold_raw_ordinary raw rel valid_from fence in Ok (f, hs)
          | Some (OToast rel) =>
              let? ops := decode_stashed_toast raw rel in
              let? f := lift_fold (fold_ops (e_limits E) f ops) in Ok (f, [])
          end
      end
  end.

(** The whole order at once. *)
Fixpoint replay (E : Env) (f : Folded) (items : list Item) : Run :=
  match items with
  | [] => ([], Ok f)
  | IEvent x :: items => after [(MEvent x.2, zlen (ToastRef.rows f))] (replay E f items)
  | IEntry e :: items =>
      match effect E f e with
      | Ok (f, hs) => replay_heaps E (zlen (ToastRef.rows f)) hs (replay E f items)
      | Err e => ([], Err e)
      end
  end.

(** ** One call of [next] *)
(** The drain [m] has the entries [ls] left in its sources. *)
Definition drains (m : MergedDrain) (ls : list (list SpillEntry)) : Prop :=
  Forall2 source_holds (sources m) ls /\ all_sorted (lists (queues m) ls).

Definition rest (m : MergedDrain) (ls : list (list SpillEntry)) : Run :=
  replay_heaps (env m) (zlen (ToastRef.rows (folded m))) (pending_heaps m) (replay (env m) (folded m) (merge_order (queues m) ls)).

(** Nothing is left, only what was folded. *)
Definition spent (m : MergedDrain) (ls : list (list SpillEntry)) : Prop :=
  pending_heaps m = [] /\ merge_order (queues m) ls = [].

Lemma take_entry_spec m e : pending_heaps m = [] -> take_entry m e = match e with
  | EHeap h => let? _ := owned (env m) (xid (decoded h)) in Ok (Yield (MHeap h) m)
  | _ => let? fh := effect (env m) (folded m) e in Ok (Again (set_pending (set_folded m fh.1) fh.2))
  end.
Proof.
  intros Hp. destruct m as [ss qs hs f li stsh al tp]. cbn in Hp. subst hs. destruct e as [h|c|d|raw]; cbn; [done| | |].
  - unfold lift_fold. by destruct (fold_chunk li f c).
  - unfold lift_fold. by destruct (fold_delete li f d).
  - unfold fold_raw, effect. cbn. destruct (raw_rfn raw) as [rfn|]; [|done]. destruct (stsh !! rfn) as [[rel|rel vf fe pe]|]; [| |done].
    + destruct (decode_stashed_toast raw rel) as [ops|]; [|done]. cbn. unfold lift_fold. by destruct (fold_ops li f ops).
    + destruct (shape_for raw rel vf pe). by destruct (fold_raw_ordinary raw _ _ fe).
Qed.

(** Events left. *)
Definition queued (m : MergedDrain) : nat := list_sum (map length (queues m)).

Definition total (ls : list (list SpillEntry)) : nat := list_sum (map length ls).

(** No record left fans out to more than one heap. *)
Definition single (E : Env) (e : SpillEntry) : Prop := forall f f' hs, effect E f e = Ok (f', hs) -> (length hs <= 1)%nat.

Definition lean (m : MergedDrain) (ls : list (list SpillEntry)) : Prop :=
  (length (pending_heaps m) <= 1)%nat /\ forall e, e ∈ concat ls -> single (env m) e.

(** [m'] carries on from [m] after handing out [x]. *)
Definition yields (m : MergedDrain) (ls : list (list SpillEntry)) (x : MergeItem) (m' : MergedDrain) (ls' : list (list SpillEntry)) : Prop :=
  drains m' ls' /\ env m' = env m /\
  rest m ls = after [(x, zlen (ToastRef.rows (folded m')))] (rest m' ls') /\
  match x with MEvent _ => (queued m = S (queued m'))%nat | MHeap _ => queued m = queued m' end /\
  (lean m ls -> lean m' ls' /\ pending_heaps m' = []).

Lemma concat_replace {A} (ls : list (list A)) i x l y : ls !! i = Some (x :: l) -> y ∈ concat (<[i := l]> ls) -> y ∈ concat ls.
Proof.
  intros Hi. pose proof (lookup_lt_Some _ _ _ Hi). rewrite <-(take_drop_middle _ _ _ Hi) at 2. rewrite insert_take_drop by done.
  rewrite !concat_app. cbn. set_solver.
Qed.

Lemma sum_replace {A} (qs : list (list A)) i x q : qs !! i = Some (x :: q) -> list_sum (map length qs) = S (list_sum (map length (<[i := q]> qs))).
Proof.
  intros Hi. pose proof (lookup_lt_Some _ _ _ Hi). rewrite <-(take_drop_middle _ _ _ Hi) at 1. rewrite insert_take_drop by done.
  rewrite !map_app, !list_sum_app. cbn. lia.
Qed.

Lemma rest_pending m ls h hs : pending_heaps m = h :: hs ->
  rest m ls = match owned (env m) (xid (decoded h)) with
              | Ok _ => after [(MHeap h, zlen (ToastRef.rows (folded m)))] (rest (set_pending m hs) ls)
              | Err e => ([], Err e)
              end.
Proof. intros Hp. unfold rest. by rewrite Hp. Qed.

Lemma rest_entry m m1 ls ls' e : pending_heaps m = [] -> env m1 = env m -> folded m1 = folded m -> queues m1 = queues m ->
  merge_order (queues m) ls = IEntry e :: merge_order (queues m) ls' ->
  rest m ls = match effect (env m) (folded m) e with Ok fh => rest (set_pending (set_folded m1 fh.1) fh.2) ls' | Err e => ([], Err e) end.
Proof.
  intros Hp He Hf Hq Hord. unfold rest. rewrite Hord, Hp. cbn [replay_heaps replay]. destruct (effect _ _ e) as [[f hs]|]; [|done]. cbn.
  by rewrite Hq, <-He.
Qed.

Lemma turn_spec m ls : drains m ls -> match turn m with
  | Err e => rest m ls = ([], Err e)
  | Ok Finished => spent m ls
  | Ok (Yield x m') => exists ls', yields m ls x m' ls'
  | Ok (Again m') => exists ls', drains m' ls' /\ env m' = env m /\ rest m ls = rest m' ls' /\ total ls = S (total ls') /\
      queues m' = queues m /\ (lean m ls -> lean m' ls')
  end.
Proof.
  intros [HF Hs]. unfold turn. destruct (pending_heaps m) as [|h hs] eqn:Hp.
  2:{ change (check_owned m (xid (decoded h))) with (owned (env m) (xid (decoded h))). pose proof (rest_pending m ls h hs Hp) as Er.
      destruct (owned (env m) (xid (decoded h))) as [[]|]; [|done]. exists ls.
      split; [done|]. split; [done|]. split; [done|]. split; [done|]. intros [Hl Hs']. rewrite Hp in Hl. cbn in Hl.
      assert (hs = []) as -> by (destruct hs; [done|cbn in Hl; lia]). split; [split; [cbn; lia|done]|done]. }
  pose proof (pick_splits m ls HF Hs) as Hpick. destruct (pick m) as [[i|i]|]; [| |done].
  - destruct Hpick as (e & l & Hl & Hord & Hsort). destruct (Forall2_lookup_r _ _ _ _ _ HF Hl) as (s & Hsi & Hse). rewrite Hsi.
    destruct (pop_spec s e l Hse) as (s' & Hpop & Hs'). rewrite Hpop. pose proof (sum_replace _ _ _ _ Hl) as Hsum.
    set (m1 := MkMerged _ _ _ _ _ _ _ _). rewrite take_entry_spec by done.
    assert (Forall2 source_holds (<[i := s']> (sources m)) (<[i := l]> ls)) as HF' by (by apply Forall2_insert).
    pose proof (rest_entry m m1 ls (<[i := l]> ls) e Hp eq_refl eq_refl eq_refl Hord) as Er. change (env m1) with (env m). change (folded m1) with (folded m).
    assert (e ∈ concat ls) as Hin by (apply list_elem_of_In, in_concat; exists (e :: l); split; apply list_elem_of_In; [by eapply list_elem_of_lookup_2|set_solver]).
    destruct e as [h|c|d|raw]; [|destruct (effect (env m) (folded m) _) as [fh|] eqn:Eff; [|done];
      (exists (<[i := l]> ls); split; [done|]; split; [done|]; split; [done|]; split; [done|]; split; [done|]; intros [_ Hsg]; split;
        [destruct fh; by eapply (Hsg _ Hin)|intros y Hy; apply Hsg; by eapply concat_replace])..].
    cbn [effect fst snd] in Er. rewrite (rest_pending (set_pending (set_folded m1 (folded m)) [h]) _ h [] eq_refl) in Er. change (env (set_pending (set_folded m1 (folded m)) [h])) with (env m) in Er.
    destruct (owned (env m) (xid (decoded h))); [|done]. exists (<[i := l]> ls). split; [done|]. split; [done|].
    split; [rewrite Er; by destruct m; cbn in Hp; subst|]. split; [done|]. intros [_ Hsg].
    split; [split; [cbn; rewrite ?Hp; cbn; lia|intros y Hy; apply Hsg; by eapply concat_replace]|cbn; by rewrite ?Hp].
  - destruct Hpick as (x & q & Hq & Hord & Hsort). rewrite Hq. destruct x as [lsn ev]. exists ls. split; [done|]. split; [done|].
    split; [unfold rest; by rewrite Hord, Hp|]. split; [by apply (sum_replace _ _ _ _ Hq)|]. intros [_ Hsg]. split; [split; [cbn; lia|done]|done].
Qed.

Lemma merge_fuel_total m ls : drains m ls -> (total ls < merge_fuel m)%nat.
Proof.
  intros [HF _]. unfold merge_fuel, total. apply Nat.lt_succ_r. induction HF as [|s l ss ls Hs HF IH]; [done|].
  change (length l + list_sum (map length ls) <= source_fuel s + list_sum (map source_fuel ss))%nat. pose proof (source_length s l Hs). lia.
Qed.

Lemma next_go_spec fuel : forall m ls, drains m ls -> (total ls < fuel)%nat -> match next_go fuel m with
  | Err e => rest m ls = ([], Err e)
  | Ok (None, m') => exists ls', drains m' ls' /\ env m' = env m /\ spent m' ls' /\
      rest m ls = ([], Ok (folded m')) /\ queued m' = queued m /\ (lean m ls -> lean m' ls')
  | Ok (Some x, m') => exists ls', yields m ls x m' ls'
  end.
Proof.
  induction fuel as [|fuel IH]; intros m ls Hd Hf; [lia|]. cbn [next_go]. pose proof (turn_spec m ls Hd) as Ht.
  destruct (turn m) as [[x m'|m'|]|e]; [done| | |done].
  - destruct Ht as (ls' & Hd' & He & Hr & Ht & Hq & Hle). specialize (IH m' ls' Hd' ltac:(lia)). rewrite Hr.
    assert (queued m' = queued m) as Hq' by (unfold queued; by rewrite Hq).
    destruct (next_go fuel m') as [[[x|] m2]|]; [| |done].
    + destruct IH as (ls2 & Hd2 & He2 & Hr2 & Hm & Hl2). exists ls2. split; [done|]. split; [congruence|]. split; [congruence|]. split; [destruct x; congruence|auto].
    + destruct IH as (ls2 & Hd2 & He2 & Hs2 & Hr2 & Hm & Hl2). exists ls2. split; [done|]. split; [congruence|]. split; [done|]. split; [congruence|]. split; [congruence|auto].
  - exists ls. split; [done|]. split; [done|]. split; [done|]. split; [|done]. destruct Ht as [Hp Ho]. unfold rest. by rewrite Hp, Ho.
Qed.

Lemma next_spec m ls : drains m ls -> match next m with
  | Err e => rest m ls = ([], Err e)
  | Ok (None, m') => exists ls', drains m' ls' /\ env m' = env m /\ spent m' ls' /\
      rest m ls = ([], Ok (folded m')) /\ queued m' = queued m /\ (lean m ls -> lean m' ls')
  | Ok (Some x, m') => exists ls', yields m ls x m' ls'
  end.
Proof. intros Hd. apply next_go_spec; [done|by apply merge_fuel_total]. Qed.

(** ** One slice *)
Local Notation Slice := (@Slice SchemaEvent ConfigEvent).

Definition slice_step (s : Slice) (x : Step) : Slice :=
  match x.1 with
  | MEvent e => MkSlice (sl_heaps s) (sl_events s ++ [MkOrdered (zlen (sl_heaps s)) x.2 e]) (sl_truncs s) (sl_bytes s)
  | MHeap h => MkSlice (sl_heaps s ++ [h]) (sl_events s) (if is_truncate h then sl_truncs s ++ [x.2] else sl_truncs s) (sl_bytes s + heap_bytes h)
  end.

Definition full (R B : Z) (s : Slice) : Prop := Z.max R 1 <= zlen (sl_heaps s) \/ Z.max B 1 <= sl_bytes s.

Lemma after_after a b r : after a (after b r) = after (a ++ b) r.
Proof. unfold after. cbn. by rewrite app_assoc. Qed.

Lemma after_nil r : after [] r = r.
Proof. by destruct r. Qed.

Lemma fill_slice_spec fuel R B : forall m ls s, drains m ls -> (Z.to_nat (Z.max R 1 - zlen (sl_heaps s)) + queued m < fuel)%nat ->
  match fill_slice fuel R B m s with
  | Err e => exists t, rest m ls = (t, Err e)
  | Ok (m', s') => exists ls' t, drains m' ls' /\ env m' = env m /\ s' = fold_left slice_step t s /\ rest m ls = after t (rest m' ls') /\
      (spent m' ls' \/ full R B s') /\ (lean m ls -> pending_heaps m = [] -> lean m' ls' /\ pending_heaps m' = [])
  end.
Proof.
  induction fuel as [|fuel IH]; intros m ls s Hd Hf; [lia|]. cbn [fill_slice].
  destruct (Z.ltb_spec (zlen (sl_heaps s)) (Z.max R 1)); cbn [andb].
  2:{ exists ls, []. rewrite after_nil. do 4 (split; [done|]). split; [right; by left|done]. }
  destruct (Z.ltb_spec (sl_bytes s) (Z.max B 1)).
  2:{ exists ls, []. rewrite after_nil. do 4 (split; [done|]). split; [right; by right|done]. }
  pose proof (next_spec m ls Hd) as Hn. destruct (next m) as [[[x|] m']|e]; [| |by exists []].
  2:{ destruct Hn as (ls' & Hd' & He & Hs & Hr & _ & Hlean). cbn [fst snd]. exists ls', []. rewrite after_nil.
      split; [done|]. split; [done|]. split; [done|]. split; [|split; [by left|]; intros Hl _; split; [auto|by destruct Hs]]. rewrite Hr. destruct Hs as [Hp Ho]. unfold rest. by rewrite Hp, Ho. }
  destruct Hn as (ls' & Hd' & He & Hr & Hq & Hlean). cbn [fst snd].
  assert (forall s', s' = slice_step s (x, zlen (ToastRef.rows (folded m'))) -> match fill_slice fuel R B m' s' with
    | Err e => exists t, rest m ls = (t, Err e)
    | Ok (m2, s2) => exists ls2 t, drains m2 ls2 /\ env m2 = env m /\ s2 = fold_left slice_step t s /\ rest m ls = after t (rest m2 ls2) /\
        (spent m2 ls2 \/ full R B s2) /\ (lean m ls -> pending_heaps m = [] -> lean m2 ls2 /\ pending_heaps m2 = []) end) as Hgo.
  { intros s' ->. assert ((Z.to_nat (Z.max R 1 - zlen (sl_heaps (slice_step s (x, zlen (ToastRef.rows (folded m')))))) + queued m' < fuel)%nat) as Hf'.
    { destruct x; cbn [slice_step sl_heaps fst]; rewrite ?zlen_app; try change (zlen [_]) with 1; lia. }
    specialize (IH m' ls' _ Hd' Hf'). destruct (fill_slice fuel R B m' _) as [[m2 s2]|e].
    - destruct IH as (ls2 & t & Hd2 & He2 & -> & Hr2 & Hend & Hl2). exists ls2, ((x, zlen (ToastRef.rows (folded m'))) :: t).
      split; [done|]. split; [congruence|]. split; [done|]. split; [by rewrite Hr, Hr2, after_after|].
      split; [done|]. intros Hl _. destruct (Hlean Hl). auto.
    - destruct IH as (t & Hr2). rewrite Hr, Hr2. by eexists. }
  destruct x as [h|e]; by apply Hgo.
Qed.

(** ** The apply plan *)
Definition heaps_of (t : list Step) : list DescribedHeap := omap (fun x => match x.1 with MHeap h => Some h | _ => None end) t.
Definition truncs_of (t : list Step) : list Z := omap (fun x => match x.1 with MHeap h => if is_truncate h then Some x.2 else None | _ => None end) t.

Fixpoint events_of (i : Z) (t : list Step) : list (@OrderedEvent SchemaEvent ConfigEvent) :=
  match t with
  | [] => []
  | (MEvent e, n) :: t => MkOrdered i n e :: events_of i t
  | (MHeap _, _) :: t => events_of (i + 1) t
  end.

Lemma slice_fold t : forall s, let s' := fold_left slice_step t s in
  sl_heaps s' = sl_heaps s ++ heaps_of t /\ sl_truncs s' = sl_truncs s ++ truncs_of t /\ sl_events s' = sl_events s ++ events_of (zlen (sl_heaps s)) t.
Proof.
  induction t as [|x t IH]; intros s; cbn [fold_left]; [by rewrite !app_nil_r|]. destruct (IH (slice_step s x)) as (-> & -> & ->). destruct x as [[h|e] n];
    cbn [slice_step fst snd sl_heaps sl_truncs sl_events events_of heaps_of truncs_of omap list_omap]; rewrite <-?app_assoc; [|done].
  split; [done|]. rewrite zlen_app. change (zlen [h]) with 1. split; [|done]. by destruct (is_truncate h); rewrite <-?app_assoc.
Qed.

Definition walk_of (x : Step) : list (@WalkStep SchemaEvent ConfigEvent) :=
  match x with
  | (MEvent e, n) => [WRows n; WEvent e]
  | (MHeap h, n) => if is_truncate h then [WRows n; WTruncate h n] else [WHeap h]
  end.

Lemma events_later t : forall i o, o ∈ events_of i t -> i <= heap_idx o.
Proof.
  induction t as [|[[h|e] n] t IH]; intros i o; cbn [events_of]; [by intros ?%not_elem_of_nil| |].
  - intros Ho%IH. lia.
  - intros [->|Ho]%elem_of_cons; [done|by apply IH].
Qed.

Lemma walk_event i hs (o : @OrderedEvent SchemaEvent ConfigEvent) es ts : heap_idx o <= i -> walk_heaps i hs (o :: es) ts =
  (let* r := walk_heaps i hs es ts in Some (WRows (row_idx o) :: WEvent (event o) :: r)).
Proof.
  intros Hi. destruct hs as [|h hs]; [done|]. cbn [walk_heaps events_due]. rewrite (proj2 (Z.leb_le _ _) Hi).
  destruct (events_due i es) as [w es']. destruct (is_truncate h); [destruct ts as [|u ts]; [done|]|]; by destruct (walk_heaps (i + 1) hs es' _).
Qed.

Lemma walk_steps t : forall i, walk_heaps i (heaps_of t) (events_of i t) (truncs_of t) = Some (concat (map walk_of t)).
Proof.
  induction t as [|[[h|e] n] t IH]; intros i; [done| |].
  - cbn [heaps_of truncs_of events_of omap list_omap fst snd map concat walk_of walk_heaps]. fold (heaps_of t). specialize (IH (i + 1)).
    assert (events_due i (events_of (i + 1) t) = ([], events_of (i + 1) t)) as ->.
    { destruct (events_of (i + 1) t) as [|o es] eqn:E; [done|]. cbn [events_due].
      assert (i + 1 <= heap_idx o) by (apply (events_later t); rewrite E; set_solver). by rewrite (proj2 (Z.leb_gt _ _)) by lia. }
    destruct (is_truncate h); cbn [app]; fold (truncs_of t); by rewrite IH.
  - cbn [events_of]. rewrite walk_event by done. change (heaps_of ((MEvent e, n) :: t)) with (heaps_of t).
    change (truncs_of ((MEvent e, n) :: t)) with (truncs_of t). by rewrite IH.
Qed.

(** ** Sealing a slice moves rows and chunks out, and nothing else *)
Definition same_spool (s s' : option ToastRef.BodySpoolWriter) : Prop :=
  match s, s' with
  | None, None => True
  | Some s, Some s' => ToastRef.slen s = ToastRef.slen s' /\ ToastRef.spooled s ++ ToastRef.sbuf s = ToastRef.spooled s' ++ ToastRef.sbuf s'
  | _, _ => False
  end.

(** [f'] is [f] with the rows [k] handed out already. *)
Record moved (k : list ToastRef.ToastRow) (f f' : Folded) : Prop := MkMoved
  { mv_rows : ToastRef.rows f = k ++ ToastRef.rows f';
    mv_spool : same_spool (ToastRef.spool f) (ToastRef.spool f');
    mv_mem : ToastRef.mem_body_bytes f = ToastRef.mem_body_bytes f';
    mv_meta : ToastRef.index_meta_bytes f = ToastRef.index_meta_bytes f' }.

Definition related {E A B} (R : A -> B -> Prop) (x : result E A) (y : result E B) : Prop :=
  match x, y with Ok a, Ok b => R a b | Err e, Err e' => e = e' | _, _ => False end.

Lemma append_moved s s' data : same_spool (Some s) (Some s') ->
  related (fun a b => same_spool (Some a.1) (Some b.1) /\ a.2 = b.2) (ToastRef.append s data) (ToastRef.append s' data).
Proof.
  intros [Hl Hc]. unfold ToastRef.append. rewrite Hl. destruct (2 ^ 32 <=? zlen data); [done|]. cbn. split; [|done].
  repeat destruct (_ <=? _); cbn; (split; [lia|]); rewrite ?app_nil_r, ?app_assoc; by rewrite Hc.
Qed.

Lemma fold_body_moved k l f f' data : moved k f f' -> related (fun a b => moved k a.1 b.1 /\ a.2 = b.2) (ToastRef.fold_body l f data) (ToastRef.fold_body l f' data).
Proof.
  intros [Hr Hs Hm Hi]. unfold ToastRef.fold_body. rewrite Hm.
  assert (forall s s', same_spool (Some s) (Some s') -> related (fun a b => moved k a.1 b.1 /\ a.2 = b.2)
    (match ToastRef.append s data with Ok (s, r) => Ok (ToastRef.MkFolded (ToastRef.chunks f) (ToastRef.rows f) (Some s) (ToastRef.mem_body_bytes f) (ToastRef.index_meta_bytes f), ToastRef.File r) | Err e => Err (ToastRef.FoldToast e) end)
    (match ToastRef.append s' data with Ok (s, r) => Ok (ToastRef.MkFolded (ToastRef.chunks f') (ToastRef.rows f') (Some s) (ToastRef.mem_body_bytes f') (ToastRef.index_meta_bytes f'), ToastRef.File r) | Err e => Err (ToastRef.FoldToast e) end)) as Hsp.
  { intros s s' Hss. pose proof (append_moved s s' data Hss) as Ha. unfold related in *.
    destruct (ToastRef.append s data) as [[s1 r1]|], (ToastRef.append s' data) as [[s2 r2]|]; try done; [|congruence].
    destruct Ha as [? Hr']. cbn in Hr'. subst. done. }
  rewrite Hm in Hsp. unfold same_spool in Hs. destruct (ToastRef.spool f) as [s|], (ToastRef.spool f') as [s'|]; try done; [by apply Hsp|].
  destruct (_ <=? _); [done|]. by apply Hsp.
Qed.

Lemma reserve_moved k l f f' n : moved k f f' -> related (moved k) (ToastRef.reserve_meta l f n) (ToastRef.reserve_meta l f' n).
Proof. intros [Hr Hs Hm Hi]. unfold ToastRef.reserve_meta. rewrite Hi. by destruct (_ <? _). Qed.

Lemma fold_chunk_moved k l f f' c : moved k f f' -> related (moved k) (fold_chunk l f c) (fold_chunk l f' c).
Proof.
  intros Hmv. unfold fold_chunk. set (n := ToastRef.CHUNK_REF_META * _). pose proof (reserve_moved k l f f' n Hmv) as Hr. unfold related in Hr.
  destruct (ToastRef.reserve_meta l f n) as [g|], (ToastRef.reserve_meta l f' n) as [g'|]; try done; try by subst.
  pose proof (fold_body_moved k l g g' (chunk_data c) Hr) as Hb. unfold related in Hb.
  destruct (ToastRef.fold_body l g _) as [[h b]|], (ToastRef.fold_body l g' _) as [[h' b']|]; try done; try by subst.
  destruct Hb as [[Er Es Em Ei] Eb]. cbn in *. subst b'. split; try done. cbn. destruct (_ && _); [|done]. by rewrite Er, app_assoc.
Qed.

Lemma fold_delete_moved k l f f' d : moved k f f' -> related (moved k) (fold_delete l f d) (fold_delete l f' d).
Proof.
  intros Hmv. unfold fold_delete. destruct (negb _); [done|]. pose proof (reserve_moved k l f f' ToastRef.CHUNK_REF_META Hmv) as Hr. unfold related in Hr.
  destruct (ToastRef.reserve_meta l f _) as [g|], (ToastRef.reserve_meta l f' _) as [g'|]; try done; try by subst.
  destruct Hr as [Er Es Em Ei]. split; try done. cbn. by rewrite Er, app_assoc.
Qed.

Lemma fold_ops_moved k l ops : forall f f', moved k f f' -> related (moved k) (fold_ops l f ops) (fold_ops l f' ops).
Proof.
  induction ops as [|o ops IH]; intros f f' Hmv; [done|]. cbn [fold_ops].
  assert (related (moved k) (ToastRef.fold_op l f o) (ToastRef.fold_op l f' o)) as Ho by (destruct o; [by apply fold_chunk_moved|by apply fold_delete_moved]).
  unfold related in Ho. destruct (ToastRef.fold_op l f o), (ToastRef.fold_op l f' o); try done; [by apply IH|try by subst..].
Qed.

Lemma lift_moved k (x y : result FoldError Folded) : related (moved k) x y ->
  related (fun a b => moved k a.1 b.1 /\ a.2 = b.2) (let? f := lift_fold x in Ok (f, @nil DescribedHeap)) (let? f := lift_fold y in Ok (f, [])).
Proof. unfold related, lift_fold. destruct x, y; try done. by intros ->. Qed.

Lemma effect_moved k E f f' e : moved k f f' -> related (fun a b => moved k a.1 b.1 /\ a.2 = b.2) (effect E f e) (effect E f' e).
Proof.
  intros Hmv. destruct e as [h|c|d|raw]; cbn [effect]; [done|by apply lift_moved, fold_chunk_moved|by apply lift_moved, fold_delete_moved|].
  destruct (raw_rfn raw) as [rfn|]; [|done]. destruct (e_stash E !! rfn) as [[rel|rel vf fe pe]|]; [| |done].
  - destruct (decode_stashed_toast raw rel) as [ops|]; [|done]. by apply lift_moved, fold_ops_moved.
  - destruct (shape_for raw rel vf pe). by destruct (fold_raw_ordinary raw _ _ fe).
Qed.

Definition shift (n : Z) (x : Step) : Step := (x.1, n + x.2).

Lemma replay_heaps_moved k E n hs r r' : r.1 = map (shift (zlen k)) r'.1 -> related (moved k) r.2 r'.2 ->
  (replay_heaps E (zlen k + n) hs r).1 = map (shift (zlen k)) (replay_heaps E n hs r').1 /\
  related (moved k) (replay_heaps E (zlen k + n) hs r).2 (replay_heaps E n hs r').2.
Proof.
  intros H1' H2'. induction hs as [|h hs [IH1 IH2]]; [done|]. cbn [replay_heaps]. destruct (owned E _); [|done]. cbn. by rewrite IH1.
Qed.

Lemma replay_moved k E items : forall f f', moved k f f' ->
  (replay E f items).1 = map (shift (zlen k)) (replay E f' items).1 /\ related (moved k) (replay E f items).2 (replay E f' items).2.
Proof.
  induction items as [|[x|e] items IH]; intros f f' Hmv; [done| |].
  - cbn. destruct (IH f f' Hmv) as [-> ?]. split; [|done]. by rewrite (mv_rows _ _ _ Hmv), zlen_app.
  - cbn [replay]. pose proof (effect_moved k E f f' e Hmv) as He. unfold related in He.
    destruct (effect E f e) as [[g hs]|], (effect E f' e) as [[g' hs']|]; try done; try by subst.
    destruct He as [Hg Eh]. cbn in Hg, Eh. subst hs'. destruct (IH g g' Hg). rewrite (mv_rows _ _ _ Hg), zlen_app. by apply replay_heaps_moved.
Qed.

Definition seal (f : Folded) : Folded := (ToastRef.take_rows (ToastRef.take_chunks f).1).1.

Lemma seal_moved f : moved (ToastRef.rows f) f (seal f).
Proof.
  destruct f as [c r s mb im]. split; cbn; [by rewrite app_nil_r| |done|done]. destruct s as [s|]; [|done]. cbn. by rewrite app_nil_r.
Qed.

Lemma rest_seal m ls : let m' := set_folded m (seal (folded m)) in
  (rest m ls).1 = map (shift (zlen (ToastRef.rows (folded m)))) (rest m' ls).1 /\ related (moved (ToastRef.rows (folded m))) (rest m ls).2 (rest m' ls).2.
Proof.
  cbv zeta. unfold rest. cbn. destruct (replay_moved _ (env m) (merge_order (queues m) ls) _ _ (seal_moved (folded m))) as [H1' H2'].
  pose proof (replay_heaps_moved _ (env m) 0 (pending_heaps m) _ _ H1' H2') as Hh. by rewrite Z.add_0_r in Hh.
Qed.

Lemma heaps_events_nil t : forall i, heaps_of t = [] -> events_of i t = [] -> t = [].
Proof. destruct t as [|[[h|e] n] t]; done. Qed.

Local Notation CommittedDrain := (@CommittedDrain SchemaEvent ConfigEvent).
Local Notation DrainedBatch := (@DrainedBatch SchemaEvent ConfigEvent).

Definition no_slice : Slice := MkSlice [] [] [] 0.

(** A slice that took nothing found nothing. *)
Lemma empty_not_full R B : full R B no_slice -> False.
Proof. intros [Hf|Hf]; cbn in Hf; [change (zlen []) with 0 in Hf|]; lia. Qed.

Lemma spent_rest m ls : spent m ls -> rest m ls = ([], Ok (folded m)).
Proof. intros [Hp Ho]. unfold rest. by rewrite Hp, Ho. Qed.

(** What the batch [b], cut from the drain [m], holds of it. *)
Definition cut (m : MergedDrain) (ls : list (list SpillEntry)) (b : DrainedBatch) (m' : MergedDrain) (ls' : list (list SpillEntry)) (t : list Step) : Prop :=
  into_walk b = Some (concat (map walk_of t) ++ [WRows (zlen (new_rows b))]) /\
  (rest m ls).1 = t ++ map (shift (zlen (new_rows b))) (rest m' ls').1 /\
  related (moved (new_rows b)) (rest m ls).2 (rest m' ls').2.

(** A drain with nothing left in it. *)
Definition empty_drain (m : MergedDrain) (ls : list (list SpillEntry)) : Prop := spent m ls /\ ToastRef.chunks (folded m) = ∅.

Lemma next_batch_spec R B (d : CommittedDrain) m ls : merged d = Some (Merged m) -> drains m ls -> ToastRef.rows (folded m) = [] ->
  match next_batch d R B with
  | Err e => exists t, rest m ls = (t, Err e)
  | Ok (None, _) => exists f, rest m ls = ([], Ok f) /\ ToastRef.rows f = []
  | Ok (Some b, d') => (empty_drain m ls -> False) /\ exists m' ls' t, merged d' = Some (Merged m') /\ drains m' ls' /\ ToastRef.rows (folded m') = [] /\
      cut m ls b m' ls' t /\ (t = [] -> empty_drain m' ls') /\
      is_final b = is_exhausted m' /\ ToastRef.chunks (folded m') = ∅ /\ (lean m ls -> pending_heaps m = [] -> lean m' ls' /\ pending_heaps m' = [])
  end.
Proof.
  intros Hm Hd Hrows. unfold next_batch. rewrite Hm.
  pose proof (fill_slice_spec (slice_fuel R m) R B m ls no_slice Hd) as Hfill.
  assert (Z.to_nat (Z.max R 1 - zlen (sl_heaps no_slice)) + queued m < slice_fuel R m)%nat as Hfuel.
  { unfold slice_fuel, queued. cbn [no_slice sl_heaps]. change (zlen []) with 0. lia. }
  specialize (Hfill Hfuel). fold no_slice. destruct (fill_slice _ R B m no_slice) as [[m' s']|e]; [|done].
  destruct Hfill as (ls' & t & Hd' & He & -> & Hr & Hend & Hlean). cbn [ToastRef.take_chunks ToastRef.take_rows ToastRef.rows ToastRef.chunks ToastRef.spool ToastRef.mem_body_bytes ToastRef.index_meta_bytes].
  destruct (slice_fold t no_slice) as (Eh & Et & Ee). cbn [no_slice sl_heaps sl_truncs sl_events app] in Eh, Et, Ee. change (zlen []) with 0 in Ee.
  rewrite Eh, Et, Ee. clear Eh Et Ee. change (ToastRef.MkFolded _ _ _ _ _) with (seal (folded m')).
  assert (t = [] -> spent m' ls') as Hsp by (intros ->; destruct Hend as [?|?%empty_not_full]; done).
  destruct (rest_seal m' ls') as [Hs1 Hs2]. set (m2 := set_folded m' (seal (folded m'))) in *.
  destruct (bool_decide_reflect (heaps_of t = [])) as [Hh|Hh], (bool_decide_reflect (length (events_of 0 t) = 0%nat)) as [Hev|Hev],
    (bool_decide_reflect (ToastRef.chunks (folded m') = ∅)) as [Hc|Hc], (Z.eqb_spec (zlen (ToastRef.rows (folded m'))) 0) as [Hz|Hz]; cbn [andb];
    try pose proof (heaps_events_nil _ _ Hh (nil_length_inv _ Hev)) as Htn.
  1:{ subst t. rewrite Hr, (spent_rest _ _ (Hsp eq_refl)). exists (folded m'). split; [done|]. by destruct (ToastRef.rows (folded m')). }
  all: split; [|exists m2, ls', t; split; [done|]; split; [done|]; split; [done|]; split; [split;
    [unfold into_walk; cbn [heaps ordered_events truncate_rows new_rows]; by rewrite walk_steps|
     split; [rewrite Hr; cbn; by rewrite Hs1|by rewrite Hr]]|split; [intros Ht; split; [exact (Hsp Ht)|done]|done]]].
  all: intros [Hsm Hcm]; rewrite (spent_rest _ _ Hsm) in Hr.
  all: assert (t = []) as -> by (destruct t; [done|discriminate Hr]).
  all: try done.
  all: rewrite (spent_rest _ _ (Hsp eq_refl)) in Hr; cbn in Hr; injection Hr as Hf; rewrite <-Hf in *; try congruence.
  all: by rewrite Hrows in Hz.
Qed.

(** ** Mirror rows only grow *)
Definition rising (n : Z) (t : list Step) : Prop := StronglySorted Z.le (map snd t) /\ Forall (fun x => n <= x.2) t.

Lemma rising_nil n : rising n [].
Proof. split; constructor. Qed.

Lemma rising_cons n x t : n <= x.2 -> rising x.2 t -> rising n (x :: t).
Proof.
  intros Hn [Hs HF]. split; cbn [map].
  - constructor; [done|]. apply Forall_fmap. exact HF.
  - constructor; [done|]. eapply Forall_impl; [|exact HF]. cbn. lia.
Qed.

Lemma rising_weaken n n' t : n <= n' -> rising n' t -> rising n t.
Proof. intros Hn [Hs HF]. split; [done|]. eapply Forall_impl; [|exact HF]. cbn. lia. Qed.

Lemma effect_rows E f e g hs : effect E f e = Ok (g, hs) -> zlen (ToastRef.rows f) <= zlen (ToastRef.rows g).
Proof.
  assert (forall l n f g, ToastRef.reserve_meta l f n = Ok g -> ToastRef.rows g = ToastRef.rows f) as Hres.
  { intros l n f0 g0. unfold ToastRef.reserve_meta. destruct (_ <? _); [done|]. by intros [= <-]. }
  assert (forall l f b g b', ToastRef.fold_body l f b = Ok (g, b') -> ToastRef.rows g = ToastRef.rows f) as Hbody.
  { intros l f0 b g0 b'. unfold ToastRef.fold_body. destruct (ToastRef.spool f0); [|destruct (_ <=? _); [by intros [= <- <-]|]];
      destruct (ToastRef.append _ _) as [[? ?]|]; try done; by intros [= <- <-]. }
  assert (forall l f c g, fold_chunk l f c = Ok g -> zlen (ToastRef.rows f) <= zlen (ToastRef.rows g)) as Hc.
  { intros l f0 c g0. unfold fold_chunk. destruct (ToastRef.reserve_meta _ _ _) as [f1|] eqn:E1; [|done].
    destruct (ToastRef.fold_body _ _ _) as [[f2 b]|] eqn:E2; [|done]. cbn. intros [= <-]. cbn.
    rewrite (Hbody _ _ _ _ _ E2), (Hres _ _ _ _ E1). destruct (_ && _); rewrite ?zlen_app; [change (zlen [_]) with 1|]; lia. }
  assert (forall l f d g, fold_delete l f d = Ok g -> zlen (ToastRef.rows f) <= zlen (ToastRef.rows g)) as Hdel.
  { intros l f0 d g0. unfold fold_delete. destruct (negb _); [by intros [= <-]|]. destruct (ToastRef.reserve_meta _ _ _) as [f1|] eqn:E1; [|done].
    intros [= <-]. cbn. rewrite (Hres _ _ _ _ E1), zlen_app. change (zlen [_]) with 1. lia. }
  assert (forall l ops f g, fold_ops l f ops = Ok g -> zlen (ToastRef.rows f) <= zlen (ToastRef.rows g)) as Hops.
  { intros l ops. induction ops as [|o ops IH]; intros f0 g0; cbn [fold_ops]; [by intros [= <-]|].
    destruct (ToastRef.fold_op l f0 o) as [f1|] eqn:E1; [|done]. intros E2%IH. destruct o; [apply Hc in E1|apply Hdel in E1]; lia. }
  unfold lift_fold. destruct e as [h|c|d|raw]; cbn [effect].
  - by intros [= <- <-].
  - destruct (fold_chunk _ f c) eqn:E1; [|done]. intros [= <- <-]. by eapply Hc.
  - destruct (fold_delete _ f d) eqn:E1; [|done]. intros [= <- <-]. by eapply Hdel.
  - destruct (raw_rfn raw) as [rfn|]; [|by intros [= <- <-]]. destruct (e_stash E !! rfn) as [[rel|rel vf fe pe]|]; [| |by intros [= <- <-]].
    + destruct (decode_stashed_toast raw rel) as [ops|]; [|done]. cbn. unfold lift_fold. destruct (fold_ops _ f ops) eqn:E1; [|done]. intros [= <- <-]. by eapply Hops.
    + destruct (shape_for raw rel vf pe). destruct (fold_raw_ordinary raw _ _ fe); [|done]. by intros [= <- <-].
Qed.

Lemma replay_heaps_rising E n hs k : rising n k.1 -> rising n (replay_heaps E n hs k).1.
Proof. intros Hk. induction hs as [|h hs IH]; [done|]. cbn [replay_heaps]. destruct (owned E _); [apply rising_cons; [cbn; lia|exact IH]|exact (rising_nil _)]. Qed.

Lemma replay_rising E items : forall f, rising (zlen (ToastRef.rows f)) (replay E f items).1.
Proof.
  induction items as [|[x|e] items IH]; intros f; cbn [replay]; [exact (rising_nil _)|apply rising_cons; [cbn; lia|exact (IH f)]|].
  destruct (effect E f e) as [[g hs]|] eqn:Eff; [|exact (rising_nil _)].
  eapply rising_weaken; [by eapply effect_rows|]. by apply replay_heaps_rising.
Qed.

(** ** The positions a planner pins

    As [plan_batch] does: control events and truncates carry the number of
    mirror rows before them, counted over the whole commit. *)
Fixpoint walk_trace (base cursor : Z) (w : list (@WalkStep SchemaEvent ConfigEvent)) : list (MergeItem * option Z) :=
  match w with
  | [] => []
  | WRows upto :: w => walk_trace base (Z.max cursor upto) w
  | WEvent e :: w => (MEvent e, Some (base + cursor)) :: walk_trace base cursor w
  | WTruncate h upto :: w => (MHeap h, Some (base + upto)) :: walk_trace base cursor w
  | WHeap h :: w => (MHeap h, None) :: walk_trace base cursor w
  end.

Fixpoint batches_trace (base : Z) (bs : list DrainedBatch) : option (list (MergeItem * option Z)) :=
  match bs with
  | [] => Some []
  | b :: bs =>
      let* w := into_walk b in
      let* r := batches_trace (base + zlen (new_rows b)) bs in
      Some (walk_trace base 0 w ++ r)
  end.

Definition pin (base : Z) (x : Step) : MergeItem * option Z :=
  (x.1, match x.1 with MHeap h => if is_truncate h then Some (base + x.2) else None | MEvent _ => Some (base + x.2) end).

Lemma walk_trace_of base t w : forall c, rising c t -> Forall (fun s => match s with WRows _ => True | _ => False end) w ->
  walk_trace base c (concat (map walk_of t) ++ w) = map (pin base) t.
Proof.
  induction t as [|[x n] t IH]; intros c [Hs HF] Hw; cbn [map concat app].
  - clear -Hw. revert c. induction w as [|s w IHw]; intros c; [done|]. apply Forall_cons_1 in Hw as [Hs Hw]. destruct s; try done. cbn. by apply IHw.
  - apply Forall_cons_1 in HF as [Hn HF]. cbn [snd] in Hn. cbn [map snd] in Hs. apply StronglySorted_inv in Hs as [Hs Hall].
    assert (rising n t) as Hr. { split; [done|]. by rewrite Forall_fmap in Hall. }
    assert (rising c t) as Hr' by (eapply rising_weaken; [|exact Hr]; done).
    destruct x as [h|e]; cbn [walk_of pin fst snd]; [destruct (is_truncate h) eqn:Et|]; cbn [app walk_trace]; rewrite ?Z.max_r by done; rewrite IH by done; unfold pin; cbn; by rewrite ?Et.
Qed.

(** ** Pulling a drain dry *)

(** The loop that pulls slices until none is left; [None] when [fuel] runs out. *)
Fixpoint pull (fuel : nat) (R B : Z) (d : CommittedDrain) : option (result XactBufferError (list DrainedBatch)) :=
  match fuel with
  | O => None
  | S fuel =>
      match next_batch d R B with
      | Err e => Some (Err e)
      | Ok (None, _) => Some (Ok [])
      | Ok (Some b, d) => match pull fuel R B d with Some (Ok bs) => Some (Ok (b :: bs)) | r => r end
      end
  end.

Lemma sorted_left (l k : list Z) : StronglySorted Z.le (l ++ k) -> StronglySorted Z.le l.
Proof.
  induction l as [|x l IH]; [constructor|]. cbn. intros [Hs HF]%StronglySorted_inv. constructor; [by apply IH|]. by apply Forall_app in HF as [? _].
Qed.

Lemma rising_prefix n t t' : rising n (t ++ t') -> rising n t.
Proof.
  intros [Hs HF]. rewrite map_app in Hs. split; [by apply sorted_left in Hs|]. by apply Forall_app in HF as [? _].
Qed.

Lemma pin_shift base n t : map (pin base) (map (shift n) t) = map (pin (base + n)) t.
Proof.
  rewrite map_map. apply map_ext. intros [x k]. unfold pin, shift. cbn. f_equal. destruct x as [h|e]; [destruct (is_truncate h)|]; try done; f_equal; lia.
Qed.

Lemma pull_spec R B fuel : forall m ls (d : CommittedDrain) k, merged d = Some (Merged m) -> drains m ls -> ToastRef.rows (folded m) = [] ->
  k = 1%nat \/ empty_drain m ls -> (length (rest m ls).1 + k < fuel)%nat ->
  match (rest m ls).2 with
  | Err e => pull fuel R B d = Some (Err e)
  | Ok f => exists bs, pull fuel R B d = Some (Ok bs) /\ concat (map new_rows bs) = ToastRef.rows f /\
      forall base, batches_trace base bs = Some (map (pin base) (rest m ls).1)
  end.
Proof.
  induction fuel as [|fuel IH]; intros m ls d k Hm Hd Hrows Hk Hf; [lia|]. cbn [pull].
  pose proof (next_batch_spec R B d m ls Hm Hd Hrows) as Hn. destruct (next_batch d R B) as [[[b|] d']|e].
  - destruct Hn as (Hne & m' & ls' & t & Hm' & Hd' & Hr' & (Hw & H1' & H2') & Ht & _). destruct Hk as [->|?]; [|done].
    assert (rising 0 (rest m ls).1) as Hris.
    { unfold rest. rewrite Hrows. change (zlen []) with 0. apply replay_heaps_rising. eapply rising_weaken; [|apply replay_rising].
      rewrite Hrows. change (zlen []) with 0. lia. }
    assert (length (rest m ls).1 = length t + length (rest m' ls').1)%nat as Hlen by (rewrite H1', length_app, length_map; lia).
    assert (exists k', (k' = 1%nat \/ empty_drain m' ls') /\ (length (rest m' ls').1 + k' < fuel)%nat) as (k' & Hk' & Hf').
    { destruct t as [|x t]; [exists 0%nat; split; [right; by apply Ht|lia]|exists 1%nat; split; [by left|cbn in Hlen; lia]]. }
    specialize (IH m' ls' d' k' Hm' Hd' Hr' Hk' Hf'). unfold related in H2'.
    destruct ((rest m ls).2) as [f|e], ((rest m' ls').2) as [f'|e']; try done; [|by rewrite IH, H2'].
    destruct IH as (bs & -> & Hrs & Htr). exists (b :: bs). split; [done|]. split; [cbn [map concat]; by rewrite Hrs, (mv_rows _ _ _ H2')|].
    intros base. cbn [batches_trace]. rewrite Hw. cbn [mbind option_bind]. rewrite Htr. cbn [mbind option_bind].
    rewrite walk_trace_of; [|eapply rising_prefix; by rewrite <-H1'|by repeat constructor]. by rewrite H1', map_app, pin_shift.
  - destruct Hn as (f & Hr & Hf0). rewrite Hr. by exists [].
  - destruct Hn as (t & ->). done.
Qed.

(** ** Stopping at the slice marked final *)

(** The loop that stops at the first slice marked final. *)
Fixpoint pull_final (fuel : nat) (R B : Z) (d : CommittedDrain) : option (result XactBufferError (list DrainedBatch)) :=
  match fuel with
  | O => None
  | S fuel =>
      match next_batch d R B with
      | Err e => Some (Err e)
      | Ok (None, _) => Some (Ok [])
      | Ok (Some b, d) =>
          if is_final b then Some (Ok [b])
          else match pull_final fuel R B d with Some (Ok bs) => Some (Ok (b :: bs)) | r => r end
      end
  end.

Lemma exhausted_order m ls : drains m ls -> is_exhausted m = true -> merge_order (queues m) ls = [].
Proof.
  intros [HF _]. unfold is_exhausted. rewrite andb_true_iff, !forallb_forall. intros [Hs Hq].
  pose proof (pick_splits m ls HF) as Hp. unfold merge_order, lists. replace (concat _) with (@nil Item); [done|]. symmetry.
  apply concat_nil_Forall, Forall_elem. intros l. rewrite elem_of_app. intros [Hl|Hl].
  - apply list_elem_of_In, in_rev, list_elem_of_In, list_elem_of_fmap in Hl as (q & -> & Hin). apply list_elem_of_In in Hin. specialize (Hq q Hin). by destruct q.
  - apply list_elem_of_fmap in Hl as (es & -> & Hin). apply list_elem_of_lookup in Hin as [i Hi]. destruct (Forall2_lookup_r _ _ _ _ _ HF Hi) as (s & Hsi & Hh).
    specialize (Hs s ltac:(apply list_elem_of_In; by eapply list_elem_of_lookup_2)). rewrite (source_head _ _ Hh) in Hs. by destruct es.
Qed.

Lemma empty_next R B (d : CommittedDrain) m ls : merged d = Some (Merged m) -> drains m ls -> ToastRef.rows (folded m) = [] -> empty_drain m ls ->
  exists d', next_batch d R B = Ok (None, d').
Proof.
  intros Hm Hd Hr He. pose proof (next_batch_spec R B d m ls Hm Hd Hr) as Hn. destruct (next_batch d R B) as [[[b|] d']|e]; [by destruct Hn|by eexists|].
  destruct Hn as (t & Hn). by rewrite (spent_rest _ _ (proj1 He)) in Hn.
Qed.

(** With records that fan out to one heap at most, the slice marked final is
    the last one. *)
Lemma pull_final_spec R B fuel : forall m ls (d : CommittedDrain), merged d = Some (Merged m) -> drains m ls -> ToastRef.rows (folded m) = [] ->
  lean m ls -> pending_heaps m = [] -> (length (rest m ls).1 + 2 <= fuel)%nat -> pull_final fuel R B d = pull fuel R B d.
Proof.
  induction fuel as [|fuel IH]; intros m ls d Hm Hd Hrows Hl Hp Hf; [lia|]. cbn [pull pull_final].
  pose proof (next_batch_spec R B d m ls Hm Hd Hrows) as Hn. destruct (next_batch d R B) as [[[b|] d']|e]; [|done..].
  destruct Hn as (Hne & m' & ls' & t & Hm' & Hd' & Hr' & (Hw & H1' & H2') & Ht & Hfin & Hch & Hlean). destruct (Hlean Hl Hp) as [Hl' Hp'].
  assert (length (rest m ls).1 = length t + length (rest m' ls').1)%nat as Hlen by (rewrite H1', length_app, length_map; lia).
  destruct (is_final b) eqn:Eb.
  - assert (empty_drain m' ls') as He. { split; [|done]. split; [done|]. apply exhausted_order; [done|congruence]. }
    destruct (empty_next R B d' m' ls' Hm' Hd' Hr' He) as (d2 & E2). destruct fuel as [|fuel]; [lia|]. cbn [pull]. by rewrite E2.
  - destruct t as [|x t]; [|erewrite (IH m' ls' d'); try done; cbn in Hlen; lia].
    destruct (empty_next R B d' m' ls' Hm' Hd' Hr' (Ht eq_refl)) as (d2 & E2). destruct fuel as [|fuel]; [lia|]. cbn [pull pull_final]. by rewrite E2.
Qed.

End Replay.
End XactReplay.
