(* ===== verification/XactHistory.v ===== *)
(** * The transaction buffer against its specification

    The specification keeps, per open transaction, everything it was given, and
    the commits whose effects may not be durable yet; it has no memory budget, no
    spill files and no gauges.  Every run of the buffer's operations refines it,
    and what a commit drains is the replay of the specification's entries and
    events in WAL order. *)
From S2P Require Import Prelude Pos WalRecord Fpi AsciiBuf Numeric HeapDecode Wire DescCodec Spill SpillProofs ToastRef XactBuffer XactBufferProofs DescLog Pending XactDrain XactMerge XactReplay.
Import WalRecord Schema HeapDecode DescCodec Spill SpillFile XactBuffer XactBufferProofs XactDrain XactMerge XactReplay.

Module XactHistory.

Section History.
Context `{Layout} `{Decompress} `{FloatText} `{Fpi.Codecs} {SchemaEvent ConfigEvent : Type}.
Local Notation DrainEntry := (DrainEntry SchemaEvent ConfigEvent).
Local Notation XactState := (XactState SchemaEvent ConfigEvent).
Local Notation XactBuffer := (XactBuffer SchemaEvent ConfigEvent).

(** ** The specification *)
Record Txn := MkTxn { t_first : Z; t_entries : list SpillEntry; t_events : list (Z * DrainEntry); t_stash : gmap RelFileNode StashMark }.

Definition fresh (first : Z) : Txn := MkTxn first [] [] ∅.

(** Open transactions, commits as (first position, commit position), the floor
    below which commits drain nothing, and the last acknowledged position. *)
Record Spec := MkSpec { open : gmap Z Txn; commits : list (Z * Z); floor : Z; acked : Z }.

Definition blank : Spec := MkSpec ∅ [] 0 0.

Definition edit (T : gmap Z Txn) (x first : Z) (g : Txn -> Txn) : gmap Z Txn := <[x := g (default (fresh first) (T !! x))]> T.

Definition on_open (s : Spec) (x first : Z) (g : Txn -> Txn) : Spec := MkSpec (edit (open s) x first g) (commits s) (floor s) (acked s).

Definition add_entry (e : SpillEntry) (t : Txn) : Txn := MkTxn (t_first t) (t_entries t ++ [e]) (t_events t) (t_stash t).
Definition add_event (lsn : Z) (e : DrainEntry) (t : Txn) : Txn := MkTxn (t_first t) (t_entries t) (t_events t ++ [(lsn, e)]) (t_stash t).
Definition add_mark (rfn : RelFileNode) (m : StashMark) (t : Txn) : Txn :=
  MkTxn (t_first t) (t_entries t) (t_events t) (<[rfn := match t_stash t !! rfn with Some m' => merge m' m | None => m end]> (t_stash t)).

(** The transactions a commit of [xids] takes, in that order. *)
Fixpoint picked (T : gmap Z Txn) (xids : list Z) : list (Z * Txn) :=
  match xids with
  | [] => []
  | x :: xids => match T !! x with Some t => (x, t) :: picked (delete x T) xids | None => picked T xids end
  end.

Inductive Op :=
| OHeap (h : DescribedHeap)
| OChunk (c : ToastChunk) (x : Z)
| ODelete (d : ToastDelete) (x : Z)
| ORaw (x : Z) (raw : RawRecord)
| OEvent (x lsn : Z) (e : DrainEntry)
| OMark (x lsn : Z) (rfn : RelFileNode)
| OSmgr (x : Z) (rfn : RelFileNode) (lsn : Z)
| OForget (rfns : list RelFileNode)
| OAbort (x lsn : Z) (subs : list Z)
| OCommit (sr : StashResolved) (ts lsn : Z) (subs : list Z) (collect : bool)
| OFloor (lsn : Z)
| OIdle (lsn : Z)
| OResume (ack : Z).

(** What an operation adds to a transaction's entries. *)
Definition absorbed (o : Op) : option SpillEntry :=
  match o with
  | OHeap h => Some (EHeap h)
  | OChunk c _ => Some (EChunk c)
  | ODelete d _ => Some (EToastDelete d)
  | ORaw _ raw => match raw_rfn raw with Some _ => Some (ERaw raw) | None => None end
  | _ => None
  end.

Definition committed (s : Spec) (lsn : Z) (xids : list Z) : list (Z * Txn) := if lsn <? floor s then [] else picked (open s) xids.

Definition spec_op (s : Spec) (o : Op) : Spec :=
  match o with
  | OHeap h => on_open s (xid (decoded h)) (source_lsn (decoded h)) (add_entry (EHeap h))
  | OChunk c x => on_open s x (ck_lsn c) (add_entry (EChunk c))
  | ODelete d x => on_open s x (td_lsn d) (add_entry (EToastDelete d))
  | ORaw x raw =>
      match raw_rfn raw with
      | Some rfn => on_open s x (raw_lsn raw) (fun t => add_entry (ERaw raw) (add_mark rfn (MkMark (raw_lsn raw) false) t))
      | None => s
      end
  | OEvent x lsn e => on_open s x lsn (add_event lsn e)
  | OMark x lsn rfn => on_open s x lsn (add_mark rfn (MkMark lsn true))
  | OSmgr x rfn lsn => if x =? 0 then s else on_open s x lsn (add_mark rfn (MkMark lsn false))
  | OForget _ | OIdle _ => s
  | OAbort x _ subs => MkSpec (deletes (open s) (x :: subs)) (commits s) (floor s) (acked s)
  | OCommit sr _ lsn subs _ =>
      let xids := res_top_xid sr :: subs in
      MkSpec (deletes (open s) xids)
        match committed s lsn xids with
        | [] => commits s
        | p :: ps => (fold_left (fun acc q => Z.min acc (t_first q.2)) ps (t_first p.2), lsn) :: commits s
        end (floor s) (acked s)
  | OFloor lsn => MkSpec (open s) (commits s) lsn (acked s)
  | OResume ack => MkSpec (open s) (commits s) (floor s) ack
  end.

(** Commits come with their verdicts, acknowledgements do not go back. *)
Definition op_ok (s : Spec) (o : Op) : Prop :=
  match o with OCommit sr _ _ _ _ => res sr <> None | OResume ack => acked s <= ack | _ => True end.

Fixpoint legal (s : Spec) (ops : list Op) : Prop :=
  match ops with [] => True | o :: ops => op_ok s o /\ legal (spec_op s o) ops end.

(** The least position a restart must read from. *)
Definition undurable (s : Spec) (ack : Z) : list Z :=
  map (fun xt => t_first xt.2) (map_to_list (open s)) ++ map fst (filter (fun p => ack < p.2) (commits s)).

(** ** The buffer *)
Context (cfg : XactBufferConfig) (iter : gmap Z XactState -> list (Z * XactState)).
Context (reads : list Z -> list (list Z)).

Definition apply_op (b : XactBuffer) (o : Op) : XactBuffer :=
  match o with
  | OHeap h => on_heap cfg iter b h
  | OChunk c x => on_toast_chunk cfg iter b c x
  | ODelete d x => on_toast_delete cfg iter b d x
  | ORaw x raw => stash_raw cfg iter b x raw
  | OEvent x lsn e => push_drain_entry b x lsn e
  | OMark x lsn rfn => track_unresolvable b x lsn rfn
  | OSmgr x rfn lsn => note_smgr_create b x rfn lsn
  | OForget rfns => forget_markers b rfns
  | OAbort x lsn subs => abort b x lsn subs
  | OCommit sr ts lsn subs collect => (drain_committed reads cfg b sr ts lsn subs collect).1
  | OFloor lsn => set_min_commit_lsn b lsn
  | OIdle lsn => advance_idle b lsn
  | OResume ack => (resume_safe_lsn b ack).1
  end.

(** ** Refinement *)
Hypothesis iter_perm : forall m, iter m ≡ₚ map_to_list m.
Hypothesis max_nonneg : 0 <= xact_buffer_max cfg.

Definition tview (t : Txn) : Z * list (Z * DrainEntry) * gmap RelFileNode StashMark := (t_first t, t_events t, t_stash t).

Definition before (p q : Z * Z) : Prop := pair_le p q = true.

Record refines (b : XactBuffer) (s : Spec) : Prop := MkRefines
  { rf_inv : Inv b (t_entries <$> open s);
    rf_max : bytes_in_memory b <= xact_buffer_max cfg;
    rf_view : forall x, view <$> inflight b !! x = tview <$> open s !! x;
    rf_floor : min_commit_lsn b = floor s;
    rf_sorted : StronglySorted before (pending_durable b);
    rf_sub : forall p, p ∈ pending_durable b -> p ∈ commits s;
    rf_cover : forall p, p ∈ commits s -> p ∈ pending_durable b \/ p.2 <= acked s }.

Lemma refines_new : refines new_buffer blank.
Proof.
  split; try done; cbn [blank open commits].
  - rewrite fmap_empty. apply inv_new.
  - constructor.
  - intros p ?%not_elem_of_nil. done.
Qed.

Lemma state_for_spec (b : XactBuffer) x f : (state_for b x f).2 = default (new_state f) (inflight b !! x) /\
  (forall y, y <> x -> inflight (state_for b x f).1 !! y = inflight b !! y) /\
  same_rest b (state_for b x f).1 /\ bytes_in_memory (state_for b x f).1 = bytes_in_memory b.
Proof.
  unfold state_for. destruct (inflight b !! x) as [st|]; cbn [fst snd]; [done|]. split; [done|]. split; [|done].
  intros y Hy. cbn. by rewrite lookup_insert_ne.
Qed.

(** One transaction edited, on both sides. *)
Lemma refines_edit b b' s x f g : refines b s -> Inv b' (t_entries <$> edit (open s) x f g) -> bytes_in_memory b' <= xact_buffer_max cfg -> same_rest b b' ->
  view <$> inflight b' !! x = Some (tview (g (default (fresh f) (open s !! x)))) -> (forall y, y <> x -> view <$> inflight b' !! y = view <$> inflight b !! y) ->
  refines b' (on_open s x f g).
Proof.
  intros [R1 R2 R3 R4 R5 R6 R7] HI Hmax (_ & _ & Hp & Hfl) Hx Hy. split; cbn [on_open open commits floor acked]; rewrite ?Hp, ?Hfl; try done.
  intros y. unfold edit. destruct (decide (y = x)) as [->|Hne]; [rewrite lookup_insert_eq; exact Hx|]. rewrite lookup_insert_ne by done. rewrite Hy by done. apply R3.
Qed.

Lemma default_view b s x f : refines b s -> view (default (new_state f) (inflight b !! x)) = tview (default (fresh f) (open s !! x)).
Proof. intros HR. pose proof (rf_view _ _ HR x) as Hv. destruct (inflight b !! x), (open s !! x); try done. cbn in *. congruence. Qed.

Lemma entries_edit T x f g : (forall t, t_entries (g t) = t_entries t) ->
  t_entries <$> edit T x f g = opened (t_entries <$> T) x.
Proof.
  intros Hg. unfold edit, opened. rewrite fmap_insert, Hg. f_equal. rewrite lookup_fmap. by destruct (T !! x).
Qed.

Lemma refines_push b s x lsn e : refines b s -> refines (push_drain_entry b x lsn e) (on_open s x lsn (add_event lsn e)).
Proof.
  intros HR. destruct (state_for_spec b x lsn) as (E1 & E2 & E3 & E4). apply (refines_edit b).
  - done.
  - rewrite entries_edit by done. apply inv_push_drain_entry, HR.
  - unfold push_drain_entry. destruct (state_for b x lsn) as [b1 st]. stats_cbn. rewrite E4. apply HR.
  - unfold push_drain_entry. destruct (state_for b x lsn) as [b1 st]. by stats_cbn.
  - pose proof (default_view b s x lsn HR) as Hv. rewrite <-E1 in Hv. unfold push_drain_entry. destruct (state_for b x lsn) as [b1 st]. stats_cbn.
    rewrite lookup_insert_eq. cbn. unfold view, tview in *. cbn. by injection Hv as -> -> ->.
  - intros y Hy. unfold push_drain_entry. destruct (state_for b x lsn) as [b1 st]. stats_cbn. by rewrite lookup_insert_ne, E2 by done.
Qed.

Lemma refines_mark b s x lsn rfn pf : refines b s -> refines (mark_stash b x lsn rfn pf) (on_open s x lsn (add_mark rfn (MkMark lsn pf))).
Proof.
  intros HR. destruct (state_for_spec b x lsn) as (E1 & E2 & E3 & E4). apply (refines_edit b).
  - done.
  - rewrite entries_edit by done. apply inv_mark_stash, HR.
  - unfold mark_stash. destruct (state_for b x lsn) as [b1 st]. destruct (stash_rfns st !! rfn); stats_cbn; rewrite E4; apply HR.
  - unfold mark_stash. destruct (state_for b x lsn) as [b1 st]. by destruct (stash_rfns st !! rfn); stats_cbn.
  - pose proof (default_view b s x lsn HR) as Hv. rewrite <-E1 in Hv. unfold mark_stash. destruct (state_for b x lsn) as [b1 st].
    unfold view, tview in *. injection Hv as E5 E6 E7. unfold add_mark. cbn [t_first t_events t_stash]. rewrite <-E5, <-E6, <-E7. stats_cbn.
    by destruct (stash_rfns st !! rfn); stats_cbn; rewrite lookup_insert_eq.
  - intros y Hy. unfold mark_stash. destruct (state_for b x lsn) as [b1 st]. destruct (stash_rfns st !! rfn); stats_cbn; by rewrite lookup_insert_ne, E2 by done.
Qed.

Lemma refines_absorb b s x f e : refines b s -> (forall h, e = EHeap h -> xid (decoded h) = x) -> refines (absorb cfg iter b x f e) (on_open s x f (add_entry e)).
Proof.
  intros HR Hown. destruct (inv_absorb cfg iter iter_perm max_nonneg b _ x f e (rf_inv _ _ HR) (rf_max _ _ HR) Hown) as (I1 & I2 & I3 & I4).
  apply (refines_edit b); [done| |done|done| |].
  - unfold edit. rewrite fmap_insert. cbn [add_entry t_entries]. rewrite lookup_fmap in I1. by destruct (open s !! x).
  - rewrite I4, decide_True by done. cbn [fmap option_fmap option_map]. f_equal. rewrite (default_view b s x f HR). done.
  - intros y Hy. by rewrite I4, decide_False.
Qed.

Lemma edit_edit s x f g g' : on_open (on_open s x f g) x f g' = on_open s x f (fun t => g' (g t)).
Proof. unfold on_open, edit. cbn [open commits floor acked]. rewrite lookup_insert_eq. cbn [default from_option id]. by rewrite insert_insert_eq. Qed.

(** *** Transactions that end *)
Lemma view_deletes (m : gmap Z XactState) (T : gmap Z Txn) xids : (forall x, view <$> m !! x = tview <$> T !! x) ->
  forall x, view <$> deletes m xids !! x = tview <$> deletes T xids !! x.
Proof. intros Hv x. rewrite !deletes_lookup. by destruct (bool_decide (x ∈ xids)). Qed.

Lemma entries_deletes T xids : t_entries <$> deletes T xids = deletes (t_entries <$> T) xids.
Proof. apply map_eq. intros x. rewrite lookup_fmap, !deletes_lookup, lookup_fmap. by destruct (bool_decide (x ∈ xids)). Qed.

Lemma bytes_deletes (b b' : XactBuffer) hist hist' xids : Inv b hist -> Inv b' hist' -> inflight b' = deletes (inflight b) xids -> bytes_in_memory b' <= bytes_in_memory b.
Proof.
  intros HI HI' E. rewrite (inv_bytes _ _ HI), (inv_bytes _ _ HI'), E, (taken_sum in_mem_bytes xids (inflight b)).
  assert (0 <= zsum (map in_mem_bytes (map snd (taken (inflight b) xids)))); [|lia].
  apply zsum_nonneg, Forall_elem. intros n (st & -> & ([x sx] & -> & [_ Hx]%taken_elem)%list_elem_of_fmap)%list_elem_of_fmap. exact (inv_bytes_nonneg b hist x sx HI Hx).
Qed.

Lemma discard_deletes xids (b : XactBuffer) : inflight (fold_left discard_state xids b) = deletes (inflight b) xids.
Proof. apply map_eq. intros y. by rewrite discard_inflight, deletes_lookup. Qed.

Lemma refines_ends b b' s xids : refines b s -> Inv b' (deletes (t_entries <$> open s) xids) -> inflight b' = deletes (inflight b) xids ->
  pending_durable b' = pending_durable b -> min_commit_lsn b' = min_commit_lsn b ->
  refines b' (MkSpec (deletes (open s) xids) (commits s) (floor s) (acked s)).
Proof.
  intros [R1 R2 R3 R4 R5 R6 R7] HI E Hp Hf. split; cbn [open commits floor acked]; rewrite ?Hp, ?Hf; try done.
  - by rewrite entries_deletes.
  - pose proof (bytes_deletes _ _ _ _ _ R1 HI E). lia.
  - rewrite E. by apply view_deletes.
Qed.

Lemma refines_abort b s x lsn subs : refines b s -> refines (abort b x lsn subs) (MkSpec (deletes (open s) (x :: subs)) (commits s) (floor s) (acked s)).
Proof.
  intros HR. assert (forall c, c = with_stats b (advance_drain (stats b) lsn) -> inflight (fold_left discard_state (x :: subs) c) = deletes (inflight b) (x :: subs) /\
    pending_durable (fold_left discard_state (x :: subs) c) = pending_durable b /\ min_commit_lsn (fold_left discard_state (x :: subs) c) = min_commit_lsn b) as Hd.
  { intros c ->. destruct (discard_rest (x :: subs) (with_stats b (advance_drain (stats b) lsn))) as [-> ->]. by rewrite discard_deletes. }
  destruct (Hd _ eq_refl) as (Hi & Hp & Hf). apply (refines_ends b); [done|apply inv_abort, HR|..]; unfold abort, discard_states; cbv zeta; by destruct (existsb _ _).
Qed.

Lemma taken_picked xids : forall (m : gmap Z XactState) T, (forall x, view <$> m !! x = tview <$> T !! x) ->
  Forall2 (fun a p => a.1 = p.1 /\ view a.2 = tview p.2 /\ m !! a.1 = Some a.2 /\ T !! p.1 = Some p.2) (taken m xids) (picked T xids).
Proof.
  induction xids as [|x xids IH]; intros m T Hv; [constructor|]. cbn [taken picked]. pose proof (Hv x) as Hx.
  destruct (m !! x) as [st|] eqn:Hm, (T !! x) as [t|] eqn:Ht; try done; [|by apply IH]. constructor; [cbn in *; repeat split; congruence|].
  eapply Forall2_impl; [|apply (IH (delete x m) (delete x T))].
  - intros [y sy] [z tz] (E1 & E2 & [_ ?]%lookup_delete_Some & [_ ?]%lookup_delete_Some). done.
  - intros y. destruct (decide (y = x)) as [->|]; [by rewrite !lookup_delete_eq|]. by rewrite !lookup_delete_ne.
Qed.

Lemma release_rest l : forall (b : XactBuffer), inflight (fold_left release_spill l b) = inflight b /\
  pending_durable (fold_left release_spill l b) = pending_durable b /\ min_commit_lsn (fold_left release_spill l b) = min_commit_lsn b.
Proof. induction l as [|st l IH]; intros b; [done|]. cbn [fold_left]. destruct (IH (release_spill b st)) as (-> & -> & ->). unfold release_spill. by destruct (spill st). Qed.

(** *** The heap of commits *)
Lemma before_total p q : pair_le p q = false -> before q p.
Proof.
  unfold before, pair_le. destruct (Z.ltb_spec p.1 q.1), (Z.eqb_spec p.1 q.1), (Z.leb_spec p.2 q.2), (Z.ltb_spec q.1 p.1), (Z.eqb_spec q.1 p.1), (Z.leb_spec q.2 p.2); cbn; lia || done.
Qed.

Lemma before_trans p q r : before p q -> before q r -> before p r.
Proof.
  unfold before, pair_le. destruct (Z.ltb_spec p.1 q.1), (Z.eqb_spec p.1 q.1), (Z.leb_spec p.2 q.2), (Z.ltb_spec q.1 r.1), (Z.eqb_spec q.1 r.1), (Z.leb_spec q.2 r.2),
    (Z.ltb_spec p.1 r.1), (Z.eqb_spec p.1 r.1), (Z.leb_spec p.2 r.2); cbn; lia || done.
Qed.

Lemma before_first p q : before p q -> p.1 <= q.1.
Proof. unfold before, pair_le. destruct (Z.ltb_spec p.1 q.1), (Z.eqb_spec p.1 q.1); cbn; lia || done. Qed.

Lemma pd_push_elem p x l : p ∈ pd_push x l <-> p = x \/ p ∈ l.
Proof. induction l as [|y l IH]; cbn [pd_push]; [set_solver|]. destruct (pair_le x y); [set_solver|]. rewrite elem_of_cons, IH. set_solver. Qed.

Lemma pd_push_sorted x l : StronglySorted before l -> StronglySorted before (pd_push x l).
Proof.
  induction 1 as [|y l Hs IH HF]; cbn [pd_push]; [repeat constructor|]. destruct (pair_le x y) eqn:Exy.
  - constructor; [by constructor|]. constructor; [done|]. eapply Forall_impl; [|exact HF]. intros z Hz. by eapply before_trans.
  - constructor; [done|]. apply Forall_elem. intros z [->|Hz]%pd_push_elem; [by apply before_total|]. by apply (proj1 (Forall_elem _ _) HF).
Qed.

Lemma prune_spec ack l : StronglySorted before l -> StronglySorted before (prune ack l) /\ (forall p, p ∈ prune ack l -> p ∈ l) /\
  (forall p, p ∈ l -> p ∈ prune ack l \/ p.2 <= ack) /\ match prune ack l with p :: _ => ack < p.2 | [] => True end.
Proof.
  induction 1 as [|y l Hs IH HF]; cbn [prune]; [split; [constructor|]; split; [done|]; split; [by left|done]|].
  destruct (Z.leb_spec y.2 ack) as [Hy|Hy].
  - destruct IH as (I1 & I2 & I3 & I4). split; [done|]. split; [set_solver|]. split; [|done]. intros p [->|Hp]%elem_of_cons; [by right|by apply I3].
  - split; [by constructor|]. split; [done|]. split; [by left|lia].
Qed.

Definition first_of (ps : list (Z * Txn)) : Z :=
  match ps with [] => 0 | p :: ps => fold_left (fun acc q => Z.min acc (t_first q.2)) ps (t_first p.2) end.

Lemma first_fold (l : list (Z * XactState)) (ps : list (Z * Txn)) : Forall2 (fun a p => first_lsn a.2 = t_first p.2) l ps ->
  forall n, fold_left (fun acc st => Z.min acc (first_lsn st)) (map snd l) n = fold_left (fun acc q => Z.min acc (t_first q.2)) ps n.
Proof. induction 1 as [|a p l ps E HF IH]; intros n; [done|]. cbn [map fold_left]. by rewrite E. Qed.

(** What a commit takes and leaves. *)
Lemma take_rest b s lsn xids : refines b s ->
  inflight (take_states b lsn xids).1 = deletes (inflight b) xids /\ min_commit_lsn (take_states b lsn xids).1 = min_commit_lsn b /\
  pending_durable (take_states b lsn xids).1 = match committed s lsn xids with [] => pending_durable b | ps => pd_push (first_of ps, lsn) (pending_durable b) end.
Proof.
  intros HR. unfold take_states, committed. rewrite (rf_floor _ _ HR). destruct (lsn <? floor s).
  { unfold discard_states. cbv zeta. stats_cbn. rewrite discard_deletes.
    destruct (discard_rest xids (with_stats b (advance_drain (stats b) lsn))) as [-> ->]. split; [done|]. split; [exact (rf_floor _ _ HR)|done]. }
  rewrite take_loop. cbn [app]. pose proof (taken_picked xids (inflight b) (open s) (rf_view _ _ HR)) as HF.
  assert (Forall2 (fun (a : Z * XactState) (p : Z * Txn) => first_lsn a.2 = t_first p.2) (taken (inflight b) xids) (picked (open s) xids)) as HF'.
  { eapply Forall2_impl; [|exact HF]. intros a p (_ & Hv & _). unfold view, tview in Hv. congruence. }
  clear HF. destruct HF' as [|a p l ps E HF']; [done|]. cbn [map]. stats_cbn. split; [done|]. split; [done|].
  unfold first_of. by rewrite (first_fold _ _ HF'), E.
Qed.

(** The buffer a resolved commit leaves, up to the counter of commits. *)
Lemma commit_leaves b s sr ts lsn subs collect (xids := res_top_xid sr :: subs) (tk := take_states b lsn xids) : refines b s -> res sr <> None ->
  let left := fold_left release_spill tk.2 tk.1 in
  let b' := (drain_committed reads cfg b sr ts lsn subs collect).1 in
  b' = left \/ b' = with_stats left (with_totals (stats left) 0 1 0 0 0 0 0).
Proof.
  intros HR Hres. cbv zeta. unfold drain_committed. fold xids. fold tk. destruct tk as [b1 states]. cbn [fst snd].
  destruct states as [|st states]; [by left|]. destruct (res sr) as [r|]; [|done].
  destruct (fits_one_slice cfg (st :: states)) as [hs|] eqn:Ef.
  - right. unfold fits_one_slice in Ef. destruct states as [|st' states]; [|done]. cbn [fold_left]. unfold release_spill.
    destruct (spill st) eqn:Es; [|done]. cbn [is_some negb] in Ef. by rewrite andb_false_r in Ef.
  - destruct (open_drain _ _ _ _ _ _ _) as [m|e]; [by right|by left].
Qed.

Lemma refines_commit b s sr ts lsn subs collect (o := OCommit sr ts lsn subs collect) : refines b s -> op_ok s o -> refines (apply_op b o) (spec_op s o).
Proof.
  intros HR Hres. cbn [o apply_op spec_op op_ok] in *. set (xids := res_top_xid sr :: subs).
  destruct (inv_take b (t_entries <$> open s) lsn xids (rf_inv _ _ HR)) as [HI _].
  destruct (take_rest b s lsn xids HR) as (Ei & Ef & Ep). destruct (release_rest (take_states b lsn xids).2 (take_states b lsn xids).1) as (L1 & L2 & L3).
  set (left := fold_left release_spill _ _) in *. rewrite Ei in L1. rewrite Ep in L2. rewrite Ef in L3.
  assert (forall b', b' = left \/ b' = with_stats left (with_totals (stats left) 0 1 0 0 0 0 0) ->
    Inv b' (deletes (t_entries <$> open s) xids) /\ inflight b' = inflight left /\ pending_durable b' = pending_durable left /\ min_commit_lsn b' = min_commit_lsn left) as Hb.
  { intros b' [->| ->]; [done|]. split; [|done]. by apply inv_stats. }
  destruct (Hb _ (commit_leaves b s sr ts lsn subs collect HR Hres)) as (I1 & I2 & I3 & I4). clear Hb. set (b' := (drain_committed _ _ _ _ _ _ _ _).1) in *.
  pose proof (bytes_deletes _ _ _ _ xids (rf_inv _ _ HR) I1 ltac:(congruence)) as Hbytes. destruct HR as [R1 R2 R3 R4 R5 R6 R7].
  split; cbn [open commits floor acked]; rewrite ?I2, ?I3, ?I4, ?L1, ?L2, ?L3.
  - by rewrite entries_deletes.
  - lia.
  - by apply view_deletes.
  - done.
  - destruct (committed s lsn xids); [done|by apply pd_push_sorted].
  - destruct (committed s lsn xids) as [|p ps]; [done|]. intros q [->|Hq]%pd_push_elem; [set_solver|]. apply elem_of_cons. right. by apply R6.
  - destruct (committed s lsn xids) as [|p ps]; [done|]. intros q [->|Hq]%elem_of_cons; rewrite pd_push_elem; [by left; left|]. destruct (R7 q Hq); auto.
Qed.

Lemma refines_resume b s ack : refines b s -> acked s <= ack -> refines (resume_safe_lsn b ack).1 (MkSpec (open s) (commits s) (floor s) ack).
Proof.
  intros [[] R2 R3 R4 R5 R6 R7] Hack. destruct (prune_spec ack _ R5) as (P1 & P2 & P3 & _). split; stats_cbn; try done.
  - auto.
  - intros p Hp. destruct (R7 p Hp) as [Hin|]; [|right; cbn; lia]. by apply P3.
Qed.

Lemma refines_op b s o : refines b s -> op_ok s o -> refines (apply_op b o) (spec_op s o).
Proof.
  intros HR Hok. destruct o as [h|c x|d x|x raw|x lsn e|x lsn rfn|x rfn lsn|rfns|x lsn subs|sr ts lsn subs collect|lsn|lsn|ack]; cbn [apply_op spec_op op_ok] in *.
  - apply refines_absorb; [done|]. by intros h' [= <-].
  - by apply refines_absorb.
  - by apply refines_absorb.
  - unfold stash_raw. destruct (raw_rfn raw) as [rfn|]; [|done]. rewrite <-edit_edit. apply refines_absorb; [|done]. by apply refines_mark.
  - by apply refines_push.
  - by apply refines_mark.
  - unfold note_smgr_create. destruct (if bool_decide (markers b !! rfn = Some lsn) then _ else _) as [m order].
    set (b1 := MkBuffer (inflight b) _ _ _ _ _ _ _). assert (refines b1 s) as HR1 by (destruct HR as [[] ? ? ? ? ? ?]; by split).
    destruct (x =? 0); [done|]. by apply refines_mark.
  - destruct HR as [[] ? ? ? ? ? ?]; by split.
  - by apply refines_abort.
  - by apply refines_commit.
  - destruct HR as [[] ? ? ? ? ? ?]; by split.
  - unfold advance_idle. destruct (negb _); [done|]. destruct HR as [[] ? ? ? ? ? ?]; by split.
  - by apply refines_resume.
Qed.

Definition run (ops : list Op) : XactBuffer := fold_left apply_op ops new_buffer.
Definition spec_run (ops : list Op) : Spec := fold_left spec_op ops blank.

Lemma refines_run ops : legal blank ops -> refines (run ops) (spec_run ops).
Proof.
  unfold run, spec_run. pose proof refines_new as HR. revert HR. generalize (new_buffer : XactBuffer) blank. induction ops as [|o ops IH]; intros b s HR Hl; [done|].
  cbn [fold_left legal] in *. destruct Hl as [Ho Hl]. apply IH; [by apply refines_op|done].
Qed.

(** ** Where a restart may resume *)
Lemma fold_min l : forall n : Z, fold_left Z.min l n <= n /\ (forall x, x ∈ l -> fold_left Z.min l n <= x) /\ (fold_left Z.min l n = n \/ fold_left Z.min l n ∈ l).
Proof.
  induction l as [|y l IH]; intros n; cbn [fold_left]; [split; [lia|]; split; [intros x ?%not_elem_of_nil; done|by left]|].
  destruct (IH (Z.min n y)) as (I1 & I2 & I3). split; [lia|]. split.
  - intros x [->|Hx]%elem_of_cons; [lia|by apply I2].
  - rewrite elem_of_cons. destruct I3 as [E|?]; [|auto]. rewrite E. destruct (Z.min_spec n y) as [[_ ->]|[_ ->]]; auto.
Qed.

Lemma fold_min_eq n l k : (forall x, x ∈ l -> exists y, y ∈ k /\ y <= x) -> (forall y, y ∈ k -> exists x, x ∈ l /\ x <= y) -> fold_left Z.min l n = fold_left Z.min k n.
Proof.
  intros Hl Hk. destruct (fold_min l n) as (A1 & A2 & A3), (fold_min k n) as (B1 & B2 & B3). apply Z.le_antisymm.
  - destruct B3 as [->|Hb]; [done|]. destruct (Hk _ Hb) as (x & Hx & Hle). specialize (A2 x Hx). lia.
  - destruct A3 as [->|Ha]; [done|]. destruct (Hl _ Ha) as (x & Hx & Hle). specialize (B2 x Hx). lia.
Qed.

Lemma open_firsts b s n : refines b s -> n ∈ map (fun xs => first_lsn xs.2) (map_to_list (inflight b)) <-> n ∈ map (fun xt => t_first xt.2) (map_to_list (open s)).
Proof.
  intros HR. split.
  - intros ([x st] & -> & Hx%elem_of_map_to_list)%list_elem_of_fmap. pose proof (rf_view _ _ HR x) as Hv. rewrite Hx in Hv.
    destruct (open s !! x) as [t|] eqn:Ht; [|done]. apply list_elem_of_fmap. exists (x, t). split; [cbn in *; unfold view, tview in Hv; congruence|by apply elem_of_map_to_list].
  - intros ([x t] & -> & Hx%elem_of_map_to_list)%list_elem_of_fmap. pose proof (rf_view _ _ HR x) as Hv. rewrite Hx in Hv.
    destruct (inflight b !! x) as [st|] eqn:Ht; [|done]. apply list_elem_of_fmap. exists (x, st). split; [cbn in *; unfold view, tview in Hv; congruence|by apply elem_of_map_to_list].
Qed.

Lemma resume_exact b s ack : refines b s -> acked s <= ack -> (resume_safe_lsn b ack).2 = fold_left Z.min (undurable s ack) ack.
Proof.
  intros HR Hack. destruct (prune_spec ack _ (rf_sorted _ _ HR)) as (P1 & P2 & P3 & P4). unfold resume_safe_lsn, undurable. stats_cbn. apply fold_min_eq.
  - intros n [Hn%(open_firsts b s n HR)|Hn]%elem_of_app; [exists n; split; [set_solver|lia]|]. unfold min_first_lsn in Hn.
    destruct (prune ack (pending_durable b)) as [|p l]; [by apply not_elem_of_nil in Hn|]. cbn in Hn. apply list_elem_of_singleton in Hn as ->.
    exists p.1. split; [|lia]. apply elem_of_app. right. apply list_elem_of_fmap. exists p. split; [done|]. apply list_elem_of_filter. split; [done|].
    apply (rf_sub _ _ HR), P2. set_solver.
  - intros n [Hn%(open_firsts b s n HR)|Hn]%elem_of_app; [exists n; split; [set_solver|lia]|].
    apply list_elem_of_fmap in Hn as (p & -> & [Hlt Hp]%list_elem_of_filter). destruct (rf_cover _ _ HR p Hp) as [Hin|]; [|lia].
    destruct (P3 p Hin) as [Hin'|]; [|lia]. unfold min_first_lsn. destruct (prune ack (pending_durable b)) as [|q l]; [by apply not_elem_of_nil in Hin'|].
    exists q.1. split; [cbn; set_solver|]. apply elem_of_cons in Hin' as [->|Hin']; [lia|]. apply StronglySorted_inv in P1 as [_ HF].
    apply before_first. by apply (proj1 (Forall_elem _ _) HF).
Qed.

(** ** What a commit drains *)

(** Entries of open transactions are a subsequence of what was absorbed. *)
Lemma spec_entries ops : forall x t, open (spec_run ops) !! x = Some t -> t_entries t `sublist_of` omap absorbed ops.
Proof.
  unfold spec_run. induction ops as [|o ops IH] using rev_ind; [done|]. rewrite fold_left_app. cbn [fold_left]. set (s := fold_left spec_op ops blank) in *. rewrite omap_app.
  assert (forall x t, open s !! x = Some t -> t_entries t `sublist_of` omap absorbed ops ++ omap absorbed [o]) as IH'.
  { intros x t Ht. apply sublist_inserts_r. by eapply IH. }
  assert (forall x0 f g, (forall t, t_entries (g t) = t_entries t) \/ (exists e, (forall t, t_entries (g t) = t_entries t ++ [e]) /\ omap absorbed [o] = [e]) ->
    forall x t, edit (open s) x0 f g !! x = Some t -> t_entries t `sublist_of` omap absorbed ops ++ omap absorbed [o]) as He.
  { intros x0 f g Hg x t. unfold edit. destruct (decide (x0 = x)) as [->|Hne]; [|rewrite lookup_insert_ne by done; apply IH']. rewrite lookup_insert_eq. intros [= <-].
    assert (t_entries (default (fresh f) (open s !! x)) `sublist_of` omap absorbed ops) as Hd.
    { destruct (open s !! x) as [t|] eqn:Ht; [by eapply IH|apply sublist_nil_l]. }
    destruct Hg as [->|(e & -> & ->)]; [by apply sublist_inserts_r|by apply sublist_app]. }
  assert (forall xids x t, deletes (open s) xids !! x = Some t -> t_entries t `sublist_of` omap absorbed ops ++ omap absorbed [o]) as Hdel.
  { intros xids x t. rewrite deletes_lookup. destruct (bool_decide _); [done|]. apply IH'. }
  destruct o as [h|c x|d x|x raw|x lsn e|x lsn rfn|x rfn lsn|rfns|x lsn subs|sr ts lsn subs collect|lsn|lsn|ack]; cbn [spec_op on_open open]; try done;
    try (apply He; right; eexists; split; [by intros t|done]); try (apply He; by left); try apply Hdel.
  - destruct (raw_rfn raw) as [rfn|] eqn:Er; [|apply IH']. apply He. right. exists (ERaw raw). split; [by intros t|]. cbn. by rewrite Er.
  - destruct (x =? 0); [apply IH'|]. apply He. by left.
Qed.

Hypothesis reads_all : forall bytes, concat (reads bytes) = bytes.
Hypothesis reads_some : forall bytes, Forall (fun c => 0 < zlen c) (reads bytes).

Definition in_order (es : list SpillEntry) : Prop := StronglySorted (fun a b => entry_lsn a <= entry_lsn b) es.

(** Entries that arrive in WAL order and fit the spill format. *)
Record arrives (es : list SpillEntry) : Prop := MkArrives
  { ar_order : in_order es; ar_ok : Forall entry_ok es; ar_coherent : coherent es; ar_few : zlen es < 2 ^ 32 }.

Lemma sublist_sorted (es fs : list SpillEntry) : fs `sublist_of` es -> in_order es -> in_order fs.
Proof.
  induction 1 as [|e fs es Hsub IH|e fs es Hsub IH]; intros Hs; [done| |].
  - apply StronglySorted_inv in Hs as [Hs HF]. constructor; [by apply IH|]. apply Forall_elem. intros y Hy. apply (proj1 (Forall_elem _ _) HF).
    by eapply sublist_subseteq.
  - apply StronglySorted_inv in Hs as [Hs _]. by apply IH.
Qed.

Lemma sublist_arrives es fs : fs `sublist_of` es -> arrives es -> arrives fs.
Proof.
  intros Hsub [A1 A2 A3 A4]. assert (forall e, e ∈ fs -> e ∈ es) as Hin by (intros e He; by eapply sublist_subseteq). split.
  - by eapply sublist_sorted.
  - apply Forall_elem. intros e He. apply (proj1 (Forall_elem _ _) A2). auto.
  - intros h h' Hh Hh'. apply A3; auto.
  - apply sublist_length in Hsub. unfold zlen in *. lia.
Qed.

Definition state_holds (st : XactState) (es : list SpillEntry) : Prop :=
  (exists bs, holds (spill st) bs /\ concat bs ++ in_mem st = es) /\ arrives es.

Lemma open_sources_spec states ess : Forall2 state_holds states ess -> exists ss, open_sources reads states = Ok ss /\ Forall2 source_holds ss ess.
Proof.
  induction 1 as [|st es states ess [(bs & Hbs & Hc) Ha] HF IH]; [by exists []|]. destruct IH as (ss & Hss & HF'). cbn [open_sources]. rewrite Hss.
  assert (exists s, match spill st with None => Ok (open_mem (in_mem st)) | Some w => open_spilled reads w (in_mem st) end = Ok s /\ source_holds s es) as (s & -> & Hs).
  { unfold holds in Hbs. destruct (spill st) as [w|].
    - destruct Hbs as [_ ->]. rewrite <-Hc. destruct (sublist_arrives es (concat bs)) as [_ B2 B3 B4]; [rewrite <-Hc; by apply sublist_inserts_r|done|].
      apply open_spilled_spec; done.
    - subst bs. cbn in Hc. subst es. eexists. split; [done|]. apply open_mem_spec. }
  exists (s :: ss). split; [done|]. by constructor.
Qed.

Lemma sorted_map {A B} (R : A -> A -> Prop) (R' : B -> B -> Prop) (g : A -> B) l : (forall a b, R a b -> R' (g a) (g b)) -> StronglySorted R l -> StronglySorted R' (map g l).
Proof.
  intros Hg. induction 1 as [|a l Hs IH HF]; cbn [map]; constructor; [done|]. apply Forall_elem. intros y (z & -> & Hz)%list_elem_of_fmap.
  apply Hg. by apply (proj1 (Forall_elem _ _) HF).
Qed.

(** The order a commit replays. *)
Definition commit_order (ps : list (Z * Txn)) : list (@Item SchemaEvent ConfigEvent) :=
  merge_order (map (fun p => sort_by fst (t_events p.2)) ps) (map (fun p => t_entries p.2) ps).

Lemma queues_sorted (qs : list (list (Z * DrainEntry))) ess : Forall in_order ess -> all_sorted (lists (map (sort_by fst) qs) ess).
Proof.
  intros HF. apply Forall_elem. intros l. unfold lists. rewrite elem_of_app. intros [Hl|Hl].
  - apply list_elem_of_In, in_rev, list_elem_of_In, list_elem_of_fmap in Hl as (q & -> & (q' & -> & _)%list_elem_of_fmap).
    eapply sorted_map; [|apply sort_by_sorted]. done.
  - apply list_elem_of_fmap in Hl as (es & -> & Hes). eapply sorted_map; [|exact (proj1 (Forall_elem _ _) HF es Hes)]. done.
Qed.

(** A transaction in the buffer and in the specification. *)
Definition matches (a : Z * XactState) (p : Z * Txn) : Prop :=
  a.1 = p.1 /\ view a.2 = tview p.2 /\ state_ok a.1 a.2 (t_entries p.2) /\ arrives (t_entries p.2).

Lemma committed_matches ops lsn xids : legal blank ops -> arrives (omap absorbed ops) ->
  Forall2 (fun st p => exists x, matches (x, st) p /\ x ∈ xids) (take_states (run ops) lsn xids).2 (committed (spec_run ops) lsn xids).
Proof.
  intros Hl Ha. pose proof (refines_run ops Hl) as HR. destruct (inv_take (run ops) _ lsn xids (rf_inv _ _ HR)) as [_ ->]. unfold committed.
  rewrite (rf_floor _ _ HR). destruct (lsn <? floor (spec_run ops)); [constructor|].
  pose proof (taken_picked xids _ _ (rf_view _ _ HR)) as HF. rewrite <-(map_id (picked _ _)). apply Forall2_fmap.
  assert (forall a, a ∈ taken (inflight (run ops)) xids -> a.1 ∈ xids) as Hx by (intros [x st] Hin; by apply taken_elem in Hin as [? _]).
  revert Hx. induction HF as [|a p l ps (E1 & E2 & E3 & E4) HF IH]; intros Hx; constructor; [|apply IH; set_solver]. exists a.1. split; [|apply Hx; set_solver].
  split; [done|]. split; [done|]. split; [|eapply sublist_arrives; [by eapply spec_entries|done]].
  refine (inv_state _ _ (rf_inv _ _ HR) _ _ _ E3 _). by rewrite lookup_fmap, E1, E4.
Qed.

Definition commit_env (sr : StashResolved) (r : gmap RelFileNode StashOutcome) (xids : list Z) (collect : bool) : Env :=
  MkEnv (ToastRef.MkLimits collect (toast_body_mem_max cfg) (toast_index_mem_max cfg)) r xids (res_top_xid sr).

Local Notation CommittedDrain := (@CommittedDrain SchemaEvent ConfigEvent).
Local Notation DrainedBatch := (@DrainedBatch SchemaEvent ConfigEvent).

(** Pulling [d] dry gives the run [r], whatever the slice budgets. *)
Definition delivers (d : CommittedDrain) (r : @Run SchemaEvent ConfigEvent) : Prop :=
  forall R B, exists n, forall fuel, (n < fuel)%nat -> match r with
  | (t, Err e) => pull fuel R B d = Some (Err e)
  | (t, Ok f) => exists bs, pull fuel R B d = Some (Ok bs) /\ concat (map new_rows bs) = ToastRef.rows f /\ batches_trace 0 bs = Some (map (pin 0) t)
  end.

Lemma delivers_merged (d : CommittedDrain) m ls : merged d = Some (Merged m) -> drains m ls -> ToastRef.rows (folded m) = [] -> delivers d (rest m ls).
Proof.
  intros Hm Hd Hr R B. exists (length (rest m ls).1 + 1)%nat. intros fuel Hf. pose proof (pull_spec R B fuel m ls d 1 Hm Hd Hr (or_introl eq_refl) Hf) as Hp.
  destruct (rest m ls) as [t [f|e]]; cbn [fst snd] in Hp; [|done]. destruct Hp as (bs & ? & ? & Ht). exists bs. by rewrite (Ht 0).
Qed.

(** Stopping at the slice marked final pulls as much. *)
Definition final_is_last (d : CommittedDrain) : Prop :=
  forall R B, exists n, forall fuel, (n < fuel)%nat -> pull_final fuel R B d = pull fuel R B d.

(** The drain opened on several sources. *)
Lemma open_drain_spec states ps sr r xids collect : Forall2 (fun st p => exists x, matches (x, st) p /\ x ∈ xids) states ps ->
  exists m, open_drain reads cfg states collect r (res_top_xid sr) xids = Ok m /\ drains m (map (fun p => t_entries p.2) ps) /\
    rest m (map (fun p => t_entries p.2) ps) = replay (commit_env sr r xids collect) ToastRef.nothing (commit_order ps) /\
    ToastRef.rows (folded m) = [] /\ pending_heaps m = [] /\ env m = commit_env sr r xids collect.
Proof.
  intros HF. assert (Forall2 state_holds states (map (fun p => t_entries p.2) ps)) as Hs.
  { rewrite <-(map_id states). apply Forall2_fmap. eapply Forall2_impl; [|exact HF]. intros st p (x & (_ & _ & [So _ _ _ _] & Ha) & _). done. }
  destruct (open_sources_spec _ _ Hs) as (ss & Ho & Hss). unfold open_drain. rewrite Ho. eexists. split; [done|].
  assert (map (fun st : XactState => sort_by fst (events st)) states = map (sort_by fst) (map (fun p => t_events p.2) ps)) as Eq.
  { rewrite map_map. clear -HF. induction HF as [|st p states ps (x & (_ & Hv & _) & _) HF IH]; [done|]. cbn [map]. rewrite IH. f_equal. f_equal.
    unfold view, tview in Hv. cbn in Hv. congruence. }
  rewrite Eq. split; [|split; [unfold rest, commit_order; cbn [pending_heaps replay_heaps queues folded]; by rewrite map_map|done]].
  split; [done|]. apply queues_sorted. apply Forall_elem. intros es (p & -> & Hp)%list_elem_of_fmap.
  apply list_elem_of_lookup in Hp as [i Hi]. destruct (Forall2_lookup_r _ _ _ _ _ HF Hi) as (st & _ & x & (_ & _ & _ & []) & _). done.
Qed.

Lemma replay_plain E es x : forallb plain_entry es = true -> (forall h, EHeap h ∈ es -> xid (decoded h) = x) -> x ∈ e_allowed E -> forall f,
  replay (SchemaEvent := SchemaEvent) (ConfigEvent := ConfigEvent) E f (map IEntry es) = (map (fun h => (MHeap h, zlen (ToastRef.rows f))) (omap heap_of es), Ok f).
Proof.
  intros Hp Hx Hal f. induction es as [|e es IH]; [done|]. cbn [forallb] in Hp. apply andb_true_iff in Hp as [He Hp]. destruct e as [h|c|d|raw]; try done.
  cbn [map replay effect replay_heaps]. unfold owned. rewrite bool_decide_true by (rewrite (Hx h ltac:(set_solver)); done). rewrite IH; [done|done|set_solver].
Qed.

Definition plain_trace (hs : list DescribedHeap) : list (@Step SchemaEvent ConfigEvent) := map (fun h => (MHeap h, 0)) hs.

Lemma plain_walk hs : Forall (fun h => is_truncate h = false) hs ->
  heaps_of (plain_trace hs) = hs /\ truncs_of (plain_trace hs) = [] /\ rising 0 (plain_trace hs) /\ forall i, events_of i (plain_trace hs) = [].
Proof.
  induction 1 as [|h hs Hh HF (E1 & E2 & E3 & E4)]; [split; [done|]; split; [done|]; split; [exact (rising_nil _)|done]|].
  unfold heaps_of, truncs_of, plain_trace in *. cbn [map omap list_omap fst snd]. rewrite E1, E2, Hh. split; [done|]. split; [done|].
  split; [by apply rising_cons|]. intros i. apply E4.
Qed.

Lemma plain_batch hs : Forall (fun h => is_truncate h = false) hs ->
  batches_trace 0 [MkBatchOut hs [] [] [] None [] true] = Some (map (pin 0) (plain_trace hs)).
Proof.
  intros HF. destruct (plain_walk hs HF) as (E1 & E2 & E3 & E4). cbn [batches_trace]. unfold into_walk. cbn [heaps ordered_events truncate_rows new_rows].
  pose proof (walk_steps (plain_trace hs) 0) as Hw. rewrite E1, E2, E4 in Hw. rewrite Hw. cbn [mbind option_bind]. rewrite app_nil_r.
  f_equal. apply walk_trace_of; [done|by repeat constructor].
Qed.

(** The lone in-memory transaction. *)
Lemma fits_delivers states ps sr r xids collect ts lsn hs : Forall2 (fun st p => exists x, matches (x, st) p /\ x ∈ xids) states ps ->
  fits_one_slice cfg states = Some hs -> final_is_last (MkCommittedDrain ts lsn (Some (Heaps hs)) []) /\
  delivers (MkCommittedDrain ts lsn (Some (Heaps hs)) []) (replay (commit_env sr r xids collect) ToastRef.nothing (commit_order ps)).
Proof.
  intros HF Hfit. split; [intros R B; exists 1%nat; intros [|[|fuel]] Hf; [lia|lia|]; by destruct hs|]. unfold fits_one_slice in Hfit. destruct HF as [|st p states ps (x & (_ & Hv & [So _ _ Hpl How] & Ha) & Hx) HF]; [done|].
  destruct HF; [|done]. destruct (plain st && _ && _ && _ && _) eqn:Ec; [|done]. rewrite !andb_true_iff in Ec. destruct Ec as ((((Ep & Es) & Ee) & _) & _).
  injection Hfit as <-. cbn [fst snd] in *. rewrite Ep in Hpl. symmetry in Hpl. destruct So as (bs & Hbs & Hc).
  destruct (spill st) as [w|]; [done|]. cbn in Hbs. subst bs. cbn [concat app] in Hc. rewrite Hc. apply bool_decide_eq_true, nil_length_inv in Ee.
  assert (t_events p.2 = []) as Et by (unfold view, tview in Hv; congruence).
  assert (commit_order [p] = map IEntry (t_entries p.2)) as ->.
  { unfold commit_order, merge_order, lists. cbn. rewrite Et. cbn. rewrite app_nil_r. apply sort_by_sorted_id. eapply sorted_map; [|exact (ar_order _ Ha)]. done. }
  rewrite (replay_plain _ _ x) by done. set (hs := omap heap_of (t_entries p.2)). change (zlen (ToastRef.rows ToastRef.nothing)) with 0.
  assert (Forall (fun h => is_truncate h = false) hs) as Hnt.
  { apply Forall_elem. intros h (e & He & Eh)%list_elem_of_omap. rewrite forallb_forall in Hpl. apply list_elem_of_In in He. specialize (Hpl e He).
    destruct e as [h'|c|d|raw]; try done. injection Eh as ->. unfold is_truncate. cbn in Hpl. by destruct (op (decoded h)). }
  intros R B. exists 1%nat. intros [|[|fuel]] Hf; [lia|lia|]. cbn [pull next_batch merged]. destruct hs as [|h hs'] eqn:Ehs; [by exists []|].
  eexists. split; [done|]. split; [done|]. by apply plain_batch.
Qed.

(** C21: After any run of operations the buffer is within its memory budget, its
    gauges are exact, and it holds for every open transaction, spilled batches
    first and the rest in memory, exactly the entries, events, marks and first
    position the transaction was given since it opened; transactions that
    committed or aborted are gone. *)
Theorem buffer_accounts ops : legal blank ops ->
  let b := run ops in let s := spec_run ops in
  bytes_in_memory b <= xact_buffer_max cfg /\ bytes_in_memory b = msum in_mem_bytes (inflight b) /\
  st_bytes_in_memory (stats b) = bytes_in_memory b /\ xacts_active (stats b) = Z.of_nat (size (open s)) /\
  spill_xacts_active (stats b) = msum spilled_one (inflight b) /\ spill_bytes_active (stats b) = msum spilled_bytes (inflight b) /\
  forall x, match open s !! x with
    | None => inflight b !! x = None
    | Some t => exists st bs, inflight b !! x = Some st /\ first_lsn st = t_first t /\ events st = t_events t /\ stash_rfns st = t_stash t /\
        in_mem_bytes st = sizes (in_mem st) /\ holds (spill st) bs /\ concat bs ++ in_mem st = t_entries t
    end.
Proof.
  intros Hl. cbv zeta. pose proof (refines_run ops Hl) as [HI R2 R3 _ _ _ _]. split; [done|]. split; [apply HI|]. split; [apply HI|].
  split; [|split; [apply HI|]; split; [apply HI|]].
  - rewrite (inv_active _ _ HI), <-!size_dom. do 2 f_equal. apply set_eq. intros x. rewrite !elem_of_dom. specialize (R3 x).
    destruct (inflight (run ops) !! x), (open (spec_run ops) !! x); done.
  - intros x. specialize (R3 x). destruct (open (spec_run ops) !! x) as [t|] eqn:Ht, (inflight (run ops) !! x) as [st|] eqn:Hx; try done.
    destruct (inv_state _ _ HI x st (t_entries t) Hx ltac:(by rewrite lookup_fmap, Ht)) as [(bs & Hb & Hc) S2 _ _ _]. exists st, bs.
    cbn in R3. unfold view, tview in R3. injection R3 as E1 E2 E3. done.
Qed.

(** C22: The position a restart may resume from is exactly the least of the
    acknowledged position, the first positions of the transactions still open
    and the first positions of the transactions committed after the
    acknowledged position: nothing undurable lies below it, and nothing durable
    holds it back. *)
Theorem resume_safe_exact ops ack : legal blank (ops ++ [OResume ack]) ->
  (resume_safe_lsn (run ops) ack).2 = fold_left Z.min (undurable (spec_run ops) ack) ack.
Proof.
  intros Hl. assert (forall s, legal s (ops ++ [OResume ack]) -> legal s ops /\ acked (fold_left spec_op ops s) <= ack) as Hsplit.
  { clear. induction ops as [|o ops IH]; intros s; cbn [app legal fold_left]; [by intros [? _]|]. intros [Ho Hl]. by destruct (IH _ Hl). }
  destruct (Hsplit _ Hl) as [Hl' Hack]. by apply resume_exact; [apply refines_run|].
Qed.

(** The drain of a commit, opened. *)
Lemma commit_opens ops sr r ts lsn subs collect (xids := res_top_xid sr :: subs) (E := commit_env sr r xids collect) :
  legal blank ops -> arrives (omap absorbed ops) -> res sr = Some r ->
  exists d, (drain_committed reads cfg (run ops) sr ts lsn subs collect).2 = Ok d /\
    delivers d (replay E ToastRef.nothing (commit_order (committed (spec_run ops) lsn xids))) /\
    ((forall e, e ∈ omap absorbed ops -> single E e) -> final_is_last d).
Proof.
  intros Hl Ha Hr. pose proof (committed_matches ops lsn xids Hl Ha) as HF.
  assert (forall p e, p ∈ committed (spec_run ops) lsn xids -> e ∈ t_entries p.2 -> e ∈ omap absorbed ops) as Hsub.
  { intros [x t] e Hp He. unfold committed in Hp. destruct (lsn <? _); [by apply not_elem_of_nil in Hp|].
    pose proof (taken_picked xids _ _ (rf_view _ _ (refines_run ops Hl))) as HT. apply list_elem_of_lookup in Hp as [i Hi].
    destruct (Forall2_lookup_r _ _ _ _ _ HT Hi) as (a & _ & _ & _ & _ & Ht). eapply sublist_subseteq; [by eapply spec_entries|done]. }
  unfold drain_committed. fold xids. destruct (take_states (run ops) lsn xids) as [b states]. cbn [snd] in HF. rewrite Hr. destruct states as [|st states].
  { inversion HF; subst. eexists. split; [done|]. split; [intros R B; exists 0%nat; intros [|fuel] Hf; [lia|]; by exists []|].
    intros _ R B. exists 0%nat. by intros [|fuel] Hf; [lia|]. }
  destruct (fits_one_slice cfg (st :: states)) as [hs|] eqn:Ef.
  - eexists. split; [done|]. destruct (fits_delivers _ _ sr r xids collect ts lsn hs HF Ef). done.
  - destruct (open_drain_spec _ _ sr r xids collect HF) as (m & -> & Hd & Hrest & Hrows & Hp & He). eexists. split; [done|]. unfold E. rewrite <-Hrest.
    split; [by apply delivers_merged|]. intros Hsg R B.
    exists (length (rest m (map (fun p => t_entries p.2) (committed (spec_run ops) lsn xids))).1 + 1)%nat. intros fuel Hf.
    eapply pull_final_spec; [done|exact Hd|done| |done|lia].
    split; [rewrite Hp; cbn; lia|]. intros e (es & Hin & Hes)%list_elem_of_In%in_concat. rewrite He.
    apply list_elem_of_In, list_elem_of_fmap in Hin as (p & -> & Hin). apply list_elem_of_In in Hes. apply Hsg. by eapply Hsub.
Qed.

(** C3: A commit drains, whatever was spilled and however small the slices, the
    replay of its transactions' entries and events merged by WAL position:
    pulling slices until none is left gives the same heaps and events in the
    same order, each control event and truncate pinned behind the same number of
    TOAST mirror rows, and the same mirror rows; if the replay stops at an error
    the pull stops at that error.  It always ends. *)
Theorem commit_drains_history ops sr r ts lsn subs collect (xids := res_top_xid sr :: subs) :
  legal blank ops -> arrives (omap absorbed ops) -> res sr = Some r ->
  exists d, (drain_committed reads cfg (run ops) sr ts lsn subs collect).2 = Ok d /\
    delivers d (replay (commit_env sr r xids collect) ToastRef.nothing (commit_order (committed (spec_run ops) lsn xids))).
Proof. intros Hl Ha Hr. destruct (commit_opens ops sr r ts lsn subs collect Hl Ha Hr) as (d & ? & ? & _). by exists d. Qed.

(** A commit none of whose records fans out to more than one row may be
    pulled only up to the first slice marked final: nothing comes after it. *)
Theorem final_slice_is_last ops sr r ts lsn subs collect (xids := res_top_xid sr :: subs) :
  legal blank ops -> arrives (omap absorbed ops) -> res sr = Some r ->
  (forall e, e ∈ omap absorbed ops -> single (commit_env sr r xids collect) e) ->
  exists d, (drain_committed reads cfg (run ops) sr ts lsn subs collect).2 = Ok d /\ final_is_last d.
Proof. intros Hl Ha Hr Hs. destruct (commit_opens ops sr r ts lsn subs collect Hl Ha Hr) as (d & ? & _ & Hf). exists d. auto. Qed.

End History.

(** ** A transaction with a subtransaction, a stashed multi-insert and a drop *)
Section Demo.
#[local] Instance demo_layout : Layout.
Proof. refine (MkLayout 64 64 32 32 32 64 64 (fun _ => 0) _ _); lia. Defined.
#[local] Instance demo_codecs : Decompress := MkDecompress (fun _ _ => None) (fun _ _ => None).
#[local] Instance demo_floats : FloatText := MkFloatText (fun _ => None) (fun _ => None).
#[local] Instance demo_pages : Fpi.Codecs := Fpi.MkCodecs (fun _ _ => None) (fun _ _ => false) (fun _ _ => None) (fun _ _ => Ok []) (fun _ _ => Ok []).

(** Every entry spills at once. *)
Definition demo_cfg : XactBufferConfig := MkConfig 0 1024 4096 2 4096.

Definition demo_reads (bytes : list Z) : list (list Z) := match bytes with [] => [] | _ => [bytes] end.

Lemma demo_reads_all bytes : concat (demo_reads bytes) = bytes.
Proof. destruct bytes as [|b bytes]; [done|]. cbn. by rewrite app_nil_r. Qed.

Lemma demo_reads_some bytes : Forall (fun c => 0 < zlen c) (demo_reads bytes).
Proof. destruct bytes as [|b bytes]; constructor; [|constructor]. rewrite zlen_cons. pose proof (zlen_nonneg bytes). lia. Qed.

Definition demo_heap (x lsn : Z) : DescribedHeap :=
  MkDescribed (MkHeap (drfn item_rel) x lsn Insert (Some (MkTuple [Some (Int4 lsn)] false)) None) item_rel 9.

(** A multi-insert of the rows 5 and 6. *)
Definition demo_raw : RawRecord :=
  MkRaw 700 RM_HEAP2 XLOG_HEAP2_MULTI_INSERT 20 0xD116 [8; 0; 2; 0; 1; 0; 2; 0]
    [MkRawBlock 0 32 22 0 0 0 0 (drfn item_rel) 0 [] [4; 0; 1; 0; 0; 8; 23; 5; 0; 0; 0; 0; 4; 0; 1; 0; 0; 8; 23; 6; 0; 0; 0]].

Definition demo_ops : list (@Op unit unit) :=
  [OHeap (demo_heap 700 10); OHeap (demo_heap 701 15); OEvent 701 18 (Catalog tt); ORaw 700 demo_raw; OHeap (demo_heap 900 25)].

Definition demo_verdict : StashResolved := MkResolved 700 (Some {[ drfn item_rel := OOrdinary item_rel 9 [] [] ]}).

Definition demo_drain := (drain_committed demo_reads demo_cfg (run demo_cfg map_to_list demo_reads demo_ops) demo_verdict 77 30 [701] false).2.

Definition row_of (x : @MergeItem unit unit) : option Z :=
  match x with MHeap h => match HeapDecode.new (decoded h) with Some t => match columns t with Some (Int4 n) :: _ => Some n | _ => None end | None => None end | MEvent _ => None end.

Lemma demo_legal : legal blank demo_ops.
Proof. by repeat split. Qed.

Lemma demo_arrives : arrives (omap absorbed demo_ops).
Proof.
  assert (forall x lsn, fits 32 x -> fits 64 lsn -> -(2 ^ 31) <= lsn < 2 ^ 31 -> heap_ok (decoded (demo_heap x lsn))) as Hh.
  { intros x lsn Hx Hl Hi. split; [small|]. split; [done|]. split; [done|]. split; [|exact I]. split; [small|]. constructor; [exact Hi|constructor]. }
  assert (forall x lsn, x = 700 /\ lsn = 10 \/ x = 701 /\ lsn = 15 \/ x = 900 /\ lsn = 25 -> entry_ok (EHeap (demo_heap x lsn))) as He.
  { intros x lsn [[-> ->]|[[-> ->]|[-> ->]]]; (split; [apply Hh; small|]; split; [exact item_rel_ok|]; small). }
  change (omap absorbed demo_ops) with [EHeap (demo_heap 700 10); EHeap (demo_heap 701 15); ERaw demo_raw; EHeap (demo_heap 900 25)]. split.
  - by repeat constructor.
  - constructor; [apply He; auto|]. constructor; [apply He; auto|]. constructor; [|constructor; [apply He; auto|constructor]].
    split; [|small]. do 7 (split; [small|]). constructor; [small|constructor].
  - intros h h' Hh1 Hh2 _. assert (forall g, EHeap g ∈ [EHeap (demo_heap 700 10); EHeap (demo_heap 701 15); ERaw demo_raw; EHeap (demo_heap 900 25)] -> descriptor g = item_rel) as Hg.
    { intros g. rewrite !elem_of_cons. intros [[= ->]|[[= ->]|[?|[[= ->]|?%not_elem_of_nil]]]]; done. }
    by rewrite (Hg h Hh1), (Hg h' Hh2).
  - done.
Qed.

Definition demo_outcomes : gmap RelFileNode StashOutcome := {[ drfn item_rel := OOrdinary item_rel 9 [] [] ]}.

Definition demo_run : @Run unit unit :=
  replay (commit_env demo_cfg demo_verdict demo_outcomes [700; 701] false) ToastRef.nothing (commit_order (committed (spec_run demo_ops) 30 [700; 701])).

(** The rows and the event come out in WAL order, the fan-out of the stashed
    multi-insert after the event of the subtransaction. *)
Lemma commit_drains_history_witness : exists d fuel bs, demo_drain = Ok d /\ pull fuel 1 4096 d = Some (Ok bs) /\
  (map (fun x => (row_of x.1, x.2)) <$> batches_trace 0 bs) = Some [(Some 10, None); (Some 15, None); (None, Some 0); (Some 5, None); (Some 6, None)].
Proof.
  destruct (commit_drains_history demo_cfg map_to_list demo_reads (fun m => reflexivity _) ltac:(done) demo_reads_all demo_reads_some
    demo_ops demo_verdict demo_outcomes 77 30 [701] false demo_legal demo_arrives eq_refl) as (d & Hd & Hdel).
  assert (delivers d demo_run) as Hdel' by exact Hdel. clear Hdel. destruct (Hdel' 1 4096) as [n Hn]. specialize (Hn (S n) (Nat.lt_succ_diag_r n)).
  assert (match demo_run.2 with Ok _ => true | Err _ => false end = true) as Hok by (vm_compute; reflexivity).
  assert (map (fun x => (row_of x.1, x.2)) (map (pin 0) demo_run.1) = [(Some 10, None); (Some 15, None); (None, Some 0); (Some 5, None); (Some 6, None)]) as Ht
    by (vm_compute; reflexivity).
  destruct demo_run as [t [f|e]]; [|done]. destruct Hn as (bs & Hp & _ & Htr). exists d, (S n), bs. split; [exact Hd|]. split; [exact Hp|]. rewrite Htr. cbn. by f_equal.
Defined.

(** What the slices of a pull hold: the rows, the number of events, and whether
    the slice is marked final. *)
Definition slices (p : option (result XactBufferError (list (@DrainedBatch unit unit)))) : option (list (list (option Z) * nat * bool)) :=
  match p with
  | Some (Ok bs) => Some (map (fun b => (map (fun h => row_of (MHeap h)) (heaps b), length (ordered_events b), is_final b)) bs)
  | _ => None
  end.

Definition demo_slices (final : bool) : option (list (list (option Z) * nat * bool)) :=
  match demo_drain with Ok d => slices (if final then pull_final 10 1 4096 d else pull 10 1 4096 d) | Err _ => None end.


(** Transaction 900 is open, 700 committed at 30 after starting at 10. *)
Definition demo_committed : list (@Op unit unit) := demo_ops ++ [OCommit demo_verdict 77 30 [701] false].

Lemma demo_committed_legal ack : 0 <= ack -> legal blank (demo_committed ++ [OResume ack]).
Proof. intros Ha. by repeat split. Qed.

Lemma resume_safe_exact_witness : (resume_safe_lsn (run demo_cfg map_to_list demo_reads demo_committed) 29).2 = 10 /\
  (resume_safe_lsn (run demo_cfg map_to_list demo_reads demo_committed) 30).2 = 25.
Proof.
  pose proof (resume_safe_exact demo_cfg map_to_list demo_reads (fun m => reflexivity _) ltac:(done) demo_committed) as Hx.
  rewrite (Hx 29), (Hx 30) by (apply demo_committed_legal; lia). split; vm_compute; reflexivity.
Defined.

Lemma buffer_accounts_witness : let b := run demo_cfg map_to_list demo_reads demo_committed in
  bytes_in_memory b <= 0 /\ xacts_active (stats b) = 1 /\ inflight b !! 700 = None /\ exists st, inflight b !! 900 = Some st /\ first_lsn st = 25.
Proof.
  destruct (buffer_accounts demo_cfg map_to_list demo_reads (fun m => reflexivity _) ltac:(done) demo_committed ltac:(by repeat split)) as (H1 & _ & _ & H4 & _ & _ & H7).
  split; [exact H1|]. split; [rewrite H4; vm_compute; reflexivity|]. pose proof (H7 700) as H700. pose proof (H7 900) as H900.
  assert ((t_first <$> open (spec_run demo_committed) !! 700, t_first <$> open (spec_run demo_committed) !! 900) = (None, Some 25)) as E by (vm_compute; reflexivity).
  destruct (open (spec_run demo_committed) !! 700); [done|]. destruct (open (spec_run demo_committed) !! 900) as [t|]; [|done]. injection E as E.
  split; [exact H700|]. destruct H900 as (st & bs & E1 & E2 & _). exists st. split; [exact E1|]. congruence.
Defined.

(** Without the multi-insert, the slice marked final is the last. *)
Definition demo_plain : list (@Op unit unit) := [OHeap (demo_heap 700 10); OHeap (demo_heap 701 15)].

Lemma final_slice_is_last_witness : exists d, (drain_committed demo_reads demo_cfg (run demo_cfg map_to_list demo_reads demo_plain) demo_verdict 77 30 [701] false).2 = Ok d /\
  final_is_last d.
Proof.
  apply (final_slice_is_last demo_cfg map_to_list demo_reads (fun m => reflexivity _) ltac:(done) demo_reads_all demo_reads_some demo_plain demo_verdict demo_outcomes).
  - by repeat split.
  - apply (sublist_arrives (omap absorbed demo_ops)); [|exact demo_arrives].
    change (omap absorbed demo_ops) with (omap absorbed demo_plain ++ [ERaw demo_raw; EHeap (demo_heap 900 25)]). by apply sublist_inserts_r.
  - done.
  - change (omap absorbed demo_plain) with [EHeap (demo_heap 700 10); EHeap (demo_heap 701 15)]. intros e He f f' hs Heff. rewrite !elem_of_cons in He.
    destruct He as [->|[->|?%not_elem_of_nil]]; try done; injection Heff as <- <-; cbn; lia.
Defined.

End Demo.
End XactHistory.
