(* ===== verification/ChunkStore.v ===== *)
(** * The TOAST chunk store ([src/toast/resolver.rs])

    Mirrors of TOAST relations as rows keyed by tuple position and record
    position: births, and tombstones with value 0.  [MemChunkStore] answers
    fetches as of a position; the rewrite barrier retires what a rewritten
    generation did not carry over.  [ChunkStore] is what the resolver relies on
    of any store. *)
From S2P Require Import Prelude WalRecord AsciiBuf Numeric HeapDecode Wire DescCodec Spill.
Import WalRecord Schema HeapDecode Spill.

(** ** Outcomes of a fetch *)
Inductive FetchedValue :=
| Missing
| Mismatch (got : Z)
| Assembled (b : list Z)
| Generation.

Inductive ChunkStoreError :=
| MissingMirror (db_oid toast_relid : Z)
| Clickhouse (seq next_seq : Z)
| Shadow (db_oid : Z)
| StoreIo.

(** What [ToastResolver] relies on of a store: a batch of distinct values is
    answered in order, each value on its own. *)
Class ChunkStore := MkStore
  { fetch_many : Z -> Z -> list (Z * Z) -> Z -> result ChunkStoreError (list FetchedValue);
    fetch_one : Z -> Z -> Z * Z -> Z -> FetchedValue;
    fetch_aligned : forall db relid values bound got, NoDup (map fst values) -> fetch_many db relid values bound = Ok got ->
      got = map (fun v => fetch_one db relid v bound) values }.

Module MemStore.

Record StoreRow := MkRow
  { db_oid : Z; toast_relid : Z; blkno : Z; offnum : Z; chunk_id : Z; chunk_seq : Z; chunk_data : list Z; lsn : Z }.

Definition tid (r : StoreRow) : Z * Z := (blkno r, offnum r).

Definition is_tombstone (r : StoreRow) : bool := chunk_id r =? 0.

Definition tombstone (db relid b o at_lsn : Z) : StoreRow := MkRow db relid b o 0 0 [] at_lsn.

(** ** Assembling a value *)
Record ChunkAssembler := MkAsm { expected : Z; next_seq : Z; gapped : bool; got : Z; buf : list Z }.

Definition new (e : Z) : ChunkAssembler := MkAsm e 0 false 0 [].

Definition push (a : ChunkAssembler) (seq : Z) (body : list Z) : result ChunkStoreError ChunkAssembler :=
  if seq <? next_seq a then Err (Clickhouse seq (usub 32 (next_seq a) 1))
  else
    let gap := gapped a || (next_seq a <? seq) in
    let g := got a + zlen body in
    Ok (MkAsm (expected a) (uadd 32 seq 1) gap g (if negb gap && (g <=? expected a) then buf a ++ body else buf a)).

Definition finish (a : ChunkAssembler) : FetchedValue :=
  if next_seq a =? 0 then Missing
  else if gapped a || negb (got a =? expected a) then Mismatch (got a)
  else Assembled (buf a).

(** ** The store *)
Notation Mirrors := (gmap (Z * Z) (list StoreRow)).

Definition put (m : Mirrors) (rows : list StoreRow) : Mirrors :=
  fold_left (fun m r => <[(db_oid r, toast_relid r) := default [] (m !! (db_oid r, toast_relid r)) ++ [r]]> m) rows m.

Definition truncate_mirror (m : Mirrors) (db relid : Z) : Mirrors :=
  match m !! (db, relid) with Some _ => <[(db, relid) := []]> m | None => m end.

(** The row of each tuple position with the greatest record position. *)
Definition note_latest (m : gmap (Z * Z) StoreRow) (r : StoreRow) : gmap (Z * Z) StoreRow :=
  match m !! tid r with
  | Some e => if lsn e <=? lsn r then <[tid r := r]> m else m
  | None => <[tid r := r]> m
  end.

Definition latest (rows : list StoreRow) (max_lsn : Z) : gmap (Z * Z) StoreRow :=
  fold_left note_latest (filter (fun r => lsn r <= max_lsn) rows) ∅.

Section Fetch.
(** [HashMap] iteration. *)
Context (iter : gmap (Z * Z) StoreRow -> list ((Z * Z) * StoreRow)).

Definition note_newest (wanted : list Z) (n : gmap Z (list (Z * (Z * list Z)))) (r : StoreRow) : gmap Z (list (Z * (Z * list Z))) :=
  if is_tombstone r || negb (bool_decide (chunk_id r ∈ wanted)) then n
  else
    let t := default [] (n !! chunk_id r) in
    let keep := match btree_get (chunk_seq r) t with Some e => negb (e.1 <=? lsn r) | None => false end in
    <[chunk_id r := if keep then t else btree_insert (chunk_seq r) (lsn r, chunk_data r) t]> n.

Fixpoint assemble (a : ChunkAssembler) (l : list (Z * (Z * list Z))) : result ChunkStoreError FetchedValue :=
  match l with
  | [] => Ok (finish a)
  | (seq, (_, body)) :: l => let? a := push a seq body in assemble a l
  end.

Fixpoint fetch_all (n : gmap Z (list (Z * (Z * list Z)))) (values : list (Z * Z)) : result ChunkStoreError (list FetchedValue) :=
  match values with
  | [] => Ok []
  | (id, size) :: values =>
      let? v := assemble (new size) (default [] (n !! id)) in
      let? r := fetch_all n values in
      Ok (v :: r)
  end.

Definition fetch_many (m : Mirrors) (db relid : Z) (values : list (Z * Z)) (max_lsn : Z) : result ChunkStoreError (list FetchedValue) :=
  match m !! (db, relid) with
  | None => Err (MissingMirror db relid)
  | Some rows => fetch_all (fold_left (note_newest (map fst values)) (map snd (iter (latest rows max_lsn))) ∅) values
  end.

(** Tombstones at [commit_lsn] for what lived at [marker_lsn] and has no row
    past it. *)
Definition past_marker (rows : list StoreRow) (marker_lsn : Z) : list (Z * Z) := map tid (filter (fun r => marker_lsn < lsn r) rows).

Definition residual (db relid marker_lsn commit_lsn : Z) (rows : list StoreRow) : list StoreRow :=
  omap (fun tr => if is_tombstone tr.2 || bool_decide (tr.1 ∈ past_marker rows marker_lsn) then None
                  else Some (tombstone db relid tr.1.1 tr.1.2 commit_lsn))
    (iter (latest rows marker_lsn)).

Definition rewrite_barrier (m : Mirrors) (db relid marker_lsn commit_lsn : Z) : Mirrors :=
  match m !! (db, relid) with
  | None => m
  | Some rows => <[(db, relid) := rows ++ residual db relid marker_lsn commit_lsn rows]> m
  end.

End Fetch.

End MemStore.
