(* ===== verification/ChunkStoreProofs.v ===== *)
(** * What the chunk store answers

    A fetch as of a position assembles a value from the rows that are current
    and not tombstones at that position: in full when its chunks are dense and
    add up to the pointer's size, [Missing] when it has none, [Mismatch]
    otherwise.  Rows put twice change nothing.  The rewrite barrier hides, from
    its commit on, exactly what lived at the marker and was not written again. *)
From S2P Require Import Prelude WalRecord AsciiBuf Numeric HeapDecode Wire DescCodec Spill ChunkStore.
Import WalRecord Schema HeapDecode Spill MemStore.

Module ChunkStoreProofs.

(** ** Sorted lists *)
Lemma sorted_lt_ext (a b : list Z) : StronglySorted Z.lt a -> StronglySorted Z.lt b -> (forall x, x ∈ a <-> x ∈ b) -> a = b.
Proof.
  intros Ha. revert b. induction Ha as [|x a Ha IH HF]; intros b Hb Hx.
  - destruct b as [|y b]; [done|]. exfalso. apply (not_elem_of_nil y), Hx. set_solver.
  - destruct Hb as [|y b Hb HG]; [exfalso; apply (not_elem_of_nil x), Hx; set_solver|].
    pose proof (proj1 (Forall_elem _ _) HF) as HF'. pose proof (proj1 (Forall_elem _ _) HG) as HG'. cbn in HF', HG'.
    assert (x = y) as <-.
    { pose proof (proj1 (Hx x) ltac:(set_solver)) as H1. pose proof (proj2 (Hx y) ltac:(set_solver)) as H2. rewrite elem_of_cons in H1, H2.
      destruct H1 as [|H1%HG']; [done|]. destruct H2 as [|H2%HF']; [done|]. lia. }
    f_equal. apply IH; [done|]. intros z. specialize (Hx z). rewrite !elem_of_cons in Hx. split; intros Hz.
    + destruct (proj1 Hx (or_intror Hz)) as [->|]; [|done]. apply HF' in Hz. lia.
    + destruct (proj2 Hx (or_intror Hz)) as [->|]; [|done]. apply HG' in Hz. lia.
Qed.

Lemma seqZ_sorted n : forall m, StronglySorted Z.lt (seqZ m (Z.of_nat n)).
Proof.
  induction n as [|n IH]; intros m; [constructor|]. rewrite seqZ_cons by lia. replace (Z.pred (Z.of_nat (S n))) with (Z.of_nat n) by lia. constructor; [done|].
  apply Forall_elem. intros x Hx%elem_of_seqZ. lia.
Qed.

(** ** Assembling *)
Fixpoint dense (next : Z) (l : list (Z * (Z * list Z))) : bool := match l with [] => true | (s, _) :: l => (s =? next) && dense (next + 1) l end.

Definition bodies (l : list (Z * (Z * list Z))) : list (list Z) := map (fun e => e.2.2) l.

Definition outcome (a : ChunkAssembler) (l : list (Z * (Z * list Z))) : FetchedValue :=
  if (next_seq a =? 0) && bool_decide (length l = 0%nat) then Missing
  else if gapped a || negb (dense (next_seq a) l) || negb (got a + zlen (concat (bodies l)) =? expected a) then Mismatch (got a + zlen (concat (bodies l)))
  else Assembled (buf a ++ concat (bodies l)).

Lemma assemble_outcome l : forall a, StronglySorted Z.lt (map fst l) -> (forall s, s ∈ map fst l -> next_seq a <= s < 2 ^ 32 - 1) -> 0 <= next_seq a ->
  assemble a l = Ok (outcome a l).
Proof.
  induction l as [|[seq [n body]] l IH]; intros a Hs Hk Hn.
  { cbn [assemble]. unfold outcome, finish. cbn. rewrite app_nil_r. change (zlen []) with 0. rewrite Z.add_0_r, andb_true_r, orb_false_r. done. }
  cbn [map fst] in Hs, Hk. apply StronglySorted_inv in Hs as [Hs HF]. pose proof (proj1 (Forall_elem _ _) HF) as HF'. pose proof (Hk seq ltac:(set_solver)) as Hseq.
  cbn [assemble]. unfold push. destruct (Z.ltb_spec seq (next_seq a)); [lia|]. rewrite uadd_small by (unfold fits; lia). rewrite IH; cbn [next_seq]; [|done| |lia].
  2:{ intros s Hin. pose proof (Hk s ltac:(set_solver)). specialize (HF' s Hin). cbn in HF'. lia. }
  f_equal. unfold outcome. cbn [next_seq gapped got expected buf length bodies map concat snd dense]. fold (bodies l).
  rewrite (bool_decide_false (S _ = 0%nat)) by lia. rewrite andb_false_r. destruct (Z.eqb_spec (seq + 1) 0); [lia|]. cbn [andb].
  rewrite !zlen_app. pose proof (zlen_nonneg (concat (bodies l))). replace (next_seq a <? seq) with (negb (seq =? next_seq a)) by lia.
  rewrite <-Z.add_assoc. destruct (gapped a); [done|]. destruct (Z.eqb_spec seq (next_seq a)) as [->|]; [|done]. cbn [negb orb andb].
  destruct (dense (next_seq a + 1) l); [|done]. cbn [negb orb]. destruct (Z.eqb_spec (got a + (zlen body + zlen (concat (bodies l)))) (expected a)); [|done]. cbn [negb].
  rewrite (proj2 (Z.leb_le _ _)) by lia. by rewrite app_assoc.
Qed.

Lemma dense_keys l : forall n, dense n l = true <-> map fst l = seqZ n (Z.of_nat (length l)).
Proof.
  induction l as [|[s b] l IH]; intros n; [done|]. cbn [dense map length fst]. rewrite seqZ_cons by lia. replace (Z.pred (Z.of_nat (S (length l)))) with (Z.of_nat (length l)) by lia.
  rewrite andb_true_iff, Z.eqb_eq, IH, Z.add_1_r. split; [by intros [-> ->]|]. by intros [= -> ->].
Qed.

(** ** Rows current at a position *)
Definition current (rows : list StoreRow) (bound : Z) (r : StoreRow) : Prop :=
  r ∈ rows /\ lsn r <= bound /\ forall r', r' ∈ rows -> tid r' = tid r -> lsn r' <= bound -> lsn r' <= lsn r.

Definition live (rows : list StoreRow) (bound : Z) (r : StoreRow) : Prop := current rows bound r /\ is_tombstone r = false.

(** One row per tuple and record position: a replay puts the same bytes. *)
Definition versioned (rows : list StoreRow) : Prop := forall r r', r ∈ rows -> r' ∈ rows -> tid r = tid r' -> lsn r = lsn r' -> r = r'.

(** The unique index on value and sequence. *)
Definition indexed (rows : list StoreRow) (bound : Z) : Prop :=
  (forall r r', live rows bound r -> live rows bound r' -> chunk_id r = chunk_id r' -> chunk_seq r = chunk_seq r' -> r = r') /\
  (forall r, live rows bound r -> 0 <= chunk_seq r < 2 ^ 31).

Lemma latest_fold (l : list StoreRow) t : match fold_left note_latest l ∅ !! t with
  | Some r => tid r = t /\ r ∈ l /\ forall r', r' ∈ l -> tid r' = t -> lsn r' <= lsn r
  | None => forall r, r ∈ l -> tid r <> t
  end.
Proof.
  induction l as [|x l IH] using rev_ind; [cbn [fold_left]; rewrite lookup_empty; intros r []%not_elem_of_nil|]. rewrite fold_left_app. cbn [fold_left]. set (m := fold_left note_latest l ∅) in *.
  assert (forall a, a ∈ l ++ [x] <-> a ∈ l \/ a = x) as Hin by set_solver. unfold note_latest. destruct (decide (t = tid x)) as [->|Hne].
  - destruct (m !! tid x) as [e|] eqn:Em.
    + destruct IH as (E1 & E2 & E3). destruct (Z.leb_spec (lsn e) (lsn x)); [rewrite lookup_insert_eq|rewrite Em]; (split; [done|]; split; [set_solver|]);
        intros r' [Hr'| ->]%Hin Ht; try specialize (E3 r' Hr' Ht); lia.
    + rewrite lookup_insert_eq. split; [done|]. split; [set_solver|]. intros r' [Hr'| ->]%Hin Ht; [by destruct (IH r' Hr')|lia].
  - assert ((match m !! tid x with Some e => if lsn e <=? lsn x then <[tid x := x]> m else m | None => <[tid x := x]> m end) !! t = m !! t) as ->.
    { destruct (m !! tid x) as [e|]; [destruct (lsn e <=? lsn x)|]; by rewrite ?lookup_insert_ne by done. }
    destruct (m !! t) as [r|].
    + destruct IH as (E1 & E2 & E3). split; [done|]. split; [set_solver|]. intros r' [Hr'| ->]%Hin Ht; [by apply E3|done].
    + intros r [Hr| ->]%Hin; [by apply IH|done].
Qed.

Lemma latest_current rows bound t r : versioned rows -> latest rows bound !! t = Some r <-> tid r = t /\ current rows bound r.
Proof.
  intros Hv. unfold latest. pose proof (latest_fold (filter (fun r => lsn r <= bound) rows) t) as HL. unfold current. split.
  - intros E. rewrite E in HL. destruct HL as (E1 & [E2 E3]%list_elem_of_filter & E4). split; [done|]. split; [done|]. split; [done|].
    intros r' Hr' Ht Hle. apply E4; [by apply list_elem_of_filter|congruence].
  - intros (E1 & E2 & E3 & E4). destruct (fold_left _ _ _ !! t) as [e|].
    + destruct HL as (F1 & [F2 F3]%list_elem_of_filter & F4). f_equal. apply Hv; [done|done|congruence|].
      apply Z.le_antisymm; [apply E4; [done|congruence|done]|]. apply F4; [by apply list_elem_of_filter|done].
    + exfalso. apply (HL r); [by apply list_elem_of_filter|done].
Qed.

Section Fetches.
Context (iter : gmap (Z * Z) StoreRow -> list ((Z * Z) * StoreRow)).
Hypothesis iter_perm : forall m, iter m ≡ₚ map_to_list m.

Lemma latest_rows rows bound r : versioned rows -> r ∈ map snd (iter (latest rows bound)) <-> current rows bound r.
Proof.
  intros Hv. rewrite list_elem_of_fmap. split.
  - intros ([t x] & -> & Hin). rewrite iter_perm in Hin. apply elem_of_map_to_list in Hin. by apply latest_current in Hin as [_ ?].
  - intros Hc. exists (tid r, r). split; [done|]. rewrite iter_perm. apply elem_of_map_to_list, latest_current; done.
Qed.

(** What one value's chunks by sequence are after the rows [P]. *)
Definition gathered (wanted : list Z) (P : list StoreRow) (n : gmap Z (list (Z * (Z * list Z)))) : Prop :=
  forall id, StronglySorted Z.lt (map fst (default [] (n !! id))) /\
    forall s e, btree_get s (default [] (n !! id)) = Some e <->
      id ∈ wanted /\ exists r, r ∈ P /\ is_tombstone r = false /\ chunk_id r = id /\ chunk_seq r = s /\ e = (lsn r, chunk_data r).

Lemma gather_fold wanted P : (forall r r', r ∈ P -> r' ∈ P -> is_tombstone r = false -> is_tombstone r' = false -> chunk_id r = chunk_id r' -> chunk_seq r = chunk_seq r' -> r = r') ->
  gathered wanted P (fold_left (note_newest wanted) P ∅).
Proof.
  induction P as [|x P IH] using rev_ind; intros Hu.
  { intros id. cbn [fold_left]. rewrite lookup_empty. split; [constructor|]. intros s e. split; [done|]. intros (_ & r & []%not_elem_of_nil & _). }
  rewrite fold_left_app. cbn [fold_left]. assert (gathered wanted P (fold_left (note_newest wanted) P ∅)) as HG by (apply IH; intros r r' Hr Hr'; apply Hu; set_solver).
  set (n := fold_left (note_newest wanted) P ∅) in *. clearbody n. clear IH. assert (forall a, a ∈ P ++ [x] <-> a ∈ P \/ a = x) as Hin by set_solver.
  unfold note_newest. destruct (is_tombstone x) eqn:Ex; [|destruct (bool_decide_reflect (chunk_id x ∈ wanted)) as [Hw|Hw]]; cbn [orb negb].
  1,3: intros id; destruct (HG id) as [H1 H2]; split; [done|]; intros s e; rewrite H2; split; intros (H3 & r & Hr & H4); (split; [done|]); exists r;
    (split; [|done]); [set_solver|apply Hin in Hr as [?| ->]; [done|]; destruct H4 as (? & <- & _); congruence || done].
  intros id. destruct (HG id) as [H1 H2]. destruct (decide (id = chunk_id x)) as [->|Hne].
  2:{ rewrite lookup_insert_ne by done. split; [done|]. intros s e. rewrite H2. split; intros (H3 & r & Hr & H4); (split; [done|]); exists r; (split; [|done]); [set_solver|].
      apply Hin in Hr as [?| ->]; [done|]. destruct H4 as (_ & H4 & _). congruence. }
  rewrite lookup_insert_eq. cbn [default from_option id].
  set (t := default [] (n !! chunk_id x)) in *.
  assert (match btree_get (chunk_seq x) t with Some e => negb (e.1 <=? lsn x) | None => false end = false) as ->.
  { destruct (btree_get (chunk_seq x) t) as [e|] eqn:Eg; [|done]. apply H2 in Eg as (_ & r & Hr & T & I & S & ->). cbn.
    assert (r = x) as -> by (apply Hu; [set_solver|set_solver|done..]). by rewrite Z.leb_refl. }
  split; [by apply btree_insert_keys|]. intros s e. rewrite btree_get_insert. destruct (Z.eqb_spec s (chunk_seq x)) as [->|Hs].
  - split; [intros [= <-]; split; [done|]; exists x; split; [set_solver|done]|].
    intros (_ & r & Hr & T & I & S & ->). assert (r = x) as -> by (apply Hu; [done|set_solver|done..]). done.
  - rewrite H2. split; intros (H3 & r & Hr & H4); (split; [done|]); exists r; (split; [|done]); [set_solver|].
    apply Hin in Hr as [?| ->]; [done|]. destruct H4 as (_ & _ & H4 & _). congruence.
Qed.

(** Value [id] has the chunk [d] at sequence [s]. *)
Definition has_chunk (rows : list StoreRow) (bound id s : Z) (d : list Z) : Prop :=
  exists r, live rows bound r /\ chunk_id r = id /\ chunk_seq r = s /\ chunk_data r = d.

(** The chunks of value [id] are exactly [cs]. *)
Definition chunks_are (rows : list StoreRow) (bound id : Z) (cs : list (list Z)) : Prop :=
  forall s d, has_chunk rows bound id s d <-> 0 <= s /\ cs !! Z.to_nat s = Some d.

(** [v] is the answer for a value of [size] bytes. *)
Definition served (rows : list StoreRow) (bound : Z) (x : Z * Z) (v : FetchedValue) : Prop :=
  (forall cs, chunks_are rows bound x.1 cs -> cs <> [] -> zlen (concat cs) = x.2 -> v = Assembled (concat cs)) /\
  ((forall s d, ~ has_chunk rows bound x.1 s d) -> v = Missing) /\
  ((exists s d, has_chunk rows bound x.1 s d) -> (forall cs, chunks_are rows bound x.1 cs -> zlen (concat cs) <> x.2) -> exists g, v = Mismatch g).

(** A sorted list of a value's chunks. *)
Definition lists_value (rows : list StoreRow) (bound id : Z) (l : list (Z * (Z * list Z))) : Prop :=
  StronglySorted Z.lt (map fst l) /\ forall s d, has_chunk rows bound id s d <-> exists n, (s, (n, d)) ∈ l.

Lemma lists_keys rows bound id l cs : lists_value rows bound id l -> chunks_are rows bound id cs -> map fst l = seqZ 0 (zlen cs) /\ bodies l = cs.
Proof.
  intros [Hs Hl] Hc. assert (map fst l = seqZ 0 (zlen cs)) as Hk.
  { apply sorted_lt_ext; [done|apply seqZ_sorted|]. intros s. rewrite elem_of_seqZ. split.
    - intros ([s' [n d]] & -> & Hin)%list_elem_of_fmap. cbn. destruct (proj1 (Hc s' d)) as [Hge Hi]; [apply Hl; by exists n|]. apply lookup_lt_Some in Hi. unfold zlen. lia.
    - intros [Hge Hlt]. destruct (lookup_lt_is_Some_2 cs (Z.to_nat s)) as [d Hd]; [unfold zlen in Hlt; lia|].
      destruct (proj1 (Hl s d)) as [n Hn]; [by apply Hc|]. apply list_elem_of_fmap. by exists (s, (n, d)). }
  split; [done|]. assert (length l = length cs) as Hlen by (rewrite <-(length_map fst l), Hk, length_seqZ; unfold zlen; lia).
  apply list_eq. intros i. unfold bodies. rewrite list_lookup_fmap. destruct (l !! i) as [[s [n d]]|] eqn:Ei.
  - cbn. assert (s = Z.of_nat i) as ->.
    { assert (map fst l !! i = Some s) as Hi by (by rewrite list_lookup_fmap, Ei). rewrite Hk in Hi. apply lookup_seqZ in Hi. lia. }
    destruct (proj1 (Hc (Z.of_nat i) d)) as [_ Hd]; [apply Hl; exists n; by eapply list_elem_of_lookup_2|]. by rewrite Nat2Z.id in Hd.
  - cbn. symmetry. apply lookup_ge_None. apply lookup_ge_None in Ei. lia.
Qed.

Lemma lists_dense rows bound id l : lists_value rows bound id l -> dense 0 l = true -> chunks_are rows bound id (bodies l).
Proof.
  intros [Hs Hl] Hd%dense_keys s d. rewrite Hl. split.
  - intros [n Hin]. apply list_elem_of_lookup in Hin as [i Hi]. assert (map fst l !! i = Some s) as Hk by (by rewrite list_lookup_fmap, Hi).
    rewrite Hd in Hk. apply lookup_seqZ in Hk as [-> Hlt]. split; [lia|]. unfold bodies. rewrite list_lookup_fmap. replace (Z.to_nat (0 + Z.of_nat i)) with i by lia. by rewrite Hi.
  - intros [Hge Hi]. unfold bodies in Hi. rewrite list_lookup_fmap in Hi. destruct (l !! Z.to_nat s) as [[s' [n d']]|] eqn:El; [|done]. cbn in Hi. injection Hi as ->.
    assert (map fst l !! Z.to_nat s = Some s') as Hk by (by rewrite list_lookup_fmap, El). rewrite Hd in Hk. apply lookup_seqZ in Hk as [-> _].
    exists n. replace s with (0 + Z.of_nat (Z.to_nat s)) at 1 by lia. by eapply list_elem_of_lookup_2.
Qed.

Lemma outcome_served rows bound x l : lists_value rows bound x.1 l -> served rows bound x (outcome (new x.2) l).
Proof.
  intros HL. pose proof HL as [Hs Hl]. unfold outcome. cbn [new next_seq gapped got expected buf Z.eqb andb orb app]. rewrite Z.add_0_l. split; [|split].
  - intros cs Hc Hne Hsz. destruct (lists_keys _ _ _ _ _ HL Hc) as [Hk Hb]. assert (dense 0 l = true) as ->.
    { apply dense_keys. rewrite Hk. f_equal. rewrite <-(length_map fst l), Hk, length_seqZ. unfold zlen. lia. }
    rewrite Hb, Hsz, Z.eqb_refl. rewrite bool_decide_false; [done|]. intros Hz. apply nil_length_inv in Hz as ->. by rewrite <-Hb in Hne.
  - intros Hno. destruct l as [|[s [n d]] l]; [done|]. exfalso. apply (Hno s d), Hl. exists n. set_solver.
  - intros (s & d & Hh) Hsz. apply Hl in Hh as [n Hin]. destruct l as [|e l]; [by apply not_elem_of_nil in Hin|]. cbn [length]. rewrite bool_decide_false by lia.
    destruct (dense 0 (e :: l)) eqn:Ed; [|by eexists]. destruct (Z.eqb_spec (zlen (concat (bodies (e :: l)))) x.2) as [E|]; [|by eexists].
    by destruct (Hsz (bodies (e :: l)) (lists_dense _ _ _ _ HL Ed)).
Qed.

Lemma gathered_lists rows bound wanted (P := map snd (iter (latest rows bound))) : versioned rows -> indexed rows bound ->
  forall id, id ∈ wanted -> lists_value rows bound id (default [] (fold_left (note_newest wanted) P ∅ !! id)).
Proof.
  intros Hv [Hu _] id Hid. assert (gathered wanted P (fold_left (note_newest wanted) P ∅)) as HG.
  { apply gather_fold. intros r r' Hr Hr' T T'. apply Hu; (split; [|done]); by apply latest_rows. }
  destruct (HG id) as [G1 G2]. split; [done|]. intros s d. split.
  - intros (r & [Hc Ht] & <- & <- & <-). exists (lsn r). apply (btree_get_elem _ _ G1), G2. split; [done|]. exists r. split; [by apply latest_rows|done].
  - intros [k Hk]. apply (btree_get_elem _ _ G1), G2 in Hk as (_ & r & Hr & Ht & Hi & Hs & E). injection E as -> ->.
    exists r. split; [|done]. split; [by apply latest_rows in Hr|done].
Qed.

Lemma fetch_all_served rows bound n values : indexed rows bound -> (forall id, id ∈ map fst values -> lists_value rows bound id (default [] (n !! id))) ->
  exists vs, fetch_all n values = Ok vs /\ Forall2 (served rows bound) values vs.
Proof.
  intros [_ Hsq] HL. induction values as [|[id size] values IH]; [by exists []|].
  cbn [fetch_all]. pose proof (HL id ltac:(set_solver)) as HLi. rewrite assemble_outcome; [|apply HLi| |done].
  2:{ intros s ([s' [k d]] & -> & Hin)%list_elem_of_fmap. cbn. destruct (proj2 (proj2 HLi s' d)) as (r & Hr & _ & Hs & _); [by exists k|]. specialize (Hsq r Hr). cbn. lia. }
  destruct IH as (vs & -> & HF); [intros i Hi; apply HL; set_solver|]. eexists. split; [done|]. constructor; [|done]. by apply outcome_served.
Qed.


(** ** The rewrite barrier *)

Lemma residual_elem db relid marker commit rows x : versioned rows -> x ∈ residual iter db relid marker commit rows <->
  exists r, live rows marker r /\ tid r ∉ past_marker rows marker /\ x = tombstone db relid (blkno r) (offnum r) commit.
Proof.
  intros Hv. unfold residual. rewrite list_elem_of_omap. split.
  - intros ([t r] & Hin & E). rewrite iter_perm in Hin. apply elem_of_map_to_list, latest_current in Hin as [<- Hc]; [|done]. cbn [fst snd] in E.
    destruct (is_tombstone r) eqn:Et; [done|]. cbn [orb] in E. destruct (bool_decide_reflect (tid r ∈ past_marker rows marker)); [done|]. injection E as <-. by exists r.
  - intros (r & [Hc Ht] & Hp & ->). exists (tid r, r). split; [rewrite iter_perm; by apply elem_of_map_to_list, latest_current|]. cbn [fst snd]. rewrite Ht. cbn [orb].
    by rewrite bool_decide_false.
Qed.

Lemma past_elem rows marker t : t ∈ past_marker rows marker <-> exists r, r ∈ rows /\ tid r = t /\ marker < lsn r.
Proof. unfold past_marker. rewrite list_elem_of_fmap. setoid_rewrite list_elem_of_filter. naive_solver. Qed.

Lemma residual_tid db relid marker commit rows x : versioned rows -> x ∈ residual iter db relid marker commit rows ->
  lsn x = commit /\ is_tombstone x = true /\ tid x ∉ past_marker rows marker /\ exists r, live rows marker r /\ tid r = tid x.
Proof. intros Hv (r & Hr & Hp & ->)%residual_elem; [|done]. split; [done|]. split; [done|]. split; [done|]. by exists r. Qed.

Lemma barrier_live db relid marker commit rows b r : versioned rows -> marker < commit ->
  live (rows ++ residual iter db relid marker commit rows) b r <->
  live rows b r /\ (b < commit \/ exists r', r' ∈ rows /\ tid r' = tid r /\ marker < lsn r').
Proof.
  intros Hv Hmc. set (res := residual _ _ _ _ _ _). split.
  - intros [(Hin & Hle & Hmax) Ht]. apply elem_of_app in Hin as [Hin|Hin]; [|by apply residual_tid in Hin as (_ & E & _); [congruence|]].
    assert (live rows b r) as Hl by (split; [|done]; split; [done|]; split; [done|]; intros r' Hr'; apply Hmax; set_solver). split; [done|].
    destruct (Z.lt_ge_cases b commit) as [|Hb]; [by left|]. right. apply past_elem.
    destruct (decide (tid r ∈ past_marker rows marker)) as [|Hp]; [done|]. exfalso.
    assert (forall r', r' ∈ rows -> tid r' = tid r -> lsn r' <= marker) as Hbelow.
    { intros r' Hr' Htid. destruct (Z.lt_ge_cases marker (lsn r')); [|done]. destruct Hp. apply past_elem. by exists r'. }
    assert (tombstone db relid (blkno r) (offnum r) commit ∈ res) as Hres.
    { apply residual_elem; [done|]. exists r. split; [|done]. split; [|done]. destruct Hl as [(H1 & H2 & H3) _]. split; [done|]. split; [by apply Hbelow|].
      intros r' Hr' Htid Hm. apply H3; [done|done|lia]. }
    specialize (Hmax _ (proj2 (elem_of_app _ _ _) (or_intror Hres)) eq_refl Hb). cbn in Hmax. specialize (Hbelow r Hin eq_refl). lia.
  - intros [[(Hin & Hle & Hmax) Ht] Hcase]. split; [|done]. split; [set_solver|]. split; [done|]. intros r' [Hr'|Hr']%elem_of_app Htid Hb; [by apply Hmax|].
    apply residual_tid in Hr' as (E & _ & Hp & _); [|done]. destruct Hcase as [|(x & Hx & Hxt & Hxm)]; [lia|]. destruct Hp. apply past_elem. exists x. by rewrite Htid.
Qed.

Lemma barrier_versioned db relid marker commit rows : versioned rows -> marker < commit -> versioned (rows ++ residual iter db relid marker commit rows).
Proof.
  intros Hv Hmc. assert (forall r x, r ∈ rows -> x ∈ residual iter db relid marker commit rows -> tid r = tid x -> lsn r = lsn x -> False) as Hno.
  { intros r x Hr Hx%residual_tid Ht Hl; [|done]. destruct Hx as (E & _ & Hp & _). destruct Hp. apply past_elem. exists r. split; [done|]. split; [done|]. lia. }
  intros r r' [Hr|Hr]%elem_of_app [Hr'|Hr']%elem_of_app Ht Hl; [by apply Hv|by destruct (Hno r r')|by destruct (Hno r' r)|].
  apply residual_elem in Hr as (a & _ & _ & ->); [|done]. apply residual_elem in Hr' as (b & _ & _ & ->); [|done]. unfold tid in Ht. cbn in Ht. by injection Ht as -> ->.
Qed.

(** C29: The rewrite barrier of a generation created at [marker] and committed at
    [commit] retires, for fetches at or past the commit, exactly the rows that
    lived at the marker and whose tuple position the new generation did not
    write; fetches before the commit see what they saw, and applying the barrier
    again, as a replay does, changes nothing. *)
Theorem barrier_retires (m : Mirrors) db relid rows marker commit : m !! (db, relid) = Some rows -> versioned rows -> marker < commit ->
  exists rows', rewrite_barrier iter m db relid marker commit = <[(db, relid) := rows']> m /\ versioned rows' /\
    (forall b r, live rows' b r <-> live rows b r /\ (b < commit \/ exists r', r' ∈ rows /\ tid r' = tid r /\ marker < lsn r')) /\
    rewrite_barrier iter (<[(db, relid) := rows']> m) db relid marker commit = <[(db, relid) := rows']> m.
Proof.
  intros Hm Hv Hmc. unfold rewrite_barrier. rewrite Hm. exists (rows ++ residual iter db relid marker commit rows). split; [done|].
  pose proof (barrier_versioned db relid marker commit rows Hv Hmc) as Hv'. split; [done|]. split; [intros b r; by apply barrier_live|].
  rewrite lookup_insert_eq, insert_insert_eq. f_equal. set (rows' := rows ++ _) in *. rewrite <-(app_nil_r rows') at 3. f_equal.
  destruct (residual iter db relid marker commit rows') as [|x l] eqn:Ex; [done|]. exfalso.
  assert (x ∈ residual iter db relid marker commit rows') as Hx by (rewrite Ex; set_solver). apply residual_tid in Hx as (_ & _ & Hp & r & Hl & Ht); [|done].
  apply (barrier_live db relid marker commit rows marker r Hv Hmc) in Hl as [Hl _]. destruct Hp. apply past_elem.
  destruct (decide (tid r ∈ past_marker rows marker)) as [(y & Hy & Hyt & Hym)%past_elem|Hn].
  - exists y. split; [set_solver|]. split; [congruence|done].
  - exists (tombstone db relid (blkno r) (offnum r) commit). split; [|split; [by rewrite <-Ht|done]]. apply elem_of_app. right. apply residual_elem; [done|]. by exists r.
Qed.

(** ** A store for the resolver *)
Lemma newest_local wanted id P : id ∈ wanted -> fold_left (note_newest wanted) P ∅ !! id = fold_left (note_newest [id]) P ∅ !! id.
Proof.
  clear iter_perm. intros Hid. induction P as [|x P IH] using rev_ind; [done|]. rewrite !fold_left_app. cbn [fold_left]. unfold note_newest at 1 3. destruct (is_tombstone x); [done|]. cbn [orb].
  destruct (decide (chunk_id x = id)) as [->|Hne].
  - rewrite !bool_decide_true by set_solver. cbn [negb]. by rewrite !lookup_insert_eq, IH.
  - rewrite (bool_decide_false (chunk_id x ∈ [id])) by set_solver. cbn [negb]. destruct (negb _); [done|]. by rewrite lookup_insert_ne.
Qed.

Definition mem_fetch_one (m : Mirrors) (db relid : Z) (v : Z * Z) (bound : Z) : FetchedValue :=
  match fetch_many iter m db relid [v] bound with Ok (x :: _) => x | _ => Missing end.

Lemma mem_aligned m db relid values bound got : fetch_many iter m db relid values bound = Ok got -> got = map (fun v => mem_fetch_one m db relid v bound) values.
Proof.
  clear iter_perm. unfold mem_fetch_one, fetch_many. destruct (m !! (db, relid)) as [rows|]; [|done]. set (P := map snd (iter (latest rows bound))). set (wanted := map fst values).
  assert (forall v, v ∈ values -> v.1 ∈ wanted) as Hw by (intros v Hv; apply list_elem_of_fmap; by exists v). clearbody wanted.
  revert got. induction values as [|[id size] values IH]; intros got; cbn [fetch_all]; [by intros [= <-]|].
  rewrite (newest_local wanted id P) by (apply (Hw (id, size)); set_solver). destruct (assemble _ _) as [v|] eqn:Ea; [|done].
  destruct (fetch_all _ values) as [vs|] eqn:Ef; [|done]. intros [= <-]. cbn [map fst fetch_all]. rewrite Ea. f_equal. apply IH; [intros x Hx; apply Hw; set_solver|done].
Qed.

#[global] Instance mem_store (m : Mirrors) : ChunkStore := MkStore (fetch_many iter m) (mem_fetch_one m) (fun db relid values bound got _ => mem_aligned m db relid values bound got).

End Fetches.

(** ** A mirror with a value rewritten and a value deleted *)
Definition demo_row (o id seq at_lsn : Z) (data : list Z) : StoreRow := MkRow 5 16403 0 o id seq data at_lsn.

Definition demo_rows : list StoreRow :=
  [demo_row 1 7 0 10 [1; 2]; demo_row 2 7 1 11 [3]; demo_row 3 8 0 12 [4]; tombstone 5 16403 0 3 20; demo_row 1 7 0 10 [1; 2]].

Lemma demo_versioned : versioned demo_rows.
Proof.
  intros r r'. unfold demo_rows. rewrite !elem_of_cons, !elem_of_nil. intros [->|[->|[->|[->|[->|[]]]]]] [->|[->|[->|[->|[->|[]]]]]]; done.
Qed.

Lemma demo_indexed b : indexed demo_rows b.
Proof.
  split.
  - intros r r' [(Hr & _) Ht] [(Hr' & _) Ht']. unfold demo_rows in Hr, Hr'. rewrite !elem_of_cons, !elem_of_nil in Hr, Hr'.
    destruct Hr as [->|[->|[->|[->|[->|[]]]]]], Hr' as [->|[->|[->|[->|[->|[]]]]]]; done.
  - intros r [(Hr & _) _]. unfold demo_rows in Hr. rewrite !elem_of_cons, !elem_of_nil in Hr. destruct Hr as [->|[->|[->|[->|[->|[]]]]]]; cbn; lia.
Qed.


(** A generation created at 15 that wrote only tuple 1 again. *)
Definition rewritten : list StoreRow := demo_rows ++ [demo_row 1 9 0 18 [5]].

Lemma rewritten_versioned : versioned rewritten.
Proof.
  intros r r'. unfold rewritten, demo_rows. cbn [app]. rewrite !elem_of_cons, !elem_of_nil. intros [->|[->|[->|[->|[->|[->|[]]]]]]] [->|[->|[->|[->|[->|[->|[]]]]]]]; done.
Qed.

Lemma barrier_retires_witness : exists rows', rewrite_barrier map_to_list {[ (5, 16403) := rewritten ]} 5 16403 15 30 = {[ (5, 16403) := rows' ]} /\
  live rows' 29 (demo_row 2 7 1 11 [3]) /\ ~ live rows' 30 (demo_row 2 7 1 11 [3]) /\ live rows' 30 (demo_row 1 9 0 18 [5]).
Proof.
  destruct (barrier_retires map_to_list (fun m => reflexivity _) {[ (5, 16403) := rewritten ]} 5 16403 rewritten 15 30 (lookup_singleton_eq _ _) rewritten_versioned ltac:(lia)) as (rows' & E & _ & HL & _).
  exists rows'. split; [rewrite E; apply insert_singleton_eq|].
  assert (forall b i r, rewritten !! i = Some r -> lsn r <= b -> Forall (fun r' => tid r' <> tid r \/ b < lsn r' \/ lsn r' <= lsn r) rewritten -> is_tombstone r = false -> live rewritten b r) as Hlive.
  { intros b i r Hr Hb HF Ht. split; [|done]. split; [by eapply list_elem_of_lookup_2|]. split; [done|]. intros r' Hr' Htid Hle.
    pose proof (proj1 (Forall_elem _ _) HF r' Hr') as [?|[?|?]]; [done|lia|done]. }
  assert (forall b, b = 29 \/ b = 30 -> live rewritten b (demo_row 2 7 1 11 [3]) /\ live rewritten b (demo_row 1 9 0 18 [5])) as Hb.
  { intros b Hb. split; [apply (Hlive b 1%nat)|apply (Hlive b 5%nat)]; try done; try (cbn; lia);
      repeat (constructor; [first [left; discriminate|right; cbn; lia]|]); constructor. }
  destruct (Hb 29 ltac:(auto)) as [H29 _], (Hb 30 ltac:(auto)) as [_ H30]. rewrite !HL. split; [|split].
  - split; [exact H29|left; lia].
  - intros [_ [?|(r' & Hr' & Htid & Hm)]]; [lia|]. unfold rewritten, demo_rows in Hr'. cbn [app] in Hr'. rewrite !elem_of_cons, !elem_of_nil in Hr'.
    destruct Hr' as [->|[->|[->|[->|[->|[->|[]]]]]]]; cbn in Hm; try lia; done.
  - split; [exact H30|right; exists (demo_row 1 9 0 18 [5]); split; [exact (list_elem_of_lookup_2 rewritten 5 _ eq_refl)|done]].
Defined.

End ChunkStoreProofs.
