(* ===== verification/Detoast.v ===== *)
(** * Resolving the TOAST pointers of a row ([src/xact/xact_buffer.rs], [src/toast/resolver.rs])

    [detoast_heap] checks the pointers of both tuples against the value cap,
    fetches in one batch per TOAST relation what the transaction's own chunks do
    not cover, and replaces every pointer: by the value reassembled from the
    transaction's chunks, by the stored value as of the row's position, or by
    NULL where the policy fills a miss. *)
From S2P Require Import Prelude Pos WalRecord AsciiBuf Numeric HeapDecode Wire DescCodec Spill ToastRef ChunkStore.
Import WalRecord Schema HeapDecode Spill.
Import ToastRef (ValueRef, ToastError, InlineValueOverflow, OverflowNull, OverflowError, pointer_extsize, pointer_footprint, check_value_caps, detoasted_value, finish_value, observed_mid_value, first_missing_seq_ref, reassemble_value_ref, Bytes, SizeMismatch).

Module Detoast.

Notation ChunkRefMap := (gmap (Z * Z) ValueRef).

(** ** Misses *)
Inductive StoreMiss := NoStore | NoChunks | WrongSize (got : Z) | NewGeneration.

Definition split (fetched : option FetchedValue) : result StoreMiss (list Z) :=
  match fetched with
  | None => Err NoStore
  | Some (Assembled stored) => Ok stored
  | Some Missing => Err NoChunks
  | Some (Mismatch got) => Err (WrongSize got)
  | Some Generation => Err NewGeneration
  end.

Inductive MissPolicy := Streaming | BootstrapOwned | BootstrapReadOnly.

Definition bootstrap (stores_chunks : bool) : MissPolicy := if stores_chunks then BootstrapOwned else BootstrapReadOnly.

(** The resolver's counters. *)
Inductive Note := FilledDefault | FilledGeneration | FilledMismatch | FilledSuperseded | FilledOversize | FetchMiss.

Inductive DetoastError :=
| DValue (e : ToastError)
| DStoreFetch (e : ChunkStoreError)
| DSizeMismatch (toast_relid value_id got want : Z)
| DMissingToastChunk (toast_relid value_id missing : Z)
| DNoChunksInStore
| DChunksSumTo (got want : Z)
| DPanic.

(** NULL, or an error when the policy fails closed, and what is counted. *)
Definition fill_store_miss (miss : StoreMiss) (p : ToastPointer) (policy : MissPolicy) : result DetoastError ColumnValue * Note :=
  match miss, policy with
  | NoStore, _ => (Ok Null, FilledDefault)
  | NewGeneration, _ => (Ok Null, FilledGeneration)
  | WrongSize _, Streaming => (Ok Null, FilledMismatch)
  | NoChunks, Streaming | _, BootstrapReadOnly => (Ok Null, FilledSuperseded)
  | NoChunks, BootstrapOwned => (Err DNoChunksInStore, FetchMiss)
  | WrongSize got, BootstrapOwned => (Err (DChunksSumTo got (pointer_extsize p)), FetchMiss)
  end.

(** ** The resolver *)
Record ToastResolver := MkResolver
  { inline_value_max : Z; overflow : InlineValueOverflow; store : option ChunkStore; database_stores : option (gmap Z ChunkStore) }.

Definition value_oversize (rs : ToastResolver) (p : ToastPointer) : bool := inline_value_max rs <? pointer_footprint p.

Definition fill_on_miss (rs : ToastResolver) : bool := negb (is_some (store rs)).

Definition fetch_values (rs : ToastResolver) (db relid : Z) (values : list (Z * Z)) (max_lsn : Z) : result ChunkStoreError (option (list FetchedValue)) :=
  match store rs with
  | None => Ok None
  | Some s =>
      if bool_decide (length values = 0%nat) then Ok (Some [])
      else
        let? s := match database_stores rs with
                  | Some m => match m !! db with Some s => Ok s | None => Err (Shadow db) end
                  | None => Ok s
                  end in
        let? got := fetch_many (ChunkStore := s) db relid values max_lsn in
        Ok (Some got)
  end.

(** ** Pointers of a row *)
Definition pointer_of (c : option ColumnValue) : option ToastPointer := match c with Some (ExternalToast p) => Some p | _ => None end.

Definition collect_toast_pointers (t : option DecodedTuple) : list ToastPointer := match t with Some t => omap pointer_of (columns t) | None => [] end.

Definition heap_reads_toast (h : DescribedHeap) : bool :=
  existsb (fun c => is_some (pointer_of c)) (match new (decoded h) with Some t => columns t | None => [] end ++
                                             match old (decoded h) with Some t => columns t | None => [] end).

Definition key (p : ToastPointer) : Z * Z := (va_toastrelid p, va_valueid p).

(** [find_map] over the generations. *)
Fixpoint in_maps (maps : list ChunkRefMap) (k : Z * Z) : option ValueRef :=
  match maps with [] => None | m :: maps => match m !! k with Some v => Some v | None => in_maps maps k end end.

Section Detoast.
Context `{Decompress}.
(** [HashMap] iteration. *)
Context (iter_rels : gmap Z (gmap Z ToastPointer) -> list (Z * gmap Z ToastPointer)) (iter_ptrs : gmap Z ToastPointer -> list (Z * ToastPointer)).

Notation Cache := (gmap (Z * Z) (result StoreMiss (list Z))).

(** ** Fetching ahead *)
Definition want (maps : list ChunkRefMap) (w : gmap Z (gmap Z ToastPointer)) (p : ToastPointer) : gmap Z (gmap Z ToastPointer) :=
  match in_maps maps (key p) with
  | Some v => if negb (observed_mid_value v) then w else <[va_toastrelid p := <[va_valueid p := p]> (default ∅ (w !! va_toastrelid p))]> w
  | None => <[va_toastrelid p := <[va_valueid p := p]> (default ∅ (w !! va_toastrelid p))]> w
  end.

(** The [zip] of pointers and answers. *)
Fixpoint cache_all (ps : list ToastPointer) (got : list FetchedValue) (cache : Cache) : result DetoastError Cache :=
  match ps, got with
  | p :: ps, f :: got =>
      match split (Some f) with
      | Ok stored =>
          match finish_value p stored with
          | Ok raw => cache_all ps got (<[key p := Ok raw]> cache)
          | Err e => Err (DValue e)
          end
      | Err miss => cache_all ps got (<[key p := Err miss]> cache)
      end
  | _, _ => Ok cache
  end.

Fixpoint prefetch_rels (rs : ToastResolver) (db bound : Z) (rels : list (Z * gmap Z ToastPointer)) (cache : Cache) : result DetoastError Cache :=
  match rels with
  | [] => Ok cache
  | (relid, inner) :: rels =>
      let ps := map snd (iter_ptrs inner) in
      match fetch_values rs db relid (map (fun p => (va_valueid p, pointer_extsize p)) ps) bound with
      | Err e => Err (DStoreFetch e)
      | Ok None => Err DPanic
      | Ok (Some got) => let? cache := cache_all ps got cache in prefetch_rels rs db bound rels cache
      end
  end.

Definition prefetch_store_values (rs : ToastResolver) (ps : list ToastPointer) (maps : list ChunkRefMap) (db bound : Z) : result DetoastError Cache :=
  if fill_on_miss rs then Ok ∅ else prefetch_rels rs db bound (iter_rels (fold_left (want maps) ps ∅)) ∅.

(** ** Resolving *)
Record ValueResolution := MkRes { uses : gmap (Z * Z) Z; cache : Cache; retained : Z; notes : list Note }.

Definition retain (st : ValueResolution) (n : Z) : ValueResolution := MkRes (uses st) (cache st) (retained st + n) (notes st).
Definition note (st : ValueResolution) (n : Note) : ValueResolution := MkRes (uses st) (cache st) (retained st) (notes st ++ [n]).

(** [resolve_store]: the prefetched value, moved out on its last use. *)
Definition resolve_store (rs : ToastResolver) (st : ValueResolution) (p : ToastPointer) (type_oid : Z) : result DetoastError (ColumnValue * ValueResolution) :=
  let? cs :=
    if fill_on_miss rs then Ok (Err NoStore, st)
    else
      match uses st !! key p with
      | None => Err DPanic
      | Some u =>
          let u := u - 1 in
          let c := if 0 <? u then cache st else delete (key p) (cache st) in
          match cache st !! key p with
          | None => Err DPanic
          | Some x => Ok (x, MkRes (<[key p := u]> (uses st)) c (retained st) (notes st))
          end
      end in
  let '(cached, st) := cs in
  match cached with
  | Ok raw => Ok (detoasted_value raw type_oid, retain st (zlen raw))
  | Err miss => let '(r, n) := fill_store_miss miss p Streaming in let? v := r in Ok (v, note st n)
  end.

(** One column of [resolve_tuple]. *)
Definition resolve_column (rs : ToastResolver) (spool : option (list Z)) (maps : list ChunkRefMap) (st : ValueResolution) (p : ToastPointer) (type_oid : Z)
    : result DetoastError (ColumnValue * ValueResolution) :=
  if value_oversize rs p then Ok (Null, note st FilledOversize)
  else
    match in_maps maps (key p) with
    | Some v =>
        if negb (observed_mid_value v) then
          match reassemble_value_ref p spool v with
          | Err e => Err (DValue e)
          | Ok (Bytes raw) => Ok (detoasted_value raw type_oid, retain st (zlen raw))
          | Ok ToastRef.Missing =>
              if fill_on_miss rs then Ok (Null, note st FilledDefault)
              else Err (DMissingToastChunk (va_toastrelid p) (va_valueid p) (first_missing_seq_ref v))
          | Ok (SizeMismatch got want) => Err (DSizeMismatch (va_toastrelid p) (va_valueid p) got want)
          end
        else resolve_store rs st p type_oid
    | None => resolve_store rs st p type_oid
    end.

Fixpoint resolve_tuple (rs : ToastResolver) (spool : option (list Z)) (maps : list ChunkRefMap) (st : ValueResolution)
    (cols : list (option ColumnValue)) (attrs : list RelAttr) : result DetoastError (list (option ColumnValue) * ValueResolution) :=
  match cols with
  | [] => Ok ([], st)
  | c :: cols =>
      let? cs := match pointer_of c with
                 | None => Ok (c, st)
                 | Some p =>
                     let? vs := resolve_column rs spool maps st p (match attrs with a :: _ => Schema.type_oid a | [] => 0 end) in
                     Ok (Some vs.1, vs.2)
                 end in
      let? r := resolve_tuple rs spool maps cs.2 cols (tail attrs) in
      Ok (cs.1 :: r.1, r.2)
  end.

Definition resolve_opt (rs : ToastResolver) (spool : option (list Z)) (maps : list ChunkRefMap) (st : ValueResolution) (t : option DecodedTuple) (rel : RelDescriptor)
    : result DetoastError (option DecodedTuple * ValueResolution) :=
  match t with
  | None => Ok (None, st)
  | Some t => let? r := resolve_tuple rs spool maps st (columns t) (attributes rel) in Ok (Some (MkTuple r.1 (partial t)), r.2)
  end.

Definition count_use (u : gmap (Z * Z) Z) (p : ToastPointer) : gmap (Z * Z) Z := <[key p := default 0 (u !! key p) + 1]> u.

(** [detoast_heap]: the heap resolved, the bytes the permit keeps, and what was
    counted. *)
Definition detoast_heap (rs : ToastResolver) (spool : option (list Z)) (maps : list ChunkRefMap) (h : DescribedHeap)
    : result DetoastError (DescribedHeap * Z * list Note) :=
  let d := decoded h in
  let ps := collect_toast_pointers (new d) ++ collect_toast_pointers (old d) in
  match ps with
  | [] => Ok (h, 0, [])
  | _ =>
      match check_value_caps ps (inline_value_max rs) (overflow rs) with
      | Err e => Err (DValue e)
      | Ok _ =>
          let ps := filter (fun p => value_oversize rs p = false) ps in
          let? c := prefetch_store_values rs ps maps (db_node (rfn d)) (source_lsn d) in
          let? n := resolve_opt rs spool maps (MkRes (fold_left count_use ps ∅) c 0 []) (new d) (descriptor h) in
          let? o := resolve_opt rs spool maps n.2 (old d) (descriptor h) in
          Ok (MkDescribed (MkHeap (rfn d) (xid d) (source_lsn d) (op d) n.1 o.1) (descriptor h) (descriptor_valid_from h), retained o.2, notes o.2)
      end
  end.

End Detoast.

End Detoast.
