(* ===== verification/DetoastProofs.v ===== *)
(** * Batching, caching and moving values out change nothing

    However many columns share a value, in whatever order the relations are
    fetched, the row [detoast_heap] returns is the row with each pointer
    replaced on its own, and the panics of the cache are never reached. *)
From S2P Require Import Prelude Pos WalRecord AsciiBuf Numeric HeapDecode Wire DescCodec Spill ToastRef ChunkStore ChunkStoreProofs Detoast.
Import WalRecord Schema HeapDecode Spill Detoast.
Import ToastRef (ValueRef, ToastError, InlineValueOverflow, OverflowNull, OverflowError, pointer_extsize, pointer_footprint, check_value_caps, detoasted_value, finish_value, observed_mid_value, first_missing_seq_ref, reassemble_value_ref, Bytes, SizeMismatch).

Module DetoastProofs.

Section Proofs.
Context `{Decompress}.
Context (iter_rels : gmap Z (gmap Z ToastPointer) -> list (Z * gmap Z ToastPointer)) (iter_ptrs : gmap Z ToastPointer -> list (Z * ToastPointer)).
Hypothesis iter_rels_perm : forall m, iter_rels m ≡ₚ map_to_list m.
Hypothesis iter_ptrs_perm : forall m, iter_ptrs m ≡ₚ map_to_list m.
Context (rs : ToastResolver) (spool : option (list Z)) (maps : list ChunkRefMap) (db bound : Z).

(** The transaction's own value, complete from its first chunk. *)
Definition own (p : ToastPointer) : option ValueRef :=
  match in_maps maps (key p) with Some v => if observed_mid_value v then None else Some v | None => None end.

Definition store_for : option ChunkStore :=
  match store rs with None => None | Some s => match database_stores rs with Some m => m !! db | None => Some s end end.

(** What the store gives for a pointer, [None] when it does not decompress. *)
Definition stored (s : ChunkStore) (p : ToastPointer) : option (result StoreMiss (list Z)) :=
  match split (Some (fetch_one (ChunkStore := s) db (va_toastrelid p) (va_valueid p, pointer_extsize p) bound)) with
  | Ok b => match finish_value p b with Ok raw => Some (Ok raw) | Err _ => None end
  | Err miss => Some (Err miss)
  end.

(** One pointer on its own: the value, or [None] for an error. *)
Definition column_of (p : ToastPointer) (type_oid : Z) : option ColumnValue :=
  if value_oversize rs p then Some Null
  else
    match own p, store_for with
    | Some v, s =>
        match reassemble_value_ref p spool v with
        | Ok (Bytes raw) => Some (detoasted_value raw type_oid)
        | Ok ToastRef.Missing => if is_some s then None else Some Null
        | _ => None
        end
    | None, None => Some Null
    | None, Some s => let* c := stored s p in Some (match c with Ok raw => detoasted_value raw type_oid | Err _ => Null end)
    end.

Fixpoint columns_of (cols : list (option ColumnValue)) (attrs : list RelAttr) : option (list (option ColumnValue)) :=
  match cols with
  | [] => Some []
  | c :: cols =>
      let* c := match pointer_of c with
                | None => Some c
                | Some p => Some <$> column_of p (match attrs with a :: _ => Schema.type_oid a | [] => 0 end)
                end in
      let* r := columns_of cols (tail attrs) in
      Some (c :: r)
  end.

(** ** The cache *)
Context (PS : list ToastPointer).
Hypothesis coherent_ptrs : forall p q, p ∈ PS -> q ∈ PS -> key p = key q -> p = q.

Section Store.
Context (s : ChunkStore).
Hypothesis store_is : store_for = Some s.
Hypothesis fetches : forall relid values, relid ∈ map va_toastrelid PS -> NoDup (map fst values) -> exists got, fetch_many (ChunkStore := s) db relid values bound = Ok got.

Definition good (c : gmap (Z * Z) (result StoreMiss (list Z))) : Prop := forall k x, c !! k = Some x -> exists p, p ∈ PS /\ key p = k /\ stored s p = Some x.

Lemma good_lookup c p : good c -> p ∈ PS -> is_Some (c !! key p) -> c !! key p = stored s p.
Proof. intros Hg Hp [x Hx]. destruct (Hg _ _ Hx) as (q & Hq & Hk & Hs). rewrite (coherent_ptrs q p Hq Hp Hk) in Hs. congruence. Qed.

Definition answers (ps : list ToastPointer) : list FetchedValue :=
  map (fun p => fetch_one (ChunkStore := s) db (va_toastrelid p) (va_valueid p, pointer_extsize p) bound) ps.

Lemma cache_all_spec ps : forall c, good c -> (forall p, p ∈ ps -> p ∈ PS) ->
  match cache_all ps (answers ps) c with
  | Ok c' => good c' /\ (forall p, p ∈ ps -> stored s p <> None) /\ forall k, is_Some (c' !! k) <-> is_Some (c !! k) \/ k ∈ map key ps
  | Err e => e <> DPanic /\ exists p, p ∈ ps /\ stored s p = None
  end.
Proof.
  induction ps as [|p ps IH]; intros c Hg Hps; cbn [answers map cache_all]; [split; [done|]; split; [intros p []%not_elem_of_nil|]; intros k; split; [by left|]; intros [?|[]%not_elem_of_nil]; done|].
  fold (answers ps). assert (forall x, stored s p = Some x -> good (<[key p := x]> c)) as Hgood.
  { intros x Hx k y. destruct (decide (key p = k)) as [<-|Hne]; [rewrite lookup_insert_eq; intros [= <-]; exists p; split; [apply Hps; set_solver|done]|].
    rewrite lookup_insert_ne by done. apply Hg. }
  assert (forall x, stored s p = Some x -> match cache_all ps (answers ps) (<[key p := x]> c) with
    | Ok c' => good c' /\ (forall q, q ∈ p :: ps -> stored s q <> None) /\ forall k, is_Some (c' !! k) <-> is_Some (c !! k) \/ k ∈ map key (p :: ps)
    | Err e => e <> DPanic /\ exists q, q ∈ p :: ps /\ stored s q = None end) as Hgo.
  { intros x Hx. specialize (IH (<[key p := x]> c) (Hgood x Hx) ltac:(intros q Hq; apply Hps; set_solver)). destruct (cache_all ps _ _) as [c'|e].
    - destruct IH as (I1 & I2 & I3). split; [done|]. split; [intros q [->|Hq]%elem_of_cons; [congruence|by apply I2]|]. intros k. rewrite I3. cbn [map]. rewrite elem_of_cons.
      destruct (decide (key p = k)) as [<-|Hne]; [rewrite lookup_insert_eq; split; [auto|intros _; left; by eexists]|].
      rewrite lookup_insert_ne by done. split; [intros [?|?]; auto|]. intros [?|[?|?]]; [auto|congruence|auto].
    - destruct IH as (I1 & q & Hq & I2). split; [done|]. exists q. split; [set_solver|done]. }
  assert (stored s p = match split (Some (fetch_one db (va_toastrelid p) (va_valueid p, pointer_extsize p) bound)) with
    | Ok b => match finish_value p b with Ok raw => Some (Ok raw) | Err _ => None end | Err miss => Some (Err miss) end) as Es by done. revert Es.
  destruct (split (Some _)) as [b|miss]; [destruct (finish_value p b) as [raw|e]|]; intros Es; [by apply Hgo| |by apply Hgo].
  split; [done|]. exists p. split; [set_solver|done].
Qed.

(** Entries of [inner] are pointers of [PS] into [relid], under their own ids. *)
Definition inner_ok (relid : Z) (inner : gmap Z ToastPointer) : Prop := forall id p, inner !! id = Some p -> p ∈ PS /\ va_toastrelid p = relid /\ va_valueid p = id.

Lemma inner_ptrs relid inner p : inner_ok relid inner -> p ∈ map snd (iter_ptrs inner) <-> inner !! va_valueid p = Some p.
Proof.
  intros Hi. rewrite list_elem_of_fmap. split.
  - intros ([id q] & -> & Hq). rewrite iter_ptrs_perm in Hq. apply elem_of_map_to_list in Hq. destruct (Hi _ _ Hq) as (_ & _ & <-). done.
  - intros Hp. exists (va_valueid p, p). split; [done|]. rewrite iter_ptrs_perm. by apply elem_of_map_to_list.
Qed.

Lemma inner_nodup relid inner : inner_ok relid inner -> NoDup (map fst (map (fun p => (va_valueid p, pointer_extsize p)) (map snd (iter_ptrs inner)))).
Proof.
  intros Hi. rewrite !map_map. cbn [fst]. assert (map (fun x : Z * ToastPointer => va_valueid x.2) (iter_ptrs inner) = map fst (iter_ptrs inner)) as ->.
  { apply map_ext_in. intros [id p] Hin%list_elem_of_In. rewrite iter_ptrs_perm in Hin. apply elem_of_map_to_list in Hin. by destruct (Hi _ _ Hin) as (_ & _ & E). }
  rewrite iter_ptrs_perm. apply NoDup_fst_map_to_list.
Qed.

Lemma fetch_values_spec relid inner : inner_ok relid inner -> fetch_values rs db relid (map (fun p => (va_valueid p, pointer_extsize p)) (map snd (iter_ptrs inner))) bound =
  Ok (Some (answers (map snd (iter_ptrs inner)))).
Proof.
  intros Hi. pose proof (inner_nodup relid inner Hi) as Hnd. set (ps := map snd (iter_ptrs inner)) in *.
  assert (forall p, p ∈ ps -> va_toastrelid p = relid) as Hrel by (intros p Hp%(inner_ptrs relid); [|done]; by destruct (Hi _ _ Hp) as (_ & ? & _)).
  pose proof store_is as Hst. unfold fetch_values, store_for in *. destruct (store rs) as [s0|]; [|done]. case_bool_decide as Hlen.
  { rewrite length_map in Hlen. apply nil_length_inv in Hlen. by rewrite Hlen. }
  assert ((let? s := match database_stores rs with Some m => match m !! db with Some s => Ok s | None => Err (Shadow db) end | None => Ok s0 end in
           let? got := fetch_many (ChunkStore := s) db relid (map (fun p => (va_valueid p, pointer_extsize p)) ps) bound in Ok (Some got)) =
          (let? got := fetch_many (ChunkStore := s) db relid (map (fun p => (va_valueid p, pointer_extsize p)) ps) bound in Ok (Some got))) as ->.
  { destruct (database_stores rs) as [m|]; [by rewrite Hst|by injection Hst as ->]. }
  assert (relid ∈ map va_toastrelid PS) as Hin.
  { destruct ps as [|p ps'] eqn:Eps; [done|]. assert (p ∈ map snd (iter_ptrs inner)) as Hp by (unfold ps in Eps; rewrite Eps; set_solver).
    apply (inner_ptrs relid) in Hp; [|done]. destruct (Hi _ _ Hp) as (? & ? & _). apply list_elem_of_fmap. by exists p. }
  destruct (fetches relid _ Hin Hnd) as [got Hgot]. rewrite Hgot. rewrite (fetch_aligned _ _ _ _ _ Hnd Hgot). do 2 f_equal. unfold answers. rewrite map_map.
  apply map_ext_in. intros p Hp%list_elem_of_In. by rewrite (Hrel p Hp).
Qed.

(** What the loop over relations leaves. *)
Lemma prefetch_rels_spec L : forall c, good c -> (forall x, x ∈ L -> inner_ok x.1 x.2) ->
  match prefetch_rels iter_ptrs rs db bound L c with
  | Ok c' => good c' /\ (forall k, is_Some (c !! k) -> is_Some (c' !! k)) /\
      forall x id p, x ∈ L -> x.2 !! id = Some p -> is_Some (c' !! key p) /\ stored s p <> None
  | Err e => e <> DPanic /\ exists x id p, x ∈ L /\ x.2 !! id = Some p /\ stored s p = None
  end.
Proof.
  induction L as [|[relid inner] L IH]; intros c Hg HL; cbn [prefetch_rels]; [split; [done|]; split; [done|]; intros x id p []%not_elem_of_nil|].
  pose proof (HL (relid, inner) ltac:(set_solver)) as Hi. cbn [fst snd] in Hi. rewrite (fetch_values_spec relid inner Hi).
  pose proof (cache_all_spec (map snd (iter_ptrs inner)) c Hg) as Hc. assert (forall p, p ∈ map snd (iter_ptrs inner) -> p ∈ PS) as Hps.
  { intros p Hp%(inner_ptrs relid); [|done]. by destruct (Hi _ _ Hp). }
  specialize (Hc Hps). destruct (cache_all _ _ c) as [c1|e].
  - destruct Hc as (C1 & C2 & C3). specialize (IH c1 C1 ltac:(intros x Hx; apply HL; set_solver)). cbn. destruct (prefetch_rels _ _ _ _ L c1) as [c2|e].
    + destruct IH as (I1 & I2 & I3). split; [done|]. split; [intros k Hk; apply I2, C3; by left|]. intros x id p [->|Hx]%elem_of_cons Hp; [|by eapply I3].
      cbn [snd] in Hp. assert (p ∈ map snd (iter_ptrs inner)) as Hin by (apply (inner_ptrs relid); [done|]; destruct (Hi _ _ Hp) as (_ & _ & ->); done).
      split; [apply I2, C3; right; apply list_elem_of_fmap; by exists p|by apply C2].
    + destruct IH as (I1 & x & id & p & Hx & Hp). split; [done|]. exists x, id, p. split; [set_solver|done].
  - destruct Hc as (C1 & p & Hp & C2). cbn. split; [done|]. exists (relid, inner), (va_valueid p), p. split; [set_solver|]. split; [by apply (inner_ptrs relid)|done].
Qed.

End Store.

(** ** What is wanted *)
Definition wanted_ok (w : gmap Z (gmap Z ToastPointer)) (ps : list ToastPointer) : Prop :=
  (forall relid inner, w !! relid = Some inner -> inner_ok relid inner /\ forall id p, inner !! id = Some p -> p ∈ ps /\ own p = None) /\
  forall p, p ∈ ps -> own p = None -> exists inner, w !! va_toastrelid p = Some inner /\ inner !! va_valueid p = Some p.

Lemma want_fold ps : (forall p, p ∈ ps -> p ∈ PS) -> wanted_ok (fold_left (want maps) ps ∅) ps.
Proof.
  induction ps as [|x ps IH] using rev_ind; intros Hps; [split; [done|]; intros p []%not_elem_of_nil|].
  rewrite fold_left_app. cbn [fold_left]. destruct (IH ltac:(intros p Hp; apply Hps; set_solver)) as [W1 W2]. set (w := fold_left (want maps) ps ∅) in *. clearbody w. clear IH.
  assert (x ∈ PS) as Hx by (apply Hps; set_solver). assert (forall a, a ∈ ps ++ [x] <-> a ∈ ps \/ a = x) as Hin by set_solver.
  assert (own x <> None -> wanted_ok w (ps ++ [x])) as Hskip.
  { intros Ho. split; [intros relid inner Hw; destruct (W1 _ _ Hw) as [W3 W4]; split; [done|]; intros id p Hp; destruct (W4 id p Hp); split; [set_solver|done]|].
    intros p [Hp| ->]%Hin Hop; [by apply W2|done]. }
  assert (own x = None -> wanted_ok (<[va_toastrelid x := <[va_valueid x := x]> (default ∅ (w !! va_toastrelid x))]> w) (ps ++ [x])) as Hadd.
  { intros Ho. split.
    - intros relid inner. destruct (decide (va_toastrelid x = relid)) as [<-|Hne].
      + rewrite lookup_insert_eq. intros [= <-]. assert (forall id p, <[va_valueid x := x]> (default ∅ (w !! va_toastrelid x)) !! id = Some p ->
          p = x /\ id = va_valueid x \/ exists inner, w !! va_toastrelid x = Some inner /\ inner !! id = Some p) as Hcase.
        { intros id p. destruct (decide (va_valueid x = id)) as [<-|Hne]; [rewrite lookup_insert_eq; intros [= <-]; by left|]. rewrite lookup_insert_ne by done.
          destruct (w !! va_toastrelid x) as [inner|]; [right; by exists inner|done]. }
        split; intros id p [[-> ->]|(inner & Hw & Hp)]%Hcase; [done| |split; [set_solver|done]|]; destruct (W1 _ _ Hw) as [W3 W4]; [by apply W3|].
        destruct (W4 id p Hp). split; [set_solver|done].
      + rewrite lookup_insert_ne by done. intros Hw. destruct (W1 _ _ Hw) as [W3 W4]. split; [done|]. intros id p Hp. destruct (W4 id p Hp). split; [set_solver|done].
    - intros p Hp Hop. destruct (decide (va_toastrelid x = va_toastrelid p)) as [E|Hne].
      + rewrite <-E, lookup_insert_eq. eexists. split; [done|]. destruct (decide (va_valueid x = va_valueid p)) as [E'|Hne'].
        * rewrite E', lookup_insert_eq. f_equal. apply coherent_ptrs; [done|by apply Hps|unfold key; congruence].
        * rewrite lookup_insert_ne by done. apply Hin in Hp as [Hp| ->]; [|done]. destruct (W2 p Hp Hop) as (inner & Hw & Hi). by rewrite E, Hw.
      + rewrite lookup_insert_ne by done. apply Hin in Hp as [Hp| ->]; [|done]. by apply W2. }
  unfold want, own in *. destruct (in_maps maps (key x)) as [v|]; [|by apply Hadd]. destruct (observed_mid_value v); [by apply Hadd|by apply Hskip].
Qed.

(** ** Resolving one pointer after the other *)
Definition uses_of (Q : list ToastPointer) (k : Z * Z) : Z := Z.of_nat (length (filter (fun q => key q = k) Q)).

Lemma uses_of_cons q Q k : uses_of (q :: Q) k = (if decide (key q = k) then 1 else 0) + uses_of Q k.
Proof. unfold uses_of. rewrite filter_cons. destruct (decide (key q = k)); cbn [length]; lia. Qed.

Lemma uses_of_pos q Q : q ∈ Q -> 0 < uses_of Q (key q).
Proof.
  intros Hq. unfold uses_of. assert (q ∈ filter (fun x => key x = key q) Q) as Hin by (by apply list_elem_of_filter).
  destruct (filter _ Q); [by apply not_elem_of_nil in Hin|]. cbn [length]. lia.
Qed.

Lemma count_fold ps k : default 0 (fold_left count_use ps ∅ !! k) = uses_of ps k.
Proof.
  induction ps as [|p ps IH] using rev_ind; [done|]. rewrite fold_left_app. cbn [fold_left]. unfold count_use at 1. unfold uses_of in *. rewrite list.filter_app, length_app.
  rewrite filter_cons, filter_nil. destruct (decide (key p = k)) as [<-|Hne]; [rewrite lookup_insert_eq; cbn [default from_option id length]; lia|].
  rewrite lookup_insert_ne by done. cbn [length]. lia.
Qed.

Lemma count_lookup ps p : p ∈ ps -> fold_left count_use ps ∅ !! key p = Some (uses_of ps (key p)).
Proof.
  intros Hp%uses_of_pos. pose proof (count_fold ps (key p)) as Hc. destruct (fold_left count_use ps ∅ !! key p) as [u|]; cbn in Hc; [congruence|lia].
Qed.

Context (os : option ChunkStore).
Hypothesis store_ok : match os with
  | None => store rs = None
  | Some s => store_for = Some s /\ forall relid values, relid ∈ map va_toastrelid PS -> NoDup (map fst values) -> exists got, fetch_many (ChunkStore := s) db relid values bound = Ok got
  end.

Lemma store_for_os : store_for = os.
Proof. destruct os as [s|]; [apply store_ok|]. unfold store_for. by rewrite store_ok. Qed.

Lemma fill_on_miss_os : fill_on_miss rs = negb (is_some os).
Proof.
  pose proof store_for_os as E. unfold fill_on_miss, store_for in *. destruct (store rs), os; try done.
Qed.

Definition ready (st : ValueResolution) (Q : list ToastPointer) : Prop :=
  match os with
  | None => True
  | Some s => good s (cache st) /\ forall p, p ∈ Q -> own p = None -> is_Some (cache st !! key p) /\ uses st !! key p = Some (uses_of Q (key p))
  end.

Lemma ready_skip st Q p : ready st (p :: Q) -> own p <> None -> ready st Q.
Proof.
  clear store_ok. unfold ready. destruct os as [s|]; [|done]. intros [Hg Hq] Ho. split; [done|]. intros q Hin Hoq. destruct (Hq q ltac:(set_solver) Hoq) as [H1 H2]. split; [done|].
  rewrite H2, uses_of_cons, decide_False; [done|]. intros E. apply Ho. unfold own in *. by rewrite E.
Qed.

Lemma ready_move st Q p c : ready st (p :: Q) -> own p = None -> os <> None ->
  (forall k, k <> key p \/ 0 < uses_of Q (key p) -> c !! k = cache st !! k) -> (forall k x, c !! k = Some x -> cache st !! k = Some x) ->
  ready (MkRes (<[key p := uses_of Q (key p)]> (uses st)) c (retained st) (notes st)) Q.
Proof.
  clear store_ok. unfold ready. destruct os as [s|]; [|done]. intros [Hg Hq] Ho _ Hc Hsub. cbn [cache uses]. split; [intros k x Hx; by apply Hg, Hsub|]. intros q Hin Hoq.
  destruct (Hq q ltac:(set_solver) Hoq) as [H1 H2]. destruct (decide (key p = key q)) as [E|Hne].
  - rewrite E, lookup_insert_eq. split; [|done]. rewrite Hc; [done|]. right. rewrite E. by apply uses_of_pos.
  - rewrite lookup_insert_ne by done. rewrite Hc by auto. split; [done|]. by rewrite H2, uses_of_cons, decide_False.
Qed.

Lemma resolve_store_spec st Q p t : ready st (p :: Q) -> p ∈ PS -> own p = None -> match os with
  | None => exists st', resolve_store rs st p t = Ok (Null, st') /\ ready st' Q
  | Some s => match stored s p with
      | Some c => exists st', resolve_store rs st p t = Ok (match c with Ok raw => detoasted_value raw t | Err _ => Null end, st') /\ ready st' Q
      | None => True
      end
  end.
Proof.
  intros Hr Hp Ho. unfold resolve_store. rewrite fill_on_miss_os. clear store_ok. destruct os as [s|] eqn:Eos; cbn [is_some negb]; [|eexists; split; [done|by unfold ready; rewrite Eos]].
  destruct (stored s p) as [x|] eqn:Es; [|done]. pose proof Hr as Hr0. unfold ready in Hr0. rewrite Eos in Hr0. destruct Hr0 as [Hg Hq]. destruct (Hq p ltac:(set_solver) Ho) as [Hc Hu].
  rewrite Hu. rewrite (good_lookup s _ p Hg Hp Hc), Es. rewrite uses_of_cons, decide_True by done. replace (1 + uses_of Q (key p) - 1) with (uses_of Q (key p)) by lia.
  set (c := if 0 <? uses_of Q (key p) then cache st else delete (key p) (cache st)).
  assert (ready (MkRes (<[key p := uses_of Q (key p)]> (uses st)) c (retained st) (notes st)) Q) as Hready.
  { apply ready_move; [done|done|by rewrite Eos| |]; subst c; destruct (Z.ltb_spec 0 (uses_of Q (key p))); try done.
    - intros k [Hk|]; [|lia]. by rewrite lookup_delete_ne.
    - intros k y [_ Hy]%lookup_delete_Some. done. }
  assert (forall n st', st' = retain (MkRes (<[key p := uses_of Q (key p)]> (uses st)) c (retained st) (notes st)) n -> ready st' Q) as Hr1.
  { intros n st' ->. unfold ready in *. rewrite Eos in *. done. }
  assert (forall n st', st' = note (MkRes (<[key p := uses_of Q (key p)]> (uses st)) c (retained st) (notes st)) n -> ready st' Q) as Hr2.
  { intros n st' ->. unfold ready in *. rewrite Eos in *. done. }
  destruct x as [raw|miss]; cbn; [eexists; split; [done|by eapply Hr1]|]. destruct miss; cbn; eexists; (split; [done|by eapply Hr2]).
Qed.

Definition next_ptrs (p : ToastPointer) (Q : list ToastPointer) : list ToastPointer := if value_oversize rs p then Q else p :: Q.

Lemma resolve_column_spec st Q p t : ready st (next_ptrs p Q) -> (value_oversize rs p = false -> p ∈ PS) ->
  (forall s, os = Some s -> value_oversize rs p = false -> own p = None -> stored s p <> None) -> match column_of p t with
  | Some v => exists st', resolve_column rs spool maps st p t = Ok (v, st') /\ ready st' Q
  | None => exists e, resolve_column rs spool maps st p t = Err e /\ e <> DPanic
  end.
Proof.
  unfold column_of, resolve_column, next_ptrs. rewrite store_for_os, fill_on_miss_os. pose proof resolve_store_spec as Hstore. clear store_ok. destruct (value_oversize rs p); intros Hr Hp Hst; [eexists; split; [done|]; unfold ready in *; by destruct os|].
  specialize (Hp eq_refl). pose proof (Hstore st Q p t Hr Hp) as Hs. clear Hstore. pose proof (ready_skip st Q p Hr) as Hk. revert Hs Hk Hst. unfold own.
  destruct (in_maps maps (key p)) as [v|] eqn:Ev; [destruct (observed_mid_value v)|]; cbn [negb]; intros Hs Hk Hst.
  1,3: specialize (Hs eq_refl); destruct os as [s|]; [|done]; specialize (Hst s eq_refl eq_refl eq_refl); destruct (stored s p); done.
  specialize (Hk ltac:(done)). destruct (reassemble_value_ref p spool v) as [[raw| |got want]|e]; [| | |by eexists].
  - eexists. split; [done|]. unfold ready in *. by destruct os.
  - destruct os as [s|]; cbn [is_some negb]; [by eexists|]. eexists. split; [done|]. done.
  - by eexists.
Qed.

(** The pointers a tuple's columns use up. *)
Definition ptrs_of (cols : list (option ColumnValue)) : list ToastPointer := filter (fun p => value_oversize rs p = false) (omap pointer_of cols).

Lemma resolve_tuple_spec cols : forall attrs st Q, ready st (ptrs_of cols ++ Q) -> (forall p, p ∈ ptrs_of cols -> p ∈ PS) ->
  (forall s p, os = Some s -> p ∈ ptrs_of cols -> own p = None -> stored s p <> None) -> match columns_of cols attrs with
  | Some cols' => exists st', resolve_tuple rs spool maps st cols attrs = Ok (cols', st') /\ ready st' Q
  | None => exists e, resolve_tuple rs spool maps st cols attrs = Err e /\ e <> DPanic
  end.
Proof.
  induction cols as [|c cols IH]; intros attrs st Q Hr Hps Hst; cbn [columns_of resolve_tuple]; [by eexists|].
  unfold ptrs_of in *. cbn [omap list_omap] in *. destruct (pointer_of c) as [p|] eqn:Ep; cbn [mbind option_bind fmap option_fmap option_map].
  2:{ specialize (IH (tail attrs) st Q Hr Hps Hst). cbn. destruct (columns_of cols (tail attrs)); [|destruct IH as (e & -> & ?); by eexists].
      destruct IH as (st' & -> & ?). by eexists. }
  rewrite filter_cons in Hr, Hps. set (t := match attrs with a :: _ => Schema.type_oid a | [] => 0 end).
  assert (ready st (next_ptrs p (filter (fun p => value_oversize rs p = false) (omap pointer_of cols) ++ Q))) as Hr'.
  { unfold next_ptrs. destruct (value_oversize rs p); [by rewrite decide_False in Hr by done|by rewrite decide_True in Hr by done]. }
  pose proof (resolve_column_spec st _ p t Hr') as Hcol. specialize (Hcol ltac:(intros Ho; apply Hps; rewrite decide_True by done; set_solver) ltac:(intros s E Ho; apply Hst; [done|rewrite filter_cons, decide_True by done; set_solver])).
  destruct (column_of p t) as [v|]; [|destruct Hcol as (e & -> & ?); by eexists]. destruct Hcol as (st' & -> & Hr2). cbn.
  specialize (IH (tail attrs) st' Q Hr2 ltac:(intros q Hq; apply Hps; case_decide; set_solver) ltac:(intros s q E Hq; apply Hst; [done|rewrite filter_cons; case_decide; set_solver])).
  destruct (columns_of cols (tail attrs)); [|destruct IH as (e & -> & ?); by eexists]. destruct IH as (st2 & -> & ?). by eexists.
Qed.

(** ** The whole row *)
Definition tuple_of (t : option DecodedTuple) (rel : RelDescriptor) : option (option DecodedTuple) :=
  match t with None => Some None | Some t => let* cols := columns_of (columns t) (attributes rel) in Some (Some (MkTuple cols (partial t))) end.

Lemma resolve_opt_spec t rel st Q : ready st (filter (fun p => value_oversize rs p = false) (collect_toast_pointers t) ++ Q) ->
  (forall p, p ∈ collect_toast_pointers t -> value_oversize rs p = false -> p ∈ PS) ->
  (forall s p, os = Some s -> p ∈ collect_toast_pointers t -> value_oversize rs p = false -> own p = None -> stored s p <> None) -> match tuple_of t rel with
  | Some t' => exists st', resolve_opt rs spool maps st t rel = Ok (t', st') /\ ready st' Q
  | None => exists e, resolve_opt rs spool maps st t rel = Err e /\ e <> DPanic
  end.
Proof.
  intros Hr Hp Hs. destruct t as [t|]; cbn [tuple_of resolve_opt]; [|by eexists].
  pose proof (resolve_tuple_spec (columns t) (attributes rel) st Q Hr) as HT.
  specialize (HT ltac:(intros p [? ?]%list_elem_of_filter; by apply Hp) ltac:(intros s p E [? ?]%list_elem_of_filter; by apply Hs)). destruct (columns_of _ _) as [cols|]; cbn; [destruct HT as (st' & -> & ?)|destruct HT as (e & -> & ?)]; by eexists.
Qed.

Lemma columns_error p cols : forall attrs, p ∈ omap pointer_of cols -> (forall t, column_of p t = None) -> columns_of cols attrs = None.
Proof.
  induction cols as [|c cols IH]; intros attrs Hp Hc; cbn [omap list_omap] in Hp; [by apply not_elem_of_nil in Hp|]. cbn [columns_of].
  destruct (pointer_of c) as [q|] eqn:Eq.
  - apply elem_of_cons in Hp as [->|Hp]; [by rewrite Hc|]. destruct (column_of q _); [|done]. cbn. by rewrite (IH _ Hp Hc).
  - cbn. by rewrite (IH _ Hp Hc).
Qed.

Lemma tuple_error p t rel : p ∈ collect_toast_pointers t -> (forall ty, column_of p ty = None) -> tuple_of t rel = None.
Proof. destruct t as [t|]; intros Hp Hc; [|by apply not_elem_of_nil in Hp]. cbn [tuple_of]. by rewrite (columns_error p _ _ Hp Hc). Qed.

Lemma stored_error s p : os = Some s -> value_oversize rs p = false -> own p = None -> stored s p = None -> forall t, column_of p t = None.
Proof. intros Eos Ho Hw Hs t. unfold column_of. by rewrite Ho, Hw, store_for_os, Eos, Hs. Qed.

Lemma prefetch_spec : match prefetch_store_values iter_rels iter_ptrs rs PS maps db bound with
  | Ok c => ready (MkRes (fold_left count_use PS ∅) c 0 []) PS /\ forall s p, os = Some s -> p ∈ PS -> own p = None -> stored s p <> None
  | Err e => e <> DPanic /\ exists s p, os = Some s /\ p ∈ PS /\ own p = None /\ stored s p = None
  end.
Proof.
  unfold prefetch_store_values. rewrite fill_on_miss_os. pose proof store_ok as Hok. clear store_ok. unfold ready.
  destruct os as [s|]; cbn [is_some negb]; [|done]. destruct Hok as [Hst Hf]. destruct (want_fold PS ltac:(done)) as [W1 W2].
  set (w := fold_left (want maps) PS ∅) in *. clearbody w.
  assert (forall x, x ∈ iter_rels w -> w !! x.1 = Some x.2) as Hin by (intros [r i] Hx; rewrite iter_rels_perm in Hx; by apply elem_of_map_to_list in Hx).
  pose proof (prefetch_rels_spec s Hst Hf (iter_rels w) ∅ ltac:(intros k x Hk; by rewrite lookup_empty in Hk) ltac:(intros x Hx; by apply W1, Hin)) as HP.
  destruct (prefetch_rels _ _ _ _ _ _) as [c|e].
  - destruct HP as (P1 & _ & P3). assert (forall p, p ∈ PS -> own p = None -> is_Some (c !! key p) /\ stored s p <> None) as Hall.
    { intros p Hp Ho. destruct (W2 p Hp Ho) as (inner & Hw & Hi). apply (P3 (va_toastrelid p, inner) (va_valueid p)); [|done]. rewrite iter_rels_perm. by apply elem_of_map_to_list. }
    split; [split; [done|]|].
    + intros p Hp Ho. split; [by apply Hall|by apply count_lookup].
    + intros s' p [= <-] Hp Ho. by apply Hall.
  - destruct HP as (P1 & x & id & p & Hx & Hp & P2). split; [done|]. exists s, p. split; [done|]. destruct (W1 _ _ (Hin x Hx)) as [_ W4]. destruct (W4 id p Hp). done.
Qed.

End Proofs.

Lemma columns_plain `{Decompress} rs spool maps db bound cols : forall attrs, omap pointer_of cols = [] -> columns_of rs spool maps db bound cols attrs = Some cols.
Proof.
  induction cols as [|c cols IH]; intros attrs Hc; [done|]. cbn [omap list_omap columns_of] in *. destruct (pointer_of c); [done|]. cbn. by rewrite IH.
Qed.

Lemma tuple_plain `{Decompress} rs spool maps db bound t rel : collect_toast_pointers t = [] -> tuple_of rs spool maps db bound t rel = Some t.
Proof. destruct t as [[cols pa]|]; [|done]. cbn. intros Hc. by rewrite columns_plain. Qed.

(** C26: Resolving the TOAST pointers of a row, with its batched fetch per
    relation, its cache and its last use that moves the value out, gives the row
    in which each pointer is replaced on its own: oversized values by NULL, a
    value of the transaction by its reassembled chunks, any other by what the
    store assembled as of the row's position or by NULL.  When some pointer has
    an error on its own the row fails; the cache's panics are unreachable. *)
Theorem detoast_resolves `{Decompress} iter_rels iter_ptrs rs spool maps h os need
    (d := decoded h) (db := db_node (rfn d)) (bound := source_lsn d) (ps := collect_toast_pointers (new d) ++ collect_toast_pointers (old d)) :
  (forall m, iter_rels m ≡ₚ map_to_list m) -> (forall m, iter_ptrs m ≡ₚ map_to_list m) ->
  (forall p q, p ∈ ps -> q ∈ ps -> key p = key q -> p = q) ->
  match os with
  | None => store rs = None
  | Some s => store_for rs db = Some s /\ forall relid values, relid ∈ map va_toastrelid ps -> NoDup (map fst values) -> exists got, fetch_many (ChunkStore := s) db relid values bound = Ok got
  end ->
  check_value_caps ps (inline_value_max rs) (overflow rs) = Ok need ->
  match tuple_of rs spool maps db bound (new d) (descriptor h), tuple_of rs spool maps db bound (old d) (descriptor h) with
  | Some n, Some o => exists kept notes, detoast_heap iter_rels iter_ptrs rs spool maps h =
      Ok (MkDescribed (MkHeap (rfn d) (xid d) bound (op d) n o) (descriptor h) (descriptor_valid_from h), kept, notes)
  | _, _ => exists e, detoast_heap iter_rels iter_ptrs rs spool maps h = Err e /\ e <> DPanic
  end.
Proof.
  intros Hr Hp Hcoh Hok Hcap. unfold detoast_heap. fold d. fold ps. destruct ps as [|p0 ps0] eqn:Eps.
  { destruct (app_eq_nil _ _ Eps) as [En Eo]. rewrite !tuple_plain by done. eexists _, _. subst d. by destruct h as [[] ? ?]. }
  rewrite <-Eps in *. rewrite Hcap. set (PS := filter (fun p => value_oversize rs p = false) ps).
  assert (forall p q, p ∈ PS -> q ∈ PS -> key p = key q -> p = q) as HcohP by (intros p q [_ ?]%list_elem_of_filter [_ ?]%list_elem_of_filter; by apply Hcoh).
  assert (match os with
    | None => store rs = None
    | Some s => store_for rs db = Some s /\ forall relid values, relid ∈ map va_toastrelid PS -> NoDup (map fst values) -> exists got, fetch_many (ChunkStore := s) db relid values bound = Ok got
    end) as HokP.
  { destruct os as [s|]; [|done]. destruct Hok as [? Hf]. split; [done|]. intros relid values (p & -> & [_ Hin]%list_elem_of_filter)%list_elem_of_fmap.
    apply Hf, list_elem_of_fmap. by exists p. }
  clear Hok. rename HokP into Hok. pose proof (prefetch_spec iter_rels iter_ptrs Hr Hp rs maps db bound PS HcohP os Hok) as Hpre. fold db bound.
  destruct (prefetch_store_values _ _ rs PS maps db bound) as [c|e].
  2:{ destruct Hpre as (He & s & p & Eos & [Ho Hin]%list_elem_of_filter & Hw & Hs). pose proof (stored_error rs spool maps db bound PS os Hok s p Eos Ho Hw Hs) as Hcol.
      apply elem_of_app in Hin as [Hin|Hin]; pose proof (tuple_error rs spool maps db bound p _ (descriptor h) Hin Hcol) as ->; [|destruct (tuple_of _ _ _ _ _ _ _)]; by exists e. }
  destruct Hpre as [Hready Hstored].
  assert (PS = filter (fun p => value_oversize rs p = false) (collect_toast_pointers (new d)) ++ filter (fun p => value_oversize rs p = false) (collect_toast_pointers (old d))) as EPS
    by apply list.filter_app.
  rewrite EPS in Hready at 3. assert (forall t, t = new d \/ t = old d -> forall p, p ∈ collect_toast_pointers t -> value_oversize rs p = false -> p ∈ PS) as Hin.
  { intros t Ht p Hpt Ho. apply list_elem_of_filter. split; [done|]. apply elem_of_app. destruct Ht as [->| ->]; auto. }
  pose proof (resolve_opt_spec iter_rels iter_ptrs Hr Hp rs spool maps db bound _ HcohP os Hok (new d) (descriptor h) _ _ Hready (Hin _ (or_introl eq_refl))) as Hn.
  specialize (Hn ltac:(intros s p E Hpt Ho; apply Hstored; [done|by apply (Hin (new d)); [left|..]])).
  destruct (tuple_of rs spool maps db bound (new d) (descriptor h)) as [n|]; [|destruct Hn as (e & -> & ?); by exists e]. destruct Hn as (st & -> & Hst). cbn.
  rewrite <-(app_nil_r (filter _ (collect_toast_pointers (old d)))) in Hst.
  pose proof (resolve_opt_spec iter_rels iter_ptrs Hr Hp rs spool maps db bound _ HcohP os Hok (old d) (descriptor h) st [] Hst (Hin _ (or_intror eq_refl))) as Ho.
  specialize (Ho ltac:(intros s p E Hpt Hv; apply Hstored; [done|by apply (Hin (old d)); [right|..]])).
  destruct (tuple_of rs spool maps db bound (old d) (descriptor h)) as [o|]; [|destruct Ho as (e & -> & ?); by exists e]. destruct Ho as (st2 & -> & _). by eexists _, _.
Qed.

(** ** A row that shares a stored value between its columns *)
#[local] Instance no_decompress : Decompress := MkDecompress (fun _ _ => None) (fun _ _ => None).

Definition ptr (id size : Z) : ToastPointer := MkToast (size + 4) size id 16403.

Definition toasted_cols (own_value : bool) : list (option ColumnValue) :=
  [Some (ExternalToast (ptr 7 3)); Some (Int4 1); Some (ExternalToast (if own_value then ptr 9 2 else ptr 7 3))].

Definition toasted_attr : RelAttr := MkAttr 1 [97] TEXTOID (-1) false false [] false (-1) 105 120 None.

Definition toasted_heap : DescribedHeap :=
  MkDescribed (MkHeap (MkRfn 1663 5 16400) 700 15 Update (Some (MkTuple (toasted_cols true) false)) (Some (MkTuple (toasted_cols false) false)))
    (MkDesc (MkRfn 1663 5 16400) 16400 16403 2200 ([], []) 114 112 (Full None) [toasted_attr; toasted_attr; toasted_attr] []) 1.

(** Value 9 is the transaction's own, value 7 is in the mirror. *)
Definition own_chunks : ChunkRefMap := {[ (16403, 9) := ToastRef.new 0 (ToastRef.Mem [104; 105]) ]}.

Definition demo_chunk : MemStore.StoreRow := MemStore.MkRow 5 16403 0 1 7 0 [97; 98; 99] 10.

Definition demo_mirror : gmap (Z * Z) (list MemStore.StoreRow) := {[ (5, 16403) := [demo_chunk] ]}.

Lemma chunk_indexed : ChunkStoreProofs.indexed [demo_chunk] 15.
Proof.
  split.
  - by intros r r' [[->%list_elem_of_singleton _] _] [[->%list_elem_of_singleton _] _].
  - by intros r [[->%list_elem_of_singleton _] _].
Qed.

Lemma demo_fetches values : exists got, MemStore.fetch_many map_to_list demo_mirror 5 16403 values 15 = Ok got.
Proof.
  unfold MemStore.fetch_many. change (demo_mirror !! (5, 16403)) with (Some [demo_chunk]).
  edestruct (ChunkStoreProofs.fetch_all_served map_to_list (fun m => reflexivity _) [demo_chunk] 15) as (got & E & _); [apply chunk_indexed| |by exists got].
  apply (ChunkStoreProofs.gathered_lists map_to_list (fun m => reflexivity _)); [|apply chunk_indexed].
  by intros r r' ->%list_elem_of_singleton ->%list_elem_of_singleton.
Qed.

Definition demo_resolver : ToastResolver :=
  MkResolver 100 OverflowError (Some (ChunkStoreProofs.mem_store map_to_list demo_mirror)) None.

Definition demo_ptrs : list ToastPointer := [ptr 7 3; ptr 9 2; ptr 7 3; ptr 7 3].

Lemma detoast_resolves_witness : exists h kept notes, detoast_heap map_to_list map_to_list demo_resolver None [own_chunks] toasted_heap = Ok (h, kept, notes) /\
  (columns <$> new (decoded h)) = Some [Some (TextVal [97; 98; 99]); Some (Int4 1); Some (TextVal [104; 105])] /\
  (columns <$> old (decoded h)) = Some [Some (TextVal [97; 98; 99]); Some (Int4 1); Some (TextVal [97; 98; 99])].
Proof.
  pose proof (detoast_resolves map_to_list map_to_list demo_resolver None [own_chunks] toasted_heap (store demo_resolver) 11) as HD. cbv zeta in HD.
  specialize (HD (fun m => reflexivity _) (fun m => reflexivity _)).
  change (collect_toast_pointers (new (decoded toasted_heap)) ++ collect_toast_pointers (old (decoded toasted_heap))) with demo_ptrs in HD.
  specialize (HD ltac:(intros p q; unfold demo_ptrs; rewrite !elem_of_cons, !elem_of_nil; intros [->|[->|[->|[->|[]]]]] [->|[->|[->|[->|[]]]]]; done)).
  assert (store_for demo_resolver 5 = store demo_resolver) as Hs by reflexivity.
  destruct (store demo_resolver) as [s|] eqn:Es; [|done]. specialize (HD ltac:(split; [exact Hs|intros relid values Hin _; cbn in Hin; assert (relid = 16403) as -> by set_solver; injection Es as <-; apply demo_fetches])).
  specialize (HD eq_refl). clear Hs Es s.
  destruct (tuple_of _ _ _ _ _ (new _) _) as [n|] eqn:En; [|by vm_compute in En]. destruct (tuple_of _ _ _ _ _ (old _) _) as [o|] eqn:Eo; [|by vm_compute in Eo].
  destruct HD as (kept & notes & E). eexists _, kept, notes. split; [exact E|]. cbn. vm_compute in En, Eo. by injection En as <-; injection Eo as <-.
Defined.

End DetoastProofs.
