(* ===== verification/Compat.v ===== *)
(** * Reading old rows under a new shape ([src/catalog/compat.rs])

    The predicate that decides whether the committed descriptor may decode rows
    written earlier in the same catalog change, and that it is right: under a
    descriptor it does not reject as physical, the decoder reads every old row
    as the old descriptor did. *)
From S2P Require Import Prelude Text WalRecord HeapDecode.
Import WalRecord Schema HeapDecode.

Module Compat.

Section Compat.
Context `{D : Decompress} `{F : FloatText}.

(** [heap_decoder::missing_defaults_equivalent]. *)
Definition pending_type (v : ColumnValue) : option Z :=
  match v with PgPending t _ | PgPendingText t _ => Some t | _ => None end.

Definition missing_defaults_equivalent (a b : RelAttr) : bool :=
  match pending_type (missing_value_for a), pending_type (missing_value_for b) with
  | Some x, Some y => x =? y
  | _, _ => value_eqb (missing_value_for a) (missing_value_for b)
  end.

Inductive Why :=
| OidMismatch | FilenodeRotated | RelkindChange | PersistenceChange | ToastRelationChange | AttributeTruncation
| AppendedNotNull | AttnumSequence | WalkFields | Resurrected | TypeChange | MissingValueChange | TypmodChange | StorageChange.

Inductive Incompat := Benign (why : Why) | Physical (why : Why).

Definition is_physical (e : Incompat) : bool := match e with Physical _ => true | Benign _ => false end.

Definition slot_compatible (o n : RelAttr) : result Incompat unit :=
  if negb (attnum o =? attnum n) then Err (Physical AttnumSequence)
  else if negb (type_len o =? type_len n) || negb (type_align o =? type_align n) || negb (Bool.eqb (type_byval o) (type_byval n)) then
    Err (Physical WalkFields)
  else if dropped o && negb (dropped n) then Err (Physical Resurrected)
  else if dropped n then Ok tt
  else if negb (type_oid o =? type_oid n) then Err (Physical TypeChange)
  else if negb (missing_defaults_equivalent o n) then Err (Physical MissingValueChange)
  else if negb (typmod o =? typmod n) then Err (Benign TypmodChange)
  else if negb (type_storage o =? type_storage n) then Err (Benign StorageChange)
  else Ok tt.

(** The loop over the shared slots, [benign] the first benign reject. *)
Fixpoint slots_loop (os ns : list RelAttr) (benign : option Why) : result Incompat (option Why) :=
  match os, ns with
  | o :: os, n :: ns =>
      match slot_compatible o n with
      | Err (Benign why) => slots_loop os ns (opt_or benign (Some why))
      | Err e => Err e
      | Ok _ => slots_loop os ns benign
      end
  | _, _ => Ok benign
  end.

Definition compatible_reader (old new : RelDescriptor) : result Incompat unit :=
  if negb (oid old =? oid new) then Err (Physical OidMismatch)
  else if negb (bool_decide (drfn old = drfn new)) then Err (Physical FilenodeRotated)
  else if negb (kind old =? kind new) then Err (Physical RelkindChange)
  else if negb (persistence old =? persistence new) then Err (Physical PersistenceChange)
  else if negb (toast_oid old =? 0) && negb (toast_oid old =? toast_oid new) then Err (Physical ToastRelationChange)
  else if zlen (attributes new) <? zlen (attributes old) then Err (Physical AttributeTruncation)
  else
    let? benign := slots_loop (attributes old) (attributes new) None in
    if existsb (fun n => negb (dropped n) && not_null n && negb (is_some (missing_default n)))
         (zdrop (zlen (attributes old)) (attributes new)) then Err (Physical AppendedNotNull)
    else match benign with None => Ok tt | Some why => Err (Benign why) end.

(** ** What the walk reads of a slot *)
Definition slot_ok (o n : RelAttr) : Prop :=
  type_len o = type_len n /\ type_align o = type_align n /\ (dropped n = false -> dropped o = false) /\
  (dropped n = false -> type_oid o = type_oid n /\ missing_defaults_equivalent o n = true).

Lemma slot_compatible_ok o n : match slot_compatible o n with Err e => is_physical e = false | Ok _ => True end -> slot_ok o n.
Proof.
  unfold slot_compatible, slot_ok. destruct (attnum o =? attnum n); [|done]. cbn [negb].
  destruct (Z.eqb_spec (type_len o) (type_len n)) as [->|]; [|done]. destruct (Z.eqb_spec (type_align o) (type_align n)) as [->|]; [|done].
  destruct (Bool.eqb _ _); [|done]. cbn [negb orb]. destruct (dropped n) eqn:En; [naive_solver|]. rewrite andb_true_r.
  destruct (dropped o); [done|]. destruct (Z.eqb_spec (type_oid o) (type_oid n)) as [->|]; [|done].
  destruct (missing_defaults_equivalent o n); [|done]. naive_solver.
Qed.

Lemma slots_loop_ok os ns benign : (length os <= length ns)%nat ->
  match slots_loop os ns benign with Err e => is_physical e = false | Ok _ => True end ->
  Forall2 slot_ok os (take (length os) ns).
Proof.
  revert ns benign. induction os as [|o os IH]; intros ns benign Hl Hs; [constructor|]. destruct ns as [|n ns]; [cbn in Hl; lia|].
  cbn [slots_loop length take] in *. pose proof (slot_compatible_ok o n) as Ho.
  destruct (slot_compatible o n) as [u|[why|why]]; [| |done]; (constructor; [by apply Ho|]); (eapply IH; [lia|exact Hs]).
Qed.

Lemma compatible_slots old new : match compatible_reader old new with Err e => is_physical e = false | Ok _ => True end ->
  Forall2 slot_ok (attributes old) (take (length (attributes old)) (attributes new)).
Proof.
  unfold compatible_reader. repeat (match goal with |- context [if ?b then Err (Physical _) else _] => destruct b eqn:?; [done|] end).
  pose proof (slots_loop_ok (attributes old) (attributes new) None) as Hs. destruct (slots_loop _ _ None) as [b|e].
  - intros _. apply Hs; [|done]. apply Z.ltb_ge in Heqb4. unfold zlen in *. lia.
  - intros He. apply Hs; [|exact He]. apply Z.ltb_ge in Heqb4. unfold zlen in *. lia.
Qed.

(** ** One column of the walk *)
Inductive slot_read := Took (column : option ColumnValue) (cur : Z) | Ended | Failed (e : DecodeError).

Definition read_slot (f : Frame) (att : RelAttr) (idx cur : Z) : slot_read :=
  if natts f <=? idx then Took (Some (missing_value_for att)) cur
  else if has_null f && negb (bitmap_is_set (bitmap f) idx) then Took (Some Null) cur
  else
    let cur :=
      if (type_len att =? -1) && (prefixlen f <=? cur) && (col_data_off f + cur - prefixlen f <? zlen (buf f))
      then att_align_nominal cur (type_align att) (type_len att) (buf f) (col_data_off f + cur - prefixlen f)
      else align_for cur (type_align att) in
    if (cur <? prefixlen f) || (logical_end f <=? cur) then
      match decoded_size_or_skip att with Some n => Took None (cur + n) | None => Ended end
    else
      let abs := col_data_off f + (cur - prefixlen f) in
      let slow :=
        match decode_one_value att (buf f) abs with
        | Ok (value, consumed) => Took (Some value) (cur + consumed)
        | Err (Truncated _ _ _) => Ended
        | Err e => Failed e
        end in
      if (0 <? type_len att) && negb (dropped att) then
        match get_range (buf f) abs (abs + type_len att) with
        | Some body => Took (Some (fixed_value att body)) (cur + type_len att)
        | None => slow
        end
      else slow.

Lemma walk_slot_step f att rest idx cur acc :
  walk_columns f (att :: rest) idx cur acc =
  match read_slot f att idx cur with
  | Took c cur' => walk_columns f rest (idx + 1) cur' (acc ++ [c])
  | Ended => absent acc rest
  | Failed e => Err e
  end.
Proof.
  cbn [walk_columns]. unfold read_slot. destruct (natts f <=? idx); [done|]. destruct (has_null f && _); [done|]. cbv zeta.
  set (cur' := if _ && _ && _ then _ else _). destruct (cur' <? prefixlen f); cbn [orb]; [by destruct (decoded_size_or_skip att)|].
  destruct (logical_end f <=? cur'); [by destruct (decoded_size_or_skip att)|].
  destruct ((0 <? type_len att) && _); [destruct (get_range _ _ _); [done|]|]; by destruct (decode_one_value att _ _) as [[v c]|[]].
Qed.

(** What the two descriptors make of one column: a column the new one dropped
    is discarded, a stored one reads as the same value, and one the row is too
    short for as its default under either. *)
Definition same_column (stored : bool) (o n : RelAttr) (c c' : option ColumnValue) : Prop :=
  match c, c' with
  | None, None => True
  | Some v, Some v' =>
      if dropped n then stored = true -> v' = Null
      else if stored then v' = v
      else v = missing_value_for o /\ v' = missing_value_for n /\ missing_defaults_equivalent o n = true
  | _, _ => False
  end.

Lemma decode_varlena_type a b buf abs : type_oid a = type_oid b -> decode_varlena a buf abs = decode_varlena b buf abs.
Proof. unfold decode_varlena. by intros ->. Qed.

Lemma decode_varlena_consumed a b buf abs :
  (let? vc := decode_varlena a buf abs in Ok vc.2) = (let? vc := decode_varlena b buf abs in Ok vc.2).
Proof. unfold decode_varlena. cbv zeta. repeat match goal with |- context [if ?b then _ else _] => destruct b end; done. Qed.

Lemma consume_dropped_len a b buf abs : type_len a = type_len b -> consume_dropped a buf abs = consume_dropped b buf abs.
Proof. intros E. unfold consume_dropped, fixed_len. rewrite E. case_match; [apply decode_varlena_consumed|done]. Qed.

(** Decoding a value consumes what skipping it does. *)
Lemma decode_one_consumed att buf abs : (let? vc := decode_one_value att buf abs in Ok vc.2) = consume_dropped att buf abs.
Proof.
  unfold decode_one_value, consume_dropped. destruct (dropped att).
  - destruct (type_len att =? -1); [by destruct (decode_varlena _ _ _)|]. destruct (type_len att =? -2); [by destruct (decode_cstring _ _)|].
    by destruct (fixed_len _ _ _).
  - destruct (type_len att =? -1); [done|]. destruct (type_len att =? -2); [done|]. by destruct (fixed_len _ _ _).
Qed.

Lemma decode_one_live o n buf abs : type_len o = type_len n -> type_oid o = type_oid n -> dropped o = false -> dropped n = false ->
  decode_one_value o buf abs = decode_one_value n buf abs.
Proof.
  intros El Et Ho Hn. unfold decode_one_value, fixed_len, fixed_value. rewrite El, Et, Ho, Hn. case_match; [by apply decode_varlena_type|done].
Qed.

Lemma decode_one_gone n buf abs : dropped n = true ->
  decode_one_value n buf abs = let? consumed := consume_dropped n buf abs in Ok (Null, consumed).
Proof. unfold decode_one_value. by intros ->. Qed.

(** Newly dropped: the old value, fast path or slow, and its skip end at the
    same offset. *)
Lemma fixed_len_range att buf abs : 0 < type_len att < 2 ^ 15 -> 0 <= abs ->
  match get_range buf abs (abs + type_len att) with
  | Some _ => fixed_len att buf abs = Ok (type_len att)
  | None => exists at_ need have, fixed_len att buf abs = Err (Truncated at_ need have)
  end.
Proof.
  intros Hl Ha. unfold get_range, fixed_len. rewrite wrap_small by (unfold fits; lia).
  destruct (Z.ltb_spec (zlen buf) (abs + type_len att)); repeat case_match; try done; try lia; eauto.
Qed.

Lemma read_slot_same f o n idx cur : slot_ok o n -> type_len o < 2 ^ 15 -> 0 <= col_data_off f ->
  match read_slot f o idx cur, read_slot f n idx cur with
  | Took c cur1, Took c' cur2 => cur2 = cur1 /\ same_column (idx <? natts f) o n c c'
  | Ended, Ended => True
  | Failed e, Failed e' => e = e'
  | _, _ => False
  end.
Proof.
  intros (El & Ea & Hd & Ht) Hw Hc. unfold read_slot, decoded_size_or_skip. rewrite <- El, <- Ea.
  destruct (Z.leb_spec (natts f) idx) as [Hi|Hi].
  { split; [done|]. rewrite (proj2 (Z.ltb_ge _ _)) by lia. cbn. destruct (dropped n); [done|]. naive_solver. }
  rewrite (proj2 (Z.ltb_lt idx (natts f)) Hi). destruct (has_null f && _); [split; [done|]; cbn; by destruct (dropped n)|]. cbv zeta.
  set (cur' := if _ && _ && _ then _ else _). destruct ((cur' <? prefixlen f) || _) eqn:Ein; [by destruct (0 <? type_len o)|].
  apply orb_false_iff in Ein as [Ein _]. apply Z.ltb_ge in Ein. set (abs := col_data_off f + (cur' - prefixlen f)).
  assert (Hs : forall c c', dropped n = false -> c' = c -> same_column true o n (Some c) (Some c')) by (intros c c' E ->; cbn; by rewrite E).
  destruct (dropped n) eqn:En.
  - cbn [negb]. rewrite andb_false_r, (decode_one_gone n) by done. rewrite (consume_dropped_len n o), <- decode_one_consumed by done.
    destruct ((0 <? type_len o) && _) eqn:Efast.
    + apply andb_true_iff in Efast as [E0 Eo%negb_true_iff]. apply Z.ltb_lt in E0.
      pose proof (fixed_len_range o (buf f) abs ltac:(lia) ltac:(lia)) as Hf. unfold decode_one_value. rewrite Eo.
      rewrite !(proj2 (Z.eqb_neq _ _)) by lia. destruct (get_range _ _ _) as [body|].
      * rewrite Hf. split; [done|]. cbn. by rewrite En.
      * destruct Hf as (? & ? & ? & ->). done.
    + destruct (decode_one_value o _ _) as [[v c]|[]]; try done. split; [done|]. cbn. by rewrite En.
  - destruct (Ht eq_refl) as [Et _]. rewrite (Hd eq_refl). rewrite (decode_one_live o n) by naive_solver.
    destruct ((0 <? type_len o) && _); [destruct (get_range _ _ _); [split; [done|]; apply Hs; [done|]; unfold fixed_value; by rewrite Et|]|].
    all: destruct (decode_one_value n _ _) as [[v c]|[]]; try done; split; [done|]; by apply Hs.
Qed.

(** ** The row *)
Fixpoint same_columns (natts idx : Z) (os ns : list RelAttr) (cs cs' : list (option ColumnValue)) : Prop :=
  match os, ns, cs, cs' with
  | o :: os, n :: ns, c :: cs, c' :: cs' => same_column (idx <? natts) o n c c' /\ same_columns natts (idx + 1) os ns cs cs'
  | [], [], [], [] => True
  | _, _, _, _ => False
  end.

(** The columns appended since: their defaults, or absent after a walk that
    ended early. *)
Definition appended (ended : bool) (extra : list RelAttr) : list (option ColumnValue) :=
  if ended then replicate (length extra) None else map (fun a => Some (missing_value_for a)) extra.

Lemma same_columns_absent natts os ns idx : Forall2 slot_ok os ns ->
  same_columns natts idx os ns (replicate (length os) None) (replicate (length os) None).
Proof. intros H. revert idx. induction H; intros idx; cbn; done. Qed.

Lemma walk_extra f extra idx cur acc : natts f <= idx ->
  walk_columns f extra idx cur acc = Ok (MkTuple (acc ++ appended false extra) false).
Proof.
  unfold appended. revert idx acc. induction extra as [|a extra IH]; intros idx acc Hi; cbn [walk_columns map]; [by rewrite app_nil_r|].
  rewrite (proj2 (Z.leb_le _ _)) by lia. rewrite IH by lia. by rewrite <- app_assoc.
Qed.

Lemma walk_same f os ns extra : Forall2 slot_ok os ns -> Forall (fun a => type_len a < 2 ^ 15) os -> 0 <= col_data_off f ->
  forall idx cur acc acc', natts f <= idx + zlen os ->
  match walk_columns f os idx cur acc with
  | Ok t => exists cs cs', columns t = acc ++ cs /\ same_columns (natts f) idx os ns cs cs' /\
      walk_columns f (ns ++ extra) idx cur acc' = Ok (MkTuple (acc' ++ cs' ++ appended (partial t) extra) (partial t))
  | Err e => walk_columns f (ns ++ extra) idx cur acc' = Err e
  end.
Proof.
  intros H2 Hl Hc. induction H2 as [|o n os ns Hon H2 IH]; intros idx cur acc acc' Hi.
  { exists [], []. rewrite app_nil_r. repeat split. apply walk_extra. change (zlen []) with 0 in Hi. lia. }
  apply Forall_cons_1 in Hl as [Ho Hl]. rewrite zlen_cons in Hi. change ((n :: ns) ++ extra) with (n :: (ns ++ extra)). rewrite !walk_slot_step.
  pose proof (read_slot_same f o n idx cur Hon Ho Hc) as Hr.
  destruct (read_slot f o idx cur) as [c cur1| |e], (read_slot f n idx cur) as [c' cur2| |e']; try done; [| |by subst].
  - destruct Hr as [-> Hcc]. specialize (IH Hl (idx + 1) cur1 (acc ++ [c]) (acc' ++ [c']) ltac:(lia)).
    destruct (walk_columns f os (idx + 1) cur1 _) as [t|e]; [|done]. destruct IH as (cs & cs' & Ht & Hs & Hw).
    exists (c :: cs), (c' :: cs'). rewrite Ht, Hw. rewrite <- !app_assoc. by repeat split.
  - exists (replicate (S (length os)) None), (replicate (S (length os)) None). split; [done|]. split.
    + apply (same_columns_absent _ (o :: os) (n :: ns)). by constructor.
    + unfold absent. cbn [partial appended]. rewrite length_app, (Forall2_length H2), replicate_add. done.
Qed.

(** C30: a descriptor the predicate does not reject as physical reads rows
    written under the old one: every row of at most the old width decodes
    with the same error, or to the same stored values, with the columns
    dropped since discarded, the trailing columns it is too short for read as
    equivalent defaults, and the columns appended since as their defaults (or
    absent where the old walk ended early too). *)
Theorem compatible_reader_sound old new buf off prefix suffix :
  match compatible_reader old new with Err e => is_physical e = false | Ok _ => True end ->
  Forall (fun a => type_len a < 2 ^ 15) (attributes old) -> 0 <= off ->
  Z.land (u16_at buf off) HEAP_NATTS_MASK <= zlen (attributes old) ->
  let kept := take (length (attributes old)) (attributes new) in
  let extra := drop (length (attributes old)) (attributes new) in
  match decode_tuple_payload buf off old prefix suffix with
  | Ok t => exists cs, same_columns (Z.land (u16_at buf off) HEAP_NATTS_MASK) 0 (attributes old) kept (columns t) cs /\
      decode_tuple_payload buf off new prefix suffix = Ok (MkTuple (cs ++ appended (partial t) extra) (partial t))
  | Err e => decode_tuple_payload buf off new prefix suffix = Err e
  end.
Proof.
  intros Hr Hl Ho Hn kept extra. apply compatible_slots in Hr. unfold decode_tuple_payload.
  destruct (zlen buf <? off + SIZE_OF_HEAP_HEADER); [done|].
  destruct (Z.ltb_spec (byte_at buf (off + 4)) SIZE_OF_HEAP_TUPLE_HEADER) as [|Hh]; [done|]. cbv zeta.
  destruct (zlen buf <? _); [done|]. match goal with |- context [walk_columns ?fr (attributes old)] => set (f := fr) end.
  pose proof (walk_same f _ _ extra Hr Hl ltac:(cbn; unfold SIZE_OF_HEAP_HEADER; lia) 0 0 [] [] ltac:(cbn; lia)) as Hw.
  assert (En : kept ++ extra = attributes new) by apply take_drop. fold kept in Hw. rewrite En in Hw. destruct (walk_columns f (attributes old) 0 0 []) as [t|e]; [|exact Hw].
  destruct Hw as (cs & cs' & Et & Hs & Hw). exists cs'. cbn in Et. rewrite Et. split; [exact Hs|exact Hw].
Qed.

End Compat.

(** An [int4] key and a [text] note; the later shape drops the key and appends
    an [int2] whose default is spelled as text.  The row stores only the key. *)
Definition col_key (gone : bool) : RelAttr := MkAttr 1 [] (if gone then 0 else INT4OID) (-1) true gone [] true 4 105 112 None.
Definition col_note (mod_ : Z) : RelAttr := MkAttr 2 [] TEXTOID mod_ false false [] false (-1) 105 120 (Some (TextDefault [120])).
Definition col_extra : RelAttr := MkAttr 3 [] INT2OID (-1) true false [] true 2 115 112 (Some (TextDefault [55])).

Definition shape (attrs : list RelAttr) : RelDescriptor := MkDesc (MkRfn 1663 5 16400) 16400 0 2200 ([], []) 114 112 (Full None) attrs [].
Definition old_shape : RelDescriptor := shape [col_key false; col_note 12].
Definition new_shape : RelDescriptor := shape [col_key true; col_note 20; col_extra].
Definition short_row : list Z := [1; 0; 0; 0; 24; 0; 5; 0; 0; 0].

#[local] Instance no_codecs : Decompress := MkDecompress (fun _ _ => None) (fun _ _ => None).
#[local] Instance no_floats : FloatText := MkFloatText (fun _ => None) (fun _ => None).

Lemma compatible_reader_sound_witness :
  compatible_reader old_shape new_shape = Err (Benign TypmodChange) /\
  exists cs, same_columns 1 0 (attributes old_shape) [col_key true; col_note 20] [Some (Int4 5); Some (TextVal [120])] cs /\
    decode_tuple_payload short_row 0 new_shape 0 0 = Ok (MkTuple (cs ++ [Some (Int2 7)]) false).
Proof.
  split; [reflexivity|].
  apply (compatible_reader_sound old_shape new_shape short_row 0 0 0); [reflexivity| |lia|vm_compute; discriminate].
  repeat constructor.
Defined.

End Compat.
