(* ===== verification/Visibility.v ===== *)
(** * Backup tuple visibility ([src/decode/visibility.rs])

    Transaction status from the backup's [pg_xact] overlaid with the outcomes
    the write-ahead log brings, the updater of a multixact from the backup's
    [pg_multixact], the verdict on a tuple and the transactions a deferred
    verdict waits for.  A path is its list of components; the bitmaps are sets
    of transaction ids. *)
From S2P Require Import Prelude.

Module Visibility.

Definition HEAP_XMAX_KEYSHR_LOCK : Z := 0x0010.
Definition HEAP_XMAX_EXCL_LOCK : Z := 0x0040.
Definition HEAP_XMAX_LOCK_ONLY : Z := 0x0080.
Definition HEAP_XMIN_COMMITTED : Z := 0x0100.
Definition HEAP_XMIN_INVALID : Z := 0x0200.
Definition HEAP_XMIN_FROZEN : Z := Z.lor HEAP_XMIN_COMMITTED HEAP_XMIN_INVALID.
Definition HEAP_XMAX_COMMITTED : Z := 0x0400.
Definition HEAP_XMAX_INVALID : Z := 0x0800.
Definition HEAP_XMAX_IS_MULTI : Z := 0x1000.
Definition HEAP_XMAX_SHR_LOCK : Z := Z.lor HEAP_XMAX_EXCL_LOCK HEAP_XMAX_KEYSHR_LOCK.
Definition HEAP_LOCK_MASK : Z := Z.lor (Z.lor HEAP_XMAX_SHR_LOCK HEAP_XMAX_EXCL_LOCK) HEAP_XMAX_KEYSHR_LOCK.
Definition FIRST_NORMAL_XID : Z := 3.
Definition PG_XACT_XIDS_PER_BYTE : Z := 4.
Definition PG_XACT_XIDS_PER_SEGMENT : Z := 8192 * PG_XACT_XIDS_PER_BYTE * 32.
Definition SLRU_PAGES_PER_SEGMENT : Z := 32.
Definition MULTIXACT_MEMBERS_PER_GROUP : Z := 4.
Definition MULTIXACT_GROUP_SIZE : Z := 20.
Definition MULTIXACT_MEMBERS_PER_PAGE : Z := 1636.
Definition MULTIXACT_STATUS_FOR_UPDATE : Z := 3.
Definition MULTIXACT_STATUS_UPDATE : Z := 5.
Definition MULTIXACT_MEMBERS_SANITY_CAP : Z := 2 ^ 20.

Definition xmin_frozen (infomask : Z) : bool := Z.land infomask HEAP_XMIN_FROZEN =? HEAP_XMIN_FROZEN.

Definition xmax_locked_only (infomask : Z) : bool :=
  negb (Z.land infomask HEAP_XMAX_LOCK_ONLY =? 0)
  || (Z.land infomask (Z.lor HEAP_XMAX_IS_MULTI HEAP_LOCK_MASK) =? HEAP_XMAX_EXCL_LOCK).

Inductive XidStatus := Committed | Aborted | InProgress | UnknownXid.

(** ** [pg_xact] *)
Notation Segments := (gmap Z (list Z)).

Definition any_below (m : Segments) (segno : Z) : bool := existsb (fun s => s <? segno) (map_to_list m).*1.

Definition status (segments : Segments) (xid : Z) : XidStatus :=
  let segno := xid / PG_XACT_XIDS_PER_SEGMENT in
  match segments !! segno with
  | None => if any_below segments segno then InProgress else UnknownXid
  | Some seg =>
      match zget seg ((xid mod PG_XACT_XIDS_PER_SEGMENT) / PG_XACT_XIDS_PER_BYTE) with
      | None => InProgress
      | Some b =>
          let bits := Z.land (Z.shiftr b ((xid mod PG_XACT_XIDS_PER_BYTE) * 2)) 3 in
          if bits =? 1 then Committed else if bits =? 2 then Aborted else InProgress
      end
  end.

(** ** [pg_multixact] *)
Inductive MultiXactUpdater := Covered | Updater (xid : Z) | LockOnly | UnresolvableMulti.
Inductive SlruRead := Val (v : Z) | Unwritten | Truncated.
Inductive MemberRead := Member (xid status : Z) | MemberUnwritten | MemberTruncated.

Record PgMultiXactAccum := MkMulti { offsets : Segments; members : Segments; offset_bytes : Z }.

Definition new (source_major : Z) : PgMultiXactAccum := MkMulti ∅ ∅ (if 19 <=? source_major then 8 else 4).

Definition insert_offsets_segment (m : PgMultiXactAccum) (segno : Z) (bytes : list Z) : PgMultiXactAccum :=
  MkMulti (<[segno := bytes]> (offsets m)) (members m) (offset_bytes m).

Definition insert_members_segment (m : PgMultiXactAccum) (segno : Z) (bytes : list Z) : PgMultiXactAccum :=
  MkMulti (offsets m) (<[segno := bytes]> (members m)) (offset_bytes m).

Definition offsets_per_segment (m : PgMultiXactAccum) : Z := 8192 / offset_bytes m * SLRU_PAGES_PER_SEGMENT.

Definition wrap_offset (m : PgMultiXactAccum) (off : Z) : Z := if offset_bytes m =? 4 then wrap 32 off else off.

Definition read_offset (m : PgMultiXactAccum) (segno byte : Z) : SlruRead :=
  match offsets m !! segno with
  | None => if any_below (offsets m) segno then Unwritten else Truncated
  | Some seg => match get_range seg byte (byte + offset_bytes m) with None => Unwritten | Some b => Val (le_dec b) end
  end.

Definition offset_at (m : PgMultiXactAccum) (mxid : Z) : SlruRead :=
  let per_segment := offsets_per_segment m in
  match read_offset m (mxid / per_segment) ((mxid mod per_segment) * offset_bytes m) with
  | Val v => if v =? 0 then Unwritten else Val v
  | r => r
  end.

Definition member_at (m : PgMultiXactAccum) (off : Z) : MemberRead :=
  let page := off / MULTIXACT_MEMBERS_PER_PAGE in
  let segno := page / SLRU_PAGES_PER_SEGMENT in
  if 2 ^ 32 <=? segno then MemberTruncated
  else
    match members m !! segno with
    | None => if any_below (members m) segno then MemberUnwritten else MemberTruncated
    | Some seg =>
        let idx := off mod MULTIXACT_MEMBERS_PER_PAGE in
        let member := idx mod MULTIXACT_MEMBERS_PER_GROUP in
        let base := page mod SLRU_PAGES_PER_SEGMENT * 8192 + idx / MULTIXACT_MEMBERS_PER_GROUP * MULTIXACT_GROUP_SIZE in
        let xid_pos := base + 4 + member * 4 in
        match zget seg (base + member), get_range seg xid_pos (xid_pos + 4) with
        | Some st, Some b => Member (le_dec b) st
        | _, _ => MemberUnwritten
        end
    end.

(** The member loop, [n] members to go from the [i]th. *)
Fixpoint scan_members (m : PgMultiXactAccum) (start : Z) (n : nat) (i : Z) : MultiXactUpdater :=
  match n with
  | O => LockOnly
  | S n =>
      let off := wrap_offset m (uadd 64 start i) in
      match member_at m off with
      | MemberTruncated => UnresolvableMulti
      | MemberUnwritten => Covered
      | Member xid st =>
          if xid =? 0 then if off =? 0 then scan_members m start n (i + 1) else Covered
          else if MULTIXACT_STATUS_UPDATE <? st then UnresolvableMulti
          else if MULTIXACT_STATUS_FOR_UPDATE <? st then Updater xid
          else scan_members m start n (i + 1)
      end
  end.

Definition next_multi (mxid : Z) : Z := let n := uadd 32 mxid 1 in if n =? 0 then 1 else n.

Definition updater (m : PgMultiXactAccum) (mxid : Z) : MultiXactUpdater :=
  match offset_at m mxid with
  | Unwritten => Covered
  | Truncated => UnresolvableMulti
  | Val start =>
      match offset_at m (next_multi mxid) with
      | Unwritten => Covered
      | Truncated => UnresolvableMulti
      | Val end_ =>
          let nmembers := wrap_offset m (usub 64 end_ start) in
          if (nmembers =? 0) || (MULTIXACT_MEMBERS_SANITY_CAP <? nmembers) then UnresolvableMulti
          else scan_members m start (Z.to_nat nmembers) 0
      end
  end.

(** ** The view *)
Record PgXactPatch := MkPatch { committed : gset Z; aborted : gset Z }.

Definition commit (p : PgXactPatch) (xid : Z) (subxids : list Z) : PgXactPatch :=
  MkPatch (list_to_set subxids ∪ ({[xid]} ∪ committed p)) (aborted p).

Definition abort (p : PgXactPatch) (xid : Z) (subxids : list Z) : PgXactPatch :=
  MkPatch (committed p) (list_to_set subxids ∪ ({[xid]} ∪ aborted p)).

Record PgXactView := MkView { accum : Segments; patch : PgXactPatch; multi : option PgMultiXactAccum }.

Definition xid_status (v : PgXactView) (xid : Z) : XidStatus :=
  if (0 <? xid) && (xid <? FIRST_NORMAL_XID) then Committed
  else if bool_decide (xid ∈ committed (patch v)) then Committed
  else if bool_decide (xid ∈ aborted (patch v)) then Aborted
  else status (accum v) xid.

(** ** The verdict *)
Inductive Visibility := Emit | Skip | Defer | Unresolvable.
Inductive Side := Live | Dead | Pending (xid : Z) | UnknownSide | UnresolvableSide.

Definition insert_side (xmin infomask : Z) (pg_xact : option PgXactView) : Side :=
  if xmin_frozen infomask || ((0 <? xmin) && (xmin <? FIRST_NORMAL_XID)) then Live
  else if negb (Z.land infomask HEAP_XMIN_INVALID =? 0) then Dead
  else if negb (Z.land infomask HEAP_XMIN_COMMITTED =? 0) then Live
  else
    match pg_xact with
    | None => UnknownSide
    | Some v => match xid_status v xmin with Committed | UnknownXid => Live | Aborted => Dead | InProgress => Pending xmin end
    end.

Definition xid_delete_side (v : PgXactView) (xid : Z) : Side :=
  match xid_status v xid with Committed | UnknownXid => Dead | Aborted => Live | InProgress => Pending xid end.

Definition delete_side (xmax infomask : Z) (pg_xact : option PgXactView) : Side :=
  if (xmax =? 0) || negb (Z.land infomask HEAP_XMAX_INVALID =? 0) || xmax_locked_only infomask then Live
  else if negb (Z.land infomask HEAP_XMAX_IS_MULTI =? 0) then
    match pg_xact with
    | None => UnknownSide
    | Some v =>
        match multi v with
        | None => UnresolvableSide
        | Some m =>
            match updater m xmax with
            | Covered | LockOnly => Live
            | Updater x => xid_delete_side v x
            | UnresolvableMulti => UnresolvableSide
            end
        end
    end
  else if negb (Z.land infomask HEAP_XMAX_COMMITTED =? 0) then Dead
  else match pg_xact with None => UnknownSide | Some v => xid_delete_side v xmax end.

Definition tuple_visibility (xmin xmax infomask : Z) (pg_xact : option PgXactView) : Visibility :=
  match insert_side xmin infomask pg_xact with
  | Dead => Skip
  | UnknownSide => Defer
  | insert =>
      match delete_side xmax infomask pg_xact with
      | Dead => Skip
      | UnresolvableSide => Unresolvable
      | UnknownSide | Pending _ => Defer
      | Live => match insert with Pending _ => Defer | _ => Emit end
      end
  end.

Record PendingXids := MkPending { insert : Z; delete : Z }.

Definition is_empty (p : PendingXids) : bool := (insert p =? 0) && (delete p =? 0).

Definition pending (s : Side) : Z := match s with Pending x => x | _ => 0 end.

Definition deferred_xids (xmin xmax infomask : Z) (view : PgXactView) : PendingXids :=
  MkPending (pending (insert_side xmin infomask (Some view))) (pending (delete_side xmax infomask (Some view))).

(** ** Collecting the files *)
Definition hex_value (c : Z) : option Z :=
  if (48 <=? c) && (c <=? 57) then Some (c - 48)
  else if (97 <=? c) && (c <=? 102) then Some (c - 87)
  else if (65 <=? c) && (c <=? 70) then Some (c - 55)
  else None.

Fixpoint hex_digits (acc : Z) (text : list Z) : option Z :=
  match text with
  | [] => Some acc
  | c :: rest => let* d := hex_value c in if acc * 16 + d <? 2 ^ 32 then hex_digits (acc * 16 + d) rest else None
  end.

(** [u32::from_str_radix(text, 16)]. *)
Definition from_str_radix16 (text : list Z) : option Z :=
  let digits := match text with 43 :: rest => rest | _ => text end in
  match digits with [] => None | _ => hex_digits 0 digits end.

Definition pg_xact_dir : list Z := [112; 103; 95; 120; 97; 99; 116].
Definition pg_multixact_dir : list Z := [112; 103; 95; 109; 117; 108; 116; 105; 120; 97; 99; 116].
Definition offsets_dir : list Z := [111; 102; 102; 115; 101; 116; 115].
Definition members_dir : list Z := [109; 101; 109; 98; 101; 114; 115].

Definition pg_xact_segno_from_path (path : list (list Z)) : option Z :=
  match path with
  | dir :: file :: [] => if bool_decide (dir = pg_xact_dir) then from_str_radix16 file else None
  | _ => None
  end.

Inductive MultiXactSegment := Offsets (segno : Z) | Members (segno : Z).

Definition pg_multixact_segno_from_path (path : list (list Z)) : option MultiXactSegment :=
  match path with
  | top :: dir :: file :: [] =>
      if bool_decide (top = pg_multixact_dir) then
        let* segno := from_str_radix16 file in
        if bool_decide (dir = offsets_dir) then Some (Offsets segno)
        else if bool_decide (dir = members_dir) then Some (Members segno)
        else None
      else None
  | _ => None
  end.

(** The files the directory scan found, in its order. *)
Definition read_pg_xact (files : list (list (list Z) * list Z)) : Segments :=
  foldl (fun accum '(rel, bytes) =>
    match pg_xact_segno_from_path rel with Some segno => <[segno := bytes]> accum | None => accum end) ∅ files.

Definition read_pg_multixact (files : list (list (list Z) * list Z)) (source_major : Z) : PgMultiXactAccum :=
  foldl (fun accum '(rel, bytes) =>
    match pg_multixact_segno_from_path rel with
    | Some (Offsets s) => insert_offsets_segment accum s bytes
    | Some (Members s) => insert_members_segment accum s bytes
    | None => accum
    end) (new source_major) files.

End Visibility.
