(* ===== verification/VisibilityProofs.v ===== *)
(** * Visibility verdicts and the SLRU layout

    A verdict from hint bits or from the backup's transaction view is final,
    and a deferred one is decided by the outcomes of exactly the transactions
    it names; a multixact written in PostgreSQL's page layout resolves to the
    member that updates. *)
From S2P Require Import Prelude Visibility.
Import Visibility.

Module VisibilityProofs.

(** ** Outcomes arriving from the log *)
Inductive outcome := Commits (xid : Z) (subxids : list Z) | Aborts (xid : Z) (subxids : list Z).

Definition record_outcome (p : PgXactPatch) (o : outcome) : PgXactPatch :=
  match o with Commits x subs => commit p x subs | Aborts x subs => abort p x subs end.

Definition recorded (o : outcome) : list Z := match o with Commits x subs | Aborts x subs => x :: subs end.

Definition harvest (v : PgXactView) (os : list outcome) : PgXactView :=
  MkView (accum v) (foldl record_outcome (patch v) os) (multi v).

(** A recorded outcome leaves every other transaction as it was. *)
Lemma record_outcome_out p o x : x ∉ recorded o ->
  (x ∈ committed (record_outcome p o) <-> x ∈ committed p) /\ (x ∈ aborted (record_outcome p o) <-> x ∈ aborted p).
Proof. destruct o; cbn; set_solver. Qed.

Lemma harvest_out os p x : Forall (fun o => x ∉ recorded o) os ->
  (x ∈ committed (foldl record_outcome p os) <-> x ∈ committed p) /\ (x ∈ aborted (foldl record_outcome p os) <-> x ∈ aborted p).
Proof.
  revert p. induction os as [|o os IH]; intros p Hf; [done|]. apply Forall_cons_1 in Hf as [Ho Hf]. cbn [foldl].
  destruct (IH (record_outcome p o) Hf) as [-> ->]. by apply record_outcome_out.
Qed.

Definition fresh (v : PgXactView) (os : list outcome) : Prop :=
  Forall (fun o => Forall (fun x => xid_status v x = InProgress) (recorded o)) os.

Lemma harvest_settled v os x : fresh v os -> xid_status v x <> InProgress -> xid_status (harvest v os) x = xid_status v x.
Proof.
  intros Hf Hx. destruct (harvest_out os (patch v) x) as [Hc Ha].
  { eapply Forall_impl; [|exact Hf]. intros o Ho Hin. rewrite Forall_forall in Ho. by apply Hx, Ho, list_elem_of_In. }
  unfold xid_status. cbn [patch harvest accum]. by rewrite (bool_decide_ext _ _ Hc), (bool_decide_ext _ _ Ha).
Qed.

Lemma harvest_pending v os x : xid_status v x = InProgress -> xid_status (harvest v os) x <> UnknownXid.
Proof. unfold xid_status. cbn [harvest patch accum]. repeat case_match; congruence. Qed.

(** ** The two sides under a later view *)
Lemma insert_side_later v os xmin mask : fresh v os ->
  match insert_side xmin mask (Some v) with
  | Pending x => x = xmin /\ xid_status v x = InProgress /\
      insert_side xmin mask (Some (harvest v os)) =
        match xid_status (harvest v os) x with Committed | UnknownXid => Live | Aborted => Dead | InProgress => Pending x end
  | UnknownSide | UnresolvableSide => False
  | s => insert_side xmin mask (Some (harvest v os)) = s
  end.
Proof.
  intros Hf. unfold insert_side. destruct (xmin_frozen mask || _); [done|]. destruct (negb _); [done|]. destruct (negb _); [done|].
  pose proof (harvest_settled v os xmin Hf) as H. destruct (xid_status v xmin) eqn:E; try (rewrite H by done; done). done.
Qed.

Lemma xid_delete_side_later v os x : fresh v os ->
  match xid_delete_side v x with
  | Pending y => y = x /\ xid_status v x = InProgress
  | UnknownSide => False
  | s => xid_delete_side (harvest v os) x = s
  end.
Proof.
  intros Hf. unfold xid_delete_side. pose proof (harvest_settled v os x Hf) as H.
  destruct (xid_status v x); try (rewrite H by done; done). done.
Qed.

Lemma scan_members_nonzero m start n i x : scan_members m start n i = Updater x -> x <> 0.
Proof.
  revert i. induction n as [|n IH]; intros i; cbn [scan_members]; [done|]. destruct (member_at m _) as [y st| |]; [|done..].
  destruct (Z.eqb_spec y 0); [case_match; [apply IH|done]|]. case_match; [done|]. case_match; [congruence|apply IH].
Qed.

Lemma updater_nonzero m mxid x : updater m mxid = Updater x -> x <> 0.
Proof.
  unfold updater. destruct (offset_at m mxid); [|done..]. destruct (offset_at m (next_multi mxid)); [|done..].
  cbv zeta. case_match; [done|]. apply scan_members_nonzero.
Qed.

Lemma delete_side_later v os xmax mask : fresh v os ->
  match delete_side xmax mask (Some v) with
  | Pending x => x <> 0 /\ xid_status v x = InProgress /\
      delete_side xmax mask (Some (harvest v os)) = xid_delete_side (harvest v os) x
  | UnknownSide => False
  | s => delete_side xmax mask (Some (harvest v os)) = s
  end.
Proof.
  intros Hf. unfold delete_side. cbn [multi harvest]. destruct (Z.eqb_spec xmax 0) as [|Hx]; [done|]. cbn [orb].
  destruct (negb _ || _); [done|]. destruct (negb _).
  - destruct (multi v) as [m|]; [|done]. destruct (updater m xmax) as [|y| |] eqn:Eu; [done| |done..].
    pose proof (xid_delete_side_later v os y Hf) as H. apply updater_nonzero in Eu.
    destruct (xid_delete_side v y); try done. by destruct H as [-> H].
  - destruct (negb _); [done|]. pose proof (xid_delete_side_later v os xmax Hf) as H.
    destruct (xid_delete_side v xmax); try done. by destruct H as [-> H].
Qed.

Lemma insert_side_view v xmin mask : insert_side xmin mask None <> UnknownSide ->
  insert_side xmin mask (Some v) = insert_side xmin mask None.
Proof. unfold insert_side. repeat case_match; done. Qed.

Lemma delete_side_view v xmax mask : delete_side xmax mask None <> UnknownSide ->
  delete_side xmax mask (Some v) = delete_side xmax mask None.
Proof. unfold delete_side. destruct (_ || _); [done|]. destruct (negb _); [done|]. by destruct (negb _). Qed.

Definition settles (v : PgXactView) (p : PendingXids) : Visibility :=
  if ((insert p =? 0) || match xid_status v (insert p) with Committed => true | _ => false end)
     && ((delete p =? 0) || match xid_status v (delete p) with Aborted => true | _ => false end)
  then Emit else Skip.


(** A tuple whose inserter and deleter are both open in the backup; the log
    then commits the one and aborts the other, with a subtransaction. *)
Definition open_view : PgXactView := MkView {[0 := [0; 0]]} (MkPatch ∅ ∅) None.


(** ** Transaction status as the server writes it: two bits each, four to a
    byte, low bits first *)
Definition pack (q : Z * Z * Z * Z) : Z := let '(a, b, c, d) := q in a + 4 * b + 16 * c + 64 * d.

Definition slot (q : Z * Z * Z * Z) (k : Z) : Z := let '(a, b, c, d) := q in if k =? 0 then a else if k =? 1 then b else if k =? 2 then c else d.

Definition two_bits (z : Z) : Prop := 0 <= z < 4.

Lemma unpack q k : (let '(a, b, c, d) := q in two_bits a /\ two_bits b /\ two_bits c /\ two_bits d) -> two_bits k ->
  Z.land (Z.shiftr (pack q) (k * 2)) 3 = slot q k.
Proof.
  destruct q as [[[a b] c] d]. intros (Ha & Hb & Hc & Hd) Hk. unfold pack, slot, two_bits in *. change 3 with (Z.ones 2).
  rewrite Z.land_ones, Z.shiftr_div_pow2 by lia. assert (k = 0 \/ k = 1 \/ k = 2 \/ k = 3) as [->|[->|[->| ->]]] by lia;
    cbn [Z.mul Z.eqb Pos.mul Pos.eqb]; change (2 ^ 0) with 1; change (2 ^ 2) with 4; change (2 ^ 4) with 16; change (2 ^ 6) with 64;
    Z.to_euclidean_division_equations; lia.
Qed.

(** The status of a transaction is read from its own two bits. *)
Theorem status_reads_pages segments segno quads i q k : 0 <= segno -> segments !! segno = Some (map pack quads) ->
  Z.of_nat i < 262144 -> quads !! i = Some q -> (let '(a, b, c, d) := q in two_bits a /\ two_bits b /\ two_bits c /\ two_bits d) -> two_bits k ->
  status segments (segno * PG_XACT_XIDS_PER_SEGMENT + Z.of_nat i * 4 + k) =
  if slot q k =? 1 then Committed else if slot q k =? 2 then Aborted else InProgress.
Proof.
  intros Hs Hseg Hi Hq Hok Hk. unfold status, PG_XACT_XIDS_PER_BYTE. change PG_XACT_XIDS_PER_SEGMENT with 1048576.
  unfold two_bits in Hk. remember (segno * 1048576 + Z.of_nat i * 4 + k) as x eqn:Hx.
  assert (x / 1048576 = segno) as -> by (symmetry; apply (Z.div_unique_pos _ _ _ (Z.of_nat i * 4 + k)); lia).
  assert (x mod 1048576 = Z.of_nat i * 4 + k) as -> by (symmetry; apply (Z.mod_unique_pos _ _ segno); lia).
  assert (x mod 4 = k) as -> by (symmetry; apply (Z.mod_unique_pos _ _ (segno * 262144 + Z.of_nat i)); lia).
  assert ((Z.of_nat i * 4 + k) / 4 = Z.of_nat i) as -> by (symmetry; apply (Z.div_unique_pos _ _ _ k); lia).
  rewrite Hseg. unfold zget. rewrite (proj2 (Z.leb_le _ _)) by lia. rewrite Nat2Z.id, list_lookup_fmap, Hq. cbn [fmap option_fmap option_map].
  by rewrite unpack.
Qed.

(** ** Multixacts as the server writes them

    Pages are zero-filled when first touched, an entry of the offsets file is
    little-endian of the entry width, and recording a multixact fills its own
    offset, the next one's and its members' slots. *)
Definition grow (seg : list Z) (n : Z) : list Z := seg ++ zrep (n - zlen seg) 0.

Definition write_at (m : Segments) (segno pos : Z) (bytes : list Z) : Segments :=
  <[segno := put (grow (default [] (m !! segno)) ((pos / 8192 + 1) * 8192)) pos bytes]> m.

Definition read_at (m : Segments) (segno pos n : Z) : option (list Z) :=
  match m !! segno with Some seg => get_range seg pos (pos + n) | None => None end.

Definition in_page (pos n : Z) : Prop := 0 <= pos /\ 0 <= n /\ pos + n <= (pos / 8192 + 1) * 8192.

Lemma grow_sub seg n a b : 0 <= a -> a <= b -> b <= zlen seg -> sub (grow seg n) a b = sub seg a b.
Proof. intros. unfold grow. by apply sub_app_l. Qed.

Lemma zlen_grow seg n : zlen (grow seg n) = Z.max (zlen seg) n.
Proof. unfold grow. rewrite zlen_app, zlen_zrep. pose proof (zlen_nonneg seg). lia. Qed.

Lemma read_write m segno pos bytes : in_page pos (zlen bytes) -> read_at (write_at m segno pos bytes) segno pos (zlen bytes) = Some bytes.
Proof.
  intros (H1 & H2 & H3). unfold read_at, write_at. rewrite lookup_insert_eq. unfold get_range.
  rewrite zlen_put, zlen_grow by (rewrite ?zlen_grow; lia).
  rewrite !(proj2 (Z.leb_le _ _)) by lia. cbn [andb]. f_equal. apply sub_put_same; rewrite ?zlen_grow; lia.
Qed.

Lemma read_write_other m segno pos bytes segno' pos' n v : in_page pos (zlen bytes) -> 0 <= n ->
  (segno = segno' -> pos + zlen bytes <= pos' \/ pos' + n <= pos) ->
  read_at m segno' pos' n = Some v -> read_at (write_at m segno pos bytes) segno' pos' n = Some v.
Proof.
  intros (H1 & H2 & H3) Hn Hd. unfold read_at, write_at. destruct (decide (segno = segno')) as [<-|Hne]; [|by rewrite lookup_insert_ne].
  rewrite lookup_insert_eq. destruct (m !! segno) as [seg|]; [|done]. cbn [default from_option Datatypes.id]. unfold get_range.
  destruct (_ && _ && _) eqn:E; [|done]. rewrite !andb_true_iff, !Z.leb_le in E. destruct E as [[E1 E2] E3].
  rewrite zlen_put, zlen_grow by (rewrite ?zlen_grow; lia). rewrite !(proj2 (Z.leb_le _ _)) by lia. cbn [andb]. intros [= <-]. f_equal.
  rewrite <- (grow_sub seg ((pos / 8192 + 1) * 8192)) by lia.
  destruct (Hd eq_refl); [apply sub_put_above|apply sub_put_below]; rewrite ?zlen_grow; lia.
Qed.

Definition offset_segno (m : PgMultiXactAccum) (mxid : Z) : Z := mxid / offsets_per_segment m.
Definition offset_pos (m : PgMultiXactAccum) (mxid : Z) : Z := mxid mod offsets_per_segment m * offset_bytes m.

Definition write_offset (m : PgMultiXactAccum) (mxid v : Z) : PgMultiXactAccum :=
  MkMulti (write_at (offsets m) (offset_segno m mxid) (offset_pos m mxid) (le_enc (Z.to_nat (offset_bytes m)) v)) (members m) (offset_bytes m).

Definition member_segno (off : Z) : Z := off / 1636 / 32.
Definition member_base (off : Z) : Z := (off / 1636) mod 32 * 8192 + off mod 1636 / 4 * 20.
Definition status_pos (off : Z) : Z := member_base off + off mod 1636 mod 4.
Definition xid_pos (off : Z) : Z := member_base off + 4 + off mod 1636 mod 4 * 4.

Definition write_member (m : PgMultiXactAccum) (off : Z) (mem : Z * Z) : PgMultiXactAccum :=
  MkMulti (offsets m)
    (write_at (write_at (members m) (member_segno off) (status_pos off) [mem.2]) (member_segno off) (xid_pos off) (le_enc 4 mem.1))
    (offset_bytes m).

Fixpoint write_members (m : PgMultiXactAccum) (off : Z) (ms : list (Z * Z)) : PgMultiXactAccum :=
  match ms with [] => m | mem :: ms => write_members (write_member m off mem) (off + 1) ms end.

(** Members are a transaction and its lock strength or update. *)
Definition record_multi (m : PgMultiXactAccum) (mxid start : Z) (ms : list (Z * Z)) : PgMultiXactAccum :=
  write_members (write_offset (write_offset m mxid start) (mxid + 1) (start + zlen ms)) start ms.

Fixpoint record_all (m : PgMultiXactAccum) (mxid start : Z) (mss : list (list (Z * Z))) : PgMultiXactAccum :=
  match mss with [] => m | ms :: rest => record_all (record_multi m mxid start ms) (mxid + 1) (start + zlen ms) rest end.

(** *** Slots do not overlap *)
Definition has_offset (m : PgMultiXactAccum) (mxid v : Z) : Prop :=
  read_at (offsets m) (offset_segno m mxid) (offset_pos m mxid) (offset_bytes m) = Some (le_enc (Z.to_nat (offset_bytes m)) v).

Definition has_member (m : PgMultiXactAccum) (off : Z) (mem : Z * Z) : Prop :=
  read_at (members m) (member_segno off) (status_pos off) 1 = Some [mem.2] /\
  read_at (members m) (member_segno off) (xid_pos off) 4 = Some (le_enc 4 mem.1).

Definition width_ok (m : PgMultiXactAccum) : Prop := offset_bytes m = 4 \/ offset_bytes m = 8.

Lemma offset_in_page m mxid : width_ok m -> 0 <= mxid -> in_page (offset_pos m mxid) (offset_bytes m).
Proof. intros [E|E] H; unfold in_page, offset_pos, offsets_per_segment; rewrite E;
  [change (8192 / 4 * SLRU_PAGES_PER_SEGMENT) with 65536|change (8192 / 8 * SLRU_PAGES_PER_SEGMENT) with 32768]; Z.to_euclidean_division_equations; lia.
Qed.

Lemma offset_disjoint m a b : width_ok m -> 0 <= a -> 0 <= b -> a <> b -> offset_segno m a = offset_segno m b ->
  offset_pos m a + offset_bytes m <= offset_pos m b \/ offset_pos m b + offset_bytes m <= offset_pos m a.
Proof. intros [E|E] Ha Hb Hne; unfold offset_segno, offset_pos, offsets_per_segment; rewrite E;
  [change (8192 / 4 * SLRU_PAGES_PER_SEGMENT) with 65536|change (8192 / 8 * SLRU_PAGES_PER_SEGMENT) with 32768]; Z.to_euclidean_division_equations; lia.
Qed.

Lemma member_in_page off : 0 <= off -> in_page (status_pos off) 1 /\ in_page (xid_pos off) 4.
Proof. intros H. unfold in_page, status_pos, xid_pos, member_base. Z.to_euclidean_division_equations. lia. Qed.

Lemma member_disjoint a b : 0 <= a -> 0 <= b -> a <> b -> member_segno a = member_segno b ->
  member_base a + 20 <= member_base b \/ member_base b + 20 <= member_base a \/
  (member_base a = member_base b /\ a mod 1636 mod 4 <> b mod 1636 mod 4).
Proof. intros Ha Hb Hne. unfold member_segno, member_base. Z.to_euclidean_division_equations. lia. Qed.

Lemma zlen_entry m v : width_ok m -> zlen (le_enc (Z.to_nat (offset_bytes m)) v) = offset_bytes m.
Proof. intros [E|E]; rewrite E; by rewrite zlen_le_enc. Qed.

Lemma write_offset_has m mxid v : width_ok m -> 0 <= mxid -> has_offset (write_offset m mxid v) mxid v.
Proof.
  intros Hw Hm. unfold has_offset, write_offset. cbn [offsets offset_bytes].
  etransitivity; [|apply (read_write (offsets m) (offset_segno m mxid) (offset_pos m mxid))]; rewrite zlen_entry by done; [done|by apply offset_in_page].
Qed.

Lemma write_offset_keeps m a v b w : width_ok m -> 0 <= a -> 0 <= b -> a <> b -> has_offset m b w -> has_offset (write_offset m a v) b w.
Proof.
  intros Hw Ha Hb Hne. unfold has_offset, write_offset. cbn [offsets offset_bytes].
  apply (read_write_other (offsets m) (offset_segno m a) (offset_pos m a) _ (offset_segno m b) (offset_pos m b));
    rewrite ?zlen_entry by done; [by apply offset_in_page|destruct Hw; lia|by apply offset_disjoint].
Qed.

Lemma write_member_has m off mem : 0 <= off -> has_member (write_member m off mem) off mem.
Proof.
  intros Ho. destruct (member_in_page off Ho) as [H1 H4]. unfold has_member, write_member. cbn [members]. split.
  - apply read_write_other; [exact H4|lia| |apply (read_write _ _ _ [_] H1)].
    intros _. right. unfold status_pos, xid_pos. Z.to_euclidean_division_equations. lia.
  - apply (read_write _ _ _ (le_enc 4 mem.1) H4).
Qed.

Lemma write_member_keeps m a mem b mem' : 0 <= a -> 0 <= b -> a <> b -> has_member m b mem' -> has_member (write_member m a mem) b mem'.
Proof.
  intros Ha Hb Hne [Hs Hx]. pose proof (member_disjoint a b Ha Hb Hne) as Hd. destruct (member_in_page a Ha) as [H1 H4].
  assert (0 <= a mod 1636 mod 4 < 4 /\ 0 <= b mod 1636 mod 4 < 4) by (Z.to_euclidean_division_equations; lia).
  unfold has_member, write_member. cbn [members].
  split; (apply read_write_other; [exact H4|lia| |apply read_write_other; [exact H1|lia| |assumption]]).
  all: intros E; specialize (Hd E); change (zlen (le_enc 4 mem.1)) with 4; change (zlen [mem.2]) with 1; unfold status_pos, xid_pos; lia.
Qed.

Lemma write_members_keeps ms m off b mem' : 0 <= b < off -> has_member m b mem' -> has_member (write_members m off ms) b mem'.
Proof.
  revert m off. induction ms as [|mem ms IH]; intros m off Hb H; [done|]. apply IH; [lia|]. apply write_member_keeps; [lia..|done].
Qed.

Lemma write_members_has ms m off k mem : 0 <= off -> ms !! k = Some mem -> has_member (write_members m off ms) (off + Z.of_nat k) mem.
Proof.
  revert m off k. induction ms as [|x ms IH]; intros m off [|k] Ho Hk; try done.
  - injection Hk as ->. rewrite Z.add_0_r. cbn [write_members]. apply write_members_keeps; [lia|]. by apply write_member_has.
  - replace (off + Z.of_nat (S k)) with (off + 1 + Z.of_nat k) by lia. apply IH; [lia|done].
Qed.

Lemma write_members_offsets ms m off : offsets (write_members m off ms) = offsets m /\ offset_bytes (write_members m off ms) = offset_bytes m.
Proof. revert m off. induction ms as [|x ms IH]; intros m off; [done|]. exact (IH (write_member m off x) (off + 1)). Qed.

Lemma has_offset_members ms m off x v : has_offset (write_members m off ms) x v <-> has_offset m x v.
Proof.
  unfold has_offset, offset_segno, offset_pos, offsets_per_segment. by destruct (write_members_offsets ms m off) as [-> ->].
Qed.

Lemma record_multi_bytes m x s ms : offset_bytes (record_multi m x s ms) = offset_bytes m.
Proof. unfold record_multi. by destruct (write_members_offsets ms (write_offset (write_offset m x s) (x + 1) (s + zlen ms)) s) as [_ ->]. Qed.

Lemma record_multi_offsets m x s ms : width_ok m -> 0 <= x ->
  has_offset (record_multi m x s ms) x s /\ has_offset (record_multi m x s ms) (x + 1) (s + zlen ms) /\
  forall y v, 0 <= y -> y <> x -> y <> x + 1 -> has_offset m y v -> has_offset (record_multi m x s ms) y v.
Proof.
  intros Hw Hx. unfold record_multi. setoid_rewrite has_offset_members.
  assert (Hw' : width_ok (write_offset m x s)) by exact Hw. repeat split.
  - apply write_offset_keeps; [done|lia..|]. by apply write_offset_has.
  - apply write_offset_has; [done|lia].
  - intros y v Hy H1 H2 H. apply write_offset_keeps; [done|lia..|]. apply write_offset_keeps; [done|lia..|done].
Qed.

Lemma record_multi_members m x s ms off mem : 0 <= off < s -> has_member m off mem -> has_member (record_multi m x s ms) off mem.
Proof. intros Ho H. by apply write_members_keeps. Qed.

(** Later multixacts keep the entries and the members of earlier ones. *)
Lemma record_all_keeps mss m x s : width_ok m -> 0 <= x -> 0 <= s ->
  (forall y v, 0 <= y -> y < x \/ (y = x /\ v = s) -> has_offset m y v -> has_offset (record_all m x s mss) y v) /\
  (forall off mem, 0 <= off < s -> has_member m off mem -> has_member (record_all m x s mss) off mem).
Proof.
  revert m x s. induction mss as [|ms mss IH]; intros m x s Hw Hx Hs; [done|]. cbn [record_all].
  pose proof (zlen_nonneg ms). destruct (record_multi_offsets m x s ms Hw Hx) as (H1 & H2 & H3).
  assert (Hw' : width_ok (record_multi m x s ms)) by (unfold width_ok; by rewrite record_multi_bytes).
  destruct (IH (record_multi m x s ms) (x + 1) (s + zlen ms) Hw' ltac:(lia) ltac:(lia)) as [IHo IHm]. split.
  - intros y v Hy [Hlt|[-> ->]] Ho; apply IHo; try lia; [apply H3; [lia..|done]|done].
  - intros off mem Ho Hmem. apply IHm; [lia|]. by apply record_multi_members.
Qed.

(** *** Reading back *)
Lemma has_offset_reads m x v : width_ok m -> has_offset m x v -> 0 < v < 256 ^ offset_bytes m -> offset_at m x = Val v.
Proof.
  unfold has_offset, read_at, offset_at, read_offset. fold (offset_segno m x) (offset_pos m x). intros Hw H Hv.
  destruct (offsets m !! offset_segno m x) as [seg|]; [|done]. rewrite H, le_dec_enc_small by (rewrite Z2Nat.id by (destruct Hw; lia); lia).
  by rewrite (proj2 (Z.eqb_neq _ _)) by lia.
Qed.

Lemma get_range_one (l : list Z) i x : get_range l i (i + 1) = Some [x] -> zget l i = Some x.
Proof.
  unfold get_range, zget. destruct (_ && _ && _) eqn:E; [|done]. rewrite !andb_true_iff, !Z.leb_le in E. intros [= H].
  rewrite (proj2 (Z.leb_le _ _)) by lia. unfold sub, ztake, zdrop in H. replace (Z.to_nat (i + 1 - i)) with 1%nat in H by lia.
  destruct (drop (Z.to_nat i) l) as [|y rest] eqn:Ed; [done|]. injection H as ->. rewrite <- (Nat.add_0_r (Z.to_nat i)), <- lookup_drop, Ed. done.
Qed.

Lemma has_member_reads m off mem : has_member m off mem -> 0 <= off < 2 ^ 32 * 52352 -> 0 <= mem.1 < 2 ^ 32 ->
  member_at m off = Member mem.1 mem.2.
Proof.
  intros [Hs Hx] Ho Hm. unfold member_at, MULTIXACT_MEMBERS_PER_PAGE, SLRU_PAGES_PER_SEGMENT, MULTIXACT_MEMBERS_PER_GROUP, MULTIXACT_GROUP_SIZE.
  fold (member_segno off) (member_base off). fold (status_pos off) (xid_pos off).
  assert (Hseg : member_segno off < 2 ^ 32) by (unfold member_segno; Z.to_euclidean_division_equations; lia).
  rewrite (proj2 (Z.leb_gt _ _)) by lia. unfold read_at in *. destruct (members m !! member_segno off) as [seg|]; [|done].
  rewrite (get_range_one _ _ _ Hs), Hx, le_dec_enc_small by (cbn; lia). done.
Qed.

Definition member_ok (mem : Z * Z) : Prop := 0 < mem.1 < 2 ^ 32 /\ 0 <= mem.2 <= MULTIXACT_STATUS_UPDATE.

(** The first member that updates, if one does. *)
Fixpoint updating (ms : list (Z * Z)) : MultiXactUpdater :=
  match ms with [] => LockOnly | mem :: ms => if MULTIXACT_STATUS_FOR_UPDATE <? mem.2 then Updater mem.1 else updating ms end.

(** One past the last member offset the entry width and the segment names
    address. *)
Definition offset_limit (m : PgMultiXactAccum) : Z := if offset_bytes m =? 4 then 2 ^ 32 else 2 ^ 32 * 52352.

Lemma wrap_offset_small m v : 0 <= v < offset_limit m -> wrap_offset m v = v.
Proof. unfold wrap_offset, offset_limit. destruct (_ =? 4); [|done]. intros H. by apply wrap_small. Qed.

Lemma offset_limit_le m : 0 < offset_limit m <= 2 ^ 32 * 52352.
Proof. unfold offset_limit. destruct (_ =? 4); lia. Qed.

Lemma scan_finds m start ms : forall i, 0 <= start -> 0 <= i -> start + i + zlen ms <= offset_limit m -> Forall member_ok ms ->
  (forall k mem, ms !! k = Some mem -> has_member m (start + i + Z.of_nat k) mem) ->
  scan_members m start (length ms) i = updating ms.
Proof.
  induction ms as [|mem ms IH]; intros i Hs Hi Hl Hok Hm; [done|]. apply Forall_cons_1 in Hok as [[Hx Hst] Hok].
  rewrite zlen_cons in Hl. pose proof (zlen_nonneg ms). pose proof (offset_limit_le m).
  cbn [scan_members length updating]. rewrite uadd_small by (unfold fits; lia). rewrite wrap_offset_small by lia.
  pose proof (Hm 0%nat mem eq_refl) as Hmem. rewrite Z.add_0_r in Hmem. rewrite (has_member_reads _ _ _ Hmem) by lia.
  rewrite (proj2 (Z.eqb_neq _ _)) by lia. rewrite (proj2 (Z.ltb_ge _ _)) by lia. case_match; [done|].
  apply IH; [lia..|done|]. intros k mem' Hk. replace (start + (i + 1) + Z.of_nat k) with (start + i + Z.of_nat (S k)) by lia. by apply Hm.
Qed.

Lemma updater_recorded m x s ms : width_ok m -> 0 <= x -> x + 1 < 2 ^ 32 -> 0 < s -> s + zlen ms < offset_limit m ->
  0 < zlen ms <= MULTIXACT_MEMBERS_SANITY_CAP -> Forall member_ok ms -> has_offset m x s -> has_offset m (x + 1) (s + zlen ms) ->
  (forall k mem, ms !! k = Some mem -> has_member m (s + Z.of_nat k) mem) -> updater m x = updating ms.
Proof.
  intros Hw Hx Hx' Hs Hl Hn Hok Ho Ho' Hm. unfold updater, next_multi. rewrite uadd_small by (unfold fits; lia).
  rewrite (proj2 (Z.eqb_neq _ _)) by lia. pose proof (offset_limit_le m).
  assert (Hv : s + zlen ms < 256 ^ offset_bytes m) by (unfold offset_limit in Hl; destruct Hw as [E|E]; rewrite E in *; cbn in *; lia).
  rewrite (has_offset_reads m _ _ Hw Ho), (has_offset_reads m _ _ Hw Ho') by lia. cbv beta iota zeta. unfold usub. replace (s + zlen ms - s) with (zlen ms) by lia.
  rewrite wrap_small by (unfold fits; lia). rewrite wrap_offset_small by lia.
  rewrite (proj2 (Z.eqb_neq _ _)), (proj2 (Z.ltb_ge _ _)) by lia. cbn [orb].
  unfold zlen at 1. rewrite Nat2Z.id. apply scan_finds; [lia..|done|]. intros k mem. rewrite Z.add_0_r. apply Hm.
Qed.

(** *** Entries never written *)
Definition blank (m : PgMultiXactAccum) (x : Z) : Prop :=
  forall i, 0 <= i < offset_bytes m -> byte_at (default [] (offsets m !! offset_segno m x)) (offset_pos m x + i) = 0.

Lemma byte_at_grow seg n i : byte_at (grow seg n) i = byte_at seg i.
Proof.
  unfold byte_at, grow, zget. destruct (0 <=? i); [|done]. destruct (decide (Z.to_nat i < length seg)%nat).
  - by rewrite lookup_app_l.
  - rewrite lookup_app_r, (lookup_ge_None_2 seg) by lia. unfold zrep.
    destruct (replicate _ _ !! _) eqn:E; [|done]. by apply lookup_replicate in E as [-> _].
Qed.

Lemma write_offset_blank m a v x : width_ok m -> 0 <= a -> 0 <= x -> a <> x -> blank m x -> blank (write_offset m a v) x.
Proof.
  intros Hw Ha Hx Hne Hb i Hi. unfold write_offset in *. cbn [offsets offset_bytes] in *. specialize (Hb i Hi).
  change (offset_segno (MkMulti _ _ _) x) with (offset_segno m x). change (offset_pos (MkMulti _ _ _) x) with (offset_pos m x).
  destruct (decide (offset_segno m a = offset_segno m x)) as [E|Hn]; unfold write_at; [|by rewrite lookup_insert_ne].
  rewrite E, lookup_insert_eq. cbn [default from_option Datatypes.id].
  destruct (offset_in_page m a Hw Ha) as (? & ? & ?), (offset_in_page m x Hw Hx) as (? & _).
  unfold byte_at. rewrite zget_put_out; rewrite ?zlen_entry, ?zlen_grow by done; [|lia..|].
  - fold (byte_at (grow (default [] (offsets m !! offset_segno m x)) ((offset_pos m a / 8192 + 1) * 8192)) (offset_pos m x + i)).
    by rewrite byte_at_grow.
  - destruct (offset_disjoint m a x Hw Ha Hx Hne E); lia.
Qed.

Lemma record_multi_blank m x s ms y : width_ok m -> 0 <= x -> x + 1 < y -> blank m y -> blank (record_multi m x s ms) y.
Proof.
  intros Hw Hx Hy Hb. unfold record_multi, blank, offset_segno, offset_pos, offsets_per_segment.
  destruct (write_members_offsets ms (write_offset (write_offset m x s) (x + 1) (s + zlen ms)) s) as [-> ->].
  apply (write_offset_blank _ _ _ y); [exact Hw|lia..|]. apply write_offset_blank; [done|lia..|done].
Qed.

Lemma record_all_bytes mss m x s : offset_bytes (record_all m x s mss) = offset_bytes m.
Proof. revert m x s. induction mss as [|ms mss IH]; intros m x s; [done|]. cbn [record_all]. by rewrite IH, record_multi_bytes. Qed.

Lemma record_all_blank mss m x s y : width_ok m -> 0 <= x -> x + zlen mss < y -> blank m y -> blank (record_all m x s mss) y.
Proof.
  revert m x s. induction mss as [|ms mss IH]; intros m x s Hw Hx Hy Hb; [done|]. cbn [record_all]. rewrite zlen_cons in Hy.
  pose proof (zlen_nonneg mss). apply IH; [unfold width_ok; by rewrite record_multi_bytes|lia..|]. apply record_multi_blank; [done|lia..|done].
Qed.

Lemma le_dec_zero l : Forall (fun b => b = 0) l -> le_dec l = 0.
Proof. induction 1 as [|b l -> _ IH]; [done|]. cbn [le_dec]. rewrite IH. lia. Qed.

Lemma sub_zero (l : list Z) a b : 0 <= a -> (forall i, 0 <= i < b - a -> byte_at l (a + i) = 0) -> Forall (fun x => x = 0) (sub l a b).
Proof.
  intros Ha H. apply Forall_lookup. intros k x Hk. unfold sub, ztake, zdrop in Hk.
  apply lookup_take_Some in Hk as [Hk Hlt]. rewrite lookup_drop in Hk. specialize (H (Z.of_nat k) ltac:(lia)). unfold byte_at, zget in H.
  rewrite (proj2 (Z.leb_le _ _)) in H by lia. replace (Z.to_nat (a + Z.of_nat k)) with (Z.to_nat a + k)%nat in H by lia. by rewrite Hk in H.
Qed.

(** At or above an entry that is there, an entry is there or was not written
    yet, and a blank one was not. *)
Lemma above_reachable m x y v : width_ok m -> 0 <= x -> x <= y -> has_offset m x v -> offset_at m y <> Truncated.
Proof.
  intros Hw Hx Hy Ho. unfold offset_at, read_offset. fold (offset_segno m y) (offset_pos m y).
  destruct (offsets m !! offset_segno m y) as [seg|] eqn:Es; [repeat case_match; congruence|].
  assert (any_below (offsets m) (offset_segno m y) = true) as ->; [|done]. unfold has_offset, read_at in Ho.
  destruct (offsets m !! offset_segno m x) as [seg|] eqn:Ex; [|done]. unfold any_below. apply existsb_exists.
  exists (offset_segno m x). split.
  - apply list_elem_of_In, list_elem_of_fmap. exists (offset_segno m x, seg). split; [done|]. by apply elem_of_map_to_list.
  - apply Z.ltb_lt. assert (offset_segno m x <> offset_segno m y) by congruence.
    assert (offset_segno m x <= offset_segno m y); [|lia].
    apply Z.div_le_mono; [destruct Hw as [E|E]; unfold offsets_per_segment; rewrite E; reflexivity|done].
Qed.

Lemma blank_no_value m y v : width_ok m -> 0 <= y -> blank m y -> offset_at m y <> Val v.
Proof.
  intros Hw Hy Hb. unfold offset_at, read_offset. fold (offset_segno m y) (offset_pos m y).
  destruct (offset_in_page m y Hw Hy) as (? & ? & _). unfold blank in Hb.
  destruct (offsets m !! offset_segno m y) as [seg|]; [|by destruct (any_below _ _)].
  unfold get_range. destruct (_ && _ && _); [|done]. rewrite le_dec_zero; [done|]. apply sub_zero; [done|]. intros i Hi. apply Hb. lia.
Qed.

(** Where the [k]th multixact of a run keeps its entries and members. *)
Lemma record_all_at mss : forall m x s k ms, width_ok m -> 0 <= x -> 0 <= s -> mss !! k = Some ms ->
  let m' := record_all m x s mss in
  let s' := s + zlen (concat (take k mss)) in
  has_offset m' (x + Z.of_nat k) s' /\ has_offset m' (x + Z.of_nat k + 1) (s' + zlen ms) /\
  forall j mem, ms !! j = Some mem -> has_member m' (s' + Z.of_nat j) mem.
Proof.
  induction mss as [|ms0 mss IH]; intros m x s [|k] ms Hw Hx Hs Hk; try done; cbn [record_all take concat].
  all: pose proof (zlen_nonneg ms0); assert (Hw' : width_ok (record_multi m x s ms0)) by (unfold width_ok; by rewrite record_multi_bytes).
  - injection Hk as ->. change (zlen []) with 0. rewrite !Z.add_0_r. destruct (record_multi_offsets m x s ms Hw Hx) as (H1 & H2 & _).
    destruct (record_all_keeps mss (record_multi m x s ms) (x + 1) (s + zlen ms) Hw' ltac:(lia) ltac:(lia)) as [Ko Km]. split; [|split].
    + apply Ko; [lia..|done].
    + apply Ko; [lia..|done].
    + intros j mem Hj. pose proof (lookup_lt_Some _ _ _ Hj). apply Km; [unfold zlen; lia|]. by apply write_members_has.
  - specialize (IH (record_multi m x s ms0) (x + 1) (s + zlen ms0) k ms Hw' ltac:(lia) ltac:(lia) Hk). cbv zeta in IH.
    rewrite zlen_app. replace (x + Z.of_nat (S k)) with (x + 1 + Z.of_nat k) by lia. by rewrite Z.add_assoc.
Qed.

(** A run of multixacts laid out as the server lays them out resolves
    member for member: each one to the member that updates or to lockers only,
    whichever pages, groups and segments its entries and members fall in, and
    every later multixact reads as created after the copy. *)
Theorem updater_resolves major x s mss : 0 < x -> x + zlen mss < 2 ^ 32 -> 0 < s ->
  s + zlen (concat mss) < offset_limit (new major) -> mss <> [] ->
  Forall (fun ms => 0 < zlen ms <= MULTIXACT_MEMBERS_SANITY_CAP /\ Forall member_ok ms) mss ->
  let m := record_all (new major) x s mss in
  (forall k ms, mss !! k = Some ms -> updater m (x + Z.of_nat k) = updating ms) /\
  (forall y, x + zlen mss <= y -> y + 1 < 2 ^ 32 -> updater m y = Covered).
Proof.
  intros Hx Hlast Hs Hl Hne Hok m.
  assert (Hw : width_ok (new major)) by (unfold width_ok, new; cbn; destruct (19 <=? major); lia).
  assert (Hb : offset_bytes m = offset_bytes (new major)) by apply record_all_bytes.
  assert (Hwm : width_ok m) by (unfold width_ok; by rewrite Hb).
  assert (Hlm : offset_limit m = offset_limit (new major)) by (unfold offset_limit; by rewrite Hb). split.
  - intros k ms Hk. destruct (record_all_at mss (new major) x s k ms Hw ltac:(lia) ltac:(lia) Hk) as (H1 & H2 & H3).
    pose proof (lookup_lt_Some _ _ _ Hk). rewrite Forall_lookup in Hok. destruct (Hok k ms Hk) as [Hn Hm].
    assert (Hsz : zlen (concat (take k mss)) + zlen ms <= zlen (concat mss)).
    { rewrite <- (take_drop k mss) at 2. rewrite concat_app, zlen_app, (drop_S _ _ _ Hk). cbn [concat]. rewrite zlen_app.
      pose proof (zlen_nonneg (concat (drop (S k) mss))). lia. }
    pose proof (zlen_nonneg (concat (take k mss))). unfold zlen in Hlast.
    eapply updater_recorded; [done|lia|lia| | |exact Hn|exact Hm|exact H1|exact H2|exact H3]; lia.
  - intros y Hy Hy'. destruct mss as [|ms0 mss']; [done|].
    destruct (record_all_at (ms0 :: mss') (new major) x s 0 ms0 Hw ltac:(lia) ltac:(lia) eq_refl) as (H1 & _). fold m in H1. rewrite Z.add_0_r in H1.
    assert (Hbl : blank m (y + 1)) by (apply record_all_blank; [done|lia..|intros i Hi; by destruct (offset_pos (new major) (y + 1) + i)]).
    pose proof (zlen_nonneg (ms0 :: mss')). unfold updater, next_multi. rewrite uadd_small by (unfold fits; lia).
    rewrite (proj2 (Z.eqb_neq _ _)) by lia. pose proof (above_reachable m x y _ Hwm ltac:(lia) ltac:(lia) H1).
    pose proof (above_reachable m x (y + 1) _ Hwm ltac:(lia) ltac:(lia) H1). pose proof (fun v => blank_no_value m (y + 1) v Hwm ltac:(lia) Hbl).
    destruct (offset_at m y); [|done..]. destruct (offset_at m (y + 1)); naive_solver.
Qed.
(** Two multixacts whose members straddle a page: a locker and a deleter, then
    a locker alone. *)
Definition two_multis : list (list (Z * Z)) := [[(700, 1); (701, 5)]; [(702, 3)]].

Lemma updater_resolves_witness :
  let m := record_all (new 18) 65535 1635 two_multis in
  updater m 65535 = Updater 701 /\ updater m 65536 = LockOnly /\ updater m 65537 = Covered.
Proof.
  destruct (updater_resolves 18 65535 1635 two_multis) as [H1 H2]; [lia..|vm_compute; done|lia|vm_compute; done|done| |].
  - repeat match goal with |- Forall _ [] => apply Forall_nil_2 | |- Forall _ _ => apply Forall_cons_2 | |- _ => split end; vm_compute; done.
  - split; [exact (H1 0%nat _ eq_refl)|]. split; [exact (H1 1%nat _ eq_refl)|]. apply H2; vm_compute; done.
Defined.

End VisibilityProofs.
