(* ===== verification/Outbox.v ===== *)
(** * From sealed plans to acknowledged rows

    The producer half of the ack protocol ([SeqAlloc] of
    [src/emit/pipeline/ack.rs]), row placement ([src/emit/pipeline/decode.rs])
    and the execution of a transaction's sealed plan
    ([src/emit/pipeline/reorder.rs]).  [System] runs the sink beside the
    collector of [Ack] and inserters that acknowledge rows in any grouping and
    order; a call that awaits is a point where they may step. *)
From S2P Require Import Prelude Pos Ack WalRecord HeapDecode Spill.
Import Schema HeapDecode Spill.

(** ** [SeqAlloc]: every operation takes and returns the events sent so far *)
Module SeqAlloc.
Import Ack.

Inductive Publish := Commit | Partial.

Record Held := MkHeld { h_registered : list AckEvent; h_placed : list AckEvent }.

Record SeqAlloc := MkAlloc { next : Z; held : option Held }.

Definition seqs (first : Z) : SeqAlloc := MkAlloc first None.

(** [SeqAlloc::held]. *)
Definition hold (a : SeqAlloc) : SeqAlloc := MkAlloc (next a) (Some (MkHeld [] [])).

Definition open (a : SeqAlloc) (tx : list AckEvent) (commit_lsn : Z) (publish : Publish) : SeqAlloc * list AckEvent * Z :=
  let seq := next a in
  let ev := Register seq commit_lsn (match publish with Commit => true | Partial => false end) in
  match held a with
  | Some h => (MkAlloc (uadd 64 seq 1) (Some (MkHeld (h_registered h ++ [ev]) (h_placed h))), tx, seq)
  | None => (MkAlloc (uadd 64 seq 1) None, tx ++ [ev], seq)
  end.

Definition place (a : SeqAlloc) (tx : list AckEvent) (seq rows : Z) : SeqAlloc * list AckEvent :=
  match held a with
  | Some h => (MkAlloc (next a) (Some (MkHeld (h_registered h) (h_placed h ++ [Placed seq rows]))), tx)
  | None => (a, tx ++ [Placed seq rows])
  end.

Definition mark (a : SeqAlloc) (tx : list AckEvent) (commit_lsn : Z) : SeqAlloc * list AckEvent :=
  let '(a, tx, seq) := open a tx commit_lsn Commit in place a tx seq 0.

Definition send_registered (a : SeqAlloc) (tx : list AckEvent) : SeqAlloc * list AckEvent :=
  match held a with
  | Some (MkHeld (ev :: evs) placed) => (MkAlloc (next a) (Some (MkHeld [] placed)), tx ++ [Batch (ev :: evs)])
  | _ => (a, tx)
  end.

Definition send_placed (a : SeqAlloc) (tx : list AckEvent) : SeqAlloc * list AckEvent :=
  match held a with
  | Some (MkHeld registered (ev :: evs)) => (MkAlloc (next a) (Some (MkHeld registered [])), tx ++ [Batch (ev :: evs)])
  | _ => (a, tx)
  end.

End SeqAlloc.

(** ** Row placement *)
Module Place.

(** What placement reads of a route: its delete-marker column. *)
Record RouteSnapshot := MkRoute { table : list Z; is_deleted : option (list Z) }.

Definition drops_deletes (r : RouteSnapshot) : bool := negb (is_some (is_deleted r)).

Record RoutedHeap := MkRouted { described : DescribedHeap; route : option RouteSnapshot; bytes : Z }.

Record CommittedTuple := MkCommitted { decoded : DecodedHeap; commit_ts : Z; commit_lsn : Z }.

Record RoutedRow := MkRow { seq : Z; rel : RelDescriptor; row_route : RouteSnapshot; committed : CommittedTuple }.

Definition DECODE_CHUNK_BYTES : Z := 4 * 2 ^ 20.

Section Place.

(** [gserialized_point_to_wkt]. *)
Context (gserialized_point_to_wkt : list Z -> option (list Z)).

Definition geography : list Z := [103; 101; 111; 103; 114; 97; 112; 104; 121].
Definition geometry : list Z := [103; 101; 111; 109; 101; 116; 114; 121].

Definition render_cell (attrs : list RelAttr) (idx : nat) (cell : option ColumnValue) : option ColumnValue :=
  match cell with
  | Some (PgPending t raw) =>
      let is_geo := existsb (fun att => negb (dropped att) && (attnum att - 1 =? Z.of_nat idx)
                       && bool_decide (type_name att = geography \/ type_name att = geometry)) attrs in
      if is_geo then match gserialized_point_to_wkt raw with Some text => Some (TextVal text) | None => cell end else cell
  | _ => cell
  end.

Definition render_ext_columns (attrs : list RelAttr) (columns : list (option ColumnValue)) : list (option ColumnValue) :=
  imap (render_cell attrs) columns.

Definition render_tuple (attrs : list RelAttr) (t : DecodedTuple) : DecodedTuple :=
  MkTuple (render_ext_columns attrs (columns t)) (partial t).

Definition render_heap (attrs : list RelAttr) (h : DecodedHeap) : DecodedHeap :=
  MkHeap (rfn h) (xid h) (source_lsn h) (op h) (render_tuple attrs <$> new h) (render_tuple attrs <$> old h).

Definition is_delete (h : DecodedHeap) : bool := match op h with Delete => true | _ => false end.

(** [place_rows]; [buf] the open chunk. *)
Fixpoint place_loop (snowflake : bool) (chunk_rows sq ts lsn : Z) (heaps : list RoutedHeap) (buf : list RoutedRow) (buf_bytes : Z)
    (staged : list (list RoutedRow)) (routed : Z) : list (list RoutedRow) * Z :=
  match heaps with
  | [] => (match buf with [] => staged | _ => staged ++ [buf] end, routed)
  | envelope :: heaps =>
      match route envelope with
      | None => place_loop snowflake chunk_rows sq ts lsn heaps buf buf_bytes staged routed
      | Some rt =>
          if negb snowflake && drops_deletes rt && is_delete (Spill.decoded (described envelope)) then
            place_loop snowflake chunk_rows sq ts lsn heaps buf buf_bytes staged routed
          else
            let buf_bytes := buf_bytes + bytes envelope in
            let rl := descriptor (described envelope) in
            let d := Spill.decoded (described envelope) in
            let d := if snowflake then d else render_heap (attributes rl) d in
            let '(tomb, d) := if negb snowflake && negb (drops_deletes rt) then take_key_change_tombstone d rl else (None, d) in
            let '(buf, routed) :=
              match tomb with
              | Some t => (buf ++ [MkRow sq rl rt (MkCommitted t ts lsn)], routed + 1)
              | None => (buf, routed)
              end in
            let buf := buf ++ [MkRow sq rl rt (MkCommitted d ts lsn)] in
            let routed := routed + 1 in
            if (chunk_rows <=? zlen buf) || (DECODE_CHUNK_BYTES <=? buf_bytes) then
              place_loop snowflake chunk_rows sq ts lsn heaps [] 0 (staged ++ [buf]) routed
            else place_loop snowflake chunk_rows sq ts lsn heaps buf buf_bytes staged routed
      end
  end.

Definition place_rows (staged : list (list RoutedRow)) (chunk_rows : Z) (snowflake : bool) (sq ts lsn : Z) (heaps : list RoutedHeap)
    : list (list RoutedRow) * Z :=
  place_loop snowflake chunk_rows sq ts lsn heaps [] 0 staged 0.

End Place.

End Place.

(** ** The outbox and plan execution *)
Module Outbox.
Import Ack(AckEvent(..)) SeqAlloc Place.

Record Outbox := MkOutbox { seqs : SeqAlloc; staged : list (list RoutedRow); staged_rows : Z; staged_bytes : Z }.

Definition boot : Outbox := MkOutbox (hold (SeqAlloc.seqs 0)) [] 0 0.

(** [ship] up to its channel send: registrations, then the staged chunks. *)
Definition ship_rows (o : Outbox) (tx : list AckEvent) : Outbox * list AckEvent * list (list RoutedRow) :=
  let '(a, tx) := send_registered (seqs o) tx in
  match staged o with
  | [] => (MkOutbox a [] (staged_rows o) (staged_bytes o), tx, [])
  | chunks => (MkOutbox a [] 0 0, tx, chunks)
  end.

(** The rest of [ship]: placements, once the rows are on the channel. *)
Definition ship_placed (o : Outbox) (tx : list AckEvent) : Outbox * list AckEvent :=
  let '(a, tx) := send_placed (seqs o) tx in (MkOutbox a (staged o) (staged_rows o) (staged_bytes o), tx).

Section Outbox.
Context (gserialized_point_to_wkt : list Z -> option (list Z)) (snowflake : bool) {E : Type}.

(** [dispatch_planned] on a non-empty slice, after admission; whether it ships. *)
Definition dispatch_planned (o : Outbox) (tx : list AckEvent) (chunk_rows : Z) (heaps : list RoutedHeap) (nbytes ts lsn : Z)
    (publish : Publish) : Outbox * list AckEvent * bool :=
  let '(a, tx, sq) := open (seqs o) tx lsn publish in
  let '(chunks, rows) := place_rows gserialized_point_to_wkt (staged o) chunk_rows snowflake sq ts lsn heaps in
  let '(a, tx) := place a tx sq rows in
  let o := MkOutbox a chunks (staged_rows o + rows) (staged_bytes o + nbytes) in
  (o, tx, (chunk_rows <=? staged_rows o) || (DECODE_CHUNK_BYTES <=? staged_bytes o)).

Definition mark_commit (o : Outbox) (tx : list AckEvent) (lsn : Z) : Outbox * list AckEvent :=
  let '(a, tx) := mark (seqs o) tx lsn in (MkOutbox a (staged o) (staged_rows o) (staged_bytes o), tx).

(** A catalog event or a truncate applies behind a fence. *)
Inductive Effect := Control (ev : E) | Truncate (h : RoutedHeap).

Inductive PlanItem := PControl (ev : E) | PHeap (h : RoutedHeap) | PTruncate (h : RoutedHeap).

(** The awaiting calls of the sink, in order. *)
Inductive Act :=
| ADispatch (heaps : list RoutedHeap) (nbytes ts lsn : Z) (publish : Publish)
| AShip
| AFlushAll
| AFenced (e : Effect)
| AMark (lsn : Z).

(** [barrier_fence] without its last wait, which [AFenced] starts with. *)
Definition barrier_fence : list Act := [AShip; AFlushAll; AShip].

(** [execute_plan]'s loop, and whether its last dispatch published. *)
Fixpoint plan_loop (batch_rows batch_bytes ts lsn : Z) (items : list PlanItem) (pending : list RoutedHeap) (pending_bytes : Z)
    : list Act * bool :=
  let go := plan_loop batch_rows batch_bytes ts lsn in
  let fenced e items :=
    let '(acts, published) := go items [] 0 in
    (ADispatch pending pending_bytes ts lsn Partial :: barrier_fence ++ AFenced e :: acts, published) in
  match items with
  | [] => ([ADispatch pending pending_bytes ts lsn Commit], match pending with [] => false | _ => true end)
  | PControl c :: items => fenced (Control c) items
  | PTruncate h :: items => fenced (Truncate h) items
  | PHeap h :: items =>
      let pending := pending ++ [h] in
      let pending_bytes := pending_bytes + bytes h in
      if (batch_rows <=? zlen pending) || (batch_bytes <=? pending_bytes) then
        let '(acts, published) := go items [] 0 in (ADispatch pending pending_bytes ts lsn Partial :: acts, published)
      else go items pending pending_bytes
  end.

Definition execute_plan (batch_rows batch_bytes ts lsn : Z) (items : list PlanItem) : list Act * bool :=
  plan_loop batch_rows batch_bytes ts lsn items [] 0.

(** A commit with its plan if it buffered anything, an abort, or the end of a
    record batch. *)
Inductive Unit_ := UCommit (ts lsn : Z) (plan : option (list PlanItem)) | UAbort (lsn : Z) | UEnd.

Definition on_commit (batch_rows batch_bytes ts lsn : Z) (plan : option (list PlanItem)) : list Act :=
  let '(acts, published) := match plan with Some items => execute_plan batch_rows batch_bytes ts lsn items | None => ([], false) end in
  acts ++ (if published then [] else [AMark lsn]).

Definition unit_acts (batch_rows batch_bytes : Z) (u : Unit_) : list Act :=
  match u with
  | UCommit ts lsn plan => on_commit batch_rows batch_bytes ts lsn plan
  | UAbort lsn => [AMark lsn]
  | UEnd => [AShip]
  end.

(** ** The sink, the collector and the inserters *)
Record Sys := MkSys
  { prog : list Act;               (* what the sink has left to do *)
    mid : bool;                    (* its rows are on the channel, their placements not yet sent *)
    out : Outbox;
    sent : list AckEvent;          (* every event sent to the collector *)
    seen : nat;                    (* how many it has processed *)
    unacked : list Z;              (* the seqs of the rows sent and not acknowledged *)
    log : list (RoutedRow + Effect) }.  (* rows sent and effects applied, in order *)

Definition start (acts : list Act) : Sys := MkSys acts false boot [] 0 [] [].

Definition collector (ack0 : Z) (s : Sys) : Ack.AckState := Ack.collect (Ack.new ack0 None) (take (seen s) (sent s)).

Definition tags (rows : list RoutedRow) : list Z := map seq rows.

Definition rows_of (counts : list (Z * Z)) : list Z := concat (map (fun c => zrep c.2 c.1) counts).

(** [ack0] is the resume position the collector starts from.  Admission, at a
    dispatch or while planning, ships when the memory pool is short. *)
Inductive step (ack0 : Z) : Sys -> Sys -> Prop :=
| s_dispatch_empty nb ts lsn pub p o tx n un lg :
    step ack0 (MkSys (ADispatch [] nb ts lsn pub :: p) false o tx n un lg) (MkSys p false o tx n un lg)
| s_admit_ship p o tx n un lg :
    step ack0 (MkSys p false o tx n un lg) (MkSys (AShip :: p) false o tx n un lg)
| s_dispatch chunk_rows h hs nb ts lsn pub p o tx n un lg o' tx' ships :
    dispatch_planned o tx chunk_rows (h :: hs) nb ts lsn pub = (o', tx', ships) ->
    step ack0 (MkSys (ADispatch (h :: hs) nb ts lsn pub :: p) false o tx n un lg)
      (MkSys (if ships then AShip :: p else p) false o' tx' n un lg)
| s_ship_rows p o tx n un lg o' tx' chunks :
    ship_rows o tx = (o', tx', chunks) ->
    step ack0 (MkSys (AShip :: p) false o tx n un lg) (MkSys (AShip :: p) true o' tx' n (un ++ tags (concat chunks)) (lg ++ map inl (concat chunks)))
| s_ship_placed p o tx n un lg o' tx' :
    ship_placed o tx = (o', tx') -> step ack0 (MkSys (AShip :: p) true o tx n un lg) (MkSys p false o' tx' n un lg)
| s_flush_all p o tx n un lg :
    step ack0 (MkSys (AFlushAll :: p) false o tx n un lg) (MkSys p false o tx n un lg)
| s_fenced e p o tx n un lg :
    next (seqs o) <= Pos.get (Ack.frontier_cell (Ack.collect (Ack.new ack0 None) (take n tx))) ->
    step ack0 (MkSys (AFenced e :: p) false o tx n un lg) (MkSys p false o tx n un (lg ++ [inr e]))
| s_mark lsn p o tx n un lg o' tx' :
    mark_commit o tx lsn = (o', tx') -> step ack0 (MkSys (AMark lsn :: p) false o tx n un lg) (MkSys p false o' tx' n un lg)
| s_collect p md o tx n un lg :
    (n < length tx)%nat -> step ack0 (MkSys p md o tx n un lg) (MkSys p md o tx (S n) un lg)
| s_ack counts rest p md o tx n un lg :
    counts <> [] -> Forall (fun c => 0 < c.2) counts -> un ≡ₚ rows_of counts ++ rest ->
    step ack0 (MkSys p md o tx n un lg) (MkSys p md o (tx ++ [Acked counts]) n rest lg)
| s_trailing lsn p o tx n un lg :
    step ack0 (MkSys p false o tx n un lg) (MkSys p false o (tx ++ [Trailing lsn]) n un lg).

End Outbox.

End Outbox.
