(* ===== verification/Plan.v ===== *)
(** * Transaction plans ([src/emit/pipeline/plan_spool.rs])

    The writer that keeps a transaction's planned heaps in memory until they
    outgrow [mem_max] and then streams them to a spool file of checksummed frames,
    the sealed plan, and the reader that replays it.  Descriptors and routes are
    shared pointers, told apart by address; an address comes with the value it
    points to.  The spool file is its contents. *)
From S2P Require Import Prelude WalRecord HeapDecode Wire Spill ToastRef XactBuffer DescLog XactDrain Outbox.
Import Schema HeapDecode Wire Spill.
Import Place (RouteSnapshot, RoutedHeap, MkRouted, described, route, bytes).

Module Plan.

Definition PLAN_MAGIC : list Z := [87; 80].
Definition PLAN_VERSION : Z := 1.
Definition DEFAULT_PLAN_MEM_MAX : Z := 2 ^ 20.
Definition MEM_FRAME_OVERHEAD : Z := 64.
Definition TAG_HEAP : Z := 0.
Definition TAG_SEAL : Z := 1.
Definition ROUTE_NONE : Z := 2 ^ 32 - 1.

(** The texts of [PlanSpoolError::Format]. *)
Inductive PlanFormat :=
| AlreadyReplayed
| BadPlanMagic
| UnsupportedVersion (found : Z)
| HeapDetail (e : WireError)
| NoRowFence (truncate header : Z)
| FrameClaims (offset len remaining : Z)
| HeapTrailing (offset n : Z)
| DictId (id header : Z)
| RouteId (id header : Z)
| ShortSeal
| SealCount (count replayed header : Z)
| TruncateCount (replayed header : Z)
| TrailingAfterSeal
| UnknownTag (tag : Z)
| EmptyFrame.

Inductive PlanSpoolError :=
| Format (detail : PlanFormat)
| Corrupt (offset : Z)
| DiskBudget (needed cap : Z)
| Unsealed
(** the panic of [unreachable!] *)
| Unreachable.

Section Plan.
Context `{Layout} `{Crc32c} {SchemaEvent ConfigEvent : Type}.

Notation DrainEntry := (@XactBuffer.DrainEntry SchemaEvent ConfigEvent).
Notation OrderedEvent := (@XactDrain.OrderedEvent SchemaEvent ConfigEvent).

(** A heap and the addresses of its descriptor and of its route. *)
Record Planned := MkPlanned { p_heap : DescribedHeap; p_desc : Z; p_route : option (Z * RouteSnapshot) }.

(** [RoutedHeap::new]. *)
Definition routed (p : Planned) : RoutedHeap := MkRouted (p_heap p) (snd <$> p_route p) (XactDrain.heap_bytes (p_heap p)).

Definition slots (t : option DecodedTuple) : Z := match t with Some t => zlen (columns t) | None => 0 end.

Definition mem_cost (p : Planned) : Z :=
  let d := decoded (p_heap p) in
  MEM_FRAME_OVERHEAD + (bytes (routed p) + (slots (new d) + slots (old d)) * size_of_Column).

Inductive PlanSink := Mem (heaps : list Planned) | File (contents : list Z).

Record PlanWriter := MkPlanWriter
  { sink : PlanSink; mem_max : Z; cap : Z; wbytes : Z; heap_count : Z; routed_count : Z;
    desc_ids : gmap (Z * Z) Z; descriptors : list (RelDescriptor * Z);
    route_ids : gmap Z Z; routes : list RouteSnapshot;
    controls : list OrderedEvent; row_batches : list (list ToastRef.ToastRow); truncate_rows : list Z }.

Definition create (cap mem_max : Z) : PlanWriter := MkPlanWriter (Mem []) mem_max cap 4 0 0 ∅ [] ∅ [] [] [] [].

Definition set_sink (w : PlanWriter) (s : PlanSink) (n : Z) : PlanWriter :=
  MkPlanWriter s (mem_max w) (cap w) n (heap_count w) (routed_count w) (desc_ids w) (descriptors w) (route_ids w) (routes w)
    (controls w) (row_batches w) (truncate_rows w).

Definition set_tables (w : PlanWriter) (di : gmap (Z * Z) Z) (ds : list (RelDescriptor * Z)) (ri : gmap Z Z) (rs : list RouteSnapshot) : PlanWriter :=
  MkPlanWriter (sink w) (mem_max w) (cap w) (wbytes w) (heap_count w) (routed_count w) di ds ri rs (controls w) (row_batches w) (truncate_rows w).

Definition set_counts (w : PlanWriter) (heaps routed : Z) : PlanWriter :=
  MkPlanWriter (sink w) (mem_max w) (cap w) (wbytes w) heaps routed (desc_ids w) (descriptors w) (route_ids w) (routes w)
    (controls w) (row_batches w) (truncate_rows w).

Definition set_header (w : PlanWriter) (cs : list OrderedEvent) (rb : list (list ToastRef.ToastRow)) (ts : list Z) : PlanWriter :=
  MkPlanWriter (sink w) (mem_max w) (cap w) (wbytes w) (heap_count w) (routed_count w) (desc_ids w) (descriptors w) (route_ids w) (routes w) cs rb ts.

Definition frame (body : list Z) : list Z := push_u32 (zlen body) ++ push_u32 (crc32c body) ++ body.

(** [write_frame]; [spill] is what it does while the heaps are in memory. *)
Definition write_frame (spill : PlanWriter -> result PlanSpoolError PlanWriter) (w : PlanWriter) (body : list Z) (budget_exempt : bool)
    : result PlanSpoolError PlanWriter :=
  let needed := wbytes w + 8 + zlen body in
  if negb budget_exempt && (cap w <? needed) then Err (DiskBudget needed (cap w))
  else
    let? w := match sink w with Mem _ => spill w | File _ => Ok w end in
    match sink w with
    | File f => Ok (set_sink w (File (f ++ frame body)) needed)
    | Mem _ => Err Unreachable
    end.

(** A dictionary id: the one on record, or the next one. *)
Definition intern {K V} `{Countable K} (ids : gmap K Z) (table : list V) (k : K) (v : V) : Z * gmap K Z * list V :=
  match ids !! k with
  | Some id => (id, ids, table)
  | None => (wrap 32 (zlen table), <[k := wrap 32 (zlen table)]> ids, table ++ [v])
  end.

Definition heap_body (dict_id route_id : Z) (h : DecodedHeap) : list Z :=
  [TAG_HEAP] ++ push_u32 dict_id ++ push_u32 route_id ++ encode_heap h.

Definition encode_heap (spill : PlanWriter -> result PlanSpoolError PlanWriter) (w : PlanWriter) (p : Planned) : result PlanSpoolError PlanWriter :=
  let h := p_heap p in
  let '(dict_id, di, ds) := intern (desc_ids w) (descriptors w) (p_desc p, descriptor_valid_from h) (descriptor h, descriptor_valid_from h) in
  let '(route_id, ri, rs) :=
    match p_route p with
    | Some (addr, r) => intern (route_ids w) (routes w) addr r
    | None => (ROUTE_NONE, route_ids w, routes w)
    end in
  write_frame spill (set_tables w di ds ri rs) (heap_body dict_id route_id (decoded h)) false.

Fixpoint encode_all (w : PlanWriter) (hs : list Planned) : result PlanSpoolError PlanWriter :=
  match hs with
  | [] => Ok w
  | p :: hs => let? w := encode_heap (fun w => Ok w) w p in encode_all w hs
  end.

(** The sink is the file before the first heap is encoded, so [write_frame] does
    not come back here. *)
Definition spill (w : PlanWriter) : result PlanSpoolError PlanWriter :=
  match sink w with
  | Mem heaps => encode_all (set_sink w (File (PLAN_MAGIC ++ push_u16 PLAN_VERSION)) 4) heaps
  | File _ => Err Unreachable
  end.

Definition push_heap (w : PlanWriter) (p : Planned) : result PlanSpoolError PlanWriter :=
  let? w := match sink w with
            | Mem _ => if Z.min (mem_max w) (cap w) <? wbytes w + mem_cost p then spill w else Ok w
            | File _ => Ok w
            end in
  let? w := match sink w with
            | Mem heaps => Ok (set_sink w (Mem (heaps ++ [p])) (wbytes w + mem_cost p))
            | File _ => encode_heap spill w p
            end in
  Ok (set_counts w (heap_count w + 1) (routed_count w + if is_some (p_route p) then 1 else 0)).

Definition push_control (w : PlanWriter) (ev : DrainEntry) (row_idx : Z) : PlanWriter :=
  set_header w (controls w ++ [XactDrain.MkOrdered (heap_count w) row_idx ev]) (row_batches w) (truncate_rows w).

Definition push_rows (w : PlanWriter) (rows : list ToastRef.ToastRow) : PlanWriter :=
  match rows with [] => w | _ => set_header w (controls w) (row_batches w ++ [rows]) (truncate_rows w) end.

Definition push_truncate (w : PlanWriter) (p : Planned) (upto : Z) : result PlanSpoolError PlanWriter :=
  let? w := push_heap w p in Ok (set_header w (controls w) (row_batches w) (truncate_rows w ++ [upto])).

(** ** Sealed plans *)
Inductive PlanStore := SMem (heaps : list Planned) | SFile (contents : list Z).

Record SealedPlan := MkSealed
  { store : PlanStore; s_descriptors : list (RelDescriptor * Z); s_routes : list RouteSnapshot; s_controls : list OrderedEvent;
    s_row_batches : list (list ToastRef.ToastRow); s_truncate_rows : list Z; s_heap_count : Z; s_routed_count : Z; size_bytes : Z;
    s_commit_lsn : Z; s_commit_ts : Z }.

Definition seal (w : PlanWriter) (commit_lsn commit_ts : Z) : result PlanSpoolError SealedPlan :=
  let? sw := match sink w with
             | Mem heaps => Ok (SMem heaps, w)
             | File _ =>
                 let? w := write_frame spill w ([TAG_SEAL] ++ push_u64 (heap_count w)) true in
                 match sink w with File f => Ok (SFile f, w) | Mem _ => Err Unreachable end
             end in
  let w := sw.2 in
  Ok (MkSealed sw.1 (descriptors w) (routes w) (controls w) (row_batches w) (truncate_rows w) (heap_count w) (routed_count w)
        (wbytes w) commit_lsn commit_ts).

(** ** Replay *)
Inductive PlanItem := PControl (c : OrderedEvent) | PHeap (h : RoutedHeap) | PTruncate (h : RoutedHeap) (upto : Z).

Inductive PlanInput := IMem (heaps : list RoutedHeap) | IFile (rest : list Z).

Record PlanReader := MkPlanReader
  { input : PlanInput; offset : Z; next_heap : Z; next_control : nat; next_truncate : nat; done : bool }.

Definition read_or_unsealed (rest : list Z) (n : Z) : result PlanSpoolError (list Z * list Z) :=
  if zlen rest <? n then Err Unsealed else Ok (ztake n rest, zdrop n rest).

Definition open_file (contents : list Z) : result PlanSpoolError (list Z) :=
  let? hr := read_or_unsealed contents 4 in
  if negb (bool_decide (ztake 2 hr.1 = PLAN_MAGIC)) then Err (Format BadPlanMagic)
  else
    let version := u16_at hr.1 2 in
    if negb (version =? PLAN_VERSION) then Err (Format (UnsupportedVersion version)) else Ok hr.2.

(** [replay]: the reader, and the plan, whose memory heaps it has taken. *)
Definition replay (s : SealedPlan) : result PlanSpoolError (PlanReader * SealedPlan) :=
  let start i := MkPlanReader i 4 0 0 0 false in
  match store s with
  | SMem heaps =>
      if negb (zlen heaps =? s_heap_count s) then Err (Format AlreadyReplayed)
      else Ok (start (IMem (map routed heaps)),
               MkSealed (SMem []) (s_descriptors s) (s_routes s) (s_controls s) (s_row_batches s) (s_truncate_rows s) (s_heap_count s)
                 (s_routed_count s) (size_bytes s) (s_commit_lsn s) (s_commit_ts s))
  | SFile contents => let? rest := open_file contents in Ok (start (IFile rest), s)
  end.

Definition wire {A} (r : result WireError A) : result PlanSpoolError A :=
  match r with Ok x => Ok x | Err e => Err (Format (HeapDetail e)) end.

(** The heap of a frame at [frame_offset]. *)
Definition heap_frame (s : SealedPlan) (frame_offset : Z) (body : list Z) : result PlanSpoolError RoutedHeap :=
  let? dc := wire (u32 (MkCur (zdrop 1 body) 0)) in
  let? rc := wire (u32 dc.2) in
  let? hc := wire (decode_heap rc.2) in
  let remaining := zlen (cbuf hc.2) - cpos hc.2 in
  if negb (remaining =? 0) then Err (Format (HeapTrailing frame_offset remaining))
  else
    match s_descriptors s !! Z.to_nat dc.1 with
    | None => Err (Format (DictId dc.1 (zlen (s_descriptors s))))
    | Some (d, valid_from) =>
        let? rt := if rc.1 =? ROUTE_NONE then Ok None
                   else match s_routes s !! Z.to_nat rc.1 with
                        | None => Err (Format (RouteId rc.1 (zlen (s_routes s))))
                        | Some r => Ok (Some r)
                        end in
        let h := MkDescribed hc.1 d valid_from in
        Ok (MkRouted h rt (XactDrain.heap_bytes h))
    end.

(** The cross-checks of the seal, with the bytes after it. *)
Definition seal_frame (s : SealedPlan) (r : PlanReader) (body rest : list Z) : result PlanSpoolError unit :=
  if zlen body <? 9 then Err (Format ShortSeal)
  else
    let count := le_dec (sub body 1 9) in
    if negb (count =? next_heap r) || negb (count =? s_heap_count s) then Err (Format (SealCount count (next_heap r) (s_heap_count s)))
    else if negb (Z.of_nat (next_truncate r) =? zlen (s_truncate_rows s)) then
      Err (Format (TruncateCount (Z.of_nat (next_truncate r)) (zlen (s_truncate_rows s))))
    else match rest with [] => Ok tt | _ => Err (Format TrailingAfterSeal) end.

(** [next_frame] with [rest] unread: the heap or the end, and the reader. *)
Definition next_frame (s : SealedPlan) (r : PlanReader) (rest : list Z) : result PlanSpoolError (option RoutedHeap * PlanReader) :=
  let frame_offset := offset r in
  let? fr := read_or_unsealed rest 8 in
  let len := le_dec (ztake 4 fr.1) in
  let crc := le_dec (zdrop 4 fr.1) in
  let remaining := Z.max 0 (size_bytes s - (frame_offset + 8)) in
  if remaining <? len then Err (Format (FrameClaims frame_offset len remaining))
  else
    let? br := read_or_unsealed fr.2 len in
    let body := br.1 in
    if negb (crc32c body =? crc) then Err (Corrupt frame_offset)
    else
      let r := MkPlanReader (IFile br.2) (offset r + (8 + len)) (next_heap r) (next_control r) (next_truncate r) (done r) in
      match body with
      | [] => Err (Format EmptyFrame)
      | tag :: _ =>
          if tag =? TAG_HEAP then let? h := heap_frame s frame_offset body in Ok (Some h, r)
          else if tag =? TAG_SEAL then let? _ := seal_frame s r body br.2 in Ok (None, r)
          else Err (Format (UnknownTag tag))
      end.

(** The control due before the next heap. *)
Definition due (s : SealedPlan) (r : PlanReader) : option (OrderedEvent * PlanReader) :=
  match s_controls s !! next_control r with
  | Some c => if XactDrain.heap_idx c <=? next_heap r
              then Some (c, MkPlanReader (input r) (offset r) (next_heap r) (S (next_control r)) (next_truncate r) (done r))
              else None
  | None => None
  end.

Definition next_input (s : SealedPlan) (r : PlanReader) : result PlanSpoolError (option RoutedHeap * PlanReader) :=
  match input r with
  | IMem [] => Ok (None, r)
  | IMem (h :: hs) => Ok (Some h, MkPlanReader (IMem hs) (offset r) (next_heap r) (next_control r) (next_truncate r) (done r))
  | IFile rest => next_frame s r rest
  end.

Definition next_item (s : SealedPlan) (r : PlanReader) : result PlanSpoolError (option PlanItem * PlanReader) :=
  match due s r with
  | Some (c, r) => Ok (Some (PControl c), r)
  | None =>
      if done r then Ok (None, r)
      else
        let? hr := next_input s r in
        let r := hr.2 in
        match hr.1 with
        | None =>
            let r := MkPlanReader (input r) (offset r) (next_heap r) (next_control r) (next_truncate r) true in
            match due s r with Some (c, r) => Ok (Some (PControl c), r) | None => Ok (None, r) end
        | Some h =>
            let r := MkPlanReader (input r) (offset r) (next_heap r + 1) (next_control r) (next_truncate r) (done r) in
            if negb (XactDrain.is_truncate (described h)) then Ok (Some (PHeap h), r)
            else
              match s_truncate_rows s !! next_truncate r with
              | None => Err (Format (NoRowFence (Z.of_nat (next_truncate r)) (zlen (s_truncate_rows s))))
              | Some upto => Ok (Some (PTruncate h upto), MkPlanReader (input r) (offset r) (next_heap r) (next_control r) (S (next_truncate r)) (done r))
              end
        end
  end.

(** The loop over [next_item]: the items handed out, and the error that ended it
    early. *)
Fixpoint read_items (fuel : nat) (s : SealedPlan) (r : PlanReader) : list PlanItem * option PlanSpoolError :=
  match fuel with
  | O => ([], None)
  | S fuel =>
      match next_item s r with
      | Err e => ([], Some e)
      | Ok (None, _) => ([], None)
      | Ok (Some i, r) => let '(items, e) := read_items fuel s r in (i :: items, e)
      end
  end.

(** A call consumes a control, a heap or eight bytes of the file. *)
Definition items_fuel (s : SealedPlan) : nat :=
  S (S (length (s_controls s) + match store s with SMem hs => length hs | SFile c => length c end)).

Definition replay_items (s : SealedPlan) : list PlanItem * option PlanSpoolError :=
  match replay s with
  | Ok (r, _) => read_items (items_fuel s) s r
  | Err e => ([], Some e)
  end.

Definition verify (s : SealedPlan) : result PlanSpoolError unit :=
  match store s with
  | SMem _ => Ok tt
  | SFile _ => match (replay_items s).2 with None => Ok tt | Some e => Err e end
  end.

End Plan.

End Plan.
