(* ===== verification/PlanProofs.v ===== *)
(** * A sealed plan replays what was pushed

    Whatever the memory and disk limits, a plan replays its heaps, truncates and
    controls in the order they were pushed, under the descriptor and route each
    heap was planned with; the only refusal is a spool file over its cap.  A file
    cut short anywhere, or with bytes after its seal, is not replayed to the end. *)
From S2P Require Import Prelude WalRecord HeapDecode Wire Spill SpillProofs ToastRef XactBuffer DescLog XactDrain Outbox Plan.
Import Schema HeapDecode Wire Spill Plan.
Import Place (RouteSnapshot, RoutedHeap, MkRouted, described, route, bytes).

Module PlanProofs.

Section Proofs.
Context `{Layout} `{Crc32c} {SchemaEvent ConfigEvent : Type}.

Notation DrainEntry := (@XactBuffer.DrainEntry SchemaEvent ConfigEvent).
Notation OrderedEvent := (@XactDrain.OrderedEvent SchemaEvent ConfigEvent).
Notation PlanWriter := (@PlanWriter SchemaEvent ConfigEvent).
Notation SealedPlan := (@SealedPlan SchemaEvent ConfigEvent).
Notation PlanItem := (@PlanItem SchemaEvent ConfigEvent).
Notation spill_fn := (PlanWriter -> result PlanSpoolError PlanWriter).

(** ** The planner's calls *)
Inductive PlanOp := OHeap (p : Planned) | OTruncate (p : Planned) (upto : Z) | OControl (ev : DrainEntry) (row_idx : Z) | ORows (rows : list ToastRef.ToastRow).

Definition apply_op (w : PlanWriter) (o : PlanOp) : result PlanSpoolError PlanWriter :=
  match o with
  | OHeap p => push_heap w p
  | OTruncate p upto => push_truncate w p upto
  | OControl ev row_idx => Ok (push_control w ev row_idx)
  | ORows rows => Ok (push_rows w rows)
  end.

Fixpoint run (w : PlanWriter) (ops : list PlanOp) : result PlanSpoolError PlanWriter :=
  match ops with
  | [] => Ok w
  | o :: ops => let? w := apply_op w o in run w ops
  end.

Definition heap_of (o : PlanOp) : option Planned := match o with OHeap p | OTruncate p _ => Some p | _ => None end.

Definition heaps_of (ops : list PlanOp) : list Planned := omap heap_of ops.

Definition truncs_of (ops : list PlanOp) : list Z := omap (fun o => match o with OTruncate _ u => Some u | _ => None end) ops.

Definition rows_of (ops : list PlanOp) : list (list ToastRef.ToastRow) :=
  omap (fun o => match o with ORows (r :: rs) => Some (r :: rs) | _ => None end) ops.

(** The items of [ops] after [n] heaps. *)
Fixpoint expect (n : Z) (ops : list PlanOp) : list PlanItem :=
  match ops with
  | [] => []
  | OHeap p :: ops => PHeap (routed p) :: expect (n + 1) ops
  | OTruncate p upto :: ops => PTruncate (routed p) upto :: expect (n + 1) ops
  | OControl ev i :: ops => PControl (XactDrain.MkOrdered n i ev) :: expect n ops
  | ORows _ :: ops => expect n ops
  end.

Fixpoint controls_of (n : Z) (ops : list PlanOp) : list OrderedEvent :=
  match ops with
  | [] => []
  | OControl ev i :: ops => XactDrain.MkOrdered n i ev :: controls_of n ops
  | o :: ops => controls_of (n + match heap_of o with Some _ => 1 | None => 0 end) ops
  end.

(** The bytes of the spool file before its seal. *)
Definition body_size (p : Planned) : Z := 9 + zlen (Spill.encode_heap (decoded (p_heap p))).

Definition file_size (hs : list Planned) : Z := 4 + zsum (map (fun p => 8 + body_size p) hs).

(** A heap the codec can write in a frame. *)
Definition planned_ok (p : Planned) : Prop := SpillFile.heap_ok (decoded (p_heap p)) /\ body_size p < 2 ^ 32.

Definition op_ok (o : PlanOp) : Prop :=
  match o with
  | OHeap p => planned_ok p /\ XactDrain.is_truncate (p_heap p) = false
  | OTruncate p _ => planned_ok p /\ XactDrain.is_truncate (p_heap p) = true
  | _ => True
  end.

Section Memory.

(** What the addresses point to. *)
Context (at_desc : Z -> RelDescriptor) (at_route : Z -> RouteSnapshot).

Definition placed (p : Planned) : Prop :=
  descriptor (p_heap p) = at_desc (p_desc p) /\ match p_route p with Some (a, r) => r = at_route a | None => True end.

(** ** The dictionaries *)
Definition interned {K V} `{Countable K} (val : K -> V) (ids : gmap K Z) (table : list V) : Prop :=
  forall k id, ids !! k = Some id -> 0 <= id < zlen table /\ table !! Z.to_nat id = Some (val k).

Lemma intern_spec {K V} `{Countable K} (val : K -> V) ids table k : interned val ids table -> zlen table < 2 ^ 32 - 1 ->
  exists id ids' table', intern ids table k (val k) = (id, ids', table') /\ interned val ids' table' /\ table `prefix_of` table' /\
    zlen table' <= zlen table + 1 /\ 0 <= id < 2 ^ 32 - 1 /\ table' !! Z.to_nat id = Some (val k).
Proof using Type.
  intros Hi Hl. unfold intern. destruct (ids !! k) as [id|] eqn:Ek.
  - destruct (Hi _ _ Ek) as [Hb Ht]. eexists _, _, _. split; [done|]. do 2 (split; [done|]). split; [lia|]. split; [lia|done].
  - pose proof (zlen_nonneg table). rewrite wrap_small by (unfold fits; lia). assert ((table ++ [val k]) !! Z.to_nat (zlen table) = Some (val k)) as Hn.
    { unfold zlen. rewrite Nat2Z.id, lookup_app_r, Nat.sub_diag by lia. done. }
    eexists _, _, _. split; [done|]. split.
    { intros k' id'. rewrite zlen_app. change (zlen [val k]) with 1. intros [[<- <-]|[_ Hk]]%lookup_insert_Some; [by split; [lia|]|].
      destruct (Hi _ _ Hk) as [Hb Ht]. split; [lia|]. by apply lookup_app_l_Some. }
    split; [by eexists|]. rewrite zlen_app. change (zlen [val k]) with 1. split; [lia|]. split; [lia|done].
Qed.

(** A frame body that reads back as the heap under the tables. *)
Definition resolves (ds : list (RelDescriptor * Z)) (rs : list RouteSnapshot) (p : Planned) (body : list Z) : Prop :=
  exists i j, 0 <= i < 2 ^ 32 /\ 0 <= j < 2 ^ 32 /\ body = heap_body i j (decoded (p_heap p)) /\
    ds !! Z.to_nat i = Some (descriptor (p_heap p), descriptor_valid_from (p_heap p)) /\
    match p_route p with Some (_, r) => j <> ROUTE_NONE /\ rs !! Z.to_nat j = Some r | None => j = ROUTE_NONE end.

Lemma resolves_grow ds ds' rs rs' p body : ds `prefix_of` ds' -> rs `prefix_of` rs' -> resolves ds rs p body -> resolves ds' rs' p body.
Proof using Type.
  intros [? ->] [? ->] (i & j & Hi & Hj & Hb & Hd & Hr). exists i, j. do 3 (split; [done|]). split; [by apply lookup_app_l_Some|].
  destruct (p_route p) as [[a r]|]; [|done]. destruct Hr as [? Hr]. split; [done|]. by apply lookup_app_l_Some.
Qed.

Definition header : list Z := PLAN_MAGIC ++ push_u16 PLAN_VERSION.

Definition frames (bodies : list (list Z)) : list Z := concat (map frame bodies).

Lemma zlen_frame body : zlen (frame body) = 8 + zlen body.
Proof using Type. unfold frame, push_u32. zlen. Qed.

Lemma zlen_heap_body i j p : zlen (heap_body i j (decoded (p_heap p))) = body_size p.
Proof using Type. unfold heap_body, body_size, push_u32. zlen. Qed.

(** The tables of a writer, and its file when it has spilled the heaps [hs]. *)
Definition tables_ok (w : PlanWriter) (n : Z) : Prop :=
  interned (fun k => (at_desc k.1, k.2)) (desc_ids w) (descriptors w) /\ interned at_route (route_ids w) (routes w) /\
  zlen (descriptors w) <= n /\ zlen (routes w) <= n.

Definition spilled (w : PlanWriter) (hs : list Planned) : Prop :=
  tables_ok w (zlen hs) /\ wbytes w = file_size hs /\
  exists bodies, sink w = File (header ++ frames bodies) /\ Forall2 (resolves (descriptors w) (routes w)) hs bodies.

(** The fields spilling leaves alone. *)
Definition same_header (w w' : PlanWriter) : Prop :=
  cap w' = cap w /\ mem_max w' = mem_max w /\ heap_count w' = heap_count w /\ routed_count w' = routed_count w /\ controls w' = controls w /\
  row_batches w' = row_batches w /\ truncate_rows w' = truncate_rows w.

Lemma file_size_snoc hs p : file_size (hs ++ [p]) = file_size hs + (8 + body_size p).
Proof using Type. unfold file_size. rewrite map_app, zsum_app. cbn. lia. Qed.

Lemma body_size_pos p : 9 <= body_size p.
Proof using Type. unfold body_size. pose proof (zlen_nonneg (Spill.encode_heap (decoded (p_heap p)))). lia. Qed.

Lemma file_size_app hs hs' : file_size hs <= file_size (hs ++ hs').
Proof using Type.
  induction hs' as [|p hs' IH] using rev_ind; [rewrite app_nil_r; lia|]. rewrite app_assoc, file_size_snoc. pose proof (body_size_pos p). lia.
Qed.

(** The outcome of writing up to [hs]: the file, or a refusal over the cap. *)
Definition wrote (w : PlanWriter) (hs : list Planned) (r : result PlanSpoolError PlanWriter) : Prop :=
  match r with
  | Ok w' => spilled w' hs /\ same_header w w'
  | Err e => exists n, e = DiskBudget n (cap w) /\ cap w < n <= file_size hs
  end.

Lemma encode_heap_spec sp w hs p : spilled w hs -> placed p -> zlen hs < 2 ^ 32 - 2 -> wrote w (hs ++ [p]) (encode_heap sp w p).
Proof using Type.
  intros ((Hd & Hr & Ld & Lr) & Hb & bodies & Hs & HF) [Pd Pr] Hn. unfold encode_heap.
  replace (descriptor (p_heap p)) with (at_desc (p_desc p)) by done.
  destruct (intern_spec _ _ _ (p_desc p, descriptor_valid_from (p_heap p)) Hd ltac:(lia)) as (id & di & ds & E & Hdi & Gd & Nd & Bi & Li).
  cbn [fst snd] in E, Li. rewrite E.
  assert (exists rid ri rs, match p_route p with Some (addr, r) => intern (route_ids w) (routes w) addr r | None => (ROUTE_NONE, route_ids w, routes w) end = (rid, ri, rs) /\
    interned at_route ri rs /\ routes w `prefix_of` rs /\ zlen rs <= zlen (routes w) + 1 /\ 0 <= rid < 2 ^ 32 /\
    match p_route p with Some (_, r) => rid <> ROUTE_NONE /\ rs !! Z.to_nat rid = Some r | None => rid = ROUTE_NONE end) as (rid & ri & rs & E' & Hri & Gr & Nr & Bj & Lj).
  { destruct (p_route p) as [[a r]|].
    - rewrite Pr. destruct (intern_spec _ _ _ a Hr ltac:(lia)) as (j & ri & rs & E' & ? & ? & ? & ? & ?). exists j, ri, rs. unfold ROUTE_NONE. split_and!; (done || lia).
    - eexists _, _, _. split; [done|]. unfold ROUTE_NONE. split_and!; (done || lia). }
  rewrite E'. unfold write_frame. cbn [set_tables wbytes cap sink negb andb]. rewrite zlen_heap_body, Hb, <-Z.add_assoc, <-file_size_snoc.
  destruct (Z.ltb_spec (cap w) (file_size (hs ++ [p]))) as [Hc|Hc]; [exists (file_size (hs ++ [p])); split; [done|lia]|].
  rewrite Hs. cbn [sink set_tables]. rewrite Hs. split; [|by repeat split].
  split; [|split; [done|]].
  - rewrite zlen_app. change (zlen [p]) with 1. unfold tables_ok. cbn [set_sink set_tables desc_ids descriptors route_ids routes]. split_and!; (done || lia).
  - exists (bodies ++ [heap_body id rid (decoded (p_heap p))]). cbn [set_sink set_tables sink descriptors routes]. split.
    { unfold frames. rewrite map_app, concat_app. cbn [map concat]. by rewrite app_nil_r, app_assoc. }
    apply Forall2_app; [eapply Forall2_impl; [intros ? ?; by apply resolves_grow|exact HF]|]. constructor; [|constructor].
    exists id, rid. split; [lia|]. split; [done|]. split; [done|]. split; [by rewrite Pd|done].
Qed.

Lemma encode_all_spec w hs hs' : spilled w hs -> Forall placed hs' -> zlen hs + zlen hs' < 2 ^ 32 - 1 ->
  wrote w (hs ++ hs') (encode_all w hs') \/ hs' = [] /\ encode_all w hs' = Ok w.
Proof using Type.
  revert w hs. induction hs' as [|p hs' IH]; intros w hs Hw HP Hn; [by right|]. left. apply Forall_cons_1 in HP as [Hp HP]. cbn [encode_all].
  rewrite zlen_cons in Hn. pose proof (zlen_nonneg hs'). pose proof (encode_heap_spec (fun w => Ok w) w hs p Hw Hp ltac:(lia)) as Hwr.
  destruct (encode_heap _ w p) as [w1|e]; cbn [wrote] in *.
  - destruct Hwr as (Hs1 & Hh1). replace (hs ++ p :: hs') with ((hs ++ [p]) ++ hs') by (by rewrite <-app_assoc).
    destruct (IH w1 (hs ++ [p]) Hs1 HP) as [Hr|[-> Hr]]; [rewrite zlen_app; change (zlen [p]) with 1; lia| |].
    + destruct Hh1 as (Ec & Hh1). destruct (encode_all w1 hs') as [w2|e2]; cbn [wrote] in *; rewrite ?Ec in Hr; [|done].
      destruct Hr as (Hs2 & (Ec2 & Hh2)). split; [done|]. unfold same_header. rewrite Ec2. naive_solver congruence.
    + rewrite Hr, app_nil_r. done.
  - destruct Hwr as (n & -> & Hc). exists n. split; [done|]. pose proof (file_size_app (hs ++ [p]) hs') as Hle. rewrite <-app_assoc in Hle. cbn [app] in Hle. lia.
Qed.

(** ** The writer *)
Definition mem_size (hs : list Planned) : Z := 4 + zsum (map mem_cost hs).

Definition writes (ops : list PlanOp) (w : PlanWriter) : Prop :=
  heap_count w = zlen (heaps_of ops) /\ controls w = controls_of 0 ops /\ truncate_rows w = truncs_of ops /\ row_batches w = rows_of ops /\
  (sink w = Mem (heaps_of ops) /\ wbytes w = mem_size (heaps_of ops) /\ desc_ids w = ∅ /\ descriptors w = [] /\ route_ids w = ∅ /\ routes w = [] \/
   spilled w (heaps_of ops)).

Lemma controls_app n a b : controls_of n (a ++ b) = controls_of n a ++ controls_of (n + zlen (heaps_of a)) b.
Proof using Type.
  revert n. induction a as [|o a IH]; intros n.
  - change (zlen (heaps_of [])) with 0. by rewrite Z.add_0_r.
  - destruct o as [p|p u|ev i|rows]; cbn [app controls_of heap_of]; rewrite IH, ?Z.add_0_r; [| |done..].
    + change (heaps_of (OHeap p :: a)) with (p :: heaps_of a). by rewrite zlen_cons, Z.add_assoc.
    + change (heaps_of (OTruncate p u :: a)) with (p :: heaps_of a). by rewrite zlen_cons, Z.add_assoc.
Qed.

Lemma spill_spec w hs : sink w = Mem hs -> desc_ids w = ∅ -> descriptors w = [] -> route_ids w = ∅ -> routes w = [] ->
  Forall placed hs -> zlen hs < 2 ^ 32 - 1 -> wrote w hs (spill w).
Proof using Type.
  intros Hs E1 E2 E3 E4 HP Hn. unfold spill. rewrite Hs. set (w0 := set_sink w _ 4).
  assert (spilled w0 []) as Hw0.
  { unfold spilled, tables_ok, w0. cbn [set_sink desc_ids descriptors route_ids routes wbytes sink]. rewrite E1, E2, E3, E4. change (zlen []) with 0.
    split; [split_and!; [done..|lia|lia]|]. split; [done|]. exists []. split; [by rewrite app_nil_r|constructor]. }
  destruct (encode_all_spec w0 [] hs Hw0 HP) as [Hr|[-> Hr]]; [change (zlen []) with 0; lia|done|].
  rewrite Hr. split; [done|]. by repeat split.
Qed.

(** One more operation, or a refusal over the cap. *)
Definition wrote_ops (w : PlanWriter) (ops : list PlanOp) (r : result PlanSpoolError PlanWriter) : Prop :=
  match r with
  | Ok w' => writes ops w' /\ cap w' = cap w
  | Err e => exists n, e = DiskBudget n (cap w) /\ cap w < n <= file_size (heaps_of ops)
  end.

Lemma push_heap_spec w ops p : writes ops w -> Forall placed (heaps_of ops ++ [p]) -> zlen (heaps_of ops) < 2 ^ 32 - 2 ->
  match push_heap w p with
  | Ok w' => heap_count w' = zlen (heaps_of ops) + 1 /\ controls w' = controls w /\ truncate_rows w' = truncate_rows w /\ row_batches w' = row_batches w /\ cap w' = cap w /\
      (sink w' = Mem (heaps_of ops ++ [p]) /\ wbytes w' = mem_size (heaps_of ops ++ [p]) /\ desc_ids w' = ∅ /\ descriptors w' = [] /\ route_ids w' = ∅ /\ routes w' = [] \/
       spilled w' (heaps_of ops ++ [p]))
  | Err e => exists n, e = DiskBudget n (cap w) /\ cap w < n <= file_size (heaps_of ops ++ [p])
  end.
Proof using Type.
  intros (Hn & _ & _ & _ & Hs) HP Hl. set (hs := heaps_of ops) in *. pose proof HP as [HPs [Hp _]%Forall_cons_1]%Forall_app.
  assert (forall w1, spilled w1 hs -> same_header w w1 -> match (let? w2 := encode_heap spill w1 p in Ok (set_counts w2 (heap_count w2 + 1) (routed_count w2 + if is_some (p_route p) then 1 else 0))) with
    | Ok w' => heap_count w' = zlen hs + 1 /\ controls w' = controls w /\ truncate_rows w' = truncate_rows w /\ row_batches w' = row_batches w /\ cap w' = cap w /\ spilled w' (hs ++ [p])
    | Err e => exists n, e = DiskBudget n (cap w) /\ cap w < n <= file_size (hs ++ [p])
    end) as Hfile.
  { intros w1 H1 (Ec & Em & En & Er & Eo & Eb & Et). pose proof (encode_heap_spec spill w1 hs p H1 Hp Hl) as Hw. destruct (encode_heap spill w1 p) as [w2|e]; cbn [wrote] in Hw.
    - destruct Hw as (Hs2 & Ec2 & Em2 & En2 & Er2 & Eo2 & Eb2 & Et2). cbn [set_counts heap_count controls truncate_rows row_batches cap].
      split_and!; [lia|congruence..|]. exact Hs2.
    - by rewrite Ec in Hw. }
  unfold push_heap. destruct Hs as [(Hs & Hb & E1 & E2 & E3 & E4)|Hs].
  - rewrite Hs. destruct (Z.ltb_spec (Z.min (mem_max w) (cap w)) (wbytes w + mem_cost p)) as [Hc|Hc].
    + pose proof (spill_spec w hs Hs E1 E2 E3 E4 HPs ltac:(lia)) as Hsp. destruct (spill w) as [w1|e]; cbn [wrote] in Hsp.
      * destruct Hsp as [Hs1 Hh1]. pose proof (Hfile w1 Hs1 Hh1) as Hf. pose proof Hs1 as (_ & _ & bodies & Hk & _). rewrite Hk.
        destruct (encode_heap spill w1 p); [|done]. naive_solver.
      * destruct Hsp as (n & -> & Hcn). exists n. split; [done|]. rewrite file_size_snoc. pose proof (body_size_pos p). lia.
    + rewrite Hs. cbn [set_counts set_sink heap_count controls truncate_rows row_batches cap sink wbytes desc_ids descriptors route_ids routes]. split_and!; [lia|done..|].
      left. split_and!; try done. rewrite Hb. unfold mem_size. rewrite map_app, zsum_app. cbn. lia.
  - pose proof Hs as (_ & _ & bodies & Hk & _). rewrite Hk. cbv beta iota. rewrite Hk. pose proof (Hfile w Hs ltac:(by repeat split)) as Hf.
    destruct (encode_heap spill w p); [|done]. naive_solver.
Qed.

Lemma apply_op_spec w ops o : writes ops w -> Forall placed (heaps_of (ops ++ [o])) -> zlen (heaps_of (ops ++ [o])) < 2 ^ 32 - 1 ->
  wrote_ops w (ops ++ [o]) (apply_op w o).
Proof using Type.
  intros Hw HP Hl. assert (forall p, heap_of o = Some p -> heaps_of (ops ++ [o]) = heaps_of ops ++ [p]) as Hsn.
  { intros p Ho. unfold heaps_of. rewrite omap_app. cbn [omap list_omap]. by rewrite Ho. }
  assert (heap_of o = None -> heaps_of (ops ++ [o]) = heaps_of ops) as Hnn.
  { intros Ho. unfold heaps_of. rewrite omap_app. cbn [omap list_omap]. by rewrite Ho, app_nil_r. }
  assert (forall p, heap_of o = Some p -> Forall placed (heaps_of ops ++ [p]) /\ zlen (heaps_of ops) < 2 ^ 32 - 2) as Hpre.
  { intros p Ho. rewrite (Hsn p Ho) in HP, Hl. rewrite zlen_app in Hl. change (zlen [p]) with 1 in Hl. split; [done|lia]. }
  unfold wrote_ops, writes, truncs_of, rows_of. rewrite controls_app, !omap_app. fold (truncs_of ops). fold (rows_of ops).
  destruct o as [p|p u|ev i|rows]; cbn [apply_op omap list_omap controls_of].
  - rewrite (Hsn p eq_refl). destruct (Hpre p eq_refl) as [H1 H2]. pose proof (push_heap_spec w ops p Hw H1 H2) as Hp. destruct Hw as (Hn & Hc & Ht & Hr & _).
    destruct (push_heap w p) as [w'|e]; [|done]. destruct Hp as (E1 & E2 & E3 & E4 & E5 & E6). rewrite !app_nil_r, zlen_app. change (zlen [p]) with 1. split_and!; [lia|congruence..|done|done].
  - rewrite (Hsn p eq_refl). destruct (Hpre p eq_refl) as [H1 H2]. pose proof (push_heap_spec w ops p Hw H1 H2) as Hp. destruct Hw as (Hn & Hc & Ht & Hr & _). unfold push_truncate.
    destruct (push_heap w p) as [w'|e]; [|done]. destruct Hp as (E1 & E2 & E3 & E4 & E5 & E6). rewrite !app_nil_r, zlen_app. change (zlen [p]) with 1.
    cbn [set_header heap_count controls truncate_rows row_batches cap sink wbytes desc_ids descriptors route_ids routes]. split_and!; [lia|congruence..|exact E6|done].
  - rewrite (Hnn eq_refl), !app_nil_r, Z.add_0_l. destruct Hw as (Hn & Hc & Ht & Hr & Hs). unfold push_control. rewrite <-Hc, <-Hn.
    cbn [set_header heap_count controls truncate_rows row_batches cap sink wbytes desc_ids descriptors route_ids routes]. by split_and!.
  - rewrite (Hnn eq_refl), !app_nil_r. destruct Hw as (Hn & Hc & Ht & Hr & Hs). destruct rows as [|r rows]; cbn [push_rows].
    + rewrite app_nil_r. by split_and!.
    + cbn [set_header heap_count controls truncate_rows row_batches cap sink wbytes desc_ids descriptors route_ids routes]. rewrite Hr. by split_and!.
Qed.

Lemma run_spec w ops ops' : writes ops w -> Forall placed (heaps_of (ops ++ ops')) -> zlen (heaps_of (ops ++ ops')) < 2 ^ 32 - 1 ->
  wrote_ops w (ops ++ ops') (run w ops').
Proof using Type.
  revert w ops. induction ops' as [|o ops' IH]; intros w ops Hw HP Hl; [rewrite app_nil_r; by split|]. cbn [run].
  replace (ops ++ o :: ops') with ((ops ++ [o]) ++ ops') in * by (by rewrite <-app_assoc). assert (heaps_of ((ops ++ [o]) ++ ops') = heaps_of (ops ++ [o]) ++ heaps_of ops') as Ha by apply omap_app.
  pose proof HP as HP'. rewrite Ha in HP', Hl. apply Forall_app in HP' as [HP1 _]. rewrite zlen_app in Hl. pose proof (zlen_nonneg (heaps_of ops')).
  pose proof (apply_op_spec w ops o Hw HP1 ltac:(lia)) as Ho. destruct (apply_op w o) as [w1|e].
  - destruct Ho as [Hw1 Hc]. pose proof (IH w1 (ops ++ [o]) Hw1 HP) as Hr. rewrite Ha, zlen_app in Hr. specialize (Hr Hl).
    destruct (run w1 ops') as [w2|e]; cbn [wrote_ops] in *; rewrite Hc in Hr; done.
  - destruct Ho as (n & -> & Hn). exists n. split; [done|]. rewrite Ha. pose proof (file_size_app (heaps_of (ops ++ [o])) (heaps_of ops')). lia.
Qed.

End Memory.

(** ** The sealed plan *)
Definition seal_body (n : Z) : list Z := [TAG_SEAL] ++ push_u64 n.

Definition plan_of (ops : list PlanOp) (s : SealedPlan) : Prop :=
  s_heap_count s = zlen (heaps_of ops) /\ s_controls s = controls_of 0 ops /\ s_truncate_rows s = truncs_of ops /\ s_row_batches s = rows_of ops /\
  (store s = SMem (heaps_of ops) \/
   exists bodies, store s = SFile (header ++ frames bodies ++ frame (seal_body (s_heap_count s))) /\
     Forall2 (resolves (s_descriptors s) (s_routes s)) (heaps_of ops) bodies /\ size_bytes s = 4 + zlen (frames bodies ++ frame (seal_body (s_heap_count s)))).

Lemma zlen_frames ds rs hs bodies : Forall2 (resolves ds rs) hs bodies -> 4 + zlen (frames bodies) = file_size hs.
Proof using Type.
  unfold file_size, frames. induction 1 as [|p b hs bodies Hp HF IH]; [done|]. cbn [map concat zsum fold_right]. fold (zsum (map (fun p => 8 + body_size p) hs)).
  rewrite zlen_app, zlen_frame. destruct Hp as (i & j & _ & _ & -> & _). rewrite zlen_heap_body. lia.
Qed.

Lemma seal_spec at_desc at_route w ops lsn ts : writes at_desc at_route ops w ->
  exists s, seal w lsn ts = Ok s /\ plan_of ops s /\ s_commit_lsn s = lsn /\ s_commit_ts s = ts.
Proof using Type.
  intros (Hn & Hc & Ht & Hr & Hs). unfold seal. destruct Hs as [(Hs & _)|(_ & Hb & bodies & Hs & HF)]; rewrite Hs.
  - eexists. split; [done|]. split; [|done]. unfold plan_of. cbn. split_and!; try done. by left.
  - unfold write_frame. cbn [negb andb]. rewrite Hs. cbv beta iota. rewrite Hs. cbn [set_sink sink].
    eexists. split; [done|]. split; [|done]. unfold plan_of. cbn [snd fst set_sink s_heap_count s_controls s_truncate_rows s_row_batches store s_descriptors s_routes size_bytes
      heap_count controls truncate_rows row_batches descriptors routes wbytes sink].
    split_and!; try done. right. exists bodies. split; [by rewrite <-app_assoc|]. split; [done|].
    rewrite Hb, <-(zlen_frames _ _ _ _ HF), (zlen_app (frames bodies)), zlen_frame. unfold seal_body. lia.
Qed.

(** ** Frames *)
Lemma heap_frame_spec (s : SealedPlan) p body off : resolves (s_descriptors s) (s_routes s) p body -> planned_ok p -> heap_frame s off body = Ok (routed p).
Proof using Type.
  intros (i & j & Hi & Hj & -> & Hd & Hr) [Hh _]. unfold heap_frame, heap_body. change (zdrop 1 ([TAG_HEAP] ++ push_u32 i ++ push_u32 j ++ Spill.encode_heap (decoded (p_heap p)))) with (push_u32 i ++ push_u32 j ++ Spill.encode_heap (decoded (p_heap p))).
  set (e := Spill.encode_heap (decoded (p_heap p))).
  pose proof (reads_u32 i Hi [] (push_u32 j ++ e)) as E. cbn [app] in E. change (zlen []) with 0 in E. rewrite E. cbn [wire fst snd].
  pose proof (reads_u32 j Hj (push_u32 i) e) as E2. change (zlen (push_u32 i)) with 4 in *. rewrite Z.add_0_l, E2. cbn [wire fst snd].
  pose proof (SpillFile.reads_heap _ Hh (push_u32 i ++ push_u32 j) []) as E3. rewrite app_nil_r, <-app_assoc in E3. fold e in E3.
  rewrite zlen_app in E3. change (zlen (push_u32 i)) with 4 in *. change (zlen (push_u32 j)) with 4 in *. rewrite E3. cbn [wire fst snd cbuf cpos].
  assert (zlen (push_u32 i ++ push_u32 j ++ e) = 4 + 4 + zlen e) as -> by (unfold push_u32; zlen). rewrite Z.sub_diag, Hd. cbn [Z.eqb negb].
  unfold routed. destruct (p_heap p) as [d desc vf] eqn:Ep, (p_route p) as [[a r]|]; cbn [decoded descriptor descriptor_valid_from fmap option_fmap option_map snd] in *.
  - destruct Hr as [Hne Hr]. apply Z.eqb_neq in Hne as ->. by rewrite Hr.
  - subst j. by rewrite Z.eqb_refl.
Qed.

Lemma frame_split body more : fits 32 (zlen body) -> 
  ztake 8 (frame body ++ more) = push_u32 (zlen body) ++ push_u32 (crc32c body) /\ zdrop 8 (frame body ++ more) = body ++ more /\
  le_dec (ztake 4 (push_u32 (zlen body) ++ push_u32 (crc32c body))) = zlen body /\ le_dec (zdrop 4 (push_u32 (zlen body) ++ push_u32 (crc32c body))) = crc32c body.
Proof using Type.
  intros Hl. unfold frame. assert ((push_u32 (zlen body) ++ push_u32 (crc32c body) ++ body) ++ more = (push_u32 (zlen body) ++ push_u32 (crc32c body)) ++ body ++ more) as ->
    by (by rewrite !app_assoc). rewrite ztake_app_exact, zdrop_app_exact by done. do 2 (split; [done|]). rewrite ztake_app_exact, zdrop_app_exact by done.
  pose proof (crc32c_u32 body). unfold push_u32, fits in *. rewrite !le_dec_enc_small; [done|..]; change (256 ^ Z.of_nat 4) with (2 ^ 32); lia.
Qed.

Definition advance (r : PlanReader) (rest : list Z) (n : Z) : PlanReader :=
  MkPlanReader (IFile rest) (offset r + n) (next_heap r) (next_control r) (next_truncate r) (done r).

(** A whole frame that fits in what the plan says is left. *)
Lemma next_frame_whole (s : SealedPlan) r body more : fits 32 (zlen body) -> offset r + 8 + zlen body <= size_bytes s ->
  next_frame s r (frame body ++ more) =
    match body with
    | [] => Err (Format EmptyFrame)
    | tag :: _ =>
        if tag =? TAG_HEAP then let? h := heap_frame s (offset r) body in Ok (Some h, advance r more (8 + zlen body))
        else if tag =? TAG_SEAL then let? _ := seal_frame s (advance r more (8 + zlen body)) body more in Ok (None, advance r more (8 + zlen body))
        else Err (Format (UnknownTag tag))
    end.
Proof using Type.
  intros Hl Ho. destruct (frame_split body more Hl) as (E1 & E2 & E3 & E4). unfold next_frame, read_or_unsealed. pose proof (zlen_nonneg more). unfold fits in Hl.
  assert (zlen (frame body ++ more) <? 8 = false) as -> by (rewrite zlen_app, zlen_frame; lia). cbn [fst snd]. rewrite E1, E2. cbn [fst snd]. rewrite E3, E4.
  destruct (Z.ltb_spec (Z.max 0 (size_bytes s - (offset r + 8))) (zlen body)); [lia|].
  assert (zlen (body ++ more) <? zlen body = false) as -> by (rewrite zlen_app; lia). cbn [fst snd]. rewrite ztake_app_exact, zdrop_app_exact by done.
  rewrite Z.eqb_refl. cbn [negb]. done.
Qed.

(** A frame cut short. *)
Lemma next_frame_cut (s : SealedPlan) r body more rest k : fits 32 (zlen body) -> offset r + 8 + zlen body <= size_bytes s -> rest ++ k = frame body ++ more ->
  zlen rest < zlen (frame body) -> next_frame s r rest = Err Unsealed.
Proof using Type.
  intros Hl Ho Hk Hc. destruct (frame_split body more Hl) as (E1 & E2 & E3 & E4). unfold next_frame, read_or_unsealed. rewrite zlen_frame in Hc.
  destruct (Z.ltb_spec (zlen rest) 8); [done|]. cbn [fst snd]. rewrite <-Hk, ztake_app_le in E1 by lia. rewrite E1. cbn [fst snd]. rewrite E3. cbn [fst snd].
  destruct (Z.ltb_spec (Z.max 0 (size_bytes s - (offset r + 8))) (zlen body)); [lia|]. rewrite zlen_zdrop.
  destruct (Z.ltb_spec (Z.max 0 (zlen rest - Z.max 0 8)) (zlen body)); [done|lia].
Qed.

(** ** The reader *)

(** What is left to read holds the heaps [hs] and then stops as [stop] says: at the
    seal, in the middle, or at bytes after the seal. *)
Definition feed (s : SealedPlan) (i : PlanInput) (off : Z) (hs : list Planned) (stop : option PlanSpoolError) : Prop :=
  match i with
  | IMem l => l = map routed hs /\ stop = None
  | IFile rest => exists bodies, Forall2 (resolves (s_descriptors s) (s_routes s)) hs bodies /\
      let full := frames bodies ++ frame (seal_body (s_heap_count s)) in
      off + zlen full = size_bytes s /\
      match stop with
      | None => rest = full
      | Some Unsealed => exists k, k <> [] /\ rest ++ k = full
      | Some (Format TrailingAfterSeal) => exists k, k <> [] /\ rest = full ++ k
      | _ => False
      end
  end.

Definition weight (i : PlanInput) : nat := match i with IMem l => length l | IFile rest => length rest end.

Definition at_input (r : PlanReader) (i : PlanInput) (off : Z) : PlanReader := MkPlanReader i off (next_heap r) (next_control r) (next_truncate r) (done r).

Lemma cut_or_whole {A} (a b rest k : list A) : k <> [] -> rest ++ k = a ++ b -> zlen rest < zlen a \/ exists rest', rest = a ++ rest' /\ rest' ++ k = b.
Proof using Type.
  intros Hk E. destruct (Z.lt_ge_cases (zlen rest) (zlen a)) as [|Hge]; [by left|right]. unfold zlen in Hge.
  exists (drop (length a) rest). assert (take (length a) rest = a) as Ht.
  { pose proof (f_equal (take (length a)) E) as Et. rewrite take_app_le, take_app_length in Et by lia. done. }
  split; [by rewrite <-Ht at 1; rewrite take_drop|]. pose proof (f_equal (drop (length a)) E) as Ed. by rewrite drop_app_le, drop_app_length in Ed by lia.
Qed.

Lemma feed_cons (s : SealedPlan) r p hs stop : feed s (input r) (offset r) (p :: hs) stop -> planned_ok p ->
  (exists i off, next_input s r = Ok (Some (routed p), at_input r i off) /\ feed s i off hs stop /\ (weight i < weight (input r))%nat) \/
  stop = Some Unsealed /\ next_input s r = Err Unsealed.
Proof using Type.
  intros Hf Hp. unfold next_input. destruct (input r) as [l|rest]; cbn [feed weight] in *.
  - destruct Hf as [-> ->]. left. exists (IMem (map routed hs)), (offset r). split; [done|]. split; [done|]. apply Nat.lt_succ_diag_r.
  - destruct Hf as (bodies & HF & Hsz & Hst). apply Forall2_cons_inv_l in HF as (b & bodies' & Hb & HF & ->). cbn [frames map concat] in *. fold (frames bodies') in *.
    rewrite <-app_assoc in Hsz, Hst. set (more := frames bodies' ++ _) in *. rewrite zlen_app, zlen_frame in Hsz. pose proof (zlen_nonneg more).
    assert (zlen b = body_size p) as Hlb by (destruct Hb as (i & j & _ & _ & -> & _); apply zlen_heap_body). pose proof (body_size_pos p). destruct Hp as [Hh Hfit].
    assert (fits 32 (zlen b)) as Hb32 by (unfold fits; lia).
    assert (forall rest', next_frame s r (frame b ++ rest') = Ok (Some (routed p), at_input r (IFile rest') (offset r + (8 + zlen b)))) as Hnext.
    { intros rest'. rewrite next_frame_whole by (done || lia). rewrite (heap_frame_spec s p b _ Hb (conj Hh Hfit)). by destruct Hb as (i & j & _ & _ & -> & _). }
    assert (forall rest', (length rest' < length (frame b ++ rest'))%nat) as Hw by (intros; rewrite length_app; pose proof (zlen_frame b); unfold zlen in *; lia).
    assert (forall rest', rest = frame b ++ rest' -> feed s (IFile rest') (offset r + (8 + zlen b)) hs stop ->
      exists i off, next_frame s r rest = Ok (Some (routed p), at_input r i off) /\ feed s i off hs stop /\ (weight i < length rest)%nat) as Hgo.
    { intros rest' -> Hf. eexists _, _. split; [apply Hnext|]. split; [exact Hf|]. apply Hw. }
    destruct stop as [[[]| | | |]|]; try done.
    + left. destruct Hst as (k & Hk & ->). apply (Hgo (more ++ k)); [by rewrite app_assoc|]. exists bodies'. split; [done|]. split; [fold more; lia|]. by exists k.
    + destruct Hst as (k & Hk & E). destruct (cut_or_whole _ _ _ _ Hk E) as [Hc|(rest' & -> & E')].
      * right. split; [done|]. apply (next_frame_cut s r b more rest k); (done || lia).
      * left. apply (Hgo rest'); [done|]. exists bodies'. split; [done|]. split; [fold more; lia|]. by exists k.
    + left. apply (Hgo more); [done|]. exists bodies'. split; [done|]. split; [fold more; lia|done].
Qed.

Lemma feed_nil (s : SealedPlan) r stop : feed s (input r) (offset r) [] stop -> next_heap r = s_heap_count s -> Z.of_nat (next_truncate r) = zlen (s_truncate_rows s) ->
  fits 64 (s_heap_count s) -> match stop with None => exists i off, next_input s r = Ok (None, at_input r i off) | Some e => next_input s r = Err e end.
Proof using Type.
  intros Hf Hn Ht H64. unfold next_input. destruct (input r) as [l|rest] eqn:Ei; cbn [feed] in *.
  - destruct Hf as [-> ->]. exists (IMem []), (offset r). cbn. by destruct r; cbn in *; subst.
  - destruct Hf as (bodies & HF & Hsz & Hst). apply Forall2_nil_inv_l in HF as ->. cbn [frames map concat app] in *. set (b := seal_body _) in *.
    assert (zlen b = 9) as Hb by done. rewrite zlen_frame in Hsz. assert (fits 32 (zlen b)) as Hb32 by (rewrite Hb; done).
    assert (forall k, next_frame s r (frame b ++ k) = match k with [] => Ok (None, at_input r (IFile []) (offset r + (8 + zlen b))) | _ => Err (Format TrailingAfterSeal) end) as Hs.
    { intros k. rewrite next_frame_whole by (done || lia). assert (le_dec (sub b 1 9) = s_heap_count s) as Hd.
      { change (sub b 1 9) with (push_u64 (s_heap_count s)). unfold push_u64. apply le_dec_enc_small. unfold fits in H64. change (256 ^ Z.of_nat 8) with (2 ^ 64). lia. }
      assert (seal_frame s (advance r k (8 + zlen b)) b k = match k with [] => Ok tt | _ => Err (Format TrailingAfterSeal) end) as E.
      { unfold seal_frame. rewrite Hb, Hd. cbn [Z.ltb Z.compare Pos.compare Pos.compare_cont advance next_heap next_truncate]. by rewrite Hn, !Z.eqb_refl, Ht, Z.eqb_refl. }
      change (match b with [] => Err (Format EmptyFrame) | tag :: _ => if tag =? TAG_HEAP then let? h := heap_frame s (offset r) b in Ok (Some h, advance r k (8 + zlen b))
        else if tag =? TAG_SEAL then let? _ := seal_frame s (advance r k (8 + zlen b)) b k in Ok (None, advance r k (8 + zlen b)) else Err (Format (UnknownTag tag)) end)
        with (let? _ := seal_frame s (advance r k (8 + zlen b)) b k in Ok (@None RoutedHeap, advance r k (8 + zlen b))).
      rewrite E. by destruct k. }
    destruct stop as [[[]| | | |]|]; try done.
    + destruct Hst as (k & Hk & ->). rewrite Hs. by destruct k.
    + destruct Hst as (k & Hk & E). apply (next_frame_cut s r b [] rest k); [done|lia|by rewrite app_nil_r|]. rewrite <-E, zlen_app. destruct k; [done|]. rewrite zlen_cons. pose proof (zlen_nonneg k). lia.
    + subst rest. rewrite <-(app_nil_r (frame b)), Hs. by eexists _, _.
Qed.

Lemma controls_from n ops c : c ∈ controls_of n ops -> n <= XactDrain.heap_idx c.
Proof using Type.
  revert n. induction ops as [|o ops IH]; intros n; [by intros ?%not_elem_of_nil|].
  destruct o as [p|p u|ev i|rows]; cbn [controls_of heap_of]; try (intros Hc%IH; lia). intros [->|Hc%IH]%elem_of_cons; cbn; lia.
Qed.

(** The reader has handed out [pre] and [post] is to come. *)
Definition read_upto (s : SealedPlan) (r : PlanReader) (pre post : list PlanOp) (stop : option PlanSpoolError) : Prop :=
  s_controls s = controls_of 0 (pre ++ post) /\ s_truncate_rows s = truncs_of (pre ++ post) /\ s_heap_count s = zlen (heaps_of (pre ++ post)) /\
  next_heap r = zlen (heaps_of pre) /\ next_control r = length (controls_of 0 pre) /\ next_truncate r = length (truncs_of pre) /\ done r = false /\
  feed s (input r) (offset r) (heaps_of post) stop.

Lemma due_spec s r pre post stop : read_upto s r pre post stop ->
  s_controls s !! next_control r = head (controls_of (zlen (heaps_of pre)) post).
Proof using Type.
  intros (Hc & _ & _ & _ & Hn & _). rewrite Hc, controls_app, Hn, lookup_app_r, Nat.sub_diag, Z.add_0_l by lia. by destruct (controls_of _ post).
Qed.

Lemma due_none s r pre o post stop p : read_upto s r pre (o :: post) stop -> heap_of o = Some p -> due s r = None.
Proof using Type.
  intros Hr Ho. unfold due. rewrite (due_spec _ _ _ _ _ Hr). destruct Hr as (_ & _ & _ & Hn & _). rewrite Hn.
  assert (controls_of (zlen (heaps_of pre)) (o :: post) = controls_of (zlen (heaps_of pre) + 1) post) as -> by (by destruct o).
  destruct (controls_of _ post) as [|c cs] eqn:E; [done|]. pose proof (controls_from (zlen (heaps_of pre) + 1) post c ltac:(rewrite E; set_solver)). cbn [head].
  destruct (Z.leb_spec (XactDrain.heap_idx c) (zlen (heaps_of pre))); [lia|done].
Qed.

Lemma due_end s r pre stop : read_upto s r pre [] stop -> forall b, due s (MkPlanReader (input r) (offset r) (next_heap r) (next_control r) (next_truncate r) b) = None.
Proof using Type. intros Hr b. unfold due. cbn [next_control]. by rewrite (due_spec _ _ _ _ _ Hr). Qed.

Lemma truncs_at s r pre p u post stop : read_upto s r pre (OTruncate p u :: post) stop -> s_truncate_rows s !! next_truncate r = Some u.
Proof using Type.
  intros (_ & Ht & _ & _ & _ & Hn & _). rewrite Ht, Hn. unfold truncs_of. rewrite omap_app, lookup_app_r, Nat.sub_diag by done. done.
Qed.

(** One call of [next_item]. *)
Lemma next_item_spec s r pre o post stop : read_upto s r pre (o :: post) stop -> op_ok o ->
  match expect (zlen (heaps_of pre)) [o] with
  | i :: _ => (exists r', next_item s r = Ok (Some i, r') /\ read_upto s r' (pre ++ [o]) post stop /\
                (length (controls_of (zlen (heaps_of (pre ++ [o]))) post) + weight (input r') < length (controls_of (zlen (heaps_of pre)) (o :: post)) + weight (input r))%nat) \/
              stop = Some Unsealed /\ next_item s r = Err Unsealed
  | [] => read_upto s r (pre ++ [o]) post stop /\ controls_of (zlen (heaps_of (pre ++ [o]))) post = controls_of (zlen (heaps_of pre)) (o :: post)
  end.
Proof using Type.
  intros Hr Ho. assert (Hsn : forall p, heap_of o = Some p -> heaps_of (pre ++ [o]) = heaps_of pre ++ [p]).
  { intros p E. unfold heaps_of. rewrite omap_app. cbn [omap list_omap]. by rewrite E. }
  assert (Hnn : heap_of o = None -> heaps_of (pre ++ [o]) = heaps_of pre).
  { intros E. unfold heaps_of. rewrite omap_app. cbn [omap list_omap]. by rewrite E, app_nil_r. }
  pose proof (fun p => due_none s r pre o post stop p Hr) as Hdn. pose proof (due_spec _ _ _ _ _ Hr) as Hdue. pose proof (fun p u (E : o = OTruncate p u) => truncs_at s r pre p u post stop ltac:(by rewrite <-E)) as Htr.
  destruct Hr as (Hc & Ht & Hh & H1 & H2 & H3 & H4 & Hf). unfold read_upto. replace (pre ++ o :: post) with ((pre ++ [o]) ++ post) in * by (by rewrite <-app_assoc).
  rewrite (controls_app 0 pre [o]), Z.add_0_l. unfold truncs_of in *. rewrite !(omap_app _ pre [o]). fold (truncs_of pre) in *.
  assert (Hheap : forall p, heap_of o = Some p -> planned_ok p -> expect (zlen (heaps_of pre)) [o] <> [] ->
    (exists i off, next_input s r = Ok (Some (routed p), at_input r i off) /\ feed s i off (heaps_of post) stop /\ (weight i < weight (input r))%nat) \/
    stop = Some Unsealed /\ next_input s r = Err Unsealed).
  { intros p E Hp _. apply (feed_cons s r p (heaps_of post) stop); [|done]. unfold heaps_of in Hf |- *. cbn [omap list_omap] in Hf. by rewrite E in Hf. }
  destruct o as [p|p u|ev i|rows]; cbn [expect op_ok controls_of heap_of omap list_omap] in *.
  - rewrite (Hsn p eq_refl), zlen_app, app_nil_r. change (zlen [p]) with 1. destruct Ho as [Hp Htc]. unfold next_item. rewrite (Hdn p eq_refl), H4.
    destruct (Hheap p eq_refl Hp ltac:(done)) as [(i & off & -> & Hfd & Hw)|[-> ->]]; [|by right]. left. cbn [fst snd at_input described routed]. rewrite Htc. cbn [negb].
    eexists. split; [done|]. cbn [at_input input offset next_heap next_control next_truncate done]. split; [|lia]. rewrite !app_nil_r. split_and!; (done || lia).
  - rewrite (Hsn p eq_refl), zlen_app, app_nil_r. change (zlen [p]) with 1. destruct Ho as [Hp Htc]. unfold next_item. rewrite (Hdn p eq_refl), H4.
    destruct (Hheap p eq_refl Hp ltac:(done)) as [(i & off & -> & Hfd & Hw)|[-> ->]]; [|by right]. left. cbn [fst snd at_input described routed]. rewrite Htc. cbn [negb at_input next_truncate].
    rewrite (Htr p u eq_refl). eexists. split; [done|]. cbn [at_input input offset next_heap next_control next_truncate done]. split; [|lia]. rewrite length_app. cbn [length]. split_and!; (done || lia).
  - left. rewrite (Hnn eq_refl). unfold next_item, due. rewrite Hdue. cbn [head XactDrain.heap_idx]. rewrite H1. destruct (Z.leb_spec (zlen (heaps_of pre)) (zlen (heaps_of pre))); [|lia].
    eexists. split; [done|]. cbn [at_input input offset next_heap next_control next_truncate done]. rewrite app_nil_r, length_app. cbn [length]. split; [|lia]. split_and!; (done || lia).
  - rewrite (Hnn eq_refl), !app_nil_r, Z.add_0_r. by split_and!.
Qed.

Lemma expect_cons n o post : expect n (o :: post) = expect n [o] ++ expect (n + match heap_of o with Some _ => 1 | None => 0 end) post.
Proof using Type. destruct o; cbn [expect heap_of app]; rewrite ?Z.add_0_r; done. Qed.

Lemma plan_read_spec s pre post r stop fuel : read_upto s r pre post stop -> Forall op_ok post -> fits 64 (s_heap_count s) ->
  (length (controls_of (zlen (heaps_of pre)) post) + weight (input r) < fuel)%nat ->
  exists l, read_items fuel s r = (l, stop) /\ l `prefix_of` expect (zlen (heaps_of pre)) post /\ (stop <> Some Unsealed -> l = expect (zlen (heaps_of pre)) post).
Proof using Type.
  revert pre r fuel. induction post as [|o post IH]; intros pre r fuel Hr HF H64 Hfuel.
  - destruct fuel as [|fuel]; [lia|]. exists []. split; [|by split]. cbn [read_items]. unfold next_item. pose proof (due_end _ _ _ _ Hr) as Hd.
    pose proof (Hd (done r)) as Hd0. destruct r as [i off nh nc nt dn]. cbn [input offset next_heap next_control next_truncate done] in *. rewrite Hd0.
    destruct Hr as (_ & Ht & Hh & H1 & H2 & H3 & H4 & Hf). cbn [input offset next_heap next_control next_truncate done] in *. rewrite app_nil_r in *. rewrite H4.
    pose proof (feed_nil s (MkPlanReader i off nh nc nt dn) stop Hf ltac:(cbn; lia) ltac:(cbn [next_truncate]; rewrite Ht, H3; done) H64) as Hn.
    subst dn. destruct stop as [e|]; [by rewrite Hn|]. destruct Hn as (i' & off' & ->). cbn [fst snd at_input input offset next_heap next_control next_truncate done].
    assert (forall i2 off2, due s (MkPlanReader i2 off2 nh nc nt true) = None) as ->; [|done].
    intros i2 off2. specialize (Hd true). unfold due in *. cbn [next_control next_heap] in *. destruct (s_controls s !! nc); [|done]. by destruct (XactDrain.heap_idx _ <=? nh).
  - apply Forall_cons_1 in HF as [Ho HF]. pose proof (next_item_spec s r pre o post stop Hr Ho) as Hn.
    assert (zlen (heaps_of (pre ++ [o])) = zlen (heaps_of pre) + match heap_of o with Some _ => 1 | None => 0 end) as Hz.
    { unfold heaps_of. rewrite omap_app, zlen_app. cbn [omap list_omap]. by destruct (heap_of o). }
    rewrite (expect_cons _ o post). rewrite <-Hz. destruct (expect (zlen (heaps_of pre)) [o]) as [|it its] eqn:Ee.
    + destruct Hn as [Hr' Hc]. cbn [app]. apply IH; try done. by rewrite Hc.
    + assert (its = []) as -> by (destruct o; cbn [expect] in Ee; by simplify_eq). destruct fuel as [|fuel]; [lia|]. cbn [read_items]. destruct Hn as [(r' & -> & Hr' & Hlt)|[-> ->]].
      * destruct (IH (pre ++ [o]) r' fuel Hr' HF H64 ltac:(lia)) as (l & -> & Hp & Hs). exists (it :: l). split; [done|]. cbn [app].
        split; [by apply prefix_cons|]. intros Hne. by rewrite (Hs Hne).
      * exists []. split; [done|]. split; [apply prefix_nil|done].
Qed.

(** ** Replay of a plan *)
Definition planned (at_desc : Z -> RelDescriptor) (at_route : Z -> RouteSnapshot) (ops : list PlanOp) : Prop :=
  Forall op_ok ops /\ Forall (placed at_desc at_route) (heaps_of ops) /\ zlen (heaps_of ops) < 2 ^ 32 - 1.

Definition with_file (s : SealedPlan) (c : list Z) : SealedPlan :=
  MkSealed (SFile c) (s_descriptors s) (s_routes s) (s_controls s) (s_row_batches s) (s_truncate_rows s) (s_heap_count s) (s_routed_count s)
    (size_bytes s) (s_commit_lsn s) (s_commit_ts s).

Lemma writes_create at_desc at_route cap mem_max : writes at_desc at_route [] (create cap mem_max).
Proof using Type. unfold writes, create, mem_size. cbn. split_and!; try done. left. by split_and!. Qed.

Lemma open_header rest : open_file (header ++ rest) = Ok rest.
Proof using Type.
  unfold open_file, read_or_unsealed. pose proof (zlen_nonneg rest). rewrite zlen_app. change (zlen header) with 4. destruct (Z.ltb_spec (4 + zlen rest) 4); [lia|].
  cbn [fst snd]. rewrite ztake_app_exact, zdrop_app_exact by done. done.
Qed.

Lemma start_upto s ops i stop : plan_of ops s -> feed s i 4 (heaps_of ops) stop -> read_upto s (MkPlanReader i 4 0 0 0 false) [] ops stop.
Proof using Type. intros (H1 & H2 & H3 & _) Hf. by split_and!. Qed.

Lemma replay_spec s ops stop i : plan_of ops s -> Forall op_ok ops -> fits 64 (s_heap_count s) -> feed s i 4 (heaps_of ops) stop ->
  (weight i <= match store s with SMem hs => length hs | SFile c => length c end)%nat ->
  exists l, read_items (items_fuel s) s (MkPlanReader i 4 0 0 0 false) = (l, stop) /\ l `prefix_of` expect 0 ops /\ (stop <> Some Unsealed -> l = expect 0 ops).
Proof using Type.
  intros Hp HF H64 Hf Hw. apply (plan_read_spec s [] ops); [by apply start_upto|done|done|]. change (zlen (heaps_of [])) with 0. cbn [input]. unfold items_fuel.
  destruct Hp as (_ & Hc & _). rewrite Hc. lia.
Qed.

(** The replay of the sealed plan, and of a file that is not the one sealed. *)
Lemma sealed_replays s ops : plan_of ops s -> Forall op_ok ops -> fits 64 (s_heap_count s) -> replay_items s = (expect 0 ops, None).
Proof using Type.
  intros Hp HF H64. pose proof Hp as (Hn & _ & _ & _ & [Hs|(bodies & Hs & HB & Hz)]); unfold replay_items, replay; rewrite Hs.
  - rewrite Hn, Z.eqb_refl. cbn [negb]. destruct (replay_spec s ops None (IMem (map routed (heaps_of ops))) Hp HF H64) as (l & E & _ & Hl).
    + by split.
    + rewrite Hs. cbn [weight]. by rewrite length_map.
    + unfold items_fuel in *. rewrite Hs in *. cbn [s_controls store] in *. rewrite Hl in E by done. exact E.
  - rewrite open_header. destruct (replay_spec s ops None (IFile (frames bodies ++ frame (seal_body (s_heap_count s)))) Hp HF H64) as (l & E & _ & Hl).
    + exists bodies. split; [done|]. split; [lia|done].
    + rewrite Hs. cbn [weight]. rewrite !length_app. lia.
    + rewrite E. by rewrite Hl.
Qed.

Lemma damaged_replays s ops c rest stop : plan_of ops s -> Forall op_ok ops -> fits 64 (s_heap_count s) -> stop <> None ->
  feed s (IFile rest) 4 (heaps_of ops) stop -> c = header ++ rest ->
  exists l, replay_items (with_file s c) = (l, stop) /\ l `prefix_of` expect 0 ops.
Proof using Type.
  intros Hp HF H64 Hne Hf ->. unfold replay_items, replay. cbn [with_file store]. rewrite open_header.
  destruct (plan_read_spec (with_file s (header ++ rest)) [] ops (MkPlanReader (IFile rest) 4 0 0 0 false) stop (items_fuel (with_file s (header ++ rest)))) as (l & E & Hpre & _).
  - destruct Hp as (H1 & H2 & H3 & _). by split_and!.
  - done.
  - done.
  - destruct Hp as (_ & Hc & _). unfold items_fuel. cbn [with_file s_controls store input weight]. change (zlen (heaps_of [])) with 0. rewrite Hc, length_app. lia.
  - exists l. by split.
Qed.

(** C6: Whatever its memory limit and its file cap, a plan that is sealed replays
    exactly the heaps, truncates and controls that were pushed, in the order they
    were pushed: every heap under the descriptor and route it was pushed with,
    every truncate with its row fence, every control at its position; the check
    before execution passes.  The only refusal is a spool file over its cap, and a
    plan whose file fits is never refused. *)
Theorem plan_replays at_desc at_route ops cap mem_max lsn ts : planned at_desc at_route ops ->
  (file_size (heaps_of ops) <= cap -> is_ok (run (create cap mem_max) ops) = true) /\
  match run (create cap mem_max) ops with
  | Err e => exists n, e = DiskBudget n cap /\ cap < n
  | Ok w => exists s, seal w lsn ts = Ok s /\ verify s = Ok tt /\ replay_items s = (expect 0 ops, None) /\ s_row_batches s = rows_of ops
  end.
Proof using Type.
  intros (HF & HP & Hl). pose proof (run_spec at_desc at_route _ [] ops (writes_create at_desc at_route cap mem_max) HP Hl) as Hr. cbn [app] in Hr.
  destruct (run (create cap mem_max) ops) as [w|e]; cbn [wrote_ops] in Hr.
  - split; [done|]. destruct Hr as [Hw _]. destruct (seal_spec at_desc at_route w ops lsn ts Hw) as (s & Hs & Hp & _). pose proof Hp as (Hn & _ & _ & Hrb & _). exists s. split; [done|].
    pose proof (zlen_nonneg (heaps_of ops)). assert (replay_items s = (expect 0 ops, None)) as E by (apply sealed_replays; [done|done|unfold fits; lia]).
    unfold verify. rewrite E. by destruct (store s).
  - destruct Hr as (n & -> & Hn). cbn [create Plan.cap] in *. split; [lia|]. exists n. by split; [|lia].
Qed.

(** C34: A spool file cut short at any byte, or with anything after its seal, never
    verifies, so nothing of the transaction is executed; a reader that has not
    checked it first is stopped behind a prefix of the plan. *)
Theorem damaged_plan_refused at_desc at_route ops cap mem_max lsn ts w s c c' : planned at_desc at_route ops ->
  run (create cap mem_max) ops = Ok w -> seal w lsn ts = Ok s -> store s = SFile c -> c' `prefix_of` c \/ c `prefix_of` c' -> c' <> c ->
  let why := if zlen c' <? zlen c then Unsealed else Format TrailingAfterSeal in
  verify (with_file s c') = Err why /\ exists l, replay_items (with_file s c') = (l, Some why) /\ l `prefix_of` expect 0 ops.
Proof using Type.
  intros (HF & HP & Hl) Hrun Hseal Hst Hpre Hne why.
  assert (exists l, replay_items (with_file s c') = (l, Some why) /\ l `prefix_of` expect 0 ops) as (l & E & Hl').
  2:{ split; [unfold verify; cbn [with_file store]; by rewrite E|]. by exists l. }
  pose proof (run_spec at_desc at_route _ [] ops (writes_create at_desc at_route cap mem_max) HP Hl) as Hr. cbn [app] in Hr. rewrite Hrun in Hr. destruct Hr as [Hw _].
  destruct (seal_spec at_desc at_route w ops lsn ts Hw) as (s' & Hs' & Hp & _). rewrite Hseal in Hs'. injection Hs' as <-.
  pose proof Hp as (Hn & _ & _ & _ & [Hs|(bodies & Hs & HB & Hz)]); rewrite Hst in Hs; [done|].
  assert (c = header ++ frames bodies ++ frame (seal_body (s_heap_count s))) as -> by congruence. set (full := frames bodies ++ _) in *.
  pose proof (zlen_nonneg (heaps_of ops)). assert (fits 64 (s_heap_count s)) as H64 by (unfold fits; lia).
  destruct Hpre as [[k Hk]|[k Hk]].
  - assert (k <> []) as Hkne by (intros ->; rewrite app_nil_r in Hk; done). assert (zlen c' < zlen (header ++ full)) as Hlt.
    { rewrite Hk, zlen_app. destruct k; [done|]. rewrite zlen_cons. pose proof (zlen_nonneg k). lia. }
    assert (why = Unsealed) as -> by (unfold why; by rewrite (proj2 (Z.ltb_lt _ _) Hlt)).
    destruct (cut_or_whole header full c' k Hkne (eq_sym Hk)) as [Hc|(rest & -> & Hr)].
    + exists []. split; [|apply prefix_nil]. unfold replay_items, replay, open_file, read_or_unsealed. cbn [with_file store]. change (zlen header) with 4 in Hc. by rewrite (proj2 (Z.ltb_lt _ _) Hc).
    + apply (damaged_replays s ops _ rest); [done..| |done]. exists bodies. split; [done|]. split; [fold full; lia|]. by exists k.
  - assert (k <> []) as Hkne by (intros ->; rewrite app_nil_r in Hk; done). assert (zlen c' <? zlen (header ++ full) = false) as Hge.
    { apply Z.ltb_ge. rewrite Hk, (zlen_app _ k). pose proof (zlen_nonneg k). lia. }
    assert (why = Format TrailingAfterSeal) as -> by (unfold why; by rewrite Hge). rewrite <-app_assoc in Hk.
    apply (damaged_replays s ops _ (full ++ k)); [done..| |done]. exists bodies. split; [done|]. split; [fold full; lia|]. by exists k.
Qed.

End Proofs.

(** ** A plan that spills: two rows, an event, a truncate, and a row without a route *)
#[local] Instance plan_layout : Layout.
Proof. refine (MkLayout 100 10 10 10 24 10 10 (fun _ => 0) _ _); [by vm_compute|done]. Defined.

#[local] Instance plan_crc : Crc32c.
Proof. refine (MkCrc (fun b => zlen b mod 2 ^ 32) _). intros b. apply Z.mod_pos_bound. done. Defined.

Definition plan_rel : RelDescriptor := SpillFile.item_rel.
Definition plan_route : RouteSnapshot := Place.MkRoute [116] None.
Definition row_at (l : Z) (o : HeapOp) (rt : option (Z * RouteSnapshot)) : Planned :=
  MkPlanned (MkDescribed (MkHeap (drfn plan_rel) 700 l o (Some (MkTuple [Some (Int4 l)] false)) None) plan_rel 9) 4096 rt.
Definition plan_ops : list (@PlanOp unit unit) :=
  [OHeap (row_at 1 Insert (Some (8192, plan_route))); OControl (XactBuffer.Catalog tt) 0; OHeap (row_at 2 Update (Some (8192, plan_route)));
   ORows [ToastRef.tombstone (MkToastDelete 5 16403 0 1 99)]; OTruncate (row_at 3 Truncate None) 1].

Ltac small := vm_compute; repeat (split || constructor); discriminate.

Lemma row_ok l o rt : (l = 1 \/ l = 2 \/ l = 3) -> planned_ok (row_at l o rt).
Proof. intros [-> |[-> | ->]]; destruct o; (split; [split_and!; [small..| |exact I]|small]); (split; [small|constructor; [small|constructor]]). Qed.

Lemma plan_ops_planned : planned (fun _ => plan_rel) (fun _ => plan_route) plan_ops.
Proof.
  split; [|split; [|small]].
  - constructor; [split; [apply row_ok; auto|done]|]. constructor; [done|]. constructor; [split; [apply row_ok; auto|done]|].
    constructor; [done|]. constructor; [split; [apply row_ok; auto|done]|constructor].
  - repeat (constructor; [done|]). constructor.
Qed.

Definition plan_result (mem_max : Z) : option (@SealedPlan unit unit) :=
  match run (create 4000 mem_max) plan_ops with Ok w => match seal w 77 5 with Ok s => Some s | Err _ => None end | Err _ => None end.

Definition is_file (s : @SealedPlan unit unit) : bool := match store s with SFile _ => true | SMem _ => false end.

Lemma plan_result_inv mem_max b : is_file <$> plan_result mem_max = Some b -> exists w s, run (create 4000 mem_max) plan_ops = Ok w /\ seal w 77 5 = Ok s /\ is_file s = b.
Proof.
  unfold plan_result. destruct (run (create 4000 mem_max) plan_ops) as [w|]; [|done]. destruct (seal w 77 5) as [s|] eqn:E; [|done]. intros [= <-]. by exists w, s.
Qed.

Lemma plan_spilled : exists w s, run (create 4000 200) plan_ops = Ok w /\ seal w 77 5 = Ok s /\ is_file s = true.
Proof. apply plan_result_inv. by vm_compute. Qed.

Lemma plan_in_memory : exists w s, run (create 4000 4000) plan_ops = Ok w /\ seal w 77 5 = Ok s /\ is_file s = false.
Proof. apply plan_result_inv. by vm_compute. Qed.

(** In memory or spilled, the same items. *)
Lemma plan_replays_witness : exists w s w' s', run (create 4000 200) plan_ops = Ok w /\ run (create 4000 4000) plan_ops = Ok w' /\ seal w 77 5 = Ok s /\ seal w' 77 5 = Ok s' /\
  is_file s = true /\ is_file s' = false /\ replay_items s = (expect 0 plan_ops, None) /\ replay_items s' = (expect 0 plan_ops, None).
Proof.
  destruct plan_spilled as (w & s & Hw & Hs & Hf). destruct plan_in_memory as (w' & s' & Hw' & Hs' & Hf'). exists w, s, w', s'.
  pose proof (plan_replays _ _ plan_ops 4000 200 77 5 plan_ops_planned) as [_ Hr]. pose proof (plan_replays _ _ plan_ops 4000 4000 77 5 plan_ops_planned) as [_ Hr'].
  rewrite Hw in Hr. rewrite Hw' in Hr'. destruct Hr as (s1 & E & _ & Hi & _). destruct Hr' as (s2 & E' & _ & Hi' & _). rewrite Hs in E. rewrite Hs' in E'.
  injection E as <-. injection E' as <-. by split_and!.
Defined.

(** A spilled plan's file cut in its last frames. *)
Lemma plan_cut s w : run (create 4000 200) plan_ops = Ok w -> seal w 77 5 = Ok s -> exists c, store s = SFile c /\ 100 < zlen c.
Proof.
  intros Hw Hs. assert (match plan_result 200 with Some s => match store s with SFile c => 100 <? zlen c | SMem _ => false end | None => false end = true) as Hc by by vm_compute.
  unfold plan_result in Hc. rewrite Hw, Hs in Hc. destruct (store s) as [|c]; [done|]. exists c. split; [done|]. by apply Z.ltb_lt.
Qed.

Lemma damaged_plan_refused_witness : exists w s c, run (create 4000 200) plan_ops = Ok w /\ seal w 77 5 = Ok s /\ store s = SFile c /\ verify (with_file s (ztake 100 c)) = Err Unsealed.
Proof.
  destruct plan_spilled as (w & s & Hw & Hs & _). destruct (plan_cut s w Hw Hs) as (c & Hc & Hl). exists w, s, c. do 3 (split; [done|]).
  assert (zlen (ztake 100 c) = 100) as Hz by (rewrite zlen_ztake; lia).
  destruct (damaged_plan_refused _ _ plan_ops 4000 200 77 5 w s c (ztake 100 c) plan_ops_planned Hw Hs Hc) as [Hv _].
  - left. exists (zdrop 100 c). by rewrite ztake_zdrop_id.
  - intros Heq. rewrite Heq in Hz. lia.
  - rewrite Hz, (proj2 (Z.ltb_lt _ _) Hl) in Hv. exact Hv.
Defined.

End PlanProofs.
