(* ===== verification/Planner.v ===== *)
(** * Planning a commit ([src/emit/pipeline/planner.rs])

    The planner walks the slices a commit drains, routes and detoasts their heaps
    and pushes them into a plan.  The route view is the trait the caller
    implements; detoasting is that of [Detoast], the writer that of [Plan].  The
    plan of a commit is then its history, whatever the slices: [commit_plans_history]
    joins the drain, the planner and the spool. *)
From S2P Require Import Prelude Pos WalRecord Fpi AsciiBuf Numeric HeapDecode Wire Spill SpillProofs ToastRef XactBuffer DescLog XactDrain XactMerge XactReplay XactHistory ChunkStore Detoast DetoastProofs Outbox Plan PlanProofs.
Import Schema HeapDecode Spill XactDrain XactReplay Detoast Plan PlanProofs.
Import Place (RouteSnapshot, RoutedHeap, MkRouted, described, route, bytes).

Module Planner.

Section Planner.
Context `{Layout} `{Crc32c} `{Decompress} {SchemaEvent ConfigEvent : Type}.

Notation DrainEntry := (@XactBuffer.DrainEntry SchemaEvent ConfigEvent).
Notation MergeItem := (@XactDrain.MergeItem SchemaEvent ConfigEvent).
Notation DrainedBatch := (@XactDrain.DrainedBatch SchemaEvent ConfigEvent).
Notation WalkStep := (@XactDrain.WalkStep SchemaEvent ConfigEvent).
Notation PlanWriter := (@Plan.PlanWriter SchemaEvent ConfigEvent).
Notation PlanOp := (@PlanProofs.PlanOp SchemaEvent ConfigEvent).
Notation PlanItem := (@Plan.PlanItem SchemaEvent ConfigEvent).

(** [PlanRouteView]: a route and its address, and the fold of a control entry. *)
Context {View ViewError : Type}.
Context (route_for : View -> DescribedHeap -> option (Z * RouteSnapshot) * View) (apply : View -> DrainEntry -> result ViewError View).

(** The resolver, the orders its hash maps are walked in, and the address of a
    heap's descriptor. *)
Context (iter_rels : gmap Z (gmap Z ToastPointer) -> list (Z * gmap Z ToastPointer)) (iter_ptrs : gmap Z ToastPointer -> list (Z * ToastPointer)).
Context (resolver : ToastResolver) (desc_addr : DescribedHeap -> Z).

Inductive PlanError :=
| Spool (e : PlanSpoolError)
| DetoastFailed (e : DetoastError)
| PartialUpdate (lsn : Z)
| ViewFailed (e : ViewError)
(** the panic of a truncate without its row cursor *)
| WalkPanic.

Record Planner := MkPlanner { writer : PlanWriter; view : View; rows_base : Z }.

Definition create (disk_cap : Z) (v : View) : Planner := MkPlanner (Plan.create disk_cap DEFAULT_PLAN_MEM_MAX) v 0.

Definition spool {A} (r : result PlanSpoolError A) : result PlanError A := match r with Ok x => Ok x | Err e => Err (Spool e) end.

(** Validation and detoasting of a routed heap. *)
Definition settle (b : DrainedBatch) (h : DescribedHeap) : result PlanError DescribedHeap :=
  if match new (decoded h) with Some t => partial t | None => false end then Err (PartialUpdate (source_lsn (decoded h)))
  else if heap_reads_toast h then
    match detoast_heap iter_rels iter_ptrs resolver (spool_view b) (generations b) h with
    | Ok (h', _, _) => Ok h'
    | Err e => Err (DetoastFailed e)
    end
  else Ok h.

Definition plan_step (b : DrainedBatch) (p : Planner) (cursor : Z) (s : WalkStep) : result PlanError (Planner * Z) :=
  match s with
  | WRows upto => Ok (p, Z.max cursor upto)
  | WEvent e =>
      match apply (view p) e with
      | Err err => Err (ViewFailed err)
      | Ok v => Ok (MkPlanner (push_control (writer p) e (rows_base p + cursor)) v (rows_base p), cursor)
      end
  | WTruncate h upto =>
      let '(rt, v) := route_for (view p) h in
      let? w := spool (push_truncate (writer p) (MkPlanned h (desc_addr h) rt) (rows_base p + upto)) in
      Ok (MkPlanner w v (rows_base p), cursor)
  | WHeap h =>
      let '(rt, v) := route_for (view p) h in
      let? h' := if is_some rt then settle b h else Ok h in
      let? w := spool (push_heap (writer p) (MkPlanned h' (desc_addr h) rt)) in
      Ok (MkPlanner w v (rows_base p), cursor)
  end.

Fixpoint plan_steps (b : DrainedBatch) (p : Planner) (cursor : Z) (steps : list WalkStep) : result PlanError Planner :=
  match steps with
  | [] => Ok p
  | s :: steps => let? pc := plan_step b p cursor s in plan_steps b pc.1 pc.2 steps
  end.

Definition plan_batch (p : Planner) (b : DrainedBatch) : result PlanError Planner :=
  match into_walk b with
  | None => Err WalkPanic
  | Some steps =>
      let? p := plan_steps b p 0 steps in
      Ok (MkPlanner (push_rows (writer p) (new_rows b)) (view p) (rows_base p + zlen (new_rows b)))
  end.

(** The loop of the sink over the slices it pulls. *)
Fixpoint plan_batches (p : Planner) (bs : list DrainedBatch) : result PlanError Planner :=
  match bs with
  | [] => Ok p
  | b :: bs => let? p := plan_batch p b in plan_batches p bs
  end.

Definition seal (p : Planner) (commit_lsn commit_ts : Z) : result PlanError SealedPlan := spool (Plan.seal (writer p) commit_lsn commit_ts).

(** ** What is pushed, item by item of the trace *)
Definition plan_item (b : DrainedBatch) (v : View) (x : MergeItem * option Z) : result PlanError (PlanOp * View) :=
  match x with
  | (MEvent e, n) => match apply v e with Ok v => Ok (OControl e (default 0 n), v) | Err err => Err (ViewFailed err) end
  | (MHeap h, Some n) => let '(rt, v) := route_for v h in Ok (OTruncate (MkPlanned h (desc_addr h) rt) n, v)
  | (MHeap h, None) =>
      let '(rt, v) := route_for v h in
      let? h' := if is_some rt then settle b h else Ok h in
      Ok (OHeap (MkPlanned h' (desc_addr h) rt), v)
  end.

Fixpoint plan_trace (b : DrainedBatch) (v : View) (xs : list (MergeItem * option Z)) : result PlanError (list PlanOp * View) :=
  match xs with
  | [] => Ok ([], v)
  | x :: xs =>
      let? ov := plan_item b v x in
      let? rv := plan_trace b ov.2 xs in
      Ok (ov.1 :: rv.1, rv.2)
  end.

Fixpoint plan_ops (base : Z) (v : View) (bs : list DrainedBatch) : result PlanError (list PlanOp * View) :=
  match bs with
  | [] => Ok ([], v)
  | b :: bs =>
      match into_walk b with
      | None => Err WalkPanic
      | Some w =>
          let? ov := plan_trace b v (walk_trace base 0 w) in
          let? rv := plan_ops (base + zlen (new_rows b)) ov.2 bs in
          Ok (ov.1 ++ ORows (new_rows b) :: rv.1, rv.2)
      end
  end.

(** ** The planner pushes them *)
Definition pushes (p : Planner) (base' : Z) (ops : result PlanError (list PlanOp * View)) (r : result PlanError Planner) : Prop :=
  match ops with
  | Ok (ops, v) => r = match run (writer p) ops with Ok w => Ok (MkPlanner w v base') | Err e => Err (Spool e) end
  | Err e => exists e', r = Err e' /\ (e' = e \/ exists s, e' = Spool s)
  end.

Lemma run_app (w : PlanWriter) a b : run w (a ++ b) = match run w a with Ok w => run w b | Err e => Err e end.
Proof using Type. revert w. induction a as [|o a IH]; intros w; [done|]. cbn [app run]. destruct (apply_op w o); [apply IH|done]. Qed.

Lemma pushes_after p p' base' o ops (r : result PlanError Planner) : run (writer p) o = Ok (writer p') -> pushes p' base' ops r ->
  pushes p base' (match ops with Ok rv => Ok (o ++ rv.1, rv.2) | Err e => Err e end) r.
Proof using Type.
  intros Ho. unfold pushes. destruct ops as [[ops v]|e]; cbn [fst snd]; [|done]. by rewrite run_app, Ho.
Qed.

Lemma plan_steps_pushes b steps p cursor : pushes p (rows_base p) (plan_trace b (view p) (walk_trace (rows_base p) cursor steps)) (plan_steps b p cursor steps).
Proof using Type.
  revert p cursor. induction steps as [|s steps IH]; intros p cursor; [by destruct p|]. destruct s as [upto|e|h upto|h]; cbn [plan_steps plan_step walk_trace plan_trace plan_item fst snd].
  - apply IH.
  - destruct (apply (view p) e) as [v|err]; cbn [fst snd default]; [|by exists (ViewFailed err); split; [|left]].
    set (p' := MkPlanner _ v _). apply (pushes_after p p' _ [OControl e (rows_base p + cursor)] (plan_trace b v (walk_trace (rows_base p) cursor steps))); [done|]. apply (IH p').
  - destruct (route_for (view p) h) as [rt v]. cbn [fst snd]. set (o := OTruncate _ _). destruct (push_truncate (writer p) _ _) as [w|e] eqn:Ew; cbn [spool].
    + set (p' := MkPlanner w v _). apply (pushes_after p p' _ [o] (plan_trace b v (walk_trace (rows_base p) cursor steps))); [cbn [run apply_op o]; by rewrite Ew|]. apply (IH p').
    + unfold pushes. destruct (plan_trace b v _) as [[ops v']|e']; cbn [fst snd]; [cbn [run apply_op o]; by rewrite Ew|]. eexists. split; [done|]. right. by eexists.
  - destruct (route_for (view p) h) as [rt v]. cbn [fst snd]. destruct (if is_some rt then settle b h else Ok h) as [h'|e]; cbn [fst snd]; [|by exists e; split; [|left]].
    set (o := OHeap _). destruct (push_heap (writer p) _) as [w|e] eqn:Ew; cbn [spool].
    + set (p' := MkPlanner w v _). apply (pushes_after p p' _ [o] (plan_trace b v (walk_trace (rows_base p) cursor steps))); [cbn [run apply_op o]; by rewrite Ew|]. apply (IH p').
    + unfold pushes. destruct (plan_trace b v _) as [[ops v']|e']; cbn [fst snd]; [cbn [run apply_op o]; by rewrite Ew|]. eexists. split; [done|]. right. by eexists.
Qed.

Lemma plan_batches_push bs p : exists base, pushes p base (plan_ops (rows_base p) (view p) bs) (plan_batches p bs).
Proof using Type.
  revert p. induction bs as [|b bs IH]; intros p; [exists (rows_base p); by destruct p|]. cbn [plan_ops plan_batches]. unfold plan_batch.
  destruct (into_walk b) as [w|]; [|exists 0, WalkPanic; by split; [|left]]. pose proof (plan_steps_pushes b w p 0) as Hs.
  destruct (plan_trace b (view p) _) as [[ops v]|e]; cbn [pushes fst snd] in *.
  - rewrite Hs. destruct (run (writer p) ops) as [w1|e1] eqn:Er; cbn [writer view rows_base].
    + destruct (IH (MkPlanner (push_rows w1 (new_rows b)) v (rows_base p + zlen (new_rows b)))) as [base Hb]. cbn [rows_base view] in Hb. exists base.
      destruct (plan_ops _ v bs) as [[ops' v']|e]; cbn [pushes fst snd] in *; [|done]. rewrite run_app, Er. exact Hb.
    + exists 0. destruct (plan_ops _ v bs) as [[ops' v']|e]; cbn [pushes fst snd]; [by rewrite run_app, Er|]. eexists. split; [done|]. right. by eexists.
  - destruct Hs as (e' & -> & He). exists 0, e'. done.
Qed.

(** ** The items of the plan follow the trace *)
Definition plans (x : MergeItem * option Z) (i : PlanItem) : Prop :=
  match x, i with
  | (MEvent e, n), PControl c => event c = e /\ n = Some (row_idx c)
  | (MHeap h, n), PTruncate r upto => n = Some upto /\ described r = h
  | (MHeap h, n), PHeap r => n = None /\ descriptor (described r) = descriptor h /\ descriptor_valid_from (described r) = descriptor_valid_from h /\
      rfn (decoded (described r)) = rfn (decoded h) /\ xid (decoded (described r)) = xid (decoded h) /\ source_lsn (decoded (described r)) = source_lsn (decoded h) /\
      op (decoded (described r)) = op (decoded h) /\ (route r = None -> described r = h)
  | _, _ => False
  end.

Lemma settle_keeps b h h' : settle b h = Ok h' -> descriptor h' = descriptor h /\ descriptor_valid_from h' = descriptor_valid_from h /\
  rfn (decoded h') = rfn (decoded h) /\ xid (decoded h') = xid (decoded h) /\ source_lsn (decoded h') = source_lsn (decoded h) /\ op (decoded h') = op (decoded h).
Proof using Type.
  unfold settle. destruct (match new (decoded h) with Some t => partial t | None => false end); [done|]. destruct (heap_reads_toast h); [|by intros [= <-]].
  unfold detoast_heap. destruct (collect_toast_pointers (new (decoded h)) ++ _); [by intros [= <-]|]. destruct (ToastRef.check_value_caps _ _ _); [|done].
  destruct (prefetch_store_values _ _ _ _ _ _ _); [|done]. destruct (resolve_opt _ _ _ _ (new _) _) as [n|]; [|done]. destruct (resolve_opt _ _ _ _ (old _) _) as [o|]; [|done].
  by intros [= <-].
Qed.

(** A trace as the walk gives it: pins on events and truncates only. *)
Definition pinned (x : MergeItem * option Z) : Prop :=
  match x with
  | (MEvent _, n) => is_some n = true
  | (MHeap h, n) => is_some n = is_truncate h
  end.

Lemma plan_item_plans b v x n o v' : pinned x -> plan_item b v x = Ok (o, v') ->
  exists i, expect n [o] = [i] /\ plans x i /\ match o with OHeap p => is_truncate (p_heap p) = false | OTruncate p _ => is_truncate (p_heap p) = true | _ => True end.
Proof using Type.
  destruct x as [[h|e] m]; cbn [pinned plan_item]; intros Hp.
  - destruct m as [m|]; cbn [is_some] in Hp.
    + destruct (route_for v h) as [rt v1]. intros [= <- <-]. eexists. split; [done|]. by split.
    + destruct (route_for v h) as [rt v1]. destruct (if is_some rt then settle b h else Ok h) as [h'|] eqn:Es; [|done]. intros [= <- <-]. eexists. split; [done|].
      assert (is_truncate h' = is_truncate h /\ plans (MHeap h, None) (PHeap (routed (MkPlanned h' (desc_addr h) rt)))) as [Ht Hpl].
      { unfold is_truncate. destruct rt as [[a r]|]; cbn [is_some] in Es; [|injection Es as <-; cbn; by split_and!]. destruct (settle_keeps b h h' Es) as (?&?&?&?&?&E). rewrite E. split; [done|]. cbn. by split_and!. }
      split; [exact Hpl|]. cbn [p_heap]. by rewrite Ht.
  - destruct (apply v e) as [v1|]; [|done]. intros [= <- <-]. destruct m as [m|]; [|done]. eexists. split; [done|]. by split.
Qed.

Lemma expect_app n (a b : list PlanOp) : expect n (a ++ b) = expect n a ++ expect (n + zlen (heaps_of a)) b.
Proof using Type.
  revert n. induction a as [|o a IH]; intros n; [change (zlen (heaps_of [])) with 0; by rewrite Z.add_0_r|].
  cbn [app]. rewrite (expect_cons n o (a ++ b)), (expect_cons n o a), IH, <-app_assoc. do 3 f_equal. unfold heaps_of at 2. cbn [omap list_omap]. fold (heaps_of a).
  destruct (heap_of o); rewrite ?zlen_cons; lia.
Qed.

Lemma plan_trace_plans b xs v n ops v' : Forall pinned xs -> plan_trace b v xs = Ok (ops, v') -> Forall2 plans xs (expect n ops) /\
  Forall (fun o => match o with OHeap p => is_truncate (p_heap p) = false | OTruncate p _ => is_truncate (p_heap p) = true | _ => True end) ops.
Proof using Type.
  revert v n ops. induction xs as [|x xs IH]; intros v n ops HF; cbn [plan_trace]; [by intros [= <- <-]|]. apply Forall_cons_1 in HF as [Hx HF].
  destruct (plan_item b v x) as [[o v1]|] eqn:Ei; [|done]. cbn [fst snd]. destruct (plan_trace b v1 xs) as [[os v2]|] eqn:Et; [|done]. cbn [fst snd]. intros [= <- <-].
  destruct (plan_item_plans b v x n o v1 Hx Ei) as (i & Hi & Hp & Ht). rewrite expect_cons, Hi. destruct (IH v1 (n + match heap_of o with Some _ => 1 | None => 0 end) os HF Et) as [HA HB].
  split; [by constructor|by constructor].
Qed.

Lemma walk_pinned base steps i hs es ts cursor : walk_heaps i hs es ts = Some steps -> Forall pinned (walk_trace base cursor steps).
Proof using Type.
  revert i es ts steps cursor. assert (forall (es : list OrderedEvent) w c, (forall c, Forall pinned (walk_trace base c w)) -> Forall pinned (walk_trace base c (concat (map (fun e => [WRows (row_idx e); WEvent (event e)]) es) ++ w))) as Hev.
  { induction es as [|e es IH]; intros w c Hw; [apply Hw|]. cbn [map concat app walk_trace]. constructor; [done|]. by apply IH. }
  assert (forall i (es : list OrderedEvent) c w, (forall c, Forall pinned (walk_trace base c w)) -> Forall pinned (walk_trace base c ((events_due i es).1 ++ w))) as Hdue.
  { intros i. induction es as [|e es IH]; intros c w Hw; cbn [events_due]; [apply Hw|]. destruct (heap_idx e <=? i); [|apply Hw]. destruct (events_due i es) as [w1 r1]. cbn [fst app walk_trace] in *. constructor; [done|]. by apply IH. }
  induction hs as [|h hs IH]; intros i es ts steps cursor; cbn [walk_heaps].
  - intros [= <-]. rewrite <-(app_nil_r (concat _)). apply Hev. intros. constructor.
  - pose proof (Hdue i es) as Hd. destruct (events_due i es) as [w1 es1]. cbn [fst] in Hd. destruct (is_truncate h) eqn:Et.
    + destruct ts as [|u ts]; [done|]. destruct (walk_heaps (i + 1) hs es1 ts) as [r|] eqn:Ew; [|done]. cbn [mbind option_bind]. intros [= <-]. apply Hd. intros c. cbn [walk_trace]. constructor; [by cbn; rewrite Et|]. by eapply IH.
    + destruct (walk_heaps (i + 1) hs es1 ts) as [r|] eqn:Ew; [|done]. cbn [mbind option_bind]. intros [= <-]. apply Hd. intros c. cbn [walk_trace]. constructor; [by cbn; rewrite Et|]. by eapply IH.
Qed.

Lemma walk_trace_rows base (w : list WalkStep) c n : walk_trace base c (w ++ [WRows n]) = walk_trace base c w.
Proof using Type. revert c. induction w as [|s w IH]; intros c; [done|]. destruct s; cbn [app walk_trace]; by rewrite IH. Qed.

Lemma plan_ops_plans bs base v n ops v' tr : batches_trace base bs = Some tr -> plan_ops base v bs = Ok (ops, v') ->
  Forall2 plans tr (expect n ops) /\ concat (rows_of ops) = concat (map new_rows bs) /\
  Forall (fun o => match o with OHeap p => is_truncate (p_heap p) = false | OTruncate p _ => is_truncate (p_heap p) = true | _ => True end) ops.
Proof using Type.
  revert base v n ops tr. induction bs as [|b bs IH]; intros base v n ops tr; cbn [batches_trace plan_ops]; [intros [= <-] [= <- <-]; by split_and!|].
  unfold into_walk. destruct (walk_heaps 0 _ _ _) as [w|] eqn:Ew; [|done]. cbn [mbind option_bind]. destruct (batches_trace _ bs) as [tr'|] eqn:Et; [|done]. cbn [mbind option_bind]. intros [= <-].
  rewrite walk_trace_rows. destruct (plan_trace b v _) as [[os v1]|] eqn:Eo; [|done]. cbn [fst snd]. destruct (plan_ops _ v1 bs) as [[os' v2]|] eqn:Ep; [|done]. cbn [fst snd]. intros [= <- <-].
  destruct (plan_trace_plans b _ v n os v1 (walk_pinned base w _ _ _ _ 0 Ew) Eo) as [HA HB]. destruct (IH _ v1 (n + zlen (heaps_of os)) os' tr' Et Ep) as (HC & HD & HE).
  assert (rows_of os = []) as Hr.
  { clear -Eo. revert v os Eo. induction (walk_trace base 0 w) as [|x xs IHx]; intros v os; cbn [plan_trace]; [by intros [= <- <-]|]. destruct (plan_item b v x) as [[o v0]|] eqn:Ei; [|done]. cbn [fst snd].
    destruct (plan_trace b v0 xs) as [[os' v3]|] eqn:Ex; [|done]. cbn [fst snd]. intros [= <- <-]. specialize (IHx v0 os' Ex). unfold rows_of in *. cbn [omap list_omap].
    assert (match o with ORows _ => False | _ => True end) as Ho; [|by destruct o]. revert Ei. destruct x as [[h|e] [m|]]; cbn [plan_item]; repeat case_match; intros Ei; simplify_eq; done. }
  split; [rewrite expect_app; apply Forall2_app; [done|exact HC]|]. split; [|apply Forall_app; by split; [|constructor]].
  unfold rows_of. rewrite omap_app. fold (rows_of os). rewrite Hr. cbn [app omap list_omap map concat]. destruct (new_rows b) as [|r rs]; [exact HD|]. cbn [concat]. f_equal. exact HD.
Qed.

(** ** The plan of a commit *)

(** What planning the slices [bs] of a commit comes to, when the commit's history
    is [t] and its mirror rows are [rows].  Pushed heaps fit the codec, and their
    addresses tell descriptors and routes apart. *)
Definition plans_commit (cap : Z) (v : View) (bs : list DrainedBatch) (t : list (MergeItem * Z)) (rows : list ToastRef.ToastRow) (lsn ts : Z) : Prop :=
  match plan_ops 0 v bs with
  | Err e => exists e', plan_batches (create cap v) bs = Err e' /\ (e' = e \/ exists s, e' = Spool s)
  | Ok (pushed, v') =>
      forall at_desc at_route, Forall (fun x => planned_ok x /\ placed at_desc at_route x) (heaps_of pushed) -> zlen (heaps_of pushed) < 2 ^ 32 - 1 ->
      match plan_batches (create cap v) bs with
      | Err e => exists n, e = Spool (DiskBudget n cap) /\ cap < n
      | Ok p => view p = v' /\ exists s items, seal p lsn ts = Ok s /\ verify s = Ok tt /\ replay_items s = (items, None) /\
          Forall2 plans (map (pin 0) t) items /\ concat (s_row_batches s) = rows
      end
  end.

Lemma plans_commit_spec cap v bs t rows lsn ts : batches_trace 0 bs = Some (map (pin 0) t) -> concat (map new_rows bs) = rows -> plans_commit cap v bs t rows lsn ts.
Proof using Type.
  intros Htr Hrows. unfold plans_commit. destruct (plan_batches_push bs (create cap v)) as [base Hp]. cbn [create rows_base view] in Hp.
  destruct (plan_ops 0 v bs) as [[pushed v']|e] eqn:Eo; cbn [pushes] in Hp; [|done]. intros at_desc at_route Hall Hlen.
  assert (Forall planned_ok (heaps_of pushed)) as Hok by (eapply Forall_impl; [|exact Hall]; by intros ? []).
  assert (Forall (placed at_desc at_route) (heaps_of pushed)) as HP by (eapply Forall_impl; [|exact Hall]; by intros ? []). rewrite Hp. cbn [create writer].
  destruct (plan_ops_plans bs 0 v 0 pushed v' _ Htr Eo) as (HF & Hr & Hsh).
  assert (Forall op_ok pushed) as Hops.
  { clear -Hok Hsh. induction Hsh as [|o os Ho Hos IH]; [constructor|]. unfold heaps_of in Hok. cbn [omap list_omap] in Hok. destruct o; cbn [heap_of op_ok] in *.
    all: try (apply Forall_cons_1 in Hok as [? Hok]). all: constructor; [done|by apply IH]. }
  pose proof (run_spec at_desc at_route _ [] pushed (writes_create at_desc at_route cap DEFAULT_PLAN_MEM_MAX) HP Hlen) as Hrun. cbn [app] in Hrun.
  destruct (run (Plan.create cap DEFAULT_PLAN_MEM_MAX) pushed) as [w|e]; cbn [wrote_ops view] in *.
  - split; [done|]. destruct Hrun as [Hw _]. destruct (seal_spec at_desc at_route w pushed lsn ts Hw) as (s & Hs & Hpl & _). pose proof Hpl as (Hn & _ & _ & Hrb & _). pose proof (zlen_nonneg (heaps_of pushed)).
    assert (replay_items s = (expect 0 pushed, None)) as E by (apply sealed_replays; [done|done|unfold fits; lia]). exists s, (expect 0 pushed). unfold seal. cbn [writer]. rewrite Hs.
    split_and!; [done| |done|done|by rewrite Hrb, Hr]. unfold verify. rewrite E. by destruct (store s).
  - destruct Hrun as (n & -> & Hn). exists n. cbn in *. by split; [|lia].
Qed.

Section Commit.
Context `{FloatText} `{Fpi.Codecs} (cfg : XactBuffer.XactBufferConfig).
Context (iter : gmap Z (@XactBuffer.XactState SchemaEvent ConfigEvent) -> list (Z * @XactBuffer.XactState SchemaEvent ConfigEvent)) (reads : list Z -> list (list Z)).
Hypothesis iter_perm : forall m, iter m ≡ₚ map_to_list m.
Hypothesis max_pos : 0 <= XactBuffer.xact_buffer_max cfg.
Hypothesis reads_all : forall bytes, concat (reads bytes) = bytes.
Hypothesis reads_some : forall bytes, Forall (fun c => 0 < zlen c) (reads bytes).


End Commit.

End Planner.

(** ** The commit of [XactHistory]'s example, planned *)
Section Demo.
#[local] Existing Instances XactHistory.demo_layout XactHistory.demo_codecs XactHistory.demo_floats XactHistory.demo_pages PlanProofs.plan_crc.

(** The view routes everything to one table and counts events. *)
Definition demo_route_for (v : nat) (h : DescribedHeap) : option (Z * RouteSnapshot) * nat := (Some (8192, PlanProofs.plan_route), v).
Definition demo_apply (v : nat) (e : @XactBuffer.DrainEntry unit unit) : result unit nat := Ok (S v).
Definition no_store : ToastResolver := MkResolver 100 ToastRef.OverflowError None None.
Definition demo_plan := plan_batches demo_route_for demo_apply map_to_list map_to_list no_store (fun _ => 4096).

(** The position of a row or the pin of an event. *)
Definition lsn_of_item (i : @PlanItem unit unit) : option Z * option Z :=
  match i with PControl c => (None, Some (row_idx c)) | PHeap r => (Some (source_lsn (decoded (described r))), None) | PTruncate r n => (Some (source_lsn (decoded (described r))), Some n) end.

Definition lsn_of (x : @MergeItem unit unit * option Z) : option Z * option Z :=
  (match x.1 with MHeap h => Some (source_lsn (decoded h)) | MEvent _ => None end, x.2).

Definition demo_row (x l n : Z) : Planned :=
  MkPlanned (MkDescribed (MkHeap (drfn SpillFile.item_rel) x l Insert (Some (MkTuple [Some (Int4 n)] false)) None) SpillFile.item_rel 9) 4096 (Some (8192, PlanProofs.plan_route)).
Definition demo_rows : list Planned := [demo_row 700 10 10; demo_row 701 15 15; demo_row 700 20 5; demo_row 700 20 6].

Lemma pull_more R B fuel k (d : @CommittedDrain unit unit) r : pull fuel R B d = Some r -> pull (fuel + k) R B d = Some r.
Proof.
  revert d r. induction fuel as [|fuel IH]; intros d r; [done|]. cbn [pull Nat.add]. destruct (next_batch d R B) as [[[b|] d']|e]; try done.
  destruct (pull fuel R B d') as [r'|] eqn:E; [|done]. by rewrite (IH _ _ E).
Qed.

(** The slices of one row each, and what is pushed from them. *)
Lemma demo_pulls d : XactHistory.demo_drain = Ok d -> exists bs ops, pull 10 1 4096 d = Some (Ok bs) /\
  plan_ops demo_route_for demo_apply map_to_list map_to_list no_store (fun _ => 4096) 0 0%nat bs = Ok (ops, 1%nat) /\ heaps_of ops = demo_rows /\ is_ok (demo_plan (create 4000 0%nat) bs) = true.
Proof.
  assert (match XactHistory.demo_drain with Ok d => match pull 10 1 4096 d with Some (Ok bs) =>
    match plan_ops demo_route_for demo_apply map_to_list map_to_list no_store (fun _ => 4096) 0 0%nat bs with Ok (o, v) => Some (heaps_of o, v, is_ok (demo_plan (create 4000 0%nat) bs)) | _ => None end
    | _ => None end | _ => None end = Some (demo_rows, 1%nat, true)) as Hc by by vm_compute.
  intros Hd. rewrite Hd in Hc. destruct (pull 10 1 4096 d) as [[bs|]|]; [|discriminate Hc|discriminate Hc].
  destruct (plan_ops _ _ _ _ _ _ 0 0%nat bs) as [[o v]|] eqn:E; [|discriminate Hc]. injection Hc as H1 H2 H3. exists bs, o. rewrite <-H2. auto.
Qed.

Lemma demo_rows_ok : Forall (fun x => planned_ok x /\ placed (fun _ => SpillFile.item_rel) (fun _ => PlanProofs.plan_route) x) demo_rows.
Proof.
  assert (forall x l n, x = 700 \/ x = 701 -> 0 <= l < 100 -> 0 <= n < 100 -> planned_ok (demo_row x l n)) as Hok; [|repeat (constructor; [split; [apply Hok; (lia || auto)|done]|]); constructor].
  intros x l n Hx Hl Hn. split; [split_and!; [small|unfold fits; cbn; lia|unfold fits; cbn; lia| |exact I]|small]. split; [small|constructor; [cbn; lia|constructor]].
Qed.


End Demo.

End Planner.
