(* ===== verification/Rules.v ===== *)
(** * Table and column rules ([src/table_rules.rs], [src/column_rules.rs], the
      system columns of [src/mapping.rs])

    Configuration entries name relations and columns exactly or by pattern.  A
    builder ranks them broadest first; a lookup overlays every entry that
    matches, so the narrowest one that states a value decides it. *)
From Stdlib Require Import String Ascii.
From S2P Require Import Prelude Text WalRecord AsciiBuf Numeric HeapDecode.
Import Schema.

(** The bytes of a literal of the source. *)
Definition str (s : string) : list Z := map (fun a => Z.of_N (N_of_ascii a)) (list_ascii_of_string s).

Module SystemColumns.

Record SystemColumns := MkSystem { lsn : list Z; xid : list Z; commit_ts : list Z; is_deleted : option (list Z); leaf : option (list Z) }.

Definition default_columns : SystemColumns :=
  MkSystem (str "_lsn") (str "_xid") (str "_commit_ts") (Some (str "_is_deleted")) (Some (str "_leaf_oid")).

Definition names (s : SystemColumns) : list (list Z) := [lsn s; xid s; commit_ts s] ++ option_list (is_deleted s).

Inductive InvalidColumns := EmptyName (key : nat) | NamedTwice (name : list Z).

(** The first name that occurs again later. *)
Fixpoint named_twice (l : list (list Z)) : option (list Z) :=
  match l with
  | [] => None
  | a :: l => if bool_decide (a ∈ l) then Some a else named_twice l
  end.

Definition validate (s : SystemColumns) : result InvalidColumns unit :=
  match lsn s, xid s, commit_ts s with
  | [], _, _ => Err (EmptyName 0)
  | _, [], _ => Err (EmptyName 1)
  | _, _, [] => Err (EmptyName 2)
  | _, _, _ =>
      match named_twice (names s ++ option_list (leaf s)) with
      | Some a => Err (NamedTwice a)
      | None => Ok tt
      end
  end.

(** [SystemColumnNames]: per-relation renames. *)
Record SystemColumnNames := MkNames
  { n_lsn : option (list Z); n_xid : option (list Z); n_commit_ts : option (list Z); n_is_deleted : option (list Z); n_leaf : option (list Z) }.

Definition no_names : SystemColumnNames := MkNames None None None None None.

Definition names_empty (n : SystemColumnNames) : bool :=
  negb (is_some (n_lsn n) || is_some (n_xid n) || is_some (n_commit_ts n) || is_some (n_is_deleted n) || is_some (n_leaf n)).

(** [set_if(dst, src)]. *)
Definition set_if {A} (dst src : option A) : option A := opt_or src dst.

Definition overlay_names (a b : SystemColumnNames) : SystemColumnNames :=
  MkNames (set_if (n_lsn a) (n_lsn b)) (set_if (n_xid a) (n_xid b)) (set_if (n_commit_ts a) (n_commit_ts b))
    (set_if (n_is_deleted a) (n_is_deleted b)) (set_if (n_leaf a) (n_leaf b)).

(** Whether a column other than the [i]th bears [name]. *)
Definition held_elsewhere (s : SystemColumns) (i : nat) (name : list Z) : bool :=
  existsb (fun x => x) (imap (fun j n => negb (Nat.eqb j i) && bool_decide (n = name)) (names s)).

Definition set_name (s : SystemColumns) (i : nat) (name : list Z) : SystemColumns :=
  match i with
  | 0%nat => MkSystem name (xid s) (commit_ts s) (is_deleted s) (leaf s)
  | 1%nat => MkSystem (lsn s) name (commit_ts s) (is_deleted s) (leaf s)
  | _ => MkSystem (lsn s) (xid s) name (is_deleted s) (leaf s)
  end.

Definition rename_one (s : SystemColumns) (i : nat) (over : option (list Z)) : SystemColumns :=
  match over with
  | None | Some [] => s
  | Some name => if held_elsewhere s i name then s else set_name s i name
  end.

Definition set_is_deleted (s : SystemColumns) (d : option (list Z)) : SystemColumns := MkSystem (lsn s) (xid s) (commit_ts s) d (leaf s).
Definition set_leaf (s : SystemColumns) (l : option (list Z)) : SystemColumns := MkSystem (lsn s) (xid s) (commit_ts s) (is_deleted s) l.

Definition renamed (s : SystemColumns) (n : SystemColumnNames) : SystemColumns :=
  let out := rename_one (rename_one (rename_one s 0 (n_lsn n)) 1 (n_xid n)) 2 (n_commit_ts n) in
  let out :=
    match n_is_deleted n with
    | Some [] => set_is_deleted out None
    | Some name => if bool_decide (name ∈ take 3 (names out)) then out else set_is_deleted out (Some name)
    | None => out
    end in
  let out :=
    match leaf out with
    | Some l => if bool_decide (l ∈ names out) then set_leaf out None else out
    | None => out
    end in
  match n_leaf n with
  | Some [] => set_leaf out None
  | Some name => if bool_decide (name ∈ names out) then out else set_leaf out (Some name)
  | None => out
  end.

(** [SystemColumnNames::validate]: a rename that does not land is an error. *)
Definition landed (names : list (list Z)) (i : nat) (want : option (list Z)) : bool :=
  match want with
  | None | Some [] => true
  | Some w => bool_decide (names !! i = Some w)
  end.

Definition validate_names (n : SystemColumnNames) : bool :=
  let s := renamed default_columns n in
  landed (names s) 0 (n_lsn n) && landed (names s) 1 (n_xid n) && landed (names s) 2 (n_commit_ts n) &&
  landed (names s) 3 (n_is_deleted n) &&
  match n_leaf n with None | Some [] => true | Some w => bool_decide (leaf s = Some w) end.

(** Every column a table gets, in the order the emitter appends them. *)
Definition all_names (s : SystemColumns) : list (list Z) := names s ++ option_list (leaf s).

Lemma named_twice_spec l : named_twice l = None <-> NoDup l.
Proof.
  induction l as [|a l IH]; cbn [named_twice]; [split; [constructor|done]|]. rewrite list.NoDup_cons. case_bool_decide as Ha; [split; [done|by intros [? _]]|]. rewrite IH. tauto.
Qed.

Lemma held_elsewhere_spec s i name : held_elsewhere s i name = false -> forall j n, names s !! j = Some n -> j <> i -> n <> name.
Proof.
  unfold held_elsewhere. intros Hf j n Hj Hne ->. assert (existsb (fun x => x) (imap (fun j n => negb (Nat.eqb j i) && bool_decide (n = name)) (names s)) = true) as Ht; [|congruence].
  apply existsb_exists. exists true. split; [|done]. apply list_elem_of_In, (list_elem_of_lookup_2 _ j). rewrite list_lookup_imap, Hj. cbn. rewrite bool_decide_true by done.
  by rewrite (proj2 (Nat.eqb_neq _ _) Hne).
Qed.

Lemma rename_one_distinct s i over : (i < 3)%nat -> NoDup (names s) -> NoDup (names (rename_one s i over)) /\ leaf (rename_one s i over) = leaf s.
Proof.
  intros Hi Hd. unfold rename_one. destruct over as [[|c name]|]; [done| |done]. destruct (held_elsewhere s i (c :: name)) eqn:Eh; [done|]. split; [|destruct i as [|[|i]]; done].
  assert (names (set_name s i (c :: name)) = <[i := c :: name]> (names s)) as -> by (destruct i as [|[|[|i]]]; done || lia).
  apply NoDup_alt. intros a b x Ha Hb. pose proof (held_elsewhere_spec _ _ _ Eh) as Hf. destruct (decide (a = i)) as [->|Na], (decide (b = i)) as [->|Nb]; [done|..].
  - apply list_lookup_insert_Some in Ha as [(_ & <- & _)|[? _]]; [|done]. rewrite list_lookup_insert_ne in Hb by done. by specialize (Hf _ _ Hb Nb).
  - apply list_lookup_insert_Some in Hb as [(_ & <- & _)|[? _]]; [|done]. rewrite list_lookup_insert_ne in Ha by done. by specialize (Hf _ _ Ha Na).
  - rewrite list_lookup_insert_ne in Ha, Hb by done. exact (NoDup_lookup _ _ _ _ Hd Ha Hb).
Qed.

(** The marker and the partition column after the three plain renames. *)
Lemma rename_marker_distinct s n : NoDup (names s) ->
  let out := match n with Some [] => set_is_deleted s None | Some name => if bool_decide (name ∈ take 3 (names s)) then s else set_is_deleted s (Some name) | None => s end in
  NoDup (names out).
Proof.
  intros Hd. destruct n as [[|c name]|]; [|case_bool_decide as Hn; [done|]|done].
  - unfold names in *. cbn in *. apply (list.NoDup_app [_; _; _]) in Hd as [? _]. done.
  - unfold names in *. cbn in *. apply (list.NoDup_app [lsn s; xid s; commit_ts s] [_]). split_and!; [by apply (list.NoDup_app [_; _; _]) in Hd as [? _]|set_solver|apply NoDup_singleton].
Qed.

(** The system columns of a relation never bear one name twice, however the
    layers of configuration rename them: from any set whose names are distinct,
    applying any renames (colliding ones included) leaves the names distinct,
    the partition column's among them. *)
Theorem renamed_distinct s n : NoDup (names s) -> NoDup (all_names (renamed s n)).
Proof.
  intros Hd. unfold renamed. set (s1 := rename_one (rename_one (rename_one s 0 (n_lsn n)) 1 (n_xid n)) 2 (n_commit_ts n)).
  assert (NoDup (names s1)) as H1 by (unfold s1; repeat (apply rename_one_distinct; [lia|]); done). clearbody s1. pose proof (rename_marker_distinct s1 (n_is_deleted n) H1) as H2.
  cbn zeta in H2. set (s2 := match n_is_deleted n with Some [] => _ | Some _ => _ | None => _ end) in *. clearbody s2. clear H1 s1.
  assert (forall out l, NoDup (names out) -> l ∉ names out -> NoDup (all_names (set_leaf out (Some l)))) as Hset.
  { intros out l H3 H4. apply (list.NoDup_app (names out) [l]). split_and!; [done|set_solver|apply NoDup_singleton]. }
  assert (forall out, NoDup (names out) -> NoDup (all_names (set_leaf out None))) as Hnone by (intros out H3; unfold all_names; cbn; by rewrite app_nil_r).
  set (s3 := match leaf s2 with Some l => if bool_decide (l ∈ names s2) then set_leaf s2 None else s2 | None => s2 end).
  assert (NoDup (names s3) /\ NoDup (all_names s3)) as [H3 H4].
  { unfold s3. destruct (leaf s2) as [l|] eqn:El; [case_bool_decide as Hl|]; (split; [done|]); [by apply Hnone| |]; unfold all_names; rewrite El; cbn; [|by rewrite app_nil_r].
    apply (list.NoDup_app (names s2) [l]). split_and!; [done|set_solver|apply NoDup_singleton]. }
  destruct (n_leaf n) as [[|c name]|]; [by apply Hnone| |done]. case_bool_decide as Hn; [done|]. by apply Hset.
Qed.

(** Two renames to one name, and a partition column named as the position. *)
Lemma renamed_distinct_witness :
  let n := MkNames (Some (str "_v")) (Some (str "_v")) None (Some (str "_commit_ts")) (Some (str "_v")) in
  lsn (renamed default_columns n) = str "_v" /\ xid (renamed default_columns n) = str "_xid" /\ NoDup (all_names (renamed default_columns n)).
Proof. split_and!; [reflexivity|reflexivity|]. apply (renamed_distinct default_columns). apply (bool_decide_unpack _). vm_compute. exact I. Defined.

End SystemColumns.

(** ** Orders on ranks

    [Ord] for the tuples the builders sort by. *)
Module Rank.

Class StrictCmp {A} (c : A -> A -> comparison) :=
  { cmp_eq : forall x y, c x y = Eq <-> x = y;
    cmp_opp : forall x y, c y x = CompOpp (c x y);
    cmp_trans : forall x y z, c x y = Lt -> c y z = Lt -> c x z = Lt }.

Fixpoint list_cmp {A} (c : A -> A -> comparison) (l k : list A) : comparison :=
  match l, k with
  | [], [] => Eq
  | [], _ => Lt
  | _, [] => Gt
  | x :: l, y :: k => match c x y with Eq => list_cmp c l k | o => o end
  end.

Definition pair_cmp {A B} (c : A -> A -> comparison) (d : B -> B -> comparison) (x y : A * B) : comparison :=
  match c x.1 y.1 with Eq => d x.2 y.2 | o => o end.

Definition bool_cmp (a b : bool) : comparison := match a, b with false, true => Lt | true, false => Gt | _, _ => Eq end.

#[global] Instance z_strict : StrictCmp Z.compare.
Proof. split; [apply Z.compare_eq_iff|intros; apply Z.compare_antisym|]. intros x y z H1%Z.compare_lt_iff H2%Z.compare_lt_iff. apply Z.compare_lt_iff. by trans y. Qed.

#[global] Instance bool_strict : StrictCmp bool_cmp.
Proof. split; by repeat intros [|]. Qed.

#[global] Instance pair_strict {A B} c d `{C : !StrictCmp c} `{E : !StrictCmp d} : StrictCmp (@pair_cmp A B c d).
Proof.
  split; unfold pair_cmp.
  - intros [x1 x2] [y1 y2]. cbn. destruct (c x1 y1) eqn:Ec; [apply cmp_eq in Ec as ->; rewrite cmp_eq; split; [by intros ->|by intros [= ->]]|..]; (split; [done|]); intros [= -> ->];
      by rewrite (proj2 (cmp_eq y1 y1) eq_refl) in Ec.
  - intros [x1 x2] [y1 y2]. cbn. rewrite (cmp_opp x1 y1). destruct (c x1 y1); cbn; [apply cmp_opp|done..].
  - intros [x1 x2] [y1 y2] [z1 z2]. cbn. destruct (c x1 y1) eqn:E1, (c y1 z1) eqn:E2; intros H1 H2; try done.
    + apply cmp_eq in E1 as ->. rewrite E2. by apply (cmp_trans x2 y2).
    + apply cmp_eq in E1 as ->. by rewrite E2.
    + apply cmp_eq in E2 as ->. by rewrite E1.
    + by rewrite (cmp_trans x1 y1 z1).
Qed.

#[global] Instance list_strict {A} c `{C : !StrictCmp c} : StrictCmp (@list_cmp A c).
Proof.
  split.
  - induction x as [|x l IH]; intros [|y k]; cbn; try done. destruct (c x y) eqn:Ec; [apply cmp_eq in Ec as ->; rewrite IH; split; [by intros ->|by intros [= ->]]|..]; (split; [done|]); intros [= -> ->];
      by rewrite (proj2 (cmp_eq y y) eq_refl) in Ec.
  - induction x as [|x l IH]; intros [|y k]; cbn; try done. rewrite (cmp_opp x y). destruct (c x y); cbn; [apply IH|done..].
  - induction x as [|x l IH]; intros [|y k] [|z m]; cbn; try done. destruct (c x y) eqn:E1, (c y z) eqn:E2; intros H1 H2; try done.
    + apply cmp_eq in E1 as ->. rewrite E2. by apply (IH k).
    + apply cmp_eq in E1 as ->. by rewrite E2.
    + apply cmp_eq in E2 as ->. by rewrite E1.
    + by rewrite (cmp_trans x y z).
Qed.

(** [slice::sort_by]: stable. *)
Section Sort.
Context {A K : Type} (key : A -> K) (c : K -> K -> comparison).

Fixpoint insert_rank (x : A) (l : list A) : list A :=
  match l with
  | [] => [x]
  | y :: l => match c (key x) (key y) with Gt => y :: insert_rank x l | _ => x :: y :: l end
  end.

Definition sort_rank (l : list A) : list A := fold_right insert_rank [] l.

Definition ranked (x y : A) : Prop := c (key x) (key y) <> Gt.

Lemma insert_rank_perm x l : insert_rank x l ≡ₚ x :: l.
Proof. induction l as [|y l IH]; [done|]. cbn. destruct (c (key x) (key y)); [done..|]. rewrite IH. constructor. Qed.

Lemma sort_rank_perm l : sort_rank l ≡ₚ l.
Proof. induction l as [|x l IH]; [done|]. cbn. by rewrite insert_rank_perm, IH. Qed.

Context `{C : !StrictCmp c}.

Lemma ranked_trans x y z : ranked x y -> ranked y z -> ranked x z.
Proof.
  unfold ranked. intros H1 H2. destruct (c (key x) (key y)) eqn:E1; [apply cmp_eq in E1 as ->; done| |done]. destruct (c (key y) (key z)) eqn:E2; [apply cmp_eq in E2 as <-; by rewrite E1| |done].
  by rewrite (cmp_trans _ _ _ E1 E2).
Qed.

Lemma insert_rank_sorted x l : StronglySorted ranked l -> StronglySorted ranked (insert_rank x l).
Proof.
  induction 1 as [|y l Hs IH Hy]; cbn; [repeat constructor|]. destruct (c (key x) (key y)) eqn:E.
  1,2: constructor; [by constructor|]; constructor; [unfold ranked; by rewrite E|]; eapply Forall_impl; [|exact Hy]; intros z; apply ranked_trans; unfold ranked; by rewrite E.
  constructor; [done|]. rewrite insert_rank_perm. constructor; [|done]. unfold ranked. by rewrite cmp_opp, E.
Qed.

Lemma sort_rank_sorted l : StronglySorted ranked (sort_rank l).
Proof. induction l as [|x l IH]; cbn; [constructor|by apply insert_rank_sorted]. Qed.

End Sort.

Lemma sorted_suffix {A} (R : A -> A -> Prop) l k : StronglySorted R (l ++ k) -> StronglySorted R k.
Proof. induction l as [|x l IH]; [done|]. cbn. intros [H _]%StronglySorted_inv. by apply IH. Qed.

(** The last element of a sorted list that states a value. *)
Section Last.
Context {A B : Type} (stated : A -> option B).

Definition last_stated (l : list A) : option B := fold_left (fun acc x => opt_or (stated x) acc) l None.

Lemma last_stated_acc l acc : fold_left (fun acc x => opt_or (stated x) acc) l acc = opt_or (last_stated l) acc.
Proof.
  unfold last_stated. revert acc. induction l as [|x l IH]; intros acc; [done|]. cbn. rewrite IH, (IH (opt_or _ None)). destruct (fold_left _ l None); [done|]. cbn. by destruct (stated x).
Qed.

Lemma last_stated_wins {K} (key : A -> K) (c : K -> K -> comparison) `{C : !StrictCmp c} l e v : StronglySorted (ranked key c) l -> e ∈ l -> stated e = Some v ->
  (forall e', e' ∈ l -> stated e' <> None -> e' = e \/ c (key e') (key e) = Lt) -> last_stated l = Some v.
Proof.
  intros Hs He Hv Hall. apply list_elem_of_split in He as (l1 & l2 & ->). unfold last_stated. rewrite fold_left_app. cbn [fold_left]. rewrite Hv. cbn [opt_or]. rewrite last_stated_acc.
  assert (forall e', e' ∈ l2 -> stated e' = Some v \/ stated e' = None) as H2.
  { intros e' He'. destruct (stated e') as [w|] eqn:Ew; [|by right]. left. destruct (Hall e' ltac:(set_solver) ltac:(by rewrite Ew)) as [->|Hlt]; [congruence|].
    pose proof (sorted_suffix _ _ _ Hs) as Hs2. apply StronglySorted_inv in Hs2 as [_ HF]. rewrite Forall_elem in HF. specialize (HF e' He'). unfold ranked in HF. by rewrite cmp_opp, Hlt in HF. }
  clear -H2. revert H2. induction l2 as [|x l2 IH] using rev_ind; intros H2; [done|]. unfold last_stated. rewrite fold_left_app. cbn. fold (last_stated l2).
  specialize (IH ltac:(set_solver)). destruct (H2 x ltac:(set_solver)) as [->| ->]; [done|]. cbn. destruct (last_stated l2); done.
Qed.

End Last.

End Rank.

(** The glob and regular-expression crates. *)
Class PatternCrates := MkCrates
  { GlobMatcher : Type; glob_new : list Z -> option GlobMatcher; glob_is_match : GlobMatcher -> list Z -> bool;
    RegexMeta : Type; regex_new : list Z -> option RegexMeta; regex_is_match : RegexMeta -> list Z -> bool }.

Definition RelName : Type := list Z * list Z.

Module TableRules.
Import SystemColumns Rank.

Inductive MatchKind := Exact | Glob | Regex.

#[global] Instance match_kind_eq_dec : EqDecision MatchKind.
Proof. solve_decision. Defined.

Inductive PartitionRoute := Root | Self_.

#[global] Instance partition_route_eq_dec : EqDecision PartitionRoute.
Proof. solve_decision. Defined.

(** [Tee] of [src/mapping.rs]. *)
Record Tee := MkTee
  { t_instance : option (list Z); t_database : option (list Z); t_table : list Z; t_engine : option (list Z);
    t_order_by : list (list Z); t_primary_key : list (list Z) }.

Record TableRule := MkRule
  { target_instance : option (list Z); system : SystemColumnNames; target_database : option (list Z);
    target_table : option (list Z); replicate : option bool; initial_load : option (list Z);
    order_by : option (list (list Z)); primary_key : option (list (list Z)); engine : option (list Z);
    partition_by : option (list Z); route : option PartitionRoute; tee : option (list Tee) }.

Definition default_rule : TableRule := MkRule None no_names None None None None None None None None None None.

Definition overlay (a b : TableRule) : TableRule :=
  MkRule (set_if (target_instance a) (target_instance b)) (overlay_names (system a) (system b))
    (set_if (target_database a) (target_database b)) (set_if (target_table a) (target_table b))
    (set_if (replicate a) (replicate b)) (set_if (initial_load a) (initial_load b)) (set_if (order_by a) (order_by b))
    (set_if (primary_key a) (primary_key b)) (set_if (engine a) (engine b)) (set_if (partition_by a) (partition_by b))
    (set_if (route a) (route b)) (set_if (tee a) (tee b)).

Definition set_replicate (r : TableRule) (v : option bool) : TableRule :=
  MkRule (target_instance r) (system r) (target_database r) (target_table r) v (initial_load r) (order_by r) (primary_key r)
    (engine r) (partition_by r) (route r) (tee r).

Definition system_columns (r : TableRule) (default : SystemColumns) : SystemColumns :=
  if names_empty (system r) then default else renamed default (system r).

Definition shapes_destination (r : TableRule) : bool :=
  is_some (target_instance r) || negb (names_empty (system r)) || is_some (target_database r) || is_some (target_table r)
  || is_some (initial_load r) || is_some (order_by r) || is_some (primary_key r) || is_some (engine r)
  || is_some (partition_by r) || is_some (tee r).

Section Rules.
Context `{PC : PatternCrates}.

Inductive NamePattern := LiteralName (s : list Z) | GlobName (g : GlobMatcher) | RegexName (r : RegexMeta).

(** A regular expression is anchored. *)
Definition anchored (p : list Z) : list Z := str "^(?:" ++ p ++ str ")$".

Definition compile_pattern (kind : MatchKind) (pattern : list Z) : option NamePattern :=
  match kind with
  | Exact => Some (LiteralName pattern)
  | Glob => GlobName <$> glob_new pattern
  | Regex => RegexName <$> regex_new (anchored pattern)
  end.

Definition is_match (p : NamePattern) (name : list Z) : bool :=
  match p with
  | LiteralName s => bool_decide (s = name)
  | GlobName g => glob_is_match g name
  | RegexName r => regex_is_match r name
  end.

Record RelMatcher := MkRelMatcher { src : RelName; mkind : MatchKind; m_namespace : NamePattern; m_name : NamePattern }.

Definition compile_rel (src : RelName) (kind : MatchKind) : option RelMatcher :=
  let* ns := compile_pattern kind src.1 in
  let* nm := compile_pattern kind src.2 in
  Some (MkRelMatcher src kind ns nm).

Definition rel_matches (m : RelMatcher) (rel : RelName) : bool := is_match (m_namespace m) rel.1 && is_match (m_name m) rel.2.

Definition is_pattern (m : RelMatcher) : bool := negb (bool_decide (mkind m = Exact)).

Definition width (m : RelMatcher) : Z := zlen (src m).1 + zlen (src m).2.

(** [(bool, usize, &str, &str)]. *)
Definition Rank : Type := bool * (Z * (list Z * list Z)).

Definition rank (m : RelMatcher) : Rank := (negb (is_pattern m), (width m, src m)).

Definition rank_cmp : Rank -> Rank -> comparison := pair_cmp bool_cmp (pair_cmp Z.compare (pair_cmp (list_cmp Z.compare) (list_cmp Z.compare))).

Record TableRules := MkRules { rules : list (RelMatcher * TableRule); has_patterns : bool; own_partitions : bool }.

(** The variables of [merge]'s loop. *)
Record Merge := MkMerge { merged : TableRule; from_pattern : bool; barred : bool; literal_replicate : option bool }.

Definition merge_step (partition : bool) (rel : RelName) (st : Merge) (e : RelMatcher * TableRule) : Merge :=
  let '(matcher, rule) := e in
  if negb (rel_matches matcher rel) || (partition && is_pattern matcher && negb (bool_decide (route rule = Some Self_))) then st
  else if is_pattern matcher then
    MkMerge (overlay (merged st) rule) true (barred st || bool_decide (replicate rule = Some false)) (literal_replicate st)
  else MkMerge (overlay (merged st) rule) (from_pattern st) (barred st) (set_if (literal_replicate st) (replicate rule)).

Definition merge (rs : TableRules) (rel : RelName) (partition : bool) : TableRule * bool :=
  let partition := partition && negb (own_partitions rs) in
  let st := fold_left (merge_step partition rel) (rules rs) (MkMerge default_rule false false None) in
  (if barred st then set_replicate (merged st) (opt_or (literal_replicate st) (Some false)) else merged st, from_pattern st).

Definition settings_of (rs : TableRules) (rel : RelName) (partition : bool) : TableRule := (merge rs rel partition).1.
Definition settings (rs : TableRules) (rel : RelName) : TableRule := (merge rs rel false).1.
Definition settings_for (rs : TableRules) (desc : RelDescriptor) : TableRule := settings_of rs (rel_name desc) (is_partition desc).
Definition partition_settings (rs : TableRules) (rel : RelName) : TableRule := (merge rs rel true).1.

Definition exact_settings (rs : TableRules) (rel : RelName) : TableRule :=
  fold_left (fun acc e => if negb (is_pattern e.1) && rel_matches e.1 rel then overlay acc e.2 else acc) (rules rs) default_rule.

(** The fields of the [TableRow] a pattern scopes a relation with. *)
Record Scope := MkScope { s_database : option (list Z); s_table : option (list Z); s_replicate : option bool; s_initial_load : option (list Z) }.

Definition pattern_scope (rs : TableRules) (rel : RelName) : option Scope :=
  let '(rule, from_pattern) := merge rs rel false in
  if from_pattern && is_some (replicate rule) then Some (MkScope (target_database rule) (target_table rule) (replicate rule) (initial_load rule)) else None.

Definition pattern_scoped (rs : TableRules) (present : list RelName) (mapped : RelName -> bool) : list (RelName * Scope) :=
  if negb (has_patterns rs) then []
  else filter (fun p => negb (bool_decide (s_replicate p.2 = Some true)) || negb (mapped p.1) = true)
         (omap (fun rel => (fun row => (rel, row)) <$> pattern_scope rs rel) present).

Definition with_own_partitions (rs : TableRules) (own : bool) : TableRules := MkRules (rules rs) (has_patterns rs) own.

(** ** The builder *)
Record TableRulesBuilder := MkBuilder { b_rules : list (Z * RelMatcher * TableRule); layer : Z; rejections : Z }.

Definition new_builder : TableRulesBuilder := MkBuilder [] 0 0.

Definition next_layer (b : TableRulesBuilder) : TableRulesBuilder := MkBuilder (b_rules b) (layer b + 1) (rejections b).

Definition add (b : TableRulesBuilder) (key : RelName) (kind : MatchKind) (rule : TableRule) : TableRulesBuilder :=
  if negb (validate_names (system rule)) then MkBuilder (b_rules b) (layer b) (rejections b + 1)
  else
    match compile_rel key kind with
    | Some matcher => MkBuilder (b_rules b ++ [(layer b, matcher, rule)]) (layer b) (rejections b)
    | None => MkBuilder (b_rules b) (layer b) (rejections b + 1)
    end.

Definition entry_key (e : Z * RelMatcher * TableRule) : Rank * Z := (rank e.1.2, e.1.1).
Definition entry_cmp : Rank * Z -> Rank * Z -> comparison := pair_cmp rank_cmp Z.compare.

Definition finish (b : TableRulesBuilder) : TableRules * Z :=
  let rules := map (fun e => (e.1.2, e.2)) (sort_rank entry_key entry_cmp (b_rules b)) in
  (MkRules rules (existsb (fun e => is_pattern e.1) rules) false, rejections b).

(** ** What a lookup resolves to *)

(** Whether an entry contributes to a relation's rule. *)
Definition applies (partition : bool) (rel : RelName) (e : Z * RelMatcher * TableRule) : bool :=
  rel_matches e.1.2 rel && negb (partition && is_pattern e.1.2 && negb (bool_decide (route e.2 = Some Self_))).

#[global] Instance entry_strict : StrictCmp entry_cmp.
Proof. apply _. Qed.

Lemma merge_step_applies partition rel st e : merge_step partition rel st (e.1.2, e.2) =
  if applies partition rel e then
    if is_pattern e.1.2 then MkMerge (overlay (merged st) e.2) true (barred st || bool_decide (replicate e.2 = Some false)) (literal_replicate st)
    else MkMerge (overlay (merged st) e.2) (from_pattern st) (barred st) (set_if (literal_replicate st) (replicate e.2))
  else st.
Proof. unfold merge_step, applies. destruct (rel_matches e.1.2 rel), partition, (is_pattern e.1.2); cbn; try done; by destruct (bool_decide _). Qed.

Section Field.
Context {A : Type} (f : TableRule -> option A).
Hypothesis f_overlay : forall a b, f (overlay a b) = set_if (f a) (f b).

Lemma merge_field partition rel l st :
  f (merged (fold_left (merge_step partition rel) (map (fun e => (e.1.2, e.2)) l) st)) =
  opt_or (last_stated (fun e => if applies partition rel e then f e.2 else None) l) (f (merged st)).
Proof.
  revert st. induction l as [|e l IH]; intros st; [done|]. unfold last_stated. cbn [map fold_left]. rewrite IH, last_stated_acc, merge_step_applies. destruct (last_stated _ l) as [v|]; [done|]. cbn [opt_or].
  destruct (applies partition rel e); [|done]. destruct (is_pattern e.1.2); cbn [merged]; rewrite f_overlay; by destruct (f e.2).
Qed.

(** The narrowest entry decides.  For any field of a rule that layers
    overlay (every one but [replicate], which a pattern's exclusion overrides),
    the rule a relation resolves to holds the value of the matching entry that
    ranks highest: exact entries above patterns, then longer patterns above
    shorter, then later layers above earlier; entries that do not state the
    field do not count. *)
Theorem narrowest_entry_wins b own rel partition e v :
  f default_rule = None -> (forall r x, f (set_replicate r x) = f r) ->
  e ∈ b_rules b -> applies (partition && negb own) rel e = true -> f e.2 = Some v ->
  (forall e', e' ∈ b_rules b -> applies (partition && negb own) rel e' = true -> f e'.2 <> None -> e' = e \/ entry_cmp (entry_key e') (entry_key e) = Lt) ->
  f (settings_of (with_own_partitions (finish b).1 own) rel partition) = Some v.
Proof.
  intros Hd Hr He Ha Hv Hall. unfold settings_of, merge. cbn [fst own_partitions with_own_partitions rules finish]. set (l := sort_rank _ _ _). set (st := fold_left _ _ _).
  assert (f (merged st) = Some v) as Hm; [|by destruct (barred st); cbn [fst]; rewrite ?Hr]. unfold st. rewrite merge_field.
  rewrite (last_stated_wins _ entry_key entry_cmp l e v); [done|apply sort_rank_sorted; apply _| |by rewrite Ha|].
  - unfold l. by rewrite sort_rank_perm.
  - intros e' He' Hn. unfold l in He'. rewrite sort_rank_perm in He'. destruct (applies _ rel e') eqn:Ea; [|done]. by apply Hall.
Qed.

End Field.

Lemma barred_spec partition rel l st : barred (fold_left (merge_step partition rel) (map (fun e => (e.1.2, e.2)) l) st) =
  barred st || existsb (fun e => applies partition rel e && is_pattern e.1.2 && bool_decide (replicate e.2 = Some false)) l.
Proof.
  revert st. induction l as [|e l IH]; intros st; cbn [map fold_left existsb]; [by rewrite orb_false_r|]. rewrite IH, merge_step_applies.
  destruct (applies partition rel e); [|done]. destruct (is_pattern e.1.2); cbn [barred andb]; [by rewrite orb_assoc|done].
Qed.

Lemma literal_spec partition rel l st : literal_replicate (fold_left (merge_step partition rel) (map (fun e => (e.1.2, e.2)) l) st) =
  opt_or (last_stated (fun e => if applies partition rel e && negb (is_pattern e.1.2) then replicate e.2 else None) l) (literal_replicate st).
Proof.
  revert st. induction l as [|e l IH]; intros st; [done|]. unfold last_stated. cbn [map fold_left]. rewrite IH, last_stated_acc, merge_step_applies. destruct (last_stated _ l) as [v|]; [done|]. cbn [opt_or].
  destruct (applies partition rel e); [|done]. destruct (is_pattern e.1.2); cbn [literal_replicate andb negb]; [done|]. by destruct (replicate e.2).
Qed.

Lemma last_stated_elem {B C} (g : B -> option C) l v : last_stated g l = Some v -> exists x, x ∈ l /\ g x = Some v.
Proof.
  induction l as [|x l IH] using rev_ind; [done|]. unfold last_stated. rewrite fold_left_app. cbn. fold (last_stated g l). destruct (g x) as [w|] eqn:Ew; cbn.
  - intros [= ->]. exists x. split; [set_solver|done].
  - intros H. destruct (IH H) as (y & Hy & Hg). exists y. split; [set_solver|done].
Qed.

(** A pattern's exclusion is overridden by name only.  When a matching
    pattern entry excludes a relation, the relation resolves to replicated only
    if an exact entry says so, however narrow or late a pattern that opts it in;
    with no exact entry stating it, it resolves to excluded. *)
Theorem exclusion_needs_exact b own rel partition x :
  x ∈ b_rules b -> applies (partition && negb own) rel x = true -> is_pattern x.1.2 = true -> replicate x.2 = Some false ->
  match replicate (settings_of (with_own_partitions (finish b).1 own) rel partition) with
  | Some true => exists e, e ∈ b_rules b /\ is_pattern e.1.2 = false /\ rel_matches e.1.2 rel = true /\ replicate e.2 = Some true
  | o => o = Some false
  end.
Proof.
  intros Hx Ha Hp Hr. unfold settings_of, merge. cbn [fst own_partitions with_own_partitions rules finish]. set (l := sort_rank _ _ _).
  assert (forall y, y ∈ l <-> y ∈ b_rules b) as Hl by (intros y; unfold l; by rewrite sort_rank_perm). rewrite barred_spec. cbn [barred orb].
  rewrite (proj2 (existsb_exists _ l)) by (exists x; rewrite <-list_elem_of_In, Hl, Ha, Hp, bool_decide_true by done; done).
  cbn [fst set_replicate replicate]. rewrite literal_spec. cbn [literal_replicate]. destruct (last_stated _ l) as [v|] eqn:El; cbn [opt_or]; [|done].
  apply last_stated_elem in El as (e & He & Hv). destruct (applies _ rel e && negb (is_pattern e.1.2)) eqn:Ea; [|done]. apply andb_prop in Ea as [Ea Ep]. destruct v; [|done].
  exists e. split_and!; [by apply Hl|by apply negb_true_iff|unfold applies in Ea; by apply andb_prop in Ea as [? _]|done].
Qed.

End Rules.

(** ** An instance: globs are prefixes *)
#[local] Instance prefix_crates : PatternCrates :=
  MkCrates (list Z) (fun p => Some p) (fun p s => bool_decide (p `prefix_of` s)) unit (fun _ => None) (fun _ _ => false).

Definition retarget (t : string) : TableRule := MkRule None no_names None (Some (str t)) None None None None None None None None.
Definition only_replicate (v : bool) : TableRule := MkRule None no_names None None (Some v) None None None None None None None.

Definition demo_builder : TableRulesBuilder :=
  add (next_layer (add (add (add (add new_builder (str "", str "") Glob (retarget "broad")) (str "public", str "ev") Glob (only_replicate false))
    (str "public", str "ev") Glob (retarget "narrow")) (str "public", str "events") Exact (only_replicate true)))
    (str "public", str "ev") Glob (retarget "later").

Lemma narrowest_entry_wins_witness :
  target_table (settings_of (with_own_partitions (finish demo_builder).1 false) (str "public", str "events") false) = Some (str "later") /\
  replicate (settings_of (with_own_partitions (finish demo_builder).1 false) (str "public", str "events") false) = Some true.
Proof.
  split; [|reflexivity]. eapply (narrowest_entry_wins target_table (fun _ _ => eq_refl) demo_builder false (str "public", str "events") false (List.last (b_rules demo_builder) (0, MkRelMatcher ([], []) Exact (LiteralName []) (LiteralName []), default_rule)));
    [reflexivity|reflexivity|apply list_elem_of_In; vm_compute; tauto|reflexivity|reflexivity|].
  intros e' He'. apply list_elem_of_In in He'. vm_compute in He'. destruct He' as [<-|[<-|[<-|[<-|[<-|[]]]]]]; vm_compute; auto. intros _ Hn. by destruct Hn.
Defined.

Lemma exclusion_needs_exact_witness : exists e : Z * RelMatcher * TableRule, e ∈ b_rules demo_builder /\ is_pattern e.1.2 = false.
Proof.
  pose proof (exclusion_needs_exact demo_builder false (str "public", str "events") false (0, MkRelMatcher (str "public", str "ev") Glob (GlobName (str "public")) (GlobName (str "ev")), only_replicate false)
    ltac:(apply list_elem_of_In; vm_compute; tauto) eq_refl eq_refl eq_refl) as H. destruct H as (e & He & Hp & _). by exists e.
Defined.

End TableRules.

Module ColumnRules.
Import SystemColumns Rank TableRules.

(** Replacement for a source value the destination cannot hold. *)
Inductive Substitute := Reject | SubNull | Min | Max | Literal (s : list Z).

(** [str::split_once('.')]. *)
Fixpoint split_point (l : list Z) : option (list Z * list Z) :=
  match l with
  | [] => None
  | b :: l => if b =? 46 then Some ([], l) else let* p := split_point l in Some (b :: p.1, p.2)
  end.

(** Integer and fraction digits: an optional minus, digits, and at most one point
    with digits after it; at least one digit. *)
Definition decimal_parts (s : list Z) : option (list Z * list Z) :=
  let body := match s with 45 :: rest => rest | _ => s end in
  let '(int, frac) := default (body, []) (split_point body) in
  if negb (bool_decide (int = [] /\ frac = [])) && forallb Text.is_digit (int ++ frac) then Some (int, frac) else None.

Definition parse_substitute (s : list Z) : option Substitute :=
  if bool_decide (s = str "reject") then Some Reject
  else if bool_decide (s = str "null") then Some SubNull
  else if bool_decide (s = str "min") then Some Min
  else if bool_decide (s = str "max") then Some Max
  else if is_some (decimal_parts s) then Some (Literal s)
  else None.

Record ColumnRule := MkColumnRule
  { target_name : option (list Z); target_type : option (list Z); nan : option Substitute; pos_inf : option Substitute; neg_inf : option Substitute }.

Definition default_column_rule : ColumnRule := MkColumnRule None None None None None.

Definition overlay_column (a b : ColumnRule) : ColumnRule :=
  MkColumnRule (set_if (target_name a) (target_name b)) (set_if (target_type a) (target_type b)) (set_if (nan a) (nan b))
    (set_if (pos_inf a) (pos_inf b)) (set_if (neg_inf a) (neg_inf b)).

Section Columns.
Context `{PC : PatternCrates}.

Record ColumnMatcher := MkColumnMatcher { cm_rel : RelMatcher; att_kind : MatchKind; cm_attname : NamePattern; attname_src : list Z }.

Definition compile_column (rel : RelName) (rel_kind : MatchKind) (attname : list Z) (att_kind : MatchKind) : option ColumnMatcher :=
  let* m := compile_rel rel rel_kind in
  let* p := compile_pattern att_kind attname in
  Some (MkColumnMatcher m att_kind p attname).

Definition column_matches (m : ColumnMatcher) (rel : RelName) (attname : list Z) : bool := rel_matches (cm_rel m) rel && is_match (cm_attname m) attname.

(** [(bool, usize, &str, &str, &str)]. *)
Definition ColumnRank : Type := bool * (Z * (list Z * list Z * list Z)).

Definition column_rank (m : ColumnMatcher) : ColumnRank :=
  (negb (is_pattern (cm_rel m)) && bool_decide (att_kind m = Exact), (width (cm_rel m) + zlen (attname_src m), (src (cm_rel m), attname_src m))).

Definition column_rank_cmp : ColumnRank -> ColumnRank -> comparison :=
  pair_cmp bool_cmp (pair_cmp Z.compare (pair_cmp (pair_cmp (list_cmp Z.compare) (list_cmp Z.compare)) (list_cmp Z.compare))).

(** The ranked rules; the types accepted for runtime rows are not consulted here. *)
Definition ColumnRules : Type := list (ColumnMatcher * ColumnRule).

Definition column_settings (rs : ColumnRules) (rel : RelName) (attname : list Z) : ColumnRule :=
  fold_left (fun acc e => if column_matches e.1 rel attname then overlay_column acc e.2 else acc) rs default_column_rule.

Record ColumnRulesBuilder := MkColumnBuilder { cb_rules : list (Z * ColumnMatcher * ColumnRule); cb_layer : Z; cb_rejections : Z }.

Definition new_columns : ColumnRulesBuilder := MkColumnBuilder [] 0 0.

Definition next_column_layer (b : ColumnRulesBuilder) : ColumnRulesBuilder := MkColumnBuilder (cb_rules b) (cb_layer b + 1) (cb_rejections b).

Definition add_column (b : ColumnRulesBuilder) (rel : RelName) (rel_kind : MatchKind) (attname : list Z) (att_kind : MatchKind) (rule : ColumnRule) : ColumnRulesBuilder :=
  match compile_column rel rel_kind attname att_kind with
  | Some m => MkColumnBuilder (cb_rules b ++ [(cb_layer b, m, rule)]) (cb_layer b) (cb_rejections b)
  | None => MkColumnBuilder (cb_rules b) (cb_layer b) (cb_rejections b + 1)
  end.

Definition column_key (e : Z * ColumnMatcher * ColumnRule) : ColumnRank * Z := (column_rank e.1.2, e.1.1).
Definition column_cmp : ColumnRank * Z -> ColumnRank * Z -> comparison := pair_cmp column_rank_cmp Z.compare.

Definition finish_columns (b : ColumnRulesBuilder) : ColumnRules * Z :=
  (map (fun e => (e.1.2, e.2)) (sort_rank column_key column_cmp (cb_rules b)), cb_rejections b).

#[global] Instance column_strict : StrictCmp column_cmp.
Proof. apply _. Qed.

Section Field.
Context {A : Type} (f : ColumnRule -> option A).
Hypothesis f_overlay : forall a b, f (overlay_column a b) = set_if (f a) (f b).

Lemma column_field rel attname l acc :
  f (fold_left (fun acc (e : ColumnMatcher * ColumnRule) => if column_matches e.1 rel attname then overlay_column acc e.2 else acc) (map (fun e => (e.1.2, e.2)) l) acc) =
  opt_or (last_stated (fun e : Z * ColumnMatcher * ColumnRule => if column_matches e.1.2 rel attname then f e.2 else None) l) (f acc).
Proof.
  revert acc. induction l as [|e l IH]; intros acc; [done|]. unfold last_stated. cbn [map fold_left]. rewrite IH, last_stated_acc. destruct (last_stated _ l) as [v|]; [done|]. cbn [opt_or fst snd].
  destruct (column_matches e.1.2 rel attname); [|done]. rewrite f_overlay. by destruct (f e.2).
Qed.

(** A column's settings hold, field by field, the value of the matching entry
    that ranks highest. *)
Lemma narrowest_column_wins b rel attname e v :
  f default_column_rule = None -> e ∈ cb_rules b -> column_matches e.1.2 rel attname = true -> f e.2 = Some v ->
  (forall e', e' ∈ cb_rules b -> column_matches e'.1.2 rel attname = true -> f e'.2 <> None -> e' = e \/ column_cmp (column_key e') (column_key e) = Lt) ->
  f (column_settings (finish_columns b).1 rel attname) = Some v.
Proof.
  intros Hd He Ha Hv Hall. unfold column_settings. cbn [fst finish_columns]. rewrite column_field, Hd. rewrite (last_stated_wins _ column_key column_cmp _ e v); [done|apply sort_rank_sorted; apply _| |by rewrite Ha|].
  - by rewrite sort_rank_perm.
  - intros e' He' Hn. rewrite sort_rank_perm in He'. cbn beta in Hn. destruct (column_matches e'.1.2 rel attname) eqn:Ea; [by apply Hall|done].
Qed.

End Field.
End Columns.
End ColumnRules.
