(* ===== verification/TablePlan.v ===== *)
(** * Routes and the encoder's plan ([src/emit/route.rs], the plan half of
      [src/emit/ch_emitter.rs])

    A route freezes a relation's mapping and rules; partitions take their root's
    columns by name.  The plan parses every destination type once and settles
    how each column is encoded and what replaces its non-finite values. *)
From Stdlib Require Import String.
From S2P Require Import Prelude Text WalRecord AsciiBuf Numeric Decimal HeapDecode Rules.
Import Schema HeapDecode.

Module Route.
Import SystemColumns TableRules ColumnRules.

Record TableTarget := MkTarget { instance : option (list Z); database : list Z; table : list Z }.

Record ColumnMapping := MkColumn { src_attnum : Z; col_name : list Z; col_type : list Z; type_pinned : bool }.

Record TableMapping := MkMapping { target : TableTarget; map_columns : list ColumnMapping; tees : list Tee }.

Definition named_instance (name : list Z) : option (list Z) := if bool_decide (name = str "default") then None else Some name.

(** [Tee::target]. *)
Definition tee_target (primary : TableTarget) (t : Tee) : TableTarget :=
  MkTarget (match t_instance t with Some n => named_instance n | None => instance primary end) (default (database primary) (t_database t)) (t_table t).

Definition targets (m : TableMapping) : list TableTarget := target m :: map (tee_target (target m)) (tees m).

(** [` doubled inside backquotes]. *)
Definition quote_ident (name : list Z) : list Z := [96] ++ flat_map (fun b => if b =? 96 then [96; 96] else [b]) name ++ [96].

Definition target_sql (t : TableTarget) : list Z := quote_ident (database t) ++ [46] ++ quote_ident (table t).

Definition live_attnum (d : RelDescriptor) (name : list Z) : option Z :=
  attnum <$> List.find (fun a => negb (dropped a) && bool_decide (attname a = name)) (attributes d).

Definition live_attr (d : RelDescriptor) (n : Z) : option RelAttr :=
  List.find (fun a => negb (dropped a) && (attnum a =? n)) (attributes d).

Section Route.
Context `{PC : PatternCrates}.

Record PartitionOf := MkPartition { root : RelName; leaf_oid : Z; shared : bool }.

(** The row policy is its system columns; [soft_delete] is not read here. *)
Record RouteSnapshot := MkRoute { mapping : TableMapping; column_rules : ColumnRules; system_of : SystemColumns; partition : option PartitionOf }.

Inductive Routing := Own | Ancestor (root : RelDescriptor) | Excluded.

Definition routing_owner (r : Routing) (desc : RelDescriptor) : option RelDescriptor :=
  match r with Own => Some desc | Ancestor root => Some root | Excluded => None end.

(** The loop of [routing] over the partition and its ancestors below the top. *)
Fixpoint route_below (rules : TableRules) (below : list (RelName * option RelDescriptor)) : option Routing :=
  match below with
  | [] => None
  | (name, node) :: below =>
      if bool_decide (replicate (exact_settings rules name) = Some false) then Some Excluded
      else if bool_decide (route (partition_settings rules name) = Some Self_) then Some (match node with Some d => Ancestor d | None => Own end)
      else route_below rules below
  end.

Definition routing (desc : RelDescriptor) (rules : option TableRules) : Routing :=
  if match rules with Some r => own_partitions r | None => false end then Own
  else
    match list.last (ancestors desc) with
    | None => Own
    | Some top =>
        match rules with
        | None => Ancestor top
        | Some r =>
            let below := (rel_name desc, None) :: map (fun a => (rel_name a, Some a)) (removelast (ancestors desc)) in
            default (Ancestor top) (route_below r below)
        end
    end.

Definition partition_column (root leaf : RelDescriptor) (c : ColumnMapping) : ColumnMapping :=
  MkColumn (default 0 (let* a := live_attr root (src_attnum c) in live_attnum leaf (attname a))) (col_name c) (col_type c) (type_pinned c).

Definition partition_mapping (m : TableMapping) (root leaf : RelDescriptor) : TableMapping :=
  MkMapping (target m) (map (partition_column root leaf) (map_columns m)) (tees m).

Definition for_partition (r : RouteSnapshot) (root leaf : RelDescriptor) : RouteSnapshot :=
  MkRoute (partition_mapping (mapping r) root leaf) (column_rules r) (system_of r) (Some (MkPartition (rel_name root) (oid leaf) true)).

Definition route_via (desc : RelDescriptor) (rules : option TableRules) (lookup : RelName -> option RouteSnapshot) : option RouteSnapshot :=
  match routing desc rules with
  | Own => lookup (rel_name desc)
  | Ancestor root => (fun r => for_partition r root desc) <$> lookup (rel_name root)
  | Excluded => None
  end.

Definition freeze (m : TableMapping) (rules : ColumnRules) (system : SystemColumns) : RouteSnapshot := MkRoute m rules system None.

Definition with_partition (r : RouteSnapshot) (p : PartitionOf) : RouteSnapshot := MkRoute (mapping r) (column_rules r) (system_of r) (Some p).

Definition owner (r : RouteSnapshot) (rel : RelName) : RelName := match partition r with Some p => root p | None => rel end.

Definition batch_owner (r : RouteSnapshot) (rel : RelName) : RelName :=
  match partition r with Some p => if shared p then root p else rel | None => rel end.

(** [FrozenRoutes], its memo a map by partition oid. *)
Record FrozenRoutes := MkFrozen
  { owned : gmap (list Z * list Z) RouteSnapshot; frozen_rules : option TableRules; pinned : gmap (list Z * list Z) RouteSnapshot;
    partitions : gmap Z (option RouteSnapshot) }.

Definition frozen_route (f : FrozenRoutes) (desc : RelDescriptor) : option RouteSnapshot * FrozenRoutes :=
  match pinned f !! rel_name desc with
  | Some r => (Some r, f)
  | None =>
      if negb (is_partition desc) then (owned f !! rel_name desc, f)
      else
        match partitions f !! oid desc with
        | Some r => (r, f)
        | None =>
            let r := route_via desc (frozen_rules f) (fun name => owned f !! name) in
            (r, MkFrozen (owned f) (frozen_rules f) (pinned f) (<[oid desc := r]> (partitions f)))
        end
  end.

(** ** A partition tree lands together *)
Definition with_ancestors (d : RelDescriptor) (l : list RelDescriptor) : RelDescriptor :=
  MkDesc (drfn d) (oid d) (toast_oid d) (namespace_oid d) (rel_name d) (kind d) (persistence d) (replident d) (attributes d) l.

(** No rule decides at this relation. *)
Definition passed (rules : TableRules) (a : RelDescriptor) : Prop :=
  replicate (exact_settings rules (rel_name a)) <> Some false /\ route (partition_settings rules (rel_name a)) <> Some Self_.

Definition node (a : RelDescriptor) : RelName * option RelDescriptor := (rel_name a, Some a).

Lemma route_below_passed rules l below : Forall (passed rules) l -> route_below rules (map node l ++ below) = route_below rules below.
Proof. induction 1 as [|a l [H1 H2] _ IH]; [done|]. cbn [map app route_below node]. by rewrite !bool_decide_false. Qed.

Lemma route_below_ancestor rules l root : route_below rules (map node l) = Some (Ancestor root) ->
  exists pre post, l = pre ++ root :: post /\ Forall (passed rules) pre /\ replicate (exact_settings rules (rel_name root)) <> Some false /\
    route (partition_settings rules (rel_name root)) = Some Self_.
Proof.
  induction l as [|a l IH]; cbn [map route_below node]; [done|]. case_bool_decide as He; [done|]. case_bool_decide as Hs; [intros [= <-]; by exists [], l|].
  intros H. destruct (IH H) as (pre & post & -> & HF & H1 & H2). exists (a :: pre), post. split_and!; [done|by constructor|done|done].
Qed.

Lemma route_below_none rules l : route_below rules (map node l) = None -> Forall (passed rules) l.
Proof. induction l as [|a l IH]; cbn [map route_below node]; [constructor|]. case_bool_decide; [done|]. case_bool_decide; [done|]. intros Hn. constructor; [done|by apply IH]. Qed.

(** [routing] as the loop from the relation itself. *)
Lemma routing_top desc rules init top : ancestors desc = init ++ [top] -> own_partitions rules = false ->
  routing desc (Some rules) = default (Ancestor top) (route_below rules ((rel_name desc, None) :: map node init)).
Proof. intros Ha Ho. unfold routing. rewrite Ho, Ha, last_snoc, removelast_last. done. Qed.

(** Where a partition's rows go is where its root's and its intermediate
    relations' go. *)
Lemma routing_ancestor desc rules root : routing desc rules = Ancestor root ->
  exists pre above, ancestors desc = pre ++ root :: above /\ routing (with_ancestors root above) rules = Own /\
    forall p1 a p2, pre = p1 ++ a :: p2 -> routing (with_ancestors a (p2 ++ root :: above)) rules = Ancestor root.
Proof.
  destruct rules as [rules|].
  2:{ unfold routing. destruct (ancestors desc) as [|top init _] using rev_ind; [done|]. rewrite last_snoc. intros [= <-]. exists init, []. split_and!; [done|done|].
      intros p1 a p2 _. change (ancestors (with_ancestors a (p2 ++ [top]))) with (p2 ++ [top]). by rewrite last_snoc. }
  destruct (own_partitions rules) eqn:Eo; [unfold routing; by rewrite Eo|]. destruct (ancestors desc) as [|top init _] eqn:Ea using rev_ind; [unfold routing; by rewrite Eo, Ea|].
  rewrite (routing_top _ _ _ _ Ea Eo). cbn [route_below]. case_bool_decide as He; [done|]. case_bool_decide as Hs; [done|]. destruct (route_below rules (map node init)) as [r|] eqn:Er; cbn.
  - intros ->. destruct (route_below_ancestor _ _ _ Er) as (pre & post & -> & HF & H1 & H2). exists pre, (post ++ [top]). split_and!; [by rewrite <-app_assoc| |].
    + rewrite (routing_top _ _ post top) by done. cbn [route_below with_ancestors rel_name]. by rewrite bool_decide_false, bool_decide_true.
    + intros p1 a p2 ->. apply Forall_app in HF as [_ [[Ha1 Ha2] HF]%Forall_cons_1]. rewrite (routing_top _ _ (p2 ++ root :: post) top) by (done || by rewrite <-app_assoc).
      cbn [route_below with_ancestors rel_name]. rewrite !bool_decide_false by done. rewrite map_app, route_below_passed by done. cbn [map route_below node]. by rewrite bool_decide_false, bool_decide_true.
  - intros [= <-]. pose proof (route_below_none _ _ Er) as HF. exists init, []. split_and!; [done| |].
    + unfold routing. by rewrite Eo.
    + intros p1 a p2 ->. apply Forall_app in HF as [_ [[Ha1 Ha2] HF]%Forall_cons_1]. rewrite (routing_top _ _ p2 top) by done. cbn [route_below with_ancestors rel_name].
      rewrite !bool_decide_false by done. pose proof (route_below_passed rules p2 [] HF) as E. rewrite app_nil_r in E. by rewrite E.
Qed.

(** A partition tree lands together.  A partition routed to an ancestor
    writes to that ancestor's destination, under its batch key, with its columns
    in its order, its column rules and its system columns; the ancestor's own
    rows and those of every relation between go to the same place. *)
Theorem partition_shares_root desc rules lookup root r :
  routing desc rules = Ancestor root -> lookup (rel_name root) = Some r -> partition r = None ->
  exists r' pre above, route_via desc rules lookup = Some r' /\ ancestors desc = pre ++ root :: above /\
    route_via (with_ancestors root above) rules lookup = Some r /\
    (forall p1 a p2, pre = p1 ++ a :: p2 -> routing (with_ancestors a (p2 ++ root :: above)) rules = Ancestor root) /\
    batch_owner r' (rel_name desc) = batch_owner r (rel_name root) /\ owner r' (rel_name desc) = owner r (rel_name root) /\
    targets (mapping r') = targets (mapping r) /\ column_rules r' = column_rules r /\ system_of r' = system_of r /\
    map (fun c => (col_name c, col_type c)) (map_columns (mapping r')) = map (fun c => (col_name c, col_type c)) (map_columns (mapping r)).
Proof.
  intros Hr Hl Hp. destruct (routing_ancestor _ _ _ Hr) as (pre & above & Ha & Hroot & Hbetween). exists (for_partition r root desc), pre, above.
  unfold route_via. rewrite Hr, Hroot, Hl. unfold batch_owner, owner. rewrite Hp. split_and!; try done. cbn. by rewrite map_map.
Qed.

End Route.

#[local] Existing Instance prefix_crates.

Definition demo_desc (name : string) (anc : list RelDescriptor) : RelDescriptor :=
  MkDesc (WalRecord.MkRfn 0 0 0) 1 0 0 (str "public", str name) 114 112 NothingIdent [MkAttr 1 (str "id") 23 (-1) false false (str "int4") true 4 105 112 None] anc.

Definition demo_route : RouteSnapshot := freeze (MkMapping (MkTarget None (str "db") (str "m")) [MkColumn 1 (str "id") (str "Int32") false] []) [] default_columns.

Lemma partition_shares_root_witness : exists r', route_via (demo_desc "a1" [demo_desc "a" []; demo_desc "m" []]) None (fun _ => Some demo_route) = Some r' /\
  batch_owner r' (str "public", str "a1") = (str "public", str "m").
Proof.
  destruct (partition_shares_root (demo_desc "a1" [demo_desc "a" []; demo_desc "m" []]) None (fun _ => Some demo_route) (demo_desc "m" []) demo_route eq_refl eq_refl eq_refl)
    as (r' & pre & above & H1 & _ & _ & _ & H5 & _). exists r'. split; [exact H1|exact H5].
Defined.

End Route.

Module TablePlan.
Import SystemColumns TableRules ColumnRules Route Decimal.

(** The kinds the emitter tells apart, and the rest by number. *)
Inductive Kind :=
| KNullable | KString | KJson | KDate32 | KDateTime64 | KTime64
| KDecimal32 | KDecimal64 | KDecimal128 | KDecimal256 | KInt32 | KInt64 | KInt128 | KInt256
| KArray | KMap | KObject | KQBit | KOther (n : Z).

#[global] Instance kind_eq_dec : EqDecision Kind.
Proof. solve_decision. Defined.

(** The ClickHouse client's type parser and its accessors. *)
Class TypeViews := MkViews
  { TypeAst : Type; parse_type : list Z -> option TypeAst; ast_kind : TypeAst -> option Kind; ast_child : TypeAst -> nat -> option TypeAst;
    elem_size : TypeAst -> Z; decimal_precision : TypeAst -> Z; decimal_scale : TypeAst -> Z; datetime64_scale : TypeAst -> Z;
    ast_name : TypeAst -> option (list Z) }.

Inductive TypeMsg := Unparsed (t : list Z) | FixedWidth (expected got : Z) | BadScale | BadTemporalPrecision | RowTooLarge (bytes : Z).

Inductive ConfigMsg := TemporalMismatch | BadPrecision | NullNeedsNullable | TemporalOnlyNull | TooManyFraction | ExceedsPrecision | NeedsLocal.

Inductive UnsupportedKind :=
| FixedIntoString | StringIntoFixed | TemporalInfinity | DateOverflow | TemporalOverflow | NonFiniteDecimal | UnresolvedToast | UnresolvedSource
| DecimalRange | DecodedOnOracle | OtherSourceType.

(** [EmitterError], the variants the encoder returns; [Panic] is an index out
    of range. *)
Inductive EmitterError :=
| TypeError (m : TypeMsg)
| ConfigError (column : list Z) (m : ConfigMsg)
| UnsupportedValue (target_column : list Z) (kind : UnsupportedKind)
| Panic.

Record DecimalWire := MkWire { scale : Z; wire_width : DecimalWidth }.

Inductive WireShape := ShapeFixed (w : Z) | ShapeStr.

Inductive ColumnEncoding := Local | OracleEnc (source_type_oid source_typmod : Z).

#[global] Instance encoding_eq_dec : EqDecision ColumnEncoding.
Proof. solve_decision. Defined.

(** Values that replace non-finite ones; [None] rejects. *)
Record NonFinite := MkNonFinite { nf_nan : option ColumnValue; nf_pos_inf : option ColumnValue; nf_neg_inf : option ColumnValue }.

Definition no_substitutes : NonFinite := MkNonFinite None None None.

Definition I32_MIN : Z := - 2 ^ 31.
Definition I32_MAX : Z := 2 ^ 31 - 1.
Definition I64_MIN : Z := - 2 ^ 63.
Definition I64_MAX : Z := 2 ^ 63 - 1.

Definition or_same (v : ColumnValue) (sub : option ColumnValue) : ColumnValue := default v sub.

Definition infinity_of (n : NonFinite) (v : ColumnValue) (lo hi x : Z) : ColumnValue :=
  if x =? hi then or_same v (nf_pos_inf n) else if x =? lo then or_same v (nf_neg_inf n) else v.

Definition substitute (n : NonFinite) (v : ColumnValue) : ColumnValue :=
  match v with
  | NumericVal Numeric.NaN => or_same v (nf_nan n)
  | NumericVal Numeric.PInf => or_same v (nf_pos_inf n)
  | NumericVal Numeric.NInf => or_same v (nf_neg_inf n)
  | Date d => infinity_of n v I32_MIN I32_MAX d
  | Timestamp t => infinity_of n v I64_MIN I64_MAX t
  | TimestampTz t => infinity_of n v I64_MIN I64_MAX t
  | _ => v
  end.

Section Plan.
Context `{TV : TypeViews} `{PC : PatternCrates}.

(** [types::strip_nullable] of [src/ch/types.rs]. *)
Definition strip_nullable (view : TypeAst) : TypeAst :=
  if bool_decide (ast_kind view = Some KNullable) then default view (ast_child view 0) else view.

Definition kind_is (ast : TypeAst) (ks : list Kind) : bool := match ast_kind ast with Some k => bool_decide (k ∈ ks) | None => false end.

Definition decimal_wire_of (ast : TypeAst) : option DecimalWire :=
  let inner := strip_nullable ast in
  let* k := ast_kind inner in
  let* w := match k with KDecimal32 => Some D32 | KDecimal64 => Some D64 | KDecimal128 => Some D128 | KDecimal256 => Some D256 | _ => None end in
  if bool_decide (0 <= decimal_scale inner < 256) then Some (MkWire (decimal_scale inner) w) else None.

Definition wire_shape_of (ast : TypeAst) : option (WireShape * Kind) :=
  let inner := strip_nullable ast in
  let shape := if elem_size inner =? 0 then ShapeStr else ShapeFixed (elem_size inner) in
  let* k := ast_kind inner in Some (shape, k).

Definition temporal (k : option Kind) : bool := bool_decide (k ∈ [Some KDate32; Some KDateTime64; Some KTime64]).

Definition override_wire (dflt over : TypeAst) : option (option DecimalWire) :=
  let source_kind := ast_kind (strip_nullable dflt) in
  let target_kind := ast_kind (strip_nullable over) in
  if temporal source_kind || temporal target_kind then (if bool_decide (source_kind = target_kind) then Some None else None)
  else if is_some (decimal_wire_of dflt) then
    match decimal_wire_of over with
    | Some w => Some (Some w)
    | None =>
        let* sk := wire_shape_of over in
        match sk with
        | (ShapeStr, _) => Some None
        | (ShapeFixed _, KInt32) => Some (Some (MkWire 0 D32))
        | (ShapeFixed _, KInt64) => Some (Some (MkWire 0 D64))
        | (ShapeFixed _, KInt128) => Some (Some (MkWire 0 D128))
        | (ShapeFixed _, KInt256) => Some (Some (MkWire 0 D256))
        | _ => None
        end
    end
  else
    let* a := wire_shape_of dflt in
    let* b := wire_shape_of over in
    match a.1, b.1 with
    | ShapeStr, ShapeStr => Some None
    | ShapeFixed x, ShapeFixed y => if (x =? y) && negb (is_some (decimal_wire_of over)) then Some None else None
    | _, _ => None
    end.

Definition composite_target (ast : TypeAst) : bool := kind_is (strip_nullable ast) [KArray; KMap; KObject; KQBit].

Definition choose (att : option RelAttr) (ast : TypeAst) : ColumnEncoding :=
  match att with
  | None => if composite_target ast then OracleEnc 0 (-1) else Local
  | Some a => if composite_target ast || negb (local_matrix_covers (type_oid a) (type_len a)) then OracleEnc (type_oid a) (typmod a) else Local
  end.

Definition canonical_type (ast : TypeAst) (configured : list Z) : list Z :=
  match ast_name ast with Some b => if Text.valid_utf8 b then b else configured | None => configured end.

(** The bound of [Decimal(precision, scale)]: nines before and after the point. *)
Definition decimal_bound (precision scale : Z) : list Z := zrep (precision - scale) 57 ++ [46] ++ zrep scale 57.

(** [trim_start_matches('0')]. *)
Fixpoint trim_zeros (l : list Z) : list Z :=
  match l with
  | 48 :: l => trim_zeros l
  | _ => l
  end.

(** [cell] of [NonFinite::compile]. *)
Definition compile_cell (nullable : bool) (decimal : option DecimalWire) (precision scale : Z) (sub : option Substitute)
    : result ConfigMsg (option ColumnValue) :=
  let finite (text : list Z) :=
    let '(int, frac) := default ([], []) (decimal_parts text) in
    if (scale <? zlen frac) && existsb (fun b => negb (b =? 48)) (zdrop scale frac) then Err TooManyFraction
    else if precision <? zlen (trim_zeros int) + scale then Err ExceedsPrecision
    else Ok (Some (NumericVal (Numeric.Finite text))) in
  match sub with
  | None | Some Reject => Ok None
  | Some SubNull => if nullable then Ok (Some Null) else Err NullNeedsNullable
  | Some other =>
      if negb (is_some decimal) then Err TemporalOnlyNull
      else
        match other with
        | Min => finite ([45] ++ decimal_bound precision scale)
        | Max => finite (decimal_bound precision scale)
        | Literal lit => finite lit
        | _ => Ok None
        end
  end.

Definition compile (rule : ColumnRule) (ast : TypeAst) : result ConfigMsg NonFinite :=
  let nullable := bool_decide (ast_kind ast = Some KNullable) in
  let inner := strip_nullable ast in
  let decimal := decimal_wire_of ast in
  if negb (is_some decimal) && negb (kind_is inner [KDate32; KDateTime64]) then Ok no_substitutes
  else if decimal_precision inner <? 0 then Err BadPrecision
  else
    let precision := decimal_precision inner in
    let scale := match decimal with Some w => scale w | None => 0 end in
    let cell := compile_cell nullable decimal precision scale in
    let? nan := (if is_some decimal then cell (nan rule) else Ok None) in
    let? pos_inf := cell (pos_inf rule) in
    let? neg_inf := cell (neg_inf rule) in
    Ok (MkNonFinite nan pos_inf neg_inf).

(** ** The plan *)
Record ColumnPlan := MkColumnPlan
  { cp_name : list Z; type_repr : list Z; ast : TypeAst; decimal : option DecimalWire; dt_scale : Z; non_finite : NonFinite; encoding : ColumnEncoding }.

Record InsertQuery := MkInsert { q_instance : option (list Z); sql : list Z }.

Record TablePlan := MkPlan
  { plan_columns : list ColumnPlan; synth_lsn : ColumnPlan; synth_xid : ColumnPlan; synth_commit_ts : ColumnPlan;
    synth_is_deleted : option ColumnPlan; synth_leaf : option ColumnPlan; inserts : list InsertQuery }.

(** A column's plan under [ast], before its substitutions. *)
Definition plan_with (c : ColumnMapping) (att : option RelAttr) (ast : TypeAst) (configured : list Z) (decimal : option DecimalWire) : ColumnPlan :=
  MkColumnPlan (col_name c) (canonical_type ast configured) ast decimal (datetime64_scale (strip_nullable ast)) no_substitutes (choose att ast).

(** The type an operator's rule replaces the mapped one with, kept only when
    it parses and is wire-compatible. *)
Definition overridden (c : ColumnMapping) (att : option RelAttr) (plan : ColumnPlan) (ty : option (list Z)) : ColumnPlan :=
  match ty with
  | None => plan
  | Some ty =>
      match parse_type ty with
      | None => plan
      | Some oast => match override_wire (ast plan) oast with Some d => plan_with c att oast ty d | None => plan end
      end
  end.

Definition source_temporal (att : option RelAttr) : option Kind :=
  let* a := att in
  if type_oid a =? DATEOID then Some KDate32
  else if (type_oid a =? TIMESTAMPOID) || (type_oid a =? TIMESTAMPTZOID) then Some KDateTime64
  else None.

Definition set_non_finite (p : ColumnPlan) (n : NonFinite) : ColumnPlan :=
  MkColumnPlan (cp_name p) (type_repr p) (ast p) (decimal p) (dt_scale p) n (encoding p).

(** [plan.non_finite != NonFinite::default()]. *)
Definition has_substitutes (n : NonFinite) : bool := is_some (nf_nan n) || is_some (nf_pos_inf n) || is_some (nf_neg_inf n).

Definition build_column (rel : RelDescriptor) (owner : RelName) (rules : ColumnRules) (c : ColumnMapping) : result EmitterError ColumnPlan :=
  let att := List.find (fun a => (attnum a =? src_attnum c) && negb (dropped a)) (attributes rel) in
  let? ast0 := ok_or (parse_type (col_type c)) (TypeError (Unparsed (col_type c))) in
  let settings := match att with Some a => column_settings rules owner (attname a) | None => default_column_rule end in
  let plan := overridden c att (plan_with c att ast0 (col_type c) (decimal_wire_of ast0)) (target_type settings) in
  if bool_decide (encoding plan = Local) && is_some (source_temporal att) && negb (bool_decide (ast_kind (strip_nullable (ast plan)) = source_temporal att)) then
    Err (ConfigError (col_name c) TemporalMismatch)
  else
    match compile settings (ast plan) with
    | Err e => Err (ConfigError (col_name c) e)
    | Ok nf =>
        if negb (bool_decide (encoding plan = Local)) && has_substitutes nf then Err (ConfigError (col_name c) NeedsLocal)
        else Ok (set_non_finite plan nf)
    end.

Fixpoint build_columns (rel : RelDescriptor) (owner : RelName) (rules : ColumnRules) (cs : list ColumnMapping) : result EmitterError (list ColumnPlan) :=
  match cs with
  | [] => Ok []
  | c :: cs => let? p := build_column rel owner rules c in let? ps := build_columns rel owner rules cs in Ok (p :: ps)
  end.

Definition synth (name ty : list Z) : result EmitterError ColumnPlan :=
  let? a := ok_or (parse_type ty) (TypeError (Unparsed ty)) in Ok (MkColumnPlan name ty a None 0 no_substitutes Local).

Definition synth_opt (name : option (list Z)) (ty : list Z) : result EmitterError (option ColumnPlan) :=
  match name with None => Ok None | Some n => let? p := synth n ty in Ok (Some p) end.

(** [join(", ")]. *)
Fixpoint join (sep : list Z) (l : list (list Z)) : list Z :=
  match l with [] => [] | [x] => x | x :: l => x ++ sep ++ join sep l end.

Definition insert_sql (columns : list (list Z)) (t : TableTarget) : list Z :=
  str "INSERT INTO " ++ target_sql t ++ str " (" ++ join (str ", ") (map quote_ident columns) ++ str ") FORMAT Native".

Definition build_owned (rel : RelDescriptor) (owner : RelName) (m : TableMapping) (rules : ColumnRules) (system : SystemColumns) (leaf : option (list Z))
    : result EmitterError TablePlan :=
  let? columns := build_columns rel owner rules (map_columns m) in
  let? s_lsn := synth (lsn system) (str "UInt64") in
  let? s_xid := synth (SystemColumns.xid system) (str "UInt32") in
  let? s_ts := synth (SystemColumns.commit_ts system) (str "DateTime64(6, 'UTC')") in
  let? s_del := synth_opt (SystemColumns.is_deleted system) (str "Bool") in
  let? s_leaf := synth_opt leaf (str "UInt32") in
  let names := map col_name (map_columns m) ++ [cp_name s_lsn; cp_name s_xid; cp_name s_ts] ++ map cp_name (option_list s_del) ++ map cp_name (option_list s_leaf) in
  Ok (MkPlan columns s_lsn s_xid s_ts s_del s_leaf (map (fun t => MkInsert (instance t) (insert_sql names t)) (targets m))).

Definition build (rel : RelDescriptor) (m : TableMapping) (rules : ColumnRules) (system : SystemColumns) : result EmitterError TablePlan :=
  build_owned rel (rel_name rel) m rules system None.

Definition for_route (rel : RelDescriptor) (r : RouteSnapshot) : result EmitterError TablePlan :=
  build_owned rel (owner r (rel_name rel)) (mapping r) (column_rules r) (system_of r) (match partition r with Some _ => SystemColumns.leaf (system_of r) | None => None end).

Definition is_oracle (c : ColumnPlan) : bool := match encoding c with OracleEnc _ _ => true | Local => false end.

Definition needs_oracle (p : TablePlan) : bool := existsb is_oracle (plan_columns p).

(** ** Substitutes fit their columns *)
Definition parts_digits (p : list Z * list Z) : list Z := p.1 ++ p.2.

Lemma split_point_some l a b : split_point l = Some (a, b) -> l = a ++ 46 :: b /\ Forall (fun c => c <> 46) a.
Proof.
  revert a b. induction l as [|x l IH]; intros a b; cbn; [done|]. destruct (Z.eqb_spec x 46) as [->|Hx]; [intros [= <- <-]; split; [done|constructor]|].
  destruct (split_point l) as [[a' b']|]; [|done]. intros [= <- <-]. destruct (IH _ _ eq_refl) as [-> HF]. split; [done|by constructor].
Qed.

Lemma split_point_none l : split_point l = None -> Forall (fun c => c <> 46) l.
Proof. induction l as [|x l IH]; cbn; [constructor|]. destruct (Z.eqb_spec x 46) as [->|Hx]; [done|]. destruct (split_point l); [done|]. intros _. constructor; [done|by apply IH]. Qed.

Lemma digits_scan l : forallb Text.is_digit l = true -> forall dot, well_formed dot l = true /\ digits_of l = l /\ fraction dot l = if dot then zlen l else 0.
Proof.
  induction l as [|x l IH]; intros Hd dot; [by destruct dot|]. cbn [forallb] in Hd. apply andb_prop in Hd as [Hx Hd]. destruct (IH Hd dot) as (H1 & H2 & H3).
  assert (digit x = true) as Hx' by exact Hx. assert (x =? 46 = false) as Hp by (unfold digit in Hx'; apply andb_prop in Hx' as [?%Z.leb_le _]; lia). cbn [well_formed fraction]. rewrite Hp, Hx'. cbn [andb].
  unfold digits_of. rewrite filter_cons, decide_True by done. fold (digits_of l). rewrite H2, H3, zlen_cons. split_and!; [done|done|]. destruct dot; lia.
Qed.

Lemma well_formed_app a b : forallb Text.is_digit a = true -> forallb Text.is_digit b = true ->
  well_formed false (a ++ 46 :: b) = true /\ digits_of (a ++ 46 :: b) = a ++ b /\ fraction false (a ++ 46 :: b) = zlen b.
Proof.
  intros Ha Hb. destruct (digits_scan b Hb true) as (B1 & B2 & B3). induction a as [|x a IH]; cbn [app].
  - unfold digits_of in *. rewrite filter_cons, decide_False by done. done.
  - cbn [forallb] in Ha. apply andb_prop in Ha as [Hx Ha]. destruct (IH Ha) as (H1 & H2 & H3). assert (digit x = true) as Hx' by exact Hx.
    assert (x =? 46 = false) as Hp by (unfold digit in Hx'; apply andb_prop in Hx' as [?%Z.leb_le _]; lia). cbn [well_formed fraction]. rewrite Hp, Hx'. cbn [andb].
    unfold digits_of. rewrite filter_cons, decide_True by done. fold (digits_of (a ++ 46 :: b)). rewrite H2. split_and!; [done|done|lia].
Qed.

(** A text [decimal_parts] splits is one the conversion reads, with the same digits. *)
Lemma decimal_parts_scan text int frac : decimal_parts text = Some (int, frac) ->
  let body := match text with 45 :: rest | 43 :: rest => rest | _ => text end in
  well_formed false body = true /\ digits_of body = int ++ frac /\ digits_of body <> [] /\ fraction false body = zlen frac /\ forallb Text.is_digit (int ++ frac) = true.
Proof.
  unfold decimal_parts. set (body := match text with 45 :: rest => rest | _ => text end). destruct (default (body, []) (split_point body)) as [i f] eqn:Es. destruct (_ && _) eqn:Ec; [|done]. intros [= -> ->].
  apply andb_prop in Ec as [Hne%negb_true_iff%bool_decide_eq_false Hd]. pose proof Hd as Hd0. rewrite forallb_app in Hd. apply andb_prop in Hd as [Hi Hf].
  assert (match text with 45 :: rest | 43 :: rest => rest | _ => text end = body) as ->.
  { unfold body. destruct text as [|x text]; [done|]. destruct (decide (x = 43)) as [->|]; [|repeat (destruct x as [|x|x]; try done)]. exfalso. cbn in body. unfold body in Es. cbn in Es.
    destruct (split_point text) as [[a b]|]; cbn in Es; injection Es as <- <-; done. }
  assert (int ++ frac <> []) as Hnn by (intros [-> ->]%app_nil; by apply Hne). destruct (split_point body) as [[a b]|] eqn:Ep; cbn in Es; injection Es as <- <-.
  - apply split_point_some in Ep as [-> _]. destruct (well_formed_app a b Hi Hf) as (H1 & H2 & H3). cbn zeta. rewrite H2. split_and!; done.
  - destruct (digits_scan body Hi false) as (H1 & H2 & H3). cbn zeta. rewrite H2, app_nil_r in *. split_and!; done.
Qed.

Lemma trim_zeros_spec l : append_digits 0 (trim_zeros l) = append_digits 0 l /\ (Forall (fun c => digit c = true) l -> Forall (fun c => digit c = true) (trim_zeros l)).
Proof.
  induction l as [|x l [IH1 IH2]]; [done|]. cbn [trim_zeros]. destruct (decide (x = 48)) as [->|Hx].
  - split; [by rewrite IH1|]. intros [_ HF]%Forall_cons_1. by apply IH2.
  - repeat (destruct x as [|x|x]; try done).
Qed.

(** Zeros below the scale leave the scaled value whole. *)
Lemma zero_digits l : existsb (fun b => negb (b =? 48)) l = false -> append_digits 0 l = 0.
Proof. induction l as [|x l IH]; [done|]. cbn [existsb]. intros [Hx%negb_false_iff%Z.eqb_eq Hl]%orb_false_iff. subst. by apply IH. Qed.

Lemma checked_digits_fit int frac precision scale : 0 <= scale <= precision -> forallb Text.is_digit (int ++ frac) = true ->
  (scale <? zlen frac) && existsb (fun b => negb (b =? 48)) (zdrop scale frac) = false -> zlen (trim_zeros int) + scale <= precision ->
  let n := append_digits 0 (int ++ frac) in
  0 <= n * 10 ^ scale / 10 ^ zlen frac < 10 ^ precision /\ n * 10 ^ scale / 10 ^ zlen frac * 10 ^ zlen frac = n * 10 ^ scale.
Proof.
  intros Hs Hd Hz Hp n. rewrite forallb_app in Hd. apply andb_prop in Hd as [Hi Hf]. assert (forall l, forallb Text.is_digit l = true -> Forall (fun c => digit c = true) l) as Hall.
  { intros l Hl. apply Forall_elem. intros x Hx. exact (proj1 (List.forallb_forall _ _) Hl x (proj1 (list_elem_of_In _ _) Hx)). }
  destruct (trim_zeros_spec int) as [T1 T2]. pose proof (append_digits_bound _ (T2 (Hall _ Hi))) as Bi. rewrite T1 in Bi. pose proof (append_digits_bound _ (Hall _ Hf)) as Bf. pose proof (zlen_nonneg (trim_zeros int)). pose proof (zlen_nonneg frac) as Hlf.
  assert (n = append_digits 0 int * 10 ^ zlen frac + append_digits 0 frac) as En by apply append_digits_app. set (ni := append_digits 0 int) in *. set (nf := append_digits 0 frac) in *.
  assert (10 ^ zlen (trim_zeros int) * 10 ^ scale <= 10 ^ precision) as Hpow by (rewrite <-Z.pow_add_r by lia; apply Z.pow_le_mono_r; lia). assert (0 < 10 ^ scale) by (apply Z.pow_pos_nonneg; lia). assert (0 < 10 ^ zlen frac) by (apply Z.pow_pos_nonneg; lia).
  assert (exists q, n * 10 ^ scale = q * 10 ^ zlen frac) as [q Eq].
  { destruct (Z.ltb_spec scale (zlen frac)) as [Hlt|Hge].
    - pose proof (zero_digits _ Hz) as Ez. pose proof (append_digits_app 0 (ztake scale frac) (zdrop scale frac)) as Es. rewrite ztake_zdrop_id, Ez in Es. fold nf in Es. rewrite zlen_zdrop in Es.
      exists (ni * 10 ^ scale + append_digits 0 (ztake scale frac)). rewrite En, Es, Z.max_r, Z.add_0_r by lia. replace (10 ^ zlen frac) with (10 ^ (zlen frac - Z.max 0 scale) * 10 ^ scale) by (rewrite <-Z.pow_add_r by lia; f_equal; lia). ring.
    - exists (n * 10 ^ (scale - zlen frac)). rewrite <-Z.mul_assoc, <-Z.pow_add_r by lia. do 2 f_equal. lia. }
  rewrite Eq, Z.div_mul by lia. split; [|done]. clear Hz. set (F := 10 ^ zlen frac) in *. set (S := 10 ^ scale) in *. set (I := 10 ^ zlen (trim_zeros int)) in *. clearbody F S I n ni nf.
  assert (0 <= n < I * F) as Hn by nia. assert (0 <= q * F < I * S * F) as Hq by nia. split; [nia|]. eapply Z.lt_le_trans; [|exact Hpow]. nia.
Qed.

Lemma split_point_here a b : Forall (fun c => c <> 46) a -> split_point (a ++ 46 :: b) = Some (a, b).
Proof. induction 1 as [|x a Hx _ IH]; [done|]. cbn. rewrite (proj2 (Z.eqb_neq _ _) Hx), IH. done. Qed.

Lemma nines_digits n : forallb Text.is_digit (zrep n 57) = true /\ Forall (fun c => c <> 46) (zrep n 57).
Proof. unfold zrep. induction (Z.to_nat n) as [|k [IH1 IH2]]; [done|]. cbn. split; [done|by constructor]. Qed.

Lemma bound_parts precision scale : 0 < precision -> 0 <= scale <= precision ->
  decimal_parts (decimal_bound precision scale) = Some (zrep (precision - scale) 57, zrep scale 57) /\
  decimal_parts ([45] ++ decimal_bound precision scale) = Some (zrep (precision - scale) 57, zrep scale 57).
Proof.
  intros Hp Hs. destruct (nines_digits (precision - scale)) as [D1 N1]. destruct (nines_digits scale) as [D2 _].
  assert (forall body, body = decimal_bound precision scale -> (let '(int, frac) := default (body, []) (split_point body) in
    if negb (bool_decide (int = [] /\ frac = [])) && forallb Text.is_digit (int ++ frac) then Some (int, frac) else None) = Some (zrep (precision - scale) 57, zrep scale 57)) as Hb.
  { intros body ->. unfold decimal_bound. cbn [app]. rewrite split_point_here by done. cbn [from_option id]. rewrite forallb_app, D1, D2, bool_decide_false; [done|].
    intros [E1 E2]. apply (f_equal zlen) in E1, E2. rewrite zlen_zrep in E1, E2. change (zlen []) with 0 in *. lia. }
  split; [|apply Hb; done]. unfold decimal_parts. assert (match decimal_bound precision scale with 45 :: rest => rest | _ => decimal_bound precision scale end = decimal_bound precision scale) as ->; [|by apply Hb].
  unfold decimal_bound. unfold zrep at 1 3 5. destruct (Z.to_nat (precision - scale)); done.
Qed.

(** What the configuration parser guarantees of a literal, and that its digits
    are within the conversion's 256 bits. *)
Definition literal_fits (sub : option Substitute) : Prop :=
  match sub with Some (Literal s) => exists p, decimal_parts s = Some p /\ append_digits 0 (parts_digits p) < 2 ^ 256 | _ => True end.

(** The value a converted substitute denotes: within the column's precision,
    and exactly the text's. *)
Definition encodes_exactly (text : list Z) (w : DecimalWire) (precision : Z) : Prop :=
  exists int frac z, decimal_parts text = Some (int, frac) /\ Z.abs z < 10 ^ precision /\
    Z.abs z * 10 ^ zlen frac = append_digits 0 (int ++ frac) * 10 ^ scale w /\
    decimal_text_to_scaled_le text (scale w) (wire_width w) =
      Ok (le_enc (Z.to_nat (width_bytes (wire_width w))) z ++ zrep (32 - width_bytes (wire_width w)) 0).

Lemma checked_text_encodes text int frac w precision : decimal_parts text = Some (int, frac) -> append_digits 0 (int ++ frac) < 2 ^ 256 -> 0 <= scale w <= precision ->
  10 ^ precision <= 2 ^ (width_bytes (wire_width w) * 8 - 1) -> (scale w <? zlen frac) && existsb (fun b => negb (b =? 48)) (zdrop (scale w) frac) = false ->
  zlen (trim_zeros int) + scale w <= precision -> encodes_exactly text w precision.
Proof.
  intros Hp Hn Hs Hw H1 H2. destruct (decimal_parts_scan _ _ _ Hp) as (S1 & S2 & S3 & S4 & S5). destruct (checked_digits_fit int frac precision (scale w) Hs S5 H1 H2) as [Hx Hexact].
  cbn zeta in *. set (x := append_digits 0 (int ++ frac) * 10 ^ scale w / 10 ^ zlen frac) in *. set (neg := match text with 45 :: _ => true | _ => false end).
  exists int, frac, (if neg then - x else x). split; [done|]. assert (Z.abs (if neg then - x else x) = x) as Habs by (destruct neg; lia). rewrite Habs. split; [lia|]. split; [done|].
  rewrite conversion_exact. unfold decimal_spec. rewrite (proj2 (Z.ltb_ge _ _)) by lia. fold neg. rewrite S1, S2, S4. rewrite (bool_decide_true (int ++ frac <> [])) by (by rewrite <-S2).
  rewrite (proj2 (Z.ltb_lt _ _) Hn). fold x. cbn [andb]. rewrite (proj2 (Z.leb_le _ _)), (proj2 (Z.ltb_lt _ _)) by (destruct neg; lia). done.
Qed.

Lemma compile_cell_encodes nullable w precision sub text : 0 < precision -> 0 <= scale w <= precision -> 10 ^ precision <= 2 ^ (width_bytes (wire_width w) * 8 - 1) -> literal_fits sub ->
  compile_cell nullable (Some w) precision (scale w) sub = Ok (Some (NumericVal (Numeric.Finite text))) -> encodes_exactly text w precision.
Proof.
  intros Hp Hs Hw Hl. unfold compile_cell. destruct (bound_parts precision (scale w) Hp Hs) as [E1 E2].
  assert (append_digits 0 (zrep (precision - scale w) 57 ++ zrep (scale w) 57) < 2 ^ 256) as En.
  { eapply Z.lt_le_trans; [apply append_digits_bound; apply Forall_app; split; apply Forall_replicate; done|]. rewrite zlen_app, !zlen_zrep. replace (_ + _) with precision by lia.
    apply (Z.le_trans _ _ _ Hw). by destruct (wire_width w). }
  assert (forall t i f, decimal_parts t = Some (i, f) -> append_digits 0 (i ++ f) < 2 ^ 256 ->
    (let '(int, frac) := default ([], []) (decimal_parts t) in
     if (scale w <? zlen frac) && existsb (fun b => negb (b =? 48)) (zdrop (scale w) frac) then Err TooManyFraction
     else if precision <? zlen (trim_zeros int) + scale w then Err ExceedsPrecision else Ok (Some (NumericVal (Numeric.Finite t)))) = Ok (Some (NumericVal (Numeric.Finite text))) -> encodes_exactly text w precision) as Hfin.
  { intros t i f Ep Hn. rewrite Ep. cbn [from_option id]. destruct (_ && _) eqn:Ec; [done|]. destruct (Z.ltb_spec precision (zlen (trim_zeros i) + scale w)); [done|]. intros [= <-]. by apply (checked_text_encodes _ i f). }
  destruct sub as [[| | | |lit]|]; cbn [is_some negb]; [done|by destruct nullable| | | |done].
  - by apply (Hfin _ _ _ E2).
  - by apply (Hfin _ _ _ E1).
  - destruct Hl as ([i f] & Ep & Hn). by apply (Hfin _ _ _ Ep).
Qed.

(** A configured substitute always fits its column.  When a rule's
    replacements for NaN and the infinities compile against a decimal column
    whose width holds its precision, each replacement number converts, to exactly
    the value written, within the column's precision: the check made once per
    plan rules out an error, a truncation or an overflow at every row. *)
Theorem substitutes_encode rule ast nf w text : compile rule ast = Ok nf -> decimal_wire_of ast = Some w ->
  let precision := decimal_precision (strip_nullable ast) in
  0 < precision -> scale w <= precision -> 10 ^ precision <= 2 ^ (width_bytes (wire_width w) * 8 - 1) ->
  literal_fits (nan rule) -> literal_fits (pos_inf rule) -> literal_fits (neg_inf rule) ->
  Some (NumericVal (Numeric.Finite text)) ∈ [nf_nan nf; nf_pos_inf nf; nf_neg_inf nf] -> encodes_exactly text w precision.
Proof.
  intros Hc Hw precision Hp Hs Hb L1 L2 L3 Hin. assert (0 <= scale w) as H0.
  { unfold decimal_wire_of in Hw. destruct (ast_kind _) as [k|]; [|done]. destruct (match k with KDecimal32 => _ | _ => _ end); [|done]. case_bool_decide; [|done]. injection Hw as <-. cbn. lia. }
  unfold compile in Hc. rewrite Hw in Hc. cbn [is_some negb andb] in Hc. fold precision in Hc. rewrite (proj2 (Z.ltb_ge precision 0)) in Hc by lia.
  destruct (compile_cell _ _ precision _ (nan rule)) as [a|] eqn:E1; [|done]. destruct (compile_cell _ _ precision _ (pos_inf rule)) as [b|] eqn:E2; [|done].
  destruct (compile_cell _ _ precision _ (neg_inf rule)) as [c|] eqn:E3; [|done]. injection Hc as <-. cbn [nf_nan nf_pos_inf nf_neg_inf] in Hin.
  apply list_elem_of_In in Hin as [->|[->|[->|[]]]].
  - exact (compile_cell_encodes _ _ _ _ _ Hp (conj H0 Hs) Hb L1 E1).
  - exact (compile_cell_encodes _ _ _ _ _ Hp (conj H0 Hs) Hb L2 E2).
  - exact (compile_cell_encodes _ _ _ _ _ Hp (conj H0 Hs) Hb L3 E3).
Qed.

End Plan.

(** ** An instance of the type parser: one decimal type *)
#[local] Instance decimal_views : TypeViews :=
  MkViews unit (fun _ => Some tt) (fun _ => Some KDecimal64) (fun _ _ => None) (fun _ => 8) (fun _ => 10) (fun _ => 2) (fun _ => 0) (fun _ => None).

Lemma substitutes_encode_witness : encodes_exactly (str "99999999.99") (MkWire 2 D64) 10 /\ encodes_exactly (str "-7.5000") (MkWire 2 D64) 10.
Proof.
  split; (eapply (substitutes_encode (MkColumnRule None None None (Some Max) (Some (Literal (str "-7.5000")))) (tt : @TypeAst decimal_views)); [vm_compute; reflexivity|reflexivity|reflexivity|discriminate|discriminate|exact I|exact I|
    exists (str "7", str "5000"); split; reflexivity|apply list_elem_of_In; cbn; tauto]).
Defined.

(** A literal of more digits than 256 bits hold is accepted when its excess
    digits are zeros below the scale, and then refused at every row. *)
Lemma long_literal_refused :
  compile (MkColumnRule None None (Some (Literal (str "1." ++ zrep 80 48))) None None) (tt : @TypeAst decimal_views) = Ok (MkNonFinite (Some (NumericVal (Numeric.Finite (str "1." ++ zrep 80 48)))) None None) /\
  decimal_text_to_scaled_le (str "1." ++ zrep 80 48) 2 D64 = Err OutOfRange.
Proof. by vm_compute. Qed.

End TablePlan.
