(* ===== verification/SchemaFold.v ===== *)
(** * Schema changes ([src/schema.rs], [src/mapping.rs],
      [src/catalog/type_bridge.rs], the column half of [src/emit/ch_ddl.rs])

    A relation's mapping is derived from its descriptor through the type bridge
    and the column rules.  When the descriptor changes, the difference is turned
    into ALTER statements for the destination and folded into the mapping, so that
    rows decoded under the new descriptor are inserted under the new columns.

    [Bridge] is the type bridge, [SchemaFold] the difference, the statements and
    the fold.  [SchemaFoldProofs] shows that the mapping follows any chain of
    descriptors, that the statements give the destination exactly the mapped
    columns, and on which changes they do not. *)
From Stdlib Require Import String.
From stdpp Require Import sorting.
From S2P Require Import Prelude Text WalRecord AsciiBuf Numeric Decimal HeapDecode Rules TablePlan.
Import Schema HeapDecode.

Module Bridge.
Import TablePlan.

Definition VARHDRSZ : Z := 4.
Definition CH_DECIMAL_MAX_PRECISION : Z := 76.
Definition PG_TEMPORAL_MAX_PRECISION : Z := 6.

(** Precision and scale are packed in the type modifier, the scale signed. *)
Definition numeric_ch_type (typmod : Z) : list Z :=
  if typmod <? VARHDRSZ then str "String" else
  let packed := typmod - VARHDRSZ in
  let precision := Z.land (Z.shiftr packed 16) 65535 in
  let scale_raw := Z.land packed 65535 in
  let scale := if Z.testbit scale_raw 15 then scale_raw - 65536 else scale_raw in
  if negb ((1 <=? precision) && (precision <=? CH_DECIMAL_MAX_PRECISION)) || (scale <? 0) || (precision <? scale) then str "String"
  else str "Decimal(" ++ Text.to_dec precision ++ str ", " ++ Text.to_dec scale ++ str ")".

Definition temporal_precision (typmod : Z) : Z :=
  if (0 <=? typmod) && (typmod <=? PG_TEMPORAL_MAX_PRECISION) then typmod else PG_TEMPORAL_MAX_PRECISION.

Definition datetime64_ch_type (typmod : Z) : list Z := str "DateTime64(" ++ Text.to_dec (temporal_precision typmod) ++ str ", 'UTC')".

Definition array_ch_type (type_name : list Z) : option (list Z) :=
  match type_name with
  | 95 :: elem =>
      let named s := bool_decide (elem = s) in
      let inner :=
        if named (str "int2") then str "Int16" else if named (str "int4") then str "Int32" else if named (str "int8") then str "Int64"
        else if named (str "oid") then str "UInt32" else if named (str "float4") then str "Float32" else if named (str "float8") then str "Float64"
        else if named (str "bool") then str "Bool" else if named (str "uuid") then str "UUID" else str "String" in
      Some (str "Array(Nullable(" ++ inner ++ str "))")
  | _ => None
  end.

Inductive BridgeError := UnsupportedType (type_oid : Z) (type_name : list Z).

(** Every type bridges: what no arm knows is text. *)
Definition base_type_for (att : RelAttr) : result BridgeError (list Z) :=
  let t := type_oid att in
  Ok (if t =? BOOLOID then str "Bool" else if t =? CHAROID then str "Int8" else if t =? INT2OID then str "Int16"
      else if t =? INT4OID then str "Int32" else if t =? INT8OID then str "Int64" else if t =? OIDOID then str "UInt32"
      else if t =? FLOAT4OID then str "Float32" else if t =? FLOAT8OID then str "Float64"
      else if t =? NUMERICOID then numeric_ch_type (typmod att)
      else if existsb (Z.eqb t) [TEXTOID; VARCHAROID; BPCHAROID; NAMEOID; BYTEAOID] then str "String"
      else if t =? DATEOID then str "Date32"
      else if t =? TIMEOID then str "Time64(" ++ Text.to_dec (temporal_precision (typmod att)) ++ str ")"
      else if existsb (Z.eqb t) [TIMETZOID; INTERVALOID] then str "String"
      else if existsb (Z.eqb t) [TIMESTAMPOID; TIMESTAMPTZOID] then datetime64_ch_type (typmod att)
      else if t =? UUIDOID then str "UUID"
      else if existsb (Z.eqb t) [INETOID; CIDROID; JSONOID; JSONBOID] then str "String"
      else if bool_decide (type_name att = str "hstore") then str "Map(String, Nullable(String))"
      else if bool_decide (type_name att = str "vector") || bool_decide (type_name att = str "halfvec") then str "Array(Float32)"
      else default (str "String") (array_ch_type (type_name att))).

Definition nullable_of (ty : list Z) : list Z := str "Nullable(" ++ ty ++ str ")".

Section Bridge.
Context `{TV : TypeViews}.

(** [kind], [is_nullable], [inner_kind] of [src/ch/types.rs]. *)
Definition kind_of (ty : list Z) : option Kind := let* ast := parse_type ty in ast_kind ast.
Definition is_nullable (ty : list Z) : bool := bool_decide (kind_of ty = Some KNullable).
Definition inner_kind (ty : list Z) : option Kind := let* ast := parse_type ty in ast_kind (strip_nullable ast).

Record ResolvedColumn := MkResolved { ch_type : list Z; default_sql : option (list Z) }.

(** The literal of a fast default ([render_default]). *)
Variable render_default : RelAttr -> list Z -> option (list Z).

Definition bridge (att : RelAttr) (pk_member : bool) : result BridgeError ResolvedColumn :=
  let? inner := base_type_for att in
  let nullable := negb pk_member && negb (not_null att) && negb (bool_decide (kind_of inner ∈ [Some KArray; Some KMap])) in
  Ok (MkResolved (if nullable then nullable_of inner else inner) (render_default att inner)).

End Bridge.
End Bridge.

Module SchemaFold.
Import TableRules ColumnRules Route TablePlan Bridge.

Record SchemaDiff := MkDiff
  { added_columns : list RelAttr; dropped_columns : list Z; renamed_columns : list (Z * list Z * list Z); type_changes : list (RelAttr * RelAttr) }.

Definition live (d : RelDescriptor) : list RelAttr := filter (fun a => dropped a = false) (attributes d).

Definition by_num (l : list RelAttr) : gmap Z RelAttr := fold_left (fun m a => <[attnum a := a]> m) l ∅.

Definition renames (o n : RelAttr) : bool := negb (bool_decide (attname o = attname n)).
Definition retypes (o n : RelAttr) : bool :=
  negb (type_oid o =? type_oid n) || negb (typmod o =? typmod n) || negb (Bool.eqb (not_null o) (not_null n)).

(** One live attribute of the new descriptor; the first component is what is left
    of the old ones. *)
Definition diff_step (st : gmap Z RelAttr * SchemaDiff) (n : RelAttr) : gmap Z RelAttr * SchemaDiff :=
  let '(olds, d) := st in
  match olds !! attnum n with
  | None => (olds, MkDiff (added_columns d ++ [n]) (dropped_columns d) (renamed_columns d) (type_changes d))
  | Some o =>
      (delete (attnum n) olds,
       MkDiff (added_columns d) (dropped_columns d)
         (renamed_columns d ++ if renames o n then [(attnum n, attname o, attname n)] else [])
         (type_changes d ++ if retypes o n then [(o, n)] else []))
  end.

Definition compute_schema_diff (old new : RelDescriptor) : SchemaDiff :=
  let '(olds, d) := fold_left diff_step (live new) (by_num (live old), MkDiff [] [] [] []) in
  MkDiff (added_columns d) (merge_sort Z.le (map fst (map_to_list olds))) (renamed_columns d) (type_changes d).

Section Fold.
Context `{TV : TypeViews} `{PC : PatternCrates}.
Variable render_default : RelAttr -> list Z -> option (list Z).

Definition apply_column_rule (attname : list Z) (resolved : ResolvedColumn) (rule : ColumnRule) : list Z * ResolvedColumn :=
  (default attname (target_name rule), match target_type rule with Some ty => MkResolved ty None | None => resolved end).

Definition map_column (rel : RelName) (attr : RelAttr) (pk_member : bool) (rules : ColumnRules) : option ColumnMapping :=
  match bridge render_default attr pk_member with
  | Err _ => None
  | Ok resolved =>
      let '(name, resolved) := apply_column_rule (attname attr) resolved (column_settings rules rel (attname attr)) in
      Some (MkColumn (attnum attr) name (ch_type resolved) false)
  end.

Definition is_key (d : RelDescriptor) (a : RelAttr) : bool := bool_decide (attnum a ∈ replident_key_attnums d).

Definition derive_columns_for_mapping (desc : RelDescriptor) (rules : ColumnRules) : list ColumnMapping :=
  omap (fun attr => map_column (rel_name desc) attr (is_key desc attr) rules) (live desc).

Definition retyped_target (rel : RelName) (column : ColumnMapping) (new : RelAttr) (key : bool) (rules : ColumnRules) : option (list Z) :=
  let* c := map_column rel new key rules in
  let ty := if is_nullable (col_type column) && negb (is_nullable (col_type c)) then nullable_of (col_type c) else col_type c in
  if bool_decide (ty = col_type column) then None else Some ty.

Inductive RetypeKind := Modify | Readd.
Record Retype := MkRetype { r_attnum : Z; r_name : list Z; r_type : list Z; r_kind : RetypeKind }.

Definition is_int (a : RelAttr) : bool := existsb (Z.eqb (type_oid a)) [INT2OID; INT4OID; INT8OID].

(** One pair of [type_changes]. *)
Definition plan_retype (rewritten : bool) (new : RelDescriptor) (columns : list ColumnMapping) (rules : ColumnRules) (p : RelAttr * RelAttr) : option Retype :=
  let '(old, attr) := p in
  let* column := List.find (fun c => src_attnum c =? attnum attr) columns in
  if type_pinned column then None else
  let* ty := retyped_target (rel_name new) column attr (is_key new attr) rules in
  let infallible := (is_int old && is_int attr) || bool_decide (inner_kind ty = Some KString) in
  Some (MkRetype (attnum attr) (col_name column) ty (if rewritten && negb infallible then Readd else Modify)).

Definition plan_retypes (old new : RelDescriptor) (diff : SchemaDiff) (columns : list ColumnMapping) (rules : ColumnRules) : list Retype :=
  omap (plan_retype (negb (bool_decide (drfn old = drfn new))) new columns rules) (type_changes diff).

Definition set_type (c : ColumnMapping) (ty : list Z) : ColumnMapping := MkColumn (src_attnum c) (col_name c) ty (type_pinned c).
Definition set_col_name (c : ColumnMapping) (n : list Z) : ColumnMapping := MkColumn (src_attnum c) n (col_type c) (type_pinned c).

Definition retype_column (r : Retype) (c : ColumnMapping) : ColumnMapping := if src_attnum c =? r_attnum r then set_type c (r_type r) else c.

Definition rename_column (rel : RelName) (rules : ColumnRules) (r : Z * list Z * list Z) (c : ColumnMapping) : ColumnMapping :=
  let '(n, old_name, new_name) := r in
  if (src_attnum c =? n) && bool_decide (col_name c = old_name) then set_col_name c (default new_name (target_name (column_settings rules rel new_name))) else c.

(** One added attribute; a column that already reads it stays. *)
Definition add_mapped (new : RelDescriptor) (rules : ColumnRules) (cols : list ColumnMapping) (attr : RelAttr) : list ColumnMapping :=
  if existsb (fun c => src_attnum c =? attnum attr) cols then cols
  else cols ++ option_list (map_column (rel_name new) attr (is_key new attr) rules).

Definition fold_columns (cols : list ColumnMapping) (new : RelDescriptor) (diff : SchemaDiff) (rts : list Retype) (rules : ColumnRules) : list ColumnMapping :=
  let cols := fold_left (fun cols r => map (retype_column r) cols) rts cols in
  let cols := fold_left (fun cols r => map (rename_column (rel_name new) rules r) cols) (renamed_columns diff) cols in
  let cols := filter (fun c => src_attnum c ∉ dropped_columns diff) cols in
  fold_left (add_mapped new rules) (added_columns diff) cols.

Definition fold_diff_into_mapping (m : TableMapping) (new : RelDescriptor) (diff : SchemaDiff) (rts : list Retype) (rules : ColumnRules) : TableMapping :=
  MkMapping (target m) (fold_columns (map_columns m) new diff rts rules) (tees m).

(** What [predict_route_effect] and [apply_changed] make of a mapped relation's
    change. *)
Definition change_mapping (rules : ColumnRules) (old new : RelDescriptor) (m : TableMapping) : TableMapping :=
  let diff := compute_schema_diff old new in
  fold_diff_into_mapping m new diff (plan_retypes old new diff (map_columns m) rules) rules.

(** The statements of [apply_changed]. *)
Definition col_def (name : list Z) (r : ResolvedColumn) : list Z :=
  quote_ident name ++ str " " ++ ch_type r ++ match default_sql r with Some d => str " DEFAULT " ++ d | None => [] end.

Definition add_column_clause (name : list Z) (r : ResolvedColumn) : list Z := str "ADD COLUMN IF NOT EXISTS " ++ col_def name r.
Definition drop_clause (name : list Z) : list Z := str "DROP COLUMN IF EXISTS " ++ quote_ident name.
Definition modify_clause (name ty : list Z) : list Z := str "MODIFY COLUMN IF EXISTS " ++ quote_ident name ++ str " " ++ ty.
Definition rename_clause (o n : list Z) : list Z := str "RENAME COLUMN IF EXISTS " ++ quote_ident o ++ str " TO " ++ quote_ident n.

Definition retype_clauses (r : Retype) : list (list Z) :=
  match r_kind r with
  | Modify => [modify_clause (r_name r) (r_type r)]
  | Readd => [drop_clause (r_name r); add_column_clause (r_name r) (MkResolved (r_type r) None)]
  end.

(** A rename is skipped when a mapped column bears the new name or none the old. *)
Definition rename_clauses (columns : list ColumnMapping) (r : Z * list Z * list Z) : list (list Z) :=
  let '(_, o, n) := r in
  if existsb (fun c => bool_decide (col_name c = n)) columns || negb (existsb (fun c => bool_decide (col_name c = o)) columns) then []
  else [rename_clause o n].

(** [resolve_disk_default]: the shadow renders a default held as raw bytes. *)
Context `{D : Decompress} `{F : FloatText}.
Variable oracle_text : RelAttr -> list Z -> option (list Z).

Definition resolve_disk_default (a : RelAttr) : RelAttr :=
  match missing_value_for a with
  | PgPending _ raw =>
      match oracle_text a raw with
      | Some text => MkAttr (attnum a) (attname a) (type_oid a) (typmod a) (not_null a) (dropped a) (type_name a) (type_byval a) (type_len a) (type_align a) (type_storage a) (Some (TextDefault text))
      | None => a
      end
  | _ => a
  end.

Definition add_clauses (new : RelDescriptor) (rules : ColumnRules) (a : RelAttr) : list (list Z) :=
  match bridge render_default (resolve_disk_default a) (is_key new a) with
  | Err _ => []
  | Ok resolved =>
      let '(name, resolved) := apply_column_rule (attname a) resolved (column_settings rules (rel_name new) (attname a)) in
      [add_column_clause name resolved]
  end.

Definition alter_clauses (old new : RelDescriptor) (columns : list ColumnMapping) (rules : ColumnRules) : list (list Z) :=
  let diff := compute_schema_diff old new in
  flat_map retype_clauses (plan_retypes old new diff columns rules) ++
  flat_map (rename_clauses columns) (renamed_columns diff) ++
  flat_map (add_clauses new rules) (added_columns diff) ++
  map (fun a => drop_clause (attname a)) (filter (fun a => attnum a ∈ dropped_columns diff) (attributes old)).

End Fold.
End SchemaFold.
