(* ===== verification/SchemaFoldProofs.v ===== *)
(** * A mapping follows its relation's schema

    Proofs over [SchemaFold]: the difference of two descriptors attribute by
    attribute, the fold of it into a mapping column by column, the chain of
    changes, and the columns of the destination behind the statements. *)
From Stdlib Require Import String.
From stdpp Require Import sorting.
From S2P Require Import Prelude Text WalRecord AsciiBuf Numeric Decimal HeapDecode Rules TablePlan SchemaFold.
Import Schema HeapDecode.

Module SchemaFollow.
Import TableRules ColumnRules Route TablePlan Bridge SchemaFold.

(** ** Folds over keyed lists *)

Lemma fold_map {A B} (g : B -> A -> A) rs l : fold_left (fun l r => map (g r) l) rs l = map (fun c => fold_left (fun c r => g r c) rs c) l.
Proof. revert l. induction rs as [|r rs IH]; intros l; cbn; [by rewrite map_id|]. by rewrite IH, map_map. Qed.

Section Keyed.
Context {A B C : Type} (key : A -> Z) (f : A -> option B) (src : C -> Z) (g : B -> C -> C).
Hypothesis g_src : forall r c, src (g r c) = src c.
Hypothesis g_other : forall a r c, f a = Some r -> src c <> key a -> g r c = c.

Lemma fold_other l c : src c ∉ map key l -> fold_left (fun c r => g r c) (omap f l) c = c.
Proof using g_src g_other.
  induction l as [|a l IH]; [done|]. intros H. cbn. destruct (f a) as [r|] eqn:E; cbn.
  - rewrite (g_other a); [|done|set_solver]. apply IH. set_solver.
  - apply IH. set_solver.
Qed.

(** At most one entry of the list is about a column. *)
Lemma fold_keyed l a c : NoDup (map key l) -> a ∈ l -> src c = key a -> fold_left (fun c r => g r c) (omap f l) c = match f a with Some r => g r c | None => c end.
Proof using g_src g_other.
  revert c. induction l as [|x l IH]; intros c Hd Ha Hs; [by apply not_elem_of_nil in Ha|]. cbn in Hd. apply list.NoDup_cons in Hd as [Hx Hd]. apply elem_of_cons in Ha as [->|Ha].
  - cbn. destruct (f x) as [r|]; cbn; apply fold_other; [rewrite g_src|]; by rewrite Hs.
  - assert (src c <> key x) as Hne by (rewrite Hs; intros He; apply Hx; rewrite <- He; apply list_elem_of_fmap; by exists a).
    cbn. destruct (f x) as [r|] eqn:E; cbn; [rewrite (g_other x r c E Hne)|]; by apply IH.
Qed.
End Keyed.

(** ** The difference *)

Lemma by_num_snoc l a : by_num (l ++ [a]) = <[attnum a := a]> (by_num l).
Proof. unfold by_num. by rewrite fold_left_app. Qed.

Lemma by_num_none l n : by_num l !! n = None <-> n ∉ map attnum l.
Proof.
  induction l as [|a l IH] using rev_ind; [set_solver|]. rewrite by_num_snoc, lookup_insert_None, IH, map_app. cbn. set_solver.
Qed.

Lemma by_num_some l n a : NoDup (map attnum l) -> by_num l !! n = Some a <-> a ∈ l /\ attnum a = n.
Proof.
  induction l as [|x l IH] using rev_ind; intros Hd; [set_solver|]. rewrite map_app in Hd. apply list.NoDup_app in Hd as (Hd & Hx & _). specialize (IH Hd).
  rewrite by_num_snoc, lookup_insert_Some, IH, elem_of_app, list_elem_of_singleton. split.
  - intros [[<- <-]|(Hne & Ha & <-)]; [by split; [right|]|split; [by left|done]].
  - intros [[Ha| ->] <-]; [|by left]. right. split_and!; try done. intros He. apply (Hx (attnum a)); [apply list_elem_of_fmap; by exists a|]. cbn. rewrite <- He. set_solver.
Qed.

Definition rename_of (olds : gmap Z RelAttr) (n : RelAttr) : option (Z * list Z * list Z) :=
  let* o := olds !! attnum n in if renames o n then Some (attnum n, attname o, attname n) else None.
Definition change_of (olds : gmap Z RelAttr) (n : RelAttr) : option (RelAttr * RelAttr) :=
  let* o := olds !! attnum n in if retypes o n then Some (o, n) else None.
Definition fresh (olds : gmap Z RelAttr) (n : RelAttr) : bool := negb (is_some (olds !! attnum n)).

Lemma bool_decide_ext_if {A} (P Q : Prop) `{Decision P} `{Decision Q} (x y : A) : (P <-> Q) -> (if bool_decide P then x else y) = if bool_decide Q then x else y.
Proof. intros HPQ. by rewrite (bool_decide_ext P Q HPQ). Qed.

Lemma omap_ext_in {A B} (f g : A -> option B) (l : list A) : (forall x, x ∈ l -> f x = g x) -> omap f l = omap g l.
Proof. induction l as [|x l IH]; intros H; [done|]. cbn. rewrite (H x) by left. assert (omap f l = omap g l) as E by (apply IH; intros y Hy; apply H; by right). cbn in E. destruct (g x); [f_equal|]; exact E. Qed.

Lemma diff_steps l olds d : NoDup (map attnum l) ->
  (forall k, (fold_left diff_step l (olds, d)).1 !! k = if bool_decide (k ∈ map attnum l) then None else olds !! k) /\
  (fold_left diff_step l (olds, d)).2 =
    MkDiff (added_columns d ++ List.filter (fresh olds) l) (dropped_columns d) (renamed_columns d ++ omap (rename_of olds) l) (type_changes d ++ omap (change_of olds) l).
Proof.
  revert olds d. induction l as [|n l IH]; intros olds d Hd; [cbn; split; [done|destruct d; cbn; by rewrite !app_nil_r]|].
  cbn [map] in Hd. apply list.NoDup_cons in Hd as [Hn Hd]. cbn [fold_left].
  assert (forall x, x ∈ l -> attnum x <> attnum n) as Hne by (intros x Hx He; apply Hn; rewrite <- He; apply list_elem_of_fmap; by exists x).
  destruct (olds !! attnum n) as [o|] eqn:E.
  - unfold diff_step at 2 4. rewrite E. destruct (IH (delete (attnum n) olds) (MkDiff (added_columns d) (dropped_columns d) (renamed_columns d ++ if renames o n then [(attnum n, attname o, attname n)] else []) (type_changes d ++ if retypes o n then [(o, n)] else [])) Hd) as [H1 H2]. split.
    + intros k. rewrite H1. cbn [map]. destruct (decide (k = attnum n)) as [->|Hk]; [rewrite lookup_delete_eq; rewrite (bool_decide_true (_ ∈ _ :: _)) by left; by destruct (bool_decide _)|].
      rewrite lookup_delete_ne by done. apply bool_decide_ext_if. set_solver.
    + rewrite H2. cbn. unfold rename_of at 2, change_of at 2, fresh at 2. rewrite E. cbn.
      rewrite (omap_ext_in (rename_of (delete (attnum n) olds)) (rename_of olds)), (omap_ext_in (change_of (delete (attnum n) olds)) (change_of olds)), (List.filter_ext_in (fresh (delete (attnum n) olds)) (fresh olds)); try (intros x Hx; unfold rename_of, change_of, fresh; rewrite lookup_delete_ne; [done|]; apply not_eq_sym, Hne; first [done|by apply list_elem_of_In]).
      f_equal; rewrite <- app_assoc; f_equal; by destruct (renames o n), (retypes o n).
  - unfold diff_step at 2 4. rewrite E. destruct (IH olds (MkDiff (added_columns d ++ [n]) (dropped_columns d) (renamed_columns d) (type_changes d)) Hd) as [H1 H2]. split.
    + intros k. rewrite H1. cbn [map]. destruct (decide (k = attnum n)) as [->|Hk]; [rewrite E; by repeat destruct (bool_decide _)|].
      apply bool_decide_ext_if. set_solver.
    + rewrite H2. cbn. unfold rename_of at 2, change_of at 2, fresh at 2. rewrite E. cbn. by rewrite <- app_assoc.
Qed.

(** A descriptor as the catalog gives it: no attribute number twice, key columns
    not null. *)
Record well_formed (d : RelDescriptor) : Prop := MkWf
  { wf_nums : NoDup (map attnum (attributes d)); wf_keys : forall a, a ∈ live d -> is_key d a = true -> not_null a = true }.

Lemma map_filter_NoDup {A B} (f : A -> B) (P : A -> Prop) `{forall x, Decision (P x)} (l : list A) : NoDup (map f l) -> NoDup (map f (filter P l)).
Proof.
  induction l as [|a l IH]; [done|]. cbn [map]. intros [Ha Hd]%list.NoDup_cons. rewrite filter_cons. destruct (decide (P a)); [|by apply IH]. cbn [map]. apply list.NoDup_cons. split; [|by apply IH].
  intros (y & He & [_ Hy]%list_elem_of_filter)%list_elem_of_fmap. apply Ha. rewrite He. apply list_elem_of_fmap. by exists y.
Qed.

Lemma live_nums d : well_formed d -> NoDup (map attnum (live d)).
Proof. intros [H _]. by apply map_filter_NoDup. Qed.

Lemma live_unique d a b : well_formed d -> a ∈ live d -> b ∈ live d -> attnum a = attnum b -> a = b.
Proof.
  intros H Ha Hb He. assert (by_num (live d) !! attnum b = Some a) as H1 by (apply by_num_some; [by apply live_nums|done]).
  assert (by_num (live d) !! attnum b = Some b) as H2 by (apply by_num_some; [by apply live_nums|done]). congruence.
Qed.

Lemma diff_spec old new (olds := by_num (live old)) : well_formed old -> well_formed new ->
  added_columns (compute_schema_diff old new) = List.filter (fresh olds) (live new) /\
  renamed_columns (compute_schema_diff old new) = omap (rename_of olds) (live new) /\
  type_changes (compute_schema_diff old new) = omap (change_of olds) (live new) /\
  forall n, n ∈ dropped_columns (compute_schema_diff old new) <-> n ∈ map attnum (live old) /\ n ∉ map attnum (live new).
Proof.
  intros Ho Hn. unfold compute_schema_diff. destruct (diff_steps (live new) olds (MkDiff [] [] [] []) (live_nums _ Hn)) as [H1 H2]. fold olds.
  destruct (fold_left diff_step (live new) (olds, MkDiff [] [] [] [])) as [left_ d]. cbn [fst snd] in H1, H2. subst d. cbn. split_and!; try done.
  intros n. rewrite merge_sort_Permutation. rewrite (list_elem_of_fmap fst). split.
  - intros ((k & a) & -> & Hk%elem_of_map_to_list). rewrite H1 in Hk. case_bool_decide; [done|]. cbn. split; [|done]. unfold olds in Hk. apply by_num_some in Hk as [Ha <-]; [|by apply live_nums]. apply list_elem_of_fmap. by exists a.
  - intros [(a & -> & Ha)%list_elem_of_fmap Hnew]. exists (attnum a, a). split; [done|]. apply elem_of_map_to_list. rewrite H1, bool_decide_false by done. apply by_num_some; [by apply live_nums|done].
Qed.

Section Follow.
Context `{TV : TypeViews} `{PC : PatternCrates}.
Variable render_default : RelAttr -> list Z -> option (list Z).
Notation map_column := (map_column render_default).
Notation plan_retype := (plan_retype render_default).
Notation plan_retypes := (plan_retypes render_default).
Notation fold_columns := (fold_columns render_default).
Notation change_mapping := (change_mapping render_default).
Notation add_mapped := (add_mapped render_default).

Definition base_of (a : RelAttr) : list Z := match base_type_for a with Ok t => t | Err _ => [] end.
Definition bridged (a : RelAttr) (key : bool) : list Z :=
  if negb key && negb (not_null a) && negb (bool_decide (kind_of (base_of a) ∈ [Some KArray; Some KMap])) then nullable_of (base_of a) else base_of a.

Definition name_for (rules : ColumnRules) (rel : RelName) (a : RelAttr) : list Z := default (attname a) (target_name (column_settings rules rel (attname a))).
Definition type_for (rules : ColumnRules) (rel : RelName) (a : RelAttr) (key : bool) : list Z := default (bridged a key) (target_type (column_settings rules rel (attname a))).

Lemma map_column_eq rel a k rules : map_column rel a k rules = Some (MkColumn (attnum a) (name_for rules rel a) (type_for rules rel a k) false).
Proof. unfold SchemaFold.map_column, apply_column_rule, name_for, type_for. cbn. by destruct (target_type _). Qed.

(** The type a source type maps to, or that type still holding the nulls of
    before. *)
Definition type_ok (ty T : list Z) : Prop := ty = T \/ is_nullable T = false /\ ty = nullable_of T.

(** One column per live attribute, under the name and type it maps to. *)
Definition tracks (rules : ColumnRules) (d : RelDescriptor) (cols : list ColumnMapping) : Prop :=
  map src_attnum cols ≡ₚ map attnum (live d) /\
  forall c a, c ∈ cols -> a ∈ live d -> src_attnum c = attnum a ->
    col_name c = name_for rules (rel_name d) a /\ (type_pinned c = false -> type_ok (col_type c) (type_for rules (rel_name d) a (is_key d a))).

(** A change that keeps the relation's name, no type renamed under its oid, and
    with no rule naming a column that is renamed. *)
Definition evolves (rules : ColumnRules) (old new : RelDescriptor) : Prop :=
  well_formed new /\ rel_name new = rel_name old /\
  forall o n, o ∈ live old -> n ∈ live new -> attnum o = attnum n ->
    (type_oid o = type_oid n -> type_name o = type_name n) /\
    (attname o <> attname n -> target_name (column_settings rules (rel_name old) (attname o)) = None /\
       target_type (column_settings rules (rel_name old) (attname o)) = target_type (column_settings rules (rel_name old) (attname n))).

Lemma type_kept rules old new o n : well_formed old -> evolves rules old new -> o ∈ live old -> n ∈ live new -> attnum o = attnum n -> retypes o n = false ->
  type_for rules (rel_name old) o (is_key old o) = type_for rules (rel_name new) n (is_key new n).
Proof.
  intros Ho (Hn & Hrel & Hev) Hio Hin Hnum Hr. destruct (Hev o n Hio Hin Hnum) as [Hname Hren]. unfold retypes in Hr. apply orb_false_iff in Hr as [[H1 H2]%orb_false_iff H3].
  apply negb_false_iff in H1, H2, H3. apply Z.eqb_eq in H1, H2. apply Bool.eqb_prop in H3.
  assert (base_of o = base_of n) as Hb by (unfold base_of, base_type_for; by rewrite H1, H2, (Hname H1)).
  assert (bridged o (is_key old o) = bridged n (is_key new n)) as Hbr.
  { unfold bridged. rewrite Hb, <- H3. pose proof (wf_keys _ Ho o Hio) as K1. pose proof (wf_keys _ Hn n Hin) as K2. rewrite <- H3 in K2. by destruct (not_null o), (is_key old o), (is_key new n); try (specialize (K1 eq_refl)); try (specialize (K2 eq_refl)). }
  unfold type_for. rewrite Hrel, Hbr. destruct (decide (attname o = attname n)) as [->|Hne]; [done|]. by rewrite (proj2 (Hren Hne)).
Qed.

Lemma omap_omap {A B C} (f : B -> option C) (g : A -> option B) (l : list A) : omap f (omap g l) = omap (fun x => let* y := g x in f y) l.
Proof. induction l as [|x l IH]; [done|]. cbn in *. destruct (g x) as [y|]; cbn; [destruct (f y); cbn; by rewrite IH|done]. Qed.

Lemma find_unique cols c : NoDup (map src_attnum cols) -> c ∈ cols -> List.find (fun x => src_attnum x =? src_attnum c) cols = Some c.
Proof.
  induction cols as [|x cols IH]; intros Hd Hc; [by apply not_elem_of_nil in Hc|]. cbn [map] in Hd. apply list.NoDup_cons in Hd as [Hx Hd]. cbn. apply elem_of_cons in Hc as [->|Hc]; [by rewrite Z.eqb_refl|].
  destruct (Z.eqb_spec (src_attnum x) (src_attnum c)) as [E|_]; [|by apply IH]. exfalso. apply Hx. rewrite E. apply list_elem_of_fmap. by exists c.
Qed.

Definition retype_for (rules : ColumnRules) (old new : RelDescriptor) (cols : list ColumnMapping) (n : RelAttr) : option Retype :=
  let* p := change_of (by_num (live old)) n in plan_retype (negb (bool_decide (drfn old = drfn new))) new cols rules p.

Lemma retype_for_num rules old new cols n r : retype_for rules old new cols n = Some r -> r_attnum r = attnum n.
Proof.
  unfold retype_for, change_of, SchemaFold.plan_retype. destruct (by_num _ !! _) as [o|]; [|done]. destruct (retypes o n); [|done]. cbn [mbind option_bind]. intros H. by repeat (case_match; simplify_eq).
Qed.

(** A column behind the retypes and the renames. *)
Definition moved (rules : ColumnRules) (old new : RelDescriptor) (cols : list ColumnMapping) (c : ColumnMapping) : ColumnMapping :=
  fold_left (fun c r => rename_column (rel_name new) rules r c) (omap (rename_of (by_num (live old))) (live new))
    (fold_left (fun c r => retype_column r c) (omap (retype_for rules old new cols) (live new)) c).

Lemma rename_src rel rules r c : src_attnum (rename_column rel rules r c) = src_attnum c.
Proof. destruct r as [[n o] w]. cbn. by destruct (_ && _). Qed.
Lemma retype_src r c : src_attnum (retype_column r c) = src_attnum c.
Proof. unfold retype_column. by destruct (_ =? _). Qed.

Lemma moved_src rules old new cols c : src_attnum (moved rules old new cols c) = src_attnum c.
Proof.
  assert (forall B (g : B -> ColumnMapping -> ColumnMapping) l c, (forall r c, src_attnum (g r c) = src_attnum c) -> src_attnum (fold_left (fun c r => g r c) l c) = src_attnum c) as H.
  { intros B g l. induction l as [|r l IH]; intros x Hg; [done|]. cbn. by rewrite IH, Hg. }
  unfold moved. rewrite (H _ (rename_column (rel_name new) rules)) by (intros; apply rename_src). apply (H _ retype_column). intros; apply retype_src.
Qed.

Lemma moved_eq rules old new cols c o n : well_formed old -> well_formed new -> o ∈ live old -> n ∈ live new -> src_attnum c = attnum n -> attnum o = attnum n ->
  moved rules old new cols c =
  let c' := match retype_for rules old new cols n with Some r => set_type c (r_type r) | None => c end in
  if renames o n && bool_decide (col_name c = attname o) then set_col_name c' (name_for rules (rel_name new) n) else c'.
Proof.
  intros Ho Hn Hio Hin Hs Hnum. unfold moved. rewrite (fold_keyed attnum _ src_attnum retype_column retype_src) with (a := n); [|..|by apply live_nums|done|done].
  2: { intros a r x Hr Hne. apply retype_for_num in Hr. unfold retype_column. rewrite Hr. by rewrite (proj2 (Z.eqb_neq _ _)). }
  set (c' := match retype_for rules old new cols n with Some r => retype_column r c | None => c end).
  assert (c' = match retype_for rules old new cols n with Some r => set_type c (r_type r) | None => c end) as Hc'.
  { unfold c'. destruct (retype_for rules old new cols n) as [r|] eqn:E; [|done]. apply retype_for_num in E. unfold retype_column. by rewrite E, Hs, Z.eqb_refl. }
  assert (src_attnum c' = attnum n /\ col_name c' = col_name c) as [Hs' Hname] by (rewrite Hc'; by destruct (retype_for _ _ _ _ _)).
  rewrite (fold_keyed attnum _ src_attnum (rename_column (rel_name new) rules) (rename_src _ _)) with (a := n); [|..|by apply live_nums|done|done].
  2: { intros a r x. unfold rename_of. destruct (by_num _ !! _) as [o'|]; [|done]. cbn. destruct (renames o' a); [|done]. intros [= <-] Hne. cbn. by rewrite (proj2 (Z.eqb_neq _ _)). }
  unfold rename_of. rewrite (proj2 (by_num_some _ (attnum n) o (live_nums _ Ho))) by done. cbn. rewrite <- Hc'. destruct (renames o n); [|done]. cbn. by rewrite Hs', Z.eqb_refl, Hname.
Qed.

(** ** The fold *)

Lemma add_all new rules l base : NoDup (map attnum l) -> (forall a, a ∈ l -> attnum a ∉ map src_attnum base) ->
  fold_left (add_mapped new rules) l base = base ++ map (fun a => MkColumn (attnum a) (name_for rules (rel_name new) a) (type_for rules (rel_name new) a (is_key new a)) false) l.
Proof.
  revert base. induction l as [|a l IH]; intros base Hd Hb; [by rewrite app_nil_r|]. cbn [map] in Hd. apply list.NoDup_cons in Hd as [Ha Hd]. cbn [fold_left map].
  assert (existsb (fun c => src_attnum c =? attnum a) base = false) as E.
  { apply not_true_is_false. intros (c & Hc & He)%existsb_exists. apply Z.eqb_eq in He. apply (Hb a); [by left|]. rewrite <- He. apply list_elem_of_fmap. exists c. split; [done|by apply list_elem_of_In]. }
  unfold SchemaFold.add_mapped at 2. rewrite E, map_column_eq. cbn [option_list]. rewrite IH; [by rewrite <- app_assoc|done|].
  intros x Hx. rewrite map_app. cbn. rewrite not_elem_of_app. split; [apply Hb; by right|]. rewrite list_elem_of_singleton. intros He. apply Ha. rewrite <- He. apply list_elem_of_fmap. by exists x.
Qed.

Lemma fresh_spec old n : fresh (by_num (live old)) n = true <-> attnum n ∉ map attnum (live old).
Proof. unfold fresh. rewrite <- by_num_none. by destruct (by_num _ !! _). Qed.

Lemma bfilter_NoDup {A B} (f : A -> B) (p : A -> bool) l : NoDup (map f l) -> NoDup (map f (List.filter p l)).
Proof.
  induction l as [|a l IH]; [done|]. cbn. intros [H1 H2]%list.NoDup_cons. destruct (p a); [|by apply IH]. cbn. apply list.NoDup_cons. split; [|by apply IH].
  intros (y & He & Hy)%list_elem_of_fmap. apply H1. rewrite He. apply list_elem_of_fmap. exists y. split; [done|]. apply list_elem_of_In, filter_In in Hy as [Hy _]. by apply list_elem_of_In.
Qed.

(** The column of an added attribute. *)
Definition added_column (rules : ColumnRules) (new : RelDescriptor) (a : RelAttr) : ColumnMapping :=
  MkColumn (attnum a) (name_for rules (rel_name new) a) (type_for rules (rel_name new) a (is_key new a)) false.

Lemma change_eq rules old new m (cols := map_columns m) : well_formed old -> well_formed new -> (forall c, c ∈ cols -> src_attnum c ∈ map attnum (live old)) ->
  map_columns (change_mapping rules old new m) =
  filter (fun c => src_attnum c ∉ dropped_columns (compute_schema_diff old new)) (map (moved rules old new cols) cols) ++
  map (added_column rules new) (List.filter (fresh (by_num (live old))) (live new)).
Proof.
  intros Ho Hn Hc. unfold SchemaFold.change_mapping, fold_diff_into_mapping, SchemaFold.fold_columns, SchemaFold.plan_retypes. cbn [map_columns]. destruct (diff_spec old new Ho Hn) as (Ha & Hr & Ht & _). rewrite Ha, Hr, Ht, omap_omap, !fold_map, map_map. fold cols.
  apply add_all.
  - by apply bfilter_NoDup, live_nums.
  - intros a Ha' (c & He & [_ Hc']%list_elem_of_filter)%list_elem_of_fmap. apply list_elem_of_In, filter_In in Ha' as [_ Hf]. apply fresh_spec in Hf. apply Hf. rewrite He.
    apply list_elem_of_fmap in Hc' as (x & -> & Hx). rewrite (moved_src rules old new cols). by apply Hc.
Qed.

Lemma tracks_nums rules d cols : well_formed d -> tracks rules d cols -> NoDup (map src_attnum cols).
Proof. intros H [Hp _]. rewrite Hp. by apply live_nums. Qed.

(** The type a change leaves a column with. *)
Lemma retyped_ok rules old new cols c o n : well_formed old -> evolves rules old new -> tracks rules old cols -> c ∈ cols -> type_pinned c = false ->
  o ∈ live old -> n ∈ live new -> attnum o = attnum n -> src_attnum c = attnum n ->
  type_ok (match retype_for rules old new cols n with Some r => r_type r | None => col_type c end) (type_for rules (rel_name new) n (is_key new n)).
Proof.
  intros Ho Hev Ht Hc Hpin Hio Hin Hnum Hs. unfold retype_for, change_of. rewrite (proj2 (by_num_some _ (attnum n) o (live_nums _ Ho))) by done. cbn [mbind option_bind].
  destruct (retypes o n) eqn:Hr; cbn [mbind option_bind].
  - unfold SchemaFold.plan_retype. rewrite <- Hs, (find_unique cols c (tracks_nums _ _ _ Ho Ht) Hc). cbn [mbind option_bind]. rewrite Hpin. unfold retyped_target. rewrite map_column_eq. cbn [mbind option_bind col_type].
    set (T := type_for _ _ _ _). set (ty := if is_nullable (col_type c) && negb (is_nullable T) then _ else _).
    assert (type_ok ty T) as Hty by (unfold ty, type_ok; destruct (is_nullable (col_type c)), (is_nullable T); cbn; tauto).
    case_bool_decide as He; cbn [mbind option_bind r_type]; [by rewrite <- He|done].
  - rewrite <- (type_kept rules old new o n) by done. destruct Ht as [_ Ht]. apply (Ht c o Hc Hio); [congruence|done].
Qed.

(** The columns of a mapping that tracks stand for live attributes. *)
Lemma tracks_attr rules d cols c : tracks rules d cols -> c ∈ cols -> exists a, a ∈ live d /\ src_attnum c = attnum a.
Proof. intros [Hp _] Hc. assert (src_attnum c ∈ map attnum (live d)) as H by (rewrite <- Hp; apply list_elem_of_fmap; by exists c). apply list_elem_of_fmap in H as (a & He & Ha). by exists a. Qed.

Lemma kept_columns rules old new m c : well_formed old -> well_formed new -> tracks rules old (map_columns m) ->
  c ∈ filter (fun c => src_attnum c ∉ dropped_columns (compute_schema_diff old new)) (map (moved rules old new (map_columns m)) (map_columns m)) <->
  exists x o n, x ∈ map_columns m /\ o ∈ live old /\ n ∈ live new /\ attnum o = attnum n /\ src_attnum x = attnum n /\ c = moved rules old new (map_columns m) x.
Proof.
  intros Ho Hn Ht. destruct (diff_spec old new Ho Hn) as (_ & _ & _ & Hd). rewrite list_elem_of_filter, Hd. split.
  - intros [Hnd (x & -> & Hx)%list_elem_of_fmap]. rewrite moved_src in Hnd. destruct (tracks_attr _ _ _ _ Ht Hx) as (o & Hio & Hso).
    destruct (decide (src_attnum x ∈ map attnum (live new))) as [(n & Hsn & Hin)%list_elem_of_fmap|H]; [exists x, o, n; split_and!; congruence|].
    exfalso. apply Hnd. split; [|done]. rewrite Hso. apply list_elem_of_fmap. by exists o.
  - intros (x & o & n & Hx & _ & Hin & _ & Hs & ->). rewrite moved_src. split; [|apply list_elem_of_fmap; by exists x]. intros [_ H]. apply H. rewrite Hs. apply list_elem_of_fmap. by exists n.
Qed.

(** The columns kept, and those added. *)
Definition base_columns (rules : ColumnRules) (old new : RelDescriptor) (m : TableMapping) : list ColumnMapping :=
  filter (fun c => src_attnum c ∉ dropped_columns (compute_schema_diff old new)) (map (moved rules old new (map_columns m)) (map_columns m)).
Definition more_columns (rules : ColumnRules) (old new : RelDescriptor) : list ColumnMapping :=
  map (added_column rules new) (List.filter (fresh (by_num (live old))) (live new)).

Lemma in_more rules old new c : c ∈ more_columns rules old new <-> exists n, n ∈ live new /\ attnum n ∉ map attnum (live old) /\ c = added_column rules new n.
Proof.
  unfold more_columns. rewrite list_elem_of_fmap. split; [intros (n & -> & [Hin Hf]%list_elem_of_In%filter_In)|intros (n & Hin & Hf & ->)]; exists n.
  - split_and!; [by apply list_elem_of_In|by apply fresh_spec|done].
  - split; [done|]. apply list_elem_of_In, filter_In. split; [by apply list_elem_of_In|by apply fresh_spec].
Qed.

Lemma change_columns rules old new m : well_formed old -> well_formed new -> tracks rules old (map_columns m) ->
  map_columns (change_mapping rules old new m) = base_columns rules old new m ++ more_columns rules old new.
Proof. intros Ho Hn Ht. apply change_eq; [done|done|]. intros c Hc. destruct (tracks_attr _ _ _ _ Ht Hc) as (a & Ha & ->). apply list_elem_of_fmap. by exists a. Qed.

Lemma change_nodup rules old new m : well_formed old -> well_formed new -> tracks rules old (map_columns m) -> NoDup (map src_attnum (base_columns rules old new m ++ more_columns rules old new)).
Proof.
  intros Ho Hn Ht. rewrite map_app. apply list.NoDup_app. split_and!.
  - apply map_filter_NoDup. rewrite map_map. erewrite map_ext; [by apply (tracks_nums rules old)|intros; apply moved_src].
  - intros k (c & -> & Hc)%list_elem_of_fmap (x & He & Hx)%list_elem_of_fmap. apply kept_columns in Hc as (y & o & n & _ & Hio & _ & Hon & Hs & ->); try done. apply in_more in Hx as (w & _ & Hw & ->). rewrite moved_src in He. apply Hw. cbn in He. rewrite <- He, Hs, <- Hon. apply list_elem_of_fmap. by exists o.
  - unfold more_columns. rewrite map_map. by apply bfilter_NoDup, live_nums.
Qed.

Lemma change_nums rules old new m : well_formed old -> well_formed new -> tracks rules old (map_columns m) ->
  map src_attnum (base_columns rules old new m ++ more_columns rules old new) ≡ₚ map attnum (live new).
Proof.
  intros Ho Hn Ht. apply NoDup_Permutation; [by apply change_nodup|by apply live_nums|]. intros k. rewrite map_app, elem_of_app. split.
  - intros [(c & -> & Hc)%list_elem_of_fmap|(c & -> & Hc)%list_elem_of_fmap]; apply list_elem_of_fmap.
    + apply kept_columns in Hc as (y & o & n & _ & _ & Hin & _ & Hs & ->); try done. exists n. by rewrite moved_src.
    + apply in_more in Hc as (n & Hin & _ & ->). by exists n.
  - intros (n & -> & Hin)%list_elem_of_fmap. destruct (decide (attnum n ∈ map attnum (live old))) as [Hold|Hnew].
    + left. pose proof Ht as [Hp _]. assert (attnum n ∈ map src_attnum (map_columns m)) as (x & Hsx & Hx)%list_elem_of_fmap by by rewrite Hp. apply list_elem_of_fmap in Hold as (o & Hno & Hio).
      apply list_elem_of_fmap. exists (moved rules old new (map_columns m) x). split; [by rewrite moved_src|]. apply kept_columns; [done..|]. by exists x, o, n.
    + right. apply list_elem_of_fmap. exists (added_column rules new n). split; [done|]. apply in_more. by exists n.
Qed.

Lemma moved_name rules old new cols x o n : well_formed old -> evolves rules old new -> tracks rules old cols -> x ∈ cols -> o ∈ live old -> n ∈ live new -> attnum o = attnum n -> src_attnum x = attnum n ->
  moved rules old new cols x = MkColumn (src_attnum x) (name_for rules (rel_name new) n) (match retype_for rules old new cols n with Some r => r_type r | None => col_type x end) (type_pinned x).
Proof.
  intros Ho (Hn & Hrel & Hpair) Ht Hx Hio Hin Hon Hs. rewrite (moved_eq rules old new _ x o n) by done. destruct (Hpair o n Hio Hin Hon) as [_ Hren]. pose proof (proj2 Ht x o Hx Hio ltac:(congruence)) as [Hname _]. cbn zeta.
  destruct (renames o n) eqn:Hrn; unfold renames in Hrn.
  - apply negb_true_iff, bool_decide_eq_false in Hrn. destruct (Hren Hrn) as [Hnone _]. unfold name_for in Hname. rewrite Hnone in Hname. cbn [from_option id default] in Hname. rewrite (bool_decide_true (col_name x = attname o)) by done. by destruct (retype_for _ _ _ _ _).
  - apply negb_false_iff, bool_decide_eq_true in Hrn. cbn [andb]. assert (col_name x = name_for rules (rel_name new) n) as <- by (unfold name_for; rewrite Hrel, <- Hrn; exact Hname). by destruct x, (retype_for _ _ _ _ _).
Qed.

Lemma change_tracks rules old new m : well_formed old -> evolves rules old new -> tracks rules old (map_columns m) -> tracks rules new (map_columns (change_mapping rules old new m)).
Proof.
  intros Ho Hev Ht. pose proof Hev as (Hn & Hrel & Hpair). rewrite change_columns by done. split; [by apply change_nums|]. intros c a [Hc|Hc]%elem_of_app Ha Hs.
  - apply kept_columns in Hc as (x & o & n & Hx & Hio & Hin & Hon & Hsx & ->); try done. rewrite moved_src in Hs. assert (a = n) as -> by (apply (live_unique new); [done..|congruence]).
    rewrite (moved_name rules old new _ x o n) by done. split; [done|]. intros Hpin. cbn in Hpin. by apply (retyped_ok rules old new _ x o n).
  - apply in_more in Hc as (n & Hin & _ & ->). assert (a = n) as -> by by apply (live_unique new). split; [done|]. intros _. by left.
Qed.

(** ** Chains of changes *)

Fixpoint follow (rules : ColumnRules) (old : RelDescriptor) (m : TableMapping) (ds : list RelDescriptor) : TableMapping :=
  match ds with [] => m | new :: ds => follow rules new (change_mapping rules old new m) ds end.

Fixpoint evolve (rules : ColumnRules) (old : RelDescriptor) (ds : list RelDescriptor) : Prop :=
  match ds with [] => True | new :: ds => evolves rules old new /\ evolve rules new ds end.

Lemma derived_tracks rules d : well_formed d -> tracks rules d (derive_columns_for_mapping render_default d rules).
Proof.
  intros H. assert (derive_columns_for_mapping render_default d rules = map (added_column rules d) (live d)) as ->.
  { unfold derive_columns_for_mapping. induction (live d) as [|a l IH]; [done|]. cbn [omap list_omap map]. rewrite map_column_eq. f_equal. exact IH. }
  split; [by rewrite map_map|]. intros c a (x & -> & Hx)%list_elem_of_fmap Ha Hs. assert (x = a) as -> by by apply (live_unique d). split; [done|]. intros _. by left.
Qed.


End Follow.
End SchemaFollow.

Module Alters.
Import TableRules ColumnRules Route TablePlan Bridge SchemaFold SchemaFollow.

#[global] Instance column_mapping_eq_dec : EqDecision ColumnMapping.
Proof. solve_decision. Defined.

(** What ClickHouse documents of ALTER TABLE, in terms of a table's columns: a
    column of the sorting key is not altered, a type it does not accept is
    refused. *)
Class AlterTable := MkAlter
  { Table : Type; columns_of : Table -> gmap (list Z) (list Z); sorting_key : Table -> list (list Z); accepts : ResolvedColumn -> Prop;
    alter : Table -> list Z -> option Table;
    alter_add : forall t n r, accepts r -> columns_of t !! n = None ->
      exists t', alter t (add_column_clause n r) = Some t' /\ columns_of t' = <[n := ch_type r]> (columns_of t) /\ sorting_key t' = sorting_key t;
    alter_add_present : forall t n r, accepts r -> is_Some (columns_of t !! n) ->
      exists t', alter t (add_column_clause n r) = Some t' /\ columns_of t' = columns_of t /\ sorting_key t' = sorting_key t;
    alter_drop : forall t n, n ∉ sorting_key t ->
      exists t', alter t (drop_clause n) = Some t' /\ columns_of t' = delete n (columns_of t) /\ sorting_key t' = sorting_key t;
    alter_modify : forall t n ty, n ∉ sorting_key t -> accepts (MkResolved ty None) -> is_Some (columns_of t !! n) ->
      exists t', alter t (modify_clause n ty) = Some t' /\ columns_of t' = <[n := ty]> (columns_of t) /\ sorting_key t' = sorting_key t;
    alter_rename : forall t o n ty, o ∉ sorting_key t -> columns_of t !! o = Some ty -> columns_of t !! n = None ->
      exists t', alter t (rename_clause o n) = Some t' /\ columns_of t' = <[n := ty]> (delete o (columns_of t)) /\ sorting_key t' = sorting_key t }.

Section Alters.
Context `{TV : TypeViews} `{PC : PatternCrates} `{AT : AlterTable} `{D : Decompress} `{F : FloatText}.
Variable render_default : RelAttr -> list Z -> option (list Z).
Variable oracle_text : RelAttr -> list Z -> option (list Z).

(** [alter] over the statements in order; the first refusal ends it. *)
Fixpoint run_alters (t : Table) (clauses : list (list Z)) : option Table :=
  match clauses with [] => Some t | c :: clauses => let* t := alter t c in run_alters t clauses end.

Lemma run_alters_app t a b : run_alters t (a ++ b) = let* t := run_alters t a in run_alters t b.
Proof. revert t. induction a as [|c a IH]; intros t; [done|]. cbn. destruct (alter t c); [apply IH|done]. Qed.

Definition cols_map (cols : list ColumnMapping) : gmap (list Z) (list Z) := list_to_map (map (fun c => (col_name c, col_type c)) cols).

Lemma cols_map_some cols n ty : NoDup (map col_name cols) -> cols_map cols !! n = Some ty <-> exists c, c ∈ cols /\ col_name c = n /\ col_type c = ty.
Proof.
  intros Hd. unfold cols_map. rewrite <- elem_of_list_to_map; [|rewrite <- list_fmap_compose; exact Hd]. rewrite list_elem_of_fmap. split.
  - intros (c & [= -> ->] & Hc). by exists c.
  - intros (c & Hc & <- & <-). by exists c.
Qed.

Lemma cols_map_none cols n : cols_map cols !! n = None <-> n ∉ map col_name cols.
Proof. unfold cols_map. rewrite <- not_elem_of_list_to_map. by rewrite <- list_fmap_compose. Qed.

Lemma cols_map_eq cols m : NoDup (map col_name cols) -> (forall n ty, m !! n = Some ty <-> exists c, c ∈ cols /\ col_name c = n /\ col_type c = ty) -> m = cols_map cols.
Proof. intros Hd H. apply map_eq. intros n. apply option_eq. intros ty. by rewrite H, cols_map_some. Qed.

(** A table holds the mapped columns and others beside. *)
Definition holds (extra : gmap (list Z) (list Z)) (key : list (list Z)) (t : Table) (cols : list ColumnMapping) : Prop :=
  columns_of t = cols_map cols ∪ extra /\ sorting_key t = key.

Lemma holds_none extra key t cols n : holds extra key t cols -> n ∉ map col_name cols -> extra !! n = None -> columns_of t !! n = None.
Proof. intros [-> _] Hn He. apply lookup_union_None. split; [by apply cols_map_none|done]. Qed.

Lemma holds_some extra key t cols c : holds extra key t cols -> NoDup (map col_name cols) -> c ∈ cols -> columns_of t !! col_name c = Some (col_type c).
Proof. intros [-> _] Hd Hc. apply lookup_union_Some_l. apply cols_map_some; [done|]. by exists c. Qed.

Lemma unique_col {A B} (f : A -> B) (cols : list A) c x : NoDup (map f cols) -> c ∈ cols -> x ∈ cols -> f c = f x -> c = x.
Proof.
  induction cols as [|y cols IH]; intros Hd Hc Hx He; [by apply not_elem_of_nil in Hc|]. cbn [map] in Hd. apply list.NoDup_cons in Hd as [Hy Hd].
  apply elem_of_cons in Hc as [->|Hc]; apply elem_of_cons in Hx as [->|Hx]; [done|..|by apply IH]; exfalso; apply Hy; apply list_elem_of_fmap; [by exists x|by exists c].
Qed.

(** One retype. *)
Lemma retype_step extra key t cols r c : holds extra key t cols -> NoDup (map col_name cols) -> NoDup (map src_attnum cols) -> c ∈ cols -> src_attnum c = r_attnum r -> col_name c = r_name r ->
  extra !! r_name r = None -> r_name r ∉ key -> accepts (MkResolved (r_type r) None) ->
  exists t', run_alters t (retype_clauses r) = Some t' /\ holds extra key t' (map (retype_column r) cols).
Proof.
  intros Ht Hn Hs Hc Hnum Hname Hx Hk Hacc. pose proof Ht as [Hcols Hkey].
  assert (<[r_name r := r_type r]> (cols_map cols) = cols_map (map (retype_column r) cols)) as Hmap.
  { apply cols_map_eq; [rewrite map_map; erewrite map_ext; [exact Hn|intros x; unfold retype_column; by destruct (_ =? _)]|]. intros n ty. rewrite lookup_insert_Some, cols_map_some by done. split.
    - intros [[<- <-]|(Hne & x & Hxc & <- & <-)].
      + exists (retype_column r c). split; [apply list_elem_of_fmap; by exists c|]. unfold retype_column. by rewrite Hnum, Z.eqb_refl.
      + exists x. split; [|done]. apply list_elem_of_fmap. exists x. split; [|done]. unfold retype_column. destruct (Z.eqb_spec (src_attnum x) (r_attnum r)) as [E|]; [|done]. exfalso. apply Hne. rewrite <- Hname. f_equal. apply (unique_col src_attnum cols); congruence.
    - intros (y & (x & -> & Hxc)%list_elem_of_fmap & Hy & Hty). unfold retype_column in Hy, Hty. destruct (Z.eqb_spec (src_attnum x) (r_attnum r)) as [E|E]; cbn in Hy, Hty.
      + left. assert (c = x) as -> by (apply (unique_col src_attnum cols); congruence). split; congruence.
      + right. split; [|by exists x]. intros Hnr. apply E. rewrite <- Hnum. f_equal. apply (unique_col col_name cols); congruence. }
  assert (is_Some (columns_of t !! r_name r)) as Hsome by (rewrite <- Hname; eexists; by apply (holds_some extra key t cols)).
  unfold retype_clauses. destruct (r_kind r); cbn [run_alters].
  - destruct (alter_modify t (r_name r) (r_type r)) as (t' & -> & H1 & H2); [by rewrite Hkey|done|done|]. exists t'. split; [done|]. split; [|by rewrite H2]. by rewrite H1, Hcols, insert_union_l, Hmap.
  - destruct (alter_drop t (r_name r)) as (t1 & -> & H1 & H2); [by rewrite Hkey|]. cbn [mbind option_bind]. destruct (alter_add t1 (r_name r) (MkResolved (r_type r) None)) as (t' & -> & H3 & H4); [done|rewrite H1; apply lookup_delete_eq|].
    exists t'. split; [done|]. split; [|by rewrite H4, H2]. rewrite H3, H1, insert_delete_eq, Hcols, insert_union_l. cbn [ch_type]. by rewrite Hmap.
Qed.

Lemma retype_stage extra key rs t cols : holds extra key t cols -> NoDup (map col_name cols) -> NoDup (map src_attnum cols) ->
  (forall r, r ∈ rs -> (exists c, c ∈ cols /\ src_attnum c = r_attnum r /\ col_name c = r_name r) /\ extra !! r_name r = None /\ r_name r ∉ key /\ accepts (MkResolved (r_type r) None)) ->
  exists t', run_alters t (flat_map retype_clauses rs) = Some t' /\ holds extra key t' (map (fun c => fold_left (fun c r => retype_column r c) rs c) cols).
Proof.
  revert t cols. induction rs as [|r rs IH]; intros t cols Ht Hn Hs Hr; [exists t; cbn; by rewrite map_id|]. cbn [flat_map]. rewrite run_alters_app.
  destruct (Hr r ltac:(left)) as ((c & Hc & Hnum & Hname) & Hx & Hk & Hacc). destruct (retype_step extra key t cols r c) as (t1 & -> & Ht1); try done. cbn [mbind option_bind].
  assert (forall x, col_name (retype_column r x) = col_name x) as Hsame by (intros x; unfold retype_column; by destruct (_ =? _)).
  destruct (IH t1 (map (retype_column r) cols) Ht1) as (t' & -> & Ht').
  - rewrite map_map. by erewrite map_ext by apply Hsame.
  - rewrite map_map. by erewrite map_ext by apply retype_src.
  - intros r' Hr'. destruct (Hr r' ltac:(by right)) as ((x & Hxc & H1 & H2) & Hrest). split; [|done]. exists (retype_column r x). split_and!; [apply list_elem_of_fmap; by exists x|by rewrite retype_src|by rewrite Hsame].
  - exists t'. split; [done|]. by rewrite map_map in Ht'.
Qed.

(** One rename. *)
Lemma rename_step extra key t cols rel rules num o n c : holds extra key t cols -> NoDup (map col_name cols) -> NoDup (map src_attnum cols) -> c ∈ cols -> src_attnum c = num -> col_name c = o ->
  n ∉ map col_name cols -> extra !! n = None -> extra !! o = None -> o ∉ key -> target_name (column_settings rules rel n) = None ->
  NoDup (map col_name (map (rename_column rel rules (num, o, n)) cols)) /\
  exists t', alter t (rename_clause o n) = Some t' /\ holds extra key t' (map (rename_column rel rules (num, o, n)) cols).
Proof.
  intros Ht Hn Hs Hc <- <- Hnew Hxn Hxo Hk Hrule. pose proof Ht as [Hcols Hkey].
  assert (forall x, x ∈ cols -> rename_column rel rules (src_attnum c, col_name c, n) x = if decide (x = c) then set_col_name c n else x) as Hren.
  { intros x Hx. cbn. rewrite Hrule. destruct (decide (x = c)) as [->|Hne]; [by rewrite Z.eqb_refl, bool_decide_true|]. destruct (Z.eqb_spec (src_attnum x) (src_attnum c)) as [E|]; [|done]. exfalso. apply Hne. by apply (unique_col src_attnum cols). }
  assert (NoDup (map col_name (map (rename_column rel rules (src_attnum c, col_name c, n)) cols))) as Hn'.
  { rewrite (map_ext_in _ (fun x => if decide (x = c) then set_col_name c n else x) cols) by (intros x Hx; apply Hren; by apply list_elem_of_In). clear -Hn Hnew. induction cols as [|x cols IH]; [done|]. cbn [map] in *. apply list.NoDup_cons in Hn as [Hx Hn]. apply list.NoDup_cons. split; [|apply IH; [done|set_solver]].
    intros (y & He & (z & -> & Hz)%list_elem_of_fmap)%list_elem_of_fmap. destruct (decide (x = c)) as [->|Hxc], (decide (z = c)) as [->|Hzc]; cbn in He.
    - apply Hx. apply list_elem_of_fmap. by exists c.
    - apply Hnew. rewrite He. right. apply list_elem_of_fmap. by exists z.
    - apply Hnew. rewrite <- He. by left.
    - apply Hx. rewrite He. apply list_elem_of_fmap. by exists z. }
  split; [done|]. destruct (alter_rename t (col_name c) n (col_type c)) as (t' & -> & H1 & H2); [by rewrite Hkey|by apply (holds_some extra key t cols)|by apply (holds_none extra key t cols)|].
  exists t'. split; [done|]. split; [|by rewrite H2]. rewrite H1, Hcols, delete_union, (delete_id extra) by done. rewrite insert_union_l. f_equal. apply cols_map_eq; [done|]. intros k ty. rewrite lookup_insert_Some, lookup_delete_Some, cols_map_some by done. split.
  - intros [[<- <-]|(Hkn & Hko & x & Hx & <- & <-)].
    + exists (set_col_name c n). split; [|done]. apply list_elem_of_fmap. exists c. split; [|done]. rewrite Hren by done. by rewrite decide_True.
    + exists x. split; [|done]. apply list_elem_of_fmap. exists x. split; [|done]. rewrite Hren by done. rewrite decide_False; [done|]. by intros ->.
  - intros (y & (x & -> & Hx)%list_elem_of_fmap & Hy & Hty). rewrite Hren in Hy, Hty by done. destruct (decide (x = c)) as [->|Hne]; cbn in Hy, Hty; [by left|]. right. split_and!; [|intros E; apply Hne; apply (unique_col col_name cols); congruence|by exists x].
    intros ->. apply Hnew. rewrite <- Hy. apply list_elem_of_fmap. by exists x.
Qed.

Lemma fold_kept {A B C} (f : A -> B) (g : C -> A -> A) rs x : (forall r x, f (g r x) = f x) -> f (fold_left (fun c r => g r c) rs x) = f x.
Proof. intros H. revert x. induction rs as [|r rs IH]; intros x; [done|]. cbn. by rewrite IH, H. Qed.

Lemma folds_kept {A B C} (f : A -> B) (g : C -> A -> A) rs l : (forall r x, f (g r x) = f x) -> map f (map (fun c => fold_left (fun c r => g r c) rs c) l) = map f l.
Proof. intros H. rewrite map_map. apply map_ext. intros x. by apply fold_kept. Qed.

Lemma retype_name r c : col_name (retype_column r c) = col_name c.
Proof. unfold retype_column. by destruct (_ =? _). Qed.

Lemma omap_NoDup {A B C} (h : A -> C) (k : B -> C) (f : A -> option B) (l : list A) : (forall x y, f x = Some y -> k y = h x) -> NoDup (map h l) -> NoDup (map k (omap f l)).
Proof.
  intros Hf. induction l as [|x l IH]; intros Hd; [constructor|]. cbn [map] in Hd. apply list.NoDup_cons in Hd as [Hx Hd]. cbn. destruct (f x) as [y|] eqn:E; [|by apply IH]. cbn. apply list.NoDup_cons. split; [|by apply IH].
  intros (z & Hz & (w & Hw & Hfw)%list_elem_of_omap)%list_elem_of_fmap. apply Hx. rewrite <- (Hf _ _ E), Hz, (Hf _ _ Hfw). apply list_elem_of_fmap. by exists w.
Qed.

Definition renaming (r : Z * list Z * list Z) : list Z := rename_clause r.1.2 r.2.

Lemma rename_stage extra key rel rules rn t cols : holds extra key t cols -> NoDup (map col_name cols) -> NoDup (map src_attnum cols) -> NoDup (map (fun r => r.1.1) rn) -> NoDup (map snd rn) ->
  (forall r, r ∈ rn -> (exists c, c ∈ cols /\ src_attnum c = r.1.1 /\ col_name c = r.1.2) /\ r.2 ∉ map col_name cols /\ extra !! r.2 = None /\ extra !! r.1.2 = None /\ r.1.2 ∉ key /\ target_name (column_settings rules rel r.2) = None) ->
  exists t', run_alters t (map renaming rn) = Some t' /\ holds extra key t' (map (fun c => fold_left (fun c r => rename_column rel rules r c) rn c) cols) /\ NoDup (map col_name (map (fun c => fold_left (fun c r => rename_column rel rules r c) rn c) cols)).
Proof.
  revert t cols. induction rn as [|[[num o] n] rn IH]; intros t cols Ht Hn Hs Hd1 Hd2 Hr; [exists t; cbn; by rewrite map_id|]. cbn [map fst snd] in Hd1, Hd2. apply list.NoDup_cons in Hd1 as [Hnum1 Hd1]. apply list.NoDup_cons in Hd2 as [Hn1 Hd2].
  destruct (Hr (num, o, n) ltac:(left)) as ((c & Hc & Hnum & Hname) & Hnew & Hxn & Hxo & Hk & Hrule). cbn [fst snd] in *.
  destruct (rename_step extra key t cols rel rules num o n c) as (Hn' & t1 & Ha & Ht1); try done. cbn [map run_alters renaming fst snd]. unfold renaming at 1. cbn [fst snd]. rewrite Ha. cbn [mbind option_bind fold_left].
  destruct (IH t1 (map (rename_column rel rules (num, o, n)) cols)) as (t' & -> & Ht'); try done.
  - rewrite map_map. by erewrite map_ext by apply rename_src.
  - intros r Hin. destruct (Hr r ltac:(by right)) as ((x & Hx & H1 & H2) & H3 & Hrest). split_and!; [| |apply Hrest..].
    + exists x. split; [|done]. apply list_elem_of_fmap. exists x. split; [|done]. cbn. destruct (Z.eqb_spec (src_attnum x) num) as [E|]; [|done]. exfalso. apply Hnum1. rewrite <- E, H1. apply list_elem_of_fmap. by exists r.
    + intros (y & He & (z & -> & Hz)%list_elem_of_fmap)%list_elem_of_fmap. cbn in He. rewrite Hrule in He. destruct (_ && _) in He; cbn in He; [apply Hn1; rewrite <- He; apply list_elem_of_fmap; by exists r|]. apply H3. rewrite He. apply list_elem_of_fmap. by exists z.
  - exists t'. split; [done|]. by rewrite map_map in Ht'.
Qed.

(** The column an ADD statement states. *)
Definition added_resolved (rules : ColumnRules) (new : RelDescriptor) (a : RelAttr) : ResolvedColumn :=
  match bridge render_default (resolve_disk_default oracle_text a) (is_key new a) with
  | Ok r => (apply_column_rule (attname a) r (column_settings rules (rel_name new) (attname a))).2
  | Err _ => MkResolved [] None
  end.

Lemma add_clauses_eq rules new a : add_clauses render_default oracle_text new rules a = [add_column_clause (name_for rules (rel_name new) a) (added_resolved rules new a)] /\
  ch_type (added_resolved rules new a) = type_for rules (rel_name new) a (is_key new a).
Proof.
  assert (base_type_for (resolve_disk_default oracle_text a) = base_type_for a /\ not_null (resolve_disk_default oracle_text a) = not_null a) as [H1 H2].
  { unfold resolve_disk_default. destruct (missing_value_for a); try done. by destruct (oracle_text a raw). }
  unfold add_clauses, added_resolved, bridge, type_for, bridged, base_of. rewrite H1, H2. destruct (base_type_for a) as [ty|] eqn:E; [|done]. cbn. split; [done|]. by destruct (target_type _).
Qed.

Lemma add_stage extra key rules new l t cols : holds extra key t cols -> NoDup (map col_name cols) -> NoDup (map (name_for rules (rel_name new)) l) ->
  (forall a, a ∈ l -> name_for rules (rel_name new) a ∉ map col_name cols /\ extra !! name_for rules (rel_name new) a = None /\ accepts (added_resolved rules new a)) ->
  exists t', run_alters t (flat_map (add_clauses render_default oracle_text new rules) l) = Some t' /\ holds extra key t' (cols ++ map (added_column rules new) l) /\ NoDup (map col_name (cols ++ map (added_column rules new) l)).
Proof.
  revert t cols. induction l as [|a l IH]; intros t cols Ht Hn Hd Ha; [exists t; cbn; by rewrite app_nil_r|]. cbn [map] in Hd. apply list.NoDup_cons in Hd as [Hd1 Hd]. destruct (Ha a ltac:(left)) as (Hnew & Hx & Hacc). destruct (add_clauses_eq rules new a) as [Ecl Ety].
  cbn [flat_map]. rewrite Ecl. cbn [app run_alters]. destruct (alter_add t _ _ Hacc (holds_none extra key t cols _ Ht Hnew Hx)) as (t1 & -> & H1 & H2). cbn [mbind option_bind].
  assert (NoDup (map col_name (cols ++ [added_column rules new a]))) as Hn' by (rewrite map_app; apply list.NoDup_app; split_and!; [done|set_solver|apply NoDup_singleton]).
  destruct (IH t1 (cols ++ [added_column rules new a])) as (t' & -> & Ht'); try done.
  - destruct Ht as [Hcols Hkey]. split; [|by rewrite H2]. rewrite H1, Hcols, insert_union_l, Ety. f_equal. apply cols_map_eq; [done|]. intros k ty. rewrite lookup_insert_Some, cols_map_some by done. setoid_rewrite elem_of_app. setoid_rewrite list_elem_of_singleton. split.
    + intros [[<- <-]|(_ & c & Hc)]; [exists (added_column rules new a); by split; [right|]|exists c; tauto].
    + intros (c & [Hc| ->] & <- & <-); [|by left]. right. split; [|by exists c]. intros E. apply Hnew. rewrite E. apply list_elem_of_fmap. by exists c.
  - intros x Hxl. destruct (Ha x ltac:(by right)) as (H3 & H4). split; [|done]. rewrite map_app, not_elem_of_app. split; [done|]. cbn. rewrite list_elem_of_singleton. intros E. apply Hd1. rewrite <- E. apply list_elem_of_fmap. by exists x.
  - exists t'. split; [done|]. by rewrite <- app_assoc in Ht'.
Qed.

Lemma filter_keep {A} (P : A -> Prop) `{forall x, Decision (P x)} (l : list A) : (forall x, x ∈ l -> P x) -> filter P l = l.
Proof. induction l as [|x l IH]; intros Hp; [done|]. rewrite filter_cons, decide_True by (apply Hp; left). f_equal. apply IH. intros y Hy. apply Hp. by right. Qed.

Lemma drop_stage extra key ds t cols : holds extra key t cols -> NoDup (map col_name cols) -> (forall n, n ∈ ds -> n ∉ key /\ extra !! n = None) ->
  exists t', run_alters t (map drop_clause ds) = Some t' /\ holds extra key t' (filter (fun c => col_name c ∉ ds) cols).
Proof.
  revert t cols. induction ds as [|n ds IH]; intros t cols Ht Hn Hd; [exists t; split; [done|]; rewrite filter_keep; [done|set_solver]|]. destruct (Hd n ltac:(left)) as [Hk Hx]. destruct Ht as [Hcols Hkey].
  cbn [map run_alters]. destruct (alter_drop t n) as (t1 & -> & H1 & H2); [by rewrite Hkey|]. cbn [mbind option_bind]. assert (NoDup (map col_name (filter (fun c => col_name c <> n) cols))) as Hn' by by apply map_filter_NoDup.
  destruct (IH t1 (filter (fun c => col_name c <> n) cols)) as (t' & -> & Ht'); [|done|intros k Hin; apply Hd; by right|].
  - split; [|by rewrite H2]. rewrite H1, Hcols, delete_union, (delete_id extra) by done. f_equal. apply cols_map_eq; [done|]. intros k ty. rewrite lookup_delete_Some, cols_map_some by done. setoid_rewrite list_elem_of_filter. split.
    + intros (Hne & c & Hc & <- & <-). exists c. by split_and!.
    + intros (c & [Hne Hc] & <- & <-). split; [done|by exists c].
  - exists t'. split; [done|]. rewrite list_filter_filter in Ht'. rewrite (list_filter_iff _ (fun c => col_name c ∉ ds /\ col_name c <> n)); [done|]. intros c. set_solver.
Qed.

(** A change whose names do not collide: no column takes the name of one that was
    there before, none is added under the name of one dropped with it, no rule
    renames, and the sorting key is not touched. *)
Record separate (rules : ColumnRules) (extra : gmap (list Z) (list Z)) (key : list (list Z)) (old new : RelDescriptor) : Prop := MkSep
  { sep_old : NoDup (map attname (live old)); sep_new : NoDup (map attname (live new));
    sep_unruled : forall a, a ∈ live old \/ a ∈ live new -> target_name (column_settings rules (rel_name new) (attname a)) = None /\ extra !! attname a = None;
    sep_renames : forall o n, o ∈ live old -> n ∈ live new -> attnum o = attnum n -> attname o <> attname n -> attname n ∉ map attname (live old);
    sep_adds : forall o n, o ∈ live old -> n ∈ live new -> attnum o ∉ map attnum (live new) -> attnum n ∉ map attnum (live old) -> attname o <> attname n;
    sep_key : forall o, o ∈ live old -> attname o ∈ key -> exists n, n ∈ live new /\ attnum o = attnum n /\ attname o = attname n /\ retypes o n = false }.

Section Change.
Variables (rules : ColumnRules) (extra : gmap (list Z) (list Z)) (key : list (list Z)) (old new : RelDescriptor) (cols : list ColumnMapping).
Hypotheses (Ho : well_formed old) (Hev : evolves rules old new) (Ht : tracks rules old cols) (Hsep : separate rules extra key old new).
Let Hn : well_formed new := proj1 Hev.
Notation moved := (moved render_default rules old new cols).
Notation retype_for := (retype_for render_default rules old new cols).

Lemma old_name c o : c ∈ cols -> o ∈ live old -> src_attnum c = attnum o -> col_name c = attname o.
Proof using Hev Ht Hsep. intros Hc Hi Hs. rewrite (proj1 (proj2 Ht c o Hc Hi Hs)). unfold name_for. pose proof Hev as (_ & Hrel & _). rewrite <- Hrel. by rewrite (proj1 (sep_unruled _ _ _ _ _ Hsep o (or_introl Hi))). Qed.

Lemma new_name n : n ∈ live new -> name_for rules (rel_name new) n = attname n.
Proof using Hsep. intros Hi. unfold name_for. by rewrite (proj1 (sep_unruled _ _ _ _ _ Hsep n (or_intror Hi))). Qed.

Lemma cols_names : NoDup (map col_name cols).
Proof using Ho Hev Ht Hsep.
  apply NoDup_fmap_2_strong; [|apply (NoDup_fmap_1 src_attnum); exact (tracks_nums _ _ _ Ho Ht)]. intros c x Hc Hx He. destruct (tracks_attr _ _ _ _ Ht Hc) as (o & Hio & Hso), (tracks_attr _ _ _ _ Ht Hx) as (o' & Hio' & Hso').
  rewrite (old_name c o), (old_name x o') in He by done. apply (unique_col src_attnum cols); [by apply (tracks_nums rules old)|done|done|]. rewrite Hso, Hso'. f_equal.
  apply (unique_col attname (live old)); [exact (sep_old _ _ _ _ _ Hsep)|done..].
Qed.

(** A column whose attribute is dropped is left alone. *)
Lemma moved_gone x : src_attnum x ∉ map attnum (live new) -> moved x = x.
Proof using Type.
  intros H. unfold SchemaFollow.moved. rewrite (fold_other attnum _ src_attnum retype_column retype_src) with (c := x); [|intros a r y Hr Hne; apply retype_for_num in Hr; unfold retype_column; rewrite Hr; by rewrite (proj2 (Z.eqb_neq _ _))|done].
  apply (fold_other attnum _ src_attnum (rename_column (rel_name new) rules) (rename_src _ _)); [|done]. intros a r y. unfold rename_of. destruct (by_num _ !! _) as [o'|]; [|done]. cbn. destruct (renames o' a); [|done]. intros [= <-] Hne. cbn. by rewrite (proj2 (Z.eqb_neq _ _)).
Qed.

(** Every column, behind retypes and renames: that of a kept attribute under its
    new name, or of a dropped one as it was. *)
Lemma moved_cases x : x ∈ cols -> exists o, o ∈ live old /\ src_attnum x = attnum o /\
  ((exists n, n ∈ live new /\ attnum o = attnum n /\ col_name (moved x) = attname n) \/ (attnum o ∉ map attnum (live new) /\ moved x = x /\ col_name x = attname o)).
Proof using Ho Hev Ht Hsep.
  intros Hx. destruct (tracks_attr _ _ _ _ Ht Hx) as (o & Hio & Hso). exists o. split_and!; try done. destruct (decide (attnum o ∈ map attnum (live new))) as [(n & Hon & Hin)%list_elem_of_fmap|Hno].
  - left. exists n. split_and!; try done. rewrite (moved_name render_default rules old new cols x o n); try done; [|congruence]. by apply new_name.
  - right. split_and!; [done|apply moved_gone; by rewrite Hso|by apply old_name].
Qed.

Lemma retype_ready r : r ∈ omap retype_for (live new) ->
  (exists c, c ∈ cols /\ src_attnum c = r_attnum r /\ col_name c = r_name r) /\ extra !! r_name r = None /\ r_name r ∉ key.
Proof using Ho Hev Ht Hsep.
  intros (n & Hin & Hr)%list_elem_of_omap. pose proof (retype_for_num _ _ _ _ _ _ _ Hr) as Hnum. unfold SchemaFollow.retype_for, change_of in Hr. destruct (by_num (live old) !! attnum n) as [o|] eqn:Eo; [|done]. apply by_num_some in Eo as [Hio Hon]; [|by apply live_nums].
  cbn [mbind option_bind] in Hr. destruct (retypes o n) eqn:Hrt; [|done]. cbn [mbind option_bind] in Hr. unfold plan_retype in Hr. destruct (List.find _ cols) as [c|] eqn:Ef; [|done]. apply find_some in Ef as [Hc%list_elem_of_In Hcn%Z.eqb_eq].
  assert (r_name r = col_name c) as Hname by (cbn [mbind option_bind] in Hr; repeat (case_match; simplify_eq); done). assert (col_name c = attname o) as Hco by (apply old_name; [done|done|congruence]). rewrite Hname, Hco. split_and!.
  - exists c. split_and!; congruence.
  - apply (sep_unruled _ _ _ _ _ Hsep). by left.
  - intros Hk. destruct (sep_key _ _ _ _ _ Hsep o Hio Hk) as (n' & Hin' & Hon' & _ & Hfalse). assert (n = n') as -> by (apply (live_unique new); [exact Hn|done|done|congruence]). congruence.
Qed.

Lemma rename_ready r : r ∈ omap (rename_of (by_num (live old))) (live new) ->
  exists o n, o ∈ live old /\ n ∈ live new /\ attnum o = attnum n /\ attname o <> attname n /\ r = (attnum n, attname o, attname n).
Proof using Ho.
  intros (n & Hin & Hr)%list_elem_of_omap. unfold rename_of in Hr. destruct (by_num (live old) !! attnum n) as [o|] eqn:Eo; [|done]. apply by_num_some in Eo as [Hio Hon]; [|by apply live_nums]. cbn [mbind option_bind] in Hr.
  destruct (renames o n) eqn:E; [|done]. injection Hr as <-. unfold renames in E. apply negb_true_iff, bool_decide_eq_false in E. exists o, n. by split_and!.
Qed.

Lemma rename_allowed rts r : r ∈ omap (rename_of (by_num (live old))) (live new) ->
  (exists c, c ∈ map (fun c => fold_left (fun c r => retype_column r c) rts c) cols /\ src_attnum c = r.1.1 /\ col_name c = r.1.2) /\ r.2 ∉ map col_name cols /\
  extra !! r.2 = None /\ extra !! r.1.2 = None /\ r.1.2 ∉ key /\ target_name (column_settings rules (rel_name new) r.2) = None.
Proof using Ho Hev Ht Hsep.
  intros (o & n & Hio & Hin & Hon & Hne & ->)%rename_ready. cbn [fst snd]. destruct (sep_unruled _ _ _ _ _ Hsep o (or_introl Hio)) as [_ Hxo], (sep_unruled _ _ _ _ _ Hsep n (or_intror Hin)) as [Hrn Hxn]. split_and!; try done.
  - assert (attnum o ∈ map src_attnum cols) as (c & Hs & Hc)%list_elem_of_fmap by (rewrite (proj1 Ht); apply list_elem_of_fmap; by exists o). exists (fold_left (fun c r => retype_column r c) rts c). split_and!; [apply list_elem_of_fmap; by exists c|..].
    + rewrite (fold_kept src_attnum) by (intros; apply retype_src). congruence.
    + rewrite (fold_kept col_name) by (intros; apply retype_name). by apply old_name.
  - intros (c & He & Hc)%list_elem_of_fmap. destruct (tracks_attr _ _ _ _ Ht Hc) as (o' & Hio' & Hs). apply (sep_renames _ _ _ _ _ Hsep o n Hio Hin Hon Hne). rewrite He, (old_name c o') by done. apply list_elem_of_fmap. by exists o'.
  - intros Hk. destruct (sep_key _ _ _ _ _ Hsep o Hio Hk) as (n' & Hin' & Hon' & He & _). apply Hne. rewrite He. f_equal. apply (live_unique new); [exact Hn|done|done|congruence].
Qed.

Lemma renames_run : flat_map (rename_clauses cols) (omap (rename_of (by_num (live old))) (live new)) = map renaming (omap (rename_of (by_num (live old))) (live new)).
Proof using Ho Hev Ht Hsep.
  rewrite flat_map_concat_map. rewrite (map_ext_in _ (fun r => [renaming r])); [by induction (omap _ _) as [|r l IH]; cbn; [|f_equal]|]. intros r (o & n & Hio & Hin & Hon & Hne & ->)%list_elem_of_In%rename_ready. cbn.
  assert (existsb (fun c => bool_decide (col_name c = attname n)) cols = false) as ->.
  { apply not_true_is_false. intros (c & Hc%list_elem_of_In & He%bool_decide_eq_true)%existsb_exists. destruct (tracks_attr _ _ _ _ Ht Hc) as (o' & Hio' & Hs). apply (sep_renames _ _ _ _ _ Hsep o n Hio Hin Hon Hne). rewrite <- He, (old_name c o') by done. apply list_elem_of_fmap. by exists o'. }
  assert (existsb (fun c => bool_decide (col_name c = attname o)) cols = true) as ->; [|done]. apply existsb_exists. assert (attnum o ∈ map src_attnum cols) as (c & Hs & Hc)%list_elem_of_fmap by (rewrite (proj1 Ht); apply list_elem_of_fmap; by exists o).
  exists c. split; [by apply list_elem_of_In|]. apply bool_decide_eq_true. by apply old_name.
Qed.

Lemma fresh_name a : a ∈ List.filter (fresh (by_num (live old))) (live new) -> a ∈ live new /\ attnum a ∉ map attnum (live old) /\ name_for rules (rel_name new) a = attname a.
Proof using Hsep. intros [Ha%list_elem_of_In Hf%fresh_spec]%list_elem_of_In%filter_In. split_and!; [done|done|by apply new_name]. Qed.

Lemma add_ready a : a ∈ List.filter (fresh (by_num (live old))) (live new) -> attname a ∉ map col_name (map moved cols).
Proof using Ho Hev Ht Hsep.
  intros (Ha & Hf & _)%fresh_name (y & He & (x & -> & Hx)%list_elem_of_fmap)%list_elem_of_fmap. destruct (moved_cases x Hx) as (o & Hio & Hso & [(n & Hin & Hon & Hname)|(Hno & Hm & Hname)]).
  - apply Hf. assert (a = n) as -> by (apply (unique_col attname (live new)); [exact (sep_new _ _ _ _ _ Hsep)|done|done|congruence]). rewrite <- Hon. apply list_elem_of_fmap. by exists o.
  - rewrite Hm, Hname in He. by apply (sep_adds _ _ _ _ _ Hsep o a Hio Ha Hno Hf).
Qed.

Definition dropped_names : list (list Z) := map attname (filter (fun a => attnum a ∈ dropped_columns (compute_schema_diff old new)) (attributes old)).

Lemma in_dropped k : k ∈ dropped_names <-> exists o, o ∈ live old /\ attnum o ∉ map attnum (live new) /\ attname o = k.
Proof using Ho Hev.
  destruct (diff_spec old new Ho Hn) as (_ & _ & _ & Hd). unfold dropped_names. rewrite list_elem_of_fmap. split.
  - intros (a & -> & [Ha Hat]%list_elem_of_filter). apply Hd in Ha as [(o & He & Hio)%list_elem_of_fmap Hno]. exists o. split_and!; [done|by rewrite <- He|]. f_equal. unfold live in Hio. apply list_elem_of_filter in Hio as [_ Hio]. by apply (unique_col attnum (attributes old) o a (wf_nums _ Ho)).
  - intros (o & Hio & Hno & <-). exists o. split; [done|]. apply list_elem_of_filter. split; [|by apply list_elem_of_filter in Hio as [_ ?]]. apply Hd. split; [|done]. apply list_elem_of_fmap. by exists o.
Qed.

Lemma drop_columns : filter (fun c => col_name c ∉ dropped_names) (map moved cols ++ more_columns rules old new) =
  filter (fun c => src_attnum c ∉ dropped_columns (compute_schema_diff old new)) (map moved cols) ++ more_columns rules old new.
Proof using Ho Hev Ht Hsep.
  rewrite list.filter_app. f_equal.
  - assert (forall l : list ColumnMapping, (forall x, x ∈ l -> x ∈ map moved cols) -> filter (fun c => col_name c ∉ dropped_names) l = filter (fun c => src_attnum c ∉ dropped_columns (compute_schema_diff old new)) l) as H; [|by apply H].
    destruct (diff_spec old new Ho Hn) as (_ & _ & _ & Hd). induction l as [|y l IH]; intros Hl; [done|]. rewrite !filter_cons. assert (col_name y ∈ dropped_names <-> src_attnum y ∈ dropped_columns (compute_schema_diff old new)) as Hy.
    { destruct (proj1 (list_elem_of_fmap _ _ _) (Hl y ltac:(left))) as (x & -> & Hx). rewrite in_dropped, Hd, moved_src. destruct (moved_cases x Hx) as (o & Hio & Hso & [(n & Hin & Hon & Hname)|(Hno & Hm & Hname)]).
      - split; [intros (o' & Hio' & Hno & He)|intros [_ Hno]]; exfalso.
        + apply Hno. assert (attname o = attname n) as Hsame by (destruct (decide (attname o = attname n)) as [|Hne]; [done|]; exfalso; apply (sep_renames _ _ _ _ _ Hsep o n Hio Hin Hon Hne); rewrite <- Hname, <- He; apply list_elem_of_fmap; by exists o').
          assert (o = o') as <- by (apply (unique_col attname (live old)); [exact (sep_old _ _ _ _ _ Hsep)|done|done|congruence]). rewrite Hon. apply list_elem_of_fmap. by exists n.
        + apply Hno. rewrite Hso, Hon. apply list_elem_of_fmap. by exists n.
      - rewrite Hm, Hname, Hso. split; [intros _; split; [apply list_elem_of_fmap; by exists o|done]|]. intros _. by exists o. }
    rewrite IH by (intros x Hx; apply Hl; by right). destruct (decide (col_name y ∉ dropped_names)), (decide (src_attnum y ∉ dropped_columns (compute_schema_diff old new))); tauto.
  - apply filter_keep. intros c (n & Hin & Hf & ->)%in_more. cbn. rewrite new_name, in_dropped by done. intros (o & Hio & Hno & He). by apply (sep_adds _ _ _ _ _ Hsep o n).
Qed.

End Change.


End Alters.

(** ** A table that reads the statements *)

Module Demo.

Fixpoint strip (p l : list Z) : option (list Z) :=
  match p, l with
  | [], _ => Some l
  | a :: p, b :: l => if a =? b then strip p l else None
  | _, [] => None
  end.

Lemma strip_app p l : strip p (p ++ l) = Some l.
Proof. induction p as [|a p IH]; [done|]. cbn. by rewrite Z.eqb_refl. Qed.

(** A quoted identifier and what follows it. *)
Fixpoint unquote (l acc : list Z) : option (list Z * list Z) :=
  match l with
  | [] => None
  | b :: l =>
      if b =? 96 then match l with c :: l' => if c =? 96 then unquote l' (acc ++ [96]) else Some (acc, l) | [] => Some (acc, []) end
      else unquote l (acc ++ [b])
  end.

Definition ident (l : list Z) : option (list Z * list Z) := match l with b :: l => if b =? 96 then unquote l [] else None | [] => None end.

(** No identifier ends its quotes early. *)
Lemma ident_quote n rest : head rest <> Some 96 -> ident (quote_ident n ++ rest) = Some (n, rest).
Proof.
  intros Hr. unfold quote_ident. rewrite <- !app_assoc. cbn. assert (forall acc, unquote (flat_map (fun b => if b =? 96 then [96; 96] else [b]) n ++ 96 :: rest) acc = Some (acc ++ n, rest)) as H; [|apply H].
  induction n as [|b n IH]; intros acc.
  - cbn. rewrite app_nil_r. destruct rest as [|c rest]; [done|]. cbn in Hr. destruct (Z.eqb_spec c 96) as [->|]; [done|done].
  - cbn [flat_map]. rewrite <- app_assoc. destruct (Z.eqb_spec b 96) as [->|Hb]; cbn; [|rewrite (proj2 (Z.eqb_neq _ _) Hb)]; by rewrite IH, <- app_assoc.
Qed.

Definition alter_demo (t : gmap (list Z) (list Z) * list (list Z)) (sql : list Z) : option (gmap (list Z) (list Z) * list (list Z)) :=
  match strip (str "ADD COLUMN IF NOT EXISTS ") sql, strip (str "DROP COLUMN IF EXISTS ") sql, strip (str "MODIFY COLUMN IF EXISTS ") sql, strip (str "RENAME COLUMN IF EXISTS ") sql with
  | Some l, _, _, _ => let* p := ident l in match p.2 with 32 :: ty => Some (match t.1 !! p.1 with Some _ => t.1 | None => <[p.1 := ty]> t.1 end, t.2) | _ => None end
  | _, Some l, _, _ => let* p := ident l in Some (delete p.1 t.1, t.2)
  | _, _, Some l, _ => let* p := ident l in match p.2 with 32 :: ty => Some (<[p.1 := ty]> t.1, t.2) | _ => None end
  | _, _, _, Some l =>
      let* p := ident l in let* l := strip (str " TO ") p.2 in let* q := ident l in let* ty := t.1 !! p.1 in
      match t.1 !! q.1 with None => Some (<[q.1 := ty]> (delete p.1 t.1), t.2) | Some _ => None end
  | _, _, _, _ => None
  end.

#[local] Instance demo_alter : AlterTable.
Proof.
  refine (MkAlter (gmap (list Z) (list Z) * list (list Z)) fst snd (fun r => default_sql r = None) alter_demo _ _ _ _ _).
  - intros t n [ty d] Hd Hn. cbn in Hd. subst d. exists (<[n := ty]> t.1, t.2). split; [|done]. unfold alter_demo, add_column_clause, col_def. change (str " ") with [32]. rewrite strip_app, ident_quote by done. cbn. rewrite app_nil_r, Hn. reflexivity.
  - intros t n [ty d] Hd [x Hn]. cbn in Hd. subst d. exists t. split_and!; [|done|done]. unfold alter_demo, add_column_clause, col_def. change (str " ") with [32]. rewrite strip_app, ident_quote by done. cbn. rewrite Hn. by destruct t.
  - intros t n _. exists (delete n t.1, t.2). split; [|done]. unfold alter_demo, drop_clause. rewrite strip_app. rewrite <- (app_nil_r (quote_ident n)). rewrite ident_quote by done. reflexivity.
  - intros t n ty _ _ _. exists (<[n := ty]> t.1, t.2). split; [|done]. unfold alter_demo, modify_clause. change (str " ") with [32]. rewrite strip_app, ident_quote by done. reflexivity.
  - intros t o n ty _ Ho Hn. exists (<[n := ty]> (delete o t.1), t.2). split; [|done]. unfold alter_demo, rename_clause. rewrite strip_app, ident_quote by done. cbn [mbind option_bind snd fst]. rewrite strip_app. rewrite <- (app_nil_r (quote_ident n)). rewrite ident_quote by done. cbn [mbind option_bind fst]. rewrite Ho. cbn [mbind option_bind]. rewrite Hn. reflexivity.
Defined.

Definition starts (p : string) (t : list Z) : bool := bool_decide (str p `prefix_of` t).

#[local] Instance demo_types : TypeViews :=
  MkViews (list Z) (fun t => Some t)
    (fun t => Some (if starts "Nullable(" t then KNullable else if starts "Array(" t then KArray else if starts "Map(" t then KMap else if starts "String" t then KString else KOther 0))
    (fun _ _ => None) (fun _ => 1) (fun _ => 0) (fun _ => 0) (fun _ => 0) (fun _ => None).
#[local] Instance demo_crates : PatternCrates := MkCrates unit (fun _ => None) (fun _ _ => false) unit (fun _ => None) (fun _ _ => false).
#[local] Instance demo_codecs : Decompress := MkDecompress (fun _ _ => None) (fun _ _ => None).
#[local] Instance demo_floats : FloatText := MkFloatText (fun _ => None) (fun _ => None).

Definition no_default (a : RelAttr) (ty : list Z) : option (list Z) := None.
Definition no_oracle (a : RelAttr) (raw : list Z) : option (list Z) := None.

Definition attr (n : Z) (name : string) (ty : Z) (nn : bool) : RelAttr :=
  MkAttr n (str name) ty (-1) nn false (if ty =? 1009 then str "_text" else []) false 4 105 112 None.

Definition desc (attrs : list RelAttr) : RelDescriptor :=
  MkDesc (WalRecord.MkRfn 1663 5 16400) 16400 0 2200 (str "public", str "t") 114 112 (Default (Some [1])) attrs [].

Definition first_desc := desc [attr 1 "id" INT4OID true; attr 2 "a" TEXTOID false; attr 3 "b" INT4OID false; attr 4 "e" TEXTOID false].
Definition second_desc := desc [attr 1 "id" INT4OID true; attr 2 "c" TEXTOID false; attr 3 "b" INT8OID true; attr 5 "d" 1009 false].
(** Names swapped, and the array dropped for one of the same name. *)
Definition third_desc := desc [attr 1 "id" INT4OID true; attr 2 "b" TEXTOID true; attr 3 "c" INT8OID true; attr 6 "d" TEXTOID false].

Ltac each H := vm_compute in H; repeat (apply elem_of_cons in H as [->|H]); [..|by apply not_elem_of_nil in H].

Lemma demo_descs_wf : well_formed first_desc /\ well_formed second_desc /\ well_formed third_desc.
Proof.
  split_and!; (split; [apply (bool_decide_unpack _); by vm_compute|]); intros a Ha; each Ha; vm_compute; congruence.
Qed.

Lemma demo_evolves : evolve [] first_desc [second_desc; third_desc].
Proof.
  destruct demo_descs_wf as (_ & H2 & H3). cbn [evolve]. unfold evolves. split_and!; try done; intros o n Hio Hin He; each Hio; each Hin; vm_compute in He; try discriminate He; split; intros E; vm_compute in E |- *; first [done|congruence].
Qed.

Definition demo_target : TableTarget := MkTarget None (str "db") (str "t").
Definition demo_mapping : TableMapping := MkMapping demo_target (derive_columns_for_mapping no_default first_desc []) [].


Definition demo_extra : gmap (list Z) (list Z) := {[ str "_lsn" := str "UInt64" ]}.
Definition demo_table : @Table demo_alter := (cols_map (map_columns demo_mapping) ∪ demo_extra, [str "id"]).

Lemma demo_separate : separate [] demo_extra [str "id"] first_desc second_desc.
Proof.
  split; try (apply (bool_decide_unpack _); by vm_compute).
  - intros a [Ha|Ha]; each Ha; by vm_compute.
  - intros o n Hio Hin He Hne. each Hio; each Hin; vm_compute in He; try discriminate He; try (exfalso; by apply Hne); apply (bool_decide_unpack _); by vm_compute.
  - intros o n Hio Hin Hno Hnn He. each Hio; each Hin; first [by vm_compute in He|apply Hno; apply (bool_decide_unpack _); by vm_compute].
  - intros o Hio Hk. exists (attr 1 "id" INT4OID true). apply list_elem_of_singleton in Hk. each Hio; first [discriminate Hk|split_and!; [by vm_compute; left|done..]].
Qed.


End Demo.

#[local] Existing Instances Demo.demo_types Demo.demo_crates Demo.demo_codecs Demo.demo_floats.
Import Demo.

Section Collisions.
Context `{AT : AlterTable}.

(** The array is dropped and a text column of its name added, in one change. *)
Definition dropped_desc := desc [attr 1 "id" INT4OID true; attr 5 "d" 1009 false].
Definition readded_desc := desc [attr 1 "id" INT4OID true; attr 6 "d" TEXTOID false].
Definition dropped_mapping : TableMapping := MkMapping demo_target (derive_columns_for_mapping no_default dropped_desc []) [].


End Collisions.


(** Two columns that swap names: the mapping swaps, no statement does, since each
    new name is already a column's. *)
Lemma swapped_names_skipped :
  let old := desc [attr 1 "id" INT4OID true; attr 2 "a" TEXTOID true; attr 3 "b" TEXTOID true] in
  let new := desc [attr 1 "id" INT4OID true; attr 2 "b" TEXTOID true; attr 3 "a" TEXTOID true] in
  let m := MkMapping demo_target (derive_columns_for_mapping no_default old []) [] in
  alter_clauses no_default no_oracle old new (map_columns m) [] = [] /\
  map (fun c => (src_attnum c, col_name c)) (map_columns (change_mapping no_default [] old new m)) = [(1, str "id"); (2, str "b"); (3, str "a")].
Proof. by vm_compute. Qed.

(** A column renamed to a name a rule maps elsewhere: the statement renames to the
    source's name, the mapping to the rule's. *)
Lemma ruled_rename_diverges :
  let old := desc [attr 1 "id" INT4OID true; attr 2 "a" TEXTOID true] in
  let new := desc [attr 1 "id" INT4OID true; attr 2 "c" TEXTOID true] in
  let rules := (finish_columns (add_column new_columns (str "public", str "t") Exact (str "c") Exact (MkColumnRule (Some (str "x")) None None None None))).1 in
  let m := MkMapping demo_target (derive_columns_for_mapping no_default old rules) [] in
  alter_clauses no_default no_oracle old new (map_columns m) rules = [rename_clause (str "a") (str "c")] /\
  map col_name (map_columns (change_mapping no_default rules old new m)) = [str "id"; str "x"].
Proof. by vm_compute. Qed.

(** A nullable column that becomes an array keeps its Nullable around the array. *)
Lemma array_kept_nullable :
  let old := desc [attr 1 "id" INT4OID true; attr 2 "a" TEXTOID false] in
  let new := desc [attr 1 "id" INT4OID true; attr 2 "a" 1009 false] in
  let m := MkMapping demo_target (derive_columns_for_mapping no_default old []) [] in
  alter_clauses no_default no_oracle old new (map_columns m) [] = [modify_clause (str "a") (str "Nullable(Array(Nullable(String)))")].
Proof. by vm_compute. Qed.

End Alters.
