(* ===== verification/Encoder.v ===== *)
(** * The ClickHouse block encoder ([src/emit/ch_emitter.rs]) and the request
      of the columns it leaves to PostgreSQL ([src/ops/oracle.rs],
      [src/emit/pipeline/resolver.rs])

    One growing buffer per destination column, in the Native format's layout.
    Columns whose source type the decoder does not cover hold oracle cells
    instead; their bytes are counted before a row is appended, so that a batch
    is sealed while one request still carries it.  Buffer capacities are not
    part of the state. *)
From S2P Require Import Prelude Text WalRecord AsciiBuf Numeric Decimal HeapDecode Spill Outbox Rules TablePlan.
Import Schema HeapDecode.

(** ** Cells for the oracle *)
Module Oracle.

Definition CELL_DEFAULT : Z := 0x00.
Definition CELL_DISK_RAW : Z := 0x01.
Definition CELL_TEXT : Z := 0x02.
Definition CELL_LITERAL : Z := 0x03.

Inductive OracleCell := CellDefault | DiskRaw (b : list Z) | TextInput (b : list Z) | CellLiteral (b : list Z).

Definition wire_bytes (c : OracleCell) : Z :=
  match c with CellDefault => 1 | DiskRaw b | TextInput b | CellLiteral b => 5 + zlen b end.

Record OracleColumnBuf := MkOracle
  { source_type_oid : Z; source_typmod : Z; cells : list OracleCell; o_wire_bytes : Z; string_target : bool; nullable_target : bool;
    remote_cells : Z; literal_bytes : Z }.

Definition with_target (oid typmod : Z) (string_target nullable_target : bool) : OracleColumnBuf :=
  MkOracle oid typmod [] 0 string_target nullable_target 0 0.

Definition resolves_locally (o : OracleColumnBuf) (c : OracleCell) : bool :=
  string_target o && (remote_cells o =? 0) && match c with CellLiteral _ | CellDefault => true | _ => false end.

Definition push (o : OracleColumnBuf) (c : OracleCell) : OracleColumnBuf :=
  let bytes := wire_bytes c in
  let local := resolves_locally o c in
  MkOracle (source_type_oid o) (source_typmod o) (cells o ++ [c]) (o_wire_bytes o + bytes) (string_target o) (nullable_target o)
    (if local then remote_cells o else remote_cells o + 1) (if local then literal_bytes o + bytes else literal_bytes o).

Definition stranded_bytes (o : OracleColumnBuf) : Z := if remote_cells o =? 0 then literal_bytes o else 0.

Definition resolves_batch_locally (o : OracleColumnBuf) (n_rows : Z) : bool :=
  string_target o && (remote_cells o =? 0) && (zlen (cells o) =? n_rows).

Record OracleRequestColumn := MkRequestColumn { ordinal : Z; r_name : list Z; r_type : list Z; buf : OracleColumnBuf }.

Definition request_column_bytes (name target_type : list Z) : Z := 4 + 4 + (4 + zlen name) + (4 + zlen target_type).

Definition REQUEST_FRAME_BYTES : Z := 1 + 4 + 4.
Definition ORACLE_BATCH_SEAL_BYTES : Z := 32 * 2 ^ 20.

(** [MAX_REQUEST_BYTES] and [FRAME_PREFIX_BYTES] of [src/ops/bridge.rs]. *)
Definition MAX_REQUEST_BYTES : Z := 256 * 1024 * 1024.
Definition FRAME_PREFIX_BYTES : Z := 5.

Definition be32 (z : Z) : list Z := rev (le_enc 4 z).

Definition put_lenstr (bytes : list Z) : list Z := be32 (zlen bytes) ++ bytes.

Definition encode_cell (c : OracleCell) : list Z :=
  match c with
  | CellDefault => [CELL_DEFAULT]
  | DiskRaw b => CELL_DISK_RAW :: put_lenstr b
  | TextInput b => CELL_TEXT :: put_lenstr b
  | CellLiteral b => CELL_LITERAL :: put_lenstr b
  end.

Definition column_header (c : OracleRequestColumn) : list Z :=
  be32 (source_type_oid (buf c)) ++ be32 (source_typmod (buf c)) ++ put_lenstr (r_name c) ++ put_lenstr (r_type c).

(** The cells of row [row]; [None] is the out-of-range index. *)
Fixpoint encode_row (columns : list OracleRequestColumn) (row : nat) : option (list Z) :=
  match columns with
  | [] => Some []
  | c :: columns =>
      let* cell := cells (buf c) !! row in
      let* rest := encode_row columns row in
      Some (encode_cell cell ++ rest)
  end.

Fixpoint encode_rows (columns : list OracleRequestColumn) (row n : nat) : option (list Z) :=
  match n with
  | O => Some []
  | S n => let* r := encode_row columns row in let* rest := encode_rows columns (S row) n in Some (r ++ rest)
  end.

(** The frame's unwritten prefix, then the payload. *)
Definition encode_request (columns : list OracleRequestColumn) (n_rows : Z) : option (list Z) :=
  let* rows := encode_rows columns 0 (Z.to_nat n_rows) in
  Some (zrep FRAME_PREFIX_BYTES 0 ++ be32 n_rows ++ be32 (zlen columns) ++ flat_map column_header columns ++ rows).

End Oracle.

Module Encoder.
Import Oracle Route TablePlan Place.

(** Unix microseconds of 2000-01-01, and the days. *)
Definition DATETIME64_PG_EPOCH_US : Z := 946684800000000.
Definition DATE32_PG_EPOCH_DAYS : Z := DATETIME64_PG_EPOCH_US / 1000000 / 86400.

Definition OP_INSERT : Z := 1.
Definition OP_UPDATE : Z := 2.
Definition OP_DELETE : Z := 3.

Inductive ColumnBuf :=
| Fixed (width : Z) (bytes : list Z)
| StringBuf (offsets : list Z) (data : list Z) (absent : list Z)
| NullableFixed (width : Z) (null_map : list Z) (inner : list Z)
| NullableString (offsets : list Z) (data : list Z) (null_map : list Z) (absent : list Z)
| OracleBuf (o : OracleColumnBuf).

Definition approx_size (b : ColumnBuf) : Z :=
  match b with
  | Fixed _ bytes => zlen bytes
  | StringBuf offsets data _ => zlen offsets * 8 + zlen data
  | NullableFixed _ null_map inner => zlen null_map + zlen inner
  | NullableString offsets data null_map _ => zlen offsets * 8 + zlen data + zlen null_map
  | OracleBuf o => o_wire_bytes o
  end.

Definition append_default (b : ColumnBuf) : ColumnBuf :=
  match b with
  | Fixed w bytes => Fixed w (bytes ++ zrep w 0)
  | StringBuf offsets data absent => let data := data ++ absent in StringBuf (offsets ++ [zlen data]) data absent
  | NullableFixed w null_map inner => NullableFixed w (null_map ++ [1]) (inner ++ zrep w 0)
  | NullableString offsets data null_map absent =>
      let data := data ++ absent in NullableString (offsets ++ [zlen data]) data (null_map ++ [1]) absent
  | OracleBuf o => OracleBuf (push o CellDefault)
  end.

Definition unsupported (k : UnsupportedKind) : EmitterError := UnsupportedValue [] k.

Definition append_fixed_bytes (b : ColumnBuf) (le : list Z) : result EmitterError ColumnBuf :=
  match b with
  | Fixed w bytes => if negb (zlen le =? w) then Err (TypeError (FixedWidth w (zlen le))) else Ok (Fixed w (bytes ++ le))
  | NullableFixed w null_map inner =>
      if negb (zlen le =? w) then Err (TypeError (FixedWidth w (zlen le))) else Ok (NullableFixed w (null_map ++ [0]) (inner ++ le))
  | _ => Err (unsupported FixedIntoString)
  end.

Definition append_string_bytes (b : ColumnBuf) (raw : list Z) : result EmitterError ColumnBuf :=
  match b with
  | StringBuf offsets data absent => let data := data ++ raw in Ok (StringBuf (offsets ++ [zlen data]) data absent)
  | NullableString offsets data null_map absent =>
      let data := data ++ raw in Ok (NullableString (offsets ++ [zlen data]) data (null_map ++ [0]) absent)
  | _ => Err (unsupported StringIntoFixed)
  end.

(** ** Values *)
Definition i64_try_from (z : Z) : result EmitterError Z :=
  if (I64_MIN <=? z) && (z <=? I64_MAX) then Ok z else Err (unsupported TemporalOverflow).

(** [i128] division truncates towards zero. *)
Definition micros_to_ticks (us scale : Z) : result EmitterError Z :=
  if negb ((0 <=? scale) && (scale <=? 9)) then Err (TypeError BadTemporalPrecision)
  else i64_try_from (if scale <? 6 then Z.quot us (10 ^ (6 - scale)) else us * 10 ^ (scale - 6)).

Definition timestamp_ticks (pg_us scale : Z) : result EmitterError Z := micros_to_ticks (pg_us + DATETIME64_PG_EPOCH_US) scale.

Definition decimal_error (e : Decimal.DecimalError) : EmitterError :=
  match e with Decimal.NegativeScale => TypeError BadScale | Decimal.OutOfRange => unsupported DecimalRange end.

Definition infinite (lo hi x : Z) : bool := (x =? lo) || (x =? hi).

Definition encode_value (b : ColumnBuf) (v : ColumnValue) (decimal : option DecimalWire) (timestamp_scale : Z) : result EmitterError ColumnBuf :=
  match v with
  | Null => Ok (append_default b)
  | Bool x => append_fixed_bytes b [if x then 1 else 0]
  | Char c => append_fixed_bytes b (le_enc 1 c)
  | Int2 n => append_fixed_bytes b (le_enc 2 n)
  | Int4 n => append_fixed_bytes b (le_enc 4 n)
  | Int8 n => append_fixed_bytes b (le_enc 8 n)
  | Float4 f => append_fixed_bytes b (le_enc 4 f)
  | Float8 f => append_fixed_bytes b (le_enc 8 f)
  | Oid n => append_fixed_bytes b (le_enc 4 n)
  | Date n =>
      if infinite I32_MIN I32_MAX n then Err (unsupported TemporalInfinity)
      else
        let days := n + DATE32_PG_EPOCH_DAYS in
        if I32_MAX <? days then Err (unsupported DateOverflow) else append_fixed_bytes b (le_enc 4 days)
  | Time n => let? ticks := micros_to_ticks n timestamp_scale in append_fixed_bytes b (le_enc 8 ticks)
  | Timestamp n | TimestampTz n =>
      if infinite I64_MIN I64_MAX n then Err (unsupported TemporalInfinity)
      else let? ticks := timestamp_ticks n timestamp_scale in append_fixed_bytes b (le_enc 8 ticks)
  | TimeTz micros tz_seconds => append_string_bytes b (AsciiBuf.chars (AsciiBuf.timetz_to_text 48 micros tz_seconds))
  | Uuid u => append_fixed_bytes b (AsciiBuf.uuid_to_ch_wire u)
  | Name s | TextVal s | Json s => append_string_bytes b s
  | NumericVal n =>
      match decimal with
      | Some d =>
          match n with
          | Numeric.Finite s =>
              match Decimal.decimal_text_to_scaled_le s (scale d) (wire_width d) with
              | Err e => Err (decimal_error e)
              | Ok scaled => append_fixed_bytes b (ztake (Decimal.width_bytes (wire_width d)) scaled)
              end
          | _ => Err (unsupported NonFiniteDecimal)
          end
      | None => append_string_bytes b (Numeric.as_text n)
      end
  | InetVal x => append_string_bytes b (AsciiBuf.chars (AsciiBuf.inet_to_text 48 x))
  | IntervalVal x => append_string_bytes b (AsciiBuf.chars (AsciiBuf.interval_to_text 80 x))
  | Bytea bytes => append_string_bytes b bytes
  | ExternalToast _ => Err (unsupported UnresolvedToast)
  | PgPendingText _ text => append_string_bytes b text
  | PgPending _ _ | Unsupported _ _ => Err (unsupported UnresolvedSource)
  end.

Definition oracle_cell (v : option ColumnValue) (source_type_oid : Z) : result EmitterError OracleCell :=
  let mismatch (got : Z) := unsupported (if got =? 0 then DecodedOnOracle else OtherSourceType) in
  match v with
  | None | Some Null => Ok CellDefault
  | Some (PgPending t raw) | Some (Unsupported t raw) => if negb (t =? source_type_oid) then Err (mismatch t) else Ok (DiskRaw raw)
  | Some (PgPendingText t text) => if negb (t =? source_type_oid) then Err (mismatch t) else Ok (TextInput text)
  | Some (Json s) => Ok (TextInput s)
  | Some (TextVal s) | Some (Name s) => Ok (CellLiteral s)
  | Some _ => Err (mismatch 0)
  end.

Definition name_column (e : EmitterError) (target : list Z) : EmitterError :=
  match e with UnsupportedValue _ k => UnsupportedValue target k | e => e end.

Definition map_err {A} (r : result EmitterError A) (target : list Z) : result EmitterError A :=
  match r with Ok a => Ok a | Err e => Err (name_column e target) end.

(** ** The encoder *)
Inductive Append := Done | Full.

Section Encoder.
Context `{TV : TypeViews}.

Definition new_for_ast (a : TypeAst) : ColumnBuf :=
  let nullable := bool_decide (ast_kind a = Some KNullable) in
  let inner := strip_nullable a in
  let absent := if bool_decide (ast_kind inner = Some KJson) then [123; 125] else [] in
  match nullable, elem_size inner =? 0 with
  | false, true => StringBuf [] [] absent
  | true, true => NullableString [] [] [] absent
  | false, false => Fixed (elem_size inner) []
  | true, false => NullableFixed (elem_size inner) [] []
  end.

(** [OracleColumnBuf::new]. *)
Definition new_oracle (oid typmod : Z) (target : TypeAst) : OracleColumnBuf :=
  with_target oid typmod (bool_decide (ast_kind (strip_nullable target) = Some KString)) (bool_decide (ast_kind target = Some KNullable)).

Definition fresh_column (c : ColumnPlan) : ColumnBuf :=
  match encoding c with
  | Local => new_for_ast (ast c)
  | OracleEnc oid typmod => OracleBuf (new_oracle oid typmod (ast c))
  end.

Definition fresh_synth (p : TablePlan) : list ColumnBuf :=
  [Fixed 8 []; Fixed 4 []; Fixed 8 []] ++ (if is_some (synth_is_deleted p) then [Fixed 1 []] else []) ++ (if is_some (synth_leaf p) then [Fixed 4 []] else []).

Definition fresh_buffers (p : TablePlan) : list ColumnBuf := map fresh_column (plan_columns p) ++ fresh_synth p.

Record TableEncoder := MkEncoder
  { plan : TablePlan; rows : Z; approx_bytes : Z; oracle_bytes : Z; oracle_overhead : Z; buffers : list ColumnBuf }.

Definition overhead (p : TablePlan) : Z :=
  REQUEST_FRAME_BYTES + zsum (map (fun c => request_column_bytes (cp_name c) (type_repr c)) (List.filter is_oracle (plan_columns p))).

(** [TableEncoder::new]. *)
Definition new_encoder (p : TablePlan) : TableEncoder := MkEncoder p 0 0 (overhead p) (overhead p) (fresh_buffers p).

Definition take_block (e : TableEncoder) : list ColumnBuf * Z * TableEncoder :=
  (buffers e, rows e, MkEncoder (plan e) 0 0 (oracle_overhead e) (oracle_overhead e) (fresh_buffers (plan e))).

(** What a row brings: its tuple, the mapping it was routed by, the operation
    and the partition it came from. *)
Record Row := MkRowIn { tuple : CommittedTuple; row_mapping : TableMapping; op_code : Z; row_leaf : option Z }.

Definition side (r : Row) : option DecodedTuple :=
  match op (decoded (tuple r)) with Delete => old (decoded (tuple r)) | _ => new (decoded (tuple r)) end.

Definition value_of (r : Row) (col : ColumnMapping) : option ColumnValue :=
  let* t := side r in mjoin (zget (columns t) (src_attnum col - 1)).

(** The sizing loop: the row's oracle cells, the bytes they add to the request,
    and the bytes of the literals they strand. *)
Fixpoint size_cells (r : Row) (cols : list ColumnMapping) (bufs : list ColumnBuf) : result EmitterError (list OracleCell * Z * Z) :=
  match cols, bufs with
  | [], _ => Ok ([], 0, 0)
  | _ :: _, [] => Err Panic
  | col :: cols, OracleBuf o :: bufs =>
      let? cell := map_err (oracle_cell (value_of r col) (source_type_oid o)) (col_name col) in
      let? (cells, row_bytes, stranded) := size_cells r cols bufs in
      if resolves_locally o cell then Ok (cell :: cells, row_bytes, stranded)
      else Ok (cell :: cells, wire_bytes cell + row_bytes, stranded_bytes o + stranded)
  | _ :: cols, _ :: bufs => size_cells r cols bufs
  end.

(** The appending loop: the mapped columns' buffers, and those after them. *)
Fixpoint fill (r : Row) (cols : list ColumnMapping) (plans : list ColumnPlan) (bufs : list ColumnBuf) (cells : list OracleCell)
    : result EmitterError (list ColumnBuf * list ColumnBuf) :=
  match cols, plans, bufs with
  | [], _, _ => Ok ([], bufs)
  | col :: cols, p :: plans, b :: bufs =>
      match b with
      | OracleBuf o =>
          match cells with
          | [] => Err Panic
          | cell :: cells => let? (done, rest) := fill r cols plans bufs cells in Ok (OracleBuf (push o cell) :: done, rest)
          end
      | _ =>
          let? b := match value_of r col with
                    | None => Ok (append_default b)
                    | Some v => map_err (encode_value b (substitute (non_finite p) v) (decimal p) (dt_scale p)) (col_name col)
                    end in
          let? (done, rest) := fill r cols plans bufs cells in Ok (b :: done, rest)
      end
  | _ :: _, _, _ => Err Panic
  end.

(** [i64::saturating_add]. *)
Definition i64_sat_add (a b : Z) : Z := Z.max I64_MIN (Z.min I64_MAX (a + b)).

(** The bytes of the synthetic columns, in their order. *)
Definition synth_values (p : TablePlan) (r : Row) : list (list Z) :=
  [le_enc 8 (source_lsn (decoded (tuple r))); le_enc 4 (xid (decoded (tuple r)));
   le_enc 8 (i64_sat_add (commit_ts (tuple r)) DATETIME64_PG_EPOCH_US)]
  ++ (if is_some (synth_is_deleted p) then [le_enc 1 (if op_code r =? OP_DELETE then 1 else 0)] else [])
  ++ (if is_some (synth_leaf p) then [le_enc 4 (default 0 (row_leaf r))] else []).

Fixpoint push_all (bufs : list ColumnBuf) (values : list (list Z)) : result EmitterError (list ColumnBuf) :=
  match values, bufs with
  | [], _ => Ok bufs
  | v :: values, b :: bufs => let? b := append_fixed_bytes b v in let? rest := push_all bufs values in Ok (b :: rest)
  | _ :: _, [] => Err Panic
  end.

Definition append_routed (e : TableEncoder) (r : Row) : result EmitterError (Append * TableEncoder) :=
  let cols := map_columns (row_mapping r) in
  let? (cells, row_bytes, stranded) := size_cells r cols (buffers e) in
  if (0 <? rows e) && (ORACLE_BATCH_SEAL_BYTES <? oracle_bytes e + row_bytes + stranded) then Ok (Full, e)
  else if MAX_REQUEST_BYTES <? oracle_overhead e + row_bytes then Err (TypeError (RowTooLarge row_bytes))
  else
    let? (done, rest) := fill r cols (plan_columns (plan e)) (buffers e) cells in
    let? rest := push_all rest (synth_values (plan e) r) in
    let bufs := done ++ rest in
    Ok (Done, MkEncoder (plan e) (rows e + 1) (zsum (map approx_size bufs)) (oracle_bytes e + (row_bytes + stranded)) (oracle_overhead e) bufs).

(** ** Resolving a sealed block ([src/emit/pipeline/resolver.rs]) *)
Definition literal_start (o : OracleColumnBuf) : ColumnBuf := if nullable_target o then NullableString [] [] [] [] else StringBuf [] [] [].

Fixpoint literal_cells (b : ColumnBuf) (cs : list OracleCell) : option ColumnBuf :=
  match cs with
  | [] => Some b
  | CellLiteral bytes :: cs => match append_string_bytes b bytes with Ok b => literal_cells b cs | Err _ => None end
  | _ :: cs => literal_cells (append_default b) cs
  end.

Definition literal_column (o : OracleColumnBuf) (n_rows : Z) : option ColumnBuf :=
  if negb (resolves_batch_locally o n_rows) then None else literal_cells (literal_start o) (cells o).

Definition resolve_local_column (n_rows : Z) (b : ColumnBuf) : ColumnBuf :=
  match b with OracleBuf o => default b (literal_column o n_rows) | _ => b end.

Definition resolve_local_columns (bufs : list ColumnBuf) (n_rows : Z) : list ColumnBuf := map (resolve_local_column n_rows) bufs.

(** The request columns of [resolve_oracle], named from the batch's columns. *)
Fixpoint request_columns (i : Z) (metas : list (list Z * list Z)) (bufs : list ColumnBuf) : list OracleRequestColumn :=
  match metas, bufs with
  | m :: metas, OracleBuf o :: bufs => MkRequestColumn i m.1 m.2 o :: request_columns (i + 1) metas bufs
  | _ :: metas, _ :: bufs => request_columns (i + 1) metas bufs
  | _, _ => []
  end.

Definition meta_of (c : ColumnPlan) : list Z * list Z := (cp_name c, type_repr c).

(** Names and types of [BatchMeta::from_plan]. *)
Definition batch_columns (p : TablePlan) : list (list Z * list Z) :=
  map meta_of (plan_columns p ++ [synth_lsn p; synth_xid p; synth_commit_ts p] ++ option_list (synth_is_deleted p) ++ option_list (synth_leaf p)).

End Encoder.
End Encoder.
