(* ===== verification/EncoderProofs.v ===== *)
(** * What the encoder's blocks hold

    A block is the columnar layout of a table of cells: every buffer has one
    entry per row appended and each entry denotes the value of that row.  The
    request of a sealed batch stays within the bridge's frame cap. *)
From S2P Require Import Prelude Text WalRecord AsciiBuf Numeric Decimal HeapDecode Spill Outbox Rules TablePlan Encoder.
Import Schema HeapDecode.

Module Layout.
Import Oracle Route TablePlan Place Encoder.

(** ** Cells and their layout *)
Inductive Cell := CDefault | CBytes (l : list Z) | COracle (c : OracleCell).

Inductive Shape :=
| ShFixed (w : Z) | ShString (absent : list Z) | ShNullableFixed (w : Z) | ShNullableString (absent : list Z)
| ShOracle (oid typmod : Z) (string_target nullable_target : bool).

Definition payload (dflt : list Z) (c : Cell) : list Z := match c with CBytes l => l | _ => dflt end.

Definition null_flag (c : Cell) : Z := match c with CBytes _ => 0 | _ => 1 end.

Definition to_oracle (c : Cell) : OracleCell := match c with COracle o => o | _ => CellDefault end.

(** Cumulative ends. *)
Fixpoint ends (acc : Z) (l : list (list Z)) : list Z :=
  match l with [] => [] | x :: l => (acc + zlen x) :: ends (acc + zlen x) l end.

Definition layout (s : Shape) (cs : list Cell) : ColumnBuf :=
  match s with
  | ShFixed w => Fixed w (concat (map (payload (zrep w 0)) cs))
  | ShString a => StringBuf (ends 0 (map (payload a) cs)) (concat (map (payload a) cs)) a
  | ShNullableFixed w => NullableFixed w (map null_flag cs) (concat (map (payload (zrep w 0)) cs))
  | ShNullableString a => NullableString (ends 0 (map (payload a) cs)) (concat (map (payload a) cs)) (map null_flag cs) a
  | ShOracle oid typmod st nt => OracleBuf (fold_left push (map to_oracle cs) (with_target oid typmod st nt))
  end.

(** A cell a column of this shape can hold. *)
Definition cell_ok (s : Shape) (c : Cell) : Prop :=
  match s, c with
  | ShFixed w, CBytes l | ShNullableFixed w, CBytes l => zlen l = w
  | ShOracle _ _ _ _, CBytes _ => False
  | ShOracle _ _ _ _, _ => True
  | _, COracle _ => False
  | _, _ => True
  end.

Lemma ends_snoc l x acc : ends acc (l ++ [x]) = ends acc l ++ [acc + zlen (concat (l ++ [x]))].
Proof.
  revert acc. induction l as [|y l IH]; intros acc; cbn [app ends concat]; [by rewrite app_nil_r|]. rewrite IH, !zlen_app. do 3 f_equal. lia.
Qed.

Lemma layout_default s cs : append_default (layout s cs) = layout s (cs ++ [CDefault]).
Proof.
  destruct s; cbn [layout append_default]; rewrite ?map_app; cbn [map]; rewrite ?ends_snoc, ?concat_app, ?Z.add_0_l; cbn [concat payload null_flag to_oracle]; rewrite ?app_nil_r; try done. by rewrite fold_left_app.
Qed.

Lemma layout_fixed s cs le b : append_fixed_bytes (layout s cs) le = Ok b -> b = layout s (cs ++ [CBytes le]) /\ cell_ok s (CBytes le).
Proof.
  destruct s; cbn [layout append_fixed_bytes]; try done; (destruct (Z.eqb_spec (zlen le) w); cbn [negb]; [|done]); intros [= <-]; (split; [|done]);
    rewrite ?map_app, ?concat_app; cbn [map concat payload null_flag]; by rewrite ?app_nil_r.
Qed.

Lemma layout_string s cs raw b : append_string_bytes (layout s cs) raw = Ok b -> b = layout s (cs ++ [CBytes raw]) /\ cell_ok s (CBytes raw).
Proof.
  destruct s; cbn [layout append_string_bytes]; try done; intros [= <-]; (split; [|done]); rewrite ?map_app; cbn [map]; rewrite ?ends_snoc, ?concat_app, ?Z.add_0_l; cbn [concat payload null_flag]; by rewrite ?app_nil_r.
Qed.

(** ** What a cell denotes *)
Definition in_range (v : ColumnValue) : Prop :=
  match v with
  | Char i => - 2 ^ 7 <= i < 2 ^ 7
  | Int2 i => - 2 ^ 15 <= i < 2 ^ 15
  | Int4 i | Date i => - 2 ^ 31 <= i < 2 ^ 31
  | Int8 i | Time i | Timestamp i | TimestampTz i => - 2 ^ 63 <= i < 2 ^ 63
  | Float4 f | Oid f => fits 32 f
  | Float8 f => fits 64 f
  | _ => True
  end.

(** [t] ticks of [10^-s] seconds are [us] microseconds, towards zero. *)
Definition ticks_of (us s t : Z) : Prop := 0 <= s <= 9 /\ t = if s <? 6 then Z.quot us (10 ^ (6 - s)) else us * 10 ^ (s - 6).

Definition signed_cell (n : Z) (l : list Z) (v : Z) : Prop := zlen l = n /\ signed (8 * n) (le_dec l) = v.

Definition denotes (d : option DecimalWire) (s : Z) (v : ColumnValue) (c : Cell) : Prop :=
  match v, c with
  | Null, CDefault => True
  | Bool b, CBytes l => l = [if b then 1 else 0]
  | Char i, CBytes l => signed_cell 1 l i
  | Int2 i, CBytes l => signed_cell 2 l i
  | Int4 i, CBytes l => signed_cell 4 l i
  | Int8 i, CBytes l => signed_cell 8 l i
  | Float4 f, CBytes l | Oid f, CBytes l => zlen l = 4 /\ le_dec l = f
  | Float8 f, CBytes l => zlen l = 8 /\ le_dec l = f
  | Date i, CBytes l => signed_cell 4 l (i + DATE32_PG_EPOCH_DAYS)
  | Time i, CBytes l => exists t, signed_cell 8 l t /\ ticks_of i s t
  | Timestamp i, CBytes l | TimestampTz i, CBytes l => exists t, signed_cell 8 l t /\ ticks_of (i + DATETIME64_PG_EPOCH_US) s t
  | TimeTz m z, CBytes l => l = AsciiBuf.chars (AsciiBuf.timetz_to_text 48 m z)
  | Uuid u, CBytes l => l = AsciiBuf.uuid_to_ch_wire u
  | Name t, CBytes l | TextVal t, CBytes l | Json t, CBytes l | Bytea t, CBytes l | PgPendingText _ t, CBytes l => l = t
  | NumericVal k, CBytes l =>
      match d with
      | None => l = Numeric.as_text k
      | Some w => exists text, k = Numeric.Finite text /\ zlen l = Decimal.width_bytes (wire_width w) /\
                    Decimal.decimal_spec text (scale w) (wire_width w) = Ok (l ++ zrep (32 - Decimal.width_bytes (wire_width w)) 0)
      end
  | InetVal x, CBytes l => l = AsciiBuf.chars (AsciiBuf.inet_to_text 48 x)
  | IntervalVal x, CBytes l => l = AsciiBuf.chars (AsciiBuf.interval_to_text 80 x)
  | _, _ => False
  end.

Lemma signed_le_enc n v : (0 < n)%nat -> - 2 ^ (8 * Z.of_nat n - 1) <= v < 2 ^ (8 * Z.of_nat n - 1) -> signed_cell (Z.of_nat n) (le_enc n v) v.
Proof.
  intros Hn Hv. split; [apply zlen_le_enc|]. rewrite le_dec_enc. replace (256 ^ Z.of_nat n) with (2 ^ (8 * Z.of_nat n)) by (rewrite Z.pow_mul_r by lia; done). apply Numeric.signed_mod; lia.
Qed.

Lemma unsigned_le_enc n v : fits (8 * Z.of_nat n) v -> zlen (le_enc n v) = Z.of_nat n /\ le_dec (le_enc n v) = v.
Proof. intros Hv. split; [apply zlen_le_enc|]. apply le_dec_enc_small. unfold fits in Hv. rewrite Z.pow_mul_r in Hv by lia. done. Qed.

Lemma ticks_spec us s t : micros_to_ticks us s = Ok t -> ticks_of us s t /\ - 2 ^ 63 <= t < 2 ^ 63.
Proof.
  unfold micros_to_ticks. destruct ((0 <=? s) && (s <=? 9)) eqn:E; [|done]. apply andb_prop in E as [E1%Z.leb_le E2%Z.leb_le]. cbn [negb]. unfold i64_try_from.
  set (x := if s <? 6 then _ else _). destruct ((I64_MIN <=? x) && (x <=? I64_MAX)) eqn:Ex; [|done]. intros [= <-]. apply andb_prop in Ex as [X1%Z.leb_le X2%Z.leb_le]. unfold I64_MIN, I64_MAX in *.
  split; [|lia]. split; [lia|done].
Qed.

Ltac cell Hb := first [apply layout_fixed in Hb | apply layout_string in Hb]; destruct Hb as [-> Hcell]; eexists; split; [reflexivity|split; [exact Hcell|intros Hv; cbn [in_range] in Hv]].

Lemma decimal_cell text w l : Decimal.decimal_text_to_scaled_le text (scale w) (wire_width w) = Ok l ->
  zlen (ztake (Decimal.width_bytes (wire_width w)) l) = Decimal.width_bytes (wire_width w) /\
  Decimal.decimal_spec text (scale w) (wire_width w) = Ok (ztake (Decimal.width_bytes (wire_width w)) l ++ zrep (32 - Decimal.width_bytes (wire_width w)) 0).
Proof.
  rewrite Decimal.conversion_exact. intros H. pose proof H as H0. unfold Decimal.decimal_spec in H. destruct (scale w <? 0); [done|]. destruct (_ && _); [|done]. injection H as <-.
  rewrite H0. split.
  - rewrite zlen_ztake, zlen_app, zlen_le_enc, zlen_zrep. by destruct (wire_width w).
  - rewrite ztake_app_exact; [done|]. rewrite zlen_le_enc. by destruct (wire_width w).
Qed.

Lemma encode_value_denotes s cs v d sc b : encode_value (layout s cs) v d sc = Ok b ->
  exists c, b = layout s (cs ++ [c]) /\ cell_ok s c /\ (in_range v -> denotes d sc v c).
Proof.
  intros Hb. destruct v as [|x|i|i|i|i|f|f|i|i|i|i|i|m z|u|t|t|t|k|iv|iv|t|o raw|o t|p|o raw]; cbn [encode_value] in *; try done.
  - injection Hb as <-. exists CDefault. split; [apply layout_default|]. split; [by destruct s|done].
  - by cell Hb.
  - cell Hb. apply (signed_le_enc 1); lia.
  - cell Hb. apply (signed_le_enc 2); lia.
  - cell Hb. apply (signed_le_enc 4); lia.
  - cell Hb. apply (signed_le_enc 8); lia.
  - cell Hb. by apply (unsigned_le_enc 4).
  - cell Hb. by apply (unsigned_le_enc 8).
  - cell Hb. by apply (unsigned_le_enc 4).
  - destruct (infinite _ _ _); [done|]. destruct (Z.ltb_spec I32_MAX (i + DATE32_PG_EPOCH_DAYS)) as [|Hle]; [done|]. cell Hb. apply (signed_le_enc 4); [lia|]. unfold I32_MAX in Hle.
    change DATE32_PG_EPOCH_DAYS with 10957 in *. lia.
  - destruct (micros_to_ticks i sc) as [t|] eqn:Et; [|done]. destruct (ticks_spec _ _ _ Et). cell Hb. exists t. split; [apply (signed_le_enc 8); lia|done].
  - destruct (infinite _ _ _); [done|]. destruct (timestamp_ticks i sc) as [t|] eqn:Et; [|done]. destruct (ticks_spec _ _ _ Et). cell Hb. exists t. split; [apply (signed_le_enc 8); lia|done].
  - destruct (infinite _ _ _); [done|]. destruct (timestamp_ticks i sc) as [t|] eqn:Et; [|done]. destruct (ticks_spec _ _ _ Et). cell Hb. exists t. split; [apply (signed_le_enc 8); lia|done].
  - by cell Hb.
  - by cell Hb.
  - by cell Hb.
  - by cell Hb.
  - by cell Hb.
  - destruct d as [w|]; [|by cell Hb]. destruct k as [| | |text]; try done. destruct (Decimal.decimal_text_to_scaled_le _ _ _) as [l|] eqn:El; [|done]. destruct (decimal_cell _ _ _ El). cell Hb. by exists text.
  - by cell Hb.
  - by cell Hb.
  - by cell Hb.
  - by cell Hb.
Qed.

(** ** Blocks *)
Section Block.
Context `{TV : TypeViews}.

Definition col_shape (c : ColumnPlan) : Shape :=
  match encoding c with
  | OracleEnc oid typmod => ShOracle oid typmod (bool_decide (ast_kind (strip_nullable (ast c)) = Some KString)) (bool_decide (ast_kind (ast c) = Some KNullable))
  | Local =>
      let inner := strip_nullable (ast c) in
      let absent := if bool_decide (ast_kind inner = Some KJson) then [123; 125] else [] in
      match bool_decide (ast_kind (ast c) = Some KNullable), elem_size inner =? 0 with
      | false, true => ShString absent
      | true, true => ShNullableString absent
      | false, false => ShFixed (elem_size inner)
      | true, false => ShNullableFixed (elem_size inner)
      end
  end.

Definition synth_shapes (p : TablePlan) : list Shape :=
  [ShFixed 8; ShFixed 4; ShFixed 8] ++ (if is_some (synth_is_deleted p) then [ShFixed 1] else []) ++ (if is_some (synth_leaf p) then [ShFixed 4] else []).

Definition shapes (p : TablePlan) : list Shape := map col_shape (plan_columns p) ++ synth_shapes p.

(** The block of a table of cells, column by column. *)
Definition block (p : TablePlan) (cols : list (list Cell)) : list ColumnBuf := zip_with layout (shapes p) cols.

Definition snoc_cells (cols : list (list Cell)) (cs : list Cell) : list (list Cell) := zip_with (fun col c => col ++ [c]) cols cs.

Lemma fresh_layout c : fresh_column c = layout (col_shape c) [].
Proof. unfold fresh_column, col_shape, new_for_ast, new_oracle. destruct (encoding c); [|done]. destruct (bool_decide (ast_kind (ast c) = _)), (_ =? 0); done. Qed.

Lemma fresh_block p : fresh_buffers p = block p (replicate (length (shapes p)) []).
Proof.
  assert (forall l, zip_with layout l (replicate (length l) []) = map (fun s => layout s []) l) as H by (induction l as [|s l IH]; cbn; congruence).
  unfold block. rewrite H. unfold fresh_buffers, shapes. rewrite map_app, map_map. f_equal; [apply map_ext; intros; apply fresh_layout|].
  unfold fresh_synth, synth_shapes. destruct (is_some (synth_is_deleted p)), (is_some (synth_leaf p)); done.
Qed.

(** The cell a row puts in a mapped column. *)
Definition cell_for (r : Row) (m : ColumnMapping) (p : ColumnPlan) (c : Cell) : Prop :=
  match encoding p with
  | OracleEnc oid _ => exists o, oracle_cell (value_of r m) oid = Ok o /\ c = COracle o
  | Local => match value_of r m with None => c = CDefault | Some v => denotes (decimal p) (dt_scale p) (substitute (non_finite p) v) c end
  end.

Definition row_in_range (r : Row) : Prop := forall m v, value_of r m = Some v -> in_range v.

Definition substitutes_in_range (p : ColumnPlan) : Prop :=
  forall v, v ∈ [nf_nan (non_finite p); nf_pos_inf (non_finite p); nf_neg_inf (non_finite p)] -> match v with Some v => in_range v | None => True end.

Lemma substitute_range p v : substitutes_in_range p -> in_range v -> in_range (substitute (non_finite p) v).
Proof.
  intros Hs Hv. assert (forall o, o ∈ [nf_nan (non_finite p); nf_pos_inf (non_finite p); nf_neg_inf (non_finite p)] -> in_range (or_same v o)) as Ho.
  { intros o Hin. specialize (Hs o Hin). by destruct o. }
  assert (forall lo hi x, in_range (infinity_of (non_finite p) v lo hi x)) as Hi by (intros lo hi x; unfold infinity_of; destruct (x =? hi); [apply Ho; set_solver|]; destruct (x =? lo); [apply Ho; set_solver|done]).
  destruct v as [| | | | | | | | | | | | | | | | | |[]| | | | | | |]; cbn [substitute]; try done; try apply Hi; apply Ho; set_solver.
Qed.

Lemma push_keeps o c : source_type_oid (push o c) = source_type_oid o /\ source_typmod (push o c) = source_typmod o /\ string_target (push o c) = string_target o /\
  nullable_target (push o c) = nullable_target o /\ cells (push o c) = cells o ++ [c].
Proof. done. Qed.

Lemma fold_push_keeps cs o : source_type_oid (fold_left push cs o) = source_type_oid o /\ string_target (fold_left push cs o) = string_target o /\
  nullable_target (fold_left push cs o) = nullable_target o /\ cells (fold_left push cs o) = cells o ++ cs.
Proof.
  revert o. induction cs as [|c cs IH]; intros o; cbn [fold_left]; [by rewrite app_nil_r|]. destruct (IH (push o c)) as (-> & -> & -> & ->). destruct (push_keeps o c) as (-> & _ & -> & -> & ->). by rewrite <-app_assoc.
Qed.

Lemma local_layout c col : encoding c = Local -> forall o, layout (col_shape c) col <> OracleBuf o.
Proof. intros He o. unfold col_shape. rewrite He. by destruct (bool_decide (ast_kind (ast c) = _)), (_ =? 0). Qed.

Lemma oracle_layout c col oid typmod : encoding c = OracleEnc oid typmod ->
  exists o, layout (col_shape c) col = OracleBuf o /\ source_type_oid o = oid /\ (forall x, OracleBuf (push o x) = layout (col_shape c) (col ++ [COracle x])) /\ (forall x, cell_ok (col_shape c) (COracle x)).
Proof.
  intros He. unfold col_shape. rewrite He. cbn [layout]. eexists. split; [reflexivity|]. split; [by destruct (fold_push_keeps (map to_oracle col) (with_target oid typmod (bool_decide (ast_kind (strip_nullable (ast c)) = Some KString)) (bool_decide (ast_kind (ast c) = Some KNullable)))) as (-> & _)|].
  split; [|done]. intros x. by rewrite map_app, fold_left_app.
Qed.

Lemma fill_cells_spec r : forall ms plans cols cells rest0 x y filled rest, length ms = length plans -> length cols = length plans ->
  size_cells r ms (zip_with layout (map col_shape plans) cols ++ rest0) = Ok (cells, x, y) ->
  fill r ms plans (zip_with layout (map col_shape plans) cols ++ rest0) cells = Ok (filled, rest) ->
  rest = rest0 /\ exists cs, length cs = length plans /\ filled = zip_with layout (map col_shape plans) (snoc_cells cols cs) /\
    Forall2 cell_ok (map col_shape plans) cs /\ (row_in_range r -> Forall substitutes_in_range plans -> Forall3 (cell_for r) ms plans cs).
Proof.
  induction ms as [|m ms IH]; intros [|p plans] [|col cols] cells0 rest0 x y filled rest Hl1 Hl2; try done.
  { cbn. intros _ [= <- <-]. split; [done|]. exists []. split_and!; [done|done|constructor|constructor]. }
  cbn [map zip_with app size_cells fill]. destruct (encoding p) as [|oid typmod] eqn:He.
  - pose proof (local_layout p col He) as Hno.
    assert (forall A (f : OracleColumnBuf -> A) (g : A), match layout (col_shape p) col with OracleBuf o => f o | _ => g end = g) as Hm by (intros A f g; specialize (Hno); destruct (layout (col_shape p) col); [done..|by specialize (Hno o)]).
    rewrite !Hm. intros Hz. set (v := match value_of r m with None => _ | Some _ => _ end). assert (forall b, v = Ok b -> exists c, b = layout (col_shape p) (col ++ [c]) /\ cell_ok (col_shape p) c /\ (row_in_range r -> substitutes_in_range p -> cell_for r m p c)) as Hv.
    { unfold v, cell_for. rewrite He. destruct (value_of r m) as [w|] eqn:Ew; [|intros b [= <-]; exists CDefault; rewrite layout_default; split_and!; [done|by destruct (col_shape p)|done]].
      unfold map_err. destruct (encode_value _ _ _ _) as [b'|] eqn:Ee; [|done]. intros b [= <-]. apply encode_value_denotes in Ee as (c & E1 & E2 & E3). exists c. split_and!; [done|done|]. intros Hr Hs. apply E3, substitute_range; [done|by eapply Hr]. }
    destruct v as [b|]; [|done]. destruct (Hv b eq_refl) as (c & -> & Hc & Hf). destruct (fill r ms plans _ cells0) as [[done' rest']|] eqn:Ef; [|done]. intros [= <- <-].
    destruct (IH plans cols cells0 rest0 x y done' rest' ltac:(cbn in *; lia) ltac:(cbn in *; lia) Hz Ef) as [-> (cs & L & -> & H1 & H2)]. split; [done|]. exists (c :: cs).
    split_and!; [cbn; lia|done|by constructor|]. intros Hr [Hp Hs]%Forall_cons_1. constructor; [by apply Hf|by apply H2].
  - destruct (oracle_layout p col oid typmod He) as (o & Eo & Hoid & Hpush & Hok). rewrite Eo. unfold map_err at 1. rewrite Hoid. destruct (oracle_cell (value_of r m) oid) as [cell|] eqn:Ec; [|done].
    destruct (size_cells r ms _) as [[[cs' x'] y']|] eqn:Es; [|done]. intros Hz. assert (cells0 = cell :: cs') as -> by (destruct (resolves_locally o cell); by injection Hz).
    destruct (fill r ms plans _ cs') as [[done' rest']|] eqn:Ef; [|done]. intros [= <- <-].
    destruct (IH plans cols cs' rest0 x' y' done' rest' ltac:(cbn in *; lia) ltac:(cbn in *; lia) Es Ef) as [-> (cs & L & -> & H1 & H2)]. split; [done|]. exists (COracle cell :: cs).
    split_and!; [cbn; lia|by rewrite Hpush|by constructor|]. intros Hr [_ Hs]%Forall_cons_1. constructor; [|by apply H2]. unfold cell_for. rewrite He. by exists cell.
Qed.

Lemma push_all_spec vals : forall shs cols rest, length cols = length shs -> length vals = length shs -> push_all (zip_with layout shs cols) vals = Ok rest ->
  rest = zip_with layout shs (snoc_cells cols (map CBytes vals)) /\ Forall2 cell_ok shs (map CBytes vals).
Proof.
  induction vals as [|v vals IH]; intros [|s shs] [|col cols] rest Hl1 Hl2; try done; [cbn; intros [= <-]; split; [done|constructor]|]. cbn [zip_with push_all map].
  destruct (append_fixed_bytes _ v) as [b|] eqn:Eb; [|done]. apply layout_fixed in Eb as [-> Hc]. destruct (push_all _ vals) as [rest'|] eqn:Er; [|done]. intros [= <-].
  destruct (IH shs cols rest' ltac:(cbn in *; lia) ltac:(cbn in *; lia) Er) as [-> HF]. split; [done|by constructor].
Qed.

(** ** The encoder's invariant *)
Definition sent_bytes (b : ColumnBuf) : Z := match b with OracleBuf o => if remote_cells o =? 0 then 0 else o_wire_bytes o | _ => 0 end.

Definition oracle_ok (o : OracleColumnBuf) : Prop :=
  o_wire_bytes o = zsum (map wire_bytes (cells o)) /\ 0 <= remote_cells o /\ (remote_cells o = 0 -> literal_bytes o = o_wire_bytes o) /\
  (string_target o = false -> remote_cells o = zlen (cells o)).

Definition buf_ok (b : ColumnBuf) : Prop := match b with OracleBuf o => oracle_ok o | _ => True end.

Definition is_oracle_buf (b : ColumnBuf) : bool := match b with OracleBuf _ => true | _ => false end.

Lemma wire_bytes_pos c : 0 < wire_bytes c.
Proof. destruct c; cbn; try pose proof (zlen_nonneg b); lia. Qed.

Lemma push_ok o c : oracle_ok o -> oracle_ok (push o c) /\
  sent_bytes (OracleBuf (push o c)) = sent_bytes (OracleBuf o) + if resolves_locally o c then 0 else wire_bytes c + stranded_bytes o.
Proof.
  intros (H1 & H2 & H3 & H4). pose proof (wire_bytes_pos c). unfold push. destruct (resolves_locally o c) eqn:Er; unfold oracle_ok, sent_bytes, stranded_bytes; cbn [o_wire_bytes cells remote_cells literal_bytes string_target].
  - unfold resolves_locally in Er. apply andb_prop in Er as [[Est Er%Z.eqb_eq]%andb_prop _]. rewrite Er, map_app, zsum_app. cbn. rewrite Est. split; [|lia]. split_and!; [lia|lia|intros _; specialize (H3 Er); lia|done].
  - rewrite map_app, zsum_app, zlen_app. cbn [map zsum fold_right]. change (zlen [c]) with 1. split; [split_and!; [lia|lia|lia|intros Hs; specialize (H4 Hs); lia]|].
    rewrite (proj2 (Z.eqb_neq _ 0)) by lia. destruct (Z.eqb_spec (remote_cells o) 0) as [E|E]; [specialize (H3 E)|]; lia.
Qed.

Lemma append_fixed_local b l b' : append_fixed_bytes b l = Ok b' -> is_oracle_buf b' = false.
Proof. destruct b; cbn; try done; destruct (_ =? _); cbn; try done; by intros [= <-]. Qed.

Lemma append_string_local b l b' : append_string_bytes b l = Ok b' -> is_oracle_buf b' = false.
Proof. destruct b; cbn; try done; by intros [= <-]. Qed.

Lemma encode_value_local b v d s b' : is_oracle_buf b = false -> encode_value b v d s = Ok b' -> is_oracle_buf b' = false.
Proof.
  intros Hb. destruct v; cbn [encode_value]; repeat case_match; try done; try apply append_fixed_local; try apply append_string_local. intros [= <-]. by destruct b.
Qed.

Lemma local_buf b : is_oracle_buf b = false -> buf_ok b /\ sent_bytes b = 0.
Proof. by destruct b. Qed.

Lemma fill_accounts r : forall ms plans bufs cells x y filled rest, Forall buf_ok bufs -> size_cells r ms bufs = Ok (cells, x, y) -> fill r ms plans bufs cells = Ok (filled, rest) ->
  Forall buf_ok (filled ++ rest) /\ zsum (map sent_bytes (filled ++ rest)) = zsum (map sent_bytes bufs) + x + y.
Proof.
  induction ms as [|m ms IH]; intros plans bufs cells0 x y filled rest HF; [cbn; intros [= <- <- <-] [= <- <-]; split; [done|cbn [app]; lia]|].
  destruct plans as [|p plans]; [by destruct bufs|]. destruct bufs as [|b bufs]; [done|]. apply Forall_cons_1 in HF as [Hb HF]. destruct (is_oracle_buf b) eqn:Eb.
  - destruct b as [| | | |o]; try done. cbn [size_cells fill]. destruct (map_err _ _) as [cell|]; [|done]. destruct (size_cells r ms bufs) as [[[cs x'] y']|] eqn:Es; [|done]. intros Hz.
    assert (cells0 = cell :: cs /\ x + y = x' + y' + if resolves_locally o cell then 0 else wire_bytes cell + stranded_bytes o) as [-> Hxy] by (destruct (resolves_locally o cell); injection Hz as <- <- <-; (split; [done|lia])).
    destruct (fill r ms plans bufs cs) as [[done' rest']|] eqn:Ef; [|done]. intros [= <- <-]. destruct (IH _ _ _ _ _ _ _ HF Es Ef) as [H1 H2]. destruct (push_ok o cell Hb) as [P1 P2].
    split; [by constructor|]. change (sent_bytes (OracleBuf (push o cell)) + zsum (map sent_bytes (done' ++ rest')) = sent_bytes (OracleBuf o) + zsum (map sent_bytes bufs) + x + y). lia.
  - assert (forall A (f : OracleColumnBuf -> A) (g : A), match b with OracleBuf o => f o | _ => g end = g) as Hm by (by destruct b).
    cbn [size_cells fill]. rewrite !Hm. intros Es. set (v := match value_of r m with None => _ | Some _ => _ end). assert (forall b', v = Ok b' -> is_oracle_buf b' = false) as Hv.
    { unfold v. destruct (value_of r m); [|intros b' [= <-]; by destruct b]. unfold map_err. destruct (encode_value _ _ _ _) eqn:Ee; [|done]. intros b' [= <-]. by apply encode_value_local in Ee. }
    destruct v as [b'|]; [|done]. destruct (local_buf b' (Hv b' eq_refl)) as [O1 O2]. destruct (local_buf b Eb) as [_ O3]. destruct (fill r ms plans bufs cells0) as [[done' rest']|] eqn:Ef; [|done]. intros [= <- <-].
    destruct (IH _ _ _ _ _ _ _ HF Es Ef) as [H1 H2]. split; [by constructor|]. change (sent_bytes b' + zsum (map sent_bytes (done' ++ rest')) = sent_bytes b + zsum (map sent_bytes bufs) + x + y). lia.
Qed.

Lemma push_all_accounts vals : forall bufs rest, Forall buf_ok bufs -> push_all bufs vals = Ok rest -> Forall buf_ok rest /\ zsum (map sent_bytes rest) = zsum (map sent_bytes bufs).
Proof.
  induction vals as [|v vals IH]; intros bufs rest HF; [destruct bufs; cbn; by intros [= <-]|]. destruct bufs as [|b bufs]; [done|]. apply Forall_cons_1 in HF as [Hb HF]. cbn [push_all].
  destruct (append_fixed_bytes b v) as [b'|] eqn:Eb; [|done]. destruct (push_all bufs vals) as [rest'|] eqn:Er; [|done]. intros [= <-]. destruct (IH _ _ HF Er) as [H1 H2].
  destruct (local_buf b' (append_fixed_local _ _ _ Eb)) as [O1 O2]. split; [by constructor|]. assert (sent_bytes b = 0) as O3 by (by destruct b). change (sent_bytes b' + zsum (map sent_bytes rest') = sent_bytes b + zsum (map sent_bytes bufs)). lia.
Qed.

Lemma stranded_fresh r : forall ms bufs cells0 x y, Forall (fun b => match b with OracleBuf o => oracle_ok o /\ cells o = [] | _ => True end) bufs -> size_cells r ms bufs = Ok (cells0, x, y) -> y = 0.
Proof.
  induction ms as [|m ms IH]; intros bufs cells0 x y HF; [cbn; by intros [= _ _ <-]|]. destruct bufs as [|b bufs]; [done|]. apply Forall_cons_1 in HF as [Hb HF]. destruct b as [| | | |o]; cbn [size_cells]; try by apply IH.
  destruct (map_err _ _) as [cell|]; [|done]. destruct (size_cells r ms bufs) as [[[cs x'] y']|] eqn:Es; [|done]. specialize (IH _ _ _ _ HF Es). destruct (resolves_locally o cell); intros [= <- <- <-]; [done|].
  destruct Hb as [(H1 & H2 & H3 & _) Hc]. unfold stranded_bytes. destruct (Z.eqb_spec (remote_cells o) 0) as [E|]; [|lia]. rewrite (H3 E), H1, Hc. cbn. lia.
Qed.

(** The invariant: the block of a table of cells with one entry per row in each
    column, and a request counted as it will be sent. *)
Record enc_ok (e : TableEncoder) (cols : list (list Cell)) : Prop := MkEncOk
  { eo_block : buffers e = block (plan e) cols;
    eo_len : length cols = length (shapes (plan e));
    eo_rows : Forall (fun col => zlen col = rows e) cols;
    eo_cells : Forall2 (fun s col => Forall (cell_ok s) col) (shapes (plan e)) cols;
    eo_overhead : oracle_overhead e = overhead (plan e);
    eo_bufs : Forall buf_ok (buffers e);
    eo_bytes : oracle_bytes e = overhead (plan e) + zsum (map sent_bytes (buffers e));
    eo_nonneg : 0 <= rows e;
    eo_cap : 0 < rows e -> oracle_bytes e <= MAX_REQUEST_BYTES }.

Lemma new_ok p : enc_ok (new_encoder p) (replicate (length (shapes p)) []).
Proof.
  assert (Forall buf_ok (fresh_buffers p) /\ zsum (map sent_bytes (fresh_buffers p)) = 0) as [H1 H2].
  { rewrite fresh_block. unfold block. generalize (shapes p). intros l. induction l as [|s l [IH1 IH2]]; [done|]. cbn [length replicate zip_with map zsum fold_right]. fold (zsum (map sent_bytes (zip_with layout l (replicate (length l) [])))).
    rewrite IH2. destruct s; (split; [constructor; [|done]|done]); done || (split_and!; done). }
  split; cbn [new_encoder buffers plan rows oracle_bytes oracle_overhead]; [apply fresh_block|by rewrite length_replicate| | |done|done|lia|lia|lia].
  - apply Forall_replicate. done.
  - generalize (shapes p). intros l. induction l; cbn; constructor; [constructor|done].
Qed.

Lemma take_ok e cols : enc_ok e cols -> take_block e = (block (plan e) cols, rows e, new_encoder (plan e)).
Proof. intros [H1 _ _ _ H5 _ _ _ _]. unfold take_block, new_encoder. by rewrite H1, H5. Qed.

(** The cells a row adds: one per column, each denoting its value. *)
Definition row_cells (p : TablePlan) (r : Row) (cs : list Cell) : Prop :=
  exists mapped, cs = mapped ++ map CBytes (synth_values p r) /\ Forall3 (cell_for r) (map_columns (row_mapping r)) (plan_columns p) mapped.

Lemma synth_lengths p r : length (synth_values p r) = length (synth_shapes p).
Proof. unfold synth_values, synth_shapes. destruct (is_some (synth_is_deleted p)), (is_some (synth_leaf p)); done. Qed.

Definition mapped_alike (p : TablePlan) (r : Row) : Prop := length (map_columns (row_mapping r)) = length (plan_columns p).

Lemma snoc_cells_app a b x y : length a = length x -> snoc_cells (a ++ b) (x ++ y) = snoc_cells a x ++ snoc_cells b y.
Proof. intros H. unfold snoc_cells. by rewrite zip_with_app. Qed.

Lemma snoc_cells_length cols cs : length cs = length cols -> length (snoc_cells cols cs) = length cols.
Proof. intros H. unfold snoc_cells. rewrite length_zip_with. lia. Qed.

Lemma snoc_rows n cols : forall cs, length cs = length cols -> Forall (fun col : list Cell => zlen col = n) cols -> Forall (fun col => zlen col = n + 1) (snoc_cells cols cs).
Proof. induction cols as [|col cols IH]; intros [|c cs] Hl HF; try done. apply Forall_cons_1 in HF as [H1 HF]. cbn. constructor; [rewrite zlen_app; change (zlen [c]) with 1; lia|]. apply IH; [cbn in *; lia|done]. Qed.

Lemma snoc_cells_ok shs cols : forall cs, Forall2 (fun s col => Forall (cell_ok s) col) shs cols -> Forall2 cell_ok shs cs -> Forall2 (fun s col => Forall (cell_ok s) col) shs (snoc_cells cols cs).
Proof.
  revert cols. induction shs as [|s shs IH]; intros cols cs HF HC; inversion HF; inversion HC; subst; [constructor|]. cbn. constructor; [apply Forall_app; split; [done|by constructor]|by apply IH].
Qed.

Lemma append_ok e cols r e' : enc_ok e cols -> mapped_alike (plan e) r -> append_routed e r = Ok (Done, e') ->
  exists cs, enc_ok e' (snoc_cells cols cs) /\ plan e' = plan e /\ rows e' = rows e + 1 /\ length cs = length (shapes (plan e)) /\
    (row_in_range r -> Forall substitutes_in_range (plan_columns (plan e)) -> row_cells (plan e) r cs).
Proof.
  intros Hok Hm. pose proof Hok as [Eb El Er Ec Eo Ebufs Eby En Ecap]. unfold append_routed. destruct (size_cells _ _ _) as [[[cells0 x] y]|] eqn:Es; [|done]. destruct (_ && _) eqn:Efull; [done|].
  destruct (Z.ltb_spec MAX_REQUEST_BYTES (oracle_overhead e + x)) as [|Hcap]; [done|]. destruct (fill _ _ _ _ _) as [[filled rest]|] eqn:Ef; [|done]. destruct (push_all rest _) as [rest2|] eqn:Ep; [|done]. intros [= <-].
  destruct (fill_accounts _ _ _ _ _ _ _ _ _ Ebufs Es Ef) as [A1 A2]. pose proof A1 as [_ A1r]%Forall_app. destruct (push_all_accounts _ _ _ A1r Ep) as [B1 B2].
  set (pc := plan_columns (plan e)) in *. set (c1 := take (length pc) cols). set (c2 := drop (length pc) cols). assert (cols = c1 ++ c2) as Ecols by (unfold c1, c2; by rewrite take_drop).
  unfold shapes in El. rewrite length_app, length_map in El. fold pc in El. assert (length c1 = length pc) as L1 by (unfold c1; rewrite length_take; lia). assert (length c2 = length (synth_shapes (plan e))) as L2 by (unfold c2; rewrite length_drop; lia).
  assert (buffers e = zip_with layout (map col_shape pc) c1 ++ zip_with layout (synth_shapes (plan e)) c2) as Ebuf by (rewrite Eb; unfold block, shapes; rewrite Ecols; apply zip_with_app; by rewrite length_map).
  rewrite Ebuf in Es, Ef. destruct (fill_cells_spec _ _ _ _ _ _ _ _ _ _ Hm L1 Es Ef) as [-> (cs & Lcs & -> & H1 & H2)]. fold pc in Lcs, H1, H2.
  destruct (push_all_spec _ _ _ _ L2 (synth_lengths _ _) Ep) as [-> H3]. exists (cs ++ map CBytes (synth_values (plan e) r)).
  assert (length (cs ++ map CBytes (synth_values (plan e) r)) = length (shapes (plan e))) as Hlen by (unfold shapes; rewrite !length_app, !length_map, synth_lengths; fold pc; lia).
  assert (length cols = length (shapes (plan e))) as El' by (unfold shapes; rewrite length_app, length_map; fold pc; lia).
  assert (snoc_cells cols (cs ++ map CBytes (synth_values (plan e) r)) = snoc_cells c1 cs ++ snoc_cells c2 (map CBytes (synth_values (plan e) r))) as Esn by (rewrite Ecols; apply snoc_cells_app; lia).
  split_and!; [|done|done|done|by intros Hr Hs; eexists; split; [reflexivity|by apply H2]].
  split; cbn [buffers plan rows oracle_bytes oracle_overhead].
  - rewrite Esn. unfold block, shapes. rewrite zip_with_app; [done|]. rewrite length_map. unfold snoc_cells. rewrite length_zip_with. fold pc. lia.
  - rewrite snoc_cells_length; lia.
  - apply snoc_rows; [lia|done].
  - apply snoc_cells_ok; [done|]. by apply Forall2_app.
  - done.
  - apply Forall_app. split; [by apply Forall_app in A1 as [? _]|done].
  - rewrite Eby, map_app, zsum_app, B2, <-zsum_app, <-map_app, A2. lia.
  - lia.
  - intros _. destruct (Z.ltb_spec 0 (rows e)) as [Hpos|Hz]; cbn [andb] in Efull; [apply Z.ltb_ge in Efull; unfold ORACLE_BATCH_SEAL_BYTES, MAX_REQUEST_BYTES in *; lia|].
    assert (y = 0) as ->.
    { eapply stranded_fresh; [|exact Es]. rewrite <-Ebuf. apply Forall_elem. intros b Hb. rewrite Eb in Hb. unfold block in Hb. apply list_elem_of_lookup in Hb as [i Hi]. apply lookup_zip_with_Some in Hi as (s & col & -> & Hs & Hc).
      assert (col = []) as -> by (rewrite Forall_lookup in Er; specialize (Er _ _ Hc); unfold zlen in Er; destruct col; [done|cbn in Er; lia]). destruct s; done || (cbn; split; [split_and!; done|done]). }
    rewrite Eby. assert (zsum (map sent_bytes (buffers e)) = 0) as ->; [|lia]. assert (Forall (fun b => sent_bytes b = 0) (buffers e)) as HF.
    { apply Forall_elem. intros b Hb. rewrite Eb in Hb. unfold block in Hb. apply list_elem_of_lookup in Hb as [i Hi]. apply lookup_zip_with_Some in Hi as (s & col & -> & Hs & Hc).
      assert (col = []) as -> by (rewrite Forall_lookup in Er; specialize (Er _ _ Hc); unfold zlen in Er; destruct col; [done|cbn in Er; lia]). by destruct s. }
    clear -HF. induction HF as [|b l Hb _ IH]; [done|]. cbn [map]. change (sent_bytes b + zsum (map sent_bytes l) = 0). lia.
Qed.

(** Rows appended one after another, each of them taken. *)
Fixpoint append_all (e : TableEncoder) (rs : list Row) : option TableEncoder :=
  match rs with
  | [] => Some e
  | r :: rs => match append_routed e r with Ok (Done, e) => append_all e rs | _ => None end
  end.

(** [cols] is the table of the rows' cells, transposed. *)
Definition table_of (p : TablePlan) (rs : list Row) (cols : list (list Cell)) : Prop :=
  length cols = length (shapes p) /\ forall i r, rs !! i = Some r -> exists cs, row_cells p r cs /\ length cs = length (shapes p) /\
    forall j col, cols !! j = Some col -> col !! i = cs !! j.

Lemma append_all_ok p rs : forall e e', plan e = p -> Forall (mapped_alike p) rs -> append_all e rs = Some e' -> forall cols, enc_ok e cols ->
  exists css, length css = length rs /\ Forall (fun cs => length cs = length (shapes p)) css /\ enc_ok e' (fold_left snoc_cells css cols) /\ plan e' = p /\ rows e' = rows e + zlen rs /\
    (Forall row_in_range rs -> Forall substitutes_in_range (plan_columns p) -> Forall2 (row_cells p) rs css).
Proof.
  induction rs as [|r rs IH]; intros e e' Hp HF; cbn [append_all].
  - intros [= <-] cols Hok. exists []. split_and!; [done|constructor|done|done|change (zlen []) with 0; lia|constructor].
  - apply Forall_cons_1 in HF as [Hm HF]. destruct (append_routed e r) as [[[|] e1]|] eqn:Ea; try done. intros Hrest cols Hok. destruct (append_ok _ _ _ _ Hok ltac:(by rewrite Hp) Ea) as (cs & Hok1 & Hp1 & Hr1 & Hl & Hc).
    rewrite Hp in *. destruct (IH _ _ Hp1 HF Hrest _ Hok1) as (css & L & HL & Hok2 & Hp2 & Hr2 & Hcs). exists (cs :: css). split_and!; [cbn; lia|by constructor|done|done|rewrite zlen_cons; lia|].
    intros [Hr Hrs]%Forall_cons_1 Hs. constructor; [by apply Hc|by apply Hcs].
Qed.

Lemma fold_snoc_lookup css : forall cols j col n, Forall (fun cs => length cs = length cols) css -> Forall (fun c : list Cell => length c = n) cols ->
  fold_left snoc_cells css cols !! j = Some col -> forall i cs, css !! i = Some cs -> col !! (n + i)%nat = cs !! j.
Proof.
  induction css as [|cs0 css IH]; intros cols j col n HF HL; [done|]. apply Forall_cons_1 in HF as [H0 HF]. cbn [fold_left]. intros Hj [|i] cs Hi.
  - injection Hi as ->. rewrite Nat.add_0_r. assert (exists c0 x tl, cols !! j = Some c0 /\ cs !! j = Some x /\ col = (c0 ++ [x]) ++ tl) as (c0 & x & tl & Hc0 & Hx & ->).
    { clear -Hj H0 HF. revert col cols cs H0 HF Hj. induction css as [|c1 css IH] using rev_ind; intros col cols cs H0 HF Hj.
      - cbn in Hj. unfold snoc_cells in Hj. apply lookup_zip_with_Some in Hj as (c0 & x & -> & ? & ?). exists c0, x, []. by rewrite app_nil_r.
      - apply Forall_app in HF as [HF H1]. rewrite fold_left_app in Hj. cbn in Hj. unfold snoc_cells in Hj at 1. apply lookup_zip_with_Some in Hj as (c' & x' & -> & Hc' & Hx').
        destruct (IH _ _ _ H0 HF Hc') as (c0 & x & tl & ? & ? & ->). exists c0, x, (tl ++ [x']). by rewrite app_assoc. }
    rewrite Hx. rewrite Forall_lookup in HL. specialize (HL _ _ Hc0). rewrite lookup_app_l by (rewrite length_app; cbn; lia). rewrite lookup_app_r by lia. replace (n - length c0)%nat with 0%nat by lia. done.
  - cbn in Hi. replace (n + S i)%nat with (S n + i)%nat by lia. eapply (IH (snoc_cells cols cs0)); [..|exact Hj|exact Hi].
    + rewrite snoc_cells_length by done. done.
    + apply Forall_lookup. intros k c Hk. unfold snoc_cells in Hk. apply lookup_zip_with_Some in Hk as (c0 & x & -> & Hc0 & _). rewrite Forall_lookup in HL. specialize (HL _ _ Hc0). rewrite length_app. cbn. lia.
Qed.

Lemma append_all_table p rs e : Forall (mapped_alike p) rs -> append_all (new_encoder p) rs = Some e ->
  exists cols, enc_ok e cols /\ plan e = p /\ rows e = zlen rs /\ (Forall row_in_range rs -> Forall substitutes_in_range (plan_columns p) -> table_of p rs cols).
Proof.
  intros HF Ha. destruct (append_all_ok p rs (new_encoder p) _ eq_refl HF Ha _ (new_ok p)) as (css & L & HL & Hok & Hp & Hr & Hc). eexists. split; [exact Hok|]. split_and!; [done|done|].
  intros H1 H2. specialize (Hc H1 H2). split; [rewrite (eo_len _ _ Hok); by rewrite Hp|]. intros i r Hi. destruct (Forall2_lookup_l _ _ _ _ _ Hc Hi) as (cs & Hcs & Hrow). exists cs. split; [done|].
  split; [rewrite Forall_lookup in HL; by eapply HL|]. intros j col Hj. rewrite <-(Nat.add_0_l i). eapply (fold_snoc_lookup css (replicate (length (shapes p)) []) j col 0); [|by apply Forall_replicate|done|done].
  eapply Forall_impl; [|exact HL]. intros x Hx. by rewrite length_replicate.
Qed.

(** ** Blocks as the Native format has them *)

(** A column of [n] rows: fixed-width values back to back, or ends that climb to
    the data's length, with one null flag per row where the type is nullable. *)
Definition ends_ok (n : Z) (offsets data : list Z) : Prop :=
  zlen offsets = n /\ StronglySorted Z.le offsets /\ Forall (fun o => 0 <= o <= zlen data) offsets /\ default 0 (list.last offsets) = zlen data.

Definition flags_ok (n : Z) (null_map : list Z) : Prop := zlen null_map = n /\ Forall (fun b => b = 0 \/ b = 1) null_map.

Definition native_column (n : Z) (b : ColumnBuf) : Prop :=
  match b with
  | Fixed w bytes => zlen bytes = w * n
  | StringBuf offsets data _ => ends_ok n offsets data
  | NullableFixed w null_map inner => flags_ok n null_map /\ zlen inner = w * n
  | NullableString offsets data null_map _ => ends_ok n offsets data /\ flags_ok n null_map
  | OracleBuf o => zlen (cells o) = n
  end.

Definition width_ok (s : Shape) : Prop := match s with ShFixed w | ShNullableFixed w => 0 <= w | _ => True end.

Lemma ends_spec l acc : zlen (ends acc l) = zlen l /\ StronglySorted Z.le (ends acc l) /\ Forall (fun o => acc <= o <= acc + zlen (concat l)) (ends acc l) /\
  default acc (list.last (ends acc l)) = acc + zlen (concat l).
Proof.
  revert acc. induction l as [|x l IH]; intros acc; cbn [ends concat]; [split_and!; [done|constructor|constructor|change (zlen []) with 0; cbn; lia]|].
  destruct (IH (acc + zlen x)) as (H1 & H2 & H3 & H4). pose proof (zlen_nonneg x). pose proof (zlen_nonneg (concat l)). rewrite zlen_app, !zlen_cons. split_and!.
  - lia.
  - constructor; [done|]. eapply Forall_impl; [|exact H3]. cbn. lia.
  - constructor; [lia|]. eapply Forall_impl; [|exact H3]. cbn. lia.
  - destruct (ends (acc + zlen x) l) as [|y k] eqn:E; [cbn in *; lia|]. change (list.last (acc + zlen x :: y :: k)) with (list.last (y :: k)). destruct (list.last (y :: k)) eqn:El; [cbn in *; lia|]. by apply last_None in El.
Qed.

Lemma fixed_concat w s cs : 0 <= w -> (s = ShFixed w \/ s = ShNullableFixed w) -> Forall (cell_ok s) cs -> Forall (fun l => zlen l = w) (map (payload (zrep w 0)) cs).
Proof.
  intros Hw Hs HF. apply Forall_elem. intros l (c & -> & Hc)%list_elem_of_fmap. rewrite Forall_elem in HF. specialize (HF c Hc). destruct Hs as [-> | ->], c; cbn in *; try done; rewrite zlen_zrep; lia.
Qed.

Lemma concat_length w ls : Forall (fun l : list Z => zlen l = w) ls -> zlen (concat ls) = w * zlen ls.
Proof. induction 1 as [|l ls Hl _ IH]; [change (0 = w * 0); lia|]. cbn [concat]. rewrite zlen_app, zlen_cons. lia. Qed.

Lemma zlen_map {A B} (f : A -> B) l : zlen (map f l) = zlen l.
Proof. unfold zlen. by rewrite length_map. Qed.

Lemma flags_spec cs : flags_ok (zlen cs) (map null_flag cs).
Proof. split; [apply zlen_map|]. apply Forall_elem. intros x (c & -> & _)%list_elem_of_fmap. destruct c; cbn; auto. Qed.

Lemma ends_ok_spec a cs : ends_ok (zlen cs) (ends 0 (map (payload a) cs)) (concat (map (payload a) cs)).
Proof.
  destruct (ends_spec (map (payload a) cs) 0) as (H1 & H2 & H3 & H4). rewrite zlen_map in H1. split_and!; [done|done| |lia]. eapply Forall_impl; [|exact H3]. cbn. lia.
Qed.

Lemma layout_native s cs : width_ok s -> Forall (cell_ok s) cs -> native_column (zlen cs) (layout s cs).
Proof.
  intros Hw HF. destruct s as [w|a|w|a|oid typmod st nt]; cbn [layout native_column width_ok] in *.
  - rewrite (concat_length w), zlen_map; [done|]. by apply (fixed_concat w (ShFixed w)); [done|left|].
  - apply ends_ok_spec.
  - split; [apply flags_spec|]. rewrite (concat_length w), zlen_map; [done|]. by apply (fixed_concat w (ShNullableFixed w)); [done|right|].
  - split; [apply ends_ok_spec|apply flags_spec].
  - destruct (fold_push_keeps (map to_oracle cs) (with_target oid typmod st nt)) as (_ & _ & _ & ->). cbn. apply zlen_map.
Qed.

Lemma shapes_width p : (forall a, 0 <= elem_size a) -> Forall width_ok (shapes p).
Proof.
  intros Hs. unfold shapes. apply Forall_app. split.
  - apply Forall_elem. intros s (c & -> & _)%list_elem_of_fmap. unfold col_shape. destruct (encoding c); [|done]. destruct (bool_decide (ast_kind (ast c) = _)), (_ =? 0); cbn; auto.
  - unfold synth_shapes. destruct (is_some (synth_is_deleted p)), (is_some (synth_leaf p)); repeat (constructor; [cbn; lia|]); constructor.
Qed.

(** C12: every block is well typed.  After any rows the encoder took, and when it
    is taken, a block has one buffer per column of the INSERT, each of the
    column's own shape and a Native column of exactly as many rows as were
    appended; taking it leaves the encoder as new.  A row the encoder refuses as
    full changes nothing. *)
Theorem block_well_typed p rs e : (forall a, 0 <= elem_size a) -> Forall (mapped_alike p) rs -> append_all (new_encoder p) rs = Some e ->
  exists bufs, take_block e = (bufs, zlen rs, new_encoder p) /\ length bufs = length (batch_columns p) /\
    Forall2 (fun s b => native_column (zlen rs) b /\ exists cs, b = layout s cs) (shapes p) bufs /\
    (forall r e', append_routed e r = Ok (Full, e') -> e' = e).
Proof.
  intros Hs HF Ha. destruct (append_all_table p rs e HF Ha) as (cols & Hok & Hp & Hr & _). exists (block p cols). rewrite (take_ok _ _ Hok), Hp, Hr. pose proof Hok as [_ El Er Ec _ _ _ _ _]. rewrite Hp in *. split_and!; [done| | |].
  - unfold block. rewrite length_zip_with, El. unfold batch_columns, shapes, synth_shapes. rewrite !length_map, !length_app, !length_map. destruct (synth_is_deleted p), (synth_leaf p); cbn; lia.
  - unfold block. pose proof (shapes_width p Hs) as Hw. apply Forall2_same_length_lookup. split; [rewrite length_zip_with; lia|]. intros i s b Hi Hb. apply lookup_zip_with_Some in Hb as (s' & col & -> & Hs' & Hcol).
    rewrite Hi in Hs'. injection Hs' as <-. split; [|by exists col]. rewrite Forall_lookup in Er. rewrite Forall_lookup in Hw. rewrite <-Hr, <-(Er _ _ Hcol). apply layout_native; [by eapply Hw|].
    destruct (Forall2_lookup_l _ _ _ _ _ Ec Hi) as (col' & Hcol' & HFc). congruence.
  - intros r e'. unfold append_routed. destruct (size_cells _ _ _) as [[[cs x] y]|]; [|done]. destruct (_ && _); [by intros [= <-]|]. destruct (_ <? _); [done|]. destruct (fill _ _ _ _ _) as [[filled rest]|]; [|done]. by destruct (push_all _ _).
Qed.
End Block.
End Layout.
