(* ===== verification/EncoderBlocks.v ===== *)
(** * Reading blocks back, and the size of their oracle requests

    A reader of the Native layout finds, at each row and column, what the row
    appended there; and the request for a block's oracle columns never exceeds
    the bridge's frame cap. *)
From Stdlib Require Import String.
From S2P Require Import Prelude Text WalRecord AsciiBuf Numeric Decimal TextArray HeapDecode Spill Outbox Rules TablePlan Encoder EncoderProofs.
Import Schema HeapDecode.

Module Blocks.
Import SystemColumns TableRules ColumnRules Oracle Route TablePlan Place Encoder Layout.

(** ** A reader of one cell *)
Inductive Read := RNull | RValue (l : list Z).

Definition read_string (offsets data : list Z) (i : nat) : option (list Z) :=
  let* stop := offsets !! i in
  let* start := match i with O => Some 0 | S k => offsets !! k end in
  get_range data start stop.

Definition read_fixed (w : Z) (bytes : list Z) (i : nat) : option (list Z) := get_range bytes (w * Z.of_nat i) (w * Z.of_nat i + w).

Definition unless_null (null_map : list Z) (i : nat) (v : option (list Z)) : option Read :=
  let* flag := null_map !! i in if flag =? 1 then Some RNull else RValue <$> v.

Definition read_cell (b : ColumnBuf) (i : nat) : option Read :=
  match b with
  | Fixed w bytes => RValue <$> read_fixed w bytes i
  | StringBuf offsets data _ => RValue <$> read_string offsets data i
  | NullableFixed w null_map inner => unless_null null_map i (read_fixed w inner i)
  | NullableString offsets data null_map _ => unless_null null_map i (read_string offsets data i)
  | OracleBuf _ => None
  end.

(** What a cell of a shape reads as: an absent one as NULL where the column is
    nullable, as the type's default elsewhere. *)
Definition read_of (s : Shape) (c : Cell) : Read :=
  match c, s with
  | CBytes l, _ => RValue l
  | _, ShFixed w => RValue (zrep w 0)
  | _, ShString a => RValue a
  | _, _ => RNull
  end.

Lemma concat_mid {A} (ls : list (list A)) i x : ls !! i = Some x -> concat ls = concat (take i ls) ++ x ++ concat (drop (S i) ls).
Proof. intros H. rewrite <-(take_drop_middle _ _ _ H) at 1. by rewrite concat_app. Qed.

Lemma ends_lookup ls : forall acc i x, ls !! i = Some x -> ends acc ls !! i = Some (acc + zlen (concat (take i ls)) + zlen x) /\
  match i with O => True | S k => ends acc ls !! k = Some (acc + zlen (concat (take i ls))) end.
Proof.
  induction ls as [|y ls IH]; intros acc i x; [done|]. destruct i as [|i].
  - intros [= ->]. split; [change (Some (acc + zlen x) = Some (acc + 0 + zlen x)); f_equal; lia|done].
  - intros H. destruct (IH (acc + zlen y) i x H) as [H1 H2]. cbn [ends take concat]. rewrite zlen_app. split; [etrans; [exact H1|f_equal; lia]|].
    destruct i as [|k]; [change (Some (acc + zlen y) = Some (acc + (zlen y + 0))); f_equal; lia|]. etrans; [exact H2|f_equal; lia].
Qed.

Lemma read_string_spec ls i x : ls !! i = Some x -> read_string (ends 0 ls) (concat ls) i = Some x.
Proof.
  intros H. destruct (ends_lookup ls 0 i x H) as [H1 H2]. unfold read_string. rewrite H1. rewrite (concat_mid _ _ _ H). destruct i as [|k]; [apply TextArray.get_range_mid; change (zlen (concat (take 0 ls))) with 0; lia|].
  rewrite H2. apply TextArray.get_range_mid; lia.
Qed.

Lemma read_fixed_spec w ls i x : Forall (fun l => zlen l = w) ls -> ls !! i = Some x -> read_fixed w (concat ls) i = Some x.
Proof.
  intros HF H. unfold read_fixed. rewrite (concat_mid _ _ _ H). pose proof (lookup_lt_Some _ _ _ H). assert (zlen (concat (take i ls)) = w * Z.of_nat i) as E.
  { rewrite (concat_length w) by (by apply Forall_take). unfold zlen. rewrite length_take. f_equal. lia. }
  rewrite Forall_lookup in HF. specialize (HF _ _ H). apply TextArray.get_range_mid; lia.
Qed.

Lemma read_layout s cs i c : width_ok s -> Forall (cell_ok s) cs -> cs !! i = Some c -> (forall o, layout s cs <> OracleBuf o) -> read_cell (layout s cs) i = Some (read_of s c).
Proof.
  intros Hw HF Hi Hno. assert (forall {B} (f : Cell -> B), map f cs !! i = Some (f c)) as Hm by (intros B f; by rewrite list_lookup_fmap, Hi). pose proof HF as HF'. rewrite Forall_lookup in HF'. specialize (HF' _ _ Hi).
  destruct s as [w|a|w|a|oid typmod st nt]; cbn [layout read_cell width_ok] in *; [| | | |by destruct (Hno _ eq_refl)]; unfold unless_null; rewrite ?Hm.
  - rewrite (read_fixed_spec w _ i (payload (zrep w 0) c)); [by destruct c| |apply Hm]. by apply (fixed_concat w (ShFixed w)); [done|left|].
  - rewrite (read_string_spec _ i (payload a c)) by apply Hm. by destruct c.
  - rewrite (read_fixed_spec w _ i (payload (zrep w 0) c)); [by destruct c| |apply Hm]. by apply (fixed_concat w (ShNullableFixed w)); [done|right|].
  - rewrite (read_string_spec _ i (payload a c)) by apply Hm. by destruct c.
Qed.

Section Content.
Context `{TV : TypeViews} `{PC : PatternCrates}.

(** ** Plans as they are built *)
Lemma compile_cell_range nullable d precision sc sub o : compile_cell nullable d precision sc sub = Ok o -> match o with Some v => in_range v | None => True end.
Proof. unfold compile_cell. destruct sub as [[| | | |lit]|]; repeat case_match; try done; by intros [= <-]. Qed.

Lemma compile_range rule a nf : compile rule a = Ok nf -> forall v, v ∈ [nf_nan nf; nf_pos_inf nf; nf_neg_inf nf] -> match v with Some v => in_range v | None => True end.
Proof.
  unfold compile. destruct (_ && _); [intros [= <-] v [<-|[<-|[<-|[]]]]%list_elem_of_In; done|]. destruct (_ <? 0); [done|]. set (cell := compile_cell _ _ _ _). assert (forall s o, cell s = Ok o -> match o with Some v => in_range v | None => True end) as Hc by (intros s o; apply compile_cell_range).
  destruct (if is_some _ then cell (nan rule) else Ok None) as [n|] eqn:E1; [|done]. destruct (cell (pos_inf rule)) as [p|] eqn:E2; [|done]. destruct (cell (neg_inf rule)) as [q|] eqn:E3; [|done]. intros [= <-] v [<-|[<-|[<-|[]]]]%list_elem_of_In; cbn.
  - destruct (is_some _); [by apply (Hc (nan rule))|by injection E1 as <-].
  - by apply (Hc (pos_inf rule)).
  - by apply (Hc (neg_inf rule)).
Qed.

Lemma build_columns_range rel owner rules cs ps : build_columns rel owner rules cs = Ok ps -> length ps = length cs /\ Forall substitutes_in_range ps.
Proof.
  revert ps. induction cs as [|c cs IH]; intros ps; cbn [build_columns]; [intros [= <-]; split; [done|constructor]|]. destruct (build_column rel owner rules c) as [p|] eqn:Ep; [|done].
  destruct (build_columns rel owner rules cs) as [ps'|]; [|done]. intros [= <-]. destruct (IH _ eq_refl) as [H1 H2]. split; [cbn; lia|]. constructor; [|done]. unfold build_column in Ep.
  destruct (ok_or _ _) as [a|]; [|done]. destruct (_ && _ && _); [done|]. destruct (compile _ _) as [nf|] eqn:Ec; [|done]. destruct (_ && _); [done|]. injection Ep as <-. exact (compile_range _ _ _ Ec).
Qed.

Lemma build_range rel owner m rules sys leaf p : build_owned rel owner m rules sys leaf = Ok p ->
  length (plan_columns p) = length (map_columns m) /\ Forall substitutes_in_range (plan_columns p).
Proof.
  unfold build_owned. destruct (build_columns _ _ _ _) as [ps|] eqn:E; [|done]. destruct (synth _ _); [|done]. destruct (synth _ _); [|done]. destruct (synth _ _); [|done]. destruct (synth_opt _ _); [|done]. destruct (synth_opt _ _); [|done].
  intros [= <-]. by apply build_columns_range in E.
Qed.

Lemma column_in_block p e cols j s : enc_ok e cols -> plan e = p -> shapes p !! j = Some s -> exists col, cols !! j = Some col /\ buffers e !! j = Some (layout s col) /\ Forall (cell_ok s) col.
Proof.
  intros [Eb _ _ Ec _ _ _ _ _] <- Hj. destruct (Forall2_lookup_l _ _ _ _ _ Ec Hj) as (col & Hcol & HF). exists col. split_and!; [done| |done]. rewrite Eb. unfold block. apply lookup_zip_with_Some. by exists s, col.
Qed.


(** ** The size of a request *)
Lemma zlen_be32 z : zlen (be32 z) = 4.
Proof. unfold be32, zlen. rewrite length_rev. apply (zlen_le_enc 4). Qed.

Lemma zlen_cell c : zlen (encode_cell c) = wire_bytes c.
Proof. destruct c; cbn [encode_cell wire_bytes]; unfold put_lenstr; rewrite zlen_cons, ?zlen_app, ?zlen_be32; try done; lia. Qed.

Lemma zlen_header c : zlen (column_header c) = request_column_bytes (r_name c) (r_type c).
Proof. unfold column_header, put_lenstr, request_column_bytes. rewrite !zlen_app, !zlen_be32. lia. Qed.

Lemma zsum_cons x l : zsum (x :: l) = x + zsum l.
Proof. done. Qed.

Lemma zsum_map_add {A} (f g : A -> Z) l : zsum (map (fun x => f x + g x) l) = zsum (map f l) + zsum (map g l).
Proof. induction l as [|x l IH]; [done|]. cbn [map]. change (f x + g x + zsum (map (fun x => f x + g x) l) = (f x + zsum (map f l)) + (g x + zsum (map g l))). lia. Qed.

Definition cell_bytes (c : OracleRequestColumn) (row : nat) : Z := match cells (buf c) !! row with Some x => wire_bytes x | None => 0 end.

Lemma encode_row_len cols row : Forall (fun c => (row < length (cells (buf c)))%nat) cols -> exists bytes, encode_row cols row = Some bytes /\ zlen bytes = zsum (map (fun c => cell_bytes c row) cols).
Proof.
  induction 1 as [|c cols Hc _ (bytes & E & IH)]; [by exists []|]. cbn [encode_row map]. change (zsum (cell_bytes c row :: map (fun c => cell_bytes c row) cols)) with (cell_bytes c row + zsum (map (fun c => cell_bytes c row) cols)).
  unfold cell_bytes at 1. destruct (lookup_lt_is_Some_2 _ _ Hc) as [x Hx]. rewrite Hx, E. eexists. split; [reflexivity|]. rewrite zlen_app, zlen_cell. lia.
Qed.

Lemma encode_rows_len cols n : forall row, Forall (fun c => (row + n <= length (cells (buf c)))%nat) cols ->
  exists bytes, encode_rows cols row n = Some bytes /\ zlen bytes = zsum (map (fun c => zsum (map wire_bytes (take n (drop row (cells (buf c)))))) cols).
Proof.
  induction n as [|n IH]; intros row HF; cbn [encode_rows].
  - exists []. split; [done|]. clear. induction cols as [|c cols IH]; [done|]. exact IH.
  - destruct (encode_row_len cols row) as (b1 & -> & H1); [eapply Forall_impl; [|exact HF]; cbn; lia|]. destruct (IH (S row)) as (b2 & -> & H2); [eapply Forall_impl; [|exact HF]; cbn; lia|].
    eexists. split; [reflexivity|]. rewrite zlen_app, H1, H2, <-zsum_map_add. f_equal. apply map_ext_in. intros c Hc. rewrite <-list_elem_of_In in Hc. rewrite Forall_elem in HF. specialize (HF c Hc). cbn in HF.
    unfold cell_bytes. destruct (lookup_lt_is_Some_2 (cells (buf c)) row ltac:(lia)) as [x Hx]. rewrite Hx. by rewrite (drop_S _ _ _ Hx).
Qed.

Definition column_bytes (c : OracleRequestColumn) : Z := request_column_bytes (r_name c) (r_type c) + o_wire_bytes (buf c).

(** A request's columns all hold [n] cells and count their own bytes. *)
Definition request_ok (n : Z) (c : OracleRequestColumn) : Prop := oracle_ok (buf c) /\ zlen (cells (buf c)) = n.

Lemma request_len cols n : 0 <= n -> Forall (request_ok n) cols ->
  exists frame, encode_request cols n = Some frame /\ zlen frame - FRAME_PREFIX_BYTES + 1 = REQUEST_FRAME_BYTES + zsum (map column_bytes cols).
Proof.
  intros Hn HF. destruct (encode_rows_len cols (Z.to_nat n) 0) as (bytes & E & Hl); [eapply Forall_impl; [|exact HF]; intros c [_ Hc]; cbn; unfold zlen in Hc; lia|]. unfold encode_request. rewrite E. eexists. split; [reflexivity|].
  rewrite !zlen_app, !zlen_be32, zlen_zrep, Hl. assert (zlen (flat_map column_header cols) = zsum (map (fun c => request_column_bytes (r_name c) (r_type c)) cols)) as ->.
  { clear. induction cols as [|c cols IH]; [done|]. cbn [flat_map map]. rewrite zlen_app, zlen_header, IH. done. }
  assert (map (fun c => zsum (map wire_bytes (take (Z.to_nat n) (drop 0 (cells (buf c)))))) cols = map (fun c => o_wire_bytes (buf c)) cols) as ->.
  { apply map_ext_in. intros c Hc. rewrite <-list_elem_of_In in Hc. rewrite Forall_elem in HF. destruct (HF c Hc) as [(-> & _) Hcl]. rewrite drop_0, take_ge; [done|]. unfold zlen in Hcl. lia. }
  unfold column_bytes. rewrite zsum_map_add. unfold FRAME_PREFIX_BYTES, REQUEST_FRAME_BYTES. lia.
Qed.

Definition is_string_buf (b : ColumnBuf) : bool := match b with StringBuf _ _ _ | NullableString _ _ _ _ => true | _ => false end.

Lemma literal_cells_total cs : forall b, is_string_buf b = true -> exists b', literal_cells b cs = Some b' /\ is_string_buf b' = true.
Proof. induction cs as [|c cs IH]; intros b Hb; cbn [literal_cells]; [by exists b|]. destruct c; try (apply IH; by destruct b). destruct b; try done; cbn; by apply IH. Qed.

(** A column still an oracle one after the local pass is sent, and was counted. *)
Lemma resolved_oracle o n o' : 0 < n -> oracle_ok o -> zlen (cells o) = n -> resolve_local_column n (OracleBuf o) = OracleBuf o' -> o' = o /\ o_wire_bytes o = sent_bytes (OracleBuf o).
Proof.
  intros Hn (H1 & H2 & H3 & H4) Hc. unfold resolve_local_column, literal_column. unfold resolves_batch_locally. rewrite Hc, Z.eqb_refl, andb_true_r. destruct (string_target o && (remote_cells o =? 0)) eqn:E; cbn [negb].
  - destruct (literal_cells_total (cells o) (literal_start o)) as (b' & Eb & Hb'); [unfold literal_start; by destruct (nullable_target o)|]. rewrite Eb. cbn. intros ->. done.
  - cbn. intros [= <-]. split; [done|]. destruct (Z.eqb_spec (remote_cells o) 0) as [Ez|Ez]; [|done]. exfalso. destruct (string_target o); [done|]. specialize (H4 eq_refl). lia.
Qed.

Lemma resolve_local_id n b : is_oracle_buf b = false -> resolve_local_column n b = b.
Proof. by destruct b. Qed.

Lemma request_columns_synth i metas bufs : Forall (fun b => is_oracle_buf b = false) bufs -> request_columns i metas bufs = [].
Proof. intros HF. revert i metas. induction HF as [|b bufs Hb _ IH]; intros i [|m metas]; try done. cbn. destruct b; try done; apply IH. Qed.

Lemma request_counted n pcs : 0 < n -> forall i cols metas rest, length cols = length pcs -> Forall (fun col => zlen col = n) cols -> Forall buf_ok (zip_with layout (map col_shape pcs) cols) ->
  Forall (fun b => is_oracle_buf b = false) rest ->
  let req := request_columns i (map meta_of pcs ++ metas) (map (resolve_local_column n) (zip_with layout (map col_shape pcs) cols ++ rest)) in
  Forall (request_ok n) req /\
  zsum (map column_bytes req) <= zsum (map (fun c => request_column_bytes (cp_name c) (type_repr c)) (List.filter is_oracle pcs)) + zsum (map sent_bytes (zip_with layout (map col_shape pcs) cols)).
Proof.
  intros Hn. induction pcs as [|p pcs IH]; intros i [|col cols] metas rest Hl HR HF Hrest; try done.
  - cbn zeta. cbn [zip_with map app List.filter]. rewrite request_columns_synth; [split; [constructor|done]|]. apply Forall_elem. intros b (b0 & -> & Hb0)%list_elem_of_fmap. rewrite Forall_elem in Hrest. specialize (Hrest _ Hb0). by rewrite resolve_local_id.
  - apply Forall_cons_1 in HR as [Hc HR]. cbn [map zip_with] in HF. apply Forall_cons_1 in HF as [Hb HF]. specialize (IH (i + 1) cols metas rest ltac:(cbn in *; lia) HR HF Hrest). cbn zeta in *.
    cbn [map zip_with app List.filter]. set (req := request_columns (i + 1) _ _) in *. destruct IH as [IH1 IH2].
    rewrite (zsum_cons (sent_bytes _)). set (b := layout (col_shape p) col) in *.
    assert (0 <= request_column_bytes (cp_name p) (type_repr p)) as Hh by (unfold request_column_bytes; pose proof (zlen_nonneg (cp_name p)); pose proof (zlen_nonneg (type_repr p)); lia).
    destruct (encoding p) as [|oid typmod] eqn:He.
    + assert (is_oracle p = false) as -> by (unfold is_oracle; by rewrite He). assert (is_oracle_buf b = false) as Ho by (unfold b; pose proof (local_layout p col He) as Hno; destruct (layout (col_shape p) col); [done..|by specialize (Hno o)]).
      rewrite resolve_local_id by done. destruct (local_buf b Ho) as [_ ->]. assert (request_columns i (meta_of p :: map meta_of pcs ++ metas) (b :: map (resolve_local_column n) (zip_with layout (map col_shape pcs) cols ++ rest)) = req) as -> by (cbn; destruct b; done).
      split; [done|lia].
    + assert (is_oracle p = true) as -> by (unfold is_oracle; by rewrite He). destruct (oracle_layout p col oid typmod He) as (o & Eo & _). fold b in Eo. assert (zlen (cells o) = n) as Hcells.
      { unfold b, col_shape in Eo. rewrite He in Eo. cbn in Eo. injection Eo as <-. destruct (fold_push_keeps (map to_oracle col) (with_target oid typmod (bool_decide (ast_kind (strip_nullable (ast p)) = Some KString)) (bool_decide (ast_kind (ast p) = Some KNullable)))) as (_ & _ & _ & ->).
        cbn. by rewrite zlen_map. }
      rewrite Eo in *. pose proof Hb as (W1 & W2 & _). assert (0 <= sent_bytes (OracleBuf o)) as Hsent.
      { cbn. destruct (_ =? 0); [done|]. rewrite W1. clear. induction (cells o) as [|c l IH]; [done|]. cbn [map]. change (0 <= wire_bytes c + zsum (map wire_bytes l)). pose proof (wire_bytes_pos c). lia. }
      cbn [map]. rewrite (zsum_cons (request_column_bytes _ _)).
      destruct (is_oracle_buf (resolve_local_column n (OracleBuf o))) eqn:Er.
      * destruct (resolve_local_column n (OracleBuf o)) as [| | | |o'] eqn:Eres; try done. destruct (resolved_oracle o n o' Hn Hb Hcells Eres) as [-> Hw].
        assert (request_columns i (meta_of p :: map meta_of pcs ++ metas) (OracleBuf o :: map (resolve_local_column n) (zip_with layout (map col_shape pcs) cols ++ rest)) = MkRequestColumn i (cp_name p) (type_repr p) o :: req) as -> by done.
        split; [constructor; [by split|done]|]. cbn [map]. rewrite zsum_cons. unfold column_bytes at 1. cbn [r_name r_type buf]. lia.
      * assert (request_columns i (meta_of p :: map meta_of pcs ++ metas) (resolve_local_column n (OracleBuf o) :: map (resolve_local_column n) (zip_with layout (map col_shape pcs) cols ++ rest)) = req) as -> by (cbn [request_columns]; destruct (resolve_local_column n (OracleBuf o)); done).
        split; [done|lia].
Qed.

(** The columns a batch of [e]'s block leaves for the oracle. *)
Definition batch_request (e : TableEncoder) : list OracleRequestColumn :=
  request_columns 0 (batch_columns (plan e)) (resolve_local_columns (buffers e) (rows e)).

(** C13: the oracle request of a block always fits one frame.  Whatever rows the
    encoder took, the request for the columns the daemon cannot render itself
    encodes (no cell is missing), and the length the bridge checks is at most
    [MAX_REQUEST_BYTES], so it never refuses it as too large: the bytes the
    encoder counts row by row, with the literals a remote cell strands, are at
    least those sent. *)
Theorem request_within_cap p rs e : rs <> [] -> Forall (mapped_alike p) rs -> append_all (new_encoder p) rs = Some e ->
  exists frame, encode_request (batch_request e) (rows e) = Some frame /\ zlen frame - FRAME_PREFIX_BYTES + 1 <= MAX_REQUEST_BYTES.
Proof.
  intros Hne HF Ha. destruct (append_all_table p rs e HF Ha) as (cols & Hok & Hp & Hr & _). assert (0 < rows e) as Hpos by (rewrite Hr; unfold zlen; destruct rs; [done|cbn; lia]).
  pose proof Hok as [Eb El Er _ _ Ebufs Eby _ Ecap]. specialize (Ecap Hpos). rewrite Hp in *. unfold batch_request. rewrite Hp. set (pc := plan_columns p) in *. set (c1 := take (length pc) cols). set (c2 := drop (length pc) cols).
  assert (cols = c1 ++ c2) as Ecols by (unfold c1, c2; by rewrite take_drop). unfold shapes in El. rewrite length_app, length_map in El. fold pc in El. assert (length c1 = length pc) as L1 by (unfold c1; rewrite length_take; lia).
  assert (buffers e = zip_with layout (map col_shape pc) c1 ++ zip_with layout (synth_shapes p) c2) as Ebuf by (rewrite Eb; unfold block, shapes; rewrite Ecols; apply zip_with_app; by rewrite length_map).
  assert (Forall (fun b => is_oracle_buf b = false) (zip_with layout (synth_shapes p) c2)) as Hrest.
  { apply Forall_elem. intros b [i Hi]%list_elem_of_lookup. apply lookup_zip_with_Some in Hi as (s & col & -> & Hs & _). apply list_elem_of_lookup_2 in Hs. unfold synth_shapes in Hs.
    destruct s; try done. destruct (is_some (synth_is_deleted p)), (is_some (synth_leaf p)); set_solver. }
  rewrite Ebuf in Ebufs, Eby. apply Forall_app in Ebufs as [Ebufs _]. rewrite Ecols in Er. apply Forall_app in Er as [Er _].
  unfold batch_columns. rewrite map_app. fold pc. unfold resolve_local_columns. rewrite Ebuf.
  destruct (request_counted (rows e) pc Hpos 0 c1 (map meta_of ([synth_lsn p; synth_xid p; synth_commit_ts p] ++ option_list (synth_is_deleted p) ++ option_list (synth_leaf p))) _ L1 Er Ebufs Hrest) as [Hreq Hsum].
  set (req := request_columns 0 _ _) in *. destruct (request_len req (rows e) ltac:(lia) Hreq) as (frame & Ef & Hlen). exists frame. split; [done|]. rewrite Hlen. rewrite map_app, zsum_app in Eby.
  assert (zsum (map sent_bytes (zip_with layout (synth_shapes p) c2)) = 0) as Hz.
  { clear -Hrest. induction Hrest as [|b l Hb _ IH]; [done|]. cbn [map]. rewrite zsum_cons, IH. by destruct b. }
  unfold overhead in Eby. fold pc in Eby. lia.
Qed.
End Content.

(** ** Blocks of a small table *)
Inductive DemoType := DInt32 | DString | DNullable (t : DemoType) | DDecimal | DUInt64 | DUInt32 | DBool | DDateTime | DArray.

Definition demo_parse (t : list Z) : option DemoType :=
  snd <$> List.find (fun p => bool_decide (str p.1 = t))
    [("Int32", DInt32); ("String", DString); ("Nullable(String)", DNullable DString); ("Decimal(10, 2)", DDecimal); ("UInt64", DUInt64); ("UInt32", DUInt32);
     ("Bool", DBool); ("DateTime64(6, 'UTC')", DDateTime); ("Array(String)", DArray)]%string.

#[local] Instance demo_views : TypeViews :=
  MkViews DemoType demo_parse
    (fun t => Some (match t with DInt32 => KInt32 | DString => KString | DNullable _ => KNullable | DDecimal => KDecimal64 | DDateTime => KDateTime64 | DArray => KArray | _ => KOther 0 end))
    (fun t _ => match t with DNullable u => Some u | _ => None end)
    (fun t => match t with DInt32 | DUInt32 => 4 | DDecimal | DUInt64 | DDateTime => 8 | DBool => 1 | _ => 0 end)
    (fun t => match t with DDecimal => 10 | _ => 0 end) (fun t => match t with DDecimal => 2 | _ => 0 end) (fun _ => 6) (fun _ => None).

#[local] Existing Instance TableRules.prefix_crates.

Definition demo_attr (n : Z) (name : string) (oid len : Z) : RelAttr := MkAttr n (str name) oid (-1) false false (str name) false len 105 112 None.

Definition demo_rel : RelDescriptor :=
  MkDesc (WalRecord.MkRfn 0 5 0) 1 0 0 (str "public", str "t") 114 112 NothingIdent
    [demo_attr 1 "id" INT4OID 4; demo_attr 2 "note" TEXTOID (-1); demo_attr 3 "price" NUMERICOID (-1); demo_attr 4 "tags" 1009 (-1)] [].

Definition demo_map : TableMapping :=
  MkMapping (MkTarget None (str "db") (str "t"))
    [MkColumn 1 (str "id") (str "Int32") false; MkColumn 2 (str "note") (str "Nullable(String)") false; MkColumn 3 (str "price") (str "Decimal(10, 2)") false;
     MkColumn 4 (str "tags") (str "Array(String)") false] [].

Definition demo_plan : result EmitterError TablePlan := build_owned demo_rel (str "public", str "t") demo_map [] default_columns None.

Definition demo_in (id : Z) (note : option string) (price : string) (tags : list Z) : Row :=
  MkRowIn (MkCommitted (MkHeap (WalRecord.MkRfn 0 5 0) 7 4096 Insert
    (Some (MkTuple [Some (Int4 id); Some (match note with Some s => TextVal (str s) | None => Null end); Some (NumericVal (Numeric.Finite (str price))); Some (PgPending 1009 tags)] false)) None) 0 0)
    demo_map OP_INSERT None.

Definition demo_rows : list Row := [demo_in (-2) (Some "hello"%string) "12.5" [1; 2; 3]; demo_in 7 None "-0.07" []].

Definition plan_of (r : result EmitterError TablePlan) : TablePlan :=
  match r with Ok p => p | Err _ => let c := MkColumnPlan [] [] DInt32 None 0 no_substitutes Local in MkPlan [] c c c None None [] end.

Definition demo_enc : TableEncoder := default (new_encoder (plan_of demo_plan)) (append_all (new_encoder (plan_of demo_plan)) demo_rows).

Lemma demo_plan_ok : demo_plan = Ok (plan_of demo_plan).
Proof. by vm_compute. Qed.

Lemma demo_appended : append_all (new_encoder (plan_of demo_plan)) demo_rows = Some demo_enc.
Proof. by vm_compute. Qed.

Lemma demo_alike : Forall (mapped_alike (plan_of demo_plan)) demo_rows.
Proof. repeat constructor. Qed.

Lemma demo_sizes (a : TypeAst) : 0 <= elem_size a.
Proof. destruct a; cbn; lia. Qed.

Lemma demo_in_range : Forall row_in_range demo_rows.
Proof.
  repeat constructor; intros m v; unfold value_of; cbn; unfold zget; destruct (0 <=? _); try done; destruct (Z.to_nat _) as [|[|[|[|k]]]]; cbn; try done; intros [= <-]; cbn; try done; lia.
Qed.

Lemma block_well_typed_witness : exists bufs, take_block demo_enc = (bufs, 2, new_encoder (plan_of demo_plan)) /\ length bufs = 8%nat.
Proof. destruct (block_well_typed (plan_of demo_plan) demo_rows demo_enc demo_sizes demo_alike demo_appended) as (bufs & H1 & H2 & _). exists bufs. split; [exact H1|exact H2]. Defined.


Lemma request_within_cap_witness : exists frame, encode_request (batch_request demo_enc) 2 = Some frame /\ zlen frame - FRAME_PREFIX_BYTES + 1 <= MAX_REQUEST_BYTES.
Proof. exact (request_within_cap (plan_of demo_plan) demo_rows demo_enc ltac:(discriminate) demo_alike demo_appended). Defined.

End Blocks.
