(* ===== verification/Batcher.v ===== *)
(** * The insert batcher ([src/emit/pipeline/batcher.rs])

    One encoder per destination table.  Rows accumulate until a row, byte or
    time budget seals them into a batch for the inserters, tagged with how many
    rows of each sequence number it carries.  Time and buffer capacities are
    inputs of the steps; the channel to the inserters is the list of the batches
    sent. *)
From S2P Require Import Prelude Text WalRecord AsciiBuf Numeric Decimal HeapDecode Spill Outbox Rules TablePlan Encoder.
Import Schema HeapDecode.

Module Batcher.
Import SystemColumns TableRules ColumnRules Oracle Place Route TablePlan Encoder.

(** [TableKey]: the source database and the relation. *)
Definition TableKey : Type := Z * (list Z * list Z).

Record BatcherConfig := MkConfig { row_budget : Z; byte_budget : Z; inserters : Z; flush_timeout : Z }.

(** What the live snapshot overrides, and the default it falls back to. *)
Record ResolvedConfig := MkResolved { rc_row_budget : Z; rc_byte_budget : Z; rc_flush_timeout : Z }.

Inductive BatcherError := Emitter (e : EmitterError) | TruncateRouted.

Section Batcher.
Context `{TV : TypeViews} `{PC : PatternCrates}.

(** [DEFAULT_PIPELINE_FLUSH], in the clock's unit. *)
Context (DEFAULT_PIPELINE_FLUSH : Z).

Definition effective_cfg (boot : BatcherConfig) (resolved : option ResolvedConfig) : BatcherConfig :=
  match resolved with
  | None => boot
  | Some r => MkConfig (rc_row_budget r) (rc_byte_budget r) (inserters boot) (if rc_flush_timeout r =? 0 then DEFAULT_PIPELINE_FLUSH else rc_flush_timeout r)
  end.

(** Permits are told apart by number ([Arc::ptr_eq]). *)
Record RoutedRow := MkRouted { seq : Z; rel : RelDescriptor; route : RouteSnapshot; committed : CommittedTuple; value_permit : option Z }.

Record BatchMeta := MkMeta { table_key : TableKey; m_inserts : list InsertQuery; m_columns : list (list Z * list Z); schema_epoch : Z }.

Definition from_plan (p : TablePlan) (key : TableKey) (epoch : Z) : BatchMeta := MkMeta key (inserts p) (batch_columns p) epoch.

Record InsertBatch := MkBatch { meta : BatchMeta; b_buffers : list ColumnBuf; n_rows : Z; per_seq : list (Z * Z); permits : list Z }.

Record Table := MkTable
  { enc : TableEncoder; allocated_bytes : Z; t_meta : BatchMeta; seq_counts : list (Z * Z); slice_permits : list Z; value_permits : list Z;
    deadline : option Z }.

(** The tables, the output and the epoch. *)
Record State := MkState { tables : gmap TableKey Table; partial_bytes : Z; sent : list InsertBatch; epoch : Z }.

(** [BatchOutput]'s fixed limits, from the boot configuration. *)
Record Limits := MkLimits { budget_total : Z; batch_limit : Z }.

Definition limits_of (boot : BatcherConfig) : Limits :=
  MkLimits (Z.max 1 (byte_budget boot)) (Z.max 1 (byte_budget boot / Z.max 1 (inserters boot))).

Definition initial : State := MkState ∅ 0 [] 0.

(** [emit_batch] on one table: the emptied table and the batch it sends. *)
Definition emit_batch (t : Table) (partial : Z) (out : list InsertBatch) : Table * Z * list InsertBatch :=
  let partial := partial - allocated_bytes t in
  let '(bufs, n, enc) := take_block (enc t) in
  if n =? 0 then (MkTable enc 0 (t_meta t) [] [] [] None, partial, out)
  else (MkTable enc 0 (t_meta t) [] [] [] None, partial, out ++ [MkBatch (t_meta t) bufs n (seq_counts t) (slice_permits t ++ value_permits t)]).

Definition emit_key (st : State) (k : TableKey) : State :=
  match tables st !! k with
  | None => st
  | Some t => let '(t, partial, out) := emit_batch t (partial_bytes st) (sent st) in MkState (<[k := t]> (tables st)) partial out (epoch st)
  end.

(** [values_mut] visits the tables in an order of the map's own. *)
Context (iter : gmap TableKey Table -> list TableKey).

Definition emit_all (st : State) : State := fold_left emit_key (iter (tables st)) st.

Definition flush_due (st : State) (now : Z) : State :=
  fold_left (fun st k => if match tables st !! k with Some t => match deadline t with Some d => d <=? now | None => false end | None => false end then emit_key st k else st)
    (iter (tables st)) st.

Definition flush_all (st : State) : State :=
  let st := fold_left (fun st k => if match tables st !! k with Some t => 0 <? rows (enc t) | None => false end then emit_key st k else st) (iter (tables st)) st in
  MkState ∅ (partial_bytes st) (sent st) (epoch st + 1).

Definition key_of (r : RoutedRow) : TableKey := (WalRecord.db_node (drfn (rel r)), batch_owner (route r) (rel_name (rel r))).

Definition new_table (p : TablePlan) (key : TableKey) (epoch : Z) : Table := MkTable (new_encoder p) 0 (from_plan p key epoch) [] [] [] None.

(** The table a row's key names, planned on its first row. *)
Definition table_for (st : State) (r : RoutedRow) : result BatcherError Table :=
  match tables st !! key_of r with
  | Some t => Ok t
  | None => match for_route (rel r) (route r) with Ok p => Ok (new_table p (key_of r) (epoch st)) | Err e => Err (Emitter e) end
  end.

Definition op_of (h : HeapOp) : option Z :=
  match h with Insert => Some OP_INSERT | Update | HotUpdate => Some OP_UPDATE | Delete => Some OP_DELETE | Truncate => None end.

Definition row_in (r : RoutedRow) (op : Z) : Row := MkRowIn (committed r) (mapping (route r)) op (leaf_oid <$> partition (route r)).

Definition set_enc (t : Table) (e : TableEncoder) : Table :=
  MkTable e (allocated_bytes t) (t_meta t) (seq_counts t) (slice_permits t) (value_permits t) (deadline t).

(** The append, and its retry on the sealed table: the second answer is not
    looked at. *)
Definition append_sealing (t : Table) (row : Row) (partial : Z) (out : list InsertBatch) : result BatcherError (Table * Z * list InsertBatch) :=
  match append_routed (enc t) row with
  | Err e => Err (Emitter e)
  | Ok (Done, e) => Ok (set_enc t e, partial, out)
  | Ok (Full, _) =>
      let '(t, partial, out) := emit_batch t partial out in
      match append_routed (enc t) row with
      | Err e => Err (Emitter e)
      | Ok (_, e) => Ok (set_enc t e, partial, out)
      end
  end.

(** A permit is held once per run of rows that share it. *)
Definition hold_permit (l : list Z) (p : option Z) : list Z :=
  match p with
  | None => l
  | Some p => if bool_decide (list.last l = Some p) then l else l ++ [p]
  end.

Definition count_seq (l : list (Z * Z)) (s : Z) : list (Z * Z) :=
  match list.last l with
  | Some (s', c) => if s' =? s then removelast l ++ [(s', c + 1)] else l ++ [(s, 1)]
  | None => l ++ [(s, 1)]
  end.

(** What the run gives a row: the time, and the buffers' capacity after it. *)
Record Env := MkEnv { now : Z; capacity : Z }.

Definition handle_row (lim : Limits) (cfg : BatcherConfig) (st : State) (r : RoutedRow) (slice_permit : option Z) (env : Env) : result BatcherError State :=
  let k := key_of r in
  let? t := table_for st r in
  match op_of (op (decoded (committed r))) with
  | None => Err TruncateRouted
  | Some o =>
      let? (t, partial, out) := append_sealing t (row_in r o) (partial_bytes st) (sent st) in
      let partial := partial + (capacity env - allocated_bytes t) in
      let t := MkTable (enc t) (capacity env) (t_meta t) (count_seq (seq_counts t) (seq r)) (hold_permit (slice_permits t) slice_permit)
                 (value_permits t ++ option_list (value_permit r)) (Some (default (now env + flush_timeout cfg) (deadline t))) in
      let st := MkState (<[k := t]> (tables st)) partial out (epoch st) in
      let limit := Z.min (byte_budget cfg) (batch_limit lim) in
      let st := if (row_budget cfg <=? rows (enc t)) || (limit <=? capacity env) then emit_key st k else st in
      Ok (if Z.min (byte_budget cfg) (budget_total lim) <=? partial_bytes st then emit_all st else st)
  end.

(** ** The hub *)
Record RowChunk := MkChunk { chunk_rows : list (RoutedRow * Env); chunk_permit : option Z }.

Fixpoint handle_rows (lim : Limits) (cfg : BatcherConfig) (st : State) (rs : list (RoutedRow * Env)) (permit : option Z) : result BatcherError State :=
  match rs with
  | [] => Ok st
  | (r, env) :: rs => let? st := handle_row lim cfg st r permit env in handle_rows lim cfg st rs permit
  end.

Fixpoint handle_chunks (lim : Limits) (cfg : BatcherConfig) (st : State) (cs : list RowChunk) : result BatcherError State :=
  match cs with
  | [] => Ok st
  | c :: cs => let? st := handle_rows lim cfg st (chunk_rows c) (chunk_permit c) in handle_chunks lim cfg st cs
  end.

(** A message or the deadline timer; a message is handled under the
    configuration of that moment. *)
Inductive Event :=
| RowMsg (r : RoutedRow) (env : Env) (live : option ResolvedConfig)
| RowsMsg (c : RowChunk) (live : option ResolvedConfig)
| ChunksMsg (cs : list RowChunk) (live : option ResolvedConfig)
| FlushAll
| Deadline (now : Z).

Definition step (boot : BatcherConfig) (st : State) (ev : Event) : result BatcherError State :=
  let lim := limits_of boot in
  match ev with
  | RowMsg r env live => handle_row lim (effective_cfg boot live) st r None env
  | RowsMsg c live => handle_rows lim (effective_cfg boot live) st (chunk_rows c) (chunk_permit c)
  | ChunksMsg cs live => handle_chunks lim (effective_cfg boot live) st cs
  | FlushAll => Ok (flush_all st)
  | Deadline now => Ok (flush_due st now)
  end.

Fixpoint run (boot : BatcherConfig) (st : State) (evs : list Event) : result BatcherError State :=
  match evs with
  | [] => Ok st
  | ev :: evs => let? st := step boot st ev in run boot st evs
  end.

End Batcher.
End Batcher.
