(* ===== verification/BatcherProofs.v ===== *)
(** * The batcher loses and invents no row

    Every row handed to the batcher is in exactly one batch or still open in its
    table, in order; a batch's block and sequence counts are those of its rows;
    a flush leaves nothing open; what is buffered stays under the byte budget
    and no row outstays its deadline. *)
From Stdlib Require Import String.
From S2P Require Import Prelude Text WalRecord AsciiBuf Numeric Decimal HeapDecode Spill Outbox Rules TablePlan Encoder EncoderProofs EncoderBlocks Batcher.
Import Schema HeapDecode.

Module BatcherProofs.
Import SystemColumns TableRules ColumnRules Oracle Place Route TablePlan Encoder Layout Batcher.

(** ** Sequence counts *)
Definition expand (l : list (Z * Z)) : list Z := flat_map (fun p => zrep p.2 p.1) l.

Lemma expand_snoc l s : Forall (fun p => 0 < p.2) l -> expand (count_seq l s) = expand l ++ [s] /\ Forall (fun p => 0 < p.2) (count_seq l s).
Proof.
  intros HF. unfold count_seq. destruct l as [|[s' c] l _] using rev_ind; [split; [done|by repeat constructor]|]. rewrite last_snoc. apply Forall_app in HF as [HF Hc]. apply Forall_cons_1 in Hc as [Hc _]. cbn in Hc.
  destruct (Z.eqb_spec s' s) as [->|].
  - rewrite removelast_last. split; [|apply Forall_app; split; [done|by constructor; [cbn; lia|]]]. unfold expand. rewrite !flat_map_app, <-app_assoc. f_equal. cbn. rewrite !app_nil_r. unfold zrep. rewrite Z2Nat.inj_add by lia.
    rewrite replicate_add. done.
  - split; [unfold expand; by rewrite !flat_map_app, <-!app_assoc|]. apply Forall_app. split; [apply Forall_app; split; [done|by constructor]|by constructor].
Qed.

Section Proofs.
Context `{TV : TypeViews} `{PC : PatternCrates} (FLUSH : Z) (iter : gmap TableKey Table -> list TableKey).

(** A row as it was handled: its slice's permit and the time it was due. *)
Record Item := MkItem { item : RoutedRow; slice : option Z; due : Z }.

Definition item_key (i : Item) : TableKey := key_of (item i).
Definition item_seq (i : Item) : Z := seq (item i).

Definition row_of (i : Item) : option Row := row_in (item i) <$> op_of (op (decoded (committed (item i)))).

(** Rows encoded one after another into a fresh encoder give [e]. *)
Definition encoded (its : list Item) (e : TableEncoder) : Prop :=
  exists rs, mapM row_of its = Some rs /\ append_all (new_encoder (plan e)) rs = Some e.

Definition permits_cover (its : list Item) (ps : list Z) : Prop :=
  forall i p, i ∈ its -> slice i = Some p \/ value_permit (item i) = Some p -> p ∈ ps.

Record table_ok (k : TableKey) (t : Table) (its : list Item) : Prop := MkTableOk
  { to_enc : encoded its (enc t);
    to_seqs : expand (seq_counts t) = map item_seq its /\ Forall (fun p => 0 < p.2) (seq_counts t);
    to_key : table_key (t_meta t) = k /\ Forall (fun i => item_key i = k) its;
    to_columns : m_columns (t_meta t) = batch_columns (plan (enc t));
    to_permits : permits_cover its (slice_permits t ++ value_permits t);
    to_due : deadline t = due <$> head its;
    to_empty : its = [] -> allocated_bytes t = 0;
    to_alloc : 0 <= allocated_bytes t }.

Record batch_ok (b : InsertBatch) (its : list Item) : Prop := MkBatchOk
  { bo_enc : exists e, encoded its e /\ b_buffers b = buffers e /\ m_columns (meta b) = batch_columns (plan e);
    bo_rows : n_rows b = zlen its /\ its <> [];
    bo_seqs : expand (per_seq b) = map item_seq its;
    bo_key : Forall (fun i => item_key i = table_key (meta b)) its;
    bo_permits : permits_cover its (permits b) }.

Lemma append_keeps e r a e' : append_routed e r = Ok (a, e') -> plan e' = plan e /\ oracle_overhead e' = oracle_overhead e /\ (a = Done -> rows e' = rows e + 1) /\ (a = Full -> 0 < rows e /\ e' = e).
Proof.
  unfold append_routed. destruct (size_cells _ _ _) as [[[cs x] y]|]; [|done]. destruct (_ && _) eqn:E; [intros [= <- <-]; apply andb_prop in E as [E%Z.ltb_lt _]; naive_solver|]. destruct (MAX_REQUEST_BYTES <? _); [discriminate|].
  destruct (fill _ _ _ _ _) as [[filled rest]|]; [|done]. destruct (push_all _ _); [|done]. intros [= <- <-]. naive_solver.
Qed.

Lemma append_all_keeps rs : forall e e', append_all e rs = Some e' -> plan e' = plan e /\ oracle_overhead e' = oracle_overhead e /\ rows e' = rows e + zlen rs.
Proof.
  induction rs as [|r rs IH]; intros e e'; cbn [append_all]; [intros [= <-]; change (zlen []) with 0; split_and!; lia || done|]. destruct (append_routed e r) as [[[|] e1]|] eqn:Ea; try done. intros H.
  destruct (append_keeps _ _ _ _ Ea) as (H1 & H2 & H3 & _). destruct (IH _ _ H) as (-> & -> & ->). rewrite zlen_cons, H3 by done. split_and!; [done|done|lia].
Qed.

Lemma append_all_snoc rs r : forall e e1, append_all e rs = Some e1 -> append_all e (rs ++ [r]) = match append_routed e1 r with Ok (Done, e2) => Some e2 | _ => None end.
Proof. induction rs as [|x rs IH]; intros e e1; cbn [append_all app]; [intros [= <-]; by destruct (append_routed e r) as [[[|] ?]|]|]. destruct (append_routed e x) as [[[|] ?]|]; try done. apply IH. Qed.

Lemma mapM_length its rs : mapM row_of its = Some rs -> zlen rs = zlen its.
Proof. intros H%mapM_Some_1%Forall2_length. unfold zlen. by rewrite H. Qed.

Lemma encoded_take its e : encoded its e -> take_block e = (buffers e, zlen its, new_encoder (plan e)).
Proof.
  intros (rs & Hm & Ha). destruct (append_all_keeps _ _ _ Ha) as (_ & Ho & Hr). cbn in Ho, Hr. unfold take_block, new_encoder. rewrite Hr, Ho, (mapM_length _ _ Hm). by rewrite Z.add_0_l.
Qed.

Lemma encoded_nil p : encoded [] (new_encoder p).
Proof. by exists []. Qed.

Lemma encoded_snoc its i r e e' : encoded its e -> row_of i = Some r -> append_routed e r = Ok (Done, e') -> encoded (its ++ [i]) e'.
Proof.
  intros (rs & Hm & Ha) Hr Happ. exists (rs ++ [r]). split; [apply mapM_Some_2, Forall2_app; [by apply mapM_Some_1|by repeat constructor]|]. destruct (append_keeps _ _ _ _ Happ) as (-> & _). by rewrite (append_all_snoc _ _ _ _ Ha), Happ.
Qed.

Lemma empty_table_ok k t : encoded [] (enc t) -> table_key (t_meta t) = k -> m_columns (t_meta t) = batch_columns (plan (enc t)) -> seq_counts t = [] -> deadline t = None -> allocated_bytes t = 0 -> table_ok k t [].
Proof. intros H1 H2 H3 H4 H5 H6. split; [done|rewrite H4; split; [done|constructor]|split; [done|constructor]|done|by intros i p []%elem_of_nil|done|done|lia]. Qed.

(** ** Sealing one table *)
Lemma emit_batch_ok k t its partial out : table_ok k t its ->
  exists t' out', emit_batch t partial out = (t', partial - allocated_bytes t, out') /\ table_ok k t' [] /\ plan (enc t') = plan (enc t) /\ rows (enc t') = 0 /\
    (its = [] /\ out' = out \/ exists b, out' = out ++ [b] /\ batch_ok b its /\ table_key (meta b) = k).
Proof.
  intros [H1 [H2 H2'] [H3 H3'] H4 H5 H6 H7 _]. unfold emit_batch. rewrite (encoded_take _ _ H1). destruct (Z.eqb_spec (zlen its) 0) as [Ez|Ez].
  - assert (its = []) as -> by (unfold zlen in Ez; destruct its; [done|cbn in Ez; lia]). eexists _, _. split; [reflexivity|]. split_and!; [|done|done|by left]. by apply empty_table_ok; [apply encoded_nil|..].
  - eexists _, _. split; [reflexivity|]. split_and!; [|done|done|right; eexists; split; [reflexivity|]]; [by apply empty_table_ok; [apply encoded_nil|..]|].
    split; [|done]. split; cbn [b_buffers meta n_rows per_seq permits]; [by exists (enc t)|split; [done|by intros ->]|done|by rewrite H3|done].
Qed.

(** ** The append with its retry *)
Lemma append_sealing_ok k t its i r partial out t' partial' out' : table_ok k t its -> row_of i = Some r -> append_sealing t r partial out = Ok (t', partial', out') ->
  exists its', encoded (its' ++ [i]) (enc t') /\ plan (enc t') = plan (enc t) /\ table_ok k (set_enc t' (match its' with [] => new_encoder (plan (enc t)) | _ => enc t end)) its' /\
    partial' - allocated_bytes t' = partial - allocated_bytes t /\
    (its' = its /\ out' = out \/ its' = [] /\ exists b, out' = out ++ [b] /\ batch_ok b its /\ table_key (meta b) = k).
Proof.
  intros Hok Hr. unfold append_sealing. destruct (append_routed (enc t) r) as [[[|] e]|] eqn:Ea; [| |done].
  - intros [= <- <- <-]. destruct (append_keeps _ _ _ _ Ea) as (Hp & _). exists its. split_and!; [by eapply encoded_snoc; [apply Hok|..]|done| |done|by left].
    destruct its as [|i0 its0]; [|by destruct t]. destruct Hok as [(rs & Hm & Ha) H2 H3 H4 H5 H6 H7 H8]. cbn in Hm. injection Hm as <-. cbn in Ha. injection Ha as Ha. split; try done. apply encoded_nil.
  - destruct (append_keeps _ _ _ _ Ea) as (_ & _ & _ & Hfull). destruct (Hfull eq_refl) as [Hpos ->]. destruct (emit_batch_ok k t its partial out Hok) as (t1 & out1 & -> & Hok1 & Hp1 & Hr1 & Hcase).
    destruct (append_routed (enc t1) r) as [[a e1]|] eqn:Ea1; [|done]. intros [= <- <- <-]. destruct (append_keeps _ _ _ _ Ea1) as (Hp & _ & _ & Hnf). destruct a; [|by destruct (Hnf eq_refl); lia].
    exists []. cbn [app enc set_enc]. split_and!; [apply (encoded_snoc [] i r (enc t1)); [apply Hok1|done|done]|congruence| | |].
    + destruct Hok1 as [H1 H2 H3 H4 H5 H6 H7 H8]. split; try done; [apply encoded_nil|]. cbn [set_enc t_meta enc plan new_encoder] in *. by rewrite H4, Hp1.
    + cbn. rewrite (to_empty _ _ _ Hok1 eq_refl). lia.
    + destruct Hcase as [[-> ->]|Hb]; [|by right]. left. done.
Qed.

(** ** The invariant *)
Definition total (m : gmap TableKey Table) : Z := map_fold (fun _ t acc => allocated_bytes t + acc) 0 m.

Lemma total_fresh m k t : m !! k = None -> total (<[k := t]> m) = allocated_bytes t + total m.
Proof. intros Hk. unfold total. rewrite map_fold_insert_L; [done| |done]. intros. lia. Qed.

Lemma total_insert m k t t' : m !! k = Some t -> total (<[k := t']> m) = total m - allocated_bytes t + allocated_bytes t'.
Proof.
  intros Hk. rewrite <-(insert_id m k t Hk) at 2. rewrite <-!(insert_delete_eq m). rewrite !total_fresh by apply lookup_delete_eq. lia.
Qed.

Definition of_key (k : TableKey) (l : list Item) : list Item := filter (fun i => item_key i = k) l.

Lemma of_key_app k a b : of_key k (a ++ b) = of_key k a ++ of_key k b.
Proof. apply list.filter_app. Qed.

Lemma of_key_all k l : Forall (fun i => item_key i = k) l -> of_key k l = l.
Proof. intros HF. unfold of_key. induction HF as [|i l Hi _ IH]; [done|]. rewrite filter_cons, decide_True by done. by rewrite IH. Qed.

Lemma of_key_none k k' l : k <> k' -> Forall (fun i => item_key i = k) l -> of_key k' l = [].
Proof. intros Hne HF. unfold of_key. induction HF as [|i l Hi _ IH]; [done|]. rewrite filter_cons, decide_False by congruence. done. Qed.

Definition upd (f : TableKey -> list Item) (k : TableKey) (v : list Item) (k' : TableKey) : list Item := if decide (k' = k) then v else f k'.

Lemma upd_eq f k v : upd f k v k = v.
Proof. unfold upd. by rewrite decide_True. Qed.

Lemma upd_ne f k v k' : k' <> k -> upd f k v k' = f k'.
Proof. intros. unfold upd. by rewrite decide_False. Qed.

Record inv (st : State) (hist : list Item) (gs : list (list Item)) (opens : TableKey -> list Item) : Prop := MkInv
  { i_sent : Forall2 batch_ok (sent st) gs;
    i_tables : forall k t, tables st !! k = Some t -> table_ok k t (opens k);
    i_none : forall k, tables st !! k = None -> opens k = [];
    i_hist : forall k, of_key k hist = of_key k (concat gs) ++ opens k;
    i_partial : partial_bytes st = total (tables st) }.

Lemma initial_inv : inv initial [] [] (fun _ => []).
Proof. split; [constructor|done|done|done|]. unfold total. cbn. by rewrite map_fold_empty. Qed.

(** One more sealed batch of key [k], whose items were open. *)
Lemma hist_sealed gs k its hist rest : Forall (fun i => item_key i = k) its -> of_key k hist = of_key k (concat gs) ++ its ++ rest ->
  of_key k hist = of_key k (concat (gs ++ [its])) ++ rest.
Proof. intros HF ->. rewrite concat_app, of_key_app. change (concat [its]) with (its ++ []). by rewrite app_nil_r, (of_key_all k its HF), <-app_assoc. Qed.

Lemma hist_other gs k k' its : k <> k' -> Forall (fun i => item_key i = k) its -> of_key k' (concat (gs ++ [its])) = of_key k' (concat gs).
Proof. intros Hne HF. rewrite concat_app, of_key_app. change (concat [its]) with (its ++ []). by rewrite app_nil_r, (of_key_none k k' its Hne HF), app_nil_r. Qed.

Lemma emit_key_inv st hist gs opens k : inv st hist gs opens ->
  exists gs', inv (emit_key st k) hist gs' (upd opens k []) /\ (forall k', k' <> k -> tables (emit_key st k) !! k' = tables st !! k') /\
    partial_bytes (emit_key st k) <= partial_bytes st.
Proof.
  intros [H1 H2 H3 H4 H5]. unfold emit_key. destruct (tables st !! k) as [t|] eqn:Et.
  2:{ exists gs. split; [|done]. split; [done| | | |done].
      - intros k' t' Hk'. rewrite upd_ne by congruence. by apply H2.
      - intros k' Hk'. unfold upd. destruct (decide _); [done|]. by apply H3.
      - intros k'. unfold upd. destruct (decide (k' = k)) as [->|]; [|apply H4]. rewrite H4. by rewrite (H3 _ Et). }
  pose proof (H2 _ _ Et) as Hok. destruct (emit_batch_ok k t (opens k) (partial_bytes st) (sent st) Hok) as (t' & out' & -> & Hok' & _ & _ & Hcase).
  assert (exists gs', Forall2 batch_ok out' gs' /\ forall k', of_key k' hist = of_key k' (concat gs') ++ upd opens k [] k') as (gs' & Hs & Hh).
  { destruct Hcase as [[Ho ->]|(b & -> & Hb & Hk)].
    - exists gs. split; [done|]. intros k'. unfold upd. destruct (decide (k' = k)) as [->|]; [|apply H4]. by rewrite H4, Ho.
    - exists (gs ++ [opens k]). split; [apply Forall2_app; [done|constructor; [done|constructor]]|]. destruct (to_key _ _ _ Hok) as [_ HFk]. intros k'. destruct (decide (k' = k)) as [->|Hne].
      + rewrite upd_eq. apply hist_sealed; [done|]. rewrite app_nil_r. apply H4.
      + rewrite upd_ne, (hist_other gs k k') by done. apply H4. }
  exists gs'. split; [|split; [intros k' Hk'; cbn; by rewrite lookup_insert_ne|cbn; pose proof (to_alloc _ _ _ Hok); lia]]. split; cbn [sent tables partial_bytes]; [done| | |done|].
  - intros k' t1. destruct (decide (k' = k)) as [->|Hne]; [rewrite lookup_insert_eq, upd_eq; by intros [= <-]|]. rewrite lookup_insert_ne, upd_ne by done. apply H2.
  - intros k'. destruct (decide (k' = k)) as [->|Hne]; [by rewrite lookup_insert_eq|]. rewrite lookup_insert_ne, upd_ne by done. apply H3.
  - rewrite H5, (total_insert _ _ _ _ Et), (to_empty _ _ _ Hok' eq_refl). lia.
Qed.

(** A pass over tables that seals those [cond] selects. *)
Definition seal_where (cond : option Table -> bool) (ks : list TableKey) (st : State) : State :=
  fold_left (fun st k => if cond (tables st !! k) then emit_key st k else st) ks st.

Lemma seal_where_inv cond ks : forall st hist gs opens, inv st hist gs opens ->
  exists gs' opens', inv (seal_where cond ks st) hist gs' opens' /\
    (forall k, opens' k = opens k /\ tables (seal_where cond ks st) !! k = tables st !! k \/ opens' k = []) /\
    (forall k, k ∈ ks -> opens' k = [] \/ cond (tables (seal_where cond ks st) !! k) = false) /\
    partial_bytes (seal_where cond ks st) <= partial_bytes st.
Proof.
  induction ks as [|k0 ks IH]; intros st hist gs opens Hi; cbn [seal_where fold_left].
  - exists gs, opens. split_and!; [done|by left|by intros k []%elem_of_nil|done].
  - destruct (cond (tables st !! k0)) eqn:Ec.
    + destruct (emit_key_inv _ _ _ _ k0 Hi) as (gs1 & Hi1 & Ht1 & Hp1). destruct (IH _ _ _ _ Hi1) as (gs2 & opens2 & Hi2 & Hb & Hc & Hp2). exists gs2, opens2. split_and!; [done| | |by trans (partial_bytes (emit_key st k0))].
      * intros k. destruct (Hb k) as [[Ho Ht]|Ho]; [|by right]. destruct (decide (k = k0)) as [->|Hne]; [right; by rewrite Ho, upd_eq|]. left. rewrite Ho, upd_ne by done. split; [done|]. etrans; [exact Ht|by apply Ht1].
      * intros k [->|Hk]%elem_of_cons; [|by apply Hc]. left. destruct (Hb k0) as [[Ho _]|Ho]; [by rewrite Ho, upd_eq|done].
    + destruct (IH _ _ _ _ Hi) as (gs2 & opens2 & Hi2 & Hb & Hc & Hp2). exists gs2, opens2. split_and!; [done|done| |done]. intros k [->|Hk]%elem_of_cons; [|by apply Hc].
      destruct (Hb k0) as [[_ Ht]|Ho]; [right|by left]. fold (seal_where cond ks st). by rewrite Ht.
Qed.

Hypothesis iter_keys : forall m, iter m ≡ₚ (map_to_list m).*1.

Lemma iter_spec m k : k ∈ iter m <-> is_Some (m !! k).
Proof.
  rewrite iter_keys. split.
  - intros ([k' t] & -> & H)%list_elem_of_fmap. apply elem_of_map_to_list in H. by exists t.
  - intros [t Ht]. apply list_elem_of_fmap. exists (k, t). split; [done|]. by apply elem_of_map_to_list.
Qed.

Lemma total_zero m : (forall k t, m !! k = Some t -> allocated_bytes t = 0) -> total m = 0.
Proof.
  induction m as [|k t m Hk IH] using map_ind; intros H; [unfold total; by rewrite map_fold_empty|]. rewrite total_fresh by done. rewrite IH; [rewrite (H k t); [done|by rewrite lookup_insert_eq]|].
  intros k' t' Hk'. apply (H k' t'). rewrite lookup_insert_ne; [done|]. congruence.
Qed.

Lemma emit_all_inv st hist gs opens : inv st hist gs opens -> exists gs' opens', inv (emit_all iter st) hist gs' opens' /\ partial_bytes (emit_all iter st) = 0 /\ forall k, opens' k = [].
Proof.
  intros Hi. change (emit_all iter st) with (seal_where (fun _ => true) (iter (tables st)) st). destruct (seal_where_inv (fun _ => true) (iter (tables st)) _ _ _ _ Hi) as (gs' & opens' & Hi' & Hb & Hc & _). exists gs', opens'.
  assert (forall k, opens' k = []) as Hall.
  { intros k. destruct (tables st !! k) as [t|] eqn:Et; [destruct (Hc k ltac:(apply iter_spec; by rewrite Et)) as [?|?]; done|]. destruct (Hb k) as [[Ho Ht]|Ho]; [|done]. rewrite Ho. by apply (i_none _ _ _ _ Hi). }
  split_and!; [done| |done]. rewrite (i_partial _ _ _ _ Hi'). apply total_zero. intros k t Hk. eapply to_empty; [|exact (Hall k)]. by apply (i_tables _ _ _ _ Hi').
Qed.

(** ** One row *)
Lemma hold_permit_spec l p : (forall x, x ∈ l -> x ∈ hold_permit l p) /\ (forall x, p = Some x -> x ∈ hold_permit l p).
Proof.
  unfold hold_permit. destruct p as [p|]; [|done]. case_bool_decide as H; [|set_solver]. split; [done|]. intros x [= <-]. apply last_Some_elem_of in H. done.
Qed.

Lemma table_for_ok st hist gs opens r t : inv st hist gs opens -> table_for st r = Ok t -> table_ok (key_of r) t (opens (key_of r)) /\
  (tables st !! key_of r = Some t \/ tables st !! key_of r = None /\ allocated_bytes t = 0).
Proof.
  intros Hi. unfold table_for. destruct (tables st !! key_of r) as [t0|] eqn:Et; [intros [= <-]; split; [by apply (i_tables _ _ _ _ Hi)|by left]|].
  destruct (for_route _ _) as [p|]; [|done]. intros [= <-]. rewrite (i_none _ _ _ _ Hi _ Et). split; [|by right]. by apply empty_table_ok; [apply encoded_nil|..].
Qed.

(** The table after the row, before any budget is looked at. *)
Lemma appended_ok k t its i e cap : table_ok k (set_enc t (match its with [] => new_encoder (plan e) | _ => e end)) its -> encoded (its ++ [i]) (enc t) -> plan (enc t) = plan e -> item_key i = k -> 0 <= cap ->
  table_ok k (MkTable (enc t) cap (t_meta t) (count_seq (seq_counts t) (item_seq i)) (hold_permit (slice_permits t) (slice i)) (value_permits t ++ option_list (value_permit (item i)))
    (Some (default (due i) (deadline t)))) (its ++ [i]).
Proof.
  intros [_ [H2 H2'] [H3 H3'] H4 H5 H6 _ _] He Hp Hk Hcap. cbn [set_enc enc t_meta seq_counts slice_permits value_permits deadline] in *. destruct (expand_snoc _ (item_seq i) H2') as [E1 E2]. destruct (hold_permit_spec (slice_permits t) (slice i)) as [P1 P2].
  split; cbn [enc t_meta seq_counts slice_permits value_permits deadline allocated_bytes]; [done| | | | | | |done].
  - split; [|done]. by rewrite E1, H2, map_app.
  - split; [done|]. apply Forall_app. split; [done|by constructor].
  - rewrite H4, Hp. by destruct its.
  - intros i' p [Hi'| ->%list_elem_of_singleton]%elem_of_app Hp'.
    + specialize (H5 i' p Hi' Hp'). apply elem_of_app in H5 as [H5|H5]; apply elem_of_app; [left; by apply P1|right; set_solver].
    + destruct Hp' as [Hp'|Hp']; apply elem_of_app; [left; by apply P2|right]. rewrite Hp'. set_solver.
  - rewrite H6. by destruct its.
  - intros Hn. by apply app_nil in Hn as [_ ?].
Qed.

Lemma insert_inv st hist gs opens k t its i : inv st hist gs opens -> item_key i = k -> table_ok k t (its ++ [i]) ->
  forall gs' out partial, Forall2 batch_ok out gs' -> (forall k', of_key k' hist = of_key k' (concat gs') ++ upd opens k its k') ->
  partial = total (<[k := t]> (tables st)) -> inv (MkState (<[k := t]> (tables st)) partial out (epoch st)) (hist ++ [i]) gs' (upd opens k (its ++ [i])).
Proof.
  intros [_ H2 H3 _ _] Hk Hok gs' out partial Hs Hh Hp. split; cbn [sent tables partial_bytes]; [done| | | |done].
  - intros k' t'. destruct (decide (k' = k)) as [->|Hne]; [rewrite lookup_insert_eq, upd_eq; by intros [= <-]|]. rewrite lookup_insert_ne, upd_ne by done. apply H2.
  - intros k'. destruct (decide (k' = k)) as [->|Hne]; [by rewrite lookup_insert_eq|]. rewrite lookup_insert_ne, upd_ne by done. apply H3.
  - intros k'. rewrite of_key_app, Hh, <-app_assoc. f_equal. destruct (decide (k' = k)) as [->|Hne].
    + rewrite !upd_eq. f_equal. apply of_key_all. by constructor.
    + rewrite !upd_ne by done. rewrite (of_key_none k k' [i]); [by rewrite app_nil_r|done|by constructor].
Qed.

Lemma handle_row_inv lim cfg st hist gs opens r permit env st' : 1 <= budget_total lim -> 0 <= capacity env -> inv st hist gs opens -> handle_row iter lim cfg st r permit env = Ok st' ->
  exists gs' opens', inv st' (hist ++ [MkItem r permit (now env + flush_timeout cfg)]) gs' opens' /\ partial_bytes st' < budget_total lim.
Proof.
  intros Hlim Hcap Hi. unfold handle_row. set (i := MkItem r permit (now env + flush_timeout cfg)). set (k := key_of r). destruct (table_for st r) as [t|] eqn:Et; [|done]. destruct (table_for_ok _ _ _ _ _ _ Hi Et) as [Hok Hold]. fold k in Hok, Hold.
  destruct (op_of _) as [o|] eqn:Eo; [|done]. destruct (append_sealing t (row_in r o) _ _) as [[[t1 partial1] out1]|] eqn:Ea; [|done].
  assert (row_of i = Some (row_in r o)) as Hrow by (unfold row_of; cbn; by rewrite Eo). destruct (append_sealing_ok k t (opens k) i _ _ _ _ _ _ Hok Hrow Ea) as (its & Henc & Hp & Hok1 & Hpart & Hcase).
  pose proof (appended_ok k t1 its i (enc t) (capacity env) Hok1 Henc Hp eq_refl Hcap) as Hok2. set (t2 := MkTable _ _ _ _ _ _ _) in Hok2. cbn zeta. change (MkTable (enc t1) (capacity env) _ _ _ _ _) with t2.
  assert (exists gs1, Forall2 batch_ok out1 gs1 /\ forall k', of_key k' hist = of_key k' (concat gs1) ++ upd opens k its k') as (gs1 & Hs1 & Hh1).
  { destruct (to_key _ _ _ Hok) as [_ HFk]. destruct Hcase as [[-> ->]|(-> & b & -> & Hb & Hbk)].
    - exists gs. split; [apply Hi|]. intros k'. unfold upd. destruct (decide (k' = k)) as [->|]; apply Hi.
    - exists (gs ++ [opens k]). split; [apply Forall2_app; [apply Hi|constructor; [done|constructor]]|]. intros k'. destruct (decide (k' = k)) as [->|Hne].
      + rewrite upd_eq. apply hist_sealed; [done|]. rewrite app_nil_r. apply Hi.
      + rewrite upd_ne, (hist_other gs k k') by done. apply Hi. }
  assert (partial1 + (capacity env - allocated_bytes t1) = total (<[k := t2]> (tables st))) as Htot.
  { pose proof (i_partial _ _ _ _ Hi). destruct Hold as [Hk|[Hk Hz]]; [rewrite (total_insert _ _ _ _ Hk)|rewrite total_fresh by done]; cbn; lia. }
  pose proof (insert_inv _ _ _ _ k t2 its i Hi eq_refl Hok2 gs1 out1 _ Hs1 Hh1 Htot) as Hi2. set (st2 := MkState _ _ _ _) in *.
  assert (exists gs3 opens3, inv (if (row_budget cfg <=? rows (enc t2)) || (Z.min (byte_budget cfg) (batch_limit lim) <=? capacity env) then emit_key st2 k else st2) (hist ++ [i]) gs3 opens3) as (gs3 & opens3 & Hi3).
  { destruct (_ || _); [destruct (emit_key_inv _ _ _ _ k Hi2) as (gs3 & H & _)|]; eauto. }
  set (st3 := if _ || _ then _ else _) in *. intros [= <-]. destruct (Z.leb_spec (Z.min (byte_budget cfg) (budget_total lim)) (partial_bytes st3)).
  - destruct (emit_all_inv _ _ _ _ Hi3) as (gs4 & opens4 & Hi4 & Hz & _). exists gs4, opens4. split; [done|]. rewrite Hz. lia.
  - exists gs3, opens3. split; [done|lia].
Qed.

(** ** Runs *)
Definition row_item (cfg : BatcherConfig) (permit : option Z) (p : RoutedRow * Env) : Item := MkItem p.1 permit (now p.2 + flush_timeout cfg).

Definition chunk_items (cfg : BatcherConfig) (c : RowChunk) : list Item := map (row_item cfg (chunk_permit c)) (chunk_rows c).

(** The rows an event hands the batcher. *)
Definition event_items (boot : BatcherConfig) (ev : Event) : list Item :=
  match ev with
  | RowMsg r env live => [row_item (effective_cfg FLUSH boot live) None (r, env)]
  | RowsMsg c live => chunk_items (effective_cfg FLUSH boot live) c
  | ChunksMsg cs live => flat_map (chunk_items (effective_cfg FLUSH boot live)) cs
  | FlushAll | Deadline _ => []
  end.

Definition items (boot : BatcherConfig) (evs : list Event) : list Item := flat_map (event_items boot) evs.

Definition bounded (lim : Limits) (st : State) : Prop := partial_bytes st < budget_total lim.

Definition caps_ok (rs : list (RoutedRow * Env)) : Prop := Forall (fun p => 0 <= capacity p.2) rs.

Lemma handle_rows_inv lim cfg permit rs : 1 <= budget_total lim -> caps_ok rs -> forall st hist gs opens st', inv st hist gs opens -> bounded lim st -> handle_rows iter lim cfg st rs permit = Ok st' ->
  exists gs' opens', inv st' (hist ++ map (row_item cfg permit) rs) gs' opens' /\ bounded lim st'.
Proof.
  intros Hlim Hcaps. induction Hcaps as [|[r env] rs Hcap _ IH]; intros st hist gs opens st' Hi Hb; cbn [handle_rows map].
  - intros [= <-]. exists gs, opens. by rewrite app_nil_r.
  - destruct (handle_row _ _ _ _ _ _ _) as [st1|] eqn:E; [|done]. destruct (handle_row_inv _ _ _ _ _ _ _ _ _ _ Hlim Hcap Hi E) as (gs1 & opens1 & Hi1 & Hb1). intros H.
    destruct (IH _ _ _ _ _ Hi1 Hb1 H) as (gs2 & opens2 & Hi2 & Hb2). exists gs2, opens2. split; [|done]. by rewrite <-app_assoc in Hi2.
Qed.

Lemma handle_chunks_inv lim cfg cs : 1 <= budget_total lim -> Forall (fun c => caps_ok (chunk_rows c)) cs -> forall st hist gs opens st', inv st hist gs opens -> bounded lim st -> handle_chunks iter lim cfg st cs = Ok st' ->
  exists gs' opens', inv st' (hist ++ flat_map (chunk_items cfg) cs) gs' opens' /\ bounded lim st'.
Proof.
  intros Hlim Hcaps. induction Hcaps as [|c cs Hcap _ IH]; intros st hist gs opens st' Hi Hb; cbn [handle_chunks flat_map].
  - intros [= <-]. exists gs, opens. by rewrite app_nil_r.
  - destruct (handle_rows _ _ _ _ _ _) as [st1|] eqn:E; [|done]. destruct (handle_rows_inv _ _ _ _ Hlim Hcap _ _ _ _ _ Hi Hb E) as (gs1 & opens1 & Hi1 & Hb1). intros H.
    destruct (IH _ _ _ _ _ Hi1 Hb1 H) as (gs2 & opens2 & Hi2 & Hb2). exists gs2, opens2. split; [|done]. by rewrite <-app_assoc in Hi2.
Qed.

Lemma encoded_rows its e : encoded its e -> rows e = zlen its.
Proof. intros (rs & Hm & Ha). destruct (append_all_keeps _ _ _ Ha) as (_ & _ & ->). cbn. by rewrite (mapM_length _ _ Hm). Qed.

Lemma flush_all_inv st hist gs opens : inv st hist gs opens -> exists gs', inv (flush_all iter st) hist gs' (fun _ => []) /\ partial_bytes (flush_all iter st) = 0.
Proof.
  intros Hi. unfold flush_all. set (cond := fun o : option Table => match o with Some t => 0 <? rows (enc t) | None => false end). change (fold_left _ _ _) with (seal_where cond (iter (tables st)) st).
  destruct (seal_where_inv cond (iter (tables st)) _ _ _ _ Hi) as (gs' & opens' & Hi' & Hb & Hc & _). set (st1 := seal_where _ _ _) in *. assert (forall k, opens' k = []) as Hall.
  { intros k. destruct (tables st1 !! k) as [t|] eqn:Et; [|by apply (i_none _ _ _ _ Hi')]. destruct (tables st !! k) as [t0|] eqn:Et0.
    - destruct (Hc k ltac:(apply iter_spec; by rewrite Et0)) as [?|Hf]; [done|]. rewrite Et in Hf. cbn in Hf. pose proof (i_tables _ _ _ _ Hi' _ _ Et) as Hok. rewrite (encoded_rows _ _ (to_enc _ _ _ Hok)) in Hf.
      apply Z.ltb_ge in Hf. unfold zlen in Hf. destruct (opens' k); [done|cbn in Hf; lia].
    - destruct (Hb k) as [[Ho _]|?]; [|done]. rewrite Ho. by apply (i_none _ _ _ _ Hi). }
  assert (partial_bytes st1 = 0) as Hz by (rewrite (i_partial _ _ _ _ Hi'); apply total_zero; intros k t Hk; eapply to_empty; [|exact (Hall k)]; by apply (i_tables _ _ _ _ Hi')).
  exists gs'. split; [|done]. destruct Hi' as [H1 _ _ H4 _]. split; cbn [sent tables partial_bytes]; [done|done|done| |by rewrite Hz; unfold total; rewrite map_fold_empty]. intros k. by rewrite H4, Hall.
Qed.

Lemma flush_due_inv st hist gs opens now : inv st hist gs opens -> exists gs' opens', inv (flush_due iter st now) hist gs' opens' /\
  (forall k i, head (opens' k) = Some i -> now < due i) /\ (forall k, opens' k = opens k \/ opens' k = []) /\ partial_bytes (flush_due iter st now) <= partial_bytes st.
Proof.
  intros Hi. unfold flush_due. set (cond := fun o : option Table => match o with Some t => match deadline t with Some d => d <=? now | None => false end | None => false end).
  change (fold_left _ _ _) with (seal_where cond (iter (tables st)) st). destruct (seal_where_inv cond (iter (tables st)) _ _ _ _ Hi) as (gs' & opens' & Hi' & Hb & Hc & Hp). exists gs', opens'. split_and!; [done| |intros k; destruct (Hb k) as [[? _]|?]; auto|done].
  intros k i Hh. destruct (tables (seal_where cond (iter (tables st)) st) !! k) as [t|] eqn:Et; [|by rewrite (i_none _ _ _ _ Hi' _ Et) in Hh]. pose proof (to_due _ _ _ (i_tables _ _ _ _ Hi' _ _ Et)) as Hd. rewrite Hh in Hd. cbn in Hd.
  assert (k ∈ iter (tables st)) as Hk.
  { apply iter_spec. destruct (tables st !! k) eqn:E0; [done|]. destruct (Hb k) as [[Ho _]|Ho]; [rewrite Ho, (i_none _ _ _ _ Hi _ E0) in Hh|rewrite Ho in Hh]; done. }
  destruct (Hc k Hk) as [Ho|Hf]; [by rewrite Ho in Hh|]. rewrite Et in Hf. cbn in Hf. rewrite Hd in Hf. lia.
Qed.

Lemma limits_pos boot : 1 <= budget_total (limits_of boot).
Proof. cbn. lia. Qed.

(** Capacities are sizes. *)
Definition event_ok (ev : Event) : Prop :=
  match ev with
  | RowMsg _ env _ => 0 <= capacity env
  | RowsMsg c _ => caps_ok (chunk_rows c)
  | ChunksMsg cs _ => Forall (fun c => caps_ok (chunk_rows c)) cs
  | _ => True
  end.

Lemma step_inv boot st ev st' hist gs opens : event_ok ev -> inv st hist gs opens -> bounded (limits_of boot) st -> step FLUSH iter boot st ev = Ok st' ->
  exists gs' opens', inv st' (hist ++ event_items boot ev) gs' opens' /\ bounded (limits_of boot) st'.
Proof.
  intros Hok Hi Hb. pose proof (limits_pos boot) as Hlim. destruct ev as [r env live|c live|cs live| |now]; cbn [step event_items event_ok] in *.
  - intros H. destruct (handle_row_inv _ _ _ _ _ _ _ _ _ _ Hlim Hok Hi H) as (gs' & opens' & H1 & H2). by exists gs', opens'.
  - intros H. destruct (handle_rows_inv _ _ _ _ Hlim Hok _ _ _ _ _ Hi Hb H) as (gs' & opens' & H1 & H2). by exists gs', opens'.
  - intros H. destruct (handle_chunks_inv _ _ _ Hlim Hok _ _ _ _ _ Hi Hb H) as (gs' & opens' & H1 & H2). by exists gs', opens'.
  - intros [= <-]. destruct (flush_all_inv _ _ _ _ Hi) as (gs' & H1 & H2). rewrite app_nil_r. exists gs', (fun _ => []). split; [done|]. unfold bounded. lia.
  - intros [= <-]. destruct (flush_due_inv _ _ _ _ now Hi) as (gs' & opens' & H1 & _ & _ & H2). rewrite app_nil_r. exists gs', opens'. split; [done|]. unfold bounded in *. lia.
Qed.

Lemma run_inv boot evs : Forall event_ok evs -> forall st st' hist gs opens, inv st hist gs opens -> bounded (limits_of boot) st -> run FLUSH iter boot st evs = Ok st' ->
  exists gs' opens', inv st' (hist ++ items boot evs) gs' opens' /\ bounded (limits_of boot) st'.
Proof.
  induction 1 as [|ev evs Hev _ IH]; intros st st' hist gs opens Hi Hb; cbn [run].
  - intros [= <-]. exists gs, opens. by rewrite app_nil_r.
  - destruct (step _ _ _ _ _) as [st1|] eqn:E; [|done]. destruct (step_inv _ _ _ _ _ _ _ Hev Hi Hb E) as (gs1 & opens1 & Hi1 & Hb1). intros H.
    destruct (IH _ _ _ _ _ Hi1 Hb1 H) as (gs2 & opens2 & Hi2 & Hb2). exists gs2, opens2. split; [|done]. by rewrite <-app_assoc in Hi2.
Qed.

Lemma run_initial boot evs st : Forall event_ok evs -> run FLUSH iter boot initial evs = Ok st -> exists gs opens, inv st (items boot evs) gs opens /\ bounded (limits_of boot) st.
Proof. intros HF H. eapply (run_inv boot evs HF initial st [] [] _ initial_inv); [|done]. unfold bounded. cbn. lia. Qed.

Lemma run_events_app boot a b : forall st, run FLUSH iter boot st (a ++ b) = match run FLUSH iter boot st a with Ok st => run FLUSH iter boot st b | Err e => Err e end.
Proof. induction a as [|ev a IH]; intros st; [done|]. cbn [app run]. destruct (step _ _ _ _ _); [apply IH|done]. Qed.

(** ** Conservation *)

(** Rows apart by key are the rows. *)
Lemma of_key_perm a : forall b, (forall k, of_key k a = of_key k b) -> a ≡ₚ b.
Proof.
  induction a as [|x a IH]; intros b H.
  - destruct b as [|y b]; [done|]. specialize (H (item_key y)). unfold of_key in H. rewrite filter_cons, decide_True in H by done. done.
  - assert (exists b1 b2, b = b1 ++ x :: b2 /\ of_key (item_key x) b1 = []) as (b1 & b2 & -> & Hb1).
    { pose proof (H (item_key x)) as Hx. unfold of_key in Hx at 1. rewrite filter_cons, decide_True in Hx by done. fold (of_key (item_key x) a) in Hx. clear -Hx. revert Hx. generalize (of_key (item_key x) a). intros r.
      induction b as [|y b IH]; [done|]. unfold of_key. rewrite filter_cons. case_decide as Hy; [intros [= <- _]; by exists [], b|]. intros Hx. destruct (IH Hx) as (b1 & b2 & -> & Hb1). exists (y :: b1), b2. split; [done|].
      unfold of_key. by rewrite filter_cons, decide_False. }
    rewrite <-Permutation_middle. constructor. apply IH. intros k. specialize (H k). rewrite of_key_app in H |- *. unfold of_key in H. rewrite !filter_cons in H. case_decide as Hk; [|exact H]. subst k. unfold of_key in Hb1 |- *. rewrite Hb1 in H |- *. cbn in H. by injection H.
Qed.

(** The rows of sequence number [s] that batches acknowledge. *)
Definition acked_rows (s : Z) (bs : list InsertBatch) : Z := zlen (filter (fun x => x = s) (flat_map (fun b => expand (per_seq b)) bs)).

Definition count_of (s : Z) (l : list Item) : Z := zlen (filter (fun i => item_seq i = s) l).

Lemma acked_items s bs gs : Forall2 batch_ok bs gs -> acked_rows s bs = count_of s (concat gs).
Proof.
  intros HF. unfold acked_rows, count_of. assert (flat_map (fun b => expand (per_seq b)) bs = map item_seq (concat gs)) as ->.
  { induction HF as [|b g bs gs Hb _ IH]; [done|]. cbn [flat_map concat]. by rewrite map_app, IH, (bo_seqs _ _ Hb). }
  unfold zlen. f_equal. induction (concat gs) as [|i l IH]; [done|]. cbn [map]. rewrite !filter_cons. destruct (decide (item_seq i = s)); cbn; congruence.
Qed.

(** C7: the batcher loses, repeats and reorders no row.  After any messages and
    timer ticks, the rows handed in for a destination are, in order, those of its
    batches followed by those still open; each batch's block and table are the
    encoding of its rows under one plan, its sequence counts expand to exactly
    their sequence numbers, and it holds every memory permit they came with. *)
Theorem batches_conserve_rows boot evs st : Forall event_ok evs -> run FLUSH iter boot initial evs = Ok st ->
  exists gs opens, Forall2 batch_ok (sent st) gs /\ (forall k t, tables st !! k = Some t -> table_ok k t (opens k)) /\
    forall k, of_key k (items boot evs) = of_key k (concat gs) ++ opens k.
Proof. intros HF H. destruct (run_initial _ _ _ HF H) as (gs & opens & [H1 H2 _ H4 _] & _). by exists gs, opens. Qed.

(** C23: a flush seals everything before it.  After [FlushAll] no table is open,
    nothing is accounted as buffered, the batches sent hold all the rows handed
    in before the flush, and the rows they acknowledge of each sequence number
    are exactly the rows handed in under it: the count the ack collector waits
    for. *)
Theorem flush_seals_all boot evs st : Forall event_ok evs -> run FLUSH iter boot initial (evs ++ [FlushAll]) = Ok st ->
  tables st = ∅ /\ partial_bytes st = 0 /\ (exists gs, Forall2 batch_ok (sent st) gs /\ forall k, of_key k (items boot evs) = of_key k (concat gs)) /\
  forall s, acked_rows s (sent st) = count_of s (items boot evs).
Proof.
  intros HF H. rewrite run_events_app in H. destruct (run FLUSH iter boot initial evs) as [st1|] eqn:E; [|done]. cbn in H. injection H as <-. destruct (run_initial _ _ _ HF E) as (gs & opens & Hi & _).
  destruct (flush_all_inv _ _ _ _ Hi) as (gs' & Hi' & Hz). split; [done|]. split; [done|]. assert (forall k, of_key k (items boot evs) = of_key k (concat gs')) as Hk by (intros k; rewrite (i_hist _ _ _ _ Hi' k); by rewrite app_nil_r).
  split; [exists gs'; split; [apply Hi'|done]|]. intros s. rewrite (acked_items s _ gs') by apply Hi'. unfold count_of, zlen. f_equal. rewrite <-(of_key_perm _ _ Hk). done.
Qed.

End Proofs.

(** ** Two rows of one table *)
#[local] Existing Instance Blocks.demo_views.
#[local] Existing Instance TableRules.prefix_crates.

Definition demo_routed (s : Z) (r : Row) : RoutedRow := MkRouted s Blocks.demo_rel (freeze Blocks.demo_map [] default_columns) (tuple r) None.

Definition demo_keys (m : gmap TableKey Table) : list TableKey := (map_to_list m).*1.

Lemma demo_keys_perm m : demo_keys m ≡ₚ (map_to_list m).*1.
Proof. done. Qed.

Definition demo_boot : BatcherConfig := MkConfig 100 1000000 2 5.

Definition demo_events : list Event :=
  [RowMsg (demo_routed 3 (Blocks.demo_in 1 None "1.5" [])) (MkEnv 10 64) None; RowMsg (demo_routed 4 (Blocks.demo_in 2 None "2.5" [9])) (MkEnv 12 64) None].

Definition state_of (r : result BatcherError State) : State := match r with Ok st => st | Err _ => initial end.

Lemma state_of_ok r : is_ok r = true -> r = Ok (state_of r).
Proof. by destruct r. Qed.

Lemma demo_events_ok : Forall event_ok demo_events.
Proof. repeat constructor; cbn; lia. Qed.

Lemma demo_run : run 10 demo_keys demo_boot initial demo_events = Ok (state_of (run 10 demo_keys demo_boot initial demo_events)).
Proof. apply state_of_ok. vm_compute. reflexivity. Qed.

Lemma demo_flush : run 10 demo_keys demo_boot initial (demo_events ++ [FlushAll]) = Ok (state_of (run 10 demo_keys demo_boot initial (demo_events ++ [FlushAll]))).
Proof. apply state_of_ok. vm_compute. reflexivity. Qed.

Lemma batches_conserve_rows_witness : exists gs opens, Forall2 batch_ok (sent (state_of (run 10 demo_keys demo_boot initial demo_events))) gs /\
  forall k, of_key k (items 10 demo_boot demo_events) = of_key k (concat gs) ++ opens k.
Proof.
  destruct (batches_conserve_rows 10 demo_keys demo_keys_perm demo_boot demo_events _ demo_events_ok demo_run) as (gs & opens & H1 & _ & H3). exists gs, opens. split; [exact H1|exact H3].
Defined.

Lemma flush_seals_all_witness : acked_rows 4 (sent (state_of (run 10 demo_keys demo_boot initial (demo_events ++ [FlushAll])))) = 1.
Proof. destruct (flush_seals_all 10 demo_keys demo_keys_perm demo_boot demo_events _ demo_events_ok demo_flush) as (_ & _ & _ & H). rewrite (H 4). reflexivity. Defined.


End BatcherProofs.
