(* ===== verification/OutboxProofs.v ===== *)
(** * The sink never faults the collector, keeps plan order and always drains

    The invariant of [System] that ties the outbox's held events, the rows on
    the channel and the collector's model together, and what follows from it. *)
From S2P Require Import Prelude Pos Ack WalRecord HeapDecode Spill Outbox.
Import Schema HeapDecode Spill.
Import Ack Model SeqAlloc Place Outbox.

Module OutboxProofs.

(** ** Schedules grow at the end *)
Definition history (tx : list AckEvent) : list Ev := concat (map atoms tx).

Lemma history_snoc tx ev : history (tx ++ [ev]) = history tx ++ atoms ev.
Proof. unfold history. rewrite map_app, concat_app. cbn. by rewrite app_nil_r. Qed.

Lemma legal_schedule_snoc tx : forall m ev, legal_schedule m tx -> legal_atoms (fold_left model_apply tx m) (atoms ev) ->
  legal_schedule m (tx ++ [ev]).
Proof. induction tx as [|e tx IH]; intros m ev HL HA; [by split|]. destruct HL as [H1 H2]. split; [done|]. by apply IH. Qed.

Lemma legal_schedule_take tx : forall n m, legal_schedule m tx -> legal_schedule m (take n tx).
Proof. induction tx as [|e tx IH]; intros [|n] m HL; try done. destruct HL as [H1 H2]. split; [done|]. by apply IH. Qed.

Lemma model_run_snoc tx ev : m_seqs (model_run (tx ++ [ev])) = m_seqs (fold_left model_step (atoms ev) (model_run tx)).
Proof. unfold model_run. by rewrite fold_left_app. Qed.

(** ** The collector's model, seq by seq

    [info] is the commit position and the publish flag of every opened seq,
    [rs] its row count; the first [N] are registered and the first [P] placed. *)
Definition entry (h : list Ev) (P : nat) (rs : list Z) (i : nat) (q : Z * bool) : ModelSeq :=
  MkModelSeq q.1 q.2 (if (i <? P)%nat then rs !! i else None) (acksum (Z.of_nat i) h).

Definition seqs_of (h : list Ev) (N P : nat) (info : list (Z * bool)) (rs : list Z) : list ModelSeq := imap (entry h P rs) (take N info).

Record At (m : Model) (h : list Ev) (N P : nat) (info : list (Z * bool)) (rs : list Z) : Prop := mkAt
  { at_seqs : m_seqs m = seqs_of h N P info rs;
    at_le : (P <= N)%nat /\ (N <= length info)%nat /\ length rs = length info;
    at_fresh : forall k, Z.of_nat N <= k -> acksum k h = 0;
    at_places : forall k r, Place k r ∈ h -> 0 <= k /\ rs !! Z.to_nat k = Some r;
    at_nonneg : forall k, 0 <= acksum k h }.

Lemma seqs_of_lookup h N P info rs i : seqs_of h N P info rs !! i = if decide (i < N)%nat then entry h P rs i <$> info !! i else None.
Proof.
  unfold seqs_of. rewrite list_lookup_imap. case_decide.
  - by rewrite lookup_take_lt by lia.
  - by rewrite lookup_take_ge by lia.
Qed.

Lemma length_seqs_of h N P info rs : (N <= length info)%nat -> length (seqs_of h N P info rs) = N.
Proof. intros H. unfold seqs_of. rewrite length_imap, length_take. lia. Qed.

Lemma at_reg m h N P info rs lsn pub : At m h N P info rs -> info !! N = Some (lsn, pub) -> Z.of_nat N < U64_MAX ->
  legal m (Reg (Z.of_nat N) lsn pub) /\
  At (model_step m (Reg (Z.of_nat N) lsn pub)) (h ++ [Reg (Z.of_nat N) lsn pub]) (S N) P info rs.
Proof.
  intros [Hs (HP & HN & Hl) Hf Hp Hn] Hi Hmax. pose proof (lookup_lt_Some _ _ _ Hi). cbn [legal]. unfold zlen. rewrite Hs, length_seqs_of by lia.
  split; [lia|]. assert (Ha : forall k, acksum k (h ++ [Reg (Z.of_nat N) lsn pub]) = acksum k h) by (intros k; rewrite acksum_app; cbn; lia).
  split; cbn [model_step m_seqs].
  - rewrite Hs. apply list_eq. intros i. rewrite seqs_of_lookup. destruct (decide (i < N)%nat).
    + rewrite lookup_app_l by (rewrite length_seqs_of; lia). rewrite seqs_of_lookup, !decide_True by lia. unfold entry. by rewrite Ha.
    + rewrite lookup_app_r by (rewrite length_seqs_of; lia). rewrite length_seqs_of by lia. case_decide.
      * replace i with N by lia. rewrite Nat.sub_diag, Hi. unfold entry. rewrite (proj2 (Nat.ltb_ge N P)) by lia. cbn.
        by rewrite Ha, (Hf (Z.of_nat N)) by lia.
      * rewrite lookup_ge_None_2; [done|]. cbn. lia.
  - lia.
  - intros k Hk. rewrite Ha. apply Hf. lia.
  - intros k r [H'|H']%elem_of_app; [by apply Hp|]. set_solver.
  - intros k. by rewrite Ha.
Qed.

Lemma at_place m h N P info rs r : At m h N P info rs -> (P < N)%nat -> rs !! P = Some r -> acksum (Z.of_nat P) h <= r ->
  legal m (Place (Z.of_nat P) r) /\
  At (model_step m (Place (Z.of_nat P) r)) (h ++ [Place (Z.of_nat P) r]) N (S P) info rs.
Proof.
  intros [Hs (HP & HN & Hl) Hf Hp Hn] HPN Hr Hle. cbn [legal]. rewrite Nat2Z.id, Hs, seqs_of_lookup, decide_True by lia.
  destruct (lookup_lt_is_Some_2 info P ltac:(lia)) as [q Hq]. rewrite Hq. split.
  { split; [lia|]. eexists. split; [done|]. unfold entry. by rewrite Nat.ltb_irrefl. }
  assert (Ha : forall k, acksum k (h ++ [Place (Z.of_nat P) r]) = acksum k h) by (intros k; rewrite acksum_app; cbn; lia).
  split; cbn [model_step m_seqs].
  - rewrite Hs, Nat2Z.id. apply list_eq. intros i. rewrite seqs_of_lookup. destruct (decide (i = P)) as [->|Hne].
    + rewrite list_lookup_alter_eq, seqs_of_lookup, !decide_True, Hq by lia. unfold entry.
      rewrite (proj2 (Nat.ltb_lt P (S P))), (proj2 (Nat.ltb_ge P P)), Ha, Hr by lia. done.
    + rewrite list_lookup_alter_ne, seqs_of_lookup by done. case_decide; [|done]. unfold entry.
      by replace (i <? S P)%nat with (i <? P)%nat by (destruct (Nat.ltb_spec i P), (Nat.ltb_spec i (S P)); lia || done); rewrite Ha.
  - lia.
  - intros k Hk. rewrite Ha. by apply Hf.
  - intros k r' [H'|H']%elem_of_app; [by apply Hp|]. apply list_elem_of_singleton in H'. injection H' as -> ->. rewrite Nat2Z.id. split; [lia|done].
  - intros k. by rewrite Ha.
Qed.

Lemma at_ack m h N P info rs k n r : At m h N P info rs -> 0 <= k < Z.of_nat N -> 0 <= n -> rs !! Z.to_nat k = Some r ->
  acksum k h + n <= r -> r <= U64_MAX ->
  legal m (AckN k n) /\ At (model_step m (AckN k n)) (h ++ [AckN k n]) N P info rs.
Proof.
  intros [Hs (HP & HN & Hl) Hf Hp Hn] Hk Hn0 Hr Hle Hmax. cbn [legal]. rewrite Hs, seqs_of_lookup, decide_True by lia.
  destruct (lookup_lt_is_Some_2 info (Z.to_nat k) ltac:(lia)) as [q Hq]. rewrite Hq. split.
  { split; [lia|]. split; [lia|]. eexists. split; [done|]. unfold entry. cbn [m_acked m_rows]. rewrite Z2Nat.id by lia.
    destruct (Z.to_nat k <? P)%nat; rewrite ?Hr; lia. }
  assert (Ha : forall j, acksum j (h ++ [AckN k n]) = acksum j h + if k =? j then n else 0) by (intros j; rewrite acksum_app; cbn; lia).
  split; cbn [model_step m_seqs].
  - rewrite Hs. apply list_eq. intros i. rewrite seqs_of_lookup. destruct (decide (i = Z.to_nat k)) as [->|Hne].
    + rewrite list_lookup_alter_eq, seqs_of_lookup, !decide_True, Hq by lia. cbn [fmap option_fmap option_map]. unfold entry. cbn [m_acked m_lsn m_publish m_rows].
      by rewrite Ha, Z2Nat.id, Z.eqb_refl by lia.
    + rewrite list_lookup_alter_ne, seqs_of_lookup by done. case_decide; [|done]. unfold entry. rewrite Ha.
      by rewrite (proj2 (Z.eqb_neq _ _)), Z.add_0_r by lia.
  - done.
  - intros j Hj. rewrite Ha, (proj2 (Z.eqb_neq _ _)), Hf by lia. lia.
  - intros j r' [H'|H']%elem_of_app; [by apply Hp|]. set_solver.
  - intros j. rewrite Ha. specialize (Hn j). destruct (k =? j); lia.
Qed.

Lemma at_trail m h N P info rs lsn : At m h N P info rs -> At (model_step m (Trail lsn)) (h ++ [Trail lsn]) N P info rs.
Proof.
  intros [Hs Hle Hf Hp Hn]. assert (Ha : forall k, acksum k (h ++ [Trail lsn]) = acksum k h) by (intros k; rewrite acksum_app; cbn; lia).
  split; cbn [model_step m_seqs].
  - rewrite Hs. unfold seqs_of. apply imap_ext. intros i x _. unfold entry. by rewrite Ha.
  - done.
  - intros k Hk. rewrite Ha. by apply Hf.
  - intros k r [H'|H']%elem_of_app; [by apply Hp|]. set_solver.
  - intros k. by rewrite Ha.
Qed.

Lemma at_ext m m' h N P info rs : m_seqs m = m_seqs m' -> At m h N P info rs -> At m' h N P info rs.
Proof. intros E []. by split; rewrite <- ?E. Qed.

(** A seq opened at the end changes nothing sent so far. *)
Lemma at_open m h N P info rs q r : At m h N P info rs -> At m h N P (info ++ [q]) (rs ++ [r]).
Proof.
  intros [Hs (HP & HN & Hl) Hf Hp Hn]. split; [| |done| |done].
  - rewrite Hs. apply list_eq. intros i. rewrite !seqs_of_lookup. case_decide; [|done]. rewrite lookup_app_l by lia. unfold entry.
    destruct (Nat.ltb_spec i P); [|done]. by rewrite (lookup_app_l rs) by lia.
  - rewrite !length_app. cbn. lia.
  - intros k r' H'. destruct (Hp k r' H') as [H0 Hk]. split; [done|]. by apply lookup_app_l_Some.
Qed.

(** ** The held events *)
Fixpoint reg_events (i : nat) (l : list (Z * bool)) : list AckEvent :=
  match l with [] => [] | (lsn, pub) :: l => Register (Z.of_nat i) lsn pub :: reg_events (S i) l end.

Fixpoint placed_events (i : nat) (l : list Z) : list AckEvent :=
  match l with [] => [] | r :: l => Placed (Z.of_nat i) r :: placed_events (S i) l end.

Lemma reg_events_snoc l : forall i lsn pub, reg_events i (l ++ [(lsn, pub)]) = reg_events i l ++ [Register (Z.of_nat (i + length l)) lsn pub].
Proof.
  induction l as [|[a b] l IH]; intros i lsn pub; cbn; [by rewrite Nat.add_0_r|]. rewrite IH. by replace (S i + length l)%nat with (i + S (length l))%nat by lia.
Qed.

Lemma placed_events_snoc l : forall i r, placed_events i (l ++ [r]) = placed_events i l ++ [Placed (Z.of_nat (i + length l)) r].
Proof.
  induction l as [|a l IH]; intros i r; cbn; [by rewrite Nat.add_0_r|]. rewrite IH. by replace (S i + length l)%nat with (i + S (length l))%nat by lia.
Qed.

Lemma atoms_batch evs : atoms (Batch evs) = history evs.
Proof. induction evs as [|e evs IH]; [done|]. unfold history in *. cbn in *. by rewrite IH. Qed.

Lemma at_regs d : forall m h N P info rs, d = (length info - N)%nat -> At m h N P info rs -> zlen info <= U64_MAX ->
  let l := history (reg_events N (drop N info)) in
  legal_atoms m l /\ At (fold_left model_step l m) (h ++ l) (length info) P info rs.
Proof.
  induction d as [|d IH]; intros m h N P info rs Hd HA Hmax; pose proof (at_le _ _ _ _ _ _ HA) as (? & ? & ?).
  - rewrite drop_ge by lia. cbn. rewrite app_nil_r. split; [done|]. by replace (length info) with N by lia.
  - destruct (lookup_lt_is_Some_2 info N ltac:(lia)) as [[lsn pub] Hi]. rewrite (drop_S _ _ _ Hi). unfold zlen in Hmax.
    destruct (at_reg m h N P info rs lsn pub HA Hi ltac:(lia)) as [HL HA'].
    destruct (IH _ _ (S N) P info rs ltac:(lia) HA' Hmax) as [HL' HA'']. rewrite <- app_assoc in HA''. split; [by split|exact HA''].
Qed.

Lemma at_placeds d : forall m h N P info rs, d = (length rs - P)%nat -> N = length info -> At m h N P info rs ->
  (forall k r, rs !! k = Some r -> acksum (Z.of_nat k) h <= r) ->
  let l := history (placed_events P (drop P rs)) in
  legal_atoms m l /\ At (fold_left model_step l m) (h ++ l) N (length rs) info rs.
Proof.
  induction d as [|d IH]; intros m h N P info rs Hd HN HA Hle; pose proof (at_le _ _ _ _ _ _ HA) as (? & ? & ?).
  - rewrite drop_ge by lia. cbn. rewrite app_nil_r. split; [done|]. by replace (length rs) with P by lia.
  - destruct (lookup_lt_is_Some_2 rs P ltac:(lia)) as [r Hr]. rewrite (drop_S _ _ _ Hr).
    destruct (at_place m h N P info rs r HA ltac:(lia) Hr (Hle _ _ Hr)) as [HL HA'].
    destruct (IH _ _ N (S P) info rs ltac:(lia) HN HA') as [HL' HA''].
    { intros k r' Hk. rewrite acksum_app. cbn. specialize (Hle k r' Hk). lia. }
    rewrite <- app_assoc in HA''. split; [by split|exact HA''].
Qed.

(** ** Counting rows *)
Definition cnt (k : Z) (l : list Z) : Z := Z.of_nat (count_occ Z.eq_dec l k).

Lemma cnt_app k l l' : cnt k (l ++ l') = cnt k l + cnt k l'.
Proof. unfold cnt. rewrite count_occ_app. lia. Qed.

Lemma cnt_perm k l l' : l ≡ₚ l' -> cnt k l = cnt k l'.
Proof. intros H. unfold cnt. f_equal. by apply (Permutation_count_occ Z.eq_dec). Qed.

Lemma cnt_nonneg k l : 0 <= cnt k l.
Proof. unfold cnt. lia. Qed.

Lemma cnt_absent k l : k ∉ l -> cnt k l = 0.
Proof. intros H. unfold cnt. rewrite (proj1 (count_occ_not_In Z.eq_dec l k)); [done|]. by rewrite <- list_elem_of_In. Qed.

Lemma cnt_pos k l : k ∈ l -> 0 < cnt k l.
Proof. intros H. unfold cnt. pose proof (proj1 (count_occ_In Z.eq_dec l k) (proj1 (list_elem_of_In _ _) H)). lia. Qed.

Lemma cnt_zrep k x n : 0 <= n -> cnt k (zrep n x) = if x =? k then n else 0.
Proof.
  intros Hn. unfold zrep, cnt. rewrite <- (Z2Nat.id n) at 2 by lia. induction (Z.to_nat n) as [|j IH]; [by destruct (x =? k)|].
  cbn. destruct (Z.eq_dec x k) as [->|Hne]; [rewrite Z.eqb_refl in *; lia|]. by rewrite (proj2 (Z.eqb_neq _ _) Hne) in *.
Qed.

Lemma cnt_rows_of k c cs : 0 <= c.2 -> cnt k (rows_of (c :: cs)) = (if c.1 =? k then c.2 else 0) + cnt k (rows_of cs).
Proof. intros H. unfold rows_of. cbn [map concat]. by rewrite cnt_app, cnt_zrep. Qed.

Lemma at_acks counts : forall m h N P info rs, At m h N P info rs -> Forall (fun c => 0 < c.2) counts ->
  Forall (fun k => 0 <= k < Z.of_nat N) (rows_of counts) -> Forall (fun r => r <= U64_MAX) rs ->
  (forall k, 0 <= k -> acksum k h + cnt k (rows_of counts) <= default 0 (rs !! Z.to_nat k)) ->
  let l := atoms (Acked counts) in
  legal_atoms m l /\ At (fold_left model_step l m) (h ++ l) N P info rs /\ forall k, acksum k (h ++ l) = acksum k h + cnt k (rows_of counts).
Proof.
  induction counts as [|[x n] counts IH]; intros m h N P info rs HA Hpos Hin Hmax Hle; cbn [atoms map legal_atoms fold_left].
  { split; [done|]. rewrite app_nil_r. split; [done|]. intros k. change (cnt k (rows_of [])) with 0. lia. }
  apply Forall_cons_1 in Hpos as [Hn Hpos]. cbn [fst snd] in *. pose proof (at_le _ _ _ _ _ _ HA) as (_ & ? & ?).
  assert (Hx : 0 <= x < Z.of_nat N).
  { rewrite Forall_forall in Hin. apply Hin, list_elem_of_In. unfold rows_of. cbn. apply elem_of_app. left. unfold zrep.
    apply elem_of_replicate. split; [done|lia]. }
  unfold rows_of in Hin. cbn [map concat] in Hin. apply Forall_app in Hin as [_ Hin].
  destruct (lookup_lt_is_Some_2 rs (Z.to_nat x) ltac:(lia)) as [r Hr].
  setoid_rewrite cnt_rows_of in Hle; [|cbn; lia]. cbn [fst snd] in Hle.
  pose proof (Hle x ltac:(lia)) as Hlx. rewrite Hr, Z.eqb_refl in Hlx. cbn in Hlx. pose proof (cnt_nonneg x (rows_of counts)).
  destruct (at_ack m h N P info rs x n r HA Hx ltac:(lia) Hr ltac:(lia) (Forall_lookup_1 _ _ _ _ Hmax Hr)) as [HL HA'].
  destruct (IH _ _ N P info rs HA' Hpos Hin Hmax) as (HL' & HA'' & Hs).
  { intros k Hk. rewrite acksum_app. cbn [acksum]. specialize (Hle k Hk). lia. }
  rewrite <- app_assoc in HA'', Hs. split; [by split|]. split; [exact HA''|]. intros k. cbn [app] in Hs. rewrite Hs, acksum_app, cnt_rows_of by (cbn; lia).
  cbn. lia.
Qed.

(** ** What a slice places *)
Section Rows.
Context (wkt : list Z -> option (list Z)) (snowflake : bool).

(** The rows of one heap: none unrouted or for a delete the destination cannot
    mark, and a tombstone before an update that moves the key. *)
Definition heap_rows (sq ts lsn : Z) (e : RoutedHeap) : list RoutedRow :=
  match route e with
  | None => []
  | Some rt =>
      let rl := descriptor (described e) in
      let d := Spill.decoded (described e) in
      let row d := MkRow sq rl rt (MkCommitted d ts lsn) in
      if snowflake then [row d]
      else
        let d' := render_heap wkt (Schema.attributes rl) d in
        if drops_deletes rt then (if is_delete d then [] else [row d'])
        else
          let '(tomb, d') := HeapDecode.take_key_change_tombstone d' rl in
          match tomb with Some t => [row t; row d'] | None => [row d'] end
  end.

Definition slice_rows (sq ts lsn : Z) (heaps : list RoutedHeap) : list RoutedRow := concat (map (heap_rows sq ts lsn) heaps).

Lemma place_loop_spec chunk_rows sq ts lsn heaps : forall buf bb st n,
  let '(st', n') := place_loop wkt snowflake chunk_rows sq ts lsn heaps buf bb st n in
  concat st' = concat st ++ buf ++ slice_rows sq ts lsn heaps /\ n' = n + zlen (slice_rows sq ts lsn heaps) /\
  (Forall (fun c => c <> []) st -> Forall (fun c => c <> []) st').
Proof.
  induction heaps as [|e heaps IH]; intros buf bb st n; cbn [place_loop].
  { unfold slice_rows. cbn [map concat]. rewrite app_nil_r, zlen_nil. split; [|split; [lia|]].
    - destruct buf; [by rewrite app_nil_r|]. rewrite concat_app. cbn. by rewrite app_nil_r.
    - intros H. destruct buf; [done|]. apply Forall_app_2; [done|]. by repeat constructor. }
  assert (Hc : forall buf0 bb0 new n0, heap_rows sq ts lsn e = new -> n0 = n + zlen new -> buf0 = buf ++ new -> new <> [] ->
    let '(st', n') := if (chunk_rows <=? zlen buf0) || (DECODE_CHUNK_BYTES <=? bb0) then place_loop wkt snowflake chunk_rows sq ts lsn heaps [] 0 (st ++ [buf0]) n0
      else place_loop wkt snowflake chunk_rows sq ts lsn heaps buf0 bb0 st n0 in
    concat st' = concat st ++ buf ++ slice_rows sq ts lsn (e :: heaps) /\ n' = n + zlen (slice_rows sq ts lsn (e :: heaps)) /\
    (Forall (fun c => c <> []) st -> Forall (fun c => c <> []) st')).
  { intros buf0 bb0 new n0 Hnew -> -> Hne. unfold slice_rows. cbn [map concat]. rewrite Hnew. fold (slice_rows sq ts lsn heaps).
    destruct (_ || _).
    - specialize (IH [] 0 (st ++ [buf ++ new]) (n + zlen new)). destruct (place_loop _ _ _ _ _ _ _ _ _ _) as [st' n'].
      destruct IH as (-> & -> & IH). rewrite concat_app. cbn [concat app]. rewrite app_nil_r, <- !app_assoc. split; [done|]. split; [rewrite zlen_app; lia|].
      intros H. apply IH, Forall_app_2; [done|]. repeat constructor. by destruct buf, new.
    - specialize (IH (buf ++ new) bb0 st (n + zlen new)). destruct (place_loop _ _ _ _ _ _ _ _ _ _) as [st' n'].
      destruct IH as (-> & -> & IH). rewrite <- !app_assoc. split; [done|]. split; [rewrite zlen_app; lia|done]. }
  assert (Hskip : heap_rows sq ts lsn e = [] -> let '(st', n') := place_loop wkt snowflake chunk_rows sq ts lsn heaps buf bb st n in
    concat st' = concat st ++ buf ++ slice_rows sq ts lsn (e :: heaps) /\ n' = n + zlen (slice_rows sq ts lsn (e :: heaps)) /\
    (Forall (fun c => c <> []) st -> Forall (fun c => c <> []) st')).
  { intros Hnil. unfold slice_rows. cbn [map concat]. rewrite Hnil. apply IH. }
  unfold heap_rows in Hc, Hskip. destruct (route e) as [rt|]; [|by apply Hskip].
  destruct snowflake; cbn [negb andb]; cbv beta iota zeta in *; [by eapply Hc|]. destruct (drops_deletes rt); cbn [negb andb].
  - destruct (is_delete _); [by apply Hskip|]. by eapply Hc.
  - destruct (HeapDecode.take_key_change_tombstone _ _) as [[t|] d']; cbv beta iota zeta in *.
    + eapply Hc; [done| | |done]; [change (zlen [_; _]) with 2; lia|by rewrite <- app_assoc].
    + by eapply Hc.
Qed.

Lemma place_rows_spec st chunk_rows sq ts lsn heaps :
  let '(st', n') := place_rows wkt st chunk_rows snowflake sq ts lsn heaps in
  concat st' = concat st ++ slice_rows sq ts lsn heaps /\ n' = zlen (slice_rows sq ts lsn heaps) /\
  (Forall (fun c => c <> []) st -> Forall (fun c => c <> []) st').
Proof. exact (place_loop_spec chunk_rows sq ts lsn heaps [] 0 st 0). Qed.

Lemma heap_rows_tag sq ts lsn e : Forall (fun r => seq r = sq) (heap_rows sq ts lsn e).
Proof. unfold heap_rows. repeat case_match; repeat constructor. Qed.

Lemma slice_rows_tags sq ts lsn heaps : tags (slice_rows sq ts lsn heaps) = zrep (zlen (slice_rows sq ts lsn heaps)) sq.
Proof.
  assert (H : Forall (fun r => seq r = sq) (slice_rows sq ts lsn heaps)).
  { unfold slice_rows. induction heaps as [|e heaps IH]; [constructor|]. apply Forall_app_2; [apply heap_rows_tag|exact IH]. }
  unfold tags, zrep, zlen. rewrite Nat2Z.id. induction H as [|r l Hr _ IH]; [done|]. cbn. by rewrite Hr, IH.
Qed.

(** Placement does not look at the seq. *)
Definition unseq (r : RoutedRow) : RoutedRow := MkRow 0 (rel r) (row_route r) (committed r).

Lemma heap_rows_unseq sq ts lsn e : map unseq (heap_rows sq ts lsn e) = heap_rows 0 ts lsn e.
Proof. unfold heap_rows. repeat case_match; done. Qed.

Lemma slice_rows_unseq sq ts lsn heaps : map unseq (slice_rows sq ts lsn heaps) = slice_rows 0 ts lsn heaps.
Proof. unfold slice_rows. induction heaps as [|e heaps IH]; [done|]. cbn. by rewrite map_app, heap_rows_unseq, IH. Qed.

Lemma zlen_slice_rows sq ts lsn heaps : zlen (slice_rows sq ts lsn heaps) = zlen (slice_rows 0 ts lsn heaps).
Proof. rewrite <- (slice_rows_unseq sq). unfold zlen. by rewrite length_map. Qed.

End Rows.

End OutboxProofs.
