(* ===== verification/SinkProofs.v ===== *)
(** * The invariant of the running sink

    Whatever the sink, the collector and the inserters do, the events sent are
    a legal schedule of [Ack], the rows of every seq are accounted for, and
    what has gone out, what is staged and what is left add up to the plans. *)
From S2P Require Import Prelude Pos Ack WalRecord HeapDecode Spill Outbox OutboxProofs.
Import Schema HeapDecode Spill.
Import Ack Model SeqAlloc Place Outbox OutboxProofs.

Module SinkProofs.

Section Sink.
Context (wkt : list Z -> option (list Z)) (snowflake : bool) {E : Type} (ack0 : Z).

(** ** What an act opens and sends *)
Definition opens (a : Act (E := E)) : Z := match a with ADispatch (_ :: _) _ _ _ _ | AMark _ => 1 | _ => 0 end.

Definition act_rows (a : Act (E := E)) : list RoutedRow :=
  match a with ADispatch heaps _ ts lsn _ => slice_rows wkt snowflake 0 ts lsn heaps | _ => [] end.

Definition act_out (a : Act (E := E)) : list (RoutedRow + Effect (E := E)) :=
  match a with AFenced e => [inr e] | _ => map inl (act_rows a) end.

(** The commit positions an act publishes. *)
Definition act_pubs (a : Act (E := E)) : list Z :=
  match a with ADispatch (_ :: _) _ _ lsn Commit | AMark lsn => [lsn] | _ => [] end.

Lemma zsum_ge l i r : Forall (fun x => 0 <= x) l -> l !! i = Some r -> r <= zsum l.
Proof.
  intros H. revert i. induction H as [|x l Hx Hl IH]; intros [|i] Hi; try done; cbn; fold (zsum l).
  - injection Hi as ->. assert (0 <= zsum l) by (clear IH; induction Hl; cbn; [done|]; fold (zsum l); lia). lia.
  - specialize (IH i Hi). lia.
Qed.

Definition opens_left (p : list Act) : Z := zsum (map opens p).
Definition rows_left (p : list Act) : Z := zlen (concat (map act_rows p)).

(** ** The invariant *)
Record Inv (s : Sys (E := E)) (info : list (Z * bool)) (rs : list Z) (N P : nat) : Prop := mkInv
  { i_held : held (seqs (out s)) = Some (MkHeld (reg_events N (drop N info)) (placed_events P (drop P rs)));
    i_next : next (seqs (out s)) = zlen info;
    i_mid : mid s = true -> N = length info;
    i_legal : legal_schedule empty (sent s);
    i_at : At (model_run (sent s)) (history (sent s)) N P info rs;
    i_rows : forall k, 0 <= k ->
      acksum k (history (sent s)) + cnt k (unacked s) + cnt k (tags (concat (staged (out s)))) = default 0 (rs !! Z.to_nat k);
    i_unacked : Forall (fun k => 0 <= k < Z.of_nat N) (unacked s);
    i_staged : Forall (fun k => 0 <= k < zlen info) (tags (concat (staged (out s))));
    i_opens : zlen info + opens_left (prog s) <= U64_MAX;
    i_pos : Forall (fun r => 0 <= r) rs;
    i_total : zsum rs + rows_left (prog s) <= U64_MAX }.

Lemma send_event tx ev N P info rs : legal_schedule empty tx -> legal_atoms (model_run tx) (atoms ev) ->
  At (fold_left model_step (atoms ev) (model_run tx)) (history tx ++ atoms ev) N P info rs ->
  legal_schedule empty (tx ++ [ev]) /\ At (model_run (tx ++ [ev])) (history (tx ++ [ev])) N P info rs.
Proof.
  intros HL Ha HA. split; [by apply legal_schedule_snoc|]. rewrite history_snoc. eapply at_ext; [|exact HA]. by rewrite model_run_snoc.
Qed.

Lemma opens_nonneg p : 0 <= opens_left p.
Proof.
  unfold opens_left. induction p as [|a p IH]; [done|]. change (0 <= opens a + zsum (map opens p)).
  assert (0 <= opens a) by (destruct a as [[]| | | |]; done). lia.
Qed.

Lemma acksum_regs k i l : acksum k (history (reg_events i l)) = 0.
Proof. unfold history. revert i. induction l as [|[a b] l IH]; intros i; [done|]. apply IH. Qed.

Lemma acksum_placed k i l : acksum k (history (placed_events i l)) = 0.
Proof. unfold history. revert i. induction l as [|a l IH]; intros i; [done|]. apply IH. Qed.

Lemma acksum_app2 k h h' : acksum k (h ++ h') = acksum k h + acksum k h'.
Proof. induction h as [|[] h IH]; cbn; rewrite ?IH; lia. Qed.

(** Sending the held registrations. *)
Lemma registered_sent tx info rs N P : legal_schedule empty tx -> At (model_run tx) (history tx) N P info rs -> zlen info <= U64_MAX ->
  forall a a' tx', held a = Some (MkHeld (reg_events N (drop N info)) (placed_events P (drop P rs))) -> send_registered a tx = (a', tx') ->
  next a' = next a /\ held a' = Some (MkHeld [] (placed_events P (drop P rs))) /\ legal_schedule empty tx' /\
  At (model_run tx') (history tx') (length info) P info rs /\ (forall k, acksum k (history tx') = acksum k (history tx)).
Proof.
  intros HL HA Hmax a a' tx' Hh. unfold send_registered. rewrite Hh. destruct (at_regs _ _ _ _ P _ _ eq_refl HA Hmax) as [HL' HA'].
  destruct (reg_events N (drop N info)) as [|ev evs] eqn:Er.
  - intros [= <- <-]. rewrite app_nil_r in HA'. split; [done|]. split; [done|]. split; [done|]. by split.
  - intros [= <- <-]. rewrite <- atoms_batch in HL', HA'. destruct (send_event _ _ _ _ _ _ HL HL' HA') as [H1 H2]. split; [done|].
    split; [done|]. split; [done|]. split; [done|]. intros k. rewrite history_snoc, acksum_app2, atoms_batch, <- Er, acksum_regs. lia.
Qed.

Lemma placed_sent tx info rs P : legal_schedule empty tx -> At (model_run tx) (history tx) (length info) P info rs ->
  (forall k r, rs !! k = Some r -> acksum (Z.of_nat k) (history tx) <= r) ->
  forall a a' tx' regs, held a = Some (MkHeld regs (placed_events P (drop P rs))) -> send_placed a tx = (a', tx') ->
  next a' = next a /\ held a' = Some (MkHeld regs []) /\ legal_schedule empty tx' /\
  At (model_run tx') (history tx') (length info) (length rs) info rs /\ (forall k, acksum k (history tx') = acksum k (history tx)).
Proof.
  intros HL HA Hle a a' tx' regs Hh. unfold send_placed. rewrite Hh. destruct (at_placeds _ _ _ _ _ _ _ eq_refl eq_refl HA Hle) as [HL' HA'].
  destruct (placed_events P (drop P rs)) as [|ev evs] eqn:Er.
  - intros [= <- <-]. rewrite app_nil_r in HA'. split; [done|]. split; [done|]. split; [done|]. by split.
  - intros [= <- <-]. rewrite <- atoms_batch in HL', HA'. destruct (send_event _ _ _ _ _ _ HL HL' HA') as [H1 H2]. split; [done|].
    split; [done|]. split; [done|]. split; [done|]. intros k. rewrite history_snoc, acksum_app2, atoms_batch, <- Er, acksum_placed. lia.
Qed.

(** ** Every step keeps it *)
Lemma opens_left_cons a p : opens_left (a :: p) = opens a + opens_left p.
Proof. done. Qed.

Lemma rows_left_cons a p : rows_left (a :: p) = zlen (act_rows a) + rows_left p.
Proof. unfold rows_left. cbn [map concat]. by rewrite zlen_app. Qed.

(** Opening a seq, staging its rows and holding its placement. *)
Lemma inv_open p p' o o' tx n un lg lg' info rs N P lsn pub chunks r : Inv (MkSys p false o tx n un lg) info rs N P ->
  seqs o' = (let '(a, _, sq) := open (seqs o) tx lsn pub in (place a tx sq r).1) ->
  concat (staged o') = concat (staged o) ++ chunks -> tags chunks = zrep r (next (seqs o)) -> 0 <= r ->
  opens_left p' + 1 <= opens_left p -> rows_left p' + r <= rows_left p ->
  Inv (MkSys p' false o' tx n un lg') (info ++ [(lsn, match pub with Commit => true | Partial => false end)]) (rs ++ [r]) N P.
Proof.
  intros HI Hseqs Hst Htags Hr Ho Hrl. destruct HI as [Hh Hn Hm HL HA Hrows Hun Hstg Hop Hpos Htot]. cbn [prog mid out sent seen unacked log] in *.
  pose proof (at_le _ _ _ _ _ _ HA) as (HP & HN & Hl). pose proof (opens_nonneg p'). pose proof (zlen_nonneg info).
  unfold open in Hseqs. rewrite Hh in Hseqs. unfold place in Hseqs. cbn [held h_registered h_placed next fst] in Hseqs.
  split; cbn [prog mid out sent seen unacked log]; rewrite ?Hseqs; cbn [held next]; try done.
  - rewrite !drop_app_le by lia. rewrite reg_events_snoc, placed_events_snoc, !length_drop, Hn.
    replace (Z.of_nat (N + (length info - N))) with (zlen info) by (unfold zlen; lia).
    by replace (Z.of_nat (P + (length rs - P))) with (zlen info) by (unfold zlen; lia).
  - rewrite Hn, zlen_app. change (zlen [_]) with 1. apply uadd_small. unfold fits, U64_MAX in *. lia.
  - by apply at_open.
  - intros k Hk. rewrite Hst. unfold tags in *. rewrite map_app, Htags, cnt_app, cnt_zrep, Hn by done. specialize (Hrows k Hk).
    destruct (Z.eqb_spec (zlen info) k) as [<-|Hne].
    + rewrite (lookup_ge_None_2 rs) in Hrows by (unfold zlen; lia). cbn in Hrows.
      rewrite lookup_app_r by (unfold zlen; lia). replace (Z.to_nat (zlen info) - length rs)%nat with 0%nat by (unfold zlen; lia). cbn. lia.
    + destruct (decide (Z.to_nat k < length rs)%nat).
      * rewrite lookup_app_l by lia. lia.
      * rewrite lookup_ge_None_2 by (rewrite length_app; cbn; unfold zlen in *; lia). rewrite (lookup_ge_None_2 rs) in Hrows by lia. lia.
  - rewrite Hst. unfold tags in *. rewrite map_app, Htags. apply Forall_app_2.
    + eapply Forall_impl; [|exact Hstg]. intros k Hk. cbn beta in *. rewrite zlen_app. change (zlen [_]) with 1. lia.
    + rewrite Hn. unfold zrep. apply Forall_replicate. rewrite zlen_app. change (zlen [_]) with 1. lia.
  - rewrite zlen_app. change (zlen [_]) with 1. lia.
  - apply Forall_app_2; [done|]. by repeat constructor.
  - rewrite zsum_app. cbn. lia.
Qed.

(** ** Behind a fence *)
Lemma atom_step_cell s e : frontier_cell (atom_step s e) = frontier_cell s.
Proof.
  destruct e; cbn; unfold open_seq, Ack.step, absent, wedge, set_seqs, set_trailing; repeat case_match; done.
Qed.

Lemma step_event_cell s ev : frontier_cell (step_event s ev) = frontier_cell s.
Proof.
  rewrite step_event_atoms. generalize (atoms ev). intros l. revert s. induction l as [|e l IH]; intros s; [done|]. cbn. by rewrite IH, atom_step_cell.
Qed.

Lemma scan_cell fuel : forall s, frontier_cell (scan fuel s) = frontier_cell s.
Proof. induction fuel as [|fuel IH]; intros s; cbn [scan]; [done|]. repeat case_match; [by rewrite IH|done..]. Qed.

Lemma apply_cell s ev : Pos.get (frontier_cell (apply s ev)) = Z.max (Pos.get (frontier_cell s)) (frontier (apply s ev)).
Proof. unfold apply, publish, Pos.join, Pos.advance_to, Pos.get. cbn [frontier_cell frontier fst Pos.cell]. by rewrite scan_cell, step_event_cell. Qed.

(** The gate shows a frontier the collector has had. *)
Lemma cell_prefix tx : exists n, Pos.get (frontier_cell (collect (Ack.new ack0 None) tx)) <= frontier (collect (Ack.new ack0 None) (take n tx)).
Proof.
  induction tx as [|ev tx [n IH]] using rev_ind; [by exists 0%nat|]. unfold collect in *. rewrite fold_left_app. cbn [fold_left].
  rewrite apply_cell. destruct (Z.le_gt_cases (Pos.get (frontier_cell (fold_left apply tx (Ack.new ack0 None)))) (frontier (apply (fold_left apply tx (Ack.new ack0 None)) ev))).
  - exists (S (length tx)). rewrite take_ge by (rewrite length_app; cbn; lia). rewrite fold_left_app. cbn [fold_left]. lia.
  - exists (n `min` length tx)%nat. rewrite take_app_le by lia.
    assert (take (n `min` length tx) tx = take n tx) as ->; [|lia].
    destruct (decide (n <= length tx)%nat); [by rewrite Nat.min_l|]. rewrite Nat.min_r, !take_ge by lia. done.
Qed.

Lemma legal_nonneg tx : forall m, legal_schedule m tx -> Forall ack_nonneg (history tx).
Proof.
  induction tx as [|ev tx IH]; intros m HL; [constructor|]. destruct HL as [HA HL]. unfold history. cbn. apply Forall_app_2; [|by eapply IH].
  revert m HA HL. generalize (atoms ev). intros l m HA _. revert m HA. induction l as [|e l IHl]; intros m HA; constructor.
  - destruct HA as [HA _]. destruct e; cbn in *; [done..| |done]. lia.
  - destruct HA as [_ HA]. by eapply IHl.
Qed.

Lemma acksum_prefix k h h' : Forall ack_nonneg h' -> acksum k h <= acksum k (h ++ h').
Proof.
  intros H. rewrite acksum_app2. assert (0 <= acksum k h'); [|lia]. induction H as [|e h' He _ IH]; [done|].
  destruct e; cbn in *; try done. destruct (_ =? _); lia.
Qed.

Lemma history_take n tx : exists h', history tx = history (take n tx) ++ h'.
Proof. exists (history (drop n tx)). unfold history. by rewrite <- concat_app, <- map_app, take_drop. Qed.

(** Once the gate reaches every opened seq, no row is staged or unacknowledged. *)
Lemma fence_drained s info rs N P n : Inv s info rs N P ->
  zlen info <= Pos.get (frontier_cell (collect (Ack.new ack0 None) (take n (sent s)))) ->
  unacked s = [] /\ concat (staged (out s)) = [].
Proof.
  intros HI Hg. destruct HI as [Hh Hn Hm HL HA Hrows Hun Hstg Hop Hpos Htot]. destruct (cell_prefix (take n (sent s))) as [n' Hn'].
  rewrite take_take in Hn'. set (t := (n' `min` n)%nat) in *. pose proof (at_le _ _ _ _ _ _ HA) as (_ & HN & Hl).
  assert (Hz : forall k, 0 <= k < zlen info -> cnt k (unacked s) = 0 /\ cnt k (tags (concat (staged (out s)))) = 0).
  { intros k Hk. pose proof (legal_nonneg _ _ (legal_schedule_take _ t _ HL)) as Hnn.
    assert (H0 : Seen [] (Ack.new ack0 None)) by (split; try done; cbn; lia).
    destruct (seen_retired _ _ (seen_collect (take t (sent s)) [] _ Hnn H0) k ltac:(lia)) as (lsn & pub & r & _ & Hp & Hle).
    destruct (history_take t (sent s)) as [h' Eh]. cbn [app] in Hp, Hle. fold (history (take t (sent s))) in Hp, Hle.
    destruct (at_places _ _ _ _ _ _ HA k r) as [_ Hr]; [rewrite Eh; set_solver|]. specialize (Hrows k ltac:(lia)). rewrite Hr in Hrows. cbn in Hrows.
    pose proof (legal_nonneg _ _ HL) as Hall. rewrite Eh in Hall. apply Forall_app in Hall as [_ Hall].
    pose proof (acksum_prefix k (history (take t (sent s))) h' Hall) as Hge. rewrite <- Eh in Hge.
    pose proof (cnt_nonneg k (unacked s)). pose proof (cnt_nonneg k (tags (concat (staged (out s))))). lia. }
  split.
  - destruct (unacked s) as [|k l]; [done|]. apply Forall_cons_1 in Hun as [Hk _]. destruct (Hz k) as [H0 _]; [unfold zlen; lia|].
    pose proof (cnt_pos k (k :: l) ltac:(set_solver)). lia.
  - destruct (concat (staged (out s))) as [|row l]; [done|]. apply Forall_cons_1 in Hstg as [Hk _]. destruct (Hz (seq row) Hk) as [_ H0].
    pose proof (cnt_pos (seq row) (tags (row :: l)) ltac:(cbn; set_solver)). lia.
Qed.

(** ** Preservation *)
Definition pubs_left (p : list (Act (E := E))) : list Z := concat (map act_pubs p).

(** Positions published or still to be. *)
Definition covers (p : list Act) (info : list (Z * bool)) (L : Z) : Prop := L ∈ pubs_left p \/ (L, true) ∈ info.

(** Rows and effects out, staged, and left: what the plans say. *)
Definition erase (x : RoutedRow + Effect (E := E)) : RoutedRow + Effect (E := E) := match x with inl r => inl (unseq r) | inr e => inr e end.

Definition accounted (s : Sys (E := E)) : list (RoutedRow + Effect (E := E)) :=
  map erase (log s) ++ map inl (map unseq (concat (staged (out s)))) ++ concat (map act_out (prog s)).

Definition kept (s s' : Sys (E := E)) (info : list (Z * bool)) : Prop :=
  exists info' rs' N' P', Inv s' info' rs' N' P' /\ accounted s' = accounted s /\
    forall L, covers (prog s) info L -> covers (prog s') info' L.

(** Steps that leave the outbox and the channels alone. *)
Lemma inv_same p p' o tx n n' un lg lg' info rs N P md : Inv (MkSys p md o tx n un lg) info rs N P ->
  opens_left p' <= opens_left p -> rows_left p' <= rows_left p -> Inv (MkSys p' md o tx n' un lg') info rs N P.
Proof. intros [] Ho Hr. split; cbn [prog mid out sent seen unacked log] in *; try done; lia. Qed.

Lemma keep_dispatch chunk_rows h hs nb ts lsn pub p o tx n un lg o' tx' ships info rs N P :
  Inv (MkSys (ADispatch (h :: hs) nb ts lsn pub :: p) false o tx n un lg) info rs N P ->
  dispatch_planned wkt snowflake o tx chunk_rows (h :: hs) nb ts lsn pub = (o', tx', ships) ->
  kept (MkSys (ADispatch (h :: hs) nb ts lsn pub :: p) false o tx n un lg) (MkSys (if ships then AShip :: p else p) false o' tx' n un lg) info.
Proof.
  intros HI. unfold dispatch_planned. pose proof (i_held _ _ _ _ _ HI) as Hh. cbn [out] in Hh.
  destruct (open (seqs o) tx lsn pub) as [[a tx1] sq] eqn:Eo. pose proof (place_rows_spec wkt snowflake (staged o) chunk_rows sq ts lsn (h :: hs)) as Hp.
  destruct (place_rows _ _ _ _ _ _ _ _) as [chunks r]. destruct Hp as (Hst & -> & _). destruct (place a tx1 sq _) as [a' tx2] eqn:Ep. intros [= <- <- <-].
  assert (tx1 = tx /\ sq = next (seqs o) /\ tx2 = tx) as (-> & -> & ->).
  { unfold open in Eo. rewrite Hh in Eo. injection Eo as <- <- <-. unfold place in Ep. cbn [held] in Ep. by injection Ep as _ <-. }
  set (rows := slice_rows wkt snowflake (next (seqs o)) ts lsn (h :: hs)) in *.
  assert (Hrows : zlen rows = zlen (act_rows (ADispatch (h :: hs) nb ts lsn pub))) by apply zlen_slice_rows.
  assert (Hpr : forall b : bool, opens_left (if b then AShip :: p else p) = opens_left p /\ rows_left (if b then AShip :: p else p) = rows_left p /\
    pubs_left (if b then AShip :: p else p) = pubs_left p /\ concat (map act_out (if b then AShip :: p else p)) = concat (map act_out p)).
  { intros []; [|done]. rewrite opens_left_cons, rows_left_cons. by repeat split. }
  destruct (Hpr ((chunk_rows <=? staged_rows o + zlen rows) || (DECODE_CHUNK_BYTES <=? staged_bytes o + nb))) as (Ho & Hr & Hpub & Hout).
  exists (info ++ [(lsn, match pub with Commit => true | Partial => false end)]), (rs ++ [zlen rows]), N, P. split; [|split].
  - eapply (inv_open _ _ o _ tx n un lg lg info rs N P lsn pub rows); [exact HI| |exact Hst| |apply zlen_nonneg| |].
    + cbn [seqs]. rewrite Eo. by rewrite Ep.
    + apply slice_rows_tags.
    + cbn [staged_rows staged_bytes]. rewrite Ho, opens_left_cons. cbn. lia.
    + cbn [staged_rows staged_bytes]. rewrite Hr, rows_left_cons. lia.
  - unfold accounted. cbn [log out staged prog staged_rows staged_bytes]. rewrite Hout, Hst, !map_app. cbn [map concat act_out act_rows].
    unfold rows. by rewrite slice_rows_unseq, <- !app_assoc.
  - intros L [HL|HL]; [|right; cbn; set_solver]. cbn [prog staged_rows staged_bytes]. unfold covers. rewrite Hpub. unfold pubs_left in *. cbn [prog map concat] in HL.
    apply elem_of_app in HL as [HL|HL]; [|by left]. right. destruct pub; cbn in HL; set_solver.
Qed.

Lemma keep_mark lsn p o tx n un lg o' tx' info rs N P : Inv (MkSys (AMark lsn :: p) false o tx n un lg) info rs N P ->
  mark_commit o tx lsn = (o', tx') -> kept (MkSys (AMark lsn :: p) false o tx n un lg) (MkSys p false o' tx' n un lg) info.
Proof.
  intros HI. unfold mark_commit, mark. pose proof (i_held _ _ _ _ _ HI) as Hh. cbn [out] in Hh.
  destruct (open (seqs o) tx lsn Commit) as [[a tx1] sq] eqn:Eo. destruct (place a tx1 sq 0) as [a' tx2] eqn:Ep. intros [= <- <-].
  assert (tx1 = tx /\ tx2 = tx) as (-> & ->).
  { unfold open in Eo. rewrite Hh in Eo. injection Eo as <- <- <-. unfold place in Ep. cbn [held] in Ep. by injection Ep as _ <-. }
  exists (info ++ [(lsn, true)]), (rs ++ [0]), N, P. split; [|split].
  - apply (inv_open _ _ o _ tx n un lg lg info rs N P lsn Commit [] 0 HI); cbn [seqs staged].
    + by rewrite Eo, Ep.
    + by rewrite app_nil_r.
    + done.
    + done.
    + rewrite opens_left_cons. cbn. lia.
    + rewrite rows_left_cons. change (zlen (act_rows (AMark lsn))) with 0. lia.
  - done.
  - intros L [HL|HL]; unfold covers, pubs_left in *; cbn [prog map concat act_pubs] in *; set_solver.
Qed.

Lemma keep_ship_rows p o tx n un lg o' tx' chunks info rs N P : Inv (MkSys (AShip :: p) false o tx n un lg) info rs N P ->
  ship_rows o tx = (o', tx', chunks) ->
  kept (MkSys (AShip :: p) false o tx n un lg) (MkSys (AShip :: p) true o' tx' n (un ++ tags (concat chunks)) (lg ++ map inl (concat chunks))) info.
Proof.
  intros HI. destruct HI as [Hh Hn Hm HL HA Hrows Hun Hstg Hop Hpos Htot]. cbn [prog mid out sent seen unacked log] in *. unfold ship_rows.
  pose proof (opens_nonneg (AShip :: p)) as Hnn. destruct (send_registered (seqs o) tx) as [a tx1] eqn:Es.
  destruct (registered_sent _ _ _ _ _ HL HA ltac:(lia) _ _ _ Hh Es) as (Hnx & Hhd & HL' & HA' & Hack).
  intros Hship. assert (chunks = staged o /\ tx' = tx1 /\ seqs o' = a /\ staged o' = []) as (-> & -> & Eseq & Est).
  { destruct (staged o); injection Hship as <- <- <-; done. }
  exists info, rs, (length info), P. split; [|split].
  - split; cbn [prog mid out sent seen unacked log]; rewrite ?Eseq, ?Est; try done.
    + by rewrite Hhd, (drop_ge info).
    + congruence.
    + intros k Hk. rewrite Hack, cnt_app. specialize (Hrows k Hk). change (cnt k (tags (concat []))) with 0. lia.
    + apply Forall_app_2.
      * eapply Forall_impl; [|exact Hun]. pose proof (at_le _ _ _ _ _ _ HA). cbn. lia.
      * exact Hstg.
  - unfold accounted. cbn [log out prog]. rewrite Est. cbn [concat map app]. rewrite map_app, <- app_assoc. f_equal.
    rewrite !map_map. by f_equal.
  - done.
Qed.

Lemma keep_ship_placed p o tx n un lg o' tx' info rs N P : Inv (MkSys (AShip :: p) true o tx n un lg) info rs N P ->
  ship_placed o tx = (o', tx') -> kept (MkSys (AShip :: p) true o tx n un lg) (MkSys p false o' tx' n un lg) info.
Proof.
  intros HI. destruct HI as [Hh Hn Hm HL HA Hrows Hun Hstg Hop Hpos Htot]. cbn [prog mid out sent seen unacked log] in *. unfold ship_placed.
  pose proof (Hm eq_refl) as ->. destruct (send_placed (seqs o) tx) as [a tx1] eqn:Es.
  destruct (placed_sent tx info rs P HL HA) with (a := seqs o) (a' := a) (tx' := tx1) (regs := reg_events (length info) (drop (length info) info))
    as (Hnx & Hhd & HL' & HA' & Hack); [|done|done|].
  { intros k r Hk. specialize (Hrows (Z.of_nat k) ltac:(lia)). rewrite Nat2Z.id, Hk in Hrows. cbn in Hrows.
    pose proof (cnt_nonneg (Z.of_nat k) un). pose proof (cnt_nonneg (Z.of_nat k) (tags (concat (staged o)))). lia. }
  intros [= <- <-]. exists info, rs, (length info), (length rs). split; [|split; done].
  split; cbn [prog mid out sent seen unacked log seqs staged]; try done.
  - by rewrite Hhd, (drop_ge rs).
  - congruence.
  - intros k Hk. rewrite Hack. by apply Hrows.
Qed.

Lemma keep_fenced e p o tx n un lg info rs N P : Inv (MkSys (AFenced e :: p) false o tx n un lg) info rs N P ->
  next (seqs o) <= Pos.get (frontier_cell (collect (Ack.new ack0 None) (take n tx))) ->
  kept (MkSys (AFenced e :: p) false o tx n un lg) (MkSys p false o tx n un (lg ++ [inr e])) info.
Proof.
  intros HI Hg. pose proof (i_next _ _ _ _ _ HI) as Hn. cbn [out] in Hn. rewrite Hn in Hg.
  destruct (fence_drained _ _ _ _ _ n HI Hg) as [_ Hst]. cbn [out] in Hst. exists info, rs, N, P. split; [|split; [|done]].
  - eapply inv_same; [exact HI| |]; [done|]. rewrite rows_left_cons. pose proof (zlen_nonneg (act_rows (AFenced e))). lia.
  - unfold accounted. cbn [log out prog map concat act_out]. rewrite Hst, map_app, <- app_assoc. done.
Qed.

Lemma keep_ack counts rest p md o tx n un lg info rs N P : Inv (MkSys p md o tx n un lg) info rs N P ->
  Forall (fun c => 0 < c.2) counts -> un ≡ₚ rows_of counts ++ rest ->
  kept (MkSys p md o tx n un lg) (MkSys p md o (tx ++ [Acked counts]) n rest lg) info.
Proof.
  intros HI Hc Hp. destruct HI as [Hh Hn Hm HL HA Hrows Hun Hstg Hop Hpos Htot]. cbn [prog mid out sent seen unacked log] in *.
  rewrite Hp in Hun. apply Forall_app in Hun as [Hin Hun].
  destruct (at_acks counts _ _ N P info rs HA Hc Hin) as (HLa & HA' & Hs).
  { apply Forall_lookup. intros i r Hi. pose proof (zsum_ge rs i r Hpos Hi). unfold rows_left in Htot. pose proof (zlen_nonneg (concat (map act_rows p))). lia. }
  { intros k Hk. specialize (Hrows k Hk). rewrite (cnt_perm k _ _ Hp), cnt_app in Hrows. pose proof (cnt_nonneg k rest).
    pose proof (cnt_nonneg k (tags (concat (staged o)))). lia. }
  destruct (send_event _ _ _ _ _ _ HL HLa HA') as [HL' HA'']. exists info, rs, N, P. split; [|split; done].
  split; cbn [prog mid out sent seen unacked log]; try done.
  intros k Hk. rewrite history_snoc, Hs. specialize (Hrows k Hk). rewrite (cnt_perm k _ _ Hp), cnt_app in Hrows. lia.
Qed.

Lemma keep_trailing lsn p md o tx n un lg info rs N P : Inv (MkSys p md o tx n un lg) info rs N P ->
  kept (MkSys p md o tx n un lg) (MkSys p md o (tx ++ [Trailing lsn]) n un lg) info.
Proof.
  intros HI. destruct HI as [Hh Hn Hm HL HA Hrows Hun Hstg Hop Hpos Htot]. cbn [prog mid out sent seen unacked log] in *.
  destruct (send_event tx (Trailing lsn) N P info rs HL) as [HL' HA']; [by split|by apply at_trail|].
  exists info, rs, N, P. split; [|split; done]. split; cbn [prog mid out sent seen unacked log]; try done.
  intros k Hk. rewrite history_snoc, acksum_app2. cbn [atoms acksum]. specialize (Hrows k Hk). lia.
Qed.

Lemma inv_step s s' info rs N P : Inv s info rs N P -> step wkt snowflake ack0 s s' -> kept s s' info.
Proof.
  intros HI Hstep. destruct Hstep.
  - exists info, rs, N, P. split; [by eapply inv_same|]. split; [done|]. by intros L.
  - exists info, rs, N, P. split; [by eapply inv_same|]. split; [done|]. by intros L.
  - by eapply keep_dispatch.
  - by eapply keep_ship_rows.
  - by eapply keep_ship_placed.
  - exists info, rs, N, P. split; [by eapply inv_same|]. split; [done|]. by intros L.
  - by eapply keep_fenced.
  - by eapply keep_mark.
  - exists info, rs, N, P. split; [by eapply inv_same|]. split; [done|]. by intros L.
  - by eapply keep_ack.
  - by eapply keep_trailing.
Qed.

End Sink.

End SinkProofs.
