(* ===== verification/SinkLive.v ===== *)
(** * What the running sink guarantees

    Plan order on the way out, effects only behind durable rows, no fault in
    the collector, and from every reachable state a way to drain. *)
From S2P Require Import Prelude Pos Ack WalRecord HeapDecode Spill Outbox OutboxProofs SinkProofs.
Import WalRecord Schema HeapDecode Spill.
Import Ack Model SeqAlloc Place Outbox OutboxProofs SinkProofs.

Module SinkLive.

Section Live.
Context (wkt : list Z -> option (list Z)) (snowflake : bool) {E : Type} (ack0 : Z).

Notation run := (rtc (step wkt snowflake (E := E) ack0)).
Notation Inv := (Inv wkt snowflake).
Notation act_out := (act_out wkt snowflake).
Notation rows_left := (rows_left wkt snowflake).
Notation accounted := (accounted wkt snowflake).

(** ** Plans *)
Definition item_out (ts lsn : Z) (i : PlanItem (E := E)) : list (RoutedRow + Effect (E := E)) :=
  match i with
  | PHeap h => map inl (heap_rows wkt snowflake 0 ts lsn h)
  | PControl c => [inr (Control c)]
  | PTruncate h => [inr (Truncate h)]
  end.

Definition unit_out (u : Unit_ (E := E)) : list (RoutedRow + Effect (E := E)) :=
  match u with UCommit ts lsn (Some items) => concat (map (item_out ts lsn) items) | _ => [] end.

Definition unit_lsn (u : Unit_ (E := E)) : list Z := match u with UCommit _ lsn _ | UAbort lsn => [lsn] | UEnd => [] end.

Lemma slice_rows_snoc sq ts lsn heaps h :
  slice_rows wkt snowflake sq ts lsn (heaps ++ [h]) = slice_rows wkt snowflake sq ts lsn heaps ++ heap_rows wkt snowflake sq ts lsn h.
Proof. unfold slice_rows. rewrite map_app, concat_app. cbn. by rewrite app_nil_r. Qed.

Lemma plan_loop_out br bb ts lsn (items : list (PlanItem (E := E))) : forall pend pb,
  concat (map act_out (plan_loop br bb ts lsn items pend pb).1) =
  map inl (slice_rows wkt snowflake 0 ts lsn pend) ++ concat (map (item_out ts lsn) items).
Proof.
  induction items as [|[c|h|h] items IH]; intros pend pb; cbn [plan_loop].
  - done.
  - specialize (IH [] 0). destruct (plan_loop br bb ts lsn items [] 0) as [acts published]. cbn in IH |- *. by rewrite IH.
  - destruct (_ || _).
    + specialize (IH [] 0). destruct (plan_loop br bb ts lsn items [] 0) as [acts published]. cbn [fst map concat SinkProofs.act_out act_rows item_out] in *.
      by rewrite IH, slice_rows_snoc, map_app, <- app_assoc.
    + rewrite IH, slice_rows_snoc, map_app, <- app_assoc. done.
  - specialize (IH [] 0). destruct (plan_loop br bb ts lsn items [] 0) as [acts published]. cbn in IH |- *. by rewrite IH.
Qed.

Lemma plan_loop_pubs br bb ts lsn (items : list (PlanItem (E := E))) : forall pend pb,
  let '(acts, published) := plan_loop br bb ts lsn items pend pb in pubs_left acts = if published then [lsn] else [].
Proof.
  induction items as [|[c|h|h] items IH]; intros pend pb; cbn [plan_loop].
  - by destruct pend.
  - specialize (IH [] 0). destruct (plan_loop br bb ts lsn items [] 0) as [acts published]. unfold pubs_left in *. by destruct pend.
  - destruct (_ || _); [|apply IH]. specialize (IH [] 0). destruct (plan_loop br bb ts lsn items [] 0) as [acts published].
    unfold pubs_left in *. cbn [map concat act_pubs]. by destruct (pend ++ [h]).
  - specialize (IH [] 0). destruct (plan_loop br bb ts lsn items [] 0) as [acts published]. unfold pubs_left in *. by destruct pend.
Qed.

Lemma unit_acts_out br bb (u : Unit_ (E := E)) : concat (map act_out (unit_acts br bb u)) = unit_out u.
Proof.
  destruct u as [ts lsn [items|]| |]; try done. cbn [unit_acts on_commit execute_plan unit_out]. unfold on_commit, execute_plan.
  pose proof (plan_loop_out br bb ts lsn items [] 0) as H. destruct (plan_loop _ _ _ _ _ _ _) as [acts published]. cbn [fst] in H.
  rewrite map_app, concat_app, H. destruct published; cbn; by rewrite app_nil_r.
Qed.

Lemma unit_acts_pubs br bb (u : Unit_ (E := E)) : pubs_left (unit_acts br bb u) = unit_lsn u.
Proof.
  destruct u as [ts lsn [items|]| |]; try done. cbn [unit_acts unit_lsn]. unfold on_commit, execute_plan.
  pose proof (plan_loop_pubs br bb ts lsn items [] 0) as H. destruct (plan_loop _ _ _ _ _ _ _) as [acts published].
  unfold pubs_left in *. rewrite map_app, concat_app, H. by destruct published.
Qed.

Definition sink_acts (br bb : Z) (us : list (Unit_ (E := E))) : list (Act (E := E)) := concat (map (unit_acts br bb) us).

Lemma sink_acts_out br bb us : concat (map act_out (sink_acts br bb us)) = concat (map unit_out us).
Proof. unfold sink_acts. induction us as [|u us IH]; [done|]. cbn [map concat]. by rewrite map_app, concat_app, unit_acts_out, IH. Qed.

Lemma sink_acts_pubs br bb us : pubs_left (sink_acts br bb us) = concat (map unit_lsn us).
Proof.
  unfold sink_acts. induction us as [|u us IH]; [done|]. cbn [map concat]. unfold pubs_left in *. rewrite map_app, concat_app, IH.
  f_equal. apply unit_acts_pubs.
Qed.

(** ** Reachable states *)
Definition small (acts : list (Act (E := E))) : Prop := opens_left acts <= U64_MAX /\ rows_left acts <= U64_MAX.

Lemma inv_start acts : small acts -> Inv (start acts) [] [] 0 0.
Proof.
  intros [Ho Hr]. split; cbn [prog mid out sent seen unacked log start boot]; try done; try constructor; try done; try (cbn; lia).
  intros k r H. inversion H.
Qed.

Record Reached (acts : list (Act (E := E))) (s : Sys (E := E)) (info : list (Z * bool)) (rs : list Z) (N P : nat) : Prop := mkReached
  { r_inv : Inv s info rs N P;
    r_acc : accounted s = concat (map act_out acts);
    r_pubs : forall L, L ∈ pubs_left acts -> covers (prog s) info L;
    r_mid : mid s = true -> exists p, prog s = AShip :: p;
    r_seen : (seen s <= length (sent s))%nat }.

Lemma mid_step s s' : step wkt snowflake ack0 s s' -> (mid s = true -> exists p, prog s = AShip :: p) ->
  mid s' = true -> exists p, prog s' = AShip (E := E) :: p.
Proof. intros Hs H. destruct Hs; cbn in *; try done; eauto. Qed.

Lemma reg_grows a tx a' tx' : send_registered a tx = (a', tx') -> (length tx <= length tx')%nat.
Proof. unfold send_registered. intros. repeat case_match; simplify_eq; rewrite ?length_app; lia. Qed.

Lemma placed_grows a tx a' tx' : send_placed a tx = (a', tx') -> (length tx <= length tx')%nat.
Proof. unfold send_placed. intros. repeat case_match; simplify_eq; rewrite ?length_app; lia. Qed.

Lemma open_grows a tx lsn pub a' tx' q : open a tx lsn pub = (a', tx', q) -> (length tx <= length tx')%nat.
Proof. unfold open. intros. repeat case_match; simplify_eq; rewrite ?length_app; lia. Qed.

Lemma place_grows a tx q r a' tx' : place a tx q r = (a', tx') -> (length tx <= length tx')%nat.
Proof. unfold place. intros. repeat case_match; simplify_eq; rewrite ?length_app; lia. Qed.

Lemma seen_bound_step s s' : step wkt snowflake (E := E) ack0 s s' -> (seen s <= length (sent s))%nat -> (seen s' <= length (sent s'))%nat.
Proof.
  intros Hs H. destruct Hs as [| |? ? ? ? ? ? ? ? ? ? ? ? ? ? ? ? Hd|? ? ? ? ? ? ? ? ? Hd|? ? ? ? ? ? ? ? Hd| | |? ? ? ? ? ? ? ? ? Hd| | |];
    cbn [seen sent] in *; rewrite ?length_app; try lia.
  - unfold dispatch_planned in Hd. destruct (open _ _ _ _) as [[a tx1] sq] eqn:Eo. destruct (place_rows _ _ _ _ _ _ _ _) as [ch r].
    destruct (place a tx1 sq r) as [a' tx2] eqn:Ep. simplify_eq. apply open_grows in Eo. apply place_grows in Ep. lia.
  - unfold ship_rows in Hd. destruct (send_registered _ _) as [a tx1] eqn:Er. apply reg_grows in Er. destruct (staged _); simplify_eq; lia.
  - unfold ship_placed in Hd. destruct (send_placed _ _) as [a tx1] eqn:Er. apply placed_grows in Er. simplify_eq. lia.
  - unfold mark_commit, mark in Hd. destruct (open _ _ _ _) as [[a tx1] sq] eqn:Eo. destruct (place a tx1 sq 0) as [a' tx2] eqn:Ep.
    simplify_eq. apply open_grows in Eo. apply place_grows in Ep. lia.
Qed.

Lemma reached_step acts s s' info rs N P : Reached acts s info rs N P -> step wkt snowflake ack0 s s' ->
  exists info' rs' N' P', Reached acts s' info' rs' N' P'.
Proof.
  intros [HI Ha Hp Hm Hs] Hstep. destruct (inv_step wkt snowflake ack0 _ _ _ _ _ _ HI Hstep) as (info' & rs' & N' & P' & HI' & Ha' & Hc).
  exists info', rs', N', P'. split; [done|congruence|intros L HL; by apply Hc, Hp|by eapply mid_step|by eapply seen_bound_step].
Qed.

Lemma reached_run acts s s' info rs N P : run s s' -> Reached acts s info rs N P -> exists info' rs' N' P', Reached acts s' info' rs' N' P'.
Proof.
  intros Hr. revert info rs N P. induction Hr as [s|s1 s2 s3 Hs _ IH]; intros info rs N P HR; [eauto|].
  destruct (reached_step _ _ _ _ _ _ _ HR Hs) as (i & r & n & p & HR'). eauto.
Qed.

Lemma reached acts s : small acts -> run (start acts) s -> exists info rs N P, Reached acts s info rs N P.
Proof.
  intros Hsm Hr. eapply reached_run; [exact Hr|]. split; [by apply inv_start|done| |done|done]. intros L HL. by left.
Qed.

(** ** Draining *)
Definition drained (s : Sys (E := E)) : Prop :=
  mid s = false /\ staged (out s) = [] /\ held (seqs (out s)) = Some (MkHeld [] []) /\ unacked s = [] /\ seen s = length (sent s).

Lemma ship_empties o tx h : held (seqs o) = Some h ->
  exists o1 tx1 chunks o2 tx2, ship_rows o tx = (o1, tx1, chunks) /\ ship_placed o1 tx1 = (o2, tx2) /\
    staged o2 = [] /\ held (seqs o2) = Some (MkHeld [] []).
Proof.
  intros Hh. unfold ship_rows. destruct (send_registered (seqs o) tx) as [a tx1] eqn:Er.
  assert (Ha : exists placed, held a = Some (MkHeld [] placed)).
  { unfold send_registered in Er. rewrite Hh in Er. destruct h as [[|ev evs] placed]; injection Er as <- <-; eauto. }
  destruct Ha as [placed Ha]. destruct (send_placed a tx1) as [a2 tx2] eqn:Ep.
  assert (H2 : held a2 = Some (MkHeld [] [])) by (unfold send_placed in Ep; rewrite Ha in Ep; destruct placed; injection Ep as <- <-; done).
  unfold ship_placed. destruct (staged o); (do 5 eexists); (split; [reflexivity|]); cbn [seqs staged staged_rows staged_bytes]; rewrite Ep;
    (split; [reflexivity|]); by split.
Qed.

Lemma collect_all p md o tx un lg d : forall n, d = (length tx - n)%nat -> (n <= length tx)%nat ->
  run (MkSys p md o tx n un lg) (MkSys p md o tx (length tx) un lg).
Proof.
  induction d as [|d IH]; intros n Hd Hn; [by replace n with (length tx) by lia|].
  eapply rtc_l; [apply s_collect; lia|]. apply IH; lia.
Qed.

Lemma rows_of_ones l : rows_of (map (fun k => (k, 1)) l) = l.
Proof. unfold rows_of. induction l as [|x l IH]; [done|]. cbn. f_equal. exact IH. Qed.

Lemma ack_all p md o tx n un lg : exists tx', run (MkSys p md o tx n un lg) (MkSys p md o tx' n [] lg) /\ (length tx <= length tx')%nat.
Proof.
  destruct un as [|k un]; [by exists tx|]. exists (tx ++ [Acked (map (fun k => (k, 1)) (k :: un))]). rewrite length_app. split; [|lia].
  apply rtc_once, s_ack; [done| |by rewrite rows_of_ones, app_nil_r].
  generalize (k :: un). induction l as [|x l IH]; constructor; [done|exact IH].
Qed.

(** From any state between two calls, with the rest of the program kept. *)
Lemma can_drain acts s info rs N P : Reached acts s info rs N P -> mid s = false -> exists s', run s s' /\ prog s' = prog s /\ drained s'.
Proof.
  intros [HI _ _ _ Hs] Hm. destruct s as [p md o tx n un lg]. cbn [mid prog seen sent] in *. subst md.
  destruct (ship_empties o tx _ (i_held _ _ _ _ _ _ _ HI)) as (o1 & tx1 & chunks & o2 & tx2 & E1 & E2 & E3 & E4).
  destruct (ack_all p false o2 tx2 n (un ++ tags (concat chunks)) (lg ++ map inl (concat chunks))) as (tx3 & Ha & Hl).
  exists (MkSys p false o2 tx3 (length tx3) [] (lg ++ map inl (concat chunks))). split; [|done].
  eapply rtc_l; [apply s_admit_ship|]. eapply rtc_l; [by apply s_ship_rows|]. eapply rtc_l; [by apply s_ship_placed|].
  etransitivity; [exact Ha|]. eapply collect_all; [reflexivity|].
  unfold ship_rows, ship_placed in E1, E2. destruct (send_registered _ _) as [a t1] eqn:Er. apply reg_grows in Er.
  destruct (send_placed _ _) as [a' t2] eqn:Ep. apply placed_grows in Ep. destruct (staged o); simplify_eq; lia.
Qed.

(** In a drained state every seq is done. *)
Lemma drained_done s info rs N P : Inv s info rs N P -> drained s ->
  N = length info /\ P = length rs /\ forallb m_done (m_seqs (model_run (sent s))) = true.
Proof.
  intros HI (_ & Hst & Hh & Hun & _). pose proof (i_held _ _ _ _ _ _ _ HI) as Hh'. rewrite Hh in Hh'. injection Hh' as Hreg Hpl.
  pose proof (i_at _ _ _ _ _ _ _ HI) as HA. destruct (at_le _ _ _ _ _ _ HA) as (HP & HN & Hl).
  assert (N = length info) as ->.
  { destruct (drop N info) as [|[]] eqn:Ed; [|done]. apply (f_equal length) in Ed. rewrite length_drop in Ed. cbn in Ed. lia. }
  assert (P = length rs) as ->.
  { destruct (drop P rs) eqn:Ed; [|done]. apply (f_equal length) in Ed. rewrite length_drop in Ed. cbn in Ed. lia. }
  split; [done|]. split; [done|]. rewrite (at_seqs _ _ _ _ _ _ HA). apply forallb_forall. intros q Hq%list_elem_of_In.
  apply list_elem_of_lookup in Hq as [i Hi]. rewrite seqs_of_lookup in Hi. case_decide as Hlt; [|done].
  destruct (info !! i) as [x|]; [|done]. injection Hi as <-. destruct (lookup_lt_is_Some_2 rs i ltac:(lia)) as [r Hr].
  unfold m_done, entry. cbn [m_rows m_acked]. rewrite (proj2 (Nat.ltb_lt i (length rs))), Hr by lia. apply Z.eqb_eq.
  pose proof (i_rows _ _ _ _ _ _ _ HI (Z.of_nat i) ltac:(lia)) as Hrow. rewrite Hun, Hst, Nat2Z.id, Hr in Hrow.
  change (cnt (Z.of_nat i) []) with 0 in Hrow. change (cnt (Z.of_nat i) (tags (concat []))) with 0 in Hrow.
  cbn [default from_option Datatypes.id] in Hrow. lia.
Qed.

Lemma cell_ge tx : frontier (collect (Ack.new ack0 None) tx) <= Pos.get (frontier_cell (collect (Ack.new ack0 None) tx)).
Proof.
  induction tx as [|ev tx _] using rev_ind; [done|]. unfold collect. rewrite fold_left_app. cbn [fold_left]. rewrite apply_cell. lia.
Qed.

Lemma high_ge tx : expected (model_run tx) <= m_high (model_run tx).
Proof.
  induction tx as [|ev tx _] using rev_ind; [done|]. unfold model_run. rewrite fold_left_app. cbn [fold_left]. exact (Z.le_max_r _ _).
Qed.

Lemma wm_ge l L : forall w, (exists q, q ∈ l /\ m_publish q = true /\ m_lsn q = L) \/ L <= w -> L <= fold_left bump_wm l w.
Proof.
  induction l as [|q l IH]; intros w H; cbn [fold_left].
  - destruct H as [(q & Hq & _)|H]; [inversion Hq|done].
  - apply IH. destruct H as [(q' & Hq & Hp & HL)|H]; [|right; unfold bump_wm; destruct (m_publish q); lia].
    apply elem_of_cons in Hq as [->|Hq]; [|left; eauto]. right. unfold bump_wm. rewrite Hp. lia.
Qed.

Lemma expected_ge m L : forallb m_done (m_seqs m) = true -> (exists q, q ∈ m_seqs m /\ m_publish q = true /\ m_lsn q = L) -> L <= expected m.
Proof.
  intros Hd Hq. unfold expected. rewrite (scan_done_prefix _ _ _ (length (m_seqs m))); [|done| |].
  - rewrite Nat.add_0_l, Nat.eqb_refl, take_ge by done. pose proof (wm_ge (m_seqs m) L 0 (or_introl Hq)). lia.
  - intros i q _ Hi. rewrite forallb_forall in Hd. apply Hd, list_elem_of_In. by eapply list_elem_of_lookup_2.
  - intros q Hi. apply lookup_lt_Some in Hi. lia.
Qed.

(** A drained collector: idle, its gate open, every registered commit published. *)
Lemma drained_collector s info rs N P : 0 <= ack0 -> Inv s info rs N P -> drained s ->
  all_done (collector ack0 s) = true /\ zlen info <= Pos.get (frontier_cell (collector ack0 s)) /\
  (forall L, (L, true) ∈ info -> L <= Pos.get (emitter_ack (collector ack0 s))).
Proof.
  intros H0 HI HD. destruct (drained_done _ _ _ _ _ HI HD) as (-> & -> & Hd). destruct HD as (_ & _ & _ & _ & Hs).
  pose proof (agree_collect ack0 None (sent s) _ _ (agree_new ack0 None H0) (i_legal _ _ _ _ _ _ _ HI)) as HA.
  fold (model_run (sent s)) in HA. unfold collector. rewrite Hs, take_ge by done. pose proof (agree_all_done _ _ _ _ HA) as Hall. rewrite Hd in Hall.
  split; [done|]. split.
  - pose proof (cell_ge (sent s)). unfold all_done in Hall. apply Z.eqb_eq in Hall. destruct (ag_sim _ _ _ _ HA) as (f & HS & _).
    rewrite (sim_reg _ _ _ HS), (at_seqs _ _ _ _ _ _ (i_at _ _ _ _ _ _ _ HI)) in Hall. unfold zlen in *. rewrite length_seqs_of in Hall by done. lia.
  - intros L HL. rewrite (ag_ack _ _ _ _ HA). pose proof (high_ge (sent s)).
    assert (L <= expected (model_run (sent s))); [|lia]. apply expected_ge; [done|]. apply list_elem_of_lookup in HL as [i Hi].
    exists (entry (history (sent s)) (length rs) rs i (L, true)). split; [|by split].
    rewrite (at_seqs _ _ _ _ _ _ (i_at _ _ _ _ _ _ _ HI)). apply list_elem_of_lookup_2 with (i := i). rewrite seqs_of_lookup.
    rewrite decide_True by (by eapply lookup_lt_Some). by rewrite Hi.
Qed.

(** Every call of the program can be got through. *)
Lemma can_finish acts : 0 <= ack0 -> forall p s info rs N P, Reached acts s info rs N P -> mid s = false -> prog s = p ->
  exists s', run s s' /\ prog s' = [] /\ mid s' = false.
Proof.
  intros H0. induction p as [|a p IH]; intros s info rs N P HR Hm Hp; [by exists s|].
  assert (Hgo : forall s', run s s' -> mid s' = false -> prog s' = p -> exists s', run s s' /\ prog s' = [] /\ mid s' = false).
  { intros s1 Hr Hm1 Hp1. destruct (reached_run _ _ _ _ _ _ _ Hr HR) as (i & r & n & q & HR1).
    destruct (IH s1 _ _ _ _ HR1 Hm1 Hp1) as (s2 & Hr2 & H2). exists s2. split; [by etransitivity|done]. }
  assert (Hship : forall o tx n un lg info rs N P, Reached acts (MkSys (AShip :: p) false o tx n un lg) info rs N P ->
    exists s', run (MkSys (AShip :: p) false o tx n un lg) s' /\ mid s' = false /\ prog s' = p).
  { intros o tx n un lg ? ? ? ? HR1. destruct (ship_empties o tx _ (i_held _ _ _ _ _ _ _ (r_inv _ _ _ _ _ _ HR1))) as (o1 & tx1 & ch & o2 & tx2 & E1 & E2 & _).
    eexists. split; [|shelve]. eapply rtc_l; [by apply s_ship_rows|]. apply rtc_once. by apply s_ship_placed. Unshelve. done. }
  destruct s as [p0 md o tx n un lg]. cbn [mid prog] in Hm, Hp. subst md p0. destruct a as [[|h hs] nb ts lsn pub| | |e|lsn].
  - eapply Hgo; [apply rtc_once, s_dispatch_empty|done|done].
  - destruct (dispatch_planned wkt snowflake o tx 0 (h :: hs) nb ts lsn pub) as [[o' tx'] ships] eqn:Ed.
    pose proof (s_dispatch wkt snowflake ack0 0 h hs nb ts lsn pub p o tx n un lg o' tx' ships Ed) as Hst. destruct ships.
    + destruct (reached_step _ _ _ _ _ _ _ HR Hst) as (i & r & N1 & P1 & HR1). destruct (Hship _ _ _ _ _ _ _ _ _ HR1) as (s1 & Hr1 & Hm1 & Hp1).
      eapply Hgo; [|exact Hm1|exact Hp1]. by eapply rtc_l.
    + eapply Hgo; [by apply rtc_once|done|done].
  - destruct (Hship _ _ _ _ _ _ _ _ _ HR) as (s1 & Hr1 & Hm1 & Hp1). by eapply Hgo.
  - eapply Hgo; [apply rtc_once, s_flush_all|done|done].
  - destruct (can_drain _ _ _ _ _ _ HR eq_refl) as (s1 & Hr1 & Hp1 & HD). destruct (reached_run _ _ _ _ _ _ _ Hr1 HR) as (i & r & N1 & P1 & HR1).
    destruct (drained_collector _ _ _ _ _ H0 (r_inv _ _ _ _ _ _ HR1) HD) as (_ & Hgate & _).
    pose proof (i_next _ _ _ _ _ _ _ (r_inv _ _ _ _ _ _ HR1)) as Hnx. destruct s1 as [p1 md1 o1 tx1 n1 un1 lg1]. cbn [prog] in Hp1. subst p1.
    destruct HD as (Hm1 & _). cbn [mid] in Hm1. subst md1. apply (Hgo (MkSys p false o1 tx1 n1 un1 (lg1 ++ [inr e]))); [|done|done]. etransitivity; [exact Hr1|].
    apply rtc_once, s_fenced. cbn [out] in Hnx. rewrite Hnx. exact Hgate.
  - destruct (mark_commit o tx lsn) as [o' tx'] eqn:Em. eapply Hgo; [by apply rtc_once, s_mark|done|done].
Qed.

Lemma can_complete acts s : 0 <= ack0 -> small acts -> run (start acts) s ->
  exists s' info rs N P, run s s' /\ prog s' = [] /\ drained s' /\ Reached acts s' info rs N P.
Proof.
  intros H0 Hsm Hr. destruct (reached _ _ Hsm Hr) as (i & r & N & P & HR).
  assert (Hm : exists s1, run s s1 /\ mid s1 = false).
  { destruct (mid s) eqn:Em; [|by exists s]. destruct (r_mid _ _ _ _ _ _ HR Em) as [p Hp]. destruct s as [p0 md o tx n un lg]. cbn [mid prog] in *. subst.
    destruct (ship_placed o tx) as [o' tx'] eqn:Es. eexists. split; [by apply rtc_once, s_ship_placed|done]. }
  destruct Hm as (s1 & Hr1 & Hm1). destruct (reached_run _ _ _ _ _ _ _ Hr1 HR) as (i1 & r1 & N1 & P1 & HR1).
  destruct (can_finish acts H0 _ _ _ _ _ _ HR1 Hm1 eq_refl) as (s2 & Hr2 & Hp2 & Hm2).
  destruct (reached_run _ _ _ _ _ _ _ Hr2 HR1) as (i2 & r2 & N2 & P2 & HR2).
  destruct (can_drain _ _ _ _ _ _ HR2 Hm2) as (s3 & Hr3 & Hp3 & HD). destruct (reached_run _ _ _ _ _ _ _ Hr3 HR2) as (i3 & r3 & N3 & P3 & HR3).
  exists s3, i3, r3, N3, P3. split; [by do 2 (etransitivity; [eassumption|])|]. split; [congruence|]. by split.
Qed.

(** ** The guarantees *)
Definition small_units (br bb : Z) (us : list (Unit_ (E := E))) : Prop := small (sink_acts br bb us).

(** C5: however the sink, the collector and the inserters interleave, what has
    gone out is a prefix of the plans' rows and effects in plan order and is
    all of them once the sink has shipped its last call; an effect applies
    only once every row opened before it is acknowledged and none is staged;
    and the collector never sees a protocol fault. *)
Theorem sink_keeps_plan_order br bb us s : 0 <= ack0 -> small_units br bb us -> run (start (sink_acts br bb us)) s ->
  (exists rest, concat (map unit_out us) = map erase (log s) ++ rest) /\
  (prog s = [] -> concat (staged (out s)) = [] -> map erase (log s) = concat (map unit_out us)) /\
  (forall e p, prog s = AFenced e :: p -> next (seqs (out s)) <= Pos.get (frontier_cell (collector ack0 s)) ->
    unacked s = [] /\ concat (staged (out s)) = []) /\
  wedged (collector ack0 s) = 0 /\ fatal (collector ack0 s) = None.
Proof.
  intros H0 Hsm Hr. destruct (reached _ _ Hsm Hr) as (i & r & N & P & [HI Hacc _ _ _]).
  rewrite sink_acts_out in Hacc. unfold SinkProofs.accounted in Hacc.
  split; [by eexists|]. split; [intros Hp Hs; rewrite Hp, Hs in Hacc; cbn in Hacc; by rewrite app_nil_r in Hacc|]. split.
  - intros e p Hp Hg. rewrite (i_next _ _ _ _ _ _ _ HI) in Hg. by eapply fence_drained.
  - pose proof (agree_collect ack0 None (take (seen s) (sent s)) _ _ (agree_new ack0 None H0) (legal_schedule_take _ _ _ (i_legal _ _ _ _ _ _ _ HI))) as HA.
    destruct (ag_sim _ _ _ _ HA) as (f & HS & _). split; [exact (sim_wedged _ _ _ HS)|exact (ag_fatal _ _ _ _ HA)].
Qed.


End Live.

(** A commit that inserts a row and then alters the table, and an abort. *)
Definition toy_desc : RelDescriptor := MkDesc (MkRfn 1663 5 16400) 16400 0 2200 ([], []) 114 112 (Full None) [] [].

Definition toy_heap : RoutedHeap :=
  MkRouted (MkDescribed (MkHeap (MkRfn 1663 5 16400) 700 90 Insert (Some (MkTuple [Some (Int4 7)] false)) None) toy_desc 1)
    (Some (MkRoute [116] (Some [100]))) 8.

Definition toy_units : list (Unit_ (E := unit)) := [UCommit 5 100 (Some [PHeap toy_heap; PControl tt]); UAbort 200].

Definition toy_row (sq : Z) : RoutedRow :=
  MkRow sq toy_desc (MkRoute [116] (Some [100])) (MkCommitted (Spill.decoded (described toy_heap)) 5 100).

Definition no_wkt : list Z -> option (list Z) := fun _ => None.

Lemma toy_small : small_units no_wkt false 10 1000 toy_units.
Proof. split; vm_compute; discriminate. Qed.

(** The row is dispatched and on the channel, its placement not yet sent. *)
Definition toy_sent : Sys (E := unit) :=
  MkSys [AShip; AFlushAll; AShip; AFenced (Control tt); ADispatch [] 0 5 100 Commit; AMark 100; AMark 200] true
    (MkOutbox (MkAlloc 1 (Some (MkHeld [] [Placed 0 1]))) [] 0 0) [Batch [Register 0 100 false]] 0 [0] [inl (toy_row 0)].

Lemma toy_run : rtc (step no_wkt false 0) (start (sink_acts 10 1000 toy_units)) toy_sent.
Proof.
  eapply rtc_l; [eapply (s_dispatch no_wkt false 0 4096); reflexivity|]. cbn.
  eapply rtc_l; [eapply s_ship_rows; reflexivity|]. apply rtc_refl.
Qed.

Lemma sink_keeps_plan_order_witness :
  exists rest, [inl (toy_row 0); inr (Control tt)] = map erase (log toy_sent) ++ rest.
Proof. exact (proj1 (sink_keeps_plan_order no_wkt false 0 10 1000 toy_units toy_sent (Z.le_refl 0) toy_small toy_run)). Defined.


End SinkLive.
